(* ===== verification/_CoqProject ===== *)
-Q . S2P
Prelude.v
Probe.v
Types.v
TypesFacts.v
SymbolTable.v
SymbolTableFacts.v
Lexer.v
LexerFacts.v
IR.v
IRSemantics.v
Fold.v
FoldFacts.v
ControlFlow.v
ControlFlowFacts.v
CSE.v
CSEFacts.v
TempUse.v
TempUseFacts.v
DeadTempFacts.v
Propagation.v
PropagationFacts.v
Outcome.v
LinkBase.v
Coff.v
CoffFacts.v
Link.v
Relocation.v
LinkFacts.v
ResolveFacts.v
RelocationFacts.v
LinkBuildFacts.v
BinaryEmitter.v
CoffWriter.v
EmitterFacts.v
Slice.v
CoffNameFacts.v
CoffWriterFacts.v
CoffRoundTrip.v
Ast.v
TypeRules.v
AstClone.v
ErrorReporter.v
ErrorReporterFacts.v
TypeNames.v
TypeNamesFacts.v
TypeExpr.v
TypeExprFacts.v
TypeSoundness.v
TokenKind.v
ParserState.v
ParserTypes.v
ParserExpr.v
ParserStmt.v
ParserDecl.v
ParserLogic.v
ParserTypesFacts.v
ParserDeclFacts.v
ParserFacts.v
Encoders.v
X86.v
EncoderFacts.v
X86Facts.v
CompareFacts.v
MemoryFacts.v
FunctionContext.v
Frame.v
Operands.v
Selection.v
Instructions.v
Peephole.v
FunctionDriver.v
FrameFacts.v
SelectionFacts.v
Execution.v
BranchFacts.v
UnitFacts.v
BodyFacts.v
PrologueFacts.v
LayoutFacts.v
FunctionFacts.v
