(* ===== verification/Prelude.v ===== *)
(** * The Mettle compiler: a verification library

    This library models parts of the Mettle compiler (the C sources under src/src)
    and proves them correct.  Paths below are relative to src/src.

    ** The program

    A compilation reads source text with the lexer (lexer/lexer.c), builds a syntax
    tree with a recursive-descent parser (parser/parser.c, parser/ast.c) that reports
    to an error reporter (error/error_reporter.c), checks it with the help of the
    types and scopes of semantic/symbol_table.c, lowers it to a linear intermediate
    representation (ir/ir.c), optimizes that (ir/ir_optimize.c), generates machine
    code into the tables of an object writer (codegen/binary_emitter.c), writes an
    object file, and links objects into an image with its own linker (linker/).

    ** The files

    - Prelude: C characters and strings, machine integers, list lemmas; Probe: the FNV-1a
      hash and the open-addressing arrays that several components share.
    - Types, TypesFacts: [Type] objects in a store, struct layout and compatibility.
    - SymbolTable, SymbolTableFacts: symbols, scopes, the hash index of a scope.
    - Lexer, LexerFacts: lexer/lexer.c, one definition per function or per case of the
      scanner's switch; the state is the record [Lexer].
    - TokenKind, ParserState, ParserTypes, ParserExpr, ParserStmt, ParserDecl: the whole
      of parser/parser.c; one definition per function, with the loops and branches of
      the long ones as definitions of their own.  The parser is written over the class
      [TokenSource]; the lexer is its instance.  ParserLogic gives a program logic over
      [TokenSourceLaws]; Parser*Facts prove a contract for every function; ParserFacts
      discharges the laws for the lexer.
    - Ast, AstClone: nodes, their construction, [ast_clone_node].
    - ErrorReporter, ErrorReporterFacts: reports and the suggestions of close names.
    - TypeRules, TypeNames, TypeExpr: semantic/type_checker.c up to expressions.  TypeRules
      are its functions on types and trees that change nothing; TypeNames the state, in the
      monad [TM], and the types names stand for; TypeExpr the type of an expression, one
      definition per case of [type_checker_infer_type_internal].  TypeNamesFacts: the
      invariant [checker_ok] and what a name denotes.  TypeExprFacts: the typing rules,
      without state, errors, order or fuel.  TypeSoundness: inference against the rules.
    - IR, IRSemantics: the instructions and a machine that runs them, as a class
      [Machine] whose laws fix the integer fragment; floating point, memory, calls and
      the fused kernels are parameters, with [toy_machine] as a witness of the laws.
    - Fold, CSE, ControlFlow, TempUse, Propagation and their Facts (DeadTempFacts too):
      passes of ir/ir_optimize.c, each proved against the machine.
    - Encoders, EncoderFacts: codegen/binary/encoders.c over a list of bytes.  X86: a
      decoder and the meaning of the instructions the encoders produce, written from
      the processor's manual, the reference against which code generation is proved;
      flags the manual leaves undefined are [None].
    - FunctionContext, Frame: the tables of a function and the preparation of its frame
      (codegen/binary/abi.c, support.c).  Operands, Selection, Instructions: operands
      and the code of every instruction but calls and kernels (emit.c).  Peephole: the
      fused sequences (peephole.c).  FunctionDriver: argument layout, prologue, body,
      epilogue, fixups and the function's symbol (driver.c, abi.c, code_generator.c).
      They run in the monad [Gen] over [Output]; what answers for calls and kernels is
      the parameter [emit_other].
    - X86Facts, CompareFacts, MemoryFacts: what sequences leave in a register, flags and
      slots.  LayoutFacts: the frame.  FrameFacts: [represents], the correspondence of a
      state of the intermediate representation with a machine.  SelectionFacts,
      BranchFacts, UnitFacts, BodyFacts: operators, comparisons, fused and single units,
      bodies.  Execution: running bytes, and the bytes with their jumps patched.
      PrologueFacts, FunctionFacts: calls of whole functions.
    - BinaryEmitter, CoffWriter, EmitterFacts: the tables of the object writer and the COFF
      file made of them.
    - Outcome, LinkBase, Coff, Link, Relocation and their Facts: linker/coff_reader.c,
      linker/symbol_resolve.c and linker/relocation.c.
    - Slice, CoffNameFacts, CoffWriterFacts, CoffRoundTrip: what the linker reads from what
      the writer wrote.

    ** What is proved

    - Front end: [lexer_next_token] always returns, its tokens are slices of the text,
      its positions are exact up to the first string literal or error, string literals and
      words are read back;
      the parser stops on every text at its end, and reports every error it counts while
      the reporter has room; the
      deep copy of trees is exact on the trees it supports; suggestions are nearest
      candidates.
    - Semantic tables: the symbol table refines a stack of finite maps as long as
      its hash index can grow (otherwise a symbol is lost); declarations and scopes do what
      they promise; layouts respect
      alignment; compatibility decides a declarative equivalence.
    - Types: [infer_type_sound], without generic enums inference ends, with a type the rules
      give it and no error or with an error and no type, and leaves everything else alone;
      the names of types and the relations between types mean what they say.  Two theorems
      show what is not as it should be: arithmetic that loses a fraction, and generic enums
      that are instantiated without end.
    - Optimizer: each pass keeps the halting runs of a function, under hypotheses the
      examples show to be needed; some functions do not meet them and are miscompiled, by
      the elimination of dead temporaries and by the propagation of copies.
    - Code generation: encoders decode to the instruction they are named after; in a
      frame every parameter, local, temporary, result and saved register has bytes of its
      own, and the registers that hold variables are saved; the code selected for integer
      operators simulates them wherever their operands live, a promoted destination too
      narrow for the value apart; and [function_correct]:
      the bytes at the symbol of a compiled function, called by the convention, return
      what the function returns in the intermediate representation and preserve what the
      caller relies on.  It covers functions of integer instructions on temporaries and
      scalar variables with their fused comparisons and expressions ([function_check]
      decides it): no loads, stores, casts, floats or calls, no aliases among variables
      (the findings say why one is unsound) and no fused conditional assignment.  A
      shift out of range, a division that traps and [&&] on other values than truth
      values are excluded by [good], the hypothesis on the run.
    - Object files and linking: the reader is safe on any file; the writer's file is
      read back; merging, addresses, symbols and relocations meet their specifications,
      and the whole resolution refines [resolution_ok].

    ** Conventions

    - Memory allocation succeeds, except in the symbol table and in the index of the
      object writer, whose allocations take an argument that says which fail.  The
      checks for null arguments of the public functions are left out.
    - [size_t] is [nat] where it counts objects in memory and [Z] modulo 2^64 where the
      code computes with values that may wrap; other integers are [Z] with their wraps
      written out.  <ctype.h> is that of the C locale.
    - C strings are strings without NUL; [c_string] cuts a buffer at its first NUL.
    - A function that may meet undefined behaviour returns [checked] (Outcome),
      [presult] (ParserState) or, when it copies trees, an option; the theorems say where that cannot happen.
    - Passes over the intermediate representation keep the indices of instructions and
      return the changed flag as a boolean.
    - Growable arrays are lists, except the data of merged sections, whose capacity the
      code relies on.

    ** Fuel

    The scanner's loops take the characters left as fuel; the parser's recursion and
    loops take the tokens left ([parser_left]), which every activation decreases before
    it calls another; the probe loops take the size of the bucket array; type
    compatibility takes a bound on the types of the store; inference takes the height of
    the tree, and for each name its length and its opening angle brackets.
    [lexer_next_token_total], [parser_terminates], the facts of Probe,
    [types_compatible_correct] and [infer_type_sound] show that these amounts are never
    exhausted, the last while no generic enum is declared: with one no amount need be enough.

    ** Limits

    The COFF round trip needs fewer than 2^15 sections, 2^31 symbols and 2^16
    relocations in a section, string offsets of section names below 10^6, a file under
    4 GiB and names without NUL: the fields of the format.  Floating literals keep their
    text in place of the value of atof.  An addend that overflows a signed 64-bit sum
    is undefined behaviour in C and in the model.

    ** Not modelled

    Of the type checker: statements, declarations (among them the tagged enums a program
    declares, which enter the model as symbols) and the tracking of initialized variables
    and of buffers, which inference only reads.  [infer_type_sound] leaves out [static_assert],
    constants that overflow and checkers with generic enums.  Not at all: lowering, the text
    backend, the ELF writer and the PE image, import libraries, monomorphisation and imports,
    inlining, the loop idioms and vectorisation of the optimizer, profiling, debug
    information, the runtime and the driver.  In the binary backend: calls, runtime traps,
    vector kernels, constants of globals and start-up code; stack-trace markers are off, and
    a sum of C [int]s that overflows is refused.  The printing of diagnostics and of the
    intermediate representation, destructors and the file input of the linker only perform
    input, output or deallocation. *)

From stdpp Require Export base list strings numbers sets.

From Stdlib Require Export ZArith Lia Ascii.
From Stdlib Require Import DecimalString DecimalN.
From Stdlib Require String.
From coqutil Require Export Byte Word.LittleEndianList.

Abbreviation string_of_list_ascii := String.string_of_list_ascii.
Abbreviation list_ascii_of_string := String.list_ascii_of_string.

(** ** Characters *)

Declare Scope mettle_scope.
Delimit Scope mettle_scope with mettle.

(** Character equality of the C code ([c == 'x']). *)
Notation "a =c b" := (Ascii.eqb a b%char) (at level 70, no associativity) : mettle_scope.
Open Scope mettle_scope.

(** Code of a character as an [unsigned char]. *)
Definition char_code (c : ascii) : Z := Z.of_N (N_of_ascii c).

Definition in_range (lo hi : Z) (c : ascii) : bool :=
  (lo <=? char_code c)%Z && (char_code c <=? hi)%Z.

(** The [<ctype.h>] predicates in the "C" locale. *)
Definition isspace (c : ascii) : bool := (c =c " ") || in_range 9 13 c.
Definition isdigit (c : ascii) : bool := in_range 48 57 c.
Definition isupper (c : ascii) : bool := in_range 65 90 c.
Definition islower (c : ascii) : bool := in_range 97 122 c.
Definition isalpha (c : ascii) : bool := isupper c || islower c.
Definition isalnum (c : ascii) : bool := isalpha c || isdigit c.
Definition isxdigit (c : ascii) : bool :=
  isdigit c || in_range 65 70 c || in_range 97 102 c.

Definition tolower (c : ascii) : ascii :=
  if isupper c then ascii_of_N (N_of_ascii c + 32) else c.

Fixpoint string_tolower (s : string) : string :=
  match s with
  | EmptyString => EmptyString
  | String c s' => String (tolower c) (string_tolower s')
  end.

(** [strcasecmp (a, b) == 0] in the "C" locale. *)
Definition strcaseeq (a b : string) : bool :=
  String.eqb (string_tolower a) (string_tolower b).

(** [strlen]: the characters before the first NUL. *)
Fixpoint c_strlen (s : list ascii) : nat :=
  match s with
  | [] => 0
  | c :: s' => if c =c "000" then 0 else S (c_strlen s')
  end.

(** [strstr (s, sub) != NULL]. *)
Definition strstr (s sub : string) : bool :=
  match String.index 0 sub s with Some _ => true | None => false end.

(** The C string a buffer holds: its characters before the first NUL. *)
Definition c_string (s : string) : string :=
  string_of_list_ascii (take (c_strlen (list_ascii_of_string s)) (list_ascii_of_string s)).

(** Decimal rendering, [printf ("%d")] of a non-negative number. *)
Definition decimal (n : N) : string := NilEmpty.string_of_uint (N.to_uint n).
Definition decimal_value (s : string) : option N :=
  option_map N.of_uint (NilEmpty.uint_of_string s).

Lemma decimal_value_decimal n : decimal_value (decimal n) = Some n.
Proof.
  unfold decimal_value, decimal. rewrite NilEmpty.usu. simpl.
  f_equal. apply DecimalN.Unsigned.of_to.
Qed.

Lemma c_strlen_le s : c_strlen s ≤ length s.
Proof. induction s as [|c s IH]; simpl; [lia|]. case_match; lia. Qed.

Lemma c_strlen_no_nul s : "000"%char ∉ s → c_strlen s = length s.
Proof.
  induction s as [|c s IH]; simpl; intros Hn; [done|].
  destruct (Ascii.eqb_spec c "000"%char) as [->|_]; [set_solver|].
  f_equal. apply IH. set_solver.
Qed.

(** ** Machine integers *)

(** The value of [z] converted to an unsigned or a signed type of [w] bits. *)
Definition wrap_u (w z : Z) : Z := z mod 2 ^ w.
Definition wrap_s (w z : Z) : Z := (z + 2 ^ (w - 1)) mod 2 ^ w - 2 ^ (w - 1).

#[global] Arguments wrap_u : simpl never.
#[global] Arguments wrap_s : simpl never.

Abbreviation u8 := (wrap_u 8).
Abbreviation u16 := (wrap_u 16).
Abbreviation u32 := (wrap_u 32).
Abbreviation u64 := (wrap_u 64).
Abbreviation s32 := (wrap_s 32).
Abbreviation s64 := (wrap_s 64).

Lemma wrap_u_id w z : (0 ≤ z < 2 ^ w)%Z → wrap_u w z = z.
Proof. apply Z.mod_small. Qed.

Lemma wrap_u_range w z : (0 ≤ w)%Z → (0 ≤ wrap_u w z < 2 ^ w)%Z.
Proof. intros. apply Z.mod_pos_bound. by apply Z.pow_pos_nonneg. Qed.

Lemma pow2_half w : (0 < w)%Z → (2 ^ w = 2 * 2 ^ (w - 1))%Z.
Proof. intros. rewrite <- Z.pow_succ_r by lia. f_equal. lia. Qed.

Lemma wrap_s_id w z : (0 < w)%Z → (- 2 ^ (w - 1) ≤ z < 2 ^ (w - 1))%Z → wrap_s w z = z.
Proof. intros Hw Hz. unfold wrap_s. pose proof (pow2_half w Hw). rewrite Z.mod_small; lia. Qed.

Lemma wrap_s_range w z : (0 < w)%Z → (- 2 ^ (w - 1) ≤ wrap_s w z < 2 ^ (w - 1))%Z.
Proof.
  intros Hw. unfold wrap_s. pose proof (pow2_half w Hw).
  pose proof (Z.mod_pos_bound (z + 2 ^ (w - 1)) (2 ^ w)). lia.
Qed.

Lemma wrap_s_mod w z : (0 < w)%Z → (wrap_s w z mod 2 ^ w = z mod 2 ^ w)%Z.
Proof.
  intros Hw. unfold wrap_s. rewrite Zminus_mod_idemp_l. f_equal. lia.
Qed.

Lemma wrap_s_eq w a b : (0 < w)%Z → (a mod 2 ^ w = b mod 2 ^ w)%Z → wrap_s w a = wrap_s w b.
Proof.
  intros Hw H. unfold wrap_s. rewrite <- (Zplus_mod_idemp_l a), <- (Zplus_mod_idemp_l b).
  by rewrite H.
Qed.

Lemma wrap_s_wrap_u w z : (0 < w)%Z → wrap_s w (wrap_u w z) = wrap_s w z.
Proof. intros. apply wrap_s_eq; [done|]. unfold wrap_u. by rewrite Zmod_mod. Qed.

Definition in_s64 (z : Z) : Prop := (- 2 ^ 63 ≤ z < 2 ^ 63)%Z.

Lemma s64_in z : in_s64 z → s64 z = z.
Proof. intros [? ?]. apply wrap_s_id; [lia|]. split; simpl; lia. Qed.

Lemma s64_range z : in_s64 (s64 z).
Proof. apply (wrap_s_range 64). lia. Qed.

Lemma s64_u64 z : s64 (u64 z) = s64 z.
Proof. by apply wrap_s_wrap_u. Qed.

Section ranges.
#[local] Open Scope Z_scope.

(** Bitwise operators keep the range: the bits from 63 on all equal the sign. *)
Lemma in_s64_shiftr z : in_s64 z ↔ Z.shiftr z 63 = 0 ∨ Z.shiftr z 63 = -1.
Proof. rewrite Z.shiftr_div_pow2 by done. unfold in_s64. Z.to_euclidean_division_equations; lia. Qed.

Lemma in_s64_land a b : in_s64 a → in_s64 b → in_s64 (Z.land a b).
Proof. rewrite !in_s64_shiftr, Z.shiftr_land. intros [-> | ->] [-> | ->]; auto. Qed.
Lemma in_s64_lor a b : in_s64 a → in_s64 b → in_s64 (Z.lor a b).
Proof. rewrite !in_s64_shiftr, Z.shiftr_lor. intros [-> | ->] [-> | ->]; auto. Qed.
Lemma in_s64_lxor a b : in_s64 a → in_s64 b → in_s64 (Z.lxor a b).
Proof. rewrite !in_s64_shiftr, Z.shiftr_lxor. intros [-> | ->] [-> | ->]; auto. Qed.
Lemma in_s64_lnot a : in_s64 a → in_s64 (Z.lnot a).
Proof. unfold in_s64, Z.lnot. lia. Qed.

Lemma in_s64_shr a b : in_s64 a → 0 ≤ b → in_s64 (a / 2 ^ b).
Proof.
  unfold in_s64. intros Ha Hb. pose proof (Z.pow_pos_nonneg 2 b ltac:(lia) Hb).
  split; [apply Z.div_le_lower_bound; nia|apply Z.div_lt_upper_bound; nia].
Qed.

Lemma in_s64_quot a b : in_s64 a → b ≠ 0 → ¬ (a = - 2 ^ 63 ∧ b = -1) → in_s64 (Z.quot a b).
Proof.
  unfold in_s64. intros Ha Hb Hmin. destruct (decide (b = -1)) as [->|Hb1].
  { change (-1) with (- (1)). rewrite Z.quot_opp_r, Z.quot_1_r by lia. lia. }
  destruct (decide (b = 1)) as [->|Hb2]; [rewrite Z.quot_1_r; lia|].
  assert (Z.abs (Z.quot a b) * 2 ≤ Z.abs a); [|lia].
  rewrite <- Z.quot_abs by done. rewrite Z.quot_div_nonneg by lia.
  transitivity (Z.abs a / Z.abs b * Z.abs b); [|rewrite Z.mul_comm; apply Z.mul_div_le; lia].
  apply Z.mul_le_mono_nonneg_l; [apply Z.div_pos|]; lia.
Qed.
Lemma in_s64_rem a b : in_s64 a → b ≠ 0 → in_s64 (Z.rem a b).
Proof.
  unfold in_s64. intros Ha Hb. assert (Z.abs (Z.rem a b) ≤ Z.abs a); [|].
  { rewrite <- Z.rem_abs by done. rewrite Z.rem_mod_nonneg by lia. apply Z.mod_le; lia. }
  destruct (Z.le_gt_cases 0 a).
  - pose proof (Z.rem_nonneg a b). lia.
  - pose proof (Z.rem_nonpos a b). lia.
Qed.

End ranges.

(** ** Powers of two *)

(** The rounds of the loop that counts a shift: [u] halves until it is 1. *)
Fixpoint shift_amount (fuel : nat) (u amount : Z) : Z :=
  match fuel with
  | O => amount
  | S f => if (1 <? u)%Z then shift_amount f (Z.shiftr u 1) (amount + 1)%Z else amount
  end.

Section powers.
#[local] Open Scope Z_scope.

Lemma land_pred_pow2 v : 0 < v → Z.land v (v - 1) = 0 → v = 2 ^ Z.log2 v.
Proof.
  intros Hv Hz. pose proof (Z.log2_spec v Hv) as [Hlo Hhi].
  destruct (decide (v = 2 ^ Z.log2 v)) as [|Hne]; [done|exfalso].
  assert (Z.log2 (v - 1) = Z.log2 v) as Hlog.
  { apply Z.log2_unique; [apply Z.log2_nonneg|lia]. }
  assert (Z.testbit (Z.land v (v - 1)) (Z.log2 v) = true) as Hb; [|by rewrite Hz, Z.bits_0 in Hb].
  rewrite Z.land_spec, (Z.bit_log2 v) by done. rewrite <- Hlog. apply Z.bit_log2.
  pose proof (Z.pow_pos_nonneg 2 (Z.log2 v) ltac:(lia) (Z.log2_nonneg v)). lia.
Qed.

Lemma land_pow2_pred k : 0 ≤ k → Z.land (2 ^ k) (2 ^ k - 1) = 0.
Proof.
  intros Hk. replace (2 ^ k - 1) with (Z.ones k) by (rewrite Z.ones_equiv; lia).
  rewrite Z.land_ones by done. apply Z.mod_same. lia.
Qed.

Lemma shift_amount_pow2 fuel k a : (k ≤ fuel)%nat → shift_amount fuel (2 ^ Z.of_nat k) a = a + Z.of_nat k.
Proof.
  revert k a. induction fuel as [|f IH]; intros k a Hk; simpl.
  - replace k with 0%nat by lia. simpl. lia.
  - destruct k as [|k]; [simpl; lia|].
    rewrite Nat2Z.inj_succ, Z.pow_succ_r by lia.
    pose proof (Z.pow_pos_nonneg 2 (Z.of_nat k) ltac:(lia) ltac:(lia)).
    destruct (Z.ltb_spec 1 (2 * 2 ^ Z.of_nat k)); [|lia].
    replace (Z.shiftr (2 * 2 ^ Z.of_nat k) 1) with (2 ^ Z.of_nat k)
      by (rewrite Z.shiftr_div_pow2 by done; symmetry; rewrite Z.mul_comm; by apply Z.div_mul).
    rewrite IH by lia. lia.
Qed.

(** A number with one bit set, as the compiler tests for it. *)
Lemma shift_amount_spec fuel v :
  0 < v < 2 ^ (Z.of_nat fuel + 1) → Z.land v (v - 1) = 0 →
  0 ≤ shift_amount fuel v 0 ≤ Z.of_nat fuel ∧ v = 2 ^ shift_amount fuel v 0.
Proof.
  intros [Hv Hf] Hz. apply land_pred_pow2 in Hz; [|done]. pose proof (Z.log2_nonneg v) as Hn.
  assert (Z.log2 v < Z.of_nat fuel + 1) by (apply Z.log2_lt_pow2; lia).
  assert (shift_amount fuel v 0 = Z.log2 v) as ->; [|by split; [lia|]].
  rewrite Hz at 1. rewrite <- (Z2Nat.id (Z.log2 v)), shift_amount_pow2 by lia. lia.
Qed.

End powers.

(** ** Loops that may fail *)

Fixpoint fold_option {S A} (f : S → A → option S) (l : list A) (s : S) : option S :=
  match l with
  | [] => Some s
  | a :: l => s' ← f s a; fold_option f l s'
  end.

(** An invariant of the list processed so far and the state. *)
Lemma fold_option_ind {S A} (P : list A → S → Prop) (f : S → A → option S) l s s' :
  P [] s → (∀ done a s s', a ∈ l → P done s → f s a = Some s' → P (done ++ [a]) s') →
  fold_option f l s = Some s' → P l s'.
Proof.
  intros H0 Hstep. assert (∀ rest done s, l = done ++ rest → P done s → fold_option f rest s = Some s' → P l s') as H.
  { clear s H0. induction rest as [|a rest IH]; intros done s Hl Hp; simpl.
    - intros [= ->]. by rewrite Hl, app_nil_r.
    - intros (s1 & Hs & Hr)%bind_Some. apply (IH (done ++ [a]) s1); [by rewrite <- app_assoc| |done].
      apply (Hstep done a s); [|done..]. rewrite Hl. apply elem_of_app. right. left. }
  by apply (H l [] s).
Qed.

(** One that does not mention the list. *)
Lemma fold_option_inv {S A} (P : S → Prop) (f : S → A → option S) l s s' :
  P s → (∀ a s s', a ∈ l → P s → f s a = Some s' → P s') → fold_option f l s = Some s' → P s'.
Proof. intros H0 Hstep Hf. apply (fold_option_ind (λ _, P) f l s s'); [done| |done]. eauto. Qed.
