(* ===== verification/Probe.v ===== *)
(** * Open addressing with linear probing

    The bucket arrays shared by the symbol table's name index
    (src/src/semantic/symbol_table.c) and the optimizer's use map
    (src/src/ir/ir_optimize.c): a power-of-two array of [index + 1], zero marking
    an empty bucket, filled by linear probing from the name's FNV-1a hash. *)

From S2P Require Import Prelude.

(** ** The hash *)

Definition size_t_modulus : N := 2 ^ 64.

Fixpoint fnv1a_loop (hash : N) (s : string) : N :=
  match s with
  | EmptyString => hash
  | String c s' =>
      fnv1a_loop ((N.lxor hash (N_of_ascii c) * 1099511628211) mod size_t_modulus) s'
  end.

(** [mettle_fnv1a_hash] (src/src/common.c). *)
Definition mettle_fnv1a_hash (s : string) : N := fnv1a_loop 1469598103934665603 s.

(** ** Probing *)

(** [hash & mask] and [(pos + 1) & mask] with [mask = bucket_count - 1]. *)
Definition home_slot (hash : N) (count : nat) : nat :=
  N.to_nat (N.land hash (N.of_nat count - 1)).
Definition next_slot (count pos : nat) : nat :=
  N.to_nat (N.land (N.of_nat pos + 1) (N.of_nat count - 1)).

(** [while (buckets[pos] != 0) pos = (pos + 1) & mask; buckets[pos] = v;]
    The fuel is one more than the number of buckets: the loop visits a bucket
    twice only if it never ends ([None]). *)
Fixpoint probe_insert_loop (fuel : nat) (buckets : list nat) (pos v : nat) : option (list nat) :=
  match fuel with
  | 0 => None
  | S f =>
      match buckets !! pos with
      | Some 0 => Some (<[pos:=v]> buckets)
      | Some (S _) => probe_insert_loop f buckets (next_slot (length buckets) pos) v
      | None => None
      end
  end.

Definition probe_insert (buckets : list nat) (hash : N) (v : nat) : option (list nat) :=
  probe_insert_loop (S (length buckets)) buckets (home_slot hash (length buckets)) v.

(** The probing loop that stops on its own entry or on an empty bucket. *)
Fixpoint register_loop (fuel : nat) (buckets : list nat) (pos v : nat) : option (list nat) :=
  match fuel with
  | 0 => None
  | S f =>
      match buckets !! pos with
      | Some 0 => Some (<[pos:=v]> buckets)
      | Some w =>
          if w =? v then Some buckets
          else register_loop f buckets (next_slot (length buckets) pos) v
      | None => None
      end
  end.

(** Inserting entries [i .. i + count - 1], given their hashes. *)
Fixpoint rebuild_loop (hash : nat → N) (count i : nat) (buckets : list nat) : option (list nat) :=
  match count with
  | 0 => Some buckets
  | S c =>
      match probe_insert buckets (hash i) (S i) with
      | Some buckets' => rebuild_loop hash c (S i) buckets'
      | None => None
      end
  end.

(** The lookup loop: [Some (Some i)] is the first probed index that passes the
    test, [Some None] an empty bucket, [None] a loop that never ends. *)
Fixpoint probe_find_loop (fuel : nat) (test : nat → bool) (buckets : list nat) (pos : nat)
    : option (option nat) :=
  match fuel with
  | 0 => None
  | S f =>
      match buckets !! pos with
      | Some 0 => Some None
      | Some (S i) =>
          if test i then Some (Some i)
          else probe_find_loop f test buckets (next_slot (length buckets) pos)
      | None => None
      end
  end.

Definition probe_find (test : nat → bool) (buckets : list nat) (hash : N) : option (option nat) :=
  probe_find_loop (S (length buckets)) test buckets (home_slot hash (length buckets)).

(** ** Slots of a power-of-two array *)

Definition power_of_two (n : nat) : Prop := ∃ k, n = 2 ^ k.

Lemma power_of_two_pos n : power_of_two n → 0 < n.
Proof. intros [k ->]. assert (2 ^ k ≠ 0) by (apply Nat.pow_nonzero; lia). lia. Qed.

Lemma power_of_two_double n : power_of_two n → power_of_two (n * 2).
Proof. intros [k ->]. exists (S k). simpl. lia. Qed.

Lemma land_mask (x : N) n :
  power_of_two n → N.to_nat (N.land x (N.of_nat n - 1)) = N.to_nat (x mod N.of_nat n).
Proof.
  intros [k ->]. rewrite Nat2N.inj_pow. change (N.of_nat 2) with 2%N.
  replace (2 ^ N.of_nat k - 1)%N with (N.ones (N.of_nat k))
    by (rewrite N.ones_equiv; lia).
  by rewrite N.land_ones.
Qed.

Lemma home_slot_lt h n : power_of_two n → home_slot h n < n.
Proof.
  intros Hn. unfold home_slot. rewrite land_mask by done.
  pose proof (power_of_two_pos _ Hn). pose proof (N.mod_lt h (N.of_nat n)). lia.
Qed.

Lemma next_slot_mod n p : power_of_two n → next_slot n p = (p + 1) mod n.
Proof.
  intros Hn. unfold next_slot. rewrite land_mask by done.
  pose proof (power_of_two_pos _ Hn).
  apply Nat2N.inj. rewrite N2Nat.id, Nat2N.inj_mod, Nat2N.inj_add. done.
Qed.

(** The bucket reached after [d] steps from [h]. *)
Definition slot (n h d : nat) : nat := (h + d) mod n.

Lemma next_slot_slot n h d : power_of_two n → next_slot n (slot n h d) = slot n h (S d).
Proof.
  intros Hn. rewrite next_slot_mod by done. unfold slot.
  pose proof (power_of_two_pos _ Hn). rewrite Nat.Div0.add_mod_idemp_l. f_equal. lia.
Qed.

Lemma slot_0 n h : h < n → slot n h 0 = h.
Proof. intros. unfold slot. rewrite Nat.add_0_r. by apply Nat.mod_small. Qed.

Lemma slot_lt n h d : 0 < n → slot n h d < n.
Proof. intros. apply Nat.mod_upper_bound. lia. Qed.

(** Every bucket is within [n - 1] steps of every other. *)
Lemma slot_reach n h s : h < n → s < n → ∃ d, d < n ∧ slot n h d = s.
Proof.
  intros Hh Hs. unfold slot. destruct (Nat.le_gt_cases h s).
  - exists (s - h). split; [lia|]. replace (h + (s - h)) with s by lia. by apply Nat.mod_small.
  - exists (n + s - h). split; [lia|]. replace (h + (n + s - h)) with (s + 1 * n) by lia.
    rewrite Nat.Div0.mod_add. by apply Nat.mod_small.
Qed.

(** ** The index invariant *)

Section index.
(** [home i]: the hash of entry [i]; entries [0 .. m-1] have been inserted in order. *)
Context (home : nat → N).

Record index_ok (bs : list nat) (m : nat) : Prop := {
  ix_size : power_of_two (length bs);
  ix_entry s i :
    bs !! s = Some (S i) →
    i < m ∧ ∃ d, d < length bs ∧ s = slot (length bs) (home_slot (home i) (length bs)) d ∧
      ∀ e, e < d → ∃ j, j < i ∧
        bs !! slot (length bs) (home_slot (home i) (length bs)) e = Some (S j);
  ix_complete i : i < m → ∃ s, bs !! s = Some (S i);
  ix_count : length (filter (fun v => v ≠ 0) bs) = m }.

Lemma index_empty n : power_of_two n → index_ok (replicate n 0) 0.
Proof.
  intros Hn. split.
  - by rewrite length_replicate.
  - intros s i Hs. apply lookup_replicate in Hs as [? _]. done.
  - lia.
  - clear Hn. induction n as [|n IH]; [done|].
    cbn [replicate]. rewrite filter_cons_False by lia. done.
Qed.

Lemma zero_slot_exists (bs : list nat) :
  length (filter (fun v => v ≠ 0) bs) < length bs → ∃ s, bs !! s = Some 0.
Proof.
  induction bs as [|[|v] bs IH]; [simpl; lia| |].
  - intros _. by exists 0.
  - rewrite filter_cons_True by lia. simpl. intros H.
    destruct IH as [s Hs]; [lia|]. by exists (S s).
Qed.

(** The first empty bucket met from [h]. *)
Lemma first_empty (bs : list nat) h :
  h < length bs → length (filter (fun v => v ≠ 0) bs) < length bs →
  ∃ d, d < length bs ∧ bs !! slot (length bs) h d = Some 0 ∧
    ∀ e, e < d → ∃ i, bs !! slot (length bs) h e = Some (S i).
Proof.
  intros Hh Hc. destruct (zero_slot_exists bs Hc) as [s Hs].
  pose proof (lookup_lt_Some _ _ _ Hs) as Hlt.
  destruct (slot_reach (length bs) h s Hh Hlt) as (d0 & Hd0 & <-).
  revert Hs. induction d0 as [d IH] using lt_wf_ind. intros Hs.
  destruct (decide (Exists (fun e => bs !! slot (length bs) h e = Some 0) (seq 0 d))) as [He|He].
  - apply Exists_exists in He as (e & He%elem_of_seq & He0).  apply (IH e); [lia|apply slot_lt; lia|lia|done].
  - exists d. split_and!; [done..|]. intros e Hed.
    destruct (lookup_lt_is_Some_2 bs (slot (length bs) h e)) as [[|i] Hv];
      [apply slot_lt; lia| |by exists i].
    destruct He. apply Exists_exists. exists e. split; [|done]. apply elem_of_seq. lia.
Qed.

Lemma insert_loop_from (bs : list nat) h v d e fuel :
  power_of_two (length bs) → bs !! slot (length bs) h d = Some 0 →
  (∀ e, e < d → ∃ i, bs !! slot (length bs) h e = Some (S i)) →
  e ≤ d → d - e < fuel →
  probe_insert_loop fuel bs (slot (length bs) h e) v = Some (<[slot (length bs) h d:=v]> bs).
Proof.
  intros Hn H0 Hbefore. revert fuel. remember (d - e) as k eqn:Hk. revert e Hk.
  induction k as [|k IH]; intros e Hk fuel Hed Hf; (destruct fuel as [|f]; [lia|]); simpl.
  - replace e with d by lia. by rewrite H0.
  - destruct (Hbefore e) as [i ->]; [lia|]. rewrite next_slot_slot by done.
    apply IH; lia.
Qed.

(** Writing the next entry into the first empty bucket of its probe sequence. *)
Lemma index_insert_at bs m d :
  index_ok bs m → d < length bs →
  let n := length bs in let h := home_slot (home m) n in
  bs !! slot n h d = Some 0 →
  (∀ e, e < d → ∃ i, bs !! slot n h e = Some (S i)) →
  index_ok (<[slot n h d:=S m]> bs) (S m).
Proof.
  intros [Hn Hentry Hcomp Hcount] Hd n h H0 Hbefore. fold n in Hn, Hentry, Hd.
  pose proof (lookup_lt_Some _ _ _ H0) as Hlt.
  assert (∀ s, s ≠ slot n h d → <[slot n h d:=S m]> bs !! s = bs !! s) as Hne
    by (intros; by apply list_lookup_insert_ne).
  split; rewrite ?length_insert; fold n.
  - done.
  - intros s i Hs. destruct (decide (s = slot n h d)) as [->|Hsd].
    + rewrite list_lookup_insert_eq in Hs by done. simplify_eq.
      split; [lia|]. exists d. split_and!; [done..|]. intros e He.
      destruct (Hbefore e He) as [j Hj]. exists j.
      split; [by apply Hentry in Hj as [? _]|]. rewrite Hne; [done|].
      fold h. congruence.
    + rewrite Hne in Hs by done. destruct (Hentry s i Hs) as (Hi & e & He & Hse & Hch).
      split; [lia|]. exists e. split_and!; [done..|]. intros e' He'.
      destruct (Hch e' He') as (j & Hj & Hlook). exists j. split; [done|].
      rewrite Hne; [done|]. congruence.
  - intros i Hi. destruct (decide (i = m)) as [->|].
    + exists (slot n h d). by rewrite list_lookup_insert_eq.
    + destruct (Hcomp i) as [s Hs]; [lia|]. exists s. rewrite Hne; [done|]. congruence.
  - pose proof (take_drop_middle bs _ _ H0) as Hsplit.
    assert (length (filter (fun v => v ≠ 0)
      (take (slot n h d) bs ++ 0 :: drop (S (slot n h d)) bs)) = m) as Hc
      by (by rewrite Hsplit).
    rewrite insert_take_drop by done.
    rewrite filter_app, length_app, filter_cons_False in Hc by lia.
    rewrite filter_app, length_app, filter_cons_True by lia. simpl. lia.
Qed.

(** The bucket where the next entry goes. *)
Lemma index_next_slot bs m :
  index_ok bs m → m < length bs →
  ∃ d, d < length bs ∧ bs !! slot (length bs) (home_slot (home m) (length bs)) d = Some 0 ∧
    ∀ e, e < d → ∃ i, i < m ∧
      bs !! slot (length bs) (home_slot (home m) (length bs)) e = Some (S i).
Proof.
  intros [Hn Hentry _ Hcount] Hm.
  destruct (first_empty bs (home_slot (home m) (length bs))) as (d & Hd & H0 & Hbefore);
    [by apply home_slot_lt|by rewrite Hcount|].
  exists d. split_and!; [done..|]. intros e He. destruct (Hbefore e He) as [i Hi].
  exists i. split; [by apply Hentry in Hi as [? _]|done].
Qed.

Lemma probe_insert_spec bs m :
  index_ok bs m → m < length bs →
  ∃ bs', probe_insert bs (home m) (S m) = Some bs' ∧ length bs' = length bs ∧
    index_ok bs' (S m).
Proof.
  intros Hix Hm. destruct (index_next_slot bs m Hix Hm) as (d & Hd & H0 & Hbefore).
  assert (∀ e, e < d → ∃ i, bs !! slot (length bs) (home_slot (home m) (length bs)) e = Some (S i))
    as Hbefore' by (intros e He; destruct (Hbefore e He) as (i & _ & ?); eauto).
  pose proof (ix_size _ _ Hix) as Hn. pose proof (home_slot_lt (home m) _ Hn) as Hh.
  exists (<[slot (length bs) (home_slot (home m) (length bs)) d:=S m]> bs).
  split_and!; [|apply length_insert|by apply (index_insert_at bs m d)].
  unfold probe_insert. set (h := home_slot (home m) (length bs)) in *.
  replace (probe_insert_loop (S (length bs)) bs h)
    with (probe_insert_loop (S (length bs)) bs (slot (length bs) h 0))
    by (f_equal; by apply slot_0).
  apply (insert_loop_from bs h (S m) d 0); try done; lia.
Qed.

Lemma register_loop_from (bs : list nat) h v d e fuel :
  power_of_two (length bs) →
  (∀ e, e < d → ∃ i, bs !! slot (length bs) h e = Some (S i) ∧ S i ≠ v) →
  e ≤ d → d - e < fuel → v ≠ 0 →
  ((bs !! slot (length bs) h d = Some 0 →
    register_loop fuel bs (slot (length bs) h e) v = Some (<[slot (length bs) h d:=v]> bs)) ∧
   (bs !! slot (length bs) h d = Some v →
    register_loop fuel bs (slot (length bs) h e) v = Some bs)).
Proof.
  intros Hn Hbefore. revert fuel. remember (d - e) as k eqn:Hk. revert e Hk.
  induction k as [|k IH]; intros e Hk fuel Hed Hf Hv; (destruct fuel as [|f]; [lia|]); simpl.
  - replace e with d by lia. split; intros ->; [done|].
    destruct v; [done|]. by rewrite Nat.eqb_refl.
  - destruct (Hbefore e) as (i & -> & Hi); [lia|]. rewrite next_slot_slot by done.
    destruct (Nat.eqb_spec (S i) v); [done|]. apply IH; lia.
Qed.

(** Registering entry [m]: a fresh entry is inserted, an entry already placed by
    a rebuild is left alone. *)
Lemma register_spec bs m :
  m < length bs → index_ok bs m ∨ index_ok bs (S m) →
  ∃ bs', register_loop (S (length bs)) bs (home_slot (home m) (length bs)) (S m) = Some bs' ∧
    length bs' = length bs ∧ index_ok bs' (S m).
Proof.
  intros Hm Hcase.
  assert (power_of_two (length bs)) as Hn by (by destruct Hcase as [[? _ _ _]|[? _ _ _]]).
  pose proof (home_slot_lt (home m) _ Hn) as Hh.
  set (h := home_slot (home m) (length bs)) in *.
  destruct Hcase as [Hix|Hix].
  - destruct (index_next_slot bs m Hix Hm) as (d & Hd & H0 & Hbefore). fold h in H0, Hbefore.
    exists (<[slot (length bs) h d:=S m]> bs). split_and!; [|apply length_insert|].
    + destruct (register_loop_from bs h (S m) d 0 (S (length bs))) as [Hins _];
        try done; [|lia|lia|].
      { intros e He. destruct (Hbefore e He) as (i & ? & ?). exists i. split; [done|lia]. }
      rewrite slot_0 in Hins by done. by apply Hins.
    + apply (index_insert_at bs m d); try done. fold h.
      intros e He. destruct (Hbefore e He) as (i & _ & ?). eauto.
  - exists bs. split_and!; [|done..]. destruct Hix as [_ Hentry Hcomp _].
    destruct (Hcomp m) as [s Hs]; [lia|].
    destruct (Hentry s m Hs) as (_ & d & Hd & -> & Hch). fold h in Hs, Hch.
    destruct (register_loop_from bs h (S m) d 0 (S (length bs))) as [_ Hfound];
      try done; [|lia|lia|].
    { intros e He. destruct (Hch e He) as (j & ? & ?). exists j. split; [done|lia]. }
    rewrite slot_0 in Hfound by done. by apply Hfound.
Qed.

Lemma find_loop_from test bs m h d fuel :
  index_ok bs m → m < length bs → h < length bs →
  (∀ i, i < m → test i = true → home_slot (home i) (length bs) = h) →
  d < length bs → bs !! slot (length bs) h d = Some 0 →
  ∀ e, e ≤ d → d - e < fuel →
  (∀ e', e' < e → ∃ j, bs !! slot (length bs) h e' = Some (S j) ∧ test j = false) →
  match probe_find_loop fuel test bs (slot (length bs) h e) with
  | Some (Some i) => i < m ∧ test i = true ∧ ∀ j, j < i → test j = false
  | Some None => ∀ j, j < m → test j = false
  | None => False
  end.
Proof.
  intros [Hn Hentry Hcomp _] Hm Hh Htest Hd H0 e Hed. remember (d - e) as k eqn:Hk.
  revert e Hk Hed fuel. induction k as [k IH] using lt_wf_ind.
  intros e -> Hed fuel Hf Hfalse. set (n := length bs) in *.
  (* an entry that passes the test sits at an offset not yet visited *)
  assert (∀ j, j < m → test j = true → ∃ e', e ≤ e' ∧ e' < n ∧ bs !! slot n h e' = Some (S j) ∧
    ∀ e'', e'' < e' → ∃ w, w < j ∧ bs !! slot n h e'' = Some (S w)) as Hahead.
  { intros j Hj Hpass. destruct (Hcomp j Hj) as [s Hs].
    destruct (Hentry s j Hs) as (_ & e' & He' & -> & Hch). 
    rewrite (Htest j Hj Hpass) in Hch, Hs. exists e'. split_and!; try done.
    destruct (Nat.le_gt_cases e e') as [|Hlt]; [done|].
    destruct (Hfalse e' Hlt) as (j' & Hj' & ?). congruence. }
  destruct fuel as [|f]; [lia|]. simpl.
  destruct (lookup_lt_is_Some_2 bs (slot n h e)) as [v Hv]; [apply slot_lt; unfold n; lia|].
  rewrite Hv. destruct v as [|i].
  - intros j Hj. destruct (test j) eqn:Hpass; [|done]. exfalso.
    destruct (Hahead j Hj Hpass) as (e' & Hle & _ & Hlook & Hch).
    destruct (decide (e = e')) as [->|]; [congruence|].
    destruct (Hch e ltac:(lia)) as (w & _ & Hw). congruence.
  - destruct (test i) eqn:Hti.
    + destruct (Hentry _ _ Hv) as [Him _]. split_and!; [done..|].
      intros j Hj. destruct (test j) eqn:Hpass; [|done]. exfalso.
      destruct (Hahead j ltac:(lia) Hpass) as (e' & Hle & _ & Hlook & Hch).
      destruct (decide (e = e')) as [->|]; [simplify_eq; lia|].
      destruct (Hch e ltac:(lia)) as (w & ? & Hw). simplify_eq; lia.
    + destruct (decide (e = d)) as [->|]; [congruence|].
      fold n. rewrite next_slot_slot by done.
      apply (IH (d - S e)); try lia. intros e' He'.
      destruct (decide (e' = e)) as [->|]; [by exists i|]. apply Hfalse. lia.
Qed.

(** Lookup by probing is the linear scan for the first entry that passes. *)
Lemma probe_find_spec test bs m hash :
  index_ok bs m → m < length bs →
  (∀ i, i < m → test i = true → home i = hash) →
  match probe_find test bs hash with
  | Some (Some i) => i < m ∧ test i = true ∧ ∀ j, j < i → test j = false
  | Some None => ∀ j, j < m → test j = false
  | None => False
  end.
Proof.
  intros Hix Hm Htest. pose proof Hix as [Hn _ _ Hcount].
  pose proof (home_slot_lt hash (length bs) Hn) as Hh.
  destruct (first_empty bs (home_slot hash (length bs)) Hh) as (d & Hd & H0 & _);
    [by rewrite Hcount|].
  unfold probe_find. set (h := home_slot hash (length bs)) in *.
  pose proof (find_loop_from test bs m h d (S (length bs)) Hix Hm Hh) as Hloop.
  specialize (Hloop ltac:(by intros i Hi Hpass; rewrite (Htest i Hi Hpass)) Hd H0 0).
  rewrite slot_0 in Hloop by done. apply Hloop; lia.
Qed.
End index.

(** The invariant only looks at the hashes of the entries. *)
Lemma index_ok_ext home home' bs m :
  (∀ i, i < m → home i = home' i) → index_ok home bs m → index_ok home' bs m.
Proof.
  intros Hext [Hn Hentry Hcomp Hcount]. split; try done.
  intros s i Hs. destruct (Hentry s i Hs) as (Hi & d & Hd & Heq & Hch).
  rewrite (Hext i Hi) in Heq, Hch. split; [done|]. by exists d.
Qed.

Lemma rebuild_loop_spec home count i bs :
  index_ok home bs i → i + count ≤ length bs →
  ∃ bs', rebuild_loop home count i bs = Some bs' ∧ length bs' = length bs ∧
    index_ok home bs' (i + count).
Proof.
  revert i bs. induction count as [|c IH]; intros i bs Hix Hlen; simpl.
  - exists bs. by rewrite Nat.add_0_r.
  - destruct (probe_insert_spec home bs i Hix) as (bs1 & -> & Hlen1 & Hix1); [lia|].
    destruct (IH (S i) bs1 Hix1) as (bs2 & -> & Hlen2 & Hix2); [lia|].
    exists bs2. replace (i + S c) with (S i + c) by lia. split_and!; [done|lia|done].
Qed.
