(* ===== verification/Types.v ===== *)
(** * Types: the [Type] objects of src/src/semantic/symbol_table.h

    Type objects live in a store and refer to each other by address, as the C
    structures do; creation, struct layout, field lookup and the compatibility
    test of src/src/semantic/symbol_table.c. *)

From stdpp Require Import gmap.
From S2P Require Import Prelude.
#[local] Open Scope Z_scope.

(** ** Data *)

Inductive TypeKind : Type :=
  | TYPE_INT8 | TYPE_INT16 | TYPE_INT32 | TYPE_INT64
  | TYPE_UINT8 | TYPE_UINT16 | TYPE_UINT32 | TYPE_UINT64
  | TYPE_BOOL | TYPE_FLOAT32 | TYPE_FLOAT64 | TYPE_STRING
  | TYPE_FUNCTION_POINTER | TYPE_POINTER | TYPE_ARRAY | TYPE_STRUCT
  | TYPE_ENUM | TYPE_TAGGED_ENUM | TYPE_VOID.

#[export] Instance TypeKind_eq_dec : EqDecision TypeKind.
Proof. solve_decision. Defined.

(** The address of a type object; [NULL] is [None]. *)
Abbreviation tid := positive.

Record Type_ : Type := mkType {
  kind : TypeKind;
  tname : option string;
  size : Z;
  alignment : Z;
  base_type : option tid;
  array_size : Z;
  fn_param_types : list (option tid);   (* its length is fn_param_count *)
  fn_return_type : option tid;
  field_names : list string;            (* their length is field_count *)
  field_types : list tid;
  field_offsets : list Z;
  tagged_variant_names : list string;   (* their length is tagged_variant_count *)
  tagged_variant_tags : list Z;
  tagged_variant_payloads : list (option tid);
  tagged_data_offset : Z;
  tagged_data_size : Z }.

Abbreviation type_store := (gmap tid Type_).

(** ** Creation *)

(** The default size and alignment of [type_create]. *)
Definition default_size (k : TypeKind) : Z :=
  match k with
  | TYPE_INT8 | TYPE_UINT8 => 1
  | TYPE_INT16 | TYPE_UINT16 => 2
  | TYPE_INT32 | TYPE_UINT32 | TYPE_FLOAT32 => 4
  | TYPE_INT64 | TYPE_UINT64 | TYPE_FLOAT64 | TYPE_POINTER | TYPE_ENUM => 8
  | _ => 0
  end.

Definition type_create (k : TypeKind) (name : option string) : Type_ :=
  mkType k name (default_size k) (default_size k) None 0 [] None [] [] [] [] [] [] 0 0.

Definition type_create_function_pointer (param_types : list (option tid))
    (return_type : option tid) : Type_ :=
  mkType TYPE_FUNCTION_POINTER (Some "function"%string) 8 8 None 0 param_types return_type
    [] [] [] [] [] [] 0 0.

(** ** Struct layout *)

(** [padding] up to the next multiple of [al]. *)
Definition padding_to (al offset : Z) : Z := (al - offset mod al) mod al.

(** The layout loop over the fields' (size, alignment): the offsets so far, the
    current offset and the largest alignment; [None] is the division by zero of a
    field of alignment zero. *)
Fixpoint layout_loop (fields : list (Z * Z)) (offsets : list Z) (current max_alignment : Z)
    : option (list Z * Z * Z) :=
  match fields with
  | [] => Some (offsets, current, max_alignment)
  | (sz, al) :: fields' =>
      let max_alignment := if max_alignment <? al then al else max_alignment in
      if al =? 0 then None
      else
        let current := u64 (current + padding_to al current) in
        layout_loop fields' (offsets ++ [current]) (u64 (current + sz)) max_alignment
  end.

(** Offsets, total size and alignment of a struct. *)
Definition struct_layout (fields : list (Z * Z)) : option (list Z * Z * Z) :=
  match layout_loop fields [] 0 1 with
  | Some (offsets, current, max_alignment) =>
      Some (offsets, u64 (current + padding_to max_alignment current), max_alignment)
  | None => None
  end.

Definition size_align (store : type_store) (t : tid) : option (Z * Z) :=
  (fun ty => (size ty, alignment ty)) <$> store !! t.

(** [None] is undefined behaviour (a dangling field type, a division by zero);
    [Some None] is the NULL result for an empty struct. *)
Definition type_create_struct (store : type_store) (name : string) (names : list string)
    (types : list tid) : option (option Type_) :=
  match types with
  | [] => Some None
  | _ =>
      match mapM (size_align store) types with
      | Some fields =>
          match struct_layout fields with
          | Some (offsets, total, al) =>
              Some (Some (mkType TYPE_STRUCT (Some name) total al None 0 [] None
                            names types offsets [] [] [] 0 0))
          | None => None
          end
      | None => None
      end
  end.

(** ** Field lookup *)

Fixpoint field_scan {A} (names : list string) (values : list A) (field : string) : option A :=
  match names, values with
  | n :: names', v :: values' => if String.eqb n field then Some v else field_scan names' values' field
  | _, _ => None
  end.

Definition has_fields (t : Type_) : bool :=
  match kind t with TYPE_STRUCT | TYPE_STRING => true | _ => false end.

Definition type_get_field_type (t : Type_) (field : string) : option tid :=
  if has_fields t then field_scan (field_names t) (field_types t) field else None.

(** Zero stands for "not found" as well as for the first offset. *)
Definition type_get_field_offset (t : Type_) (field : string) : Z :=
  if has_fields t then
    match field_scan (field_names t) (field_offsets t) field with Some o => o | None => 0 end
  else 0.

(** ** Compatibility *)

Fixpoint all_compatible (compat : option tid → option tid → option bool)
    (ls rs : list (option tid)) : option bool :=
  match ls, rs with
  | l :: ls', r :: rs' =>
      match compat l r with
      | Some true => all_compatible compat ls' rs'
      | other => other
      end
  | _, _ => Some true
  end.

(** [None]: a dangling reference or fuel exhausted. *)
Fixpoint symbol_table_types_compatible (fuel : nat) (store : type_store) (lhs rhs : option tid)
    : option bool :=
  match fuel with
  | O => None
  | S f =>
      if decide (lhs = rhs) then Some true
      else
        match lhs, rhs with
        | Some a, Some b =>
            match store !! a, store !! b with
            | Some l, Some r =>
                if decide (kind l = kind r) then
                  match kind l with
                  | TYPE_FUNCTION_POINTER =>
                      if decide (length (fn_param_types l) = length (fn_param_types r)) then
                        match symbol_table_types_compatible f store (fn_return_type l)
                                (fn_return_type r) with
                        | Some true =>
                            all_compatible (symbol_table_types_compatible f store)
                              (fn_param_types l) (fn_param_types r)
                        | other => other
                        end
                      else Some false
                  | TYPE_ARRAY =>
                      if array_size l =? array_size r then
                        symbol_table_types_compatible f store (base_type l) (base_type r)
                      else Some false
                  | TYPE_POINTER =>
                      symbol_table_types_compatible f store (base_type l) (base_type r)
                  | TYPE_STRUCT => Some (bool_decide (tname l = tname r))
                  | _ => Some true
                  end
                else Some false
            | _, _ => None
            end
        | _, _ => Some false
        end
  end.
