(* ===== verification/TypesFacts.v ===== *)
(** * Correctness of struct layout and type compatibility *)

From stdpp Require Import gmap.
From S2P Require Import Prelude Types.
#[local] Open Scope Z_scope.

(** ** Struct layout *)

Definition field_ok (f : Z * Z) : Prop := 0 ≤ f.1 ∧ 0 < f.2.
Definition room (fields : list (Z * Z)) : Z := foldr (fun f acc => f.1 + f.2 + acc) 0 fields.

(** Fields placed in order from [cur], each at the next multiple of its alignment. *)
Inductive laid_out : Z → list (Z * Z) → list Z → Z → Prop :=
  | laid_nil cur : laid_out cur [] [] cur
  | laid_cons cur off sz al fields offs stop :
      off mod al = 0 → cur ≤ off < cur + al →
      laid_out (off + sz) fields offs stop →
      laid_out cur ((sz, al) :: fields) (off :: offs) stop.

Lemma padding_spec al off :
  0 < al → 0 ≤ padding_to al off < al ∧ (off + padding_to al off) mod al = 0.
Proof.
  intros Hal. unfold padding_to. split; [by apply Z.mod_pos_bound|].
  rewrite Zplus_mod_idemp_r.
  replace (off + (al - off mod al)) with (al + (off - off mod al)) by lia.
  rewrite (Z.mod_eq off al) by lia.
  replace (al + (off - (off - al * (off / al)))) with ((1 + off / al) * al) by lia.
  apply Z.mod_mul. lia.
Qed.

Lemma room_nonneg fields : Forall field_ok fields → 0 ≤ room fields.
Proof. induction 1 as [|[sz al] fs [? ?] _ IH]; simpl in *; lia. Qed.

Lemma layout_loop_spec fields : ∀ offs0 cur maxa,
  Forall field_ok fields → 0 ≤ cur → cur + room fields < 2 ^ 64 →
  ∃ offs stop, layout_loop fields offs0 cur maxa =
      Some (offs0 ++ offs, stop, foldl (fun m f => Z.max m f.2) maxa fields) ∧
    laid_out cur fields offs stop ∧ cur ≤ stop ≤ cur + room fields.
Proof.
  induction fields as [|[sz al] fields IH]; intros offs0 cur maxa Hok Hcur Hroom; simpl in *.
  - exists [], cur. rewrite app_nil_r. split_and!; [done|constructor|lia..].
  - apply Forall_cons in Hok as [[Hsz Hal] Hok]. simpl in *.
    pose proof (room_nonneg _ Hok). destruct (padding_spec al cur Hal) as [Hpad Hmod].
    destruct (Z.eqb_spec al 0); [lia|]. set (off := cur + padding_to al cur) in *.
    rewrite (wrap_u_id 64 off), (wrap_u_id 64 (off + sz)) by lia.
    destruct (IH (offs0 ++ [off]) (off + sz) (Z.max maxa al) Hok) as (offs & stop & E & Hl & Hb);
      [lia|lia|].
    exists (off :: offs), stop. split_and!; [|constructor; [done|lia|done]|lia|lia].
    replace (if maxa <? al then al else maxa) with (Z.max maxa al)
      by (destruct (Z.ltb_spec maxa al); lia).
    rewrite E. by rewrite <- app_assoc.
Qed.

Lemma laid_out_length cur fields offs stop :
  laid_out cur fields offs stop → length offs = length fields.
Proof. induction 1; simpl; congruence. Qed.

Lemma laid_out_le cur fields offs stop :
  laid_out cur fields offs stop → Forall field_ok fields → cur ≤ stop.
Proof.
  induction 1 as [|cur off sz al fields offs stop ? ? ? IH]; intros Hok; [lia|].
  apply Forall_cons in Hok as [[? ?] Hok]. specialize (IH Hok). simpl in *. lia.
Qed.

Lemma laid_out_field cur fields offs stop i sz al o :
  laid_out cur fields offs stop → Forall field_ok fields →
  fields !! i = Some (sz, al) → offs !! i = Some o →
  o mod al = 0 ∧ cur ≤ o ∧ o + sz ≤ stop ∧
  (∀ j o', (i < j)%nat → offs !! j = Some o' → o + sz ≤ o').
Proof.
  intros Hl. revert i sz al o.
  induction Hl as [|cur off sz' al' fields offs stop Hmod Hoff Hl IH];
    intros i sz al o Hok Hf Ho; [done|].
  apply Forall_cons in Hok as [[Hsz Hal] Hok]. simpl in *.
  destruct i as [|i]; simpl in *; simplify_eq.
  - split_and!; [done|lia|by apply laid_out_le in Hl|].
    intros [|j] o' Hj Ho'; [lia|]. simpl in Ho'.
    pose proof (laid_out_length _ _ _ _ Hl) as Hlen.
    destruct (lookup_lt_is_Some_2 fields j) as [[sz1 al1] Hf'];
      [rewrite <- Hlen; by eapply lookup_lt_Some|].
    by destruct (IH j sz1 al1 o' Hok Hf' Ho') as (_ & ? & _).
  - destruct (IH i sz al o Hok Hf Ho) as (? & ? & ? & Hnext). split_and!; [done|lia|done|].
    intros [|j] o' Hj Ho'; [lia|]. apply (Hnext j); [lia|done].
Qed.

Lemma foldl_max_spec fields m :
  Forall field_ok fields → 0 < m →
  let a := foldl (fun m f => Z.max m f.2) m fields in
  m ≤ a ∧ a ≤ m + room fields ∧ (∀ f, f ∈ fields → f.2 ≤ a) ∧ (a = m ∨ ∃ f, f ∈ fields ∧ a = f.2).
Proof.
  revert m. induction fields as [|[sz al] fields IH]; intros m Hok Hm; simpl.
  - split_and!; [lia|lia|by intros f ?%not_elem_of_nil|auto].
  - apply Forall_cons in Hok as [[? ?] Hok]. simpl in *. pose proof (room_nonneg _ Hok).
    destruct (IH (Z.max m al) Hok) as (? & ? & Hall & Hor); [lia|]. split_and!; [lia|lia| |].
    + intros f [->|Hin]%elem_of_cons; simpl; [lia|by apply Hall].
    + destruct Hor as [Heq|(f & Hin & Heq)].
      * destruct (Z.max_spec m al) as [[? E]|[? E]]; rewrite E in Heq |- *.
        -- right. exists (sz, al). split; [apply elem_of_cons; auto|done].
        -- auto.
      * right. exists f. split; [apply elem_of_cons; auto|done].
Qed.

(** C29. Struct layout: for fields of non-negative size and positive alignment
    (their total within half the address space), the layout of
    [type_create_struct] exists; every field lies inside the struct at a multiple
    of its alignment, in declaration order and without overlap; the struct's
    alignment is the largest field alignment (at least 1) and its size is a
    multiple of it, with less than one alignment unit of tail padding. *)
Theorem struct_layout_correct (fields : list (Z * Z)) :
  Forall field_ok fields → room fields < 2 ^ 63 - 1 →
  ∃ offs total al, struct_layout fields = Some (offs, total, al) ∧
    length offs = length fields ∧
    (∀ i sz a o, fields !! i = Some (sz, a) → offs !! i = Some o →
       o mod a = 0 ∧ 0 ≤ o ∧ o + sz ≤ total ∧ a ≤ al ∧
       ∀ j o', (i < j)%nat → offs !! j = Some o' → o + sz ≤ o') ∧
    total mod al = 0 ∧ (al = 1 ∨ ∃ f, f ∈ fields ∧ al = f.2) ∧
    (∃ stop, laid_out 0 fields offs stop ∧ stop ≤ total < stop + al).
Proof.
  intros Hok Hroom. pose proof (room_nonneg _ Hok).
  destruct (layout_loop_spec fields [] 0 1 Hok) as (offs & stop & E & Hl & Hstop); [lia|lia|].
  destruct (foldl_max_spec fields 1 Hok) as (Ha1 & Ha2 & Hall & Hor); [lia|].
  set (al := foldl _ 1 fields) in *. destruct (padding_spec al stop) as [Hpad Hmod]; [lia|].
  exists offs, (stop + padding_to al stop), al. unfold struct_layout. rewrite E. simpl.
  rewrite wrap_u_id by lia. split_and!; try done.
  - by eapply laid_out_length.
  - intros i sz a o Hf Ho.
    destruct (laid_out_field _ _ _ _ _ _ _ _ Hl Hok Hf Ho) as (? & ? & ? & ?).
    split_and!; [done|lia|lia| |done].
    apply (Hall (sz, a)). by apply list_elem_of_lookup_2 in Hf.
  - exists stop. split; [done|lia].
Qed.

Lemma struct_layout_correct_witness :
  Forall field_ok [(1, 1); (8, 8); (4, 4)] ∧ room [(1, 1); (8, 8); (4, 4)] < 2 ^ 63 - 1 ∧
  struct_layout [(1, 1); (8, 8); (4, 4)] = Some ([0; 8; 16], 24, 8) ∧
  ∃ offs total al, struct_layout [(1, 1); (8, 8); (4, 4)] = Some (offs, total, al).
Proof.
  split; [|split; [vm_compute; reflexivity|split; [vm_compute; reflexivity|]]].
  - repeat constructor; simpl; lia.
  - destruct (struct_layout_correct [(1, 1); (8, 8); (4, 4)]) as (offs & total & al & E & _).
    + repeat constructor; simpl; lia.
    + vm_compute; reflexivity.
    + exists offs, total, al. exact E.
Defined.

(** ** Field lookup *)

Lemma field_scan_Some {A} names (values : list A) field v :
  field_scan names values field = Some v ↔
  ∃ i, names !! i = Some field ∧ values !! i = Some v ∧
    ∀ j, (j < i)%nat → names !! j ≠ Some field.
Proof.
  revert values. induction names as [|n names IH]; intros values; simpl.
  { split; [done|]. by intros (i & Hi & _). }
  destruct values as [|w values].
  { split; [done|]. by intros (i & _ & Hi & _). }
  destruct (String.eqb_spec n field) as [->|Hne].
  - split.
    + intros [= ->]. exists 0%nat. split_and!; [done..|lia].
    + intros (i & Hi & Hv & Hfirst). destruct i as [|i]; [done|].
      destruct (Hfirst 0%nat); [lia|done].
  - rewrite IH. split.
    + intros (i & Hi & Hv & Hfirst). exists (S i). split_and!; [done..|].
      intros [|j] Hj; simpl; [congruence|]. apply Hfirst. lia.
    + intros ([|i] & Hi & Hv & Hfirst); simpl in *; [congruence|].
      exists i. split_and!; [done..|]. intros j Hj. apply (Hfirst (S j)). lia.
Qed.

(** ** Compatibility *)

(** The kinds whose test looks further than the kind. *)
Definition is_compound (k : TypeKind) : bool :=
  match k with
  | TYPE_FUNCTION_POINTER | TYPE_ARRAY | TYPE_POINTER | TYPE_STRUCT => true
  | _ => false
  end.

Section compatibility.
Context (store : type_store).

(** The declarative relation: the same object, or the same shape with compatible
    components; structs are compared by name, other kinds by kind alone. *)
Inductive compatible : option tid → option tid → Prop :=
  | compat_same t : compatible t t
  | compat_function a b l r :
      store !! a = Some l → store !! b = Some r →
      kind l = TYPE_FUNCTION_POINTER → kind r = TYPE_FUNCTION_POINTER →
      compatible (fn_return_type l) (fn_return_type r) →
      compatible_list (fn_param_types l) (fn_param_types r) →
      compatible (Some a) (Some b)
  | compat_array a b l r :
      store !! a = Some l → store !! b = Some r →
      kind l = TYPE_ARRAY → kind r = TYPE_ARRAY → array_size l = array_size r →
      compatible (base_type l) (base_type r) → compatible (Some a) (Some b)
  | compat_pointer a b l r :
      store !! a = Some l → store !! b = Some r →
      kind l = TYPE_POINTER → kind r = TYPE_POINTER →
      compatible (base_type l) (base_type r) → compatible (Some a) (Some b)
  | compat_struct a b l r :
      store !! a = Some l → store !! b = Some r →
      kind l = TYPE_STRUCT → kind r = TYPE_STRUCT → tname l = tname r →
      compatible (Some a) (Some b)
  | compat_scalar a b l r :
      store !! a = Some l → store !! b = Some r → kind l = kind r →
      is_compound (kind l) = false →
      compatible (Some a) (Some b)
with compatible_list : list (option tid) → list (option tid) → Prop :=
  | compat_nil : compatible_list [] []
  | compat_cons l r ls rs :
      compatible l r → compatible_list ls rs → compatible_list (l :: ls) (r :: rs).

(** The types a test descends into. *)
Definition components (t : Type_) : list (option tid) :=
  match kind t with
  | TYPE_FUNCTION_POINTER => fn_return_type t :: fn_param_types t
  | TYPE_ARRAY | TYPE_POINTER => [base_type t]
  | _ => []
  end.

(** Type references resolve, and every chain of them that does not pass through
    a struct is finite: [rank] bounds its length. *)
Definition ranked (rank : tid → nat) : Prop :=
  ∀ a t c, store !! a = Some t → Some c ∈ components t →
    is_Some (store !! c) ∧ (rank c < rank a)%nat.

Definition resolves (t : option tid) : Prop :=
  match t with Some a => is_Some (store !! a) | None => True end.
Definition depth (rank : tid → nat) (t : option tid) : nat :=
  match t with Some a => S (rank a) | None => 0%nat end.

Context (rank : tid → nat) (Hranked : ranked rank).

Lemma component_resolves a t c :
  store !! a = Some t → c ∈ components t → resolves c ∧ (depth rank c ≤ rank a)%nat.
Proof.
  intros Ha Hc. destruct c as [c|]; simpl; [|split; [done|lia]].
  destruct (Hranked a t c Ha Hc). split; [done|lia].
Qed.

Definition decides (fuel : nat) (l r : option tid) : Prop :=
  ∃ b, symbol_table_types_compatible fuel store l r = Some b ∧ (b = true ↔ compatible l r).

Lemma all_compatible_spec fuel ls rs :
  Forall2 (decides fuel) ls rs →
  ∃ b, all_compatible (symbol_table_types_compatible fuel store) ls rs = Some b ∧
    (b = true ↔ compatible_list ls rs).
Proof.
  induction 1 as [|l r ls rs (b & Hb & Hiff) _ (b' & Hb' & Hiff')]; simpl.
  - exists true. split; [done|]. split; [constructor|done].
  - rewrite Hb. destruct b.
    + exists b'. split; [done|]. rewrite Hiff'. split.
      * constructor; [by apply Hiff|done].
      * by inversion 1.
    + exists false. split; [done|]. split; [done|]. inversion 1; subst. by apply Hiff.
Qed.

Lemma compatible_list_length ls rs : compatible_list ls rs → length ls = length rs.
Proof. induction 1; simpl; congruence. Qed.

(** A negative answer, by inversion of the relation. *)
Ltac invert := inversion 1; simplify_eq; try congruence;
  try match goal with
    | H : is_compound (kind ?t) = false, Hk : kind ?t = _ |- _ => by rewrite Hk in H
    end.
Ltac refute := exists false; split; [done|]; split; [done|]; invert.

(** Enough fuel decides [compatible]. *)
Lemma types_compatible_decides fuel l r :
  resolves l → resolves r → (depth rank l < fuel)%nat → decides fuel l r.
Proof.
  revert l r. induction fuel as [|f IH]; intros l r Hl Hr Hf; [lia|].
  unfold decides. simpl. destruct (decide (l = r)) as [->|Hne].
  { exists true. split; [done|]. split; [constructor|done]. }
  destruct l as [a|], r as [b|]; try done; try by refute.
  destruct Hl as [tl Ha], Hr as [tr Hb]. rewrite Ha, Hb. simpl in Hf.
  destruct (decide (kind tl = kind tr)) as [Hk|Hk]; [|by refute].
  assert (∀ c d, c ∈ components tl → d ∈ components tr → decides f c d) as Hcomp.
  { intros c d Hc Hd. destruct (component_resolves a tl c Ha Hc) as [? ?].
    destruct (component_resolves b tr d Hb Hd) as [? _]. apply IH; [done..|lia]. }
  unfold components in Hcomp. rewrite <- Hk in Hcomp. destruct (kind tl) eqn:Hkl;
    try (exists true; split; [done|]; split; [intros _|done];
         apply (compat_scalar a b tl tr); [done|done|congruence|by rewrite Hkl]).
  - destruct (decide (length (fn_param_types tl) = length (fn_param_types tr))) as [Hlen|Hlen].
    2: { refute. by destruct Hlen; apply compatible_list_length. }
    destruct (Hcomp (fn_return_type tl) (fn_return_type tr)) as (b1 & Hb1 & Hiff1);
      [apply elem_of_cons; auto..|]. rewrite Hb1.
    destruct b1; [|refute; by apply Hiff1].
    destruct (all_compatible_spec f (fn_param_types tl) (fn_param_types tr)) as (b2 & Hb2 & Hiff2).
    { apply Forall2_same_length_lookup. split; [done|]. intros i c d Hc Hd.
      apply Hcomp; apply elem_of_cons; right; by eapply list_elem_of_lookup_2. }
    exists b2. split; [done|]. rewrite Hiff2. split.
    + intros. eapply compat_function; try done; by apply Hiff1.
    + invert; done.
  - destruct (Hcomp (base_type tl) (base_type tr)) as (b1 & Hb1 & Hiff1);
      [apply elem_of_cons; auto..|].
    exists b1. split; [done|]. rewrite Hiff1. split.
    + intros. eapply compat_pointer; try done; congruence.
    + invert; done.
  - destruct (Z.eqb_spec (array_size tl) (array_size tr)) as [He|He]; [|refute].
    destruct (Hcomp (base_type tl) (base_type tr)) as (b1 & Hb1 & Hiff1);
      [apply elem_of_cons; auto..|].
    exists b1. split; [done|]. rewrite Hiff1. split.
    + intros. eapply compat_array; try done; congruence.
    + invert; done.
  - eexists. split; [done|]. rewrite bool_decide_eq_true. split.
    + intros. eapply compat_struct; try done; congruence.
    + invert; done.
Qed.
End compatibility.

Scheme compatible_ind2 := Induction for compatible Sort Prop
  with compatible_list_ind2 := Induction for compatible_list Sort Prop.
Combined Scheme compatible_mutind from compatible_ind2, compatible_list_ind2.

Lemma compatible_sym_mut store :
  (∀ l r, compatible store l r → compatible store r l) ∧
  (∀ ls rs, compatible_list store ls rs → compatible_list store rs ls).
Proof.
  apply (compatible_mutind store (fun l r _ => compatible store r l)
    (fun ls rs _ => compatible_list store rs ls)); intros; try (by constructor).
  - by eapply compat_function.
  - by eapply compat_array.
  - by eapply compat_pointer.
  - by eapply compat_struct.
  - eapply compat_scalar; [done..|congruence].
Qed.

(** Inversion from the left operand's type. *)
Definition same_shape (store : type_store) (l r : Type_) : Prop :=
  match kind l with
  | TYPE_FUNCTION_POINTER =>
      compatible store (fn_return_type l) (fn_return_type r) ∧
      compatible_list store (fn_param_types l) (fn_param_types r)
  | TYPE_ARRAY => array_size l = array_size r ∧ compatible store (base_type l) (base_type r)
  | TYPE_POINTER => compatible store (base_type l) (base_type r)
  | TYPE_STRUCT => tname l = tname r
  | _ => True
  end.

Lemma compatible_inv store a l t :
  compatible store (Some a) t → store !! a = Some l →
  t = Some a ∨
  ∃ b r, t = Some b ∧ store !! b = Some r ∧ kind l = kind r ∧ same_shape store l r.
Proof.
  unfold same_shape. intros H Ha. inversion H; subst; simplify_eq; [by left|..];
    right; eexists _, _; (split_and!; [reflexivity|done|congruence|]);
    try match goal with Hk : kind ?x = _ |- context [kind ?x] => rewrite Hk end; try done.
  match goal with
  | H : is_compound (kind l) = false, Hk : kind l = kind ?r |- _ =>
      rewrite Hk in H; revert H; by destruct (kind r)
  end.
Qed.

Lemma same_shape_intro store a b l r :
  store !! a = Some l → store !! b = Some r → kind l = kind r → same_shape store l r →
  compatible store (Some a) (Some b).
Proof.
  unfold same_shape. intros Ha Hb Hk Hs. destruct (kind l) eqn:Hkl;
    try (by eapply compat_scalar; [done|done|congruence|rewrite Hkl]).
  - destruct Hs. by eapply compat_function.
  - by eapply compat_pointer.
  - destruct Hs. by eapply compat_array.
  - by eapply compat_struct.
Qed.

Lemma compatible_trans_mut store :
  (∀ l r, compatible store l r → ∀ s, compatible store r s → compatible store l s) ∧
  (∀ ls rs, compatible_list store ls rs → ∀ ss, compatible_list store rs ss →
     compatible_list store ls ss).
Proof.
  apply (compatible_mutind store
    (fun l r _ => ∀ s, compatible store r s → compatible store l s)
    (fun ls rs _ => ∀ ss, compatible_list store rs ss → compatible_list store ls ss)).
  1: done.
  6: by intros ss Hss.
  6: { intros l r ls rs _ IH _ IHs ss Hss. inversion Hss; subst. constructor; auto. }
  all: intros; match goal with
    | H : compatible _ (Some ?b) _, Hb : _ !! ?b = Some ?r |- _ =>
        destruct (compatible_inv _ _ _ _ H Hb) as [->|(q & tq & -> & Hq & Hk & Hs)]
    end; [apply (same_shape_intro store a b l r); [done|done|congruence|]
         |apply (same_shape_intro store a q l tq); [done|done|congruence|]];
    unfold same_shape in *; try clear Hk;
    repeat match goal with
      | Hx : kind ?x = _ |- context [kind ?x] => rewrite Hx
      | Hx : kind ?x = _, H : context [kind ?x] |- _ => rewrite Hx in H
      end; try done.
  all: try (match goal with H : is_compound (kind ?x) = false |- _ => revert H; by destruct (kind x) end).
  all: naive_solver congruence.
Qed.

#[export] Instance compatible_equivalence store : Equivalence (compatible store).
Proof.
  split.
  - intros t. constructor.
  - intros l r. apply compatible_sym_mut.
  - intros l r s Hl Hr. by eapply (proj1 (compatible_trans_mut store)).
Qed.

(** Type compatibility terminates and decides the declarative relation: when
    type references resolve and only pass through structs infinitely often, the
    test returns an answer as soon as its fuel exceeds the rank of the left type,
    and answers true exactly for compatible types. *)
Theorem types_compatible_correct store rank fuel l r :
  ranked store rank → resolves store l → resolves store r → (depth rank l < fuel)%nat →
  ∃ b, symbol_table_types_compatible fuel store l r = Some b ∧ (b = true ↔ compatible store l r).
Proof. intros Hr. by apply types_compatible_decides. Qed.

(** Type compatibility is an equivalence: with enough fuel the test accepts
    any type against itself, is symmetric, and is transitive. *)
Theorem types_compatible_equivalence store rank fuel t u v :
  ranked store rank → resolves store t → resolves store u → resolves store v →
  (depth rank t < fuel)%nat → (depth rank u < fuel)%nat →
  symbol_table_types_compatible fuel store t t = Some true ∧
  symbol_table_types_compatible fuel store t u = symbol_table_types_compatible fuel store u t ∧
  (symbol_table_types_compatible fuel store t u = Some true →
   symbol_table_types_compatible fuel store u v = Some true →
   symbol_table_types_compatible fuel store t v = Some true).
Proof.
  intros Hrk Ht Hu Hv Hft Hfu.
  destruct (types_compatible_decides store rank Hrk fuel t t) as (b1 & E1 & H1); [done..|].
  destruct (types_compatible_decides store rank Hrk fuel t u) as (b2 & E2 & H2); [done..|].
  destruct (types_compatible_decides store rank Hrk fuel u t) as (b3 & E3 & H3); [done..|].
  destruct (types_compatible_decides store rank Hrk fuel u v) as (b4 & E4 & H4); [done..|].
  destruct (types_compatible_decides store rank Hrk fuel t v) as (b5 & E5 & H5); [done..|].
  rewrite E1, E2, E3, E4, E5. split_and!.
  - f_equal. by apply H1.
  - f_equal. apply Bool.eq_true_iff_eq. rewrite H2, H3.
    split; intros ?; by symmetry.
  - intros [= ->] [= ->]. f_equal. apply H5. etransitivity; [by apply H2|by apply H4].
Qed.

(** A store with a self-referential struct behind a pointer and a function type. *)
Definition example_store : type_store :=
  {[ 1%positive := type_create TYPE_INT32 (Some "int32"%string);
     2%positive := mkType TYPE_STRUCT (Some "Node"%string) 8 8 None 0 [] None
                     ["next"%string] [3%positive] [0] [] [] [] 0 0;
     3%positive := mkType TYPE_POINTER None 8 8 (Some 2%positive) 0 [] None [] [] [] [] [] [] 0 0;
     4%positive := type_create_function_pointer [Some 3%positive; None] (Some 1%positive);
     5%positive := type_create_function_pointer [Some 3%positive; None] (Some 1%positive) ]}.
Definition example_rank (t : tid) : nat :=
  match t with 3%positive => 1 | 4%positive => 2 | 5%positive => 2 | _ => 0 end.

(** [ranked] as a decidable check over the finite store. *)
Definition component_ranked (store : type_store) (rank : tid → nat) (a : tid) (c : option tid) : bool :=
  match c with
  | Some c => bool_decide (is_Some (store !! c)) && (rank c <? rank a)%nat
  | None => true
  end.
Definition rankedb (store : type_store) (rank : tid → nat) : bool :=
  bool_decide (map_Forall (fun a t => forallb (component_ranked store rank a) (components t) = true) store).

Lemma rankedb_ranked store rank : rankedb store rank = true → ranked store rank.
Proof.
  unfold rankedb. intros H%bool_decide_eq_true a t c Ha Hc. specialize (H a t Ha). simpl in H.
  apply (forallb_forall _ _) with (x := Some c) in H; [|by apply list_elem_of_In].
  simpl in H. apply andb_true_iff in H as [H1%bool_decide_eq_true H2%Nat.ltb_lt]. done.
Qed.

Lemma types_compatible_correct_witness :
  ranked example_store example_rank ∧
  ∃ b, symbol_table_types_compatible 4 example_store (Some 4%positive) (Some 5%positive) = Some b ∧
    (b = true ↔ compatible example_store (Some 4%positive) (Some 5%positive)).
Proof.
  assert (ranked example_store example_rank) as Hr by (apply rankedb_ranked; vm_compute; reflexivity).
  split; [exact Hr|].
  apply (types_compatible_correct example_store example_rank 4); [exact Hr|..];
    simpl; try (eexists; vm_compute; reflexivity); lia.
Defined.

Lemma types_compatible_equivalence_witness :
  symbol_table_types_compatible 4 example_store (Some 4%positive) (Some 5%positive) = Some true ∧
  symbol_table_types_compatible 4 example_store (Some 4%positive) (Some 5%positive) =
  symbol_table_types_compatible 4 example_store (Some 5%positive) (Some 4%positive).
Proof.
  split; [vm_compute; reflexivity|].
  apply (types_compatible_equivalence example_store example_rank 4 (Some 4%positive)
    (Some 5%positive) (Some 1%positive)); [apply rankedb_ranked; vm_compute; reflexivity|..];
    simpl; try (eexists; vm_compute; reflexivity); lia.
Defined.
