(* ===== verification/SymbolTable.v ===== *)
(** * The symbol table: src/src/semantic/symbol_table.c

    Symbols are objects in a store, so that the table, its caller and its name
    index share them; scopes hold the symbols' addresses in declaration order,
    with the open-addressing name index of large scopes.  Memory allocation is an
    argument of the operations that allocate, to model their failure paths. *)

From stdpp Require Import gmap.
From S2P Require Import Prelude Probe Types.

(** ** Data *)

Inductive ScopeType : Type := SCOPE_GLOBAL | SCOPE_FUNCTION | SCOPE_BLOCK.

Inductive SymbolKind : Type :=
  | SYMBOL_VARIABLE | SYMBOL_FUNCTION | SYMBOL_STRUCT | SYMBOL_ENUM
  | SYMBOL_CONSTANT | SYMBOL_PARAMETER | SYMBOL_TAGGED_ENUM_CONSTRUCTOR.

#[export] Instance SymbolKind_eq_dec : EqDecision SymbolKind.
Proof. solve_decision. Defined.

(** The [data.function] member of a symbol's union. *)
Record FunctionData : Type := mkFunction {
  parameter_names : option (list (option string));
  parameter_types : option (list (option tid));
  parameter_count : nat;
  return_type : option tid }.

(** The other members of the union. *)
Record VariableData : Type := mkVariable {
  register_id : Z;
  memory_offset : Z;
  is_in_register : bool;
  is_indirect_param : bool }.
Record ConstructorData : Type := mkConstructor {
  enum_type : option tid;
  tag_value : Z;
  payload_type : option tid }.

(** The address of a symbol. *)
Abbreviation sid := positive.

Record Symbol : Type := mkSymbol {
  name : string;
  skind : SymbolKind;
  stype : option tid;
  sscope : option nat;                (* the depth of the scope that holds it *)
  is_initialized : bool;
  is_forward_declaration : bool;
  is_extern : bool;
  link_name : option string;
  function : FunctionData;
  variable : VariableData;
  constant_value : Z;
  constructor : ConstructorData }.

Abbreviation symbol_store := (gmap sid Symbol).

Record Scope : Type := mkScope {
  scope_type : ScopeType;
  symbols : list sid;
  symbol_capacity : nat;
  name_index : list nat }.            (* empty when the index is NULL *)

(** The scope chain, innermost first; the last one is the global scope. *)
Record SymbolTable : Type := mkTable {
  store : symbol_store;
  scopes : list Scope }.

(** Whether the next [realloc] and [calloc] succeed. *)
Record alloc : Type := mkAlloc { realloc_ok : bool; calloc_ok : bool }.
Definition alloc_succeeds : alloc := mkAlloc true true.

(** ** Symbols *)

Definition no_function : FunctionData := mkFunction None None 0 None.
Definition no_variable : VariableData := mkVariable (-1) 0 false false.
Definition no_constructor : ConstructorData := mkConstructor None 0 None.

Definition symbol_create (nm : string) (k : SymbolKind) (ty : option tid) : Symbol :=
  mkSymbol nm k ty None false false false None no_function no_variable 0 no_constructor.

Definition set_scope (d : nat) (s : Symbol) : Symbol :=
  mkSymbol (name s) (skind s) (stype s) (Some d) (is_initialized s) (is_forward_declaration s)
    (is_extern s) (link_name s) (function s) (variable s) (constant_value s) (constructor s).
Definition set_forward (b : bool) (s : Symbol) : Symbol :=
  mkSymbol (name s) (skind s) (stype s) (sscope s) (is_initialized s) b
    (is_extern s) (link_name s) (function s) (variable s) (constant_value s) (constructor s).
Definition set_initialized (b : bool) (s : Symbol) : Symbol :=
  mkSymbol (name s) (skind s) (stype s) (sscope s) b (is_forward_declaration s)
    (is_extern s) (link_name s) (function s) (variable s) (constant_value s) (constructor s).

Definition symbol_table_effective_link_name (s : Symbol) : string :=
  match link_name s with
  | Some l => if is_extern s && negb (String.eqb l "") then l else name s
  | None => name s
  end.

Definition symbol_table_link_names_match (l r : Symbol) : bool :=
  String.eqb (symbol_table_effective_link_name l) (symbol_table_effective_link_name r).

(** [parameter_types ? parameter_types[i] : NULL]. *)
Definition parameter_type (s : Symbol) (i : nat) : option tid :=
  match parameter_types (function s) with Some ts => mjoin (ts !! i) | None => None end.

Definition effective_return (s : Symbol) : option tid :=
  match return_type (function s) with Some t => Some t | None => stype s end.

Definition symbol_table_function_signatures_match (fuel : nat) (types : type_store)
    (decl defn : Symbol) : option bool :=
  if negb (bool_decide (skind decl = SYMBOL_FUNCTION) && bool_decide (skind defn = SYMBOL_FUNCTION))
  then Some false
  else if negb (parameter_count (function decl) =? parameter_count (function defn)) then Some false
  else if xorb (is_extern decl) (is_extern defn) then Some false
  else if (is_extern decl || is_extern defn) && negb (symbol_table_link_names_match decl defn)
  then Some false
  else
    match symbol_table_types_compatible fuel types (effective_return decl) (effective_return defn) with
    | Some true =>
        let n := parameter_count (function decl) in
        all_compatible (symbol_table_types_compatible fuel types)
          (map (parameter_type decl) (seq 0 n)) (map (parameter_type defn) (seq 0 n))
    | other => other
    end.

(** ** The name index of one scope *)

Definition SYMBOL_NAME_INDEX_MIN_SYMBOLS : nat := 24.

Definition symbol_name (st : symbol_store) (s : sid) : option string := name <$> st !! s.

(** The hash of the name of the [i]-th symbol. *)
Definition symbol_hash (st : symbol_store) (syms : list sid) (i : nat) : N :=
  match syms !! i ≫= symbol_name st with
  | Some nm => mettle_fnv1a_hash nm
  | None => 0
  end.

(** The index rebuilt with [bucket_count] buckets; [None] if probing never ends. *)
Definition scope_name_index_rebuild (st : symbol_store) (sc : Scope) (bucket_count : nat)
    : option Scope :=
  match rebuild_loop (symbol_hash st (symbols sc)) (length (symbols sc)) 0
          (replicate bucket_count 0) with
  | Some buckets => Some (mkScope (scope_type sc) (symbols sc) (symbol_capacity sc) buckets)
  | None => None
  end.

(** [(result, scope)]: the result 0 tells the caller not to index the symbol. *)
Definition scope_name_index_ensure (a : alloc) (st : symbol_store) (sc : Scope)
    : option (bool * Scope) :=
  let count := length (symbols sc) in
  let buckets := length (name_index sc) in
  if count <? SYMBOL_NAME_INDEX_MIN_SYMBOLS then Some (false, sc)
  else if (buckets =? 0) || (buckets * 7 <=? (count + 1) * 10) then
    let next := if buckets =? 0 then 64 else buckets * 2 in
    if calloc_ok a then
      match scope_name_index_rebuild st sc next with
      | Some sc' => Some (true, sc')
      | None => None
      end
    else Some (false, sc)
  else Some (true, sc).

Definition scope_register_appended_symbol (a : alloc) (st : symbol_store) (sc : Scope)
    (new_index : nat) : option Scope :=
  match scope_name_index_ensure a st sc with
  | None => None
  | Some (false, sc) => Some sc
  | Some (true, sc) =>
      let buckets := name_index sc in
      if length buckets =? 0 then Some sc
      else
        match register_loop (S (length buckets)) buckets
                (home_slot (symbol_hash st (symbols sc) new_index) (length buckets)) (S new_index) with
        | Some buckets' => Some (mkScope (scope_type sc) (symbols sc) (symbol_capacity sc) buckets')
        | None => None
        end
  end.

(** Whether the [i]-th symbol bears the name. *)
Definition named_at (st : symbol_store) (syms : list sid) (nm : string) (i : nat) : bool :=
  match syms !! i ≫= symbol_name st with
  | Some n => String.eqb n nm
  | None => false
  end.

(** The linear scan of the symbol array. *)
Fixpoint scan_symbols (st : symbol_store) (syms : list sid) (nm : string) : option sid :=
  match syms with
  | [] => None
  | s :: syms' =>
      match symbol_name st s with
      | Some n => if String.eqb n nm then Some s else scan_symbols st syms' nm
      | None => scan_symbols st syms' nm
      end
  end.

(** [None]: the probing loop never ends. *)
Definition scope_lookup_symbol (st : symbol_store) (sc : Scope) (nm : string)
    : option (option sid) :=
  if 0 <? length (name_index sc) then
    match probe_find (named_at st (symbols sc) nm) (name_index sc) (mettle_fnv1a_hash nm) with
    | Some (Some i) => Some (symbols sc !! i)
    | Some None => Some None
    | None => None
    end
  else Some (scan_symbols st (symbols sc) nm).

(** ** The table *)

Definition new_scope (ty : ScopeType) : Scope := mkScope ty [] 0 [].

Definition symbol_table_create : SymbolTable := mkTable ∅ [new_scope SCOPE_GLOBAL].

Definition symbol_table_enter_scope (t : SymbolTable) (ty : ScopeType) : SymbolTable :=
  mkTable (store t) (new_scope ty :: scopes t).

(** [scope_destroy] frees the scope's symbols. *)
Definition scope_destroy (st : symbol_store) (sc : Scope) : symbol_store :=
  foldr (fun s st => delete s st) st (symbols sc).

Definition symbol_table_exit_scope (t : SymbolTable) : SymbolTable :=
  match scopes t with
  | sc :: outer :: rest => mkTable (scope_destroy (store t) sc) (outer :: rest)
  | _ => t
  end.

Fixpoint lookup_chain (st : symbol_store) (chain : list Scope) (nm : string) : option (option sid) :=
  match chain with
  | [] => Some None
  | sc :: chain' =>
      match scope_lookup_symbol st sc nm with
      | Some None => lookup_chain st chain' nm
      | other => other
      end
  end.

Definition symbol_table_lookup (t : SymbolTable) (nm : string) : option (option sid) :=
  lookup_chain (store t) (scopes t) nm.

Definition symbol_table_lookup_current_scope (t : SymbolTable) (nm : string) : option (option sid) :=
  match scopes t with
  | sc :: _ => scope_lookup_symbol (store t) sc nm
  | [] => Some None
  end.

(** ** Declarations *)

Section declarations.
(** The type objects, and fuel for comparing them. *)
Context (fuel : nat) (types : type_store).

Definition update_symbol (f : Symbol → Symbol) (s : sid) (t : SymbolTable) : SymbolTable :=
  mkTable (alter f s (store t)) (scopes t).

(** Both indices of a function symbol's parameters are present. *)
Definition parameters_valid (f : FunctionData) : bool :=
  match parameter_count f with
  | 0 => true
  | n =>
      match parameter_names f, parameter_types f with
      | Some ns, Some ts =>
          forallb (fun i => match mjoin (ns !! i), mjoin (ts !! i) with
                            | Some _, Some _ => true
                            | _, _ => false
                            end) (seq 0 n)
      | _, _ => false
      end
  end.

(** A function may meet an existing forward declaration of itself. *)
Definition resolves_forward (s existing : Symbol) : bool :=
  bool_decide (skind s = SYMBOL_FUNCTION) && bool_decide (skind existing = SYMBOL_FUNCTION) &&
  is_forward_declaration existing.

Definition symbol_table_validate_declaration (t : SymbolTable) (s : sid) : option bool :=
  match store t !! s with
  | None => None
  | Some sym =>
      if String.eqb (name sym) "" then Some false
      else if negb (bool_decide (is_Some (stype sym))) then Some false
      else if bool_decide (skind sym = SYMBOL_FUNCTION) && negb (parameters_valid (function sym))
      then Some false
      else
        match symbol_table_lookup_current_scope t (name sym) with
        | None => None
        | Some None => Some true
        | Some (Some e) =>
            match store t !! e with
            | None => None
            | Some existing =>
                if resolves_forward sym existing
                then symbol_table_function_signatures_match fuel types existing sym
                else Some false
            end
        end
  end.

(** Append a symbol to the current scope, shared by [symbol_table_declare] and
    [symbol_table_insert]: grow the array if needed, set the symbol's scope,
    store it and register it in the name index. *)
Definition append_symbol (a : alloc) (t : SymbolTable) (s : sid) : option (bool * SymbolTable) :=
  match scopes t with
  | [] => Some (false, t)
  | sc :: rest =>
      let full := symbol_capacity sc <=? length (symbols sc) in
      if full && negb (realloc_ok a) then Some (false, t)
      else
        let capacity :=
          if full then (if symbol_capacity sc =? 0 then 8 else symbol_capacity sc * 2)
          else symbol_capacity sc in
        let st := alter (set_scope (length rest)) s (store t) in
        let sc' := mkScope (scope_type sc) (symbols sc ++ [s]) capacity (name_index sc) in
        match scope_register_appended_symbol a st sc' (length (symbols sc)) with
        | Some sc' => Some (true, mkTable st (sc' :: rest))
        | None => None
        end
  end.

Definition resolve_existing (e : sid) (t : SymbolTable) : SymbolTable :=
  update_symbol (fun x => set_initialized true (set_forward false x)) e t.

Definition symbol_table_declare (a : alloc) (t : SymbolTable) (s : sid)
    : option (bool * SymbolTable) :=
  match symbol_table_validate_declaration t s with
  | None => None
  | Some false => Some (false, t)
  | Some true =>
      match store t !! s with
      | None => None
      | Some sym =>
          match symbol_table_lookup_current_scope t (name sym) with
          | None => None
          | Some (Some e) =>
              match store t !! e with
              | None => None
              | Some existing =>
                  if resolves_forward sym existing then
                    match symbol_table_function_signatures_match fuel types existing sym with
                    | None => None
                    | Some false => Some (false, t)
                    | Some true => Some (true, resolve_existing e t)
                    end
                  else Some (false, t)
              end
          | Some None => append_symbol a t s
          end
      end
  end.

Definition symbol_table_insert (a : alloc) (t : SymbolTable) (s : sid) : option SymbolTable :=
  match append_symbol a t s with Some (_, t') => Some t' | None => None end.

Definition symbol_table_declare_forward (a : alloc) (t : SymbolTable) (s : sid)
    : option (bool * SymbolTable) :=
  match store t !! s with
  | None => None
  | Some sym =>
      if negb (bool_decide (skind sym = SYMBOL_FUNCTION)) then Some (false, t)
      else
        match symbol_table_lookup_current_scope t (name sym) with
        | None => None
        | Some (Some e) =>
            match store t !! e with
            | None => None
            | Some existing =>
                if bool_decide (skind existing = SYMBOL_FUNCTION) && is_forward_declaration existing
                then
                  match symbol_table_function_signatures_match fuel types existing sym with
                  | Some b => Some (b, t)
                  | None => None
                  end
                else Some (false, t)
            end
        | Some None => symbol_table_declare a (update_symbol (set_forward true) s t) s
        end
  end.

Definition symbol_table_resolve_forward_declaration (a : alloc) (t : SymbolTable) (s : sid)
    : option (bool * SymbolTable) :=
  match store t !! s with
  | None => None
  | Some sym =>
      if negb (bool_decide (skind sym = SYMBOL_FUNCTION)) then Some (false, t)
      else
        match symbol_table_lookup_current_scope t (name sym) with
        | None => None
        | Some (Some e) =>
            match store t !! e with
            | None => None
            | Some existing =>
                if bool_decide (skind existing = SYMBOL_FUNCTION) && is_forward_declaration existing
                then
                  match symbol_table_function_signatures_match fuel types existing sym with
                  | None => None
                  | Some false => Some (false, t)
                  | Some true => Some (true, resolve_existing e t)
                  end
                else Some (false, t)
            end
        | Some None =>
            symbol_table_declare a
              (update_symbol (fun x => set_initialized true (set_forward false x)) s t) s
        end
  end.
End declarations.
