(* ===== verification/SymbolTableFacts.v ===== *)
(** * Correctness of the symbol table

    The invariant of a scope and its name index, the refinement of the table by a
    stack of finite maps, and what declarations do. *)

From stdpp Require Import gmap.
From S2P Require Import Prelude Probe Types TypesFacts SymbolTable.

(** ** Scans *)

Lemma named_at_true st syms nm i :
  named_at st syms nm i = true ↔ ∃ s, syms !! i = Some s ∧ symbol_name st s = Some nm.
Proof.
  unfold named_at. destruct (syms !! i) as [s|]; simpl.
  - destruct (symbol_name st s) as [n|] eqn:Hn.
    + rewrite String.eqb_eq. split; [intros ->; by exists s|].
      intros (? & [= <-] & ?). congruence.
    + split; [done|]. intros (? & [= <-] & ?). congruence.
  - split; [done|by intros (? & ? & ?)].
Qed.

(** The first symbol that bears the name, as an index. *)
Lemma scan_symbols_spec st syms nm :
  match scan_symbols st syms nm with
  | Some s => ∃ i, syms !! i = Some s ∧ named_at st syms nm i = true ∧
      ∀ j, j < i → named_at st syms nm j = false
  | None => ∀ j, named_at st syms nm j = false
  end.
Proof.
  induction syms as [|s syms IH]; [by intros j|]. simpl.
  assert (∀ b, named_at st (s :: syms) nm 0 = b → b = false →
    match scan_symbols st syms nm with
    | Some s' => ∃ i, (s :: syms) !! i = Some s' ∧ named_at st (s :: syms) nm i = true ∧
        ∀ j, j < i → named_at st (s :: syms) nm j = false
    | None => ∀ j, named_at st (s :: syms) nm j = false
    end) as Hskip.
  { intros b Hb ->. destruct (scan_symbols st syms nm) as [s'|].
    - destruct IH as (i & Hi & Hn & Hfirst). exists (S i). split_and!; [done..|].
      intros [|j] Hj; [done|]. apply Hfirst. lia.
    - intros [|j]; [done|]. apply IH. }
  destruct (symbol_name st s) as [n|] eqn:Hn.
  - destruct (String.eqb_spec n nm) as [->|Hne].
    + exists 0. split_and!; [done| |lia]. apply named_at_true. eauto.
    + apply (Hskip false); [|done]. unfold named_at. simpl. rewrite Hn.
      by apply String.eqb_neq.
  - apply (Hskip false); [|done]. unfold named_at. simpl. by rewrite Hn.
Qed.

Lemma scan_symbols_unique st syms nm i s :
  syms !! i = Some s → named_at st syms nm i = true →
  (∀ j, j < i → named_at st syms nm j = false) → scan_symbols st syms nm = Some s.
Proof.
  intros Hi Hn Hfirst. pose proof (scan_symbols_spec st syms nm) as Hs.
  destruct (scan_symbols st syms nm) as [s'|]; [|by rewrite Hs in Hn].
  destruct Hs as (k & Hk & Hnk & Hfk).
  destruct (Nat.lt_trichotomy i k) as [Hlt|[->|Hlt]].
  - by rewrite Hfk in Hn.
  - congruence.
  - by rewrite Hfirst in Hnk.
Qed.

Lemma scan_symbols_none st syms nm :
  (∀ j, named_at st syms nm j = false) → scan_symbols st syms nm = None.
Proof.
  intros H. pose proof (scan_symbols_spec st syms nm) as Hs.
  destruct (scan_symbols st syms nm); [|done]. destruct Hs as (i & _ & Hi & _). by rewrite H in Hi.
Qed.

(** ** The invariant of a scope *)

Record scope_ok (st : symbol_store) (sc : Scope) : Prop := {
  so_live : Forall (fun s => is_Some (st !! s)) (symbols sc);
  so_index :
    length (symbols sc) < SYMBOL_NAME_INDEX_MIN_SYMBOLS ∧ name_index sc = [] ∨
    SYMBOL_NAME_INDEX_MIN_SYMBOLS ≤ length (symbols sc) ∧
    index_ok (symbol_hash st (symbols sc)) (name_index sc) (length (symbols sc)) ∧
    (length (symbols sc) + 1) * 10 < length (name_index sc) * 7 }.

Definition names_agree (st st' : symbol_store) (syms : list sid) : Prop :=
  ∀ s, s ∈ syms → symbol_name st' s = symbol_name st s.

Lemma symbol_name_live st s : is_Some (symbol_name st s) ↔ is_Some (st !! s).
Proof. unfold symbol_name. by rewrite fmap_is_Some. Qed.

Lemma symbol_hash_agree st st' syms syms' i :
  names_agree st st' syms → i < length syms →
  symbol_hash st' (syms ++ syms') i = symbol_hash st syms i.
Proof.
  intros Hag Hi. unfold symbol_hash. rewrite lookup_app_l by done.
  destruct (lookup_lt_is_Some_2 syms i Hi) as [s Hs]. rewrite Hs. simpl.
  rewrite Hag; [done|]. by eapply list_elem_of_lookup_2.
Qed.

Lemma scope_ok_agree st st' sc :
  names_agree st st' (symbols sc) → scope_ok st sc → scope_ok st' sc.
Proof.
  intros Hag [Hlive Hix]. split.
  - rewrite Forall_forall in *. intros s Hs. rewrite <- symbol_name_live, Hag by done.
    rewrite symbol_name_live. by apply Hlive.
  - destruct Hix as [?|(? & Hix & ?)]; [by left|]. right. split_and!; try done.
    eapply index_ok_ext, Hix. intros i Hi.
    rewrite <- (app_nil_r (symbols sc)) at 2. symmetry. by apply symbol_hash_agree.
Qed.

Lemma scan_agree st st' syms nm :
  names_agree st st' syms → scan_symbols st' syms nm = scan_symbols st syms nm.
Proof.
  induction syms as [|s syms IH]; intros Hag; [done|]. simpl.
  rewrite Hag by apply list_elem_of_here. rewrite IH; [done|].
  intros s' Hs'. apply Hag. by apply list_elem_of_further.
Qed.

(** Probing the index is the linear scan. *)
Lemma scope_lookup_scan st sc nm :
  scope_ok st sc → scope_lookup_symbol st sc nm = Some (scan_symbols st (symbols sc) nm).
Proof.
  intros [_ Hix]. unfold scope_lookup_symbol.
  destruct Hix as [[_ ->]|(_ & Hix & Hload)]; [done|].
  destruct (Nat.ltb_spec 0 (length (name_index sc))); [|lia].
  assert (∀ i, i < length (symbols sc) → named_at st (symbols sc) nm i = true →
    symbol_hash st (symbols sc) i = mettle_fnv1a_hash nm) as Hhome.
  { intros i _ (s & Hs & Hn)%named_at_true. unfold symbol_hash. rewrite Hs. simpl. by rewrite Hn. }
  pose proof (probe_find_spec _ _ _ _ _ Hix ltac:(lia) Hhome) as Hf.
  destruct (probe_find _ _ _) as [[i|]|]; [| |done].
  - destruct Hf as (Hi & Hn & Hfirst).
    destruct (lookup_lt_is_Some_2 _ _ Hi) as [s Hs]. rewrite Hs.
    by rewrite (scan_symbols_unique _ _ _ _ _ Hs Hn Hfirst).
  - rewrite scan_symbols_none; [done|]. intros j.
    destruct (Nat.lt_ge_cases j (length (symbols sc))) as [Hj|Hj]; [by apply Hf|].
    unfold named_at. by rewrite lookup_ge_None_2.
Qed.

(** ** Registering an appended symbol *)

Lemma rebuild_spec st sc n :
  power_of_two n → length (symbols sc) ≤ n →
  ∃ bs, scope_name_index_rebuild st sc n =
      Some (mkScope (scope_type sc) (symbols sc) (symbol_capacity sc) bs) ∧
    length bs = n ∧ index_ok (symbol_hash st (symbols sc)) bs (length (symbols sc)).
Proof.
  intros Hn Hlen. unfold scope_name_index_rebuild.
  destruct (rebuild_loop_spec (symbol_hash st (symbols sc)) (length (symbols sc)) 0
    (replicate n 0)) as (bs & -> & Hbs & Hix).
  - by apply index_empty.
  - by rewrite length_replicate.
  - exists bs. by rewrite Hbs, length_replicate.
Qed.

(** The ensure step on a scope whose array already holds the new symbol. *)
Lemma ensure_spec st sc m :
  length (symbols sc) = S m →
  (m < SYMBOL_NAME_INDEX_MIN_SYMBOLS ∧ name_index sc = [] ∨
   SYMBOL_NAME_INDEX_MIN_SYMBOLS ≤ m ∧ index_ok (symbol_hash st (symbols sc)) (name_index sc) m ∧
   (m + 1) * 10 < length (name_index sc) * 7) →
  (S m < SYMBOL_NAME_INDEX_MIN_SYMBOLS ∧
   scope_name_index_ensure alloc_succeeds st sc = Some (false, sc) ∧ name_index sc = []) ∨
  (∃ bs, SYMBOL_NAME_INDEX_MIN_SYMBOLS ≤ S m ∧
   scope_name_index_ensure alloc_succeeds st sc =
     Some (true, mkScope (scope_type sc) (symbols sc) (symbol_capacity sc) bs) ∧
   (S m + 1) * 10 < length bs * 7 ∧
   (index_ok (symbol_hash st (symbols sc)) bs m ∨ index_ok (symbol_hash st (symbols sc)) bs (S m))).
Proof.
  intros Hlen Hcase. unfold scope_name_index_ensure. rewrite Hlen.
  destruct (Nat.ltb_spec (S m) SYMBOL_NAME_INDEX_MIN_SYMBOLS) as [Hlt|Hge].
  { left. destruct Hcase as [[? ?]|[? _]]; [done|lia]. }
  right. unfold SYMBOL_NAME_INDEX_MIN_SYMBOLS in *. simpl calloc_ok.
  destruct Hcase as [[Hm Hnil]|(Hm & Hix & Hload)].
  - rewrite Hnil. simpl length. cbv [orb Nat.eqb].
    destruct (rebuild_spec st sc 64) as (bs & -> & Hbs & Hix);
      [by exists 6|rewrite Hlen; lia|].
    exists bs. rewrite Hlen in Hix. split_and!; [done|done|lia|by right].
  - destruct (Nat.eqb_spec (length (name_index sc)) 0); [lia|].
    destruct (Nat.leb_spec (length (name_index sc) * 7) ((S m + 1) * 10)); simpl orb; cbn iota.
    + destruct (rebuild_spec st sc (length (name_index sc) * 2)) as (bs & -> & Hbs & Hix');
        [apply power_of_two_double, (ix_size _ _ _ Hix)|rewrite Hlen; lia|].
      exists bs. rewrite Hlen in Hix'. split_and!; [done|done|lia|by right].
    + exists (name_index sc). split_and!; [done|by destruct sc|lia|by left].
Qed.

Lemma register_appended_spec st st' sc s cap :
  scope_ok st sc → names_agree st st' (symbols sc) → is_Some (st' !! s) →
  let sc1 := mkScope (scope_type sc) (symbols sc ++ [s]) cap (name_index sc) in
  ∃ bs, scope_register_appended_symbol alloc_succeeds st' sc1 (length (symbols sc)) =
      Some (mkScope (scope_type sc) (symbols sc ++ [s]) cap bs) ∧
    scope_ok st' (mkScope (scope_type sc) (symbols sc ++ [s]) cap bs).
Proof.
  intros Hok Hag Hs sc1. pose proof (scope_ok_agree _ _ _ Hag Hok) as [Hlive Hix].
  set (m := length (symbols sc)) in *.
  assert (length (symbols sc1) = S m) as Hlen by (simpl; rewrite length_app; simpl; lia).
  assert (Forall (fun s => is_Some (st' !! s)) (symbols sc1)) as Hlive1
    by (simpl; apply Forall_app; split; [done|by repeat constructor]).
  assert (∀ bs, index_ok (symbol_hash st' (symbols sc)) bs m →
    index_ok (symbol_hash st' (symbols sc1)) bs m) as Hext.
  { intros bs. apply index_ok_ext. intros i Hi. symmetry. by apply symbol_hash_agree. }
  unfold scope_register_appended_symbol.
  destruct (ensure_spec st' sc1 m Hlen) as [(Hlt & -> & Hnil)|(bs & Hge & -> & Hload & Hbs)].
  { destruct Hix as [?|(? & ? & ?)]; [by left|right]. split_and!; [done|by apply Hext|done]. }
  - exists (name_index sc). split; [done|]. split; [done|]. left. split; [by rewrite <- Hlen in Hlt|done].
  - cbn [name_index symbols scope_type symbol_capacity].
    destruct (Nat.eqb_spec (length bs) 0); [lia|].
    destruct (register_spec (symbol_hash st' (symbols sc1)) bs m) as (bs' & Hreg & Hlen' & Hix');
      [lia|done|].
    exists bs'. simpl in Hreg |- *. rewrite Hreg. split; [done|]. split; [done|]. right.
    simpl symbols in *. simpl name_index. rewrite Hlen, Hlen'. split_and!; [done|done|lia].
Qed.

(** ** The table *)

Definition symbols_of (chain : list Scope) : list sid := concat (map symbols chain).

Record table_ok (t : SymbolTable) : Prop := {
  to_scopes : scopes t ≠ [];
  to_each : Forall (scope_ok (store t)) (scopes t);
  to_nodup : NoDup (symbols_of (scopes t)) }.

Lemma symbols_of_elem chain sc s : sc ∈ chain → s ∈ symbols sc → s ∈ symbols_of chain.
Proof.
  intros Hsc Hs. unfold symbols_of. apply list_elem_of_In, in_concat.
  exists (symbols sc). split; [|by apply list_elem_of_In].
  apply in_map. by apply list_elem_of_In.
Qed.

Lemma scopes_ok_agree st st' chain :
  names_agree st st' (symbols_of chain) → Forall (scope_ok st) chain → Forall (scope_ok st') chain.
Proof.
  intros Hag Hall. apply Forall_forall. intros sc Hsc. rewrite Forall_forall in Hall.
  eapply scope_ok_agree, Hall, Hsc. intros s Hs. apply Hag. by eapply symbols_of_elem.
Qed.

(** A store update that keeps every name keeps the invariant. *)
Lemma alter_names_agree (f : Symbol → Symbol) s st syms :
  (∀ x, name (f x) = name x) → names_agree st (alter f s st) syms.
Proof.
  intros Hf s' _. unfold symbol_name. destruct (decide (s = s')) as [->|Hne].
  - rewrite lookup_alter_eq. destruct (st !! s'); simpl; [by rewrite Hf|done].
  - by rewrite lookup_alter_ne.
Qed.

Lemma update_symbol_ok f s t :
  (∀ x, name (f x) = name x) → table_ok t → table_ok (update_symbol f s t).
Proof.
  intros Hf [Hne Hall Hnd]. split; try done. simpl.
  eapply scopes_ok_agree, Hall. by apply alter_names_agree.
Qed.

Lemma append_symbol_spec t s :
  table_ok t → is_Some (store t !! s) → s ∉ symbols_of (scopes t) →
  ∃ sc rest cap bs,
    scopes t = sc :: rest ∧
    append_symbol alloc_succeeds t s =
      Some (true, mkTable (alter (set_scope (length rest)) s (store t))
        (mkScope (scope_type sc) (symbols sc ++ [s]) cap bs :: rest)) ∧
    table_ok (mkTable (alter (set_scope (length rest)) s (store t))
      (mkScope (scope_type sc) (symbols sc ++ [s]) cap bs :: rest)).
Proof.
  intros [Hne Hall Hnd] Hs Hfresh. unfold append_symbol.
  destruct (scopes t) as [|sc rest] eqn:Hsc; [done|]. simpl realloc_ok.
  rewrite andb_false_r. set (cap := if _ <=? _ then _ else _).
  apply Forall_cons in Hall as [Hok Hrest].
  set (st' := alter (set_scope (length rest)) s (store t)).
  assert (∀ syms, names_agree (store t) st' syms) as Hag by (intros; by apply alter_names_agree).
  destruct (register_appended_spec (store t) st' sc s cap Hok (Hag _)) as (bs & Hreg & Hok').
  { rewrite <- symbol_name_live, (Hag [s]), symbol_name_live; [done|]. apply list_elem_of_here. }
  exists sc, rest, cap, bs. rewrite Hreg. split_and!; [done..|]. split; [done| |].
  - simpl. constructor; [done|]. eapply scopes_ok_agree, Hrest. apply Hag.
  - simpl. change (NoDup ((symbols sc ++ [s]) ++ symbols_of rest)).
    rewrite <- app_assoc. apply NoDup_app in Hnd as (Hnd1 & Hdis & Hnd2).
    unfold symbols_of in Hfresh. simpl in Hfresh.
    rewrite not_elem_of_app in Hfresh. destruct Hfresh as [Hf1 Hf2].
    apply NoDup_app. split_and!; [done| |by apply NoDup_cons].
    intros x Hx [->|Hin]%elem_of_cons; [done|]. by apply (Hdis x).
Qed.

(** ** The abstract table: a stack of finite maps *)

Definition abs_scope (st : symbol_store) (syms : list sid) : gmap string sid :=
  foldr (fun s m => match symbol_name st s with Some n => <[n:=s]> m | None => m end) ∅ syms.
Definition abs_table (t : SymbolTable) : list (gmap string sid) :=
  map (fun sc => abs_scope (store t) (symbols sc)) (scopes t).

Fixpoint abs_lookup (chain : list (gmap string sid)) (nm : string) : option sid :=
  match chain with
  | [] => None
  | m :: chain' => match m !! nm with Some s => Some s | None => abs_lookup chain' nm end
  end.

Lemma abs_scope_lookup st syms nm : abs_scope st syms !! nm = scan_symbols st syms nm.
Proof.
  induction syms as [|s syms IH]; simpl; [done|].
  destruct (symbol_name st s) as [n|]; [|done].
  destruct (String.eqb_spec n nm) as [->|Hne]; [by rewrite lookup_insert_eq|].
  by rewrite lookup_insert_ne.
Qed.

Lemma abs_scope_agree st st' syms :
  names_agree st st' syms → abs_scope st' syms = abs_scope st syms.
Proof. intros Hag. apply map_eq. intros nm. rewrite !abs_scope_lookup. by apply scan_agree. Qed.

Lemma abs_chain_agree st st' chain :
  names_agree st st' (symbols_of chain) →
  map (fun sc => abs_scope st' (symbols sc)) chain = map (fun sc => abs_scope st (symbols sc)) chain.
Proof.
  intros Hag. apply map_ext_in. intros sc Hsc. apply abs_scope_agree. intros s Hs.
  apply Hag. eapply symbols_of_elem; [by apply list_elem_of_In|done].
Qed.

Lemma abs_scope_snoc st syms s n :
  symbol_name st s = Some n → scan_symbols st syms n = None →
  abs_scope st (syms ++ [s]) = <[n:=s]> (abs_scope st syms).
Proof.
  intros Hs. induction syms as [|s' syms IH]; simpl; [by rewrite Hs|].
  destruct (symbol_name st s') as [n'|]; [|done].
  destruct (String.eqb_spec n' n) as [->|Hne]; [done|]. intros Hn. rewrite IH by done.
  by rewrite insert_insert_ne.
Qed.

Lemma lookup_chain_abs st chain nm :
  Forall (scope_ok st) chain →
  lookup_chain st chain nm =
    Some (abs_lookup (map (fun sc => abs_scope st (symbols sc)) chain) nm).
Proof.
  induction 1 as [|sc chain Hok _ IH]; simpl; [done|].
  rewrite (scope_lookup_scan _ _ _ Hok), abs_scope_lookup, IH.
  by destruct (scan_symbols st (symbols sc) nm).
Qed.

Lemma lookup_current_abs t nm :
  table_ok t →
  symbol_table_lookup_current_scope t nm = Some (from_option (fun m => m !! nm) None (head (abs_table t))).
Proof.
  intros [Hne Hall _]. unfold symbol_table_lookup_current_scope, abs_table.
  destruct (scopes t) as [|sc rest]; [done|]. simpl.
  apply Forall_cons in Hall as [Hok _]. by rewrite (scope_lookup_scan _ _ _ Hok), abs_scope_lookup.
Qed.

Lemma enter_spec t ty :
  table_ok t →
  table_ok (symbol_table_enter_scope t ty) ∧
  abs_table (symbol_table_enter_scope t ty) = ∅ :: abs_table t.
Proof.
  intros [Hne Hall Hnd]. split; [|done]. split; simpl; [done| |done].
  constructor; [|done]. split; simpl; [constructor|]. left. split; [|done].
  unfold SYMBOL_NAME_INDEX_MIN_SYMBOLS. lia.
Qed.

(** Freeing the inner scope's symbols leaves the outer names alone. *)
Lemma scope_destroy_other st sc s : s ∉ symbols sc → scope_destroy st sc !! s = st !! s.
Proof.
  unfold scope_destroy. induction (symbols sc) as [|s' l IH]; simpl; [done|].
  intros [Hne Hdis]%not_elem_of_cons. by rewrite lookup_delete_ne, IH.
Qed.

Lemma scope_destroy_agree st sc syms :
  (∀ s, s ∈ syms → s ∉ symbols sc) → names_agree st (scope_destroy st sc) syms.
Proof. intros Hdis s Hs. unfold symbol_name. by rewrite scope_destroy_other by (by apply Hdis). Qed.

Lemma exit_spec t sc sc' rest :
  table_ok t → scopes t = sc :: sc' :: rest →
  table_ok (symbol_table_exit_scope t) ∧ abs_table (symbol_table_exit_scope t) = tail (abs_table t).
Proof.
  intros [_ Hall Hnd] Heq.
  assert (symbol_table_exit_scope t = mkTable (scope_destroy (store t) sc) (sc' :: rest)) as ->
    by (unfold symbol_table_exit_scope; by rewrite Heq).
  rewrite Heq in Hall, Hnd. apply Forall_cons in Hall as [_ Hall].
  change (NoDup (symbols sc ++ symbols_of (sc' :: rest))) in Hnd.
  apply NoDup_app in Hnd as (_ & Hdis & Hnd).
  assert (names_agree (store t) (scope_destroy (store t) sc) (symbols_of (sc' :: rest))) as Hag.
  { apply scope_destroy_agree. intros s Hs Hin. by apply (Hdis s). }
  split.
  - split; [done| |done]. by eapply scopes_ok_agree.
  - unfold abs_table. rewrite Heq. by apply (abs_chain_agree _ _ (sc' :: rest)).
Qed.

(** ** Signatures *)

Section typed.
(** Type objects without reference cycles outside structs, and enough fuel. *)
Context (types : type_store) (rank : tid → nat) (fuel : nat).
Context (Hranked : ranked types rank).

Definition symbol_types (x : Symbol) : list (option tid) :=
  stype x :: return_type (function x) :: default [] (parameter_types (function x)).
Definition typed_ref (t : option tid) : Prop := resolves types t ∧ depth rank t < fuel.
Definition typed_symbol (x : Symbol) : Prop := Forall typed_ref (symbol_types x).
Definition typed_store (st : symbol_store) : Prop := map_Forall (λ _, typed_symbol) st.

(** The declarative reading of [symbol_table_function_signatures_match]. *)
Record same_signature (decl defn : Symbol) : Prop := {
  ss_decl : skind decl = SYMBOL_FUNCTION;
  ss_defn : skind defn = SYMBOL_FUNCTION;
  ss_count : parameter_count (function decl) = parameter_count (function defn);
  ss_extern : is_extern decl = is_extern defn;
  ss_link : is_extern decl = true →
    symbol_table_effective_link_name decl = symbol_table_effective_link_name defn;
  ss_return : compatible types (effective_return decl) (effective_return defn);
  ss_parameters :
    compatible_list types
      (map (parameter_type decl) (seq 0 (parameter_count (function decl))))
      (map (parameter_type defn) (seq 0 (parameter_count (function decl)))) }.

Lemma typed_return x : typed_symbol x → 0 < fuel → typed_ref (effective_return x).
Proof.
  unfold typed_symbol, symbol_types. rewrite !Forall_cons. intros (Ht & Hr & _) Hf.
  unfold effective_return.
  by destruct (return_type (function x)).
Qed.

Lemma typed_parameter x i : typed_symbol x → 0 < fuel → typed_ref (parameter_type x i).
Proof.
  unfold typed_symbol, symbol_types. rewrite !Forall_cons. intros (_ & _ & Hp) Hf.
  unfold parameter_type.
  destruct (parameter_types (function x)) as [ts|]; [|done]. simpl in Hp.
  destruct (ts !! i) as [t|] eqn:Ht; [|done]. simpl.
  by eapply Forall_lookup_1 in Ht.
Qed.

Lemma typed_decides l r : typed_ref l → typed_ref r → decides types fuel l r.
Proof. intros [Hl Hf] [Hr _]. by apply (types_compatible_decides types rank). Qed.

Lemma signatures_match_spec decl defn :
  0 < fuel → typed_symbol decl → typed_symbol defn →
  ∃ b, symbol_table_function_signatures_match fuel types decl defn = Some b ∧
    (b = true ↔ same_signature decl defn).
Proof.
  intros Hf Hd He. unfold symbol_table_function_signatures_match.
  destruct (typed_decides (effective_return decl) (effective_return defn))
    as (br & Hbr & Hiffr); [by apply typed_return..|].
  set (n := parameter_count (function decl)).
  destruct (all_compatible_spec types fuel (map (parameter_type decl) (seq 0 n))
    (map (parameter_type defn) (seq 0 n))) as (bp & Hbp & Hiffp).
  { apply Forall2_fmap_2, Forall_Forall2_diag, Forall_forall. intros i _.
    apply typed_decides; by apply typed_parameter. }
  assert (∀ P : Prop, (same_signature decl defn → P) → (P → False) →
    ∃ b : bool, Some false = Some b ∧ (b = true ↔ same_signature decl defn)) as Hno.
  { intros P H1 H2. exists false. split; [done|]. split; [done|]. tauto. }
  destruct (bool_decide (skind decl = SYMBOL_FUNCTION) && _) eqn:E1; simpl;
    [|apply (Hno (skind decl = SYMBOL_FUNCTION ∧ skind defn = SYMBOL_FUNCTION)); [by intros []|];
      intros [? ?]; rewrite !bool_decide_true in E1; done].
  apply andb_true_iff in E1 as [Hk1%bool_decide_eq_true Hk2%bool_decide_eq_true].
  destruct (Nat.eqb_spec n (parameter_count (function defn))) as [E2|E2]; simpl;
    [|eapply Hno; [apply ss_count|done]].
  destruct (xorb _ _) eqn:E3; 
    [eapply Hno; [apply ss_extern|]; intros Heq; by rewrite Heq, xorb_nilpotent in E3|].
  apply xorb_eq in E3.
  destruct ((is_extern decl || is_extern defn) && _) eqn:E4.
  { rewrite <- E3, orb_diag in E4. apply andb_true_iff in E4 as [Hx E4].
    eapply (Hno (_ = _)); [intros Hs; exact (ss_link _ _ Hs Hx)|]. intros Heq.
    unfold symbol_table_link_names_match in E4. by rewrite Heq, String.eqb_refl in E4. }
  rewrite Hbr. destruct br; [|eapply Hno; [apply ss_return|]; by rewrite <- Hiffr].
  exists bp. split; [done|]. rewrite Hiffp. split; [|apply ss_parameters].
  intros Hp. split; try done; [|by apply Hiffr].
  intros Hx. rewrite <- E3, Hx in E4. simpl in E4.
  by apply negb_false_iff, String.eqb_eq in E4.
Qed.

(** *** Declarations *)

(** What every symbol must have to be declared: a name, a type and, for a function, the
    name and the type of each of its parameters. *)
Record declarable (x : Symbol) : Prop := {
  dc_name : name x ≠ ""%string;
  dc_type : is_Some (stype x);
  dc_parameters : skind x = SYMBOL_FUNCTION → ∀ i, i < parameter_count (function x) →
    (∃ ns n, parameter_names (function x) = Some ns ∧ ns !! i = Some (Some n)) ∧
    (∃ ts u, parameter_types (function x) = Some ts ∧ ts !! i = Some (Some u)) }.

Lemma parameters_valid_spec f :
  parameters_valid f = true ↔ ∀ i, i < parameter_count f →
    (∃ ns n, parameter_names f = Some ns ∧ ns !! i = Some (Some n)) ∧
    (∃ ts u, parameter_types f = Some ts ∧ ts !! i = Some (Some u)).
Proof.
  unfold parameters_valid. destruct (parameter_count f) as [|n]; [split; [lia|done]|].
  destruct (parameter_names f) as [ns|]; [|split; [done|]; intros H; by destruct (H 0 ltac:(lia)) as [(? & ? & ? & _) _]].
  destruct (parameter_types f) as [ts|]; [|split; [done|]; intros H; by destruct (H 0 ltac:(lia)) as [_ (? & ? & ? & _)]].
  rewrite forallb_forall. split.
  - intros H i Hi. specialize (H i ltac:(apply in_seq; lia)).
    destruct (ns !! i) as [[a|]|] eqn:Hn; [|done..]. destruct (ts !! i) as [[b|]|] eqn:Ht; [|done..]. eauto 10.
  - intros H i [_ Hi]%in_seq. destruct (H i Hi) as [(? & ? & [= <-] & ->) (? & ? & [= <-] & ->)]. done.
Qed.

(** A function meets a forward declaration. *)
Definition completes (x ex : Symbol) : Prop :=
  skind x = SYMBOL_FUNCTION ∧ skind ex = SYMBOL_FUNCTION ∧ is_forward_declaration ex = true.

Lemma resolves_forward_spec x ex : resolves_forward x ex = true ↔ completes x ex.
Proof.
  unfold resolves_forward, completes. rewrite !andb_true_iff, !bool_decide_eq_true. tauto.
Qed.

(** The forward declaration once it is completed, and a symbol once it is in a scope. *)
Definition completed (ex : Symbol) : Symbol :=
  mkSymbol (name ex) (skind ex) (stype ex) (sscope ex) true false (is_extern ex) (link_name ex)
    (function ex) (variable ex) (constant_value ex) (constructor ex).
Definition entered (depth : nat) (x : Symbol) : Symbol :=
  mkSymbol (name x) (skind x) (stype x) (Some depth) (is_initialized x) (is_forward_declaration x)
    (is_extern x) (link_name x) (function x) (variable x) (constant_value x) (constructor x).

Definition current (t : SymbolTable) (nm : string) : option sid :=
  from_option (λ m : gmap string sid, m !! nm) None (head (abs_table t)).

(** Binding a name in the innermost map of the stack. *)
Definition bind_current (nm : string) (s : sid) (chain : list (gmap string sid))
    : list (gmap string sid) :=
  match chain with m :: rest => <[nm:=s]> m :: rest | [] => [] end.

(** The outcomes of declaring symbol [s], whose contents are [x]; [a] says whether memory
    is available. *)
Inductive declared (a : alloc) (t : SymbolTable) (s : sid) (x : Symbol) : bool → SymbolTable → Prop :=
  | declared_invalid : ¬ declarable x → declared a t s x false t
  | declared_duplicate e ex :
      declarable x → current t (name x) = Some e → store t !! e = Some ex →
      ¬ (completes x ex ∧ same_signature ex x) → declared a t s x false t
  | declared_resolved e ex t' :
      declarable x → current t (name x) = Some e → store t !! e = Some ex →
      completes x ex → same_signature ex x →
      store t' = <[e := completed ex]> (store t) → scopes t' = scopes t →
      declared a t s x true t'
  | declared_no_memory :
      declarable x → current t (name x) = None → realloc_ok a = false → declared a t s x false t
  | declared_fresh t' :
      declarable x → current t (name x) = None →
      store t' = <[s := entered (pred (length (scopes t))) x]> (store t) →
      symbols_of (scopes t') ⊆ s :: symbols_of (scopes t) →
      tail (scopes t') = tail (scopes t) →
      abs_table t' = bind_current (name x) s (abs_table t) →
      declared a t s x true t'.

Lemma current_live t nm e :
  table_ok t → current t nm = Some e →
  e ∈ default [] (symbols <$> head (scopes t)) ∧ ∃ x, store t !! e = Some x ∧ name x = nm.
Proof.
  intros [_ Hall _]. unfold current, abs_table.
  destruct (scopes t) as [|sc rest]; simpl; [done|]. rewrite abs_scope_lookup.
  apply Forall_cons in Hall as [[Hlive _] _]. intros Hs.
  pose proof (scan_symbols_spec (store t) (symbols sc) nm) as H. rewrite Hs in H.
  destruct H as (i & Hi & (e' & He' & Hn)%named_at_true & _). simplify_eq. split.
  - by eapply list_elem_of_lookup_2.
  - unfold symbol_name in Hn. apply fmap_Some in Hn as (x & ? & ->). eauto.
Qed.

Lemma abs_table_update f s t :
  (∀ x, name (f x) = name x) → abs_table (update_symbol f s t) = abs_table t.
Proof. intros Hf. apply abs_chain_agree. by apply alter_names_agree. Qed.

Lemma typed_store_update f s st :
  (∀ x, symbol_types (f x) = symbol_types x) → typed_store st → typed_store (alter f s st).
Proof.
  intros Hf Hst a y Ha. destruct (decide (s = a)) as [->|Hne].
  - rewrite lookup_alter_eq in Ha. apply fmap_Some in Ha as (z & Hz & ->).
    unfold typed_symbol. rewrite Hf. by apply (Hst a).
  - rewrite lookup_alter_ne in Ha by done. by apply (Hst a).
Qed.

Lemma append_symbol_abs t s x :
  table_ok t → store t !! s = Some x → s ∉ symbols_of (scopes t) → current t (name x) = None →
  ∃ t', append_symbol alloc_succeeds t s = Some (true, t') ∧ table_ok t' ∧
    store t' = alter (set_scope (pred (length (scopes t)))) s (store t) ∧
    symbols_of (scopes t') ⊆ s :: symbols_of (scopes t) ∧
    tail (scopes t') = tail (scopes t) ∧
    abs_table t' = bind_current (name x) s (abs_table t).
Proof.
  intros Hok Hs Hfresh Hcur.
  destruct (append_symbol_spec t s Hok) as (sc & rest & cap & bs & Hsc & Happ & Hok'); [done..|].
  eexists. split_and!; [exact Happ|exact Hok'|by rewrite Hsc|..]; rewrite ?Hsc; simpl.
  - unfold symbols_of. simpl. intros y. rewrite elem_of_cons, !elem_of_app, list_elem_of_singleton. tauto.
  - done.
  - unfold current, abs_table in Hcur. rewrite Hsc in Hcur. simpl in Hcur.
    rewrite abs_scope_lookup in Hcur.
    set (st' := alter (set_scope (length rest)) s (store t)).
    assert (∀ syms, names_agree (store t) st' syms) as Hag by (intros; by apply alter_names_agree).
    unfold abs_table. rewrite Hsc. simpl. fold st'.
    rewrite (abs_scope_snoc st' (symbols sc) s (name x)).
    + by rewrite (abs_scope_agree (store t)), (abs_chain_agree (store t)).
    + rewrite (Hag [s]) by apply list_elem_of_here. unfold symbol_name. by rewrite Hs.
    + by rewrite (scan_agree (store t)).
Qed.

(** Memory for the array of symbols is the only thing that may be refused. *)
Lemma append_symbol_alloc a t s :
  calloc_ok a = true →
  append_symbol a t s = append_symbol alloc_succeeds t s ∨ (realloc_ok a = false ∧ append_symbol a t s = Some (false, t)).
Proof.
  intros Hc. destruct a as [[] c]; simpl in Hc; subst c; [by left|]. unfold append_symbol.
  destruct (scopes t); [by left|]. destruct (symbol_capacity _ <=? _); simpl; [by right|by left].
Qed.

Lemma alter_known (f : Symbol → Symbol) s x (st : symbol_store) :
  st !! s = Some x → alter f s st = <[s := f x]> st.
Proof.
  intros Hs. apply map_eq. intros k. destruct (decide (s = k)) as [<-|Hne].
  - by rewrite lookup_alter_eq, lookup_insert_eq, Hs.
  - by rewrite lookup_alter_ne, lookup_insert_ne.
Qed.

Lemma declare_spec a t s x :
  calloc_ok a = true → table_ok t → typed_store (store t) → 0 < fuel →
  store t !! s = Some x → s ∉ symbols_of (scopes t) →
  ∃ b t', symbol_table_declare fuel types a t s = Some (b, t') ∧
    table_ok t' ∧ typed_store (store t') ∧ declared a t s x b t'.
Proof.
  intros Hc Hok Hty Hf Hs Hfresh.
  unfold symbol_table_declare, symbol_table_validate_declaration. rewrite Hs.
  assert (¬ declarable x → ∃ b t', Some (false, t) = Some (b, t') ∧ table_ok t' ∧
    typed_store (store t') ∧ declared a t s x b t') as Hinv
    by (intros; eexists _, _; split_and!; [done..|by constructor]).
  destruct (String.eqb_spec (name x) "") as [E1|E1]; [apply Hinv; by intros []|].
  case_bool_decide as E2; simpl; [|apply Hinv; by intros []].
  destruct (bool_decide (skind x = SYMBOL_FUNCTION) && negb (parameters_valid (function x))) eqn:E3.
  { apply andb_true_iff in E3 as [Hk%bool_decide_eq_true Hp%negb_true_iff]. apply Hinv. intros [_ _ Hd].
    specialize (Hd Hk). apply parameters_valid_spec in Hd. by rewrite Hd in Hp. }
  assert (declarable x) as Hdecl.
  { split; [done..|]. intros Hk. apply parameters_valid_spec. rewrite bool_decide_true in E3 by done.
    by apply negb_false_iff in E3. }
  rewrite (lookup_current_abs t (name x) Hok). fold (current t (name x)).
  destruct (current t (name x)) as [e|] eqn:Hcur.
  - destruct (current_live t _ e Hok Hcur) as (_ & ex & He & _). rewrite He.
    destruct (signatures_match_spec ex x Hf) as (b & Hb & Hiff);
      [by apply (Hty e)|by apply (Hty s)|].
    assert (¬ (completes x ex ∧ same_signature ex x) →
      ∃ b t', Some (false, t) = Some (b, t') ∧ table_ok t' ∧ typed_store (store t') ∧
        declared a t s x b t') as Hdup.
    { intros Hno. eexists _, _. split_and!; [done..|]. by eapply declared_duplicate. }
    pose proof (resolves_forward_spec x ex) as Hfw.
    destruct (resolves_forward x ex) eqn:Hres; [|apply Hdup; intros [H _]; by apply Hfw in H].
    rewrite Hb. destruct b; [|apply Hdup; intros [_ Hsig]; by apply Hiff in Hsig].
    eexists _, _. split_and!; [done|by apply update_symbol_ok|by apply typed_store_update|].
    eapply declared_resolved; try done; [by apply Hfw|by apply Hiff|]. simpl. by rewrite (alter_known _ _ ex).
  - destruct (append_symbol_alloc a t s Hc) as [->|[Hno ->]].
    + destruct (append_symbol_abs t s x) as (t' & Happ & Hok' & Hst & Hsub & Hlen & Habs); [done..|].
      exists true, t'. split_and!; [done|done|rewrite Hst; by apply typed_store_update|].
      apply declared_fresh; try done. by rewrite Hst, (alter_known _ _ x).
    + exists false, t. split_and!; [done..|]. by apply declared_no_memory.
Qed.

(** Declaring a list of symbols one after the other. *)
Fixpoint declare_all (t : SymbolTable) (l : list sid) : option (list bool * SymbolTable) :=
  match l with
  | [] => Some ([], t)
  | s :: l' =>
      match symbol_table_declare fuel types alloc_succeeds t s with
      | Some (b, t1) =>
          match declare_all t1 l' with
          | Some (bs, t2) => Some (b :: bs, t2)
          | None => None
          end
      | None => None
      end
  end.

(** [t'] extends [t0] by one scope and leaves the symbols of [t0] alone. *)
Record inside (t0 t' : SymbolTable) : Prop := {
  in_ok : table_ok t';
  in_typed : typed_store (store t');
  in_outer : tail (scopes t') = scopes t0;
  in_same : ∀ s, s ∈ symbols_of (scopes t0) → store t' !! s = store t0 !! s }.

Lemma declared_live a t s x b t' k :
  store t !! s = Some x → declared a t s x b t' → is_Some (store t !! k) → is_Some (store t' !! k).
Proof.
  intros Hs Hd Hk. destruct Hd as [| |e ex t' ? ? ? ? ? Hst| |t' ? ? Hst]; try done; rewrite Hst;
    apply lookup_insert_is_Some'; by right.
Qed.

Lemma declared_symbols a t s x b t' :
  declared a t s x b t' → symbols_of (scopes t') ⊆ s :: symbols_of (scopes t).
Proof. intros Hd. destruct Hd as [| |e ex t' ? ? ? ? ? ? ->| |t' ? ? ? Hsub]; [by intros ?; right..|done]. Qed.

Lemma declare_inside a t0 t s x b t' :
  inside t0 t → scopes t0 ≠ [] → s ∉ symbols_of (scopes t0) →
  table_ok t' → typed_store (store t') → declared a t s x b t' → inside t0 t'.
Proof.
  intros [Hok Hty Hout Hsame] Hne Hs Hok' Hty' Hd. split; [done|done|..].
  - destruct Hd as [| |e ex t' ? ? ? ? ? ? ->| |]; try done. congruence.
  - intros k Hk. rewrite <- Hsame by done.
    destruct Hd as [|e ex|e ex t' ? Hcur ? ? ? Hst|? ?|t' ? ? Hst]; try done; rewrite Hst, lookup_insert_ne; try done.
    + intros ->. destruct (current_live t _ k Hok Hcur) as [Hin _].
      pose proof (to_nodup _ Hok) as Hnd. destruct (scopes t) as [|sc rest]; [done|].
      simpl in *. subst rest. apply NoDup_app in Hnd as (_ & Hdis & _). by apply (Hdis k).
    + by intros ->.
Qed.

Lemma declare_all_inside t0 l t :
  scopes t0 ≠ [] → 0 < fuel → inside t0 t → NoDup l →
  (∀ s, s ∈ l → is_Some (store t !! s) ∧ s ∉ symbols_of (scopes t)) →
  ∃ bs t', declare_all t l = Some (bs, t') ∧ inside t0 t'.
Proof.
  intros Hne Hf. revert t. induction l as [|s l IH]; intros t Hin Hnd Hl; simpl.
  { by exists [], t. }
  apply NoDup_cons in Hnd as [Hsl Hnd].
  destruct (Hl s) as [[x Hx] Hfresh]; [apply list_elem_of_here|].
  destruct (declare_spec alloc_succeeds t s x) as (b & t1 & -> & Hok1 & Hty1 & Hd); [done|by apply Hin|by apply Hin|done..|].
  assert (inside t0 t1) as Hin1.
  { eapply declare_inside; try done. intros Hs. apply Hfresh.
    destruct Hin as [[? _ _] _ Hout _]. destruct (scopes t) as [|sc rest]; [done|].
    simpl in Hout. subst rest. apply elem_of_app. by right. }
  destruct (IH t1 Hin1 Hnd) as (bs & t2 & -> & Hin2).
  - intros a Ha. destruct (Hl a) as [Hlive Hfr]; [by apply list_elem_of_further|].
    split; [by eapply declared_live|]. intros Hin'. apply (declared_symbols _ _ _ _ _ _ Hd) in Hin'.
    apply elem_of_cons in Hin' as [->|?]; done.
  - by exists (b :: bs), t2.
Qed.

(** Leaving the scope gives back the outer table. *)
Lemma leave_spec t t1 :
  table_ok t → inside t t1 →
  let t2 := symbol_table_exit_scope t1 in
  table_ok t2 ∧ abs_table t2 = abs_table t ∧
  (∀ nm, symbol_table_lookup t2 nm = symbol_table_lookup t nm) ∧
  ∀ s, s ∈ symbols_of (scopes t) → store t2 !! s = store t !! s.
Proof.
  intros Hok [Hok1 _ Hout Hsame] t2.
  destruct (scopes t1) as [|sc [|sc' rest]] eqn:Hsc; simpl in Hout;
    [by destruct (to_scopes _ Hok)..|].
  destruct (exit_spec t1 sc sc' rest Hok1 Hsc) as [Hok2 Habs]. fold t2 in Hok2, Habs.
  assert (abs_table t2 = abs_table t) as Heq.
  { rewrite Habs. unfold abs_table. rewrite Hsc, <- Hout. apply (abs_chain_agree _ _ (sc' :: rest)).
    intros s Hs. unfold symbol_name. rewrite Hsame; [done|]. by rewrite <- Hout. }
  split_and!; [done|done|..].
  - intros nm. unfold symbol_table_lookup.
    rewrite !lookup_chain_abs by apply Hok2 || apply Hok.
    fold (abs_table t2) (abs_table t). by rewrite Heq.
  - intros s Hs. rewrite <- Hsame by done. unfold t2, symbol_table_exit_scope. rewrite Hsc. simpl.
    apply scope_destroy_other. intros Hin. pose proof (to_nodup _ Hok1) as Hnd.
    rewrite Hsc, Hout in Hnd. apply NoDup_app in Hnd as (_ & Hdis & _). by apply (Hdis s).
Qed.
End typed.

(** ** The properties *)

(** C6. The scope chain with its hash indices refines a stack of finite maps: on
    a well-formed table, where every scope of fewer than 24 symbols has no index and
    every larger one a complete index that is not too full, a lookup always answers,
    with the innermost binding of the name (or of the current scope alone), entering
    a scope pushes an empty map, and leaving one pops it. *)
Theorem symbol_table_refines t :
  table_ok t →
  (∀ nm, symbol_table_lookup t nm = Some (abs_lookup (abs_table t) nm)) ∧
  (∀ nm, symbol_table_lookup_current_scope t nm = Some (current t nm)) ∧
  (∀ ty, table_ok (symbol_table_enter_scope t ty) ∧
     abs_table (symbol_table_enter_scope t ty) = ∅ :: abs_table t) ∧
  (1 < length (scopes t) → table_ok (symbol_table_exit_scope t) ∧
     abs_table (symbol_table_exit_scope t) = tail (abs_table t)).
Proof.
  intros Hok. pose proof Hok as [Hne Hall Hnd]. split_and!.
  - intros nm. by apply lookup_chain_abs.
  - intros nm. by apply lookup_current_abs.
  - intros ty. by apply enter_spec.
  - destruct (scopes t) as [|sc [|sc' rest]] eqn:Hsc; simpl; [lia..|]. intros _.
    by eapply exit_spec.
Qed.

(** C25. On a well-formed table whose types are well founded, and as long as the name index
    can be allocated, declaring a symbol that is in no scope always answers, keeps the table
    well formed, and does one of five things: reject a symbol without a name, a type or its
    parameters; reject a second declaration of the name in the scope; turn a forward
    declaration with the same signature into a definition, and change nothing else; refuse
    when the array of symbols cannot grow; or bind a fresh name in the current scope.
    (Where the index cannot grow, see [symbol_table_index_growth_failure].) *)
Theorem symbol_table_declare_correct types rank fuel a t s x :
  ranked types rank → calloc_ok a = true → table_ok t → typed_store types rank fuel (store t) → 0 < fuel →
  store t !! s = Some x → s ∉ symbols_of (scopes t) →
  ∃ b t', symbol_table_declare fuel types a t s = Some (b, t') ∧
    table_ok t' ∧ typed_store types rank fuel (store t') ∧ declared types a t s x b t'.
Proof. intros. by apply declare_spec. Qed.

(** C39. Scopes nest: on a well-formed table whose types are well founded, and while memory
    is available, entering a scope, declaring any fresh symbols in it, accepted or not, and
    leaving it restores every binding, every lookup and the contents of every symbol of
    the enclosing scopes. *)
Theorem symbol_table_scope_bracket types rank fuel t ty l :
  ranked types rank → table_ok t → typed_store types rank fuel (store t) → 0 < fuel →
  NoDup l → (∀ s, s ∈ l → is_Some (store t !! s) ∧ s ∉ symbols_of (scopes t)) →
  ∃ bs t1, declare_all types fuel (symbol_table_enter_scope t ty) l = Some (bs, t1) ∧
    let t2 := symbol_table_exit_scope t1 in
    table_ok t2 ∧ abs_table t2 = abs_table t ∧
    (∀ nm, symbol_table_lookup t2 nm = symbol_table_lookup t nm) ∧
    ∀ s, s ∈ symbols_of (scopes t) → store t2 !! s = store t !! s.
Proof.
  intros Hrk Hok Hty Hf Hnd Hl.
  destruct (enter_spec t ty Hok) as [Hok0 _].
  destruct (declare_all_inside types rank fuel Hrk t l (symbol_table_enter_scope t ty))
    as (bs & t1 & Hrun & Hin); [by apply Hok|done|by split|done|done|].
  exists bs, t1. split; [done|]. by apply (leave_spec types rank fuel t t1).
Qed.

(** *** Examples *)

Lemma create_ok st : table_ok (mkTable st [new_scope SCOPE_GLOBAL]).
Proof.
  split; simpl; [done| |constructor]. constructor; [|done]. split; simpl; [constructor|].
  left. split; [|done]. unfold SYMBOL_NAME_INDEX_MIN_SYMBOLS. lia.
Qed.

(** A forward-declared function, its definition, and a variable. *)
Definition example_function (forward : bool) : Symbol :=
  set_forward forward (mkSymbol "f" SYMBOL_FUNCTION (Some 1%positive) None false false false None
    (mkFunction (Some [Some "x"%string]) (Some [Some 3%positive]) 1 (Some 1%positive))
    no_variable 0 no_constructor).
Definition example_symbols : symbol_store :=
  {[ 1%positive := example_function true; 2%positive := example_function false;
     3%positive := symbol_create "v" SYMBOL_VARIABLE (Some 1%positive) ]}.
Definition example_table : SymbolTable := mkTable example_symbols [new_scope SCOPE_GLOBAL].

Lemma example_typed : typed_store example_store example_rank 4 example_symbols.
Proof.
  apply map_Forall_to_list.
  replace (map_to_list example_symbols) with (map_to_list example_symbols) by done.
  repeat constructor; simpl; try lia; eexists; vm_compute; reflexivity.
Qed.

Lemma symbol_table_refines_witness :
  table_ok example_table ∧
  symbol_table_lookup (symbol_table_enter_scope example_table SCOPE_BLOCK) "v" = Some None.
Proof.
  split; [apply create_ok|].
  destruct (symbol_table_refines (symbol_table_enter_scope example_table SCOPE_BLOCK)) as [H _].
  - apply enter_spec, create_ok.
  - rewrite H. reflexivity.
Defined.

Lemma symbol_table_declare_correct_witness :
  ∃ b t', symbol_table_declare 4 example_store alloc_succeeds example_table 1%positive = Some (b, t') ∧
    table_ok t' ∧ typed_store example_store example_rank 4 (store t') ∧
    declared example_store alloc_succeeds example_table 1%positive (example_function true) b t'.
Proof.
  apply (symbol_table_declare_correct example_store example_rank 4).
  - apply rankedb_ranked. vm_compute. reflexivity.
  - reflexivity.
  - apply create_ok.
  - exact example_typed.
  - lia.
  - reflexivity.
  - simpl. set_solver.
Defined.

Lemma symbol_table_scope_bracket_witness :
  ∃ bs t1, declare_all example_store 4 (symbol_table_enter_scope example_table SCOPE_FUNCTION)
    [1%positive; 2%positive; 3%positive] = Some (bs, t1) ∧
    table_ok (symbol_table_exit_scope t1).
Proof.
  destruct (symbol_table_scope_bracket example_store example_rank 4 example_table SCOPE_FUNCTION
    [1%positive; 2%positive; 3%positive]) as (bs & t1 & H & Hok & _).
  - apply rankedb_ranked. vm_compute. reflexivity.
  - apply create_ok.
  - exact example_typed.
  - lia.
  - apply (bool_decide_unpack _). vm_compute. exact I.
  - intros s Hs. split; [|simpl; set_solver].
    rewrite !elem_of_cons in Hs. destruct Hs as [->|[->|[->|Hs]]]; [vm_compute; eauto..|].
    by apply elem_of_nil in Hs.
  - by exists bs, t1.
Defined.

(** The same run: the second [f] resolves the forward declaration of the first. *)
Example forward_resolved :
  option_map fst (declare_all example_store 4 example_table [1%positive; 2%positive; 3%positive; 2%positive])
  = Some [true; true; true; false].
Proof. vm_compute. reflexivity. Qed.

(** *** Allocation failure *)

(** [n] variables with distinct names. *)
Definition crowd (n : nat) : symbol_store :=
  list_to_map (map (fun i => (Pos.of_succ_nat i,
    symbol_create (decimal (N.of_nat i)) SYMBOL_VARIABLE (Some 1%positive))) (seq 0 n)).
Definition crowded (n : nat) : option SymbolTable :=
  option_map snd (declare_all example_store 4 (mkTable (crowd 44) [new_scope SCOPE_GLOBAL])
    (map Pos.of_succ_nat (seq 0 n))).

(** When the index cannot grow, the declaration still succeeds but the symbol
    is lost to lookups: with 43 symbols declared, a failing [calloc] on the 44th
    leaves the old index in place, so [symbol_table_declare] answers true, the
    symbol is in the scope's array, and [symbol_table_lookup] misses it. *)
Theorem symbol_table_index_growth_failure :
  match crowded 43 with
  | Some t =>
      match symbol_table_declare 4 example_store (mkAlloc true false) t 44%positive with
      | Some (declared, t') =>
          declared = true ∧ last (symbols_of (scopes t')) = Some 44%positive ∧
          abs_lookup (abs_table t') "43" = Some 44%positive ∧
          symbol_table_lookup t' "43" = Some None
      | None => False
      end
  | None => False
  end.
Proof. vm_compute. repeat split. Qed.
