(* ===== verification/Lexer.v ===== *)
(** * The lexer: src/src/lexer/lexer.h and src/src/lexer/lexer.c

    Tokens, the scanner state and [lexer_next_token] with its helpers. *)

From S2P Require Import Prelude.

(** ** Tokens *)

Inductive TokenType : Type :=
  | TOKEN_EOF | TOKEN_IDENTIFIER | TOKEN_NUMBER | TOKEN_STRING | TOKEN_IMPORT
  | TOKEN_IMPORT_STR | TOKEN_EXTERN | TOKEN_EXPORT | TOKEN_VAR | TOKEN_FUNCTION
  | TOKEN_STRUCT | TOKEN_ENUM | TOKEN_METHOD | TOKEN_RETURN | TOKEN_IF | TOKEN_ELSE
  | TOKEN_WHILE | TOKEN_FOR | TOKEN_SWITCH | TOKEN_CASE | TOKEN_DEFAULT | TOKEN_BREAK
  | TOKEN_CONTINUE | TOKEN_DEFER | TOKEN_ERRDEFER | TOKEN_ASM | TOKEN_THIS | TOKEN_NEW
  | TOKEN_TRAIT | TOKEN_IMPL | TOKEN_WHERE | TOKEN_FN | TOKEN_MATCH | TOKEN_INT8
  | TOKEN_INT16 | TOKEN_INT32 | TOKEN_INT64 | TOKEN_UINT8 | TOKEN_UINT16 | TOKEN_UINT32
  | TOKEN_UINT64 | TOKEN_FLOAT32 | TOKEN_FLOAT64 | TOKEN_STRING_TYPE | TOKEN_COLON
  | TOKEN_SEMICOLON | TOKEN_COMMA | TOKEN_EQUALS | TOKEN_PLUS_EQUALS | TOKEN_MINUS_EQUALS
  | TOKEN_STAR_EQUALS | TOKEN_SLASH_EQUALS | TOKEN_PERCENT_EQUALS | TOKEN_AMP_EQUALS
  | TOKEN_PIPE_EQUALS | TOKEN_CARET_EQUALS | TOKEN_LSHIFT_EQUALS | TOKEN_RSHIFT_EQUALS
  | TOKEN_EQUALS_EQUALS | TOKEN_NOT_EQUALS | TOKEN_LESS_THAN | TOKEN_GREATER_THAN
  | TOKEN_LESS_EQUALS | TOKEN_GREATER_EQUALS | TOKEN_ARROW | TOKEN_LPAREN | TOKEN_RPAREN
  | TOKEN_LBRACE | TOKEN_RBRACE | TOKEN_LBRACKET | TOKEN_RBRACKET | TOKEN_PLUS
  | TOKEN_MINUS | TOKEN_MULTIPLY | TOKEN_AMPERSAND | TOKEN_PIPE | TOKEN_CARET
  | TOKEN_LSHIFT | TOKEN_RSHIFT | TOKEN_TILDE | TOKEN_AND_AND | TOKEN_OR_OR
  | TOKEN_DIVIDE | TOKEN_PERCENT | TOKEN_NOT | TOKEN_DOT | TOKEN_NEWLINE | TOKEN_MOV
  | TOKEN_ADD | TOKEN_SUB | TOKEN_MUL | TOKEN_DIV | TOKEN_IMUL | TOKEN_IDIV | TOKEN_INC
  | TOKEN_DEC | TOKEN_CMP | TOKEN_JMP | TOKEN_JE | TOKEN_JNE | TOKEN_JL | TOKEN_JLE
  | TOKEN_JG | TOKEN_JGE | TOKEN_CALL | TOKEN_RET | TOKEN_PUSH | TOKEN_POP | TOKEN_LEA
  | TOKEN_NOP | TOKEN_INT | TOKEN_SYSCALL | TOKEN_EAX | TOKEN_EBX | TOKEN_ECX | TOKEN_EDX
  | TOKEN_ESI | TOKEN_EDI | TOKEN_ESP | TOKEN_EBP | TOKEN_RAX | TOKEN_RBX | TOKEN_RCX
  | TOKEN_RDX | TOKEN_RSI | TOKEN_RDI | TOKEN_RSP | TOKEN_RBP | TOKEN_R8 | TOKEN_R9
  | TOKEN_R10 | TOKEN_R11 | TOKEN_R12 | TOKEN_R13 | TOKEN_R14 | TOKEN_R15 | TOKEN_ERROR.

(** A [StringView]: the null view, a slice of the source text, or the whole of
    the token's own value buffer. *)
Inductive StringView : Type :=
  | SV_null
  | SV_source (offset len : nat)
  | SV_value (len : nat).

Record Token : Type := mkToken {
  type : TokenType;
  value : option string;
  lexeme : StringView;
  token_line : nat;
  token_column : nat;
  is_interned : bool }.

Record Lexer : Type := mkLexer {
  source : list ascii;
  position : nat;
  line : nat;
  column : nat;
  src_length : nat;
  error_message : option string;
  has_error : bool;
  continuation_depth : nat }.

(** [Token token = {type, NULL, {NULL, 0}, lexer->line, lexer->column, 0}]. *)
Definition token_init (ty : TokenType) (ln col : nat) : Token :=
  mkToken ty None SV_null ln col false.

Definition token_set_lexeme (t : Token) (v : StringView) : Token :=
  mkToken (type t) (value t) v (token_line t) (token_column t) (is_interned t).
Definition token_set_value (t : Token) (s : string) : Token :=
  mkToken (type t) (Some s) (lexeme t) (token_line t) (token_column t) (is_interned t).
Definition token_set_type (t : Token) (ty : TokenType) : Token :=
  mkToken ty (value t) (lexeme t) (token_line t) (token_column t) (is_interned t).
Definition token_set_interned (t : Token) (b : bool) : Token :=
  mkToken (type t) (value t) (lexeme t) (token_line t) (token_column t) b.

Definition token_set_static_value (t : Token) (literal : string) : Token :=
  token_set_interned (token_set_value t literal) true.
Definition token_set_single_char_value (t : Token) (c : ascii) : Token :=
  token_set_static_value t (String c EmptyString).

(** ** Scanner state *)

Definition lexer_create (src : list ascii) : Lexer :=
  mkLexer src 0 1 1 (c_strlen src) None false 0.

(** [position += n; column += n]. *)
Definition lexer_advance (n : nat) (lx : Lexer) : Lexer :=
  mkLexer (source lx) (position lx + n) (line lx) (column lx + n) (src_length lx)
    (error_message lx) (has_error lx) (continuation_depth lx).
(** [position++; line++; column = 1]. *)
Definition lexer_newline (lx : Lexer) : Lexer :=
  mkLexer (source lx) (position lx + 1) (line lx + 1) 1 (src_length lx)
    (error_message lx) (has_error lx) (continuation_depth lx).
Definition lexer_set_depth (d : nat) (lx : Lexer) : Lexer :=
  mkLexer (source lx) (position lx) (line lx) (column lx) (src_length lx)
    (error_message lx) (has_error lx) d.

Definition lexer_set_error (lx : Lexer) (message : option string) : Lexer :=
  mkLexer (source lx) (position lx) (line lx) (column lx) (src_length lx)
    (match message with
     | Some m => Some ("Lexer error at line " +:+ decimal (N.of_nat (line lx)) +:+
                       ", column " +:+ decimal (N.of_nat (column lx)) +:+ ": " +:+ m)%string
     | None => None
     end)
    (match message with Some _ => true | None => false end)
    (continuation_depth lx).

(** [position + k < length] guarding a read of [source[position + k]]. *)
Definition char_at (lx : Lexer) (k : nat) : option ascii :=
  if position lx + k <? src_length lx then source lx !! (position lx + k) else None.

(** Test of the character [k] places ahead, false past the end. *)
Definition char_is (lx : Lexer) (k : nat) (p : ascii → bool) : bool :=
  match char_at lx k with Some c => p c | None => false end.

Definition slice (src : list ascii) (start len : nat) : string :=
  string_of_list_ascii (take len (drop start src)).

(** Set the error token's message and the lexer's error. *)
Definition fail_token (t : Token) (lx : Lexer) (message : string) : Token * Lexer :=
  (token_set_value (token_set_type t TOKEN_ERROR) message, lexer_set_error lx (Some message)).

(** [while (position < length && p (source[position])) { position++; column++; }] *)
Fixpoint scan_while (fuel : nat) (p : ascii → bool) (lx : Lexer) : Lexer :=
  match fuel with
  | 0 => lx
  | S f => if char_is lx 0 p then scan_while f p (lexer_advance 1 lx) else lx
  end.

Definition remaining (lx : Lexer) : nat := src_length lx - position lx.

(** A scanning step either yields a token or restarts [lexer_next_token]. *)
Inductive outcome : Type :=
  | Yield (t : Token) (lx : Lexer)
  | Restart (lx : Lexer).

(** ** Comments *)

Definition lexer_skip_line_comment (lx : Lexer) : outcome :=
  let lx := lexer_advance 2 lx in
  Restart (scan_while (remaining lx) (fun c => negb (c =c "010")) lx).

Fixpoint skip_block_loop (fuel depth : nat) (lx : Lexer) : nat * Lexer :=
  match fuel with
  | 0 => (depth, lx)
  | S f =>
      match char_at lx 0 with
      | Some c =>
          if 0 <? depth then
            if (c =c "/") && char_is lx 1 (fun d => d =c "*") then
              skip_block_loop f (S depth) (lexer_advance 2 lx)
            else if (c =c "*") && char_is lx 1 (fun d => d =c "/") then
              skip_block_loop f (depth - 1) (lexer_advance 2 lx)
            else if c =c "010" then skip_block_loop f depth (lexer_newline lx)
            else skip_block_loop f depth (lexer_advance 1 lx)
          else (depth, lx)
      | None => (depth, lx)
      end
  end.

Definition lexer_skip_block_comment (lx : Lexer) : outcome :=
  let start_line := line lx in
  let start_column := column lx in
  let lx := lexer_advance 2 lx in
  let '(depth, lx) := skip_block_loop (remaining lx) 1 lx in
  if depth =? 0 then Restart lx
  else
    let '(t, lx) := fail_token (token_init TOKEN_ERROR start_line start_column) lx
                      "Unterminated block comment" in
    Yield t lx.

(** ** Literals *)

Definition char_escape (c : ascii) : option ascii :=
  if c =c "n" then Some "010"%char
  else if c =c "t" then Some "009"%char
  else if c =c "r" then Some "013"%char
  else if c =c "\" then Some "\"%char
  else if c =c "'" then Some "'"%char
  else if c =c "0" then Some "000"%char
  else None.

(** The part of [lexer_lex_char_literal] after the character's value is read. *)
Definition char_literal_close (t : Token) (literal_start : nat) (v : ascii) (lx : Lexer)
    : Token * Lexer :=
  let lx := lexer_advance 1 lx in
  if negb (char_is lx 0 (fun c => c =c "'")) then
    fail_token t lx "Character literal must contain exactly one character"
  else
    let lx := lexer_advance 1 lx in
    (token_set_lexeme (token_set_value (token_set_type t TOKEN_NUMBER) (decimal (N_of_ascii v)))
       (SV_source literal_start (position lx - literal_start)), lx).

Definition lexer_lex_char_literal (lx : Lexer) : Token * Lexer :=
  let t := token_init TOKEN_EOF (line lx) (column lx) in
  let literal_start := position lx in
  let lx := lexer_advance 1 lx in
  match char_at lx 0 with
  | None => fail_token t lx "Unterminated character literal"
  | Some ch =>
      if ch =c "\" then
        let lx := lexer_advance 1 lx in
        match char_at lx 0 with
        | None => fail_token t lx "Unterminated character literal"
        | Some esc =>
            match char_escape esc with
            | Some v => char_literal_close t literal_start v lx
            | None => fail_token t lx "Invalid character escape sequence"
            end
        end
      else if (ch =c "010") || (ch =c "013") then
        fail_token t lx "Unterminated character literal"
      else char_literal_close t literal_start ch lx
  end.

(** The three digit scanners of [lexer_lex_number]: the base prefix consumed and
    the digits accepted after it; [None] is an empty hexadecimal or binary
    literal, with the message. *)
Definition lexer_scan_number (lx : Lexer) : (Lexer * option string) :=
  let prefixed (a b : ascii) :=
    char_is lx 0 (fun c => c =c "0") && char_is lx 1 (fun c => (c =c a) || (c =c b)) in
  if prefixed "x"%char "X"%char then
    let lx := lexer_advance 2 lx in
    let digits_start := position lx in
    let lx := scan_while (remaining lx) isxdigit lx in
    (lx, if position lx =? digits_start then Some "Invalid hexadecimal literal"%string else None)
  else if prefixed "b"%char "B"%char then
    let lx := lexer_advance 2 lx in
    let digits_start := position lx in
    let lx := scan_while (remaining lx) (fun c => (c =c "0") || (c =c "1")) lx in
    (lx, if position lx =? digits_start then Some "Invalid binary literal"%string else None)
  else
    (scan_while (remaining lx) (fun c => isdigit c || (c =c ".")) lx, None).

Definition lexer_lex_number (lx : Lexer) : Token * Lexer :=
  let t := token_init TOKEN_EOF (line lx) (column lx) in
  let start := position lx in
  match lexer_scan_number lx with
  | (lx, Some message) => fail_token t lx message
  | (lx, None) =>
      let len := position lx - start in
      (token_set_lexeme (token_set_value (token_set_type t TOKEN_NUMBER) (slice (source lx) start len))
         (SV_source start len), lx)
  end.

(** ** Identifiers and keywords *)

Definition keyword_table : list (string * TokenType) :=
  [ ("import", TOKEN_IMPORT); ("import_str", TOKEN_IMPORT_STR);
    ("extern", TOKEN_EXTERN); ("export", TOKEN_EXPORT); ("var", TOKEN_VAR);
    ("function", TOKEN_FUNCTION); ("struct", TOKEN_STRUCT); ("enum", TOKEN_ENUM);
    ("trait", TOKEN_TRAIT); ("impl", TOKEN_IMPL); ("where", TOKEN_WHERE);
    ("method", TOKEN_METHOD); ("return", TOKEN_RETURN); ("if", TOKEN_IF);
    ("else", TOKEN_ELSE); ("while", TOKEN_WHILE); ("for", TOKEN_FOR);
    ("switch", TOKEN_SWITCH); ("case", TOKEN_CASE); ("default", TOKEN_DEFAULT);
    ("break", TOKEN_BREAK); ("continue", TOKEN_CONTINUE); ("defer", TOKEN_DEFER);
    ("errdefer", TOKEN_ERRDEFER); ("asm", TOKEN_ASM); ("this", TOKEN_THIS);
    ("new", TOKEN_NEW); ("fn", TOKEN_FN); ("match", TOKEN_MATCH);
    ("int8", TOKEN_INT8); ("int16", TOKEN_INT16); ("int32", TOKEN_INT32);
    ("int64", TOKEN_INT64); ("uint8", TOKEN_UINT8); ("uint16", TOKEN_UINT16);
    ("uint32", TOKEN_UINT32); ("uint64", TOKEN_UINT64); ("float32", TOKEN_FLOAT32);
    ("float64", TOKEN_FLOAT64); ("string", TOKEN_STRING_TYPE) ]%string.

Definition mnemonic_table : list (string * TokenType) :=
  [ ("mov", TOKEN_MOV); ("add", TOKEN_ADD); ("sub", TOKEN_SUB); ("mul", TOKEN_MUL);
    ("div", TOKEN_DIV); ("imul", TOKEN_IMUL); ("idiv", TOKEN_IDIV);
    ("inc", TOKEN_INC); ("dec", TOKEN_DEC); ("cmp", TOKEN_CMP); ("jmp", TOKEN_JMP);
    ("je", TOKEN_JE); ("jne", TOKEN_JNE); ("jl", TOKEN_JL); ("jle", TOKEN_JLE);
    ("jg", TOKEN_JG); ("jge", TOKEN_JGE); ("call", TOKEN_CALL); ("ret", TOKEN_RET);
    ("push", TOKEN_PUSH); ("pop", TOKEN_POP); ("lea", TOKEN_LEA); ("nop", TOKEN_NOP);
    ("int", TOKEN_INT); ("syscall", TOKEN_SYSCALL); ("eax", TOKEN_EAX);
    ("ebx", TOKEN_EBX); ("ecx", TOKEN_ECX); ("edx", TOKEN_EDX); ("esi", TOKEN_ESI);
    ("edi", TOKEN_EDI); ("esp", TOKEN_ESP); ("ebp", TOKEN_EBP); ("rax", TOKEN_RAX);
    ("rbx", TOKEN_RBX); ("rcx", TOKEN_RCX); ("rdx", TOKEN_RDX); ("rsi", TOKEN_RSI);
    ("rdi", TOKEN_RDI); ("rsp", TOKEN_RSP); ("rbp", TOKEN_RBP); ("r8", TOKEN_R8);
    ("r9", TOKEN_R9); ("r10", TOKEN_R10); ("r11", TOKEN_R11); ("r12", TOKEN_R12);
    ("r13", TOKEN_R13); ("r14", TOKEN_R14); ("r15", TOKEN_R15) ]%string.

Fixpoint table_lookup (eqb : string → string → bool) (v : string)
    (tbl : list (string * TokenType)) : option TokenType :=
  match tbl with
  | [] => None
  | (k, ty) :: tbl' => if eqb v k then Some ty else table_lookup eqb v tbl'
  end.

(** The chain of [strcmp] tests, then the chain of [strcasecmp] tests. *)
Definition classify_word (v : string) : TokenType :=
  match table_lookup String.eqb v keyword_table with
  | Some ty => ty
  | None =>
      match table_lookup strcaseeq v mnemonic_table with
      | Some ty => ty
      | None => TOKEN_IDENTIFIER
      end
  end.

Definition is_word_char (c : ascii) : bool := isalnum c || (c =c "_").

Definition lexer_lex_identifier_or_keyword (lx : Lexer) : Token * Lexer :=
  let t := token_init TOKEN_EOF (line lx) (column lx) in
  let start := position lx in
  let lx := scan_while (remaining lx) is_word_char lx in
  let len := position lx - start in
  let v := slice (source lx) start len in
  let t := token_set_lexeme (token_set_interned (token_set_value t v) true) (SV_source start len) in
  (token_set_type t (classify_word v), lx).

(** ** String literals *)

(** The characters one escape sequence appends to the buffer. *)
Definition string_escape (c : ascii) : list ascii :=
  if c =c "n" then ["010"%char]
  else if c =c "t" then ["009"%char]
  else if c =c "r" then ["013"%char]
  else if c =c "\" then ["\"%char]
  else if c =c "034" then ["034"%char]
  else if c =c "0" then ["000"%char]
  else ["\"%char; c].

Fixpoint string_loop (fuel : nat) (buffer : list ascii) (lx : Lexer) : list ascii * Lexer :=
  match fuel with
  | 0 => (buffer, lx)
  | S f =>
      match char_at lx 0 with
      | Some c =>
          if c =c "034" then (buffer, lx)
          else
            match (if c =c "\" then char_at lx 1 else None) with
            | Some e => string_loop f (buffer ++ string_escape e) (lexer_advance 1 (lexer_advance 1 lx))
            | None => string_loop f (buffer ++ [c]) (lexer_advance 1 lx)
            end
      | None => (buffer, lx)
      end
  end.

Definition lexer_lex_string_literal (lx : Lexer) : Token * Lexer :=
  let t := token_init TOKEN_EOF (line lx) (column lx) in
  let lx := lexer_advance 1 lx in
  let '(buffer, lx) := string_loop (remaining lx) [] lx in
  if src_length lx <=? position lx then fail_token t lx "Unterminated string literal"
  else
    (token_set_lexeme
       (token_set_value (token_set_type t TOKEN_STRING) (string_of_list_ascii buffer))
       (SV_value (length buffer)), lexer_advance 1 lx).

(** ** The main scanner *)

(** What the [switch] on the current character recognises: a spelling of two or
    three characters, a single character, or nothing ([TOKEN_ERROR]). *)
Inductive punctuation : Type :=
  | Spelled (ty : TokenType) (literal : string)
  | Single (ty : TokenType)
  | Open_bracket (ty : TokenType)
  | Close_bracket (ty : TokenType)
  | No_punctuation.

(** [c] followed by '=' spells [ty2], alone it is [ty1]. *)
Definition with_equals (lx : Lexer) (ty2 : TokenType) (lit : string) (otherwise : punctuation)
    : punctuation :=
  if char_is lx 1 (fun c => c =c "=") then Spelled ty2 lit else otherwise.

(** The two arms of '<' and '>': [<=], [<<=], [<<], [<]. *)
Definition angle (lx : Lexer) (c : ascii) (ty_eq : TokenType) (lit_eq : string)
    (ty_shift_eq : TokenType) (lit_shift_eq : string) (ty_shift : TokenType)
    (lit_shift : string) (ty : TokenType) : punctuation :=
  if char_is lx 1 (fun d => d =c "=") then Spelled ty_eq lit_eq
  else if char_is lx 1 (fun d => d =c c) then
    if char_is lx 2 (fun d => d =c "=") then Spelled ty_shift_eq lit_shift_eq
    else Spelled ty_shift lit_shift
  else Single ty.

Definition lexer_switch (lx : Lexer) (c : ascii) : punctuation :=
  if c =c ":" then Single TOKEN_COLON
  else if c =c ";" then Single TOKEN_SEMICOLON
  else if c =c "," then Single TOKEN_COMMA
  else if c =c "=" then with_equals lx TOKEN_EQUALS_EQUALS "==" (Single TOKEN_EQUALS)
  else if c =c "!" then with_equals lx TOKEN_NOT_EQUALS "!=" (Single TOKEN_NOT)
  else if c =c "<" then
    angle lx "<" TOKEN_LESS_EQUALS "<=" TOKEN_LSHIFT_EQUALS "<<=" TOKEN_LSHIFT "<<"
      TOKEN_LESS_THAN
  else if c =c ">" then
    angle lx ">" TOKEN_GREATER_EQUALS ">=" TOKEN_RSHIFT_EQUALS ">>=" TOKEN_RSHIFT ">>"
      TOKEN_GREATER_THAN
  else if c =c "(" then Open_bracket TOKEN_LPAREN
  else if c =c ")" then Close_bracket TOKEN_RPAREN
  else if c =c "{" then Single TOKEN_LBRACE
  else if c =c "}" then Single TOKEN_RBRACE
  else if c =c "[" then Open_bracket TOKEN_LBRACKET
  else if c =c "]" then Close_bracket TOKEN_RBRACKET
  else if c =c "+" then with_equals lx TOKEN_PLUS_EQUALS "+=" (Single TOKEN_PLUS)
  else if c =c "*" then with_equals lx TOKEN_STAR_EQUALS "*=" (Single TOKEN_MULTIPLY)
  else if c =c "&" then
    if char_is lx 1 (fun d => d =c "&") then Spelled TOKEN_AND_AND "&&"
    else with_equals lx TOKEN_AMP_EQUALS "&=" (Single TOKEN_AMPERSAND)
  else if c =c "|" then
    if char_is lx 1 (fun d => d =c "|") then Spelled TOKEN_OR_OR "||"
    else with_equals lx TOKEN_PIPE_EQUALS "|=" (Single TOKEN_PIPE)
  else if c =c "^" then with_equals lx TOKEN_CARET_EQUALS "^=" (Single TOKEN_CARET)
  else if c =c "~" then Single TOKEN_TILDE
  else if c =c "/" then with_equals lx TOKEN_SLASH_EQUALS "/=" (Single TOKEN_DIVIDE)
  else if c =c "%" then with_equals lx TOKEN_PERCENT_EQUALS "%=" (Single TOKEN_PERCENT)
  else if c =c "." then Single TOKEN_DOT
  else No_punctuation.

(** The '-' operators, tested after the [switch] has failed. *)
Definition lexer_minus (lx : Lexer) (c : ascii) : punctuation :=
  if c =c "-" then
    if char_is lx 1 (fun d => d =c ">") then Spelled TOKEN_ARROW "->"
    else with_equals lx TOKEN_MINUS_EQUALS "-=" (Single TOKEN_MINUS)
  else No_punctuation.

Definition emit_spelled (t : Token) (ty : TokenType) (literal : string) (lx : Lexer)
    : Token * Lexer :=
  let n := String.length literal in
  (token_set_lexeme (token_set_static_value (token_set_type t ty) literal)
     (SV_source (position lx) n), lexer_advance n lx).

Definition emit_single (t : Token) (ty : TokenType) (c : ascii) (lx : Lexer) : Token * Lexer :=
  (token_set_lexeme (token_set_single_char_value (token_set_type t ty) c)
     (SV_source (position lx) 1), lexer_advance 1 lx).

Definition emit_punctuation (t : Token) (c : ascii) (p : punctuation) (lx : Lexer)
    : option (Token * Lexer) :=
  match p with
  | Spelled ty literal => Some (emit_spelled t ty literal lx)
  | Single ty => Some (emit_single t ty c lx)
  | Open_bracket ty =>
      Some (emit_single t ty c (lexer_set_depth (continuation_depth lx + 1) lx))
  | Close_bracket ty =>
      Some (emit_single t ty c
        (if 0 <? continuation_depth lx then lexer_set_depth (continuation_depth lx - 1) lx else lx))
  | No_punctuation => None
  end.

Definition lexer_unknown (t : Token) (c : ascii) (lx : Lexer) : Token * Lexer :=
  let '(t', lx') := fail_token t lx ("Unknown character: " +:+ String c EmptyString)%string in
  (token_set_lexeme t' (SV_source (position lx) 1), lexer_advance 1 lx').

(** The white-space loop: [inl] is the newline token it returns. *)
Fixpoint skip_space (fuel : nat) (t : Token) (lx : Lexer) : (Token * Lexer) + Lexer :=
  match fuel with
  | 0 => inr lx
  | S f =>
      match char_at lx 0 with
      | Some c =>
          if isspace c then
            if c =c "010" then
              if 0 <? continuation_depth lx then skip_space f t (lexer_newline lx)
              else
                inl (token_set_lexeme (token_set_type t TOKEN_NEWLINE) (SV_source (position lx) 1),
                     lexer_newline lx)
            else skip_space f t (lexer_advance 1 lx)
          else inr lx
      | None => inr lx
      end
  end.

(** Dispatch on the first character of a token. *)
Definition lexer_dispatch (t : Token) (c : ascii) (lx : Lexer) : outcome :=
  if (c =c "/") && char_is lx 1 (fun d => d =c "/") then lexer_skip_line_comment lx
  else if (c =c "/") && char_is lx 1 (fun d => d =c "*") then lexer_skip_block_comment lx
  else
    match emit_punctuation t c (lexer_switch lx c) lx with
    | Some (t, lx) => Yield t lx
    | None =>
        match emit_punctuation t c (lexer_minus lx c) lx with
        | Some (t, lx) => Yield t lx
        | None =>
            let '(t, lx) :=
              if c =c "'" then lexer_lex_char_literal lx
              else if isdigit c then lexer_lex_number lx
              else if isalpha c || (c =c "_") then lexer_lex_identifier_or_keyword lx
              else if c =c "034" then lexer_lex_string_literal lx
              else lexer_unknown t c lx in
            Yield t lx
        end
    end.

(** One activation of [lexer_next_token], a comment's tail call being [Restart]. *)
Definition lexer_next_token_body (lx : Lexer) : outcome :=
  let t := token_init TOKEN_EOF (line lx) (column lx) in
  match skip_space (remaining lx) t lx with
  | inl (t, lx) => Yield t lx
  | inr lx =>
      match char_at lx 0 with
      | None => Yield t lx
      | Some c => lexer_dispatch (token_init TOKEN_EOF (line lx) (column lx)) c lx
      end
  end.

Fixpoint lexer_next_token_fuel (fuel : nat) (lx : Lexer) : option (Token * Lexer) :=
  match fuel with
  | 0 => None
  | S f =>
      match lexer_next_token_body lx with
      | Yield t lx => Some (t, lx)
      | Restart lx => lexer_next_token_fuel f lx
      end
  end.

(** Every comment consumes two characters, so the remaining length bounds the
    number of restarts. *)
Definition lexer_next_token (lx : Lexer) : option (Token * Lexer) :=
  lexer_next_token_fuel (S (remaining lx)) lx.

(** [lexer_peek_token] restores position, line, column and depth; the error
    state is left as the scan set it. *)
Definition lexer_peek_token (lx : Lexer) : option (Token * Lexer) :=
  match lexer_next_token lx with
  | Some (t, lx') =>
      Some (t, mkLexer (source lx') (position lx) (line lx) (column lx) (src_length lx')
                 (error_message lx') (has_error lx') (continuation_depth lx))
  | None => None
  end.

(** The token stream up to and including [TOKEN_EOF]. *)
Fixpoint lexer_tokens (fuel : nat) (lx : Lexer) : option (list Token) :=
  match fuel with
  | 0 => None
  | S f =>
      match lexer_next_token lx with
      | Some (t, lx') =>
          match type t with
          | TOKEN_EOF => Some [t]
          | _ => option_map (cons t) (lexer_tokens f lx')
          end
      | None => None
      end
  end.

Example lex_sample :
  option_map (map (fun t => (type t, value t)))
    (lexer_tokens 50 (lexer_create (list_ascii_of_string "x <<= 0x1F; /* c /* d */ */ Rax(
 'a')")))
  = Some [(TOKEN_IDENTIFIER, Some "x"); (TOKEN_LSHIFT_EQUALS, Some "<<=");
          (TOKEN_NUMBER, Some "0x1F"); (TOKEN_SEMICOLON, Some ";"); (TOKEN_RAX, Some "Rax");
          (TOKEN_LPAREN, Some "("); (TOKEN_NUMBER, Some "97"); (TOKEN_RPAREN, Some ")");
          (TOKEN_EOF, None)]%string.
Proof. vm_compute. reflexivity. Qed.
