(* ===== verification/LexerFacts.v ===== *)
(** * Correctness of the lexer

    The scanner's moves as a step relation, the invariants of its position and
    of the locations it reports, and the theorems on [lexer_next_token]. *)

From stdpp Require Import relations.
From S2P Require Import Prelude Lexer.

(** ** Well-formed states and exact locations *)

Record lexer_wf (lx : Lexer) : Prop := {
  wf_position : position lx ≤ src_length lx;
  wf_length : src_length lx ≤ length (source lx) }.

(** Line and column reached after reading a text from line 1, column 1. *)
Definition loc_step (lc : nat * nat) (c : ascii) : nat * nat :=
  if c =c "010" then (lc.1 + 1, 1) else (lc.1, lc.2 + 1).
Definition loc_after (text : list ascii) : nat * nat := fold_left loc_step text (1, 1).

Definition located (lx : Lexer) : Prop :=
  (line lx, column lx) = loc_after (take (position lx) (source lx)).

(** ** The scanner's moves *)

(** A strict scan never steps over a line feed without counting it. *)
Inductive scan_step (strict : bool) : Lexer → Lexer → Prop :=
  | step_char lx c :
      char_at lx 0 = Some c → (strict = true → c ≠ "010"%char) →
      scan_step strict lx (lexer_advance 1 lx)
  | step_newline lx :
      char_at lx 0 = Some "010"%char → scan_step strict lx (lexer_newline lx)
  | step_error lx m : scan_step strict lx (lexer_set_error lx m).

Abbreviation scan_steps strict := (rtc (scan_step strict)).

Create HintDb lexer.
#[export] Hint Constructors scan_step : lexer.
#[export] Hint Resolve rtc_refl rtc_once : lexer.

Lemma char_at_Some lx k c :
  char_at lx k = Some c → position lx + k < src_length lx ∧ source lx !! (position lx + k) = Some c.
Proof. unfold char_at. destruct (Nat.ltb_spec (position lx + k) (src_length lx)); [done|intros; discriminate]. Qed.

Lemma char_at_None lx k : lexer_wf lx → char_at lx k = None → src_length lx ≤ position lx + k.
Proof.
  intros [_ Hl]. unfold char_at.
  destruct (Nat.ltb_spec (position lx + k) (src_length lx)) as [Hlt|]; [|done].
  intros Hn. apply lookup_ge_None in Hn. lia.
Qed.

Lemma char_is_true lx k p :
  char_is lx k p = true ↔ ∃ c, char_at lx k = Some c ∧ p c = true.
Proof.
  unfold char_is. destruct (char_at lx k) as [c|]; split.
  - by exists c.
  - by intros (? & [= ->] & ?).
  - done.
  - by intros (? & ? & ?).
Qed.

Lemma lexer_advance_plus a b lx : lexer_advance b (lexer_advance a lx) = lexer_advance (a + b) lx.
Proof. unfold lexer_advance; simpl. f_equal; lia. Qed.

Lemma lexer_advance_0 lx : lexer_advance 0 lx = lx.
Proof. destruct lx. unfold lexer_advance; simpl. f_equal; lia. Qed.

Lemma char_at_advance n k lx : char_at (lexer_advance n lx) k = char_at lx (n + k).
Proof. unfold char_at, lexer_advance; simpl. by rewrite !Nat.add_assoc. Qed.

Lemma char_is_advance n k p lx : char_is (lexer_advance n lx) k p = char_is lx (n + k) p.
Proof. unfold char_is. by rewrite char_at_advance. Qed.

Lemma remaining_advance n lx : remaining (lexer_advance n lx) = remaining lx - n.
Proof. unfold remaining; simpl. lia. Qed.

(** *** Invariants of the moves *)

Definition same_text (lx lx' : Lexer) : Prop :=
  source lx' = source lx ∧ src_length lx' = src_length lx ∧ position lx ≤ position lx'.

Lemma scan_step_same_text strict lx lx' : scan_step strict lx lx' → same_text lx lx'.
Proof. unfold same_text. destruct 1; simpl; repeat split; lia. Qed.

Lemma scan_steps_same_text strict lx lx' : scan_steps strict lx lx' → same_text lx lx'.
Proof.
  induction 1 as [lx|lx lx1 lx2 H _ IH]; [unfold same_text; repeat split; lia|].
  apply scan_step_same_text in H. unfold same_text in *.
  destruct H as (? & ? & ?), IH as (? & ? & ?). split_and!; [congruence..|lia].
Qed.

Lemma scan_step_wf strict lx lx' : scan_step strict lx lx' → lexer_wf lx → lexer_wf lx'.
Proof.
  intros Hs [Hp Hl]. destruct Hs as [lx c Hc _|lx Hc|]; split; simpl; try lia;
    apply char_at_Some in Hc; lia.
Qed.

Lemma scan_steps_wf strict lx lx' : scan_steps strict lx lx' → lexer_wf lx → lexer_wf lx'.
Proof. induction 1; eauto using scan_step_wf. Qed.

Lemma loc_after_snoc text c : loc_after (text ++ [c]) = loc_step (loc_after text) c.
Proof. unfold loc_after. by rewrite fold_left_app. Qed.

Lemma scan_step_located lx lx' : scan_step true lx lx' → located lx → located lx'.
Proof.
  unfold located. intros Hs. destruct Hs as [lx c Hc Hnl|lx Hc|]; simpl; try done;
    apply char_at_Some in Hc as [_ Hc]; rewrite Nat.add_0_r in Hc; intros Hloc;
    rewrite (Nat.add_1_r (position lx)), (take_S_r _ _ _ Hc), loc_after_snoc, <- Hloc;
    unfold loc_step; simpl; [|done].
  specialize (Hnl eq_refl). by destruct (Ascii.eqb_spec c "010"%char).
Qed.

Lemma scan_steps_depth strict lx lx' :
  scan_steps strict lx lx' → continuation_depth lx' = continuation_depth lx.
Proof. induction 1 as [|lx lx1 lx2 Hs _ ->]; [done|]. by destruct Hs. Qed.

Lemma lexer_set_depth_id lx : lexer_set_depth (continuation_depth lx) lx = lx.
Proof. by destruct lx. Qed.

Lemma scan_steps_located lx lx' : scan_steps true lx lx' → located lx → located lx'.
Proof. induction 1; eauto using scan_step_located. Qed.

Lemma scan_steps_weaken lx lx' : scan_steps true lx lx' → scan_steps false lx lx'.
Proof.
  apply rtc_subrel. intros ?? []; econstructor; eauto.
Qed.

(** Several characters at once. *)
Lemma scan_steps_advance strict n lx :
  (∀ i, i < n → ∃ c, char_at lx i = Some c ∧ (strict = true → c ≠ "010"%char)) →
  scan_steps strict lx (lexer_advance n lx).
Proof.
  induction n as [|n IH]; intros H.
  - rewrite lexer_advance_0. done.
  - eapply rtc_r; [apply IH; intros i Hi; apply H; lia|].
    destruct (H n ltac:(lia)) as (c & Hc & Hnl).
    replace (S n) with (n + 1) by lia. rewrite <- lexer_advance_plus.
    econstructor; [|exact Hnl]. by rewrite char_at_advance, Nat.add_0_r.
Qed.

(** ** [scan_while]: the longest run *)

Lemma scan_while_spec p fuel lx :
  lexer_wf lx → remaining lx ≤ fuel →
  ∃ n, scan_while fuel p lx = lexer_advance n lx ∧
       (∀ i, i < n → char_is lx i p = true) ∧ char_is lx n p = false.
Proof.
  revert lx. induction fuel as [|f IH]; intros lx Hwf Hf.
  - exists 0. rewrite lexer_advance_0. split_and!; [done|lia|].
    unfold char_is. destruct (char_at lx 0) eqn:Hc; [|done].
    apply char_at_Some in Hc. unfold remaining in Hf. lia.
  - simpl. destruct (char_is lx 0 p) eqn:Hp; [|exists 0; rewrite lexer_advance_0; split_and!; [done|lia|done]].
    pose proof Hp as Hp'. apply char_is_true in Hp' as (c & Hc & _).
    apply char_at_Some in Hc as [Hc _].
    destruct (IH (lexer_advance 1 lx)) as (n & -> & Hall & Hend).
    + destruct Hwf. split; simpl; lia.
    + rewrite remaining_advance. lia.
    + exists (S n). rewrite lexer_advance_plus. split_and!; [done| |].
      * intros [|i] Hi; [done|]. specialize (Hall i ltac:(lia)).
        by rewrite char_is_advance in Hall.
      * by rewrite char_is_advance in Hend.
Qed.

Lemma scan_while_steps strict p fuel lx :
  (strict = true → p "010"%char = false) → scan_steps strict lx (scan_while fuel p lx).
Proof.
  intros Hp. revert lx. induction fuel as [|f IH]; intros lx; simpl; [done|].
  destruct (char_is lx 0 p) eqn:Hc; [|done].
  apply char_is_true in Hc as (c & Hc & Hpc).
  eapply rtc_l; [|apply IH]. econstructor; [done|]. intros ->. intros ->.
  rewrite Hp in Hpc; done.
Qed.

(** ** Sub-scanners as sequences of moves *)

Lemma steps_char strict lx c lx' :
  char_at lx 0 = Some c → (strict = true → c ≠ "010"%char) →
  scan_steps strict (lexer_advance 1 lx) lx' → scan_steps strict lx lx'.
Proof. intros ???. eapply rtc_l; [econstructor|]; eauto. Qed.

Lemma steps_two strict lx c d lx' :
  char_at lx 0 = Some c → char_at lx 1 = Some d →
  (strict = true → c ≠ "010"%char ∧ d ≠ "010"%char) →
  scan_steps strict (lexer_advance 2 lx) lx' → scan_steps strict lx lx'.
Proof.
  intros Hc Hd Hn Hs. etransitivity; [|exact Hs]. apply scan_steps_advance.
  intros [|[|i]] Hi; [exists c|exists d|lia]; split; try done; intros E; by apply Hn.
Qed.

(** Reading two given characters at the cursor. *)
Lemma char_is_eqb lx k c : char_is lx k (fun d => d =c c) = true → char_at lx k = Some c.
Proof. intros (d & Hd & E)%char_is_true. apply Ascii.eqb_eq in E. by subst. Qed.

Lemma skip_block_loop_steps fuel depth lx :
  scan_steps true lx (skip_block_loop fuel depth lx).2.
Proof.
  revert depth lx. induction fuel as [|f IH]; intros depth lx; simpl; [done|].
  destruct (char_at lx 0) as [c|] eqn:Hc; [|done].
  destruct (0 <? depth); [|done].
  destruct ((c =c "/") && _) eqn:H1;
    [|destruct ((c =c "*") && _) eqn:H2; [|destruct (c =c "010") eqn:H3]].
  - apply andb_true_iff in H1 as [->%Ascii.eqb_eq H1%char_is_eqb].
    eapply steps_two; [done..| |apply IH]. intros; done.
  - apply andb_true_iff in H2 as [->%Ascii.eqb_eq H2%char_is_eqb].
    eapply steps_two; [done..| |apply IH]. intros; done.
  - apply Ascii.eqb_eq in H3 as ->. eapply rtc_l; [by constructor|apply IH].
  - eapply steps_char; [done| |apply IH]. intros _ ->. done.
Qed.

Lemma string_loop_steps fuel buffer lx :
  scan_steps false lx (string_loop fuel buffer lx).2.
Proof.
  revert buffer lx. induction fuel as [|f IH]; intros buffer lx; simpl; [done|].
  destruct (char_at lx 0) as [c|] eqn:Hc; [|done].
  destruct (c =c "034"); [done|].
  destruct (if c =c "\" then char_at lx 1 else None) as [e|] eqn:He.
  - destruct (c =c "\"); [|done]. rewrite lexer_advance_plus.
    eapply steps_two; [done..| |apply IH]. done.
  - eapply steps_char; [done| |apply IH]. done.
Qed.

(** The moves of an error result. *)
Lemma fail_token_steps strict t lx lx' m :
  scan_steps strict lx lx' → scan_steps strict lx (fail_token t lx' m).2.
Proof. intros H. eapply rtc_r; [exact H|]. constructor. Qed.

Lemma char_escape_not_lf c v : char_escape c = Some v → c ≠ "010"%char.
Proof. intros H ->. discriminate. Qed.

#[export] Hint Resolve fail_token_steps char_escape_not_lf : lexer.

Lemma char_literal_close_steps lx0 t s v lx c :
  char_at lx 0 = Some c → c ≠ "010"%char →
  scan_steps true lx0 lx → scan_steps true lx0 (char_literal_close t s v lx).2.
Proof.
  intros Hc Hn Hs. unfold char_literal_close.
  assert (scan_steps true lx0 (lexer_advance 1 lx)) as Hs'
    by (eapply rtc_r; [exact Hs|by econstructor]).
  destruct (negb _) eqn:Hq; [by apply fail_token_steps|]. simpl.
  apply negb_false_iff, char_is_eqb in Hq.
  eapply rtc_r; [exact Hs'|]. by econstructor.
Qed.

Lemma lexer_lex_char_literal_steps lx :
  char_at lx 0 = Some "'"%char → scan_steps true lx (lexer_lex_char_literal lx).2.
Proof.
  intros H0. unfold lexer_lex_char_literal.
  assert (scan_steps true lx (lexer_advance 1 lx)) as H1 by (apply rtc_once; by econstructor).
  destruct (char_at (lexer_advance 1 lx) 0) as [ch|] eqn:Hch; [|by apply fail_token_steps].
  destruct (ch =c "\") eqn:Hb.
  - apply Ascii.eqb_eq in Hb as ->.
    assert (scan_steps true lx (lexer_advance 1 (lexer_advance 1 lx))) as H2
      by (eapply rtc_r; [exact H1|by econstructor]).
    destruct (char_at (lexer_advance 1 (lexer_advance 1 lx)) 0) as [e|] eqn:He;
      [|by apply fail_token_steps].
    destruct (char_escape e) as [v|] eqn:Hv; [|by apply fail_token_steps].
    eapply char_literal_close_steps; eauto with lexer.
  - destruct (_ || _) eqn:Hnl; [by apply fail_token_steps|].
    apply orb_false_iff in Hnl as [Hnl _].
    eapply char_literal_close_steps; [done| |done]. intros ->. done.
Qed.

Lemma prefixed_steps lx p q r :
  char_is lx 0 p && char_is lx 1 q = true → p "010"%char = false → q "010"%char = false →
  r "010"%char = false →
  scan_steps true lx
    (scan_while (remaining (lexer_advance 2 lx)) r (lexer_advance 2 lx)).
Proof.
  intros [(c & Hc & Hp)%char_is_true (d & Hd & Hq)%char_is_true]%andb_true_iff ???.
  eapply steps_two; [done..| |by apply scan_while_steps].
  intros _. split; intros ->; congruence.
Qed.

Lemma lexer_scan_number_steps lx : scan_steps true lx (lexer_scan_number lx).1.
Proof.
  unfold lexer_scan_number.
  case_match eqn:Hx; [|case_match eqn:Hb]; simpl.
  - by eapply prefixed_steps.
  - by eapply prefixed_steps.
  - by apply scan_while_steps.
Qed.

Lemma lexer_lex_number_steps lx : scan_steps true lx (lexer_lex_number lx).2.
Proof.
  unfold lexer_lex_number. pose proof (lexer_scan_number_steps lx) as H.
  destruct (lexer_scan_number lx) as [lx' [m|]]; [by apply fail_token_steps|done].
Qed.

Lemma lexer_lex_identifier_steps lx :
  scan_steps true lx (lexer_lex_identifier_or_keyword lx).2.
Proof. by apply scan_while_steps. Qed.

(** ** What one scan returns *)

(** Tokens whose scan keeps the reported location exact: a string literal (or an
    error inside one) steps over raw line feeds without counting them. *)
Definition strict_type (ty : TokenType) : bool :=
  match ty with TOKEN_STRING | TOKEN_ERROR => false | _ => true end.

(** The lexeme and the value of a token that starts at [start] and ends at [stop]. *)
Definition lexeme_ok (src : list ascii) (start stop : nat) (t : Token) : Prop :=
  match lexeme t with
  | SV_source off len =>
      off = start ∧
      (type t = TOKEN_ERROR ∨
       off + len = stop ∧
       (value t = Some (slice src off len) ∨
        type t = TOKEN_NUMBER ∧ src !! off = Some "'"%char))
  | SV_value len => type t = TOKEN_STRING ∧ option_map String.length (value t) = Some len
  | SV_null => type t = TOKEN_ERROR
  end.

(** The bracket depth after a token. *)
Definition depth_after (ty : TokenType) (d : nat) : nat :=
  match ty with
  | TOKEN_LPAREN | TOKEN_LBRACKET => d + 1
  | TOKEN_RPAREN | TOKEN_RBRACKET => d - 1
  | _ => d
  end.

Record dispatch_result (lx : Lexer) (t : Token) (lx' : Lexer) : Prop := {
  dr_steps :
    scan_steps (strict_type (type t))
      (lexer_set_depth (depth_after (type t) (continuation_depth lx)) lx) lx';
  dr_progress : position lx < position lx';
  dr_type : type t ≠ TOKEN_EOF ∧ type t ≠ TOKEN_NEWLINE;
  dr_where : token_line t = line lx ∧ token_column t = column lx;
  dr_lexeme : lexeme_ok (source lx) (position lx) (position lx') t }.

(** The text at the cursor starts with [lit]. *)
Definition spells (lx : Lexer) (lit : string) : Prop :=
  ∀ i c, list_ascii_of_string lit !! i = Some c → char_at lx i = Some c.

Lemma length_list_ascii (s : string) : length (list_ascii_of_string s) = String.length s.
Proof. induction s; simpl; auto. Qed.

Lemma slice_spelled lx lit :
  spells lx lit → slice (source lx) (position lx) (String.length lit) = lit.
Proof.
  intros Hs. unfold slice. rewrite <- (String.string_of_list_ascii_of_string lit) at 2.
  f_equal. apply list_eq. intros i.
  destruct (list_ascii_of_string lit !! i) as [c|] eqn:Hi.
  - pose proof (Hs i c Hi) as [_ Hc]%char_at_Some.
    apply lookup_lt_Some in Hi. rewrite length_list_ascii in Hi.
    rewrite lookup_take_lt by done. by rewrite lookup_drop.
  - apply lookup_ge_None in Hi. rewrite length_list_ascii in Hi.
    by apply lookup_take_ge.
Qed.

Lemma slice_one lx c :
  char_at lx 0 = Some c → slice (source lx) (position lx) 1 = String c EmptyString.
Proof.
  intros Hc. apply (slice_spelled lx (String c EmptyString)).
  intros [|i] d; simpl; intros [= <-]; done.
Qed.

(** What the [switch] and the '-' tests recognise is really in the text. *)
Definition operator_type (ty : TokenType) : Prop :=
  ty ≠ TOKEN_EOF ∧ ty ≠ TOKEN_NEWLINE ∧ ty ≠ TOKEN_ERROR ∧ ty ≠ TOKEN_STRING.
Definition bracketless (ty : TokenType) : Prop := ∀ d, depth_after ty d = d.

Definition punct_ok (lx : Lexer) (p : punctuation) : Prop :=
  match p with
  | Spelled ty lit =>
      operator_type ty ∧ bracketless ty ∧ spells lx lit ∧ 0 < String.length lit ∧
      forallb (fun c => negb (c =c "010")) (list_ascii_of_string lit) = true
  | Single ty => operator_type ty ∧ bracketless ty
  | Open_bracket ty => operator_type ty ∧ ∀ d, depth_after ty d = d + 1
  | Close_bracket ty => operator_type ty ∧ ∀ d, depth_after ty d = d - 1
  | No_punctuation => True
  end.

Lemma spells_two lx c d :
  char_at lx 0 = Some c → char_at lx 1 = Some d →
  spells lx (String c (String d EmptyString)).
Proof. intros ?? [|[|i]] e; simpl; intros [= <-]; done. Qed.

Lemma spells_three lx c d e :
  char_at lx 0 = Some c → char_at lx 1 = Some d → char_at lx 2 = Some e →
  spells lx (String c (String d (String e EmptyString))).
Proof. intros ??? [|[|[|i]]] f; simpl; intros [= <-]; done. Qed.

Ltac solve_punct :=
  repeat match goal with
    | H : _ && _ = true |- _ => apply andb_true_iff in H as [? ?]
    | H : char_is _ _ _ = true |- _ => apply char_is_eqb in H
    end;
  simpl; unfold operator_type, bracketless; repeat split;
  first [discriminate | lia | by apply spells_two | by apply spells_three
        | reflexivity].

Lemma with_equals_ok lx ty2 c p :
  char_at lx 0 = Some c → c ≠ "010"%char → operator_type ty2 → bracketless ty2 → punct_ok lx p →
  punct_ok lx (with_equals lx ty2 (String c "=") p).
Proof.
  intros Hc Hn Ht Hb Hp. unfold with_equals. case_match eqn:He; [|done].
  apply char_is_eqb in He. simpl. split_and!; [done|done|by apply spells_two|lia|].
  simpl. by destruct (Ascii.eqb_spec c "010"%char).
Qed.

Lemma lexer_switch_ok lx c : char_at lx 0 = Some c → punct_ok lx (lexer_switch lx c).
Proof.
  intros Hc. unfold lexer_switch.
  repeat (case_match eqn:E; [apply Ascii.eqb_eq in E as ->|clear E]).
  all: unfold angle; try (apply with_equals_ok; [done|done|by repeat split|done|]).
  all: repeat case_match; try (apply with_equals_ok; [done|done|by repeat split|done|]).
  all: solve_punct.
Qed.

Lemma lexer_minus_ok lx c : char_at lx 0 = Some c → punct_ok lx (lexer_minus lx c).
Proof.
  intros Hc. unfold lexer_minus. case_match eqn:E; [|done]. apply Ascii.eqb_eq in E as ->.
  case_match; [|apply with_equals_ok; [done|done|by repeat split|done|]]; solve_punct.
Qed.

Lemma operator_strict ty : operator_type ty → strict_type ty = true.
Proof. intros (_ & _ & ? & ?). by destruct ty. Qed.

Lemma lf_free_lookup s i c :
  forallb (fun c => negb (c =c "010")) s = true → s !! i = Some c → c ≠ "010"%char.
Proof.
  intros Hf Hi ->. apply (forallb_forall _ s) with (x := "010"%char) in Hf; [done|].
  apply list_elem_of_In, list_elem_of_lookup. eauto.
Qed.

Lemma emit_spelled_result lx t ty lit :
  token_line t = line lx → token_column t = column lx → punct_ok lx (Spelled ty lit) →
  dispatch_result lx (emit_spelled t ty lit lx).1 (emit_spelled t ty lit lx).2.
Proof.
  intros Hl Hcol (Hty & Hb & Hs & Hpos & Hlf). split; simpl.
  - rewrite operator_strict, Hb, lexer_set_depth_id by done. apply scan_steps_advance. intros i Hi.
    destruct (lookup_lt_is_Some_2 (list_ascii_of_string lit) i) as [c Hc];
      [by rewrite length_list_ascii|].
    exists c. split; [by apply Hs|]. intros _. by eapply lf_free_lookup.
  - lia.
  - by destruct Hty as (? & ? & _).
  - done.
  - unfold lexeme_ok; simpl. split; [done|]. right. split; [done|]. left.
    by rewrite slice_spelled.
Qed.

Lemma emit_single_result lx lx1 t ty c :
  token_line t = line lx → token_column t = column lx →
  operator_type ty → char_at lx 0 = Some c → c ≠ "010"%char →
  lx1 = lexer_set_depth (depth_after ty (continuation_depth lx)) lx →
  dispatch_result lx (emit_single t ty c lx1).1 (emit_single t ty c lx1).2.
Proof.
  intros Hl Hcol Hty Hc Hn ->. split; simpl.
  - rewrite operator_strict by done. apply rtc_once. by econstructor.
  - lia.
  - by destruct Hty as (? & ? & _).
  - done.
  - unfold lexeme_ok; simpl. split; [done|]. right. split; [done|]. left.
    by rewrite (slice_one _ c).
Qed.

Lemma emit_punctuation_result lx t c p t' lx' :
  token_line t = line lx → token_column t = column lx →
  char_at lx 0 = Some c → c ≠ "010"%char → punct_ok lx p →
  emit_punctuation t c p lx = Some (t', lx') → dispatch_result lx t' lx'.
Proof.
  intros Hl Hcol Hc Hn Hp.
  destruct p as [ty lit|ty|ty|ty|]; cbn [emit_punctuation punct_ok] in *; [| | | |done];
    intros Heq; apply Some_inj in Heq;
    (rewrite <- (f_equal fst Heq : _ = t'), <- (f_equal snd Heq : _ = lx')); clear Heq.
  - by apply (emit_spelled_result lx t ty lit).
  - destruct Hp as [? Hb]. apply emit_single_result; try done.
    by rewrite Hb, lexer_set_depth_id.
  - destruct Hp as [? Hb]. apply emit_single_result; try done. by rewrite Hb.
  - destruct Hp as [? Hb]. apply emit_single_result; try done. rewrite Hb.
    destruct (Nat.ltb_spec 0 (continuation_depth lx)); [done|].
    replace (continuation_depth lx - 1) with (continuation_depth lx) by lia.
    by rewrite lexer_set_depth_id.
Qed.

(** *** Literals, words and unknown characters *)

Lemma steps_position strict lx lx' : scan_steps strict lx lx' → position lx ≤ position lx'.
Proof. intros H. by apply scan_steps_same_text in H as (_ & _ & ?). Qed.

Lemma scan_while_position p fuel lx : position lx ≤ position (scan_while fuel p lx).
Proof. apply (steps_position false). by apply scan_while_steps. Qed.

Lemma scan_while_progress p lx :
  char_is lx 0 p = true → position lx < position (scan_while (remaining lx) p lx).
Proof.
  intros Hp. pose proof Hp as (c & [Hc _]%char_at_Some & _)%char_is_true.
  destruct (remaining lx) as [|f] eqn:Hr; [unfold remaining in Hr; lia|]. simpl. rewrite Hp.
  pose proof (scan_while_position p f (lexer_advance 1 lx)). simpl in *. lia.
Qed.

Lemma char_is_intro lx k p c : char_at lx k = Some c → p c = true → char_is lx k p = true.
Proof. intros ??. apply char_is_true. eauto. Qed.

Lemma fail_token_result lx t lx' m :
  token_line t = line lx → token_column t = column lx → lexeme t = SV_null →
  scan_steps true lx lx' → position lx < position lx' →
  dispatch_result lx (fail_token t lx' m).1 (fail_token t lx' m).2.
Proof.
  intros ????. split; simpl; rewrite ?lexer_set_depth_id; try done.
  - eapply rtc_r; [by apply scan_steps_weaken|constructor].
  - unfold lexeme_ok; simpl. by case_match.
Qed.

Lemma char_literal_close_result lx s v lx' c :
  scan_steps true lx lx' → s = position lx → position lx < position lx' →
  char_at lx 0 = Some "'"%char → char_at lx' 0 = Some c → c ≠ "010"%char →
  let r := char_literal_close (token_init TOKEN_EOF (line lx) (column lx)) s v lx' in
  dispatch_result lx r.1 r.2.
Proof.
  intros Hs -> Hpos H0 Hc Hn. simpl.
  pose proof (char_literal_close_steps lx (token_init TOKEN_EOF (line lx) (column lx))
    (position lx) v lx' c Hc Hn Hs) as Hst.
  unfold char_literal_close in *. case_match.
  - apply fail_token_result; try done; simpl; [eapply rtc_r; [exact Hs|by econstructor]|lia].
  - split; simpl; rewrite ?lexer_set_depth_id; try done; [lia|].
    unfold lexeme_ok; simpl. split; [done|]. right. split; [lia|]. right. split; [done|].
    apply char_at_Some in H0 as [_ H0]. by rewrite Nat.add_0_r in H0.
Qed.

Lemma lexer_lex_char_literal_result lx :
  char_at lx 0 = Some "'"%char →
  dispatch_result lx (lexer_lex_char_literal lx).1 (lexer_lex_char_literal lx).2.
Proof.
  intros H0. unfold lexer_lex_char_literal.
  assert (scan_steps true lx (lexer_advance 1 lx)) as H1 by (apply rtc_once; by econstructor).
  destruct (char_at (lexer_advance 1 lx) 0) as [ch|] eqn:Hch;
    [|by apply fail_token_result; simpl; try lia].
  destruct (ch =c "\") eqn:Hb.
  - apply Ascii.eqb_eq in Hb as ->.
    assert (scan_steps true lx (lexer_advance 1 (lexer_advance 1 lx))) as H2
      by (eapply rtc_r; [exact H1|by econstructor]).
    destruct (char_at (lexer_advance 1 (lexer_advance 1 lx)) 0) as [e|] eqn:He;
      [|by apply fail_token_result; simpl; try lia].
    destruct (char_escape e) as [v|] eqn:Hv;
      [|by apply fail_token_result; simpl; try lia].
    eapply char_literal_close_result; eauto with lexer; simpl; lia.
  - destruct (_ || _) eqn:Hnl; [by apply fail_token_result; simpl; try lia|].
    apply orb_false_iff in Hnl as [Hnl _].
    eapply char_literal_close_result; eauto; simpl; [lia|].
    intros ->. by rewrite Ascii.eqb_refl in Hnl.
Qed.

Lemma lexer_scan_number_progress lx c :
  char_at lx 0 = Some c → isdigit c = true → position lx < position (lexer_scan_number lx).1.
Proof.
  intros Hc Hd. unfold lexer_scan_number. case_match; [|case_match]; simpl.
  1,2: eapply Nat.lt_le_trans; [|apply scan_while_position]; simpl; lia.
  apply scan_while_progress. eapply char_is_intro; [done|]. by rewrite Hd.
Qed.

Lemma lexer_lex_number_result lx c :
  char_at lx 0 = Some c → isdigit c = true →
  dispatch_result lx (lexer_lex_number lx).1 (lexer_lex_number lx).2.
Proof.
  intros Hc Hd. unfold lexer_lex_number.
  pose proof (lexer_scan_number_steps lx) as Hs.
  pose proof (lexer_scan_number_progress lx c Hc Hd) as Hp.
  destruct (lexer_scan_number lx) as [lx' [m|]]; simpl in *; [by apply fail_token_result|].
  split; simpl; rewrite ?lexer_set_depth_id; try done. pose proof (scan_steps_same_text _ _ _ Hs) as (Hsrc & _ & _).
  unfold lexeme_ok; simpl. split; [done|]. right. split; [lia|]. left. by rewrite Hsrc.
Qed.

Lemma table_lookup_in eqb v tbl ty :
  table_lookup eqb v tbl = Some ty → ∃ k, (k, ty) ∈ tbl ∧ eqb v k = true.
Proof.
  induction tbl as [|[k ty'] tbl IH]; simpl; [done|].
  destruct (eqb v k) eqn:E.
  - intros [= ->]. exists k. split; [apply list_elem_of_here|done].
  - intros (k' & ? & ?)%IH. exists k'. split; [by apply list_elem_of_further|done].
Qed.

Definition word_type_ok (ty : TokenType) : bool :=
  match ty with
  | TOKEN_EOF | TOKEN_NEWLINE | TOKEN_STRING | TOKEN_ERROR | TOKEN_NUMBER
  | TOKEN_LPAREN | TOKEN_RPAREN | TOKEN_LBRACKET | TOKEN_RBRACKET => false
  | _ => true
  end.

Lemma table_types eqb v tbl ty :
  forallb (fun p => word_type_ok p.2) tbl = true →
  table_lookup eqb v tbl = Some ty → word_type_ok ty = true.
Proof.
  intros Hall (k & Hin & _)%table_lookup_in.
  apply (forallb_forall (fun p => word_type_ok p.2) tbl) with (x := (k, ty)) in Hall; [done|].
  by apply list_elem_of_In.
Qed.

Lemma classify_word_type v : word_type_ok (classify_word v) = true.
Proof.
  unfold classify_word. case_match eqn:E1; [by eapply table_types, E1|].
  case_match eqn:E2; [by eapply table_types, E2|done].
Qed.

Lemma lexer_lex_identifier_result lx c :
  char_at lx 0 = Some c → is_word_char c = true →
  dispatch_result lx (lexer_lex_identifier_or_keyword lx).1 (lexer_lex_identifier_or_keyword lx).2.
Proof.
  intros Hc Hw. pose proof (lexer_lex_identifier_steps lx) as Hs.
  pose proof (scan_while_progress is_word_char lx ltac:(by eapply char_is_intro)) as Hp.
  unfold lexer_lex_identifier_or_keyword in *; simpl in *.
  pose proof (scan_steps_same_text _ _ _ Hs) as (Hsrc & _ & _).
  set (lx' := scan_while _ _ _) in *. set (v := slice _ _ _).
  pose proof (classify_word_type v) as Hty.
  split; simpl; rewrite ?lexer_set_depth_id; try done.
  - destruct (classify_word v); try done; simpl; by rewrite lexer_set_depth_id.
  - by destruct (classify_word v).
  - unfold lexeme_ok; simpl. split; [done|]. right. split; [lia|]. left.
    unfold v. by rewrite Hsrc.
Qed.

Lemma length_string_of_list l : String.length (string_of_list_ascii l) = length l.
Proof. induction l; simpl; auto. Qed.

Lemma lexer_lex_string_literal_result lx :
  lexer_wf lx → char_at lx 0 = Some "034"%char →
  dispatch_result lx (lexer_lex_string_literal lx).1 (lexer_lex_string_literal lx).2.
Proof.
  intros Hwf H0. unfold lexer_lex_string_literal.
  pose proof (string_loop_steps (remaining (lexer_advance 1 lx)) [] (lexer_advance 1 lx)) as Hs.
  destruct (string_loop _ _ _) as [buffer lx'] eqn:Hloop; simpl in Hs.
  assert (scan_steps false lx lx') as Hs' by (eapply rtc_l; [by econstructor|exact Hs]).
  pose proof (steps_position _ _ _ Hs) as Hp; simpl in Hp.
  destruct (Nat.leb_spec (src_length lx') (position lx')).
  - split; simpl; rewrite ?lexer_set_depth_id; try done; [eapply rtc_r; [exact Hs'|constructor]|lia].
  - split; simpl; rewrite ?lexer_set_depth_id; try done; [|lia|].
    + eapply rtc_r; [exact Hs'|].
      destruct (char_at lx' 0) as [c|] eqn:Hc; [by econstructor|].
      apply char_at_None in Hc; [lia|]. by eapply scan_steps_wf.
    + unfold lexeme_ok; simpl. split; [done|]. by rewrite length_string_of_list.
Qed.

(** ** Dispatch and restarts *)

Lemma isspace_not_other c :
  isspace c = false → c ≠ "010"%char.
Proof. by intros ? ->. Qed.

Lemma lexer_unknown_result lx t c :
  token_line t = line lx → token_column t = column lx → char_at lx 0 = Some c →
  c ≠ "010"%char → dispatch_result lx (lexer_unknown t c lx).1 (lexer_unknown t c lx).2.
Proof.
  intros ?? Hc Hn. unfold lexer_unknown; simpl. split; simpl; rewrite ?lexer_set_depth_id; try done; [|lia|].
  - eapply rtc_l; [apply step_error|]. apply rtc_once. by econstructor.
  - unfold lexeme_ok; simpl. auto.
Qed.

Lemma lexer_dispatch_result lx c :
  lexer_wf lx → char_at lx 0 = Some c → c ≠ "010"%char →
  match lexer_dispatch (token_init TOKEN_EOF (line lx) (column lx)) c lx with
  | Yield t lx' => dispatch_result lx t lx'
  | Restart lx' => scan_steps true lx lx' ∧ position lx < position lx'
  end.
Proof.
  intros Hwf Hc Hn. unfold lexer_dispatch. set (t := token_init _ _ _).
  destruct ((c =c "/") && char_is lx 1 (fun d => d =c "/")) eqn:E1;
    [|destruct ((c =c "/") && char_is lx 1 (fun d => d =c "*")) eqn:E2].
  - apply andb_true_iff in E1 as [->%Ascii.eqb_eq E1%char_is_eqb]. unfold lexer_skip_line_comment.
    assert (scan_steps true lx (lexer_advance 2 lx)) as H2 by (by eapply steps_two).
    split; [etransitivity; [exact H2|by apply scan_while_steps]|].
    eapply Nat.lt_le_trans; [|apply scan_while_position]; simpl; lia.
  - apply andb_true_iff in E2 as [->%Ascii.eqb_eq E2%char_is_eqb].
    unfold lexer_skip_block_comment.
    pose proof (skip_block_loop_steps (remaining (lexer_advance 2 lx)) 1 (lexer_advance 2 lx)) as Hs.
    destruct (skip_block_loop _ _ _) as [d lx']; simpl in Hs.
    assert (scan_steps true lx lx') as Hs' by (by eapply steps_two).
    pose proof (steps_position _ _ _ Hs) as Hp; simpl in Hp.
    destruct (d =? 0); simpl; [split; [done|lia]|].
    by apply (fail_token_result lx (token_init TOKEN_ERROR (line lx) (column lx)) lx'); simpl; try lia.
  - destruct (emit_punctuation t c (lexer_switch lx c) lx) as [[t' lx']|] eqn:Hsw.
    { apply (emit_punctuation_result lx t c (lexer_switch lx c)); auto using lexer_switch_ok. }
    destruct (emit_punctuation t c (lexer_minus lx c) lx) as [[t' lx']|] eqn:Hmi.
    { apply (emit_punctuation_result lx t c (lexer_minus lx c)); auto using lexer_minus_ok. }
    match goal with
    | |- match (let '(a, b) := ?r in Yield a b) with _ => _ end =>
        assert (dispatch_result lx r.1 r.2) as H; [|by destruct r]
    end.
    destruct (Ascii.eqb_spec c "'"%char) as [->|_]; [by apply lexer_lex_char_literal_result|].
    case_match eqn:Hd; [by eapply lexer_lex_number_result|].
    case_match eqn:Hw.
    { eapply lexer_lex_identifier_result; [done|].
      unfold is_word_char, isalnum. destruct (isalpha c); [done|].
      by destruct (isdigit c). }
    destruct (Ascii.eqb_spec c "034"%char) as [->|_];
      [by apply lexer_lex_string_literal_result|by apply lexer_unknown_result].
Qed.

(** The white-space loop. *)
Lemma skip_space_spec fuel t lx :
  lexer_wf lx → remaining lx ≤ fuel →
  match skip_space fuel t lx with
  | inl (t', lx') =>
      ∃ lx1, scan_steps true lx lx1 ∧ continuation_depth lx1 = 0 ∧
        continuation_depth lx = 0 ∧ char_at lx1 0 = Some "010"%char ∧ lx' = lexer_newline lx1 ∧
        t' = token_set_lexeme (token_set_type t TOKEN_NEWLINE) (SV_source (position lx1) 1)
  | inr lx' =>
      scan_steps true lx lx' ∧ continuation_depth lx' = continuation_depth lx ∧
      char_is lx' 0 isspace = false
  end.
Proof.
  revert lx. induction fuel as [|f IH]; intros lx Hwf Hf; simpl.
  { split_and!; [done..|]. unfold char_is. destruct (char_at lx 0) eqn:Hc; [|done].
    apply char_at_Some in Hc. unfold remaining in Hf. lia. }
  unfold char_is at 1. destruct (char_at lx 0) as [c|] eqn:Hc;
    [|split_and!; [done..|unfold char_is; by rewrite Hc]].
  destruct (isspace c) eqn:Hsp; [|split_and!; [done..|unfold char_is; by rewrite Hc]].
  pose proof Hc as [Hlt _]%char_at_Some.
  assert (∀ lx1, scan_step true lx lx1 → position lx1 = position lx + 1 →
    continuation_depth lx1 = continuation_depth lx →
    match skip_space f t lx1 with
    | inl (t', lx') =>
      ∃ lx2, scan_steps true lx lx2 ∧ continuation_depth lx2 = 0 ∧
        continuation_depth lx = 0 ∧ char_at lx2 0 = Some "010"%char ∧ lx' = lexer_newline lx2 ∧
        t' = token_set_lexeme (token_set_type t TOKEN_NEWLINE) (SV_source (position lx2) 1)
    | inr lx' => scan_steps true lx lx' ∧ continuation_depth lx' = continuation_depth lx ∧
        char_is lx' 0 isspace = false
    end) as Hrec.
  { intros lx1 Hst Hpos Hdep. specialize (IH lx1 (scan_step_wf _ _ _ Hst Hwf)).
    pose proof (scan_step_same_text _ _ _ Hst) as (_ & Hl & _).
    specialize (IH ltac:(unfold remaining in *; lia)). rewrite Hdep in IH.
    destruct (skip_space f t lx1) as [[t' lx']|lx'].
    - destruct IH as (lx2 & ? & ? & ? & ? & ? & ?). exists lx2.
      split_and!; try done. by eapply rtc_l.
    - destruct IH as (? & ? & ?). split_and!; try done. by eapply rtc_l. }
  destruct (Ascii.eqb_spec c "010"%char) as [->|Hn].
  - destruct (Nat.ltb_spec 0 (continuation_depth lx)).
    + apply Hrec; [by constructor|done..].
    + exists lx. split_and!; try done; lia.
  - apply Hrec; [by econstructor|done..].
Qed.

(** What [lexer_next_token] returns: white space and comments are skipped up to
    [lx1], then the input is exhausted, a line feed is reported, or one token is
    scanned. *)
Inductive token_result (lx : Lexer) (t : Token) (lx' : Lexer) : Prop :=
  | tr_eof :
      scan_steps true lx lx' → type t = TOKEN_EOF → src_length lx' ≤ position lx' →
      token_result lx t lx'
  | tr_newline lx1 :
      scan_steps true lx lx1 → type t = TOKEN_NEWLINE → continuation_depth lx1 = 0 →
      char_at lx1 0 = Some "010"%char → lx' = lexer_newline lx1 →
      lexeme t = SV_source (position lx1) 1 → value t = None → token_result lx t lx'
  | tr_token lx1 :
      scan_steps true lx lx1 → dispatch_result lx1 t lx' → token_result lx t lx'.

Lemma token_result_skip lx lx1 t lx' :
  scan_steps true lx lx1 → token_result lx1 t lx' → token_result lx t lx'.
Proof.
  intros Hs [? ? ?|lx2 ? ? ? ? ? ? ?|lx2 ? ?].
  - apply tr_eof; [by etransitivity|done..].
  - eapply tr_newline; [by etransitivity|done..].
  - eapply tr_token; [by etransitivity|done].
Qed.

Lemma lexer_next_token_body_spec lx :
  lexer_wf lx →
  match lexer_next_token_body lx with
  | Yield t lx' => token_result lx t lx'
  | Restart lx' => scan_steps true lx lx' ∧ position lx < position lx'
  end.
Proof.
  intros Hwf. unfold lexer_next_token_body.
  pose proof (skip_space_spec (remaining lx) (token_init TOKEN_EOF (line lx) (column lx)) lx
    Hwf (le_n _)) as Hsp.
  destruct (skip_space _ _ lx) as [[t lx']|lx1].
  - destruct Hsp as (lx1 & ? & ? & ? & ? & -> & ->). by eapply tr_newline.
  - destruct Hsp as (Hs & _ & Hc). pose proof (scan_steps_wf _ _ _ Hs Hwf) as Hwf1.
    destruct (char_at lx1 0) as [c|] eqn:Hc0.
    + assert (c ≠ "010"%char) as Hn by (intros ->; unfold char_is in Hc; by rewrite Hc0 in Hc).
      pose proof (lexer_dispatch_result lx1 c Hwf1 Hc0 Hn) as Hd.
      destruct (lexer_dispatch _ c lx1) as [t lx'|lx'].
      * by eapply tr_token.
      * destruct Hd as [Hs' ?]. pose proof (steps_position _ _ _ Hs).
        split; [by etransitivity|lia].
    + apply char_at_None in Hc0; [|done]. apply tr_eof; [done|done|lia].
Qed.

Lemma lexer_next_token_fuel_spec fuel lx :
  lexer_wf lx → remaining lx < fuel →
  ∃ t lx', lexer_next_token_fuel fuel lx = Some (t, lx') ∧ token_result lx t lx'.
Proof.
  revert lx. induction fuel as [|f IH]; intros lx Hwf Hf; [lia|]. simpl.
  pose proof (lexer_next_token_body_spec lx Hwf) as Hb.
  destruct (lexer_next_token_body lx) as [t lx'|lx1]; [by exists t, lx'|].
  destruct Hb as [Hs Hp].
  pose proof (scan_steps_wf _ _ _ Hs Hwf) as [Hwp Hwl].
  pose proof (scan_steps_same_text _ _ _ Hs) as (_ & Hlen & _).
  destruct (IH lx1) as (t & lx' & -> & Hr); [done| |].
  - unfold remaining in *. lia.
  - exists t, lx'. split; [done|]. by eapply token_result_skip.
Qed.

Lemma lexer_next_token_result lx :
  lexer_wf lx → ∃ t lx', lexer_next_token lx = Some (t, lx') ∧ token_result lx t lx'.
Proof. intros Hwf. apply lexer_next_token_fuel_spec; [done|lia]. Qed.

Lemma next_token_inv lx t lx' :
  lexer_wf lx → lexer_next_token lx = Some (t, lx') → token_result lx t lx'.
Proof.
  intros Hwf Heq. destruct (lexer_next_token_result lx Hwf) as (t1 & lx1 & Heq1 & Hr).
  by rewrite Heq in Heq1; simplify_eq.
Qed.

(** An invariant of the moves that ignores the bracket depth holds across a token. *)
Lemma token_result_ind_steps (P : Lexer → Lexer → Prop) lx t lx' :
  (∀ a b, scan_steps false a b → P a b) → (∀ a d, P a (lexer_set_depth d a)) →
  (∀ a b c, P a b → P b c → P a c) → token_result lx t lx' → P lx lx'.
Proof.
  intros Hsteps Hdepth Htrans [Hs ? ?|lx1 Hs ? ? Hc -> ? ?|lx1 Hs Hd];
    apply scan_steps_weaken in Hs; [auto|..].
  - apply Hsteps. eapply rtc_r; [done|by constructor].
  - eapply Htrans; [by apply Hsteps|]. destruct Hd as [Hst _ _ _ _].
    eapply Htrans; [apply Hdepth|]. apply Hsteps.
    destruct (strict_type (type t)); [by apply scan_steps_weaken|exact Hst].
Qed.

Lemma token_result_wf lx t lx' : token_result lx t lx' → lexer_wf lx → lexer_wf lx'.
Proof.
  apply (token_result_ind_steps (fun a b => lexer_wf a → lexer_wf b)); [|by intros a d [? ?]; split|auto].
  intros a b. by apply scan_steps_wf.
Qed.

Lemma token_result_text lx t lx' : token_result lx t lx' → same_text lx lx'.
Proof.
  apply (token_result_ind_steps same_text).
  - intros a b. by apply scan_steps_same_text.
  - intros a d. unfold same_text; simpl. split_and!; [done..|lia].
  - unfold same_text. intros a b c (? & ? & ?) (? & ? & ?). split_and!; [congruence..|lia].
Qed.

Lemma token_result_progress lx t lx' :
  token_result lx t lx' →
  type t = TOKEN_EOF ∧ src_length lx' ≤ position lx' ∨
  type t ≠ TOKEN_EOF ∧ position lx < position lx'.
Proof.
  intros [Hs ? ?|lx1 Hs Ht ? Hc -> ? ?|lx1 Hs [_ Hp [? ?] _ _]]; [auto|..];
    right; apply steps_position in Hs; [rewrite Ht|]; simpl; split; try done; lia.
Qed.

Lemma lexer_create_wf src : lexer_wf (lexer_create src).
Proof. split; simpl; [lia|apply c_strlen_le]. Qed.

Lemma lexer_create_located src : located (lexer_create src).
Proof. done. Qed.

Lemma next_token_total lx :
  lexer_wf lx →
  ∃ t lx', lexer_next_token lx = Some (t, lx') ∧ lexer_wf lx' ∧
    source lx' = source lx ∧ src_length lx' = src_length lx ∧
    (type t = TOKEN_EOF ∧ position lx' = src_length lx ∨
     type t ≠ TOKEN_EOF ∧ position lx < position lx' ≤ src_length lx).
Proof.
  intros Hwf. destruct (lexer_next_token_result lx Hwf) as (t & lx' & Heq & Hr).
  pose proof (token_result_wf _ _ _ Hr Hwf) as [Hp Hl].
  pose proof (token_result_text _ _ _ Hr) as (Hsrc & Hlen & _).
  exists t, lx'. split_and!; try done.
  destruct (token_result_progress _ _ _ Hr) as [[? ?]|[? ?]]; [left|right]; split; try done; lia.
Qed.

(** ** The properties *)

(** C8. [lexer_next_token] is total and makes progress: from a well-formed state
    it returns a token without running out of restarts, keeps the state well
    formed over the same text, and either reports the end of the text or moves
    the position strictly forward. *)
Theorem lexer_next_token_total lx :
  lexer_wf lx →
  ∃ t lx', lexer_next_token lx = Some (t, lx') ∧ lexer_wf lx' ∧
    source lx' = source lx ∧ src_length lx' = src_length lx ∧
    (type t = TOKEN_EOF ∧ position lx' = src_length lx ∨
     type t ≠ TOKEN_EOF ∧ position lx < position lx' ≤ src_length lx).
Proof. apply next_token_total. Qed.

Lemma lexer_tokens_spec fuel lx :
  lexer_wf lx → remaining lx < fuel →
  ∃ ts t, lexer_tokens fuel lx = Some (ts ++ [t]) ∧ type t = TOKEN_EOF ∧
    Forall (fun t => type t ≠ TOKEN_EOF) ts ∧ length ts ≤ remaining lx.
Proof.
  revert lx. induction fuel as [|f IH]; intros lx Hwf Hf; [lia|]. simpl.
  destruct (next_token_total lx Hwf) as (t & lx' & -> & Hwf' & _ & Hlen & Hcase).
  destruct Hcase as [[Ht Hpos]|[Ht Hpos]].
  - rewrite Ht. exists [], t. split_and!; [done..|simpl; lia].
  - destruct (IH lx' Hwf') as (ts & e & Hts & He & Hall & Hn); [unfold remaining in *; lia|].
    rewrite Hts. exists (t :: ts), e. split_and!.
    + by destruct (type t).
    + done.
    + by constructor.
    + simpl. unfold remaining in *. lia.
Qed.

(** C40. Lexing any source text terminates: as many calls as there are characters,
    and one more, always suffice to reach [TOKEN_EOF], which is the last token
    and the only one of its type. *)
Theorem lexer_tokens_terminates (src : list ascii) :
  ∃ ts t, lexer_tokens (S (c_strlen src)) (lexer_create src) = Some (ts ++ [t]) ∧
    type t = TOKEN_EOF ∧ Forall (fun t => type t ≠ TOKEN_EOF) ts ∧ length ts ≤ c_strlen src.
Proof.
  replace (c_strlen src) with (remaining (lexer_create src))
    by (unfold remaining; simpl; lia).
  apply lexer_tokens_spec; [apply lexer_create_wf|lia].
Qed.

(** C33. Tokens cover the text they claim: a token that is not the end of the text, an
    error or a string literal (see C32 for those) has as lexeme a non-empty slice that
    ends where the scanner stops, and its value is that slice (a line feed has no value;
    a character literal's value is its code). *)
Theorem lexer_token_faithful lx t lx' :
  lexer_wf lx → lexer_next_token lx = Some (t, lx') →
  type t ≠ TOKEN_EOF → type t ≠ TOKEN_ERROR → type t ≠ TOKEN_STRING →
  ∃ start len,
    lexeme t = SV_source start len ∧ position lx ≤ start ∧ 0 < len ∧ start + len = position lx' ∧
    (value t = Some (slice (source lx) start len) ∨
     type t = TOKEN_NUMBER ∧ source lx !! start = Some "'"%char ∨
     type t = TOKEN_NEWLINE ∧ value t = None ∧ source lx !! start = Some "010"%char).
Proof.
  intros Hwf Heq Hne Herr Hstr. destruct (next_token_inv _ _ _ Hwf Heq)
    as [? ?|lx1 Hs Ht ? Hc -> Hlex Hv|lx1 Hs [_ Hp _ _ Hlex]]; [done|..];
    pose proof (scan_steps_same_text _ _ _ Hs) as (Hsrc & _ & ?).
  - exists (position lx1), 1. simpl. split_and!; [done|done|lia|lia|].
    right; right. split_and!; [done..|]. apply char_at_Some in Hc as [_ Hc].
    by rewrite Nat.add_0_r, Hsrc in Hc.
  - unfold lexeme_ok in Hlex. rewrite Hsrc in Hlex.
    destruct (lexeme t) as [|off len|len]; [done| |by destruct Hlex].
    destruct Hlex as (-> & [?|[? Hval]]); [done|].
    exists (position lx1), len. split_and!; try done; [lia|].
    destruct Hval as [?|[? ?]]; auto.
Qed.

Lemma strict_type_true ty : ty ≠ TOKEN_STRING → ty ≠ TOKEN_ERROR → strict_type ty = true.
Proof. by destruct ty. Qed.

(** One token: its location is that of its first character, and the scanner's stays exact
    unless the token is a string literal or an error. *)
Lemma token_location lx t lx' :
  lexer_wf lx → located lx → lexer_next_token lx = Some (t, lx') →
  (type t ≠ TOKEN_STRING → type t ≠ TOKEN_ERROR → located lx') ∧
  (type t ≠ TOKEN_EOF → type t ≠ TOKEN_NEWLINE →
   ∃ start, position lx ≤ start < position lx' ∧
     (token_line t, token_column t) = loc_after (take start (source lx)) ∧
     ∀ off len, lexeme t = SV_source off len → off = start).
Proof.
  intros Hwf Hloc Heq. destruct (next_token_inv _ _ _ Hwf Heq)
    as [Hs Ht ?|lx1 Hs Ht ? Hc -> ? ?|lx1 Hs [Hst Hp _ [Hl Hcol] Hlex]];
    pose proof (scan_steps_located _ _ Hs Hloc) as Hloc1.
  - rewrite Ht. split; intros; done.
  - rewrite Ht. split; [|done]. intros _ _.
    eapply scan_step_located; [by constructor|done].
  - split.
    + intros Hns Hne. rewrite (strict_type_true _ Hns Hne) in Hst.
      eapply scan_steps_located; [exact Hst|exact Hloc1].
    + intros _ _. pose proof (scan_steps_same_text _ _ _ Hs) as (Hsrc & _ & ?).
      exists (position lx1). split_and!; [lia..| |].
      * rewrite Hl, Hcol, <- Hsrc. exact Hloc1.
      * intros off len Hoff. unfold lexeme_ok in Hlex. rewrite Hoff in Hlex. by destruct Hlex.
Qed.

(** The tokens up to and including the first string literal or error. *)
Lemma stream_location fuel lx ts k t :
  lexer_wf lx → located lx → lexer_tokens fuel lx = Some ts → ts !! k = Some t →
  (∀ u, u ∈ take k ts → type u ≠ TOKEN_STRING ∧ type u ≠ TOKEN_ERROR) →
  type t ≠ TOKEN_EOF → type t ≠ TOKEN_NEWLINE →
  ∃ start, start < src_length lx ∧ (token_line t, token_column t) = loc_after (take start (source lx)) ∧
    ∀ off len, lexeme t = SV_source off len → off = start.
Proof.
  revert lx ts k. induction fuel as [|fuel IH]; intros lx ts k Hwf Hloc; [done|]. simpl.
  destruct (next_token_total lx Hwf) as (u & lx' & Heq & Hwf' & Hsrc & Hlen & _). rewrite Heq.
  destruct (token_location lx u lx' Hwf Hloc Heq) as [Hloc' Hu]. intros Hts Hk Hbefore He Hn.
  assert (∃ rest, ts = u :: rest ∧ (rest = [] ∨ lexer_tokens fuel lx' = Some rest)) as (rest & -> & Hrest).
  { destruct (type u); try (by injection Hts as <-; exists []; auto);
      destruct (lexer_tokens fuel lx') as [l|]; try done; injection Hts as <-; exists l; auto. }
  destruct k as [|k]; simpl in Hk.
  - injection Hk as ->. destruct (Hu He Hn) as (start & Hs & Hl & Ho). exists start. split_and!; [|done|done].
    pose proof (wf_position _ Hwf'). lia.
  - destruct Hrest as [->|Hrest]; [done|]. destruct (Hbefore u) as [Hstr Herr]; [by left|]. rewrite <- Hsrc, <- Hlen.
    apply (IH lx' rest k); try done; [by apply Hloc'|]. intros w Hw. apply Hbefore. by right.
Qed.

(** C34. Reported locations are exact up to the first string literal or error.  Among the
    tokens of a text, one before which there is neither has the line and column of its
    first character (ends of the text and line feeds apart).  From any state whose line and
    column are those of the text read so far the next token has its own, and unless it is
    a string literal or an error the state after it is such a state again. *)
Theorem lexer_location_exact (src : list ascii) :
  (∀ fuel ts k t, lexer_tokens fuel (lexer_create src) = Some ts → ts !! k = Some t →
     (∀ u, u ∈ take k ts → type u ≠ TOKEN_STRING ∧ type u ≠ TOKEN_ERROR) →
     type t ≠ TOKEN_EOF → type t ≠ TOKEN_NEWLINE →
     ∃ start, start < c_strlen src ∧ (token_line t, token_column t) = loc_after (take start src) ∧
       ∀ off len, lexeme t = SV_source off len → off = start) ∧
  (∀ lx t lx', lexer_wf lx → located lx → lexer_next_token lx = Some (t, lx') →
     (type t ≠ TOKEN_STRING → type t ≠ TOKEN_ERROR → located lx') ∧
     (type t ≠ TOKEN_EOF → type t ≠ TOKEN_NEWLINE →
      ∃ start, position lx ≤ start < position lx' ∧
        (token_line t, token_column t) = loc_after (take start (source lx)) ∧
        ∀ off len, lexeme t = SV_source off len → off = start)).
Proof.
  split; [|apply token_location]. intros fuel ts k t Hts. apply (stream_location fuel (lexer_create src)); [|..|done].
  - apply lexer_create_wf.
  - apply lexer_create_located.
Qed.

(** A string literal with a raw line feed leaves the line counter behind: the
    identifier on the second line is reported on line 1. *)
Lemma string_literal_line_drift :
  option_map (map (fun t => (type t, token_line t)))
    (lexer_tokens 9 (lexer_create ["034"; "a"; "010"; "b"; "034"; "x"]%char))
  = Some [(TOKEN_STRING, 1); (TOKEN_IDENTIFIER, 1); (TOKEN_EOF, 1)].
Proof. vm_compute. reflexivity. Qed.

(** Line feeds are tokens exactly outside brackets: the depth after a token is
    the number of open round and square brackets (a stray closing bracket leaves
    it at zero), and [TOKEN_NEWLINE] is only returned at depth zero. *)
Theorem lexer_bracket_depth lx t lx' :
  lexer_wf lx → lexer_next_token lx = Some (t, lx') →
  continuation_depth lx' = depth_after (type t) (continuation_depth lx) ∧
  (type t = TOKEN_NEWLINE → continuation_depth lx = 0).
Proof.
  intros Hwf Heq. destruct (next_token_inv _ _ _ Hwf Heq)
    as [Hs Ht ?|lx1 Hs Ht Hd Hc -> ? ?|lx1 Hs [Hst _ [? ?] _ _]];
    apply scan_steps_depth in Hs.
  - rewrite Ht. by split.
  - rewrite Ht. simpl. by rewrite <- Hs, Hd.
  - apply scan_steps_depth in Hst. simpl in Hst. rewrite Hst, Hs. by split.
Qed.

(** ** Words and literals read back *)

(** The text at the cursor starts with [l]. *)
Definition text_at (lx : Lexer) (l : list ascii) : Prop :=
  ∀ i c, l !! i = Some c → char_at lx i = Some c.

Lemma text_at_cons lx c l :
  text_at lx (c :: l) ↔ char_at lx 0 = Some c ∧ text_at (lexer_advance 1 lx) l.
Proof.
  split.
  - intros H. split; [by apply (H 0)|]. intros i d Hi. rewrite char_at_advance. by apply (H (S i)).
  - intros [H0 H] [|i] d Hi; simpl in Hi; [by simplify_eq|].
    specialize (H i d Hi). by rewrite char_at_advance in H.
Qed.

Lemma text_at_app lx l k :
  text_at lx (l ++ k) ↔ text_at lx l ∧ text_at (lexer_advance (length l) lx) k.
Proof.
  revert lx. induction l as [|c l IH]; intros lx; simpl.
  - rewrite lexer_advance_0. split; [intros H; split; [by intros i c|done]|by intros [_ ?]].
  - rewrite !text_at_cons, IH, lexer_advance_plus. simpl. tauto.
Qed.

Lemma text_at_bound lx l : text_at lx l → l ≠ [] → position lx + length l ≤ src_length lx.
Proof.
  intros H Hne.
  destruct (lookup_lt_is_Some_2 l (length l - 1)) as [c Hc]; [destruct l; simpl in *; [done|lia]|].
  specialize (H _ _ Hc). apply char_at_Some in H. lia.
Qed.

(** The characters that may start a word meet none of the earlier tests. *)
Lemma word_start_dispatch lx t c :
  isalpha c || (c =c "_") = true →
  isspace c = false ∧ lexer_dispatch t c lx =
    Yield (lexer_lex_identifier_or_keyword lx).1 (lexer_lex_identifier_or_keyword lx).2.
Proof.
  intros H. unfold lexer_dispatch. rewrite H.
  destruct c as [[] [] [] [] [] [] [] []]; try discriminate H; split; try reflexivity.
Qed.

Lemma next_token_dispatch lx c t lx' :
  char_at lx 0 = Some c → isspace c = false →
  lexer_dispatch (token_init TOKEN_EOF (line lx) (column lx)) c lx = Yield t lx' →
  lexer_next_token lx = Some (t, lx').
Proof.
  intros Hc Hsp Hd. unfold lexer_next_token. simpl. unfold lexer_next_token_body.
  assert (skip_space (remaining lx) (token_init TOKEN_EOF (line lx) (column lx)) lx = inr lx) as ->.
  { destruct (remaining lx); simpl; [done|]. by rewrite Hc, Hsp. }
  by rewrite Hc, Hd.
Qed.

Lemma scan_while_text p lx l :
  lexer_wf lx → text_at lx l → forallb p l = true → char_is lx (length l) p = false →
  scan_while (remaining lx) p lx = lexer_advance (length l) lx.
Proof.
  intros Hwf Ht Hall Hend.
  destruct (scan_while_spec p (remaining lx) lx Hwf (le_n _)) as (n & -> & Hrun & Hstop).
  f_equal. destruct (Nat.lt_trichotomy n (length l)) as [Hlt|[|Hlt]]; [|done|].
  - destruct (lookup_lt_is_Some_2 l n Hlt) as [c Hc].
    unfold char_is in Hstop. rewrite (Ht _ _ Hc) in Hstop.
    apply (forallb_forall p l) with (x := c) in Hall; [congruence|].
    apply list_elem_of_In, list_elem_of_lookup. eauto.
  - by rewrite Hrun in Hend.
Qed.

Lemma strcaseeq_spec v k : strcaseeq v k = true ↔ string_tolower v = string_tolower k.
Proof. apply String.eqb_eq. Qed.

Lemma table_lookup_case v k tbl :
  strcaseeq v k = true → table_lookup strcaseeq v tbl = table_lookup strcaseeq k tbl.
Proof.
  intros E%strcaseeq_spec. induction tbl as [|[k' ty] tbl IH]; simpl; [done|].
  unfold strcaseeq at 1 3. by rewrite E, IH.
Qed.

Lemma table_lookup_none v tbl :
  (∀ k ty, (k, ty) ∈ tbl → v ≠ k) → table_lookup String.eqb v tbl = None.
Proof.
  induction tbl as [|[k ty] tbl IH]; simpl; intros H; [done|].
  destruct (String.eqb_spec v k) as [->|]; [by destruct (H k ty); [apply list_elem_of_here|]|].
  apply IH. intros k' ty' Hin. eapply H. by apply list_elem_of_further.
Qed.

Lemma keyword_table_classified :
  Forall (fun p => classify_word p.1 = p.2) keyword_table.
Proof. by repeat constructor. Qed.

Lemma mnemonic_table_classified :
  Forall (fun p => table_lookup strcaseeq p.1 mnemonic_table = Some p.2) mnemonic_table.
Proof. by repeat constructor. Qed.

(** A word is read whole and classified by its spelling: if the text at the
    cursor is a word and no further word character follows, the token carries
    exactly that word, and its type is the keyword's for the language's keywords
    (case-sensitive), the mnemonic's or register's for x86 names in any case, and
    [TOKEN_IDENTIFIER] otherwise. *)
Theorem lexer_word lx c w :
  lexer_wf lx → text_at lx (c :: w) → isalpha c || (c =c "_") = true →
  forallb is_word_char w = true → char_is lx (S (length w)) is_word_char = false →
  let v := string_of_list_ascii (c :: w) in
  lexer_next_token lx =
    Some (mkToken (classify_word v) (Some v) (SV_source (position lx) (S (length w)))
            (line lx) (column lx) true, lexer_advance (S (length w)) lx) ∧
  (∀ k ty, (k, ty) ∈ keyword_table → v = k → classify_word v = ty) ∧
  (∀ k ty, (k, ty) ∈ mnemonic_table → strcaseeq v k = true →
     (∀ k' ty', (k', ty') ∈ keyword_table → v ≠ k') → classify_word v = ty).
Proof.
  intros Hwf Ht Hc Hall Hend v. split; [|split].
  - destruct (word_start_dispatch lx (token_init TOKEN_EOF (line lx) (column lx)) c Hc) as [Hsp Hd].
    pose proof Ht as [Hc0 _]%text_at_cons.
    rewrite (next_token_dispatch _ _ _ _ Hc0 Hsp Hd).
    assert (is_word_char c = true) as Hwc.
    { unfold is_word_char, isalnum. destruct (isalpha c); [done|]. by destruct (isdigit c). }
    unfold lexer_lex_identifier_or_keyword.
    rewrite (scan_while_text is_word_char lx (c :: w)) by (simpl; rewrite ?Hwc; done).
    simpl. replace (position lx + S (length w) - position lx) with (S (length w)) by lia.
    replace (slice (source lx) (position lx) (S (length w))) with v; [done|].
    symmetry. rewrite <- (slice_spelled lx v).
    + unfold v. simpl. by rewrite length_string_of_list.
    + intros i d. unfold v. rewrite String.list_ascii_of_string_of_list_ascii. apply Ht.
  - intros k ty Hin ->. pose proof keyword_table_classified as Hf.
    rewrite Forall_forall in Hf. exact (Hf (k, ty) Hin).
  - intros k ty Hin Hcase Hnot. unfold classify_word.
    rewrite (table_lookup_none _ _ Hnot), (table_lookup_case _ _ _ Hcase).
    pose proof mnemonic_table_classified as Hf.
    rewrite Forall_forall in Hf. specialize (Hf (k, ty) Hin). cbn [fst snd] in Hf. by rewrite Hf.
Qed.

(** Printing a string as a literal, the inverse of [lexer_lex_string_literal]. *)
Definition print_escape (c : ascii) : list ascii :=
  if c =c "010" then ["\"; "n"]%char
  else if c =c "009" then ["\"; "t"]%char
  else if c =c "013" then ["\"; "r"]%char
  else if c =c "\" then ["\"; "\"]%char
  else if c =c "034" then ["\"; "034"]%char
  else if c =c "000" then ["\"; "0"]%char
  else [c].
Definition print_body (s : list ascii) : list ascii := flat_map print_escape s.
Definition print_string (s : list ascii) : list ascii :=
  "034"%char :: print_body s ++ ["034"%char].

Lemma print_escape_cases c :
  (print_escape c = [c] ∧ (c =c "034") = false ∧ (c =c "\") = false) ∨
  (∃ e, print_escape c = ["\"%char; e] ∧ string_escape e = [c]).
Proof.
  unfold print_escape.
  repeat match goal with
    | |- context [if c =c ?d then _ else _] =>
        destruct (Ascii.eqb_spec c d) as [->|?]; [right; eexists; split; reflexivity|]
    end.
  by left.
Qed.

Lemma string_loop_escape f buffer lx c :
  text_at lx (print_escape c) →
  string_loop (S f) buffer lx =
  string_loop f (buffer ++ [c]) (lexer_advance (length (print_escape c)) lx).
Proof.
  destruct (print_escape_cases c) as [(-> & Hq & Hb)|(e & -> & <-)].
  - intros [H0 _]%text_at_cons. simpl. by rewrite H0, Hq, Hb.
  - intros [H0 [H1 _]%text_at_cons]%text_at_cons. rewrite char_at_advance in H1.
    change (1 + 0) with 1 in H1. cbn [string_loop]. rewrite H0. cbn. rewrite H1.
    by rewrite lexer_advance_plus.
Qed.

Lemma string_loop_print s f buffer lx :
  text_at lx (print_body s ++ ["034"%char]) → length s < f →
  string_loop f buffer lx = (buffer ++ s, lexer_advance (length (print_body s)) lx).
Proof.
  revert f buffer lx. induction s as [|c s IH]; intros f buffer lx Ht Hf;
    (destruct f as [|f]; [simpl in Hf; lia|]).
  - apply text_at_cons in Ht as [H0 _]. simpl. rewrite H0. simpl.
    by rewrite app_nil_r, lexer_advance_0.
  - unfold print_body in Ht. simpl in Ht. fold (print_body s) in Ht.
    rewrite <- app_assoc in Ht. apply text_at_app in Ht as [Hc Ht].
    rewrite (string_loop_escape f buffer lx c Hc), IH; [|done|simpl in Hf; lia].
    rewrite <- app_assoc, lexer_advance_plus. do 2 f_equal.
    unfold print_body. simpl. by rewrite length_app.
Qed.

Lemma length_print_body s : length s ≤ length (print_body s).
Proof.
  induction s as [|c s IH]; simpl; [done|]. rewrite length_app.
  assert (1 ≤ length (print_escape c)) by (unfold print_escape; repeat case_match; simpl; lia).
  lia.
Qed.

(** C32. String literals round-trip: for every string of bytes, the scanner reads
    its printed literal back as one string token whose value is the string, and
    stops right after the closing quote. *)
Theorem lexer_string_roundtrip lx s :
  lexer_wf lx → text_at lx (print_string s) →
  lexer_next_token lx =
    Some (mkToken TOKEN_STRING (Some (string_of_list_ascii s)) (SV_value (length s))
            (line lx) (column lx) false,
          lexer_advance (length (print_string s)) lx).
Proof.
  intros Hwf Ht. pose proof Ht as [H0 Hb]%text_at_cons.
  apply (next_token_dispatch _ "034"%char); [done..|].
  change (lexer_dispatch _ _ lx) with
    (let '(t, lx) := lexer_lex_string_literal lx in Yield t lx).
  pose proof (text_at_bound _ _ Ht ltac:(done)) as Hlen.
  pose proof (length_print_body s). unfold print_string in *. simpl in Hlen.
  rewrite length_app in Hlen. simpl in Hlen.
  unfold lexer_lex_string_literal. rewrite (string_loop_print s); [|done|].
  - simpl. destruct (Nat.leb_spec (src_length lx) (position lx + 1 + length (print_body s)));
      [lia|]. rewrite !lexer_advance_plus. simpl. rewrite length_app. done.
  - rewrite remaining_advance. unfold remaining. lia.
Qed.

(** The buffer of [lexer_lex_string_literal] never overflows: it holds at most as
    many characters as the scanner has consumed. *)
Lemma string_loop_buffer_bound f buffer lx :
  let r := string_loop f buffer lx in
  length r.1 + position lx ≤ length buffer + position r.2.
Proof.
  revert buffer lx. induction f as [|f IH]; intros buffer lx; simpl; [lia|].
  destruct (char_at lx 0) as [c|]; [|simpl; lia]. destruct (c =c "034"); [simpl; lia|].
  case_match eqn:He.
  - specialize (IH (buffer ++ string_escape a) (lexer_advance 1 (lexer_advance 1 lx))).
    simpl in IH. rewrite length_app in IH.
    assert (length (string_escape a) ≤ 2) by (unfold string_escape; repeat case_match; simpl; lia).
    lia.
  - specialize (IH (buffer ++ [c]) (lexer_advance 1 lx)).
    simpl in IH. rewrite length_app in IH. simpl in IH. lia.
Qed.

(** ** Examples *)

(** [fn "a\n"] followed by a comment and a second line. *)
Definition example_text : list ascii :=
  list_ascii_of_string "fn " ++ print_string ["a"; "010"]%char ++ list_ascii_of_string "// c" ++
  ["010"; "x"]%char.
Definition example_lexer : Lexer := lexer_create example_text.

Lemma lexer_next_token_total_witness :
  ∃ t lx', lexer_next_token example_lexer = Some (t, lx') ∧ lexer_wf lx' ∧ position lx' = 2.
Proof.
  destruct (lexer_next_token_total example_lexer (lexer_create_wf _)) as (t & lx' & H & Hwf & _).
  exists t, lx'. split; [exact H|]. split; [exact Hwf|]. vm_compute in H. by simplify_eq.
Defined.

Lemma lexer_token_faithful_witness :
  ∃ t lx', lexer_next_token example_lexer = Some (t, lx') ∧
    ∃ start len, lexeme t = SV_source start len ∧ start + len = position lx'.
Proof.
  eexists _, _. split; [vm_compute; reflexivity|].
  edestruct (lexer_token_faithful example_lexer) as (start & len & H1 & _ & _ & H2 & _);
    [apply lexer_create_wf|vm_compute; reflexivity|discriminate..|].
  by exists start, len.
Defined.

Lemma lexer_location_exact_witness :
  ∃ t lx', lexer_next_token example_lexer = Some (t, lx') ∧ located lx'.
Proof.
  eexists _, _. split; [vm_compute; reflexivity|].
  destruct (lexer_location_exact []) as [_ H]. edestruct (H example_lexer) as [H1 _];
    [apply lexer_create_wf|apply lexer_create_located|vm_compute; reflexivity|].
  by apply H1.
Defined.

Lemma lexer_bracket_depth_witness :
  ∃ t lx', lexer_next_token (lexer_create ["("; "010"]%char) = Some (t, lx') ∧
    continuation_depth lx' = 1.
Proof.
  eexists _, _. split; [vm_compute; reflexivity|].
  edestruct (lexer_bracket_depth (lexer_create ["("; "010"]%char)) as [H _];
    [apply lexer_create_wf|vm_compute; reflexivity|].
  by rewrite H.
Defined.

(** The text at the cursor, checked character by character. *)
Definition text_atb (lx : Lexer) (l : list ascii) : bool :=
  bool_decide (map (char_at lx) (seq 0 (length l)) = map Some l).

Lemma text_atb_spec lx l : text_atb lx l = true → text_at lx l.
Proof.
  intros H%bool_decide_eq_true i c Hi.
  assert (map (char_at lx) (seq 0 (length l)) !! i = Some (Some c)) as Hm
    by (rewrite H; by apply list_lookup_fmap_Some_2).
  apply list_lookup_fmap_Some in Hm as (j & Hc & [-> _]%lookup_seq). by symmetry.
Qed.

Lemma lexer_word_witness :
  lexer_next_token example_lexer =
    Some (mkToken (classify_word "fn") (Some "fn"%string) (SV_source 0 2) 1 1 true,
      lexer_advance 2 example_lexer) ∧ classify_word "fn" = TOKEN_FN.
Proof.
  destruct (lexer_word example_lexer "f" ["n"]%char) as (H & _ & _).
  - apply lexer_create_wf.
  - apply text_atb_spec. vm_compute. reflexivity.
  - reflexivity.
  - reflexivity.
  - vm_compute. reflexivity.
  - split; [exact H|reflexivity].
Defined.

Lemma lexer_string_roundtrip_witness :
  ∃ lx', lexer_next_token (lexer_advance 3 example_lexer) =
    Some (mkToken TOKEN_STRING (Some (string_of_list_ascii ["a"; "010"]%char)) (SV_value 2) 1 4 false, lx').
Proof.
  eexists. apply (lexer_string_roundtrip (lexer_advance 3 example_lexer) ["a"; "010"]%char).
  - split; vm_compute; lia.
  - apply text_atb_spec. vm_compute. reflexivity.
Defined.
