(* ===== verification/IR.v ===== *)
(** * The intermediate representation: src/src/ir/ir.h, ir.c and the helpers of
    ir_optimize.c that read or rewrite one instruction.

    A function's code is the list of its instructions; passes rewrite it in
    place.  Names are strings and never null for the operands that carry one; a
    null [text] is [None]. *)

From Stdlib Require Export SpecFloat.
From S2P Require Import Prelude.

(** ** Data *)

(** Operands.  [bits] is the IEEE-754 width tag, 0 when unspecified. *)
Inductive IROperand : Type :=
  | IR_OPERAND_NONE
  | IR_OPERAND_TEMP (name : string) (bits : Z)
  | IR_OPERAND_SYMBOL (name : string) (bits : Z)
  | IR_OPERAND_INT (value : Z)
  | IR_OPERAND_FLOAT (value : spec_float) (bits : Z)
  | IR_OPERAND_STRING (name : string)
  | IR_OPERAND_LABEL (name : string).

Inductive IROpcode : Type :=
  | IR_OP_NOP | IR_OP_LABEL | IR_OP_JUMP | IR_OP_BRANCH_ZERO | IR_OP_BRANCH_EQ
  | IR_OP_DECLARE_LOCAL | IR_OP_ASSIGN | IR_OP_ADDRESS_OF | IR_OP_LOAD | IR_OP_STORE
  | IR_OP_BINARY | IR_OP_UNARY | IR_OP_ROTATE_ADD | IR_OP_CALL | IR_OP_CALL_INDIRECT
  | IR_OP_NEW | IR_OP_RETURN | IR_OP_INLINE_ASM | IR_OP_CAST | IR_OP_COUNT_WORD_STARTS
  | IR_OP_MEMCPY_INLINE | IR_OP_SIMD_SUM_I32 | IR_OP_SIMD_MATMUL_N32
  | IR_OP_SIMD_INSERTION_SORT_I32 | IR_OP_SIMD_DOT_I32 | IR_OP_SIMD_SCALE_I32
  | IR_OP_SIMD_CLAMP_I32 | IR_OP_SIMD_REVERSE_COPY_I32 | IR_OP_LOWER_BOUND_I32
  | IR_OP_PREFIX_SUM_I32 | IR_OP_SIMD_MINMAX_I32.

#[export] Instance spec_float_eq_dec : EqDecision spec_float.
Proof. solve_decision. Defined.
#[export] Instance IROperand_eq_dec : EqDecision IROperand.
Proof. solve_decision. Defined.
#[export] Instance IROpcode_eq_dec : EqDecision IROpcode.
Proof. solve_decision. Defined.

Record IRInstruction : Type := mkInstruction {
  op : IROpcode;
  location : nat;
  dest : IROperand;
  lhs : IROperand;
  rhs : IROperand;
  text : option string;
  arguments : list IROperand;
  is_float : bool;
  float_bits : Z;
  ast_ref : option positive }.

Abbreviation code := (list IRInstruction).

(** An all-zero instruction, the C initialiser [{0}]. *)
Definition instruction_zero : IRInstruction :=
  mkInstruction IR_OP_NOP 0 IR_OPERAND_NONE IR_OPERAND_NONE IR_OPERAND_NONE None [] false 0 None.

(** Assignments to a field of an instruction. *)
Definition set_dest (d : IROperand) (i : IRInstruction) : IRInstruction :=
  mkInstruction (op i) (location i) d (lhs i) (rhs i) (text i) (arguments i) (is_float i)
    (float_bits i) (ast_ref i).
Definition set_lhs (x : IROperand) (i : IRInstruction) : IRInstruction :=
  mkInstruction (op i) (location i) (dest i) x (rhs i) (text i) (arguments i) (is_float i)
    (float_bits i) (ast_ref i).
Definition set_rhs (x : IROperand) (i : IRInstruction) : IRInstruction :=
  mkInstruction (op i) (location i) (dest i) (lhs i) x (text i) (arguments i) (is_float i)
    (float_bits i) (ast_ref i).
Definition set_text (t : option string) (i : IRInstruction) : IRInstruction :=
  mkInstruction (op i) (location i) (dest i) (lhs i) (rhs i) t (arguments i) (is_float i)
    (float_bits i) (ast_ref i).
Definition set_arguments (l : list IROperand) (i : IRInstruction) : IRInstruction :=
  mkInstruction (op i) (location i) (dest i) (lhs i) (rhs i) (text i) l (is_float i)
    (float_bits i) (ast_ref i).

(** ** Operands *)

Definition operand_name (x : IROperand) : option string :=
  match x with
  | IR_OPERAND_TEMP n _ | IR_OPERAND_SYMBOL n _ | IR_OPERAND_STRING n | IR_OPERAND_LABEL n => Some n
  | _ => None
  end.

Definition ir_operand_float_sized (v : spec_float) (bits : Z) : IROperand :=
  IR_OPERAND_FLOAT v (if (bits =? 32)%Z then 32 else 64).

Definition ir_operand_copy (x : IROperand) : IROperand :=
  match x with
  | IR_OPERAND_FLOAT v bits => ir_operand_float_sized v bits
  | _ => x
  end.

(** Floating operands compare by value and width class. *)
Definition ir_operand_equals (l r : IROperand) : bool :=
  match l, r with
  | IR_OPERAND_NONE, IR_OPERAND_NONE => true
  | IR_OPERAND_INT a, IR_OPERAND_INT b => (a =? b)%Z
  | IR_OPERAND_FLOAT a ba, IR_OPERAND_FLOAT b bb =>
      SFeqb a b && Bool.eqb (ba =? 32)%Z (bb =? 32)%Z
  | IR_OPERAND_TEMP a _, IR_OPERAND_TEMP b _ => String.eqb a b
  | IR_OPERAND_SYMBOL a _, IR_OPERAND_SYMBOL b _ => String.eqb a b
  | IR_OPERAND_STRING a, IR_OPERAND_STRING b => String.eqb a b
  | IR_OPERAND_LABEL a, IR_OPERAND_LABEL b => String.eqb a b
  | _, _ => false
  end.

Definition is_int (v : Z) (x : IROperand) : bool :=
  match x with IR_OPERAND_INT a => (a =? v)%Z | _ => false end.
Definition int_value (x : IROperand) : option Z :=
  match x with IR_OPERAND_INT a => Some a | _ => None end.
Definition temp_name (x : IROperand) : option string :=
  match x with IR_OPERAND_TEMP n _ => Some n | _ => None end.
Definition symbol_name (x : IROperand) : option string :=
  match x with IR_OPERAND_SYMBOL n _ => Some n | _ => None end.

Definition ir_operand_is_propagatable_value (x : IROperand) : bool :=
  match x with IR_OPERAND_NONE => false | _ => true end.

(** ** What an instruction writes *)

(** Opcodes that write a scalar destination. *)
Definition writes_scalar (o : IROpcode) : bool :=
  match o with
  | IR_OP_ASSIGN | IR_OP_ADDRESS_OF | IR_OP_LOAD | IR_OP_BINARY | IR_OP_UNARY | IR_OP_ROTATE_ADD
  | IR_OP_CALL | IR_OP_CALL_INDIRECT | IR_OP_NEW | IR_OP_CAST => true
  | _ => false
  end.

(** Opcodes of the fused loops and block copies. *)
Definition is_kernel (o : IROpcode) : bool :=
  match o with
  | IR_OP_COUNT_WORD_STARTS | IR_OP_MEMCPY_INLINE | IR_OP_SIMD_SUM_I32 | IR_OP_SIMD_MATMUL_N32
  | IR_OP_SIMD_INSERTION_SORT_I32 | IR_OP_SIMD_DOT_I32 | IR_OP_SIMD_SCALE_I32
  | IR_OP_SIMD_CLAMP_I32 | IR_OP_SIMD_REVERSE_COPY_I32 | IR_OP_LOWER_BOUND_I32
  | IR_OP_PREFIX_SUM_I32 | IR_OP_SIMD_MINMAX_I32 => true
  | _ => false
  end.

(** The temporary written, when [ir_instruction_writes_temp] answers 1. *)
Definition ir_instruction_writes_temp (i : IRInstruction) : option string :=
  if writes_scalar (op i) then temp_name (dest i) else None.

Definition ir_instruction_writes_symbol (i : IRInstruction) : option string :=
  if writes_scalar (op i) || is_kernel (op i) then symbol_name (dest i) else None.

Definition ir_instruction_writes_destination (i : IRInstruction) : bool :=
  match dest i with
  | IR_OPERAND_NONE => false
  | _ => writes_scalar (op i) || is_kernel (op i)
  end.

Definition ir_instruction_is_trivially_dead_if_dest_unused (i : IRInstruction) : bool :=
  match op i with
  | IR_OP_ASSIGN | IR_OP_ADDRESS_OF | IR_OP_BINARY | IR_OP_UNARY | IR_OP_CAST => true
  | _ => false
  end.

(** ** Rewriting one instruction *)

Definition ir_instruction_make_nop (i : IRInstruction) : IRInstruction :=
  mkInstruction IR_OP_NOP (location i) IR_OPERAND_NONE IR_OPERAND_NONE IR_OPERAND_NONE None [] false
    (float_bits i) None.

(** The target stays in [text]. *)
Definition ir_instruction_make_jump (i : IRInstruction) : IRInstruction :=
  mkInstruction IR_OP_JUMP (location i) IR_OPERAND_NONE IR_OPERAND_NONE IR_OPERAND_NONE (text i) []
    false (float_bits i) None.

Definition ir_rewrite_to_assign_operand (i : IRInstruction) (value : IROperand) : IRInstruction :=
  match value with
  | IR_OPERAND_FLOAT _ bits =>
      mkInstruction IR_OP_ASSIGN (location i) (dest i) value IR_OPERAND_NONE None [] true
        (if (bits =? 32)%Z then 32 else 64) None
  | _ =>
      mkInstruction IR_OP_ASSIGN (location i) (dest i) value IR_OPERAND_NONE None [] false
        (float_bits i) None
  end.

Definition ir_rewrite_to_assign_int (i : IRInstruction) (value : Z) : IRInstruction :=
  ir_rewrite_to_assign_operand i (IR_OPERAND_INT value).

(** ** Code *)

Fixpoint find_index (p : IRInstruction → bool) (c : code) : option nat :=
  match c with
  | [] => None
  | i :: c' => if p i then Some 0 else S <$> find_index p c'
  end.

Definition is_label (l : string) (i : IRInstruction) : bool :=
  match op i, text i with
  | IR_OP_LABEL, Some t => String.eqb t l
  | _, _ => false
  end.

Definition ir_find_label_index (c : code) (l : string) : option nat := find_index (is_label l) c.

Definition is_nop (i : IRInstruction) : bool := bool_decide (op i = IR_OP_NOP).
Definition is_branch (i : IRInstruction) : bool :=
  match op i with IR_OP_BRANCH_ZERO | IR_OP_BRANCH_EQ => true | _ => false end.

(** The first instruction from [start] on that is no [IR_OP_NOP]. *)
Definition ir_find_next_non_nop (c : code) (start : nat) : option nat :=
  Nat.add start <$> find_index (λ i, negb (is_nop i)) (drop start c).

Definition ir_find_next_non_nop_in_block (c : code) (start : nat) : option nat :=
  j ← ir_find_next_non_nop c start;
  i ← c !! j;
  if decide (op i = IR_OP_LABEL) then None else Some j.
