(* ===== verification/IRSemantics.v ===== *)
(** * Meaning of the intermediate representation

    The reference semantics against which the optimizer's passes are proved: a
    machine with 64-bit cells for temporaries and symbols, a program counter, and
    the control flow of labels, jumps and branches.  What the integer operators,
    assignments and control instructions do is fixed here; floating point, casts,
    addresses, memory, calls and the fused kernels are the members of the class
    [Machine], about which the theorems assume nothing beyond what they state. *)

From stdpp Require Import gmap.
From S2P Require Import Prelude IR.

(** Temporaries and symbols hold 64-bit patterns; [memory] is everything else. *)
Record mstate (W : Type) : Type := mkState {
  temps : gmap string Z;
  syms : gmap string Z;
  memory : W }.
Arguments mkState {W}.
Arguments temps {W}.
Arguments syms {W}.
Arguments memory {W}.

Class Machine : Type := {
  world : Type;
  float_pattern : spec_float → Z → Z;              (* value, width *)
  string_address : string → Z;
  label_address : string → Z;
  symbol_address : string → Z;
  narrow : string → Z → Z;                         (* what storing to a symbol keeps *)
  float_binary : string → Z → Z → Z → option Z;    (* operator, width, operands *)
  other_unary : string → bool → Z → Z → option Z;  (* operator, is_float, width, operand *)
  cast : string → bool → Z → Z → option Z;         (* type, is_float, width, operand *)
  external : IRInstruction → mstate world → option (mstate world) }.

(** ** Integer operators *)

Definition truth (b : bool) : Z := if b then 1%Z else 0%Z.

(** Signed 64-bit arithmetic; [None] where the machine traps or the shift count
    is out of range. *)
Definition binary_table : list (string * (Z → Z → option Z)) :=
  let value (f : Z → Z → Z) := λ a b, Some (s64 (f a b)) in
  let test (f : Z → Z → bool) := λ a b, Some (truth (f a b)) in
  let quotient (f : Z → Z → Z) := λ a b,
    if (b =? 0)%Z || ((a =? - 2 ^ 63)%Z && (b =? -1)%Z) then None else Some (f a b) in
  let shift (f : Z → Z → Z) := λ a b,
    if (b <? 0)%Z || (64 <=? b)%Z then None else Some (s64 (f a b)) in
  [("+", value Z.add); ("-", value Z.sub); ("*", value Z.mul);
   ("/", quotient Z.quot); ("%", quotient Z.rem);
   ("==", test Z.eqb); ("!=", test (λ a b, negb (Z.eqb a b)));
   ("<", test Z.ltb); ("<=", test Z.leb); (">", test Z.gtb); (">=", test Z.geb);
   ("&&", test (λ a b, negb (Z.eqb a 0) && negb (Z.eqb b 0)));
   ("||", test (λ a b, negb (Z.eqb a 0) || negb (Z.eqb b 0)));
   ("&", value Z.land); ("|", value Z.lor); ("^", value Z.lxor);
   ("<<", shift (λ a b, a * 2 ^ b)%Z); (">>", shift (λ a b, a / 2 ^ b)%Z)]%string.

Fixpoint assoc {A} (k : string) (l : list (string * A)) : option A :=
  match l with
  | [] => None
  | (k', v) :: l' => if String.eqb k k' then Some v else assoc k l'
  end.

Definition int_binary (o : string) (a b : Z) : option Z :=
  f ← assoc o binary_table; f a b.

Definition int_unary (o : string) (a : Z) : option Z :=
  f ← assoc o [("+", λ a, a); ("-", λ a, s64 (- a)); ("!", λ a, truth (a =? 0)%Z);
               ("~", λ a, Z.lnot a)]%string;
  Some (f a).

(** ** One instruction *)

Section machine.
Context {M : Machine}.

Abbreviation state := (mstate world).

(** An unspecified width is that of a double. *)
Definition width (bits : Z) : Z := if (bits =? 32)%Z then 32 else 64.

(** Reading a cell gives its low 64 bits. *)
Definition eval (st : state) (x : IROperand) : option Z :=
  match x with
  | IR_OPERAND_NONE => None
  | IR_OPERAND_TEMP n _ => s64 <$> temps st !! n
  | IR_OPERAND_SYMBOL n _ => s64 <$> syms st !! n
  | IR_OPERAND_INT v => Some (s64 v)
  | IR_OPERAND_FLOAT v bits => Some (s64 (float_pattern v (width bits)))
  | IR_OPERAND_STRING s => Some (s64 (string_address s))
  | IR_OPERAND_LABEL l => Some (s64 (label_address l))
  end.

Definition write_temp (n : string) (v : Z) (st : state) : state :=
  mkState (<[n:=s64 v]> (temps st)) (syms st) (memory st).
Definition write_sym (n : string) (v : Z) (st : state) : state :=
  mkState (temps st) (<[n:=narrow n (s64 v)]> (syms st)) (memory st).

Definition write (d : IROperand) (v : Z) (st : state) : option state :=
  match d with
  | IR_OPERAND_TEMP n _ => Some (write_temp n v st)
  | IR_OPERAND_SYMBOL n _ => Some (write_sym n v st)
  | _ => None
  end.

Definition binary (o : string) (float : bool) (bits : Z) (a b : Z) : option Z :=
  if float then float_binary o (width bits) a b else int_binary o a b.

Definition unary (o : string) (float : bool) (bits : Z) (a : Z) : option Z :=
  if float then other_unary o float (width bits) a
  else match int_unary o a with Some v => Some v | None => other_unary o float (width bits) a end.

(** The value of the right-hand side of an instruction that computes one. *)
Definition rhs_value (i : IRInstruction) (st : state) : option Z :=
  match op i, text i with
  | IR_OP_ASSIGN, _ => eval st (lhs i)
  | IR_OP_BINARY, Some o =>
      a ← eval st (lhs i); b ← eval st (rhs i); binary o (is_float i) (float_bits i) a b
  | IR_OP_UNARY, Some o => a ← eval st (lhs i); unary o (is_float i) (float_bits i) a
  | IR_OP_CAST, Some ty => a ← eval st (lhs i); cast ty (is_float i) (width (float_bits i)) a
  | IR_OP_ADDRESS_OF, _ =>
      match lhs i with IR_OPERAND_SYMBOL n _ => Some (symbol_address n) | _ => None end
  | _, _ => None
  end.

(** Unary [*] and [&] reach memory. *)
Definition computes (i : IRInstruction) : bool :=
  match op i with
  | IR_OP_ASSIGN | IR_OP_BINARY | IR_OP_CAST | IR_OP_ADDRESS_OF => true
  | IR_OP_UNARY =>
      match text i with
      | Some o => negb (String.eqb o "*") && negb (String.eqb o "&")
      | None => true
      end
  | _ => false
  end.

(** [IR_OP_ROTATE_ADD]: next = a + b; a = b; b = next. *)
Definition rotate_add (i : IRInstruction) (st : state) : option state :=
  a ← eval st (lhs i);
  b ← eval st (rhs i);
  let next := s64 (a + b) in
  st1 ← write (dest i) next st;
  st2 ← write (lhs i) b st1;
  write (rhs i) next st2.

Definition exec (i : IRInstruction) (st : state) : option state :=
  match op i with
  | IR_OP_NOP | IR_OP_LABEL => Some st
  | IR_OP_ROTATE_ADD => rotate_add i st
  | _ => if computes i then v ← rhs_value i st; write (dest i) v st else external i st
  end.

(** ** Programs *)

(** Where control goes after an instruction: the next one, a label, or out of the
    function with the value of a [IR_OP_RETURN]. *)
Inductive flow : Type :=
  | Next (st : state)
  | Goto (l : string)
  | Leave (v : option Z).

Definition branch_if (b : bool) (t : option string) (st : state) : option flow :=
  if b then Goto <$> t else Some (Next st).

Definition control (i : IRInstruction) (st : state) : option flow :=
  match op i with
  | IR_OP_JUMP => Goto <$> text i
  | IR_OP_BRANCH_ZERO => v ← eval st (lhs i); branch_if (v =? 0)%Z (text i) st
  | IR_OP_BRANCH_EQ =>
      a ← eval st (lhs i); b ← eval st (rhs i); branch_if (a =? b)%Z (text i) st
  | IR_OP_RETURN =>
      match lhs i with
      | IR_OPERAND_NONE => Some (Leave None)
      | x => v ← eval st x; Some (Leave (Some v))
      end
  | _ => Next <$> exec i st
  end.

Inductive config : Type :=
  | At (pc : nat) (st : state)
  | Halted (v : option Z) (st : state).

(** One step; [None] when the program goes wrong.  Running off the end returns. *)
Definition step (c : code) (k : config) : option config :=
  match k with
  | Halted v st => Some (Halted v st)
  | At pc st =>
      match c !! pc with
      | None => Some (Halted None st)
      | Some i =>
          f ← control i st;
          match f with
          | Next st' => Some (At (S pc) st')
          | Goto l => pc' ← ir_find_label_index c l; Some (At pc' st)
          | Leave v => Some (Halted v st)
          end
      end
  end.

Fixpoint run (fuel : nat) (c : code) (k : config) : option config :=
  match fuel with
  | O => Some k
  | S f => k' ← step c k; run f c k'
  end.

(** [k] reaches the end of the function in the state [st], returning [v]. *)
Definition halts (c : code) (k : config) (v : option Z) (st : state) : Prop :=
  ∃ fuel, run fuel c k = Some (Halted v st).

Definition start (st : state) : config := At 0 st.

(** ** Generic lemmas *)

Lemma run_halted c fuel v st : run fuel c (Halted v st) = Some (Halted v st).
Proof. induction fuel; simpl; auto. Qed.

Lemma run_add c n m k : run (n + m) c k = k' ← run n c k; run m c k'.
Proof.
  revert k. induction n as [|n IH]; intros k; simpl; [done|].
  destruct (step c k); simpl; [apply IH|done].
Qed.

Lemma halts_halted c v st v' st' : halts c (Halted v st) v' st' → v = v' ∧ st = st'.
Proof. intros [fuel Hf]. rewrite run_halted in Hf. by simplify_eq. Qed.

Lemma halts_step c k k' v st : step c k = Some k' → halts c k v st ↔ halts c k' v st.
Proof.
  intros Hs. split; intros [fuel Hf].
  - destruct fuel as [|fuel]; simpl in Hf.
    + simplify_eq. simpl in Hs. simplify_eq. by exists 0.
    + rewrite Hs in Hf. by exists fuel.
  - exists (S fuel). simpl. by rewrite Hs.
Qed.

Lemma halts_steps c n k k' v st : run n c k = Some k' → halts c k v st ↔ halts c k' v st.
Proof.
  revert k. induction n as [|n IH]; intros k; simpl; [by intros [= ->]|].
  destruct (step c k) as [k1|] eqn:Hs; simpl; [|done]. intros Hr.
  by rewrite (halts_step _ _ _ _ _ Hs), IH.
Qed.

Lemma halts_wrong c k v st : step c k = None → ¬ halts c k v st.
Proof.
  intros Hs [[|fuel] Hf]; simpl in Hf; [by simplify_eq|]. by rewrite Hs in Hf.
Qed.

Lemma run_safe c fuel k v st : run fuel c k = Some (Halted v st) → ∀ m, run m c k ≠ None.
Proof.
  intros Hf m Hm. destruct (Nat.le_gt_cases m fuel).
  - replace fuel with (m + (fuel - m)) in Hf by lia. by rewrite run_add, Hm in Hf.
  - replace m with (fuel + (m - fuel)) in Hm by lia. rewrite run_add, Hf in Hm. simpl in Hm.
    by rewrite run_halted in Hm.
Qed.

(** Forward simulation: if after every step of [c] some more steps of [c] lead where
    some steps of [c'] lead, then every halting run of [c] is one of [c'].  The
    invariant [I] is kept by [c]. *)
Lemma simulation_catch_up (I : config → Prop) c c' :
  (∀ k k', I k → step c k = Some k' → I k') →
  (∀ k k', I k → step c k = Some k' → (∀ m, run m c k' ≠ None) →
     ∃ m n k'', run m c k' = Some k'' ∧ run n c' k = Some k'') →
  ∀ k v st, I k → halts c k v st → halts c' k v st.
Proof.
  intros Hinv Hsim k v st Hk [fuel Hf].
  assert (∀ m k k', I k → run m c k = Some k' → I k') as Hinvs.
  { induction m as [|m IH]; intros k1 k2 H1 Hr; simpl in Hr; [by simplify_eq|].
    destruct (step c k1) as [k3|] eqn:Hs; [|done]. eapply IH; [|exact Hr]. by eapply Hinv. }
  revert k Hk Hf. induction fuel as [fuel IH] using lt_wf_ind. intros k Hk Hf.
  destruct fuel as [|fuel]; simpl in Hf; [by exists 0; simplify_eq|].
  destruct (step c k) as [k1|] eqn:Hs; simpl in Hf; [|done].
  destruct (Hsim _ _ Hk Hs) as (m & n & k2 & Hm & Hn); [by eapply run_safe|].
  rewrite (halts_steps _ _ _ _ _ _ Hn).
  destruct (Nat.le_gt_cases m fuel) as [Hle|Hgt].
  - replace fuel with (m + (fuel - m)) in Hf by lia. rewrite run_add, Hm in Hf. simpl in Hf.
    apply (IH (fuel - m)); [lia| |done]. eapply Hinvs; [|exact Hm]. by eapply Hinv.
  - replace m with (fuel + (m - fuel)) in Hm by lia. rewrite run_add, Hf in Hm. simpl in Hm.
    rewrite run_halted in Hm. simplify_eq. by exists 0.
Qed.

Lemma simulation (I : config → Prop) c c' :
  (∀ k k', I k → step c k = Some k' → I k') →
  (∀ k k', I k → step c k = Some k' → ∃ n, run n c' k = Some k') →
  ∀ k v st, I k → halts c k v st → halts c' k v st.
Proof.
  intros Hinv Hsim. apply simulation_catch_up; [done|]. intros k k' Hk Hs _.
  destruct (Hsim k k' Hk Hs) as [n Hn]. by exists 0, n, k'.
Qed.

Lemma simulation_top c c' :
  (∀ k k', step c k = Some k' → ∃ n, run n c' k = Some k') →
  ∀ k v st, halts c k v st → halts c' k v st.
Proof. intros Hsim k v st. apply (simulation (λ _, True)); auto. Qed.

(** ** Well-formed states *)

(** Cells hold signed 64-bit numbers, and symbols what their type keeps. *)
Record state_ok (st : state) : Prop := {
  ok_temps : map_Forall (λ _, in_s64) (temps st);
  ok_syms : map_Forall (λ n v, in_s64 v ∧ narrow n v = v) (syms st) }.

Definition config_ok (k : config) : Prop :=
  match k with At _ st => state_ok st | Halted _ st => state_ok st end.

(** What the machine guarantees: stores narrow once, and the instructions it
    interprets keep states well formed. *)
Class MachineLaws : Prop := {
  narrow_range : ∀ n v, in_s64 (narrow n v);
  narrow_idem : ∀ n v, narrow n (narrow n v) = narrow n v;
  external_ok : ∀ i st st', state_ok st → external i st = Some st' → state_ok st' }.

Section laws.
Context {L : MachineLaws}.

Lemma write_ok d v st st' : state_ok st → write d v st = Some st' → state_ok st'.
Proof.
  intros [Ht Hs] Hw. destruct d; simplify_eq/=; split; simpl; try done.
  - apply map_Forall_insert_2; [|done]. apply s64_range.
  - apply map_Forall_insert_2; [|done]. split; [apply narrow_range|apply narrow_idem].
Qed.

Lemma exec_ok i st st' : state_ok st → exec i st = Some st' → state_ok st'.
Proof.
  intros Hok Hx. unfold exec in Hx.
  assert (∀ st', (if computes i then v ← rhs_value i st; write (dest i) v st else external i st)
    = Some st' → state_ok st') as Hgen.
  { intros st1. destruct (computes i); [|by apply external_ok].
    intros (v & _ & Hw)%bind_Some. by eapply write_ok. }
  destruct (op i); simplify_eq; try done; try (by apply Hgen).
  unfold rotate_add in Hx. apply bind_Some in Hx as (a & _ & Hx).
  apply bind_Some in Hx as (b & _ & Hx). apply bind_Some in Hx as (st1 & H1 & Hx).
  apply bind_Some in Hx as (st2 & H2 & Hx).
  eapply write_ok, Hx. eapply write_ok, H2. by eapply write_ok.
Qed.

Lemma control_ok i st st' : state_ok st → control i st = Some (Next st') → state_ok st'.
Proof.
  intros Hok Hc. unfold control in Hc.
  assert (∀ b, branch_if b (text i) st = Some (Next st') → st' = st) as Hb.
  { intros [] H; unfold branch_if in H; [|by simplify_eq].
    by apply fmap_Some in H as (? & _ & ?). }
  destruct (op i); try (apply fmap_Some in Hc as (x & Hx & Heq); simplify_eq; by eapply exec_ok).
  - apply bind_Some in Hc as (v & _ & Hc). by apply Hb in Hc as ->.
  - apply bind_Some in Hc as (v & _ & Hc). apply bind_Some in Hc as (w & _ & Hc).
    by apply Hb in Hc as ->.
  - destruct (lhs i); simplify_eq; by apply bind_Some in Hc as (? & _ & ?).
Qed.

Lemma step_ok c k k' : config_ok k → step c k = Some k' → config_ok k'.
Proof.
  destruct k as [pc st|v st]; simpl; [|by intros ? [= <-]].
  intros Hok. destruct (c !! pc) as [i|]; [|by intros [= <-]].
  intros (f & Hf & Hk)%bind_Some. destruct f as [st'|l|v]; simplify_eq; simpl; [|..|done].
  - by eapply control_ok.
  - by apply bind_Some in Hk as (pc' & _ & [= <-]).
Qed.

Lemma computes_scalar i : computes i = true → writes_scalar (op i) = true.
Proof. unfold computes. by destruct (op i). Qed.

(** Programs related instruction by instruction. *)
Lemma lockstep c c' :
  Forall2 (λ i i', (op i = IR_OP_LABEL ∨ op i' = IR_OP_LABEL → i = i') ∧
    ∀ st f, state_ok st → control i st = Some f → control i' st = Some f) c c' →
  ∀ k v st, config_ok k → halts c k v st → halts c' k v st.
Proof.
  intros Hall.
  assert (∀ l, ir_find_label_index c' l = ir_find_label_index c l) as Hl.
  { intros l. unfold ir_find_label_index.
    induction Hall as [|i i' c c' [Hlab _] _ IH]; simpl; [done|].
    assert (is_label l i' = is_label l i) as ->.
    { unfold is_label. destruct (decide (op i = IR_OP_LABEL ∨ op i' = IR_OP_LABEL)) as [H|H].
      - by rewrite (Hlab H).
      - destruct (op i), (op i'); try done; destruct H; auto. }
    by rewrite IH. }
  apply simulation; [apply step_ok|]. intros k k' Hk Hs. exists 1. simpl.
  destruct k as [pc st|v st]; simpl in *; [|by simplify_eq].
  destruct (c !! pc) as [i|] eqn:Hi.
  - destruct (Forall2_lookup_l _ _ _ _ _ Hall Hi) as (i' & -> & _ & Hc).
    destruct (control i st) as [f|] eqn:Hf; [|done]. rewrite (Hc _ _ Hk Hf). simpl in *.
    destruct f; [by simplify_eq..| |by simplify_eq].
    rewrite Hl. by destruct (ir_find_label_index c l); simplify_eq/=.
  - rewrite lookup_ge_None, (Forall2_length _ _ _ Hall), <- lookup_ge_None in Hi.
    rewrite Hi. by simplify_eq.
Qed.
End laws.
End machine.

Arguments config {M}.
Arguments flow {M}.
Arguments MachineLaws M : clear implicits.

(** ** A concrete machine

    Memory is the list of the instructions' locations that reached it; the symbol
    [byte] keeps 8 bits; an external instruction answers 0. *)

#[export] Instance toy_machine : Machine := {|
  world := list nat;
  float_pattern _ _ := 0%Z;
  string_address _ := 0%Z;
  label_address _ := 0%Z;
  symbol_address _ := 4096%Z;
  narrow n v := if String.eqb n "byte" then wrap_s 8 v else s64 v;
  float_binary _ _ _ _ := None;
  other_unary _ _ _ _ := None;
  cast _ _ _ v := Some v;
  external i st :=
    let m := if bool_decide (op i = IR_OP_UNARY) then memory st else location i :: memory st in
    Some (match ir_instruction_writes_temp i, ir_instruction_writes_symbol i with
          | Some n, _ => mkState (<[n:=0%Z]> (temps st)) (syms st) m
          | None, Some n => mkState (temps st) (<[n:=0%Z]> (syms st)) m
          | None, None => mkState (temps st) (syms st) m
          end) |}.

#[export] Instance toy_machine_laws : MachineLaws toy_machine.
Proof.
  split.
  - intros n v. simpl. case_match; [|apply s64_range].
    pose proof (wrap_s_range 8 v ltac:(lia)). unfold in_s64. simpl in *. lia.
  - intros n v. simpl. case_match.
    + apply wrap_s_id; [lia|]. apply wrap_s_range. lia.
    + apply s64_in, s64_range.
  - intros i st st' [Ht Hs] [= <-]. destruct (ir_instruction_writes_temp i), (ir_instruction_writes_symbol i);
      split; simpl; try done; (apply map_Forall_insert_2; [|done]); try (by unfold in_s64);
      (split; [by unfold in_s64|by case_match]).
Qed.

Definition toy_start : mstate (@world toy_machine) := mkState ∅ ∅ [].

Lemma toy_start_ok : state_ok toy_start.
Proof. split; apply map_Forall_empty. Qed.

(** Shorthands for writing programs. *)
Definition temp (n : string) : IROperand := IR_OPERAND_TEMP n 0.
Definition sym (n : string) : IROperand := IR_OPERAND_SYMBOL n 0.
Definition int (v : Z) : IROperand := IR_OPERAND_INT v.
Definition instr (o : IROpcode) (d l r : IROperand) (t : option string) : IRInstruction :=
  mkInstruction o 0 d l r t [] false 0 None.
Definition i_assign (d x : IROperand) : IRInstruction := instr IR_OP_ASSIGN d x IR_OPERAND_NONE None.
Definition i_binary (d l : IROperand) (o : string) (r : IROperand) : IRInstruction :=
  instr IR_OP_BINARY d l r (Some o).
Definition i_label (l : string) : IRInstruction :=
  instr IR_OP_LABEL IR_OPERAND_NONE IR_OPERAND_NONE IR_OPERAND_NONE (Some l).
Definition i_jump (l : string) : IRInstruction :=
  instr IR_OP_JUMP IR_OPERAND_NONE IR_OPERAND_NONE IR_OPERAND_NONE (Some l).
Definition i_branch_zero (x : IROperand) (l : string) : IRInstruction :=
  instr IR_OP_BRANCH_ZERO IR_OPERAND_NONE x IR_OPERAND_NONE (Some l).
Definition i_return (x : IROperand) : IRInstruction :=
  instr IR_OP_RETURN IR_OPERAND_NONE x IR_OPERAND_NONE None.

(** What a program returns, run for a number of steps on the concrete machine. *)
Definition returns (fuel : nat) (c : code) : option (option Z) :=
  match run fuel c (start toy_start) with
  | Some (Halted v _) => Some v
  | _ => None
  end.

Lemma returns_halts fuel c v : returns fuel c = Some v → ∃ st, halts c (start toy_start) v st.
Proof.
  unfold returns. destruct (run fuel c (start toy_start)) as [[|v' st]|] eqn:Hr; try done.
  intros [= ->]. by exists st, fuel.
Qed.
