(* ===== verification/Fold.v ===== *)
(** * Constant folding and algebraic simplification: src/src/ir/ir_optimize.c,
    [ir_try_evaluate_integer_binary] to [ir_constant_and_branch_simplify_pass].

    Each rewrite returns the instruction and whether it set [*changed]. *)

From S2P Require Import Prelude IR.

Definition LLONG_MIN : Z := - 2 ^ 63.

(** [(folded, result)]; [result] is left at 0 when nothing is folded. *)
Definition ir_try_evaluate_integer_binary (o : string) (l r : Z) : option Z :=
  let is_op := String.eqb o in
  if is_op "+" then Some (s64 (u64 (u64 l + u64 r)))
  else if is_op "-" then Some (s64 (u64 (u64 l - u64 r)))
  else if is_op "*" then Some (s64 (u64 (u64 l * u64 r)))
  else if is_op "/" then
    if (r =? 0)%Z || ((l =? LLONG_MIN)%Z && (r =? -1)%Z) then None else Some (Z.quot l r)
  else if is_op "%" then
    if (r =? 0)%Z || ((l =? LLONG_MIN)%Z && (r =? -1)%Z) then None else Some (Z.rem l r)
  else if is_op "==" then Some (Z.b2z (l =? r)%Z)
  else if is_op "!=" then Some (Z.b2z (negb (l =? r)%Z))
  else if is_op "<" then Some (Z.b2z (l <? r)%Z)
  else if is_op "<=" then Some (Z.b2z (l <=? r)%Z)
  else if is_op ">" then Some (Z.b2z (r <? l)%Z)
  else if is_op ">=" then Some (Z.b2z (r <=? l)%Z)
  else if is_op "&&" then Some (Z.b2z (negb (l =? 0)%Z && negb (r =? 0)%Z))
  else if is_op "||" then Some (Z.b2z (negb (l =? 0)%Z || negb (r =? 0)%Z))
  else if is_op "&" then Some (Z.land l r)
  else if is_op "|" then Some (Z.lor l r)
  else if is_op "^" then Some (Z.lxor l r)
  else if is_op "<<" then
    if (r <? 0)%Z || (r >=? 64)%Z then None else Some (s64 (u64 (Z.shiftl (u64 l) r)))
  else if is_op ">>" then
    if (r <? 0)%Z || (r >=? 64)%Z then None else Some (Z.shiftr l r)
  else None.

Definition ir_try_get_positive_pow2_shift (value : Z) : option Z :=
  if (value <=? 0)%Z then None
  else if negb (Z.land value (u64 (value - 1)) =? 0)%Z then None
  else Some (shift_amount 64 value 0).

(** Applied to an integer [IR_OP_BINARY] with a shift below 64. *)
Definition ir_rewrite_to_shift_left (i : IRInstruction) (value : IROperand) (shift : Z)
    : IRInstruction :=
  set_text (Some "<<"%string) (set_rhs (IR_OPERAND_INT shift) (set_lhs value i)).

Definition unchanged (i : IRInstruction) : IRInstruction * bool := (i, false).
Definition changed (i : IRInstruction) : IRInstruction * bool := (i, true).
Definition to_int (i : IRInstruction) (v : Z) := changed (ir_rewrite_to_assign_int i v).
Definition to_operand (i : IRInstruction) (x : IROperand) :=
  changed (ir_rewrite_to_assign_operand i x).

Definition member (o : string) (l : list string) : bool := existsb (String.eqb o) l.

(** Both operands are constants. *)
Definition fold_constants (o : string) (i : IRInstruction) : option Z :=
  match lhs i, rhs i with
  | IR_OPERAND_INT a, IR_OPERAND_INT b => ir_try_evaluate_integer_binary o a b
  | _, _ => None
  end.

(** The same operand on both sides. *)
Definition fold_equal (o : string) (i : IRInstruction) : option (IRInstruction * bool) :=
  if member o ["-"; "^"] then Some (to_int i 0)
  else if member o ["|"; "&"] then Some (to_operand i (lhs i))
  else if member o ["=="; "<="; ">="] then Some (to_int i 1)
  else if member o ["!="; "<"; ">"] then Some (to_int i 0)
  else None.

(** A positive power of two other than 1. *)
Definition pow2_operand (x : IROperand) : option Z :=
  v ← int_value x;
  shift ← ir_try_get_positive_pow2_shift v;
  if (0 <? shift)%Z then Some shift else None.

Definition fold_multiply (i : IRInstruction) : IRInstruction * bool :=
  match pow2_operand (rhs i), pow2_operand (lhs i) with
  | Some shift, _ => changed (ir_rewrite_to_shift_left i (lhs i) shift)
  | None, Some shift => changed (ir_rewrite_to_shift_left i (rhs i) shift)
  | None, None =>
      if is_int 0 (lhs i) || is_int 0 (rhs i) then to_int i 0
      else if is_int 1 (rhs i) then to_operand i (lhs i)
      else if is_int 1 (lhs i) then to_operand i (rhs i)
      else unchanged i
  end.

(** A neutral element on the right or, failing that, on the left. *)
Definition drop_neutral (n : Z) (i : IRInstruction) : IRInstruction * bool :=
  if is_int n (rhs i) then to_operand i (lhs i)
  else if is_int n (lhs i) then to_operand i (rhs i)
  else unchanged i.

Definition fold_neutral (o : string) (i : IRInstruction) : IRInstruction * bool :=
  let is_op := String.eqb o in
  if is_op "+" then drop_neutral 0 i
  else if is_op "-" then if is_int 0 (rhs i) then to_operand i (lhs i) else unchanged i
  else if is_op "*" then fold_multiply i
  else if is_op "/" then if is_int 1 (rhs i) then to_operand i (lhs i) else unchanged i
  else if is_op "%" then if is_int 1 (rhs i) then to_int i 0 else unchanged i
  else if is_op "&" then
    if is_int 0 (lhs i) || is_int 0 (rhs i) then to_int i 0 else drop_neutral (-1) i
  else if is_op "|" || is_op "^" then drop_neutral 0 i
  else if is_op "<<" || is_op ">>" then
    if is_int 0 (rhs i) then to_operand i (lhs i) else unchanged i
  else unchanged i.

Definition ir_try_fold_integer_binary (i : IRInstruction) : IRInstruction * bool :=
  match op i, is_float i, text i with
  | IR_OP_BINARY, false, Some o =>
      match fold_constants o i with
      | Some v => to_int i v
      | None =>
          match (if ir_operand_equals (lhs i) (rhs i) then fold_equal o i else None) with
          | Some r => r
          | None => fold_neutral o i
          end
      end
  | _, _, _ => unchanged i
  end.

Definition ir_try_fold_integer_unary (i : IRInstruction) : IRInstruction * bool :=
  match op i, is_float i, text i, lhs i with
  | IR_OP_UNARY, false, Some o, IR_OPERAND_INT v =>
      let is_op := String.eqb o in
      if is_op "+" then to_int i v
      else if is_op "-" then to_int i (s64 (u64 (- u64 v)))
      else if is_op "!" then to_int i (Z.b2z (v =? 0)%Z)
      else if is_op "~" then to_int i (Z.lnot v)
      else unchanged i
  | _, _, _, _ => unchanged i
  end.

Definition ir_simplify_redundant_assign (i : IRInstruction) : IRInstruction * bool :=
  match op i, dest i, lhs i with
  | IR_OP_ASSIGN, IR_OPERAND_NONE, _ => unchanged i
  | IR_OP_ASSIGN, _, IR_OPERAND_NONE => unchanged i
  | IR_OP_ASSIGN, _, _ =>
      if ir_operand_equals (dest i) (lhs i) then changed (ir_instruction_make_nop i) else unchanged i
  | _, _, _ => unchanged i
  end.

Definition ir_simplify_branch (i : IRInstruction) : IRInstruction * bool :=
  match op i, lhs i, rhs i with
  | IR_OP_BRANCH_ZERO, IR_OPERAND_INT v, _ =>
      changed (if (v =? 0)%Z then ir_instruction_make_jump i else ir_instruction_make_nop i)
  | IR_OP_BRANCH_EQ, IR_OPERAND_INT a, IR_OPERAND_INT b =>
      changed (if (a =? b)%Z then ir_instruction_make_jump i else ir_instruction_make_nop i)
  | IR_OP_BRANCH_EQ, a, b =>
      if ir_operand_equals a b then changed (ir_instruction_make_jump i) else unchanged i
  | _, _, _ => unchanged i
  end.

(** One round of the simplifications on an instruction, in the pass's order. *)
Definition simplify_instruction (i : IRInstruction) : IRInstruction * bool :=
  let '(i1, c1) := ir_try_fold_integer_binary i in
  let '(i2, c2) := ir_try_fold_integer_unary i1 in
  let '(i3, c3) := ir_simplify_redundant_assign i2 in
  let '(i4, c4) := ir_simplify_branch i3 in
  (i4, c1 || c2 || c3 || c4).

(** The closing loop of [ir_constant_and_branch_simplify_pass]. *)
Definition ir_constant_and_branch_simplify_loop (c : code) : code * bool :=
  let r := map simplify_instruction c in
  (map fst r, existsb snd r).
