(* ===== verification/FoldFacts.v ===== *)
(** * Correctness of constant folding

    Folding evaluates as the machine does, every algebraic rewrite keeps the value
    an instruction computes, and the whole loop keeps the runs of a function. *)

From stdpp Require Import gmap.
From S2P Require Import Prelude IR IRSemantics Fold.

#[local] Open Scope Z_scope.

(** ** Evaluation *)

Lemma s64_congr a b : a mod 2 ^ 64 = b mod 2 ^ 64 → s64 a = s64 b.
Proof. by apply wrap_s_eq. Qed.

Lemma s64_add l r : s64 (u64 (u64 l + u64 r)) = s64 (l + r).
Proof. rewrite s64_u64. apply s64_congr. unfold wrap_u. by rewrite <- Zplus_mod. Qed.
Lemma s64_sub l r : s64 (u64 (u64 l - u64 r)) = s64 (l - r).
Proof. rewrite s64_u64. apply s64_congr. unfold wrap_u. by rewrite <- Zminus_mod. Qed.
Lemma s64_mul l r : s64 (u64 (u64 l * u64 r)) = s64 (l * r).
Proof. rewrite s64_u64. apply s64_congr. unfold wrap_u. by rewrite <- Zmult_mod. Qed.
Lemma s64_shl l r : 0 ≤ r → s64 (u64 (Z.shiftl (u64 l) r)) = s64 (l * 2 ^ r).
Proof.
  intros Hr. rewrite s64_u64, Z.shiftl_mul_pow2 by done. apply s64_congr.
  unfold wrap_u. by rewrite Zmult_mod_idemp_l.
Qed.
Lemma s64_opp l : s64 (u64 (- u64 l)) = s64 (- l).
Proof. rewrite <- (Z.sub_0_l l), <- (s64_sub 0 l). f_equal. Qed.

Lemma truth_b2z b : Z.b2z b = truth b.
Proof. by destruct b. Qed.

Lemma evaluate_spec o l r :
  in_s64 l → in_s64 r → ir_try_evaluate_integer_binary o l r = int_binary o l r.
Proof.
  intros Hl Hr. unfold ir_try_evaluate_integer_binary, int_binary, binary_table.
  cbv zeta. simpl assoc.
  repeat match goal with
    | |- context [String.eqb o ?k] => destruct (String.eqb o k); simpl
    end; try done; rewrite ?truth_b2z.
  - by rewrite s64_add.
  - by rewrite s64_sub.
  - by rewrite s64_mul.
  - by rewrite Z.gtb_ltb.
  - by rewrite Z.geb_leb.
  - by rewrite s64_in by (by apply in_s64_land).
  - by rewrite s64_in by (by apply in_s64_lor).
  - by rewrite s64_in by (by apply in_s64_lxor).
  - rewrite Z.geb_leb. destruct (Z.ltb_spec r 0); simpl; [done|].
    destruct (64 <=? r); [done|]. by rewrite s64_shl.
  - rewrite Z.geb_leb. destruct (Z.ltb_spec r 0); simpl; [done|].
    destruct (64 <=? r); [done|]. rewrite s64_in by (by apply in_s64_shr).
    by rewrite Z.shiftr_div_pow2.
Qed.

Lemma int_binary_range o l r v :
  in_s64 l → in_s64 r → int_binary o l r = Some v → in_s64 v.
Proof.
  intros Hl Hr. unfold int_binary, binary_table. simpl assoc.
  repeat match goal with
    | |- context [String.eqb o ?k] => destruct (String.eqb o k); simpl
    end; try done; repeat case_match; intros; simplify_eq; try apply s64_range;
    try (unfold truth, in_s64; case_match; lia).
  - apply orb_false_iff in H as [H1%Z.eqb_neq H2]. apply in_s64_quot; [done..|].
    intros [-> ->]. done.
  - apply orb_false_iff in H as [H1%Z.eqb_neq H2]. by apply in_s64_rem.
Qed.

(** ** Powers of two *)

Lemma pow2_shift_spec v k :
  v < 2 ^ 63 → ir_try_get_positive_pow2_shift v = Some k ↔ 0 ≤ k < 63 ∧ v = 2 ^ k.
Proof.
  intros Hv. unfold ir_try_get_positive_pow2_shift. split.
  - destruct (Z.leb_spec v 0); [done|]. unfold wrap_u. rewrite Z.mod_small by lia.
    destruct (Z.eqb_spec (Z.land v (v - 1)) 0) as [Hz|]; [|done]. cbn [negb].
    apply land_pred_pow2 in Hz; [|done]. pose proof (Z.log2_nonneg v) as Hn.
    assert (Z.log2 v < 63) by (apply Z.log2_lt_pow2; lia).
    rewrite Hz at 1. rewrite <- (Z2Nat.id (Z.log2 v)), shift_amount_pow2 by lia.
    rewrite Z2Nat.id by done. intros [= <-]. rewrite Z.add_0_l. split; [lia|done].
  - intros [Hk ->]. pose proof (Z.pow_pos_nonneg 2 k ltac:(lia) ltac:(lia)).
    destruct (Z.leb_spec (2 ^ k) 0); [lia|]. unfold wrap_u. rewrite Z.mod_small by lia.
    rewrite land_pow2_pred by lia. simpl Z.eqb. cbn [negb].
    rewrite <- (Z2Nat.id k), shift_amount_pow2 by lia. f_equal; lia.
Qed.

Lemma pow2_operand_spec x k :
  pow2_operand x = Some k → (∀ v, int_value x = Some v → in_s64 v) →
  0 < k < 63 ∧ x = IR_OPERAND_INT (2 ^ k).
Proof.
  unfold pow2_operand. destruct x as [| | |v| | |]; simpl; try done. intros H Hr.
  destruct (Hr v eq_refl) as [_ Hv].
  destruct (ir_try_get_positive_pow2_shift v) as [k'|] eqn:Hk; simpl in H; [|done].
  apply (pow2_shift_spec v k' Hv) in Hk as [Hk ->].
  destruct (Z.ltb_spec 0 k'); simplify_eq. split; [lia|done].
Qed.

(** ** One instruction *)

Section fold.
Context {M : Machine}.

(** Integer constants fit 64 bits, and integer operations and branches have no
    floating operands. *)
Definition operand_ok (x : IROperand) : Prop := ∀ v, int_value x = Some v → in_s64 v.
Definition not_float (x : IROperand) : Prop :=
  match x with IR_OPERAND_FLOAT _ _ => False | _ => True end.
Definition instruction_ok (i : IRInstruction) : Prop :=
  operand_ok (lhs i) ∧ operand_ok (rhs i) ∧
  (is_float i = false ∨ is_branch i = true → not_float (lhs i) ∧ not_float (rhs i)).

Lemma eval_range st x v : eval st x = Some v → in_s64 v.
Proof.
  destruct x; simpl; try done; intros H;
    try (apply fmap_Some in H as (? & _ & ->)); simplify_eq; apply s64_range.
Qed.

Lemma eval_int st v : in_s64 v → eval st (IR_OPERAND_INT v) = Some v.
Proof. intros. simpl. by rewrite s64_in. Qed.

Lemma is_int_true v x : is_int v x = true → x = IR_OPERAND_INT v.
Proof. destruct x; simpl; try done. intros ->%Z.eqb_eq. done. Qed.

(** Equal operands that are no floating constants have the same value. *)
Lemma operand_equals_eval st x y :
  ir_operand_equals x y = true → not_float x → eval st x = eval st y.
Proof.
  destruct x, y; simpl; try done;
    first [intros ->%String.eqb_eq|intros ->%Z.eqb_eq|idtac]; done.
Qed.

(** Two ways to compute the destination. *)
Definition same_value (i i' : IRInstruction) : Prop :=
  dest i' = dest i ∧ computes i = true ∧ computes i' = true ∧
  ∀ st v, rhs_value i st = Some v → rhs_value i' st = Some v.

Lemma same_value_control i i' st f :
  same_value i i' → control i st = Some f → control i' st = Some f.
Proof.
  intros (Hd & Hc & Hc' & Hv).
  assert (∀ j, computes j = true → control j st = Next <$> (v ← rhs_value j st; write (dest j) v st)) as Hctl.
  { intros j Hj. unfold control, exec. rewrite Hj. unfold computes in Hj. by destruct (op j). }
  rewrite !Hctl, Hd by done. destruct (rhs_value i st) as [v|] eqn:E; simpl; [|done].
  by rewrite (Hv _ _ E).
Qed.

Lemma assign_value i x :
  rhs_value (ir_rewrite_to_assign_operand i x) = λ st, eval st x.
Proof. by destruct x. Qed.
Lemma assign_dest i x : dest (ir_rewrite_to_assign_operand i x) = dest i.
Proof. by destruct x. Qed.
Lemma assign_computes i x : computes (ir_rewrite_to_assign_operand i x) = true.
Proof. by destruct x. Qed.

(** Replacing an integer operation by an operand with the value it computes. *)
Lemma binary_to_operand i o x :
  op i = IR_OP_BINARY → text i = Some o → is_float i = false →
  (∀ st a b v, eval st (lhs i) = Some a → eval st (rhs i) = Some b →
     int_binary o a b = Some v → eval st x = Some v) →
  same_value i (ir_rewrite_to_assign_operand i x).
Proof.
  intros Hop Ht Hf Hx. split_and!; [apply assign_dest| |apply assign_computes|].
  - unfold computes. by rewrite Hop.
  - intros st v. rewrite assign_value. unfold rhs_value. rewrite Hop, Ht, Hf. simpl.
    destruct (eval st (lhs i)) as [a|] eqn:Ea; simpl; [|done].
    destruct (eval st (rhs i)) as [b|] eqn:Eb; simpl; [|done]. by apply Hx.
Qed.

(** A rewrite either leaves the instruction alone, and says so, or keeps its value. *)
Definition sound (i : IRInstruction) (r : IRInstruction * bool) : Prop :=
  r = unchanged i ∨ r.2 = true ∧ same_value i r.1.

Lemma sound_operand i o x :
  op i = IR_OP_BINARY → text i = Some o → is_float i = false →
  (∀ st a b v, eval st (lhs i) = Some a → eval st (rhs i) = Some b →
     int_binary o a b = Some v → eval st x = Some v) →
  sound i (to_operand i x).
Proof. intros. right. split; [done|]. by eapply binary_to_operand. Qed.

Lemma sound_int i o n :
  op i = IR_OP_BINARY → text i = Some o → is_float i = false → in_s64 n →
  (∀ st a b v, eval st (lhs i) = Some a → eval st (rhs i) = Some b →
     int_binary o a b = Some v → v = n) →
  sound i (to_int i n).
Proof.
  intros ???? H. eapply sound_operand; [done..|]. intros st a b v Ha Hb Hv.
  rewrite (H st a b v Ha Hb Hv). by apply eval_int.
Qed.

Lemma member_true o l : member o l = true → o ∈ l.
Proof.
  unfold member. intros (x & Hx & ->%String.eqb_eq)%existsb_exists. by apply list_elem_of_In.
Qed.

(** Simplify the operator at hand. *)
Ltac operator := unfold int_binary; simpl; intros; simplify_eq.

Lemma fold_equal_sound i o r :
  op i = IR_OP_BINARY → text i = Some o → is_float i = false → instruction_ok i →
  ir_operand_equals (lhs i) (rhs i) = true → fold_equal o i = Some r → sound i r.
Proof.
  intros Hop Ht Hf (_ & _ & Hnf) Heq Hr. destruct (Hnf (or_introl Hf)) as [Hl _].
  assert (∀ st a b, eval st (lhs i) = Some a → eval st (rhs i) = Some b → a = b) as Hab.
  { intros st a b Ha Hb. rewrite <- (operand_equals_eval st _ _ Heq Hl) in Hb. congruence. }
  assert (∀ n, in_s64 n → (∀ a v, int_binary o a a = Some v → v = n) → sound i (to_int i n)) as Hint.
  { intros n Hn Hv. eapply sound_int; [done..|]. intros st a b v Ha Hb.
    rewrite (Hab _ _ _ Ha Hb). apply Hv. }
  unfold fold_equal in Hr.
  destruct (member o ["-"; "^"]) eqn:E1; [|destruct (member o ["|"; "&"]) eqn:E2;
    [|destruct (member o ["=="; "<="; ">="]) eqn:E3; [|destruct (member o ["!="; "<"; ">"]) eqn:E4]]];
    simplify_eq.
  - apply Hint; [done|]. intros a v. apply member_true in E1. set_unfold in E1.
    destruct E1 as [->|[->|[]]]; operator; by rewrite ?Z.sub_diag, ?Z.lxor_nilpotent.
  - eapply sound_operand; [done..|]. intros st a b v Ha Hb. rewrite <- (Hab _ _ _ Ha Hb).
    pose proof (eval_range _ _ _ Ha). apply member_true in E2. set_unfold in E2.
    destruct E2 as [->|[->|[]]]; operator; rewrite Ha, ?Z.lor_diag, ?Z.land_diag, s64_in; done.
  - apply Hint; [done|]. intros a v. apply member_true in E3. set_unfold in E3.
    destruct E3 as [->|[->|[->|[]]]]; operator; unfold truth;
      by rewrite ?Z.eqb_refl, ?Z.leb_refl, ?Z.geb_leb, ?Z.leb_refl.
  - apply Hint; [done|]. intros a v. apply member_true in E4. set_unfold in E4.
    destruct E4 as [->|[->|[->|[]]]]; operator; unfold truth;
      by rewrite ?Z.eqb_refl, ?Z.gtb_ltb, ?Z.ltb_irrefl.
Qed.

(** The constant operand of an instruction at hand. *)
Ltac constants := repeat match goal with
  | H : is_int _ _ = true |- _ => apply is_int_true in H
  | H : _ || _ = true |- _ => apply orb_true_iff in H as [H|H]
  end.

Lemma eval_const st x n a :
  x = IR_OPERAND_INT n → in_s64 n → eval st x = Some a → a = n.
Proof. intros -> Hn. rewrite eval_int by done. congruence. Qed.

Lemma sound_left i o n :
  op i = IR_OP_BINARY → text i = Some o → is_float i = false → in_s64 n →
  is_int n (rhs i) = true → (∀ a v, in_s64 a → int_binary o a n = Some v → v = a) →
  sound i (to_operand i (lhs i)).
Proof.
  intros ??? Hn Hr H. constants. eapply sound_operand; [done..|]. intros st a b v Ha Hb Hv.
  rewrite (eval_const _ _ _ _ Hr Hn Hb) in Hv.
  rewrite (H a v); [done|by eapply eval_range|done].
Qed.

Lemma sound_right i o n :
  op i = IR_OP_BINARY → text i = Some o → is_float i = false → in_s64 n →
  is_int n (lhs i) = true → (∀ a v, in_s64 a → int_binary o n a = Some v → v = a) →
  sound i (to_operand i (rhs i)).
Proof.
  intros ??? Hn Hr H. constants. eapply sound_operand; [done..|]. intros st a b v Ha Hb Hv.
  rewrite (eval_const _ _ _ _ Hr Hn Ha) in Hv.
  rewrite (H b v); [done|by eapply eval_range|done].
Qed.

Lemma sound_absorb i o n m :
  op i = IR_OP_BINARY → text i = Some o → is_float i = false → in_s64 n → in_s64 m →
  is_int n (lhs i) || is_int n (rhs i) = true →
  (∀ a v, int_binary o n a = Some v → v = m) → (∀ a v, int_binary o a n = Some v → v = m) →
  sound i (to_int i m).
Proof.
  intros ??? Hn Hm Hz Hl Hr. constants; eapply sound_int; try done; intros st a b v Ha Hb.
  - rewrite (eval_const _ _ _ _ Hz Hn Ha). apply Hl.
  - rewrite (eval_const _ _ _ _ Hz Hn Hb). apply Hr.
Qed.

Lemma drop_neutral_sound i o n :
  op i = IR_OP_BINARY → text i = Some o → is_float i = false → in_s64 n →
  (∀ a v, in_s64 a → int_binary o a n = Some v → v = a) →
  (∀ a v, in_s64 a → int_binary o n a = Some v → v = a) →
  sound i (drop_neutral n i).
Proof.
  intros. unfold drop_neutral. destruct (is_int n (rhs i)) eqn:E1; [by eapply sound_left|].
  destruct (is_int n (lhs i)) eqn:E2; [by eapply sound_right|by left].
Qed.

Lemma shift_left_sound i x k :
  op i = IR_OP_BINARY → text i = Some "*"%string → is_float i = false → 0 < k < 63 →
  (∀ st a b, eval st (lhs i) = Some a → eval st (rhs i) = Some b →
     ∃ c, eval st x = Some c ∧ a * b = c * 2 ^ k) →
  sound i (changed (ir_rewrite_to_shift_left i x k)).
Proof.
  intros Hop Ht Hf Hk Hx. right. split; [done|]. simpl. split_and!; [done| | |].
  - unfold computes. by rewrite Hop.
  - unfold computes. simpl. by rewrite Hop.
  - intros st v. unfold rhs_value. simpl. rewrite Hop, Ht, Hf. simpl.
    destruct (eval st (lhs i)) as [a|] eqn:Ea; simpl; [|done].
    destruct (eval st (rhs i)) as [b|] eqn:Eb; simpl; [|done].
    destruct (Hx st a b Ea Eb) as (c & -> & Hc). simpl.
    rewrite (s64_in k) by (unfold in_s64; lia). operator.
    destruct (Z.ltb_spec k 0); [lia|]. destruct (Z.leb_spec 64 k); [lia|]. simpl. congruence.
Qed.

Lemma fold_multiply_sound i :
  op i = IR_OP_BINARY → text i = Some "*"%string → is_float i = false → instruction_ok i →
  sound i (fold_multiply i).
Proof.
  intros Hop Ht Hf (Hl & Hr & _). unfold fold_multiply.
  destruct (pow2_operand (rhs i)) as [k|] eqn:E1; [|destruct (pow2_operand (lhs i)) as [k|] eqn:E2].
  - apply (pow2_operand_spec _ _) in E1 as [Hk Hx]; [|exact Hr].
    apply shift_left_sound; try done. intros st a b Ha Hb. exists a. split; [done|].
    f_equal. eapply eval_const; [done| |done]. by apply Hr; rewrite Hx.
  - apply (pow2_operand_spec _ _) in E2 as [Hk Hx]; [|exact Hl].
    apply shift_left_sound; try done. intros st a b Ha Hb. exists b. split; [done|].
    rewrite Z.mul_comm. f_equal. eapply eval_const; [done| |done]. by apply Hl; rewrite Hx.
  - destruct (is_int 0 (lhs i) || is_int 0 (rhs i)) eqn:Ez.
    { eapply (sound_absorb _ _ 0); try done; operator; by rewrite ?Z.mul_0_l, ?Z.mul_0_r. }
    destruct (is_int 1 (rhs i)) eqn:E3; [|destruct (is_int 1 (lhs i)) eqn:E4; [|by left]].
    + eapply (sound_left _ _ 1); try done; operator. by rewrite Z.mul_1_r, s64_in.
    + eapply (sound_right _ _ 1); try done; operator. by rewrite Z.mul_1_l, s64_in.
Qed.

Lemma fold_neutral_sound i o :
  op i = IR_OP_BINARY → text i = Some o → is_float i = false → instruction_ok i →
  sound i (fold_neutral o i).
Proof.
  intros Hop Ht Hf Hok. unfold fold_neutral. cbv zeta.
  destruct (String.eqb_spec o "+") as [->|_].
  { eapply drop_neutral_sound; try done; operator; by rewrite ?Z.add_0_r, ?Z.add_0_l, s64_in. }
  destruct (String.eqb_spec o "-") as [->|_].
  { destruct (is_int 0 (rhs i)) eqn:E; [|by left]. eapply (sound_left _ _ 0); try done; operator.
    by rewrite Z.sub_0_r, s64_in. }
  destruct (String.eqb_spec o "*") as [->|_]; [by apply fold_multiply_sound|].
  destruct (String.eqb_spec o "/") as [->|_].
  { destruct (is_int 1 (rhs i)) eqn:E; [|by left]. eapply (sound_left _ _ 1); try done; operator.
    rewrite andb_false_r in *. simplify_eq. apply Z.quot_1_r. }
  destruct (String.eqb_spec o "%") as [->|_].
  { destruct (is_int 1 (rhs i)) eqn:E; [|by left]. constants. eapply sound_int; try done.
    intros st a b v _ Hb. rewrite (eval_const _ _ _ _ E ltac:(done) Hb). operator.
    rewrite andb_false_r in *. simplify_eq. apply Z.rem_1_r. }
  destruct (String.eqb_spec o "&") as [->|_].
  { destruct (is_int 0 (lhs i) || is_int 0 (rhs i)) eqn:Ez.
    - eapply (sound_absorb _ _ 0); try done; operator; by rewrite ?Z.land_0_l, ?Z.land_0_r.
    - eapply drop_neutral_sound; try done; operator; by rewrite ?Z.land_m1_r, ?Z.land_m1_l, s64_in. }
  destruct (String.eqb_spec o "|") as [->|_]; [|destruct (String.eqb_spec o "^") as [->|_]]; simpl.
  { eapply drop_neutral_sound; try done; operator; by rewrite ?Z.lor_0_r, ?Z.lor_0_l, s64_in. }
  { eapply drop_neutral_sound; try done; operator; by rewrite ?Z.lxor_0_r, ?Z.lxor_0_l, s64_in. }
  destruct (String.eqb_spec o "<<") as [->|_]; [|destruct (String.eqb_spec o ">>") as [->|_]]; simpl;
    [..|by left]; (destruct (is_int 0 (rhs i)) eqn:E; [|by left]); eapply (sound_left _ _ 0); try done;
    operator; rewrite s64_in; rewrite ?Z.mul_1_r, ?Z.div_1_r; done.
Qed.

Lemma fold_binary_sound i : instruction_ok i → sound i (ir_try_fold_integer_binary i).
Proof.
  intros Hok. unfold ir_try_fold_integer_binary.
  destruct (op i) eqn:Hop; try by left. destruct (is_float i) eqn:Hf; [by left|].
  destruct (text i) as [o|] eqn:Ht; [|by left].
  destruct (fold_constants o i) as [v|] eqn:Ec.
  - unfold fold_constants in Ec. destruct Hok as (Hl & Hr & _).
    destruct (lhs i) as [| | |a| | |] eqn:El; try done.
    destruct (rhs i) as [| | |b| | |] eqn:Er; try done.
    specialize (Hl a eq_refl). specialize (Hr b eq_refl).
    rewrite evaluate_spec in Ec by done.
    eapply (sound_int i o v); [done|done|done|by apply (int_binary_range o a b)|]. intros st a' b' v'.
    rewrite El, Er, !eval_int by done. intros [= <-] [= <-]. congruence.
  - destruct (if ir_operand_equals _ _ then _ else _) as [r|] eqn:Ee.
    + destruct (ir_operand_equals (lhs i) (rhs i)) eqn:Heq; [|done]. by eapply fold_equal_sound.
    + by apply fold_neutral_sound.
Qed.
End fold.

(** ** The whole round *)

Section round.
Context {M : Machine} {L : MachineLaws M}.

(** Whatever [i] does on a well-formed state, [i'] does. *)
Definition refines (i i' : IRInstruction) : Prop :=
  ∀ st f, state_ok st → control i st = Some f → control i' st = Some f.

#[local] Instance refines_preorder : PreOrder refines.
Proof. split; [by intros i st f|]. intros i j k Hij Hjk st f Hst Hf. by apply Hjk, Hij. Qed.

Lemma sound_refines i r : sound i r → refines i r.1.
Proof.
  intros [->|[_ Hv]]; [done|]. intros st f _. by apply same_value_control.
Qed.

Lemma fold_unary_refines i :
  (op i = IR_OP_UNARY → instruction_ok i) → refines i (ir_try_fold_integer_unary i).1.
Proof.
  intros Hok. unfold ir_try_fold_integer_unary.
  destruct (op i) eqn:Hop; try done. destruct (is_float i) eqn:Hf; [done|].
  destruct (text i) as [o|] eqn:Ht; [|done]. destruct (lhs i) as [| | |v| | |] eqn:Hl; try done.
  destruct (Hok eq_refl) as (Hv & _). rewrite Hl in Hv. specialize (Hv v eq_refl).
  assert (∀ n, in_s64 n → int_unary o v = Some n → refines i (ir_rewrite_to_assign_int i n)) as Hto.
  { intros n Hn Ho st f _. unfold control, exec. rewrite Hop.
    destruct (computes i) eqn:Hc.
    - intros (st' & Hw & ->)%fmap_Some. simpl. rewrite s64_in by done. simpl.
      unfold rhs_value in Hw. rewrite Hop, Ht, Hl in Hw. simpl in Hw. rewrite s64_in in Hw by done.
      unfold unary in Hw. rewrite Hf, Ho in Hw. simpl in Hw. by rewrite Hw.
    - unfold computes in Hc. rewrite Hop, Ht in Hc. unfold int_unary in Ho. simpl in Ho.
      repeat match type of Ho with
        | context [String.eqb o ?k] => destruct (String.eqb_spec o k) as [->|]; [done|]
        end. done. }
  cbv zeta. unfold int_unary in Hto. simpl in Hto.
  destruct (String.eqb o "+"); [by apply Hto|].
  destruct (String.eqb o "-").
  { simpl. apply Hto; [apply s64_range|]. simpl. by rewrite s64_opp. }
  destruct (String.eqb o "!").
  { simpl. apply Hto; [unfold in_s64; destruct (v =? 0); simpl; lia|]. f_equal. }
  destruct (String.eqb o "~"); [|done].
  simpl. apply Hto; [by apply in_s64_lnot|done].
Qed.

Lemma redundant_assign_refines i : refines i (ir_simplify_redundant_assign i).1.
Proof.
  unfold ir_simplify_redundant_assign. destruct (op i) eqn:Hop; try done.
  destruct (ir_operand_equals (dest i) (lhs i)) eqn:Heq; [|by destruct (dest i), (lhs i)].
  assert (refines i (ir_instruction_make_nop i)) as Hnop.
  { intros st f [Ht Hs]. unfold control, exec, computes, rhs_value. rewrite Hop. simpl.
    destruct (dest i) as [|n b|n b| | | |], (lhs i) as [|m b'|m b'| | | |]; try done; simpl in *.
    - apply String.eqb_eq in Heq as ->. destruct (temps st !! m) as [v|] eqn:Hm; simpl; [|done].
      intros [= <-]. pose proof (Ht _ _ Hm) as Hv. simpl in Hv.
      unfold write_temp. rewrite (s64_in v), (s64_in v), insert_id by done. by destruct st.
    - apply String.eqb_eq in Heq as ->. destruct (syms st !! m) as [v|] eqn:Hm; simpl; [|done].
      intros [= <-]. destruct (Hs _ _ Hm) as [Hv Hnv].
      unfold write_sym. rewrite (s64_in v), (s64_in v), Hnv, insert_id by done. by destruct st. }
  by destruct (dest i), (lhs i).
Qed.

Lemma simplify_branch_refines i :
  (is_branch i = true → instruction_ok i) → refines i (ir_simplify_branch i).1.
Proof.
  intros Hok. unfold ir_simplify_branch.
  assert (∀ v, (∀ st f, control i st = Some f → f = Next st ∧ v = false ∨ v = true ∧ Goto <$> text i = Some f) →
    refines i (if v then ir_instruction_make_jump i else ir_instruction_make_nop i)) as Hto.
  { intros v Hv st f _ Hf. destruct (Hv st f Hf) as [[-> ->]|[-> Ht]]; done. }
  destruct (op i) eqn:Hop; try done.
  - destruct (lhs i) as [| | |v| | |] eqn:Hl; try done. simpl.
    apply Hto. intros st f. unfold control. rewrite Hop, Hl, eval_int; simpl.
    + destruct (v =? 0); simpl; [by right|]. intros [= <-]. by left.
    + destruct Hok as [Hlhs _]; [by unfold is_branch; rewrite Hop|]. apply Hlhs. by rewrite Hl.
  - assert (operand_ok (lhs i) ∧ operand_ok (rhs i) ∧ not_float (lhs i)) as (Ol & Or & Fl).
    { destruct Hok as (? & ? & [? _]); try done; unfold is_branch; rewrite Hop; auto. }
    assert (ir_operand_equals (lhs i) (rhs i) = true → refines i (ir_instruction_make_jump i)) as Heq.
    { intros He. apply (Hto true). intros st f. unfold control. rewrite Hop.
      rewrite (operand_equals_eval st _ _ He Fl). destruct (eval st (rhs i)) as [b|]; simpl; [|done].
      rewrite Z.eqb_refl. by right. }
    destruct (lhs i) as [| | |a| | |] eqn:Hl; try (by destruct (ir_operand_equals _ _); auto).
    destruct (rhs i) as [| | |b| | |] eqn:Hr; try done. simpl.
    apply Hto. intros st f. unfold control. rewrite Hop, Hl, Hr, !eval_int by auto. simpl.
    destruct (a =? b); simpl; [by right|]. intros [= <-]. by left.
Qed.

(** What a rewrite turns an instruction into. *)
Definition derived (i i' : IRInstruction) : Prop :=
  i' = i ∨ op i ≠ IR_OP_LABEL ∧ op i' ≠ IR_OP_LABEL ∧ op i' ≠ IR_OP_UNARY ∧ is_branch i' = false.

Lemma assign_derived i x : op i ≠ IR_OP_LABEL → derived i (ir_rewrite_to_assign_operand i x).
Proof. right. by destruct x. Qed.

Ltac cases := repeat (case_match; simplify_eq/=; try (by left);
  try (by apply assign_derived; congruence); try (by right; unfold is_branch; simpl; split_and!; congruence)).

Lemma fold_binary_derived i : derived i (ir_try_fold_integer_binary i).1.
Proof.
  unfold ir_try_fold_integer_binary, fold_equal, fold_neutral, fold_multiply, drop_neutral,
    to_int, to_operand, ir_rewrite_to_assign_int, unchanged, changed.
  destruct (op i) eqn:Hop; try by left. destruct (is_float i); [by left|].
  destruct (text i) as [o|]; [|by left].
  destruct (fold_constants o i); [apply assign_derived; congruence|]. cases.
  all: right; unfold is_branch; simpl; by rewrite Hop.
Qed.

Lemma fold_unary_derived i : derived i (ir_try_fold_integer_unary i).1.
Proof.
  unfold ir_try_fold_integer_unary, to_int, ir_rewrite_to_assign_int, unchanged, changed.
  destruct (op i) eqn:Hop; try by left. cases.
Qed.

Lemma redundant_assign_derived i : derived i (ir_simplify_redundant_assign i).1.
Proof.
  unfold ir_simplify_redundant_assign, unchanged, changed.
  destruct (op i) eqn:Hop; try by left. cases; right; unfold is_branch; simpl; by rewrite Hop.
Qed.

(** Every rewrite that says it changed nothing changed nothing. *)
Definition honest (i : IRInstruction) (r : IRInstruction * bool) : Prop := r.2 = false → r.1 = i.

Lemma fold_unary_honest i : honest i (ir_try_fold_integer_unary i).
Proof. unfold ir_try_fold_integer_unary, to_int, honest. repeat case_match; done. Qed.
Lemma redundant_assign_honest i : honest i (ir_simplify_redundant_assign i).
Proof. unfold ir_simplify_redundant_assign, honest. repeat case_match; done. Qed.
Lemma simplify_branch_honest i : honest i (ir_simplify_branch i).
Proof. unfold ir_simplify_branch, honest. repeat case_match; done. Qed.
Lemma sound_honest i r : sound i r → honest i r.
Proof. intros [->|[Hc _]]; [done|]. unfold honest. by rewrite Hc. Qed.

Lemma simplify_branch_label i : op i ≠ IR_OP_LABEL ∨ (ir_simplify_branch i).1 = i.
Proof. unfold ir_simplify_branch. destruct (op i) eqn:Hop; auto; by right. Qed.
Lemma simplify_branch_label' i :
  op (ir_simplify_branch i).1 = IR_OP_LABEL → (ir_simplify_branch i).1 = i.
Proof. unfold ir_simplify_branch. repeat case_match; done. Qed.

Lemma simplify_instruction_refines i :
  instruction_ok i → refines i (simplify_instruction i).1.
Proof.
  intros Hok. unfold simplify_instruction.
  pose proof (sound_refines _ _ (fold_binary_sound i Hok)) as R1.
  pose proof (fold_binary_derived i) as D1.
  destruct (ir_try_fold_integer_binary i) as [i1 c1]; simpl in R1, D1.
  assert (refines i1 (ir_try_fold_integer_unary i1).1) as R2
    by (apply fold_unary_refines; destruct D1 as [->|(? & ? & ? & ?)]; done).
  pose proof (fold_unary_derived i1) as D2.
  destruct (ir_try_fold_integer_unary i1) as [i2 c2]; simpl in R2, D2.
  pose proof (redundant_assign_refines i2) as R3. pose proof (redundant_assign_derived i2) as D3.
  destruct (ir_simplify_redundant_assign i2) as [i3 c3]; simpl in R3, D3.
  assert (refines i3 (ir_simplify_branch i3).1) as R4.
  { apply simplify_branch_refines. intros Hb.
    destruct D3 as [->|(? & ? & ? & ?)]; [|congruence].
    destruct D2 as [->|(? & ? & ? & ?)]; [|congruence].
    destruct D1 as [->|(? & ? & ? & ?)]; [done|congruence]. }
  destruct (ir_simplify_branch i3) as [i4 c4]; simpl in *.
  by rewrite R1, R2, R3, R4.
Qed.

Lemma simplify_instruction_label i :
  op i = IR_OP_LABEL ∨ op (simplify_instruction i).1 = IR_OP_LABEL → i = (simplify_instruction i).1.
Proof.
  unfold simplify_instruction.
  pose proof (fold_binary_derived i) as D1.
  destruct (ir_try_fold_integer_binary i) as [i1 c1]; simpl in D1.
  pose proof (fold_unary_derived i1) as D2.
  destruct (ir_try_fold_integer_unary i1) as [i2 c2]; simpl in D2.
  pose proof (redundant_assign_derived i2) as D3.
  destruct (ir_simplify_redundant_assign i2) as [i3 c3]; simpl in D3.
  pose proof (simplify_branch_label i3) as D4. pose proof (simplify_branch_label' i3) as D5.
  destruct (ir_simplify_branch i3) as [i4 c4]; simpl in *.
  intros [H|H].
  - destruct D1 as [->|(? & _)]; [|done]. destruct D2 as [->|(? & _)]; [|done].
    destruct D3 as [->|(? & _)]; [|done]. by destruct D4.
  - specialize (D5 H). subst i4. destruct D3 as [->|(_ & ? & _)]; [|done].
    destruct D2 as [->|(_ & ? & _)]; [|done]. by destruct D1 as [->|(_ & ? & _)].
Qed.

Lemma simplify_instruction_honest i :
  instruction_ok i → honest i (simplify_instruction i).
Proof.
  intros Hok. unfold simplify_instruction, honest.
  pose proof (sound_honest _ _ (fold_binary_sound i Hok)) as H1.
  destruct (ir_try_fold_integer_binary i) as [i1 c1].
  pose proof (fold_unary_honest i1) as H2. destruct (ir_try_fold_integer_unary i1) as [i2 c2].
  pose proof (redundant_assign_honest i2) as H3.
  destruct (ir_simplify_redundant_assign i2) as [i3 c3].
  pose proof (simplify_branch_honest i3) as H4. destruct (ir_simplify_branch i3) as [i4 c4].
  unfold honest in *. simpl in *. rewrite !orb_false_iff. intros [[[-> ->] ->] ->].
  by rewrite H4, H3, H2, H1.
Qed.
End round.

(** ** The properties *)

(** Folding two 64-bit constants gives exactly what the machine computes, in
    range, and is refused exactly where the machine traps or the operator is no
    integer operator. *)
Theorem fold_evaluates o l r :
  in_s64 l → in_s64 r →
  ir_try_evaluate_integer_binary o l r = int_binary o l r ∧
  (∀ v, ir_try_evaluate_integer_binary o l r = Some v → in_s64 v).
Proof.
  intros Hl Hr. split; [by apply evaluate_spec|].
  intros v. rewrite evaluate_spec by done. by apply int_binary_range.
Qed.

(** The power-of-two test answers the exponent, for the positive powers of two
    that fit a signed 64-bit number and for nothing else. *)
Theorem pow2_shift_correct v k :
  in_s64 v → ir_try_get_positive_pow2_shift v = Some k ↔ 0 ≤ k < 63 ∧ v = 2 ^ k.
Proof. intros [_ Hv]. by apply pow2_shift_spec. Qed.

(** C11. Constant folding and branch simplification are correct: on a function whose
    constants fit 64 bits, every run from a well-formed state that reaches the end
    is also a run of the simplified function, to the same state and result, and a
    round that reports no change left the function as it was. *)
Theorem constant_simplify_correct {M : Machine} {L : MachineLaws M} (c : code) :
  Forall instruction_ok c →
  let r := ir_constant_and_branch_simplify_loop c in
  (∀ k v st, config_ok k → halts c k v st → halts r.1 k v st) ∧
  (r.2 = false → r.1 = c).
Proof.
  intros Hok r. unfold r, ir_constant_and_branch_simplify_loop. simpl. split.
  - apply lockstep. rewrite map_map. apply Forall2_fmap_r, Forall_Forall2_diag.
    eapply Forall_impl; [exact Hok|]. intros i Hi. split.
    + intros H. by apply simplify_instruction_label.
    + by apply simplify_instruction_refines.
  - clear r. induction Hok as [|i c Hi _ IH]; simpl; [done|].
    intros [Hc1 Hc2]%orb_false_iff. by rewrite (simplify_instruction_honest i Hi Hc1), IH.
Qed.

(** ** Examples *)

Lemma fold_evaluates_witness :
  ir_try_evaluate_integer_binary "*" (2 ^ 62) 6 = Some (- 2 ^ 63) ∧ in_s64 (- 2 ^ 63).
Proof.
  destruct (fold_evaluates "*" (2 ^ 62) 6) as [_ H]; [unfold in_s64; lia..|].
  split; [vm_compute; reflexivity|apply H; vm_compute; reflexivity].
Defined.

Lemma pow2_shift_correct_witness : ir_try_get_positive_pow2_shift 4096 = Some 12.
Proof. apply (pow2_shift_correct 4096 12); [unfold in_s64; lia|]. split; [lia|reflexivity]. Defined.

(** [a = 6; b = a * 8; c = b - b; if (0) goto L; byte = c + 300; L: return byte]. *)
Definition example_code : code :=
  [i_assign (sym "a") (int 6); i_binary (temp "b") (sym "a") "*" (int 8);
   i_binary (temp "c") (temp "b") "-" (temp "b"); i_branch_zero (int 5) "L";
   i_binary (sym "byte") (temp "c") "+" (int 300); i_label "L"; i_return (sym "byte")].

Lemma example_code_ok : Forall instruction_ok example_code.
Proof.
  repeat (constructor; [unfold instruction_ok, operand_ok, in_s64; simpl; split_and!;
    try (intros ? [= <-]); try lia; done|]). constructor.
Qed.

Lemma constant_simplify_correct_witness :
  ∃ st, halts (ir_constant_and_branch_simplify_loop example_code).1 (start toy_start) (Some 44) st.
Proof.
  destruct (constant_simplify_correct example_code example_code_ok) as [H _].
  destruct (returns_halts 8 example_code (Some 44)) as [st Hst]; [vm_compute; reflexivity|].
  exists st. apply H; [apply toy_start_ok|exact Hst].
Defined.
