(* ===== verification/ControlFlow.v ===== *)
(** * Control-flow clean-up: src/src/ir/ir_optimize.c

    The passes from [ir_remove_redundant_jumps_pass] to
    [ir_eliminate_unreachable_straightline_pass] (the one over basic blocks
    excepted).  They rewrite instructions in place, so every index keeps its
    meaning. *)

From S2P Require Import Prelude IR.

(** The loop of a pass over the instructions: [f c i] rewrites the code at index
    [i], or answers [None] when it leaves it alone.  The flag is [*changed]. *)
Fixpoint for_each (f : code → nat → option code) (n i : nat) (r : code * bool) : code * bool :=
  match n with
  | O => r
  | S n' =>
      for_each f n' (S i) (match f r.1 i with Some c' => (c', true) | None => r end)
  end.

Definition run_pass (f : code → nat → option code) (c : code) : code * bool :=
  for_each f (length c) 0 (c, false).

Definition make_nop_at (c : code) (i : nat) : code := alter ir_instruction_make_nop i c.

Definition has_text (l : string) (i : IRInstruction) : bool :=
  match text i with Some t => String.eqb t l | None => false end.

(** The next instruction that is no [IR_OP_NOP] is the label [l]. *)
Definition label_follows (c : code) (start : nat) (l : string) : bool :=
  match ir_find_next_non_nop c start ≫= (c !!.) with
  | Some i => is_label l i
  | None => false
  end.

(** ** Jumps and branches to the next instruction *)

Definition remove_redundant_jump (c : code) (i : nat) : option code :=
  ins ← c !! i;
  match op ins, text ins with
  | IR_OP_JUMP, Some l => if label_follows c (S i) l then Some (make_nop_at c i) else None
  | _, _ => None
  end.

Definition ir_remove_redundant_jumps_pass : code → code * bool := run_pass remove_redundant_jump.

Definition remove_fallthrough_branch (c : code) (i : nat) : option code :=
  ins ← c !! i;
  match is_branch ins, text ins with
  | true, Some l => if label_follows c (S i) l then Some (make_nop_at c i) else None
  | _, _ => None
  end.

Definition ir_remove_redundant_fallthrough_branches_pass : code → code * bool :=
  run_pass remove_fallthrough_branch.

(** ** Jumps to jumps *)

(** The target of the jump that follows the label [target], if there is one and it
    goes elsewhere. *)
Definition next_target (c : code) (target : string) : option string :=
  label_index ← ir_find_label_index c target;
  next_index ← ir_find_next_non_nop c (S label_index);
  next ← c !! next_index;
  match op next, text next with
  | IR_OP_JUMP, Some t => if String.eqb t target then None else Some t
  | _, _ => None
  end.

Fixpoint thread_target (depth : nat) (c : code) (target : string) : string :=
  match depth with
  | O => target
  | S d => match next_target c target with Some t => thread_target d c t | None => target end
  end.

Definition is_jump (i : IRInstruction) : bool :=
  match op i with IR_OP_JUMP | IR_OP_BRANCH_ZERO | IR_OP_BRANCH_EQ => true | _ => false end.

Definition thread_jump (c : code) (i : nat) : option code :=
  ins ← c !! i;
  match is_jump ins, text ins with
  | true, Some l =>
      let target := thread_target 32 c l in
      if String.eqb target l then None else Some (alter (set_text (Some target)) i c)
  | _, _ => None
  end.

Definition ir_thread_jump_targets_pass : code → code * bool := run_pass thread_jump.

(** ** Conditionals with empty arms *)

(** From [start] on, labels and [IR_OP_NOP]s only, up to the label [l]. *)
Fixpoint reaches_label (l : string) (c : code) : bool :=
  match c with
  | [] => false
  | i :: c' =>
      match op i, text i with
      | IR_OP_NOP, _ => reaches_label l c'
      | IR_OP_LABEL, Some t => if String.eqb t l then true else reaches_label l c'
      | _, _ => false
      end
  end.

Definition remove_diamond (c : code) (i : nat) : option code :=
  branch ← c !! i;
  match is_branch branch, text branch with
  | true, Some branch_target =>
      jump_index ← ir_find_next_non_nop_in_block c (S i);
      jump ← c !! jump_index;
      match op jump, text jump with
      | IR_OP_JUMP, Some jump_target =>
          let removed := Some (make_nop_at (make_nop_at c i) jump_index) in
          if String.eqb branch_target jump_target then
            if label_follows c (S jump_index) jump_target then removed else None
          else
            cursor ← ir_find_next_non_nop c (S jump_index);
            if label_follows c (S jump_index) branch_target &&
               reaches_label jump_target (drop (S cursor) c)
            then removed else None
      | _, _ => None
      end
  | _, _ => None
  end.

Definition ir_remove_empty_conditional_diamonds_pass : code → code * bool := run_pass remove_diamond.

(** ** Labels nobody jumps to *)

Definition ir_instruction_references_label (l : string) (i : IRInstruction) : bool :=
  is_jump i && has_text l i.
Definition ir_label_is_referenced (c : code) (l : string) : bool :=
  existsb (ir_instruction_references_label l) c.

Definition remove_unused_label (c : code) (i : nat) : option code :=
  ins ← c !! i;
  match op ins, text ins with
  | IR_OP_LABEL, Some l => if ir_label_is_referenced c l then None else Some (make_nop_at c i)
  | _, _ => None
  end.

Definition ir_remove_unused_labels_pass : code → code * bool := run_pass remove_unused_label.

(** ** Instructions after a jump *)

Fixpoint straightline (reachable : bool) (c : code) : code * bool :=
  match c with
  | [] => ([], false)
  | i :: c' =>
      match op i with
      | IR_OP_LABEL => let '(r, ch) := straightline true c' in (i :: r, ch)
      | _ =>
          if reachable then
            let after := match op i with IR_OP_JUMP | IR_OP_RETURN => false | _ => true end in
            let '(r, ch) := straightline after c' in (i :: r, ch)
          else
            let '(r, ch) := straightline false c' in
            if is_nop i then (i :: r, ch) else (ir_instruction_make_nop i :: r, true)
      end
  end.

Definition ir_eliminate_unreachable_straightline_pass : code → code * bool := straightline true.
