(* ===== verification/ControlFlowFacts.v ===== *)
(** * Correctness of the control-flow clean-up

    On a function whose labels are defined once, every pass keeps every run that
    reaches the end of the function. *)

From stdpp Require Import gmap.
From S2P Require Import Prelude IR IRSemantics ControlFlow.

(** ** Searching the code *)

Lemma find_index_Some p c j :
  find_index p c = Some j ↔
  (∃ i, c !! j = Some i ∧ p i = true) ∧ ∀ k i, k < j → c !! k = Some i → p i = false.
Proof.
  revert j. induction c as [|x c IH]; intros j; simpl.
  - split; [done|]. intros [(i & Hi & _) _]. done.
  - destruct (p x) eqn:Hx.
    + split.
      * intros [= <-]. split; [by exists x|]. lia.
      * intros [_ Hb]. destruct j as [|j]; [done|]. by rewrite (Hb 0 x) in Hx by (done || lia).
    + rewrite fmap_Some. split.
      * intros (k & Hk & ->). apply IH in Hk as [Hi Hb]. split; [done|].
        intros [|k'] i Hlt Hl; [simpl in Hl; congruence|]. apply (Hb k'); [lia|done].
      * intros [(i & Hi & Hp) Hb]. destruct j as [|j]; [simpl in Hi; congruence|].
        exists j. split; [|done]. apply IH. split; [by exists i|].
        intros k i' Hk Hl. apply (Hb (S k)); [lia|done].
Qed.

Lemma find_index_None p c : find_index p c = None ↔ ∀ k i, c !! k = Some i → p i = false.
Proof.
  induction c as [|x c IH]; simpl; [done|]. destruct (p x) eqn:Hx.
  - split; [done|]. intros H. by rewrite (H 0 x) in Hx.
  - rewrite fmap_None, IH. split.
    + intros H [|k] i; simpl; [congruence|apply H].
    + intros H k i. apply (H (S k)).
Qed.

Lemma next_non_nop_spec c s j :
  ir_find_next_non_nop c s = Some j →
  s ≤ j ∧ (∃ i, c !! j = Some i ∧ op i ≠ IR_OP_NOP) ∧
  ∀ k, s ≤ k < j → ∃ i, c !! k = Some i ∧ op i = IR_OP_NOP.
Proof.
  unfold ir_find_next_non_nop. intros (d & Hd & ->)%fmap_Some.
  apply find_index_Some in Hd as [(i & Hi & Hn) Hb]. rewrite lookup_drop in Hi.
  unfold is_nop in *. split_and!; [lia| |].
  - exists i. split; [done|]. by apply negb_true_iff, bool_decide_eq_false in Hn.
  - intros k Hk. destruct (lookup_lt_is_Some_2 c k) as [i' Hi'];
      [apply lookup_lt_Some in Hi; lia|].
    exists i'. split; [done|].
    specialize (Hb (k - s) i' ltac:(lia)). rewrite lookup_drop in Hb.
    replace (s + (k - s)) with k in Hb by lia. specialize (Hb Hi').
    by apply negb_false_iff, bool_decide_eq_true in Hb.
Qed.

Definition label_at (c : code) (j : nat) (l : string) : Prop :=
  ∃ i, c !! j = Some i ∧ is_label l i = true.
Definition unique_labels (c : code) : Prop :=
  ∀ a b l, label_at c a l → label_at c b l → a = b.

Lemma is_label_op l i : is_label l i = true → op i = IR_OP_LABEL ∧ text i = Some l.
Proof.
  unfold is_label. destruct (op i), (text i) as [t|]; try done. by intros ->%String.eqb_eq.
Qed.

Lemma label_index c j l :
  unique_labels c → label_at c j l → ir_find_label_index c l = Some j.
Proof.
  intros Hu Hj. apply find_index_Some. split; [done|]. intros k i Hk Hi.
  destruct (is_label l i) eqn:Hl; [|done]. assert (k = j); [|lia].
  apply (Hu k j l); [by exists i|done].
Qed.

(** Nothing but [IR_OP_NOP]s and labels. *)
Definition silent (c : code) (a b : nat) : Prop :=
  ∀ k, a ≤ k < b → ∃ i, c !! k = Some i ∧ (op i = IR_OP_NOP ∨ op i = IR_OP_LABEL).

Lemma label_follows_at c s l :
  label_follows c s l = true →
  ∃ j, ir_find_next_non_nop c s = Some j ∧ s ≤ j ∧ label_at c j l ∧ silent c s j.
Proof.
  unfold label_follows. destruct (ir_find_next_non_nop c s) as [j|] eqn:Hj; simpl; [|done].
  apply next_non_nop_spec in Hj as (Hle & (i & Hi & _) & Hs). rewrite Hi. intros Hl.
  exists j. split_and!; [done|done|by exists i|]. intros k Hk.
  destruct (Hs k Hk) as (i' & ? & ?). eauto.
Qed.

Lemma label_follows_spec c s l :
  label_follows c s l = true → ∃ j, s ≤ j ∧ label_at c j l ∧ silent c s j.
Proof. intros (j & _ & ? & ? & ?)%label_follows_at. by exists j. Qed.

Lemma silent_app c a b d : silent c a b → silent c b d → silent c a d.
Proof. intros H1 H2 k Hk. destruct (Nat.lt_ge_cases k b); [apply H1|apply H2]; lia. Qed.

Lemma reaches_label_spec l c s :
  reaches_label l (drop s c) = true → ∃ j, s ≤ j ∧ label_at c j l ∧ silent c s j.
Proof.
  remember (drop s c) as d eqn:Hd. revert s Hd.
  induction d as [|i d IH]; intros s Hd; simpl; [done|].
  assert (c !! s = Some i) as Hi by (by rewrite <- (Nat.add_0_r s), <- lookup_drop, <- Hd).
  assert (d = drop (S s) c) as Hd' by (rewrite <- (Nat.add_1_r s), <- drop_drop, <- Hd; done).
  assert (op i = IR_OP_NOP ∨ op i = IR_OP_LABEL → reaches_label l d = true →
    ∃ j, s ≤ j ∧ label_at c j l ∧ silent c s j) as Hrec.
  { intros Hop Hr. destruct (IH _ Hd' Hr) as (j & Hj & Hl & Hs). exists j.
    split_and!; [lia|done|]. intros k Hk. destruct (decide (k = s)) as [->|]; [by exists i|].
    apply Hs. lia. }
  destruct (op i) eqn:Hop; try done; [auto|]. destruct (text i) as [t|] eqn:Ht; [|done].
  destruct (String.eqb_spec t l) as [->|]; [|auto]. intros _. exists s.
  split_and!; [done| |intros k; lia]. exists i. split; [done|]. unfold is_label. rewrite Hop, Ht.
  apply String.eqb_refl.
Qed.

Lemma make_nop_at_lookup c i k :
  make_nop_at c i !! k = if decide (i = k) then ir_instruction_make_nop <$> c !! k else c !! k.
Proof.
  unfold make_nop_at. destruct (decide (i = k)) as [->|Hne].
  - apply list_lookup_alter_eq.
  - by apply list_lookup_alter_ne.
Qed.

Lemma make_nop_labels c i j l : label_at (make_nop_at c i) j l → label_at c j l.
Proof.
  intros (x & Hx & Hl). rewrite make_nop_at_lookup in Hx. case_decide; [|by exists x].
  apply fmap_Some in Hx as (y & _ & ->). done.
Qed.

Lemma make_nop_unique c i : unique_labels c → unique_labels (make_nop_at c i).
Proof. intros Hu a b l Ha%make_nop_labels Hb%make_nop_labels. by eapply Hu. Qed.

Lemma make_nop_label_index c i ins l :
  c !! i = Some ins → is_label l ins = false →
  ir_find_label_index (make_nop_at c i) l = ir_find_label_index c l.
Proof.
  unfold ir_find_label_index, make_nop_at. revert i.
  induction c as [|x c IH]; intros [|i] Hi Hl; simpl in *; [done..| |].
  - simplify_eq. by rewrite Hl.
  - destruct (is_label l x); [done|]. f_equal. by apply IH.
Qed.

(** ** The loop of a pass *)

Lemma for_each_inv (R : code → code → Prop) `{!PreOrder R} (P : code → Prop) f n i r :
  (∀ c i c', P c → f c i = Some c' → P c' ∧ R c c') →
  P r.1 → P (for_each f n i r).1 ∧ R r.1 (for_each f n i r).1.
Proof.
  intros Hf. revert i r. induction n as [|n IH]; intros i r Hr; simpl; [done|].
  destruct (f r.1 i) as [c'|] eqn:Hc; [|by apply IH].
  destruct (Hf _ _ _ Hr Hc) as [Hp HR]. destruct (IH (S i) (c', true) Hp) as [Hp' HR'].
  split; [done|]. by etransitivity.
Qed.

Lemma for_each_flag f n i r : (for_each f n i r).2 = false → for_each f n i r = r.
Proof.
  assert (∀ n i c, (for_each f n i (c, true)).2 = true) as Htrue.
  { clear. induction n as [|n IH]; intros i c; simpl; [done|]. by destruct (f c i). }
  revert i r. induction n as [|n IH]; intros i r; simpl; [done|].
  destruct (f r.1 i) as [c'|]; [by rewrite Htrue|apply IH].
Qed.

(** ** Programs *)

Section machine.
Context {M : Machine}.

Definition preserves (c c' : code) : Prop := ∀ k v st, halts c k v st → halts c' k v st.

#[local] Instance preserves_preorder : PreOrder preserves.
Proof. split; [by intros c k v st|]. intros a b c Hab Hbc k v st H. by apply Hbc, Hab. Qed.

Lemma run_silent c a b st : a ≤ b → silent c a b → run (b - a) c (At a st) = Some (At b st).
Proof.
  intros Hab. remember (b - a) as n eqn:Hn. revert a Hab Hn.
  induction n as [|n IH]; intros a Hab Hn Hs; simpl.
  - do 2 f_equal. lia.
  - destruct (Hs a) as (i & Hi & Hop); [lia|]. rewrite Hi.
    assert (control i st = Some (Next st)) as ->
      by (unfold control, exec; by destruct Hop as [-> | ->]).
    simpl. apply IH; [lia|lia|]. intros k Hk. apply Hs. lia.
Qed.

(** Turning an instruction that only goes to a label further down, with nothing in
    between, into [IR_OP_NOP]. *)
Lemma make_nop_preserves c i ins :
  c !! i = Some ins → op ins ≠ IR_OP_LABEL →
  (∀ st f, control ins st = Some f → f = Next st ∨
     ∃ l j, f = Goto l ∧ ir_find_label_index c l = Some j ∧ i < j ∧ silent c (S i) j) →
  preserves c (make_nop_at c i).
Proof.
  intros Hi Hnl Hctl k v st. apply simulation_top. clear k v st. intros k k' Hs.
  assert (∀ l, ir_find_label_index (make_nop_at c i) l = ir_find_label_index c l) as Hl.
  { intros l. eapply make_nop_label_index; [done|]. unfold is_label. by destruct (op ins). }
  destruct k as [pc st|v st]; [|exists 1; simpl in *; by simplify_eq].
  simpl in Hs. destruct (decide (pc = i)) as [->|Hne].
  - rewrite Hi in Hs. apply bind_Some in Hs as (f & Hf & Hk).
    assert (make_nop_at c i !! i = Some (ir_instruction_make_nop ins)) as Hnop
      by (rewrite make_nop_at_lookup, decide_True, Hi; done).
    destruct (Hctl st f Hf) as [->|(l & j & -> & Hj & Hij & Hsil)].
    + exists 1. simpl. rewrite Hnop. done.
    + rewrite Hj in Hk. simpl in Hk. simplify_eq. exists (j - i). apply run_silent; [lia|].
      intros k Hk. rewrite make_nop_at_lookup. destruct (decide (i = k)) as [<-|].
      * rewrite Hi. eexists. split; [done|by left].
      * apply Hsil. lia.
  - exists 1. simpl. rewrite make_nop_at_lookup, decide_False by done.
    destruct (c !! pc) as [x|]; [|done]. destruct (control x st) as [[]|]; simpl in *; [done| |done..].
    rewrite Hl. by destruct (ir_find_label_index c l); simpl in *.
Qed.

Lemma run_pass_preserves f c :
  (∀ c i c', unique_labels c → f c i = Some c' → unique_labels c' ∧ preserves c c') →
  unique_labels c → preserves c (run_pass f c).1.
Proof. intros Hf Hu. by apply (for_each_inv preserves unique_labels f (length c) 0 (c, false)). Qed.

(** *** Redundant jumps and branches *)

Lemma jump_control ins l st f :
  is_jump ins = true → text ins = Some l → control ins st = Some f → f = Next st ∨ f = Goto l.
Proof.
  unfold is_jump, control. intros Hj Ht. rewrite Ht. destruct (op ins); try done; simpl.
  - intros [= <-]. by right.
  - destruct (eval st (lhs ins)) as [v|]; simpl; [|done].
    destruct (v =? 0)%Z; simpl; intros [= <-]; auto.
  - destruct (eval st (lhs ins)) as [a|]; simpl; [|done].
    destruct (eval st (rhs ins)) as [b|]; simpl; [|done].
    destruct (a =? b)%Z; simpl; intros [= <-]; auto.
Qed.

Lemma is_jump_not_label ins : is_jump ins = true → op ins ≠ IR_OP_LABEL.
Proof. unfold is_jump. by destruct (op ins). Qed.

(** A jump or branch whose target lies ahead with nothing in between. *)
Lemma make_nop_jump c i ins l j :
  unique_labels c → c !! i = Some ins → is_jump ins = true → text ins = Some l →
  i < j → label_at c j l → silent c (S i) j → preserves c (make_nop_at c i).
Proof.
  intros Hu Hi Hj Ht Hij Hl Hs. eapply make_nop_preserves; [done|by apply is_jump_not_label|].
  intros st f Hf. destruct (jump_control _ _ _ _ Hj Ht Hf) as [->| ->]; [by left|right].
  exists l, j. split_and!; [done|by apply label_index|done|done].
Qed.

Lemma branch_is_jump ins : is_branch ins = true → is_jump ins = true.
Proof. unfold is_branch, is_jump. by destruct (op ins). Qed.

Lemma remove_redundant_jump_preserves c i c' :
  unique_labels c → remove_redundant_jump c i = Some c' → unique_labels c' ∧ preserves c c'.
Proof.
  intros Hu. unfold remove_redundant_jump. intros (ins & Hi & H)%bind_Some.
  destruct (op ins) eqn:Hop; try done. destruct (text ins) as [l|] eqn:Ht; [|done].
  destruct (label_follows c (S i) l) eqn:Hf; simplify_eq.
  apply label_follows_spec in Hf as (j & Hj & Hl & Hs). split; [by apply make_nop_unique|].
  eapply make_nop_jump; try done. unfold is_jump. by rewrite Hop.
Qed.

Lemma remove_fallthrough_branch_preserves c i c' :
  unique_labels c → remove_fallthrough_branch c i = Some c' → unique_labels c' ∧ preserves c c'.
Proof.
  intros Hu. unfold remove_fallthrough_branch. intros (ins & Hi & H)%bind_Some.
  destruct (is_branch ins) eqn:Hb; [|done]. destruct (text ins) as [l|] eqn:Ht; [|done].
  destruct (label_follows c (S i) l) eqn:Hf; simplify_eq.
  apply label_follows_spec in Hf as (j & Hj & Hl & Hs). split; [by apply make_nop_unique|].
  eapply make_nop_jump; try done. by apply branch_is_jump.
Qed.

(** *** Diamonds *)

Lemma make_nop_label_at c i j l ins :
  c !! i = Some ins → op ins ≠ IR_OP_LABEL → label_at c j l → label_at (make_nop_at c i) j l.
Proof.
  intros Hi Hop (x & Hx & Hl). exists x. rewrite make_nop_at_lookup, decide_False; [done|].
  intros ->. simplify_eq. by apply is_label_op in Hl as [? _].
Qed.

Lemma make_nop_silent c i a b : silent c a b → silent (make_nop_at c i) a b.
Proof.
  intros Hs k Hk. destruct (Hs k Hk) as (x & Hx & Hop). rewrite make_nop_at_lookup, Hx.
  case_decide; simpl; eexists; split; try done; by left.
Qed.

Lemma make_nop_silent_one c i : i < length c → silent (make_nop_at c i) i (S i).
Proof.
  intros Hi k Hk. replace k with i by lia. destruct (lookup_lt_is_Some_2 c i Hi) as [x Hx].
  rewrite make_nop_at_lookup, decide_True, Hx by done. eexists. split; [done|by left].
Qed.

Lemma make_nop_comm c i j : make_nop_at (make_nop_at c i) j = make_nop_at (make_nop_at c j) i.
Proof.
  apply list_eq. intros k. rewrite !make_nop_at_lookup.
  repeat case_decide; subst; try done.
Qed.

(** The branch at [i] and the jump at [j] both end at the label [m] further down. *)
Lemma remove_diamond_both c i j branch jump l l' m m' :
  unique_labels c → c !! i = Some branch → c !! j = Some jump → i < j →
  is_jump branch = true → text branch = Some l → is_jump jump = true → text jump = Some l' →
  silent c (S i) j → label_at c m l → j < m → silent c (S j) m →
  label_at c m' l' → j < m' → silent c (S j) m' →
  preserves c (make_nop_at (make_nop_at c i) j).
Proof.
  intros Hu Hi Hj Hij Hbj Hbt Hjj Hjt Hs Hl Hm Hsm Hl' Hm' Hsm'. rewrite make_nop_comm.
  transitivity (make_nop_at c j); [by eapply make_nop_jump|].
  apply (make_nop_jump _ i branch l m).
  - by apply make_nop_unique.
  - rewrite make_nop_at_lookup, decide_False by lia. done.
  - done.
  - done.
  - lia.
  - eapply make_nop_label_at; [done|by apply is_jump_not_label|done].
  - apply (silent_app _ _ j); [by apply make_nop_silent|].
    apply (silent_app _ _ (S j)); [|by apply make_nop_silent].
    apply make_nop_silent_one. by eapply lookup_lt_Some.
Qed.

Lemma remove_diamond_preserves c i c' :
  unique_labels c → remove_diamond c i = Some c' → unique_labels c' ∧ preserves c c'.
Proof.
  intros Hu. unfold remove_diamond. intros (branch & Hi & H)%bind_Some.
  destruct (is_branch branch) eqn:Hb; [|done]. destruct (text branch) as [l|] eqn:Ht; [|done].
  apply bind_Some in H as (j & Hj & H). apply bind_Some in H as (x & Hx & H).
  destruct (op x) eqn:Hop; try done. destruct (text x) as [l'|] eqn:Ht'; [|done].
  unfold ir_find_next_non_nop_in_block in Hj. apply bind_Some in Hj as (j0 & Hnn & Hj).
  apply bind_Some in Hj as (jump & Hjump & Hj). case_decide; simplify_eq.
  apply next_non_nop_spec in Hnn as (Hij & _ & Hnops).
  assert (silent c (S i) j) as Hs by (intros k Hk; destruct (Hnops k Hk) as (y & ? & ?); eauto).
  assert (is_jump jump = true) as Hjj by (unfold is_jump; by rewrite Hop).
  assert (∀ m m', label_at c m l → j < m → silent c (S j) m → label_at c m' l' → j < m' →
    silent c (S j) m' → c' = make_nop_at (make_nop_at c i) j → unique_labels c' ∧ preserves c c') as Hgo.
  { intros m m' ?????? ->. split; [by do 2 apply make_nop_unique|].
    eapply (remove_diamond_both c i j branch jump l l' m m'); try done.
    by apply branch_is_jump. }
  destruct (String.eqb_spec l l') as [->|Hne].
  - destruct (label_follows c (S j) l') eqn:Hf; simplify_eq.
    apply label_follows_spec in Hf as (m & Hm & Hl & Hsm). by eapply (Hgo m m); try lia.
  - apply bind_Some in H as (cursor & Hcur & H).
    destruct (label_follows c (S j) l) eqn:Hf; [|done].
    destruct (reaches_label l' (drop (S cursor) c)) eqn:Hr; simplify_eq.
    apply label_follows_at in Hf as (m & Hnext & Hm & Hl & Hsm).
    rewrite Hnext in Hcur. simpl in H. simplify_eq.
    apply reaches_label_spec in Hr as (m' & Hm' & Hl' & Hsm').
    apply (Hgo cursor m'); try done; try lia. apply (silent_app _ _ cursor); [done|].
    apply (silent_app _ _ (S cursor)); [|done]. destruct Hl as (w & Hw & [Hwop _]%is_label_op).
    intros k Hk. replace k with cursor by lia. exists w. auto.
Qed.

(** *** Jump threading *)

(** From one label to the next by way of an unconditional jump. *)
Lemma next_target_steps c l t i :
  unique_labels c → next_target c l = Some t → ir_find_label_index c l = Some i →
  ∃ x, ∀ st, ∃ n, run n c (At i st) = Some (At x st) ∧
    ∃ ins, c !! x = Some ins ∧ op ins = IR_OP_JUMP ∧ text ins = Some t.
Proof.
  intros Hu Hn Hi. unfold next_target in Hn. rewrite Hi in Hn. simpl in Hn.
  apply bind_Some in Hn as (x & Hx & Hn). apply bind_Some in Hn as (ins & Hins & Hn).
  destruct (op ins) eqn:Hop; try done. destruct (text ins) as [t'|] eqn:Ht; [|done].
  destruct (String.eqb t' l); simplify_eq. exists x. intros st.
  apply next_non_nop_spec in Hx as (Hle & _ & Hnops).
  exists (x - i). split; [|by exists ins]. apply run_silent; [lia|].
  apply (silent_app _ _ (S i)).
  - intros k Hk. replace k with i by lia. apply find_index_Some in Hi as [(y & Hy & Hl) _].
    apply is_label_op in Hl as [Hl _]. exists y. auto.
  - intros k Hk. destruct (Hnops k Hk) as (y & ? & ?). eauto.
Qed.

(** Going to a label that leads, by jumps, to the label [t]. *)
Definition leads (c : code) (l t : string) : Prop :=
  ∀ i st, ir_find_label_index c l = Some i →
    (∃ n j, ir_find_label_index c t = Some j ∧ run n c (At i st) = Some (At j st)) ∨
    (∃ n, run n c (At i st) = None).

Lemma thread_target_leads d c l : unique_labels c → leads c l (thread_target d c l).
Proof.
  intros Hu. revert l. induction d as [|d IH]; intros l i st Hi; simpl; [left; by exists 0, i|].
  destruct (next_target c l) as [t|] eqn:Ht; [|left; by exists 0, i].
  destruct (next_target_steps c l t i Hu Ht Hi) as (x & Hx).
  destruct (Hx st) as (n & Hn & ins & Hins & Hop & Htext).
  destruct (ir_find_label_index c t) as [i'|] eqn:Hi'.
  - assert (run (n + 1) c (At i st) = Some (At i' st)) as Hstep.
    { rewrite run_add, Hn. simpl. rewrite Hins. unfold control. rewrite Hop, Htext. simpl.
      by rewrite Hi'. }
    destruct (IH t i' st Hi') as [(n' & j & Hj & Hr)|(n' & Hr)]; [left|right].
    + exists (n + 1 + n'), j. split; [done|]. rewrite run_add, Hstep. done.
    + exists (n + 1 + n'). rewrite run_add, Hstep. done.
  - right. exists (n + 1). rewrite run_add, Hn. simpl. rewrite Hins. unfold control.
    rewrite Hop, Htext. simpl. by rewrite Hi'.
Qed.

Lemma alter_text_labels c i ins t l :
  c !! i = Some ins → is_jump ins = true →
  ir_find_label_index (alter (set_text t) i c) l = ir_find_label_index c l.
Proof.
  intros Hi Hj. unfold ir_find_label_index. revert i Hi.
  induction c as [|x c IH]; intros [|i] Hi; simpl in *; [done..| |].
  - simplify_eq. assert (is_label l ins = false ∧ is_label l (set_text t ins) = false) as [-> ->]; [|done].
    unfold is_label, is_jump in *. simpl. by destruct (op ins).
  - destruct (is_label l x); [done|]. f_equal. by apply IH.
Qed.

Lemma alter_text_unique c i ins t :
  c !! i = Some ins → is_jump ins = true → unique_labels c → unique_labels (alter (set_text t) i c).
Proof.
  intros Hi Hj Hu.
  assert (∀ a l, label_at (alter (set_text t) i c) a l → label_at c a l) as Hl.
  { intros a l (x & Hx & Hlab). destruct (decide (i = a)) as [->|Hne].
    - rewrite list_lookup_alter_eq, Hi in Hx. simplify_eq/=.
      apply is_label_op in Hlab as [Hop _]. simpl in Hop. by apply is_jump_not_label in Hj.
    - rewrite list_lookup_alter_ne in Hx by done. by exists x. }
  intros a b l Ha%Hl Hb%Hl. by eapply Hu.
Qed.

(** Retargeting changes nothing but where a taken jump goes. *)
Lemma retarget_control ins t st f :
  is_jump ins = true → control ins st = Some f →
  control (set_text (Some t) ins) st =
    Some (match f with Goto _ => Goto t | _ => f end).
Proof.
  unfold is_jump, control. simpl. destruct (op ins); try done; intros _.
  - by intros (l & _ & ->)%fmap_Some.
  - destruct (eval st (lhs ins)) as [v|]; simpl; [|done]. destruct (v =? 0)%Z; simpl.
    + by intros (l & _ & ->)%fmap_Some.
    + by intros [= <-].
  - destruct (eval st (lhs ins)) as [a|]; simpl; [|done].
    destruct (eval st (rhs ins)) as [b|]; simpl; [|done]. destruct (a =? b)%Z; simpl.
    + by intros (l & _ & ->)%fmap_Some.
    + by intros [= <-].
Qed.

Lemma thread_jump_preserves c i c' :
  unique_labels c → thread_jump c i = Some c' → unique_labels c' ∧ preserves c c'.
Proof.
  intros Hu. unfold thread_jump. intros (ins & Hi & H)%bind_Some.
  destruct (is_jump ins) eqn:Hj; [|done]. destruct (text ins) as [l|] eqn:Ht; [|done].
  pose proof (thread_target_leads 32 c l Hu) as Hlead.
  destruct (String.eqb (thread_target 32 c l) l); simplify_eq. set (t := thread_target 32 c l) in *.
  assert (∀ l, ir_find_label_index (alter (set_text (Some t)) i c) l = ir_find_label_index c l)
    as Hlab by (intros; by eapply alter_text_labels).
  split; [by eapply alter_text_unique|].
  intros k v st. apply (simulation_catch_up (λ _, True)); [done| |done].
  clear k v st. intros k k' _ Hs Hsafe.
  destruct k as [pc st|v st]; [|exists 0, 1, k'; split; [done|]; simpl in *; congruence].
  destruct (decide (pc = i)) as [->|Hne].
  - simpl in Hs. rewrite Hi in Hs. apply bind_Some in Hs as (f & Hf & Hk).
    pose proof (retarget_control ins t st f Hj Hf) as Hf'.
    destruct (jump_control ins l st f Hj Ht Hf) as [->| ->].
    + exists 0, 1, k'. split; [done|]. simpl. by rewrite list_lookup_alter_eq, Hi, <- Hk; simpl; rewrite Hf'.
    + apply bind_Some in Hk as (a & Ha & [= <-]).
      destruct (Hlead a st Ha) as [(n & b & Hb & Hr)|(n & Hr)]; [|by destruct (Hsafe n)].
      exists n, 1, (At b st). split; [done|]. simpl. rewrite list_lookup_alter_eq, Hi. simpl.
      rewrite Hf'. simpl. by rewrite Hlab, Hb.
  - exists 0, 1, k'. split; [done|]. simpl in *. rewrite list_lookup_alter_ne by done.
    destruct (c !! pc) as [x|]; [|done]. destruct (control x st) as [[]|]; simpl in *; [done| |done..].
    rewrite Hlab. by destruct (ir_find_label_index c _); simpl in *.
Qed.

(** *** Unused labels *)

Lemma goto_references ins st l :
  control ins st = Some (Goto l) → ir_instruction_references_label l ins = true.
Proof.
  unfold ir_instruction_references_label, is_jump, has_text, control.
  assert (∀ b, branch_if b (text ins) st = Some (Goto l) → text ins = Some l) as Hb.
  { intros [] H; simpl in H; [|done]. by apply fmap_Some in H as (? & ? & [= <-]). }
  assert (∀ x : option (mstate world), Next <$> x ≠ Some (Goto l)) as Hn by (by intros []).
  destruct (op ins); intros H; simpl; try (by apply Hn in H).
  - apply fmap_Some in H as (t & -> & [= <-]). apply String.eqb_refl.
  - apply bind_Some in H as (v & _ & ->%Hb). apply String.eqb_refl.
  - apply bind_Some in H as (a & _ & H). apply bind_Some in H as (b & _ & ->%Hb).
    apply String.eqb_refl.
  - destruct (lhs ins); try done; by apply bind_Some in H as (? & _ & ?).
Qed.

Lemma remove_unused_label_preserves c i c' :
  unique_labels c → remove_unused_label c i = Some c' → unique_labels c' ∧ preserves c c'.
Proof.
  intros Hu. unfold remove_unused_label. intros (ins & Hi & H)%bind_Some.
  destruct (op ins) eqn:Hop; try done. destruct (text ins) as [l|] eqn:Ht; [|done].
  destruct (ir_label_is_referenced c l) eqn:Href; simplify_eq.
  split; [by apply make_nop_unique|]. intros k v st. apply simulation_top. clear k v st.
  intros k k' Hs. exists 1.
  destruct k as [pc st|v st]; [|simpl in *; by simplify_eq]. simpl in *.
  rewrite make_nop_at_lookup. destruct (decide (i = pc)) as [<-|Hne].
  - rewrite Hi in *. unfold control, exec in *. rewrite Hop in Hs. done.
  - destruct (c !! pc) as [x|] eqn:Hx; [|done].
    destruct (control x st) as [[st'|t|v]|] eqn:Hc; simpl in *; [done| |done..].
    rewrite (make_nop_label_index c i ins t Hi); [by destruct (ir_find_label_index c t)|].
    unfold is_label. rewrite Hop, Ht. apply String.eqb_neq. intros ->.
    assert (ir_label_is_referenced c t = true); [|congruence].
    apply existsb_exists. exists x. split; [|by eapply goto_references].
    apply list_elem_of_In. by eapply list_elem_of_lookup_2.
Qed.

(** *** Unreachable instructions *)

Definition after (r : bool) (i : IRInstruction) : bool :=
  match op i with
  | IR_OP_LABEL => true
  | IR_OP_JUMP | IR_OP_RETURN => false
  | _ => r
  end.

(** Whether the pass finds the instruction at [pc] reachable. *)
Definition reachable (r : bool) (c : code) (pc : nat) : Prop :=
  ∀ i, c !! pc = Some i → op i = IR_OP_LABEL ∨ foldl after r (take pc c) = true.

Lemma straightline_cons r i c :
  (straightline r (i :: c)).1 =
    (if bool_decide (op i = IR_OP_LABEL) || r || is_nop i then i else ir_instruction_make_nop i)
      :: (straightline (after r i) c).1.
Proof.
  simpl. unfold after, is_nop. destruct (op i), r; simpl;
    match goal with |- context [straightline ?b c] => by destruct (straightline b c) end.
Qed.

Lemma straightline_lookup r c pc :
  (straightline r c).1 !! pc =
    i ← c !! pc;
    Some (if bool_decide (op i = IR_OP_LABEL) || foldl after r (take pc c) || is_nop i
          then i else ir_instruction_make_nop i).
Proof.
  revert r pc. induction c as [|i c IH]; intros r pc; [done|].
  rewrite straightline_cons. destruct pc as [|pc]; [done|]. simpl. apply IH.
Qed.

Lemma straightline_label_index r c l :
  ir_find_label_index (straightline r c).1 l = ir_find_label_index c l.
Proof.
  unfold ir_find_label_index. revert r. induction c as [|i c IH]; intros r; [done|].
  rewrite straightline_cons. simpl. rewrite IH.
  destruct (bool_decide (op i = IR_OP_LABEL)) eqn:Hl; simpl; [done|].
  destruct (r || is_nop i); [done|]. apply bool_decide_eq_false in Hl.
  assert (is_label l i = false) as ->; [|done]. unfold is_label. by destruct (op i).
Qed.

Lemma control_next_after ins st st' :
  control ins st = Some (Next st') → after true ins = true.
Proof.
  unfold control, after. destruct (op ins); try done; intros H.
  - by apply fmap_Some in H as (? & _ & ?).
  - destruct (lhs ins); try done; by apply bind_Some in H as (? & _ & ?).
Qed.

Lemma straightline_preserves c v st st0 :
  halts c (start st0) v st → halts (ir_eliminate_unreachable_straightline_pass c).1 (start st0) v st.
Proof.
  unfold ir_eliminate_unreachable_straightline_pass.
  apply (simulation (λ k, match k with At pc _ => reachable true c pc | Halted _ _ => True end)).
  - intros [pc s|w s] k' Hr; simpl; [|by intros [= <-]].
    destruct (c !! pc) as [i|] eqn:Hi; [|by intros [= <-]].
    intros (f & Hf & Hk)%bind_Some. destruct f as [s'|l|w]; [|apply bind_Some in Hk as (a & Ha & Hk)|];
      simplify_eq; [..|done].
    + intros i' _. right. rewrite (take_S_r _ _ _ Hi), foldl_app. simpl.
      pose proof (control_next_after _ _ _ Hf) as Ht.
      destruct (Hr i Hi) as [Hl| ->]; [|done]. unfold after. by rewrite Hl.
    + intros i' Hi'. left. apply find_index_Some in Ha as [(y & Hy & [? _]%is_label_op) _]. congruence.
  - intros [pc s|w s] k' Hr Hs; exists 1; simpl in *; [|congruence].
    rewrite straightline_lookup. destruct (c !! pc) as [i|] eqn:Hi; simpl; [|done].
    assert (bool_decide (op i = IR_OP_LABEL) || foldl after true (take pc c) || is_nop i = true) as ->.
    { destruct (Hr i Hi) as [Hl| ->]; [by rewrite bool_decide_true|by rewrite orb_true_r]. }
    destruct (control i s) as [[]|]; simpl in *; [done| |done..].
    rewrite straightline_label_index. by destruct (ir_find_label_index c l); simpl in *.
  - intros i _. by right.
Qed.

(** ** The properties *)

(** C27. Removing jumps and branches to the next instruction and conditionals whose
    arms are empty keeps every run that reaches the end of the function. *)
Theorem redundant_jumps_correct c k v st :
  unique_labels c → halts c k v st →
  halts (ir_remove_redundant_jumps_pass c).1 k v st ∧
  halts (ir_remove_redundant_fallthrough_branches_pass c).1 k v st ∧
  halts (ir_remove_empty_conditional_diamonds_pass c).1 k v st.
Proof.
  intros Hu Hh. split_and!.
  - by apply (run_pass_preserves _ _ remove_redundant_jump_preserves Hu).
  - by apply (run_pass_preserves _ _ remove_fallthrough_branch_preserves Hu).
  - by apply (run_pass_preserves _ _ remove_diamond_preserves Hu).
Qed.

(** C26. Retargeting jumps past chains of jumps keeps every run that reaches the end
    of the function, cyclic chains included. *)
Theorem thread_jumps_correct c k v st :
  unique_labels c → halts c k v st → halts (ir_thread_jump_targets_pass c).1 k v st.
Proof. intros Hu. by apply (run_pass_preserves _ _ thread_jump_preserves Hu). Qed.

(** C28. Removing the labels nobody jumps to and the instructions between a jump or
    return and the next label keeps every run of the function from its start. *)
Theorem dead_code_correct c v st st0 :
  unique_labels c → halts c (start st0) v st →
  halts (ir_remove_unused_labels_pass c).1 (start st0) v st ∧
  halts (ir_eliminate_unreachable_straightline_pass c).1 (start st0) v st.
Proof.
  intros Hu Hh. split; [|by apply straightline_preserves].
  by apply (run_pass_preserves _ _ remove_unused_label_preserves Hu).
Qed.
End machine.

(** ** Examples *)

Definition label_name (i : IRInstruction) : option string :=
  if decide (op i = IR_OP_LABEL) then text i else None.
Definition labels (c : code) : list string := omap label_name c.

Lemma is_label_name l i : is_label l i = true ↔ label_name i = Some l.
Proof.
  unfold is_label, label_name. destruct (op i), (text i) as [t|]; simpl; try done.
  rewrite String.eqb_eq. split; congruence.
Qed.

Lemma labels_unique c : NoDup (labels c) → unique_labels c.
Proof.
  assert (∀ c a l, label_at c a l → l ∈ labels c) as Hin.
  { clear. intros c a l (i & Hi & Hl%is_label_name). apply list_elem_of_omap. exists i.
    split; [by eapply list_elem_of_lookup_2|done]. }
  assert (∀ x c l, NoDup (labels (x :: c)) → is_label l x = true → ∀ a, ¬ label_at c a l) as Hfst.
  { intros x d l Hnd Hl%is_label_name a Ha. simpl in Hnd. rewrite Hl in Hnd.
    apply NoDup_cons in Hnd as [Hn _]. by apply Hn, (Hin d a). }
  induction c as [|x c IH]; intros Hnd a b l Ha Hb; [by destruct Ha as (? & ? & _)|].
  destruct Ha as (i & Hi & Hli), Hb as (j & Hj & Hlj).
  destruct a as [|a], b as [|b]; simpl in *; simplify_eq; [done|..].
  - destruct (Hfst i c l Hnd Hli b). by exists j.
  - destruct (Hfst j c l Hnd Hlj a). by exists i.
  - f_equal. apply (IH (ltac:(simpl in Hnd; destruct (label_name x); [by apply NoDup_cons in Hnd as [_ ?]|done])) a b l);
      [by exists i|by exists j].
Qed.

(** A diamond, a chain of jumps, an unused label and unreachable code. *)
Definition example_flow : code :=
  [i_assign (sym "x") (int 1); i_branch_zero (sym "x") "else"; i_jump "end"; i_label "else";
   i_label "end"; i_branch_zero (int 0) "hop"; i_return (int 1); i_label "hop"; i_jump "last";
   i_assign (sym "x") (int 2); i_label "unused"; i_jump "next"; instruction_zero; i_label "next";
   i_label "last"; i_return (sym "x")].

Lemma example_flow_unique : unique_labels example_flow.
Proof. apply labels_unique, (bool_decide_unpack _). vm_compute. exact I. Qed.

Lemma redundant_jumps_correct_witness :
  ∃ st, halts (ir_remove_empty_conditional_diamonds_pass example_flow).1 (start toy_start) (Some 1%Z) st.
Proof.
  destruct (returns_halts 20 example_flow (Some 1%Z)) as [st Hst]; [vm_compute; reflexivity|].
  exists st. apply (redundant_jumps_correct example_flow); [exact example_flow_unique|exact Hst].
Defined.

Lemma thread_jumps_correct_witness :
  ∃ st, halts (ir_thread_jump_targets_pass example_flow).1 (start toy_start) (Some 1%Z) st.
Proof.
  destruct (returns_halts 20 example_flow (Some 1%Z)) as [st Hst]; [vm_compute; reflexivity|].
  exists st. apply (thread_jumps_correct example_flow); [exact example_flow_unique|exact Hst].
Defined.

Lemma dead_code_correct_witness :
  ∃ st, halts (ir_eliminate_unreachable_straightline_pass example_flow).1 (start toy_start) (Some 1%Z) st.
Proof.
  destruct (returns_halts 20 example_flow (Some 1%Z)) as [st Hst]; [vm_compute; reflexivity|].
  exists st. apply (dead_code_correct example_flow); [exact example_flow_unique|exact Hst].
Defined.

(** What the passes do to it. *)
Example example_flow_passes :
  map op (ir_eliminate_unreachable_straightline_pass
    (ir_remove_empty_conditional_diamonds_pass example_flow).1).1 =
  [IR_OP_ASSIGN; IR_OP_NOP; IR_OP_NOP; IR_OP_LABEL; IR_OP_LABEL; IR_OP_BRANCH_ZERO; IR_OP_RETURN;
   IR_OP_LABEL; IR_OP_JUMP; IR_OP_NOP; IR_OP_LABEL; IR_OP_JUMP; IR_OP_NOP; IR_OP_LABEL;
   IR_OP_LABEL; IR_OP_RETURN].
Proof. vm_compute. reflexivity. Qed.
