(* ===== verification/CSE.v ===== *)
(** * Common subexpressions: src/src/ir/ir_optimize.c,
    [ir_common_subexpression_elimination_pass] and its expression map. *)

From S2P Require Import Prelude IR.

Inductive IRExpressionKind : Type :=
  | IR_EXPR_BINARY | IR_EXPR_UNARY | IR_EXPR_CAST | IR_EXPR_ADDRESS_OF.

(** An available expression and the operand that holds its value. *)
Record IRExpressionEntry : Type := mkEntry {
  ekind : IRExpressionKind;
  op_text : option string;
  elhs : IROperand;
  erhs : IROperand;
  evalue : IROperand;
  eis_float : bool }.

(** In order of insertion. *)
Abbreviation IRExpressionMap := (list IRExpressionEntry).

Definition ir_binary_op_is_commutative (o : string) : bool :=
  existsb (String.eqb o) ["+"; "*"; "&"; "|"; "^"; "=="; "!="]%string.

Definition ir_instruction_is_cse_candidate (i : IRInstruction) : bool :=
  ir_instruction_writes_destination i &&
  match op i, text i, lhs i with
  | IR_OP_BINARY, Some _, _ => true
  | IR_OP_UNARY, Some o, _ => negb (String.eqb o "*") && negb (String.eqb o "&")
  | IR_OP_CAST, Some _, _ => true
  | IR_OP_ADDRESS_OF, _, IR_OPERAND_SYMBOL _ _ => true
  | _, _, _ => false
  end.

(** The same operator text, neither null. *)
Definition same_text (e : IRExpressionEntry) (i : IRInstruction) : bool :=
  match op_text e, text i with
  | Some a, Some b => String.eqb a b
  | _, _ => false
  end.

Definition ir_expression_entry_matches_instruction (e : IRExpressionEntry) (i : IRInstruction) : bool :=
  match ekind e, op i with
  | IR_EXPR_BINARY, IR_OP_BINARY =>
      same_text e i && Bool.eqb (eis_float e) (is_float i) &&
      (ir_operand_equals (elhs e) (lhs i) && ir_operand_equals (erhs e) (rhs i) ||
       match text i with
       | Some o =>
           ir_binary_op_is_commutative o && ir_operand_equals (elhs e) (rhs i) &&
           ir_operand_equals (erhs e) (lhs i)
       | None => false
       end)
  | IR_EXPR_UNARY, IR_OP_UNARY | IR_EXPR_CAST, IR_OP_CAST =>
      same_text e i && Bool.eqb (eis_float e) (is_float i) && ir_operand_equals (elhs e) (lhs i)
  | IR_EXPR_ADDRESS_OF, IR_OP_ADDRESS_OF => ir_operand_equals (elhs e) (lhs i)
  | _, _ => false
  end.

Fixpoint ir_expression_map_lookup (m : IRExpressionMap) (i : IRInstruction) : option IROperand :=
  match m with
  | [] => None
  | e :: m' =>
      if ir_expression_entry_matches_instruction e i then Some (evalue e)
      else ir_expression_map_lookup m' i
  end.

(** The entry that records an instruction; the fields its kind does not use stay
    empty. *)
Definition entry_of (i : IRInstruction) : option IRExpressionEntry :=
  match op i with
  | IR_OP_BINARY => Some (mkEntry IR_EXPR_BINARY (text i) (lhs i) (rhs i) (dest i) (is_float i))
  | IR_OP_UNARY =>
      Some (mkEntry IR_EXPR_UNARY (text i) (lhs i) IR_OPERAND_NONE (dest i) (is_float i))
  | IR_OP_CAST =>
      Some (mkEntry IR_EXPR_CAST (text i) (lhs i) IR_OPERAND_NONE (dest i) (is_float i))
  | IR_OP_ADDRESS_OF =>
      Some (mkEntry IR_EXPR_ADDRESS_OF None (lhs i) IR_OPERAND_NONE (dest i) false)
  | _ => None
  end.

Definition set_value (x : IROperand) (e : IRExpressionEntry) : IRExpressionEntry :=
  mkEntry (ekind e) (op_text e) (elhs e) (erhs e) x (eis_float e).

(** A matching entry takes the new value; otherwise the expression is appended. *)
Fixpoint ir_expression_map_store_value_for_instruction (m : IRExpressionMap) (i : IRInstruction)
    : IRExpressionMap :=
  match m with
  | [] => match entry_of i with Some e => [e] | None => [] end
  | e :: m' =>
      if ir_expression_entry_matches_instruction e i then set_value (dest i) e :: m'
      else e :: ir_expression_map_store_value_for_instruction m' i
  end.

(** The operand is the temporary, or the symbol, called [n]. *)
Definition is_temp (n : string) (x : IROperand) : bool :=
  match x with IR_OPERAND_TEMP m _ => String.eqb m n | _ => false end.
Definition is_symbol (n : string) (x : IROperand) : bool :=
  match x with IR_OPERAND_SYMBOL m _ => String.eqb m n | _ => false end.

Definition ir_expression_entry_uses_named (named : IROperand → bool) (e : IRExpressionEntry) : bool :=
  named (elhs e) || named (erhs e) || named (evalue e).

Definition ir_expression_map_invalidate_named (named : IROperand → bool) (m : IRExpressionMap)
    : IRExpressionMap :=
  List.filter (λ e, negb (ir_expression_entry_uses_named named e)) m.

(** The entries that survive the instruction's write. *)
Definition invalidate_written (i : IRInstruction) (m : IRExpressionMap) : IRExpressionMap :=
  let m1 := match ir_instruction_writes_temp i with
            | Some n => ir_expression_map_invalidate_named (is_temp n) m
            | None => m
            end in
  match ir_instruction_writes_symbol i with
  | Some n => ir_expression_map_invalidate_named (is_symbol n) m1
  | None => m1
  end.

(** Opcodes after which no expression is available. *)
Definition clears_expressions (o : IROpcode) : bool :=
  match o with
  | IR_OP_STORE | IR_OP_CALL | IR_OP_CALL_INDIRECT | IR_OP_INLINE_ASM
  | IR_OP_JUMP | IR_OP_BRANCH_ZERO | IR_OP_BRANCH_EQ | IR_OP_RETURN => true
  | _ => false
  end.

(** One iteration of the pass: the map, the instruction and [*changed] after it. *)
Definition cse_instruction (m : IRExpressionMap) (i : IRInstruction)
    : IRExpressionMap * (IRInstruction * bool) :=
  if decide (op i = IR_OP_LABEL) then ([], (i, false))
  else
    let m1 := invalidate_written i m in
    let '(m2, r) :=
      if ir_instruction_is_cse_candidate i then
        match ir_expression_map_lookup m1 i with
        | Some x => (m1, (ir_rewrite_to_assign_operand i x, true))
        | None => (ir_expression_map_store_value_for_instruction m1 i, (i, false))
        end
      else (m1, (i, false)) in
    (if clears_expressions (op r.1) then [] else m2, r).

Fixpoint cse_loop (m : IRExpressionMap) (c : code) : code * bool :=
  match c with
  | [] => ([], false)
  | i :: c' =>
      let '(m', (i', b)) := cse_instruction m i in
      let '(c'', b') := cse_loop m' c' in
      (i' :: c'', b || b')
  end.

Definition ir_common_subexpression_elimination_pass (c : code) : code * bool := cse_loop [] c.
