(* ===== verification/CSEFacts.v ===== *)
(** * Correctness of common-subexpression elimination, and where it fails

    An available expression is one whose value the recorded operand holds.  The
    pass keeps that invariant on functions where no expression overwrites one of
    its own operands; two examples show what happens on the others. *)

From stdpp Require Import gmap.
From S2P Require Import Prelude IR IRSemantics ControlFlowFacts CSE.

Section cse.
Context {M : Machine}.

(** Opcodes that may change any symbol. *)
Definition clobbers (o : IROpcode) : bool :=
  match o with
  | IR_OP_STORE | IR_OP_CALL | IR_OP_CALL_INDIRECT | IR_OP_INLINE_ASM => true
  | _ => false
  end.

Definition untouched (i : IRInstruction) (x : IROperand) : Prop :=
  match x with
  | IR_OPERAND_TEMP n _ => ir_instruction_writes_temp i ≠ Some n
  | IR_OPERAND_SYMBOL n _ => ir_instruction_writes_symbol i ≠ Some n
  | _ => True
  end.

(** The instructions the machine interprets write their destination only, and
    floating addition, multiplication and equality commute. *)
Class FrameLaws : Prop := {
  external_frame : ∀ i st st' x, external i st = Some st' →
    clobbers (op i) = false → is_kernel (op i) = false → untouched i x → eval st' x = eval st x;
  float_commutes : ∀ o w a b, ir_binary_op_is_commutative o = true →
    float_binary o w a b = float_binary o w b a }.

Section laws.
Context {L : FrameLaws}.

Lemma write_frame i v st st' x :
  writes_scalar (op i) = true → write (dest i) v st = Some st' → untouched i x →
  eval st' x = eval st x.
Proof.
  intros Hop Hw. unfold untouched, ir_instruction_writes_temp, ir_instruction_writes_symbol.
  rewrite Hop. destruct (dest i) as [|n b|n b| | | |]; simplify_eq/=;
    destruct x as [|m b'|m b'| | | |]; simpl; try done; intros Hne;
    by rewrite lookup_insert_ne by congruence.
Qed.

Lemma exec_frame i st st' x :
  exec i st = Some st' → op i ≠ IR_OP_ROTATE_ADD → clobbers (op i) = false →
  is_kernel (op i) = false → untouched i x → eval st' x = eval st x.
Proof.
  intros Hx Hr Hc Hk Hu. unfold exec in Hx.
  assert ((if computes i then v ← rhs_value i st; write (dest i) v st else external i st) = Some st'
    → eval st' x = eval st x) as Hgen.
  { destruct (computes i) eqn:Hcomp; intros H; [|by eapply external_frame].
    apply bind_Some in H as (v & _ & Hw).
    eapply write_frame; [by apply computes_scalar|done|done]. }
  destruct (op i); simplify_eq; auto.
Qed.

(** ** Entries *)

(** Well-formed code: what the invariant needs of the instructions. *)
Definition exact (x : IROperand) : Prop :=
  match x with IR_OPERAND_FLOAT (S754_zero _) _ => False | _ => True end.

Definition overwrites_operand (i : IRInstruction) : bool :=
  ir_operand_equals (dest i) (lhs i) || ir_operand_equals (dest i) (rhs i).

Definition wide (x : IROperand) : Prop :=
  match x with
  | IR_OPERAND_SYMBOL n _ => ∀ v, in_s64 v → narrow n v = v
  | _ => True
  end.

(** Per instruction. *)
Record cse_instruction_ok (i : IRInstruction) : Prop := {
  cio_plain : op i ≠ IR_OP_ROTATE_ADD ∧ is_kernel (op i) = false;
  cio_exact : exact (lhs i) ∧ exact (rhs i);
  cio_dest : ir_instruction_is_cse_candidate i = true →
    overwrites_operand i = false ∧ wide (dest i) }.

(** The same expression has the same width wherever it is computed. *)
Definition widths_agree (c : code) : Prop :=
  ∀ i j e, i ∈ c → j ∈ c → entry_of j = Some e →
    ir_expression_entry_matches_instruction e i = true →
    width (float_bits i) = width (float_bits j).

Definition cse_ok (c : code) : Prop := Forall cse_instruction_ok c ∧ widths_agree c.

Lemma operand_equals_eval_exact st x y :
  ir_operand_equals x y = true → exact x → eval st x = eval st y.
Proof.
  destruct x as [| | | |v b| |], y as [| | | |w b'| |]; simpl; try done;
    try (by intros ->%String.eqb_eq); [by intros ->%Z.eqb_eq|].
  intros [Hv Hb]%andb_true_iff Hx. apply Bool.eqb_prop in Hb. unfold width. rewrite Hb.
  assert (v = w) as ->; [|done]. unfold SFeqb, SFcompare in Hv.
  destruct v as [s|s| |s m e], w as [s'|s'| |s' m' e']; try done; try (by destruct s);
    try (by destruct s, s'); try (by destruct s').
  destruct s, s'; try done; destruct (Z.compare_spec e e') as [->|?|?]; try done;
    rewrite ?Pos.compare_cont_spec in Hv.
  all: destruct (Pos.compare_spec m m') as [->|?|?]; try done.
  all: repeat case_match; simplify_eq; try done.
Qed.

Lemma int_binary_commutes o a b :
  ir_binary_op_is_commutative o = true → int_binary o a b = int_binary o b a.
Proof.
  unfold ir_binary_op_is_commutative. intros (k & Hk & ->%String.eqb_eq)%existsb_exists.
  apply list_elem_of_In in Hk. set_unfold in Hk. unfold int_binary.
  destruct Hk as [->|[->|[->|[->|[->|[->|[->|[]]]]]]]]; simpl;
    first [by rewrite Z.add_comm|by rewrite Z.mul_comm|by rewrite Z.land_comm
          |by rewrite Z.lor_comm|by rewrite Z.lxor_comm|by rewrite Z.eqb_sym].
Qed.

Lemma binary_commutes o f w a b :
  ir_binary_op_is_commutative o = true → binary o f w a b = binary o f w b a.
Proof.
  intros Ho. unfold binary. destruct f; [by apply float_commutes|by apply int_binary_commutes].
Qed.

(** The operands an instruction computes from. *)
Definition same_operands (st st' : mstate world) (i : IRInstruction) : Prop :=
  eval st' (lhs i) = eval st (lhs i) ∧
  (op i = IR_OP_BINARY → eval st' (rhs i) = eval st (rhs i)).

Lemma rhs_value_frame st st' i : same_operands st st' i → rhs_value i st' = rhs_value i st.
Proof.
  intros [Hl Hr]. unfold rhs_value. destruct (op i); try done; try (by rewrite Hl).
  rewrite Hl, Hr; done.
Qed.

Lemma candidate_computes i : ir_instruction_is_cse_candidate i = true → computes i = true.
Proof.
  unfold ir_instruction_is_cse_candidate, computes. intros [_ H]%andb_true_iff.
  by destruct (op i), (text i).
Qed.

Lemma candidate_entry i : ir_instruction_is_cse_candidate i = true → ∃ e, entry_of i = Some e.
Proof.
  unfold ir_instruction_is_cse_candidate, entry_of. intros [_ H]%andb_true_iff.
  destruct (op i); simpl in H; eauto; by destruct (text i).
Qed.

(** [e] records the value of [j]'s expression. *)
Definition records (e : IRExpressionEntry) (j : IRInstruction) : Prop :=
  ∃ x, entry_of j = Some (set_value x e).

Lemma matching_value e i j st :
  records e j → ir_expression_entry_matches_instruction e i = true →
  exact (lhs j) ∧ exact (rhs j) → width (float_bits i) = width (float_bits j) →
  rhs_value i st = rhs_value j st.
Proof.
  intros [y He] Hm [Hl Hr] Hw.
  unfold ir_expression_entry_matches_instruction, same_text, entry_of in *.
  destruct e as [k t l r x f]. unfold set_value in He. simpl in *. unfold rhs_value.
  destruct (op j) eqn:Hoj; simplify_eq; destruct (op i) eqn:Hoi; try done.
  - destruct (lhs j), (lhs i); try done. by apply String.eqb_eq in Hm as ->.
  - apply andb_true_iff in Hm as [[Ht Hf]%andb_true_iff Hm].
    destruct (text j) as [o|]; [|done]. destruct (text i) as [o'|]; [|done].
    apply String.eqb_eq in Ht as <-. apply Bool.eqb_prop in Hf. rewrite <- Hf.
    apply orb_true_iff in Hm as [Hm|Hm].
    + apply andb_true_iff in Hm as [H1 H2].
      rewrite (operand_equals_eval_exact st _ _ H1 Hl), (operand_equals_eval_exact st _ _ H2 Hr).
      unfold binary. by rewrite Hw.
    + apply andb_true_iff in Hm as [[Hc H1]%andb_true_iff H2].
      rewrite (operand_equals_eval_exact st _ _ H1 Hl), (operand_equals_eval_exact st _ _ H2 Hr).
      destruct (eval st (lhs i)) as [a|], (eval st (rhs i)) as [b|]; simpl; try done.
      rewrite (binary_commutes _ _ _ _ _ Hc). unfold binary. by rewrite Hw.
  - apply andb_true_iff in Hm as [[Ht Hf]%andb_true_iff Hm].
    destruct (text j) as [o|]; [|done]. destruct (text i) as [o'|]; [|done].
    apply String.eqb_eq in Ht as <-. apply Bool.eqb_prop in Hf. rewrite <- Hf.
    rewrite (operand_equals_eval_exact st _ _ Hm Hl). unfold unary. by rewrite Hw.
  - apply andb_true_iff in Hm as [[Ht Hf]%andb_true_iff Hm].
    destruct (text j) as [o|]; [|done]. destruct (text i) as [o'|]; [|done].
    apply String.eqb_eq in Ht as <-. apply Bool.eqb_prop in Hf. rewrite <- Hf.
    by rewrite (operand_equals_eval_exact st _ _ Hm Hl), Hw.
Qed.

(** ** The invariant *)

(** The entry's operand holds the value its expression has in [st]. *)
Definition available (c : code) (st : mstate world) (e : IRExpressionEntry) : Prop :=
  ∃ j v, j ∈ c ∧ records e j ∧ rhs_value j st = Some v ∧ eval st (evalue e) = Some (s64 v).

Lemma available_frame c st st' e :
  available c st e →
  eval st' (elhs e) = eval st (elhs e) → eval st' (erhs e) = eval st (erhs e) →
  eval st' (evalue e) = eval st (evalue e) → available c st' e.
Proof.
  intros (j & v & Hj & [x He] & Hv & Hx) Hl Hr Hval. exists j, v.
  split_and!; [done|by exists x| |by rewrite Hval]. rewrite <- Hv. apply rhs_value_frame.
  unfold entry_of in He. destruct e as [k t l r y f]. unfold set_value in He. simpl in *.
  unfold same_operands. destruct (op j); simplify_eq; split; try done; auto.
Qed.

Lemma invalidate_untouched i m e :
  e ∈ invalidate_written i m →
  e ∈ m ∧ untouched i (elhs e) ∧ untouched i (erhs e) ∧ untouched i (evalue e).
Proof.
  unfold invalidate_written, ir_expression_map_invalidate_named. intros He.
  assert (∀ (p : IROperand → bool) m', e ∈ List.filter (λ e, negb (ir_expression_entry_uses_named p e)) m' →
    e ∈ m' ∧ p (elhs e) = false ∧ p (erhs e) = false ∧ p (evalue e) = false) as Hfilter.
  { intros p m' H. apply list_elem_of_In, filter_In in H as [H Hu].
    apply negb_true_iff in Hu. unfold ir_expression_entry_uses_named in Hu.
    apply orb_false_iff in Hu as [[? ?]%orb_false_iff ?]. split; [by apply list_elem_of_In|done]. }
  assert (∀ x, match ir_instruction_writes_temp i with Some n => is_temp n x = false | None => True end →
    match ir_instruction_writes_symbol i with Some n => is_symbol n x = false | None => True end →
    untouched i x) as Hun.
  { intros x Ht Hs. destruct x as [|m' b|m' b| | | |]; simpl; try done; intros Heq; rewrite Heq in *;
      simpl in *; by rewrite String.eqb_refl in *. }
  destruct (ir_instruction_writes_symbol i) as [n|], (ir_instruction_writes_temp i) as [n'|].
  - apply Hfilter in He as (He & ? & ? & ?). apply Hfilter in He as (He & ? & ? & ?).
    split_and!; auto.
  - apply Hfilter in He as (He & ? & ? & ?). split_and!; auto.
  - apply Hfilter in He as (He & ? & ? & ?). split_and!; auto.
  - split_and!; auto.
Qed.

Lemma invalidate_available c st st' i m :
  exec i st = Some st' → cse_instruction_ok i → clobbers (op i) = false →
  Forall (available c st) m → Forall (available c st') (invalidate_written i m).
Proof.
  intros Hx [[Hr Hk] _ _] Hc Hm. apply Forall_forall. intros e He.
  apply invalidate_untouched in He as (He & Hl & Hrr & Hv). rewrite Forall_forall in Hm.
  eapply available_frame; [by apply Hm|by eapply exec_frame..].
Qed.

(** ** One instruction *)

Lemma lookup_entry m i x :
  ir_expression_map_lookup m i = Some x →
  ∃ e, e ∈ m ∧ ir_expression_entry_matches_instruction e i = true ∧ evalue e = x.
Proof.
  induction m as [|e m IH]; simpl; [done|].
  destruct (ir_expression_entry_matches_instruction e i) eqn:Hm.
  - intros [= <-]. exists e. split; [by apply list_elem_of_here|done].
  - intros (e' & He & ? & ?)%IH. exists e'. split; [by apply list_elem_of_further|done].
Qed.

Lemma store_new m i e :
  ir_expression_map_lookup m i = None → entry_of i = Some e →
  ir_expression_map_store_value_for_instruction m i = m ++ [e].
Proof.
  intros Hl He. induction m as [|e' m IH]; simpl in *; [by rewrite He|].
  destruct (ir_expression_entry_matches_instruction e' i); [done|]. by rewrite IH.
Qed.

Lemma s64_s64 v : s64 (s64 v) = s64 v.
Proof. apply s64_in, s64_range. Qed.

Lemma write_s64 d v st : write d (s64 v) st = write d v st.
Proof. destruct d; simpl; try done; unfold write_temp, write_sym; by rewrite s64_s64. Qed.

Lemma computes_control i st :
  computes i = true → control i st = Next <$> (v ← rhs_value i st; write (dest i) v st).
Proof.
  intros Hc. unfold control, exec. rewrite Hc. unfold computes in Hc. by destruct (op i).
Qed.

Lemma operands_untouched i :
  overwrites_operand i = false → untouched i (lhs i) ∧ untouched i (rhs i).
Proof.
  intros [Hl Hr]%orb_false_iff.
  assert (∀ x, ir_operand_equals (dest i) x = false → untouched i x) as Hun; [|auto].
  intros x Hx. unfold untouched, ir_instruction_writes_temp, ir_instruction_writes_symbol.
  destruct x as [|n b|n b| | | |]; try done; intros Hw.
  - destruct (writes_scalar (op i)); [|done]. destruct (dest i); simplify_eq/=.
    by rewrite String.eqb_refl in Hx.
  - destruct (_ || _); [|done]. destruct (dest i); simplify_eq/=.
    by rewrite String.eqb_refl in Hx.
Qed.

Lemma write_eval d v st st' : write d v st = Some st' → wide d → eval st' d = Some (s64 v).
Proof.
  destruct d as [|n b|n b| | | |]; simpl; try done; intros [= <-] Hw; simpl;
    rewrite lookup_insert_eq; simpl.
  - by rewrite s64_s64.
  - by rewrite Hw, s64_s64 by apply s64_range.
Qed.

Lemma cse_instruction_spec c st m i f :
  cse_ok c → i ∈ c → op i ≠ IR_OP_LABEL → Forall (available c st) m → control i st = Some f →
  control (cse_instruction m i).2.1 st = Some f ∧
  ∀ st', f = Next st' → Forall (available c st') (cse_instruction m i).1.
Proof.
  intros [Hok Hw] Hi Hnl Hm Hf. unfold cse_instruction.
  destruct (decide (op i = IR_OP_LABEL)) as [|_]; [done|].
  rewrite Forall_forall in Hok. pose proof (Hok i Hi) as Hio.
  set (m1 := invalidate_written i m).
  assert (∀ st', exec i st = Some st' → clobbers (op i) = false → Forall (available c st') m1) as Hm1
    by (intros; by eapply invalidate_available).
  destruct (ir_instruction_is_cse_candidate i) eqn:Hcand.
  - pose proof (candidate_computes i Hcand) as Hcomp. rewrite (computes_control i st Hcomp) in Hf.
    apply fmap_Some in Hf as (st1 & Hst1 & ->).
    apply bind_Some in Hst1 as (v & Hv & Hwr).
    assert (clears_expressions (op i) = false) as Hclr by (unfold computes in Hcomp; by destruct (op i)).
    assert (exec i st = Some st1 ∧ clobbers (op i) = false) as [Hexec Hclob].
    { unfold exec. rewrite Hcomp, Hv. simpl. unfold computes in Hcomp. by destruct (op i). }
    destruct (ir_expression_map_lookup m1 i) as [x|] eqn:Hlook; simpl.
    + apply lookup_entry in Hlook as (e & He & Hmatch & <-).
      pose proof (invalidate_untouched _ _ _ He) as (Hem & _).
      rewrite Forall_forall in Hm. destruct (Hm e Hem) as (j & w & Hj & Hrec & Hjv & Hx).
      pose proof (Hok j Hj) as [_ Hex _].
      assert (width (float_bits i) = width (float_bits j)) as Hwij.
      { destruct Hrec as [y Hy]. eapply (Hw i j); [done|done|exact Hy|].
        clear -Hmatch. by destruct e. }
      rewrite (matching_value e i j st Hrec Hmatch Hex Hwij) in Hv. simplify_eq.
      split.
      * rewrite computes_control by (by destruct (evalue e)).
        assert (rhs_value (ir_rewrite_to_assign_operand i (evalue e)) st = Some (s64 v)) as ->
          by (rewrite <- Hx; by destruct (evalue e)).
        simpl. assert (dest (ir_rewrite_to_assign_operand i (evalue e)) = dest i) as ->
          by (by destruct (evalue e)).
        by rewrite write_s64, Hwr.
      * intros st' [= <-]. specialize (Hm1 st1 Hexec Hclob). by case_match.
    + rewrite Hclr. split; [by rewrite computes_control, Hv; simpl; rewrite ?Hwr|].
      intros st' [= <-]. destruct (candidate_entry i Hcand) as [e He].
      rewrite (store_new m1 i e Hlook He). apply Forall_app. split; [by apply Hm1|].
      apply Forall_singleton. destruct (cio_dest i Hio Hcand) as [Hself Hwide].
      destruct (operands_untouched i Hself) as [Hl Hr].
      destruct (cio_plain i Hio) as [Hrot Hker].
      exists i, v. split_and!; [done| | |].
      * exists (evalue e). by destruct e.
      * rewrite <- Hv. apply rhs_value_frame. split; intros; by eapply exec_frame.
      * assert (evalue e = dest i) as -> by (unfold entry_of in He; destruct (op i); by simplify_eq).
        by eapply write_eval.
  - simpl. split; [done|]. intros st' ->.
    destruct (clears_expressions (op i)) eqn:Hclr; [constructor|].
    apply Hm1; [|by destruct (op i)].
    unfold control in Hf. destruct (op i); try done; by apply fmap_Some in Hf as (? & ? & [= <-]).
Qed.

(** ** The pass *)

Definition map_at (c : code) (pc : nat) : IRExpressionMap :=
  foldl (λ m i, (cse_instruction m i).1) [] (take pc c).

Lemma cse_loop_lookup m c pc :
  (cse_loop m c).1 !! pc =
    i ← c !! pc; Some (cse_instruction (foldl (λ m i, (cse_instruction m i).1) m (take pc c)) i).2.1.
Proof.
  revert m pc. induction c as [|i c IH]; intros m pc; [done|]. simpl.
  destruct (cse_instruction m i) as [m' [i' b]] eqn:Hi. specialize (IH m').
  destruct (cse_loop m' c) as [c'' b']. simpl in *.
  destruct pc as [|pc]; simpl; rewrite ?Hi; [done|]. apply IH.
Qed.

Lemma cse_instruction_label m i l : is_label l (cse_instruction m i).2.1 = is_label l i.
Proof.
  unfold cse_instruction. case_decide; [done|].
  destruct (ir_instruction_is_cse_candidate i) eqn:Hc; [|done].
  destruct (ir_expression_map_lookup _ i) as [x|]; [|done]. simpl.
  unfold is_label. destruct x; simpl; by destruct (op i).
Qed.

Lemma cse_label_index m c l :
  ir_find_label_index (cse_loop m c).1 l = ir_find_label_index c l.
Proof.
  unfold ir_find_label_index. revert m. induction c as [|i c IH]; intros m; [done|]. simpl.
  pose proof (cse_instruction_label m i l) as Hl.
  destruct (cse_instruction m i) as [m' [i' b]]. specialize (IH m').
  destruct (cse_loop m' c) as [c'' b']. simpl in *. by rewrite Hl, IH.
Qed.

Lemma cse_preserves c v st st0 :
  cse_ok c → halts c (start st0) v st →
  halts (ir_common_subexpression_elimination_pass c).1 (start st0) v st.
Proof.
  intros Hok. unfold ir_common_subexpression_elimination_pass.
  set (inv := λ k, match k with
    | At pc s => ∀ i, c !! pc = Some i → op i = IR_OP_LABEL ∨ Forall (available c s) (map_at c pc)
    | Halted _ _ => True
    end).
  assert (∀ pc s i f, op i = IR_OP_LABEL ∨ Forall (available c s) (map_at c pc) → c !! pc = Some i → control i s = Some f →
    control (cse_instruction (map_at c pc) i).2.1 s = Some f ∧
    ∀ s', f = Next s' → Forall (available c s') (map_at c (S pc))) as Hstep.
  { intros pc s i f Hinv Hi Hf. unfold map_at at 2. rewrite (take_S_r _ _ _ Hi), foldl_app. simpl.
    fold (map_at c pc). destruct (decide (op i = IR_OP_LABEL)) as [Hl|Hl].
    - unfold cse_instruction. rewrite decide_True by done. simpl. by split; [|constructor].
    - destruct Hinv as [|Hm]; [done|].
      apply (cse_instruction_spec c s); try done. by eapply list_elem_of_lookup_2. }
  apply (simulation inv).
  - intros [pc s|w s] k' Hr; simpl; [|by intros [= <-]].
    destruct (c !! pc) as [i|] eqn:Hi; [|by intros [= <-]].
    intros (f & Hf & Hk)%bind_Some. destruct (Hstep _ _ _ _ (Hr i Hi) Hi Hf) as [_ Hnext].
    destruct f as [s'|l|w]; [|apply bind_Some in Hk as (a & Ha & Hk)|]; simplify_eq; [..|done].
    + intros i' _. right. by apply Hnext.
    + intros i' Hi'. left. apply ControlFlowFacts.find_index_Some in Ha as [(y & Hy & Hl) _].
      apply ControlFlowFacts.is_label_op in Hl as [? _]. congruence.
  - intros [pc s|w s] k' Hr Hs; exists 1; simpl in *; [|congruence].
    rewrite cse_loop_lookup. destruct (c !! pc) as [i|] eqn:Hi; simpl; [|done].
    fold (map_at c pc). destruct (control i s) as [f|] eqn:Hf; [|done].
    destruct (Hstep pc s i f (Hr i eq_refl) Hi Hf) as [-> _]. simpl in *.
    destruct f; [done| |done]. rewrite cse_label_index.
    by destruct (ir_find_label_index c l); simpl in *.
  - intros i _. right. constructor.
Qed.
End laws.
End cse.

Arguments FrameLaws M : clear implicits.

(** ** The properties *)

(** C13. Common-subexpression elimination keeps every run of a function from its start to
    its end, over any machine whose instructions write their destination only, provided
    ([cse_ok]) the fused instructions are absent, no operand is a floating zero (the pass
    takes 0.0 and -0.0 for the same), no candidate expression overwrites one of its own
    operands or is stored to a symbol narrower than its values, and expressions the pass
    takes for the same have the same width. *)
Theorem cse_correct {M : Machine} {L : FrameLaws M} c v st st0 :
  cse_ok c → halts c (start st0) v st →
  halts (ir_common_subexpression_elimination_pass c).1 (start st0) v st.
Proof. apply cse_preserves. Qed.

#[export] Instance toy_frame_laws : FrameLaws toy_machine.
Proof.
  split; [|done]. intros i st st' x [= <-] _ _ Hu. unfold untouched in Hu.
  destruct (ir_instruction_writes_temp i), (ir_instruction_writes_symbol i), x; simpl; try done;
    by rewrite lookup_insert_ne by congruence.
Qed.

(** [a = 6; b = 7; t = a * b; u = b * a; r = u + 0; return r]. *)
Definition example_cse : code :=
  [i_assign (sym "a") (int 6); i_assign (sym "b") (int 7);
   i_binary (temp "t") (sym "a") "*" (sym "b"); i_binary (temp "u") (sym "b") "*" (sym "a");
   i_binary (temp "r") (temp "u") "+" (int 0); i_return (temp "r")].

Lemma cse_correct_witness :
  ∃ st, halts (ir_common_subexpression_elimination_pass example_cse).1 (start toy_start) (Some 42%Z) st.
Proof.
  destruct (returns_halts 8 example_cse (Some 42%Z)) as [st Hst]; [vm_compute; reflexivity|].
  exists st. apply (cse_correct example_cse); [|exact Hst]. split.
  - repeat (constructor; [by split; simpl; repeat split|]). constructor.
  - intros i j e Hi Hj _ _.
    assert (∀ k, k ∈ example_cse → float_bits k = 0%Z) as H.
    { apply Forall_forall. repeat constructor. }
    by rewrite !H.
Defined.

(** The pass did replace [b * a] by [t]. *)
Example example_cse_shares :
  (ir_common_subexpression_elimination_pass example_cse).1 !! 3%nat =
    Some (i_assign (temp "u") (temp "t")).
Proof. vm_compute. reflexivity. Qed.

(** [i = 0; i = i + 1; j = i + 1; return j]. *)
Definition increment_twice : code :=
  [i_assign (sym "i") (int 0); i_binary (sym "i") (sym "i") "+" (int 1);
   i_binary (sym "j") (sym "i") "+" (int 1); i_return (sym "j")].

(** An expression that overwrites its own operand is recorded as available, and
    the next use of the same text gets the stale value: incrementing twice returns
    2, and 1 after the pass. *)
Theorem cse_self_update_miscompiled :
  returns 5 increment_twice = Some (Some 2%Z) ∧
  returns 5 (ir_common_subexpression_elimination_pass increment_twice).1 = Some (Some 1%Z).
Proof. vm_compute. done. Qed.

(** [a = 1; b = 2; t = a + 1; (n, a, b) = (a + b, b, n); u = a + 1; return u]. *)
Definition rotate_between : code :=
  [i_assign (sym "a") (int 1); i_assign (sym "b") (int 2);
   i_binary (temp "t") (sym "a") "+" (int 1);
   instr IR_OP_ROTATE_ADD (sym "n") (sym "a") (sym "b") (Some "+"%string);
   i_binary (temp "u") (sym "a") "+" (int 1); i_return (temp "u")].

(** [IR_OP_ROTATE_ADD] also writes its operands, which the pass does not see: an
    expression over them computed before the rotation replaces the one after it. *)
Theorem cse_rotate_add_miscompiled :
  returns 7 rotate_between = Some (Some 3%Z) ∧
  returns 7 (ir_common_subexpression_elimination_pass rotate_between).1 = Some (Some 2%Z).
Proof. vm_compute. done. Qed.

(** Positive and negative zero are the same operand to the pass, so a division
    by one is replaced by the division by the other. *)
Theorem cse_merges_signed_zeros :
  let divide t z := mkInstruction IR_OP_BINARY 0 (temp t) (sym "x") (IR_OPERAND_FLOAT (S754_zero z) 64)
    (Some "/"%string) [] true 64 None in
  (ir_common_subexpression_elimination_pass [divide "t" false; divide "u" true]).1 !! 1%nat =
    Some (ir_rewrite_to_assign_operand (divide "u" true) (temp "t")).
Proof. vm_compute. reflexivity. Qed.
