(* ===== verification/TempUse.v ===== *)
(** * Counting the uses of temporaries: src/src/ir/ir_optimize.c, [IRTempUseMap]

    The map is an array of entries with an open-addressing index over their names.
    The passes that count uses are written against the class [UseMap], whose laws
    the hash table is proved to obey. *)

From S2P Require Import Prelude Probe IR.

(** ** The interface *)

(** [None]: an operation that never returns. *)
Class UseMap (A : Type) : Type := {
  use_init : A;
  use_add : A → string → option A;
  use_get : A → string → option nat;
  use_discard : A → string → option A }.

(** The counts a map stands for. *)
Class UseMapLaws (A : Type) {U : UseMap A} : Type := {
  counts : A → (string → nat) → Prop;
  counts_init : counts use_init (λ _, 0);
  counts_add m f n : counts m f →
    ∃ m', use_add m n = Some m' ∧ counts m' (λ k, if String.eqb k n then S (f k) else f k);
  counts_get m f n : counts m f → use_get m n = Some (f n);
  counts_discard m f n : counts m f →
    ∃ m', use_discard m n = Some m' ∧ counts m' (λ k, if String.eqb k n then 0 else f k) }.

(** ** The hash table *)

Record IRTempUseMap : Type := mkUses {
  items : list (string * nat);
  hash : list nat }.                        (* empty when the pointer is NULL *)

Definition item_name (m : IRTempUseMap) (i : nat) : option string := fst <$> items m !! i.
Definition item_hash (its : list (string * nat)) (i : nat) : N :=
  match its !! i with Some (n, _) => mettle_fnv1a_hash n | None => 0 end.

Definition ir_temp_use_map_init : IRTempUseMap := mkUses [] [].

(** The doubling loop that picks the size. *)
Fixpoint grow_target (fuel : nat) (target needed : nat) : nat :=
  match fuel with
  | O => target
  | S f => if target <? needed * 2 then grow_target f (target * 2) needed else target
  end.

Definition ir_temp_use_map_hash_put (m : IRTempUseMap) (index : nat) : option IRTempUseMap :=
  bs ← probe_insert (hash m) (item_hash (items m) index) (S index);
  Some (mkUses (items m) bs).

Definition ir_temp_use_map_hash_reserve (m : IRTempUseMap) (needed : nat) : option IRTempUseMap :=
  let target := grow_target needed 16 needed in
  if negb (length (hash m) =? 0) && (target <=? length (hash m)) then Some m
  else
    bs ← rebuild_loop (item_hash (items m)) (length (items m)) 0 (replicate target 0);
    Some (mkUses (items m) bs).

Definition named (its : list (string * nat)) (n : string) (i : nat) : bool :=
  match its !! i with Some (k, _) => String.eqb k n | None => false end.

Definition ir_temp_use_map_find (m : IRTempUseMap) (n : string) : option (option nat) :=
  if length (hash m) =? 0 then Some None
  else probe_find (named (items m) n) (hash m) (mettle_fnv1a_hash n).

Definition ir_temp_use_map_add (m : IRTempUseMap) (n : string) : option IRTempUseMap :=
  r ← ir_temp_use_map_find m n;
  match r with
  | Some i => Some (mkUses (alter (λ '(k, c), (k, S c)) i (items m)) (hash m))
  | None =>
      m1 ← ir_temp_use_map_hash_reserve m (S (length (items m)));
      ir_temp_use_map_hash_put (mkUses (items m1 ++ [(n, 1)]) (hash m1)) (length (items m1))
  end.

Definition ir_temp_use_map_get (m : IRTempUseMap) (n : string) : option nat :=
  r ← ir_temp_use_map_find m n;
  match r with
  | Some i => snd <$> items m !! i
  | None => Some 0
  end.

Definition ir_temp_use_map_discard (m : IRTempUseMap) (n : string) : option IRTempUseMap :=
  r ← ir_temp_use_map_find m n;
  match r with
  | Some i => Some (mkUses (alter (λ '(k, c), (k, 0)) i (items m)) (hash m))
  | None => Some m
  end.

#[export] Instance hash_use_map : UseMap IRTempUseMap := {|
  use_init := ir_temp_use_map_init;
  use_add := ir_temp_use_map_add;
  use_get := ir_temp_use_map_get;
  use_discard := ir_temp_use_map_discard |}.

(** ** Collecting uses *)

Section collect.
Context {A : Type} {U : UseMap A}.

Definition ir_collect_operand_temp_use (uses : A) (x : IROperand) : option A :=
  match x with IR_OPERAND_TEMP n _ => use_add uses n | _ => Some uses end.

Fixpoint collect_operands (uses : A) (l : list IROperand) : option A :=
  match l with
  | [] => Some uses
  | x :: l' => u ← ir_collect_operand_temp_use uses x; collect_operands u l'
  end.

(** The operands an instruction reads, as the optimizer sees it. *)
Definition operands_read (i : IRInstruction) : list IROperand :=
  if bool_decide (op i = IR_OP_STORE) || is_kernel (op i) then
    dest i :: lhs i :: rhs i :: arguments i
  else
    match op i with
    | IR_OP_ASSIGN | IR_OP_ADDRESS_OF | IR_OP_LOAD | IR_OP_BINARY | IR_OP_UNARY | IR_OP_CAST
    | IR_OP_NEW | IR_OP_BRANCH_ZERO | IR_OP_BRANCH_EQ | IR_OP_CALL | IR_OP_CALL_INDIRECT
    | IR_OP_RETURN => lhs i :: rhs i :: arguments i
    | _ => []
    end.

Definition ir_collect_instruction_temp_uses (uses : A) (i : IRInstruction) : option A :=
  collect_operands uses (operands_read i).

Fixpoint collect_code (uses : A) (c : code) : option A :=
  match c with
  | [] => Some uses
  | i :: c' => u ← ir_collect_instruction_temp_uses uses i; collect_code u c'
  end.

(** ** Dead writes *)

(** The live map and the flag [crossed_label] below the current instruction, and
    the rewritten code with [*changed]. *)
Record dead_state : Type := mkDead {
  live : A;
  crossed_label : bool;
  rewritten : code * bool }.

(** One iteration of the backward loop. *)
Definition dead_instruction (i : IRInstruction) (s : dead_state) : option dead_state :=
  let crossed := crossed_label s || bool_decide (op i = IR_OP_LABEL) in
  let keep live := mkDead live crossed (i :: (rewritten s).1, (rewritten s).2) in
  match ir_instruction_writes_temp i with
  | Some n =>
      count ← use_get (live s) n;
      if (count =? 0) && ir_instruction_is_trivially_dead_if_dest_unused i then
        Some (mkDead (live s) crossed (ir_instruction_make_nop i :: (rewritten s).1, true))
      else
        l ← (if crossed then Some (live s) else use_discard (live s) n);
        keep <$> ir_collect_instruction_temp_uses l i
  | None => keep <$> ir_collect_instruction_temp_uses (live s) i
  end.

Fixpoint dead_loop (c : code) : option dead_state :=
  match c with
  | [] => Some (mkDead use_init false ([], false))
  | i :: c' => s ← dead_loop c'; dead_instruction i s
  end.

Definition ir_eliminate_dead_temp_writes_pass (c : code) : option (code * bool) :=
  rewritten <$> dead_loop c.
End collect.
Arguments mkDead {A}.
Arguments live {A}.
Arguments crossed_label {A}.
Arguments rewritten {A}.
