(* ===== verification/TempUseFacts.v ===== *)
(** * Correctness of use counting and of dead-write elimination *)

From stdpp Require Import gmap.
From S2P Require Import Prelude Probe IR IRSemantics ControlFlowFacts TempUse.

(** ** The hash table obeys the laws of a map of counts *)

Fixpoint count_of (its : list (string * nat)) (n : string) : nat :=
  match its with
  | [] => 0
  | (k, c) :: its' => if String.eqb k n then c else count_of its' n
  end.

Record uses_ok (m : IRTempUseMap) : Prop := {
  uo_names : NoDup (fst <$> items m);
  uo_index : hash m = [] ∧ items m = [] ∨
    index_ok (item_hash (items m)) (hash m) (length (items m)) ∧
    length (items m) * 2 ≤ length (hash m) }.

Lemma named_true its n i : named its n i = true ↔ ∃ c, its !! i = Some (n, c).
Proof.
  unfold named. destruct (its !! i) as [[k c]|].
  - rewrite String.eqb_eq. split; [intros ->; by exists c|intros [? [= -> _]]; done].
  - split; [done|by intros []].
Qed.

Lemma count_of_lookup its n i c :
  NoDup (fst <$> its) → its !! i = Some (n, c) → count_of its n = c.
Proof.
  revert i. induction its as [|[k d] its IH]; intros i Hnd Hi; [done|]. simpl in *.
  apply NoDup_cons in Hnd as [Hk Hnd]. destruct i as [|i]; simpl in Hi; simplify_eq.
  - by rewrite String.eqb_refl.
  - destruct (String.eqb_spec k n) as [->|]; [|by eapply IH].
    destruct Hk. apply list_elem_of_fmap. exists (n, c). split; [done|by eapply list_elem_of_lookup_2].
Qed.

Lemma count_of_absent its n : (∀ i, named its n i = false) → count_of its n = 0.
Proof.
  induction its as [|[k c] its IH]; intros Hno; simpl; [done|].
  pose proof (Hno 0) as H0. unfold named in H0. simpl in H0. rewrite H0.
  apply IH. intros i. apply (Hno (S i)).
Qed.

Lemma find_spec m n :
  uses_ok m →
  (∃ i c, ir_temp_use_map_find m n = Some (Some i) ∧ items m !! i = Some (n, c)) ∨
  (ir_temp_use_map_find m n = Some None ∧ ∀ i, named (items m) n i = false).
Proof.
  intros [_ Hix]. unfold ir_temp_use_map_find.
  destruct Hix as [[-> Hitems]|[Hix Hload]].
  { right. split; [done|]. intros i. unfold named. by rewrite Hitems. }
  pose proof (power_of_two_pos _ (ix_size _ _ _ Hix)).
  destruct (Nat.eqb_spec (length (hash m)) 0); [lia|].
  assert (∀ i, i < length (items m) → named (items m) n i = true →
    item_hash (items m) i = mettle_fnv1a_hash n) as Hhome.
  { intros i _ [c Hi]%named_true. unfold item_hash. by rewrite Hi. }
  pose proof (probe_find_spec _ _ _ _ _ Hix ltac:(lia) Hhome) as Hf.
  destruct (probe_find _ _ _) as [[i|]|]; [| |done].
  - destruct Hf as (_ & [c Hi]%named_true & _). left. by exists i, c.
  - right. split; [done|]. intros i. destruct (Nat.lt_ge_cases i (length (items m))); [by apply Hf|].
    unfold named. by rewrite lookup_ge_None_2.
Qed.

(** Changing a count keeps the names, hence the index. *)
Lemma alter_count_ok m i (f : string * nat → string * nat) :
  (∀ p, (f p).1 = p.1) → uses_ok m → uses_ok (mkUses (alter f i (items m)) (hash m)).
Proof.
  intros Hf [Hnd Hix].
  assert (∀ j, fst <$> alter f i (items m) !! j = fst <$> items m !! j) as Hnames.
  { intros j. destruct (decide (i = j)) as [->|Hne].
    - rewrite list_lookup_alter_eq. destruct (items m !! j); simpl; [by rewrite Hf|done].
    - by rewrite list_lookup_alter_ne. }
  assert (fst <$> alter f i (items m) = fst <$> items m) as Heq.
  { apply list_eq. intros j. by rewrite !list_lookup_fmap, Hnames. }
  split; simpl; [by rewrite Heq|]. destruct Hix as [[-> ->]|[Hix Hload]]; [by left|right].
  rewrite length_alter. split; [|done]. eapply index_ok_ext, Hix. intros j _.
  unfold item_hash. specialize (Hnames j).
  destruct (alter f i (items m) !! j) as [[]|], (items m !! j) as [[]|]; simplify_eq/=; done.
Qed.

Lemma count_of_alter its i n c g k :
  NoDup (fst <$> its) → its !! i = Some (n, c) →
  count_of (alter (λ '(k, c), (k, g c)) i its) k = if String.eqb k n then g c else count_of its k.
Proof.
  revert i. induction its as [|[k' d] its IH]; intros i Hnd Hi; [done|].
  apply NoDup_cons in Hnd as [Hk Hnd]. destruct i as [|i]; simpl in Hi; simplify_eq; simpl.
  - rewrite (String.eqb_sym k n). by destruct (String.eqb n k).
  - change (list_alter ?f i its) with (alter f i its). rewrite (IH i Hnd Hi).
    destruct (String.eqb_spec k' k) as [->|]; [|done].
    destruct (String.eqb_spec k n) as [Hkn|]; [|done]. exfalso. apply Hk. simpl. rewrite Hkn.
    apply list_elem_of_fmap. exists (n, c). split; [done|by eapply list_elem_of_lookup_2].
Qed.

Lemma grow_target_spec fuel target needed :
  power_of_two target → needed * 2 ≤ target * 2 ^ fuel →
  power_of_two (grow_target fuel target needed) ∧ needed * 2 ≤ grow_target fuel target needed.
Proof.
  revert target. induction fuel as [|f IH]; intros target Hp Hle; simpl.
  - simpl in Hle. split; [done|lia].
  - destruct (Nat.ltb_spec target (needed * 2)); [|split; [done|lia]].
    apply IH; [by apply power_of_two_double|]. rewrite Nat.pow_succ_r' in Hle. lia.
Qed.

Lemma reserve_spec m :
  uses_ok m →
  ∃ bs, ir_temp_use_map_hash_reserve m (S (length (items m))) = Some (mkUses (items m) bs) ∧
    index_ok (item_hash (items m)) bs (length (items m)) ∧ S (length (items m)) * 2 ≤ length bs.
Proof.
  intros [_ Hix]. unfold ir_temp_use_map_hash_reserve. set (n := S (length (items m))).
  destruct (grow_target_spec n 16 n) as [Hp Hle]; [by exists 4| |].
  { pose proof (Nat.pow_gt_lin_r 2 n ltac:(lia)). lia. }
  set (target := grow_target n 16 n) in *.
  destruct (Nat.eqb_spec (length (hash m)) 0) as [Hz|Hz]; simpl;
    [|destruct (Nat.leb_spec target (length (hash m)))].
  2: { exists (hash m). destruct Hix as [[Hh _]|[Hix _]]; [by rewrite Hh in Hz|].
       split_and!; [by destruct m|done|lia]. }
  all: destruct (rebuild_loop_spec (item_hash (items m)) (length (items m)) 0 (replicate target 0))
    as (bs & -> & Hlen & Hbs); [by apply index_empty|rewrite length_replicate; lia|];
    exists bs; rewrite length_replicate in Hlen; rewrite Hlen; split_and!; [done|exact Hbs|done].
Qed.

Lemma add_new m n :
  uses_ok m → (∀ i, named (items m) n i = false) →
  ∃ bs, (m1 ← ir_temp_use_map_hash_reserve m (S (length (items m)));
    ir_temp_use_map_hash_put (mkUses (items m1 ++ [(n, 1)]) (hash m1)) (length (items m1))) =
      Some (mkUses (items m ++ [(n, 1)]) bs) ∧ uses_ok (mkUses (items m ++ [(n, 1)]) bs).
Proof.
  intros Hok Hnew. destruct (reserve_spec m Hok) as (bs & -> & Hix & Hload). simpl.
  set (its := items m ++ [(n, 1)]).
  assert (index_ok (item_hash its) bs (length (items m))) as Hix'.
  { eapply index_ok_ext, Hix. intros i Hi. unfold item_hash, its. by rewrite lookup_app_l. }
  destruct (probe_insert_spec (item_hash its) bs (length (items m)) Hix') as (bs' & Hput & Hlen & Hix2);
    [lia|].
  exists bs'. unfold ir_temp_use_map_hash_put. cbn [hash items]. rewrite Hput. split; [done|].
  assert (length its = S (length (items m))) as Hits by (unfold its; rewrite length_app; simpl; lia).
  split; cbn [hash items].
  - unfold its. rewrite fmap_app. simpl. apply NoDup_app. split_and!; [by apply Hok| |apply NoDup_singleton].
    intros k Hk Hin. apply list_elem_of_singleton in Hin as ->.
    apply list_elem_of_fmap in Hk as ([k c] & -> & [i Hi]%list_elem_of_lookup_1).
    assert (named (items m) k i = true) by (apply named_true; by exists c). by rewrite Hnew in *.
  - right. rewrite Hits. split; [done|]. lia.
Qed.

Lemma count_of_snoc its n k :
  (∀ i, named its n i = false) →
  count_of (its ++ [(n, 1)]) k = if String.eqb k n then S (count_of its k) else count_of its k.
Proof.
  induction its as [|[k' c] its IH]; intros Hno; simpl.
  - rewrite String.eqb_sym. by destruct (String.eqb n k).
  - rewrite IH by (intros i; apply (Hno (S i))).
    destruct (String.eqb_spec k' k) as [->|]; [|done].
    pose proof (Hno 0) as H0. unfold named in H0. simpl in H0. by rewrite H0.
Qed.

#[export] Instance hash_use_map_laws : UseMapLaws IRTempUseMap.
Proof.
  refine {| counts m f := uses_ok m ∧ ∀ n, f n = count_of (items m) n |}.
  - split; [|done]. split; [constructor|by left].
  - intros m f n [Hok Hf]. simpl. unfold ir_temp_use_map_add.
    destruct (find_spec m n Hok) as [(i & c & -> & Hi)|[-> Hno]]; cbn [mbind option_bind].
    + eexists. split; [done|]. split; [apply alter_count_ok; [by intros []|done]|].
      intros k. cbn [items]. rewrite (count_of_alter _ _ _ _ S _ (uo_names _ Hok) Hi), !Hf.
      destruct (String.eqb_spec k n) as [->|]; [|done].
      by rewrite (count_of_lookup _ _ _ _ (uo_names _ Hok) Hi).
    + destruct (add_new m n Hok Hno) as (bs & -> & Hok'). eexists. split; [done|].
      split; [done|]. intros k. simpl. by rewrite (count_of_snoc _ _ _ Hno), !Hf.
  - intros m f n [Hok Hf]. simpl. unfold ir_temp_use_map_get. rewrite Hf.
    destruct (find_spec m n Hok) as [(i & c & -> & Hi)|[-> Hno]]; cbn [mbind option_bind].
    + by rewrite Hi, (count_of_lookup _ _ _ _ (uo_names _ Hok) Hi).
    + by rewrite count_of_absent.
  - intros m f n [Hok Hf]. simpl. unfold ir_temp_use_map_discard.
    destruct (find_spec m n Hok) as [(i & c & -> & Hi)|[-> Hno]]; cbn [mbind option_bind].
    + eexists. split; [done|]. split; [apply alter_count_ok; [by intros []|done]|].
      intros k. cbn [items].
      rewrite (count_of_alter _ _ _ _ (λ _, 0) _ (uo_names _ Hok) Hi). by rewrite Hf.
    + exists m. split; [done|]. split; [done|]. intros k.
      destruct (String.eqb_spec k n) as [->|]; [by rewrite count_of_absent|apply Hf].
Defined.

(** ** Collecting the uses counts the operands read *)

(** How many operands of the list are the temporary [n]. *)
Definition occurrences (n : string) (l : list IROperand) : nat :=
  length (List.filter (λ x, match temp_name x with Some k => String.eqb k n | None => false end) l).

Lemma occurrences_app n l1 l2 : occurrences n (l1 ++ l2) = occurrences n l1 + occurrences n l2.
Proof. unfold occurrences. by rewrite List.filter_app, length_app. Qed.

Section collect.
Context {A : Type} {U : UseMap A} {UL : UseMapLaws A}.

Lemma collect_operands_counts l m f :
  counts m f →
  ∃ m' f', collect_operands m l = Some m' ∧ counts m' f' ∧ ∀ n, f' n = f n + occurrences n l.
Proof.
  revert m f. induction l as [|x l IH]; intros m f Hm; simpl.
  { exists m, f. split_and!; [done..|]. intros n. unfold occurrences. simpl. lia. }
  assert (∃ m1 f1, ir_collect_operand_temp_use m x = Some m1 ∧ counts m1 f1 ∧
    ∀ n, f1 n = f n + occurrences n [x]) as (m1 & f1 & -> & H1 & Hf1).
  { unfold occurrences. destruct x as [|k bits|k bits|v|v bits|k|k]; simpl;
      try (exists m, f; split_and!; [done..|intros n; lia]).
    destruct (counts_add m f k Hm) as (m1 & Hadd & H1). eexists m1, _. split_and!; [done..|].
    intros n. rewrite (String.eqb_sym k n). destruct (String.eqb n k); simpl; lia. }
  destruct (IH _ _ H1) as (m2 & f2 & Hc & H2 & Hf2). exists m2, f2. simpl.
  split_and!; [done..|]. intros n. rewrite Hf2, Hf1. unfold occurrences. simpl.
  destruct (match temp_name x with Some k => String.eqb k n | None => false end); simpl; lia.
Qed.

Lemma collect_code_counts c m f :
  counts m f →
  ∃ m' f', collect_code m c = Some m' ∧ counts m' f' ∧
    ∀ n, f' n = f n + occurrences n (concat (operands_read <$> c)).
Proof.
  revert m f. induction c as [|i c IH]; intros m f Hm; simpl.
  { exists m, f. split_and!; [done..|]. intros n. unfold occurrences. simpl. lia. }
  destruct (collect_operands_counts (operands_read i) m f Hm) as (m1 & f1 & Hc1 & H1 & Hf1).
  unfold ir_collect_instruction_temp_uses. rewrite Hc1. simpl.
  destruct (IH _ _ H1) as (m2 & f2 & -> & H2 & Hf2). exists m2, f2. split_and!; [done..|].
  intros n. rewrite Hf2, Hf1. rewrite <- Nat.add_assoc. f_equal. symmetry. apply occurrences_app.
Qed.
End collect.

(** C36. Collecting the uses of a function in the hash table always ends, and the table
    then answers for every temporary the number of operands that read it. *)
Theorem use_counts_exact c :
  ∃ m, collect_code ir_temp_use_map_init c = Some m ∧
    ∀ n, ir_temp_use_map_get m n = Some (occurrences n (concat (operands_read <$> c))).
Proof.
  destruct (collect_code_counts c ir_temp_use_map_init (λ _, 0)) as (m & f & Hc & Hm & Hf);
    [exact (counts_init (A := IRTempUseMap))|].
  exists m. split; [done|]. intros n. rewrite (counts_get (A := IRTempUseMap) m f n Hm : ir_temp_use_map_get m n = _).
  by rewrite Hf.
Qed.
