(* ===== verification/DeadTempFacts.v ===== *)
(** * Correctness of the elimination of dead writes to temporaries

    The pass of TempUse.v, over any map of counts, computes the backward analysis
    [live_spec]; a program none of whose loops carries a temporary then computes the
    same result, symbols and memory. *)

From stdpp Require Import gmap.
From S2P Require Import Prelude IR IRSemantics ControlFlowFacts TempUse TempUseFacts.

(** ** The analysis *)

Definition reads (t : string) (i : IRInstruction) : bool :=
  existsb (λ x, match temp_name x with Some n => String.eqb n t | None => false end) (operands_read i).

Definition writes (t : string) (i : IRInstruction) : bool :=
  match ir_instruction_writes_temp i with Some n => String.eqb n t | None => false end.

(** Removed when the temporaries [L] are live below. *)
Definition dead (L : string → bool) (i : IRInstruction) : bool :=
  match ir_instruction_writes_temp i with
  | Some n => negb (L n) && ir_instruction_is_trivially_dead_if_dest_unused i
  | None => false
  end.

(** The temporaries live before the code, and whether it holds a label: writes kill
    only in the code after the last label. *)
Fixpoint live_spec (c : code) : (string → bool) * bool :=
  match c with
  | [] => (λ _, false, false)
  | i :: c' =>
      let L := (live_spec c').1 in
      let crossed := (live_spec c').2 || bool_decide (op i = IR_OP_LABEL) in
      if dead L i then (L, crossed)
      else (λ t, reads t i || (L t && (crossed || negb (writes t i))), crossed)
  end.

Fixpoint dead_spec (c : code) : code :=
  match c with
  | [] => []
  | i :: c' => (if dead (live_spec c').1 i then ir_instruction_make_nop i else i) :: dead_spec c'
  end.

(** Live before the instruction at [pc]. *)
Definition live_at (c : code) (pc : nat) : string → bool := (live_spec (drop pc c)).1.

Definition jump_target (i : IRInstruction) : option string :=
  match op i with
  | IR_OP_JUMP | IR_OP_BRANCH_ZERO | IR_OP_BRANCH_EQ => text i
  | _ => None
  end.

(** Some path from [pc] reads the temporary before it writes it. *)
Inductive needed (c : code) (t : string) : nat → Prop :=
  | needed_here pc i : c !! pc = Some i → reads t i = true → needed c t pc
  | needed_next pc i : c !! pc = Some i → writes t i = false → needed c t (S pc) → needed c t pc
  | needed_jump pc i l j :
      c !! pc = Some i → jump_target i = Some l → ir_find_label_index c l = Some j →
      needed c t j → needed c t pc.

(** No loop carries a temporary from one iteration to the next: what is needed where a
    backward jump leads is live at the jump, or not written from there on. *)
Definition no_carried_temp (c : code) : Prop :=
  ∀ pc i l j t, c !! pc = Some i → jump_target i = Some l → ir_find_label_index c l = Some j →
    j ≤ pc → needed c t j → live_at c j t = true →
    live_at c pc t = true ∨ ∀ k i', j ≤ k → c !! k = Some i' → writes t i' = false.

(** The operands [IR_OP_ROTATE_ADD] updates are symbols. *)
Definition rotates_symbols (i : IRInstruction) : Prop :=
  op i = IR_OP_ROTATE_ADD → temp_name (lhs i) = None ∧ temp_name (rhs i) = None.

(** ** The pass computes the analysis *)

Section pass.
Context {A : Type} {U : UseMap A} {UL : UseMapLaws A}.

Lemma occurrences_zero n l :
  (occurrences n l =? 0) =
  negb (existsb (λ x, match temp_name x with Some k => String.eqb k n | None => false end) l).
Proof.
  induction l as [|x l IH]; [done|]. unfold occurrences in *. simpl.
  by destruct (match temp_name x with Some k => String.eqb k n | None => false end).
Qed.

Lemma collect_reads i m f :
  counts m f →
  ∃ m' f', ir_collect_instruction_temp_uses m i = Some m' ∧ counts m' f' ∧
    ∀ t, negb (f' t =? 0) = reads t i || negb (f t =? 0).
Proof.
  intros Hm. destruct (collect_operands_counts (operands_read i) m f Hm) as (m' & f' & Hc & H' & Hf').
  exists m', f'. split_and!; [done..|]. intros t.
  assert ((f' t =? 0) = (occurrences t (operands_read i) =? 0) && (f t =? 0)) as ->.
  { rewrite Hf'. destruct (f t), (occurrences t (operands_read i)); done. }
  by rewrite occurrences_zero, negb_andb, negb_involutive.
Qed.

Lemma dead_loop_spec (c : code) :
  ∃ s f, dead_loop (A := A) c = Some s ∧ counts (live s) f ∧
    (∀ t, (live_spec c).1 t = negb (f t =? 0)) ∧ crossed_label s = (live_spec c).2 ∧
    (rewritten s).1 = dead_spec c.
Proof.
  induction c as [|i c (s & f & Hs & Hcnt & Hf & Hcr & Hrw)]; simpl.
  { eexists _, _. split_and!; [done|apply counts_init|done..]. }
  rewrite Hs. simpl. unfold dead_instruction. rewrite Hcr. unfold dead, writes.
  set (crossed := (live_spec c).2 || _).
  destruct (ir_instruction_writes_temp i) as [n|] eqn:Hw.
  - rewrite (counts_get _ _ _ Hcnt). simpl. rewrite Hf, negb_involutive.
    destruct ((f n =? 0) && ir_instruction_is_trivially_dead_if_dest_unused i); simpl.
    { eexists _, f. split_and!; simpl; [done..|]. by rewrite Hrw. }
    destruct crossed; simpl.
    + destruct (collect_reads i _ _ Hcnt) as (m' & f' & -> & H' & Hf'). simpl.
      eexists _, f'. split_and!; simpl; [done..| |done|by rewrite Hrw].
      intros t. by rewrite Hf', Hf, andb_true_r.
    + destruct (counts_discard _ _ n Hcnt) as (m1 & -> & H1). simpl.
      destruct (collect_reads i _ _ H1) as (m' & f' & -> & H' & Hf'). simpl.
      eexists _, f'. split_and!; simpl; [done..| |done|by rewrite Hrw].
      intros t. rewrite Hf', Hf, (String.eqb_sym n t).
      by destruct (String.eqb t n); simpl; rewrite ?andb_true_r, ?andb_false_r.
  - destruct (collect_reads i _ _ Hcnt) as (m' & f' & -> & H' & Hf'). simpl.
    eexists _, f'. split_and!; simpl; [done..| |done|by rewrite Hrw].
    intros t. by rewrite Hf', Hf, orb_true_r, andb_true_r.
Qed.
End pass.

(** ** The analysis along the code *)

Lemma dead_spec_lookup c pc :
  dead_spec c !! pc =
  (λ i, if dead (live_at c (S pc)) i then ir_instruction_make_nop i else i) <$> c !! pc.
Proof.
  revert pc. induction c as [|i c IH]; intros pc; [done|]. destruct pc as [|pc]; simpl; [|apply IH].
  unfold live_at. simpl. by rewrite drop_0.
Qed.

Lemma dead_not_label L i : dead L i = true → op i ≠ IR_OP_LABEL.
Proof.
  unfold dead. destruct (ir_instruction_writes_temp i); [|done].
  intros [_ H]%andb_true_iff Ho. unfold ir_instruction_is_trivially_dead_if_dest_unused in H.
  by rewrite Ho in H.
Qed.

Lemma dead_spec_label c l : ir_find_label_index (dead_spec c) l = ir_find_label_index c l.
Proof.
  unfold ir_find_label_index. induction c as [|i c IH]; simpl; [done|].
  destruct (dead (live_spec c).1 i) eqn:Hd; [|by rewrite IH].
  apply dead_not_label in Hd. rewrite IH.
  assert (is_label l i = false) as -> by (unfold is_label; by destruct (op i)). done.
Qed.

Lemma live_at_step c pc i :
  c !! pc = Some i → dead (live_at c (S pc)) i = false →
  (∀ t, reads t i = true → live_at c pc t = true) ∧
  (∀ t, live_at c (S pc) t = true → writes t i = false → live_at c pc t = true).
Proof.
  intros Hi Hd. unfold live_at in *. rewrite (drop_S _ _ _ Hi). simpl. rewrite Hd. simpl.
  split; [by intros t ->|]. intros t -> ->. by rewrite !orb_true_r.
Qed.

Lemma live_at_dead c pc i :
  c !! pc = Some i → dead (live_at c (S pc)) i = true →
  ∀ t, live_at c (S pc) t = live_at c pc t.
Proof. intros Hi Hd t. unfold live_at in *. rewrite (drop_S _ _ _ Hi). simpl. by rewrite Hd. Qed.

(** Nothing stops being live above a label. *)
Lemma live_above_label c1 c2 t :
  (live_spec c2).2 = true → (live_spec c2).1 t = true →
  (live_spec (c1 ++ c2)).1 t = true ∧ (live_spec (c1 ++ c2)).2 = true.
Proof.
  intros Hc Ht. induction c1 as [|i c1 [IH1 IH2]]; [done|]. simpl. rewrite IH2.
  destruct (dead _ i); simpl; [done|]. by rewrite IH1, orb_true_r.
Qed.

Lemma live_at_label c l j k t :
  ir_find_label_index c l = Some j → k ≤ j → live_at c j t = true → live_at c k t = true.
Proof.
  intros Hl Hk Ht. apply find_index_Some in Hl as [(i & Hi & Hlab) _].
  assert ((live_spec (drop j c)).2 = true) as Hc.
  { rewrite (drop_S _ _ _ Hi). simpl.
    assert (bool_decide (op i = IR_OP_LABEL) = true) as ->.
    { unfold is_label in Hlab. apply bool_decide_eq_true. by destruct (op i). }
    rewrite orb_true_r. by destruct (dead _ i). }
  unfold live_at in *.
  replace (drop k c) with (take (j - k) (drop k c) ++ drop j c).
  - by apply live_above_label.
  - replace j with (k + (j - k)) at 2 by lia. by rewrite <- drop_drop, take_drop.
Qed.

(** ** The program computes the same *)

(** An uninterpreted instruction sees the symbols, the memory and the temporaries it
    reads, and changes no temporary but its destination; a unary operator only that. *)
Class LocalLaws (M : Machine) : Prop := {
  external_local i st1 st2 st1' :
    syms st1 = syms st2 → memory st1 = memory st2 →
    (∀ t, reads t i = true → temps st1 !! t = temps st2 !! t) →
    external i st1 = Some st1' →
    ∃ st2', external i st2 = Some st2' ∧ syms st1' = syms st2' ∧ memory st1' = memory st2' ∧
      ∀ t, if writes t i then temps st1' !! t = temps st2' !! t
           else temps st1' !! t = temps st1 !! t ∧ temps st2' !! t = temps st2 !! t;
  external_unary i st st' :
    op i = IR_OP_UNARY → ir_instruction_writes_temp i ≠ None → external i st = Some st' →
    syms st' = syms st ∧ memory st' = memory st }.

Section semantics.
Context {M : Machine} {L : LocalLaws M}.

Abbreviation state := (mstate (@world M)).

Definition same_rest (st1 st2 : state) : Prop := syms st1 = syms st2 ∧ memory st1 = memory st2.

Definition agree (P : string → Prop) (st1 st2 : state) : Prop :=
  same_rest st1 st2 ∧ ∀ t, P t → temps st1 !! t = temps st2 !! t.

(** What executing [i] in two such states gives. *)
Definition moved (i : IRInstruction) (st1 st2 st1' st2' : state) : Prop :=
  same_rest st1' st2' ∧
  ∀ t, if writes t i then temps st1' !! t = temps st2' !! t
       else temps st1' !! t = temps st1 !! t ∧ temps st2' !! t = temps st2 !! t.

Lemma eval_agree P st1 st2 x :
  agree P st1 st2 → (∀ t, temp_name x = Some t → P t) → eval st1 x = eval st2 x.
Proof. intros [[Hs _] Ht] Hx. destruct x; simpl in *; [done| |by rewrite Hs|done..]. by rewrite Ht; auto. Qed.

Lemma write_moved i st1 st2 v st1' :
  same_rest st1 st2 → writes_scalar (op i) = true → write (dest i) v st1 = Some st1' →
  ∃ st2', write (dest i) v st2 = Some st2' ∧ moved i st1 st2 st1' st2'.
Proof.
  intros [Hs Hm] Hw H. unfold moved, writes, ir_instruction_writes_temp. rewrite Hw.
  destruct (dest i); simplify_eq/=; (eexists; split; [done|]); split; try done.
  - intros t. simpl. destruct (String.eqb_spec name t) as [->|]; [by rewrite !lookup_insert_eq|].
    by rewrite !lookup_insert_ne by done.
  - unfold same_rest. simpl. by rewrite Hs, Hm.
Qed.

Lemma reads_operand t i x : x ∈ operands_read i → temp_name x = Some t → reads t i = true.
Proof.
  intros Hx Ht. unfold reads. apply existsb_exists. exists x. split; [by apply list_elem_of_In|].
  by rewrite Ht, String.eqb_refl.
Qed.

Lemma rhs_value_agree i st1 st2 :
  computes i = true → agree (λ t, reads t i = true) st1 st2 → rhs_value i st1 = rhs_value i st2.
Proof.
  intros Hc Hag.
  assert (∀ x, x ∈ operands_read i → eval st1 x = eval st2 x) as He.
  { intros x Hx. eapply eval_agree; [done|]. intros t. by apply reads_operand. }
  unfold computes in Hc. unfold rhs_value.
  destruct (op i) eqn:Ho; try done.
  all: assert (eval st1 (lhs i) = eval st2 (lhs i)) as Hl
    by (apply He; unfold operands_read; rewrite Ho; simpl; set_solver).
  all: assert (eval st1 (rhs i) = eval st2 (rhs i)) as Hr
    by (apply He; unfold operands_read; rewrite Ho; simpl; set_solver).
  all: rewrite ?Hl, ?Hr; done.
Qed.

Lemma exec_agree i st1 st2 st1' :
  rotates_symbols i →
  agree (λ t, reads t i = true) st1 st2 → exec i st1 = Some st1' →
  ∃ st2', exec i st2 = Some st2' ∧ moved i st1 st2 st1' st2'.
Proof.
  intros Hrot Hag Hx. pose proof Hag as [Hrest Ht]. unfold exec in *.
  assert ((if computes i then v ← rhs_value i st1; write (dest i) v st1 else external i st1)
    = Some st1' →
    ∃ st2', (if computes i then v ← rhs_value i st2; write (dest i) v st2 else external i st2)
      = Some st2' ∧ moved i st1 st2 st1' st2') as Hgen.
  { destruct (computes i) eqn:Hc.
    - rewrite (rhs_value_agree i st1 st2) by done. intros (v & -> & Hw)%bind_Some.
      eapply write_moved; [done|by apply computes_scalar|done].
    - intros He. destruct Hrest. destruct (external_local i st1 st2 st1') as (st2' & -> & ?); [done..|].
      exists st2'. split; [done|]. unfold moved, same_rest. naive_solver. }
  destruct (op i) eqn:Ho; try (by apply Hgen).
  1,2: simplify_eq; exists st2; split; [done|]; split; [done|]; intros t;
    unfold writes, ir_instruction_writes_temp; rewrite Ho; done.
  destruct (Hrot Ho) as [Hl Hr]. unfold rotate_add in *.
  rewrite <- (eval_agree _ st1 st2 (lhs i) Hag), <- (eval_agree _ st1 st2 (rhs i) Hag) by congruence.
  apply bind_Some in Hx as (a & -> & Hx). apply bind_Some in Hx as (b & -> & Hx). simpl.
  apply bind_Some in Hx as (s1 & H1 & Hx).
  destruct (write_moved i st1 st2 _ _ Hrest ltac:(by rewrite Ho) H1) as (s2 & -> & [[Hs Hm] Hmv]). simpl.
  apply bind_Some in Hx as (s3 & H3 & Hx).
  clear Hrot. destruct (lhs i), (rhs i); simplify_eq/=.
  eexists. split; [done|]. split; [|done]. unfold same_rest. simpl. by rewrite Hs, Hm.
Qed.

(** What the two runs have in common after a control instruction. *)
Lemma control_agree i st1 st2 f :
  rotates_symbols i →
  agree (λ t, reads t i = true) st1 st2 → control i st1 = Some f →
  match f with
  | Next st1' => ∃ st2', control i st2 = Some (Next st2') ∧ moved i st1 st2 st1' st2'
  | Goto l => control i st2 = Some (Goto l) ∧ jump_target i = Some l
  | Leave v => control i st2 = Some (Leave v)
  end.
Proof.
  intros Hrot Hag Hc.
  assert (∀ x, x ∈ operands_read i → eval st1 x = eval st2 x) as He.
  { intros x Hx. eapply eval_agree; [done|]. intros t. by apply reads_operand. }
  assert (Next <$> exec i st1 = Some f → match f with
    | Next st1' => ∃ st2', Next <$> exec i st2 = Some (Next st2') ∧ moved i st1 st2 st1' st2'
    | _ => False end) as Hexec.
  { intros (st1' & Hx & ->)%fmap_Some. destruct (exec_agree _ _ _ _ Hrot Hag Hx) as (st2' & -> & Hm).
    by exists st2'. }
  assert (ir_instruction_writes_temp i = None → moved i st1 st2 st1 st2) as Hstay.
  { intros Hw. split; [apply Hag|]. intros t. unfold writes. by rewrite Hw. }
  unfold control, jump_target in *. unfold operands_read in He. unfold ir_instruction_writes_temp in Hstay.
  destruct (op i) eqn:Ho; try (destruct f; first [by apply Hexec|by apply Hexec in Hc]); simpl in He.
  - apply fmap_Some in Hc as (l & -> & ->). done.
  - rewrite <- He by set_solver. apply bind_Some in Hc as (v & -> & Hc). simpl.
    unfold branch_if in *. destruct (v =? 0)%Z.
    + apply fmap_Some in Hc as (l & -> & ->). done.
    + simplify_eq. eauto.
  - rewrite <- !He by set_solver. apply bind_Some in Hc as (v & -> & Hc). simpl.
    apply bind_Some in Hc as (w & -> & Hc). simpl.
    unfold branch_if in *. destruct (v =? w)%Z.
    + apply fmap_Some in Hc as (l & -> & ->). done.
    + simplify_eq. eauto.
  - destruct (lhs i) eqn:Hl; rewrite <- ?He by set_solver;
      try (apply bind_Some in Hc as (v & -> & Hc)); by simplify_eq.
Qed.

(** The temporaries every write of which stays. *)
Definition kept (c : code) (t : string) : Prop :=
  ∀ k i, c !! k = Some i → writes t i = true → dead (live_at c (S k)) i = false.

Definition related (c : code) (k1 k2 : config) : Prop :=
  match k1, k2 with
  | At pc1 st1, At pc2 st2 =>
      pc1 = pc2 ∧ agree (λ t, needed c t pc1 ∧ (live_at c pc1 t = true ∨ kept c t)) st1 st2
  | Halted v1 st1, Halted v2 st2 => v1 = v2 ∧ same_rest st1 st2
  | _, _ => False
  end.

Lemma dead_writes L' i t : dead L' i = true → writes t i = true → L' t = false.
Proof.
  unfold dead, writes. destruct (ir_instruction_writes_temp i) as [n|]; [|done].
  intros [H _]%andb_true_iff ->%String.eqb_eq. by destruct (L' t).
Qed.

(** A removed instruction changes only its destination. *)
Lemma dead_exec L' i st f :
  dead L' i = true → control i st = Some f →
  ∃ st', f = Next st' ∧ same_rest st' st ∧ ∀ t, writes t i = false → temps st' !! t = temps st !! t.
Proof.
  intros Hd Hc. pose proof Hd as Hd'. unfold dead in Hd'.
  destruct (ir_instruction_writes_temp i) as [n|] eqn:Hw; [|done].
  apply andb_true_iff in Hd' as [_ Htriv].
  assert (Next <$> (if computes i then v ← rhs_value i st; write (dest i) v st else external i st)
    = Some f ∧ (computes i = false → op i = IR_OP_UNARY)) as [Hx Hun].
  { unfold control, exec, computes in *. unfold ir_instruction_is_trivially_dead_if_dest_unused in Htriv.
    by destruct (op i). }
  apply fmap_Some in Hx as (st' & Hx & ->). exists st'. split; [done|].
  destruct (computes i).
  - apply bind_Some in Hx as (v & _ & Hx). unfold writes. rewrite Hw.
    unfold ir_instruction_writes_temp in Hw. destruct (writes_scalar (op i)); [|done].
    destruct (dest i); simplify_eq/=. split; [done|].
    intros t Ht%String.eqb_neq. by rewrite lookup_insert_ne.
  - pose proof (external_unary i st st' (Hun eq_refl) ltac:(by rewrite Hw) Hx) as Hrest.
    split; [exact Hrest|]. intros t Ht.
    destruct (external_local i st st st') as (st2 & _ & _ & _ & Hloc); [done..|].
    specialize (Hloc t). rewrite Ht in Hloc. apply Hloc.
Qed.

(** What matters where a jump leads matters at the jump. *)
Lemma jump_back_live c pc i l j t :
  no_carried_temp c → c !! pc = Some i → jump_target i = Some l → ir_find_label_index c l = Some j →
  needed c t j → live_at c j t = true → live_at c pc t = true ∨ kept c t.
Proof.
  intros Hloop Hi Hj Hl Hn Ht.
  destruct (Nat.le_gt_cases j pc) as [Hle|Hgt]; [|left; eapply live_at_label; [done|lia|done]].
  destruct (Hloop pc i l j t Hi Hj Hl Hle Hn Ht) as [|Hno]; [by left|right].
  intros k i' Hk Hw. destruct (dead (live_at c (S k)) i') eqn:Hd'; [|done].
  destruct (Nat.le_gt_cases j k) as [Hjk|Hjk]; [by rewrite (Hno k i' Hjk Hk) in Hw|].
  by rewrite <- (dead_writes _ _ _ Hd' Hw), (live_at_label c l j (S k) t).
Qed.

Lemma related_step c k1 k2 k1' :
  no_carried_temp c → Forall rotates_symbols c →
  related c k1 k2 → step c k1 = Some k1' → ∃ k2', step (dead_spec c) k2 = Some k2' ∧ related c k1' k2'.
Proof.
  intros Hloop Hrot Hrel Hs.
  destruct k1 as [pc st1|v st1], k2 as [pc2 st2|v2 st2]; simpl in Hrel; try done.
  2: { simplify_eq/=. eexists. split; [done|]. exact Hrel. }
  destruct Hrel as [<- Hag]. simpl in Hs |- *. rewrite dead_spec_lookup.
  destruct (c !! pc) as [i|] eqn:Hi; simpl.
  2: { simplify_eq. eexists. split; [done|]. split; [done|]. apply Hag. }
  apply bind_Some in Hs as (f & Hf & Hs).
  destruct (dead (live_at c (S pc)) i) eqn:Hd.
  - destruct (dead_exec _ _ _ _ Hd Hf) as (st1' & -> & Hrest & Hsame). simplify_eq.
    eexists. split; [done|]. split; [done|]. destruct Hag as [[Hsy Hme] Hte].
    destruct Hrest as [Hsy' Hme']. split; [split; congruence|]. intros t [Hn Ht].
    destruct (writes t i) eqn:Hw.
    + destruct Ht as [Ht|Ht]; [by rewrite (dead_writes _ _ _ Hd Hw) in Ht|].
      by rewrite (Ht _ _ Hi Hw) in Hd.
    + rewrite Hsame by done. apply Hte. rewrite <- (live_at_dead _ _ _ Hi Hd).
      split; [by eapply needed_next|done].
  - destruct (live_at_step _ _ _ Hi Hd) as [Hread Hkeep].
    assert (agree (λ t, reads t i = true) st1 st2) as Hag'.
    { split; [apply Hag|]. intros t Ht. apply Hag. split; [by eapply needed_here|]. left. by apply Hread. }
    pose proof (control_agree i st1 st2 f (Forall_lookup_1 _ _ _ _ Hrot Hi) Hag' Hf) as Hca.
    destruct f as [st1'|l|v].
    + destruct Hca as (st2' & -> & Hrest & Hmv). simplify_eq/=. eexists. split; [done|].
      split; [done|]. split; [done|]. intros t [Hn Ht]. specialize (Hmv t).
      destruct (writes t i) eqn:Hw; [done|]. destruct Hmv as [-> ->]. apply Hag.
      split; [by eapply needed_next|]. destruct Ht as [Ht|Ht]; [left; by apply Hkeep|by right].
    + destruct Hca as [-> Hj]. apply bind_Some in Hs as (j & Hl & [= <-]). simpl.
      rewrite dead_spec_label, Hl. simpl. eexists. split; [done|]. split; [done|].
      split; [apply Hag|]. intros t [Hn Ht]. apply Hag. split; [by eapply needed_jump|].
      destruct Ht as [Ht|]; [|by right]. by eapply jump_back_live.
    + rewrite Hca. simplify_eq/=. eexists. split; [done|]. split; [done|]. apply Hag.
Qed.

Lemma related_run c n k1 k2 k1' :
  no_carried_temp c → Forall rotates_symbols c →
  related c k1 k2 → run n c k1 = Some k1' → ∃ k2', run n (dead_spec c) k2 = Some k2' ∧ related c k1' k2'.
Proof.
  intros Hloop Hrot. revert k1 k2. induction n as [|n IH]; intros k1 k2 Hrel Hr; simpl in *.
  { simplify_eq. by exists k2. }
  apply bind_Some in Hr as (k3 & Hs & Hr).
  destruct (related_step _ _ _ _ Hloop Hrot Hrel Hs) as (k4 & -> & Hrel'). by eapply IH.
Qed.

(** C12. Elimination of dead temporaries, over any map of use counts, always finishes,
    and on a function whose loops carry no temporary from one iteration to the next
    every halting run keeps its result, its symbols and its memory. *)
Theorem dead_temps_correct {A} {U : UseMap A} {UL : UseMapLaws A} c st v st1 :
  no_carried_temp c → Forall rotates_symbols c → halts c (start st) v st1 →
  ∃ r st2, ir_eliminate_dead_temp_writes_pass (A := A) c = Some r ∧
    halts r.1 (start st) v st2 ∧ syms st1 = syms st2 ∧ memory st1 = memory st2.
Proof.
  intros Hloop Hrot [n Hn]. destruct (dead_loop_spec (A := A) c) as (s & f & Hs & _ & _ & _ & Hr).
  assert (related c (start st) (start st)) as Hrel by done.
  destruct (related_run _ _ _ _ _ Hloop Hrot Hrel Hn) as ([|v' st2] & Hn' & Hrel'); [done|].
  destruct Hrel' as [<- Hrest].
  exists (rewritten s), st2. unfold ir_eliminate_dead_temp_writes_pass. rewrite Hs, Hr.
  split; [done|]. split; [by exists n|]. exact Hrest.
Qed.
End semantics.

(** ** Concrete programs *)

#[export] Instance toy_local_laws : LocalLaws toy_machine.
Proof.
  split.
  - intros i [t1 s1 m1] [t2 s2 m2] st1' Hs Hm Ht [= <-]. simpl in *. simplify_eq.
    eexists. split; [done|]. unfold writes.
    destruct (ir_instruction_writes_temp i) as [n|], (ir_instruction_writes_symbol i); simpl.
    all: split_and!; [done..|]; intros t; try done.
    all: destruct (String.eqb_spec n t) as [->|]; [by rewrite !lookup_insert_eq|];
      by rewrite !lookup_insert_ne by done.
  - intros i st st' Ho Hw [= <-]. rewrite Ho. simpl.
    by destruct (ir_instruction_writes_temp i).
Qed.

(** [i = 0; while (i < 5) { unused = i * 2; i = i + 1; } return i]. *)
Definition counting_loop : code :=
  [i_assign (sym "i") (int 0);
   i_label "loop";
   i_binary (temp "c") (sym "i") "<" (int 5);
   i_branch_zero (temp "c") "end";
   i_binary (temp "unused") (sym "i") "*" (int 2);
   i_binary (temp "next") (sym "i") "+" (int 1);
   i_assign (sym "i") (temp "next");
   i_jump "loop";
   i_label "end";
   i_return (sym "i")].

(** Only what the code reads is live. *)
Lemma live_read c t :
  (live_spec c).1 t = true → t ∈ omap temp_name (concat (operands_read <$> c)).
Proof.
  induction c as [|i c IH]; simpl; [done|]. rewrite omap_app. intros Ht. apply elem_of_app.
  destruct (dead _ i); simpl in Ht; [right; by apply IH|].
  apply orb_true_iff in Ht as [Ht|[Ht _]%andb_true_iff]; [left|right; by apply IH].
  unfold reads in Ht. apply existsb_exists in Ht as (x & Hx & Ht). apply list_elem_of_omap.
  exists x. split; [by apply list_elem_of_In|].
  destruct (temp_name x); [|done]. by apply String.eqb_eq in Ht as ->.
Qed.

(** Walks a path of [needed] up to the write that ends it. *)
Ltac walk_needed :=
  repeat match goal with
  | H : _ !! _ = Some _ |- _ => vm_compute in H; try discriminate H; injection H as <-
  | H : reads _ _ = true |- _ => vm_compute in H; discriminate H
  | H : writes _ _ = false |- _ => vm_compute in H; first [discriminate H|clear H]
  | H : jump_target _ = Some _ |- _ => vm_compute in H; try discriminate H; injection H as <-
  | H : ir_find_label_index _ _ = Some _ |- _ =>
      vm_compute in H; try discriminate H; injection H as <-
  | H : needed _ _ _ |- _ => inversion H; clear H; subst
  end.

Lemma counting_loop_carries_nothing : no_carried_temp counting_loop.
Proof.
  intros pc i l j t Hi Hj Hl Hle Hn Ht.
  destruct pc as [|[|[|[|[|[|[|[|[|[|pc]]]]]]]]]]; simplify_eq/=;
    cbn in Hj; injection Hj as <-; vm_compute in Hl; injection Hl as <-; [exfalso; lia|].
  left. assert (t = "c" ∨ t = "next") as [-> | ->].
  { apply live_read, list_elem_of_In in Ht. vm_compute in Ht. naive_solver. }
  all: walk_needed.
Qed.

Lemma counting_loop_run : ∃ st, halts counting_loop (start toy_start) (Some 5%Z) st.
Proof. apply (returns_halts 60). vm_compute. reflexivity. Qed.

Lemma dead_temps_correct_witness :
  ∃ r st st', ir_eliminate_dead_temp_writes_pass (A := IRTempUseMap) counting_loop = Some r ∧
    halts r.1 (start toy_start) (Some 5%Z) st' ∧ syms st = syms st' ∧ memory st = memory st' ∧
    op <$> r.1 !! 4 = Some IR_OP_NOP.
Proof.
  destruct counting_loop_run as [st Hst].
  destruct (dead_temps_correct (A := IRTempUseMap) counting_loop toy_start (Some 5%Z) st)
    as (r & st' & Hr & Hh & Hs & Hm); [exact counting_loop_carries_nothing| |exact Hst|].
  - repeat constructor; discriminate.
  - exists r, st, st'. split_and!; [exact Hr|exact Hh|exact Hs|exact Hm|].
    assert (op <$> (from_option fst [] (ir_eliminate_dead_temp_writes_pass (A := IRTempUseMap)
      counting_loop)) !! 4 = Some IR_OP_NOP) as H4 by (vm_compute; reflexivity).
    rewrite Hr in H4. exact H4.
Defined.

(** [x = 0; t = 1; while (true) { x = x + t; if (!(x < 5)) break; t = 10; } return x],
    with [t] a temporary carried around the loop. *)
Definition carried_temp : code :=
  [i_assign (sym "x") (int 0);
   i_assign (temp "t") (int 1);
   i_label "loop";
   i_binary (sym "x") (sym "x") "+" (temp "t");
   i_binary (temp "c") (sym "x") "<" (int 5);
   i_branch_zero (temp "c") "end";
   i_assign (temp "t") (int 10);
   i_jump "loop";
   i_label "end";
   i_return (sym "x")].

(** The condition on loops is needed: the pass removes the write [t = 10] of a
    temporary that the next iteration reads, and the function returns 5, not 11. *)
Example dead_temps_need_local_loops :
  ∃ c' b, ir_eliminate_dead_temp_writes_pass (A := IRTempUseMap) carried_temp = Some (c', b) ∧
    (∃ st, halts carried_temp (start toy_start) (Some 11%Z) st) ∧
    (∃ st, halts c' (start toy_start) (Some 5%Z) st).
Proof.
  destruct (ir_eliminate_dead_temp_writes_pass (A := IRTempUseMap) carried_temp) as [[c' b]|] eqn:Hc;
    vm_compute in Hc; [|discriminate Hc].
  exists c', b. split; [reflexivity|]. injection Hc as <- <-.
  split; apply (returns_halts 60); vm_compute; reflexivity.
Qed.
