(* ===== verification/Propagation.v ===== *)
(** * Copy and constant propagation: src/src/ir/ir_optimize.c,
    [ir_copy_and_constant_propagation_pass] with its maps of values and labels. *)

From S2P Require Import Prelude.
From S2P Require Import IR.

(** ** Maps from names to values

    In order of insertion; a name has one entry. *)

Abbreviation IRTempValueMap := (list (string * IROperand)).
Abbreviation IRSymbolValueMap := (list (string * IROperand)).

Fixpoint ir_temp_value_map_lookup (map : IRTempValueMap) (name : string) : option IROperand :=
  match map with
  | [] => None
  | (n, v) :: map => if String.eqb n name then Some v else ir_temp_value_map_lookup map name
  end.

(** The first entry of the name goes. *)
Fixpoint ir_temp_value_map_remove (map : IRTempValueMap) (name : string) : IRTempValueMap :=
  match map with
  | [] => []
  | (n, v) :: map => if String.eqb n name then map else (n, v) :: ir_temp_value_map_remove map name
  end.

(** A clone of an operand is the operand. *)
Fixpoint ir_temp_value_map_set (map : IRTempValueMap) (name : string) (value : IROperand) : IRTempValueMap :=
  match map with
  | [] => [(name, value)]
  | (n, v) :: map =>
      if String.eqb n name then (n, value) :: map
      else (n, v) :: ir_temp_value_map_set map name value
  end.

Definition holds_symbol (symbol_name : option string) (value : IROperand) : bool :=
  match value with
  | IR_OPERAND_SYMBOL n _ => match symbol_name with Some s => String.eqb n s | None => true end
  | _ => false
  end.

(** [None]: the values that are symbols, whatever their name. *)
Definition ir_temp_value_map_remove_symbol_values (map : IRTempValueMap) (symbol_name : option string)
    : IRTempValueMap :=
  List.filter (λ e, negb (holds_symbol symbol_name e.2)) map.

Definition ir_temp_value_map_clone (src : IRTempValueMap) : IRTempValueMap :=
  foldl (λ dest e, ir_temp_value_map_set dest e.1 e.2) [] src.

(** The loop removes the entry of the name it stands at, which is the first one. *)
Definition ir_temp_value_map_intersect_with (dest other : IRTempValueMap) : IRTempValueMap * bool :=
  let keeps (e : string * IROperand) :=
    match ir_temp_value_map_lookup other e.1 with
    | Some v => ir_operand_equals e.2 v
    | None => false
    end in
  (List.filter keeps dest, existsb (λ e, negb (keeps e)) dest).

Definition ir_symbol_value_map_invalidate_name (map : IRSymbolValueMap) (symbol_name : string)
    : IRSymbolValueMap :=
  ir_temp_value_map_remove_symbol_values (ir_temp_value_map_remove map symbol_name) (Some symbol_name).

(** ** Maps from labels to the values on every way to them

    An entry is initialized as soon as it is added. *)

Abbreviation IRLabelValueMap := (list (string * IRTempValueMap)).

Fixpoint ir_label_value_map_lookup (map : IRLabelValueMap) (label : string) : option IRTempValueMap :=
  match map with
  | [] => None
  | (l, m) :: map => if String.eqb l label then Some m else ir_label_value_map_lookup map label
  end.

(** With whether anything changed. *)
Fixpoint ir_label_value_map_merge_incoming (map : IRLabelValueMap) (label : string)
    (incoming : IRTempValueMap) : IRLabelValueMap * bool :=
  match map with
  | [] => ([(label, ir_temp_value_map_clone incoming)], true)
  | (l, m) :: map =>
      if String.eqb l label then
        let '(m, changed) := ir_temp_value_map_intersect_with m incoming in ((l, m) :: map, changed)
      else
        let '(map, changed) := ir_label_value_map_merge_incoming map label incoming in
        ((l, m) :: map, changed)
  end.

(** ** Operands *)

(** [fuel]: 65 less the depth of the recursion. *)
Fixpoint ir_resolve_propagated_value (temp_map : IRTempValueMap) (symbol_map : IRSymbolValueMap)
    (operand : IROperand) (fuel : nat) : IROperand :=
  match fuel with
  | O => operand
  | S fuel =>
      let mapped := match operand with
                    | IR_OPERAND_TEMP n _ => ir_temp_value_map_lookup temp_map n
                    | IR_OPERAND_SYMBOL n _ => ir_temp_value_map_lookup symbol_map n
                    | _ => None
                    end in
      match mapped with
      | Some v => ir_resolve_propagated_value temp_map symbol_map v fuel
      | None => operand
      end
  end.

(** The operand and whether it was replaced.  No symbol map is an empty one. *)
Definition ir_try_propagate_operand (temp_map : IRTempValueMap) (symbol_map : IRSymbolValueMap)
    (operand : IROperand) : IROperand * bool :=
  let mapped := match operand with
                | IR_OPERAND_TEMP n _ => ir_temp_value_map_lookup temp_map n
                | IR_OPERAND_SYMBOL n _ => ir_temp_value_map_lookup symbol_map n
                | _ => None
                end in
  match mapped with
  | Some v => (ir_resolve_propagated_value temp_map symbol_map v 65, true)
  | None => (operand, false)
  end.

Definition set_operands (d l r : IROperand) (args : list IROperand) (i : IRInstruction) : IRInstruction :=
  mkInstruction (op i) (location i) d l r (text i) args (is_float i) (float_bits i) (ast_ref i).

Definition ir_propagate_instruction_operands (temp_map : IRTempValueMap) (symbol_map : IRSymbolValueMap)
    (i : IRInstruction) : IRInstruction * bool :=
  let by_both := ir_try_propagate_operand temp_map symbol_map in
  let by_temps := ir_try_propagate_operand temp_map [] in
  match op i with
  | IR_OP_STORE =>
      let '(d, c1) := by_both (dest i) in
      let '(l, c2) := by_both (lhs i) in
      let '(r, c3) := by_both (rhs i) in
      (set_operands d l r (arguments i) i, c1 || c2 || c3)
  | IR_OP_BRANCH_ZERO =>
      let '(l, c) := by_temps (lhs i) in (set_lhs l i, c)
  | IR_OP_BRANCH_EQ =>
      let '(l, c1) := by_temps (lhs i) in
      let '(r, c2) := by_temps (rhs i) in
      (set_operands (dest i) l r (arguments i) i, c1 || c2)
  | IR_OP_ASSIGN =>
      let '(l, c) := by_both (lhs i) in (set_lhs l i, c)
  | IR_OP_ADDRESS_OF | IR_OP_LOAD | IR_OP_BINARY | IR_OP_UNARY | IR_OP_CAST | IR_OP_NEW | IR_OP_CALL
  | IR_OP_CALL_INDIRECT | IR_OP_RETURN =>
      let '(l, c1) := by_temps (lhs i) in
      let '(r, c2) := by_temps (rhs i) in
      let args := map by_both (arguments i) in
      (set_operands (dest i) l r (map fst args) i, c1 || c2 || existsb snd args)
  | _ => (i, false)
  end.

(** ** The pass *)

(** What is known before an instruction, and what was found at labels. *)
Record flow_values : Type := mkValues {
  temp_values : IRTempValueMap;
  symbol_values : IRSymbolValueMap;
  label_in : IRLabelValueMap }.

(** At a label: the values on every way to it, those of falling into it included. *)
Definition enter_label (fall_through : bool) (l : string) (s : flow_values) : flow_values * bool :=
  let '(labels, changed) :=
    if fall_through then ir_label_value_map_merge_incoming (label_in s) l (temp_values s)
    else (label_in s, false) in
  let temps := match ir_label_value_map_lookup labels l with
               | Some m => ir_temp_value_map_clone m
               | None => []
               end in
  (mkValues temps [] labels, changed).

Definition enter_instruction (fall_through : bool) (i : IRInstruction) (s : flow_values) : flow_values * bool :=
  match op i, text i with
  | IR_OP_LABEL, Some l => enter_label fall_through l s
  | _, _ => (s, false)
  end.

(** The value an instruction gives a name: of an assignment, unless it is the name itself. *)
Definition assigned_value (same : IROperand → bool) (i : IRInstruction) : option IROperand :=
  match op i with
  | IR_OP_ASSIGN =>
      if ir_operand_is_propagatable_value (lhs i) && negb (same (lhs i)) then Some (lhs i) else None
  | _ => None
  end.

Definition after_temp_write (i : IRInstruction) (s : flow_values) : flow_values :=
  match ir_instruction_writes_temp i with
  | Some n =>
      let temps := ir_temp_value_map_remove (temp_values s) n in
      let same x := match x with IR_OPERAND_TEMP m _ => String.eqb m n | _ => false end in
      mkValues (match assigned_value same i with
                | Some v => ir_temp_value_map_set temps n v
                | None => temps
                end) (symbol_values s) (label_in s)
  | None => s
  end.

Definition after_symbol_write (i : IRInstruction) (s : flow_values) : flow_values :=
  match ir_instruction_writes_symbol i with
  | Some n =>
      let temps := ir_temp_value_map_remove_symbol_values (temp_values s) (Some n) in
      let symbols := ir_symbol_value_map_invalidate_name (symbol_values s) n in
      let same x := match x with IR_OPERAND_SYMBOL m _ => String.eqb m n | _ => false end in
      mkValues temps (match assigned_value same i with
                      | Some v => ir_temp_value_map_set symbols n v
                      | None => symbols
                      end) (label_in s)
  | None => s
  end.

(** The names of whatever operands [IR_OP_ROTATE_ADD] has. *)
Definition after_rotate_add (i : IRInstruction) (s : flow_values) : flow_values :=
  match op i, operand_name (dest i) with
  | IR_OP_ROTATE_ADD, Some d =>
      let invalidate n m := match n with Some n => ir_symbol_value_map_invalidate_name m n | None => m end in
      mkValues (temp_values s)
        (invalidate (operand_name (rhs i)) (invalidate (operand_name (lhs i))
           (ir_symbol_value_map_invalidate_name (symbol_values s) d))) (label_in s)
  | _, _ => s
  end.

Definition after_clobber (i : IRInstruction) (s : flow_values) : flow_values :=
  match op i with
  | IR_OP_STORE | IR_OP_CALL | IR_OP_CALL_INDIRECT | IR_OP_INLINE_ASM =>
      mkValues (ir_temp_value_map_remove_symbol_values (temp_values s) None) [] (label_in s)
  | _ => s
  end.

(** A jump brings its values to the label. *)
Definition merge_at_jump (i : IRInstruction) (s : flow_values) : flow_values * bool :=
  match op i, text i with
  | (IR_OP_JUMP | IR_OP_BRANCH_ZERO | IR_OP_BRANCH_EQ), Some l =>
      let '(labels, changed) := ir_label_value_map_merge_incoming (label_in s) l (temp_values s) in
      (mkValues (temp_values s) (symbol_values s) labels, changed)
  | _, _ => (s, false)
  end.

Definition leaves_block (o : IROpcode) : bool :=
  match o with IR_OP_JUMP | IR_OP_RETURN => true | _ => false end.

Definition after_jump (i : IRInstruction) (s : flow_values) : flow_values :=
  if leaves_block (op i) then mkValues [] [] (label_in s) else s.

(** One instruction: what is known at it, the instruction, what is known after it, and
    whether the instruction and the label maps changed. *)
Record visit : Type := mkVisit {
  vi_used : flow_values;
  vi_out : IRInstruction;
  vi_next : flow_values;
  vi_changed : bool;
  vi_flow : bool }.

Definition propagate_instruction (fall_through : bool) (s : flow_values) (i : IRInstruction) : visit :=
  let '(used, flow1) := enter_instruction fall_through i s in
  let '(out, changed) := ir_propagate_instruction_operands (temp_values used) (symbol_values used) i in
  let s := after_clobber out (after_rotate_add out (after_symbol_write out (after_temp_write out used))) in
  let '(s, flow2) := merge_at_jump out s in
  mkVisit used out (after_jump out s) changed (flow1 || flow2).

(** The instructions from one on; [previous] is the opcode of the last one before it
    that is no [IR_OP_NOP], and [first] tells that there is none before it at all. *)
Fixpoint propagation_loop (first : bool) (previous : option IROpcode) (s : flow_values) (c : code)
    : list visit * IRLabelValueMap :=
  match c with
  | [] => ([], label_in s)
  | i :: c =>
      let fall_through := negb first && match previous with Some o => negb (leaves_block o) | None => true end in
      let v := propagate_instruction fall_through s i in
      let previous := if is_nop i then previous else Some (op i) in
      let '(visits, labels) := propagation_loop false previous (vi_next v) c in
      (v :: visits, labels)
  end.

(** An iteration starts with no values but those at labels. *)
Definition propagation_iteration (labels : IRLabelValueMap) (c : code) : list visit * IRLabelValueMap :=
  propagation_loop true None (mkValues [] [] labels) c.

Fixpoint propagation_iterations (fuel : nat) (labels : IRLabelValueMap) (c : code) : code * bool :=
  match fuel with
  | O => (c, false)
  | S fuel =>
      let '(visits, labels) := propagation_iteration labels c in
      let c := map vi_out visits in
      let changed := existsb vi_changed visits in
      if existsb vi_flow visits then
        let '(c, changed') := propagation_iterations fuel labels c in (c, changed || changed')
      else (c, changed)
  end.

Definition ir_copy_and_constant_propagation_pass (c : code) : code * bool := propagation_iterations 8 [] c.
