(* ===== verification/PropagationFacts.v ===== *)
(** * Correctness of copy and constant propagation

    Before every instruction the pass knows, of some names, an operand with the same
    value.  On code in which no name is written while it is the value known of another,
    and in which the values used at a label are those its last way in leaves, that
    knowledge holds in every state the function reaches, and replacing operands keeps
    its runs.  The examples at the end show what happens on other code. *)

From stdpp Require Import gmap.
From S2P Require Import Prelude.
From S2P Require Import IR.
From S2P Require Import IRSemantics.
From S2P Require Import ControlFlowFacts.
From S2P Require Import CSE.
From S2P Require Import CSEFacts.
From S2P Require Import Propagation.

Abbreviation names m := (map fst m).

(** ** Maps *)

Lemma lookup_in m n v : ir_temp_value_map_lookup m n = Some v → (n, v) ∈ m.
Proof.
  induction m as [|[k w] m IH]; cbn; [done|]. destruct (String.eqb_spec k n) as [->|]; [intros [= ->]; left|right; auto].
Qed.

Lemma remove_in m n k v : NoDup (names m) → (k, v) ∈ ir_temp_value_map_remove m n → (k, v) ∈ m ∧ k ≠ n.
Proof.
  induction m as [|[k' w] m IH]; cbn; [by intros _ ?%elem_of_nil|]. intros [Hk Hnd]%NoDup_cons.
  destruct (String.eqb_spec k' n) as [->|Hne].
  - intros Hin. split; [by right|]. intros ->. apply Hk. apply list_elem_of_fmap. by exists (n, v).
  - intros [[= -> ->]|Hin]%elem_of_cons; [split; [left|done]|]. destruct (IH Hnd Hin). split; [by right|done].
Qed.

Lemma remove_sublist m n : sublist (ir_temp_value_map_remove m n) m.
Proof.
  induction m as [|[k v] m IH]; cbn; [constructor|]. destruct (String.eqb k n); by constructor.
Qed.

Lemma filter_sublist {A} (p : A → bool) (l : list A) : sublist (List.filter p l) l.
Proof. induction l as [|a l IH]; cbn; [constructor|]. by destruct (p a); constructor. Qed.

Lemma set_in m n v k w : (k, w) ∈ ir_temp_value_map_set m n v → (k = n ∧ w = v) ∨ (k, w) ∈ m.
Proof.
  induction m as [|[k' w'] m IH]; cbn.
  - intros [= -> ->]%list_elem_of_singleton. by left.
  - destruct (String.eqb_spec k' n) as [->|].
    + intros [[= -> ->]|Hin]%elem_of_cons; [by left|right; by right].
    + intros [[= -> ->]|Hin]%elem_of_cons; [right; left|]. destruct (IH Hin) as [?|?]; [by left|right; by right].
Qed.

Lemma set_names m n v : names (ir_temp_value_map_set m n v) = if bool_decide (n ∈ names m) then names m else names m ++ [n].
Proof.
  induction m as [|[k w] m IH]; cbn; [done|]. destruct (String.eqb_spec k n) as [->|Hne].
  - rewrite bool_decide_eq_true_2; [done|left].
  - cbn. rewrite IH. case_bool_decide as Hin.
    + rewrite bool_decide_eq_true_2; [done|by right].
    + rewrite bool_decide_eq_false_2; [done|]. intros [->|?]%elem_of_cons; done.
Qed.

Lemma set_nodup m n v : NoDup (names m) → NoDup (names (ir_temp_value_map_set m n v)).
Proof.
  intros Hnd. rewrite set_names. case_bool_decide as Hin; [done|]. apply NoDup_app. split_and!; [done| |apply NoDup_singleton].
  by intros k Hk ->%list_elem_of_singleton.
Qed.

Lemma set_fresh m n v : n ∉ names m → ir_temp_value_map_set m n v = m ++ [(n, v)].
Proof.
  induction m as [|[k w] m IH]; cbn; [done|]. intros [Hne Hin]%not_elem_of_cons.
  destruct (String.eqb_spec k n); [by subst|]. by rewrite IH.
Qed.

Lemma clone_id m : NoDup (names m) → ir_temp_value_map_clone m = m.
Proof.
  unfold ir_temp_value_map_clone. intros Hnd.
  assert (∀ done todo, NoDup (names (done ++ todo)) →
    foldl (λ dest e, ir_temp_value_map_set dest e.1 e.2) done todo = done ++ todo) as H; [|by apply (H [])].
  clear m Hnd. intros done todo. revert done. induction todo as [|[k v] todo IH]; intros done Hnd; cbn; [by rewrite app_nil_r|].
  rewrite set_fresh.
  - rewrite IH; rewrite <- app_assoc; done.
  - rewrite map_app in Hnd. apply NoDup_app in Hnd as (_ & Hd & _). intros Hk. apply (Hd k Hk). left.
Qed.

(** What a value may be. *)
Definition value_ok (v : IROperand) : Prop := exact v ∧ v ≠ IR_OPERAND_NONE.

Record map_ok (m : list (string * IROperand)) : Prop := {
  mk_names : NoDup (names m);
  mk_values : ∀ n v, (n, v) ∈ m → value_ok v }.

Lemma map_ok_nil : map_ok [].
Proof. split; [constructor|by intros ? ? ?%elem_of_nil]. Qed.

Lemma map_ok_sublist m m' : sublist m' m → map_ok m → map_ok m'.
Proof.
  intros Hs [H1 H2]. split.
  - eapply sublist_NoDup; [exact H1|]. by apply (fmap_sublist fst).
  - intros n v Hin. apply (H2 n v). by eapply sublist_subseteq.
Qed.

Lemma map_ok_set m n v : map_ok m → value_ok v → map_ok (ir_temp_value_map_set m n v).
Proof.
  intros [H1 H2] Hv. split; [by apply set_nodup|]. intros k w [[-> ->]|Hin]%set_in; eauto.
Qed.

(** *** Labels *)

Definition labels_ok (ls : IRLabelValueMap) : Prop := ∀ l m, ir_label_value_map_lookup ls l = Some m → map_ok m.

(** The two operands have the same value everywhere. *)
Definition agree (v w : IROperand) : Prop := v = w ∨ ir_operand_equals v w = true.

Definition included (m' m : IRTempValueMap) : Prop := ∀ n v, (n, v) ∈ m' → ∃ w, (n, w) ∈ m ∧ agree v w.

(** The values recorded at the label are among those of [m]. *)
Definition merged (m : IRTempValueMap) (l : string) (ls : IRLabelValueMap) : Prop :=
  ∃ im, ir_label_value_map_lookup ls l = Some im ∧ included im m.

Lemma merge_lookup ls l m ls' b :
  map_ok m → ir_label_value_map_merge_incoming ls l m = (ls', b) →
  merged m l ls' ∧ (∀ l', l' ≠ l → ir_label_value_map_lookup ls' l' = ir_label_value_map_lookup ls l') ∧
  ∀ im', ir_label_value_map_lookup ls' l = Some im' →
    match ir_label_value_map_lookup ls l with Some im => sublist im' im | None => im' = m end.
Proof.
  intros Hm. revert ls' b. induction ls as [|[k im] ls IH]; intros ls' b; cbn [ir_label_value_map_merge_incoming].
  - intros [= <- _]. rewrite clone_id by apply Hm. unfold merged. cbn. rewrite String.eqb_refl. split_and!.
    + exists m. split; [done|]. intros n v Hin. exists v. split; [done|by left].
    + intros l' Hne. by rewrite (proj2 (String.eqb_neq _ _) (not_eq_sym Hne)).
    + by intros im' [= <-].
  - destruct (String.eqb_spec k l) as [->|Hne].
    + unfold ir_temp_value_map_intersect_with. intros [= <- _]. unfold merged. cbn. rewrite String.eqb_refl. split_and!.
      * eexists. split; [done|]. intros n v Hin. apply list_elem_of_In, filter_In in Hin as [Hin%list_elem_of_In Hk]. cbn in Hk.
        destruct (ir_temp_value_map_lookup m n) as [w|] eqn:Hw; [|done]. exists w. split; [by apply lookup_in|by right].
      * intros l' Hne. by rewrite (proj2 (String.eqb_neq _ _) (not_eq_sym Hne)).
      * intros im' [= <-]. apply filter_sublist.
    + destruct (ir_label_value_map_merge_incoming ls l m) as [ls1 b1]. intros [= <- _].
      destruct (IH ls1 b1 eq_refl) as ((im1 & H1 & H1') & H2 & H3). unfold merged. cbn.
      rewrite (proj2 (String.eqb_neq _ _) Hne). split_and!; [by exists im1| |done].
      intros l' Hl'. destruct (String.eqb k l'); [done|by apply H2].
Qed.

(** No label disappears, and none gains a value. *)
Definition narrows (ls ls' : IRLabelValueMap) : Prop :=
  ∀ l im, ir_label_value_map_lookup ls l = Some im →
    ∃ im', ir_label_value_map_lookup ls' l = Some im' ∧ sublist im' im.

#[export] Instance narrows_preorder : PreOrder narrows.
Proof.
  split; [intros ls l im; eauto|]. intros a b c Hab Hbc l im H. destruct (Hab l im H) as (im1 & H1 & S1).
  destruct (Hbc l im1 H1) as (im2 & H2 & S2). exists im2. split; [done|]. by etrans.
Qed.

Lemma merged_narrows m l ls ls' : narrows ls ls' → merged m l ls → merged m l ls'.
Proof.
  intros Hn (im & Him & Hin). destruct (Hn l im Him) as (im' & Him' & Hs). exists im'. split; [done|].
  intros n v Hv. apply Hin. by eapply sublist_subseteq.
Qed.

Lemma merge_spec ls l m ls' b :
  map_ok m → labels_ok ls → ir_label_value_map_merge_incoming ls l m = (ls', b) →
  labels_ok ls' ∧ merged m l ls' ∧ narrows ls ls'.
Proof.
  intros Hm Hls He. destruct (merge_lookup ls l m ls' b Hm He) as (H1 & H2 & H3).
  split_and!; [|done|].
  - intros l' im' Hl'. destruct (decide (l' = l)) as [->|Hne]; [|rewrite H2 in Hl' by done; eauto]. specialize (H3 im' Hl').
    destruct (ir_label_value_map_lookup ls l) as [im|] eqn:Him; [|by subst]. by eapply map_ok_sublist, Hls.
  - intros l' im Him. destruct (decide (l' = l)) as [->|Hne]; [|rewrite H2 by done; eauto].
    destruct H1 as (im' & Him' & _). exists im'. split; [done|]. specialize (H3 im' Him'). by rewrite Him in H3.
Qed.

(** ** Values in a state *)

(** The second operand can stand for the first: it has the same value. *)
Definition replaces {M : Machine} (st : mstate world) (x y : IROperand) : Prop :=
  y = x ∨ ((is_Some (temp_name x) ∨ is_Some (symbol_name x)) ∧ value_ok y ∧ eval st y = eval st x).

(** Loads, stores, allocations and calls take their operands by value, and write no
    temporary but their destination. *)
Class ValueLaws (M : Machine) : Prop := {
  value_frame :: FrameLaws M;
  external_temps : ∀ i st st' n, external i st = Some st' → is_kernel (op i) = false →
    ir_instruction_writes_temp i ≠ Some n → temps st' !! n = temps st !! n;
  external_by_value : ∀ i d l r args st,
    match op i with
    | IR_OP_STORE => replaces st (dest i) d
    | IR_OP_LOAD | IR_OP_NEW | IR_OP_CALL | IR_OP_CALL_INDIRECT => d = dest i
    | IR_OP_UNARY => d = dest i ∧ text i = Some "*"%string
    | _ => False
    end →
    replaces st (lhs i) l → replaces st (rhs i) r → Forall2 (replaces st) (arguments i) args →
    external (set_operands d l r args i) st = external i st }.

Section propagation.
Context {M : Machine} {L : ValueLaws M}.

Abbreviation state := (mstate world).

Definition holds_in (var : string → IROperand) (m : list (string * IROperand)) (st : state) : Prop :=
  ∀ n v, (n, v) ∈ m → eval st v = eval st (var n).

(** What is known is so in the state. *)
Record holds (s : flow_values) (st : state) : Prop := {
  hs_temps : holds_in temp (temp_values s) st;
  hs_symbols : holds_in sym (symbol_values s) st }.

Record flow_ok (s : flow_values) : Prop := {
  fk_temps : map_ok (temp_values s);
  fk_symbols : map_ok (symbol_values s);
  fk_labels : labels_ok (label_in s) }.

Lemma holds_in_nil var st : holds_in var [] st.
Proof. by intros ? ? ?%elem_of_nil. Qed.

Lemma included_holds m' m st : included m' m → map_ok m' → holds_in temp m st → holds_in temp m' st.
Proof.
  intros Hi Hok Hm n v Hin. destruct (Hi n v Hin) as (w & Hw & Ha). rewrite <- (Hm n w Hw).
  destruct Ha as [->|Ha]; [done|]. apply operand_equals_eval_exact; [done|]. by apply (mk_values _ Hok n v Hin).
Qed.

(** ** Operands *)

Definition named (x : IROperand) : Prop := is_Some (temp_name x) ∨ is_Some (symbol_name x).

Lemma mapped_ok ts ss x v : map_ok ts → map_ok ss →
  match x with
  | IR_OPERAND_TEMP n _ => ir_temp_value_map_lookup ts n
  | IR_OPERAND_SYMBOL n _ => ir_temp_value_map_lookup ss n
  | _ => None
  end = Some v → named x ∧ value_ok v ∧ ∀ st, holds_in temp ts st → holds_in sym ss st → eval st v = eval st x.
Proof.
  intros Ht Hs. destruct x as [|n b|n b| | | |]; try done; intros Hv%lookup_in.
  - split_and!; [left; by eexists|by eapply (mk_values ts)|]. intros st H _. by apply H.
  - split_and!; [right; by eexists|by eapply (mk_values ss)|]. intros st _ H. by apply H.
Qed.

Lemma resolve_spec ts ss x fuel : map_ok ts → map_ok ss → value_ok x →
  value_ok (ir_resolve_propagated_value ts ss x fuel) ∧
  ∀ st, holds_in temp ts st → holds_in sym ss st → eval st (ir_resolve_propagated_value ts ss x fuel) = eval st x.
Proof.
  intros Ht Hs. revert x. induction fuel as [|fuel IH]; intros x Hx; cbn [ir_resolve_propagated_value]; [done|].
  destruct (match x with IR_OPERAND_TEMP _ _ => _ | IR_OPERAND_SYMBOL _ _ => _ | _ => None end) as [v|] eqn:Hv; [|done].
  apply mapped_ok in Hv as (_ & Hok & He); [|done..]. destruct (IH v Hok) as [H1 H2]. split; [done|].
  intros st Hts Hss. by rewrite H2, He.
Qed.

(** What an operand is replaced by, whatever the state. *)
Definition replaceable (x y : IROperand) : Prop := y = x ∨ (named x ∧ value_ok y).

Lemma try_spec ts ss x : map_ok ts → map_ok ss →
  replaceable x (ir_try_propagate_operand ts ss x).1 ∧
  ∀ st, holds_in temp ts st → holds_in sym ss st → replaces st x (ir_try_propagate_operand ts ss x).1.
Proof.
  intros Ht Hs. unfold ir_try_propagate_operand, replaceable, replaces.
  destruct (match x with IR_OPERAND_TEMP _ _ => _ | IR_OPERAND_SYMBOL _ _ => _ | _ => None end) as [v|] eqn:Hv;
    [|by split; [left|left]]. cbn [fst].
  apply mapped_ok in Hv as (Hn & Hok & He); [|done..]. destruct (resolve_spec ts ss v 65 Ht Hs Hok) as [H1 H2].
  split; [by right|]. intros st Hts Hss. right. split_and!; [done|done|]. by rewrite H2, He.
Qed.

Lemma replaces_eval st x y : replaces st x y → eval st y = eval st x.
Proof. by intros [->|(_ & _ & ?)]. Qed.

(** The operands of the rewritten instruction, related to those of the original one. *)
Lemma propagate_operands (R : IROperand → IROperand → Prop) ts ss i :
  (∀ x, R x x) → (∀ x, R x (ir_try_propagate_operand ts ss x).1) → (∀ x, R x (ir_try_propagate_operand ts [] x).1) →
  ∃ d l r args, (ir_propagate_instruction_operands ts ss i).1 = set_operands d l r args i ∧
    (d = dest i ∨ op i = IR_OP_STORE) ∧
    R (dest i) d ∧ R (lhs i) l ∧ R (rhs i) r ∧ Forall2 R (arguments i) args.
Proof.
  intros Hrefl Hboth Htemps.
  assert (∀ a, Forall2 R a a) as Ha. { intros a. induction a; constructor; auto. }
  assert (∀ a, Forall2 R a (map fst (map (ir_try_propagate_operand ts ss) a))) as Hmap.
  { intros a. induction a; cbn; constructor; eauto. }
  assert (i = set_operands (dest i) (lhs i) (rhs i) (arguments i) i) as Hi by by destruct i.
  pose proof (Hboth (dest i)) as Bd. pose proof (Hboth (lhs i)) as Bl. pose proof (Hboth (rhs i)) as Br.
  pose proof (Htemps (lhs i)) as Tl. pose proof (Htemps (rhs i)) as Tr.
  unfold ir_propagate_instruction_operands.
  destruct (ir_try_propagate_operand ts ss (dest i)) as [bd ?], (ir_try_propagate_operand ts ss (lhs i)) as [bl ?],
    (ir_try_propagate_operand ts ss (rhs i)) as [br ?], (ir_try_propagate_operand ts [] (lhs i)) as [tl ?],
    (ir_try_propagate_operand ts [] (rhs i)) as [tr ?]; cbn [fst] in *.
  destruct (op i) eqn:Hop; cbn [fst];
    first [by exists (dest i), (lhs i), (rhs i), (arguments i); split_and!; auto
          |by eexists _, _, _, _; split_and!; [reflexivity|..]; auto].
Qed.

(** Opcodes whose operands the pass looks at. *)
Definition has_values (o : IROpcode) : bool :=
  match o with
  | IR_OP_STORE | IR_OP_BRANCH_ZERO | IR_OP_BRANCH_EQ | IR_OP_ASSIGN | IR_OP_ADDRESS_OF | IR_OP_LOAD
  | IR_OP_BINARY | IR_OP_UNARY | IR_OP_CAST | IR_OP_NEW | IR_OP_CALL | IR_OP_CALL_INDIRECT | IR_OP_RETURN => true
  | _ => false
  end.

Lemma propagate_id ts ss i : has_values (op i) = false → (ir_propagate_instruction_operands ts ss i).1 = i.
Proof. unfold ir_propagate_instruction_operands. by destruct (op i). Qed.

(** No temporary among the operands of an instruction that takes them by temporary. *)
Lemma propagate_no_temps ts ss i :
  op i = IR_OP_UNARY → temp_name (lhs i) = None → temp_name (rhs i) = None → arguments i = [] →
  (ir_propagate_instruction_operands ts ss i).1 = i.
Proof.
  intros Ho Hl Hr Ha. unfold ir_propagate_instruction_operands. rewrite Ho, Ha.
  destruct i as [o loc d l r t a f fb ar]; cbn in *. by destruct l, r; subst.
Qed.

Lemma propagate_address ts ss i n b :
  op i = IR_OP_ADDRESS_OF → lhs i = IR_OPERAND_SYMBOL n b → lhs (ir_propagate_instruction_operands ts ss i).1 = lhs i.
Proof.
  intros Ho Hl. unfold ir_propagate_instruction_operands. rewrite Ho, Hl. cbn.
  by destruct (ir_try_propagate_operand ts [] (rhs i)).
Qed.

(** ** Well-formed code *)

(** Storing the value to the destination keeps it. *)
Definition fits (d x : IROperand) : Prop :=
  match d, x with
  | IR_OPERAND_SYMBOL n _, IR_OPERAND_INT v => narrow n (s64 v) = s64 v
  | _, _ => wide d
  end.

(** Per instruction: not one of the fused ones; assigned values are exact and not
    narrowed; the address of no temporary is taken. *)
Record propagation_instruction_ok (i : IRInstruction) : Prop := {
  pio_plain : op i ≠ IR_OP_ROTATE_ADD ∧ is_kernel (op i) = false;
  pio_assign : op i = IR_OP_ASSIGN → exact (lhs i) ∧ fits (dest i) (lhs i);
  pio_address : op i = IR_OP_UNARY → text i = Some "&"%string →
    temp_name (lhs i) = None ∧ temp_name (rhs i) = None ∧ arguments i = [] }.

Lemma wide_fits d x : wide d → fits d x.
Proof. destruct d, x; cbn; auto using s64_range. Qed.

Lemma fits_wide d x : named x → fits d x → wide d.
Proof. intros Hn. by destruct d, x; destruct Hn as [[? [=]]|[? [=]]]. Qed.

Section instruction.
Context (ts ss : list (string * IROperand)) (Hts : map_ok ts) (Hss : map_ok ss).
Context (i : IRInstruction) (Hi : propagation_instruction_ok i).

Abbreviation out := (ir_propagate_instruction_operands ts ss i).1.

Lemma out_shape : op out = op i ∧ text out = text i ∧ (dest out = dest i ∨ op i = IR_OP_STORE).
Proof.
  destruct (propagate_operands (λ _ _, True) ts ss i) as (d & l & r & a & -> & Hd & _); done.
Qed.

Lemma out_ok : propagation_instruction_ok out.
Proof.
  destruct out_shape as (Ho & Ht & Hdest). destruct (propagate_operands replaceable ts ss i) as (d & l & r & a & He & Hd & _ & Hl & _).
  { by left. } { intros x. by apply try_spec. } { intros x. by apply try_spec, map_ok_nil. }
  split; rewrite ?Ho, ?Ht.
  - apply (pio_plain i Hi).
  - intros Ha. destruct (pio_assign i Hi Ha) as [Hx Hf]. rewrite He. cbn. destruct Hd as [->|]; [|congruence].
    destruct Hl as [->|[Hn [Hvx _]]]; [done|]. split; [done|]. by eapply wide_fits, fits_wide.
  - intros Ha Hand. destruct (pio_address i Hi Ha Hand) as (? & ? & ?). by rewrite propagate_no_temps.
Qed.

(** The rewritten instruction does what the original does. *)
Context (st : state) (Ht : holds_in temp ts st) (Hs : holds_in sym ss st).

Lemma control_out f : control i st = Some f → control out st = Some f.
Proof.
  destruct (propagate_operands (replaces st) ts ss i) as (d & l & r & a & He & Hd & Rd & Rl & Rr & Ra).
  { by left. } { intros x. by apply try_spec. }
  { intros x. apply try_spec; [done|apply map_ok_nil|done|]. apply holds_in_nil. }
  destruct (has_values (op i)) eqn:Hv; [|by rewrite propagate_id].
  destruct (pio_plain i Hi) as [Hrot Hk]. pose proof (propagate_address ts ss i) as Haddr.
  pose proof (pio_address i Hi) as Hand. pose proof (propagate_no_temps ts ss i) as Hno. rewrite He in *.
  pose proof (replaces_eval _ _ _ Rl) as El. pose proof (replaces_eval _ _ _ Rr) as Er.
  pose proof (λ H, external_by_value i d l r a st H Rl Rr Ra) as Hext.
  unfold control, exec, computes, rhs_value. cbn [op set_operands text is_float float_bits dest lhs rhs].
  destruct (op i) eqn:Hop; try done; (destruct Hd as [->|Hd]; [|try done]);
    rewrite ?El, ?Er; try done; try (by rewrite Hext).
  - destruct (lhs i) as [|n b|n b| | | |] eqn:Hl; try done. specialize (Haddr n b eq_refl eq_refl). cbn in Haddr. by rewrite Haddr.
  - destruct (text i) as [o|] eqn:Ht'; [|done].
    destruct (String.eqb_spec o "*") as [->|]; cbn [negb andb]; [by rewrite Hext|].
    destruct (String.eqb_spec o "&") as [->|]; cbn [negb andb]; [|done].
    destruct (Hand eq_refl eq_refl) as (H1 & H2 & H3). by rewrite Hno.
  - destruct Rl as [->|([[n Hn]|[n Hn]] & [_ Hne] & Hl)]; [done| |]; destruct (lhs i); try done; destruct l; try done; by rewrite Hl.
Qed.
End instruction.

(** ** What is known after an instruction *)

Section after.
Context (i : IRInstruction) (Hi : propagation_instruction_ok i).

Definition after_effects (s : flow_values) : flow_values :=
  after_clobber i (after_rotate_add i (after_symbol_write i (after_temp_write i s))).

(** The instruction leaves the value of the operand alone. *)
Definition kept (v : IROperand) : Prop := untouched i v ∧ (clobbers (op i) = true → symbol_name v = None).

(** The value of an assignment whose destination it is not. *)
Definition assigned (v : IROperand) : Prop := op i = IR_OP_ASSIGN ∧ v = lhs i ∧ value_ok v ∧ untouched i v.

Lemma no_rotate s : after_rotate_add i s = s.
Proof. unfold after_rotate_add. destruct (pio_plain i Hi) as [? _]. by destruct (op i). Qed.

Lemma remove_symbols_in m n k v :
  (k, v) ∈ ir_temp_value_map_remove_symbol_values m n →
  (k, v) ∈ m ∧ match n with Some s => symbol_name v ≠ Some s | None => symbol_name v = None end.
Proof.
  unfold ir_temp_value_map_remove_symbol_values. intros [Hin Hk]%list_elem_of_In%filter_In. split; [by apply list_elem_of_In|].
  destruct n as [s|], v as [|n b|n b| | | |]; cbn in *; try done.
  intros [= ->]. by rewrite String.eqb_refl in Hk.
Qed.

Lemma after_clobber_in s n v :
  ((n, v) ∈ temp_values (after_clobber i s) →
     (n, v) ∈ temp_values s ∧ (clobbers (op i) = true → symbol_name v = None)) ∧
  ((n, v) ∈ symbol_values (after_clobber i s) → (n, v) ∈ symbol_values s ∧ clobbers (op i) = false).
Proof.
  unfold after_clobber, clobbers. destruct (op i); cbn; (split; [|try (by intros ?%elem_of_nil); done]);
    try done; intros [? ?]%(remove_symbols_in _ None); done.
Qed.

Lemma assigned_value_spec same v :
  assigned_value same i = Some v → op i = IR_OP_ASSIGN ∧ v = lhs i ∧ value_ok v ∧ same v = false.
Proof.
  unfold assigned_value. destruct (op i) eqn:Ho; try done.
  destruct (_ && _) eqn:Hc; [|done]. intros [= <-]. apply andb_true_iff in Hc as [Hp Hs]. split_and!; [done|done| |by apply negb_true_iff].
  split; [by apply (pio_assign i Hi)|]. intros He. by rewrite He in Hp.
Qed.

(** No value known is the temporary written. *)
Definition fresh_write (s : flow_values) : Prop :=
  ∀ t n v, ir_instruction_writes_temp i = Some t → (n, v) ∈ temp_values s ++ symbol_values s → temp_name v ≠ Some t.

Lemma written_once n : ir_instruction_writes_temp i = Some n → ir_instruction_writes_symbol i = None.
Proof.
  unfold ir_instruction_writes_temp, ir_instruction_writes_symbol. destruct (pio_plain i Hi) as [_ ->].
  destruct (writes_scalar (op i)); [|done]. by destruct (dest i).
Qed.

Lemma after_temps_in s n v : flow_ok s → fresh_write s → (n, v) ∈ temp_values (after_effects s) →
  ((n, v) ∈ temp_values s ∧ ir_instruction_writes_temp i ≠ Some n ∧ kept v) ∨
  (ir_instruction_writes_temp i = Some n ∧ assigned v).
Proof.
  intros Hs Hf [Hin Hc]%after_clobber_in. rewrite no_rotate in Hin. unfold after_symbol_write, after_temp_write in Hin.
  destruct (ir_instruction_writes_temp i) as [t|] eqn:Ht.
  - rewrite (written_once t Ht) in Hin. cbn in Hin.
    assert ((n, v) ∈ ir_temp_value_map_remove (temp_values s) t →
      (n, v) ∈ temp_values s ∧ Some t ≠ Some n ∧ kept v) as Hold.
    { intros [Hin' Hne]%remove_in; [|apply Hs]. split_and!; [done|congruence|]. split; [|done].
      assert (temp_name v ≠ Some t) as Hv. { apply (Hf t n v Ht). apply elem_of_app. by left. }
      unfold untouched. rewrite Ht, (written_once t Ht). destruct v; cbn in *; first [done|congruence]. }
    destruct (assigned_value _ i) as [w|] eqn:Ha; [|left; by apply Hold].
    apply set_in in Hin as [[-> ->]|Hin]; [right|left; by apply Hold].
    apply assigned_value_spec in Ha as (Ho & -> & Hok & Hsame). split_and!; [done|]. split_and!; [done..|].
    unfold untouched. rewrite Ht, (written_once t Ht). destruct (lhs i); try done. cbn in Hsame. intros [= ->].
    by rewrite String.eqb_refl in Hsame.
  - left. split_and!; [|done|split; [|done]].
    + destruct (ir_instruction_writes_symbol i); cbn in Hin; [|done]. by apply (remove_symbols_in _ (Some _)) in Hin as [? _].
    + unfold untouched. rewrite Ht. destruct (ir_instruction_writes_symbol i); [|by destruct v].
      apply (remove_symbols_in _ (Some _)) in Hin as [_ Hv]. destruct v; cbn in *; first [done|congruence].
Qed.

Lemma after_symbols_in s n v : flow_ok s → fresh_write s → (n, v) ∈ symbol_values (after_effects s) →
  clobbers (op i) = false ∧
  (((n, v) ∈ symbol_values s ∧ ir_instruction_writes_symbol i ≠ Some n ∧ kept v) ∨
   (ir_instruction_writes_symbol i = Some n ∧ assigned v)).
Proof.
  intros Hs Hf [Hin Hc]%after_clobber_in. split; [done|]. rewrite no_rotate in Hin. unfold after_symbol_write, after_temp_write in Hin.
  unfold kept. rewrite Hc.
  destruct (ir_instruction_writes_symbol i) as [t|] eqn:Ht.
  - assert (ir_instruction_writes_temp i = None) as Hw.
    { destruct (ir_instruction_writes_temp i) as [t'|] eqn:Hw; [|done]. by rewrite (written_once t' Hw) in Ht. }
    rewrite Hw in Hin. cbn in Hin.
    assert ((n, v) ∈ ir_symbol_value_map_invalidate_name (symbol_values s) t →
      (n, v) ∈ symbol_values s ∧ Some t ≠ Some n ∧ untouched i v ∧ (false = true → symbol_name v = None)) as Hold.
    { intros [[Hin' Hne]%remove_in Hv]%(remove_symbols_in _ (Some _)); [|apply Hs]. split_and!; [done|congruence| |done].
      unfold untouched. rewrite Ht, Hw. destruct v; cbn in *; first [done|congruence]. }
    destruct (assigned_value _ i) as [w|] eqn:Ha; [|left; by apply Hold].
    apply set_in in Hin as [[-> ->]|Hin]; [right|left; by apply Hold].
    apply assigned_value_spec in Ha as (Ho & -> & Hok & Hsame). split_and!; [done|]. split_and!; [done..|].
    unfold untouched. rewrite Ht, Hw. destruct (lhs i); try done. cbn in Hsame. intros [= ->].
    by rewrite String.eqb_refl in Hsame.
  - left. assert ((n, v) ∈ symbol_values s) as Hin' by (by destruct (ir_instruction_writes_temp i)).
    split_and!; [done..| |done]. unfold untouched. rewrite Ht.
    destruct (ir_instruction_writes_temp i) as [t|] eqn:Hw; [|by destruct v].
    assert (temp_name v ≠ Some t) as Hv. { apply (Hf t n v Hw). apply elem_of_app. by right. }
    destruct v; cbn in *; first [done|congruence].
Qed.

Lemma remove_symbols_sublist m n : sublist (ir_temp_value_map_remove_symbol_values m n) m.
Proof. apply filter_sublist. Qed.

Lemma after_effects_ok s : flow_ok s → flow_ok (after_effects s).
Proof.
  intros [Ht Hs Hl]. unfold after_effects. rewrite no_rotate.
  assert (flow_ok (after_temp_write i s)) as [Ht1 Hs1 Hl1].
  { unfold after_temp_write. destruct (ir_instruction_writes_temp i) as [t|]; [|done]. split; cbn; [|done..].
    destruct (assigned_value _ i) as [v|] eqn:Ha; [apply assigned_value_spec in Ha as (_ & _ & Hv & _); apply map_ok_set; [|done]|];
      (eapply map_ok_sublist; [apply remove_sublist|done]). }
  assert (flow_ok (after_symbol_write i (after_temp_write i s))) as [Ht2 Hs2 Hl2].
  { unfold after_symbol_write. destruct (ir_instruction_writes_symbol i) as [t|]; [|done]. split; cbn; [| |done].
    - eapply map_ok_sublist; [apply remove_symbols_sublist|done].
    - assert (map_ok (ir_symbol_value_map_invalidate_name (symbol_values (after_temp_write i s)) t)) as Hm.
      { eapply map_ok_sublist; [apply remove_symbols_sublist|]. by eapply map_ok_sublist; [apply remove_sublist|]. }
      destruct (assigned_value _ i) as [v|] eqn:Ha; [|done]. apply assigned_value_spec in Ha as (_ & _ & Hv & _). by apply map_ok_set. }
  unfold after_clobber. destruct (op i); try done; (split; cbn; [|apply map_ok_nil|done]);
    by (eapply map_ok_sublist; [apply remove_symbols_sublist|]).
Qed.

(** The instruction has gone on to the next one. *)
Context (st st' : state) (Hx : control i st = Some (Next st')).

Lemma kept_eval v : kept v → eval st' v = eval st v.
Proof.
  intros [Hu Hc]. destruct (pio_plain i Hi) as [Hr Hk].
  assert (exec i st = Some st' → eval st' v = eval st v) as Hexec.
  { intros He. destruct (clobbers (op i)) eqn:Hcl; [|by eapply exec_frame].
    assert (external i st = Some st') as Hext. { unfold exec, computes in He. by destruct (op i). }
    specialize (Hc eq_refl). destruct v as [|n b|n b| | | |]; try done. cbn. f_equal. by eapply external_temps. }
  unfold control in Hx. destruct (op i) eqn:Ho; try (by apply fmap_Some in Hx as (? & Hst & [= ->]); apply Hexec).
  all: try (by apply fmap_Some in Hx as (? & ? & [=])).
  - apply bind_Some in Hx as (a & _ & Hb). unfold branch_if in Hb. case_match; [|by injection Hb as ->]. by apply fmap_Some in Hb as (? & ? & [=]).
  - apply bind_Some in Hx as (a & _ & Hb). apply bind_Some in Hb as (b & _ & Hb). unfold branch_if in Hb.
    case_match; [|by injection Hb as ->]. by apply fmap_Some in Hb as (? & ? & [=]).
  - destruct (lhs i); try (by apply bind_Some in Hx as (? & ? & [=])). by injection Hx.
Qed.

Lemma eval_in_range x v : eval st x = Some v → s64 v = v.
Proof.
  destruct x; cbn; try done; try (by intros [= <-]; rewrite s64_s64).
  all: intros (w & _ & ->)%fmap_Some; by rewrite s64_s64.
Qed.

Lemma assigned_eval : op i = IR_OP_ASSIGN → eval st' (dest i) = eval st (lhs i).
Proof.
  intros Ho. destruct (pio_assign i Hi Ho) as [_ Hf]. unfold control, exec, computes, rhs_value in Hx. rewrite Ho in Hx.
  apply fmap_Some in Hx as (st1 & Hw & [= ->]). apply bind_Some in Hw as (v & Hv & Hw). rewrite Hv.
  pose proof (eval_in_range _ _ Hv) as Hr. unfold write in Hw. destruct (dest i) as [|n b|n b| | | |]; try done.
  - injection Hw as <-. cbn. rewrite lookup_insert_eq. cbn. by rewrite s64_s64, Hr.
  - injection Hw as <-. cbn. rewrite lookup_insert_eq. cbn. f_equal.
    assert (narrow n (s64 v) = s64 v) as ->; [|by rewrite s64_s64].
    destruct (lhs i); cbn in Hf; try (apply Hf, s64_range). cbn in Hv. injection Hv as <-. by rewrite s64_s64.
Qed.

Lemma after_holds s : flow_ok s → holds s st → fresh_write s → holds (after_effects s) st'.
Proof.
  intros Hok [Ht Hs] Hf. split; intros n v Hin.
  - apply after_temps_in in Hin as [(Hin & Hn & Hv)|(Hn & Ho & -> & Hv & Hu)]; [..|done|done].
    + rewrite (kept_eval v Hv), (kept_eval (temp n)); [by apply Ht|]. split; [done|by intros _].
    + rewrite kept_eval by (split; [done|by rewrite Ho]). rewrite <- (assigned_eval Ho).
      unfold ir_instruction_writes_temp in Hn. rewrite Ho in Hn. cbn in Hn. destruct (dest i); try done. by injection Hn as ->.
  - apply after_symbols_in in Hin as [Hc [(Hin & Hn & Hv)|(Hn & Ho & -> & Hv & Hu)]]; [..|done|done].
    + rewrite (kept_eval v Hv), (kept_eval (sym n)); [by apply Hs|]. split; [done|by rewrite Hc].
    + rewrite kept_eval by (split; [done|by rewrite Ho]). rewrite <- (assigned_eval Ho).
      unfold ir_instruction_writes_symbol in Hn. rewrite Ho in Hn. cbn in Hn. destruct (dest i); try done. by injection Hn as ->.
Qed.
End after.

(** ** One visit *)

(** The label an instruction is. *)
Definition entered (i : IRInstruction) : option string :=
  match op i with IR_OP_LABEL => text i | _ => None end.

Lemma enter_label_spec fall l s : flow_ok s →
  let used := (enter_label fall l s).1 in
  flow_ok used ∧ narrows (label_in s) (label_in used) ∧ symbol_values used = [] ∧
  (fall = true → included (temp_values used) (temp_values s)).
Proof.
  intros [Ht Hs Hl]. unfold enter_label.
  assert (∀ ls, labels_ok ls → map_ok match ir_label_value_map_lookup ls l with
    | Some m => ir_temp_value_map_clone m | None => [] end) as Hclone.
  { intros ls Hls. destruct (ir_label_value_map_lookup ls l) as [m|] eqn:Hm; [|apply map_ok_nil].
    rewrite clone_id; [by eapply Hls|apply (Hls l m Hm)]. }
  destruct fall; cbn; [|by split_and!; [split; cbn; [apply Hclone|apply map_ok_nil|]|..]].
  destruct (ir_label_value_map_merge_incoming (label_in s) l (temp_values s)) as [ls b] eqn:Hm.
  apply merge_spec in Hm as (Hls & (im & Him & Hin) & Hn); [|done..]. cbn.
  split_and!; [split; cbn; [by apply Hclone|apply map_ok_nil|done]|done|done|].
  intros _. rewrite Him, clone_id; [done|]. apply (Hls l im Him).
Qed.

Lemma enter_instruction_spec fall i s : flow_ok s →
  let used := (enter_instruction fall i s).1 in
  flow_ok used ∧ narrows (label_in s) (label_in used) ∧
  (entered i = None → used = s) ∧
  (entered i ≠ None → symbol_values used = [] ∧ (fall = true → included (temp_values used) (temp_values s))).
Proof.
  intros Hs. unfold enter_instruction, entered.
  destruct (op i); try (by split_and!). destruct (text i) as [l|]; [|by split_and!].
  destruct (enter_label_spec fall l s Hs) as (? & ? & ? & ?). by split_and!.
Qed.

Lemma merge_at_jump_spec i s : flow_ok s →
  let s' := (merge_at_jump i s).1 in
  flow_ok s' ∧ narrows (label_in s) (label_in s') ∧ temp_values s' = temp_values s ∧ symbol_values s' = symbol_values s ∧
  ∀ st l, control i st = Some (Goto l) → merged (temp_values s) l (label_in s').
Proof.
  intros [Ht Hs Hl]. unfold merge_at_jump.
  assert (∀ st l, control i st = Some (Goto l) → text i = Some l ∧
    match op i with IR_OP_JUMP | IR_OP_BRANCH_ZERO | IR_OP_BRANCH_EQ => True | _ => False end) as Hgoto.
  { intros st l. unfold control.
    destruct (op i); try (by intros (? & ? & [=])%fmap_Some); try (by intros (? & ? & [= ->])%fmap_Some).
    - intros (a & _ & Hb)%bind_Some. unfold branch_if in Hb. case_match; [|done]. by apply fmap_Some in Hb as (? & ? & [= ->]).
    - intros (a & _ & (b & _ & Hb)%bind_Some)%bind_Some. unfold branch_if in Hb. case_match; [|done]. by apply fmap_Some in Hb as (? & ? & [= ->]).
    - destruct (lhs i); try (by intros (? & ? & [=])%bind_Some). done. }
  assert (∀ k, text i = Some k →
    let s' := (let '(labels, changed) := ir_label_value_map_merge_incoming (label_in s) k (temp_values s) in
               (mkValues (temp_values s) (symbol_values s) labels, changed)).1 in
    flow_ok s' ∧ narrows (label_in s) (label_in s') ∧ temp_values s' = temp_values s ∧ symbol_values s' = symbol_values s ∧
    ∀ st l, control i st = Some (Goto l) → merged (temp_values s) l (label_in s')) as Hmerge.
  { intros k Hk. destruct (ir_label_value_map_merge_incoming _ _ _) as [ls b] eqn:Hm.
    apply merge_spec in Hm as (Hls & Hmg & Hn); [|done..]. cbn. split_and!; [by split|done..|].
    intros st l [Hl' _]%Hgoto. congruence. }
  destruct (text i) as [k|] eqn:Hk.
  - destruct (op i); try (by apply Hmerge); cbn; (split_and!; [by split|done..|]); by intros st l [_ ?]%Hgoto.
  - destruct (op i); cbn; (split_and!; [by split|done..|]); by intros st l [? ?]%Hgoto.
Qed.

Lemma after_jump_spec i s : flow_ok s →
  flow_ok (after_jump i s) ∧ label_in (after_jump i s) = label_in s ∧ (leaves_block (op i) = false → after_jump i s = s).
Proof.
  intros [Ht Hs Hl]. unfold after_jump. destruct (leaves_block (op i)); split_and!; try done. by split; [apply map_ok_nil..|].
Qed.

(** What a visit leaves, whatever the state. *)
Record visit_ok (s : flow_values) (i : IRInstruction) (v : visit) : Prop := {
  vk_used : flow_ok (vi_used v);
  vk_next : flow_ok (vi_next v);
  vk_labels : narrows (label_in s) (label_in (vi_next v));
  vk_out : propagation_instruction_ok (vi_out v);
  vk_same : op (vi_out v) = op i ∧ text (vi_out v) = text i }.

Section visit.
Context (fall : bool) (s : flow_values) (i : IRInstruction).
Context (Hs : flow_ok s) (Hi : propagation_instruction_ok i).

Abbreviation v := (propagate_instruction fall s i).

Lemma visit_unfold :
  let used := (enter_instruction fall i s).1 in
  let out := (ir_propagate_instruction_operands (temp_values used) (symbol_values used) i).1 in
  vi_used v = used ∧ vi_out v = out ∧ vi_next v = after_jump out (merge_at_jump out (after_effects out used)).1.
Proof.
  unfold propagate_instruction, after_effects. destruct (enter_instruction fall i s) as [used f1]. cbn.
  destruct (ir_propagate_instruction_operands _ _ i) as [out ch]. cbn.
  by destruct (merge_at_jump out _) as [s' f2].
Qed.

Lemma after_effects_labels i' s' : label_in (after_effects i' s') = label_in s'.
Proof.
  unfold after_effects, after_clobber, after_rotate_add, after_symbol_write, after_temp_write.
  destruct (ir_instruction_writes_symbol i'), (ir_instruction_writes_temp i'), (op i'), (operand_name (dest i')); done.
Qed.

Lemma visit_spec : visit_ok s i v.
Proof.
  destruct visit_unfold as (Hu & Ho & Hn). destruct (enter_instruction_spec fall i s Hs) as (Hused & Hlab & _).
  rewrite <- Hu in *. rewrite <- Ho in *.
  assert (propagation_instruction_ok (vi_out v)) as Hok. { rewrite Ho. apply out_ok; [apply Hused|apply Hused|done]. }
  destruct (merge_at_jump_spec (vi_out v) _ (after_effects_ok _ Hok _ Hused)) as (Hm & Hml & _).
  destruct (after_jump_spec (vi_out v) _ Hm) as (Hj & Hjl & _). rewrite <- Hn in *.
  split; [done|done| |done|].
  - rewrite Hjl. rewrite after_effects_labels in Hml. by etrans.
  - rewrite Ho. destruct (out_shape (temp_values (vi_used v)) (symbol_values (vi_used v)) i) as (? & ? & _). done.
Qed.

Lemma visit_step st f :
  holds (vi_used v) st → fresh_write (vi_out v) (vi_used v) → control i st = Some f →
  control (vi_out v) st = Some f ∧
  match f with
  | Next st' => leaves_block (op i) = false ∧ holds (vi_next v) st'
  | Goto l => ∃ m, map_ok m ∧ merged m l (label_in (vi_next v)) ∧ holds_in temp m st
  | Leave _ => True
  end.
Proof.
  destruct visit_spec as [Hused _ _ Hok [Hop _]]. destruct visit_unfold as (Hu & Ho & Hn). rewrite <- Hu in *. rewrite <- Ho in *.
  intros [Ht Hsy] Hf Hc. assert (control (vi_out v) st = Some f) as Hc'.
  { rewrite Ho. apply control_out; [apply Hused|apply Hused|done..]. } split; [done|].
  pose proof (after_effects_ok _ Hok _ Hused) as Ha.
  destruct (merge_at_jump_spec (vi_out v) _ Ha) as (Hm & Hml & Htm & Hsm & Hg).
  destruct (after_jump_spec (vi_out v) _ Hm) as (_ & Hjl & Hj). rewrite Hop in Hj.
  destruct f as [st'|l|]; [| |done].
  - assert (leaves_block (op i) = false) as Hlv.
    { unfold control in Hc. destruct (op i); try done; [by apply fmap_Some in Hc as (? & ? & [=])|].
      destruct (lhs i); try (by apply bind_Some in Hc as (? & ? & [=])). done. }
    split; [done|]. rewrite Hn, Hj by done.
    destruct (after_holds (vi_out v) Hok st st' Hc' (vi_used v) Hused) as [H1 H2]; [by split|done|]. split; [by rewrite Htm|by rewrite Hsm].
  - exists (temp_values (after_effects (vi_out v) (vi_used v))). split_and!; [apply Ha| |].
    + rewrite Hn, Hjl. by eapply Hg.
    + intros n x Hin. apply after_temps_in in Hin as [(Hin & _)|(_ & Hass & _)]; [by apply Ht|..|done|done|done].
      exfalso. unfold control in Hc'. rewrite Hass in Hc'. by apply fmap_Some in Hc' as (? & ? & [=]).
Qed.
End visit.

(** ** An iteration *)

(** The last opcode that is no [IR_OP_NOP] among the first [n]. *)
Definition opcode_before (previous : option IROpcode) (c : code) (n : nat) : option IROpcode :=
  foldl (λ p i, if is_nop i then p else Some (op i)) previous (take n c).

Definition falls_at (first : bool) (previous : option IROpcode) (c : code) (n : nat) : bool :=
  negb (first && (n =? 0)) && match opcode_before previous c n with Some o => negb (leaves_block o) | None => true end.

Definition arrives (s : flow_values) (visits : list visit) (n : nat) (s' : flow_values) : Prop :=
  match n with O => s' = s | S p => ∃ v, visits !! p = Some v ∧ s' = vi_next v end.

Lemma loop_lookup c : ∀ first previous s visits labels n i,
  propagation_loop first previous s c = (visits, labels) → c !! n = Some i →
  ∃ s', visits !! n = Some (propagate_instruction (falls_at first previous c n) s' i) ∧ arrives s visits n s'.
Proof.
  induction c as [|j c IH]; intros first previous s visits labels n i; [done|]. cbn [propagation_loop].
  destruct (propagation_loop false _ _ c) as [vs ls] eqn:Hl. intros [= <- <-]. destruct n as [|n].
  - intros [= ->]. exists s. split; [|done]. cbn. unfold falls_at. cbn. by rewrite andb_true_r.
  - intros Hi. destruct (IH _ _ _ _ _ n i Hl Hi) as (s' & Hv & Ha). exists s'. split.
    + trans (vs !! n); [done|]. rewrite Hv. unfold falls_at. cbn. by rewrite andb_false_r.
    + destruct n as [|n]; cbn in *; eauto.
Qed.

Lemma loop_ok c : ∀ first previous s visits labels,
  flow_ok s → Forall propagation_instruction_ok c → propagation_loop first previous s c = (visits, labels) →
  labels_ok labels ∧ narrows (label_in s) labels ∧
  Forall2 (λ i v, ∃ s, visit_ok s i v ∧ narrows (label_in (vi_next v)) labels) c visits.
Proof.
  induction c as [|i c IH]; intros first previous s visits labels Hs Hc; cbn [propagation_loop].
  - intros [= <- <-]. split_and!; [apply Hs|done|constructor].
  - apply Forall_cons in Hc as [Hi Hc].
    destruct (visit_spec (negb first && match previous with Some o => negb (leaves_block o) | None => true end) s i Hs Hi) as [Hu Hn Hlab Ho Hsame].
    destruct (propagation_loop false _ _ c) as [vs ls] eqn:Hl. intros [= <- <-].
    destruct (IH _ _ _ _ _ Hn Hc Hl) as (H1 & H2 & H3). split_and!; [done|by etrans|]. constructor; [|done].
    exists s. by split.
Qed.

(** No value known is a temporary the instruction writes. *)
Definition no_stale (v : visit) : bool :=
  match ir_instruction_writes_temp (vi_out v) with
  | Some t => forallb (λ e, match temp_name e.2 with Some n => negb (String.eqb n t) | None => true end)
                (temp_values (vi_used v) ++ symbol_values (vi_used v))
  | None => true
  end.

(** The values used at a label are those left at it in the end. *)
Definition settled (labels : IRLabelValueMap) (v : visit) : bool :=
  match entered (vi_out v) with
  | Some l => forallb (λ e, match ir_label_value_map_lookup labels l with
                            | Some m => match ir_temp_value_map_lookup m e.1 with
                                        | Some w => ir_operand_equals e.2 w
                                        | None => false
                                        end
                            | None => false
                            end) (temp_values (vi_used v))
  | None => true
  end.

(** And nothing is known where the function starts. *)
Definition iteration_safe (visits : list visit) (labels : IRLabelValueMap) : bool :=
  forallb no_stale visits && forallb (settled labels) visits &&
  match visits with v :: _ => bool_decide (temp_values (vi_used v) = []) | [] => true end.

Fixpoint propagation_safe (fuel : nat) (labels : IRLabelValueMap) (c : code) : bool :=
  match fuel with
  | O => true
  | S fuel =>
      let '(visits, labels) := propagation_iteration labels c in
      iteration_safe visits labels &&
      (if existsb vi_flow visits then propagation_safe fuel labels (map vi_out visits) else true)
  end.

Lemma no_stale_spec v : no_stale v = true → fresh_write (vi_out v) (vi_used v).
Proof.
  unfold no_stale, fresh_write. intros Hn t n x Ht Hin Hx. rewrite Ht, forallb_forall in Hn.
  apply list_elem_of_In, Hn in Hin. cbn in Hin. rewrite Hx, String.eqb_refl in Hin. done.
Qed.

Lemma settled_spec labels v l m : settled labels v = true → entered (vi_out v) = Some l →
  ir_label_value_map_lookup labels l = Some m → included (temp_values (vi_used v)) m.
Proof.
  unfold settled. intros Hs He Hm n x Hin. rewrite He, forallb_forall in Hs.
  apply list_elem_of_In, Hs in Hin. rewrite Hm in Hin. cbn in Hin.
  destruct (ir_temp_value_map_lookup m n) as [w|] eqn:Hw; [|done]. apply lookup_in in Hw. exists w. by split; [|right].
Qed.

Section iteration.
Context (labels labels' : IRLabelValueMap) (c : code) (visits : list visit).
Context (Hlabels : labels_ok labels) (Hc : Forall propagation_instruction_ok c).
Context (Hrun : propagation_iteration labels c = (visits, labels')).
Context (Hsafe : iteration_safe visits labels' = true).

(** At an instruction control can reach, what is known there is so. *)
Definition known (k : config) : Prop :=
  match k with
  | At n st => ∀ v, visits !! n = Some v →
      (n = 0 ∨ falls_at true None c n = true ∨ entered (vi_out v) ≠ None) ∧ holds (vi_used v) st
  | Halted _ _ => True
  end.

Lemma initial_ok : flow_ok (mkValues [] [] labels).
Proof. by split; [apply map_ok_nil..|]. Qed.

Lemma visited n i : c !! n = Some i →
  ∃ v s, visits !! n = Some v ∧ v = propagate_instruction (falls_at true None c n) s i ∧ flow_ok s ∧
    arrives (mkValues [] [] labels) visits n s ∧ narrows (label_in (vi_next v)) labels' ∧ op (vi_out v) = op i ∧
    text (vi_out v) = text i ∧ propagation_instruction_ok i ∧ no_stale v = true ∧ settled labels' v = true.
Proof.
  intros Hi. destruct (loop_lookup _ _ _ _ _ _ _ _ Hrun Hi) as (s & Hv & Ha).
  destruct (loop_ok _ _ _ _ _ _ initial_ok Hc Hrun) as (_ & _ & Hall).
  eexists _, s. split; [exact Hv|]. split; [done|].
  apply andb_true_iff in Hsafe as [[Hns Hse]%andb_true_iff _]. rewrite forallb_forall in Hns, Hse.
  destruct (Forall2_lookup_l _ _ _ _ _ Hall Hi) as (v' & Hv' & s' & Hok & Hlab).
  rewrite Hv in Hv'. injection Hv' as <-. destruct (vk_same _ _ _ Hok).
  assert (propagate_instruction (falls_at true None c n) s i ∈ visits) as Hin%list_elem_of_In by by eapply list_elem_of_lookup_2.
  split_and!; auto.
  - destruct n as [|n]; cbn in Ha; [subst; apply initial_ok|]. destruct Ha as (w & Hw & ->).
    destruct (Forall2_lookup_r _ _ _ _ _ Hall Hw) as (j & _ & s'' & Hj & _). apply (vk_next _ _ _ Hj).
  - by eapply Forall_lookup_1 in Hi.
Qed.

Lemma known_next n i v (st' : state) : c !! n = Some i → visits !! n = Some v → leaves_block (op i) = false →
  (n = 0 ∨ falls_at true None c n = true ∨ entered (vi_out v) ≠ None) → holds (vi_next v) st' → known (At (S n) st').
Proof.
  intros Hi Hv Hl Hlive Hh w Hw.
  destruct (lookup_lt_is_Some_2 c (S n)) as [j Hj].
  { destruct (loop_ok _ _ _ _ _ _ initial_ok Hc Hrun) as (_ & _ & Hall). apply Forall2_length in Hall. rewrite Hall. by eapply lookup_lt_Some. }
  destruct (visited _ _ Hj) as (w' & s & Hw' & Hweq & Hs & Ha & _). rewrite Hw in Hw'. injection Hw' as <-.
  destruct Ha as (v' & Hv' & ->). rewrite Hv in Hv'. injection Hv' as <-.
  assert (falls_at true None c (S n) = true) as Hfall.
  { unfold falls_at, opcode_before. rewrite (take_S_r _ _ _ Hi), foldl_app. cbn.
    unfold is_nop. case_bool_decide as Hnop; [|by rewrite Hl].
    destruct Hlive as [->|[Hf|He]]; [done| |].
    - unfold falls_at, opcode_before in Hf. by apply andb_true_iff in Hf as [_ Hf].
    - exfalso. apply He. unfold entered. destruct (visited _ _ Hi) as (v' & ? & Hv' & _ & _ & _ & _ & Ho & _).
      rewrite Hv in Hv'. injection Hv' as <-. by rewrite Ho, Hnop. }
  split; [by right; left|]. rewrite Hfall in Hweq.
  destruct (visit_unfold true (vi_next v) j) as (Hu & _). rewrite <- Hweq in Hu.
  destruct (enter_instruction_spec true j _ Hs) as (Hok & _ & Hno & Hyes). rewrite Hu.
  destruct (entered j) as [l|] eqn:Hent; [|by rewrite Hno].
  destruct Hyes as [H1 H2]; [done|]. split; [|rewrite H1; apply holds_in_nil].
  eapply included_holds; [by apply H2|apply Hok|apply Hh].
Qed.

Lemma known_goto l k m (st : state) : ir_find_label_index c l = Some k → map_ok m → merged m l labels' → holds_in temp m st → known (At k st).
Proof.
  intros Hk Hm (im & Him & Hin) Hh v Hv. apply ControlFlowFacts.find_index_Some in Hk as [(i & Hi & Hl) _].
  apply ControlFlowFacts.is_label_op in Hl as [Hop Ht].
  destruct (visited _ _ Hi) as (v' & s & Hv' & Heq & Hs & _ & _ & Ho' & Ht' & _ & _ & Hset). rewrite Hv in Hv'. injection Hv' as <-.
  assert (entered (vi_out v) = Some l) as Hent. { unfold entered. by rewrite Ho', Ht', Hop. }
  split; [right; right; by rewrite Hent|].
  pose proof (settled_spec _ _ _ _ Hset Hent Him) as Hinc.
  destruct (visit_unfold (falls_at true None c k) s i) as (Hu & _). rewrite <- Heq in Hu.
  destruct (enter_instruction_spec (falls_at true None c k) i s Hs) as (Hok & _ & _ & Hyes). rewrite <- Hu in *.
  destruct Hyes as [Hsym _]; [unfold entered; by rewrite Hop, Ht|].
  split; [|rewrite Hsym; apply holds_in_nil].
  assert (labels_ok labels') as Hlo by by destruct (loop_ok _ _ _ _ _ _ initial_ok Hc Hrun).
  eapply included_holds; [exact Hinc|apply Hok|]. eapply included_holds; [exact Hin|by eapply Hlo|done].
Qed.

Lemma known_start st0 : known (At 0 st0).
Proof.
  intros x Hx. split; [by left|].
  destruct (loop_ok _ _ _ _ _ _ initial_ok Hc Hrun) as (_ & _ & Hall).
  destruct (Forall2_lookup_r _ _ _ _ _ Hall Hx) as (i & Hi & _).
  destruct (visited _ _ Hi) as (v & s & Hv & Heq & Hs & Ha & _). rewrite Hx in Hv. injection Hv as <-. cbn in Ha. subst s.
  destruct (visit_unfold (falls_at true None c 0) (mkValues [] [] labels) i) as (Hu & _). rewrite <- Heq in Hu.
  destruct (enter_instruction_spec (falls_at true None c 0) i _ Hs) as (_ & _ & Hno & Hyes). rewrite <- Hu in *.
  assert (temp_values (vi_used x) = []) as Ht.
  { apply andb_true_iff in Hsafe as [_ H]. destruct visits as [|y vs]; [done|]. injection Hx as ->. by apply bool_decide_eq_true in H. }
  assert (symbol_values (vi_used x) = []) as Hsym.
  { destruct (entered i) as [l|]; [by apply Hyes|]. by rewrite Hno. }
  split; rewrite ?Ht, ?Hsym; apply holds_in_nil.
Qed.

Lemma known_step n st i f : known (At n st) → c !! n = Some i → control i st = Some f →
  ∃ v, visits !! n = Some v ∧ control (vi_out v) st = Some f ∧
  match f with
  | Next st' => known (At (S n) st')
  | Goto l => ∀ k, ir_find_label_index c l = Some k → known (At k st)
  | Leave _ => True
  end.
Proof.
  intros Hk Hi Hf. destruct (visited _ _ Hi) as (v & s & Hv & Heq & Hs & _ & Hn & _ & _ & Hok & Hst & _).
  destruct (Hk v Hv) as [Hlive Hh]. exists v. split; [done|].
  destruct (visit_step (falls_at true None c n) s i Hs Hok st f) as [Hc' Hnext]; rewrite <- ?Heq; [done|by apply no_stale_spec|done|].
  rewrite <- Heq in *. split; [done|]. destruct f as [st'|l|]; [| |done].
  - destruct Hnext. by eapply known_next.
  - destruct Hnext as (m & Hm & Hmg & Hmh). intros k Hk'. eapply known_goto; [done|done|by eapply merged_narrows|done].
Qed.

Lemma visits_label l : ir_find_label_index (map vi_out visits) l = ir_find_label_index c l.
Proof.
  destruct (loop_ok _ _ _ _ _ _ initial_ok Hc Hrun) as (_ & _ & Hall). unfold ir_find_label_index.
  clear Hrun Hsafe Hc. induction Hall as [|i v c' vs (s & Hok & _) _ IH]; [done|]. cbn.
  destruct (vk_same _ _ _ Hok) as [H1 H2]. rewrite IH. unfold is_label. by rewrite H1, H2.
Qed.

Lemma iteration_preserves v st st0 :
  halts c (start st0) v st → halts (map vi_out visits) (start st0) v st.
Proof.
  apply (simulation known).
  - intros [n s|w s] k' Hk; cbn; [|by intros [= <-]].
    destruct (c !! n) as [i|] eqn:Hi; [|by intros [= <-]].
    intros (f & Hf & Hk')%bind_Some. destruct (known_step n s i f Hk Hi Hf) as (x & _ & _ & Hnext).
    destruct f as [s'|l|w]; [|apply bind_Some in Hk' as (a & Ha & Hk')|]; simplify_eq; [done|by apply Hnext|done].
  - intros [n s|w s] k' Hk Hs; exists 1; cbn in *; [|congruence].
    destruct (c !! n) as [i|] eqn:Hi; [|].
    + apply bind_Some in Hs as (f & Hf & Hs). destruct (known_step n s i f Hk Hi Hf) as (x & Hx & Hcx & _).
      change (map vi_out visits) with (vi_out <$> visits). rewrite list_lookup_fmap, Hx. cbn. rewrite Hcx. cbn.
      destruct f as [s'|l|w]; [done| |done]. change (vi_out <$> visits) with (map vi_out visits). rewrite visits_label.
      by destruct (ir_find_label_index c l); cbn in *.
    + destruct (loop_ok _ _ _ _ _ _ initial_ok Hc Hrun) as (_ & _ & Hall). apply Forall2_length in Hall.
      change (map vi_out visits) with (vi_out <$> visits). rewrite list_lookup_fmap.
      assert (visits !! n = None) as ->; [|done]. apply lookup_ge_None. apply lookup_ge_None in Hi. lia.
  - apply known_start.
Qed.
End iteration.

Lemma iterations_preserve fuel labels c v st st0 :
  labels_ok labels → Forall propagation_instruction_ok c → propagation_safe fuel labels c = true →
  halts c (start st0) v st → halts (propagation_iterations fuel labels c).1 (start st0) v st.
Proof.
  revert labels c. induction fuel as [|fuel IH]; intros labels c Hl Hc; [done|]. cbn [propagation_safe propagation_iterations].
  destruct (propagation_iteration labels c) as [visits labels'] eqn:Hrun. intros [Hs Hrest]%andb_true_iff Hh.
  pose proof (iteration_preserves labels labels' c visits Hl Hc Hrun Hs v st st0 Hh) as Hh'.
  destruct (existsb vi_flow visits); [|done].
  assert (flow_ok (mkValues [] [] labels)) as Hinit by by split; [apply map_ok_nil..|].
  destruct (loop_ok _ _ _ _ _ _ Hinit Hc Hrun) as (Hl' & _ & Hall).
  assert (Forall propagation_instruction_ok (map vi_out visits)) as Hc'.
  { apply Forall_fmap. clear -Hall. induction Hall as [|i x c' vs (s & Hok & _) _ IH]; constructor; [apply (vk_out _ _ _ Hok)|done]. }
  specialize (IH labels' (map vi_out visits) Hl' Hc' Hrest Hh'). by destruct (propagation_iterations fuel labels' _).
Qed.
End propagation.

(** Code on which the pass is sound, decided by following its iterations. *)
Definition propagation_ok {M : Machine} (c : code) : Prop :=
  Forall propagation_instruction_ok c ∧ propagation_safe 8 [] c = true.

(** C14. Copy and constant propagation keeps every run of a function from its start to
    its end, over any machine that takes operands by value, provided ([propagation_ok]) the
    fused instructions are absent, assignments do not narrow the value assigned and assign
    no floating zero, the address of no temporary is taken, and in each iteration of the
    pass no temporary is written while it is the value known of another name and the
    values used at a label are those of all the ways to it. *)
Theorem copy_propagation_correct {M : Machine} {L : ValueLaws M} c v st st0 :
  propagation_ok c → halts c (start st0) v st →
  halts (ir_copy_and_constant_propagation_pass c).1 (start st0) v st.
Proof. intros [Hc Hs]. apply iterations_preserve; done. Qed.

#[export] Instance toy_value_laws : ValueLaws toy_machine.
Proof.
  split; [apply toy_frame_laws| |].
  - intros i st st' n [= <-] _ Hn. destruct (ir_instruction_writes_temp i) as [t|], (ir_instruction_writes_symbol i); cbn; try done;
      by rewrite lookup_insert_ne by congruence.
  - intros i d l r args st Hd _ _ _. cbn. unfold ir_instruction_writes_temp, ir_instruction_writes_symbol. cbn.
    destruct (op i); try done; try (by subst d); by destruct Hd as [-> _].
Qed.

(** [k = 5; i = 2k; loop: if i = 0 goto done; j = k; i = i - j; goto loop; done: return i],
    with [k] a temporary. *)
Definition example_propagation : code :=
  [i_assign (temp "k") (int 5); i_binary (sym "i") (temp "k") "*" (int 2); i_label "loop"; i_branch_zero (sym "i") "done";
   i_assign (temp "j") (temp "k"); i_binary (sym "i") (sym "i") "-" (temp "j"); i_jump "loop"; i_label "done";
   i_return (sym "i")].

Example example_propagation_constant :
  (ir_copy_and_constant_propagation_pass example_propagation).1 !! 5%nat =
    Some (i_binary (sym "i") (sym "i") "-" (int 5)).
Proof. vm_compute. reflexivity. Qed.

Lemma copy_propagation_correct_witness :
  ∃ st, halts (ir_copy_and_constant_propagation_pass example_propagation).1 (start toy_start) (Some 0%Z) st.
Proof.
  destruct (returns_halts 30 example_propagation (Some 0%Z)) as [st Hst]; [vm_compute; reflexivity|].
  exists st. apply (copy_propagation_correct example_propagation); [|exact Hst].
  split; [|vm_compute; reflexivity].
  repeat (constructor; [by split; cbn; [split|..]|]). constructor.
Defined.

(** [b = a] once before a loop that reads [b] and then changes [a]. *)
Definition copy_around_loop : code :=
  [i_binary (sym "a") (int 1) "+" (int 2); i_assign (sym "n") (int 2); i_assign (temp "b") (sym "a"); i_label "loop";
   i_branch_zero (sym "n") "done"; i_binary (sym "r") (temp "b") "+" (int 0); i_assign (sym "a") (int 6);
   i_binary (sym "n") (sym "n") "-" (int 1); i_jump "loop"; i_label "done"; i_return (sym "r")].

(** [a = 1 + 0; b = a; a = 5; return b], on temporaries. *)
Definition copy_of_rewritten : code :=
  [i_binary (temp "a") (int 1) "+" (int 0); i_assign (temp "b") (temp "a"); i_assign (temp "a") (int 5); i_return (temp "b")].

(** [byte = 300; y = byte; return y], where [byte] keeps eight bits. *)
Definition narrowing_copy : code :=
  [i_assign (sym "byte") (int 300); i_assign (sym "y") (sym "byte"); i_return (sym "y")].

(** The conditions are needed, one function for each of three: the values of a loop's head
    are used in its body before the way back has removed them; a temporary is still the value
    of its copy after it is rewritten; and a stored constant is used as it was before the
    store narrowed it. *)
Example copy_propagation_miscompiled :
  (returns 30 copy_around_loop = Some (Some 3%Z) ∧
   returns 30 (ir_copy_and_constant_propagation_pass copy_around_loop).1 = Some (Some 6%Z)) ∧
  (returns 5 copy_of_rewritten = Some (Some 1%Z) ∧
   returns 5 (ir_copy_and_constant_propagation_pass copy_of_rewritten).1 = Some (Some 5%Z)) ∧
  (returns 5 narrowing_copy = Some (Some 44%Z) ∧
   returns 5 (ir_copy_and_constant_propagation_pass narrowing_copy).1 = Some (Some 300%Z)).
Proof. vm_compute. done. Qed.
