(* ===== verification/Outcome.v ===== *)
(** * Checked C computations

    The result of a C function that returns a status: a value, a failure with its
    error, or undefined behaviour.  The facts of the files that use it show that
    [Undefined] does not happen; [safe] is the shape of these statements. *)

From S2P Require Import Prelude.

Inductive checked (E A : Type) : Type :=
  | Done (a : A)
  | Failed (e : E)
  | Undefined.
Arguments Done {E A} a.
Arguments Failed {E A} e.
Arguments Undefined {E A}.

#[export] Instance outcome_ret {E} : MRet (checked E) := λ A a, Done a.
#[export] Instance outcome_bind {E} : MBind (checked E) := λ A B f o,
  match o with Done a => f a | Failed e => Failed e | Undefined => Undefined end.

Definition of_option {E A} (o : option A) : checked E A :=
  match o with Some a => Done a | None => Undefined end.
Definition require {E} (b : bool) (e : E) : checked E () := if b then Done () else Failed e.

(** The outcome is defined, and its results satisfy [P]. *)
Definition safe {E A} (P : A → Prop) (o : checked E A) : Prop :=
  match o with Done a => P a | Failed _ => True | Undefined => False end.

(** Carries out the steps of a computation whose outcome is known. *)
Ltac run_outcome := cbn [mbind outcome_bind mret outcome_ret require of_option negb andb orb fst snd].

Section checked.
Context {E : Type}.
Implicit Types e : E.

Lemma bind_Done {A B} (o : checked E A) (f : A → checked E B) b :
  (o ≫= f) = Done b ↔ ∃ a, o = Done a ∧ f a = Done b.
Proof. destruct o; simpl; split; try done; [by exists a|by intros (? & [= <-] & ?)|by intros (? & ? & ?)..]. Qed.

Lemma bind_Undefined {A B} (o : checked E A) (f : A → checked E B) :
  (o ≫= f) ≠ Undefined ↔ o ≠ Undefined ∧ ∀ a, o = Done a → f a ≠ Undefined.
Proof.
  destruct o; simpl; split; try done; [by intros ?; split; [|intros ? [= <-]]|by intros [_ H]; apply H|by intros [H _]].
Qed.

Lemma bind_ext {A B} (o : checked E A) (f g : A → checked E B) : (∀ a, f a = g a) → o ≫= f = o ≫= g.
Proof. intros H. destruct o; simpl; auto. Qed.

Lemma require_Done b e u : require b e = Done u ↔ b = true.
Proof. destruct u, b; simpl; split; congruence. Qed.

Lemma require_defined b e : require b e ≠ Undefined.
Proof. by destruct b. Qed.

Lemma of_option_Done {A} (o : option A) a : of_option (E := E) o = Done a ↔ o = Some a.
Proof. destruct o; simpl; split; congruence. Qed.

Lemma safe_bind {A B} (P : A → Prop) (Q : B → Prop) (o : checked E A) (f : A → checked E B) :
  safe P o → (∀ a, P a → safe Q (f a)) → safe Q (o ≫= f).
Proof. destruct o; simpl; auto. Qed.

Lemma safe_require {B} (Q : B → Prop) b e (f : () → checked E B) :
  (b = true → safe Q (f ())) → safe Q (require b e ≫= f).
Proof. destruct b; simpl; auto. Qed.

Lemma safe_weaken {A} (P Q : A → Prop) (o : checked E A) : safe P o → (∀ a, P a → Q a) → safe Q o.
Proof. destruct o; simpl; auto. Qed.

Lemma safe_defined {A} (P : A → Prop) (o : checked E A) : safe P o → o ≠ Undefined.
Proof. by destruct o. Qed.
End checked.

(** Monadic binds respect pointwise equal continuations. *)
#[export] Instance checked_bind_proper {E A B} :
  Proper (pointwise_relation A (=) ==> (=) ==> (=)) (@outcome_bind E A B).
Proof. intros f g Hfg o ? <-. by apply bind_ext. Qed.

Create HintDb checked.
Create Rewrite HintDb checked.
#[export] Hint Resolve require_defined safe_defined : checked.
#[export] Hint Rewrite @bind_Done @require_Done @of_option_Done : checked.
