(* ===== verification/LinkBase.v ===== *)
(** * Linker: errors, little-endian fields and alignment (src/src/linker/linker_common.h)

    The functions of the linker return 1, or 0 with a message: [checked link_error]. *)

From S2P Require Import Prelude.
From S2P Require Export Outcome.

(** ** Errors *)

(** The messages of [mettle_set_error], with the values they print. *)
Inductive link_error : Type :=
  | E_header_too_small
  | E_machine (machine : Z)
  | E_string_table_offset
  | E_string_table_truncated
  | E_string_table_size
  | E_string_table_extends
  | E_section_table_truncated
  | E_section_name (number : nat)
  | E_raw_data_range (section : string)
  | E_relocation_table_range (section : string)
  | E_symbol_table_range
  | E_symbol_name (index : nat)
  | E_truncated_auxiliary (symbol : option string)
  | E_duplicate_symbol (symbol : string) (object_index : option nat)
  | E_symbol_section (symbol : option string) (section_number : Z)
  | E_unresolved_symbol (symbol : string)
  | E_entry_point (symbol : string)
  | E_no_objects
  | E_not_merged (section : string)
  | E_symbol_index (index : Z)
  | E_auxiliary_symbol (symbol : option string)
  | E_unresolved_target (symbol : option string)
  | E_relocation_type (type : Z)
  | E_past_section (symbol : option string)
  | E_out_of_range (type : Z) (symbol : option string).

Abbreviation outcome := (checked link_error).

(** ** Little-endian fields *)

Definition byte_at (data : list byte) (off : Z) : outcome Z :=
  b ← of_option (data !! Z.to_nat off); mret (byte.unsigned b).

Definition linker_read_u16 (data : list byte) (off : Z) : outcome Z :=
  b0 ← byte_at data off;
  b1 ← byte_at data (off + 1);
  mret (u16 (Z.lor b0 (Z.shiftl b1 8))).

Definition linker_read_u32 (data : list byte) (off : Z) : outcome Z :=
  b0 ← byte_at data off;
  b1 ← byte_at data (off + 1);
  b2 ← byte_at data (off + 2);
  b3 ← byte_at data (off + 3);
  mret (Z.lor (Z.lor (Z.lor b0 (Z.shiftl b1 8)) (Z.shiftl b2 16)) (Z.shiftl b3 24)).

Definition linker_read_u64 (data : list byte) (off : Z) : outcome Z :=
  lo ← linker_read_u32 data off;
  hi ← linker_read_u32 data (off + 4);
  mret (Z.lor lo (Z.shiftl hi 32)).

(** [data[off] = (unsigned char)(v & 0xFF)]. *)
Definition store_byte (off v : Z) (data : list byte) : outcome (list byte) :=
  if Z.to_nat off <? length data then Done (<[Z.to_nat off := byte.of_Z (Z.land v 255)]> data)
  else Undefined.

Definition linker_write_u32 (data : list byte) (off v : Z) : outcome (list byte) :=
  d0 ← store_byte off v data;
  d1 ← store_byte (off + 1) (Z.shiftr v 8) d0;
  d2 ← store_byte (off + 2) (Z.shiftr v 16) d1;
  store_byte (off + 3) (Z.shiftr v 24) d2.

Definition linker_write_u64 (data : list byte) (off v : Z) : outcome (list byte) :=
  d0 ← store_byte off v data;
  d1 ← store_byte (off + 1) (Z.shiftr v 8) d0;
  d2 ← store_byte (off + 2) (Z.shiftr v 16) d1;
  d3 ← store_byte (off + 3) (Z.shiftr v 24) d2;
  d4 ← store_byte (off + 4) (Z.shiftr v 32) d3;
  d5 ← store_byte (off + 5) (Z.shiftr v 40) d4;
  d6 ← store_byte (off + 6) (Z.shiftr v 48) d5;
  store_byte (off + 7) (Z.shiftr v 56) d6.

(** The number stored in the [n] bytes at [off]. *)
Definition field (n : nat) (data : list byte) (off : nat) : Z := le_combine (take n (drop off data)).

Lemma byte_in_slice data off n bs k b :
  take n (drop off data) = bs → bs !! k = Some b →
  byte_at data (Z.of_nat off + Z.of_nat k) = Done (byte.unsigned b).
Proof.
  intros <- [Hk _]%lookup_take_Some. rewrite lookup_drop in Hk. unfold byte_at.
  by rewrite <- Nat2Z.inj_add, Nat2Z.id, Hk.
Qed.

Lemma slice_length {A} (data : list A) off n : off + n ≤ length data → length (take n (drop off data)) = n.
Proof. intros. rewrite length_take, length_drop. lia. Qed.

(** Names the bytes of a slice of known length. *)
Ltac name_slice data off n :=
  let H := fresh "Hlen" in let Hs := fresh "Hslice" in
  pose proof (slice_length data off n ltac:(lia)) as H;
  destruct (take n (drop off data)) as [|?b [|?b [|?b [|?b [|?b l]]]]] eqn:Hs; simpl in H; try lia;
  clear H.

Ltac read_byte Hs k b :=
  let E := fresh in
  pose proof (byte_in_slice _ _ _ _ k b Hs eq_refl) as E; change (Z.of_nat k) with (ltac:(let z := eval compute in (Z.of_nat k) in exact z)) in E;
  rewrite ?Z.add_0_r in E; rewrite E; clear E.

Lemma read_u16_spec data off :
  off + 2 ≤ length data → linker_read_u16 data (Z.of_nat off) = Done (field 2 data off).
Proof.
  intros Hlen. unfold linker_read_u16, field. name_slice data off 2.
  read_byte Hslice 0 b. read_byte Hslice 1 b0.
  cbn [mbind outcome_bind mret outcome_ret]. f_equal. unfold le_combine.
  rewrite ?Z.shiftl_0_l, ?Z.lor_0_r. apply wrap_u_id. pose proof (le_combine_bound [b; b0]) as Hb.
  unfold le_combine in Hb. rewrite ?Z.shiftl_0_l, ?Z.lor_0_r in Hb. exact Hb.
Qed.

Lemma read_u32_spec data off :
  off + 4 ≤ length data → linker_read_u32 data (Z.of_nat off) = Done (field 4 data off).
Proof.
  intros Hlen. unfold linker_read_u32, field. name_slice data off 4.
  read_byte Hslice 0 b. read_byte Hslice 1 b0. read_byte Hslice 2 b1. read_byte Hslice 3 b2.
  cbn [mbind outcome_bind mret outcome_ret]. f_equal. unfold le_combine.
  rewrite !Z.shiftl_lor, !Z.shiftl_shiftl, !Z.shiftl_0_l, Z.lor_0_r, !Z.lor_assoc by lia. done.
Qed.

Lemma field_range n data off : (0 ≤ field n data off < 2 ^ (8 * Z.of_nat n))%Z.
Proof.
  unfold field. pose proof (le_combine_bound (take n (drop off data))) as Hb.
  assert (length (take n (drop off data)) ≤ n) by (rewrite length_take; lia).
  split; [apply Hb|]. eapply Z.lt_le_trans; [apply Hb|]. apply Z.pow_le_mono_r; lia.
Qed.

Lemma read_u64_spec data off :
  off + 8 ≤ length data → linker_read_u64 data (Z.of_nat off) = Done (field 8 data off).
Proof.
  intros Hlen. unfold linker_read_u64. rewrite read_u32_spec by lia.
  replace (Z.of_nat off + 4)%Z with (Z.of_nat (off + 4)) by lia. rewrite read_u32_spec by lia.
  cbn [mbind outcome_bind mret outcome_ret]. f_equal. unfold field.
  replace (take 8 (drop off data)) with (take 4 (drop off data) ++ take 4 (drop (off + 4) data)).
  - rewrite le_combine_app, slice_length by lia. done.
  - by rewrite <- drop_drop, take_take_drop.
Qed.

Lemma store_byte_spec (off : nat) v data :
  off < length data → store_byte (Z.of_nat off) v data = Done (<[off := byte.of_Z v]> data).
Proof.
  intros Hlt. unfold store_byte. rewrite Nat2Z.id. destruct (Nat.ltb_spec off (length data)); [|lia].
  do 2 f_equal. apply byte.unsigned_inj. rewrite !byte.unsigned_of_Z. unfold byte.wrap.
  change 255%Z with (Z.ones 8). rewrite Z.land_ones by lia. by rewrite Zmod_mod.
Qed.

(** The stores of [linker_write_u32] and [linker_write_u64], one byte after another. *)
Fixpoint store_le (n : nat) (off v : Z) (data : list byte) : outcome (list byte) :=
  match n with
  | O => Done data
  | S n' => d ← store_byte off v data; store_le n' (off + 1) (Z.shiftr v 8) d
  end.

Lemma store_le_spec n off v data :
  off + n ≤ length data →
  store_le n (Z.of_nat off) v data = Done (list_inserts off (le_split n v) data).
Proof.
  revert off v data. induction n as [|n IH]; intros off v data Hlen; [done|].
  unfold store_le. fold store_le. rewrite store_byte_spec by lia. cbn [mbind outcome_bind].
  replace (Z.of_nat off + 1)%Z with (Z.of_nat (S off)) by lia.
  rewrite IH by (rewrite length_insert; lia). unfold le_split. fold le_split.
  cbn [list_inserts]. by rewrite list_insert_inserts_lt by lia.
Qed.

Lemma bind_store_le n off v data :
  store_le (S n) off v data = (d ← store_byte off v data; store_le n (off + 1) (Z.shiftr v 8) d).
Proof. done. Qed.

Lemma store_le_1 off v data : store_le 1 off v data = store_byte off v data.
Proof. unfold store_le. by destruct (store_byte off v data). Qed.

Ltac unroll_stores :=
  symmetry;
  repeat (rewrite bind_store_le, ?Z.shiftr_shiftr, <- ?Z.add_assoc by lia;
          apply bind_ext; intros ?);
  rewrite store_le_1, ?Z.shiftr_shiftr, <- ?Z.add_assoc by lia; reflexivity.

Lemma write_u32_spec data off v :
  off + 4 ≤ length data →
  linker_write_u32 data (Z.of_nat off) v = Done (list_inserts off (le_split 4 v) data).
Proof.
  intros Hlen. rewrite <- store_le_spec by done. unfold linker_write_u32.
  unroll_stores.
Qed.

Lemma write_u64_spec data off v :
  off + 8 ≤ length data →
  linker_write_u64 data (Z.of_nat off) v = Done (list_inserts off (le_split 8 v) data).
Proof.
  intros Hlen. rewrite <- store_le_spec by done. unfold linker_write_u64.
  unroll_stores.
Qed.

(** Reading back what was written, and what a write leaves alone. *)
Lemma field_written n data off v :
  off + n ≤ length data → field n (list_inserts off (le_split n v) data) off = (v mod 2 ^ (8 * Z.of_nat n))%Z.
Proof.
  intros Hlen. unfold field.
  assert (take n (drop off (list_inserts off (le_split n v) data)) = le_split n v) as ->.
  { apply list_eq. intros k. destruct (Nat.lt_ge_cases k n) as [Hk|Hk].
    - rewrite lookup_take_lt, lookup_drop by done.
      rewrite list_lookup_inserts by (rewrite ?length_le_split; lia). f_equal. lia.
    - rewrite lookup_take_ge by lia. symmetry. apply lookup_ge_None. by rewrite length_le_split. }
  rewrite le_combine_split. f_equal. f_equal. lia.
Qed.

Lemma field_other n m data off v at_ :
  at_ + m ≤ off ∨ off + n ≤ at_ → field m (list_inserts off (le_split n v) data) at_ = field m data at_.
Proof.
  intros Hd. unfold field. f_equal. apply list_eq. intros k.
  destruct (Nat.lt_ge_cases k m) as [Hk|Hk]; [|by rewrite !lookup_take_ge by lia].
  rewrite !lookup_take_lt, !lookup_drop by done. destruct Hd.
  - apply list_lookup_inserts_lt. lia.
  - apply list_lookup_inserts_ge. rewrite length_le_split. lia.
Qed.

(** ** Alignment *)

Definition linker_align_up (value alignment : Z) : Z :=
  if (alignment =? 0)%Z then value
  else Z.land (u64 (value + alignment - 1)) (u64 (Z.lnot (u64 (alignment - 1)))).

Lemma land_wrap a b w : (0 ≤ w)%Z → (0 ≤ a < 2 ^ w)%Z → Z.land a (wrap_u w b) = Z.land a b.
Proof.
  intros Hw Ha. unfold wrap_u. rewrite <- Z.land_ones, (Z.land_comm b), Z.land_assoc by done.
  by rewrite Z.land_ones, Z.mod_small by done.
Qed.

(** For a power of two and when the sum does not wrap: the least multiple above. *)
Lemma align_up_spec value k :
  (0 ≤ k < 64 → 0 ≤ value → value + 2 ^ k ≤ 2 ^ 64 →
   value ≤ linker_align_up value (2 ^ k) < value + 2 ^ k ∧ (2 ^ k | linker_align_up value (2 ^ k)))%Z.
Proof.
  intros Hk Hv Hsum. pose proof (Z.pow_pos_nonneg 2 k ltac:(lia) ltac:(lia)) as Hpos.
  unfold linker_align_up. destruct (Z.eqb_spec (2 ^ k) 0); [lia|].
  rewrite (wrap_u_id 64 (value + 2 ^ k - 1)), (wrap_u_id 64 (2 ^ k - 1)) by lia.
  rewrite land_wrap by lia.
  replace (Z.lnot (2 ^ k - 1)) with (Z.lnot (Z.ones k)) by (rewrite Z.ones_equiv; f_equal; lia).
  rewrite <- Z.ldiff_land, Z.ldiff_ones_r, Z.shiftl_mul_pow2, Z.shiftr_div_pow2 by lia.
  pose proof (Z.div_mod (value + 2 ^ k - 1) (2 ^ k) ltac:(lia)) as Hdm.
  pose proof (Z.mod_pos_bound (value + 2 ^ k - 1) (2 ^ k) ltac:(lia)).
  split; [|by exists ((value + 2 ^ k - 1) / 2 ^ k)%Z]. rewrite (Z.mul_comm _ (2 ^ k)). lia.
Qed.

(** The same facts with offsets as the code has them. *)
Section offsets.
Variables (data : list byte) (off : Z).
Hypothesis Hoff : (0 ≤ off)%Z.

Lemma byte_at_Z : (off < Z.of_nat (length data))%Z → ∃ v, byte_at data off = Done v ∧ (0 ≤ v < 256)%Z.
Proof.
  intros Hlt. destruct (lookup_lt_is_Some_2 data (Z.to_nat off) ltac:(lia)) as [b Hb].
  exists (byte.unsigned b). unfold byte_at. rewrite Hb. split; [done|]. apply byte.unsigned_range.
Qed.

Lemma read_u16_Z :
  (off + 2 ≤ Z.of_nat (length data))%Z → linker_read_u16 data off = Done (field 2 data (Z.to_nat off)).
Proof. intros. rewrite <- read_u16_spec by lia. by rewrite Z2Nat.id. Qed.

Lemma read_u32_Z :
  (off + 4 ≤ Z.of_nat (length data))%Z → linker_read_u32 data off = Done (field 4 data (Z.to_nat off)).
Proof. intros. rewrite <- read_u32_spec by lia. by rewrite Z2Nat.id. Qed.

Lemma read_u64_Z :
  (off + 8 ≤ Z.of_nat (length data))%Z → linker_read_u64 data off = Done (field 8 data (Z.to_nat off)).
Proof. intros. rewrite <- read_u64_spec by lia. by rewrite Z2Nat.id. Qed.

Lemma write_u32_Z v :
  (off + 4 ≤ Z.of_nat (length data))%Z →
  linker_write_u32 data off v = Done (list_inserts (Z.to_nat off) (le_split 4 v) data).
Proof. intros. rewrite <- write_u32_spec by lia. by rewrite Z2Nat.id. Qed.

Lemma write_u64_Z v :
  (off + 8 ≤ Z.of_nat (length data))%Z →
  linker_write_u64 data off v = Done (list_inserts (Z.to_nat off) (le_split 8 v) data).
Proof. intros. rewrite <- write_u64_spec by lia. by rewrite Z2Nat.id. Qed.
End offsets.
