(* ===== verification/Coff.v ===== *)
(** * Linker: reading COFF objects (src/src/linker/coff_reader.c)

    [coff_object_parse] is [coff_object_read] from the point where the file is in
    memory.  Reading outside the file is [Undefined]. *)

From S2P Require Import Prelude LinkBase.

Inductive CoffSectionKind : Type :=
  | COFF_SECTION_KIND_UNKNOWN | COFF_SECTION_KIND_TEXT | COFF_SECTION_KIND_RDATA
  | COFF_SECTION_KIND_DATA | COFF_SECTION_KIND_BSS | COFF_SECTION_KIND_PDATA
  | COFF_SECTION_KIND_XDATA.

#[export] Instance CoffSectionKind_eq_dec : EqDecision CoffSectionKind.
Proof. solve_decision. Defined.

Record CoffRelocation : Type := mkRelocation {
  reloc_virtual_address : Z;
  symbol_table_index : Z;
  reloc_type : Z }.

(** A NULL [raw_data] or [relocations] is the empty list. *)
Record CoffSection : Type := mkSection {
  sec_name : string;
  sec_kind : CoffSectionKind;
  virtual_size : Z;
  virtual_address : Z;
  size_of_raw_data : Z;
  pointer_to_raw_data : Z;
  pointer_to_relocations : Z;
  pointer_to_line_numbers : Z;
  number_of_relocations : Z;
  number_of_line_numbers : Z;
  characteristics : Z;
  raw_data : list byte;
  relocations : list CoffRelocation }.

Record CoffSymbol : Type := mkSymbol {
  raw_index : Z;
  sym_name : option string;
  sym_value : Z;
  section_number : Z;
  sym_type : Z;
  storage_class : Z;
  auxiliary_count : Z;
  is_auxiliary : bool;
  primary_symbol_index : Z;
  has_auxiliary_record : bool;
  aux_section_length : Z;
  aux_section_relocation_count : Z;
  aux_section_line_number_count : Z }.

(** [string_table_size] is the length of [string_table], empty when NULL. *)
Record CoffObject : Type := mkObject {
  machine : Z;
  section_count : Z;
  time_date_stamp : Z;
  pointer_to_symbol_table : Z;
  symbol_count : Z;
  size_of_optional_header : Z;
  obj_characteristics : Z;
  sections : list CoffSection;
  symbols : list CoffSymbol;
  string_table : list byte }.

Definition COFF_MACHINE_AMD64 : Z := 34404.
Definition COFF_FILE_HEADER_SIZE : Z := 20.
Definition COFF_SECTION_HEADER_SIZE : Z := 40.
Definition COFF_SYMBOL_SIZE : Z := 18.
Definition COFF_RELOCATION_SIZE : Z := 10.
Definition SIZE_MAX : Z := 2 ^ 64 - 1.

(** ** Strings *)

(** The C string that starts the bytes. *)
Fixpoint c_string (bytes : list byte) : string :=
  match bytes with
  | [] => EmptyString
  | b :: bytes' =>
      if (byte.unsigned b =? 0)%Z then EmptyString
      else String (ascii_of_byte b) (c_string bytes')
  end.

Definition is_nul (b : byte) : bool := (byte.unsigned b =? 0)%Z.

Fixpoint trim_nuls (reversed : list byte) : list byte :=
  match reversed with
  | b :: bytes => if is_nul b then trim_nuls bytes else reversed
  | [] => []
  end.

Definition coff_reader_dup_bytes_trimmed (bytes : list byte) : string :=
  c_string (reverse (trim_nuls (reverse bytes))).

(** [None]: no NUL in the range. *)
Definition coff_reader_dup_cstring_range (bytes : list byte) : option string :=
  if existsb is_nul bytes then Some (c_string bytes) else None.

Definition coff_reader_string_from_table (table : list byte) (offset : Z) : option string :=
  let size := Z.of_nat (length table) in
  if (size <? 4)%Z then None
  else if (offset <? 4)%Z || (size <=? offset)%Z then None
  else coff_reader_dup_cstring_range (drop (Z.to_nat offset) table).

Definition byte_digit (b : byte) : bool := isdigit (ascii_of_byte b).

(** The digits after the slash; [None] when another character stands among them. *)
Fixpoint decimal_offset (digits : list byte) (offset : Z) : option Z :=
  match digits with
  | [] => Some offset
  | b :: digits' =>
      if is_nul b then Some offset
      else if byte_digit b then decimal_offset digits' (u32 (offset * 10 + (byte.unsigned b - 48)))
      else None
  end.

Definition coff_reader_parse_section_name (field : list byte) (table : list byte) : option string :=
  match field with
  | b :: digits =>
      if (byte.unsigned b =? 47)%Z then
        match decimal_offset digits 0 with
        | Some offset => coff_reader_string_from_table table offset
        | None => Some (coff_reader_dup_bytes_trimmed field)
        end
      else Some (coff_reader_dup_bytes_trimmed field)
  | [] => Some (coff_reader_dup_bytes_trimmed field)
  end.

Definition coff_reader_parse_symbol_name (entry : list byte) (table : list byte)
    : outcome (option string) :=
  zero_prefix ← linker_read_u32 entry 0;
  offset ← linker_read_u32 entry 4;
  mret (if (zero_prefix =? 0)%Z && negb (offset =? 0)%Z then coff_reader_string_from_table table offset
        else Some (coff_reader_dup_bytes_trimmed (take 8 entry))).

(** ** Section kinds *)

Definition coff_section_name_matches_prefix (name prefix : string) : bool :=
  String.prefix prefix name &&
  match String.get (String.length prefix) name with
  | None => true
  | Some c => (c =c "$") || (c =c ".")
  end.

Definition coff_section_kind_from_name (name : string) : CoffSectionKind :=
  let is_kind := coff_section_name_matches_prefix name in
  match String.get 0 name with
  | Some c =>
      if negb (c =c ".") then COFF_SECTION_KIND_UNKNOWN
      else if is_kind ".text" then COFF_SECTION_KIND_TEXT
      else if is_kind ".rdata" then COFF_SECTION_KIND_RDATA
      else if is_kind ".data" then COFF_SECTION_KIND_DATA
      else if is_kind ".bss" then COFF_SECTION_KIND_BSS
      else if is_kind ".pdata" then COFF_SECTION_KIND_PDATA
      else if is_kind ".xdata" then COFF_SECTION_KIND_XDATA
      else COFF_SECTION_KIND_UNKNOWN
  | None => COFF_SECTION_KIND_UNKNOWN
  end%string.

(** ** The file *)

Section reader.
Variable file_data : list byte.

Definition file_size : Z := Z.of_nat (length file_data).

(** [offset] is a [uint32_t], [len] a [size_t]. *)
Definition coff_reader_range_ok (offset len : Z) : bool :=
  negb (file_size <? offset)%Z && negb (file_size - offset <? len)%Z.

(** [memcpy] from the file. *)
Definition copy_bytes (offset len : Z) : outcome (list byte) :=
  if (offset + len <=? file_size)%Z then
    Done (take (Z.to_nat len) (drop (Z.to_nat offset) file_data))
  else Undefined.

Definition coff_reader_parse_string_table (pointer count : Z) : outcome (list byte) :=
  let offset := u64 (pointer + u64 (count * COFF_SYMBOL_SIZE)) in
  _ ← require (negb (file_size <? offset)%Z) E_string_table_offset;
  if (offset =? file_size)%Z then mret []
  else
    _ ← require (coff_reader_range_ok (u32 offset) 4) E_string_table_truncated;
    size ← linker_read_u32 file_data offset;
    if (size =? 0)%Z then mret []
    else
      _ ← require (4 <=? size)%Z E_string_table_size;
      _ ← require (coff_reader_range_ok (u32 offset) size) E_string_table_extends;
      copy_bytes offset size.

Definition parse_relocation (entry : Z) : outcome CoffRelocation :=
  va ← linker_read_u32 file_data entry;
  index ← linker_read_u32 file_data (entry + 4);
  type ← linker_read_u16 file_data (entry + 8);
  mret (mkRelocation va index type).

Fixpoint parse_relocations (count : nat) (entry : Z) : outcome (list CoffRelocation) :=
  match count with
  | O => mret []
  | S n =>
      r ← parse_relocation entry;
      rs ← parse_relocations n (entry + COFF_RELOCATION_SIZE);
      mret (r :: rs)
  end.

(** The section header at [header], the [number]-th. *)
Definition parse_section (table : list byte) (number : nat) (header : Z) : outcome CoffSection :=
  field ← copy_bytes header 8;
  name ← (match coff_reader_parse_section_name field table with
          | Some n => Done n
          | None => Failed (E_section_name number)
          end);
  vsize ← linker_read_u32 file_data (header + 8);
  va ← linker_read_u32 file_data (header + 12);
  raw_size ← linker_read_u32 file_data (header + 16);
  raw_pointer ← linker_read_u32 file_data (header + 20);
  reloc_pointer ← linker_read_u32 file_data (header + 24);
  line_pointer ← linker_read_u32 file_data (header + 28);
  reloc_count ← linker_read_u16 file_data (header + 32);
  line_count ← linker_read_u16 file_data (header + 34);
  chars ← linker_read_u32 file_data (header + 36);
  raw ← (if (0 <? raw_size)%Z then
           _ ← require (coff_reader_range_ok raw_pointer raw_size) (E_raw_data_range name);
           copy_bytes raw_pointer raw_size
         else mret []);
  relocs ← (if (0 <? reloc_count)%Z then
              _ ← require (coff_reader_range_ok reloc_pointer (u64 (reloc_count * COFF_RELOCATION_SIZE)))
                    (E_relocation_table_range name);
              parse_relocations (Z.to_nat reloc_count) reloc_pointer
            else mret []);
  mret (mkSection name (coff_section_kind_from_name name) vsize va raw_size raw_pointer reloc_pointer
          line_pointer reloc_count line_count chars raw relocs).

Fixpoint parse_section_headers (table : list byte) (count number : nat) (header : Z)
    : outcome (list CoffSection) :=
  match count with
  | O => mret []
  | S n =>
      s ← parse_section table number header;
      ss ← parse_section_headers table n (S number) (header + COFF_SECTION_HEADER_SIZE);
      mret (s :: ss)
  end.

Definition coff_reader_parse_sections (table : list byte) (count : Z) : outcome (list CoffSection) :=
  if (count =? 0)%Z then mret []
  else
    _ ← require (coff_reader_range_ok COFF_FILE_HEADER_SIZE (u64 (count * COFF_SECTION_HEADER_SIZE)))
          E_section_table_truncated;
    parse_section_headers table (Z.to_nat count) 1 COFF_FILE_HEADER_SIZE.

(** A record that continues the symbol at [primary]. *)
Definition auxiliary_symbol (index primary : Z) : CoffSymbol :=
  mkSymbol index None 0 0 0 0 0 true primary false 0 0 0.

(** A symbol with [rest] records after it in the table. *)
Definition parse_symbol (table : list byte) (index : nat) (rest : Z) (entry : Z) : outcome CoffSymbol :=
  record ← copy_bytes entry COFF_SYMBOL_SIZE;
  name ← coff_reader_parse_symbol_name record table;
  _ ← require (match name with Some _ => true | None => forallb is_nul (take 8 record) end)
        (E_symbol_name index);
  value ← linker_read_u32 file_data (entry + 8);
  section ← linker_read_u16 file_data (entry + 12);
  type ← linker_read_u16 file_data (entry + 14);
  class ← byte_at file_data (entry + 16);
  aux ← byte_at file_data (entry + 17);
  _ ← require (negb (rest <? aux)%Z) (E_truncated_auxiliary name);
  let primary := Z.of_nat index in
  if (0 <? aux)%Z then
    len ← linker_read_u32 file_data (entry + COFF_SYMBOL_SIZE);
    relocs ← linker_read_u16 file_data (entry + COFF_SYMBOL_SIZE + 4);
    lines ← linker_read_u16 file_data (entry + COFF_SYMBOL_SIZE + 6);
    mret (mkSymbol primary name value (wrap_s 16 section) type class aux false primary true len relocs lines)
  else
    mret (mkSymbol primary name value (wrap_s 16 section) type class aux false primary false 0 0 0).

(** The loop over the table, with [aux_remaining] and [primary_symbol_index]. *)
Fixpoint parse_symbol_records (table : list byte) (count index : nat) (aux_remaining primary entry : Z)
    : outcome (list CoffSymbol) :=
  match count with
  | O => mret []
  | S n =>
      if (0 <? aux_remaining)%Z then
        ss ← parse_symbol_records table n (S index) (aux_remaining - 1) primary (entry + COFF_SYMBOL_SIZE);
        mret (auxiliary_symbol (Z.of_nat index) primary :: ss)
      else
        s ← parse_symbol table index (Z.of_nat n) entry;
        let primary := if (0 <? auxiliary_count s)%Z then Z.of_nat index else primary in
        ss ← parse_symbol_records table n (S index) (auxiliary_count s) primary (entry + COFF_SYMBOL_SIZE);
        mret (s :: ss)
  end.

Definition coff_reader_parse_symbols (table : list byte) (pointer count : Z) : outcome (list CoffSymbol) :=
  if (count =? 0)%Z then mret []
  else
    _ ← require (coff_reader_range_ok pointer (u64 (count * COFF_SYMBOL_SIZE))) E_symbol_table_range;
    parse_symbol_records table (Z.to_nat count) 0 0 0 pointer.

(** [coff_object_read] once the file is loaded. *)
Definition coff_object_parse : outcome CoffObject :=
  _ ← require (COFF_FILE_HEADER_SIZE <=? file_size)%Z E_header_too_small;
  mach ← linker_read_u16 file_data 0;
  nsections ← linker_read_u16 file_data 2;
  stamp ← linker_read_u32 file_data 4;
  pointer ← linker_read_u32 file_data 8;
  nsymbols ← linker_read_u32 file_data 12;
  optional ← linker_read_u16 file_data 16;
  chars ← linker_read_u16 file_data 18;
  _ ← require (mach =? COFF_MACHINE_AMD64)%Z (E_machine mach);
  table ← coff_reader_parse_string_table pointer nsymbols;
  ss ← coff_reader_parse_sections table nsections;
  syms ← coff_reader_parse_symbols table pointer nsymbols;
  mret (mkObject mach nsections stamp pointer nsymbols optional chars ss syms table).
End reader.

(** ** Queries *)

Definition coff_object_find_section_by_kind (o : CoffObject) (k : CoffSectionKind) : option CoffSection :=
  List.find (λ s, bool_decide (sec_kind s = k)) (sections o).

Definition coff_object_find_symbol (o : CoffObject) (name : string) : option CoffSymbol :=
  List.find (λ s, negb (is_auxiliary s) &&
    match sym_name s with Some n => String.eqb n name | None => false end) (symbols o).
