(* ===== verification/CoffFacts.v ===== *)
(** * The reader of COFF objects stays inside the file

    Whatever the bytes of a file under 4 GiB, [coff_object_parse] reads only inside
    it, and an object it accepts has the shape the linker relies on. *)

From S2P Require Import Prelude LinkBase Coff.

Section reader.
Variable file : list byte.

Abbreviation size := (file_size file).

(** ** What an accepted object looks like *)

(** [len] bytes at [offset], which the file has. *)
Definition in_file (offset len : Z) : Prop := (0 ≤ offset ∧ 0 ≤ len ∧ offset + len ≤ size)%Z.

Definition relocation_ok (r : CoffRelocation) : Prop :=
  (0 ≤ reloc_virtual_address r < 2 ^ 32 ∧ 0 ≤ symbol_table_index r < 2 ^ 32 ∧ 0 ≤ reloc_type r < 2 ^ 16)%Z.

Record section_ok (s : CoffSection) : Prop := {
  so_kind : sec_kind s = coff_section_kind_from_name (sec_name s);
  so_raw : raw_data s =
    take (Z.to_nat (size_of_raw_data s)) (drop (Z.to_nat (pointer_to_raw_data s)) file);
  so_raw_size : Z.of_nat (length (raw_data s)) = size_of_raw_data s;
  so_sizes : (0 ≤ size_of_raw_data s < 2 ^ 32 ∧ 0 ≤ virtual_size s < 2 ^ 32 ∧
              0 ≤ characteristics s < 2 ^ 32)%Z;
  so_count : Z.of_nat (length (relocations s)) = number_of_relocations s;
  so_relocations : Forall relocation_ok (relocations s) }.

(** Symbols are numbered, and a symbol's auxiliary records follow it. *)
Record symbols_ok (ss : list CoffSymbol) (first : nat) : Prop := {
  yo_index : ∀ k s, ss !! k = Some s → raw_index s = Z.of_nat (first + k);
  yo_ranges : Forall (λ s, 0 ≤ sym_value s < 2 ^ 32 ∧ - 2 ^ 15 ≤ section_number s < 2 ^ 15 ∧
                           0 ≤ aux_section_length s < 2 ^ 32)%Z ss;
  yo_auxiliary : ∀ k s j, ss !! k = Some s → is_auxiliary s = false →
    (0 < Z.of_nat j ≤ auxiliary_count s)%Z →
    ∃ a, ss !! (k + j) = Some a ∧ is_auxiliary a = true ∧ sym_name a = None ∧
      primary_symbol_index a = Z.of_nat (first + k) }.

Record object_ok (o : CoffObject) : Prop := {
  oo_machine : machine o = COFF_MACHINE_AMD64;
  oo_sections : Forall section_ok (sections o);
  oo_section_count : Z.of_nat (length (sections o)) = section_count o;
  oo_symbols : symbols_ok (symbols o) 0;
  oo_symbol_count : Z.of_nat (length (symbols o)) = symbol_count o }.

(** ** Single reads *)

Lemma safe_byte off : in_file off 1 → safe (λ v, 0 ≤ v < 256)%Z (byte_at file off).
Proof.
  intros (H0 & _ & H1). unfold file_size in *.
  by destruct (byte_at_Z file off H0 ltac:(lia)) as (v & -> & Hv).
Qed.

Lemma safe_u16 off : in_file off 2 → safe (λ v, 0 ≤ v < 2 ^ 16)%Z (linker_read_u16 file off).
Proof. intros (H0 & _ & H1). rewrite read_u16_Z by done. apply (field_range 2). Qed.

Lemma safe_u32 off : in_file off 4 → safe (λ v, 0 ≤ v < 2 ^ 32)%Z (linker_read_u32 file off).
Proof. intros (H0 & _ & H1). rewrite read_u32_Z by done. apply (field_range 4). Qed.

Lemma safe_copy off len :
  in_file off len →
  safe (λ bs, bs = take (Z.to_nat len) (drop (Z.to_nat off) file) ∧ Z.of_nat (length bs) = len)
    (copy_bytes file off len).
Proof.
  intros (H0 & H1 & H2). unfold copy_bytes. destruct (Z.leb_spec (off + len) size); [|lia].
  simpl. split; [done|]. unfold file_size in *. rewrite slice_length; lia.
Qed.

Lemma range_ok_spec off len :
  (0 ≤ off → 0 ≤ len → coff_reader_range_ok file off len = true → in_file off len)%Z.
Proof.
  unfold coff_reader_range_ok, in_file. intros H0 H1 [Ha Hb]%andb_true_iff.
  apply negb_true_iff, Z.ltb_ge in Ha, Hb. lia.
Qed.

(** ** The tables *)

Hypothesis Hsize : (size < 2 ^ 32)%Z.

Ltac in_bounds := unfold in_file in *; lia.

(** One read of the file: its result [v] with its range [H]. *)
Tactic Notation "read" uconstr(lem) "as" ident(v) simple_intropattern(H) :=
  eapply safe_bind; [apply lem; in_bounds|]; intros v H; cbv beta in *.

Lemma safe_string_table pointer count :
  (0 ≤ pointer < 2 ^ 32 → 0 ≤ count < 2 ^ 32 →
  safe (λ _, True) (coff_reader_parse_string_table file pointer count))%Z.
Proof.
  intros Hp Hc. unfold coff_reader_parse_string_table, COFF_SYMBOL_SIZE.
  rewrite (wrap_u_id 64 (count * 18)), (wrap_u_id 64) by lia. set (off := (pointer + count * 18)%Z).
  apply safe_require. intros Ho%negb_true_iff%Z.ltb_ge.
  destruct (Z.eqb_spec off size); [done|]. rewrite wrap_u_id by (unfold off in *; lia).
  apply safe_require. intros Hr4. apply range_ok_spec in Hr4; [|unfold off; lia|lia].
  read safe_u32 as sz Hsz. simpl.
  destruct (Z.eqb_spec sz 0); [done|]. apply safe_require. intros H4%Z.leb_le.
  apply safe_require. intros Hr. apply range_ok_spec in Hr; [|unfold off; lia|lia].
  eapply safe_weaken; [by apply safe_copy|done].
Qed.

Lemma safe_relocations n entry :
  in_file entry (Z.of_nat n * 10) →
  safe (λ rs, Forall relocation_ok rs ∧ length rs = n) (parse_relocations file n entry).
Proof.
  revert entry. induction n as [|n IH]; intros entry Hin; simpl; [by split|].
  eapply (safe_bind relocation_ok).
  - unfold parse_relocation.
    read safe_u32 as va Hva.
    read safe_u32 as ix Hix.
    read safe_u16 as ty Hty.
    unfold relocation_ok. simpl. lia.
  - intros r Hr. eapply safe_bind; [apply IH; unfold COFF_RELOCATION_SIZE; in_bounds|].
    intros rs [Hrs Hlen]. simpl. split; [by constructor|]. by rewrite Hlen.
Qed.

Lemma safe_section table number header :
  in_file header 40 → safe section_ok (parse_section file table number header).
Proof.
  intros Hin. unfold parse_section.
  read safe_copy as fld _.
  destruct (coff_reader_parse_section_name fld table) as [name|]; [|done]. simpl.
  read safe_u32 as vsize Hvsize.
  read safe_u32 as va _.
  read safe_u32 as rsize Hrsize.
  read safe_u32 as rptr Hrptr.
  read safe_u32 as lptr Hlptr.
  read safe_u32 as lines _.
  read safe_u16 as rcount Hrcount.
  read safe_u16 as lcount _.
  read safe_u32 as chars Hchars.
  eapply (safe_bind (λ raw, raw = take (Z.to_nat rsize) (drop (Z.to_nat rptr) file) ∧
    Z.of_nat (length raw) = rsize)).
  { destruct (Z.ltb_spec 0 rsize).
    - apply safe_require. intros Hr. apply range_ok_spec in Hr; [|lia..]. by apply safe_copy.
    - replace rsize with 0%Z by lia. done. }
  intros raw [Hraw Hlen].
  eapply (safe_bind (λ rs, Forall relocation_ok rs ∧ Z.of_nat (length rs) = rcount)).
  { destruct (Z.ltb_spec 0 rcount).
    - apply safe_require. unfold COFF_RELOCATION_SIZE. rewrite wrap_u_id by lia. intros Hr.
      apply range_ok_spec in Hr; [|lia..].
      eapply safe_weaken; [apply safe_relocations; by rewrite Z2Nat.id by lia|].
      simpl. intros rs [Hrs ->]. split; [done|lia].
    - replace rcount with 0%Z by lia. by split. }
  intros rs [Hrs Hcount]. by split.
Qed.

Lemma safe_section_headers table n number header :
  in_file header (Z.of_nat n * 40) →
  safe (λ ss, Forall section_ok ss ∧ length ss = n) (parse_section_headers file table n number header).
Proof.
  revert number header. induction n as [|n IH]; intros number header Hin; simpl; [by split|].
  eapply safe_bind; [apply safe_section; in_bounds|]. intros s Hs.
  eapply safe_bind; [apply IH; unfold COFF_SECTION_HEADER_SIZE; in_bounds|].
  intros ss [Hss Hlen]. simpl. split; [by constructor|]. by rewrite Hlen.
Qed.

Lemma safe_sections table count :
  (0 ≤ count < 2 ^ 16)%Z →
  safe (λ ss, Forall section_ok ss ∧ Z.of_nat (length ss) = count)
    (coff_reader_parse_sections file table count).
Proof.
  intros Hc. unfold coff_reader_parse_sections, COFF_SECTION_HEADER_SIZE.
  destruct (Z.eqb_spec count 0) as [->|]; [by split|].
  rewrite wrap_u_id by lia. apply safe_require. intros Hr.
  apply range_ok_spec in Hr; [|unfold COFF_FILE_HEADER_SIZE; lia..].
  eapply safe_weaken; [apply safe_section_headers; by rewrite Z2Nat.id by lia|].
  simpl. intros ss [Hss ->]. split; [done|lia].
Qed.

Lemma safe_symbol_name record table :
  Z.of_nat (length record) = 18%Z → safe (λ _, True) (coff_reader_parse_symbol_name record table).
Proof.
  intros Hlen. unfold coff_reader_parse_symbol_name. by rewrite !read_u32_Z by lia.
Qed.

Definition symbol_ranges (s : CoffSymbol) : Prop :=
  (0 ≤ sym_value s < 2 ^ 32 ∧ - 2 ^ 15 ≤ section_number s < 2 ^ 15 ∧ 0 ≤ aux_section_length s < 2 ^ 32)%Z.

Lemma safe_symbol table index rest entry :
  in_file entry (Z.of_nat (S rest) * 18) →
  safe (λ s, raw_index s = Z.of_nat index ∧ is_auxiliary s = false ∧ symbol_ranges s ∧
             (0 ≤ auxiliary_count s ≤ Z.of_nat rest)%Z)
    (parse_symbol file table index (Z.of_nat rest) entry).
Proof.
  intros Hin. unfold parse_symbol, COFF_SYMBOL_SIZE. pose proof (wrap_s_range 16) as Hs16.
  read safe_copy as record [_ Hrec].
  eapply safe_bind; [by apply safe_symbol_name|]. intros name _. apply safe_require. intros _.
  read safe_u32 as value Hvalue. read safe_u16 as sec Hsec. read safe_u16 as type Htype.
  read safe_byte as class Hclass. read safe_byte as aux Haux.
  apply safe_require. intros Hrest%negb_true_iff%Z.ltb_ge.
  destruct (Z.ltb_spec 0 aux).
  - read safe_u32 as len Hlen. read safe_u16 as relocs Hrelocs. read safe_u16 as lines Hlines.
    simpl. unfold symbol_ranges. simpl. specialize (Hs16 sec). lia.
  - simpl. unfold symbol_ranges. simpl. specialize (Hs16 sec). lia.
Qed.

Lemma symbols_ok_cons s ss index :
  raw_index s = Z.of_nat index → symbol_ranges s →
  (is_auxiliary s = false → ∀ j, (Z.of_nat j < auxiliary_count s)%Z →
    ∃ a, ss !! j = Some a ∧ is_auxiliary a = true ∧ sym_name a = None ∧
      primary_symbol_index a = Z.of_nat index) →
  symbols_ok ss (S index) → symbols_ok (s :: ss) index.
Proof.
  intros Hidx Hrange Haux [Hi Hr Ha]. split.
  - intros [|k] t; simpl; [intros [= ->]; by rewrite Nat.add_0_r|]. intros Ht. rewrite (Hi _ _ Ht). lia.
  - by constructor.
  - intros [|k] t j; simpl.
    + intros [= ->] Hna Hj. destruct j as [|j]; [lia|]. simpl. rewrite Nat.add_0_r. apply Haux; [done|lia].
    + intros Ht Hna Hj. destruct (Ha k t j Ht Hna Hj) as (a & ? & ? & ? & Hp). exists a.
      split_and!; [done..|]. rewrite Hp. lia.
Qed.

Lemma safe_symbol_records table n index aux primary entry :
  in_file entry (Z.of_nat n * 18) → (0 ≤ aux ≤ Z.of_nat n)%Z →
  safe (λ ss, length ss = n ∧ symbols_ok ss index ∧
     ∀ j, (Z.of_nat j < aux)%Z → ∃ a, ss !! j = Some a ∧ is_auxiliary a = true ∧ sym_name a = None ∧
       primary_symbol_index a = primary)
    (parse_symbol_records file table n index aux primary entry).
Proof.
  revert index aux primary entry. induction n as [|n IH]; intros index aux primary entry Hin Ha; simpl.
  { split_and!; [done| |intros; lia]. by split; [..|intros k s j Hk]. }
  destruct (Z.ltb_spec 0 aux).
  - eapply safe_bind; [apply (IH (S index) (aux - 1)%Z primary); [unfold COFF_SYMBOL_SIZE; in_bounds|lia]|].
    intros ss (Hlen & Hok & Haux). simpl. split_and!; [by rewrite Hlen| |].
    + apply symbols_ok_cons; simpl; [done| |done|done]. unfold symbol_ranges. simpl. lia.
    + intros [|j] Hj; simpl; [by eexists|]. apply Haux. lia.
  - eapply safe_bind; [apply safe_symbol; in_bounds|]. intros s (Hidx & Hna & Hrange & Hcount).
    eapply safe_bind; [apply (IH (S index) (auxiliary_count s)); [unfold COFF_SYMBOL_SIZE; in_bounds|lia]|].
    intros ss (Hlen & Hok & Haux). simpl. split_and!; [by rewrite Hlen| |intros; lia].
    apply symbols_ok_cons; [done..| |done]. intros _ j Hj. destruct (Haux j Hj) as (a & ? & ? & ? & Hp).
    exists a. split_and!; [done..|]. rewrite Hp. destruct (Z.ltb_spec 0 (auxiliary_count s)); [done|lia].
Qed.

Lemma safe_symbols table pointer count :
  (0 ≤ pointer)%Z → (0 ≤ count < 2 ^ 32)%Z →
  safe (λ ss, symbols_ok ss 0 ∧ Z.of_nat (length ss) = count)
    (coff_reader_parse_symbols file table pointer count).
Proof.
  intros Hp Hc. unfold coff_reader_parse_symbols, COFF_SYMBOL_SIZE.
  destruct (Z.eqb_spec count 0) as [->|].
  { split; [|done]. by split; [..|intros k s j Hk]. }
  rewrite wrap_u_id by lia. apply safe_require. intros Hr. apply range_ok_spec in Hr; [|lia..].
  eapply safe_weaken; [apply safe_symbol_records; [by rewrite Z2Nat.id by lia|lia]|].
  simpl. intros ss (-> & Hok & _). split; [done|lia].
Qed.

Lemma parse_safe : safe object_ok (coff_object_parse file).
Proof.
  unfold coff_object_parse. apply safe_require. unfold COFF_FILE_HEADER_SIZE. intros H20%Z.leb_le.
  read safe_u16 as mach Hmach. read safe_u16 as nsections Hnsections. read safe_u32 as stamp Hstamp.
  read safe_u32 as pointer Hpointer. read safe_u32 as nsymbols Hnsymbols.
  read safe_u16 as optional Hoptional. read safe_u16 as chars Hchars.
  apply safe_require. intros Hm%Z.eqb_eq.
  eapply safe_bind; [by apply safe_string_table|]. intros table _. cbv beta.
  eapply safe_bind; [by apply safe_sections|]. intros ss [Hss Hcount].
  eapply safe_bind; [apply safe_symbols; [apply Hpointer|done]|]. intros syms [Hsyms Hscount]. by split.
Qed.

Lemma parse_object_ok o : coff_object_parse file = Done o → object_ok o.
Proof. intros Ho. pose proof parse_safe as Hsafe. by rewrite Ho in Hsafe. Qed.

(** C16. Reading a COFF object from any file under 4 GiB never reads outside the file,
    and an accepted object has the sections, relocations and symbols its header
    announces, raw data copied from the file, and every symbol followed by its
    auxiliary records. *)
Theorem coff_parse_safe :
  coff_object_parse file ≠ Undefined ∧ ∀ o, coff_object_parse file = Done o → object_ok o.
Proof.
  split; [|exact parse_object_ok]. pose proof parse_safe as Hsafe. by destruct (coff_object_parse file).
Qed.
End reader.

(** ** Examples *)

Definition zeros (n : nat) : list byte := replicate n (byte.of_Z 0).

(** An object with a four-byte [.text] and the symbol [main], with its auxiliary
    record, at its start. *)
Definition sample_object : list byte :=
  le_split 2 34404 ++ le_split 2 1 ++ zeros 4 ++ le_split 4 64 ++ le_split 4 2 ++ zeros 4 ++
  map byte_of_ascii (list_ascii_of_string ".text") ++ zeros 3 ++
  zeros 8 ++ le_split 4 4 ++ le_split 4 60 ++ zeros 12 ++ le_split 4 1615855648 ++
  le_split 4 2425393347 ++
  map byte_of_ascii (list_ascii_of_string "main") ++ zeros 4 ++
  zeros 4 ++ le_split 2 1 ++ le_split 2 32 ++ map byte.of_Z [2; 1]%Z ++
  le_split 4 4 ++ zeros 14.

Lemma coff_parse_safe_witness :
  ∃ o, coff_object_parse sample_object = Done o ∧ object_ok sample_object o ∧
    sec_kind <$> sections o = [COFF_SECTION_KIND_TEXT] ∧ sym_name <$> symbols o = [Some "main"%string; None].
Proof.
  destruct (coff_object_parse sample_object) as [o| |] eqn:Ho; [|vm_compute in Ho; discriminate Ho..].
  exists o. split; [reflexivity|]. split.
  - apply coff_parse_safe; [vm_compute; reflexivity|exact Ho].
  - vm_compute in Ho. injection Ho as <-. split; reflexivity.
Defined.

(** An object whose [.text] calls the external [main]. *)
Definition caller_object : list byte :=
  le_split 2 34404 ++ le_split 2 1 ++ zeros 4 ++ le_split 4 78 ++ le_split 4 1 ++ zeros 4 ++
  map byte_of_ascii (list_ascii_of_string ".text") ++ zeros 3 ++
  zeros 8 ++ le_split 4 8 ++ le_split 4 60 ++ le_split 4 68 ++ zeros 4 ++ le_split 2 1 ++ zeros 2 ++
  le_split 4 1615855648 ++
  map byte.of_Z [232; 0; 0; 0; 0; 144; 144; 144]%Z ++
  le_split 4 1 ++ zeros 4 ++ le_split 2 4 ++
  map byte_of_ascii (list_ascii_of_string "main") ++ zeros 4 ++
  zeros 6 ++ le_split 2 32 ++ map byte.of_Z [2; 0]%Z.

(** The object a file holds; an empty one when it is rejected. *)
Definition object_of (file : list byte) : CoffObject :=
  match coff_object_parse file with Done o => o | _ => mkObject 0 0 0 0 0 0 0 [] [] [] end.

Lemma object_of_ok file :
  (file_size file < 2 ^ 32)%Z → (match coff_object_parse file with Done _ => true | _ => false end) = true →
  object_ok file (object_of file).
Proof.
  intros Hsize H. unfold object_of. destruct (coff_object_parse file) eqn:Ho; [|done..].
  by apply parse_object_ok.
Qed.

(** The range check of the string table sees its offset truncated to 32 bits: beyond
    4 GiB, a table said to start in the last byte of the file passes. *)
Lemma string_table_large_file file pointer count :
  let offset := u64 (pointer + u64 (count * COFF_SYMBOL_SIZE)) in
  (0 ≤ offset)%Z → file_size file = (offset + 1)%Z → (0 ≤ u32 offset ≤ offset - 3)%Z →
  coff_reader_parse_string_table file pointer count = Undefined.
Proof.
  intros offset Hpos Hsize Hu. unfold coff_reader_parse_string_table. fold offset.
  unfold coff_reader_range_ok. rewrite Hsize.
  destruct (Z.ltb_spec (offset + 1) offset); [lia|]. destruct (Z.eqb_spec offset (offset + 1)); [lia|].
  destruct (Z.ltb_spec (offset + 1) (u32 offset)); [lia|].
  destruct (Z.ltb_spec (offset + 1 - u32 offset) 4); [lia|].
  run_outcome. unfold linker_read_u32, file_size in *.
  destruct (byte_at_Z file offset Hpos ltac:(lia)) as (v & -> & _).
  assert (byte_at file (offset + 1) = Undefined) as ->; [|done].
  unfold byte_at. by rewrite lookup_ge_None_2 by lia.
Qed.
