(* ===== verification/Link.v ===== *)
(** * Linker: merging sections and resolving symbols (src/src/linker/symbol_resolve.c)

    [link_resolution_build] from the point where the objects are read.  The arrays
    that grow by reallocation are lists, except the data of a merged section, whose
    capacity is kept because the code copies into it unchecked; a copy outside the
    capacity, or past bytes never written, is [Undefined]. *)

From S2P Require Import Prelude LinkBase Coff.

(** ** Data *)

Record LinkedSectionContribution : Type := mkContribution {
  con_object_index : nat;
  con_section_index : nat;
  con_merged_offset : Z;
  con_size : Z;
  con_alignment : Z }.

Record LinkedSection : Type := mkLinkedSection {
  ls_kind : CoffSectionKind;
  ls_data : list byte;                  (* the bytes written so far *)
  ls_data_capacity : Z;
  ls_size : Z;
  ls_virtual_size : Z;
  ls_alignment : Z;
  ls_virtual_address : Z;
  ls_contributions : list LinkedSectionContribution }.

(** [LINKED_SECTION_INDEX_NONE] is [None]. *)
Record LinkedObjectSymbol : Type := mkObjectSymbol {
  los_name : option string;
  los_object_index : nat;
  los_symbol_index : Z;
  los_is_defined : bool;
  los_is_external : bool;
  los_is_local : bool;
  los_is_auxiliary : bool;
  los_section_number : Z;
  los_merged_section_index : option nat;
  los_merged_offset : Z;
  los_virtual_address : Z }.

(** Where a section of an object went: the members of the arrays
    [section_merged_indices], [section_merged_offsets], [section_merged_sizes] and
    [section_alignments]. *)
Record placement : Type := mkPlacement {
  pl_index : option nat;
  pl_offset : Z;
  pl_size : Z;
  pl_alignment : Z }.

Record LinkedInputObject : Type := mkInput {
  li_object : CoffObject;
  li_placements : list placement;
  li_symbols : list LinkedObjectSymbol }.

Record LinkedSymbol : Type := mkLinkedSymbol {
  sy_name : string;
  sy_is_defined : bool;
  sy_is_external : bool;
  sy_defining_object_index : option nat;
  sy_defining_symbol_index : Z;
  sy_merged_section_index : option nat;
  sy_merged_offset : Z;
  sy_virtual_address : Z }.

Record LinkResolutionOptions : Type := mkOptions {
  entry_symbol_name : option string;
  opt_section_alignment : Z;
  allow_unresolved_externals : bool }.

(** [entry_symbol] points into the symbols. *)
Record LinkResolution : Type := mkResolution {
  lr_objects : list LinkedInputObject;
  lr_sections : list LinkedSection;
  lr_symbols : list LinkedSymbol;
  lr_entry_symbol : option nat }.

Definition COFF_STORAGE_CLASS_EXTERNAL : Z := 2.
Definition COFF_STORAGE_CLASS_STATIC : Z := 3.

(** ** Section kinds and alignments *)

Definition link_section_index_from_kind (k : CoffSectionKind) : option nat :=
  match k with
  | COFF_SECTION_KIND_TEXT => Some 0
  | COFF_SECTION_KIND_RDATA => Some 1
  | COFF_SECTION_KIND_DATA => Some 2
  | COFF_SECTION_KIND_BSS => Some 3
  | COFF_SECTION_KIND_PDATA => Some 4
  | COFF_SECTION_KIND_XDATA => Some 5
  | COFF_SECTION_KIND_UNKNOWN => None
  end.

Definition section_kinds : list CoffSectionKind :=
  [COFF_SECTION_KIND_TEXT; COFF_SECTION_KIND_RDATA; COFF_SECTION_KIND_DATA;
   COFF_SECTION_KIND_BSS; COFF_SECTION_KIND_PDATA; COFF_SECTION_KIND_XDATA].

Definition link_resolution_init_sections : list LinkedSection :=
  map (λ k, mkLinkedSection k [] 0 0 0 1 0 []) section_kinds.

(** The fourteen [IMAGE_SCN_ALIGN] values are 1 to 14 in bits 20 to 23. *)
Definition link_alignment_from_characteristics (chars : Z) : Z :=
  let code := Z.shiftr (Z.land chars 15728640) 20 in
  if (1 <=? code)%Z && (code <=? 14)%Z then (2 ^ (code - 1))%Z else 0%Z.

Definition link_default_section_alignment (k : CoffSectionKind) (fallback : Z) : Z :=
  if (1 <? fallback)%Z then fallback
  else match k with COFF_SECTION_KIND_UNKNOWN => 1 | _ => 16 end.

Definition link_section_alignment (s : CoffSection) (fallback : Z) : Z :=
  let alignment := link_alignment_from_characteristics (characteristics s) in
  if (alignment =? 0)%Z then link_default_section_alignment (sec_kind s) fallback else alignment.

(** ** Sizes *)

(** Symbols in the section at [index]: sections count from 1 in symbols. *)
Definition in_section (index : nat) (y : CoffSymbol) : bool :=
  (section_number y =? wrap_s 16 (Z.of_nat (S index)))%Z.

(** The length in the auxiliary record of the section's own symbol. *)
Definition recorded_length (s : CoffSection) (index : nat) (y : CoffSymbol) : bool :=
  negb (is_auxiliary y) && has_auxiliary_record y &&
  match sym_name y with
  | Some n =>
      (storage_class y =? COFF_STORAGE_CLASS_STATIC)%Z && in_section index y &&
      String.eqb n (sec_name s) && negb (aux_section_length y =? 0)%Z
  | None => false
  end.

(** Room for the last byte of every symbol of the section. *)
Fixpoint symbols_extent (index : nat) (ys : list CoffSymbol) (size : Z) : Z :=
  match ys with
  | [] => size
  | y :: ys' =>
      if is_auxiliary y || negb (in_section index y) then symbols_extent index ys' size
      else symbols_extent index ys' (Z.max size (sym_value y + 1))
  end.

Definition link_estimate_section_size (o : CoffObject) (index : nat) : Z :=
  match sections o !! index with
  | None => 0
  | Some s =>
      match List.find (recorded_length s index) (symbols o) with
      | Some y => aux_section_length y
      | None =>
          let size := Z.max (size_of_raw_data s) (virtual_size s) in
          match sec_kind s with
          | COFF_SECTION_KIND_BSS => symbols_extent index (symbols o) size
          | _ => size
          end
      end
  end.

(** ** Growing a section *)

(** [while (capacity < needed) capacity *= 2]; [None] when it never ends. *)
Fixpoint grow_capacity (fuel : nat) (capacity needed : Z) : option Z :=
  match fuel with
  | O => None
  | S f => if (capacity <? needed)%Z then grow_capacity f (u64 (capacity * 2)) needed else Some capacity
  end.

Definition link_section_reserve_data (l : LinkedSection) (needed : Z) : outcome LinkedSection :=
  if (needed <=? ls_data_capacity l)%Z then Done l
  else
    c ← of_option (grow_capacity 65 (if (ls_data_capacity l =? 0)%Z then 64 else ls_data_capacity l)%Z needed);
    Done (mkLinkedSection (ls_kind l) (ls_data l) c (ls_size l) (ls_virtual_size l) (ls_alignment l)
            (ls_virtual_address l) (ls_contributions l)).

(** [memset] or [memcpy] of [bytes] to [data + off]. *)
Definition store_bytes (capacity : Z) (off : Z) (bytes data : list byte) : outcome (list byte) :=
  let n := Z.to_nat off in
  if (off + Z.of_nat (length bytes) <=? capacity)%Z && (n <=? length data) then
    Done (take n data ++ bytes ++ drop (n + length bytes) data)
  else Undefined.

(** The bytes of a section other than [.bss] go to [start], after a gap of zeros. *)
Definition append_raw_data (l : LinkedSection) (start : Z) (s : CoffSection) : outcome LinkedSection :=
  l ← link_section_reserve_data l (u64 (start + size_of_raw_data s));
  data ← (if (ls_size l <? start)%Z then
            store_bytes (ls_data_capacity l) (ls_size l)
              (replicate (Z.to_nat (start - ls_size l)) (byte.of_Z 0)) (ls_data l)
          else Done (ls_data l));
  data ← (if (0 <? size_of_raw_data s)%Z then
            if (size_of_raw_data s <=? Z.of_nat (length (raw_data s)))%Z then
              store_bytes (ls_data_capacity l) start
                (take (Z.to_nat (size_of_raw_data s)) (raw_data s)) data
            else Undefined
          else Done data);
  let size := u64 (start + size_of_raw_data s) in
  Done (mkLinkedSection (ls_kind l) data (ls_data_capacity l) size
          (if (ls_virtual_size l <? size)%Z then size else ls_virtual_size l) (ls_alignment l)
          (ls_virtual_address l) (ls_contributions l)).

(** [.bss] only takes room. *)
Definition extend_bss (l : LinkedSection) (start size : Z) : LinkedSection :=
  let finish := u64 (start + size) in
  mkLinkedSection (ls_kind l) (ls_data l) (ls_data_capacity l) (ls_size l)
    (if (ls_virtual_size l <? finish)%Z then finish else ls_virtual_size l) (ls_alignment l)
    (ls_virtual_address l) (ls_contributions l).

Definition raise_alignment (l : LinkedSection) (alignment : Z) : LinkedSection :=
  mkLinkedSection (ls_kind l) (ls_data l) (ls_data_capacity l) (ls_size l) (ls_virtual_size l)
    (if (ls_alignment l <? alignment)%Z then alignment else ls_alignment l)
    (ls_virtual_address l) (ls_contributions l).

Definition add_contribution (l : LinkedSection) (c : LinkedSectionContribution) : LinkedSection :=
  mkLinkedSection (ls_kind l) (ls_data l) (ls_data_capacity l) (ls_size l) (ls_virtual_size l)
    (ls_alignment l) (ls_virtual_address l) (ls_contributions l ++ [c]).

(** ** Merging *)

Definition not_merged : placement := mkPlacement None 0 0 0.

(** One turn of the loop over an object's sections. *)
Definition merge_section (object_index : nat) (o : CoffObject) (fallback : Z) (index : nat)
    (s : CoffSection) (ls : list LinkedSection) : outcome (list LinkedSection * placement) :=
  match link_section_index_from_kind (sec_kind s) with
  | None => Done (ls, not_merged)
  | Some m =>
      let alignment := link_section_alignment s fallback in
      l ← of_option (ls !! m);
      let l := raise_alignment l alignment in
      let size := link_estimate_section_size o index in
      let start := linker_align_up (ls_virtual_size l) alignment in
      l ← (match sec_kind s with
           | COFF_SECTION_KIND_BSS => Done (extend_bss l start size)
           | _ => append_raw_data l start s
           end);
      let c := mkContribution object_index index start size alignment in
      Done (<[m := add_contribution l c]> ls, mkPlacement (Some m) start size alignment)
  end.

Fixpoint merge_object_sections (object_index : nat) (o : CoffObject) (fallback : Z) (index : nat)
    (ss : list CoffSection) (ls : list LinkedSection) : outcome (list LinkedSection * list placement) :=
  match ss with
  | [] => Done (ls, [])
  | s :: ss' =>
      r ← merge_section object_index o fallback index s ls;
      r' ← merge_object_sections object_index o fallback (S index) ss' r.1;
      Done (r'.1, r.2 :: r'.2)
  end.

Fixpoint link_resolution_merge_sections (fallback : Z) (object_index : nat) (os : list CoffObject)
    (ls : list LinkedSection) : outcome (list LinkedSection * list (list placement)) :=
  match os with
  | [] => Done (ls, [])
  | o :: os' =>
      r ← merge_object_sections object_index o fallback 0 (sections o) ls;
      r' ← link_resolution_merge_sections fallback (S object_index) os' r.1;
      Done (r'.1, r.2 :: r'.2)
  end.

(** ** Symbols *)

Definition has_name (name : string) (g : LinkedSymbol) : bool := String.eqb (sy_name g) name.

Fixpoint find_symbol_from (gs : list LinkedSymbol) (index : nat) (name : string) : option nat :=
  match gs with
  | [] => None
  | g :: gs' => if has_name name g then Some index else find_symbol_from gs' (S index) name
  end.

(** The position of the symbol. *)
Definition link_resolution_find_symbol (gs : list LinkedSymbol) (name : string) : option nat :=
  find_symbol_from gs 0 name.

Definition UINT32_MAX : Z := 2 ^ 32 - 1.

Definition fresh_symbol (name : string) : LinkedSymbol :=
  mkLinkedSymbol name false false None UINT32_MAX None 0 0.

Definition set_external (g : LinkedSymbol) : LinkedSymbol :=
  mkLinkedSymbol (sy_name g) (sy_is_defined g) true (sy_defining_object_index g)
    (sy_defining_symbol_index g) (sy_merged_section_index g) (sy_merged_offset g) (sy_virtual_address g).

Definition define_symbol (y : LinkedObjectSymbol) (g : LinkedSymbol) : LinkedSymbol :=
  mkLinkedSymbol (sy_name g) true (sy_is_external g) (Some (los_object_index y)) (los_symbol_index y)
    (los_merged_section_index y) (los_merged_offset y) (sy_virtual_address g).

(** [global_symbol] is found or appended, then marked external, then defined. *)
Definition link_resolution_record_global_symbol (gs : list LinkedSymbol) (y : LinkedObjectSymbol)
    (name : string) : outcome (list LinkedSymbol) :=
  let '(gs, i) := match link_resolution_find_symbol gs name with
                  | Some i => (gs, i)
                  | None => (gs ++ [fresh_symbol name], length gs)
                  end in
  let gs := alter set_external i gs in
  if negb (los_is_defined y) then Done gs
  else
    g ← of_option (gs !! i);
    _ ← require (negb (sy_is_defined g)) (E_duplicate_symbol name (sy_defining_object_index g));
    Done (alter (define_symbol y) i gs).

(** The entry of the object's symbol at [index]. *)
Definition resolve_object_symbol (object_index : nat) (pls : list placement) (index : nat)
    (y : CoffSymbol) : outcome LinkedObjectSymbol :=
  let make external defined section offset :=
    mkObjectSymbol (sym_name y) object_index (u32 (Z.of_nat index)) defined external (negb external)
      (is_auxiliary y) (section_number y) section offset 0 in
  if is_auxiliary y then Done (make false false None 0%Z)
  else
    let external := (storage_class y =? COFF_STORAGE_CLASS_EXTERNAL)%Z in
    if (0 <? section_number y)%Z then
      let s := Z.to_nat (section_number y - 1) in
      match pls !! s with
      | None => Failed (E_symbol_section (sym_name y) (section_number y))
      | Some pl =>
          match pl_index pl with
          | Some m => Done (make external true (Some m) (u64 (pl_offset pl + sym_value y)))
          | None => Done (make external false None 0%Z)
          end
      end
    else Done (make external false None 0%Z).

Fixpoint build_object_symbols (object_index : nat) (pls : list placement) (index : nat)
    (ys : list CoffSymbol) (gs : list LinkedSymbol) : outcome (list LinkedSymbol * list LinkedObjectSymbol) :=
  match ys with
  | [] => Done (gs, [])
  | y :: ys' =>
      r ← resolve_object_symbol object_index pls index y;
      gs ← (match los_is_external r, los_name r with
            | true, Some name => link_resolution_record_global_symbol gs r name
            | _, _ => Done gs
            end);
      rest ← build_object_symbols object_index pls (S index) ys' gs;
      Done (rest.1, r :: rest.2)
  end.

(** The objects with where their sections went. *)
Fixpoint link_resolution_build_symbols (object_index : nat) (os : list (CoffObject * list placement))
    (gs : list LinkedSymbol) : outcome (list LinkedSymbol * list LinkedInputObject) :=
  match os with
  | [] => Done (gs, [])
  | (o, pls) :: os' =>
      r ← build_object_symbols object_index pls 0 (symbols o) gs;
      rest ← link_resolution_build_symbols (S object_index) os' r.1;
      Done (rest.1, mkInput o pls r.2 :: rest.2)
  end.

(** ** Addresses *)

Definition place_section (address : Z) (l : LinkedSection) : LinkedSection :=
  mkLinkedSection (ls_kind l) (ls_data l) (ls_data_capacity l) (ls_size l) (ls_virtual_size l)
    (ls_alignment l) address (ls_contributions l).

(** Empty sections take no address. *)
Fixpoint place_sections (section_alignment current : Z) (ls : list LinkedSection) : list LinkedSection :=
  match ls with
  | [] => []
  | l :: ls' =>
      if (ls_virtual_size l =? 0)%Z then l :: place_sections section_alignment current ls'
      else
        let address := linker_align_up current section_alignment in
        place_section address l ::
          place_sections section_alignment (u64 (address + ls_virtual_size l)) ls'
  end.

(** [None]: the section's address, when it has one. *)
Definition symbol_address (ls : list LinkedSection) (defined : bool) (section : option nat) (offset : Z)
    : option Z :=
  match defined, section with
  | true, Some m => l ← ls !! m; Some (u64 (ls_virtual_address l + offset))
  | _, _ => None
  end.

Definition place_object_symbol (ls : list LinkedSection) (y : LinkedObjectSymbol) : LinkedObjectSymbol :=
  match symbol_address ls (los_is_defined y) (los_merged_section_index y) (los_merged_offset y) with
  | Some a =>
      mkObjectSymbol (los_name y) (los_object_index y) (los_symbol_index y) (los_is_defined y)
        (los_is_external y) (los_is_local y) (los_is_auxiliary y) (los_section_number y)
        (los_merged_section_index y) (los_merged_offset y) a
  | None => y
  end.

Definition place_symbol (ls : list LinkedSection) (g : LinkedSymbol) : LinkedSymbol :=
  match symbol_address ls (sy_is_defined g) (sy_merged_section_index g) (sy_merged_offset g) with
  | Some a =>
      mkLinkedSymbol (sy_name g) (sy_is_defined g) (sy_is_external g) (sy_defining_object_index g)
        (sy_defining_symbol_index g) (sy_merged_section_index g) (sy_merged_offset g) a
  | None => g
  end.

Definition link_resolution_assign_virtual_addresses (section_alignment : Z) (r : LinkResolution)
    : LinkResolution :=
  let ls := place_sections section_alignment 0 (lr_sections r) in
  mkResolution
    (map (λ i, mkInput (li_object i) (li_placements i) (map (place_object_symbol ls) (li_symbols i)))
       (lr_objects r))
    ls (map (place_symbol ls) (lr_symbols r)) (lr_entry_symbol r).

(** ** The resolution *)

Definition unresolved (g : LinkedSymbol) : bool := sy_is_external g && negb (sy_is_defined g).

Definition link_resolution_validate_externals (options : option LinkResolutionOptions) (r : LinkResolution)
    : outcome LinkResolution :=
  let allowed := match options with Some o => allow_unresolved_externals o | None => false end in
  _ ← (match (if allowed then None else List.find unresolved (lr_symbols r)) with
       | Some g => Failed (E_unresolved_symbol (sy_name g))
       | None => Done ()
       end);
  match (o ← options; entry_symbol_name o) with
  | None | Some EmptyString => Done r
  | Some name =>
      match (i ← link_resolution_find_symbol (lr_symbols r) name;
             g ← lr_symbols r !! i; if sy_is_defined g then Some i else None) with
      | Some i => Done (mkResolution (lr_objects r) (lr_sections r) (lr_symbols r) (Some i))
      | None => Failed (E_entry_point name)
      end
  end.

(** [link_resolution_build] on objects already read. *)
Definition link_resolution_build (os : list CoffObject) (options : option LinkResolutionOptions)
    : outcome LinkResolution :=
  _ ← require (negb (length os =? 0)) E_no_objects;
  let section_alignment :=
    match options with
    | Some o => if (1 <? opt_section_alignment o)%Z then opt_section_alignment o else 16%Z
    | None => 16%Z
    end in
  m ← link_resolution_merge_sections section_alignment 0 os link_resolution_init_sections;
  b ← link_resolution_build_symbols 0 (zip os m.2) [];
  link_resolution_validate_externals options
    (link_resolution_assign_virtual_addresses section_alignment (mkResolution b.2 m.1 b.1 None)).

Definition link_resolution_find_section (r : LinkResolution) (k : CoffSectionKind) : option LinkedSection :=
  m ← link_section_index_from_kind k; lr_sections r !! m.
