(* ===== verification/Relocation.v ===== *)
(** * Linker: applying relocations (src/src/linker/relocation.c) *)

From S2P Require Import Prelude LinkBase Coff Link.

Definition COFF_RELOC_AMD64_ADDR64 : Z := 1.
Definition COFF_RELOC_AMD64_ADDR32NB : Z := 3.
Definition COFF_RELOC_AMD64_REL32 : Z := 4.
Definition COFF_RELOC_AMD64_SECREL : Z := 11.
Definition INT32_MIN : Z := - 2 ^ 31.
Definition INT32_MAX : Z := 2 ^ 31 - 1.

Record RelocationTarget : Type := mkTarget {
  t_name : option string;                   (* [None] prints as <unnamed> *)
  t_merged_section_index : nat;
  t_merged_offset : Z;
  t_virtual_address : Z }.

Definition relocation_section_is_debug_only (name : string) : bool :=
  String.prefix ".debug" name || String.prefix ".zdebug" name.

Definition relocation_resolve_target (gs : list LinkedSymbol) (ys : list LinkedObjectSymbol) (index : Z)
    : outcome RelocationTarget :=
  match ys !! Z.to_nat index with
  | None => Failed (E_symbol_index index)
  | Some y =>
      if los_is_auxiliary y then Failed (E_auxiliary_symbol (los_name y))
      else
        match los_is_defined y, los_merged_section_index y with
        | true, Some m => Done (mkTarget (los_name y) m (los_merged_offset y) (los_virtual_address y))
        | _, _ =>
            match (n ← los_name y; i ← link_resolution_find_symbol gs n; g ← gs !! i;
                   if sy_is_defined g then
                     m ← sy_merged_section_index g;
                     Some (mkTarget (los_name y) m (sy_merged_offset g) (sy_virtual_address g))
                   else None) with
            | Some t => Done t
            | None => Failed (E_unresolved_target (los_name y))
            end
        end
  end.

(** Signed 64-bit addition, which must not overflow. *)
Definition add_s64 (a b : Z) : outcome Z :=
  let c := (a + b)%Z in
  if (- 2 ^ 63 <=? c)%Z && (c <? 2 ^ 63)%Z then Done c else Undefined.

Definition relocation_width (type : Z) : option Z :=
  if (type =? COFF_RELOC_AMD64_ADDR64)%Z then Some 8%Z
  else if (type =? COFF_RELOC_AMD64_ADDR32NB)%Z || (type =? COFF_RELOC_AMD64_REL32)%Z
          || (type =? COFF_RELOC_AMD64_SECREL)%Z then Some 4%Z
  else None.

(** What the field of the relocation becomes, from its addend. *)
Definition relocation_value (image_base : Z) (type : Z) (t : RelocationTarget) (patch_address addend : Z)
    : outcome Z :=
  let check (b : bool) (v : Z) := if b then Done v else Failed (E_out_of_range type (t_name t)) in
  if (type =? COFF_RELOC_AMD64_REL32)%Z then
    s ← add_s64 (s64 (t_virtual_address t)) addend;
    v ← add_s64 s (- s64 (u64 (patch_address + 4)));
    check (negb ((v <? INT32_MIN)%Z || (INT32_MAX <? v)%Z)) (u32 v)
  else if (type =? COFF_RELOC_AMD64_ADDR64)%Z then
    v ← add_s64 (s64 (t_virtual_address t)) addend;
    check (negb (v <? 0)%Z) (u64 v)
  else if (type =? COFF_RELOC_AMD64_ADDR32NB)%Z then
    let base :=
      if negb (image_base =? 0)%Z && (image_base <=? t_virtual_address t)%Z
      then u64 (t_virtual_address t - image_base) else t_virtual_address t in
    v ← add_s64 (s64 base) addend;
    check (negb ((v <? 0)%Z || (UINT32_MAX <? u64 v)%Z)) (u32 v)
  else
    v ← add_s64 (s64 (t_merged_offset t)) addend;
    check (negb ((v <? 0)%Z || (UINT32_MAX <? u64 v)%Z)) (u32 v).

(** The offset of the field in the merged section. *)
Definition patch_offset (pl : placement) (r : CoffRelocation) : Z :=
  u64 (pl_offset pl + reloc_virtual_address r).

Definition link_apply_relocation (image_base : Z) (gs : list LinkedSymbol) (ys : list LinkedObjectSymbol)
    (pl : placement) (r : CoffRelocation) (l : LinkedSection) : outcome LinkedSection :=
  let offset := patch_offset pl r in
  let address := u64 (ls_virtual_address l + offset) in
  t ← relocation_resolve_target gs ys (symbol_table_index r);
  width ← (match relocation_width (reloc_type r) with
           | Some w => Done w
           | None => Failed (E_relocation_type (reloc_type r))
           end);
  _ ← require (negb (ls_size l <? u64 (offset + width))%Z) (E_past_section (t_name t));
  addend ← (if (width =? 8)%Z then a ← linker_read_u64 (ls_data l) offset; Done (s64 a)
            else a ← linker_read_u32 (ls_data l) offset; Done (s32 a));
  v ← relocation_value image_base (reloc_type r) t address addend;
  data ← (if (width =? 8)%Z then linker_write_u64 (ls_data l) offset v
          else linker_write_u32 (ls_data l) offset v);
  Done (mkLinkedSection (ls_kind l) data (ls_data_capacity l) (ls_size l) (ls_virtual_size l)
          (ls_alignment l) (ls_virtual_address l) (ls_contributions l)).

Fixpoint apply_section_relocations (image_base : Z) (gs : list LinkedSymbol) (ys : list LinkedObjectSymbol)
    (pl : placement) (rs : list CoffRelocation) (l : LinkedSection) : outcome LinkedSection :=
  match rs with
  | [] => Done l
  | r :: rs' =>
      l ← link_apply_relocation image_base gs ys pl r l;
      apply_section_relocations image_base gs ys pl rs' l
  end.

(** The loop over the sections of an object. *)
Fixpoint apply_object_relocations (image_base : Z) (gs : list LinkedSymbol) (ys : list LinkedObjectSymbol)
    (ss : list CoffSection) (pls : list placement) (ls : list LinkedSection) : outcome (list LinkedSection) :=
  match ss, pls with
  | s :: ss', pl :: pls' =>
      ls ← (match relocations s with
            | [] => Done ls
            | rs =>
                match pl_index pl with
                | None =>
                    if relocation_section_is_debug_only (sec_name s) then Done ls
                    else Failed (E_not_merged (sec_name s))
                | Some m =>
                    l ← of_option (ls !! m);
                    l ← apply_section_relocations image_base gs ys pl rs l;
                    Done (<[m := l]> ls)
                end
            end);
      apply_object_relocations image_base gs ys ss' pls' ls
  | _, _ => Done ls
  end.

Fixpoint apply_objects_relocations (image_base : Z) (gs : list LinkedSymbol) (inputs : list LinkedInputObject)
    (ls : list LinkedSection) : outcome (list LinkedSection) :=
  match inputs with
  | [] => Done ls
  | i :: inputs' =>
      ls ← apply_object_relocations image_base gs (li_symbols i) (sections (li_object i))
             (li_placements i) ls;
      apply_objects_relocations image_base gs inputs' ls
  end.

Definition link_apply_relocations (image_base : Z) (r : LinkResolution) : outcome LinkResolution :=
  ls ← apply_objects_relocations image_base (lr_symbols r) (lr_objects r) (lr_sections r);
  Done (mkResolution (lr_objects r) ls (lr_symbols r) (lr_entry_symbol r)).
