(* ===== verification/LinkFacts.v ===== *)
(** * Correctness of section merging

    Every section of every object gets a place of its own in the merged section of
    its kind: aligned, disjoint from the others, inside the merged section, with its
    bytes copied there, and every copy stays inside the allocated buffer. *)

From S2P Require Import Prelude LinkBase Coff CoffFacts Link.

(** ** What a good layout is *)

Abbreviation piece := (CoffSection * placement)%type.

Definition is_bss (k : CoffSectionKind) : bool :=
  match k with COFF_SECTION_KIND_BSS => true | _ => false end.

(** The room a section takes. *)
Definition extent (p : piece) : Z := if is_bss (sec_kind p.1) then pl_size p.2 else size_of_raw_data p.1.

Definition piece_in (m : nat) (p : piece) : bool :=
  match pl_index p.2 with Some i => i =? m | None => false end.

Record piece_ok (fallback : Z) (l : LinkedSection) (p : piece) : Prop := {
  po_alignment : pl_alignment p.2 = link_section_alignment p.1 fallback;
  po_aligned : (pl_alignment p.2 | pl_offset p.2)%Z;
  po_low : (0 ≤ pl_offset p.2)%Z;
  po_high : (pl_offset p.2 + extent p ≤ ls_virtual_size l)%Z;
  po_data : is_bss (sec_kind p.1) = false →
    take (length (raw_data p.1)) (drop (Z.to_nat (pl_offset p.2)) (ls_data l)) = raw_data p.1 }.

Definition before (p q : piece) : Prop := (pl_offset p.2 + extent p ≤ pl_offset q.2)%Z.

(** The merged section [l], the [m]-th, holding the pieces placed so far. *)
Record section_layout (fallback : Z) (m : nat) (l : LinkedSection) (ps : list piece) : Prop := {
  sl_kind : section_kinds !! m = Some (ls_kind l);
  sl_pieces : Forall (piece_ok fallback l) (List.filter (piece_in m) ps);
  sl_disjoint : ForallOrdPairs before (List.filter (piece_in m) ps);
  sl_size : ls_size l = Z.of_nat (length (ls_data l));
  sl_virtual : if is_bss (ls_kind l) then ls_data l = [] ∧ (0 ≤ ls_virtual_size l)%Z
    else ls_virtual_size l = ls_size l;
  sl_capacity : (ls_size l ≤ ls_data_capacity l < 2 ^ 64)%Z }.

Definition layout_ok (fallback : Z) (ls : list LinkedSection) (ps : list piece) : Prop :=
  length ls = length section_kinds ∧
  (∀ m l, ls !! m = Some l → section_layout fallback m l ps) ∧
  Forall (λ p, pl_index p.2 = link_section_index_from_kind (sec_kind p.1)) ps.

(** What the reader guarantees of a section ([CoffFacts.section_ok]), as far as
    merging goes. *)
Definition mergeable (s : CoffSection) : Prop :=
  Z.of_nat (length (raw_data s)) = size_of_raw_data s ∧ (size_of_raw_data s < 2 ^ 32)%Z.

Definition pow2 (z : Z) : Prop := ∃ k, (0 ≤ k < 64)%Z ∧ z = (2 ^ k)%Z.

(** ** Alignments and sizes *)

Lemma default_alignment_pow2 k fallback : pow2 fallback → pow2 (link_default_section_alignment k fallback).
Proof.
  intros Hf. unfold link_default_section_alignment. destruct (1 <? fallback)%Z; [done|].
  destruct k; [exists 0%Z|exists 4%Z..]; (split; [lia|reflexivity]).
Qed.

Lemma characteristics_alignment_pow2 chars :
  link_alignment_from_characteristics chars = 0%Z ∨ pow2 (link_alignment_from_characteristics chars).
Proof.
  unfold link_alignment_from_characteristics. generalize (Z.shiftr (Z.land chars 15728640) 20). intros code.
  destruct (Z.leb_spec 1 code); [|by left]. destruct (Z.leb_spec code 14); [|by left].
  right. exists (code - 1)%Z. split; [lia|done].
Qed.

Lemma section_alignment_pow2 s fallback : pow2 fallback → pow2 (link_section_alignment s fallback).
Proof.
  intros Hf. unfold link_section_alignment.
  destruct (characteristics_alignment_pow2 (characteristics s)) as [->|Hp].
  - simpl. by apply default_alignment_pow2.
  - destruct (Z.eqb_spec (link_alignment_from_characteristics (characteristics s)) 0); [|done].
    by apply default_alignment_pow2.
Qed.

Lemma pow2_pos z : pow2 z → (0 < z)%Z.
Proof. intros (k & Hk & ->). apply Z.pow_pos_nonneg; lia. Qed.

Lemma align_up_pow2 value a :
  (pow2 a → 0 ≤ value → value + a ≤ 2 ^ 64 →
   value ≤ linker_align_up value a < value + a ∧ (a | linker_align_up value a))%Z.
Proof. intros (k & Hk & ->). by apply align_up_spec. Qed.

Lemma symbols_extent_ge index ys size : (size ≤ symbols_extent index ys size)%Z.
Proof.
  revert size. induction ys as [|y ys IH]; intros size; simpl; [lia|].
  destruct (_ || _); [apply IH|]. specialize (IH (Z.max size (sym_value y + 1))). lia.
Qed.

(** ** Growing a buffer *)

Lemma grow_capacity_spec f capacity needed :
  (0 < capacity < 2 ^ 64 → needed ≤ 2 ^ 63 → needed ≤ capacity * 2 ^ Z.of_nat f →
   ∃ c, grow_capacity (S f) capacity needed = Some c ∧ needed ≤ c ∧ capacity ≤ c < 2 ^ 64)%Z.
Proof.
  revert capacity. induction f as [|f IH]; intros capacity Hc Hneed Hpow.
  - change (2 ^ Z.of_nat 0)%Z with 1%Z in Hpow. unfold grow_capacity.
    destruct (Z.ltb_spec capacity needed); [lia|]. exists capacity. split; [done|lia].
  - rewrite Nat2Z.inj_succ, Z.pow_succ_r in Hpow by lia.
    change (grow_capacity (S (S f)) capacity needed) with
      (if (capacity <? needed)%Z then grow_capacity (S f) (u64 (capacity * 2)) needed else Some capacity).
    destruct (Z.ltb_spec capacity needed); [|exists capacity; split; [done|lia]].
    rewrite wrap_u_id by lia.
    destruct (IH (capacity * 2)%Z) as (c & -> & ? & ?); [lia..|]. exists c. split; [done|lia].
Qed.

Lemma reserve_data_spec l needed :
  (0 ≤ ls_data_capacity l < 2 ^ 64)%Z → (0 ≤ needed < 2 ^ 63)%Z →
  ∃ c, link_section_reserve_data l needed =
    Done (mkLinkedSection (ls_kind l) (ls_data l) c (ls_size l) (ls_virtual_size l) (ls_alignment l)
            (ls_virtual_address l) (ls_contributions l)) ∧
    (needed ≤ c)%Z ∧ (ls_data_capacity l ≤ c < 2 ^ 64)%Z.
Proof.
  intros Hc Hn. unfold link_section_reserve_data.
  destruct (Z.leb_spec needed (ls_data_capacity l)).
  { exists (ls_data_capacity l). split; [by destruct l|]. lia. }
  destruct (grow_capacity_spec 64 (if ls_data_capacity l =? 0 then 64 else ls_data_capacity l)%Z needed)
    as (c & -> & Hneed & Hge).
  1-3: destruct (Z.eqb_spec (ls_data_capacity l) 0); lia.
  exists c. split; [done|]. destruct (Z.eqb_spec (ls_data_capacity l) 0); lia.
Qed.

Lemma store_bytes_end capacity off bytes data :
  off = Z.of_nat (length data) → (off + Z.of_nat (length bytes) ≤ capacity)%Z →
  store_bytes capacity off bytes data = Done (data ++ bytes).
Proof.
  intros -> Hcap. unfold store_bytes. rewrite Nat2Z.id.
  destruct (Z.leb_spec (Z.of_nat (length data) + Z.of_nat (length bytes)) capacity); [|lia].
  rewrite Nat.leb_refl. simpl. by rewrite take_ge, drop_ge, app_nil_r by lia.
Qed.

Definition gap (l : LinkedSection) (start : Z) : list byte :=
  replicate (Z.to_nat (start - ls_size l)) (byte.of_Z 0).

Lemma append_raw_data_spec l start s :
  mergeable s → ls_size l = Z.of_nat (length (ls_data l)) → (ls_size l ≤ start)%Z →
  (ls_size l ≤ ls_data_capacity l < 2 ^ 64)%Z → (start + size_of_raw_data s < 2 ^ 63)%Z →
  ∃ c, append_raw_data l start s = Done (mkLinkedSection (ls_kind l)
      (ls_data l ++ gap l start ++ raw_data s) c (start + size_of_raw_data s)
      (Z.max (ls_virtual_size l) (start + size_of_raw_data s)) (ls_alignment l)
      (ls_virtual_address l) (ls_contributions l)) ∧
    (start + size_of_raw_data s ≤ c < 2 ^ 64)%Z.
Proof.
  intros [Hraw Hsmall] Hsize Hstart Hcap Hroom. unfold append_raw_data.
  rewrite wrap_u_id by lia.
  destruct (reserve_data_spec l (start + size_of_raw_data s)) as (c & -> & Hc & Hc'); [lia..|].
  exists c. cbn [mbind outcome_bind ls_size ls_data ls_data_capacity ls_kind ls_virtual_size ls_alignment
    ls_virtual_address ls_contributions].
  assert ((if (ls_size l <? start)%Z then store_bytes c (ls_size l) (gap l start) (ls_data l)
           else Done (ls_data l)) = Done (ls_data l ++ gap l start)) as Hgap.
  { destruct (Z.ltb_spec (ls_size l) start).
    - apply store_bytes_end; [done|]. unfold gap. rewrite length_replicate. lia.
    - unfold gap. replace (start - ls_size l)%Z with 0%Z by lia. by rewrite app_nil_r. }
  fold (gap l start). rewrite Hgap. run_outcome.
  assert (Z.of_nat (length (ls_data l ++ gap l start)) = start) as Hlen.
  { unfold gap. rewrite length_app, length_replicate. lia. }
  assert ((if (0 <? size_of_raw_data s)%Z then
             if (size_of_raw_data s <=? Z.of_nat (length (raw_data s)))%Z
             then store_bytes c start (take (Z.to_nat (size_of_raw_data s)) (raw_data s)) (ls_data l ++ gap l start)
             else Undefined
           else Done (ls_data l ++ gap l start)) = Done (ls_data l ++ gap l start ++ raw_data s)) as Hcopy.
  { rewrite app_assoc. destruct (Z.ltb_spec 0 (size_of_raw_data s)).
    - destruct (Z.leb_spec (size_of_raw_data s) (Z.of_nat (length (raw_data s)))); [|lia].
      rewrite take_ge by lia. apply store_bytes_end; lia.
    - assert (raw_data s = []) as -> by (apply length_zero_iff_nil; lia). by rewrite app_nil_r. }
  rewrite Hcopy. run_outcome. split; [|lia]. f_equal. f_equal.
  destruct (Z.ltb_spec (ls_virtual_size l) (start + size_of_raw_data s)); lia.
Qed.

(** ** One section *)

Lemma piece_ok_grow fallback l l' p :
  piece_ok fallback l p → (ls_virtual_size l ≤ ls_virtual_size l')%Z →
  (∃ more, ls_data l' = ls_data l ++ more) → piece_ok fallback l' p.
Proof.
  intros [Ha Hd Hl Hh Hb] Hv [more Hm]. split; [done..|lia|].
  intros Hk. specialize (Hb Hk). rewrite Hm.
  assert (length (raw_data p.1) = 0 ∨ Z.to_nat (pl_offset p.2) + length (raw_data p.1) ≤ length (ls_data l))
    as [Hz|Hle].
  { apply (f_equal length) in Hb. rewrite length_take, length_drop in Hb. lia. }
  - rewrite Hz in Hb |- *. exact Hb.
  - rewrite drop_app_le by lia. rewrite take_app_le; [done|]. rewrite length_drop. lia.
Qed.

(** What one section may add to the merged section, alignment included. *)
Definition demand (fallback : Z) (o : CoffObject) (index : nat) (s : CoffSection) : Z :=
  (link_section_alignment s fallback + size_of_raw_data s + link_estimate_section_size o index)%Z.

Lemma filter_snoc (f : piece → bool) ps p :
  List.filter f (ps ++ [p]) = List.filter f ps ++ if f p then [p] else [].
Proof. rewrite List.filter_app. simpl. by destruct (f p). Qed.

Lemma ForallOrdPairs_snoc {A} (R : A → A → Prop) l x :
  ForallOrdPairs R l → Forall (λ y, R y x) l → ForallOrdPairs R (l ++ [x]).
Proof.
  intros Hl Hx. induction Hl as [|y l Hy Hl IH]; simpl.
  - constructor; [constructor|constructor].
  - apply Forall_cons in Hx as [Hyx Hx]. constructor; [|by apply IH].
    apply Forall_app. split; [done|]. by repeat constructor.
Qed.

Lemma index_of_kind k m : link_section_index_from_kind k = Some m → section_kinds !! m = Some k.
Proof. by destruct k; intros [= <-]. Qed.

Lemma virtual_size_nonneg fallback m l ps : section_layout fallback m l ps → (0 ≤ ls_virtual_size l)%Z.
Proof.
  intros [_ _ _ Hsize Hv _]. destruct (is_bss (ls_kind l)); [apply Hv|]. rewrite Hv, Hsize. lia.
Qed.

(** A merged section that grew, with a new piece after all others. *)
Lemma section_layout_extend fallback m l l' ps p :
  section_layout fallback m l ps →
  ls_kind l' = ls_kind l → (∃ more, ls_data l' = ls_data l ++ more) →
  ls_size l' = Z.of_nat (length (ls_data l')) → (ls_size l' ≤ ls_data_capacity l' < 2 ^ 64)%Z →
  (if is_bss (ls_kind l) then ls_data l' = [] ∧ (0 ≤ ls_virtual_size l')%Z
   else ls_virtual_size l' = ls_size l') →
  (ls_virtual_size l ≤ ls_virtual_size l')%Z → piece_in m p = true →
  (ls_virtual_size l ≤ pl_offset p.2)%Z → piece_ok fallback l' p →
  section_layout fallback m l' (ps ++ [p]).
Proof.
  intros [Hk Hp Hd Hs Hv Hc] Hk' Hdata Hs' Hc' Hv' Hge Hin Hoff Hok.
  split; [by rewrite Hk'|..|done|by rewrite Hk'|done].
  - rewrite filter_snoc, Hin. apply Forall_app. split; [|by apply Forall_singleton].
    eapply Forall_impl; [exact Hp|]. intros q Hq. by eapply piece_ok_grow.
  - rewrite filter_snoc, Hin. apply ForallOrdPairs_snoc; [done|].
    eapply Forall_impl; [exact Hp|]. intros q Hq. unfold before. pose proof (po_high _ _ _ Hq). lia.
Qed.

Lemma section_layout_other fallback m l ps p :
  section_layout fallback m l ps → piece_in m p = false → section_layout fallback m l (ps ++ [p]).
Proof.
  intros [Hk Hp Hd Hs Hv Hc] Hin. split; [done|..|done|done|done]; by rewrite filter_snoc, Hin, app_nil_r.
Qed.

(** Projections of the records just built. *)
Ltac project :=
  cbn [ls_kind ls_data ls_data_capacity ls_size ls_virtual_size ls_alignment ls_virtual_address
       ls_contributions raise_alignment add_contribution extend_bss place_section pl_index pl_offset pl_size
       pl_alignment fst snd mbind outcome_bind] in *.

Section merge.
Variable fallback : Z.
Hypothesis Hfallback : pow2 fallback.

Definition within (ls : list LinkedSection) (used : Z) : Prop :=
  ∀ m l, ls !! m = Some l → (ls_virtual_size l ≤ used)%Z.

(** The merged section of a mergeable section after [merge_section]. *)
Lemma merged_section_extend m l ps s size :
  section_layout fallback m l ps → link_section_index_from_kind (sec_kind s) = Some m →
  mergeable s → (0 ≤ size)%Z →
  let alignment := link_section_alignment s fallback in
  let start := linker_align_up (ls_virtual_size l) alignment in
  (ls_virtual_size l + alignment + size_of_raw_data s + size < 2 ^ 63)%Z →
  ∃ l', (match sec_kind s with
         | COFF_SECTION_KIND_BSS => Done (extend_bss (raise_alignment l alignment) start size)
         | _ => append_raw_data (raise_alignment l alignment) start s
         end) = Done l' ∧
    (∀ c, section_layout fallback m (add_contribution l' c)
       (ps ++ [(s, mkPlacement (Some m) start size alignment)])) ∧
    (ls_virtual_size l' ≤ ls_virtual_size l + alignment + size_of_raw_data s + size)%Z.
Proof.
  intros Hl Hm Hs Hsize alignment start Hroom.
  pose proof (section_alignment_pow2 s fallback Hfallback) as Ha. fold alignment in Ha.
  pose proof (pow2_pos _ Ha). pose proof (virtual_size_nonneg _ _ _ _ Hl) as Hvs.
  pose proof Hs as [Hraw Hsmall].
  destruct (align_up_pow2 (ls_virtual_size l) alignment Ha Hvs ltac:(lia)) as [Hstart Hdiv].
  fold start in Hstart, Hdiv.
  pose proof Hl as [Hk _ _ Hlsize Hlv Hlc].
  assert (ls_kind l = sec_kind s) as Hkind.
  { apply index_of_kind in Hm. congruence. }
  assert (piece_in m (s, mkPlacement (Some m) start size alignment) = true) as Hin by apply Nat.eqb_refl.
  destruct (is_bss (sec_kind s)) eqn:Hbss.
  - assert (sec_kind s = COFF_SECTION_KIND_BSS) as Hb by (by destruct (sec_kind s)). rewrite Hb.
    eexists. split; [done|]. unfold extend_bss. rewrite wrap_u_id by lia. project.
    rewrite Hkind, Hbss in Hlv. destruct Hlv as [Hdata Hv].
    split; [|destruct (Z.ltb_spec (ls_virtual_size l) (start + size)); lia]. intros c.
    eapply section_layout_extend; [exact Hl|..]; project; try done; try lia.
    + exists []. by rewrite app_nil_r.
    + rewrite Hkind, Hbss. split; [done|]. destruct (Z.ltb_spec (ls_virtual_size l) (start + size)); lia.
    + destruct (Z.ltb_spec (ls_virtual_size l) (start + size)); lia.
    + split; project; [done|done|lia| |by rewrite Hbss].
      unfold extent. project. rewrite Hbss. destruct (Z.ltb_spec (ls_virtual_size l) (start + size)); lia.
  - rewrite Hkind, Hbss in Hlv.
    destruct (append_raw_data_spec (raise_alignment l alignment) start s) as (c & Happ & Hc);
      project; [done|done|lia|done|lia|].
    eexists. split; [destruct (sec_kind s); (exact Happ || discriminate Hbss)|]. project. split; [|lia]. intros con.
    eapply section_layout_extend; [exact Hl|..]; project; try done; try lia.
    + by eexists.
    + unfold gap. rewrite !length_app, length_replicate. project. lia.
    + rewrite Hkind, Hbss. lia.
    + split; project; [done|done|lia|unfold extent; project; rewrite Hbss; lia|]. intros _.
      assert (length (ls_data l ++ gap (raise_alignment l alignment) start) = Z.to_nat start) as Hlen.
      { unfold gap. rewrite length_app, length_replicate. project. lia. }
      rewrite app_assoc, drop_app_ge, Hlen, Nat.sub_diag, drop_0 by lia. by apply take_ge.
Qed.

Lemma merge_section_layout oi o idx s ls ps used :
  layout_ok fallback ls ps → within ls used → mergeable s → (0 ≤ link_estimate_section_size o idx)%Z →
  (used + demand fallback o idx s < 2 ^ 63)%Z →
  ∃ ls' pl, merge_section oi o fallback idx s ls = Done (ls', pl) ∧
    layout_ok fallback ls' (ps ++ [(s, pl)]) ∧ within ls' (used + demand fallback o idx s).
Proof.
  intros (Hlen & Hls & Hps) Hin Hs Hest Hroom. unfold merge_section, demand in *.
  pose proof (pow2_pos _ (section_alignment_pow2 s fallback Hfallback)) as Ha.
  pose proof Hs as [Hraw Hsmall].
  destruct (link_section_index_from_kind (sec_kind s)) as [m|] eqn:Hm.
  - destruct (lookup_lt_is_Some_2 ls m) as [l Hl].
    { rewrite Hlen. eapply lookup_lt_Some, index_of_kind, Hm. }
    rewrite Hl. run_outcome. pose proof (Hin _ _ Hl).
    destruct (merged_section_extend m l ps s (link_estimate_section_size o idx) (Hls _ _ Hl) Hm Hs Hest)
      as (l' & Hstep & Hlayout & Hgrow); [lia|].
    change (ls_virtual_size (raise_alignment l (link_section_alignment s fallback))) with (ls_virtual_size l).
    rewrite Hstep. run_outcome.
    eexists _, _. split; [done|]. split.
    + split; [by rewrite length_insert|]. split.
      * intros m' l'' [(-> & <- & _)|[Hne Hl'']]%list_lookup_insert_Some; [apply Hlayout|].
        apply section_layout_other; [by apply Hls|]. unfold piece_in. simpl. by apply Nat.eqb_neq.
      * apply Forall_app. split; [done|]. by apply Forall_singleton.
    + intros m' l'' [(-> & <- & _)|[Hne Hl'']]%list_lookup_insert_Some; simpl; [lia|].
      pose proof (Hin _ _ Hl''). lia.
  - eexists _, _. split; [done|]. split.
    + split; [done|]. split; [intros m l Hl; by apply section_layout_other; [apply Hls|]|].
      apply Forall_app. split; [done|]. by apply Forall_singleton.
    + intros m l Hl. pose proof (Hin _ _ Hl). lia.
Qed.

Fixpoint object_demand (o : CoffObject) (idx : nat) (ss : list CoffSection) : Z :=
  match ss with
  | [] => 0
  | s :: ss' => demand fallback o idx s + object_demand o (S idx) ss'
  end.

Fixpoint total_demand (os : list CoffObject) : Z :=
  match os with
  | [] => 0
  | o :: os' => object_demand o 0 (sections o) + total_demand os'
  end.

Lemma object_demand_nonneg o idx ss :
  Forall mergeable ss → (∀ i, 0 ≤ link_estimate_section_size o i)%Z → (0 ≤ object_demand o idx ss)%Z.
Proof.
  intros Hs He. revert idx. induction Hs as [|s ss [Hraw _] _ IH]; intros idx; simpl; [done|].
  specialize (IH (S idx)). unfold demand. pose proof (He idx).
  pose proof (pow2_pos _ (section_alignment_pow2 s fallback Hfallback)). lia.
Qed.

Lemma merge_object_layout oi o ss idx ls ps used :
  layout_ok fallback ls ps → within ls used → Forall mergeable ss →
  (∀ i, 0 ≤ link_estimate_section_size o i)%Z → (used + object_demand o idx ss < 2 ^ 63)%Z →
  ∃ ls' pls, merge_object_sections oi o fallback idx ss ls = Done (ls', pls) ∧
    length pls = length ss ∧ layout_ok fallback ls' (ps ++ zip ss pls) ∧
    within ls' (used + object_demand o idx ss).
Proof.
  intros Hlay Hin Hs He. revert idx ls ps used Hlay Hin.
  induction Hs as [|s ss Hs Hss IH]; intros idx ls ps used Hlay Hin Hroom; cbn [merge_object_sections object_demand] in *.
  { eexists _, _. split; [done|]. simpl. rewrite app_nil_r, Z.add_0_r. done. }
  pose proof (object_demand_nonneg o (S idx) ss Hss He).
  destruct (merge_section_layout oi o idx s ls ps used) as (ls1 & pl & -> & Hlay1 & Hin1); [done..|lia|].
  run_outcome.
  destruct (IH (S idx) ls1 _ _ Hlay1 Hin1) as (ls2 & pls & -> & Hlen & Hlay2 & Hin2); [lia|].
  run_outcome. eexists _, _. split; [done|]. split; [simpl; by rewrite Hlen|].
  rewrite <- app_assoc in Hlay2. split; [exact Hlay2|]. intros m l Hl. pose proof (Hin2 _ _ Hl). lia.
Qed.

(** What merging asks of an object. *)
Definition linkable (o : CoffObject) : Prop :=
  Forall mergeable (sections o) ∧ ∀ i, (0 ≤ link_estimate_section_size o i)%Z.

Lemma total_demand_nonneg os : Forall linkable os → (0 ≤ total_demand os)%Z.
Proof.
  intros Hos. induction Hos as [|o os [Hs He] _ IH]; simpl; [done|].
  pose proof (object_demand_nonneg o 0 _ Hs He). lia.
Qed.

(** The sections of all objects with their placements. *)
Definition all_pieces (os : list CoffObject) (pls : list (list placement)) : list piece :=
  concat (zip_with (λ o ps, zip (sections o) ps) os pls).

Lemma merge_objects_layout os oi ls ps used :
  layout_ok fallback ls ps → within ls used → Forall linkable os →
  (used + total_demand os < 2 ^ 63)%Z →
  ∃ ls' pls, link_resolution_merge_sections fallback oi os ls = Done (ls', pls) ∧
    Forall2 (λ o p, length p = length (sections o)) os pls ∧
    layout_ok fallback ls' (ps ++ all_pieces os pls) ∧ within ls' (used + total_demand os).
Proof.
  intros Hlay Hin Hos. revert oi ls ps used Hlay Hin.
  induction Hos as [|o os [Hs He] Hos IH]; intros oi ls ps used Hlay Hin Hroom;
    cbn [link_resolution_merge_sections total_demand] in *.
  { eexists _, _. split; [done|]. unfold all_pieces. simpl. rewrite app_nil_r, Z.add_0_r. by split. }
  pose proof (total_demand_nonneg os Hos).
  destruct (merge_object_layout oi o (sections o) 0 ls ps used) as (ls1 & pls & -> & Hlen & Hlay1 & Hin1);
    [done..|lia|]. run_outcome.
  destruct (IH (S oi) ls1 _ _ Hlay1 Hin1) as (ls2 & plss & -> & Hlens & Hlay2 & Hin2); [lia|].
  run_outcome. eexists _, _. split; [done|]. split; [by constructor|].
  rewrite <- app_assoc in Hlay2. split; [exact Hlay2|]. intros m l Hl. pose proof (Hin2 _ _ Hl). lia.
Qed.

Lemma init_layout : layout_ok fallback link_resolution_init_sections [] ∧ within link_resolution_init_sections 0.
Proof.
  split; [|by intros [|[|[|[|[|[|m]]]]]] l [= <-]]. split; [done|]. split; [|done].
  intros m l. unfold link_resolution_init_sections. rewrite list_lookup_fmap.
  intros (k & Hk & ->)%fmap_Some. split; simpl; [done|done|constructor|done|by destruct (is_bss k)|lia].
Qed.
End merge.

Lemma object_ok_linkable file o : object_ok file o → linkable o.
Proof.
  intros [_ Hs _ Hy _]. split.
  - eapply Forall_impl; [exact Hs|]. intros s [_ _ Hlen Hr _ _]. split; [done|lia].
  - intros i. unfold link_estimate_section_size. destruct (sections o !! i) as [s|] eqn:Hi; [|done].
    destruct (List.find _ _) as [y|] eqn:Hf.
    + apply find_some in Hf as [Hf _]. apply list_elem_of_In in Hf.
      pose proof (yo_ranges _ _ Hy) as Hr. rewrite Forall_forall in Hr. specialize (Hr y Hf). simpl in Hr. lia.
    + pose proof (so_sizes _ _ (Forall_lookup_1 _ _ _ _ Hs Hi)).
      pose proof (symbols_extent_ge i (symbols o) (Z.max (size_of_raw_data s) (virtual_size s))).
      destruct (sec_kind s); lia.
Qed.

(** C15. Merging the sections of objects the reader accepted, whose sizes and
    alignments sum to less than 2^63, always succeeds without leaving the allocated
    buffers: every section is placed in the merged section of its kind at a multiple
    of its alignment, sections placed in the same merged section do not overlap and
    lie inside it, and the merged section holds their bytes. *)
Theorem merge_sections_correct fallback os :
  pow2 fallback → Forall (λ o, ∃ file, object_ok file o) os → (total_demand fallback os < 2 ^ 63)%Z →
  ∃ ls pls, link_resolution_merge_sections fallback 0 os link_resolution_init_sections = Done (ls, pls) ∧
    Forall2 (λ o p, length p = length (sections o)) os pls ∧ layout_ok fallback ls (all_pieces os pls).
Proof.
  intros Hf Hos Hroom. destruct (init_layout fallback) as [Hlay Hin].
  destruct (merge_objects_layout fallback Hf os 0 _ [] 0 Hlay Hin) as (ls & pls & Hm & Hlen & Hok & _);
    [|lia|by exists ls, pls].
  eapply Forall_impl; [exact Hos|]. intros o [file Ho]. by eapply object_ok_linkable.
Qed.
