(* ===== verification/ResolveFacts.v ===== *)
(** * Correctness of symbol resolution

    The global symbol table holds every external name once, defined exactly when one
    object defines it and then at that definition's place; resolution fails exactly
    when a symbol lies in no section or a name is defined twice. *)

From S2P Require Import Prelude LinkBase Coff Link.

(** ** The table a list of object symbols should give *)

Definition names (n : string) (y : LinkedObjectSymbol) : bool :=
  los_is_external y && match los_name y with Some k => String.eqb k n | None => false end.

(** The external definitions of a name. *)
Definition definitions (ys : list LinkedObjectSymbol) (n : string) : list LinkedObjectSymbol :=
  List.filter (λ y, names n y && los_is_defined y) ys.

Definition defined_by (g : LinkedSymbol) (y : LinkedObjectSymbol) : Prop :=
  sy_defining_object_index g = Some (los_object_index y) ∧ sy_defining_symbol_index g = los_symbol_index y ∧
  sy_merged_section_index g = los_merged_section_index y ∧ sy_merged_offset g = los_merged_offset y.

Definition symbol_ok (ys : list LinkedObjectSymbol) (g : LinkedSymbol) : Prop :=
  sy_is_external g = true ∧
  match definitions ys (sy_name g) with
  | [] => sy_is_defined g = false
  | [y] => sy_is_defined g = true ∧ defined_by g y
  | _ => False
  end.

Record table_ok (gs : list LinkedSymbol) (ys : list LinkedObjectSymbol) : Prop := {
  tb_names : NoDup (sy_name <$> gs);
  tb_complete : ∀ n, n ∈ sy_name <$> gs ↔ existsb (names n) ys = true;
  tb_symbols : Forall (symbol_ok ys) gs }.

(** ** Finding a name *)

Lemma find_symbol_from_spec gs k n :
  match find_symbol_from gs k n with
  | Some i => ∃ j g, i = k + j ∧ gs !! j = Some g ∧ sy_name g = n
  | None => n ∉ sy_name <$> gs
  end.
Proof.
  revert k. induction gs as [|g gs IH]; intros k; simpl; [by apply not_elem_of_nil|].
  unfold has_name. destruct (String.eqb_spec (sy_name g) n) as [He|Hne].
  - exists 0, g. split; [lia|done].
  - specialize (IH (S k)). destruct (find_symbol_from gs (S k) n) as [i|].
    + destruct IH as (j & g' & -> & Hg & Hn). exists (S j), g'. split; [lia|done].
    + by apply not_elem_of_cons.
Qed.

Lemma find_symbol_spec gs n :
  match link_resolution_find_symbol gs n with
  | Some i => ∃ g, gs !! i = Some g ∧ sy_name g = n
  | None => n ∉ sy_name <$> gs
  end.
Proof.
  pose proof (find_symbol_from_spec gs 0 n) as H. unfold link_resolution_find_symbol.
  destruct (find_symbol_from gs 0 n) as [i|]; [|done]. destruct H as (j & g & -> & H). by exists g.
Qed.

(** ** Recording one symbol *)

Lemma definitions_snoc ys y n :
  definitions (ys ++ [y]) n = definitions ys n ++ if names n y && los_is_defined y then [y] else [].
Proof. unfold definitions. rewrite List.filter_app. simpl. by destruct (names n y && los_is_defined y). Qed.

Lemma definitions_skip ys y n : names n y && los_is_defined y = false →
  definitions (ys ++ [y]) n = definitions ys n.
Proof. intros H. by rewrite definitions_snoc, H, app_nil_r. Qed.

Lemma names_other n m y : los_name y = Some m → m ≠ n → names n y = false.
Proof.
  intros Hy Hne. unfold names. rewrite Hy. apply andb_false_iff. right. by apply String.eqb_neq.
Qed.

Lemma definitions_absent ys n : existsb (names n) ys = false → definitions ys n = [].
Proof.
  induction ys as [|y ys IH]; simpl; [done|]. intros [Hy Hys]%orb_false_iff.
  unfold definitions in *. simpl. by rewrite Hy, IH.
Qed.

(** A symbol that is not external leaves the table right. *)
Lemma table_skip gs ys y :
  (∀ n, names n y = false) → table_ok gs ys → table_ok gs (ys ++ [y]).
Proof.
  intros Hn [Hnd Hc Hs]. split; [done| |].
  - intros n. rewrite Hc, existsb_app. simpl. by rewrite Hn, !orb_false_r.
  - eapply Forall_impl; [exact Hs|]. intros g [He Hd]. split; [done|].
    rewrite definitions_skip; [done|]. by rewrite Hn.
Qed.

(** The table with the name present, and where. *)
Lemma ensure_symbol gs ys n :
  table_ok gs ys →
  ∃ gs' i g, (match link_resolution_find_symbol gs n with
              | Some i => (gs, i)
              | None => (gs ++ [fresh_symbol n], length gs)
              end) = (gs', i) ∧
    gs' !! i = Some g ∧ sy_name g = n ∧ NoDup (sy_name <$> gs') ∧
    (∀ m, m ∈ sy_name <$> gs' ↔ m = n ∨ existsb (names m) ys = true) ∧
    symbol_ok ys (set_external g) ∧ ∀ j h, gs' !! j = Some h → j ≠ i → symbol_ok ys h.
Proof.
  intros [Hnd Hc Hs]. pose proof (find_symbol_spec gs n) as Hf.
  destruct (link_resolution_find_symbol gs n) as [i|].
  - destruct Hf as (g & Hg & Hn). exists gs, i, g. split_and!; [done..| | |].
    + intros m. rewrite <- Hc. split; [by right|]. intros [->|]; [|done].
      apply list_elem_of_fmap. exists g. split; [done|]. by eapply list_elem_of_lookup_2.
    + destruct (Forall_lookup_1 _ _ _ _ Hs Hg) as [He Hd]. by split.
    + intros j h Hh _. by eapply Forall_lookup_1.
  - exists (gs ++ [fresh_symbol n]), (length gs), (fresh_symbol n).
    split_and!; [done|by rewrite list_lookup_middle|done|..].
    + rewrite fmap_app. apply NoDup_app. split_and!; [done| |apply NoDup_singleton].
      intros m Hm ->%list_elem_of_singleton. by apply Hf.
    + intros m. rewrite fmap_app, elem_of_app, Hc. simpl. rewrite list_elem_of_singleton. tauto.
    + split; [done|]. simpl. rewrite definitions_absent; [done|].
      destruct (existsb (names n) ys) eqn:E; [|done]. apply Hc in E. done.
    + intros j h Hh Hne. apply lookup_snoc_Some in Hh as [[Hj Hh]|[-> _]]; [|done].
      by eapply Forall_lookup_1.
Qed.

Lemma names_self y n : los_is_external y = true → los_name y = Some n → names n y = true.
Proof. intros He Hn. unfold names. by rewrite He, Hn, String.eqb_refl. Qed.

Lemma lookup_names_unique gs i j (g h : LinkedSymbol) :
  NoDup (sy_name <$> gs) → gs !! i = Some g → gs !! j = Some h → sy_name g = sy_name h → i = j.
Proof.
  intros Hnd Hg Hh He. eapply NoDup_lookup; [exact Hnd| |].
  - rewrite list_lookup_fmap, Hg. done.
  - rewrite list_lookup_fmap, Hh. simpl. by rewrite He.
Qed.

Lemma alter_names (f : LinkedSymbol → LinkedSymbol) i (gs : list LinkedSymbol) :
  (∀ g, sy_name (f g) = sy_name g) → sy_name <$> alter f i gs = sy_name <$> gs.
Proof.
  intros Hf. apply list_eq. intros j. rewrite !list_lookup_fmap.
  destruct (decide (i = j)) as [->|]; [|by rewrite list_lookup_alter_ne].
  rewrite list_lookup_alter_eq. destruct (gs !! j); simpl; [by rewrite Hf|done].
Qed.

Lemma record_global_symbol_spec gs ys y n :
  table_ok gs ys → los_is_external y = true → los_name y = Some n →
  match link_resolution_record_global_symbol gs y n with
  | Done gs' => table_ok gs' (ys ++ [y])
  | Failed _ => 2 ≤ length (definitions (ys ++ [y]) n)
  | Undefined => False
  end.
Proof.
  intros Hok He Hn. unfold link_resolution_record_global_symbol.
  destruct (ensure_symbol gs ys n Hok) as (gs' & i & g & -> & Hg & Hgn & Hnd & Hc & Hgo & Hs).
  assert (∀ m, m ∈ sy_name <$> gs' ↔ existsb (names m) (ys ++ [y]) = true) as Hc'.
  { intros m. rewrite Hc, existsb_app. simpl. rewrite orb_false_r, orb_true_iff.
    destruct (decide (m = n)) as [->|Hne]; [rewrite names_self by done; tauto|].
    rewrite (names_other m n y) by congruence. split; [by intros [?|?]; [|left]|by intros [?|?]; [right|]]. }
  assert (∀ j h, gs' !! j = Some h → j ≠ i → symbol_ok (ys ++ [y]) h) as Hothers.
  { intros j h Hh Hne. destruct (Hs j h Hh Hne) as [Hext Hd]. split; [done|].
    rewrite definitions_skip; [done|]. rewrite (names_other _ n); [done|done|].
    intros ->. apply Hne. eapply lookup_names_unique; [exact Hnd|exact Hh|exact Hg|congruence]. }
  assert (∀ f, (∀ g, sy_name (f g) = sy_name g) → symbol_ok (ys ++ [y]) (f g) →
    table_ok (alter f i gs') (ys ++ [y])) as Htable.
  { intros f Hf Hfg. split; [by rewrite alter_names|by intros m; rewrite alter_names|].
    apply Forall_lookup_2. intros j h Hh. destruct (decide (i = j)) as [<-|Hne].
    - rewrite list_lookup_alter_eq, Hg in Hh. by simplify_eq/=.
    - rewrite list_lookup_alter_ne in Hh by done. by eapply Hothers; [|]. }
  destruct Hgo as [_ Hd]. simpl in Hd. rewrite Hgn in Hd.
  pose proof (definitions_snoc ys y n) as Hsnoc. rewrite names_self in Hsnoc by done. simpl in Hsnoc.
  destruct (los_is_defined y) eqn:Hdef; simpl.
  - rewrite list_lookup_alter_eq, Hg. simpl. destruct (sy_is_defined g) eqn:Hgd; simpl.
    + rewrite Hsnoc, length_app. destruct (definitions ys n); simpl; [done|lia].
    + rewrite list_alter_alter_eq.
      apply Htable; [done|]. split; [done|]. simpl. rewrite Hgn, Hsnoc.
      destruct (definitions ys n) as [|? []]; simpl; [by split|by destruct Hd|done].
  - apply Htable; [done|]. split; [done|]. simpl. rewrite Hgn, Hsnoc, app_nil_r.
    destruct (definitions ys n) as [|? []]; done.
Qed.

(** ** Whole objects *)

(** The symbols of an object and of all objects, when they all lie in sections. *)
Fixpoint resolved_symbols (oi : nat) (pls : list placement) (idx : nat) (ys : list CoffSymbol)
    : option (list LinkedObjectSymbol) :=
  match ys with
  | [] => Some []
  | y :: ys' =>
      match resolve_object_symbol oi pls idx y with
      | Done r => rs ← resolved_symbols oi pls (S idx) ys'; Some (r :: rs)
      | _ => None
      end
  end.

Fixpoint all_symbols (oi : nat) (os : list (CoffObject * list placement))
    : option (list (list LinkedObjectSymbol)) :=
  match os with
  | [] => Some []
  | (o, pls) :: os' =>
      rs ← resolved_symbols oi pls 0 (symbols o);
      rss ← all_symbols (S oi) os';
      Some (rs :: rss)
  end.

Definition duplicated (ys : list LinkedObjectSymbol) : Prop := ∃ n, 2 ≤ length (definitions ys n).

Lemma duplicated_app ys zs : duplicated ys → duplicated (ys ++ zs).
Proof.
  intros [n Hn]. exists n. unfold definitions in *. rewrite List.filter_app, length_app. lia.
Qed.

Lemma resolve_object_symbol_defined oi pls idx y :
  match resolve_object_symbol oi pls idx y with
  | Done r => los_name r = sym_name y ∧ los_object_index r = oi
  | Failed _ => True
  | Undefined => False
  end.
Proof.
  unfold resolve_object_symbol. destruct (is_auxiliary y); [done|].
  destruct (0 <? section_number y)%Z; [|done]. destruct (pls !! _) as [pl|]; [|done].
  by destruct (pl_index pl).
Qed.

Lemma names_none y n : los_is_external y = false ∨ los_name y = None → names n y = false.
Proof. unfold names. intros [->| ->]; [done|apply andb_false_r]. Qed.

(** Recording a symbol, or not, extends the table rightly or finds a duplicate. *)
Lemma record_symbol_spec gs ys r :
  table_ok gs ys →
  match (match los_is_external r, los_name r with
         | true, Some name => link_resolution_record_global_symbol gs r name
         | _, _ => Done gs
         end) with
  | Done gs' => table_ok gs' (ys ++ [r])
  | Failed _ => duplicated (ys ++ [r])
  | Undefined => False
  end.
Proof.
  intros Hok. destruct (los_is_external r) eqn:He.
  - destruct (los_name r) as [n|] eqn:Hn.
    + pose proof (record_global_symbol_spec gs ys r n Hok He Hn) as H.
      destruct (link_resolution_record_global_symbol gs r n); [done| |done]. by exists n.
    + apply table_skip; [|done]. intros m. apply names_none. by right.
  - apply table_skip; [|done]. intros m. apply names_none. by left.
Qed.

Lemma build_object_symbols_spec oi pls idx ys gs done_ :
  table_ok gs done_ →
  match build_object_symbols oi pls idx ys gs with
  | Done (gs', rs) => resolved_symbols oi pls idx ys = Some rs ∧ table_ok gs' (done_ ++ rs)
  | Failed _ => ∀ rs, resolved_symbols oi pls idx ys = Some rs → duplicated (done_ ++ rs)
  | Undefined => False
  end.
Proof.
  revert idx gs done_. induction ys as [|y ys IH]; intros idx gs done_ Hok.
  { simpl. by rewrite app_nil_r. }
  cbn [build_object_symbols resolved_symbols].
  pose proof (resolve_object_symbol_defined oi pls idx y) as Hr.
  destruct (resolve_object_symbol oi pls idx y) as [r|e|]; [|done|done]. run_outcome.
  pose proof (record_symbol_spec gs done_ r Hok) as Hrec.
  destruct (match los_is_external r with true => _ | false => _ end) as [gs1|e|]; [| |done].
  - run_outcome. specialize (IH (S idx) gs1 _ Hrec).
    destruct (build_object_symbols oi pls (S idx) ys gs1) as [[gs2 rs]|e|]; [| |done].
    + destruct IH as [-> IH]. simpl. split; [done|]. by rewrite <- app_assoc in IH.
    + simpl. intros rs (rs' & Hrs & [= <-])%bind_Some. specialize (IH rs' Hrs). by rewrite <- app_assoc in IH.
  - run_outcome. intros rs (rs' & Hrs & [= <-])%bind_Some.
    apply (duplicated_app _ rs') in Hrec. by rewrite <- app_assoc in Hrec.
Qed.

Lemma build_symbols_spec oi os gs done_ :
  table_ok gs done_ →
  match link_resolution_build_symbols oi os gs with
  | Done (gs', inputs) => ∃ rss, all_symbols oi os = Some rss ∧
      inputs = zip_with (λ o rs, mkInput o.1 o.2 rs) os rss ∧ length rss = length os ∧
      table_ok gs' (done_ ++ concat rss)
  | Failed _ => ∀ rss, all_symbols oi os = Some rss → duplicated (done_ ++ concat rss)
  | Undefined => False
  end.
Proof.
  revert oi gs done_. induction os as [|[o pls] os IH]; intros oi gs done_ Hok.
  { simpl. exists []. split_and!; try done. by rewrite app_nil_r. }
  cbn [link_resolution_build_symbols all_symbols].
  pose proof (build_object_symbols_spec oi pls 0 (symbols o) gs done_ Hok) as Ho.
  destruct (build_object_symbols oi pls 0 (symbols o) gs) as [[gs1 rs]|e|]; [| |done].
  - destruct Ho as [Hrs Hok1]. rewrite Hrs. run_outcome.
    specialize (IH (S oi) gs1 _ Hok1).
    destruct (link_resolution_build_symbols (S oi) os gs1) as [[gs2 inputs]|e|]; [| |done].
    + destruct IH as (rss & -> & -> & Hlen & Hok2). simpl. exists (rs :: rss).
      split_and!; [done..|by simpl; rewrite Hlen|]. by rewrite <- app_assoc in Hok2.
    + simpl. intros rss (rss' & Hrss & [= <-])%bind_Some. specialize (IH _ Hrss).
      by rewrite <- app_assoc in IH.
  - run_outcome. intros rss (rs & Hrs & (rss' & _ & [= <-])%bind_Some)%bind_Some.
    specialize (Ho _ Hrs). simpl. rewrite app_assoc. by apply duplicated_app.
Qed.

Lemma table_not_duplicated gs ys : table_ok gs ys → ¬ duplicated ys.
Proof.
  intros [Hnd Hc Hs] [n Hn].
  assert (existsb (names n) ys = true) as Hex.
  { destruct (existsb (names n) ys) eqn:E; [done|]. rewrite definitions_absent in Hn by done. simpl in Hn. lia. }
  apply Hc, list_elem_of_fmap in Hex as (g & -> & Hg). rewrite Forall_forall in Hs.
  destruct (Hs g Hg) as [_ Hd]. destruct (definitions ys (sy_name g)) as [|? [|]]; simpl in *; lia || done.
Qed.

(** C31. Symbol resolution succeeds exactly when every symbol lies in a section of its
    object and no external name has two definitions; the table then holds every
    external name once, defined exactly when an object defines it and at the place
    of that definition. *)
Theorem build_symbols_correct os :
  match link_resolution_build_symbols 0 os [] with
  | Done (gs, inputs) => ∃ rss, all_symbols 0 os = Some rss ∧ ¬ duplicated (concat rss) ∧
      inputs = zip_with (λ o rs, mkInput o.1 o.2 rs) os rss ∧ table_ok gs (concat rss)
  | Failed _ => ∀ rss, all_symbols 0 os = Some rss → duplicated (concat rss)
  | Undefined => False
  end.
Proof.
  assert (table_ok [] []) as Hnil.
  { split; [constructor| |done]. intros n. simpl. split; [by intros ?%not_elem_of_nil|done]. }
  pose proof (build_symbols_spec 0 os [] [] Hnil) as H.
  destruct (link_resolution_build_symbols 0 os []) as [[gs inputs]|e|]; [|done|done].
  destruct H as (rss & ? & ? & _ & Hok). exists rss. split_and!; try done. by eapply table_not_duplicated.
Qed.
