(* ===== verification/RelocationFacts.v ===== *)
(** * Correctness of relocation

    After relocation every field holds the address its relocation asks for, computed
    without wrap-around from the addend stored in the object, and every other byte of
    the merged sections is as before. *)

From S2P Require Import Prelude LinkBase Coff Link Relocation.

(** ** One relocation *)

(** A merged section in a range of addresses where no sum wraps. *)
Record section_placed (l : LinkedSection) : Prop := {
  sp_size : ls_size l = Z.of_nat (length (ls_data l));
  sp_address : (0 ≤ ls_virtual_address l)%Z;
  sp_room : (ls_virtual_address l + ls_size l < 2 ^ 62)%Z }.

(** The number stored at [offset], as the relocation type reads it. *)
Definition stored (type : Z) (data : list byte) (offset : nat) : Z :=
  if (type =? COFF_RELOC_AMD64_ADDR64)%Z then s64 (field 8 data offset) else s32 (field 4 data offset).

(** What the field must denote for a target, a place and an addend. *)
Definition relocated_address (image_base type : Z) (t : RelocationTarget) (place addend : Z) : Z :=
  if (type =? COFF_RELOC_AMD64_REL32)%Z then (t_virtual_address t + addend - (place + 4))%Z
  else if (type =? COFF_RELOC_AMD64_ADDR64)%Z then (t_virtual_address t + addend)%Z
  else if (type =? COFF_RELOC_AMD64_ADDR32NB)%Z then
    ((if negb (image_base =? 0)%Z && (image_base <=? t_virtual_address t)%Z
      then t_virtual_address t - image_base else t_virtual_address t) + addend)%Z
  else (t_merged_offset t + addend)%Z.

(** How the field is read back: relative distances are signed. *)
Definition denoted (type : Z) (data : list byte) (offset : nat) : Z :=
  if (type =? COFF_RELOC_AMD64_REL32)%Z then s32 (field 4 data offset)
  else if (type =? COFF_RELOC_AMD64_ADDR64)%Z then field 8 data offset
  else field 4 data offset.

Definition type_width (type : Z) : nat := if (type =? COFF_RELOC_AMD64_ADDR64)%Z then 8 else 4.

Lemma add_s64_Done a b c : add_s64 a b = Done c → c = (a + b)%Z ∧ in_s64 c.
Proof.
  unfold add_s64, in_s64. destruct (_ && _) eqn:E; [|done]. intros [= <-]. split; [done|].
  apply andb_true_iff in E as [H1%Z.leb_le H2%Z.ltb_lt]. lia.
Qed.

Lemma s64_small z : (0 ≤ z < 2 ^ 63)%Z → s64 z = z.
Proof. intros. apply s64_in. unfold in_s64. lia. Qed.

Record target_ok (t : RelocationTarget) : Prop := {
  tg_address : (0 ≤ t_virtual_address t < 2 ^ 62)%Z;
  tg_offset : (0 ≤ t_merged_offset t < 2 ^ 62)%Z }.

(** The value written, as the relocation means it. *)
Lemma relocation_value_Done base type t place addend v :
  target_ok t → (0 ≤ place < 2 ^ 62)%Z → (0 ≤ base < 2 ^ 64)%Z →
  relocation_width type ≠ None → relocation_value base type t place addend = Done v →
  let a := relocated_address base type t place addend in
  if (type =? COFF_RELOC_AMD64_REL32)%Z then v = u32 a ∧ (- 2 ^ 31 ≤ a < 2 ^ 31)%Z
  else if (type =? COFF_RELOC_AMD64_ADDR64)%Z then v = u64 a ∧ (0 ≤ a < 2 ^ 64)%Z
  else v = u32 a ∧ (0 ≤ a < 2 ^ 32)%Z.
Proof.
  intros [Ha Ho] Hp Hb Hw Hv. unfold relocation_value, relocated_address, UINT32_MAX, INT32_MIN, INT32_MAX in *.
  rewrite (wrap_u_id 64 (place + 4)), (s64_small (place + 4)), (s64_small (t_virtual_address t)),
    (s64_small (t_merged_offset t)) in Hv by lia.
  assert (∀ s, (0 ≤ s < 2 ^ 62)%Z → (w ← add_s64 s addend;
    if negb ((w <? 0)%Z || (2 ^ 32 - 1 <? u64 w)%Z) then Done (u32 w) else Failed (E_out_of_range type (t_name t)))
    = Done v → v = u32 (s + addend) ∧ (0 ≤ s + addend < 2 ^ 32)%Z) as Hunsigned.
  { intros s Hs (w & [-> Hr]%add_s64_Done & Hw')%bind_Done. unfold in_s64 in Hr.
    destruct (Z.ltb_spec (s + addend) 0); [done|]. rewrite wrap_u_id in Hw' by lia.
    destruct (Z.ltb_spec (2 ^ 32 - 1) (s + addend)); [done|]. simpl in Hw'. simplify_eq. lia. }
  destruct (Z.eqb_spec type COFF_RELOC_AMD64_REL32) as [->|].
  - apply bind_Done in Hv as (s & [-> Hr1]%add_s64_Done & Hv).
    apply bind_Done in Hv as (w & [-> Hr2]%add_s64_Done & Hv).
    destruct (Z.ltb_spec (t_virtual_address t + addend + - (place + 4)) (- 2 ^ 31)); [done|].
    destruct (Z.ltb_spec (2 ^ 31 - 1) (t_virtual_address t + addend + - (place + 4))); [done|].
    cbn [negb orb] in Hv. injection Hv as <-. split; [f_equal; lia|lia].
  - destruct (Z.eqb_spec type COFF_RELOC_AMD64_ADDR64) as [->|].
    + apply bind_Done in Hv as (s & [-> Hr1]%add_s64_Done & Hv).
      destruct (Z.ltb_spec (t_virtual_address t + addend) 0); [done|]. cbn [negb] in Hv.
      injection Hv as <-. unfold in_s64 in Hr1. split; [done|lia].
    + destruct (Z.eqb_spec type COFF_RELOC_AMD64_ADDR32NB); [|by apply Hunsigned].
      destruct (Z.eqb_spec base 0) as [->|]; [cbn [negb andb] in *; rewrite s64_small in Hv by lia; by apply Hunsigned|].
      destruct (Z.leb_spec base (t_virtual_address t)); cbn [negb andb] in *.
      * rewrite wrap_u_id, s64_small in Hv by lia. apply Hunsigned; [lia|done].
      * rewrite s64_small in Hv by lia. by apply Hunsigned.
Qed.

Lemma add_s64_small a b : (- 2 ^ 62 ≤ a < 2 ^ 62)%Z → (- 2 ^ 62 ≤ b < 2 ^ 62)%Z → add_s64 a b = Done (a + b)%Z.
Proof.
  intros Ha Hb. unfold add_s64. destruct (Z.leb_spec (- 2 ^ 63) (a + b)), (Z.ltb_spec (a + b) (2 ^ 63));
    simpl; (done || lia).
Qed.

(** Signed overflow needs a 64-bit addend. *)
Lemma relocation_value_Undefined base type t place addend :
  target_ok t → (0 ≤ place < 2 ^ 62)%Z → (0 ≤ base < 2 ^ 64)%Z →
  (type ≠ COFF_RELOC_AMD64_ADDR64 → - 2 ^ 31 ≤ addend < 2 ^ 31)%Z →
  relocation_value base type t place addend = Undefined →
  type = COFF_RELOC_AMD64_ADDR64 ∧ ¬ in_s64 (t_virtual_address t + addend).
Proof.
  intros [Ha Ho] Hp Hb Hadd. unfold relocation_value.
  rewrite (wrap_u_id 64 (place + 4)), (s64_small (place + 4)), (s64_small (t_virtual_address t)),
    (s64_small (t_merged_offset t)) by lia.
  destruct (Z.eqb_spec type COFF_RELOC_AMD64_REL32) as [->|Hrel].
  { specialize (Hadd ltac:(done)). rewrite add_s64_small by lia. run_outcome.
    unfold add_s64. destruct (_ && _) eqn:E; cbn [mbind outcome_bind]; [by case_match|].
    intros _. apply andb_false_iff in E as [E%Z.leb_gt|E%Z.ltb_ge]; lia. }
  destruct (Z.eqb_spec type COFF_RELOC_AMD64_ADDR64) as [->|Hne].
  { unfold add_s64, in_s64. destruct (_ && _) eqn:E; cbn [mbind outcome_bind]; [by case_match|].
    intros _. split; [done|]. apply andb_false_iff in E as [E%Z.leb_gt|E%Z.ltb_ge]; lia. }
  specialize (Hadd Hne). destruct (type =? COFF_RELOC_AMD64_ADDR32NB)%Z.
  - destruct (negb (base =? 0)%Z && _) eqn:E.
    + apply andb_true_iff in E as [_ E%Z.leb_le]. rewrite wrap_u_id, s64_small, add_s64_small by lia.
      run_outcome. by case_match.
    + rewrite s64_small, add_s64_small by lia. run_outcome. by case_match.
  - rewrite add_s64_small by lia. run_outcome. by case_match.
Qed.

Lemma wrap_s_field w z : (0 < w)%Z → (- 2 ^ (w - 1) ≤ z < 2 ^ (w - 1))%Z → wrap_s w (wrap_u w z) = z.
Proof. intros Hw Hz. rewrite wrap_s_wrap_u by done. by apply wrap_s_id. Qed.

(** Reading back the value of [relocation_value]. *)
Lemma denoted_written type a v data offset :
  offset + type_width type ≤ length data →
  (if (type =? COFF_RELOC_AMD64_REL32)%Z then v = u32 a ∧ (- 2 ^ 31 ≤ a < 2 ^ 31)%Z
   else if (type =? COFF_RELOC_AMD64_ADDR64)%Z then v = u64 a ∧ (0 ≤ a < 2 ^ 64)%Z
   else v = u32 a ∧ (0 ≤ a < 2 ^ 32)%Z) →
  denoted type (list_inserts offset (le_split (type_width type) v) data) offset = a.
Proof.
  intros Hlen Hv. unfold denoted, type_width in *.
  destruct (Z.eqb_spec type COFF_RELOC_AMD64_REL32) as [->|].
  - cbn [Z.eqb] in *. change (COFF_RELOC_AMD64_REL32 =? COFF_RELOC_AMD64_ADDR64)%Z with false in *.
    destruct Hv as [-> Ha]. rewrite field_written by done. change (8 * Z.of_nat 4)%Z with 32%Z.
    change (?x mod 2 ^ 32)%Z with (u32 x). unfold wrap_u at 2.
    rewrite (wrap_u_id 32 (a mod 2 ^ 32)); [by apply (wrap_s_field 32)|]. apply Z.mod_pos_bound. lia.
  - destruct (Z.eqb_spec type COFF_RELOC_AMD64_ADDR64) as [->|];
      destruct Hv as [-> Ha]; rewrite field_written by done.
    + change (8 * Z.of_nat 8)%Z with 64%Z. unfold wrap_u. by rewrite !Z.mod_small by (rewrite ?Z.mod_small; lia).
    + change (8 * Z.of_nat 4)%Z with 32%Z. unfold wrap_u. by rewrite !Z.mod_small by (rewrite ?Z.mod_small; lia).
Qed.

Lemma relocation_width_spec type w :
  relocation_width type = Some w → w = Z.of_nat (type_width type) ∧
  (w =? 8)%Z = (type =? COFF_RELOC_AMD64_ADDR64)%Z.
Proof.
  unfold relocation_width, type_width. destruct (type =? COFF_RELOC_AMD64_ADDR64)%Z; [by intros [= <-]|].
  by destruct (_ || _); intros [= <-].
Qed.

(** The sections agree but for the bytes at [offset], [w] of them. *)
Definition patched (l l' : LinkedSection) (offset w : nat) : Prop :=
  ls_kind l' = ls_kind l ∧ ls_size l' = ls_size l ∧ ls_virtual_address l' = ls_virtual_address l ∧
  length (ls_data l') = length (ls_data l) ∧
  ∀ k, k < offset ∨ offset + w ≤ k → ls_data l' !! k = ls_data l !! k.

Section one.
Variables (base : Z) (gs : list LinkedSymbol) (ys : list LinkedObjectSymbol).
Hypothesis Hbase : (0 ≤ base < 2 ^ 64)%Z.

Definition reloc_offset (pl : placement) (r : CoffRelocation) : nat := Z.to_nat (patch_offset pl r).

(** What one relocation did. *)
Record relocated (pl : placement) (r : CoffRelocation) (l l' : LinkedSection) : Prop := {
  rl_target : ∃ t, relocation_resolve_target gs ys (symbol_table_index r) = Done t ∧
    denoted (reloc_type r) (ls_data l') (reloc_offset pl r) =
    relocated_address base (reloc_type r) t (ls_virtual_address l + Z.of_nat (reloc_offset pl r))
      (stored (reloc_type r) (ls_data l) (reloc_offset pl r));
  rl_inside : reloc_offset pl r + type_width (reloc_type r) ≤ length (ls_data l) }.

Definition targets_ok : Prop := ∀ index t, relocation_resolve_target gs ys index = Done t → target_ok t.

Lemma apply_relocation_spec pl r l :
  section_placed l → targets_ok → (0 ≤ pl_offset pl ∧ 0 ≤ reloc_virtual_address r)%Z →
  (pl_offset pl + reloc_virtual_address r < 2 ^ 62)%Z →
  match link_apply_relocation base gs ys pl r l with
  | Done l' => relocated pl r l l' ∧ patched l l' (reloc_offset pl r) (type_width (reloc_type r))
  | Failed _ => True
  | Undefined => ∃ t, relocation_resolve_target gs ys (symbol_table_index r) = Done t ∧
      reloc_type r = COFF_RELOC_AMD64_ADDR64 ∧
      ¬ in_s64 (t_virtual_address t + stored (reloc_type r) (ls_data l) (reloc_offset pl r))
  end.
Proof.
  intros [Hsize Haddr Hroom] Htargets Hpos Hsum. unfold link_apply_relocation.
  destruct (relocation_resolve_target gs ys (symbol_table_index r)) as [t| |] eqn:Ht; [|done|].
  2: { exfalso. revert Ht. unfold relocation_resolve_target. repeat case_match; done. }
  pose proof (Htargets _ _ Ht) as [Hta Hto]. run_outcome.
  destruct (relocation_width (reloc_type r)) as [w|] eqn:Hw; [|done]. run_outcome.
  destruct (relocation_width_spec _ _ Hw) as [Hwidth H8].
  assert (patch_offset pl r = Z.of_nat (reloc_offset pl r)) as Hoff.
  { unfold reloc_offset, patch_offset. rewrite wrap_u_id by lia. lia. }
  assert (patch_offset pl r = (pl_offset pl + reloc_virtual_address r)%Z) as Hoff'.
  { unfold patch_offset. apply wrap_u_id. lia. }
  assert (0 < w ≤ 8)%Z as Hw8 by (rewrite Hwidth; unfold type_width; by case_match).
  rewrite (wrap_u_id 64 (patch_offset pl r + w)) by lia.
  destruct (Z.ltb_spec (ls_size l) (patch_offset pl r + w)) as [|Hin]; [done|]. run_outcome.
  assert (reloc_offset pl r + type_width (reloc_type r) ≤ length (ls_data l)) as Hinside by lia.
  rewrite H8, Hoff.
  assert ((if (reloc_type r =? COFF_RELOC_AMD64_ADDR64)%Z
           then a ← linker_read_u64 (ls_data l) (Z.of_nat (reloc_offset pl r)); Done (s64 a)
           else a ← linker_read_u32 (ls_data l) (Z.of_nat (reloc_offset pl r)); Done (s32 a)) =
    Done (stored (reloc_type r) (ls_data l) (reloc_offset pl r))) as ->.
  { unfold stored, type_width in *. destruct (reloc_type r =? COFF_RELOC_AMD64_ADDR64)%Z;
      [by rewrite read_u64_spec|by rewrite read_u32_spec]. }
  run_outcome. set (addend := stored _ _ _).
  rewrite (wrap_u_id 64 (ls_virtual_address l + _)) by lia.
  destruct (relocation_value base (reloc_type r) t _ addend) as [v| |] eqn:Hv; [|done|].
  - apply relocation_value_Done in Hv; [|done|lia|done|by rewrite Hw]. run_outcome.
    assert ((if (reloc_type r =? COFF_RELOC_AMD64_ADDR64)%Z
             then linker_write_u64 (ls_data l) (Z.of_nat (reloc_offset pl r)) v
             else linker_write_u32 (ls_data l) (Z.of_nat (reloc_offset pl r)) v) =
      Done (list_inserts (reloc_offset pl r) (le_split (type_width (reloc_type r)) v) (ls_data l))) as ->.
    { unfold type_width in *. destruct (reloc_type r =? COFF_RELOC_AMD64_ADDR64)%Z;
        [by rewrite write_u64_spec|by rewrite write_u32_spec]. }
    run_outcome. split.
    + split; [|done]. exists t. split; [done|]. cbn [ls_data]. by apply denoted_written.
    + split_and!; cbn [ls_kind ls_size ls_virtual_address ls_data]; [done..|by rewrite length_inserts|].
      intros k [Hk|Hk]; [by apply list_lookup_inserts_lt|].
      apply list_lookup_inserts_ge. by rewrite length_le_split.
  - exists t. split; [done|]. eapply relocation_value_Undefined; [..|exact Hv]; [done|lia|done|].
    intros Hne. unfold addend, stored. destruct (Z.eqb_spec (reloc_type r) COFF_RELOC_AMD64_ADDR64); [done|].
    apply (wrap_s_range 32). lia.
Qed.
End one.

(** Symbols whose addresses fit make good targets. *)
Lemma targets_ok_intro gs ys :
  Forall (λ y, 0 ≤ los_virtual_address y < 2 ^ 62 ∧ 0 ≤ los_merged_offset y < 2 ^ 62)%Z ys →
  Forall (λ g, 0 ≤ sy_virtual_address g < 2 ^ 62 ∧ 0 ≤ sy_merged_offset g < 2 ^ 62)%Z gs →
  targets_ok gs ys.
Proof.
  intros Hys Hgs index t. unfold relocation_resolve_target.
  destruct (ys !! Z.to_nat index) as [y|] eqn:Hy; [|done].
  pose proof (Forall_lookup_1 _ _ _ _ Hys Hy) as [? ?].
  destruct (los_is_auxiliary y); [done|].
  assert (∀ o, (match o with Some t => Done t | None => Failed (E_unresolved_target (los_name y)) end) = Done t →
    o = Some t) as Hsome by (by intros [?|] [= ->]).
  assert ((n ← los_name y; i ← link_resolution_find_symbol gs n; g ← gs !! i;
           if sy_is_defined g then m ← sy_merged_section_index g;
             Some (mkTarget (los_name y) m (sy_merged_offset g) (sy_virtual_address g)) else None) = Some t →
    target_ok t) as Hglobal.
  { destruct (los_name y) as [n|]; [|done]. simpl. destruct (link_resolution_find_symbol gs n) as [i|]; [|done].
    simpl. destruct (gs !! i) as [g|] eqn:Hg; [|done]. simpl. destruct (sy_is_defined g); [|done].
    destruct (sy_merged_section_index g); [|done]. pose proof (Forall_lookup_1 _ _ _ _ Hgs Hg) as [? ?].
    intros [= <-]. by split. }
  destruct (los_is_defined y); [|by intros ?%Hsome%Hglobal].
  destruct (los_merged_section_index y); [|by intros ?%Hsome%Hglobal].
  intros [= <-]. by split.
Qed.

(** ** All relocations *)

(** A relocation of a merged section: where its section went, the symbols of its
    object, and itself. *)
Record task : Type := mkTask {
  tk_section : nat;
  tk_placement : placement;
  tk_symbols : list LinkedObjectSymbol;
  tk_relocation : CoffRelocation }.

Definition section_tasks (ys : list LinkedObjectSymbol) (s : CoffSection) (pl : placement) : list task :=
  match pl_index pl with
  | Some m => map (λ r, mkTask m pl ys r) (relocations s)
  | None => []
  end.

Definition object_tasks (i : LinkedInputObject) : list task :=
  concat (zip_with (section_tasks (li_symbols i)) (sections (li_object i)) (li_placements i)).

Definition all_tasks (inputs : list LinkedInputObject) : list task := concat (map object_tasks inputs).

Section all.
Variables (base : Z) (gs : list LinkedSymbol).
Hypothesis Hbase : (0 ≤ base < 2 ^ 64)%Z.

Fixpoint run_tasks (ts : list task) (ls : list LinkedSection) : outcome (list LinkedSection) :=
  match ts with
  | [] => Done ls
  | t :: ts' =>
      l ← of_option (ls !! tk_section t);
      l' ← link_apply_relocation base gs (tk_symbols t) (tk_placement t) (tk_relocation t) l;
      run_tasks ts' (<[tk_section t := l']> ls)
  end.

Lemma run_tasks_app ts1 ts2 ls : run_tasks (ts1 ++ ts2) ls = (ls' ← run_tasks ts1 ls; run_tasks ts2 ls').
Proof.
  revert ls. induction ts1 as [|t ts1 IH]; intros ls; [done|]. cbn [run_tasks app].
  destruct (of_option (ls !! tk_section t)) as [l| |]; [|done..]. run_outcome.
  destruct (link_apply_relocation _ _ _ _ _ l) as [l'| |]; [|done..]. run_outcome. apply IH.
Qed.

Lemma section_relocations_tasks ys m pl rs ls l :
  ls !! m = Some l →
  (l' ← apply_section_relocations base gs ys pl rs l; Done (<[m := l']> ls)) =
  run_tasks (map (λ r, mkTask m pl ys r) rs) ls.
Proof.
  revert ls l. induction rs as [|r rs IH]; intros ls l Hl; cbn [apply_section_relocations map run_tasks].
  { simpl. by rewrite list_insert_id. }
  cbn [tk_section tk_placement tk_symbols tk_relocation]. rewrite Hl. run_outcome.
  destruct (link_apply_relocation base gs ys pl r l) as [l'| |]; [|done..]. run_outcome.
  rewrite <- (IH (<[m:=l']> ls) l') by (apply list_lookup_insert_eq; by eapply lookup_lt_Some).
  apply bind_ext. intros l''. by rewrite list_insert_insert_eq.
Qed.

Lemma object_relocations_tasks ys ss pls ls ls' :
  apply_object_relocations base gs ys ss pls ls = Done ls' →
  run_tasks (concat (zip_with (section_tasks ys) ss pls)) ls = Done ls'.
Proof.
  revert pls ls. induction ss as [|s ss IH]; intros pls ls; [by destruct pls|].
  destruct pls as [|pl pls]; [done|]. cbn [apply_object_relocations zip_with concat].
  intros (ls1 & H1 & H2)%bind_Done. rewrite run_tasks_app.
  assert (run_tasks (section_tasks ys s pl) ls = Done ls1) as ->; [|by apply IH].
  unfold section_tasks. destruct (relocations s) as [|r rs].
  { simplify_eq. by destruct (pl_index pl). }
  destruct (pl_index pl) as [m|]; [|by destruct (relocation_section_is_debug_only (sec_name s)); simplify_eq].
  apply bind_Done in H1 as (l & Hl%of_option_Done & H1). by rewrite <- (section_relocations_tasks ys m pl (r :: rs) ls l Hl).
Qed.

Lemma objects_relocations_tasks inputs ls ls' :
  apply_objects_relocations base gs inputs ls = Done ls' → run_tasks (all_tasks inputs) ls = Done ls'.
Proof.
  revert ls. induction inputs as [|i inputs IH]; intros ls; [done|]. cbn [apply_objects_relocations].
  intros (ls1 & H1%object_relocations_tasks & H2)%bind_Done. unfold all_tasks. cbn [map concat].
  rewrite run_tasks_app. fold (object_tasks i) in H1. rewrite H1. by apply IH.
Qed.

(** The bytes a relocation writes. *)
Definition task_start (t : task) : nat := reloc_offset (tk_placement t) (tk_relocation t).
Definition task_end (t : task) : nat := task_start t + type_width (reloc_type (tk_relocation t)).

Definition apart (t u : task) : Prop :=
  tk_section t = tk_section u → task_end t ≤ task_start u ∨ task_end u ≤ task_start t.

Definition task_ok (t : task) : Prop :=
  targets_ok gs (tk_symbols t) ∧
  (0 ≤ pl_offset (tk_placement t) ∧ 0 ≤ reloc_virtual_address (tk_relocation t))%Z ∧
  (pl_offset (tk_placement t) + reloc_virtual_address (tk_relocation t) < 2 ^ 62)%Z.

Definition sections_placed (ls : list LinkedSection) : Prop := Forall section_placed ls.

(** [t] was carried out between the sections [ls] and [ls']. *)
Definition carried_out (ls ls' : list LinkedSection) (t : task) : Prop :=
  ∃ l l', ls !! tk_section t = Some l ∧ ls' !! tk_section t = Some l' ∧
    relocated base gs (tk_symbols t) (tk_placement t) (tk_relocation t) l l'.

(** Outside the tasks nothing changes. *)
Definition untouched_by (ts : list task) (ls ls' : list LinkedSection) : Prop :=
  length ls' = length ls ∧
  ∀ m l, ls !! m = Some l → ∃ l', ls' !! m = Some l' ∧ ls_size l' = ls_size l ∧
    ls_virtual_address l' = ls_virtual_address l ∧ length (ls_data l') = length (ls_data l) ∧
    ∀ k, Forall (λ t, tk_section t = m → k < task_start t ∨ task_end t ≤ k) ts →
      ls_data l' !! k = ls_data l !! k.

Lemma field_ext n data data' off :
  (∀ k, off ≤ k < off + n → data' !! k = data !! k) → field n data' off = field n data off.
Proof.
  intros H. unfold field. f_equal. apply list_eq. intros k.
  destruct (Nat.lt_ge_cases k n); [|by rewrite !lookup_take_ge by lia].
  rewrite !lookup_take_lt, !lookup_drop by done. apply H. lia.
Qed.

Lemma stored_ext type data data' off :
  (∀ k, off ≤ k < off + type_width type → data' !! k = data !! k) → stored type data' off = stored type data off.
Proof.
  unfold stored, type_width. intros H. destruct (type =? COFF_RELOC_AMD64_ADDR64)%Z;
    f_equal; by apply field_ext.
Qed.

Lemma denoted_ext type data data' off :
  (∀ k, off ≤ k < off + type_width type → data' !! k = data !! k) → denoted type data' off = denoted type data off.
Proof.
  unfold denoted, type_width. intros H. destruct (Z.eqb_spec type COFF_RELOC_AMD64_REL32) as [->|].
  - f_equal. by apply field_ext.
  - destruct (type =? COFF_RELOC_AMD64_ADDR64)%Z; by apply field_ext.
Qed.

Lemma patched_placed l l' off w : section_placed l → patched l l' off w → section_placed l'.
Proof. intros [? ? ?] (Hk & Hs & Ha & Hl & _). split; [by rewrite Hs, Hl|by rewrite Ha|by rewrite Ha, Hs]. Qed.

Lemma run_tasks_spec ts ls ls' :
  run_tasks ts ls = Done ls' → ForallOrdPairs apart ts → Forall task_ok ts → sections_placed ls →
  Forall (carried_out ls ls') ts ∧ untouched_by ts ls ls'.
Proof.
  revert ls. induction ts as [|t ts IH]; intros ls Hr Hap Hok Hls; cbn [run_tasks] in Hr.
  { simplify_eq. split; [done|]. split; [done|]. intros m l Hl. by exists l. }
  apply bind_Done in Hr as (l & Hl%of_option_Done & Hr). apply bind_Done in Hr as (l1 & H1 & Hr).
  inversion Hap as [|? ? Hapt Hap']; subst. apply Forall_cons in Hok as [(Htg & Hpos & Hsum) Hok].
  pose proof (Forall_lookup_1 _ _ _ _ Hls Hl) as Hpl.
  pose proof (apply_relocation_spec base gs (tk_symbols t) Hbase _ (tk_relocation t) l Hpl Htg Hpos Hsum) as Hspec.
  rewrite H1 in Hspec. destruct Hspec as [Hrel Hpat].
  assert (sections_placed (<[tk_section t:=l1]> ls)) as Hls1.
  { apply Forall_insert; [done|]. by eapply patched_placed. }
  destruct (IH _ Hr Hap' Hok Hls1) as [Hdone [Hlen Hframe]].
  assert ((<[tk_section t:=l1]> ls) !! tk_section t = Some l1) as Hl1.
  { apply list_lookup_insert_eq. by eapply lookup_lt_Some. }
  destruct Hpat as (Hk & Hs & Ha & Hlen1 & Hbytes).
  split; [constructor|].
  - (* the first task's field is left alone by the others *)
    destruct (Hframe _ _ Hl1) as (l' & Hl' & _ & _ & _ & Hsame). exists l, l'. split_and!; [done..|].
    destruct Hrel as [(tg & Htgt & Hden) Hin]. split; [|done]. exists tg. split; [done|]. rewrite <- Hden.
    apply denoted_ext. intros k Hkr. apply Hsame. eapply Forall_impl; [exact Hapt|].
    intros u Hu Hsec. specialize (Hu (eq_sym Hsec)). unfold task_end, task_start in *. lia.
  - (* the others read what was there before *)
    apply Forall_forall. intros u Hu. rewrite Forall_forall in Hdone, Hapt.
    destruct (Hdone u Hu) as (lu & lu' & Hlu & Hlu' & Hrelu). specialize (Hapt u Hu).
    destruct (decide (tk_section t = tk_section u)) as [He|Hne].
    + rewrite <- He, Hl1 in Hlu. simplify_eq. exists l, lu'. rewrite <- He in Hlu' |- *.
      split_and!; [done..|]. destruct Hrelu as [(tg & Htgt & Hden) Hin]. split; [|by rewrite <- Hlen1].
      exists tg. split; [done|]. rewrite Hden, Ha. f_equal. apply stored_ext. intros k Hkr. apply Hbytes.
      specialize (Hapt He). unfold task_end, task_start in *. lia.
    + rewrite list_lookup_insert_ne in Hlu by done. by exists lu, lu'.
  - split; [by rewrite Hlen, length_insert|]. intros m x Hx.
    destruct (decide (tk_section t = m)) as [<-|Hne].
    + simplify_eq. destruct (Hframe _ _ Hl1) as (l' & Hl' & Hs' & Ha' & Hlen' & Hsame). exists l'.
      split_and!; [done|congruence..|]. intros k [Hkt Hks]%Forall_cons. rewrite Hsame by done.
      apply Hbytes. specialize (Hkt eq_refl). unfold task_end, task_start in *. lia.
    + destruct (Hframe m x) as (l' & Hl' & Hs' & Ha' & Hlen' & Hsame); [by rewrite list_lookup_insert_ne|].
      exists l'. split_and!; [done..|]. intros k [_ Hks]%Forall_cons. by apply Hsame.
Qed.
End all.

(** C10. When relocation succeeds on fields that do not overlap, every field then
    denotes exactly the address (relative to the end of the field for REL32, to the
    image base for ADDR32NB, to the section for SECREL) of its target plus the addend
    the field held, and no other byte of the merged sections has changed. *)
Theorem relocations_correct base r r' :
  (0 ≤ base < 2 ^ 64)%Z → link_apply_relocations base r = Done r' →
  sections_placed (lr_sections r) → Forall (task_ok (lr_symbols r)) (all_tasks (lr_objects r)) →
  ForallOrdPairs apart (all_tasks (lr_objects r)) →
  Forall (carried_out base (lr_symbols r) (lr_sections r) (lr_sections r')) (all_tasks (lr_objects r)) ∧
  untouched_by (all_tasks (lr_objects r)) (lr_sections r) (lr_sections r').
Proof.
  intros Hb Hr Hls Hok Hap. unfold link_apply_relocations in Hr.
  apply bind_Done in Hr as (ls & H%objects_relocations_tasks & [= <-]). by apply run_tasks_spec.
Qed.
