(* ===== verification/LinkBuildFacts.v ===== *)
(** * The whole resolution of a link

    Addresses of the merged sections and of the symbols in them, and what a
    resolution that [link_resolution_build] returns is worth. *)

From S2P Require Import Prelude LinkBase Coff CoffFacts Link Relocation LinkFacts ResolveFacts RelocationFacts.

(** ** Addresses of sections *)

Definition occupied (l : LinkedSection) : Prop := ls_virtual_size l ≠ 0%Z.

(** [l] placed before [l'], both with contents. *)
Definition below (l l' : LinkedSection) : Prop :=
  occupied l → occupied l' → (ls_virtual_address l + ls_virtual_size l ≤ ls_virtual_address l')%Z.

Record addresses_ok (a low high : Z) (ls : list LinkedSection) : Prop := {
  ad_aligned : Forall (λ l, occupied l → (a | ls_virtual_address l) ∧ low ≤ ls_virtual_address l ∧
                 ls_virtual_address l + ls_virtual_size l ≤ high)%Z ls;
  ad_disjoint : ForallOrdPairs below ls }.

Definition room (a : Z) (ls : list LinkedSection) : Z :=
  foldr (λ l z, (ls_virtual_size l + a + z)%Z) 0%Z ls.

Definition same_but_address (l l' : LinkedSection) : Prop := l' = place_section (ls_virtual_address l') l.

Lemma section_room_nonneg a ls : (0 < a)%Z → Forall (λ l, 0 ≤ ls_virtual_size l)%Z ls → (0 ≤ room a ls)%Z.
Proof. intros Ha Hls. induction Hls; simpl; lia. Qed.

Lemma addresses_ok_weaken a low low' high ls :
  (low' ≤ low)%Z → addresses_ok a low high ls → addresses_ok a low' high ls.
Proof.
  intros Hle [Ha Hd]. split; [|done]. eapply Forall_impl; [exact Ha|].
  intros l Hl Ho. specialize (Hl Ho). cbv beta in Hl |- *. intuition lia.
Qed.

Lemma place_sections_spec a ls current :
  pow2 a → Forall (λ l, 0 ≤ ls_virtual_size l)%Z ls → (0 ≤ current)%Z →
  (current + room a ls < 2 ^ 63)%Z →
  Forall2 same_but_address ls (place_sections a current ls) ∧
  addresses_ok a current (current + room a ls) (place_sections a current ls).
Proof.
  intros Ha Hls. pose proof (pow2_pos a Ha) as Hpos. revert current.
  induction Hls as [|l ls Hl Hls IH]; intros current Hcur Hroom; cbn [place_sections room foldr] in *.
  { split; [constructor|]. split; constructor. }
  fold (room a ls) in *. pose proof (section_room_nonneg a ls Hpos Hls).
  destruct (Z.eqb_spec (ls_virtual_size l) 0) as [Hz|Hnz].
  - destruct (IH current Hcur ltac:(lia)) as [Hsame [Hal Hdis]]. split; [constructor; [by destruct l|done]|].
    split; [constructor; [by intros []|]|constructor; [|done]].
    + eapply Forall_impl; [exact Hal|]. intros l' Hl' Ho. specialize (Hl' Ho). intuition lia.
    + apply Forall_forall. intros l' _ Ho. by destruct Ho.
  - destruct (align_up_pow2 current a Ha Hcur ltac:(lia)) as [Hup Hdiv]. set (address := linker_align_up current a) in *.
    rewrite (wrap_u_id 64 (address + ls_virtual_size l)) by lia.
    destruct (IH (address + ls_virtual_size l)%Z ltac:(lia) ltac:(lia)) as [Hsame [Hal Hdis]].
    split; [by constructor|]. split; (constructor; [|]); cbn [place_section ls_virtual_address ls_virtual_size].
    + intros _. split; [done|]. simpl. lia.
    + eapply Forall_impl; [exact Hal|]. intros l' Hl' Ho. specialize (Hl' Ho). intuition lia.
    + eapply Forall_impl; [exact Hal|]. intros l' Hl' _ Ho. specialize (Hl' Ho). simpl. intuition lia.
    + done.
Qed.

Lemma place_section_layout fallback m l l' ps :
  same_but_address l l' → section_layout fallback m l ps → section_layout fallback m l' ps.
Proof.
  intros -> [Hk Hp Hd Hs Hv Hc]. split; [done| |done..].
  eapply Forall_impl; [exact Hp|]. intros p [? ? ? ? ?]. by split.
Qed.

Lemma place_sections_layout fallback ls ls' ps :
  Forall2 same_but_address ls ls' → layout_ok fallback ls ps → layout_ok fallback ls' ps.
Proof.
  intros Hs (Hlen & Hls & Hps). split; [by rewrite <- (Forall2_length _ _ _ Hs)|]. split; [|done].
  intros m l' Hl'. destruct (Forall2_lookup_r _ _ _ _ _ Hs Hl') as (l & Hl & Hsame).
  eapply place_section_layout; [done|]. by apply Hls.
Qed.

(** ** Addresses of symbols *)

(** A symbol defined in a merged section has the address of its place there. *)
Definition symbol_placed (ls : list LinkedSection) (defined : bool) (section : option nat) (offset address : Z)
    : Prop :=
  ∀ m l, defined = true → section = Some m → ls !! m = Some l →
    address = u64 (ls_virtual_address l + offset).

Lemma place_symbol_placed ls g :
  symbol_placed ls (sy_is_defined g) (sy_merged_section_index g) (sy_merged_offset g)
    (sy_virtual_address (place_symbol ls g)).
Proof. intros m l Hd Hm Hl. unfold place_symbol, symbol_address. rewrite Hd, Hm. by rewrite Hl. Qed.

Lemma place_object_symbol_placed ls y :
  symbol_placed ls (los_is_defined y) (los_merged_section_index y) (los_merged_offset y)
    (los_virtual_address (place_object_symbol ls y)).
Proof. intros m l Hd Hm Hl. unfold place_object_symbol, symbol_address. rewrite Hd, Hm. by rewrite Hl. Qed.

Lemma place_symbol_same ls g :
  let g' := place_symbol ls g in
  sy_name g' = sy_name g ∧ sy_is_external g' = sy_is_external g ∧ sy_is_defined g' = sy_is_defined g ∧
  sy_defining_object_index g' = sy_defining_object_index g ∧
  sy_defining_symbol_index g' = sy_defining_symbol_index g ∧
  sy_merged_section_index g' = sy_merged_section_index g ∧ sy_merged_offset g' = sy_merged_offset g.
Proof. unfold place_symbol. by destruct (symbol_address _ _ _ _). Qed.

Lemma place_symbols_table ls gs ys : table_ok gs ys → table_ok (map (place_symbol ls) gs) ys.
Proof.
  intros [Hnd Hc Hs].
  assert (sy_name <$> map (place_symbol ls) gs = sy_name <$> gs) as Hn.
  { change (map (place_symbol ls) gs) with (place_symbol ls <$> gs). rewrite <- list_fmap_compose.
    apply list_fmap_ext. intros i g _. apply place_symbol_same. }
  split; [by rewrite Hn|by intros n; rewrite Hn|].
  apply Forall_fmap. eapply Forall_impl; [exact Hs|]. intros g [He Hd]. simpl.
  destruct (place_symbol_same ls g) as (E1 & E2 & E3 & E4 & E5 & E6 & E7).
  split; [by rewrite E2|]. rewrite E1. destruct (definitions ys (sy_name g)) as [|y []]; [by rewrite E3| |done].
  destruct Hd as [Hd (? & ? & ? & ?)]. unfold defined_by. rewrite E3, E4, E5, E6, E7. done.
Qed.

(** ** The resolution *)

Definition effective_alignment (options : option LinkResolutionOptions) : Z :=
  match options with
  | Some o => if (1 <? opt_section_alignment o)%Z then opt_section_alignment o else 16%Z
  | None => 16%Z
  end.

Definition allows_unresolved (options : option LinkResolutionOptions) : bool :=
  match options with Some o => allow_unresolved_externals o | None => false end.

Definition wanted_entry (options : option LinkResolutionOptions) : option string :=
  match (o ← options; entry_symbol_name o) with Some EmptyString => None | e => e end.

Record resolution_ok (os : list CoffObject) (options : option LinkResolutionOptions) (r : LinkResolution)
    (pls : list (list placement)) (rss : list (list LinkedObjectSymbol)) : Prop := {
  ro_layout : layout_ok (effective_alignment options) (lr_sections r) (all_pieces os pls);
  ro_addresses : addresses_ok (effective_alignment options) 0 (2 ^ 63) (lr_sections r);
  ro_resolved : all_symbols 0 (zip os pls) = Some rss;
  ro_unique : ¬ duplicated (concat rss);
  ro_table : table_ok (lr_symbols r) (concat rss);
  ro_placed : Forall (λ g, symbol_placed (lr_sections r) (sy_is_defined g) (sy_merged_section_index g)
    (sy_merged_offset g) (sy_virtual_address g)) (lr_symbols r);
  ro_objects : lr_objects r =
    zip_with (λ o rs, mkInput o.1 o.2 (map (place_object_symbol (lr_sections r)) rs)) (zip os pls) rss;
  ro_externals : allows_unresolved options = false → Forall (λ g, sy_is_defined g = true) (lr_symbols r);
  ro_entry : match wanted_entry options with
    | Some n => ∃ i g, lr_entry_symbol r = Some i ∧ lr_symbols r !! i = Some g ∧ sy_name g = n ∧
        sy_is_defined g = true
    | None => lr_entry_symbol r = None
    end }.

Lemma validate_externals_spec options r :
  lr_entry_symbol r = None → Forall (λ g, sy_is_external g = true) (lr_symbols r) →
  match link_resolution_validate_externals options r with
  | Done r' => lr_objects r' = lr_objects r ∧ lr_sections r' = lr_sections r ∧ lr_symbols r' = lr_symbols r ∧
      (allows_unresolved options = false → Forall (λ g, sy_is_defined g = true) (lr_symbols r)) ∧
      match wanted_entry options with
      | Some n => ∃ i g, lr_entry_symbol r' = Some i ∧ lr_symbols r !! i = Some g ∧ sy_name g = n ∧
          sy_is_defined g = true
      | None => lr_entry_symbol r' = None
      end
  | Failed _ => True
  | Undefined => False
  end.
Proof.
  intros Hentry Hext. unfold link_resolution_validate_externals. fold (allows_unresolved options).
  destruct (if allows_unresolved options then None else List.find unresolved (lr_symbols r)) as [g|] eqn:Hf; [done|].
  run_outcome.
  assert (allows_unresolved options = false → Forall (λ g, sy_is_defined g = true) (lr_symbols r)) as Hdef.
  { intros Ha. rewrite Ha in Hf. apply Forall_forall. intros g Hg.
    pose proof (find_none _ _ Hf g (proj1 (list_elem_of_In _ _) Hg)) as Hu. unfold unresolved in Hu.
    rewrite Forall_forall in Hext. rewrite (Hext g Hg) in Hu. by destruct (sy_is_defined g). }
  unfold wanted_entry. destruct (o ← options; entry_symbol_name o) as [n|] eqn:Ho; [|done].
  destruct n as [|c n]; [done|].
  pose proof (find_symbol_spec (lr_symbols r) (String c n)) as Hfind.
  destruct (link_resolution_find_symbol (lr_symbols r) (String c n)) as [i|]; [|done].
  destruct Hfind as (g & Hg & Hn). cbn [mbind option_bind]. rewrite Hg. cbn [mbind option_bind].
  destruct (sy_is_defined g) eqn:Hd; [|done]. cbn. split_and!; try done. by exists i, g.
Qed.

Lemma map_zip_with {A B C D} (f : C → D) (g : A → B → C) l k :
  map f (zip_with g l k) = zip_with (λ x y, f (g x y)) l k.
Proof. revert k. induction l as [|x l IH]; intros [|y k]; simpl; [done..|]. by rewrite IH. Qed.

Lemma room_within a ls used :
  (0 < a)%Z → length ls = 6 → within ls used → Forall (λ l, 0 ≤ ls_virtual_size l)%Z ls →
  (0 ≤ used)%Z → (room a ls ≤ 6 * (used + a))%Z.
Proof.
  intros Ha Hlen Hin Hls Hu.
  assert (∀ k l, ls !! k = Some l → (ls_virtual_size l ≤ used)%Z) as Hw by exact Hin.
  destruct ls as [|l0 [|l1 [|l2 [|l3 [|l4 [|l5 []]]]]]]; simpl in Hlen; try lia. simpl.
  pose proof (Hw 0 _ eq_refl). pose proof (Hw 1 _ eq_refl). pose proof (Hw 2 _ eq_refl).
  pose proof (Hw 3 _ eq_refl). pose proof (Hw 4 _ eq_refl). pose proof (Hw 5 _ eq_refl). lia.
Qed.

(** C9. On objects the reader accepted, with room for their sections below 2^60,
    [link_resolution_build] never leaves its buffers, and a resolution it returns is
    right: sections laid out without overlap and with their bytes, merged sections at
    aligned addresses that do not overlap, every external name once and defined by
    its only definition, every symbol at the address of its place, no name undefined
    unless that is allowed, and the entry point found. *)
Theorem link_build_correct os options :
  Forall (λ o, ∃ file, object_ok file o) os → pow2 (effective_alignment options) →
  (total_demand (effective_alignment options) os < 2 ^ 59 ∧ effective_alignment options < 2 ^ 59)%Z →
  link_resolution_build os options ≠ Undefined ∧
  ∀ r, link_resolution_build os options = Done r → ∃ pls rss, resolution_ok os options r pls rss.
Proof.
  intros Hos Ha [Htotal Hsmall]. unfold link_resolution_build. fold (effective_alignment options).
  set (a := effective_alignment options) in *. pose proof (pow2_pos a Ha) as Hpos.
  assert (Forall linkable os) as Hlink.
  { eapply Forall_impl; [exact Hos|]. intros o [file Ho]. by eapply object_ok_linkable. }
  pose proof (total_demand_nonneg a Ha os Hlink) as Hnn. destruct (init_layout a) as [Hinit Hin0].
  destruct (merge_objects_layout a Ha os 0 _ [] 0 Hinit Hin0 Hlink) as (ls & pls & Hm & Hlens & Hlay & Hin); [lia|].
  destruct (length os =? 0) eqn:Hz; [done|]. run_outcome.
  rewrite Hm. run_outcome.
  pose proof (build_symbols_correct (zip os pls)) as Hb.
  destruct (link_resolution_build_symbols 0 (zip os pls) []) as [[gs inputs]|e|]; [|done|done].
  destruct Hb as (rss & Hrss & Hdup & -> & Htab). run_outcome.
  unfold link_resolution_assign_virtual_addresses. cbn [lr_sections lr_symbols lr_objects lr_entry_symbol].
  set (ls' := place_sections a 0 ls).
  assert (Forall (λ l, 0 ≤ ls_virtual_size l)%Z ls) as Hvs.
  { apply Forall_lookup_2. intros m l Hl. destruct Hlay as (_ & Hls & _). eapply virtual_size_nonneg, Hls, Hl. }
  destruct (place_sections_spec a ls 0 Ha Hvs) as [Hsame Haddr]; [lia| |].
  { assert (length ls = 6) as H6 by apply Hlay. pose proof (room_within a ls _ Hpos H6 Hin Hvs). lia. }
  fold ls' in Hsame, Haddr.
  pose proof (place_symbols_table ls' gs _ Htab) as Htab'.
  match goal with |- ?o ≠ Undefined ∧ _ => set (out := o) end.
  pose proof (validate_externals_spec options (mkResolution
    (map (λ i, mkInput (li_object i) (li_placements i) (map (place_object_symbol ls') (li_symbols i)))
       (zip_with (λ o rs, mkInput o.1 o.2 rs) (zip os pls) rss)) ls' (map (place_symbol ls') gs) None) eq_refl) as Hval.
  fold out in Hval. destruct out as [r'|e|]; [|done|].
  2: { exfalso. apply Hval. eapply Forall_impl; [apply Htab'|]. intros g [Hg _]. exact Hg. }
  split; [done|]. intros r [= ->]. cbn [lr_objects lr_sections lr_symbols] in Hval.
  destruct Hval as (Eo & Es & Ey & Hext & Hent).
  { eapply Forall_impl; [apply Htab'|]. intros g [Hg _]. exact Hg. }
  exists pls, rss. split; rewrite ?Es, ?Ey; try done.
  - by eapply place_sections_layout.
  - destruct Haddr as [Hal Hd]. split; [|done]. eapply Forall_impl; [exact Hal|].
    intros l Hl Ho. specialize (Hl Ho).
    assert (length ls = 6) as H6 by apply Hlay. pose proof (room_within a ls _ Hpos H6 Hin Hvs). intuition lia.
  - apply Forall_fmap. apply Forall_forall. intros g _. simpl.
    destruct (place_symbol_same ls' g) as (_ & _ & -> & _ & _ & -> & ->). apply place_symbol_placed.
  - rewrite Eo. apply map_zip_with.
Qed.

(** ** Examples *)

Definition sample_objects : list CoffObject := [object_of sample_object; object_of caller_object].

Lemma sample_objects_ok : Forall (λ o, ∃ file, object_ok file o) sample_objects.
Proof.
  repeat constructor; eexists; apply object_of_ok; vm_compute; reflexivity.
Qed.

Lemma merge_sections_correct_witness :
  ∃ ls pls, link_resolution_merge_sections 16 0 sample_objects link_resolution_init_sections = Done (ls, pls) ∧
    layout_ok 16 ls (all_pieces sample_objects pls).
Proof.
  destruct (merge_sections_correct 16 sample_objects) as (ls & pls & Hm & _ & Hl).
  - exists 4%Z. split; [lia|reflexivity].
  - exact sample_objects_ok.
  - vm_compute. reflexivity.
  - exists ls, pls. split; [exact Hm|exact Hl].
Defined.

Lemma link_build_correct_witness :
  link_resolution_build sample_objects None ≠ Undefined ∧
  ∃ r pls rss, link_resolution_build sample_objects None = Done r ∧ resolution_ok sample_objects None r pls rss.
Proof.
  destruct (link_build_correct sample_objects None) as [Hdef Hok].
  - exact sample_objects_ok.
  - exists 4%Z. split; [lia|reflexivity].
  - split; vm_compute; reflexivity.
  - split; [exact Hdef|].
    destruct (link_resolution_build sample_objects None) as [r| |] eqn:Hr; [|vm_compute in Hr; discriminate Hr..].
    destruct (Hok r eq_refl) as (pls & rss & H). exists r, pls, rss. split; [reflexivity|exact H].
Defined.

(** Four bytes of [.text], and four of [.data] that ask for 32-byte alignment. *)
Definition aligned_object : CoffObject :=
  let section name kind chars :=
    mkSection name kind 0 0 4 0 0 0 0 0 chars (repeat (byte.of_Z 1) 4) [] in
  mkObject COFF_MACHINE_AMD64 2 0 0 0 0 0
    [section ".text"%string COFF_SECTION_KIND_TEXT 5242880%Z;
     section ".data"%string COFF_SECTION_KIND_DATA 6291456%Z] [] [].

(** The alignment of a merged section is recorded but its address is rounded up to
    the alignment of the options only: data that ask for 32 bytes are placed at 16. *)
Theorem section_alignment_ignored :
  ∃ r l, link_resolution_build [aligned_object] None = Done r ∧ lr_sections r !! 2 = Some l ∧
    ls_alignment l = 32%Z ∧ ls_virtual_address l = 16%Z ∧
    con_alignment <$> ls_contributions l = [32%Z] ∧ con_merged_offset <$> ls_contributions l = [0%Z].
Proof.
  destruct (link_resolution_build [aligned_object] None) as [r| |] eqn:Hr; [|vm_compute in Hr; discriminate Hr..].
  destruct (lr_sections r !! 2) as [l|] eqn:Hl; vm_compute in Hr; injection Hr as <-; [|discriminate Hl].
  injection Hl as <-. eexists _, _. split_and!; reflexivity.
Qed.

(** The call in the second object, whose field is one byte into 8 bytes placed after
    the 4 bytes of [main] at 16, is 21 bytes past the start of [main]. *)
Lemma relocations_correct_witness :
  ∃ r r' l, link_apply_relocations 0 r = Done r' ∧ lr_sections r' !! 0 = Some l ∧
    all_tasks (lr_objects r) ≠ [] ∧
    Forall (carried_out 0 (lr_symbols r) (lr_sections r) (lr_sections r')) (all_tasks (lr_objects r)) ∧
    denoted COFF_RELOC_AMD64_REL32 (ls_data l) 17 = (-21)%Z.
Proof.
  destruct (link_resolution_build sample_objects None) as [r| |] eqn:Hr; [|vm_compute in Hr; discriminate Hr..].
  destruct (link_apply_relocations 0 r) as [r'| |] eqn:Hr';
    [|vm_compute in Hr; injection Hr as <-; vm_compute in Hr'; discriminate Hr'..].
  destruct (lr_sections r' !! 0) as [l|] eqn:Hl;
    [|vm_compute in Hr; injection Hr as <-; vm_compute in Hr'; injection Hr' as <-; discriminate Hl].
  exists r, r', l. split; [exact Hr'|]. split; [exact Hl|].
  split; [vm_compute in Hr; injection Hr as <-; discriminate|]. split.
  - apply (relocations_correct 0 r r'); [lia|exact Hr'|..]; (vm_compute in Hr; injection Hr as <-;
      cbn [lr_sections lr_symbols lr_objects]);
      try match goal with |- context [all_tasks ?x] =>
        let ts := eval vm_compute in (all_tasks x) in change (all_tasks x) with ts end.
    + repeat constructor; simpl; lia.
    + constructor; [|constructor]. split; [|simpl; lia].
      apply targets_ok_intro; repeat constructor; simpl; lia.
    + repeat constructor.
  - vm_compute in Hr. injection Hr as <-. vm_compute in Hr'. injection Hr' as <-.
    injection Hl as <-. reflexivity.
Defined.
