(* ===== verification/BinaryEmitter.v ===== *)
(** * Object writer: sections, symbols and relocations (src/src/codegen/binary_emitter.c)

    The tables the code generator fills, with the hash index of the symbols.  The
    arrays that grow by reallocation are lists; the allocation of the index may fail.
    A failure leaves the emitter as it was, so only its message is returned. *)

From S2P Require Import Prelude Probe Outcome.

(** ** Data *)

Inductive BinarySectionKind : Type :=
  | BINARY_SECTION_TEXT | BINARY_SECTION_RDATA | BINARY_SECTION_DATA | BINARY_SECTION_BSS.

Inductive BinarySymbolBinding : Type :=
  | BINARY_SYMBOL_LOCAL | BINARY_SYMBOL_GLOBAL | BINARY_SYMBOL_EXTERNAL.

Inductive BinaryRelocationKind : Type :=
  | BINARY_RELOCATION_REL32 | BINARY_RELOCATION_ADDR64 | BINARY_RELOCATION_ADDR32NB
  | BINARY_RELOCATION_SECTION_REL32.

#[export] Instance BinarySectionKind_eq_dec : EqDecision BinarySectionKind.
Proof. solve_decision. Defined.

(** [data] holds [size] bytes. *)
Record BinarySection : Type := mkBinarySection {
  bsec_name : string;
  bsec_kind : BinarySectionKind;
  bsec_characteristics : Z;
  bsec_alignment : Z;
  bsec_data : list byte;
  bsec_virtual_size : Z }.

(** [BINARY_SECTION_INDEX_NONE] is [None]. *)
Record BinarySymbol : Type := mkBinarySymbol {
  bsym_name : string;
  bsym_binding : BinarySymbolBinding;
  bsym_section_index : option nat;
  bsym_value : Z;
  bsym_size : Z }.

Record BinaryRelocation : Type := mkBinaryRelocation {
  brel_section_index : nat;
  brel_offset : Z;
  brel_kind : BinaryRelocationKind;
  brel_symbol_name : string;
  brel_addend : Z }.

(** [em_buckets] is [symbol_index_buckets]; empty when it is NULL. *)
Record BinaryEmitter : Type := mkEmitter {
  em_sections : list BinarySection;
  em_symbols : list BinarySymbol;
  em_buckets : list nat;
  em_relocations : list BinaryRelocation }.

Inductive emit_error : Type :=
  | EE_argument                                (* returns 0 without a message *)
  | EE_index_memory
  | EE_too_many_sections
  | EE_table_limits
  | EE_section_records
  | EE_relocation_section
  | EE_relocation_count
  | EE_section_headers
  | EE_undefined_symbol (name : string)
  | EE_symbol_section.

Definition binary_emitter_create : BinaryEmitter := mkEmitter [] [] [] [].

(** Frees every entry. *)
Definition binary_emitter_reset (e : BinaryEmitter) : BinaryEmitter := mkEmitter [] [] [] [].

Definition bsec_size (s : BinarySection) : Z := Z.of_nat (length (bsec_data s)).

(** ** Sections *)

Definition update_section (e : BinaryEmitter) (i : nat) (s : BinarySection) : BinaryEmitter :=
  mkEmitter (<[i := s]> (em_sections e)) (em_symbols e) (em_buckets e) (em_relocations e).

Definition has_section_name (name : string) (s : BinarySection) : bool := String.eqb (bsec_name s) name.

Definition reuse_section (characteristics alignment : Z) (s : BinarySection) : BinarySection :=
  mkBinarySection (bsec_name s) (bsec_kind s)
    (if negb (characteristics =? 0)%Z then characteristics else bsec_characteristics s)
    (if (bsec_alignment s <? alignment)%Z then alignment else bsec_alignment s)
    (bsec_data s) (bsec_virtual_size s).

(** [None]: the name is empty. *)
Definition binary_emitter_get_or_create_section (e : BinaryEmitter) (name : string)
    (kind : BinarySectionKind) (characteristics alignment : Z) : option (BinaryEmitter * nat) :=
  if String.eqb name EmptyString then None
  else
    match list_find (λ s, has_section_name name s = true) (em_sections e) with
    | Some (i, s) => Some (update_section e i (reuse_section characteristics alignment s), i)
    | None =>
        let s := mkBinarySection name kind characteristics (if (alignment =? 0)%Z then 1 else alignment)%Z [] 0 in
        Some (mkEmitter (em_sections e ++ [s]) (em_symbols e) (em_buckets e) (em_relocations e),
              length (em_sections e))
    end.

Definition binary_emitter_get_section (e : BinaryEmitter) (i : nat) : option BinarySection :=
  em_sections e !! i.

(** The section with [bytes] at its end. *)
Definition extend_section (s : BinarySection) (bytes : list byte) : BinarySection :=
  let data := bsec_data s ++ bytes in
  let size := Z.of_nat (length data) in
  mkBinarySection (bsec_name s) (bsec_kind s) (bsec_characteristics s) (bsec_alignment s) data
    (if (bsec_virtual_size s <? size)%Z then size else bsec_virtual_size s).

Definition set_alignment (s : BinarySection) (alignment : Z) : BinarySection :=
  mkBinarySection (bsec_name s) (bsec_kind s) (bsec_characteristics s) alignment (bsec_data s)
    (bsec_virtual_size s).

(** [None] is the return value 0. *)
Definition binary_emitter_align_section (e : BinaryEmitter) (i : nat) (alignment : Z) (fill : byte)
    : option BinaryEmitter :=
  s ← binary_emitter_get_section e i;
  if (alignment =? 0)%Z then None
  else
    let s := if (bsec_alignment s <? alignment)%Z then set_alignment s alignment else s in
    let remainder := (bsec_size s `mod` alignment)%Z in
    if (remainder =? 0)%Z then Some (update_section e i s)
    else Some (update_section e i (extend_section s (replicate (Z.to_nat (alignment - remainder)) fill))).

(** With the offset of the first byte. *)
Definition binary_emitter_append_bytes (e : BinaryEmitter) (i : nat) (bytes : list byte)
    : option (BinaryEmitter * Z) :=
  s ← binary_emitter_get_section e i;
  Some (update_section e i (extend_section s bytes), bsec_size s).

Definition binary_emitter_append_zeros (e : BinaryEmitter) (i : nat) (size : nat)
    : option (BinaryEmitter * Z) :=
  binary_emitter_append_bytes e i (replicate size (byte.of_Z 0)).

Definition binary_emitter_set_section_virtual_size (e : BinaryEmitter) (i : nat) (virtual_size : Z)
    : option BinaryEmitter :=
  s ← binary_emitter_get_section e i;
  if (virtual_size <? bsec_size s)%Z then None
  else Some (update_section e i (mkBinarySection (bsec_name s) (bsec_kind s) (bsec_characteristics s)
               (bsec_alignment s) (bsec_data s) virtual_size)).

(** ** The index of the symbols *)

Definition bsym_hash (ys : list BinarySymbol) (i : nat) : N :=
  match ys !! i with Some y => mettle_fnv1a_hash (bsym_name y) | None => 0 end.

Definition bsym_named (ys : list BinarySymbol) (name : string) (i : nat) : bool :=
  match ys !! i with Some y => String.eqb (bsym_name y) name | None => false end.

(** The buckets rebuilt over all symbols; [alloc] tells whether [calloc] succeeds, and
    probing that never ends is [Undefined]. *)
Definition binary_emitter_symbol_index_rehash (alloc : bool) (ys : list BinarySymbol) (bucket_count : nat)
    : checked emit_error (list nat) :=
  _ ← require alloc EE_index_memory;
  of_option (rebuild_loop (bsym_hash ys) (length ys) 0 (replicate bucket_count 0)).

(** Records the last of [ys]. *)
Definition binary_emitter_symbol_index_insert (alloc : bool) (ys : list BinarySymbol) (buckets : list nat)
    (i : nat) : checked emit_error (list nat) :=
  let live := S i in
  buckets ← (if (length buckets =? 0) || (length buckets * 7 <=? live * 10) then
               binary_emitter_symbol_index_rehash alloc ys
                 (if length buckets =? 0 then 256 else length buckets * 2)
             else Done buckets);
  of_option (register_loop (S (length buckets)) buckets
               (home_slot (bsym_hash ys i) (length buckets)) (S i)).

(** An [int]: -1 when there is no such symbol. *)
Definition binary_emitter_find_symbol_index (e : BinaryEmitter) (name : string) : checked emit_error Z :=
  match em_buckets e with
  | _ :: _ =>
      r ← of_option (probe_find (bsym_named (em_symbols e) name) (em_buckets e) (mettle_fnv1a_hash name));
      Done (match r with Some i => s32 (Z.of_nat i) | None => -1 end)%Z
  | [] =>
      Done (match List.find (bsym_named (em_symbols e) name) (seq 0 (length (em_symbols e))) with
            | Some i => s32 (Z.of_nat i)
            | None => -1
            end)%Z
  end.

Definition binary_emitter_define_symbol (alloc : bool) (e : BinaryEmitter) (name : string)
    (binding : BinarySymbolBinding) (section : option nat) (value size : Z) : checked emit_error BinaryEmitter :=
  _ ← require (negb (String.eqb name EmptyString)) EE_argument;
  existing ← binary_emitter_find_symbol_index e name;
  let y := mkBinarySymbol name binding section value size in
  if (0 <=? existing)%Z then
    old ← of_option (em_symbols e !! Z.to_nat existing);
    Done (mkEmitter (em_sections e)
            (<[Z.to_nat existing := mkBinarySymbol (bsym_name old) binding section value size]> (em_symbols e))
            (em_buckets e) (em_relocations e))
  else
    let ys := em_symbols e ++ [y] in
    buckets ← binary_emitter_symbol_index_insert alloc ys (em_buckets e) (length (em_symbols e));
    Done (mkEmitter (em_sections e) ys buckets (em_relocations e)).

Definition binary_emitter_declare_external (alloc : bool) (e : BinaryEmitter) (name : string)
    : checked emit_error BinaryEmitter :=
  binary_emitter_define_symbol alloc e name BINARY_SYMBOL_EXTERNAL None 0 0.

Definition binary_emitter_find_symbol (e : BinaryEmitter) (name : string) : checked emit_error (option BinarySymbol) :=
  i ← binary_emitter_find_symbol_index e name;
  Done (if (i <? 0)%Z then None else em_symbols e !! Z.to_nat i).

Definition binary_emitter_add_relocation (e : BinaryEmitter) (section : nat) (offset : Z)
    (kind : BinaryRelocationKind) (name : string) (addend : Z) : checked emit_error BinaryEmitter :=
  _ ← require (negb (String.eqb name EmptyString) && (section <? length (em_sections e))) EE_argument;
  Done (mkEmitter (em_sections e) (em_symbols e) (em_buckets e)
          (em_relocations e ++ [mkBinaryRelocation section offset kind name addend])).
