(* ===== verification/CoffWriter.v ===== *)
(** * Object writer: the COFF file (src/src/codegen/binary_emitter.c)

    [binary_emitter_write_coff_object_file] as the bytes it writes; files open, writes
    and allocations succeed. *)

From S2P Require Import Prelude Probe Outcome BinaryEmitter.

(** ** Names *)

Definition name_bytes (name : string) : list byte := map byte_of_ascii (list_ascii_of_string name).
Definition zero_bytes (n : nat) : list byte := replicate n (byte.of_Z 0).

(** A name of more than 8 characters goes to the string table. *)
Definition long_name (name : string) : bool := 8 <? String.length name.

(** The offsets of the long names in the string table, 0 for the others, and the
    size of the table after them. *)
Fixpoint string_offsets (names : list string) (size : Z) : list Z * Z :=
  match names with
  | [] => ([], size)
  | n :: names' =>
      if long_name n then
        let r := string_offsets names' (u32 (size + u32 (Z.of_nat (String.length n)) + 1)) in
        (size :: r.1, r.2)
      else
        let r := string_offsets names' size in
        (0%Z :: r.1, r.2)
  end.

Definition write_u16 (v : Z) : list byte := le_split 2 v.
Definition write_u32 (v : Z) : list byte := le_split 4 v.

Definition short_name_field (name : string) : list byte :=
  name_bytes name ++ zero_bytes (8 - String.length name).

(** [snprintf (field, 8, "/%zu", offset)] must fit with its NUL. *)
Definition binary_emitter_write_section_name (name : string) (offset : Z) : checked emit_error (list byte) :=
  if negb (long_name name) then Done (short_name_field name)
  else
    let text := String "/" (decimal (Z.to_N offset)) in
    _ ← require (String.length text <? 8) EE_section_headers;
    Done (short_name_field text).

Definition binary_emitter_write_symbol_name (name : string) (offset : Z) : list byte :=
  if negb (long_name name) then short_name_field name
  else write_u32 0 ++ write_u32 (u32 offset).

(** The strings of the names that have an offset. *)
Definition string_entries (names : list string) (offsets : list Z) : list byte :=
  concat (zip_with (λ n o, if (o =? 0)%Z then [] else name_bytes n ++ zero_bytes 1) names offsets).

(** ** Characteristics and relocation types *)

Definition binary_emitter_default_section_characteristics (k : BinarySectionKind) : Z :=
  match k with
  | BINARY_SECTION_TEXT => 1610612768      (* 0x60000020 *)
  | BINARY_SECTION_RDATA => 1073741888     (* 0x40000040 *)
  | BINARY_SECTION_DATA => 3221225536      (* 0xC0000040 *)
  | BINARY_SECTION_BSS => 3221225600       (* 0xC0000080 *)
  end.

Definition binary_emitter_map_relocation_kind (k : BinaryRelocationKind) : Z :=
  match k with
  | BINARY_RELOCATION_ADDR64 => 1
  | BINARY_RELOCATION_ADDR32NB => 3
  | BINARY_RELOCATION_SECTION_REL32 => 11
  | BINARY_RELOCATION_REL32 => 4
  end.

(** ** Layout *)

(** [section_reloc_counts]: no counter wraps, since there are fewer than 2^32
    relocations. *)
Fixpoint count_relocations (rs : list BinaryRelocation) (counts : list nat) : checked emit_error (list nat) :=
  match rs with
  | [] => Done counts
  | r :: rs' =>
      _ ← require (brel_section_index r <? length counts) EE_relocation_section;
      count_relocations rs' (alter S (brel_section_index r) counts)
  end.

Definition has_payload (s : BinarySection) : bool :=
  negb (bool_decide (bsec_kind s = BINARY_SECTION_BSS)) && (0 <? bsec_size s)%Z.

(** The file offsets of the payloads, 0 where there is none, and the offset after. *)
Fixpoint raw_offsets (ss : list BinarySection) (offset : Z) : list Z * Z :=
  match ss with
  | [] => ([], offset)
  | s :: ss' =>
      if has_payload s then
        let r := raw_offsets ss' (u32 (offset + u32 (bsec_size s))) in (offset :: r.1, r.2)
      else
        let r := raw_offsets ss' offset in (0%Z :: r.1, r.2)
  end.

Fixpoint reloc_offsets (counts : list nat) (offset : Z) : list Z * Z :=
  match counts with
  | [] => ([], offset)
  | c :: counts' =>
      if 0 <? c then
        let r := reloc_offsets counts' (u32 (offset + u32 (Z.of_nat c * 10))) in (offset :: r.1, r.2)
      else
        let r := reloc_offsets counts' offset in (0%Z :: r.1, r.2)
  end.

(** ** Relocations in the order of their sections *)

(** [section_reloc_start], one longer than [counts]. *)
Fixpoint reloc_starts (counts : list nat) (start : nat) : list nat :=
  match counts with
  | [] => [start]
  | c :: counts' => start :: reloc_starts counts' (start + c)
  end.

(** The pass that puts the relocation [r] into the next free place of its section. *)
Fixpoint order_relocations (start : list nat) (rs : list BinaryRelocation) (r : nat)
    (cursor ordered : list nat) : checked emit_error (list nat) :=
  match rs with
  | [] => Done ordered
  | rel :: rs' =>
      s ← of_option (start !! brel_section_index rel);
      c ← of_option (cursor !! brel_section_index rel);
      _ ← of_option (ordered !! (s + c));
      order_relocations start rs' (S r) (<[brel_section_index rel := S c]> cursor) (<[s + c := r]> ordered)
  end.

Definition write_relocation (e : BinaryEmitter) (rel : BinaryRelocation) : checked emit_error (list byte) :=
  i ← binary_emitter_find_symbol_index e (brel_symbol_name rel);
  _ ← require (negb (i <? 0)%Z) (EE_undefined_symbol (brel_symbol_name rel));
  (* [symbol_table_indices[i]], which is [i] *)
  _ ← of_option (em_symbols e !! Z.to_nat i);
  Done (write_u32 (u32 (brel_offset rel)) ++ write_u32 (u32 i) ++
        write_u16 (binary_emitter_map_relocation_kind (brel_kind rel))).

Fixpoint write_relocations (e : BinaryEmitter) (ordered : list nat) : checked emit_error (list byte) :=
  match ordered with
  | [] => Done []
  | k :: ordered' =>
      rel ← of_option (em_relocations e !! k);
      bytes ← write_relocation e rel;
      rest ← write_relocations e ordered';
      Done (bytes ++ rest)
  end.

(** ** Headers and symbols *)

Definition effective_characteristics (s : BinarySection) : Z :=
  if (bsec_characteristics s =? 0)%Z then binary_emitter_default_section_characteristics (bsec_kind s)
  else bsec_characteristics s.

Definition write_section_header (s : BinarySection) (name_offset raw_offset reloc_offset : Z) (count : nat)
    : checked emit_error (list byte) :=
  name ← binary_emitter_write_section_name (bsec_name s) name_offset;
  Done (name ++ write_u32 0 ++ write_u32 0 ++
        write_u32 (if bool_decide (bsec_kind s = BINARY_SECTION_BSS) then 0 else u32 (bsec_size s))%Z ++
        write_u32 raw_offset ++ write_u32 reloc_offset ++ write_u32 0 ++
        write_u16 (u16 (Z.of_nat count)) ++ write_u16 0 ++ write_u32 (effective_characteristics s)).

Fixpoint write_section_headers (ss : list BinarySection) (names raws relocs : list Z) (counts : list nat)
    : checked emit_error (list byte) :=
  match ss, names, raws, relocs, counts with
  | s :: ss', n :: names', w :: raws', l :: relocs', c :: counts' =>
      header ← write_section_header s n w l c;
      rest ← write_section_headers ss' names' raws' relocs' counts';
      Done (header ++ rest)
  | [], _, _, _, _ => Done []
  | _, _, _, _, _ => Undefined
  end.

Definition write_payloads (ss : list BinarySection) : list byte :=
  concat (map (λ s, if has_payload s then bsec_data s else []) ss).

Definition write_symbol (e : BinaryEmitter) (y : BinarySymbol) (name_offset : Z) : checked emit_error (list byte) :=
  st ← (match bsym_section_index y with
        | None => Done (0, 0)%Z
        | Some i =>
            match em_sections e !! i with
            | None => Failed EE_symbol_section
            | Some s => Done (wrap_s 16 (Z.of_nat i + 1),
                if bool_decide (bsec_kind s = BINARY_SECTION_TEXT) then 32%Z else 0%Z)
            end
        end);
  let class := match bsym_binding y with BINARY_SYMBOL_LOCAL => 3 | _ => 2 end%Z in
  Done (binary_emitter_write_symbol_name (bsym_name y) name_offset ++ write_u32 (u32 (bsym_value y)) ++
        write_u16 st.1 ++ write_u16 st.2 ++ [byte.of_Z class; byte.of_Z 0]).

Fixpoint write_symbols (e : BinaryEmitter) (ys : list BinarySymbol) (names : list Z)
    : checked emit_error (list byte) :=
  match ys, names with
  | y :: ys', n :: names' =>
      record ← write_symbol e y n;
      rest ← write_symbols e ys' names';
      Done (record ++ rest)
  | [], _ => Done []
  | _, _ => Undefined
  end.

Definition section_length (s : BinarySection) : Z :=
  u32 (if (bsec_size s <? bsec_virtual_size s)%Z then bsec_virtual_size s else bsec_size s).

(** The symbol of the [i]-th section with its auxiliary record. *)
Definition write_section_symbol (s : BinarySection) (name_offset : Z) (i count : nat) : list byte :=
  binary_emitter_write_symbol_name (bsec_name s) name_offset ++ write_u32 0 ++
  write_u16 (wrap_s 16 (Z.of_nat i + 1)) ++ write_u16 0 ++ [byte.of_Z 3; byte.of_Z 1] ++
  write_u32 (section_length s) ++ write_u16 (u16 (Z.of_nat count)) ++ write_u16 0 ++ write_u32 0 ++
  write_u16 0 ++ zero_bytes 4.

Fixpoint write_section_symbols (ss : list BinarySection) (names : list Z) (i : nat) (counts : list nat)
    : checked emit_error (list byte) :=
  match ss, names, counts with
  | s :: ss', n :: names', c :: counts' =>
      rest ← write_section_symbols ss' names' (S i) counts';
      Done (write_section_symbol s n i c ++ rest)
  | [], _, _ => Done []
  | _, _, _ => Undefined
  end.

(** ** The file *)

Definition binary_emitter_write_coff_object_file (e : BinaryEmitter) : checked emit_error (list byte) :=
  let nsections := Z.of_nat (length (em_sections e)) in
  let nsymbols := Z.of_nat (length (em_symbols e)) in
  _ ← require (negb (65535 <? nsections)%Z) EE_too_many_sections;
  _ ← require (negb ((2 ^ 32 - 1 <? Z.of_nat (length (em_relocations e)))%Z || (2 ^ 32 - 1 <? nsymbols)%Z))
        EE_table_limits;
  _ ← require (negb ((2 ^ 32 - 1 - nsymbols) `div` 2 <? nsections)%Z) EE_section_records;
  let sn := string_offsets (map bsec_name (em_sections e)) 4 in
  let yn := string_offsets (map bsym_name (em_symbols e)) sn.2 in
  let total := u32 (u32 nsymbols + u32 (nsections * 2)) in
  counts ← count_relocations (em_relocations e) (replicate (length (em_sections e)) 0);
  _ ← require (forallb (λ c, negb (65535 <? Z.of_nat c)%Z) counts) EE_relocation_count;
  let raw := raw_offsets (em_sections e) (u32 (20 + u32 (nsections * 40))) in
  let rel := reloc_offsets counts raw.2 in
  headers ← write_section_headers (em_sections e) sn.1 raw.1 rel.1 counts;
  ordered ← order_relocations (reloc_starts counts 0) (em_relocations e) 0
              (replicate (length (em_sections e)) 0) (replicate (length (em_relocations e)) 0);
  relocs ← write_relocations e ordered;
  ys ← write_symbols e (em_symbols e) yn.1;
  ss ← write_section_symbols (em_sections e) sn.1 0 counts;
  Done (write_u16 34404 ++ write_u16 (u16 nsections) ++ write_u32 0 ++ write_u32 rel.2 ++ write_u32 total ++
        write_u16 0 ++ write_u16 0 ++ headers ++ write_payloads (em_sections e) ++ relocs ++ ys ++ ss ++
        write_u32 yn.2 ++ string_entries (map bsec_name (em_sections e)) sn.1 ++
        string_entries (map bsym_name (em_symbols e)) yn.1).
