(* ===== verification/EmitterFacts.v ===== *)
(** * Facts of the object writer's tables

    The symbols with their hash index refine a finite map from names, and every
    operation keeps the invariant [emitter_ok]. *)

From S2P Require Import Prelude Probe Outcome BinaryEmitter CoffWriter.
From stdpp Require Import gmap.

(** ** The invariant *)

Definition indexed (ys : list BinarySymbol) (buckets : list nat) : Prop :=
  (buckets = [] ∧ ys = []) ∨
  (index_ok (bsym_hash ys) buckets (length ys) ∧ length ys * 10 < length buckets * 7 ∧ 256 ≤ length buckets).

Record emitter_ok (e : BinaryEmitter) : Prop := {
  ek_section_names : NoDup (bsec_name <$> em_sections e);
  ek_sections_named : Forall (λ s, bsec_name s ≠ EmptyString) (em_sections e);
  ek_symbol_names : NoDup (bsym_name <$> em_symbols e);
  ek_symbols_named : Forall (λ y, bsym_name y ≠ EmptyString) (em_symbols e);
  ek_relocations : Forall (λ r, brel_section_index r < length (em_sections e)) (em_relocations e);
  ek_sizes : Forall (λ s, bsec_size s ≤ bsec_virtual_size s)%Z (em_sections e);
  ek_index : indexed (em_symbols e) (em_buckets e) }.

(** What the symbols mean. *)
Definition symbol_map (ys : list BinarySymbol) : gmap string BinarySymbol :=
  list_to_map ((λ y, (bsym_name y, y)) <$> ys).

Lemma symbol_map_lookup ys name y :
  NoDup (bsym_name <$> ys) → symbol_map ys !! name = Some y ↔ ∃ i, ys !! i = Some y ∧ bsym_name y = name.
Proof.
  intros Hnd. unfold symbol_map. rewrite <- elem_of_list_to_map.
  2: { rewrite <- list_fmap_compose. exact Hnd. }
  rewrite list_elem_of_fmap. split.
  - intros (z & [= -> ->] & [i Hi]%list_elem_of_lookup). by exists i.
  - intros (i & Hi & <-). exists y. split; [done|]. by eapply list_elem_of_lookup_2.
Qed.

Lemma symbol_map_None ys name :
  symbol_map ys !! name = None ↔ ∀ i y, ys !! i = Some y → bsym_name y ≠ name.
Proof.
  unfold symbol_map. rewrite <- not_elem_of_list_to_map, <- list_fmap_compose. split.
  - intros Hn i y Hi <-. apply Hn, list_elem_of_fmap. exists y. split; [done|]. by eapply list_elem_of_lookup_2.
  - intros H (y & -> & [i Hi]%list_elem_of_lookup)%list_elem_of_fmap. by apply (H i y Hi).
Qed.

Lemma bsym_named_true ys name i :
  bsym_named ys name i = true ↔ ∃ y, ys !! i = Some y ∧ bsym_name y = name.
Proof.
  unfold bsym_named. destruct (ys !! i) as [y|].
  - rewrite String.eqb_eq. split; [by exists y|by intros (? & [= <-] & ?)].
  - split; [done|by intros (? & ? & _)].
Qed.

(** The position of [name] among the symbols. *)
Definition symbol_at (ys : list BinarySymbol) (name : string) (i : nat) : Prop :=
  ∃ y, ys !! i = Some y ∧ bsym_name y = name.

Lemma symbol_at_unique ys name i j :
  NoDup (bsym_name <$> ys) → symbol_at ys name i → symbol_at ys name j → i = j.
Proof.
  intros Hnd (y & Hi & Hy) (z & Hj & Hz).
  eapply NoDup_lookup; [exact Hnd| |]; rewrite list_lookup_fmap; [by rewrite Hi; simpl; rewrite Hy|].
  rewrite Hj. simpl. by rewrite Hz.
Qed.

(** ** Lookup *)

Lemma find_symbol_index_spec e name :
  emitter_ok e → (Z.of_nat (length (em_symbols e)) < 2 ^ 31)%Z →
  (∃ i, binary_emitter_find_symbol_index e name = Done (Z.of_nat i) ∧ symbol_at (em_symbols e) name i) ∨
  (binary_emitter_find_symbol_index e name = Done (-1)%Z ∧ symbol_map (em_symbols e) !! name = None).
Proof.
  intros He Hlen. unfold binary_emitter_find_symbol_index.
  destruct (ek_index e He) as [[-> ->]|(Hix & Hload & Hmin)].
  { right. split; [done|]. by apply symbol_map_None. }
  destruct (em_buckets e) as [|b bs] eqn:Hb; [simpl in Hmin; lia|]. rewrite <- Hb in *.
  pose proof (probe_find_spec (bsym_hash (em_symbols e)) (bsym_named (em_symbols e) name) (em_buckets e)
    (length (em_symbols e)) (mettle_fnv1a_hash name) Hix ltac:(lia)) as Hfind.
  destruct (probe_find _ _ _) as [[i|]|]; cbn [of_option mbind outcome_bind].
  - destruct Hfind as (Hi & Ht & _).
    { intros j Hj (y & Hy & <-)%bsym_named_true. unfold bsym_hash. by rewrite Hy. }
    apply bsym_named_true in Ht. left. exists i. split; [|done]. f_equal. apply (wrap_s_id 32); lia.
  - right. split; [done|]. apply symbol_map_None. intros i y Hy Hn.
    assert (bsym_named (em_symbols e) name i = false) as Hf.
    { apply Hfind; [|by eapply lookup_lt_Some]. intros j Hj (z & Hz & <-)%bsym_named_true. unfold bsym_hash. by rewrite Hz. }
    assert (bsym_named (em_symbols e) name i = true) as Ht by (apply bsym_named_true; eauto). congruence.
  - exfalso. apply Hfind. intros i Hi (y & Hy & <-)%bsym_named_true. unfold bsym_hash. by rewrite Hy.
Qed.

(** ** Definition of a symbol *)

Lemma index_insert_spec alloc ys y buckets :
  indexed ys buckets →
  match binary_emitter_symbol_index_insert alloc (ys ++ [y]) buckets (length ys) with
  | Done buckets' => indexed (ys ++ [y]) buckets'
  | Failed e => e = EE_index_memory ∧ alloc = false
  | Undefined => False
  end.
Proof.
  intros Hix. unfold binary_emitter_symbol_index_insert.
  set (ys' := ys ++ [y]). assert (length ys' = S (length ys)) as Hlen by (unfold ys'; rewrite length_app; simpl; lia).
  assert (∀ i, i < length ys → bsym_hash ys i = bsym_hash ys' i) as Hext.
  { intros i Hi. unfold bsym_hash, ys'. by rewrite lookup_app_l. }
  (* after the growth the index has room, with or without the new symbol *)
  assert (∀ n, power_of_two n → 256 ≤ n → length ys' * 10 < n * 7 → ∃ b,
    rebuild_loop (bsym_hash ys') (length ys') 0 (replicate n 0) = Some b ∧ length b = n ∧
    index_ok (bsym_hash ys') b (length ys')) as Hrebuild.
  { intros n Hn Hmin Hload. destruct (rebuild_loop_spec (bsym_hash ys') (length ys') 0 (replicate n 0))
      as (b & Hb & Hl & Hok); [by apply index_empty|rewrite length_replicate; lia|].
    rewrite length_replicate in Hl. by exists b. }
  assert (∀ b, length ys' * 10 < length b * 7 → 256 ≤ length b →
    index_ok (bsym_hash ys') b (length ys) ∨ index_ok (bsym_hash ys') b (length ys') →
    match of_option (E := emit_error) (register_loop (S (length b)) b (home_slot (bsym_hash ys' (length ys)) (length b)) (S (length ys))) with
    | Done b' => indexed ys' b' | Failed e => e = EE_index_memory ∧ alloc = false | Undefined => False end) as Hregister.
  { intros b Hload Hmin Hok. rewrite Hlen in Hok.
    destruct (register_spec (bsym_hash ys') b (length ys)) as (b' & -> & Hl & Hok'); [lia|done|].
    simpl. right. rewrite Hlen, Hl. split_and!; [done|lia..]. }
  destruct (_ || _) eqn:Hgrow.
  - unfold binary_emitter_symbol_index_rehash. destruct alloc; [|done]. run_outcome.
    set (n := if length buckets =? 0 then 256 else length buckets * 2).
    destruct (Hrebuild n) as (b & -> & Hl & Hok).
    + unfold n. destruct Hix as [[-> _]|([Hn _ _ _] & _ & _)]; [exists 8; reflexivity|].
      destruct (length buckets =? 0); [exists 8; reflexivity|by apply power_of_two_double].
    + unfold n. destruct Hix as [[-> _]|(_ & _ & Hmin)]; [done|]. destruct (Nat.eqb_spec (length buckets) 0); lia.
    + unfold n. destruct Hix as [[-> ->]|(_ & Hload & Hmin)]; [simpl in *; lia|].
      destruct (Nat.eqb_spec (length buckets) 0); lia.
    + run_outcome. apply Hregister; [| |by right]; rewrite Hl; unfold n;
        destruct Hix as [[-> ->]|(_ & Hload & Hmin)]; simpl in *; try lia;
        destruct (Nat.eqb_spec (length buckets) 0); lia.
  - apply orb_false_iff in Hgrow as [H0%Nat.eqb_neq Hload%Nat.leb_gt]. run_outcome.
    destruct Hix as [[-> _]|(Hok & _ & Hmin)]; [done|].
    apply Hregister; [lia|done|]. left. by eapply index_ok_ext.
Qed.

Lemma symbol_map_snoc ys y :
  NoDup (bsym_name <$> ys ++ [y]) → symbol_map (ys ++ [y]) = <[bsym_name y := y]> (symbol_map ys).
Proof.
  intros Hnd. apply map_eq. intros name.
  assert (NoDup (bsym_name <$> ys)) as Hnd' by (rewrite fmap_app in Hnd; by apply NoDup_app in Hnd as [? _]).
  apply option_eq. intros z. rewrite symbol_map_lookup by done.
  destruct (decide (bsym_name y = name)) as [<-|Hne].
  - rewrite lookup_insert_eq. split.
    + intros (i & Hi & Hz). f_equal. assert ((ys ++ [y]) !! length ys = Some y) as Hl by by apply list_lookup_middle.
      rewrite (symbol_at_unique _ _ _ _ Hnd (ex_intro _ z (conj Hi Hz)) (ex_intro _ y (conj Hl eq_refl))) in Hi.
      congruence.
    + intros [= <-]. exists (length ys). split; [by apply list_lookup_middle|done].
  - rewrite lookup_insert_ne, symbol_map_lookup by done. split; intros (i & Hi & Hz); exists i; (split; [|done]).
    + apply lookup_app_Some in Hi as [Hi|[? Hi]]; [done|]. apply list_lookup_singleton_Some in Hi as [_ <-]. done.
    + by apply lookup_app_l_Some.
Qed.

Lemma symbol_map_update ys i old y :
  NoDup (bsym_name <$> ys) → ys !! i = Some old → bsym_name y = bsym_name old →
  bsym_name <$> <[i := y]> ys = bsym_name <$> ys ∧
  symbol_map (<[i := y]> ys) = <[bsym_name y := y]> (symbol_map ys).
Proof.
  intros Hnd Hi Hn.
  assert (bsym_name <$> <[i := y]> ys = bsym_name <$> ys) as Hnames.
  { rewrite list_fmap_insert. apply list_insert_id. by rewrite list_lookup_fmap, Hi, Hn. }
  split; [done|]. apply map_eq. intros name. apply option_eq. intros z.
  assert (∀ j x, ys !! j = Some x → bsym_name x = bsym_name y → j = i) as Huniq.
  { intros j x Hj Hx. apply (symbol_at_unique ys (bsym_name y)); [done|by exists x|by exists old]. }
  rewrite symbol_map_lookup by (by rewrite Hnames).
  destruct (decide (bsym_name y = name)) as [<-|Hne].
  - rewrite lookup_insert_eq. split.
    + intros (j & Hj & Hz). destruct (decide (j = i)) as [->|Hij].
      { rewrite list_lookup_insert_eq in Hj by (by eapply lookup_lt_Some). congruence. }
      rewrite list_lookup_insert_ne in Hj by done. by destruct Hij; apply (Huniq j z).
    + intros [= <-]. exists i. split; [|done]. apply list_lookup_insert_eq. by eapply lookup_lt_Some.
  - rewrite lookup_insert_ne, symbol_map_lookup by done. split; intros (j & Hj & Hz); exists j; (split; [|done]);
      destruct (decide (j = i)) as [->|Hij].
    + rewrite list_lookup_insert_eq in Hj by (by eapply lookup_lt_Some). congruence.
    + by rewrite list_lookup_insert_ne in Hj.
    + congruence.
    + by rewrite list_lookup_insert_ne.
Qed.

Lemma define_symbol_spec alloc e name binding section value size :
  emitter_ok e → (Z.of_nat (length (em_symbols e)) < 2 ^ 31)%Z → name ≠ EmptyString →
  match binary_emitter_define_symbol alloc e name binding section value size with
  | Done e' =>
      emitter_ok e' ∧ em_sections e' = em_sections e ∧ em_relocations e' = em_relocations e ∧
      symbol_map (em_symbols e') =
        <[name := mkBinarySymbol name binding section value size]> (symbol_map (em_symbols e))
  | Failed err => err = EE_index_memory ∧ alloc = false ∧ symbol_map (em_symbols e) !! name = None
  | Undefined => False
  end.
Proof.
  intros He Hlen Hname. pose proof (ek_symbol_names e He) as Hnd. unfold binary_emitter_define_symbol.
  apply String.eqb_neq in Hname. rewrite Hname. run_outcome. apply String.eqb_neq in Hname.
  destruct (find_symbol_index_spec e name He Hlen) as [(i & -> & old & Hi & Hn)|[-> Hnone]]; run_outcome.
  - destruct (Z.leb_spec 0 (Z.of_nat i)); [|lia]. rewrite Nat2Z.id, Hi. run_outcome. rewrite Hn.
    destruct (symbol_map_update (em_symbols e) i old (mkBinarySymbol name binding section value size) Hnd Hi)
      as [Hnames Hmap]; [done|].
    split; [|done]. destruct He as [H1 H2 H3 H4 H5 H6 H7]. split; cbn [em_sections em_symbols em_relocations em_buckets]; try done.
    + by rewrite Hnames.
    + by apply Forall_insert.
    + destruct H7 as [[-> Hnil]|(Hix & Hload & Hmin)]; [by rewrite Hnil in Hi|]. right. rewrite length_insert.
      split_and!; [|done..]. eapply index_ok_ext; [|exact Hix]. intros j Hj. unfold bsym_hash.
      destruct (decide (j = i)) as [->|]; [|by rewrite list_lookup_insert_ne].
      rewrite list_lookup_insert_eq by done. by rewrite Hi, <- Hn.
  - change (0 <=? -1)%Z with false. cbv iota.
    set (y := mkBinarySymbol name binding section value size).
    pose proof (index_insert_spec alloc (em_symbols e) y (em_buckets e) (ek_index e He)) as Hins.
    destruct (binary_emitter_symbol_index_insert _ _ _ _) as [b|err|]; run_outcome; [|by destruct Hins|done].
    assert (NoDup (bsym_name <$> em_symbols e ++ [y])) as Hnd'.
    { rewrite fmap_app. apply NoDup_app. split; [done|]. split; [|by apply NoDup_singleton].
      intros n Hn Hn'%list_elem_of_singleton. simpl in Hn'. subst n.
      apply list_elem_of_fmap in Hn as (z & Hz & [j Hj]%list_elem_of_lookup).
      by apply (proj1 (symbol_map_None _ _) Hnone j z). }
    split; [|split_and!; [done..|by apply symbol_map_snoc]].
    destruct He as [H1 H2 H3 H4 H5 H6 H7]. split; try done.
    apply Forall_app_2; [done|]. by constructor.
Qed.

Lemma emitter_find_symbol_spec e name :
  emitter_ok e → (Z.of_nat (length (em_symbols e)) < 2 ^ 31)%Z →
  binary_emitter_find_symbol e name = Done (symbol_map (em_symbols e) !! name).
Proof.
  intros He Hlen. unfold binary_emitter_find_symbol.
  destruct (find_symbol_index_spec e name He Hlen) as [(i & -> & y & Hi & Hn)|[-> ->]]; run_outcome; [|done].
  destruct (Z.ltb_spec (Z.of_nat i) 0); [lia|]. rewrite Nat2Z.id, Hi. f_equal. symmetry.
  apply symbol_map_lookup; [by apply ek_symbol_names|]. by exists i.
Qed.

(** ** Reachable emitters *)

(** The operations of the code generator on an emitter. *)
Inductive emitter_step (e : BinaryEmitter) : BinaryEmitter → Prop :=
  | step_section name kind characteristics alignment e' i :
      binary_emitter_get_or_create_section e name kind characteristics alignment = Some (e', i) →
      emitter_step e e'
  | step_align i alignment fill e' :
      binary_emitter_align_section e i alignment fill = Some e' → emitter_step e e'
  | step_append i bytes e' offset :
      binary_emitter_append_bytes e i bytes = Some (e', offset) → emitter_step e e'
  | step_zeros i size e' offset :
      binary_emitter_append_zeros e i size = Some (e', offset) → emitter_step e e'
  | step_virtual_size i size e' :
      binary_emitter_set_section_virtual_size e i size = Some e' → emitter_step e e'
  | step_define alloc name binding section value size e' :
      (Z.of_nat (length (em_symbols e)) < 2 ^ 31)%Z →
      binary_emitter_define_symbol alloc e name binding section value size = Done e' → emitter_step e e'
  | step_relocation section offset kind name addend e' :
      binary_emitter_add_relocation e section offset kind name addend = Done e' → emitter_step e e'
  | step_reset : emitter_step e (binary_emitter_reset e).

Lemma update_section_ok e i s s' :
  emitter_ok e → em_sections e !! i = Some s → bsec_name s' = bsec_name s →
  (bsec_size s' ≤ bsec_virtual_size s')%Z → emitter_ok (update_section e i s').
Proof.
  intros [H1 H2 H3 H4 H5 H6 H7] Hi Hn Hs. split; cbn [update_section em_sections em_symbols em_relocations em_buckets]; try done.
  - rewrite list_fmap_insert, list_insert_id; [done|]. by rewrite list_lookup_fmap, Hi, Hn.
  - apply Forall_insert; [done|]. rewrite Hn. by eapply (Forall_lookup_1 _ _ _ _ H2).
  - by rewrite length_insert.
  - by apply Forall_insert.
Qed.

Lemma extend_section_size s bytes :
  (bsec_size (extend_section s bytes) ≤ bsec_virtual_size (extend_section s bytes))%Z.
Proof. unfold extend_section, bsec_size. cbn [bsec_data bsec_virtual_size]. destruct (Z.ltb_spec (bsec_virtual_size s) (Z.of_nat (length (bsec_data s ++ bytes)))); lia. Qed.

Lemma append_bytes_ok e i bytes e' offset :
  emitter_ok e → binary_emitter_append_bytes e i bytes = Some (e', offset) → emitter_ok e'.
Proof.
  intros He (s & Hs & [= <- <-])%bind_Some. eapply update_section_ok; [done|exact Hs|done|apply extend_section_size].
Qed.

Lemma emitter_step_ok e e' : emitter_ok e → emitter_step e e' → emitter_ok e'.
Proof.
  intros He Hstep. destruct Hstep as [name k c a e' i H|i a fill e' H|i bytes e' o H|i n e' o H|i n e' H
    |alloc name b sec v n e' Hlen H|sec o k name a e' H|].
  - unfold binary_emitter_get_or_create_section in H. destruct (String.eqb_spec name EmptyString); [done|].
    destruct (list_find _ _) as [[j s]|] eqn:Hf; simplify_eq.
    + apply list_find_Some in Hf as (Hj & _ & _). eapply update_section_ok; [done|exact Hj|done|].
      by apply (Forall_lookup_1 _ _ _ _ (ek_sizes e He) Hj).
    + apply list_find_None in Hf. destruct He as [H1 H2 H3 H4 H5 H6 H7].
      split; cbn [em_sections em_symbols em_relocations em_buckets]; try done.
      * rewrite fmap_app. apply NoDup_app. split; [done|]. split; [|by apply NoDup_singleton].
        intros m (s & -> & Hs)%list_elem_of_fmap Hm%list_elem_of_singleton.
        rewrite Forall_forall in Hf. apply (Hf s Hs). unfold has_section_name. by apply String.eqb_eq.
      * apply Forall_app_2; [done|]. by constructor.
      * eapply Forall_impl; [exact H5|]. intros r Hr. simpl in *. rewrite length_app. lia.
      * apply Forall_app_2; [done|]. by constructor.
  - apply bind_Some in H as (s & Hs & H). destruct (a =? 0)%Z; [done|].
    set (s' := if (bsec_alignment s <? a)%Z then set_alignment s a else s) in H.
    assert (bsec_name s' = bsec_name s ∧ bsec_size s' = bsec_size s ∧ bsec_virtual_size s' = bsec_virtual_size s) as (Hn & Hz & Hv)
      by (unfold s'; by destruct (bsec_alignment s <? a)%Z).
    cbv zeta in H. destruct (bsec_size s' `mod` a =? 0)%Z; injection H as <-; (eapply update_section_ok; [done|exact Hs|done|]).
    + rewrite Hz, Hv. by apply (Forall_lookup_1 _ _ _ _ (ek_sizes e He) Hs).
    + apply extend_section_size.
  - by eapply append_bytes_ok.
  - by eapply append_bytes_ok.
  - apply bind_Some in H as (s & Hs & H). destruct (Z.ltb_spec n (bsec_size s)); simplify_eq.
    by eapply update_section_ok; [done|exact Hs|..].
  - destruct (decide (name = EmptyString)) as [->|Hname]; [done|].
    pose proof (define_symbol_spec alloc e name b sec v n He Hlen Hname) as Hspec. rewrite H in Hspec. apply Hspec.
  - apply bind_Done in H as (u & Hr%require_Done & [= <-]). apply andb_true_iff in Hr as [_ Hsec%Nat.ltb_lt].
    destruct He as [H1 H2 H3 H4 H5 H6 H7]. split; try done. apply Forall_app_2; [done|]. by constructor.
  - split; by (constructor || left).
Qed.

Lemma emitter_steps_ok e : rtc emitter_step binary_emitter_create e → emitter_ok e.
Proof.
  intros H. assert (emitter_ok binary_emitter_create) as Hc by (split; by (constructor || left)).
  induction H as [|e1 e2 e3 Hstep _ IH]; [done|]. by apply IH, (emitter_step_ok e1).
Qed.

(** C35. Every emitter that the operations can produce from an empty one has distinct
    non-empty names, relocations in its sections, sizes within the virtual sizes, and
    a symbol index with every symbol in it and room to spare. *)
Theorem emitter_reachable_ok e : rtc emitter_step binary_emitter_create e → emitter_ok e.
Proof. exact (emitter_steps_ok e). Qed.

(** C30. The symbols of an emitter are a finite map from names: defining a symbol inserts
    it, or replaces what the name had, whatever the state of the hash index, and a
    failed allocation changes nothing; lookups answer from the map. *)
Theorem emitter_symbols_refine alloc e name binding section value size :
  emitter_ok e → (Z.of_nat (length (em_symbols e)) < 2 ^ 31)%Z → name ≠ EmptyString →
  (match binary_emitter_define_symbol alloc e name binding section value size with
   | Done e' =>
       emitter_ok e' ∧ em_sections e' = em_sections e ∧ em_relocations e' = em_relocations e ∧
       symbol_map (em_symbols e') =
         <[name := mkBinarySymbol name binding section value size]> (symbol_map (em_symbols e))
   | Failed err => err = EE_index_memory ∧ alloc = false ∧ symbol_map (em_symbols e) !! name = None
   | Undefined => False
   end) ∧
  ∀ n, binary_emitter_find_symbol e n = Done (symbol_map (em_symbols e) !! n).
Proof. intros. split; [by apply define_symbol_spec|]. intros n. by apply emitter_find_symbol_spec. Qed.

(** ** An example *)

Definition succeeded {A} (o : checked emit_error A) : option A := match o with Done a => Some a | _ => None end.

(** A [.text] that calls an external function, and a section with a long name. *)
Definition sample_program : option BinaryEmitter :=
  '(e, text) ← binary_emitter_get_or_create_section binary_emitter_create ".text" BINARY_SECTION_TEXT 0 16;
  '(e, data) ← binary_emitter_get_or_create_section e ".rdata$strings" BINARY_SECTION_RDATA 0 8;
  '(e, _) ← binary_emitter_append_bytes e text (map byte.of_Z [232; 0; 0; 0; 0; 195]%Z);
  e ← binary_emitter_align_section e text 4 (byte.of_Z 144);
  '(e, _) ← binary_emitter_append_zeros e data 3;
  e ← succeeded (binary_emitter_define_symbol true e "main" BINARY_SYMBOL_GLOBAL (Some text) 0 8);
  e ← succeeded (binary_emitter_declare_external true e "mettle_print_line");
  succeeded (binary_emitter_add_relocation e text 1 BINARY_RELOCATION_REL32 "mettle_print_line" 0).

Lemma succeeded_Some {A} (o : checked emit_error A) a : succeeded o = Some a → o = Done a.
Proof. destruct o; simpl; congruence. Qed.

Lemma sample_reachable e : sample_program = Some e → rtc emitter_step binary_emitter_create e.
Proof.
  intros H. unfold sample_program in H.
  apply bind_Some in H as ([e1 text] & H1 & H). apply bind_Some in H as ([e2 data] & H2 & H).
  apply bind_Some in H as ([e3 o3] & H3 & H). apply bind_Some in H as (e4 & H4 & H).
  apply bind_Some in H as ([e5 o5] & H5 & H). apply bind_Some in H as (e6 & H6%succeeded_Some & H).
  apply bind_Some in H as (e7 & H7%succeeded_Some & H8%succeeded_Some).
  eapply rtc_l; [by eapply step_section|]. eapply rtc_l; [by eapply step_section|].
  eapply rtc_l; [by eapply step_append|]. eapply rtc_l; [by eapply step_align|].
  eapply rtc_l; [by eapply step_zeros|].
  vm_compute in H1. injection H1 as <- <-. vm_compute in H2. injection H2 as <- <-.
  vm_compute in H3. injection H3 as <- <-. vm_compute in H4. injection H4 as <-. vm_compute in H5. injection H5 as <- <-.
  eapply rtc_l; [eapply step_define; [|exact H6]; reflexivity|].
  vm_compute in H6. injection H6 as <-.
  eapply rtc_l; [eapply step_define; [|exact H7]; reflexivity|].
  eapply rtc_l; [by eapply step_relocation|]. apply rtc_refl.
Qed.

Lemma emitter_reachable_ok_witness : ∃ e, sample_program = Some e ∧ emitter_ok e.
Proof.
  destruct sample_program as [e|] eqn:He; [|vm_compute in He; discriminate He].
  exists e. split; [reflexivity|]. apply emitter_reachable_ok. apply sample_reachable. exact He.
Defined.

Lemma emitter_symbols_refine_witness :
  ∃ e e', sample_program = Some e ∧
    binary_emitter_define_symbol true e "main" BINARY_SYMBOL_LOCAL (Some 0) 4 8 = Done e' ∧ emitter_ok e' ∧
    bsym_value <$> symbol_map (em_symbols e') !! "main"%string = Some 4%Z.
Proof.
  destruct sample_program as [e|] eqn:He; [|vm_compute in He; discriminate He].
  destruct (emitter_symbols_refine true e "main" BINARY_SYMBOL_LOCAL (Some 0) 4 8) as [Hdef _].
  - apply emitter_steps_ok, sample_reachable. exact He.
  - vm_compute in He. injection He as <-. reflexivity.
  - discriminate.
  - destruct (binary_emitter_define_symbol true e "main" BINARY_SYMBOL_LOCAL (Some 0) 4 8) as [e'|err|] eqn:Hd.
    + exists e, e'. destruct Hdef as (Hok & _ & _ & Hmap). split; [reflexivity|]. split; [exact Hd|].
      split; [exact Hok|]. rewrite Hmap. rewrite lookup_insert_eq. reflexivity.
    + destruct Hdef as (_ & Hf & _). discriminate Hf.
    + destruct Hdef.
Defined.

(** ** The order of relocations in an object file

    The counting sort of the object writer groups relocations by section and keeps
    their order inside a section. *)

(** ** Lists *)

Lemma concat_lookup_inv {A} (l : list (list A)) x v :
  concat l !! x = Some v → ∃ i j li, l !! i = Some li ∧ li !! j = Some v ∧ x = length (concat (take i l)) + j.
Proof.
  revert x. induction l as [|l0 l IH]; intros x; [done|]. cbn [concat].
  intros [H|[Hle H]]%lookup_app_Some; [by exists 0, x, l0|].
  apply IH in H as (i & j & li & Hi & Hj & Hx). exists (S i), j, li. split_and!; [done..|].
  cbn [take concat]. rewrite length_app. lia.
Qed.

Lemma sum_list_alter_S (counts : list nat) i : i < length counts → sum_list (alter S i counts) = S (sum_list counts).
Proof.
  revert i. induction counts as [|c counts IH]; intros i Hi; [simpl in Hi; lia|]. destruct i as [|i]; [done|].
  change (c + sum_list (alter S i counts) = S (c + sum_list counts)).
  rewrite IH by (simpl in Hi; lia). lia.
Qed.

Lemma length_concat_sum {A} (l : list (list A)) : length (concat l) = sum_list (length <$> l).
Proof. induction l as [|x l IH]; simpl; [done|]. by rewrite length_app, IH. Qed.

(** ** Positions *)

(** The numbers, from [k], of the relocations of section [i]. *)
Fixpoint positions (i k : nat) (rs : list BinaryRelocation) : list nat :=
  match rs with
  | [] => []
  | r :: rs' =>
      if decide (brel_section_index r = i) then k :: positions i (S k) rs' else positions i (S k) rs'
  end.

Lemma positions_shape i k rs j x :
  positions i k rs !! j = Some x → ∃ r, k ≤ x ∧ rs !! (x - k) = Some r ∧ brel_section_index r = i.
Proof.
  revert k j. induction rs as [|r rs IH]; intros k j; [done|]. cbn [positions].
  assert (∀ j, positions i (S k) rs !! j = Some x → ∃ r0, k ≤ x ∧ (r :: rs) !! (x - k) = Some r0 ∧ brel_section_index r0 = i)
    as Htail.
  { intros j' (r0 & Hle & Hr & Hs)%IH. exists r0. split_and!; [lia| |done].
    by replace (x - k) with (S (x - S k)) by lia. }
  destruct (decide _) as [Hs|]; [|by apply Htail]. destruct j as [|j]; [|by apply Htail].
  intros [= <-]. exists r. rewrite Nat.sub_diag. done.
Qed.

Lemma positions_relocations i k rs pre :
  length pre = k →
  omap (λ x, (pre ++ rs) !! x) (positions i k rs) = filter (λ r, brel_section_index r = i) rs.
Proof.
  revert k pre. induction rs as [|r rs IH]; intros k pre Hk; [done|]. cbn [positions].
  specialize (IH (S k) (pre ++ [r]) ltac:(rewrite length_app; simpl; lia)). rewrite <- app_assoc in IH. cbn [app] in IH.
  rewrite filter_cons. destruct (decide (brel_section_index r = i)); [|done].
  cbn [omap list_omap]. rewrite <- Hk at 1. rewrite list_lookup_middle by done. by f_equal.
Qed.

Definition grouped (n k : nat) (rs : list BinaryRelocation) : list (list nat) :=
  (λ i, positions i k rs) <$> seq 0 n.

Lemma grouped_counts n k rs :
  Forall (λ r, brel_section_index r < n) rs → length (concat (grouped n k rs)) = length rs.
Proof.
  intros Hrs. rewrite length_concat_sum. unfold grouped. rewrite <- list_fmap_compose. revert k.
  induction Hrs as [|r rs Hr Hrs IH]; intros k; [by induction (seq 0 n)|]. cbn [length].
  rewrite <- (IH (S k)), <- (sum_list_alter_S _ (brel_section_index r)) by (by rewrite length_fmap, length_seq).
  f_equal. apply list_eq. intros i. rewrite list_lookup_alter, !list_lookup_fmap.
  destruct (decide (brel_section_index r = i)) as [<-|Hne].
  - destruct (seq 0 n !! brel_section_index r) as [j|] eqn:Hj; [|done].
    apply lookup_seq in Hj as [-> _]. simpl. destruct (decide _); [done|lia].
  - destruct (seq 0 n !! i) as [j|] eqn:Hj; [|done]. apply lookup_seq in Hj as [-> _].
    simpl. destruct (decide _); [lia|done].
Qed.

(** ** Counting *)

Lemma count_relocations_spec rs counts k :
  Forall (λ r, brel_section_index r < length counts) rs →
  ∃ counts', count_relocations rs counts = Done counts' ∧ length counts' = length counts ∧
    ∀ i c, counts !! i = Some c → counts' !! i = Some (c + length (positions i k rs)).
Proof.
  revert counts k. induction rs as [|r rs IH]; intros counts k Hrs; cbn [count_relocations].
  { exists counts. split_and!; [done..|]. intros i c Hc. simpl. by rewrite Nat.add_0_r. }
  apply Forall_cons in Hrs as [Hr Hrs]. destruct (Nat.ltb_spec (brel_section_index r) (length counts)); [|lia].
  run_outcome. destruct (IH (alter S (brel_section_index r) counts) (S k)) as (counts' & -> & Hlen & Hc).
  { by rewrite length_alter. }
  rewrite length_alter in Hlen. exists counts'. split_and!; [done..|]. intros i c Hi. cbn [positions].
  destruct (decide (brel_section_index r = i)) as [<-|Hne].
  - rewrite (Hc (brel_section_index r) (S c)); [simpl; f_equal; lia|]. by rewrite list_lookup_alter_eq, Hi.
  - rewrite (Hc i c); [done|]. by rewrite list_lookup_alter_ne.
Qed.

Lemma reloc_starts_lookup counts start i :
  i ≤ length counts → reloc_starts counts start !! i = Some (start + sum_list (take i counts)).
Proof.
  revert start i. induction counts as [|c counts IH]; intros start [|i] Hi; simpl in *; try lia.
  - by rewrite Nat.add_0_r.
  - by rewrite Nat.add_0_r.
  - rewrite IH by lia. f_equal. lia.
Qed.

(** ** Placement *)

(** The places of section [i] still to fill. *)
Record placing (start cursor ordered : list nat) (k : nat) (rs : list BinaryRelocation) : Prop := {
  pg_room i c : cursor !! i = Some c →
    ∃ s, start !! i = Some s ∧ s + c + length (positions i k rs) ≤ length ordered;
  pg_apart i i' s s' c : i < i' → start !! i = Some s → start !! i' = Some s' → cursor !! i = Some c →
    is_Some (cursor !! i') → s + c + length (positions i k rs) ≤ s' }.

(** What [ordered'] holds when the pass over [rs] is done. *)
Record placed (start cursor ordered : list nat) (k : nat) (rs : list BinaryRelocation) (ordered' : list nat) : Prop := {
  pd_length : length ordered' = length ordered;
  pd_here i s c j x : start !! i = Some s → cursor !! i = Some c → positions i k rs !! j = Some x →
    ordered' !! (s + c + j) = Some x;
  pd_frame x : (∀ i s c, start !! i = Some s → cursor !! i = Some c →
    x < s + c ∨ s + c + length (positions i k rs) ≤ x) → ordered' !! x = ordered !! x }.

Lemma order_relocations_spec start rs k cursor ordered :
  Forall (λ r, brel_section_index r < length cursor) rs → placing start cursor ordered k rs →
  ∃ ordered', order_relocations start rs k cursor ordered = Done ordered' ∧
    placed start cursor ordered k rs ordered'.
Proof.
  revert k cursor ordered. induction rs as [|r rs IH]; intros k cursor ordered Hrs [Hroom Hap]; cbn [order_relocations].
  { exists ordered. split; [done|]. by split. }
  apply Forall_cons in Hrs as [Hr Hrs]. set (m := brel_section_index r) in *.
  destruct (lookup_lt_is_Some_2 cursor m Hr) as [c Hc]. destruct (Hroom m c Hc) as (s & Hs & Hlen).
  assert (positions m k (r :: rs) = k :: positions m (S k) rs) as Hm by (cbn [positions]; by destruct (decide _)).
  assert (∀ i, i ≠ m → positions i k (r :: rs) = positions i (S k) rs) as Hother.
  { intros i Hi. cbn [positions]. destruct (decide _); [by subst|done]. }
  rewrite Hm in Hlen. cbn [length] in Hlen. rewrite Hs, Hc. run_outcome.
  destruct (lookup_lt_is_Some_2 ordered (s + c) ltac:(lia)) as [o Ho]. rewrite Ho. run_outcome.
  destruct (IH (S k) (<[m := S c]> cursor) (<[s + c := k]> ordered)) as (ordered' & -> & [Hl Hhere Hframe]).
  { by rewrite length_insert. }
  { split.
    - intros i ci Hi. rewrite length_insert. destruct (decide (i = m)) as [->|Hne].
      + rewrite list_lookup_insert_eq in Hi by done. injection Hi as <-. exists s. split; [done|lia].
      + rewrite list_lookup_insert_ne in Hi by done. destruct (Hroom i ci Hi) as (si & Hsi & Hli).
        exists si. split; [done|]. by rewrite <- Hother.
    - intros i i' si si' ci Hii Hsi Hsi' Hci Hsome.
      assert (is_Some (cursor !! i')) as Hsome'.
      { apply lookup_lt_is_Some. apply lookup_lt_is_Some in Hsome. by rewrite length_insert in Hsome. }
      destruct (decide (i = m)) as [->|Hne].
      + rewrite list_lookup_insert_eq in Hci by done. injection Hci as <-.
        assert (si = s) as -> by congruence. pose proof (Hap m i' s si' c Hii Hs Hsi' Hc Hsome') as Hle.
        rewrite Hm in Hle. cbn [length] in Hle. lia.
      + rewrite list_lookup_insert_ne in Hci by done. rewrite <- Hother by done. by eapply Hap. }
  exists ordered'. split; [done|]. split.
  - by rewrite Hl, length_insert.
  - intros i si ci j x Hsi Hci Hx. destruct (decide (i = m)) as [->|Hne].
    + rewrite Hm in Hx. assert (si = s) as -> by congruence. assert (ci = c) as -> by congruence.
      destruct j as [|j].
      * injection Hx as <-. rewrite Nat.add_0_r, Hframe.
        { apply list_lookup_insert_eq. lia. }
        intros i si ci Hsi' Hci'. destruct (decide (i = m)) as [->|Hne].
        { rewrite list_lookup_insert_eq in Hci' by done. injection Hci' as <-. assert (si = s) as -> by congruence. lia. }
        rewrite list_lookup_insert_ne in Hci' by done. destruct (decide (i < m)).
        -- right. rewrite <- Hother by done. pose proof (Hap i m si s ci ltac:(lia) Hsi' Hs Hci' (ex_intro _ _ Hc)). lia.
        -- left. pose proof (Hap m i s si c ltac:(lia) Hs Hsi' Hc (ex_intro _ _ Hci')) as Hle.
           rewrite Hm in Hle. cbn [length] in Hle. lia.
      * simpl in Hx. replace (s + c + S j) with (s + S c + j) by lia. apply (Hhere m); [done| |done].
        by apply list_lookup_insert_eq.
    + apply (Hhere i); [done|by rewrite list_lookup_insert_ne|by rewrite <- Hother].
  - intros x Hx. pose proof (Hx m s c Hs Hc) as Hxm. rewrite Hm in Hxm. cbn [length] in Hxm.
    rewrite Hframe; [rewrite list_lookup_insert_ne by lia; done|]. intros i si ci Hsi Hci.
    destruct (decide (i = m)) as [->|Hne].
    + rewrite list_lookup_insert_eq in Hci by done. injection Hci as <-. assert (si = s) as -> by congruence. lia.
    + rewrite list_lookup_insert_ne in Hci by done. rewrite <- Hother by done. by apply Hx.
Qed.

(** The relocations come grouped by section, in their order inside each. *)
Lemma order_relocations_grouped rs counts n :
  Forall (λ r, brel_section_index r < n) rs → length counts = n →
  (∀ i, i < n → counts !! i = Some (length (positions i 0 rs))) →
  order_relocations (reloc_starts counts 0) rs 0 (replicate n 0) (replicate (length rs) 0) =
  Done (concat (grouped n 0 rs)).
Proof.
  intros Hrs Hlen Hc.
  assert (counts = length <$> grouped n 0 rs) as Hcounts.
  { apply list_eq. intros i. unfold grouped. rewrite <- list_fmap_compose, list_lookup_fmap. destruct (decide (i < n)).
    - by rewrite Hc, lookup_seq_lt by done.
    - rewrite !lookup_ge_None_2; [done|rewrite length_seq; lia|lia]. }
  assert (∀ i, i ≤ n → reloc_starts counts 0 !! i = Some (length (concat (take i (grouped n 0 rs))))) as Hstart.
  { intros i Hi. rewrite reloc_starts_lookup by lia. simpl. by rewrite Hcounts, length_concat_sum, <- fmap_take. }
  assert (∀ i, i < n → grouped n 0 rs !! i = Some (positions i 0 rs)) as Hgroup.
  { intros i Hi. unfold grouped. by rewrite list_lookup_fmap, lookup_seq_lt. }
  assert (∀ i, i < n → length (concat (take (S i) (grouped n 0 rs))) =
    length (concat (take i (grouped n 0 rs))) + length (positions i 0 rs)) as Hsucc.
  { intros i Hi. rewrite (take_S_r _ _ _ (Hgroup i Hi)), concat_app, length_app. simpl. by rewrite app_nil_r. }
  assert (∀ i j, i ≤ j → length (concat (take i (grouped n 0 rs))) ≤ length (concat (take j (grouped n 0 rs)))) as Hmono.
  { intros i j Hij. replace (take j (grouped n 0 rs)) with (take i (grouped n 0 rs) ++ take (j - i) (drop i (grouped n 0 rs))).
    - rewrite concat_app, length_app. lia.
    - rewrite take_take_drop. f_equal. lia. }
  assert (length (concat (take n (grouped n 0 rs))) = length rs) as Htotal.
  { rewrite take_ge by (unfold grouped; by rewrite length_fmap, length_seq). by apply grouped_counts. }
  destruct (order_relocations_spec (reloc_starts counts 0) rs 0 (replicate n 0) (replicate (length rs) 0))
    as (ordered & -> & [Hl Hhere _]).
  { by rewrite length_replicate. }
  { split.
    - intros i c [-> Hi]%lookup_replicate. eexists. split; [apply Hstart; lia|].
      rewrite length_replicate, Nat.add_0_r, <- Hsucc, <- Htotal by done. apply Hmono. lia.
    - intros i i' s s' c Hii Hs Hs' [-> Hi]%lookup_replicate [? [_ Hi']%lookup_replicate].
      rewrite Hstart in Hs, Hs' by lia. simplify_eq. rewrite Nat.add_0_r, <- Hsucc by done. apply Hmono. lia. }
  rewrite length_replicate in Hl. f_equal. eapply list_eq_same_length; [by apply grouped_counts|done|].
  intros x a b Hx Ha (i & j & li & Hi & Hj & ->)%concat_lookup_inv.
  assert (i < n) as Hin by (apply lookup_lt_Some in Hi; unfold grouped in Hi; by rewrite length_fmap, length_seq in Hi).
  rewrite Hgroup in Hi by done. injection Hi as <-.
  rewrite <- (Nat.add_0_r (length _)) in Ha. rewrite (Hhere i _ 0 j b) in Ha; [congruence|apply Hstart; lia| |done].
  by apply lookup_replicate.
Qed.
