(* ===== verification/Slice.v ===== *)
(** * Bytes found in a file

    [holds file off bs]: the bytes [bs] stand at [off] in [file].  A file written as a
    concatenation holds each of its parts, and the reads of the linker at a part give
    the number written there. *)

From S2P Require Import Prelude Outcome LinkBase.

Definition holds (file : list byte) (off : nat) (bs : list byte) : Prop :=
  ∃ pre post, file = pre ++ bs ++ post ∧ length pre = off.

Lemma holds_whole file : holds file 0 file.
Proof. exists [], []. by rewrite app_nil_r. Qed.

Lemma holds_app file off a b : holds file off (a ++ b) → holds file off a ∧ holds file (off + length a) b.
Proof.
  intros (pre & post & -> & <-). split.
  - exists pre, (b ++ post). by rewrite <- app_assoc.
  - exists (pre ++ a), post. split; [by rewrite <- !app_assoc|apply length_app].
Qed.

Lemma holds_app_1 file off a b : holds file off (a ++ b) → holds file off a.
Proof. intros H. by apply holds_app in H as [? _]. Qed.

Lemma holds_app_2 file off a b off' : holds file off (a ++ b) → off' = off + length a → holds file off' b.
Proof. intros H ->. by apply holds_app in H as [_ ?]. Qed.

Lemma holds_eq file off off' bs : holds file off bs → off = off' → holds file off' bs.
Proof. by intros H <-. Qed.

Lemma holds_bound file off bs : holds file off bs → off + length bs ≤ length file.
Proof. intros (pre & post & -> & <-). rewrite !length_app. lia. Qed.

Lemma holds_slice file off bs : holds file off bs → take (length bs) (drop off file) = bs.
Proof. intros (pre & post & -> & <-). by rewrite drop_app_length, take_app_length. Qed.

Lemma holds_trans file off bs off' bs' : holds file off bs → holds bs off' bs' → holds file (off + off') bs'.
Proof.
  intros (pre & post & -> & <-) (pre' & post' & -> & <-).
  exists (pre ++ pre'), (post' ++ post). by rewrite <- !app_assoc, length_app.
Qed.

Lemma holds_concat file off bss i bs :
  holds file off (concat bss) → bss !! i = Some bs → holds file (off + length (concat (take i bss))) bs.
Proof.
  intros H Hi. rewrite <- (take_drop_middle _ _ _ Hi), concat_app in H. cbn [concat] in H.
  apply holds_app in H as [_ H]. by apply holds_app_1 in H.
Qed.

(** ** Reads *)

Section reads.
Variable file : list byte.

Lemma holds_field off n v : holds file off (le_split n v) → field n file off = (v mod 2 ^ (8 * Z.of_nat n))%Z.
Proof.
  intros H. unfold field. pose proof (holds_slice _ _ _ H) as Hs. rewrite length_le_split in Hs.
  rewrite Hs, Z.mul_comm. apply le_combine_split.
Qed.

Lemma read_u16_at z off v :
  z = Z.of_nat off → holds file off (le_split 2 v) → linker_read_u16 file z = Done (u16 v).
Proof.
  intros -> H. pose proof (holds_bound _ _ _ H) as Hb. rewrite length_le_split in Hb.
  rewrite read_u16_spec by done. by rewrite (holds_field off 2 v).
Qed.

Lemma read_u32_at z off v :
  z = Z.of_nat off → holds file off (le_split 4 v) → linker_read_u32 file z = Done (u32 v).
Proof.
  intros -> H. pose proof (holds_bound _ _ _ H) as Hb. rewrite length_le_split in Hb.
  rewrite read_u32_spec by done. by rewrite (holds_field off 4 v).
Qed.

Lemma byte_at_at z off b : z = Z.of_nat off → holds file off [b] → byte_at file z = Done (byte.unsigned b).
Proof.
  intros -> (pre & post & -> & <-). unfold byte_at. rewrite Nat2Z.id.
  cbn [app]. by rewrite list_lookup_middle.
Qed.
End reads.

(** Splits [H : holds file off (a ++ b ++ ...)] into its parts, the offsets as sums. *)
Ltac split_holds H :=
  lazymatch type of H with
  | holds _ _ (_ ++ _) =>
      let H1 := fresh H in
      apply holds_app in H; destruct H as [H1 H]; split_holds H
  | _ => idtac
  end.

(** Carries out the read at the head of the goal, of what [H] says stands there. *)
Ltac read_at lem H :=
  lazymatch goal with |- context [(_ ?file ?z) ≫= _] => erewrite (lem file z); [| |exact H]; [|lia]; run_outcome end.
