(* ===== verification/CoffNameFacts.v ===== *)
(** * Names in COFF files

    A name written by the object writer, in its field or in the string table, is the
    name the linker reads. *)

From Stdlib Require DecimalFacts DecimalN DecimalString.
From S2P Require Import Prelude Probe Outcome LinkBase Coff BinaryEmitter CoffWriter Slice.

Definition no_nul (name : string) : Prop := "000"%char ∉ list_ascii_of_string name.

#[export] Instance no_nul_dec name : Decision (no_nul name).
Proof. unfold no_nul. apply _. Defined.

Lemma length_name_bytes name : length (name_bytes name) = String.length name.
Proof. unfold name_bytes. rewrite length_map. induction name; simpl; auto. Qed.

Lemma length_zero_bytes n : length (zero_bytes n) = n.
Proof. apply length_replicate. Qed.

Lemma byte_ascii_nul c : is_nul (byte_of_ascii c) = (c =c "000").
Proof. destruct c as [[] [] [] [] [] [] [] []]; reflexivity. Qed.

Lemma no_nul_cons c name : no_nul (String c name) → (c =c "000") = false ∧ no_nul name.
Proof.
  unfold no_nul. simpl. intros [Hc Hn]%not_elem_of_cons. split; [|done]. by apply Ascii.eqb_neq.
Qed.

Lemma c_string_name name rest :
  no_nul name → (rest = [] ∨ ∃ b rest', rest = b :: rest' ∧ is_nul b = true) →
  c_string (name_bytes name ++ rest) = name.
Proof.
  intros Hn Hrest. induction name as [|c name IH]; simpl.
  - destruct Hrest as [->|(b & rest' & -> & Hb)]; [done|]. simpl. unfold is_nul in Hb. by rewrite Hb.
  - apply no_nul_cons in Hn as [Hc Hn]. rewrite <- byte_ascii_nul in Hc. unfold is_nul in Hc.
    rewrite Hc, ascii_of_byte_of_ascii. f_equal. by apply IH.
Qed.

Lemma trim_zero_bytes n bs : trim_nuls (zero_bytes n ++ bs) = trim_nuls bs.
Proof. induction n as [|n IH]; [done|]. simpl. exact IH. Qed.

Lemma trim_name name : no_nul name → trim_nuls (reverse (name_bytes name)) = reverse (name_bytes name).
Proof.
  intros Hn. unfold name_bytes, no_nul in *. set (l := list_ascii_of_string name) in *. clearbody l.
  induction l as [|c l _] using rev_ind; [done|].
  rewrite map_app. cbn [map]. rewrite reverse_app. change (reverse [byte_of_ascii c]) with [byte_of_ascii c]. simpl.
  rewrite byte_ascii_nul. destruct (Ascii.eqb_spec c "000"); [|done]. set_solver.
Qed.

Lemma trimmed_name name n : no_nul name → coff_reader_dup_bytes_trimmed (name_bytes name ++ zero_bytes n) = name.
Proof.
  intros Hn. unfold coff_reader_dup_bytes_trimmed.
  assert (reverse (zero_bytes n) = zero_bytes n) as Hz by apply reverse_replicate.
  rewrite reverse_app, Hz, trim_zero_bytes, trim_name, reverse_involutive by done.
  rewrite <- (app_nil_r (name_bytes name)). apply c_string_name; [done|by left].
Qed.

(** ** The string table *)

Lemma existsb_nul bs rest : existsb is_nul (bs ++ zero_bytes 1 ++ rest) = true.
Proof. rewrite !existsb_app. simpl. by rewrite orb_true_r. Qed.

Lemma string_from_table_at table off name z :
  holds table off (name_bytes name ++ zero_bytes 1) → no_nul name → 4 ≤ off → z = Z.of_nat off →
  coff_reader_string_from_table table z = Some name.
Proof.
  intros Hh Hn Hoff ->. pose proof (holds_bound _ _ _ Hh) as Hb. rewrite length_app, length_zero_bytes in Hb.
  unfold coff_reader_string_from_table.
  destruct (Z.ltb_spec (Z.of_nat (length table)) 4); [lia|].
  destruct (Z.ltb_spec (Z.of_nat off) 4); [lia|]. destruct (Z.leb_spec (Z.of_nat (length table)) (Z.of_nat off)); [lia|].
  cbn [orb]. rewrite Nat2Z.id. destruct Hh as (pre & post & -> & <-). rewrite drop_app_length, <- app_assoc.
  unfold coff_reader_dup_cstring_range. rewrite existsb_nul. f_equal. apply c_string_name; [done|]. right. by eexists _, _.
Qed.

(** The total length of the long names, with their NULs. *)
Fixpoint strings_size (names : list string) : Z :=
  match names with
  | [] => 0
  | n :: names' => ((if long_name n then Z.of_nat (String.length n) + 1 else 0) + strings_size names')%Z
  end.

Lemma strings_size_nonneg names : (0 ≤ strings_size names)%Z.
Proof. induction names as [|n names IH]; simpl; [lia|]. destruct (long_name n); lia. Qed.

Lemma string_offsets_size names size :
  (0 ≤ size)%Z → (size + strings_size names < 2 ^ 32)%Z →
  (string_offsets names size).2 = (size + strings_size names)%Z.
Proof.
  revert size. induction names as [|n names IH]; intros size H0 Hlt; simpl in *; [lia|].
  pose proof (strings_size_nonneg names). destruct (long_name n); simpl.
  - rewrite (wrap_u_id 32 (Z.of_nat _)), wrap_u_id by lia. rewrite IH by lia. lia.
  - rewrite IH by lia. lia.
Qed.

(** What the offset of a name is worth in a table. *)
Definition name_at (table : list byte) (name : string) (offset : Z) : Prop :=
  if long_name name then
    ∃ off, offset = Z.of_nat off ∧ 4 ≤ off ∧ (offset < 2 ^ 32)%Z ∧ holds table off (name_bytes name ++ zero_bytes 1)
  else offset = 0%Z.

Lemma string_offsets_spec table names off :
  4 ≤ off → (Z.of_nat off + strings_size names < 2 ^ 32)%Z →
  holds table off (string_entries names (string_offsets names (Z.of_nat off)).1) →
  Forall2 (name_at table) names (string_offsets names (Z.of_nat off)).1.
Proof.
  unfold string_entries. revert off. induction names as [|n names IH]; intros off H4 Hlt Hh; [constructor|].
  simpl in *. pose proof (strings_size_nonneg names). destruct (long_name n) eqn:Hlong; simpl in *.
  - rewrite (wrap_u_id 32 (Z.of_nat (String.length n))), wrap_u_id in * by lia.
    destruct (Z.eqb_spec (Z.of_nat off) 0); [lia|]. apply holds_app in Hh as [Hh Hr].
    replace (Z.of_nat off + Z.of_nat (String.length n) + 1)%Z with
      (Z.of_nat (off + length (name_bytes n ++ zero_bytes 1))) in *
      by (rewrite length_app, length_name_bytes, length_zero_bytes; lia).
    constructor.
    + unfold name_at. rewrite Hlong. exists off. split_and!; [done|done|lia|done].
    + apply IH; [lia| |done]. rewrite length_app, length_name_bytes, length_zero_bytes. lia.
  - constructor; [by unfold name_at; rewrite Hlong|]. by apply IH; [|lia|].
Qed.

Lemma string_entries_length names off :
  (0 < off)%Z → (off + strings_size names < 2 ^ 32)%Z →
  Z.of_nat (length (string_entries names (string_offsets names off).1)) = strings_size names.
Proof.
  unfold string_entries. revert off. induction names as [|n names IH]; intros off H0 Hlt; [done|].
  simpl in *. pose proof (strings_size_nonneg names). destruct (long_name n) eqn:Hlong; simpl.
  - rewrite (wrap_u_id 32 (Z.of_nat (String.length n))), wrap_u_id by lia.
    destruct (Z.eqb_spec off 0); [lia|]. rewrite !length_app, length_name_bytes, length_zero_bytes.
    rewrite !Nat2Z.inj_add, IH by lia. lia.
  - by apply IH; lia.
Qed.

(** ** Decimal offsets *)

Fixpoint uint_value (acc : Z) (d : Decimal.uint) : Z :=
  match d with
  | Decimal.Nil => acc
  | Decimal.D0 d => uint_value (10 * acc) d
  | Decimal.D1 d => uint_value (10 * acc + 1) d
  | Decimal.D2 d => uint_value (10 * acc + 2) d
  | Decimal.D3 d => uint_value (10 * acc + 3) d
  | Decimal.D4 d => uint_value (10 * acc + 4) d
  | Decimal.D5 d => uint_value (10 * acc + 5) d
  | Decimal.D6 d => uint_value (10 * acc + 6) d
  | Decimal.D7 d => uint_value (10 * acc + 7) d
  | Decimal.D8 d => uint_value (10 * acc + 8) d
  | Decimal.D9 d => uint_value (10 * acc + 9) d
  end.

Lemma uint_value_acc d p : Z.pos (Pos.of_uint_acc d p) = uint_value (Z.pos p) d.
Proof. revert p. induction d as [|d IH|d IH|d IH|d IH|d IH|d IH|d IH|d IH|d IH|d IH]; intros p; [done|..]; cbn [Pos.of_uint_acc uint_value]; rewrite IH; f_equal; lia. Qed.

Lemma uint_value_spec d : Z.of_N (N.of_uint d) = uint_value 0 d.
Proof. unfold N.of_uint. induction d as [|d IH|d IH|d IH|d IH|d IH|d IH|d IH|d IH|d IH|d IH]; [done|exact IH|..]; cbn [Pos.of_uint uint_value]; apply uint_value_acc. Qed.

Lemma uint_value_ge d acc : (0 ≤ acc)%Z → (acc ≤ uint_value acc d)%Z.
Proof.
  revert acc. induction d as [|d IH|d IH|d IH|d IH|d IH|d IH|d IH|d IH|d IH|d IH]; intros acc Hacc; [done|..];
    cbn [uint_value]; (etransitivity; [|apply IH; lia]); lia.
Qed.

Lemma decimal_offset_digit c bs acc :
  byte_digit (byte_of_ascii c) = true →
  decimal_offset (byte_of_ascii c :: bs) acc =
  decimal_offset bs (u32 (10 * acc + (byte.unsigned (byte_of_ascii c) - 48))).
Proof.
  intros Hd. cbn [decimal_offset]. rewrite byte_ascii_nul.
  destruct (Ascii.eqb_spec c "000"); [by subst|]. rewrite Hd. do 2 f_equal. lia.
Qed.

(** Evaluates the digit of a known character. *)
Ltac known_digit :=
  rewrite decimal_offset_digit by reflexivity;
  match goal with |- context [(byte.unsigned ?b - 48)%Z] =>
    let v := eval vm_compute in (byte.unsigned b - 48)%Z in change (byte.unsigned b - 48)%Z with v end.

Lemma decimal_offset_uint d acc n :
  (0 ≤ acc)%Z → (uint_value acc d < 2 ^ 32)%Z →
  decimal_offset (name_bytes (DecimalString.NilEmpty.string_of_uint d) ++ zero_bytes n) acc = Some (uint_value acc d).
Proof.
  revert acc. induction d as [|d IH|d IH|d IH|d IH|d IH|d IH|d IH|d IH|d IH|d IH]; intros acc Hacc Hlt;
    [by destruct n|..]; cbn [uint_value] in *;
    match goal with |- context [uint_value ?x d] => pose proof (uint_value_ge d x ltac:(lia)) end;
    unfold name_bytes; cbn [DecimalString.NilEmpty.string_of_uint list_ascii_of_string map app];
    known_digit; rewrite wrap_u_id by lia; rewrite ?Z.add_0_r; apply IH; lia.
Qed.

Lemma decimal_offset_decimal z n :
  (0 ≤ z < 2 ^ 32)%Z → decimal_offset (name_bytes (decimal (Z.to_N z)) ++ zero_bytes n) 0 = Some z.
Proof.
  intros Hz. assert (uint_value 0 (N.to_uint (Z.to_N z)) = z) as Hv.
  { rewrite <- uint_value_spec, DecimalN.Unsigned.of_to. lia. }
  unfold decimal. rewrite decimal_offset_uint by (rewrite ?Hv; lia). by rewrite Hv.
Qed.

Lemma uint_value_digits d acc : (0 ≤ acc)%Z → (acc * 10 ^ Z.of_nat (Decimal.nb_digits d) ≤ uint_value acc d)%Z.
Proof.
  revert acc. induction d as [|d IH|d IH|d IH|d IH|d IH|d IH|d IH|d IH|d IH|d IH]; intros acc Hacc;
    [cbn; lia|..]; cbn [uint_value Decimal.nb_digits]; rewrite Nat2Z.inj_succ, Z.pow_succ_r by lia;
    (etransitivity; [|apply IH; lia]); pose proof (Z.pow_pos_nonneg 10 (Z.of_nat (Decimal.nb_digits d))); nia.
Qed.

Lemma decimal_length z : (0 ≤ z < 10 ^ 6)%Z → String.length (decimal (Z.to_N z)) ≤ 6.
Proof.
  intros Hz. assert (∀ d, String.length (DecimalString.NilEmpty.string_of_uint d) = Decimal.nb_digits d) as Hd.
  { induction d; simpl; congruence. }
  unfold decimal. rewrite Hd. set (d := N.to_uint (Z.to_N z)).
  assert (uint_value 0 d = z) as Hv by (unfold d; rewrite <- uint_value_spec, DecimalN.Unsigned.of_to; lia).
  assert (Decimal.unorm d = d) as Hnorm.
  { unfold d. by rewrite <- DecimalN.Unsigned.to_of, DecimalN.Unsigned.of_to. }
  assert (∀ k d', (0 < k)%Z → uint_value k d' = z → Decimal.nb_digits d' < 6) as Hlead.
  { intros k d' Hk <-. pose proof (uint_value_digits d' k ltac:(lia)) as Hge.
    destruct (Nat.lt_ge_cases (Decimal.nb_digits d') 6) as [|Hge6]; [done|].
    assert (10 ^ 6 ≤ 10 ^ Z.of_nat (Decimal.nb_digits d'))%Z by (apply Z.pow_le_mono_r; lia). nia. }
  clearbody d. destruct d as [|d|d|d|d|d|d|d|d|d|d]; cbn [uint_value] in Hv; cbn [Decimal.nb_digits];
    [lia| |apply Hlead in Hv; lia..].
  unfold Decimal.unorm in Hnorm. cbn [Decimal.nzhead] in Hnorm.
  destruct (Decimal.nzhead d) eqn:Hn; try discriminate Hnorm.
  - injection Hnorm as <-. simpl. lia.
  - by apply DecimalFacts.nzhead_nonzero in Hn.
Qed.

(** ** The name fields *)

Definition starts_with_slash (name : string) : bool :=
  match name with String c _ => c =c "/" | EmptyString => false end.

Lemma length_short_name_field name : String.length name ≤ 8 → length (short_name_field name) = 8.
Proof. intros. unfold short_name_field. rewrite length_app, length_name_bytes, length_zero_bytes. lia. Qed.

(** A short name that starts with a slash would be read as an offset. *)
Lemma section_name_read name offset table field :
  binary_emitter_write_section_name name offset = Done field → name_at table name offset → no_nul name →
  long_name name = true ∨ starts_with_slash name = false →
  length field = 8 ∧ coff_reader_parse_section_name field table = Some name.
Proof.
  unfold binary_emitter_write_section_name, name_at. intros Hw Hat Hn Hslash.
  destruct (long_name name) eqn:Hlong.
  - cbn [negb] in Hw. apply bind_Done in Hw as (u & Hfit%require_Done%Nat.ltb_lt & [= <-]).
    destruct Hat as (off & -> & H4 & Hlt & Hh).
    split; [apply length_short_name_field; lia|].
    set (digits := decimal _) in *. unfold short_name_field.
    change (name_bytes (String "/" digits)) with (byte.of_Z 47 :: name_bytes digits).
    cbn [app coff_reader_parse_section_name]. change (byte.unsigned (byte.of_Z 47) =? 47)%Z with true. cbv iota.
    unfold digits at 1. rewrite decimal_offset_decimal by lia. by eapply string_from_table_at.
  - destruct Hslash as [|Hslash]; [done|]. cbn [negb] in Hw. injection Hw as <-.
    apply Nat.ltb_ge in Hlong. split; [by apply length_short_name_field|].
    unfold coff_reader_parse_section_name, short_name_field.
    destruct (name_bytes name ++ zero_bytes (8 - String.length name)) as [|b bs] eqn:Hf.
    { by rewrite <- Hf, trimmed_name. }
    destruct (Z.eqb_spec (byte.unsigned b) 47) as [Hb|]; [|by rewrite <- Hf, trimmed_name].
    exfalso. destruct name as [|c name]; [simpl in Hf; injection Hf as <- _; discriminate Hb|].
    simpl in Hf. injection Hf as <- _. simpl in Hslash.
    destruct c as [[] [] [] [] [] [] [] []]; first [discriminate Hb|discriminate Hslash].
Qed.

Lemma length_symbol_name_field name offset : length (binary_emitter_write_symbol_name name offset) = 8.
Proof.
  unfold binary_emitter_write_symbol_name. destruct (long_name name) eqn:Hl; cbn [negb].
  - unfold write_u32. by rewrite length_app, !length_le_split.
  - apply length_short_name_field. by apply Nat.ltb_ge.
Qed.

(** The field of a short name is not four zero bytes. *)
Lemma short_field_nonzero name rest :
  name ≠ EmptyString → no_nul name → String.length name ≤ 8 →
  ∃ b bs, short_name_field name ++ rest = b :: bs ∧ (0 < byte.unsigned b)%Z.
Proof.
  intros Hne Hn Hlen. destruct name as [|c name]; [done|]. apply no_nul_cons in Hn as [Hc _].
  eexists _, _. split; [reflexivity|]. rewrite <- byte_ascii_nul in Hc. unfold is_nul in Hc.
  apply Z.eqb_neq in Hc. pose proof (byte.unsigned_range (byte_of_ascii c)). lia.
Qed.

Lemma symbol_name_read name offset table rest :
  name_at table name offset → no_nul name → name ≠ EmptyString →
  coff_reader_parse_symbol_name (binary_emitter_write_symbol_name name offset ++ rest) table = Done (Some name).
Proof.
  intros Hat Hn Hne. pose proof (length_symbol_name_field name offset) as Hlen.
  set (record := binary_emitter_write_symbol_name name offset ++ rest).
  assert (8 ≤ length record) as Hlr by (unfold record; rewrite length_app; lia).
  unfold coff_reader_parse_symbol_name.
  pose proof (read_u32_spec record 0 ltac:(lia)) as H0. pose proof (read_u32_spec record 4 ltac:(lia)) as H4.
  change (Z.of_nat 0) with 0%Z in H0. change (Z.of_nat 4) with 4%Z in H4. rewrite H0, H4. run_outcome.
  unfold name_at, record, binary_emitter_write_symbol_name in *. destruct (long_name name) eqn:Hlong; cbn [negb] in *.
  - destruct Hat as (off & -> & Hoff & Hlt & Hh). unfold write_u32 in *.
    rewrite (holds_field _ 0 4 0), (holds_field _ 4 4 (u32 (Z.of_nat off))).
    + change (0 mod 2 ^ (8 * Z.of_nat 4) =? 0)%Z with true. change (8 * Z.of_nat 4)%Z with 32%Z.
      rewrite (wrap_u_id 32), Z.mod_small by lia. destruct (Z.eqb_spec (Z.of_nat off) 0); [lia|]. cbn [negb andb].
      by rewrite (string_from_table_at _ _ _ _ Hh).
    + exists (le_split 4 0), rest. by rewrite <- app_assoc.
    + eexists [], _. split; [by rewrite <- app_assoc|done].
  - apply Nat.ltb_ge in Hlong. destruct (short_field_nonzero name rest Hne Hn Hlong) as (b & bs & Hf & Hb).
    destruct (Z.eqb_spec (field 4 (short_name_field name ++ rest) 0) 0) as [Hz|]; cbn [andb].
    + exfalso. rewrite Hf in Hz. unfold field in Hz. cbn [drop take le_combine] in Hz.
      pose proof (le_combine_bound (take 3 bs)) as Hb3. apply Z.lor_eq_0_iff in Hz as [Hz _]. lia.
    + do 2 f_equal. rewrite take_app_length' by (by rewrite length_short_name_field). by apply trimmed_name.
Qed.

(** ** Relocation and symbol records of COFF files

    What the linker's reader makes of the records the object writer produces. *)

(** ** Relocations *)

Definition coff_relocation_bytes (r : CoffRelocation) : list byte :=
  write_u32 (reloc_virtual_address r) ++ write_u32 (symbol_table_index r) ++ write_u16 (reloc_type r).

Definition relocation_in_range (r : CoffRelocation) : Prop :=
  (0 ≤ reloc_virtual_address r < 2 ^ 32 ∧ 0 ≤ symbol_table_index r < 2 ^ 32 ∧ 0 ≤ reloc_type r < 2 ^ 16)%Z.

Lemma length_relocation_bytes r : length (coff_relocation_bytes r) = 10.
Proof. unfold coff_relocation_bytes, write_u32, write_u16. by rewrite !length_app, !length_le_split. Qed.

Lemma length_relocations_bytes rs : length (concat (coff_relocation_bytes <$> rs)) = 10 * length rs.
Proof. induction rs as [|r rs IH]; [done|]. cbn [fmap list_fmap concat length]. rewrite length_app, length_relocation_bytes, IH. lia. Qed.

Section reader.
Variables (file table : list byte).

Lemma parse_relocation_at r z off :
  z = Z.of_nat off → holds file off (coff_relocation_bytes r) → relocation_in_range r →
  parse_relocation file z = Done r.
Proof.
  intros -> Hh (H1 & H2 & H3). unfold coff_relocation_bytes, write_u32, write_u16 in Hh. split_holds Hh.
  rewrite !length_le_split in *. unfold parse_relocation.
  read_at read_u32_at Hh0.
  read_at read_u32_at Hh1.
  read_at read_u16_at Hh.
  rewrite (wrap_u_id 32 (reloc_virtual_address r)), (wrap_u_id 32 (symbol_table_index r)), (wrap_u_id 16) by done.
  by destruct r.
Qed.

Lemma parse_relocations_at rs z off :
  z = Z.of_nat off → holds file off (concat (coff_relocation_bytes <$> rs)) → Forall relocation_in_range rs →
  parse_relocations file (length rs) z = Done rs.
Proof.
  intros Hz Hh Hrs. revert z off Hz Hh. induction Hrs as [|r rs Hr Hrs IH]; intros z off Hz Hh; [done|].
  cbn [fmap list_fmap concat] in Hh. apply holds_app in Hh as [Hr' Hh]. rewrite length_relocation_bytes in Hh.
  cbn [length parse_relocations]. rewrite (parse_relocation_at r z off) by done. run_outcome.
  unfold COFF_RELOCATION_SIZE. by rewrite (IH (z + 10)%Z (off + 10)) by (done || lia).
Qed.

(** ** Symbols *)

(** A symbol record, with the length and relocation count of its auxiliary record when
    it has one. *)
Record entry : Type := mkEntry {
  en_name : string;
  en_field : list byte;
  en_value : Z;
  en_section : Z;
  en_type : Z;
  en_class : Z;
  en_aux : option (Z * Z) }.

Definition aux_count (en : entry) : Z := match en_aux en with Some _ => 1 | None => 0 end.

Definition aux_bytes (aux : Z * Z) : list byte :=
  write_u32 aux.1 ++ write_u16 aux.2 ++ write_u16 0 ++ write_u32 0 ++ write_u16 0 ++ zero_bytes 4.

Definition entry_bytes (en : entry) : list byte :=
  en_field en ++ write_u32 (en_value en) ++ write_u16 (en_section en) ++ write_u16 (en_type en) ++
  [byte.of_Z (en_class en); byte.of_Z (aux_count en)] ++
  match en_aux en with Some aux => aux_bytes aux | None => [] end.

(** The records it takes, and the symbols the reader makes of them. *)
Definition entry_records (en : entry) : nat := match en_aux en with Some _ => 2 | None => 1 end.

Definition entry_symbols (index : nat) (en : entry) : list CoffSymbol :=
  let make aux has len relocs :=
    mkSymbol (Z.of_nat index) (Some (en_name en)) (en_value en) (en_section en) (en_type en) (en_class en)
      aux false (Z.of_nat index) has len relocs 0 in
  match en_aux en with
  | None => [make 0%Z false 0%Z 0%Z]
  | Some (len, relocs) => [make 1%Z true len relocs; auxiliary_symbol (Z.of_nat (S index)) (Z.of_nat index)]
  end.

Fixpoint entries_symbols (index : nat) (ens : list entry) : list CoffSymbol :=
  match ens with
  | [] => []
  | en :: ens' => entry_symbols index en ++ entries_symbols (index + entry_records en) ens'
  end.

Definition total_records (ens : list entry) : nat := sum_list (entry_records <$> ens).

Record entry_ok (en : entry) : Prop := {
  eo_field : length (en_field en) = 8;
  eo_name rest : coff_reader_parse_symbol_name (en_field en ++ rest) table = Done (Some (en_name en));
  eo_value : (0 ≤ en_value en < 2 ^ 32)%Z;
  eo_section : (- 2 ^ 15 ≤ en_section en < 2 ^ 15)%Z;
  eo_type : (0 ≤ en_type en < 2 ^ 16)%Z;
  eo_class : (0 ≤ en_class en < 2 ^ 8)%Z;
  eo_aux len relocs : en_aux en = Some (len, relocs) → (0 ≤ len < 2 ^ 32 ∧ 0 ≤ relocs < 2 ^ 16)%Z }.

Lemma length_entry_bytes en : length (en_field en) = 8 → length (entry_bytes en) = 18 * entry_records en.
Proof.
  intros Hf. unfold entry_bytes, entry_records, aux_bytes, write_u32, write_u16.
  destruct (en_aux en); rewrite !length_app, ?length_app, Hf, !length_le_split, ?length_zero_bytes; done.
Qed.

Lemma length_entries_symbols index ens : length (entries_symbols index ens) = total_records ens.
Proof.
  unfold total_records. revert index. induction ens as [|en ens IH]; intros index; [done|].
  cbn [entries_symbols fmap list_fmap sum_list sum_list_with foldr]. rewrite length_app, IH.
  unfold entry_symbols, entry_records, sum_list. by destruct (en_aux en) as [[]|].
Qed.

Lemma length_entries_bytes ens :
  Forall entry_ok ens → length (concat (entry_bytes <$> ens)) = 18 * total_records ens.
Proof.
  unfold total_records. induction 1 as [|en ens Hen _ IH]; [done|]. cbn [fmap list_fmap concat sum_list].
  rewrite length_app, length_entry_bytes, IH by apply Hen. simpl. lia.
Qed.

Lemma parse_symbol_at en index rest z off :
  z = Z.of_nat off → holds file off (entry_bytes en) → entry_ok en →
  (aux_count en ≤ rest)%Z →
  ∃ s aux, entry_symbols index en = s :: aux ∧ parse_symbol file table index rest z = Done s ∧
    auxiliary_count s = aux_count en.
Proof.
  intros -> Hh [Hf Hname Hv Hs Ht Hc Haux] Hrest. pose proof (holds_bound _ _ _ Hh) as Hbound.
  rewrite length_entry_bytes in Hbound by done.
  assert (18 ≤ 18 * entry_records en) as Hrec by (unfold entry_records; destruct (en_aux en); lia).
  assert (∃ tail, copy_bytes file (Z.of_nat off) COFF_SYMBOL_SIZE = Done (en_field en ++ tail)) as [tail Hcopy].
  { pose proof (holds_slice _ _ _ Hh) as Hsl. rewrite length_entry_bytes in Hsl by done.
    unfold copy_bytes, COFF_SYMBOL_SIZE, file_size. destruct (Z.leb_spec (Z.of_nat off + 18) (Z.of_nat (length file))); [|lia].
    change (Z.to_nat 18) with 18. rewrite Nat2Z.id.
    replace (take 18 (drop off file)) with (take 18 (entry_bytes en)) by (rewrite <- Hsl, take_take; f_equal; lia).
    unfold entry_bytes. rewrite take_app_ge by lia. by eexists. }
  unfold entry_bytes in Hh. unfold write_u32, write_u16 in Hh. split_holds Hh. rewrite ?Hf, ?length_le_split in *.
  change [byte.of_Z (en_class en); byte.of_Z (aux_count en)] with
    ([byte.of_Z (en_class en)] ++ [byte.of_Z (aux_count en)]) in *.
  split_holds Hh4. simpl length in *.
  unfold parse_symbol. rewrite Hcopy. run_outcome. rewrite Hname. run_outcome.
  read_at read_u32_at Hh1.
  read_at read_u16_at Hh2.
  read_at read_u16_at Hh3.
  read_at byte_at_at Hh5.
  read_at byte_at_at Hh4.
  rewrite !byte.unsigned_of_Z. unfold byte.wrap. rewrite (Z.mod_small (en_class en)) by lia.
  rewrite (wrap_u_id 32 (en_value en)), (wrap_s_wrap_u 16), (wrap_s_id 16), (wrap_u_id 16 (en_type en)) by (done || lia).
  unfold entry_symbols, aux_count in *. destruct (en_aux en) as [[len relocs]|] eqn:Ha.
  - change (1 mod 2 ^ 8)%Z with 1%Z. destruct (Z.ltb_spec rest 1); [lia|]. run_outcome.
    change (0 <? 1)%Z with true. cbv iota. unfold aux_bytes, write_u32, write_u16 in Hh. cbn [fst snd] in Hh.
    split_holds Hh. rewrite ?length_le_split in *. unfold COFF_SYMBOL_SIZE.
    destruct (Haux len relocs eq_refl) as [Hlen Hrel].
    read_at read_u32_at Hh6.
    read_at read_u16_at Hh7.
    read_at read_u16_at Hh8.
    rewrite (wrap_u_id 32 len), (wrap_u_id 16 relocs) by done. by eexists _, _.
  - change (0 mod 2 ^ 8)%Z with 0%Z. destruct (Z.ltb_spec rest 0); [lia|]. run_outcome.
    change (0 <? 0)%Z with false. cbv iota. by eexists _, _.
Qed.

Lemma parse_records_at ens index z off primary :
  z = Z.of_nat off → holds file off (concat (entry_bytes <$> ens)) → Forall entry_ok ens →
  parse_symbol_records file table (total_records ens) index 0 primary z = Done (entries_symbols index ens).
Proof.
  intros Hz Hh Hens. revert index z off primary Hz Hh.
  induction Hens as [|en ens Hen Hens IH]; intros index z off primary Hz Hh; [done|].
  cbn [fmap list_fmap concat] in *. apply holds_app in Hh as [He Hh].
  rewrite length_entry_bytes in Hh by apply Hen.
  change (total_records (en :: ens)) with (entry_records en + total_records ens).
  assert (∃ n, entry_records en = S n) as [n Hn] by (unfold entry_records; destruct (en_aux en); eauto).
  destruct (parse_symbol_at en index (Z.of_nat (n + total_records ens)) z off Hz He Hen) as (s & aux & Hs & Hp & Hc).
  { unfold entry_records, aux_count in *. destruct (en_aux en); lia. }
  cbn [entries_symbols]. rewrite Hs. rewrite Hn. cbn [Nat.add parse_symbol_records].
  change (0 <? 0)%Z with false. cbv iota. rewrite Hp. run_outcome. rewrite Hc.
  unfold entry_records, entry_symbols, aux_count in *. destruct (en_aux en) as [[len relocs]|]; injection Hn as <-;
    injection Hs as <- <-; cbn [Nat.add parse_symbol_records].
  - change (0 <? 1)%Z with true. change (1 - 1)%Z with 0%Z. cbv iota. unfold COFF_SYMBOL_SIZE.
    rewrite (IH _ _ (off + 18 * 2)) by (done || lia). run_outcome.
    replace (index + 2) with (S (S index)) by lia. done.
  - unfold COFF_SYMBOL_SIZE. rewrite (IH _ _ (off + 18 * 1)) by (done || lia). run_outcome.
    replace (index + 1) with (S index) by lia. done.
Qed.
End reader.
