(* ===== verification/CoffWriterFacts.v ===== *)
(** * Objects written and read back

    The file the object writer produces is accepted by the linker's reader, which finds
    in it the sections, relocations and symbols of the emitter. *)

From S2P Require Import Prelude Probe Outcome LinkBase Coff CoffFacts BinaryEmitter CoffWriter EmitterFacts.
From S2P Require Import Slice CoffNameFacts.

(** ** Offsets *)

Definition payload (s : BinarySection) : list byte := if has_payload s then bsec_data s else [].

Lemma length_payload s : Z.of_nat (length (payload s)) = (if has_payload s then bsec_size s else 0)%Z.
Proof. unfold payload, bsec_size. by destruct (has_payload s). Qed.

Definition at_offset (file : list byte) (bs : list byte) (z : Z) : Prop :=
  (0 ≤ z < 2 ^ 32)%Z ∧ (bs ≠ [] → holds file (Z.to_nat z) bs).

Lemma raw_offsets_spec file ss off :
  holds file off (write_payloads ss) → (Z.of_nat off + Z.of_nat (length (write_payloads ss)) < 2 ^ 32)%Z →
  (raw_offsets ss (Z.of_nat off)).2 = (Z.of_nat off + Z.of_nat (length (write_payloads ss)))%Z ∧
  length (raw_offsets ss (Z.of_nat off)).1 = length ss ∧
  ∀ i s z, ss !! i = Some s → (raw_offsets ss (Z.of_nat off)).1 !! i = Some z → at_offset file (payload s) z.
Proof.
  unfold write_payloads. revert off. induction ss as [|s ss IH]; intros off Hh Hlt.
  { cbn in *. split_and!; [lia|done|done]. }
  cbn [map concat raw_offsets] in *. apply holds_app in Hh as [H1 Hh].
  rewrite length_app in Hlt |- *. fold (payload s) in *. pose proof (length_payload s) as Hlen.
  destruct (has_payload s) eqn:Hp.
  - rewrite (wrap_u_id 32 (bsec_size s)), wrap_u_id by (unfold bsec_size in *; lia).
    replace (Z.of_nat off + bsec_size s)%Z with (Z.of_nat (off + length (payload s))) by lia.
    destruct (IH _ Hh ltac:(lia)) as (E & El & Ha). cbn [fst snd]. split_and!; [rewrite E; lia|by cbn [length]; rewrite El|].
    intros [|i] x z Hx Hz; [|by eapply Ha]. injection Hx as <-. injection Hz as <-.
    split; [lia|]. intros _. by rewrite Nat2Z.id.
  - unfold payload in *. rewrite Hp in *. rewrite Nat.add_0_r in Hh. cbn [length] in *.
    destruct (IH _ Hh ltac:(lia)) as (E & El & Ha). cbn [fst snd length]. split_and!; [rewrite E; lia|by rewrite El|].
    intros [|i] x z Hx Hz; [|by eapply Ha]. injection Hx as <-. injection Hz as <-. rewrite Hp. split; [lia|done].
Qed.

Definition reloc_chunks (relss : list (list CoffRelocation)) : list byte :=
  concat ((λ rs, concat (coff_relocation_bytes <$> rs)) <$> relss).

Lemma reloc_offsets_spec file relss off :
  holds file off (reloc_chunks relss) → (Z.of_nat off + Z.of_nat (length (reloc_chunks relss)) < 2 ^ 32)%Z →
  let r := reloc_offsets (length <$> relss) (Z.of_nat off) in
  r.2 = (Z.of_nat off + Z.of_nat (length (reloc_chunks relss)))%Z ∧ length r.1 = length relss ∧
  ∀ i rs z, relss !! i = Some rs → r.1 !! i = Some z → at_offset file (concat (coff_relocation_bytes <$> rs)) z.
Proof.
  unfold reloc_chunks. revert off. induction relss as [|rs relss IH]; intros off Hh Hlt.
  { cbn in *. split_and!; [lia|done|done]. }
  cbn [fmap list_fmap concat reloc_offsets] in *. apply holds_app in Hh as [H1 Hh].
  rewrite length_app in Hlt |- *. pose proof (length_relocations_bytes rs) as Hlen.
  destruct (Nat.ltb_spec 0 (length rs)) as [Hc|Hc].
  - rewrite (wrap_u_id 32 (Z.of_nat (length rs) * 10)), wrap_u_id by lia.
    replace (Z.of_nat off + Z.of_nat (length rs) * 10)%Z with
      (Z.of_nat (off + length (concat (coff_relocation_bytes <$> rs)))) by lia.
    destruct (IH _ Hh ltac:(lia)) as (E & El & Ha). cbn [fst snd length]. split_and!; [rewrite E; lia|by rewrite El|].
    intros [|i] x z Hx Hz; [|by eapply Ha]. injection Hx as <-. injection Hz as <-.
    split; [lia|]. intros _. by rewrite Nat2Z.id.
  - destruct rs as [|r rs]; [|simpl in Hc; lia]. rewrite Nat.add_0_r in Hh. cbn [length fmap list_fmap concat] in *.
    destruct (IH _ Hh ltac:(lia)) as (E & El & Ha). cbn [fst snd length]. split_and!; [rewrite E; lia|by rewrite El|].
    intros [|i] x z Hx Hz; [|by eapply Ha]. injection Hx as <-. injection Hz as <-. split; [lia|done].
Qed.

(** ** Section headers *)

(** What the reader makes of the section [s] with the relocations [rels]. *)
Record section_read (s : BinarySection) (rels : list CoffRelocation) (cs : CoffSection) : Prop := {
  sr_name : sec_name cs = bsec_name s;
  sr_kind : sec_kind cs = coff_section_kind_from_name (bsec_name s);
  sr_raw_data : raw_data cs = payload s;
  sr_raw_size : size_of_raw_data cs = Z.of_nat (length (payload s));
  sr_characteristics : characteristics cs = u32 (effective_characteristics s);
  sr_relocations : relocations cs = rels }.

Record header_ready (file table : list byte) (s : BinarySection) (no ro lo : Z) (rels : list CoffRelocation) : Prop := {
  hr_name : name_at table (bsec_name s) no;
  hr_no_nul : no_nul (bsec_name s);
  hr_slash : long_name (bsec_name s) = true ∨ starts_with_slash (bsec_name s) = false;
  hr_fits : (no < 10 ^ 6)%Z;
  hr_raw : at_offset file (payload s) ro;
  hr_relocs : at_offset file (concat (coff_relocation_bytes <$> rels)) lo;
  hr_range : Forall relocation_in_range rels;
  hr_count : (Z.of_nat (length rels) < 2 ^ 16)%Z;
  hr_size : (Z.of_nat (length (payload s)) < 2 ^ 32)%Z }.

Lemma range_ok_at file off bs : holds file off bs → coff_reader_range_ok file (Z.of_nat off) (Z.of_nat (length bs)) = true.
Proof.
  intros Hh%holds_bound. unfold coff_reader_range_ok, file_size. apply andb_true_iff.
  split; apply negb_true_iff, Z.ltb_ge; lia.
Qed.

Lemma copy_bytes_at file off bs : holds file off bs → copy_bytes file (Z.of_nat off) (Z.of_nat (length bs)) = Done bs.
Proof.
  intros Hh. pose proof (holds_bound _ _ _ Hh). unfold copy_bytes, file_size.
  destruct (Z.leb_spec (Z.of_nat off + Z.of_nat (length bs)) (Z.of_nat (length file))); [|lia].
  rewrite !Nat2Z.id. f_equal. by apply holds_slice.
Qed.

Lemma write_section_name_fits name offset :
  (0 ≤ offset < 10 ^ 6)%Z → ∃ field, binary_emitter_write_section_name name offset = Done field ∧ length field = 8.
Proof.
  intros Hz. unfold binary_emitter_write_section_name. destruct (long_name name) eqn:Hl; cbn [negb].
  - pose proof (decimal_length offset Hz). cbn [String.length].
    destruct (Nat.ltb_spec (S (String.length (decimal (Z.to_N offset)))) 8); [|lia].
    eexists. split; [done|]. apply length_short_name_field. simpl. lia.
  - apply Nat.ltb_ge in Hl. eexists. split; [done|]. by apply length_short_name_field.
Qed.

Lemma name_at_nonneg table name z : name_at table name z → (0 ≤ z)%Z.
Proof. unfold name_at. destruct (long_name name); [intros (off & -> & _); lia|by intros ->]. Qed.

(** The [SizeOfRawData] of a header. *)
Lemma written_size s :
  (Z.of_nat (length (payload s)) < 2 ^ 32)%Z →
  (if bool_decide (bsec_kind s = BINARY_SECTION_BSS) then 0 else u32 (bsec_size s))%Z = Z.of_nat (length (payload s)).
Proof.
  rewrite length_payload. unfold has_payload, bsec_size. case_bool_decide; [done|].
  cbn [negb andb]. destruct (Z.ltb_spec 0 (Z.of_nat (length (bsec_data s)))); intros; rewrite wrap_u_id; lia.
Qed.

Lemma section_header_read file table s no ro lo rels :
  header_ready file table s no ro lo rels →
  ∃ bytes, write_section_header s no ro lo (length rels) = Done bytes ∧ length bytes = 40 ∧
    ∀ off number, holds file off bytes → ∃ cs, parse_section file table number (Z.of_nat off) = Done cs ∧
      section_read s rels cs.
Proof.
  intros [Hname Hnul Hslash Hfits [Hro Hraw] [Hlo Hrel] Hrange Hcount Hsize].
  pose proof (name_at_nonneg _ _ _ Hname) as Hno.
  destruct (write_section_name_fits (bsec_name s) no ltac:(lia)) as (field & Hf & _).
  destruct (section_name_read _ _ table _ Hf Hname Hnul Hslash) as [Hflen Hparse].
  unfold write_section_header. rewrite Hf. run_outcome. eexists. split; [done|]. split.
  { unfold write_u32, write_u16. by rewrite !length_app, Hflen, !length_le_split. }
  intros off number Hh. unfold write_u32, write_u16 in Hh. split_holds Hh. rewrite ?Hflen, ?length_le_split in *.
  unfold parse_section. change 8%Z with (Z.of_nat 8). rewrite <- Hflen, (copy_bytes_at _ _ _ Hh0), Hflen.
  change (Z.of_nat 8) with 8%Z. run_outcome. rewrite Hparse. run_outcome.
  read_at read_u32_at Hh1. read_at read_u32_at Hh2. read_at read_u32_at Hh3. read_at read_u32_at Hh4.
  read_at read_u32_at Hh5. read_at read_u32_at Hh6. read_at read_u16_at Hh7. read_at read_u16_at Hh8.
  read_at read_u32_at Hh.
  rewrite written_size, (wrap_u_id 32 ro), (wrap_u_id 32 lo), (wrap_u_id 16 (u16 _)), (wrap_u_id 16),
    (wrap_u_id 32 (Z.of_nat (length (payload s)))) by (done || (try apply wrap_u_range; lia)).
  assert ((if (0 <? Z.of_nat (length (payload s)))%Z then
             _ ← require (coff_reader_range_ok file ro (Z.of_nat (length (payload s)))) (E_raw_data_range (bsec_name s));
             copy_bytes file ro (Z.of_nat (length (payload s)))
           else mret []) = Done (payload s)) as ->.
  { destruct (Z.ltb_spec 0 (Z.of_nat (length (payload s)))) as [Hp|Hp].
    - assert (payload s ≠ []) as Hne by (intros He; rewrite He in Hp; simpl in Hp; lia).
      rewrite <- (Z2Nat.id ro) by lia. rewrite (range_ok_at _ _ _ (Hraw Hne)). run_outcome.
      by apply copy_bytes_at, Hraw.
    - destruct (payload s); [done|simpl in Hp; lia]. }
  run_outcome.
  assert ((if (0 <? Z.of_nat (length rels))%Z then
             _ ← require (coff_reader_range_ok file lo (u64 (Z.of_nat (length rels) * COFF_RELOCATION_SIZE)))
                   (E_relocation_table_range (bsec_name s));
             parse_relocations file (Z.to_nat (Z.of_nat (length rels))) lo
           else mret []) = Done rels) as ->.
  { destruct (Z.ltb_spec 0 (Z.of_nat (length rels))) as [Hp|Hp].
    - pose proof (length_relocations_bytes rels) as Hlen.
      assert (concat (coff_relocation_bytes <$> rels) ≠ []) as Hne
        by (intros He; rewrite He in Hlen; simpl in Hlen; lia).
      rewrite <- (Z2Nat.id lo) by lia. unfold COFF_RELOCATION_SIZE.
      replace (u64 (Z.of_nat (length rels) * 10)) with (Z.of_nat (length (concat (coff_relocation_bytes <$> rels))))
        by (rewrite wrap_u_id; lia).
      rewrite (range_ok_at _ _ _ (Hrel Hne)). run_outcome. rewrite Nat2Z.id.
      apply (parse_relocations_at file rels _ (Z.to_nat lo)); [done|by apply Hrel|done].
    - destruct rels; [done|simpl in Hp; lia]. }
  run_outcome. eexists. split; [done|]. by split.
Qed.

(** The headers, one after another. *)
Lemma section_headers_read file table ss names raws relocs relss :
  length names = length ss → length raws = length ss → length relocs = length ss → length relss = length ss →
  (∀ i s no ro lo rels, ss !! i = Some s → names !! i = Some no → raws !! i = Some ro → relocs !! i = Some lo →
    relss !! i = Some rels → header_ready file table s no ro lo rels) →
  ∃ bytes, write_section_headers ss names raws relocs (length <$> relss) = Done bytes ∧
    length bytes = 40 * length ss ∧
    ∀ off number, holds file off bytes →
      ∃ css, parse_section_headers file table (length ss) number (Z.of_nat off) = Done css ∧
        Forall2 (λ x cs, section_read x.1 x.2 cs) (zip ss relss) css.
Proof.
  revert names raws relocs relss. induction ss as [|s ss IH]; intros [|no names] [|ro raws] [|lo relocs] [|rels relss];
    try done; intros Hn Hw Hl Hr Hready.
  { eexists. split; [done|]. split; [done|]. intros off number _. exists []. split; [done|constructor]. }
  cbn [length] in Hn, Hw, Hl, Hr. injection Hn as Hn. injection Hw as Hw. injection Hl as Hl. injection Hr as Hr.
  destruct (section_header_read file table s no ro lo rels) as (hb & Hhb & Hlen & Hread); [by apply (Hready 0)|].
  destruct (IH names raws relocs relss Hn Hw Hl Hr) as (rest & Hrest & Hlrest & Hreadrest).
  { intros i. apply (Hready (S i)). }
  cbn [fmap list_fmap write_section_headers]. rewrite Hhb. run_outcome.
  change (list_fmap _ _ length relss) with (length <$> relss). rewrite Hrest. run_outcome.
  eexists. split; [done|]. split; [rewrite length_app; simpl; lia|].
  intros off number Hh. apply holds_app in Hh as [H1 H2]. rewrite Hlen in H2.
  destruct (Hread off number H1) as (cs & Hcs & Hok). destruct (Hreadrest (off + 40) (S number) H2) as (css & Hcss & Hoks).
  cbn [length parse_section_headers]. rewrite Hcs. run_outcome. unfold COFF_SECTION_HEADER_SIZE.
  replace (Z.of_nat off + 40)%Z with (Z.of_nat (off + 40)) by lia. rewrite Hcss. run_outcome.
  eexists. split; [done|]. cbn [zip zip_with]. by constructor.
Qed.

(** ** Symbols *)

Definition symbol_section_number (y : BinarySymbol) : Z :=
  match bsym_section_index y with Some i => Z.of_nat i + 1 | None => 0 end.

Definition symbol_type (e : BinaryEmitter) (y : BinarySymbol) : Z :=
  match (i ← bsym_section_index y; em_sections e !! i) with
  | Some s => if bool_decide (bsec_kind s = BINARY_SECTION_TEXT) then 32 else 0
  | None => 0
  end.

Definition symbol_class (y : BinarySymbol) : Z :=
  match bsym_binding y with BINARY_SYMBOL_LOCAL => 3 | _ => 2 end.

Definition symbol_entry (e : BinaryEmitter) (y : BinarySymbol) (offset : Z) : entry :=
  mkEntry (bsym_name y) (binary_emitter_write_symbol_name (bsym_name y) offset) (u32 (bsym_value y))
    (symbol_section_number y) (symbol_type e y) (symbol_class y) None.

Definition section_entry (i : nat) (s : BinarySection) (offset : Z) (count : nat) : entry :=
  mkEntry (bsec_name s) (binary_emitter_write_symbol_name (bsec_name s) offset) 0 (Z.of_nat i + 1) 0 3
    (Some (section_length s, Z.of_nat count)).

Fixpoint section_entries (i : nat) (ss : list BinarySection) (names : list Z) (counts : list nat) : list entry :=
  match ss, names, counts with
  | s :: ss', n :: names', c :: counts' => section_entry i s n c :: section_entries (S i) ss' names' counts'
  | _, _, _ => []
  end.

(** The symbol the reader makes of the [index]-th of the emitter, and of the [i]-th
    section, at [index] in the table. *)
Definition symbol_view (e : BinaryEmitter) (index : nat) (y : BinarySymbol) : CoffSymbol :=
  mkSymbol (Z.of_nat index) (Some (bsym_name y)) (u32 (bsym_value y)) (symbol_section_number y) (symbol_type e y)
    (symbol_class y) 0 false (Z.of_nat index) false 0 0 0.

Definition section_relocations (e : BinaryEmitter) (i : nat) : list BinaryRelocation :=
  filter (λ r, brel_section_index r = i) (em_relocations e).

Definition section_symbol_view (e : BinaryEmitter) (i : nat) (s : BinarySection) : list CoffSymbol :=
  let index := length (em_symbols e) + 2 * i in
  [mkSymbol (Z.of_nat index) (Some (bsec_name s)) 0 (Z.of_nat i + 1) 0 3 1 false (Z.of_nat index) true
     (section_length s) (Z.of_nat (length (section_relocations e i))) 0;
   auxiliary_symbol (Z.of_nat (S index)) (Z.of_nat index)].

Lemma entries_symbols_app index a b :
  entries_symbols index (a ++ b) = entries_symbols index a ++ entries_symbols (index + total_records a) b.
Proof.
  unfold total_records. revert index. induction a as [|en a IH]; intros index; simpl; [by rewrite Nat.add_0_r|].
  by rewrite IH, app_assoc, Nat.add_assoc.
Qed.

Lemma symbol_entries_view e ys names index :
  length names = length ys →
  entries_symbols index (zip_with (symbol_entry e) ys names) = imap (λ k y, symbol_view e (index + k) y) ys ∧
  total_records (zip_with (symbol_entry e) ys names) = length ys.
Proof.
  unfold total_records. revert names index. induction ys as [|y ys IH]; intros [|n names] index Hlen; try done.
  injection Hlen as Hlen. destruct (IH names (index + 1) Hlen) as [E El]. split.
  - cbn [zip_with entries_symbols imap]. unfold entry_records at 1. cbn [symbol_entry en_aux]. rewrite E.
    cbn [entry_symbols symbol_entry en_aux app]. f_equal.
    + unfold symbol_view. by rewrite Nat.add_0_r.
    + apply imap_ext. intros k z _. simpl. f_equal. lia.
  - cbn [zip_with fmap list_fmap]. simpl. by rewrite <- El.
Qed.

Lemma section_entries_view e ss names counts i :
  length names = length ss → length counts = length ss →
  (∀ k c, counts !! k = Some c → c = length (section_relocations e (i + k))) →
  entries_symbols (length (em_symbols e) + 2 * i) (section_entries i ss names counts) =
    concat (imap (λ k s, section_symbol_view e (i + k) s) ss) ∧
  total_records (section_entries i ss names counts) = 2 * length ss.
Proof.
  unfold total_records. revert names counts i. induction ss as [|s ss IH]; intros [|n names] [|c counts] i; try done.
  intros Hn Hc Hcount. injection Hn as Hn. injection Hc as Hc.
  destruct (IH names counts (S i) Hn Hc) as [E El].
  { intros k x Hx. replace (S i + k) with (i + S k) by lia. by apply Hcount. }
  split.
  - cbn [section_entries entries_symbols]. unfold entry_records at 1. cbn [section_entry en_aux].
    replace (length (em_symbols e) + 2 * i + 2) with (length (em_symbols e) + 2 * S i) by lia. rewrite E.
    cbn [imap concat]. f_equal.
    + unfold entry_symbols, section_symbol_view. cbn [section_entry en_aux en_name en_value en_section en_type en_class].
      rewrite Nat.add_0_r, (Hcount 0 c eq_refl), Nat.add_0_r. done.
    + f_equal. apply imap_ext. intros k z _. simpl. f_equal. lia.
  - cbn [section_entries fmap list_fmap]. cbn [length]. change (sum_list (?x :: ?l)) with (x + sum_list l).
    simpl in El |- *. rewrite El. lia.
Qed.

Lemma write_symbols_entries e ys names :
  length names = length ys →
  Forall (λ y, ∀ i, bsym_section_index y = Some i → i < length (em_sections e)) ys →
  (Z.of_nat (length (em_sections e)) < 2 ^ 15)%Z →
  write_symbols e ys names = Done (concat (entry_bytes <$> zip_with (symbol_entry e) ys names)).
Proof.
  revert names. induction ys as [|y ys IH]; intros [|n names] Hlen Hys Hmax; try done.
  injection Hlen as Hlen. apply Forall_cons in Hys as [Hy Hys]. cbn [write_symbols].
  assert (write_symbol e y n = Done (entry_bytes (symbol_entry e y n))) as ->.
  { unfold write_symbol, entry_bytes, symbol_entry, symbol_section_number, symbol_type, symbol_class, aux_count.
    cbn [en_field en_value en_section en_type en_class en_aux]. rewrite app_nil_r.
    destruct (bsym_section_index y) as [i|]; [|done].
    destruct (lookup_lt_is_Some_2 _ _ (Hy i eq_refl)) as [s Hs]. cbn [mbind option_bind]. rewrite Hs. run_outcome.
    pose proof (Hy i eq_refl). rewrite (wrap_s_id 16) by lia. done. }
  run_outcome. rewrite IH by done. done.
Qed.

Lemma write_section_symbols_entries ss names counts i :
  length names = length ss → length counts = length ss → (Z.of_nat (i + length ss) < 2 ^ 15)%Z →
  Forall (λ c, Z.of_nat c < 2 ^ 16)%Z counts →
  write_section_symbols ss names i counts = Done (concat (entry_bytes <$> section_entries i ss names counts)).
Proof.
  revert names counts i. induction ss as [|s ss IH]; intros [|n names] [|c counts] i Hn Hc Hmax Hcs; try done.
  injection Hn as Hn. injection Hc as Hc. apply Forall_cons in Hcs as [Hc16 Hcs]. cbn [length] in Hmax.
  cbn [write_section_symbols]. rewrite IH by (done || lia). run_outcome. f_equal.
  cbn [section_entries fmap list_fmap concat]. f_equal.
  unfold write_section_symbol, entry_bytes, section_entry, aux_bytes, aux_count.
  cbn [en_field en_value en_section en_type en_class en_aux fst snd].
  rewrite (wrap_s_id 16), (wrap_u_id 16) by lia. done.
Qed.

(** ** Relocations *)

Record relocation_written (e : BinaryEmitter) (rel : BinaryRelocation) (r : CoffRelocation) : Prop := {
  rw_offset : reloc_virtual_address r = u32 (brel_offset rel);
  rw_type : reloc_type r = binary_emitter_map_relocation_kind (brel_kind rel);
  rw_symbol : ∃ i, symbol_table_index r = Z.of_nat i ∧ symbol_at (em_symbols e) (brel_symbol_name rel) i }.

Definition defined_target (e : BinaryEmitter) (rel : BinaryRelocation) : Prop :=
  ∃ i, symbol_at (em_symbols e) (brel_symbol_name rel) i.

Lemma relocation_kind_range k : (0 ≤ binary_emitter_map_relocation_kind k < 2 ^ 16)%Z.
Proof. by destruct k. Qed.

Lemma write_relocation_spec e rel :
  emitter_ok e → (Z.of_nat (length (em_symbols e)) < 2 ^ 31)%Z → defined_target e rel →
  ∃ r, write_relocation e rel = Done (coff_relocation_bytes r) ∧ relocation_written e rel r ∧ relocation_in_range r.
Proof.
  intros He Hlen (i & y & Hi & Hn). unfold write_relocation.
  assert (i < length (em_symbols e)) as Hlt by by eapply lookup_lt_Some.
  destruct (find_symbol_index_spec e (brel_symbol_name rel) He Hlen) as [(j & -> & Hj)|[_ Hnone]].
  2: { exfalso. by apply (proj1 (symbol_map_None _ _) Hnone i y). }
  assert (j = i) as -> by (eapply symbol_at_unique; [by apply ek_symbol_names|exact Hj|by exists y]).
  run_outcome. destruct (Z.ltb_spec (Z.of_nat i) 0); [lia|]. run_outcome. rewrite Nat2Z.id, Hi. run_outcome.
  exists (mkRelocation (u32 (brel_offset rel)) (u32 (Z.of_nat i)) (binary_emitter_map_relocation_kind (brel_kind rel))).
  split; [done|]. split.
  - split; [done..|]. exists i. split; [apply wrap_u_id; lia|by exists y].
  - split_and!; cbn [reloc_virtual_address symbol_table_index reloc_type];
      (apply (wrap_u_range 32) || apply relocation_kind_range); lia.
Qed.

Lemma write_relocations_spec e ordered :
  emitter_ok e → (Z.of_nat (length (em_symbols e)) < 2 ^ 31)%Z → Forall (defined_target e) (em_relocations e) →
  Forall (λ k, k < length (em_relocations e)) ordered →
  ∃ rs, write_relocations e ordered = Done (concat (coff_relocation_bytes <$> rs)) ∧
    Forall2 (relocation_written e) (omap (λ k, em_relocations e !! k) ordered) rs ∧ Forall relocation_in_range rs.
Proof.
  intros He Hlen Hdef Hord. induction Hord as [|k ordered Hk Hord IH]; [by exists []|].
  cbn [write_relocations omap list_omap]. destruct (lookup_lt_is_Some_2 _ _ Hk) as [rel Hrel]. rewrite Hrel. run_outcome.
  destruct (write_relocation_spec e rel He Hlen (Forall_lookup_1 _ _ _ _ Hdef Hrel)) as (r & -> & Hr & Hin).
  destruct IH as (rs & -> & Hrs & Hins). run_outcome. exists (r :: rs). split; [done|]. by split; constructor.
Qed.

Lemma write_relocations_app e a b ba bb :
  write_relocations e a = Done ba → write_relocations e b = Done bb → write_relocations e (a ++ b) = Done (ba ++ bb).
Proof.
  revert ba. induction a as [|k a IH]; intros ba Ha Hb; [by injection Ha as <-|]. cbn [write_relocations app] in *.
  apply bind_Done in Ha as (rel & -> & (b1 & Hb1 & (b2 & Hb2 & [= <-])%bind_Done)%bind_Done).
  run_outcome. rewrite Hb1. run_outcome. rewrite (IH b2) by done. run_outcome. by rewrite <- app_assoc.
Qed.

Lemma write_groups e gs :
  emitter_ok e → (Z.of_nat (length (em_symbols e)) < 2 ^ 31)%Z → Forall (defined_target e) (em_relocations e) →
  Forall (Forall (λ k, k < length (em_relocations e))) gs →
  ∃ relss, write_relocations e (concat gs) = Done (reloc_chunks relss) ∧
    Forall2 (λ g rs, Forall2 (relocation_written e) (omap (λ k, em_relocations e !! k) g) rs ∧
      Forall relocation_in_range rs) gs relss.
Proof.
  intros He Hlen Hdef Hgs. induction Hgs as [|g gs Hg Hgs (relss & Hw & IH)]; [by exists []|].
  destruct (write_relocations_spec e g He Hlen Hdef Hg) as (rs & Hrs & Hok).
  exists (rs :: relss). split; [by apply write_relocations_app|by constructor].
Qed.

Lemma positions_lt i k rs : Forall (λ x, x < k + length rs) (positions i k rs).
Proof.
  apply Forall_lookup_2. intros j x (r & Hle & Hr%lookup_lt_Some & _)%positions_shape. lia.
Qed.

Lemma positions_filter i k rs : length (positions i k rs) = length (filter (λ r, brel_section_index r = i) rs).
Proof.
  revert k. induction rs as [|r rs IH]; intros k; [done|]. cbn [positions]. rewrite filter_cons.
  destruct (decide _); simpl; by rewrite IH.
Qed.

Lemma string_offsets_range names size bound :
  (0 ≤ size)%Z → (size + strings_size names < bound)%Z → (bound ≤ 2 ^ 32)%Z →
  Forall (λ o, 0 ≤ o < bound)%Z (string_offsets names size).1 ∧ length (string_offsets names size).1 = length names.
Proof.
  revert size. induction names as [|n names IH]; intros size H0 Hlt Hb; [done|]. simpl in *.
  pose proof (strings_size_nonneg names). destruct (long_name n); simpl.
  - rewrite (wrap_u_id 32 (Z.of_nat _)), wrap_u_id by lia. destruct (IH (size + Z.of_nat (String.length n) + 1)%Z) as [Hf ->]; [lia..|].
    split; [constructor; [lia|done]|done].
  - destruct (IH size) as [Hf ->]; [lia..|]. split; [constructor; [lia|done]|done].
Qed.

Lemma section_headers_written ss names raws relocs counts :
  length names = length ss → length raws = length ss → length relocs = length ss → length counts = length ss →
  Forall (λ o, 0 ≤ o < 10 ^ 6)%Z names →
  ∃ bytes, write_section_headers ss names raws relocs counts = Done bytes ∧ length bytes = 40 * length ss.
Proof.
  revert names raws relocs counts. induction ss as [|s ss IH]; intros [|no names] [|ro raws] [|lo relocs] [|c counts];
    try done; intros Hn Hw Hl Hc Hnames; [by eexists; split|]. apply Forall_cons in Hnames as [Hno Hnames].
  cbn [write_section_headers]. unfold write_section_header.
  destruct (write_section_name_fits (bsec_name s) no Hno) as (field & -> & Hf). run_outcome.
  destruct (IH names raws relocs counts) as (rest & -> & Hrest); [by simplify_eq/=..|done|]. run_outcome.
  eexists. split; [done|]. unfold write_u16, write_u32. rewrite !length_app, Hf, Hrest, !length_le_split. simpl. lia.
Qed.
