(* ===== verification/CoffRoundTrip.v ===== *)
(** * The object file round trip

    [binary_emitter_write_coff_object_file] succeeds on every emitter within the limits
    of the format, and [coff_object_parse] reads back what the emitter held. *)

From S2P Require Import Prelude Probe Outcome LinkBase Coff BinaryEmitter CoffWriter EmitterFacts.
From S2P Require Import Slice CoffNameFacts CoffWriterFacts.

(** ** The limits of the format *)

Definition section_names (e : BinaryEmitter) : list string := map bsec_name (em_sections e).
Definition symbol_names (e : BinaryEmitter) : list string := map bsym_name (em_symbols e).

(** The size of the file. *)
Definition file_bytes (e : BinaryEmitter) : Z :=
  (20 + 40 * Z.of_nat (length (em_sections e)) + Z.of_nat (length (write_payloads (em_sections e))) +
   10 * Z.of_nat (length (em_relocations e)) +
   18 * (Z.of_nat (length (em_symbols e)) + 2 * Z.of_nat (length (em_sections e))) +
   4 + strings_size (section_names e) + strings_size (symbol_names e))%Z.

Record coff_writable (e : BinaryEmitter) : Prop := {
  cw_sections : (Z.of_nat (length (em_sections e)) < 2 ^ 15)%Z;
  cw_symbols : (Z.of_nat (length (em_symbols e)) < 2 ^ 31)%Z;
  cw_section_names : Forall (λ s, no_nul (bsec_name s) ∧
    (long_name (bsec_name s) = true ∨ starts_with_slash (bsec_name s) = false)) (em_sections e);
  cw_symbol_names : Forall (λ y, no_nul (bsym_name y)) (em_symbols e);
  cw_strings : (4 + strings_size (section_names e) < 10 ^ 6)%Z;
  cw_relocations : ∀ i, (Z.of_nat (length (section_relocations e i)) < 2 ^ 16)%Z;
  cw_targets : Forall (defined_target e) (em_relocations e);
  cw_symbol_sections : Forall (λ y, ∀ i, bsym_section_index y = Some i → i < length (em_sections e)) (em_symbols e);
  cw_size : (file_bytes e < 2 ^ 32)%Z }.

(** ** What the reader finds *)

Record section_written (e : BinaryEmitter) (i : nat) (s : BinarySection) (cs : CoffSection) : Prop := {
  sw_name : sec_name cs = bsec_name s;
  sw_kind : sec_kind cs = coff_section_kind_from_name (bsec_name s);
  sw_raw_data : raw_data cs = payload s;
  sw_raw_size : size_of_raw_data cs = Z.of_nat (length (payload s));
  sw_characteristics : characteristics cs = u32 (effective_characteristics s);
  sw_relocations : Forall2 (relocation_written e) (section_relocations e i) (relocations cs) }.

Record written (e : BinaryEmitter) (o : CoffObject) : Prop := {
  wr_machine : machine o = COFF_MACHINE_AMD64;
  wr_count : length (sections o) = length (em_sections e);
  wr_sections i s cs : em_sections e !! i = Some s → sections o !! i = Some cs → section_written e i s cs;
  wr_symbols : symbols o = imap (symbol_view e) (em_symbols e) ++ concat (imap (section_symbol_view e) (em_sections e)) }.

Section roundtrip.
Variable e : BinaryEmitter.
Hypothesis Hok : emitter_ok e.
Hypothesis Hw : coff_writable e.

Definition nsections : nat := length (em_sections e).
Definition names1 : list Z := (string_offsets (section_names e) 4).1.
Definition size1 : Z := (4 + strings_size (section_names e))%Z.
Definition names2 : list Z := (string_offsets (symbol_names e) size1).1.
Definition raws : list Z * Z := raw_offsets (em_sections e) (Z.of_nat (20 + 40 * nsections)).

(** The relocations by section, and the file they are in. *)
Variables (relss : list (list CoffRelocation)) (headers : list byte).
Definition relocs : list Z * Z := reloc_offsets (length <$> relss) raws.2.
Definition entries : list entry :=
  zip_with (symbol_entry e) (em_symbols e) names2 ++ section_entries 0 (em_sections e) names1 (length <$> relss).

Definition table_bytes : list byte :=
  write_u32 (size1 + strings_size (symbol_names e)) ++ string_entries (section_names e) names1 ++
  string_entries (symbol_names e) names2.

Definition file_of : list byte :=
  write_u16 34404 ++ write_u16 (u16 (Z.of_nat nsections)) ++ write_u32 0 ++ write_u32 relocs.2 ++
  write_u32 (Z.of_nat (length (em_symbols e) + 2 * nsections)) ++ write_u16 0 ++ write_u16 0 ++ headers ++
  write_payloads (em_sections e) ++ reloc_chunks relss ++ concat (entry_bytes <$> entries) ++ table_bytes.

Definition relocations_ok : Prop :=
  length relss = nsections ∧
  ∀ i rels, relss !! i = Some rels →
    Forall2 (relocation_written e) (section_relocations e i) rels ∧ Forall relocation_in_range rels.

Hypothesis Hrel : relocations_ok.

Lemma sizes_nonneg : (0 ≤ strings_size (section_names e) ∧ 0 ≤ strings_size (symbol_names e))%Z.
Proof. split; apply strings_size_nonneg. Qed.

Lemma reloc_counts_match : ∀ k c, (length <$> relss) !! k = Some c → c = length (section_relocations e k).
Proof.
  intros k c Hc. rewrite list_lookup_fmap in Hc. destruct (relss !! k) as [rels|] eqn:Hk; [|done].
  simplify_eq/=. destruct Hrel as [_ Hr]. destruct (Hr k rels Hk) as [Hr2 _]. by apply Forall2_length in Hr2.
Qed.

Lemma relss_counts : Forall (λ c, Z.of_nat c < 2 ^ 16)%Z (length <$> relss).
Proof.
  apply Forall_lookup_2. intros k c Hc. rewrite (reloc_counts_match k c Hc). apply cw_relocations, Hw.
Qed.

Lemma grouped_length : length (concat (grouped nsections 0 (em_relocations e))) = length (em_relocations e).
Proof. apply grouped_counts, ek_relocations, Hok. Qed.

Lemma relss_total : length (concat relss) = length (em_relocations e).
Proof.
  rewrite <- grouped_length, !length_concat_sum. f_equal. unfold grouped. rewrite <- list_fmap_compose.
  apply list_eq. intros i. rewrite !list_lookup_fmap. destruct Hrel as [Hlen Hr]. destruct (relss !! i) as [rels|] eqn:Hi.
  - rewrite lookup_seq_lt by (rewrite <- Hlen; by eapply lookup_lt_Some). simpl. f_equal.
    rewrite positions_filter. destruct (Hr i rels Hi) as [Hr2 _]. by apply Forall2_length in Hr2.
  - apply lookup_ge_None in Hi. by rewrite lookup_ge_None_2 by (rewrite length_seq; lia).
Qed.

Lemma chunks_length : length (reloc_chunks relss) = 10 * length (em_relocations e).
Proof.
  rewrite <- relss_total. unfold reloc_chunks. clear. induction relss as [|rs rss IH]; [done|].
  cbn [fmap list_fmap concat]. rewrite !length_app, length_relocations_bytes, IH. lia.
Qed.

Lemma names1_range : Forall (λ o, 0 ≤ o < 10 ^ 6)%Z names1 ∧ length names1 = nsections.
Proof.
  destruct (string_offsets_range (section_names e) 4 (10 ^ 6)) as [Hf Hl]; [lia|apply Hw|lia|].
  split; [exact Hf|]. unfold names1. rewrite Hl. apply length_map.
Qed.

Lemma names2_length : length names2 = length (em_symbols e).
Proof.
  pose proof sizes_nonneg. pose proof (cw_size e Hw). unfold file_bytes in *.
  destruct (string_offsets_range (symbol_names e) size1 (2 ^ 32)) as [_ Hl]; [unfold size1; lia..|].
  unfold names2. rewrite Hl. apply length_map.
Qed.

Lemma table_length : Z.of_nat (length table_bytes) = (size1 + strings_size (symbol_names e))%Z.
Proof.
  pose proof sizes_nonneg. pose proof (cw_size e Hw). unfold file_bytes, table_bytes, size1, names1, names2 in *.
  rewrite !length_app, !Nat2Z.inj_add, !string_entries_length by (unfold size1; lia).
  unfold write_u32. rewrite length_le_split. lia.
Qed.

Lemma names_at :
  Forall2 (name_at table_bytes) (section_names e) names1 ∧ Forall2 (name_at table_bytes) (symbol_names e) names2.
Proof.
  pose proof sizes_nonneg. pose proof (cw_size e Hw). unfold file_bytes in *.
  pose proof (holds_whole table_bytes) as Hh. unfold table_bytes at 2 in Hh. split_holds Hh.
  unfold write_u32 in *. rewrite length_le_split in *. split.
  - apply (string_offsets_spec table_bytes (section_names e) 4); [done|lia|exact Hh1].
  - unfold names2. replace size1 with (Z.of_nat (0 + 4 + length (string_entries (section_names e) names1))).
    + apply string_offsets_spec; [lia| |].
      * rewrite !Nat2Z.inj_add. unfold names1. rewrite string_entries_length by lia. lia.
      * replace (Z.of_nat _) with size1; [exact Hh|].
        rewrite !Nat2Z.inj_add. unfold names1. rewrite string_entries_length by lia. unfold size1. lia.
    + rewrite !Nat2Z.inj_add. unfold names1. rewrite string_entries_length by lia. unfold size1. lia.
Qed.

(** ** The symbols *)

Lemma name_lookup (names : list string) (offsets : list Z) k name z :
  Forall2 (name_at table_bytes) names offsets → names !! k = Some name → offsets !! k = Some z →
  name_at table_bytes name z.
Proof. intros H Hn Hz. by eapply Forall2_lookup_lr. Qed.

Lemma entry_ok_intro name z value section type class aux :
  name_at table_bytes name z → no_nul name → name ≠ EmptyString → (0 ≤ value < 2 ^ 32)%Z →
  (- 2 ^ 15 ≤ section < 2 ^ 15)%Z → (0 ≤ type < 2 ^ 16)%Z → (0 ≤ class < 2 ^ 8)%Z →
  (∀ len relocs, aux = Some (len, relocs) → 0 ≤ len < 2 ^ 32 ∧ 0 ≤ relocs < 2 ^ 16)%Z →
  entry_ok table_bytes (mkEntry name (binary_emitter_write_symbol_name name z) value section type class aux).
Proof.
  intros. split; try done; [apply length_symbol_name_field|]. intros rest. by apply symbol_name_read.
Qed.

Lemma symbol_entries_ok : Forall (entry_ok table_bytes) (zip_with (symbol_entry e) (em_symbols e) names2).
Proof.
  apply Forall_lookup_2. intros k en Hk. apply lookup_zip_with_Some in Hk as (y & z & -> & Hy & Hz).
  pose proof (cw_sections e Hw).
  apply entry_ok_intro.
  - eapply name_lookup; [apply names_at| |exact Hz]. unfold symbol_names.
    change (map bsym_name (em_symbols e)) with (bsym_name <$> em_symbols e). by rewrite list_lookup_fmap, Hy.
  - by apply (Forall_lookup_1 _ _ _ _ (cw_symbol_names e Hw) Hy).
  - by apply (Forall_lookup_1 _ _ _ _ (ek_symbols_named e Hok) Hy).
  - apply (wrap_u_range 32). lia.
  - unfold symbol_section_number. destruct (bsym_section_index y) as [i|] eqn:Hi; [|lia].
    pose proof (Forall_lookup_1 _ _ _ _ (cw_symbol_sections e Hw) Hy i Hi). lia.
  - unfold symbol_type. destruct (_ ≫= _); [case_bool_decide|]; lia.
  - unfold symbol_class. destruct (bsym_binding y); lia.
  - done.
Qed.

Lemma section_entries_ok : Forall (entry_ok table_bytes) (section_entries 0 (em_sections e) names1 (length <$> relss)).
Proof.
  assert (∀ i ss names counts, Z.of_nat (i + length ss) < 2 ^ 15 →
    Forall (λ s, no_nul (bsec_name s) ∧ bsec_name s ≠ EmptyString) ss →
    Forall2 (name_at table_bytes) (map bsec_name ss) names → Forall (λ c, Z.of_nat c < 2 ^ 16) counts →
    Forall (entry_ok table_bytes) (section_entries i ss names counts))%Z as Hgen.
  { intros i ss. revert i. induction ss as [|s ss IH]; intros i names counts Hi Hss Hnames Hc; [constructor|].
    cbn [map] in Hnames. apply Forall2_cons_inv_l in Hnames as (z & names' & Hz & Hnames & ->).
    destruct counts as [|c counts]; [constructor|]. apply Forall_cons in Hc as [Hc Hcs].
    apply Forall_cons in Hss as [[Hnul Hne] Hss]. cbn [length] in Hi. cbn [section_entries].
    constructor; [|apply IH; (done || lia)].
    apply entry_ok_intro; try done; try lia. intros len rs [= <- <-]. split; [apply (wrap_u_range 32)|]; lia. }
  apply Hgen; [apply Hw| |apply names_at|apply relss_counts].
  apply Forall_lookup_2. intros k s Hs. split.
  - by apply (Forall_lookup_1 _ _ _ _ (cw_section_names e Hw) Hs).
  - by apply (Forall_lookup_1 _ _ _ _ (ek_sections_named e Hok) Hs).
Qed.

Lemma entries_ok : Forall (entry_ok table_bytes) entries.
Proof. apply Forall_app_2; [apply symbol_entries_ok|apply section_entries_ok]. Qed.

Lemma entries_view :
  entries_symbols 0 entries = imap (symbol_view e) (em_symbols e) ++ concat (imap (section_symbol_view e) (em_sections e)) ∧
  total_records entries = length (em_symbols e) + 2 * nsections.
Proof.
  destruct (symbol_entries_view e (em_symbols e) names2 0 names2_length) as [E1 L1].
  destruct (section_entries_view e (em_sections e) names1 (length <$> relss) 0) as [E2 L2].
  { apply names1_range. } { rewrite length_fmap. apply Hrel. } { intros k c. apply reloc_counts_match. }
  rewrite Nat.mul_0_r, Nat.add_0_r in E2. unfold entries. split.
  - rewrite entries_symbols_app, E1, L1, Nat.add_0_l, E2. done.
  - unfold total_records in *. rewrite fmap_app, sum_list_with_app. rewrite L1, L2. done.
Qed.

(** ** Reading *)

Hypothesis Hheaders : write_section_headers (em_sections e) names1 raws.1 relocs.1 (length <$> relss) = Done headers.
Hypothesis Hlen : length headers = 40 * nsections.

Definition payload_bytes : nat := length (write_payloads (em_sections e)).
Definition symbols_at : nat := 20 + 40 * nsections + payload_bytes + 10 * length (em_relocations e).
Definition nrecords : nat := length (em_symbols e) + 2 * nsections.

Record parts (file : list byte) : Prop := {
  pt_machine : holds file 0 (le_split 2 34404);
  pt_count : holds file 2 (le_split 2 (u16 (Z.of_nat nsections)));
  pt_stamp : holds file 4 (le_split 4 0);
  pt_pointer : holds file 8 (le_split 4 relocs.2);
  pt_total : holds file 12 (le_split 4 (Z.of_nat nrecords));
  pt_optional : holds file 16 (le_split 2 0);
  pt_characteristics : holds file 18 (le_split 2 0);
  pt_headers : holds file 20 headers;
  pt_payloads : holds file (20 + 40 * nsections) (write_payloads (em_sections e));
  pt_relocations : holds file (20 + 40 * nsections + payload_bytes) (reloc_chunks relss);
  pt_symbols : holds file symbols_at (concat (entry_bytes <$> entries));
  pt_table : holds file (symbols_at + 18 * nrecords) table_bytes;
  pt_length : Z.of_nat (length file) = file_bytes e }.

Lemma file_parts : parts file_of.
Proof.
  pose proof (length_entries_bytes table_bytes entries entries_ok) as Hent.
  destruct entries_view as [_ Htot]. rewrite Htot in Hent. fold nrecords in Hent.
  pose proof chunks_length as Hch. pose proof table_length as Htab.
  pose proof (holds_whole file_of) as Hh. unfold file_of in Hh at 2. split_holds Hh.
  unfold write_u16, write_u32 in *. fold payload_bytes in *. rewrite ?length_le_split, ?Hlen, ?Hch, ?Hent in *.
  split; try (match goal with H : holds _ _ ?bs |- holds _ _ ?bs => apply (holds_eq _ _ _ _ H); unfold symbols_at; lia end).
  - unfold file_of, write_u16, write_u32. rewrite !length_app, Hlen, Hch, Hent, !length_le_split.
    rewrite !Nat2Z.inj_add, Htab. unfold file_bytes, size1, nrecords, nsections. fold payload_bytes. lia.
Qed.

Lemma raws_end : raws.2 = Z.of_nat (20 + 40 * nsections + payload_bytes).
Proof.
  pose proof file_parts as Hp. pose proof (cw_size e Hw). pose proof sizes_nonneg. unfold file_bytes in *.
  destruct (raw_offsets_spec file_of (em_sections e) (20 + 40 * nsections)) as (E & _); [apply Hp|unfold nsections; lia|].
  unfold raws. rewrite E. unfold payload_bytes. lia.
Qed.

Lemma relocs_end : relocs.2 = Z.of_nat symbols_at.
Proof.
  pose proof file_parts as Hp. pose proof (cw_size e Hw). pose proof sizes_nonneg. unfold file_bytes in *.
  unfold relocs. rewrite raws_end. pose proof chunks_length as Hch.
  destruct (reloc_offsets_spec file_of relss (20 + 40 * nsections + payload_bytes)) as (E & _);
    [apply Hp|rewrite Hch; unfold nsections, payload_bytes; lia|].
  rewrite E, Hch. unfold symbols_at. lia.
Qed.

Lemma headers_ready i s no ro lo rels :
  em_sections e !! i = Some s → names1 !! i = Some no → raws.1 !! i = Some ro → relocs.1 !! i = Some lo →
  relss !! i = Some rels → header_ready file_of table_bytes s no ro lo rels.
Proof.
  intros Hs Hno Hro Hlo Hrels. pose proof file_parts as Hp. pose proof (cw_size e Hw) as Hsize. pose proof sizes_nonneg.
  unfold file_bytes in *. pose proof chunks_length as Hch. pose proof (pt_length _ Hp) as Hfile.
  destruct (raw_offsets_spec file_of (em_sections e) (20 + 40 * nsections)) as (_ & _ & Hraw); [apply Hp|unfold nsections; lia|].
  destruct (reloc_offsets_spec file_of relss (20 + 40 * nsections + payload_bytes)) as (_ & _ & Hreloc);
    [apply Hp|rewrite Hch; unfold nsections, payload_bytes; lia|].
  destruct (Forall_lookup_1 _ _ _ _ (cw_section_names e Hw) Hs) as [Hnul Hslash].
  split; try done.
  - eapply (name_lookup _ _ _ _ _ (proj1 names_at)); [|exact Hno]. unfold section_names.
    change (map bsec_name (em_sections e)) with (bsec_name <$> em_sections e). by rewrite list_lookup_fmap, Hs.
  - by apply (Forall_lookup_1 _ _ _ _ (proj1 names1_range) Hno).
  - by eapply Hraw.
  - apply (Hreloc i rels lo Hrels). unfold relocs in Hlo. by rewrite raws_end in Hlo.
  - by apply Hrel in Hrels as [_ ?].
  - assert ((length <$> relss) !! i = Some (length rels)) as Hc by (by rewrite list_lookup_fmap, Hrels).
    by apply (Forall_lookup_1 _ _ _ _ relss_counts Hc).
  - destruct (Hraw i s ro Hs Hro) as [_ Hat]. destruct (decide (payload s = [])) as [->|Hne]; [done|].
    pose proof (holds_bound _ _ _ (Hat Hne)). unfold file_bytes in Hfile. lia.
Qed.

Lemma string_table_read : coff_reader_parse_string_table file_of (Z.of_nat symbols_at) (Z.of_nat nrecords) = Done table_bytes.
Proof.
  pose proof file_parts as Hp. pose proof (cw_size e Hw) as Hsize. pose proof sizes_nonneg.
  pose proof (pt_table _ Hp) as Htab. pose proof (holds_bound _ _ _ Htab) as Hb. pose proof (pt_length _ Hp) as Hfile.
  pose proof table_length as Htl. unfold coff_reader_parse_string_table, COFF_SYMBOL_SIZE.
  assert (4 ≤ length table_bytes) as H4.
  { unfold table_bytes, write_u32. rewrite !length_app, length_le_split. lia. }
  rewrite (wrap_u_id 64 (Z.of_nat nrecords * 18)), (wrap_u_id 64) by lia.
  replace (Z.of_nat symbols_at + Z.of_nat nrecords * 18)%Z with (Z.of_nat (symbols_at + 18 * nrecords)) by lia.
  set (off := symbols_at + 18 * nrecords) in *. unfold file_size at 1 2.
  destruct (Z.ltb_spec (Z.of_nat (length file_of)) (Z.of_nat off)); [lia|]. run_outcome.
  destruct (Z.eqb_spec (Z.of_nat off) (Z.of_nat (length file_of))); [lia|].
  rewrite (wrap_u_id 32 (Z.of_nat off)) by lia.
  assert (∀ len, len ≤ Z.of_nat (length table_bytes) → coff_reader_range_ok file_of (Z.of_nat off) len = true)%Z as Hrange.
  { intros len Hl. unfold coff_reader_range_ok, file_size. apply andb_true_iff. split; apply negb_true_iff, Z.ltb_ge; lia. }
  rewrite Hrange by lia. run_outcome. pose proof Htab as Hsz. unfold table_bytes, write_u32 in Hsz.
  apply holds_app in Hsz as [Hsz _]. read_at read_u32_at Hsz. rewrite wrap_u_id by lia. rewrite <- Htl.
  destruct (Z.eqb_spec (Z.of_nat (length table_bytes)) 0); [lia|].
  destruct (Z.leb_spec 4 (Z.of_nat (length table_bytes))); [|lia]. run_outcome. rewrite Hrange by lia. run_outcome.
  by apply copy_bytes_at.
Qed.

Lemma sections_parsed :
  ∃ css, coff_reader_parse_sections file_of table_bytes (Z.of_nat nsections) = Done css ∧
    Forall2 (λ x cs, section_read x.1 x.2 cs) (zip (em_sections e) relss) css.
Proof.
  pose proof file_parts as Hp. pose proof (cw_sections e Hw). fold nsections in *. destruct Hrel as [Hlr _].
  pose proof (pt_headers _ Hp) as Hh. pose proof (holds_bound _ _ _ Hh) as Hb.
  pose proof (pt_length _ Hp) as Hfile. pose proof (cw_size e Hw).
  unfold coff_reader_parse_sections. destruct (Z.eqb_spec (Z.of_nat nsections) 0) as [Hz|Hnz].
  { exists []. split; [done|]. assert (em_sections e = []) as -> by (apply nil_length_inv; unfold nsections in Hz; lia). constructor. }
  unfold COFF_FILE_HEADER_SIZE, COFF_SECTION_HEADER_SIZE. rewrite (wrap_u_id 64) by lia.
  replace (coff_reader_range_ok file_of 20 (Z.of_nat nsections * 40)) with true.
  2: { symmetry. unfold coff_reader_range_ok, file_size. apply andb_true_iff. split; apply negb_true_iff, Z.ltb_ge; lia. }
  run_outcome. rewrite Nat2Z.id.
  destruct (section_headers_read file_of table_bytes (em_sections e) names1 raws.1 relocs.1 relss) as (b & Hb1 & _ & Hread).
  { apply names1_range. } 
  { destruct (raw_offsets_spec file_of (em_sections e) (20 + 40 * nsections)) as (_ & Hl & _); [apply Hp| |exact Hl].
    pose proof sizes_nonneg. unfold file_bytes, nsections in *. lia. }
  { unfold relocs. rewrite raws_end. pose proof chunks_length as Hch. pose proof sizes_nonneg.
    destruct (reloc_offsets_spec file_of relss (20 + 40 * nsections + payload_bytes)) as (_ & Hl & _); [apply Hp| |].
    - rewrite Hch. unfold file_bytes, nsections, payload_bytes in *. lia.
    - cbv zeta in Hl. by rewrite Hl. }
  { done. } { intros. by eapply headers_ready. }
  rewrite Hheaders in Hb1. injection Hb1 as <-. by apply (Hread 20 1).
Qed.

Lemma symbols_parsed :
  coff_reader_parse_symbols file_of table_bytes (Z.of_nat symbols_at) (Z.of_nat nrecords) =
  Done (imap (symbol_view e) (em_symbols e) ++ concat (imap (section_symbol_view e) (em_sections e))).
Proof.
  pose proof file_parts as Hp. pose proof (cw_size e Hw). pose proof (pt_length _ Hp) as Hfile.
  pose proof (pt_symbols _ Hp) as Hh. pose proof (holds_bound _ _ _ Hh) as Hb.
  rewrite (length_entries_bytes table_bytes) in Hb by apply entries_ok. destruct entries_view as [Hview Htot].
  rewrite Htot in Hb. fold nrecords in *. unfold coff_reader_parse_symbols, COFF_SYMBOL_SIZE.
  destruct (Z.eqb_spec (Z.of_nat nrecords) 0) as [Hz|Hnz].
  { unfold nrecords in Hz. rewrite (nil_length_inv (em_symbols e)), (nil_length_inv (em_sections e)) by (unfold nsections in Hz; lia). done. }
  rewrite (wrap_u_id 64) by lia.
  replace (coff_reader_range_ok file_of (Z.of_nat symbols_at) (Z.of_nat nrecords * 18)) with true.
  2: { symmetry. unfold coff_reader_range_ok, file_size. apply andb_true_iff. split; apply negb_true_iff, Z.ltb_ge; lia. }
  run_outcome. rewrite Nat2Z.id, <- Htot, <- Hview.
  by apply (parse_records_at file_of table_bytes entries 0 (Z.of_nat symbols_at) symbols_at 0%Z eq_refl Hh), entries_ok.
Qed.

Lemma parse_file_of : ∃ o, coff_object_parse file_of = Done o ∧ written e o.
Proof.
  pose proof file_parts as Hp. pose proof (cw_size e Hw). pose proof (cw_sections e Hw). pose proof sizes_nonneg.
  pose proof (pt_length _ Hp) as Hfile. destruct sections_parsed as (css & Hcss & Hread).
  unfold coff_object_parse, COFF_FILE_HEADER_SIZE. unfold file_size. unfold file_bytes in *.
  destruct (Z.leb_spec 20 (Z.of_nat (length file_of))); [|lia]. run_outcome.
  destruct Hp as [P0 P2 P4 P8 P12 P16 P18 _ Ppay Prel Psym Ptab _].
  read_at read_u16_at P0. read_at read_u16_at P2. read_at read_u32_at P4. read_at read_u32_at P8.
  read_at read_u32_at P12. read_at read_u16_at P16. read_at read_u16_at P18.
  change (u16 34404 =? COFF_MACHINE_AMD64)%Z with true. run_outcome. fold nsections in *.
  apply holds_bound in Psym. rewrite relocs_end in *.
  assert (Z.of_nat nrecords < 2 ^ 32)%Z by (unfold nrecords; lia).
  rewrite (wrap_u_id 32 (Z.of_nat symbols_at)), (wrap_u_id 32 (Z.of_nat nrecords)), (wrap_u_id 16 (u16 _)), (wrap_u_id 16 (Z.of_nat nsections))
    by (lia || (apply wrap_u_range; lia) || (rewrite wrap_u_id; lia)).
  rewrite string_table_read. run_outcome. rewrite Hcss. run_outcome. rewrite symbols_parsed. run_outcome.
  eexists. split; [done|]. destruct Hrel as [Hlr Hr].
  assert (length css = length (em_sections e)) as Hlcss.
  { rewrite <- (Forall2_length _ _ _ Hread), length_zip_with, Hlr. unfold nsections. lia. }
  split; cbn [machine sections symbols]; [done|done| |done].
  intros i s cs Hs Hcs. destruct (Forall2_lookup_r _ _ _ _ _ Hread Hcs) as ([s' rels] & Hx & Hsr).
  apply lookup_zip_with_Some in Hx as (s1 & r1 & [= -> ->] & Hs' & Hrels). simplify_eq/=.
  destruct Hsr as [? ? ? ? ? <-]. split; try done. by apply Hr in Hrels as [? _].
Qed.
End roundtrip.

(** ** Writing *)

Lemma group_targets e i :
  omap (λ x, em_relocations e !! x) (positions i 0 (em_relocations e)) = section_relocations e i.
Proof. apply (positions_relocations i 0 (em_relocations e) []). done. Qed.

Lemma grouped_Forall e :
  Forall (Forall (λ k, k < length (em_relocations e))) (grouped (nsections e) 0 (em_relocations e)).
Proof. apply Forall_fmap, Forall_forall. intros i _. apply (positions_lt i 0). Qed.

(** The relocations as they go to the file. *)
Lemma write_relocations_grouped e :
  emitter_ok e → coff_writable e →
  ∃ relss, relocations_ok e relss ∧
    write_relocations e (concat (grouped (nsections e) 0 (em_relocations e))) = Done (reloc_chunks relss).
Proof.
  intros Hok Hw. destruct (write_groups e _ Hok (cw_symbols e Hw) (cw_targets e Hw) (grouped_Forall e))
    as (relss & Hwr & Hall). exists relss. split; [|done].
  assert (length relss = nsections e) as Hlen.
  { rewrite <- (Forall2_length _ _ _ Hall). unfold grouped. by rewrite length_fmap, length_seq. }
  split; [done|]. intros i rels Hi. destruct (Forall2_lookup_r _ _ _ _ _ Hall Hi) as (g & Hg & Hok').
  unfold grouped in Hg. rewrite list_lookup_fmap, lookup_seq_lt in Hg by (rewrite <- Hlen; by eapply lookup_lt_Some).
  injection Hg as <-. by rewrite group_targets in Hok'.
Qed.

(** The counters agree with the groups. *)
Lemma count_relocations_groups e relss :
  emitter_ok e → relocations_ok e relss →
  count_relocations (em_relocations e) (replicate (nsections e) 0) = Done (length <$> relss).
Proof.
  intros Hok [Hlen Hr].
  destruct (count_relocations_spec (em_relocations e) (replicate (nsections e) 0) 0) as (counts & -> & Hl & Hc).
  { rewrite length_replicate. apply Hok. }
  rewrite length_replicate in Hl. f_equal. apply list_eq. intros i. rewrite list_lookup_fmap.
  destruct (decide (i < nsections e)) as [Hi|Hi].
  - rewrite (Hc i 0) by (by apply lookup_replicate). destruct (lookup_lt_is_Some_2 relss i ltac:(lia)) as [rels Hrels].
    rewrite Hrels. simpl. f_equal. rewrite positions_filter. destruct (Hr i rels Hrels) as [H2 _]. by apply Forall2_length in H2.
  - rewrite !lookup_ge_None_2 by lia. done.
Qed.

Lemma offsets_length ss off : length (raw_offsets ss off).1 = length ss.
Proof. revert off. induction ss as [|s ss IH]; intros off; [done|]. cbn. destruct (has_payload s); cbn; by rewrite IH. Qed.

Lemma reloc_offsets_length cs off : length (reloc_offsets cs off).1 = length cs.
Proof. revert off. induction cs as [|c cs IH]; intros off; [done|]. cbn [reloc_offsets]. destruct (0 <? c); cbn; by rewrite IH. Qed.

Lemma headers_written e relss :
  coff_writable e → relocations_ok e relss →
  ∃ headers, write_section_headers (em_sections e) (names1 e) (raws e).1 (relocs e relss).1 (length <$> relss) = Done headers ∧
    length headers = 40 * nsections e.
Proof.
  intros Hw [Hlen _]. destruct (names1_range e Hw) as [Hrange Hl].
  apply section_headers_written; [exact Hl|apply offsets_length|unfold relocs; rewrite reloc_offsets_length|..];
    rewrite ?length_fmap; done.
Qed.

Lemma string_offsets_end e :
  coff_writable e → (string_offsets (section_names e) 4).2 = size1 e ∧
  (string_offsets (symbol_names e) (size1 e)).2 = (size1 e + strings_size (symbol_names e))%Z.
Proof.
  intros Hw. pose proof (cw_size e Hw). pose proof (sizes_nonneg e). unfold file_bytes, size1 in *.
  split; apply string_offsets_size; lia.
Qed.

Lemma write_file e relss headers :
  emitter_ok e → coff_writable e → relocations_ok e relss →
  write_section_headers (em_sections e) (names1 e) (raws e).1 (relocs e relss).1 (length <$> relss) = Done headers →
  write_relocations e (concat (grouped (nsections e) 0 (em_relocations e))) = Done (reloc_chunks relss) →
  binary_emitter_write_coff_object_file e = Done (file_of e relss headers).
Proof.
  intros Hok Hw Hrel Hheaders Hwr. pose proof (cw_sections e Hw). pose proof (cw_symbols e Hw).
  pose proof (cw_size e Hw). pose proof (sizes_nonneg e). destruct (string_offsets_end e Hw) as [E1 E2].
  unfold file_bytes in *. unfold binary_emitter_write_coff_object_file. fold (section_names e) (symbol_names e).
  cbv zeta. rewrite E1, E2. fold (nsections e) in *.
  destruct (Z.ltb_spec 65535 (Z.of_nat (nsections e))); [lia|]. run_outcome.
  destruct (Z.ltb_spec (2 ^ 32 - 1) (Z.of_nat (length (em_relocations e)))); [lia|].
  destruct (Z.ltb_spec (2 ^ 32 - 1) (Z.of_nat (length (em_symbols e)))); [lia|]. run_outcome.
  destruct (Z.ltb_spec ((2 ^ 32 - 1 - Z.of_nat (length (em_symbols e))) `div` 2) (Z.of_nat (nsections e))) as [Hlt|_].
  { exfalso. pose proof (Z.div_le_lower_bound (2 ^ 32 - 1 - Z.of_nat (length (em_symbols e))) 2 (Z.of_nat (nsections e))). lia. }
  run_outcome. rewrite (count_relocations_groups e relss) by done. run_outcome.
  replace (forallb _ _) with true.
  2: { symmetry. apply forallb_forall. intros c [k Hk]%list_elem_of_In%list_elem_of_lookup.
       pose proof (Forall_lookup_1 _ _ _ _ (relss_counts e Hw relss Hrel) Hk). apply negb_true_iff, Z.ltb_ge. simpl in *. lia. }
  run_outcome. rewrite (wrap_u_id 32 (Z.of_nat (nsections e) * 40)), (wrap_u_id 32 (20 + _)) by lia.
  replace (20 + Z.of_nat (nsections e) * 40)%Z with (Z.of_nat (20 + 40 * nsections e)) by lia.
  fold (raws e). fold (relocs e relss). fold (names1 e). rewrite Hheaders. run_outcome.
  rewrite (order_relocations_grouped _ _ (nsections e)).
  2: { apply Hok. } 2: { rewrite length_fmap. apply Hrel. }
  2: { intros i Hi. destruct Hrel as [Hl Hr]. destruct (lookup_lt_is_Some_2 relss i ltac:(lia)) as [rels Hrels].
       rewrite list_lookup_fmap, Hrels. simpl. f_equal. rewrite positions_filter.
       destruct (Hr i rels Hrels) as [H2' _]. by apply Forall2_length in H2'. }
  run_outcome. rewrite Hwr. run_outcome. fold (names2 e).
  rewrite (write_symbols_entries e (em_symbols e) (names2 e)) by (apply Hw || by apply names2_length). run_outcome.
  rewrite write_section_symbols_entries.
  2: { by apply names1_range. } 2: { rewrite length_fmap. apply Hrel. } 2: { unfold nsections in *. lia. } 2: { by apply (relss_counts e). }
  run_outcome. unfold file_of, entries, table_bytes. rewrite fmap_app, concat_app, <- !app_assoc.
  rewrite (wrap_u_id 32 (Z.of_nat (length (em_symbols e)))), (wrap_u_id 32 (Z.of_nat (nsections e) * 2)), (wrap_u_id 32 (_ + _))
    by (unfold nsections in *; lia).
  replace (Z.of_nat (length (em_symbols e)) + Z.of_nat (nsections e) * 2)%Z with (Z.of_nat (length (em_symbols e) + 2 * nsections e)) by lia.
  done.
Qed.

(** C7. Every emitter within the limits of the format is written, and the linker's
    reader accepts the file and finds in it each section with its bytes, its
    characteristics and its relocations in their order (with the same target names),
    and the symbols of the emitter followed by those of the sections. *)
Theorem coff_object_roundtrip e :
  emitter_ok e → coff_writable e →
  ∃ file o, binary_emitter_write_coff_object_file e = Done file ∧ coff_object_parse file = Done o ∧ written e o.
Proof.
  intros Hok Hw. destruct (write_relocations_grouped e Hok Hw) as (relss & Hrel & Hwr).
  destruct (headers_written e relss Hw Hrel) as (headers & Hh & Hlen).
  destruct (parse_file_of e Hok Hw relss headers Hrel Hh Hlen) as (o & Ho & Hwritten).
  exists (file_of e relss headers), o. split; [by apply write_file|done].
Qed.

Lemma section_relocations_le e i : length (section_relocations e i) ≤ length (em_relocations e).
Proof. apply length_filter. Qed.

Lemma coff_object_roundtrip_witness :
  ∃ e file o, sample_program = Some e ∧ binary_emitter_write_coff_object_file e = Done file ∧
    coff_object_parse file = Done o ∧ written e o ∧
    map sec_name (sections o) = [".text"; ".rdata$strings"]%string ∧ length (symbols o) = 6.
Proof.
  destruct sample_program as [e|] eqn:He; [|vm_compute in He; discriminate He].
  destruct (coff_object_roundtrip e) as (file & o & Hf & Ho & Hw).
  - apply emitter_steps_ok, sample_reachable. exact He.
  - vm_compute in He. injection He as <-. split; cbn [em_sections em_symbols em_relocations].
    + reflexivity.
    + reflexivity.
    + do 2 (constructor; [split; [apply (bool_decide_eq_true_1 (no_nul _)); reflexivity|by (left + right)]|]). constructor.
    + do 2 (constructor; [apply (bool_decide_eq_true_1 (no_nul _)); reflexivity|]). constructor.
    + reflexivity.
    + intros i. eapply Z.le_lt_trans; [apply Nat2Z.inj_le, section_relocations_le|]. reflexivity.
    + constructor; [|constructor]. exists 1. by eexists.
    + do 2 (constructor; [intros i Hi; first [discriminate Hi|injection Hi as <-; simpl; lia]|]). constructor.
    + reflexivity.
  - exists e, file, o. split; [reflexivity|]. split; [exact Hf|]. split; [exact Ho|]. split; [exact Hw|].
    vm_compute in He. injection He as <-. vm_compute in Hf. injection Hf as <-. vm_compute in Ho. injection Ho as <-.
    split; reflexivity.
Defined.
