(* ===== verification/Ast.v ===== *)
(** * The syntax tree: src/src/parser/ast.h and src/src/parser/ast.c

    A node is its kind, its location and the data of its kind.  The strings are C
    strings, so they hold no NUL, and copying or interning one is the identity.
    The [children] vector repeats the nodes that the data holds and is left out,
    as is the type the semantic analysis caches in a node; a node whose data
    pointer stays NULL is [AST_NO_DATA]. *)

From S2P Require Import Prelude.

(** ** Node kinds and data *)

Inductive ASTNodeType : Type :=
  | T_PROGRAM | T_IMPORT | T_IMPORT_STR | T_VAR_DECLARATION | T_FUNCTION_DECLARATION
  | T_STRUCT_DECLARATION | T_ENUM_DECLARATION | T_TRAIT_DECLARATION | T_IMPL_DECLARATION
  | T_METHOD_DECLARATION | T_ASSIGNMENT | T_FUNCTION_CALL | T_FUNC_PTR_CALL
  | T_RETURN_STATEMENT | T_IF_STATEMENT | T_WHILE_STATEMENT | T_FOR_STATEMENT
  | T_SWITCH_STATEMENT | T_CASE_CLAUSE | T_MATCH_STATEMENT | T_BREAK_STATEMENT
  | T_CONTINUE_STATEMENT | T_DEFER_STATEMENT | T_ERRDEFER_STATEMENT | T_INLINE_ASM
  | T_IDENTIFIER | T_NUMBER_LITERAL | T_STRING_LITERAL | T_BINARY_EXPRESSION
  | T_UNARY_EXPRESSION | T_MEMBER_ACCESS | T_INDEX_EXPRESSION | T_NEW_EXPRESSION
  | T_CAST_EXPRESSION.

#[export] Instance ASTNodeType_eq_dec : EqDecision ASTNodeType.
Proof. solve_decision. Defined.

Record SourceLocation : Type := mkLocation {
  loc_line : nat;
  loc_column : nat;
  loc_filename : option string }.

#[export] Instance SourceLocation_eq_dec : EqDecision SourceLocation.
Proof. solve_decision. Defined.

Record ImportDeclaration : Type := mkImport {
  im_module_name : string;
  im_namespace_alias : option string;
  im_selected_names : list string }.

Record VarDeclaration (N : Type) : Type := mkVar {
  vd_name : string;
  vd_type_name : option string;
  vd_initializer : option N;
  vd_is_extern : bool;
  vd_is_exported : bool;
  vd_link_name : option string }.

Record FunctionDeclaration (N : Type) : Type := mkFunction {
  fd_name : string;
  fd_parameters : list (string * string);
  fd_return_type : option string;
  fd_body : option N;
  fd_is_exported : bool;
  fd_is_extern : bool;
  fd_link_name : option string;
  fd_type_params : list (string * option string) }.

Record StructDeclaration (N : Type) : Type := mkStruct {
  sd_name : string;
  sd_fields : list (string * string);
  sd_methods : list N;
  sd_is_exported : bool;
  sd_type_params : list (string * option string) }.

Record EnumVariant (N : Type) : Type := mkVariant {
  ev_name : string;
  ev_value : option N;
  ev_payload_type : option string }.

Record EnumDeclaration (N : Type) : Type := mkEnum {
  ed_name : string;
  ed_variants : list (EnumVariant N);
  ed_is_exported : bool;
  ed_type_params : list string }.

Record MatchArm (N : Type) : Type := mkArm {
  ma_variant_name : string;
  ma_binding_name : option string;
  ma_body : N;
  ma_is_default : bool }.

(** [float_value] is [atof] of the literal's text, which is what is kept. *)
Inductive NumberLiteral : Type :=
  | IntLiteral (int_value : Z) (int_radix : Z)
  | FloatLiteral (float_text : string).

Record CallExpression (N : Type) : Type := mkCall {
  ce_function_name : string;
  ce_arguments : list N;
  ce_object : option N;
  ce_type_args : list string;
  ce_is_indirect_call : bool }.

Arguments mkVar {N}. Arguments vd_name {N}. Arguments vd_type_name {N}.
Arguments vd_initializer {N}. Arguments vd_is_extern {N}. Arguments vd_is_exported {N}.
Arguments vd_link_name {N}.
Arguments mkFunction {N}. Arguments fd_name {N}. Arguments fd_parameters {N}.
Arguments fd_return_type {N}. Arguments fd_body {N}. Arguments fd_is_exported {N}.
Arguments fd_is_extern {N}. Arguments fd_link_name {N}. Arguments fd_type_params {N}.
Arguments mkStruct {N}. Arguments sd_name {N}. Arguments sd_fields {N}.
Arguments sd_methods {N}. Arguments sd_is_exported {N}. Arguments sd_type_params {N}.
Arguments mkVariant {N}. Arguments ev_name {N}. Arguments ev_value {N}.
Arguments ev_payload_type {N}.
Arguments mkEnum {N}. Arguments ed_name {N}. Arguments ed_variants {N}.
Arguments ed_is_exported {N}. Arguments ed_type_params {N}.
Arguments mkArm {N}. Arguments ma_variant_name {N}. Arguments ma_binding_name {N}.
Arguments ma_body {N}. Arguments ma_is_default {N}.
Arguments mkCall {N}. Arguments ce_function_name {N}. Arguments ce_arguments {N}.
Arguments ce_object {N}. Arguments ce_type_args {N}. Arguments ce_is_indirect_call {N}.

(** The nested types' predicates, for the induction principle of [ASTNode]. *)
Scheme All for list.
Scheme All for option.
Scheme All for prod.
Scheme All for VarDeclaration.
Scheme All for FunctionDeclaration.
Scheme All for StructDeclaration.
Scheme All for EnumVariant.
Scheme All for EnumDeclaration.
Scheme All for MatchArm.
Scheme All for CallExpression.

Inductive ASTNode : Type :=
  | AST_PROGRAM (loc : SourceLocation) (declarations : list ASTNode)
  | AST_IMPORT (loc : SourceLocation) (d : ImportDeclaration)
  | AST_IMPORT_STR (loc : SourceLocation) (file_path : string)
  | AST_VAR_DECLARATION (loc : SourceLocation) (d : VarDeclaration ASTNode)
  | AST_FUNCTION_DECLARATION (loc : SourceLocation) (d : FunctionDeclaration ASTNode)
  | AST_STRUCT_DECLARATION (loc : SourceLocation) (d : StructDeclaration ASTNode)
  | AST_ENUM_DECLARATION (loc : SourceLocation) (d : EnumDeclaration ASTNode)
  | AST_TRAIT_DECLARATION (loc : SourceLocation) (name : string) (is_exported : bool)
      (methods : list ASTNode)
  | AST_IMPL_DECLARATION (loc : SourceLocation) (trait_name for_type_name : string)
      (methods : list ASTNode)
  | AST_METHOD_DECLARATION (loc : SourceLocation) (d : FunctionDeclaration ASTNode)
  | AST_ASSIGNMENT (loc : SourceLocation) (variable_name : option string)
      (target : option ASTNode) (value : ASTNode)
  | AST_FUNCTION_CALL (loc : SourceLocation) (d : CallExpression ASTNode)
  | AST_FUNC_PTR_CALL (loc : SourceLocation) (function : ASTNode) (arguments : list ASTNode)
  | AST_RETURN_STATEMENT (loc : SourceLocation) (value : option ASTNode)
  | AST_IF_STATEMENT (loc : SourceLocation) (condition then_branch : ASTNode)
      (else_ifs : list (ASTNode * ASTNode)) (else_branch : option ASTNode)
  | AST_WHILE_STATEMENT (loc : SourceLocation) (condition body : ASTNode)
      (label : option string)
  | AST_FOR_STATEMENT (loc : SourceLocation) (initializer condition increment : option ASTNode)
      (body : ASTNode) (label : option string)
  | AST_SWITCH_STATEMENT (loc : SourceLocation) (expression : ASTNode) (cases : list ASTNode)
  | AST_CASE_CLAUSE (loc : SourceLocation) (value : option ASTNode) (body : ASTNode)
      (is_default : bool)
  | AST_MATCH_STATEMENT (loc : SourceLocation) (expression : ASTNode)
      (arms : list (MatchArm ASTNode)) (is_expression : bool)
  | AST_BREAK_STATEMENT (loc : SourceLocation) (target_label : option string)
  | AST_CONTINUE_STATEMENT (loc : SourceLocation) (target_label : option string)
  | AST_DEFER_STATEMENT (loc : SourceLocation) (statement : ASTNode)
  | AST_ERRDEFER_STATEMENT (loc : SourceLocation) (statement : ASTNode)
  | AST_INLINE_ASM (loc : SourceLocation) (assembly_code : string)
  | AST_IDENTIFIER (loc : SourceLocation) (name : string)
  | AST_NUMBER_LITERAL (loc : SourceLocation) (n : NumberLiteral)
  | AST_STRING_LITERAL (loc : SourceLocation) (value : string)
  | AST_BINARY_EXPRESSION (loc : SourceLocation) (operator : string) (left right : ASTNode)
  | AST_UNARY_EXPRESSION (loc : SourceLocation) (operator : string) (operand : ASTNode)
  | AST_MEMBER_ACCESS (loc : SourceLocation) (object : ASTNode) (member : string)
  | AST_INDEX_EXPRESSION (loc : SourceLocation) (array index : ASTNode)
  | AST_NEW_EXPRESSION (loc : SourceLocation) (type_name : string)
  | AST_CAST_EXPRESSION (loc : SourceLocation) (type_name : string) (operand : ASTNode)
  | AST_NO_DATA (t : ASTNodeType) (loc : SourceLocation).

(** [node->type]. *)
Definition ast_type (n : ASTNode) : ASTNodeType :=
  match n with
  | AST_PROGRAM _ _ => T_PROGRAM
  | AST_IMPORT _ _ => T_IMPORT
  | AST_IMPORT_STR _ _ => T_IMPORT_STR
  | AST_VAR_DECLARATION _ _ => T_VAR_DECLARATION
  | AST_FUNCTION_DECLARATION _ _ => T_FUNCTION_DECLARATION
  | AST_STRUCT_DECLARATION _ _ => T_STRUCT_DECLARATION
  | AST_ENUM_DECLARATION _ _ => T_ENUM_DECLARATION
  | AST_TRAIT_DECLARATION _ _ _ _ => T_TRAIT_DECLARATION
  | AST_IMPL_DECLARATION _ _ _ _ => T_IMPL_DECLARATION
  | AST_METHOD_DECLARATION _ _ => T_METHOD_DECLARATION
  | AST_ASSIGNMENT _ _ _ _ => T_ASSIGNMENT
  | AST_FUNCTION_CALL _ _ => T_FUNCTION_CALL
  | AST_FUNC_PTR_CALL _ _ _ => T_FUNC_PTR_CALL
  | AST_RETURN_STATEMENT _ _ => T_RETURN_STATEMENT
  | AST_IF_STATEMENT _ _ _ _ _ => T_IF_STATEMENT
  | AST_WHILE_STATEMENT _ _ _ _ => T_WHILE_STATEMENT
  | AST_FOR_STATEMENT _ _ _ _ _ _ => T_FOR_STATEMENT
  | AST_SWITCH_STATEMENT _ _ _ => T_SWITCH_STATEMENT
  | AST_CASE_CLAUSE _ _ _ _ => T_CASE_CLAUSE
  | AST_MATCH_STATEMENT _ _ _ _ => T_MATCH_STATEMENT
  | AST_BREAK_STATEMENT _ _ => T_BREAK_STATEMENT
  | AST_CONTINUE_STATEMENT _ _ => T_CONTINUE_STATEMENT
  | AST_DEFER_STATEMENT _ _ => T_DEFER_STATEMENT
  | AST_ERRDEFER_STATEMENT _ _ => T_ERRDEFER_STATEMENT
  | AST_INLINE_ASM _ _ => T_INLINE_ASM
  | AST_IDENTIFIER _ _ => T_IDENTIFIER
  | AST_NUMBER_LITERAL _ _ => T_NUMBER_LITERAL
  | AST_STRING_LITERAL _ _ => T_STRING_LITERAL
  | AST_BINARY_EXPRESSION _ _ _ _ => T_BINARY_EXPRESSION
  | AST_UNARY_EXPRESSION _ _ _ => T_UNARY_EXPRESSION
  | AST_MEMBER_ACCESS _ _ _ => T_MEMBER_ACCESS
  | AST_INDEX_EXPRESSION _ _ _ => T_INDEX_EXPRESSION
  | AST_NEW_EXPRESSION _ _ => T_NEW_EXPRESSION
  | AST_CAST_EXPRESSION _ _ _ => T_CAST_EXPRESSION
  | AST_NO_DATA t _ => t
  end.

(** [node->location]. *)
Definition ast_location (n : ASTNode) : SourceLocation :=
  match n with
  | AST_PROGRAM l _ | AST_IMPORT l _ | AST_IMPORT_STR l _ | AST_VAR_DECLARATION l _
  | AST_FUNCTION_DECLARATION l _ | AST_STRUCT_DECLARATION l _ | AST_ENUM_DECLARATION l _
  | AST_TRAIT_DECLARATION l _ _ _ | AST_IMPL_DECLARATION l _ _ _
  | AST_METHOD_DECLARATION l _ | AST_ASSIGNMENT l _ _ _ | AST_FUNCTION_CALL l _
  | AST_FUNC_PTR_CALL l _ _ | AST_RETURN_STATEMENT l _ | AST_IF_STATEMENT l _ _ _ _
  | AST_WHILE_STATEMENT l _ _ _ | AST_FOR_STATEMENT l _ _ _ _ _
  | AST_SWITCH_STATEMENT l _ _ | AST_CASE_CLAUSE l _ _ _ | AST_MATCH_STATEMENT l _ _ _
  | AST_BREAK_STATEMENT l _ | AST_CONTINUE_STATEMENT l _ | AST_DEFER_STATEMENT l _
  | AST_ERRDEFER_STATEMENT l _ | AST_INLINE_ASM l _ | AST_IDENTIFIER l _
  | AST_NUMBER_LITERAL l _ | AST_STRING_LITERAL l _ | AST_BINARY_EXPRESSION l _ _ _
  | AST_UNARY_EXPRESSION l _ _ | AST_MEMBER_ACCESS l _ _ | AST_INDEX_EXPRESSION l _ _
  | AST_NEW_EXPRESSION l _ | AST_CAST_EXPRESSION l _ _ | AST_NO_DATA _ l => l
  end.

(** ** Creation *)

Definition ast_create_program (declarations : list ASTNode) : ASTNode :=
  AST_PROGRAM (mkLocation 0 0 None) declarations.

Definition ast_create_import_declaration (module_name : string) (alias : option string)
    (selected : list string) (loc : SourceLocation) : ASTNode :=
  AST_IMPORT loc (mkImport module_name alias selected).

Definition ast_create_import_str (file_path : string) (loc : SourceLocation) : ASTNode :=
  AST_IMPORT_STR loc file_path.

Definition ast_create_var_declaration (name : string) (type_name : option string)
    (initializer : option ASTNode) (loc : SourceLocation) : ASTNode :=
  AST_VAR_DECLARATION loc (mkVar name type_name initializer false false None).

Definition ast_create_function_declaration (name : string) (params : list (string * string))
    (return_type : option string) (body : option ASTNode) (loc : SourceLocation) : ASTNode :=
  AST_FUNCTION_DECLARATION loc (mkFunction name params return_type body false false None []).

Definition ast_create_struct_declaration (name : string) (fields : list (string * string))
    (methods : list ASTNode) (loc : SourceLocation) : ASTNode :=
  AST_STRUCT_DECLARATION loc (mkStruct name fields methods false []).

Definition ast_create_enum_declaration (name : string) (variants : list (EnumVariant ASTNode))
    (loc : SourceLocation) : ASTNode :=
  AST_ENUM_DECLARATION loc (mkEnum name variants false []).

Definition ast_create_match_node (expression : ASTNode) (arms : list (MatchArm ASTNode))
    (is_expression : bool) (loc : SourceLocation) : ASTNode :=
  AST_MATCH_STATEMENT loc expression arms is_expression.

Definition ast_create_trait_declaration (name : string) (loc : SourceLocation) : ASTNode :=
  AST_TRAIT_DECLARATION loc name false [].

Definition ast_create_impl_declaration (trait_name for_type_name : string)
    (loc : SourceLocation) : ASTNode :=
  AST_IMPL_DECLARATION loc trait_name for_type_name [].

Definition ast_create_call_expression (function_name : string) (arguments : list ASTNode)
    (loc : SourceLocation) : ASTNode :=
  AST_FUNCTION_CALL loc (mkCall function_name arguments None [] false).

Definition ast_create_method_call (object : ASTNode) (method_name : string)
    (arguments : list ASTNode) (loc : SourceLocation) : ASTNode :=
  AST_FUNCTION_CALL loc (mkCall method_name arguments (Some object) [] false).

Definition ast_create_func_ptr_call (function : ASTNode) (arguments : list ASTNode)
    (loc : SourceLocation) : ASTNode :=
  AST_FUNC_PTR_CALL loc function arguments.

Definition ast_create_assignment (variable_name : string) (value : ASTNode)
    (loc : SourceLocation) : ASTNode :=
  AST_ASSIGNMENT loc (Some variable_name) None value.

Definition ast_create_field_assignment (target value : ASTNode) (loc : SourceLocation)
    : ASTNode :=
  AST_ASSIGNMENT loc None (Some target) value.

Definition ast_create_inline_asm (assembly_code : string) (loc : SourceLocation) : ASTNode :=
  AST_INLINE_ASM loc assembly_code.

Definition ast_create_identifier (name : string) (loc : SourceLocation) : ASTNode :=
  AST_IDENTIFIER loc name.

Definition ast_create_number_literal (int_value : Z) (loc : SourceLocation) (int_radix : Z)
    : ASTNode :=
  AST_NUMBER_LITERAL loc
    (IntLiteral int_value (if (int_radix =? 2)%Z || (int_radix =? 16)%Z then int_radix else 10)).

Definition ast_create_float_literal (float_text : string) (loc : SourceLocation) : ASTNode :=
  AST_NUMBER_LITERAL loc (FloatLiteral float_text).

Definition ast_create_string_literal (v : string) (loc : SourceLocation) : ASTNode :=
  AST_STRING_LITERAL loc v.

Definition ast_create_binary_expression (left : ASTNode) (operator : string)
    (right : ASTNode) (loc : SourceLocation) : ASTNode :=
  AST_BINARY_EXPRESSION loc operator left right.

Definition ast_create_unary_expression (operator : string) (operand : ASTNode)
    (loc : SourceLocation) : ASTNode :=
  AST_UNARY_EXPRESSION loc operator operand.

Definition ast_create_member_access (object : ASTNode) (member : string)
    (loc : SourceLocation) : ASTNode :=
  AST_MEMBER_ACCESS loc object member.

Definition ast_create_array_index_expression (array index : ASTNode) (loc : SourceLocation)
    : ASTNode :=
  AST_INDEX_EXPRESSION loc array index.

Definition ast_create_new_expression (type_name : string) (loc : SourceLocation) : ASTNode :=
  AST_NEW_EXPRESSION loc type_name.

Definition ast_create_cast_expression (type_name : string) (operand : ASTNode)
    (loc : SourceLocation) : ASTNode :=
  AST_CAST_EXPRESSION loc type_name operand.

Definition ast_create_for_statement (initializer condition increment : option ASTNode)
    (body : ASTNode) (loc : SourceLocation) : ASTNode :=
  AST_FOR_STATEMENT loc initializer condition increment body None.

Definition ast_create_case_clause (v : option ASTNode) (body : ASTNode) (is_default : bool)
    (loc : SourceLocation) : ASTNode :=
  AST_CASE_CLAUSE loc v body is_default.

Definition ast_create_switch_statement (expression : ASTNode) (cases : list ASTNode)
    (loc : SourceLocation) : ASTNode :=
  AST_SWITCH_STATEMENT loc expression cases.

Definition ast_create_labeled_break_statement (label : option string) (loc : SourceLocation)
    : ASTNode := AST_BREAK_STATEMENT loc label.

Definition ast_create_labeled_continue_statement (label : option string)
    (loc : SourceLocation) : ASTNode := AST_CONTINUE_STATEMENT loc label.

Definition ast_create_defer_statement (statement : ASTNode) (loc : SourceLocation) : ASTNode :=
  AST_DEFER_STATEMENT loc statement.

Definition ast_create_errdefer_statement (statement : ASTNode) (loc : SourceLocation)
    : ASTNode := AST_ERRDEFER_STATEMENT loc statement.
