(* ===== verification/TypeRules.v ===== *)
(** * Rules on types: src/src/semantic/type_checker.c

    The tests and conversions on types, the type of literals, constant expressions and
    the facts about buffers behind the checker's warnings: the functions that look at
    types and trees without changing the checker. *)

From stdpp Require Import gmap.
From S2P Require Import Prelude.
From S2P Require Import Ast.
From S2P Require Import Types.
#[local] Open Scope Z_scope.

(** ** Kinds *)

Definition type_checker_is_integer_type (t : Type_) : bool :=
  match kind t with
  | TYPE_INT8 | TYPE_INT16 | TYPE_INT32 | TYPE_INT64 | TYPE_UINT8 | TYPE_UINT16 | TYPE_UINT32
  | TYPE_UINT64 | TYPE_BOOL | TYPE_ENUM => true
  | _ => false
  end.

Definition type_checker_is_floating_type (t : Type_) : bool :=
  match kind t with TYPE_FLOAT32 | TYPE_FLOAT64 => true | _ => false end.

Definition type_checker_is_numeric_type (t : Type_) : bool :=
  type_checker_is_integer_type t || type_checker_is_floating_type t.

Definition is_kind (k : TypeKind) (t : Type_) : bool := bool_decide (kind t = k).

Definition is_named (n : string) (t : Type_) : bool := bool_decide (tname t = Some n).

Definition type_checker_is_cstring_type (t : Type_) : bool :=
  is_kind TYPE_POINTER t && is_named "cstring" t.

Definition type_checker_get_type_rank (t : Type_) : Z :=
  match kind t with
  | TYPE_INT8 | TYPE_UINT8 => 1
  | TYPE_INT16 | TYPE_UINT16 => 2
  | TYPE_INT32 | TYPE_UINT32 => 3
  | TYPE_FLOAT32 => 4
  | TYPE_INT64 | TYPE_UINT64 => 5
  | TYPE_FLOAT64 => 6
  | TYPE_STRING => 10
  | _ => 0
  end.

(** The types made when a checker is created. *)
Record Builtins : Type := mkBuiltins {
  builtin_int8 : tid; builtin_int16 : tid; builtin_int32 : tid; builtin_int64 : tid;
  builtin_uint8 : tid; builtin_uint16 : tid; builtin_uint32 : tid; builtin_uint64 : tid;
  builtin_bool : tid; builtin_float32 : tid; builtin_float64 : tid;
  builtin_string : tid; builtin_cstring : tid; builtin_void : tid }.

(** ** Relations

    [None]: a dangling reference, or fuel exhausted in the comparison of types. *)

Section relations.
Context (fuel : nat) (store : type_store).

(** The text of [type_checker_types_equal] is that of [symbol_table_types_compatible]. *)
Definition type_checker_types_equal : option tid → option tid → option bool :=
  symbol_table_types_compatible fuel store.

(** Same kind: the same type.  Otherwise between numbers, but not from a float to an integer. *)
Definition type_checker_is_implicitly_convertible (from_type to_type : tid) : option bool :=
  from ← store !! from_type;
  to ← store !! to_type;
  if decide (kind from = kind to) then type_checker_types_equal (Some from_type) (Some to_type)
  else Some (type_checker_is_numeric_type to &&
             (type_checker_is_integer_type from ||
              (type_checker_is_floating_type from && type_checker_is_floating_type to))).

Definition is_pointer_array_struct (t : Type_) : bool :=
  match kind t with TYPE_POINTER | TYPE_ARRAY | TYPE_STRUCT => true | _ => false end.

Definition type_checker_are_compatible (type1 type2 : tid) : option bool :=
  equal ← type_checker_types_equal (Some type1) (Some type2);
  if equal : bool then Some true
  else
    t1 ← store !! type1;
    t2 ← store !! type2;
    if is_pointer_array_struct t1 || is_pointer_array_struct t2 then Some false
    else
      there ← type_checker_is_implicitly_convertible type1 type2;
      if there : bool then Some true else type_checker_is_implicitly_convertible type2 type1.

(** Pointers to [int8] pass for [cstring]. *)
Definition int8_pointer_as_cstring (dest src : Type_) : option bool :=
  if is_kind TYPE_POINTER dest && is_kind TYPE_POINTER src && is_named "cstring" dest then
    match base_type src with
    | Some b => is_named "int8" <$> store !! b
    | None => Some false
    end
  else Some false.

(** An array passes for a pointer to its elements. *)
Definition array_decays (dest src : Type_) : option bool :=
  if is_kind TYPE_POINTER dest && is_kind TYPE_ARRAY src then
    match base_type dest, base_type src with
    | Some d, Some s => type_checker_types_equal (Some d) (Some s)
    | _, _ => Some false
    end
  else Some false.

Definition type_checker_is_assignable (dest_type src_type : option tid) : option bool :=
  match dest_type, src_type with
  | Some d, Some s =>
      equal ← type_checker_types_equal (Some d) (Some s);
      if equal : bool then Some true
      else
        dest ← store !! d;
        src ← store !! s;
        if type_checker_is_cstring_type dest && is_kind TYPE_STRING src then Some true
        else
          bytes ← int8_pointer_as_cstring dest src;
          if bytes : bool then Some true
          else
            decays ← array_decays dest src;
            if decays : bool then Some true
            else if is_pointer_array_struct dest || is_pointer_array_struct src then Some false
            else type_checker_is_implicitly_convertible s d
  | _, _ => Some false
  end.

Definition is_pointer_like (t : Type_) : bool :=
  match kind t with TYPE_POINTER | TYPE_FUNCTION_POINTER => true | _ => false end.

(** The cases after the first, on the two kinds. *)
Definition castable (from to : Type_) : bool :=
  (type_checker_is_numeric_type from && type_checker_is_numeric_type to) ||
  (is_pointer_like from && is_pointer_like to) ||
  (type_checker_is_integer_type from && is_pointer_like to) ||
  (is_pointer_like from && type_checker_is_integer_type to).

Definition type_checker_is_cast_valid (from_type to_type : tid) : option bool :=
  equal ← type_checker_types_equal (Some from_type) (Some to_type);
  if equal : bool then Some true
  else
    from ← store !! from_type;
    to ← store !! to_type;
    Some (castable from to).

Definition type_checker_get_larger_type (type1 type2 : tid) : option tid :=
  t1 ← store !! type1;
  t2 ← store !! type2;
  Some (if type_checker_get_type_rank t2 <=? type_checker_get_type_rank t1 then type1 else type2).

Definition is_one_of (operators : list string) (o : string) : bool := existsb (String.eqb o) operators.

Definition is_comparison : string → bool := is_one_of ["=="; "!="; "<"; "<="; ">"; ">="]%string.
Definition is_arithmetic : string → bool := is_one_of ["+"; "-"; "*"; "/"; "%"]%string.
Definition is_bitwise : string → bool := is_one_of ["&"; "|"; "^"; "<<"; ">>"]%string.
Definition is_logical : string → bool := is_one_of ["&&"; "||"]%string.

Definition type_checker_promote_types (b : Builtins) (left right : tid) (operator : string) : option tid :=
  if is_comparison operator then Some (builtin_int32 b)
  else
    l ← store !! left;
    r ← store !! right;
    if is_arithmetic operator &&
       (type_checker_is_floating_type l || type_checker_is_floating_type r ||
        (type_checker_is_integer_type l && type_checker_is_integer_type r))
    then type_checker_get_larger_type left right
    else if is_logical operator then Some (builtin_int32 b)
    else Some left.
End relations.

(** ** Literals and assignable expressions *)

Definition INT32_MIN : Z := -2147483648.
Definition INT32_MAX : Z := 2147483647.
Definition UINT32_MAX : Z := 4294967295.
Definition INT64_MAX : Z := 2 ^ 63 - 1.

Definition type_checker_default_integer_literal_type (b : Builtins) (int_value radix : Z) : tid :=
  let u_bitpat := u64 int_value in
  if negb ((radix =? 2) || (radix =? 16)) then
    if (INT32_MIN <=? int_value) && (int_value <=? INT32_MAX) then builtin_int32 b
    else if u_bitpat <=? INT64_MAX then builtin_int64 b
    else builtin_uint64 b
  else if u_bitpat <=? INT32_MAX then builtin_int32 b
  else if u_bitpat <=? UINT32_MAX then builtin_uint32 b
  else if u_bitpat <=? INT64_MAX then builtin_int64 b
  else builtin_uint64 b.

Definition type_checker_is_lvalue_expression (expression : ASTNode) : bool :=
  match ast_type expression with
  | T_IDENTIFIER | T_MEMBER_ACCESS | T_INDEX_EXPRESSION => true
  | T_UNARY_EXPRESSION =>
      match expression with AST_UNARY_EXPRESSION _ o _ => String.eqb o "*" | _ => false end
  | _ => false
  end.

(** ** Constant expressions *)

(** The signed arithmetic of [long long]: [None] where it overflows or divides by
    zero, which is undefined behaviour. *)
Definition long_long (v : Z) : option Z := if (- 2 ^ 63 <=? v) && (v <=? INT64_MAX) then Some v else None.

(** [None]: the operator is none of constant expressions, or divides by zero. *)
Definition constant_binary (o : string) (left right : Z) : option (option Z) :=
  let test b := Some (Some (if b : bool then 1 else 0)) in
  if String.eqb o "+" then Some (long_long (left + right))
  else if String.eqb o "-" then Some (long_long (left - right))
  else if String.eqb o "*" then Some (long_long (left * right))
  else if String.eqb o "/" then if right =? 0 then None else Some (long_long (Z.quot left right))
  else if String.eqb o "%" then
    if right =? 0 then None
    else Some (_ ← long_long (Z.quot left right); Some (Z.rem left right))
  else if String.eqb o "==" then test (left =? right)
  else if String.eqb o "!=" then test (negb (left =? right))
  else if String.eqb o "<" then test (left <? right)
  else if String.eqb o "<=" then test (left <=? right)
  else if String.eqb o ">" then test (right <? left)
  else if String.eqb o ">=" then test (right <=? left)
  else if String.eqb o "&&" then test (negb (left =? 0) && negb (right =? 0))
  else if String.eqb o "||" then test (negb (left =? 0) || negb (right =? 0))
  else None.

Definition constant_unary (o : string) (operand : Z) : option (option Z) :=
  if String.eqb o "+" then Some (Some operand)
  else if String.eqb o "-" then Some (long_long (- operand))
  else None.

Section constants.
(** The effects of looking up names, undefined behaviour among them; what an identifier
    and the call of a function are worth. *)
Context {M : Type → Type} {R : MRet M} {B : MBind M} (undefined : M (option Z)).
Context (identifier : string → M (option Z)) (call : CallExpression ASTNode → M (option Z)).

Definition arithmetic (r : option (option Z)) : M (option Z) :=
  match r with
  | None => mret None
  | Some None => undefined
  | Some (Some v) => mret (Some v)
  end.

(** The constant an expression is, if any. *)
Fixpoint eval_integer_constant (expression : ASTNode) : M (option Z) :=
  match expression with
  | AST_NUMBER_LITERAL _ (IntLiteral v _) => mret (Some v)
  | AST_IDENTIFIER _ name => identifier name
  | AST_FUNCTION_CALL _ d => call d
  | AST_UNARY_EXPRESSION _ o operand =>
      v ← eval_integer_constant operand;
      match v with Some v => arithmetic (constant_unary o v) | None => mret None end
  | AST_BINARY_EXPRESSION _ o a b =>
      l ← eval_integer_constant a;
      match l with
      | Some l =>
          r ← eval_integer_constant b;
          match r with Some r => arithmetic (constant_binary o l r) | None => mret None end
      | None => mret None
      end
  | _ => mret None
  end.
End constants.

(** Without a checker names and [sizeof] are no constants. *)
Definition type_checker_eval_integer_constant : ASTNode → option (option Z) :=
  eval_integer_constant None (λ _, Some None) (λ _, Some None).

Definition type_checker_is_null_pointer_constant (expression : ASTNode) : option bool :=
  v ← type_checker_eval_integer_constant expression; Some (bool_decide (v = Some 0)).

(** ** Facts about buffers *)

(** What is known of the buffer a variable points to; -1 stands for nothing. *)
Record TrackedBufferExtent : Type := mkExtent {
  be_name : string;
  byte_count : Z;
  known_alignment : Z;
  be_scope_depth : Z }.

Definition type_checker_buffer_extent_exit_scope (extents : list TrackedBufferExtent) (scope_depth : Z)
    : list TrackedBufferExtent :=
  List.filter (λ e, negb (be_scope_depth e =? scope_depth)) extents.

Fixpoint type_checker_buffer_extent_find (extents : list TrackedBufferExtent) (name : string)
    : option TrackedBufferExtent :=
  match extents with
  | [] => None
  | e :: extents => if String.eqb (be_name e) name then Some e else type_checker_buffer_extent_find extents name
  end.

Definition type_checker_default_heap_alignment : Z := 8.

Definition is_allocation (name : string) : bool := is_one_of ["malloc"; "calloc"]%string name.

Definition type_checker_extract_allocation_call_alignment (call : CallExpression ASTNode) : Z :=
  if is_allocation (ce_function_name call) then type_checker_default_heap_alignment else -1.

(** Halving until the offset is a multiple; 64 halvings exhaust a [long long]. *)
Fixpoint halve_alignment (fuel : nat) (magnitude result : Z) : Z :=
  match fuel with
  | O => result
  | S fuel =>
      if (1 <? result) && negb (Z.rem magnitude result =? 0)
      then halve_alignment fuel magnitude (Z.quot result 2)
      else result
  end.

Definition type_checker_known_alignment_after_offset (base_align offset : Z) : Z :=
  if base_align <=? 0 then -1
  else if offset =? 0 then base_align
  else if offset =? - 2 ^ 63 then 1
  else
    let result := halve_alignment 64 (Z.abs offset) base_align in
    if 0 <? result then result else 1.

Fixpoint type_checker_extract_identifier_name (expression : ASTNode) : option string :=
  match expression with
  | AST_CAST_EXPRESSION _ _ operand => type_checker_extract_identifier_name operand
  | AST_IDENTIFIER _ name => Some name
  | _ => None
  end.

(** [None] in the functions that follow is an overflow in a constant. *)
Definition type_checker_extract_allocation_call_extent (call : CallExpression ASTNode) : option Z :=
  if String.eqb (ce_function_name call) "malloc" then
    match ce_arguments call with
    | [n] =>
        size ← type_checker_eval_integer_constant n;
        Some (match size with Some size => if size <? 0 then -1 else size | None => -1 end)
    | _ => Some (-1)
    end
  else if String.eqb (ce_function_name call) "calloc" then
    match ce_arguments call with
    | [m; n] =>
        count ← type_checker_eval_integer_constant m;
        match count with
        | None => Some (-1)
        | Some count =>
            size ← type_checker_eval_integer_constant n;
            Some (match size with
                  | None => -1
                  | Some size =>
                      if (count <? 0) || (size <? 0) then -1
                      else if (0 <? count) && (Z.quot INT64_MAX count <? size) then -1
                      else count * size
                  end)
        end
    | _ => Some (-1)
    end
  else Some (-1).

Section extents.
Context (extents : list TrackedBufferExtent).

Definition fact_of (fact : TrackedBufferExtent → Z) (expression : ASTNode) : Z :=
  match type_checker_extract_identifier_name expression ≫= type_checker_buffer_extent_find extents with
  | Some e => fact e
  | None => -1
  end.

Fixpoint type_checker_extract_known_buffer_extent (expression : ASTNode) : option Z :=
  match expression with
  | AST_CAST_EXPRESSION _ _ operand => type_checker_extract_known_buffer_extent operand
  | AST_FUNCTION_CALL _ call => type_checker_extract_allocation_call_extent call
  | AST_BINARY_EXPRESSION _ o l r =>
      let after base offset :=
        if (base <? 0) || (offset <? 0) then -1 else if base <=? offset then 0 else base - offset in
      if String.eqb o "+" then
        offset ← type_checker_eval_integer_constant r;
        match offset with
        | Some offset => base ← type_checker_extract_known_buffer_extent l; Some (after base offset)
        | None =>
            offset ← type_checker_eval_integer_constant l;
            match offset with
            | Some offset => base ← type_checker_extract_known_buffer_extent r; Some (after base offset)
            | None => Some (-1)
            end
        end
      else Some (-1)
  | _ => Some (fact_of byte_count expression)
  end.

Fixpoint type_checker_extract_known_pointer_alignment (expression : ASTNode) : option Z :=
  match expression with
  | AST_CAST_EXPRESSION _ _ operand => type_checker_extract_known_pointer_alignment operand
  | AST_FUNCTION_CALL _ call => Some (type_checker_extract_allocation_call_alignment call)
  | AST_BINARY_EXPRESSION _ o l r =>
      let after base offset :=
        if base <=? 0 then -1 else type_checker_known_alignment_after_offset base offset in
      if is_one_of ["+"; "-"]%string o then
        offset ← type_checker_eval_integer_constant r;
        match offset with
        | Some offset => base ← type_checker_extract_known_pointer_alignment l; Some (after base offset)
        | None =>
            if String.eqb o "+" then
              offset ← type_checker_eval_integer_constant l;
              match offset with
              | Some offset => base ← type_checker_extract_known_pointer_alignment r; Some (after base offset)
              | None => Some (-1)
              end
            else Some (-1)
        end
      else Some (-1)
  | _ => Some (fact_of known_alignment expression)
  end.
End extents.
