(* ===== verification/AstClone.v ===== *)
(** * Copying syntax trees: [ast_clone_node] of src/src/parser/ast.c

    One definition per group of cases of the function's [switch], over the
    recursive call, and [ast_clone_node] that ties them.  Allocations succeed.
    [None] is undefined behaviour: most cases read the data of a node without
    asking whether it is there.  [ast_cloneable] is the set of trees that survive
    the copy. *)

From S2P Require Import Prelude.
From S2P Require Import Ast.

(** ** The cases of the switch *)

Section clone.
Context (rec : ASTNode → option ASTNode).

(** [src->x ? ast_clone_node(src->x) : NULL]. *)
Definition clone_optional (x : option ASTNode) : option (option ASTNode) :=
  match x with Some x => Some <$> rec x | None => Some None end.

Fixpoint clone_nodes (l : list ASTNode) : option (list ASTNode) :=
  match l with [] => Some [] | x :: l => x' ← rec x; l' ← clone_nodes l; Some (x' :: l') end.

Fixpoint clone_else_ifs (src : list (ASTNode * ASTNode)) : option (list (ASTNode * ASTNode)) :=
  match src with
  | [] => Some []
  | (condition, body) :: src =>
      condition ← rec condition; body ← rec body; rest ← clone_else_ifs src; Some ((condition, body) :: rest)
  end.

Definition clone_var_declaration (src : VarDeclaration ASTNode) : option (VarDeclaration ASTNode) :=
  initializer ← clone_optional (vd_initializer src);
  Some (mkVar (vd_name src) (vd_type_name src) initializer (vd_is_extern src) (vd_is_exported src)
          (vd_link_name src)).

Definition clone_function_declaration (src : FunctionDeclaration ASTNode)
    : option (FunctionDeclaration ASTNode) :=
  body ← clone_optional (fd_body src);
  Some (mkFunction (fd_name src) (fd_parameters src) (fd_return_type src) body (fd_is_exported src)
          (fd_is_extern src) (fd_link_name src) (fd_type_params src)).

Definition clone_struct_declaration (src : StructDeclaration ASTNode)
    : option (StructDeclaration ASTNode) :=
  methods ← clone_nodes (sd_methods src);
  Some (mkStruct (sd_name src) (sd_fields src) methods (sd_is_exported src) (sd_type_params src)).

Definition clone_call_expression (src : CallExpression ASTNode) : option (CallExpression ASTNode) :=
  object ← clone_optional (ce_object src);
  arguments ← clone_nodes (ce_arguments src);
  Some (mkCall (ce_function_name src) arguments object (ce_type_args src) (ce_is_indirect_call src)).

(** A node whose data is [NULL]: the program becomes an empty one, these cases ask for
    the data or are left to [default], and the others read through the null pointer. *)
Definition clone_no_data (t : ASTNodeType) (loc : SourceLocation) : option ASTNode :=
  match t with
  | T_PROGRAM => Some (AST_PROGRAM loc [])
  | T_RETURN_STATEMENT | T_BREAK_STATEMENT | T_CONTINUE_STATEMENT
  | T_ENUM_DECLARATION | T_MATCH_STATEMENT | T_METHOD_DECLARATION => Some (AST_NO_DATA t loc)
  | _ => None
  end.
End clone.

Fixpoint ast_clone_node (n : ASTNode) : option ASTNode :=
  match n with
  | AST_PROGRAM loc ds => ds ← clone_nodes ast_clone_node ds; Some (AST_PROGRAM loc ds)
  | AST_VAR_DECLARATION loc d =>
      d ← clone_var_declaration ast_clone_node d; Some (AST_VAR_DECLARATION loc d)
  | AST_FUNCTION_DECLARATION loc d =>
      d ← clone_function_declaration ast_clone_node d; Some (AST_FUNCTION_DECLARATION loc d)
  | AST_STRUCT_DECLARATION loc d =>
      d ← clone_struct_declaration ast_clone_node d; Some (AST_STRUCT_DECLARATION loc d)
  | AST_FUNCTION_CALL loc d => d ← clone_call_expression ast_clone_node d; Some (AST_FUNCTION_CALL loc d)
  | AST_TRAIT_DECLARATION loc name exported ms =>
      ms ← clone_nodes ast_clone_node ms; Some (AST_TRAIT_DECLARATION loc name exported ms)
  | AST_IMPL_DECLARATION loc trait ty ms =>
      ms ← clone_nodes ast_clone_node ms; Some (AST_IMPL_DECLARATION loc trait ty ms)
  | AST_FUNC_PTR_CALL loc f args =>
      f ← ast_clone_node f; args ← clone_nodes ast_clone_node args; Some (AST_FUNC_PTR_CALL loc f args)
  | AST_ASSIGNMENT loc name target v =>
      v ← ast_clone_node v; target ← clone_optional ast_clone_node target;
      Some (AST_ASSIGNMENT loc name target v)
  | AST_IDENTIFIER loc name => Some (AST_IDENTIFIER loc name)
  | AST_NUMBER_LITERAL loc l => Some (AST_NUMBER_LITERAL loc l)
  | AST_STRING_LITERAL loc s => Some (AST_STRING_LITERAL loc s)
  | AST_BINARY_EXPRESSION loc op l r =>
      l ← ast_clone_node l; r ← ast_clone_node r; Some (AST_BINARY_EXPRESSION loc op l r)
  | AST_UNARY_EXPRESSION loc op e => e ← ast_clone_node e; Some (AST_UNARY_EXPRESSION loc op e)
  | AST_MEMBER_ACCESS loc e m => e ← ast_clone_node e; Some (AST_MEMBER_ACCESS loc e m)
  | AST_INDEX_EXPRESSION loc a i =>
      a ← ast_clone_node a; i ← ast_clone_node i; Some (AST_INDEX_EXPRESSION loc a i)
  | AST_NEW_EXPRESSION loc ty => Some (AST_NEW_EXPRESSION loc ty)
  | AST_CAST_EXPRESSION loc ty e => e ← ast_clone_node e; Some (AST_CAST_EXPRESSION loc ty e)
  | AST_RETURN_STATEMENT loc v => v ← clone_optional ast_clone_node v; Some (AST_RETURN_STATEMENT loc v)
  | AST_IF_STATEMENT loc c t eis e =>
      c ← ast_clone_node c; t ← ast_clone_node t; e ← clone_optional ast_clone_node e;
      eis ← clone_else_ifs ast_clone_node eis; Some (AST_IF_STATEMENT loc c t eis e)
  | AST_WHILE_STATEMENT loc c b label =>
      c ← ast_clone_node c; b ← ast_clone_node b; Some (AST_WHILE_STATEMENT loc c b label)
  | AST_FOR_STATEMENT loc i c inc b label =>
      i ← clone_optional ast_clone_node i; c ← clone_optional ast_clone_node c;
      inc ← clone_optional ast_clone_node inc; b ← ast_clone_node b;
      Some (AST_FOR_STATEMENT loc i c inc b label)
  | AST_SWITCH_STATEMENT loc e cs =>
      e ← ast_clone_node e; cs ← clone_nodes ast_clone_node cs; Some (AST_SWITCH_STATEMENT loc e cs)
  | AST_CASE_CLAUSE loc v b def =>
      v ← clone_optional ast_clone_node v; b ← ast_clone_node b; Some (AST_CASE_CLAUSE loc v b def)
  | AST_DEFER_STATEMENT loc s => s ← ast_clone_node s; Some (AST_DEFER_STATEMENT loc s)
  | AST_ERRDEFER_STATEMENT loc s => s ← ast_clone_node s; Some (AST_ERRDEFER_STATEMENT loc s)
  | AST_INLINE_ASM loc code => Some (AST_INLINE_ASM loc code)
  | AST_IMPORT loc d => Some (AST_IMPORT loc d)
  | AST_IMPORT_STR loc path => Some (AST_IMPORT_STR loc path)
  | AST_BREAK_STATEMENT loc label => Some (AST_BREAK_STATEMENT loc label)
  | AST_CONTINUE_STATEMENT loc label => Some (AST_CONTINUE_STATEMENT loc label)
  (* [default: break;] leaves [clone->data] NULL. *)
  | AST_ENUM_DECLARATION loc _ => Some (AST_NO_DATA T_ENUM_DECLARATION loc)
  | AST_MATCH_STATEMENT loc _ _ _ => Some (AST_NO_DATA T_MATCH_STATEMENT loc)
  | AST_METHOD_DECLARATION loc _ => Some (AST_NO_DATA T_METHOD_DECLARATION loc)
  | AST_NO_DATA t loc => clone_no_data t loc
  end.

(** ** The trees that are copied whole *)

Definition opt_all {A} (f : A → bool) (o : option A) : bool :=
  match o with Some x => f x | None => true end.

Fixpoint ast_cloneable (n : ASTNode) : bool :=
  match n with
  | AST_ENUM_DECLARATION _ _ | AST_MATCH_STATEMENT _ _ _ _ | AST_METHOD_DECLARATION _ _ => false
  | AST_PROGRAM _ l | AST_TRAIT_DECLARATION _ _ _ l | AST_IMPL_DECLARATION _ _ _ l =>
      forallb ast_cloneable l
  | AST_VAR_DECLARATION _ d => opt_all ast_cloneable (vd_initializer d)
  | AST_FUNCTION_DECLARATION _ d => opt_all ast_cloneable (fd_body d)
  | AST_STRUCT_DECLARATION _ d => forallb ast_cloneable (sd_methods d)
  | AST_FUNCTION_CALL _ d =>
      forallb ast_cloneable (ce_arguments d) && opt_all ast_cloneable (ce_object d)
  | AST_FUNC_PTR_CALL _ e l | AST_SWITCH_STATEMENT _ e l =>
      ast_cloneable e && forallb ast_cloneable l
  | AST_ASSIGNMENT _ _ o e | AST_CASE_CLAUSE _ o e _ => opt_all ast_cloneable o && ast_cloneable e
  | AST_BINARY_EXPRESSION _ _ a b | AST_INDEX_EXPRESSION _ a b
  | AST_WHILE_STATEMENT _ a b _ => ast_cloneable a && ast_cloneable b
  | AST_UNARY_EXPRESSION _ _ e | AST_MEMBER_ACCESS _ e _ | AST_CAST_EXPRESSION _ _ e
  | AST_DEFER_STATEMENT _ e | AST_ERRDEFER_STATEMENT _ e => ast_cloneable e
  | AST_RETURN_STATEMENT _ o => opt_all ast_cloneable o
  | AST_IF_STATEMENT _ c t l o =>
      ast_cloneable c && ast_cloneable t &&
      forallb (fun p => ast_cloneable p.1 && ast_cloneable p.2) l && opt_all ast_cloneable o
  | AST_FOR_STATEMENT _ i c inc b _ =>
      opt_all ast_cloneable i && opt_all ast_cloneable c && opt_all ast_cloneable inc &&
      ast_cloneable b
  | AST_NO_DATA t _ =>
      existsb (fun t' => bool_decide (t = t'))
        [T_RETURN_STATEMENT; T_BREAK_STATEMENT; T_CONTINUE_STATEMENT; T_ENUM_DECLARATION;
         T_MATCH_STATEMENT; T_METHOD_DECLARATION]
  | _ => true
  end.

(** ** The copy *)

Section fixed.
Context (f : ASTNode → option ASTNode) (g : ASTNode → bool).
Abbreviation fixed x := (f x = Some x ↔ g x = true).

Lemma clone_optional_fixed o :
  option_all ASTNode (fun x => fixed x) o → clone_optional f o = Some o ↔ opt_all g o = true.
Proof.
  intros [x H|]; simpl; [|done]. rewrite <- H. destruct (f x); simpl; [|done]. split; congruence.
Qed.

Lemma clone_nodes_fixed l :
  list_all ASTNode (fun x => fixed x) l → clone_nodes f l = Some l ↔ forallb g l = true.
Proof.
  induction 1 as [|x H l _ IH]; simpl; [done|].
  rewrite andb_true_iff, <- H, <- IH. destruct (f x); simpl; [|intuition congruence]. destruct (clone_nodes f l); simpl; intuition congruence.
Qed.

Lemma clone_else_ifs_fixed l :
  list_all (ASTNode * ASTNode) (prod_all ASTNode (fun x => fixed x) ASTNode (fun x => fixed x)) l →
  clone_else_ifs f l = Some l ↔ forallb (fun p => g p.1 && g p.2) l = true.
Proof.
  induction 1 as [|x [a Ha b Hb] l _ IH]; simpl; [done|].
  rewrite !andb_true_iff, <- Ha, <- Hb, <- IH.
  destruct (f a); simpl; [|intuition congruence]. destruct (f b); simpl; [|intuition congruence].
  destruct (clone_else_ifs f l); simpl; intuition congruence.
Qed.
End fixed.

(** C24. [ast_clone_node] returns an equal tree for exactly the trees that hold no
    enum declaration, no match and no method declaration, and no node without data
    of a kind whose data it reads: it has no case for these three kinds, whose
    copies keep their kind and location and lose their data. *)
Theorem ast_clone_exact n : ast_clone_node n = Some n ↔ ast_cloneable n = true.
Proof.
  induction n; simpl; try done;
    repeat match goal with
      | H : VarDeclaration_all _ _ ?d |- _ => destruct H; unfold clone_var_declaration
      | H : FunctionDeclaration_all _ _ ?d |- _ => destruct H; unfold clone_function_declaration
      | H : StructDeclaration_all _ _ ?d |- _ => destruct H; unfold clone_struct_declaration
      | H : CallExpression_all _ _ ?d |- _ => destruct H; unfold clone_call_expression
      end; simpl;
    rewrite ?andb_true_iff;
    repeat match goal with
      | H : list_all ASTNode _ _ |- _ => apply clone_nodes_fixed in H; rewrite <- H; clear H
      | H : option_all ASTNode _ _ |- _ => apply clone_optional_fixed in H; rewrite <- H; clear H
      | H : list_all (ASTNode * ASTNode) _ _ |- _ => apply clone_else_ifs_fixed in H; rewrite <- H; clear H
      | H : ast_clone_node _ = _ ↔ _ |- _ => rewrite <- H; clear H
      end;
    try (repeat match goal with
      | |- context [?m ≫= _] => lazymatch m with context [_ ≫= _] => fail | _ => destruct m; simpl end
      end; intuition congruence).
  by destruct t.
Qed.
