(* ===== verification/ErrorReporter.v ===== *)
(** * Diagnostics: src/src/error/error_reporter.h and src/src/error/error_reporter.c

    The reporter's reports, its bound on their number and the sources it quotes
    from; the suggestions for misspelled names.  Printing is not modelled.  A
    report's [source_code] pointer, which only the printer reads, is left out. *)

From S2P Require Import Prelude.
From S2P Require Import Ast.

(** ** Data *)

Inductive ErrorType : Type :=
  | ERROR_LEXICAL | ERROR_SYNTAX | ERROR_SEMANTIC | ERROR_TYPE | ERROR_SCOPE | ERROR_IO
  | ERROR_INTERNAL.

Inductive ErrorSeverity : Type :=
  | DIAG_SEVERITY_ERROR | DIAG_SEVERITY_WARNING | DIAG_SEVERITY_NOTE | DIAG_SEVERITY_NOTE_OF.

Record SourceSpan : Type := mkSpan {
  span_line : nat;
  span_column : nat;
  span_length : nat;
  span_filename : option string }.

Record ErrorReport : Type := mkReport {
  er_type : ErrorType;
  er_severity : ErrorSeverity;
  er_location : SourceLocation;
  er_span : SourceSpan;
  er_message : string;
  er_suggestion : option string;
  er_code_snippet : option string }.

Record ErrorReporter : Type := mkReporter {
  er_errors : list ErrorReport;
  er_max_errors : nat;
  er_source_code : option string;
  er_filename : option string;
  er_sources : list (string * string);
  er_current_filename : option string;
  er_current_source_code : option string }.

Definition MAX_ERRORS_DEFAULT : nat := 100.

Definition source_location_create (line column : nat) : SourceLocation :=
  mkLocation line column None.

Definition source_span_create (line column len : nat) : SourceSpan :=
  mkSpan line column len None.

Definition source_span_from_location (loc : SourceLocation) (len : nat) : SourceSpan :=
  mkSpan (loc_line loc) (loc_column loc) len (loc_filename loc).

(** ** Sources *)

Fixpoint error_reporter_find_source (sources : list (string * string)) (filename : string)
    : option string :=
  match sources with
  | [] => None
  | (f, code) :: rest =>
      if String.eqb f filename then Some code else error_reporter_find_source rest filename
  end.

Fixpoint replace_source (sources : list (string * string)) (filename code : string)
    : list (string * string) :=
  match sources with
  | [] => []
  | (f, c) :: rest =>
      if String.eqb f filename then (f, code) :: rest
      else (f, c) :: replace_source rest filename code
  end.

Definition set_sources (r : ErrorReporter) (sources : list (string * string)) : ErrorReporter :=
  mkReporter (er_errors r) (er_max_errors r) (er_source_code r) (er_filename r) sources
    (er_current_filename r) (er_current_source_code r).

Definition error_reporter_register_source (r : ErrorReporter) (filename code : option string)
    : bool * ErrorReporter :=
  match filename, code with
  | Some f, Some c =>
      (true, set_sources r
        (match error_reporter_find_source (er_sources r) f with
         | Some _ => replace_source (er_sources r) f c
         | None => er_sources r ++ [(f, c)]
         end))
  | _, _ => (false, r)
  end.

Definition error_reporter_create (filename code : option string) : ErrorReporter :=
  (error_reporter_register_source
     (mkReporter [] MAX_ERRORS_DEFAULT code filename [] filename code) filename code).2.

Definition error_reporter_set_source_context (r : ErrorReporter) (filename code : option string)
    : bool * ErrorReporter :=
  let r := match filename, code with
           | Some _, Some _ => (error_reporter_register_source r filename code).2
           | _, _ => r
           end in
  let entry := match filename with
               | Some f => error_reporter_find_source (er_sources r) f
               | None => None
               end in
  (true, mkReporter (er_errors r) (er_max_errors r) (er_source_code r) (er_filename r)
           (er_sources r)
           (match filename with Some f => Some f | None => er_filename r end)
           (match entry with
            | Some c => Some c
            | None => match code with Some c => Some c | None => er_source_code r end
            end)).

Definition error_reporter_current_filename (r : option ErrorReporter) : option string :=
  match r with Some r => er_current_filename r | None => None end.

(** The rest of the line that the cursor is on. *)
Fixpoint line_text (s : string) : string :=
  match s with
  | EmptyString => EmptyString
  | String c s' => if c =c "010" then EmptyString else String c (line_text s')
  end.

(** [skip] is [line_number - current_line]. *)
Fixpoint line_from (s : string) (skip : nat) : option string :=
  match skip with
  | 0 => Some (line_text s)
  | S k =>
      match s with
      | EmptyString => None
      | String c s' => line_from s' (if c =c "010" then k else skip)
      end
  end.

Definition error_reporter_get_line_from_source (source : option string) (line_number : nat)
    : option string :=
  match source, line_number with
  | Some s, S k => line_from s k
  | _, _ => None
  end.

Definition error_reporter_create_caret_line (column len : nat) : option string :=
  match column with
  | 0 => None
  | S c => Some (string_of_list_ascii
                   (repeat " "%char c ++ repeat "^"%char (if 0 <? len then len else 1)))
  end.

(** ** Reports *)

Definition error_reporter_add_report (r : ErrorReporter) (severity : ErrorSeverity)
    (span : SourceSpan) (ty : ErrorType) (message : string) (suggestion : option string)
    : ErrorReporter :=
  if er_max_errors r <=? length (er_errors r) then r
  else
    let len := if span_length span =? 0 then 1 else span_length span in
    let filename := match span_filename span with
                    | Some f => Some f
                    | None => er_current_filename r
                    end in
    let code := match filename ≫= error_reporter_find_source (er_sources r) with
                | Some c => Some c
                | None => er_current_source_code r
                end in
    let report :=
      mkReport ty severity (mkLocation (span_line span) (span_column span) filename)
        (mkSpan (span_line span) (span_column span) len filename) message suggestion
        (error_reporter_get_line_from_source code (span_line span)) in
    mkReporter (er_errors r ++ [report]) (er_max_errors r) (er_source_code r) (er_filename r)
      (er_sources r) (er_current_filename r) (er_current_source_code r).

Definition error_reporter_add_error_with_span_and_suggestion (r : ErrorReporter)
    (ty : ErrorType) (span : SourceSpan) (message : string) (suggestion : option string)
    : ErrorReporter :=
  error_reporter_add_report r DIAG_SEVERITY_ERROR span ty message suggestion.

Definition error_reporter_add_error_with_span (r : ErrorReporter) (ty : ErrorType)
    (span : SourceSpan) (message : string) : ErrorReporter :=
  error_reporter_add_error_with_span_and_suggestion r ty span message None.

Definition error_reporter_add_error_with_suggestion (r : ErrorReporter) (ty : ErrorType)
    (loc : SourceLocation) (message : string) (suggestion : option string) : ErrorReporter :=
  error_reporter_add_error_with_span_and_suggestion r ty (source_span_from_location loc 1)
    message suggestion.

Definition error_reporter_add_error (r : ErrorReporter) (ty : ErrorType)
    (loc : SourceLocation) (message : string) : ErrorReporter :=
  error_reporter_add_error_with_suggestion r ty loc message None.

Definition error_reporter_add_warning_with_span (r : ErrorReporter) (ty : ErrorType)
    (span : SourceSpan) (message : string) : ErrorReporter :=
  error_reporter_add_report r DIAG_SEVERITY_WARNING span ty message None.

Definition error_reporter_add_warning (r : ErrorReporter) (ty : ErrorType)
    (loc : SourceLocation) (message : string) : ErrorReporter :=
  error_reporter_add_warning_with_span r ty (source_span_from_location loc 1) message.

Definition is_error (e : ErrorReport) : bool :=
  match er_severity e with DIAG_SEVERITY_ERROR => true | _ => false end.

Definition error_reporter_has_errors (r : ErrorReporter) : bool :=
  existsb is_error (er_errors r).

Definition error_reporter_get_error_count (r : ErrorReporter) : nat :=
  length (filter (fun e => is_error e = true) (er_errors r)).

(** ** Suggestions *)

Definition suggestion_table : list (string * string) :=
  [ ("fucntion", "did you mean 'function'?"); ("retrun", "did you mean 'return'?");
    ("strcut", "did you mean 'struct'?"); ("methdo", "did you mean 'method'?");
    ("whiel", "did you mean 'while'?"); ("fi", "did you mean 'if'?");
    ("itn32", "did you mean 'int32'?"); ("int23", "did you mean 'int32'?");
    ("stirng", "did you mean 'string'?"); ("flaot32", "did you mean 'float32'?");
    ("flaot64", "did you mean 'float64'?") ]%string.

Definition error_reporter_suggest_for_token (token : option string) : option string :=
  token ≫= error_reporter_find_source suggestion_table.

(** One cell of a row: [diag] is [prev_diag], [left] is [row[j - 1]], already
    updated, and [row] holds [row[j..]] of the previous round. *)
Fixpoint edit_row (ca : ascii) (b : list ascii) (diag left : nat) (row : list nat) : list nat :=
  match b, row with
  | cb :: b', up :: row' =>
      let cost := if tolower ca =c tolower cb then 0 else 1 in
      let best := Nat.min (Nat.min (up + 1) (left + 1)) (diag + cost) in
      best :: edit_row ca b' up best row'
  | _, _ => []
  end.

Fixpoint edit_rows (i : nat) (a b : list ascii) (row : list nat) : list nat :=
  match a with
  | [] => row
  | ca :: a' =>
      match row with
      | [] => []
      | r0 :: row' => edit_rows (S i) a' b (i :: edit_row ca b r0 i row')
      end
  end.

Definition error_reporter_edit_distance (a b : string) : nat :=
  let la := list_ascii_of_string a in
  let lb := list_ascii_of_string b in
  if length la =? 0 then length lb
  else if length lb =? 0 then length la
  else List.last (edit_rows 1 la lb (seq 0 (S (length lb)))) 0.

(** [best_distance] starts at [SIZE_MAX], above every distance. *)
Fixpoint closest_loop (name : string) (threshold : nat) (candidates : list string)
    (best : option (string * nat)) : option string :=
  match candidates with
  | [] => option_map fst best
  | cand :: rest =>
      if String.eqb cand EmptyString || String.eqb cand name then
        closest_loop name threshold rest best
      else
        let d := error_reporter_edit_distance name cand in
        if (d <=? threshold) && (match best with Some (_, bd) => d <? bd | None => true end)
        then closest_loop name threshold rest (Some (cand, d))
        else closest_loop name threshold rest best
  end.

Definition closest_threshold (name : string) : nat :=
  Nat.min 3 (Nat.max 1 (String.length name / 3)).

Definition error_reporter_closest_candidate (name : string) (candidates : list string)
    : option string :=
  if String.length name =? 0 then None
  else closest_loop name (closest_threshold name) candidates None.

(** Only [int32] and [int64] are quoted, so the message fits its buffer. *)
Definition error_reporter_suggest_for_type_mismatch (expected actual : string)
    : option string :=
  if (String.eqb expected "int32" && String.eqb actual "int64") ||
     (String.eqb expected "int64" && String.eqb actual "int32")
  then Some ("consider explicit casting: (" +:+ expected +:+ ")value")%string
  else if String.eqb expected "string" && String.eqb actual "int32" then
    Some ("use string literal with double quotes: " +:+ String "034" "value" +:+
          String "034" EmptyString)%string
  else if strstr expected "int" && String.eqb actual "string" then
    Some "use numeric literal without quotes: 42"%string
  else None.
