(* ===== verification/ErrorReporterFacts.v ===== *)
(** * Facts on the diagnostics

    The rolling row of [error_reporter_edit_distance] computes the least cost of
    an alignment of the two names; the suggested candidate is a nearest one; the
    reporter keeps at most [max_errors] reports. *)

From S2P Require Import Prelude.
From S2P Require Import Ast.
From S2P Require Import ErrorReporter.

(** ** Alignments: the specification of the edit distance *)

Definition substitution_cost (x y : ascii) : nat := if tolower x =c tolower y then 0 else 1.

(** [align a b n]: [a] is turned into [b] by insertions, deletions and
    substitutions of total cost [n], read from left to right. *)
Inductive align : list ascii → list ascii → nat → Prop :=
  | align_nil : align [] [] 0
  | align_delete a b n x : align a b n → align (a ++ [x]) b (S n)
  | align_insert a b n y : align a b n → align a (b ++ [y]) (S n)
  | align_substitute a b n x y :
      align a b n → align (a ++ [x]) (b ++ [y]) (n + substitution_cost x y).

Definition least_alignment (a b : list ascii) (d : nat) : Prop :=
  align a b d ∧ ∀ n, align a b n → d ≤ n.

Lemma snoc_not_nil {A} (l : list A) x : l ++ [x] ≠ [].
Proof. by destruct l. Qed.

Lemma align_nil_l b n : align [] b n → length b ≤ n.
Proof.
  intros H. remember [] as a. induction H as [|a b n x _ _|a b n y _ IH|a b n x y _ _]; simpl;
    [lia|by apply snoc_not_nil in Heqa| |by apply snoc_not_nil in Heqa].
  rewrite length_app; simpl. specialize (IH Heqa). lia.
Qed.

Lemma align_nil_r a n : align a [] n → length a ≤ n.
Proof.
  intros H. remember [] as b. induction H as [|a b n x _ IH|a b n y _ _|a b n x y _ _]; simpl;
    [lia| |by apply snoc_not_nil in Heqb..].
  rewrite length_app; simpl. specialize (IH Heqb). lia.
Qed.

Lemma align_insert_all b : align [] b (length b).
Proof.
  induction b as [|y b IH] using rev_ind; [constructor|].
  rewrite length_app, Nat.add_1_r. by constructor.
Qed.

Lemma align_delete_all a : align a [] (length a).
Proof.
  induction a as [|x a IH] using rev_ind; [constructor|].
  rewrite length_app, Nat.add_1_r. by constructor.
Qed.

Lemma least_nil_l b : least_alignment [] b (length b).
Proof. split; [apply align_insert_all|apply align_nil_l]. Qed.

Lemma least_nil_r a : least_alignment a [] (length a).
Proof. split; [apply align_delete_all|apply align_nil_r]. Qed.

(** The recurrence of a cell. *)
Lemma least_snoc a b x y up left diag :
  least_alignment a (b ++ [y]) up → least_alignment (a ++ [x]) b left →
  least_alignment a b diag →
  least_alignment (a ++ [x]) (b ++ [y])
    (Nat.min (Nat.min (up + 1) (left + 1)) (diag + substitution_cost x y)).
Proof.
  intros [Hup Hup'] [Hleft Hleft'] [Hdiag Hdiag']. split.
  - assert (align (a ++ [x]) (b ++ [y]) (up + 1)) by (rewrite Nat.add_1_r; by constructor).
    assert (align (a ++ [x]) (b ++ [y]) (left + 1)) by (rewrite Nat.add_1_r; by constructor).
    assert (align (a ++ [x]) (b ++ [y]) (diag + substitution_cost x y)) by by constructor.
    destruct (Nat.min_dec (Nat.min (up + 1) (left + 1)) (diag + substitution_cost x y)) as [-> | ->];
      [|done].
    by destruct (Nat.min_dec (up + 1) (left + 1)) as [-> | ->].
  - intros n H. inversion H as [Ha|a' b' n' x' H' Ha|a' b' n' y' H' Ha Hb|a' b' n' x' y' H' Ha Hb];
      subst.
    + by destruct (snoc_not_nil a x).
    + apply app_inj_tail in Ha as [-> ->]. specialize (Hup' _ H'). lia.
    + apply app_inj_tail in Hb as [-> ->]. specialize (Hleft' _ H'). lia.
    + apply app_inj_tail in Ha as [-> ->]. apply app_inj_tail in Hb as [-> ->].
      specialize (Hdiag' _ H'). lia.
Qed.

(** ** The rolling row *)

(** [row] holds the distances from [a] to the prefixes of [b1 ++ b] that are
    longer than [b1]. *)
Inductive row_of (a : list ascii) : list ascii → list ascii → list nat → Prop :=
  | row_of_nil b1 : row_of a b1 [] []
  | row_of_cons b1 y b up row :
      least_alignment a (b1 ++ [y]) up → row_of a (b1 ++ [y]) b row →
      row_of a b1 (y :: b) (up :: row).

Lemma row_of_seq b1 b : row_of [] b1 b (seq (S (length b1)) (length b)).
Proof.
  revert b1. induction b as [|y b IH]; intros b1; simpl; constructor.
  - assert (S (length b1) = length (b1 ++ [y])) as -> by (rewrite length_app; simpl; lia).
    apply least_nil_l.
  - specialize (IH (b1 ++ [y])). rewrite length_app, Nat.add_1_r in IH. exact IH.
Qed.

Lemma edit_row_spec a x b1 b row diag left :
  row_of a b1 b row → least_alignment a b1 diag → least_alignment (a ++ [x]) b1 left →
  row_of (a ++ [x]) b1 b (edit_row x b diag left row).
Proof.
  intros H. revert diag left. induction H as [b1|b1 y b up row Hup _ IH]; intros diag left Hd Hl;
    simpl; constructor; [|apply IH; [done|]]; by apply least_snoc.
Qed.

Lemma edit_rows_spec a1 a b row r0 :
  least_alignment a1 [] r0 → row_of a1 [] b row →
  ∃ r0' row', edit_rows (S (length a1)) a b (r0 :: row) = r0' :: row' ∧
    least_alignment (a1 ++ a) [] r0' ∧ row_of (a1 ++ a) [] b row'.
Proof.
  revert a1 row r0. induction a as [|x a IH]; intros a1 row r0 H0 Hrow; simpl.
  { exists r0, row. by rewrite app_nil_r. }
  assert (least_alignment (a1 ++ [x]) [] (S (length a1))) as H1.
  { assert (S (length a1) = length (a1 ++ [x])) as -> by (rewrite length_app; simpl; lia).
    apply least_nil_r. }
  destruct (IH (a1 ++ [x]) (edit_row x b r0 (S (length a1)) row) (S (length a1)))
    as (r0' & row' & Heq & Hr); [done|by apply edit_row_spec|].
  rewrite length_app, Nat.add_1_r in Heq. rewrite Heq.
  exists r0', row'. rewrite <- app_assoc in Hr. done.
Qed.

Lemma row_of_last a b1 b row d :
  row_of a b1 b row → least_alignment a b1 d → least_alignment a (b1 ++ b) (List.last (d :: row) 0).
Proof.
  intros H. revert d. induction H as [b1|b1 y b up row Hup _ IH]; intros d Hd; simpl.
  - by rewrite app_nil_r.
  - specialize (IH up Hup). rewrite <- app_assoc in IH. exact IH.
Qed.

Lemma edit_distance_least a b :
  least_alignment (list_ascii_of_string a) (list_ascii_of_string b)
    (error_reporter_edit_distance a b).
Proof.
  unfold error_reporter_edit_distance.
  generalize (list_ascii_of_string a) as la, (list_ascii_of_string b) as lb. intros la lb.
  destruct la as [|x la]; simpl; [apply least_nil_l|].
  destruct lb as [|y lb]; simpl; [apply (least_nil_r (x :: la))|].
  destruct (edit_rows_spec [] (x :: la) (y :: lb) (seq 1 (S (length lb))) 0)
    as (r0 & row & Heq & H0 & Hrow); [apply least_nil_l|apply (row_of_seq [] (y :: lb))|].
  simpl in Heq. rewrite Heq. by apply (row_of_last _ [] _ _ _ Hrow).
Qed.

(** ** The suggested candidate *)

(** [cand] may be suggested for [name], at distance [d]. *)
Definition eligible (name cand : string) (d : nat) : Prop :=
  cand ≠ EmptyString ∧ cand ≠ name ∧ d ≤ closest_threshold name ∧
  least_alignment (list_ascii_of_string name) (list_ascii_of_string cand) d.

Lemma eligible_iff name cand d :
  eligible name cand d ↔
  cand ≠ EmptyString ∧ cand ≠ name ∧ d = error_reporter_edit_distance name cand ∧
  d ≤ closest_threshold name.
Proof.
  unfold eligible. pose proof (edit_distance_least name cand) as Hl. split.
  - intros (? & ? & ? & [Ha Hm]). split_and!; try done. destruct Hl as [Ha' Hm'].
    specialize (Hm _ Ha'). specialize (Hm' _ Ha). lia.
  - intros (? & ? & -> & ?). done.
Qed.

(** The candidate kept so far, among those already seen. *)
Definition nearest (name : string) (seen : list string) (best : option (string * nat)) : Prop :=
  match best with
  | Some (c, d) => c ∈ seen ∧ eligible name c d ∧
      ∀ c' d', c' ∈ seen → eligible name c' d' → d ≤ d'
  | None => ∀ c' d', c' ∈ seen → ¬ eligible name c' d'
  end.

Lemma nearest_skip name seen cand best :
  (∀ d, ¬ eligible name cand d) → nearest name seen best → nearest name (seen ++ [cand]) best.
Proof.
  intros Hne. destruct best as [[c d]|]; simpl.
  - intros (Hc & He & Hm). split_and!; [set_solver|done|].
    intros c' d' [?| ->%list_elem_of_singleton]%elem_of_app He'; [by eapply Hm|].
    by destruct (Hne _ He').
  - intros Hm c' d' [?| ->%list_elem_of_singleton]%elem_of_app; [by apply Hm|apply Hne].
Qed.

Lemma closest_loop_nearest name seen candidates best :
  nearest name seen best →
  ∃ best', closest_loop name (closest_threshold name) candidates best = option_map fst best' ∧
    nearest name (seen ++ candidates) best'.
Proof.
  revert seen best. induction candidates as [|cand rest IH]; intros seen best Hb; simpl.
  { exists best. by rewrite app_nil_r. }
  rewrite (cons_middle cand seen rest), app_assoc.
  destruct (String.eqb_spec cand EmptyString) as [->|Hne]; simpl.
  { apply IH, nearest_skip; [|done]. intros d (? & _). done. }
  destruct (String.eqb_spec cand name) as [->|Hnn]; simpl.
  { apply IH, nearest_skip; [|done]. intros d (_ & ? & _). done. }
  destruct (Nat.leb_spec (error_reporter_edit_distance name cand) (closest_threshold name))
    as [Hle|Hgt]; simpl.
  2:{ apply IH, nearest_skip; [|done]. intros d (_ & _ & -> & ?)%eligible_iff. lia. }
  assert (eligible name cand (error_reporter_edit_distance name cand)) as He
    by by apply eligible_iff.
  destruct best as [[c bd]|]; simpl.
  - destruct Hb as (Hc & Hec & Hm).
    destruct (Nat.ltb_spec (error_reporter_edit_distance name cand) bd); apply IH; simpl;
      (split_and!; [set_solver|done|]); intros c' d' [?| ->%list_elem_of_singleton]%elem_of_app He'.
    + specialize (Hm _ _ ltac:(done) He'). lia.
    + apply eligible_iff in He' as (_ & _ & -> & _). lia.
    + by eapply Hm.
    + apply eligible_iff in He' as (_ & _ & -> & _). lia.
  - apply IH. simpl. split_and!; [set_solver|done|].
    intros c' d' [Hin| ->%list_elem_of_singleton]%elem_of_app He'; [by destruct (Hb _ _ Hin He')|].
    apply eligible_iff in He' as (_ & _ & -> & _). lia.
Qed.

(** C23. [error_reporter_closest_candidate] suggests, for a misspelled name, a
    candidate of least case-insensitive edit distance (the cost of a best
    alignment by insertions, deletions and substitutions) among the non-empty
    candidates other than the name within the threshold, and suggests nothing
    exactly when the name is empty or no candidate is within the threshold. *)
Theorem closest_candidate_nearest name candidates :
  match error_reporter_closest_candidate name candidates with
  | Some c => name ≠ EmptyString ∧ c ∈ candidates ∧
      ∃ d, eligible name c d ∧ ∀ c' d', c' ∈ candidates → eligible name c' d' → d ≤ d'
  | None => name = EmptyString ∨ ∀ c' d', c' ∈ candidates → ¬ eligible name c' d'
  end.
Proof.
  unfold error_reporter_closest_candidate. destruct name as [|x name]; simpl; [by left|].
  destruct (closest_loop_nearest (String x name) [] candidates None) as ([[c d]|] & -> & Hn); simpl.
  - intros c' d' []%not_elem_of_nil.
  - destruct Hn as (? & ? & ?). split_and!; [done..|]. by exists d.
  - by right.
Qed.

Example closest_candidate_typo :
  error_reporter_closest_candidate "Coubt" ["amount"; "count"; "Coubt"; "c"] = Some "count"%string.
Proof. vm_compute. reflexivity. Qed.

(** ** The bound on the reports *)

Definition error_reporter_ok (r : ErrorReporter) : Prop :=
  length (er_errors r) ≤ er_max_errors r.

Lemma add_report_ok r severity span ty m s :
  error_reporter_ok r → error_reporter_ok (error_reporter_add_report r severity span ty m s).
Proof.
  unfold error_reporter_ok, error_reporter_add_report.
  destruct (Nat.leb_spec (er_max_errors r) (length (er_errors r))); simpl; [done|].
  rewrite length_app; simpl. lia.
Qed.

(** The reports only grow, and up to the bound each call adds one. *)
Lemma add_report_errors r severity span ty m s :
  er_max_errors (error_reporter_add_report r severity span ty m s) = er_max_errors r ∧
  ∃ new, er_errors (error_reporter_add_report r severity span ty m s) = er_errors r ++ new ∧
    Forall (fun e => er_severity e = severity) new ∧
    length new = if er_max_errors r <=? length (er_errors r) then 0 else 1.
Proof.
  unfold error_reporter_add_report. case_match; simpl; split; try done.
  - exists []. by rewrite app_nil_r.
  - eexists. split_and!; [done| |done]. by repeat constructor.
Qed.

Fixpoint add_warnings (n : nat) (r : ErrorReporter) : ErrorReporter :=
  match n with
  | 0 => r
  | S n => add_warnings n (error_reporter_add_warning r ERROR_TYPE (mkLocation 1 1 None) "unused"%string)
  end.

(** Once warnings fill the reporter, an error is dropped and
    [error_reporter_has_errors] denies it. *)
Lemma warnings_mask_errors :
  error_reporter_has_errors
    (error_reporter_add_error (add_warnings 100 (error_reporter_create None None)) ERROR_TYPE
       (mkLocation 2 1 None) "type mismatch") = false.
Proof. vm_compute. reflexivity. Qed.
