(* ===== verification/TypeNames.v ===== *)
(** * The checker's state and the meaning of type names: src/src/semantic/type_checker.c

    [TypeChecker] is the C structure, [TM] the monad of the functions that change it.
    Types and symbols are objects of the two stores, allocated at fresh addresses.  What
    the checker writes in the nodes of a tree, the type it infers and the rewriting of
    method calls, is kept by the nodes' paths: the path of the [i]-th child of the node
    at [p] is [i :: p].

    Messages that hold names are passed as formats; a name holds no conversion
    specification, so the message is the text itself. *)

From stdpp Require Import gmap.
From S2P Require Import Prelude.
From S2P Require Import Outcome.
From S2P Require Import Ast.
From S2P Require Import ErrorReporter.
From S2P Require Import Types.
From S2P Require Import SymbolTable.
From S2P Require Import TypeRules.

(** ** The checker *)

Abbreviation path := (list nat).

Record TypeChecker : Type := mkChecker {
  symbol_table : SymbolTable;
  next_symbol : sid;
  types : type_store;
  next_type : tid;
  tc_has_error : bool;
  tc_error_message : option string;
  tc_error_reporter : option ErrorReporter;
  builtins : Builtins;
  generic_enum_templates : list (EnumDeclaration ASTNode);
  current_function : option sid;
  tracked_vars : list (string * bool);             (* name, initialized; the last declared first *)
  tracked_buffer_extents : list TrackedBufferExtent;
  resolved_types : gmap path tid;
  method_calls : gmap path string;                 (* calls rewritten, with their new name *)
  indirect_calls : gset path }.

Inductive exhausted : Type := Out_of_fuel.

Definition TM (A : Type) : Type := TypeChecker → checked exhausted (A * TypeChecker).

#[export] Instance TM_ret : MRet TM := λ A a c, Done (a, c).
#[export] Instance TM_bind : MBind TM := λ A B f m c, '(a, c) ← m c; f a c.

Definition undefined {A} : TM A := λ c, Undefined.
Definition out_of_fuel {A} : TM A := λ c, Failed Out_of_fuel.
Definition gets {A} (f : TypeChecker → A) : TM A := λ c, Done (f c, c).
Definition modify (f : TypeChecker → TypeChecker) : TM () := λ c, Done ((), f c).
(** What is [None] is undefined behaviour. *)
Definition reads {A} (f : TypeChecker → option A) : TM A := λ c, a ← of_option (f c); Done (a, c).

Definition set_errors (message : option string) (r : option ErrorReporter) (c : TypeChecker) : TypeChecker :=
  mkChecker (symbol_table c) (next_symbol c) (types c) (next_type c) true message r (builtins c)
    (generic_enum_templates c) (current_function c) (tracked_vars c) (tracked_buffer_extents c)
    (resolved_types c) (method_calls c) (indirect_calls c).
Definition set_reporter (r : option ErrorReporter) (c : TypeChecker) : TypeChecker :=
  mkChecker (symbol_table c) (next_symbol c) (types c) (next_type c) (tc_has_error c) (tc_error_message c) r
    (builtins c) (generic_enum_templates c) (current_function c) (tracked_vars c) (tracked_buffer_extents c)
    (resolved_types c) (method_calls c) (indirect_calls c).
Definition set_types (ts : type_store) (next : tid) (c : TypeChecker) : TypeChecker :=
  mkChecker (symbol_table c) (next_symbol c) ts next (tc_has_error c) (tc_error_message c) (tc_error_reporter c)
    (builtins c) (generic_enum_templates c) (current_function c) (tracked_vars c) (tracked_buffer_extents c)
    (resolved_types c) (method_calls c) (indirect_calls c).
Definition set_table (t : SymbolTable) (next : sid) (c : TypeChecker) : TypeChecker :=
  mkChecker t next (types c) (next_type c) (tc_has_error c) (tc_error_message c) (tc_error_reporter c)
    (builtins c) (generic_enum_templates c) (current_function c) (tracked_vars c) (tracked_buffer_extents c)
    (resolved_types c) (method_calls c) (indirect_calls c).
Definition set_nodes (resolved : gmap path tid) (methods : gmap path string) (indirect : gset path)
    (c : TypeChecker) : TypeChecker :=
  mkChecker (symbol_table c) (next_symbol c) (types c) (next_type c) (tc_has_error c) (tc_error_message c)
    (tc_error_reporter c) (builtins c) (generic_enum_templates c) (current_function c) (tracked_vars c)
    (tracked_buffer_extents c) resolved methods indirect.

(** ** Objects *)

Definition deref (t : tid) : TM Type_ := reads (λ c, types c !! t).
Definition symbol_at (s : sid) : TM Symbol := reads (λ c, store (symbol_table c) !! s).
Definition lookup_name (name : string) : TM (option sid) := reads (λ c, symbol_table_lookup (symbol_table c) name).
Definition builtin (f : Builtins → tid) : TM tid := gets (λ c, f (builtins c)).

(** The symbol a name stands for, dereferenced. *)
Definition lookup_symbol (name : string) : TM (option Symbol) :=
  s ← lookup_name name;
  match s with
  | Some s => x ← symbol_at s; mret (Some x)
  | None => mret None
  end.

Definition new_type (t : Type_) : TM tid := λ c,
  Done (next_type c, set_types (<[next_type c := t]> (types c)) (Pos.succ (next_type c)) c).

Definition write_type (i : tid) (t : Type_) : TM () :=
  modify (λ c, set_types (<[i := t]> (types c)) (next_type c) c).

Definition new_symbol (x : Symbol) : TM sid := λ c,
  let t := symbol_table c in
  Done (next_symbol c, set_table (mkTable (<[next_symbol c := x]> (store t)) (scopes t)) (Pos.succ (next_symbol c)) c).

Definition insert_symbol (x : Symbol) : TM () :=
  s ← new_symbol x;
  t ← reads (λ c, symbol_table_insert alloc_succeeds (symbol_table c) s);
  modify (λ c, set_table t (next_symbol c) c).

(** Types are compared with fuel for all of the store. *)
Definition on_types {A} (f : nat → type_store → option A) : TM A :=
  reads (λ c, f (Pos.to_nat (next_type c)) (types c)).

(** ** Errors *)

(** [snprintf] into a buffer of [size] bytes. *)
Definition snprintf (size : nat) (s : string) : string := String.substring 0 (size - 1) s.

(** [%lld] and [%zu]. *)
Definition lld (z : Z) : string :=
  if (z <? 0)%Z then ("-" +:+ decimal (Z.to_N (- z)))%string else decimal (Z.to_N z).

Definition type_checker_set_error_at_location (location : SourceLocation) (message : string) : TM () :=
  modify (λ c, set_errors (Some message)
    ((λ r, error_reporter_add_error_with_span r ERROR_SEMANTIC (source_span_from_location location 1) message)
       <$> tc_error_reporter c) c).

(** Without the two names nothing is reported. *)
Definition type_checker_report_type_mismatch (location : SourceLocation) (expected actual : option string) : TM () :=
  match expected, actual with
  | Some expected, Some actual =>
      let error_msg := snprintf 512 ("Type mismatch: expected '" +:+ expected +:+ "', found '" +:+ actual +:+ "'") in
      modify (λ c, set_errors (Some error_msg)
        ((λ r, error_reporter_add_error_with_span_and_suggestion r ERROR_TYPE (source_span_from_location location 1)
                 error_msg (error_reporter_suggest_for_type_mismatch expected actual)) <$> tc_error_reporter c) c)
  | _, _ => mret ()
  end.

(** The names of every scope, innermost first. *)
Definition visible_names (t : SymbolTable) : list string :=
  concat (map (λ sc, omap (symbol_name (store t)) (symbols sc)) (scopes t)).

Definition symbol_table_suggest_similar (t : SymbolTable) (name : string) : option string :=
  if String.eqb name EmptyString then None else error_reporter_closest_candidate name (visible_names t).

Definition type_checker_report_undefined_symbol (location : SourceLocation) (name symbol_type : string) : TM () :=
  let error_msg := snprintf 512 ("Undefined " +:+ symbol_type +:+ " '" +:+ name +:+ "'") in
  modify (λ c,
    let suggestion := snprintf 256 match symbol_table_suggest_similar (symbol_table c) name with
                                   | Some closest => "did you mean '" +:+ closest +:+ "'? (or declare '" +:+ name +:+
                                                     "' before using it)"
                                   | None => "declare '" +:+ name +:+ "' before using it"
                                   end in
    set_errors (Some error_msg)
      ((λ r, error_reporter_add_error_with_span_and_suggestion r ERROR_SEMANTIC
               (source_span_from_location location (String.length name)) error_msg (Some suggestion))
         <$> tc_error_reporter c) c).

(** [set_error (...); return NULL;] *)
Definition error_at {A} (location : SourceLocation) (message : string) : TM (option A) :=
  type_checker_set_error_at_location location message ;; mret None.
Definition mismatch {A} (location : SourceLocation) (expected actual : option string) : TM (option A) :=
  type_checker_report_type_mismatch location expected actual ;; mret None.

(** A [%s] that is handed NULL is undefined behaviour. *)
Definition printed (name : option string) : TM string := reads (λ _, name).
Definition name_or (other : string) (t : Type_) : string := match tname t with Some n => n | None => other end.

(** ** Type names *)

Abbreviation chars := (list ascii).

(** [strchr]: the place of the first such character. *)
Fixpoint index_of (ch : ascii) (s : chars) : option nat :=
  match s with
  | [] => None
  | a :: s => if a =c ch then Some 0 else S <$> index_of ch s
  end.
Definition contains (ch : ascii) (s : chars) : bool := bool_decide (is_Some (index_of ch s)).

Fixpoint skip_spaces (s : chars) : chars :=
  match s with a :: t => if isspace a then skip_spaces t else s | [] => [] end.
Definition trim (s : chars) : chars := reverse (skip_spaces (reverse (skip_spaces s))).

(** [strtoull] in base ten, provided it takes the whole text: spaces, a sign, digits.  A
    minus sign negates modulo 2^64; [None] when out of range. *)
Definition strtoull_whole (s : chars) : option Z :=
  let s := skip_spaces s in
  let '(negative, digits) := match s with
                             | a :: t => if a =c "-" then (true, t) else if a =c "+" then (false, t) else (false, s)
                             | [] => (false, s)
                             end in
  match digits with
  | [] => None
  | _ =>
      if forallb isdigit digits then
        let v := foldl (λ n d, (10 * n + (char_code d - 48))%Z) 0%Z digits in
        if (v <? 2 ^ 64)%Z then Some (if negative : bool then u64 (- v) else v) else None
      else None
  end.

Definition builtin_names : list (string * (Builtins → tid)) :=
  [("bool", builtin_bool); ("int8", builtin_int8); ("int16", builtin_int16); ("int32", builtin_int32);
   ("int64", builtin_int64); ("uint8", builtin_uint8); ("uint16", builtin_uint16); ("uint32", builtin_uint32);
   ("uint64", builtin_uint64); ("float32", builtin_float32); ("float64", builtin_float64);
   ("string", builtin_string); ("cstring", builtin_cstring); ("void", builtin_void)]%string.

Fixpoint find_builtin (l : list (string * (Builtins → tid))) (name : string) : option (Builtins → tid) :=
  match l with
  | [] => None
  | (n, f) :: l => if String.eqb name n then Some f else find_builtin l name
  end.

(** Depths of angle brackets, brackets and parentheses.  An unmatched closing angle
    bracket, as in an arrow, is ignored. *)
Record depths : Type := mkDepths { d_angle : Z; d_bracket : Z; d_paren : Z }.

Definition deepen (a : ascii) (d : depths) : depths :=
  let '(mkDepths x y z) := d in
  if a =c "<" then mkDepths (x + 1) y z
  else if a =c ">" then mkDepths (if (0 <? x)%Z then x - 1 else x) y z
  else if a =c "[" then mkDepths x (y + 1) z
  else if a =c "]" then mkDepths x (y - 1) z
  else if a =c "(" then mkDepths x y (z + 1)
  else if a =c ")" then mkDepths x y (z - 1)
  else d.
Definition negative (d : depths) : bool := (d_angle d <? 0)%Z || (d_bracket d <? 0)%Z || (d_paren d <? 0)%Z.
Definition at_top (d : depths) : bool := (d_angle d =? 0)%Z && (d_bracket d =? 0)%Z && (d_paren d =? 0)%Z.

(** The texts between the commas at the top level; [None] when a bracket closes that was
    not opened. *)
Fixpoint split_parameters (d : depths) (s : chars) : option (list chars) :=
  match s with
  | [] => Some [[]]
  | a :: s =>
      let separates := (a =c ",") && at_top d in
      let d := deepen a d in
      if negative d then None
      else
        parts ← split_parameters d s;
        Some (match parts with
              | p :: parts => if separates then [] :: p :: parts else (a :: p) :: parts
              | [] => []
              end)
  end.

(** The place of the parenthesis that closes the first one. *)
Fixpoint closing_paren (depth : nat) (s : chars) : option nat :=
  match s with
  | [] => None
  | a :: s =>
      if a =c "(" then S <$> closing_paren (S depth) s
      else if a =c ")" then
        match depth with
        | O => None
        | S O => Some 0
        | S depth => S <$> closing_paren depth s
        end
      else S <$> closing_paren depth s
  end.

Definition to_name (s : chars) : string := string_of_list_ascii s.

Definition POINTER_SIZE : Z := 8.

(** [current*], [depth] times. *)
Fixpoint wrap_pointers (depth : nat) (current : tid) : TM tid :=
  match depth with
  | O => mret current
  | S depth =>
      t ← deref current;
      let pointer_name := (name_or "ptr" t +:+ "*")%string in
      p ← new_type (mkType TYPE_POINTER (Some pointer_name) POINTER_SIZE POINTER_SIZE (Some current) 0 [] None
                      [] [] [] [] [] [] 0 0);
      wrap_pointers depth p
  end.

(** The stars a name ends with, and what is before them. *)
Definition trailing_stars (name : chars) : nat * chars :=
  (fix go (s : chars) (n : nat) : nat * chars :=
     match s with
     | a :: s' => if a =c "*" then go s' (S n) else (n, reverse s)
     | [] => (n, [])
     end) (reverse name) 0.

Section names.
(** The type of a name, for the names inside a name. *)
Context (get_type_by_name : string → TM (option tid)).

Definition type_checker_parse_array_type (name : chars) : TM (option tid) :=
  match index_of "[" name with
  | None => mret None
  | Some lb =>
      let after := drop (S lb) name in
      match index_of "]" after with
      | None => mret None
      | Some n =>
          if negb (length after =? S n)%nat || (lb =? 0)%nat then mret None
          else
            base ← get_type_by_name (to_name (take lb name));
            match base with
            | None => mret None
            | Some base_type =>
                match strtoull_whole (take n after) with
                | None => mret None
                | Some array_size =>
                    b ← deref base_type;
                    if (array_size =? 0)%Z || ((0 <? size b)%Z && ((2 ^ 64 - 1) / size b <? array_size)%Z) then mret None
                    else
                      t ← new_type (mkType TYPE_ARRAY (Some (to_name name)) (u64 (size b * array_size)) (alignment b)
                                      (Some base_type) array_size [] None [] [] [] [] [] [] 0 0);
                      mret (Some t)
                end
            end
      end
  end.

Definition type_checker_parse_pointer_type (name : chars) : TM (option tid) :=
  let '(pointer_depth, base_name) := trailing_stars name in
  if (pointer_depth =? 0)%nat || (length base_name =? 0)%nat then mret None
  else
    base ← get_type_by_name (to_name base_name);
    match base with
    | None => mret None
    | Some base_type => t ← wrap_pointers pointer_depth base_type; mret (Some t)
    end.

(** The types of the parameters, in order; the first that is empty or unknown ends it. *)
Fixpoint parameter_types_of (parts : list chars) : TM (option (list (option tid))) :=
  match parts with
  | [] => mret (Some [])
  | p :: parts =>
      match trim p with
      | [] => mret None
      | p =>
          t ← get_type_by_name (to_name p);
          match t with
          | None => mret None
          | Some t =>
              ts ← parameter_types_of parts;
              mret (match ts with Some ts => Some (Some t :: ts) | None => None end)
          end
      end
  end.

Definition type_checker_parse_function_pointer_type (name : chars) : TM (option tid) :=
  match closing_paren 0 (drop 2 name) with
  | None => mret None
  | Some n =>
      let inside := take (n - 1) (drop 3 name) in
      match drop (S (n + 2)) name with
      | a :: b :: result =>
          if negb ((a =c "-") && (b =c ">")) then mret None
          else
            params ← match inside with
                     | [] => mret (Some [])
                     | _ => match split_parameters (mkDepths 0 0 0) inside with
                            | Some parts => parameter_types_of parts
                            | None => mret None
                            end
                     end;
            match params with
            | None => mret None
            | Some param_types =>
                match trim result with
                | [] => mret None
                | result =>
                    r ← get_type_by_name (to_name result);
                    match r with
                    | None => mret None
                    | Some return_type =>
                        t ← new_type (type_create_function_pointer param_types (Some return_type));
                        mret (Some t)
                    end
                end
            end
      | _ => mret None
      end
  end.

(** ** Tagged enums *)

(** Size and alignment of the largest payload. *)
Fixpoint payload_extent (variants : list (EnumVariant ASTNode)) (sz al : Z) : TM (Z * Z) :=
  match variants with
  | [] => mret (sz, al)
  | v :: variants =>
      t ← match ev_payload_type v with Some pt => get_type_by_name pt | None => mret None end;
      match t with
      | Some t =>
          p ← deref t;
          payload_extent variants (if (sz <? size p)%Z then size p else sz)
            (if (al <? alignment p)%Z then alignment p else al)
      | None => payload_extent variants sz al
      end
  end.

Fixpoint variant_payloads (variants : list (EnumVariant ASTNode)) : TM (list (option tid)) :=
  match variants with
  | [] => mret []
  | v :: variants =>
      t ← match ev_payload_type v with Some pt => get_type_by_name pt | None => mret None end;
      ts ← variant_payloads variants;
      mret (t :: ts)
  end.

Definition align_up (v al : Z) : Z := Z.land (u64 (v + al - 1)) (u64 (Z.lnot (al - 1))).

Definition type_checker_build_tagged_enum_type (type_name : string) (variants : list (EnumVariant ASTNode)) : TM tid :=
  '(max_payload_size, max_payload_align) ← payload_extent variants 0 1;
  let data_align := if (max_payload_align <? 4)%Z then 4%Z else max_payload_align in
  let data_offset := align_up 4 data_align in
  let total := if (0 <? max_payload_size)%Z then u64 (data_offset + max_payload_size) else data_offset in
  let total := align_up total data_align in
  let total := if (total <? 8)%Z then 8%Z else total in
  let enum payloads :=
    mkType TYPE_TAGGED_ENUM (Some type_name) total data_align None 0 [] None [] [] []
      (map ev_name variants) (map Z.of_nat (seq 0 (length variants))) payloads data_offset max_payload_size in
  te ← new_type (enum []);
  payloads ← variant_payloads variants;
  write_type te (enum payloads) ;;
  mret te.

(** The template's variants with its first parameter replaced. *)
Definition concrete_variant (tmpl : EnumDeclaration ASTNode) (arg : string) (v : EnumVariant ASTNode)
    : EnumVariant ASTNode :=
  mkVariant (ev_name v) None
    match ev_payload_type v, ed_type_params tmpl with
    | Some pt, p :: _ => if String.eqb pt p then Some arg else Some pt
    | pt, _ => pt
    end.

Definition constructor_symbol (name : string) (te : tid) (tag : nat) (payload : option tid) : Symbol :=
  mkSymbol name SYMBOL_TAGGED_ENUM_CONSTRUCTOR (Some te) None true false false None no_function no_variable 0
    (mkConstructor (Some te) (Z.of_nat tag) payload).

(** Constructors of the variants whose names are not taken. *)
Fixpoint register_constructors (te : tid) (tag : nat) (names : list string) : TM () :=
  match names with
  | [] => mret ()
  | n :: names =>
      existing ← lookup_name n;
      match existing with
      | Some _ => mret ()
      | None =>
          t ← deref te;
          payload ← reads (λ _, tagged_variant_payloads t !! tag);
          insert_symbol (constructor_symbol n te tag payload)
      end ;;
      register_constructors te (S tag) names
  end.

Definition type_checker_instantiate_generic_enum (generic_name type_arg : string) : TM (option tid) :=
  let mangled := (generic_name +:+ "__" +:+ type_arg)%string in
  existing ← get_type_by_name mangled;
  match existing with
  | Some t => mret (Some t)
  | None =>
      arg ← get_type_by_name type_arg;
      templates ← gets generic_enum_templates;
      match arg, List.find (λ d, String.eqb (ed_name d) generic_name) templates with
      | Some _, Some tmpl =>
          te ← type_checker_build_tagged_enum_type mangled (map (concrete_variant tmpl type_arg) (ed_variants tmpl));
          insert_symbol (symbol_create mangled SYMBOL_ENUM (Some te)) ;;
          register_constructors te 0 (map ev_name (ed_variants tmpl)) ;;
          mret (Some te)
      | _, _ => mret None
      end
  end.

(** The generic enum and its first argument that a name spells. *)
Definition generic_parts (name : chars) : option (string * string) :=
  lt ← index_of "<" name;
  match reverse name with
  | a :: _ =>
      if a =c ">" then
        let after := drop (S lt) name in
        let arg_len := match index_of "," after with Some n => n | None => length after - 1 end in
        Some (to_name (take lt name), to_name (take arg_len after))
      else None
  | [] => None
  end.

(** The first of several answers. *)
Definition or_else (m : TM (option tid)) (b : bool) (k : TM (option tid)) : TM (option tid) :=
  if b then
    t ← m;
    match t with Some t => mret (Some t) | None => k end
  else k.

Definition starts_with_fn (name : chars) : bool :=
  match name with a :: b :: c :: _ => (a =c "f") && (b =c "n") && (c =c "(") | _ => false end.

Definition user_type (name : string) (k : TM (option tid)) : TM (option tid) :=
  s ← lookup_symbol name;
  match s with
  | Some x =>
      match skind x with
      | SYMBOL_STRUCT | SYMBOL_ENUM => mret (stype x)
      | _ => k
      end
  | None => k
  end.

Definition type_of_name (name : string) : TM (option tid) :=
  match find_builtin builtin_names name with
  | Some f => t ← builtin f; mret (Some t)
  | None =>
      let s := list_ascii_of_string name in
      or_else (type_checker_parse_function_pointer_type s) (starts_with_fn s)
        (or_else (type_checker_parse_array_type s) (contains "[" s && contains "]" s)
           (or_else (type_checker_parse_pointer_type s) (contains "*" s)
              (user_type name
                 match generic_parts s with
                 | Some (base, arg) => type_checker_instantiate_generic_enum base arg
                 | None => mret None
                 end)))
  end.
End names.

Fixpoint type_checker_get_type_by_name (fuel : nat) (name : string) : TM (option tid) :=
  match fuel with
  | O => out_of_fuel
  | S fuel => type_of_name (type_checker_get_type_by_name fuel) name
  end.
