(* ===== verification/TypeNamesFacts.v ===== *)
(** * The types of names

    A program logic for the checker, the invariant of its state, and what names denote:
    while no generic enum is declared, [type_checker_get_type_by_name] ends on every name
    with NULL or a type the name spells, and changes nothing but the store of types, where it
    only adds.  With a generic enum that holds itself it does not end. *)

From stdpp Require Import gmap.
From S2P Require Import Prelude.
From S2P Require Import Outcome.
From S2P Require Import Ast.
From S2P Require Import ErrorReporter.
From S2P Require Import Types.
From S2P Require Import TypesFacts.
From S2P Require Import SymbolTable.
From S2P Require Import SymbolTableFacts.
From S2P Require Import TypeRules.
From S2P Require Import TypeNames.

(** ** Runs *)

(** [m] ends from [c], in a result and a state that satisfy [Q]. *)
Definition runs {A} (m : TM A) (c : TypeChecker) (Q : A → TypeChecker → Prop) : Prop :=
  match m c with Done (a, c') => Q a c' | _ => False end.

Lemma runs_mono {A} (m : TM A) c (Q Q' : A → TypeChecker → Prop) :
  runs m c Q → (∀ a c', Q a c' → Q' a c') → runs m c Q'.
Proof. unfold runs. destruct (m c) as [[a c']| |]; auto. Qed.

Lemma runs_ret {A} (a : A) c (Q : A → TypeChecker → Prop) : Q a c → runs (mret a) c Q.
Proof. done. Qed.

Lemma runs_bind {A B} (m : TM A) (f : A → TM B) c (Q : B → TypeChecker → Prop) :
  runs m c (λ a c', runs (f a) c' Q) → runs (m ≫= f) c Q.
Proof. unfold runs, mbind, TM_bind. cbn. destruct (m c) as [[a c']| |]; auto. Qed.

Lemma runs_gets {A} (f : TypeChecker → A) c (Q : A → TypeChecker → Prop) : Q (f c) c → runs (gets f) c Q.
Proof. done. Qed.

Lemma runs_modify f c (Q : () → TypeChecker → Prop) : Q () (f c) → runs (modify f) c Q.
Proof. done. Qed.

Lemma runs_reads {A} (f : TypeChecker → option A) c a (Q : A → TypeChecker → Prop) :
  f c = Some a → Q a c → runs (reads f) c Q.
Proof. unfold runs, reads. by intros ->. Qed.

Lemma runs_run {A} (m : TM A) c Q : runs m c Q → ∃ a c', m c = Done (a, c') ∧ Q a c'.
Proof. unfold runs. destruct (m c) as [[a c']| |]; [eauto|done..]. Qed.

(** ** The invariant *)

(** A reference to a type that exists. *)
Definition live (ts : type_store) (t : option tid) : Prop := ∃ i, t = Some i ∧ is_Some (ts !! i).

(** Types are named, refer to types, and to older ones in their shape. *)
Record type_ok (ts : type_store) (i : tid) (ty : Type_) : Prop := {
  yk_name : is_Some (tname ty);
  yk_shape : Forall (λ c, ∃ j, c = Some j ∧ is_Some (ts !! j) ∧ (j < i)%positive) (components ty);
  yk_fields : Forall (λ f, is_Some (ts !! f)) (field_types ty);
  yk_payloads : length (tagged_variant_payloads ty) = length (tagged_variant_names ty) ∧
    Forall (λ p, ∀ j, p = Some j → is_Some (ts !! j)) (tagged_variant_payloads ty) }.

(** The built-in types are of their kinds. *)
Definition builtin_table (b : Builtins) : list (tid * TypeKind) :=
  [(builtin_int8 b, TYPE_INT8); (builtin_int16 b, TYPE_INT16); (builtin_int32 b, TYPE_INT32); (builtin_int64 b, TYPE_INT64);
   (builtin_uint8 b, TYPE_UINT8); (builtin_uint16 b, TYPE_UINT16); (builtin_uint32 b, TYPE_UINT32);
   (builtin_uint64 b, TYPE_UINT64); (builtin_bool b, TYPE_BOOL); (builtin_float32 b, TYPE_FLOAT32);
   (builtin_float64 b, TYPE_FLOAT64); (builtin_string b, TYPE_STRING); (builtin_cstring b, TYPE_POINTER);
   (builtin_void b, TYPE_VOID)].

Record store_ok (b : Builtins) (ts : type_store) (next : tid) : Prop := {
  sk_below : ∀ i ty, ts !! i = Some ty → (i < next)%positive;
  sk_types : map_Forall (type_ok ts) ts;
  sk_builtins : Forall (λ e, kind <$> ts !! e.1 = Some e.2) (builtin_table b) }.

(** Symbols have types, and functions and constructors the types of their use. *)
Record symbol_ok (ts : type_store) (x : Symbol) : Prop := {
  xk_type : live ts (stype x);
  xk_function : skind x = SYMBOL_FUNCTION → live ts (return_type (function x)) ∧
    ∃ ps, parameter_types (function x) = Some ps ∧ length ps = parameter_count (function x) ∧ Forall (live ts) ps;
  xk_constructor : skind x = SYMBOL_TAGGED_ENUM_CONSTRUCTOR → live ts (enum_type (constructor x)) ∧
    ∀ p, payload_type (constructor x) = Some p → is_Some (ts !! p) }.

Record checker_ok (c : TypeChecker) : Prop := {
  ck_store : store_ok (builtins c) (types c) (next_type c);
  ck_table : table_ok (symbol_table c);
  ck_symbols : map_Forall (λ s x, symbol_ok (types c) x ∧ (s < next_symbol c)%positive ∧
    ∀ d, sscope x = Some d → d < length (scopes (symbol_table c))) (store (symbol_table c));
  ck_templates : generic_enum_templates c = [] }.

(** The symbol a name stands for. *)
Definition visible (c : TypeChecker) (name : string) : option Symbol :=
  s ← abs_lookup (abs_table (symbol_table c)) name; store (symbol_table c) !! s.

Lemma lookup_live t name s : table_ok t → abs_lookup (abs_table t) name = Some s → is_Some (store t !! s).
Proof.
  intros [_ Hall _]. unfold abs_table. induction Hall as [|sc chain [Hlive _] _ IH]; cbn; [done|].
  rewrite abs_scope_lookup. destruct (scan_symbols (store t) (symbols sc) name) as [s'|] eqn:Hs; [|done].
  intros [= ->]. pose proof (scan_symbols_spec (store t) (symbols sc) name) as H. rewrite Hs in H.
  destruct H as (i & Hi & _). by eapply Forall_lookup_1 in Hlive.
Qed.

Lemma runs_lookup_symbol name c (Q : option Symbol → TypeChecker → Prop) :
  checker_ok c → Q (visible c name) c → runs (lookup_symbol name) c Q.
Proof.
  intros Hok HQ. unfold lookup_symbol, lookup_name. apply runs_bind.
  pose proof (to_each _ (ck_table c Hok)) as Hall.
  eapply runs_reads; [unfold symbol_table_lookup; by apply lookup_chain_abs|]. fold (abs_table (symbol_table c)).
  unfold visible in HQ. destruct (abs_lookup (abs_table (symbol_table c)) name) as [s|] eqn:Hs; [|by apply runs_ret].
  destruct (lookup_live _ _ _ (ck_table c Hok) Hs) as [x Hx]. cbn in HQ. rewrite Hx in HQ.
  apply runs_bind. eapply runs_reads; [exact Hx|]. by apply runs_ret.
Qed.

Lemma visible_ok c name x : checker_ok c → visible c name = Some x → symbol_ok (types c) x.
Proof. intros Hok (s & _ & Hs)%bind_Some. by apply (ck_symbols c Hok s x Hs). Qed.

Lemma runs_deref t ty c (Q : Type_ → TypeChecker → Prop) : types c !! t = Some ty → Q ty c → runs (deref t) c Q.
Proof. intros Ht HQ. by eapply runs_reads. Qed.

(** ** Larger stores *)

Lemma live_weaken ts ts' t : ts ⊆ ts' → live ts t → live ts' t.
Proof. intros Hs (i & -> & ty & Hi). exists i. split; [done|]. exists ty. by eapply lookup_weaken. Qed.

Lemma is_Some_weaken (ts ts' : type_store) i : ts ⊆ ts' → is_Some (ts !! i) → is_Some (ts' !! i).
Proof. intros Hs [ty Hi]. exists ty. by eapply lookup_weaken. Qed.

Lemma type_ok_weaken ts ts' i ty : ts ⊆ ts' → type_ok ts i ty → type_ok ts' i ty.
Proof.
  intros Hs [H1 H2 H3 [H4 H5]]. split; [done|..].
  - eapply Forall_impl; [exact H2|]. intros t (j & -> & Hj & ?). exists j. split_and!; [done| |done]. by eapply is_Some_weaken.
  - eapply Forall_impl; [exact H3|]. intros f Hf. by eapply is_Some_weaken.
  - split; [done|]. eapply Forall_impl; [exact H5|]. intros p Hp j ->. eapply is_Some_weaken; [done|]. by apply Hp.
Qed.

Lemma symbol_ok_weaken ts ts' x : ts ⊆ ts' → symbol_ok ts x → symbol_ok ts' x.
Proof.
  intros Hs [H1 H2 H3]. split; [by eapply live_weaken|..].
  - intros Hk. destruct (H2 Hk) as (? & ps & ? & ? & Hps). split; [by eapply live_weaken|]. exists ps. split_and!; [done..|].
    eapply Forall_impl; [exact Hps|]. intros. by eapply live_weaken.
  - intros Hk. destruct (H3 Hk) as [? Hp]. split; [by eapply live_weaken|]. intros p ?. eapply is_Some_weaken; [done|]. by apply Hp.
Qed.

(** Only types were added. *)
Record grows (c c' : TypeChecker) : Prop := {
  gr_types : types c ⊆ types c';
  gr_next : (next_type c ≤ next_type c')%positive;
  gr_rest : c' = set_types (types c') (next_type c') c }.

#[export] Instance grows_preorder : PreOrder grows.
Proof.
  split.
  - intros c. split; [done|reflexivity|by destruct c].
  - intros c1 c2 c3 [H1 H2 H3] [H4 H5 H6]. split; [by etrans|by etrans|]. rewrite H6, H3. by destruct c1.
Qed.

Lemma new_type_spec ty c :
  checker_ok c → is_Some (tname ty) →
  Forall (λ t, ∃ j, t = Some j ∧ is_Some (types c !! j)) (components ty) →
  field_types ty = [] → tagged_variant_payloads ty = [] → tagged_variant_names ty = [] →
  runs (new_type ty) c (λ i c', checker_ok c' ∧ grows c c' ∧ types c' !! i = Some ty).
Proof.
  intros Hok Hname Hcomp Hf Hp Hn. unfold runs, new_type. destruct Hok as [[Hb Ht Hbi] Htab Hsym Htpl].
  set (i := next_type c). set (ts := <[i:=ty]> (types c)).
  assert (types c ⊆ ts) as Hsub.
  { apply insert_subseteq. destruct (types c !! i) as [ty'|] eqn:He; [|done]. apply Hb in He. lia. }
  split_and!; [| |by apply lookup_insert_eq].
  - split; cbn; [|done| |done].
    + split; cbn.
      * intros j ty' [[<- <-]|[Hne Hj]]%lookup_insert_Some; [lia|]. apply Hb in Hj. lia.
      * apply map_Forall_insert_2.
        -- split; [done| |by rewrite Hf|by rewrite Hp, Hn]. eapply Forall_impl; [exact Hcomp|].
           intros t (j & -> & [ty' Hj]). exists j. split_and!; [done|eapply is_Some_weaken; [exact Hsub|by eexists]|]. by apply Hb in Hj.
        -- intros j ty' Hj. eapply type_ok_weaken; [exact Hsub|by apply Ht].
      * eapply Forall_impl; [exact Hbi|]. intros e (ty' & He & Hk)%fmap_Some. eapply lookup_weaken in He; [|exact Hsub]. by rewrite He, Hk.
    + intros s x Hx. destruct (Hsym s x Hx) as [? ?]. split; [|done]. by eapply symbol_ok_weaken.
  - split; [done|cbn; lia|by destruct c].
Qed.

Lemma grows_visible c c' : grows c c' → visible c' = visible c.
Proof. intros [_ _ ->]. done. Qed.

Lemma grows_builtins c c' : grows c c' → builtins c' = builtins c.
Proof. intros [_ _ ->]. done. Qed.

(** ** What names spell *)

Section denotes.
Context (b : Builtins) (env : string → option Symbol) (ts : type_store).

Inductive denotes : chars → tid → Prop :=
  | denotes_builtin s f : find_builtin builtin_names (to_name s) = Some f → denotes s (f b)
  | denotes_user s x t :
      env (to_name s) = Some x → skind x = SYMBOL_STRUCT ∨ skind x = SYMBOL_ENUM → stype x = Some t → denotes s t
  | denotes_pointer s t i ty :
      denotes s t → ts !! i = Some ty → kind ty = TYPE_POINTER → base_type ty = Some t → denotes (s ++ ["*"%char]) i
  | denotes_array s digits t i ty :
      denotes s t → strtoull_whole digits = Some (array_size ty) → ts !! i = Some ty →
      kind ty = TYPE_ARRAY → base_type ty = Some t → denotes (s ++ "["%char :: digits ++ ["]"%char]) i
  | denotes_function params parts result t i ty :
      (params = [] ∧ parts = []) ∨ split_parameters (mkDepths 0 0 0) params = Some parts →
      denotes_all parts (fn_param_types ty) → denotes (trim result) t → ts !! i = Some ty →
      kind ty = TYPE_FUNCTION_POINTER → fn_return_type ty = Some t →
      denotes ("f"%char :: "n"%char :: "("%char :: params ++ ")"%char :: "-"%char :: ">"%char :: result) i
  | denotes_instance s base arg i :
      generic_parts s = Some (base, arg) → denotes (list_ascii_of_string (base +:+ "__" +:+ arg)) i → denotes s i
with denotes_all : list chars → list (option tid) → Prop :=
  | denotes_nil : denotes_all [] []
  | denotes_cons p parts t types : denotes (trim p) t → denotes_all parts types → denotes_all (p :: parts) (Some t :: types).
End denotes.

Scheme denotes_ind2 := Induction for denotes Sort Prop
  with denotes_all_ind2 := Induction for denotes_all Sort Prop.
Combined Scheme denotes_mutind from denotes_ind2, denotes_all_ind2.

(** In a larger store, where names stand for the same. *)
Lemma denotes_weaken_mut b env env' ts ts' : ts ⊆ ts' → (∀ n, env' n = env n) →
  (∀ s t, denotes b env ts s t → denotes b env' ts' s t) ∧
  (∀ parts tys, denotes_all b env ts parts tys → denotes_all b env' ts' parts tys).
Proof.
  intros Hs He. apply (denotes_mutind b env ts (λ s t _, denotes b env' ts' s t) (λ ps tys _, denotes_all b env' ts' ps tys)).
  - intros. by constructor.
  - intros. eapply denotes_user; [by rewrite He|done..].
  - intros. eapply denotes_pointer; try done. by eapply lookup_weaken.
  - intros. eapply denotes_array; try done. by eapply lookup_weaken.
  - intros. eapply denotes_function; try done. by eapply lookup_weaken.
  - intros. by eapply denotes_instance.
  - constructor.
  - intros. by constructor.
Qed.

Lemma denotes_weaken b env env' ts ts' s t :
  ts ⊆ ts' → (∀ n, env' n = env n) → denotes b env ts s t → denotes b env' ts' s t.
Proof. intros Hs He. by apply denotes_weaken_mut. Qed.

Abbreviation spells c := (denotes (builtins c) (visible c) (types c)).

Lemma spells_grows c c' s t : grows c c' → spells c s t → spells c' s t.
Proof.
  intros Hg Hd. rewrite (grows_builtins _ _ Hg), (grows_visible _ _ Hg). by eapply denotes_weaken; [apply (gr_types _ _ Hg)|..].
Qed.

(** ** Measures *)

Definition opening (s : chars) : nat := length (filter (λ a, a = "<"%char) s).
Definition measure (s : chars) : nat := length s + opening s.

Lemma measure_app s t : measure (s ++ t) = measure s + measure t.
Proof. unfold measure, opening. rewrite filter_app, !length_app. lia. Qed.

Lemma measure_cons a s : measure (a :: s) = (if decide (a = "<"%char) then 2 else 1) + measure s.
Proof. unfold measure, opening. rewrite filter_cons. destruct (decide (a = "<"%char)); cbn; lia. Qed.

Lemma measure_sublist s t : sublist s t → measure s ≤ measure t.
Proof. induction 1; rewrite ?measure_cons; lia. Qed.

Lemma measure_skip_spaces s : measure (skip_spaces s) ≤ measure s.
Proof. induction s as [|a s IH]; cbn [skip_spaces]; [done|]. destruct (isspace a); [|done]. rewrite measure_cons. lia. Qed.

Lemma measure_reverse s : measure (reverse s) = measure s.
Proof. induction s as [|a s IH]; [done|]. rewrite reverse_cons, measure_app, IH, !measure_cons. change (measure []) with 0. lia. Qed.

Lemma measure_trim s : measure (trim s) ≤ measure s.
Proof.
  unfold trim. rewrite measure_reverse. etrans; [apply measure_skip_spaces|]. rewrite measure_reverse. apply measure_skip_spaces.
Qed.

Lemma measure_take n s : measure (take n s) ≤ measure s.
Proof. apply measure_sublist, sublist_take. Qed.

Lemma measure_drop n s : measure (drop n s) ≤ measure s.
Proof. apply measure_sublist, sublist_drop. Qed.

Lemma split_measure d s parts : split_parameters d s = Some parts → Forall (λ p, measure p ≤ measure s) parts.
Proof.
  revert d parts. induction s as [|a s IH]; intros d parts; cbn [split_parameters]; [intros [= <-]; by repeat constructor|].
  destruct (negative (deepen a d)); [done|]. intros (ps & Hps & [= <-])%bind_Some. apply IH in Hps.
  destruct ps as [|p ps]; [done|]. apply Forall_cons in Hps as [Hp Hps].
  assert (Forall (λ p, measure p ≤ measure (a :: s)) ps) as Hps'.
  { eapply Forall_impl; [exact Hps|]. cbv beta. intros x Hx. rewrite measure_cons. lia. }
  rewrite measure_cons in *. destruct (_ && _).
  - repeat constructor; [change (measure []) with 0; lia|lia|done].
  - constructor; [rewrite measure_cons; lia|done].
Qed.

Lemma index_of_spec ch s n : index_of ch s = Some n → s = take n s ++ ch :: drop (S n) s ∧ ch ∉ take n s.
Proof.
  revert n. induction s as [|a s IH]; intros n; cbn; [done|]. destruct (Ascii.eqb_spec a ch) as [->|Hne].
  - intros [= <-]. cbn. split; [done|by apply not_elem_of_nil].
  - intros (m & Hm & ->)%fmap_Some. destruct (IH m Hm) as [H1 H2]. cbn. split; [by rewrite <- H1|].
    by apply not_elem_of_cons.
Qed.

Lemma to_name_chars s : list_ascii_of_string (to_name s) = s.
Proof. apply String.list_ascii_of_string_of_list_ascii. Qed.
Lemma chars_to_name s : to_name (list_ascii_of_string s) = s.
Proof. apply String.string_of_list_ascii_of_string. Qed.

(** ** The parts of a name *)

(** The outcome of looking up a type: NULL, or a type the text spells. *)
Definition type_result (s : chars) (c : TypeChecker) (r : option tid) (c' : TypeChecker) : Prop :=
  checker_ok c' ∧ grows c c' ∧ ∀ t, r = Some t → is_Some (types c' !! t) ∧ spells c' s t.

Lemma type_result_none s c c' : checker_ok c' → grows c c' → type_result s c None c'.
Proof. intros Hok Hg. split; [done|]. by split. Qed.

Lemma type_result_trans s c c' c'' r : grows c c' → type_result s c' r c'' → type_result s c r c''.
Proof. intros Hg (H1 & H2 & H3). split; [done|]. split; [by etrans|done]. Qed.

Lemma type_result_some s c c' t : checker_ok c' → grows c c' → is_Some (types c' !! t) → spells c' s t →
  type_result s c (Some t) c'.
Proof. intros Hok Hg Ht Hs. split; [done|]. split; [done|]. by intros i [= <-]. Qed.

Section parts.
Context (get : string → TM (option tid)) (n : nat).
Context (Hget : ∀ c name, checker_ok c → measure (list_ascii_of_string name) ≤ n →
  runs (get name) c (type_result (list_ascii_of_string name) c)).

Lemma get_spec c s : checker_ok c → measure s ≤ n → runs (get (to_name s)) c (type_result s c).
Proof. intros Hok Hm. rewrite <- (to_name_chars s) at 2. apply Hget; [done|by rewrite to_name_chars]. Qed.

Lemma parse_array_spec c s : checker_ok c → measure s ≤ S n → runs (type_checker_parse_array_type get s) c (type_result s c).
Proof.
  intros Hok Hm. unfold type_checker_parse_array_type.
  destruct (index_of "[" s) as [lb|] eqn:Hlb; [|by apply runs_ret, type_result_none].
  destruct (index_of "]" (drop (S lb) s)) as [k|] eqn:Hk; [|by apply runs_ret, type_result_none].
  destruct (_ || _) eqn:Hb; [by apply runs_ret, type_result_none|].
  apply orb_false_iff in Hb as [Hlen%negb_false_iff%Nat.eqb_eq _].
  apply index_of_spec in Hlb as [Hs _]. apply index_of_spec in Hk as [Hafter _].
  assert (drop (S k) (drop (S lb) s) = []) as Hnil. { apply length_zero_iff_nil. rewrite length_drop. lia. }
  rewrite Hnil in Hafter. set (digits := take k (drop (S lb) s)) in *. set (base := take lb s) in *.
  assert (s = base ++ "["%char :: digits ++ ["]"%char]) as Hs' by by rewrite Hs, Hafter at 1.
  assert (measure base ≤ n) as Hbase. { rewrite Hs', measure_app, measure_cons in Hm. case_decide; lia. }
  apply runs_bind. eapply runs_mono; [by apply get_spec|]. intros r c1 (Hok1 & Hg1 & Hr).
  destruct r as [bt|]; [|by apply runs_ret, type_result_none]. destruct (Hr bt eq_refl) as [[ty Hty] Hspell].
  destruct (strtoull_whole digits) as [v|] eqn:Hv; [|by apply runs_ret, type_result_none].
  apply runs_bind. eapply runs_deref; [exact Hty|]. destruct (_ || _) eqn:Hz; [by apply runs_ret, type_result_none|].
  apply runs_bind. eapply runs_mono; [apply new_type_spec; try done|].
  { cbn. apply Forall_singleton. exists bt. split; [done|by eexists]. }
  intros i c2 (Hok2 & Hg2 & Hi). apply runs_ret. apply type_result_some; [done|by etrans|by eexists|].
  rewrite Hs'. eapply (denotes_array _ _ _ base digits bt i); cycle 2; [exact Hi|done|done| |exact Hv]. by eapply spells_grows.
Qed.

Lemma trailing_stars_spec s k base : trailing_stars s = (k, base) → s = base ++ replicate k "*"%char.
Proof.
  unfold trailing_stars.
  assert (∀ r m, (fix go (s : chars) (n : nat) : nat * chars :=
     match s with
     | a :: s' => if a =c "*" then go s' (S n) else (n, reverse s)
     | [] => (n, [])
     end) r m = (k, base) → reverse r ++ replicate m "*"%char = base ++ replicate k "*"%char) as H.
  { induction r as [|a r IH]; intros m.
    - by intros [= <- <-].
    - destruct (Ascii.eqb_spec a "*") as [->|Hne]; [|by intros [= <- <-]].
      intros Hr. apply IH in Hr. rewrite <- Hr, reverse_cons, <- app_assoc. done. }
  intros Hr. apply H in Hr. rewrite reverse_involutive, app_nil_r in Hr. done.
Qed.

Lemma wrap_pointers_spec k : ∀ c s t, checker_ok c → is_Some (types c !! t) → spells c s t →
  runs (wrap_pointers k t) c (λ t' c', checker_ok c' ∧ grows c c' ∧ is_Some (types c' !! t') ∧
    spells c' (s ++ replicate k "*"%char) t').
Proof.
  induction k as [|k IH]; intros c s t Hok [ty Ht] Hs; cbn [wrap_pointers replicate].
  - apply runs_ret. rewrite app_nil_r. by split_and!.
  - apply runs_bind. eapply runs_deref; [exact Ht|]. apply runs_bind. eapply runs_mono; [apply new_type_spec; try done|].
    { cbn. apply Forall_singleton. exists t. split; [done|by eexists]. }
    intros p c1 (Hok1 & Hg1 & Hp). eapply runs_mono; [apply (IH c1 (s ++ ["*"%char])); [done|by eexists|]|].
    + by eapply (denotes_pointer _ _ _ s t p); [eapply spells_grows|exact Hp|..].
    + intros t' c2 (Hok2 & Hg2 & Ht' & Hs'). split_and!; [done|by etrans|done|]. rewrite <- app_assoc in Hs'. done.
Qed.

Lemma parse_pointer_spec c s : checker_ok c → measure s ≤ S n → runs (type_checker_parse_pointer_type get s) c (type_result s c).
Proof.
  intros Hok Hm. unfold type_checker_parse_pointer_type.
  destruct (trailing_stars s) as [k base] eqn:Hst. apply trailing_stars_spec in Hst.
  destruct (_ || _) eqn:Hb; [by apply runs_ret, type_result_none|].
  apply orb_false_iff in Hb as [Hk%Nat.eqb_neq _]. destruct k as [|k]; [done|].
  assert (measure base ≤ n) as Hbase. { rewrite Hst, measure_app in Hm. cbn [replicate] in Hm. rewrite measure_cons in Hm. case_decide; lia. }
  apply runs_bind. eapply runs_mono; [by apply get_spec|]. intros r c1 (Hok1 & Hg1 & Hr).
  destruct r as [t|]; [|by apply runs_ret, type_result_none]. destruct (Hr t eq_refl) as [Hty Hspell].
  apply runs_bind. eapply runs_mono; [by apply (wrap_pointers_spec (S k) c1 base t)|].
  intros p c2 (Hok2 & Hg2 & Hp & Hps). apply runs_ret. apply type_result_some; [done|by etrans|done|by rewrite Hst].
Qed.

Lemma parameter_types_spec parts : ∀ c, checker_ok c → Forall (λ p, measure p ≤ n) parts →
  runs (parameter_types_of get parts) c (λ r c', checker_ok c' ∧ grows c c' ∧
    ∀ ts, r = Some ts → Forall (live (types c')) ts ∧ denotes_all (builtins c') (visible c') (types c') parts ts).
Proof.
  induction parts as [|p parts IH]; intros c Hok Hm; cbn [parameter_types_of].
  - apply runs_ret. split; [done|]. split; [done|]. intros ts [= <-]. split; constructor.
  - apply Forall_cons in Hm as [Hp Hm].
    assert (runs (match trim p with [] => mret None | p' => t ← get (to_name p');
      match t with
      | None => mret None
      | Some t => ts ← parameter_types_of get parts;
                  mret (match ts with Some ts => Some (Some t :: ts) | None => None end)
      end end) c (λ r c', checker_ok c' ∧ grows c c' ∧
        ∀ ts, r = Some ts → Forall (live (types c')) ts ∧
          denotes_all (builtins c') (visible c') (types c') (p :: parts) ts)) as H; [|exact H].
    destruct (trim p) as [|a q] eqn:Ht; [by apply runs_ret|]. pose proof (measure_trim p) as Hmt. rewrite Ht in Hmt.
    apply runs_bind. eapply runs_mono; [apply get_spec; [done|lia]|]. intros r c1 (Hok1 & Hg1 & Hr).
    destruct r as [t|]; [|by apply runs_ret]. destruct (Hr t eq_refl) as [Hty Hspell].
    apply runs_bind. eapply runs_mono; [by apply IH|]. intros r c2 (Hok2 & Hg2 & Hr2). apply runs_ret.
    split; [done|]. split; [by etrans|]. intros ts. destruct r as [ts'|]; [|done]. intros [= <-].
    destruct (Hr2 ts' eq_refl) as [Hl Hd]. split.
    + constructor; [|done]. exists t. split; [done|]. eapply is_Some_weaken; [apply (gr_types _ _ Hg2)|done].
    + constructor; [|done]. rewrite Ht. by eapply spells_grows.
Qed.

Lemma closing_paren_lookup u : ∀ d k, closing_paren d u = Some k → u !! k = Some ")"%char.
Proof.
  induction u as [|a u IH]; intros d k; cbn [closing_paren]; [done|].
  destruct (Ascii.eqb_spec a "(") as [->|H1]; [by intros (m & Hm & ->)%fmap_Some; apply (IH _ _ Hm)|].
  destruct (Ascii.eqb_spec a ")") as [->|H2]; [|by intros (m & Hm & ->)%fmap_Some; apply (IH _ _ Hm)].
  destruct d as [|[|d]]; [done|by intros [= <-]|]. by intros (m & Hm & ->)%fmap_Some; apply (IH _ _ Hm).
Qed.

Lemma parse_function_spec c s : checker_ok c → measure s ≤ S n → starts_with_fn s = true →
  runs (type_checker_parse_function_pointer_type get s) c (type_result s c).
Proof.
  intros Hok Hm Hfn. unfold type_checker_parse_function_pointer_type.
  destruct s as [|a0 [|a1 [|a2 u]]]; try done. cbn in Hfn.
  apply andb_true_iff in Hfn as [[->%Ascii.eqb_eq ->%Ascii.eqb_eq]%andb_true_iff ->%Ascii.eqb_eq].
  change (drop 2 ("f"%char :: "n"%char :: "("%char :: u)) with ("("%char :: u). cbn [closing_paren]. cbn [Ascii.eqb Bool.eqb andb].
  destruct (closing_paren 1 u) as [k|] eqn:Hk; cbn [fmap option_fmap option_map]; [|by apply runs_ret, type_result_none].
  apply closing_paren_lookup in Hk. replace (S k - 1) with k by lia.
  change (drop 3 ("f"%char :: "n"%char :: "("%char :: u)) with u.
  replace (drop (S (S k + 2)) ("f"%char :: "n"%char :: "("%char :: u)) with (drop (S k) u) by (replace (S k + 2) with (S (S (S k))) by lia; done).
  pose proof (take_drop_middle _ _ _ Hk) as Hu. set (inside := take k u) in *.
  destruct (drop (S k) u) as [|b1 [|b2 result]] eqn:Hd; [by apply runs_ret, type_result_none..|].
  destruct (negb _) eqn:Harrow; [by apply runs_ret, type_result_none|].
  apply negb_false_iff, andb_true_iff in Harrow as [->%Ascii.eqb_eq ->%Ascii.eqb_eq].
  rewrite <- Hu in Hm. rewrite !measure_cons, measure_app, !measure_cons in Hm. cbn [decide decide_rel] in Hm.
  repeat (rewrite decide_False in Hm by done).
  apply runs_bind.
  assert (runs (match inside with
    | [] => mret (Some [])
    | _ => match split_parameters (mkDepths 0 0 0) inside with
           | Some parts => parameter_types_of get parts
           | None => mret None
           end
    end) c (λ r c', checker_ok c' ∧ grows c c' ∧ ∀ ts, r = Some ts → Forall (live (types c')) ts ∧
      ∃ parts, ((inside = [] ∧ parts = []) ∨ split_parameters (mkDepths 0 0 0) inside = Some parts) ∧
        denotes_all (builtins c') (visible c') (types c') parts ts)) as Hparams.
  { destruct inside as [|i0 inside'] eqn:Hin.
    - apply runs_ret. split; [done|]. split; [done|]. intros ts [= <-]. split; [constructor|]. exists []. split; [by left|constructor].
    - rewrite <- Hin in *. destruct (split_parameters (mkDepths 0 0 0) inside) as [parts|] eqn:Hsp; [|by apply runs_ret].
      eapply runs_mono; [apply parameter_types_spec; [done|]|].
      + apply split_measure in Hsp. eapply Forall_impl; [exact Hsp|]. cbv beta. intros p Hp. lia.
      + intros r c1 (Hok1 & Hg1 & Hr). split; [done|]. split; [done|]. intros ts Hts. destruct (Hr ts Hts). split; [done|].
        exists parts. split; [by right|done]. }
  eapply runs_mono; [exact Hparams|]. intros r c1 (Hok1 & Hg1 & Hr). destruct r as [ts|]; [|by apply runs_ret, type_result_none].
  destruct (Hr ts eq_refl) as (Hl & parts & Hparts & Hd1).
  assert (runs (match trim result with
    | [] => mret None
    | r' => r ← get (to_name r');
      match r with
      | None => mret None
      | Some return_type => t ← new_type (type_create_function_pointer ts (Some return_type)); mret (Some t)
      end
    end) c1 (type_result ("f"%char :: "n"%char :: "("%char :: u) c)) as H; [|exact H].
  destruct (trim result) as [|q0 q] eqn:Hq; [by apply runs_ret, type_result_none|].
  pose proof (measure_trim result) as Hmt. rewrite Hq in Hmt.
  apply runs_bind. eapply runs_mono; [apply get_spec; [done|lia]|]. intros r c2 (Hok2 & Hg2 & Hr2).
  assert (grows c c2) as Hg by by etrans.
  destruct r as [rt|]; [|by apply runs_ret, type_result_none]. destruct (Hr2 rt eq_refl) as [Hrt Hspell].
  apply runs_bind. eapply runs_mono; [apply new_type_spec; try done|].
  { cbn. constructor; [by exists rt|]. eapply Forall_impl; [exact Hl|]. intros t (j & -> & Hj). exists j. split; [done|].
    eapply is_Some_weaken; [apply (gr_types _ _ Hg2)|done]. }
  intros i c3 (Hok3 & Hg3 & Hi). apply runs_ret. apply type_result_some; [done|by etrans|by eexists|]. rewrite <- Hu.
  eapply (denotes_function _ _ _ inside parts result rt i); [exact Hparts| | |exact Hi|done|done].
  - cbn. rewrite (grows_builtins c1), (grows_visible c1) by (by etrans). eapply denotes_weaken_mut; [|done|exact Hd1].
    etrans; [apply (gr_types _ _ Hg2)|apply (gr_types _ _ Hg3)].
  - rewrite Hq. by eapply spells_grows.
Qed.

Lemma generic_measure s base arg : generic_parts s = Some (base, arg) →
  measure (list_ascii_of_string (base +:+ "__" +:+ arg)) < measure s ∧ measure (list_ascii_of_string arg) < measure s.
Proof.
  unfold generic_parts. intros (lt & Hlt & H)%bind_Some.
  apply index_of_spec in Hlt as [Hs _]. set (after := drop (S lt) s) in *.
  destruct (reverse s) as [|z r] eqn:Hrev; [done|]. destruct (Ascii.eqb_spec z ">") as [->|]; [|done].
  assert (∃ m, after = m ++ [">"%char]) as [m Hm].
  { assert (s = reverse r ++ [">"%char]) as Hlast. { rewrite <- reverse_cons, <- Hrev, reverse_involutive. done. }
    destruct (decide (after = [])) as [He|He].
    - rewrite He in Hs. rewrite Hs in Hlast. apply app_inj_tail in Hlast as [_ [=]].
    - destruct (exists_last He) as (m & x & Hx). exists m. rewrite Hx. f_equal. f_equal.
      rewrite Hx in Hs. rewrite Hs in Hlast at 1. rewrite app_comm_cons, app_assoc in Hlast. by apply app_inj_tail in Hlast as [_ ->]. }
  set (k := match index_of "," after with Some n0 => n0 | None => length after - 1 end) in *.
  assert (k < length after) as Hk.
  { unfold k. destruct (index_of "," after) as [n0|] eqn:Hn0.
    - apply index_of_spec in Hn0 as [He _]. pose proof (f_equal length He) as Hl. rewrite length_app in Hl. cbn in Hl.
      rewrite length_take, length_drop in Hl. lia.
    - rewrite Hm, length_app. cbn. lia. }
  injection H as <- <-.
  assert (measure (take k after) < measure after) as Htk.
  { rewrite <- (take_drop k after) at 2. rewrite measure_app. destruct (drop k after) as [|x l] eqn:Hd.
    - apply (f_equal length) in Hd. rewrite length_drop in Hd. cbn in Hd. lia.
    - rewrite measure_cons. case_decide; lia. }
  assert (list_ascii_of_string (to_name (take lt s) +:+ "__" +:+ to_name (take k after)) =
    take lt s ++ ["_"%char; "_"%char] ++ take k after) as ->.
  { rewrite <- (to_name_chars (take lt s)) at 2. rewrite <- (to_name_chars (take k after)) at 2.
    generalize (to_name (take lt s)) as x. induction x as [|ch x IH]; [done|].
    trans (ch :: list_ascii_of_string (x +:+ "__" +:+ to_name (take k after))); [done|]. by rewrite IH. }
  assert (measure s = measure (take lt s) + (2 + measure after)) as Hms.
  { rewrite Hs at 1. rewrite measure_app, measure_cons, decide_True by done. done. }
  rewrite to_name_chars, !measure_app. change (measure ["_"%char; "_"%char]) with 2. lia.
Qed.

Lemma instance_spec c s base arg : checker_ok c → generic_parts s = Some (base, arg) → measure s ≤ S n →
  runs (type_checker_instantiate_generic_enum get base arg) c (type_result s c).
Proof.
  intros Hok Hg Hm. destruct (generic_measure _ _ _ Hg) as [Hm1 Hm2]. unfold type_checker_instantiate_generic_enum.
  apply runs_bind. eapply runs_mono; [apply Hget; [done|lia]|]. intros r c1 (Hok1 & Hg1 & Hr).
  destruct r as [t|].
  - apply runs_ret. destruct (Hr t eq_refl) as [Ht Hs]. apply type_result_some; [done|done|done|]. by eapply denotes_instance.
  - apply runs_bind. eapply runs_mono; [apply Hget; [done|lia]|]. intros r c2 (Hok2 & Hg2 & _).
    apply runs_bind, runs_gets. rewrite (ck_templates c2 Hok2). cbn. destruct r; (apply runs_ret, type_result_none; [done|by etrans]).
Qed.

Lemma or_else_spec m k s c b : checker_ok c → (b = true → runs m c (type_result s c)) →
  (∀ c', checker_ok c' → runs k c' (type_result s c')) → runs (or_else m b k) c (type_result s c).
Proof.
  intros Hok Hm Hk. unfold or_else. destruct b; [|by apply Hk]. apply runs_bind. eapply runs_mono; [by apply Hm|].
  intros r c1 Hr. destruct r as [t|]; [by apply runs_ret|]. destruct Hr as (Hok1 & Hg1 & _).
  eapply runs_mono; [by apply Hk|]. intros r c2 Hr. by eapply type_result_trans.
Qed.

Lemma type_of_name_spec c name : checker_ok c → measure (list_ascii_of_string name) ≤ S n →
  runs (type_of_name get name) c (type_result (list_ascii_of_string name) c).
Proof.
  intros Hok Hm. unfold type_of_name. set (s := list_ascii_of_string name) in *.
  destruct (find_builtin builtin_names name) as [f|] eqn:Hf.
  - apply runs_bind, runs_gets. apply runs_ret. apply type_result_some; [done|done| |].
    + assert (∃ k, (f (builtins c), k) ∈ builtin_table (builtins c)) as (k & Hin).
      { unfold builtin_names in Hf. cbn [find_builtin] in Hf.
        repeat (case_match; [injection Hf as <-; eexists; unfold builtin_table; repeat first [apply list_elem_of_here|apply list_elem_of_further]|]). done. }
      pose proof (sk_builtins _ _ _ (ck_store c Hok)) as Hb. rewrite Forall_forall in Hb. apply Hb in Hin. cbn in Hin.
      apply fmap_Some in Hin as (ty & Hty & _). by eexists.
    + apply denotes_builtin. unfold s. by rewrite chars_to_name.
  - apply or_else_spec; [done|by apply parse_function_spec|]. intros c1 Hok1.
    apply or_else_spec; [done|by intros _; apply parse_array_spec|]. intros c2 Hok2.
    apply or_else_spec; [done|by intros _; apply parse_pointer_spec|]. intros c3 Hok3.
    assert (runs match generic_parts s with
      | Some (base, arg) => type_checker_instantiate_generic_enum get base arg
      | None => mret None
      end c3 (type_result s c3)) as Hgen.
    { destruct (generic_parts s) as [[base arg]|] eqn:Hg; [by apply instance_spec|by apply runs_ret, type_result_none]. }
    unfold user_type. apply runs_bind. apply runs_lookup_symbol; [done|].
    destruct (visible c3 name) as [x|] eqn:Hx; [|exact Hgen].
    destruct (xk_type _ _ (visible_ok c3 name x Hok3 Hx)) as (t & Ht & Hlive).
    destruct (skind x) eqn:Hk; try exact Hgen; apply runs_ret; rewrite Ht; (apply type_result_some; [done|done|done|]);
      (eapply denotes_user; [unfold s; by rewrite chars_to_name|rewrite Hk; auto|done]).
Qed.
End parts.

(** Fuel above the length of the name and its opening brackets is enough. *)
Lemma get_type_by_name_spec n : ∀ c name, checker_ok c → measure (list_ascii_of_string name) < n →
  runs (type_checker_get_type_by_name n name) c (type_result (list_ascii_of_string name) c).
Proof.
  induction n as [|n IH]; intros c name Hok Hm; [lia|]. cbn [type_checker_get_type_by_name].
  destruct n as [|n].
  - destruct name as [|a name]; [|cbn in Hm; unfold measure in Hm; cbn in Hm; lia].
    unfold type_of_name. cbn. unfold user_type. apply runs_bind, runs_lookup_symbol; [done|].
    destruct (visible c EmptyString) as [x|] eqn:Hx; [|by apply runs_ret, type_result_none].
    destruct (xk_type _ _ (visible_ok c _ x Hok Hx)) as (t & Ht & Hlive).
    destruct (skind x) eqn:Hk; try (by apply runs_ret, type_result_none); apply runs_ret; rewrite Ht;
      (apply type_result_some; [done|done|done|]); (eapply denotes_user; [done|rewrite Hk; auto|done]).
  - apply (type_of_name_spec _ n); [|done|lia]. intros c' name' Hok' Hm'. apply IH; [done|lia].
Qed.

(** ** An enum that holds itself *)

(** A list: of two variants, [Nil], and [Cons] with a pointer to a list of [int32]. *)
Definition list_template : EnumDeclaration ASTNode :=
  mkEnum "List" [mkVariant "Nil" None None; mkVariant "Cons" None (Some "List<int32>*"%string)] false ["T"%string].

Lemma lookup_unbound n c : symbol_table_lookup (symbol_table c) n = Some None → lookup_symbol n c = Done (None, c).
Proof.
  intros H. unfold lookup_symbol, lookup_name, reads. cbv beta iota zeta delta [mbind TM_bind outcome_bind]. by rewrite H.
Qed.

(** A name that is neither a type's nor built from others'. *)
Lemma plain_name get n c : find_builtin builtin_names n = None → starts_with_fn (list_ascii_of_string n) = false →
  contains "[" (list_ascii_of_string n) = false → contains "*" (list_ascii_of_string n) = false →
  symbol_table_lookup (symbol_table c) n = Some None →
  type_of_name get n c =
    match generic_parts (list_ascii_of_string n) with
    | Some (base, arg) => type_checker_instantiate_generic_enum get base arg c
    | None => Done (None, c)
    end.
Proof.
  intros H1 H2 H3 H4 H5. unfold type_of_name, or_else, user_type. rewrite H1, H2, H3, H4. cbn [andb].
  unfold mbind, TM_bind. rewrite (lookup_unbound n c H5). cbn. by destruct (generic_parts _) as [[]|].
Qed.

Lemma bind_failed {A B} (m : TM A) (k : A → TM B) c : m c = Failed Out_of_fuel → (m ≫= k) c = Failed Out_of_fuel.
Proof. intros H. unfold mbind, TM_bind. by rewrite H. Qed.

Lemma bind_done {A B} (m : TM A) (k : A → TM B) c a c' r : m c = Done (a, c') → k a c' = r → (m ≫= k) c = r.
Proof. intros H. unfold mbind, TM_bind. by rewrite H. Qed.

(** C38. Generic enums have no base case: for an instance whose variant points to the
    instance itself, as a list's does, the checker looks up the type of the payload before it
    declares the instance, and so looks up the payload again, without end.  No fuel is enough. *)
Theorem generic_instances_diverge fuel c :
  generic_enum_templates c = [list_template] →
  symbol_table_lookup (symbol_table c) "List<int32>" = Some None →
  symbol_table_lookup (symbol_table c) "List__int32" = Some None →
  type_checker_get_type_by_name fuel "List<int32>" c = Failed Out_of_fuel.
Proof.
  intros Ht H1 H2. revert fuel. apply (well_founded_induction Nat.lt_wf_0). intros [|n] IH; [done|]. cbn [type_checker_get_type_by_name].
  rewrite plain_name by done. cbn match. unfold type_checker_instantiate_generic_enum.
  destruct n as [|n]; [done|]. eapply bind_done; [cbn [type_checker_get_type_by_name]; by rewrite plain_name by done|].
  eapply bind_done; [done|]. eapply bind_done; [done|]. rewrite Ht. cbn match. cbn [List.find].
  apply bind_failed. unfold type_checker_build_tagged_enum_type. apply bind_failed. cbn [map payload_extent].
  eapply bind_done; [done|]. apply bind_failed. cbn [ev_payload_type concrete_variant].
  change (type_of_name (type_checker_get_type_by_name n) "List<int32>*" c = Failed Out_of_fuel). unfold type_of_name.
  apply bind_failed, bind_failed, IH. lia.
Qed.

Definition list_checker : TypeChecker :=
  mkChecker symbol_table_create 1 ∅ 1 false None None (mkBuiltins 1 2 3 4 5 6 7 8 9 10 11 12 13 14) [list_template] None [] [] ∅ ∅ ∅.

Lemma generic_instances_diverge_witness : type_checker_get_type_by_name 1000 "List<int32>" list_checker = Failed Out_of_fuel.
Proof. by apply generic_instances_diverge. Defined.
