(* ===== verification/TypeExpr.v ===== *)
(** * The types of expressions: src/src/semantic/type_checker.c

    [type_checker_infer_type] and what it calls, one definition per case of its switch.
    The types of sub-expressions come from the parameter [infer] of the section, which
    the last definition ties to the whole; [get] gives the types of names. *)

From stdpp Require Import gmap.
From S2P Require Import Prelude.
From S2P Require Import Outcome.
From S2P Require Import Ast.
From S2P Require Import ErrorReporter.
From S2P Require Import Types.
From S2P Require Import SymbolTable.
From S2P Require Import TypeRules.
From S2P Require Import TypeNames.

Abbreviation location := SourceLocation.

(** ** Tests that read the checker *)

Definition types_equal (l r : tid) : TM bool := on_types (λ fuel ts, type_checker_types_equal fuel ts (Some l) (Some r)).
Definition is_assignable (dest src : option tid) : TM bool := on_types (λ fuel ts, type_checker_is_assignable fuel ts dest src).
Definition are_compatible (l r : tid) : TM bool := on_types (λ fuel ts, type_checker_are_compatible fuel ts l r).
Definition is_cast_valid (from to : tid) : TM bool := on_types (λ fuel ts, type_checker_is_cast_valid fuel ts from to).
Definition promote_types (l r : tid) (o : string) : TM tid :=
  reads (λ c, type_checker_promote_types (types c) (builtins c) l r o).

(** An overflow in a constant is undefined behaviour. *)
Definition integer_constant (e : ASTNode) : TM (option Z) := reads (λ _, type_checker_eval_integer_constant e).
Definition is_null_pointer_constant (e : ASTNode) : TM bool := reads (λ _, type_checker_is_null_pointer_constant e).

(** The last declared variable of the name: whether it is known to be initialized. *)
Fixpoint type_checker_init_tracker_is_initialized (vars : list (string * bool)) (name : string) : option bool :=
  match vars with
  | [] => None
  | (n, b) :: vars => if String.eqb n name then Some b else type_checker_init_tracker_is_initialized vars name
  end.

(** ** Warnings *)

Definition warn (loc : location) (message : string) : TM () :=
  modify (λ c, set_reporter ((λ r, error_reporter_add_warning r ERROR_SEMANTIC loc (snprintf 512 message))
                               <$> tc_error_reporter c) c).

Definition reporting (m : TM ()) : TM () :=
  r ← gets tc_error_reporter; match r with Some _ => m | None => mret () end.

Definition type_checker_warn_potential_misaligned_cast (loc : location) (operand : ASTNode) (target : Type_) : TM () :=
  reporting
    match kind target, base_type target with
    | TYPE_POINTER, Some b =>
        base ← deref b;
        let required := alignment base in
        if (required <=? 1)%Z then mret ()
        else
          known ← reads (λ c, type_checker_extract_known_pointer_alignment (tracked_buffer_extents c) operand);
          if (known <=? 0)%Z then mret ()
          else if (known <? s64 required)%Z then
            warn loc ("Cast to " +:+ name_or "pointer" target +:+ " may violate required " +:+ lld required +:+
                      "-byte alignment (known alignment " +:+ lld known +:+ ")")
          else mret ()
    | _, _ => mret ()
    end.

Definition type_checker_warn_recv_buffer_bounds (function_name : string) (arguments : list ASTNode) : TM () :=
  reporting
    match String.eqb function_name "recv", arguments with
    | true, _ :: buffer :: len :: _ =>
        extents ← gets tracked_buffer_extents;
        match type_checker_extract_identifier_name buffer with
        | None => mret ()
        | Some buffer_name =>
            match type_checker_buffer_extent_find extents buffer_name with
            | None => mret ()
            | Some fact =>
                if (byte_count fact <? 0)%Z then mret ()
                else
                  recv_len ← integer_constant len;
                  match recv_len with
                  | None => mret ()
                  | Some recv_len =>
                      if (byte_count fact <? recv_len)%Z then
                        warn (ast_location len)
                          ("recv length " +:+ lld recv_len +:+ " exceeds tracked allocation " +:+
                           lld (byte_count fact) +:+ " bytes for '" +:+ buffer_name +:+ "'")
                      else mret ()
                  end
            end
        end
    | _, _ => mret ()
    end.

Definition type_checker_warn_memcpy_buffer_bounds (function_name : string) (arguments : list ASTNode) : TM () :=
  reporting
    match is_one_of ["memcpy"; "memmove"]%string function_name, arguments with
    | true, dst :: src :: len :: _ =>
        copy_len ← integer_constant len;
        match copy_len with
        | None => mret ()
        | Some copy_len =>
            if (copy_len <? 0)%Z then mret ()
            else
              dst_extent ← reads (λ c, type_checker_extract_known_buffer_extent (tracked_buffer_extents c) dst);
              src_extent ← reads (λ c, type_checker_extract_known_buffer_extent (tracked_buffer_extents c) src);
              let exceeds (what : string) (extent : Z) :=
                if (0 <=? extent)%Z && (extent <? copy_len)%Z then
                  warn (ast_location len)
                    (function_name +:+ " length " +:+ lld copy_len +:+ " exceeds known " +:+ what +:+ " extent " +:+
                     lld extent +:+ " bytes")
                else mret () in
              exceeds "destination"%string dst_extent ;;
              exceeds "source"%string src_extent
        end
    | _, _ => mret ()
    end.

Section expressions.
Context (get : string → TM (option tid)) (infer : path → ASTNode → TM (option tid)).

(** Continue with the type of a sub-expression, or give up: its error is reported. *)
Definition with_type (p : path) (e : ASTNode) (k : tid → TM (option tid)) : TM (option tid) :=
  t ← infer p e; match t with Some t => k t | None => mret None end.

(** ** Names *)

(** [symbol->scope && symbol->scope->type != SCOPE_GLOBAL]. *)
Definition in_local_scope (x : Symbol) : TM bool :=
  match sscope x with
  | None => mret false
  | Some d =>
      sc ← reads (λ c, reverse (scopes (symbol_table c)) !! d);
      mret match scope_type sc with SCOPE_GLOBAL => false | _ => true end
  end.

Definition is_variable (x : Symbol) : bool :=
  match skind x with SYMBOL_VARIABLE | SYMBOL_PARAMETER => true | _ => false end.

Definition infer_identifier (loc : location) (name : string) : TM (option tid) :=
  s ← lookup_symbol name;
  match s with
  | None => type_checker_report_undefined_symbol loc name "variable" ;; mret None
  | Some x =>
      f ← gets current_function;
      local ← (if bool_decide (is_Some f) && is_variable x then in_local_scope x else mret false);
      if local : bool then
        skip ← match stype x with
               | Some t => ty ← deref t; mret match kind ty with TYPE_ARRAY | TYPE_STRUCT | TYPE_STRING => true | _ => false end
               | None => mret false
               end;
        vars ← gets tracked_vars;
        match skip, type_checker_init_tracker_is_initialized vars name with
        | false, Some false => error_at loc ("Variable '" +:+ name +:+ "' may be used before initialization")
        | _, _ => mret (stype x)
        end
      else mret (stype x)
  end.

(** ** Operators *)

Definition function_pointer_to (x : Symbol) : TM tid :=
  void ← builtin builtin_void;
  let f := function x in
  let result := match return_type f with Some r => r | None => void end in
  new_type (type_create_function_pointer (map (parameter_type x) (seq 0 (parameter_count f))) (Some result)).

(** The function an operand names. *)
Definition named_function (operand : ASTNode) : TM (option Symbol) :=
  match operand with
  | AST_IDENTIFIER _ name =>
      s ← lookup_symbol name;
      mret match s with
           | Some x => if decide (skind x = SYMBOL_FUNCTION) then Some x else None
           | None => None
           end
  | _ => mret None
  end.

Definition pointer_to_name (loc : location) (name : string) : TM (option tid) :=
  t ← get (name +:+ "*")%string;
  match t with
  | Some t => mret (Some t)
  | None => error_at loc "Failed to resolve pointer type"
  end.

Definition infer_address_of (p : path) (loc : location) (operand : ASTNode) : TM (option tid) :=
  f ← named_function operand;
  match f with
  | Some x => t ← function_pointer_to x; mret (Some t)
  | None =>
      if negb (type_checker_is_lvalue_expression operand) then
        error_at (ast_location operand) "Address-of operator requires an assignable expression"
      else with_type (0 :: p) operand (λ t, ty ← deref t; pointer_to_name loc (name_or "unknown" ty))
  end.

Definition infer_dereference (p : path) (loc : location) (operand : ASTNode) : TM (option tid) :=
  with_type (0 :: p) operand (λ t,
    null ← is_null_pointer_constant operand;
    if null : bool then error_at loc "Null pointer dereference"
    else
      ty ← deref t;
      match kind ty, base_type ty with
      | TYPE_POINTER, Some b => mret (Some b)
      | _, _ => error_at loc "Dereference operator requires a pointer operand"
      end).

Definition infer_unary (p : path) (loc : location) (o : string) (operand : ASTNode) : TM (option tid) :=
  if String.eqb o "&" then infer_address_of p loc operand
  else if String.eqb o "*" then infer_dereference p loc operand
  else with_type (0 :: p) operand (λ t,
    ty ← deref t;
    let expects (ok : bool) (what : string) (result : tid) :=
      if ok then mret (Some result) else mismatch (ast_location operand) (Some what) (tname ty) in
    if is_one_of ["+"; "-"]%string o then expects (type_checker_is_numeric_type ty) "numeric type"%string t
    else if String.eqb o "~" then expects (type_checker_is_integer_type ty) "integer type"%string t
    else if String.eqb o "!" then
      int32 ← builtin builtin_int32;
      expects (type_checker_is_numeric_type ty || is_kind TYPE_POINTER ty) "numeric or pointer type"%string int32
    else error_at loc ("Unsupported unary operator '" +:+ o +:+ "'")).

(** The operands of a binary operator, with their types. *)
Record operands : Type := mkOperands { bo_left : ASTNode; bo_right : ASTNode; bo_lt : tid; bo_rt : tid; bo_l : Type_; bo_r : Type_ }.

(** Both operands pass the test, or the first that does not is reported. *)
Definition both (test : Type_ → bool) (what : string) (b : operands) (k : TM (option tid)) : TM (option tid) :=
  if negb (test (bo_l b)) then mismatch (ast_location (bo_left b)) (Some what) (tname (bo_l b))
  else if negb (test (bo_r b)) then mismatch (ast_location (bo_right b)) (Some what) (tname (bo_r b))
  else k.

Definition promoted (o : string) (b : operands) : TM (option tid) :=
  t ← promote_types (bo_lt b) (bo_rt b) o; mret (Some t).

Definition pointer_arithmetic (loc : location) (o : string) (b : operands) : TM (option tid) :=
  let lp := is_kind TYPE_POINTER (bo_l b) in
  let rp := is_kind TYPE_POINTER (bo_r b) in
  let li := type_checker_is_integer_type (bo_l b) in
  let ri := type_checker_is_integer_type (bo_r b) in
  let failed :=
    error_at loc "Pointer arithmetic requires pointer +/- integer or pointer - pointer of same type" in
  if lp && ri then mret (Some (bo_lt b))
  else if String.eqb o "+" then if rp && li then mret (Some (bo_rt b)) else failed
  else if lp && rp then
    same ← types_equal (bo_lt b) (bo_rt b);
    if same : bool then t ← builtin builtin_int64; mret (Some t) else failed
  else failed.

Definition cannot_compare (loc : location) (b : operands) : TM (option tid) :=
  l ← printed (tname (bo_l b));
  r ← printed (tname (bo_r b));
  error_at loc (snprintf 512 ("Cannot compare '" +:+ l +:+ "' with '" +:+ r +:+ "'")).

(** Of [==] and [!=] between pointers: the same type, or one a null pointer constant. *)
Definition pointer_comparison (loc : location) (o : string) (b : operands) : TM (option tid) :=
  let lp := is_kind TYPE_POINTER (bo_l b) in
  let rp := is_kind TYPE_POINTER (bo_r b) in
  if negb (is_one_of ["=="; "!="]%string o) then error_at loc "Pointer ordering comparisons are not supported"
  else
    left_is_null ← is_null_pointer_constant (bo_left b);
    right_is_null ← is_null_pointer_constant (bo_right b);
    same ← (if lp && rp then types_equal (bo_lt b) (bo_rt b) else mret false);
    if same || (lp && right_is_null) || (rp && left_is_null)
    then t ← builtin builtin_bool; mret (Some t)
    else cannot_compare loc b.

Definition arithmetic_operation (o : string) (b : operands) : TM (option tid) :=
  both type_checker_is_numeric_type "numeric type" b
    (if String.eqb o "%" then both type_checker_is_integer_type "integer type" b (promoted o b) else promoted o b).

Definition comparison (loc : location) (o : string) (b : operands) : TM (option tid) :=
  if is_kind TYPE_POINTER (bo_l b) || is_kind TYPE_POINTER (bo_r b) then pointer_comparison loc o b
  else
    compatible ← are_compatible (bo_lt b) (bo_rt b);
    if compatible : bool then t ← builtin builtin_bool; mret (Some t) else cannot_compare loc b.

Definition binary_operation (loc : location) (o : string) (b : operands) : TM (option tid) :=
  bi ← gets builtins;
  if String.eqb o "+" && (bo_lt b =? builtin_string bi)%positive && (bo_rt b =? builtin_string bi)%positive
  then mret (Some (builtin_string bi))
  else if is_one_of ["+"; "-"]%string o && (is_kind TYPE_POINTER (bo_l b) || is_kind TYPE_POINTER (bo_r b))
  then pointer_arithmetic loc o b
  else if is_arithmetic o then arithmetic_operation o b
  else if is_bitwise o then both type_checker_is_integer_type "integer type" b (promoted o b)
  else if is_comparison o then comparison loc o b
  else if is_logical o then
    both (λ t, type_checker_is_numeric_type t || is_kind TYPE_BOOL t) "bool or numeric type" b
      (mret (Some (builtin_bool bi)))
  else error_at loc (snprintf 512 ("Unknown binary operator '" +:+ o +:+ "'")).

(** Both operands are inferred before either is looked at. *)
Definition type_checker_check_binary_expression (p : path) (loc : location) (o : string) (l r : ASTNode)
    : TM (option tid) :=
  left_type ← infer (0 :: p) l;
  right_type ← infer (1 :: p) r;
  match left_type, right_type with
  | Some lt, Some rt =>
      tl ← deref lt;
      tr ← deref rt;
      binary_operation loc o (mkOperands l r lt rt tl tr)
  | _, _ => mret None
  end.

(** ** Calls *)

(** The arguments from the [i]-th on are inferred and matched in order; the child of the
    first is [first].  A null pointer constant passes for any pointer. *)
Fixpoint check_arguments (p : path) (first i : nat) (arguments : list ASTNode) (param : nat → option (option tid))
    : TM bool :=
  match arguments with
  | [] => mret true
  | a :: arguments =>
      t ← infer (first + i :: p) a;
      match t with
      | None => mret false
      | Some arg_type =>
          param_type ← reads (λ _, param i);
          is_pointer ← match param_type with
                       | Some q => ty ← deref q; mret (is_kind TYPE_POINTER ty)
                       | None => mret false
                       end;
          is_null ← (if is_pointer : bool then is_null_pointer_constant a else mret false);
          ok ← (if is_null : bool then mret true else is_assignable param_type (Some arg_type));
          if ok : bool then check_arguments p first (S i) arguments param
          else
            q ← reads (λ _, param_type);
            expected ← deref q;
            actual ← deref arg_type;
            type_checker_report_type_mismatch (ast_location a) (tname expected) (tname actual) ;;
            mret false
      end
  end.

Definition expects_arguments (expected got : nat) : string :=
  " expects " +:+ lld (Z.of_nat expected) +:+ " arguments, got " +:+ lld (Z.of_nat got).

(** A value of a type of function pointers is called. *)
Definition call_pointer (p : path) (loc : location) (first : nat) (arguments : list ASTNode) (ty : Type_)
    : TM (option tid) :=
  if negb (length arguments =? length (fn_param_types ty)) then
    error_at loc ("Function pointer" +:+ expects_arguments (length (fn_param_types ty)) (length arguments))
  else
    ok ← check_arguments p first 0 arguments (λ i, fn_param_types ty !! i);
    mret (if ok : bool then fn_return_type ty else None).

Definition call_constructor (p : path) (loc : location) (name : string) (first : nat) (arguments : list ASTNode)
    (d : ConstructorData) : TM (option tid) :=
  let expected := match payload_type d with Some _ => 1 | None => 0 end in
  if negb (length arguments =? expected) then
    error_at loc ("Constructor '" +:+ name +:+ "'" +:+ expects_arguments expected (length arguments))
  else
    match payload_type d, arguments with
    | Some payload, [a] =>
        with_type (first :: p) a (λ t,
          ok ← is_assignable (Some payload) (Some t);
          if ok : bool then mret (enum_type d)
          else
            pt ← deref payload;
            at_ ← deref t;
            mismatch (ast_location a) (tname pt) (tname at_))
    | _, _ => mret (enum_type d)
    end.

Definition call_function (p : path) (loc : location) (name : string) (first : nat) (arguments : list ASTNode)
    (x : Symbol) : TM (option tid) :=
  let f := function x in
  if negb (length arguments =? parameter_count f) then
    error_at loc ("Function '" +:+ name +:+ "'" +:+ expects_arguments (parameter_count f) (length arguments))
  else
    ok ← check_arguments p first 0 arguments (λ i, parameter_types f ≫= (.!! i));
    if ok : bool then
      type_checker_warn_recv_buffer_bounds name arguments ;;
      type_checker_warn_memcpy_buffer_bounds name arguments ;;
      mret (return_type f)
    else mret None.

Definition is_callable_variable (x : Symbol) : TM (option Type_) :=
  match skind x, stype x with
  | SYMBOL_VARIABLE, Some t => ty ← deref t; mret (if is_kind TYPE_FUNCTION_POINTER ty then Some ty else None)
  | _, _ => mret None
  end.

Definition call_symbol (p : path) (loc : location) (name : string) (first : nat) (arguments : list ASTNode)
    : TM (option tid) :=
  s ← lookup_symbol name;
  match s with
  | None => type_checker_report_undefined_symbol loc name "function" ;; mret None
  | Some x =>
      variable ← is_callable_variable x;
      match variable with
      | Some ty =>
          modify (λ c, set_nodes (resolved_types c) (method_calls c) ({[ p ]} ∪ indirect_calls c) c) ;;
          call_pointer p loc first arguments ty
      | None =>
          match skind x with
          | SYMBOL_TAGGED_ENUM_CONSTRUCTOR => call_constructor p loc name first arguments (constructor x)
          | SYMBOL_FUNCTION => call_function p loc name first arguments x
          | k =>
              let symbol_type := match k with SYMBOL_VARIABLE => "variable" | SYMBOL_STRUCT => "struct" | _ => "symbol" end in
              error_at loc (snprintf 512 ("'" +:+ name +:+ "' is a " +:+ symbol_type +:+ ", not a function"))
          end
      end
  end.

(** The struct a method is called on. *)
Definition type_checker_method_receiver_struct_type (receiver : option tid) : TM (option Type_) :=
  match receiver with
  | None => mret None
  | Some t =>
      ty ← deref t;
      match kind ty, base_type ty with
      | TYPE_STRUCT, _ => mret (Some ty)
      | TYPE_POINTER, Some b => base ← deref b; mret (if is_kind TYPE_STRUCT base then Some base else None)
      | _, _ => mret None
      end
  end.

(** The name of the function a method call becomes, the receiver its first argument. *)
Definition type_checker_desugar_struct_method_call (p : path) (loc : location) (function_name : string)
    (object : ASTNode) : TM (option string) :=
  receiver_type ← infer (0 :: p) object;
  struct_type ← type_checker_method_receiver_struct_type receiver_type;
  match struct_type ≫= tname with
  | None =>
      receiver_name ← match receiver_type with
                      | Some t => ty ← deref t; mret (name_or "unknown" ty)
                      | None => mret "unknown"%string
                      end;
      error_at loc ("Method call receiver must be a struct or pointer-to-struct, got '" +:+ receiver_name +:+ "'")
  | Some struct_name =>
      let mangled_name := (struct_name +:+ "_" +:+ function_name)%string in
      s ← lookup_name mangled_name;
      match s with
      | None =>
          error_at loc ("Undefined method '" +:+ struct_name +:+ "." +:+ function_name +:+ "' (expected function '" +:+
                        mangled_name +:+ "')")
      | Some _ =>
          modify (λ c, set_nodes (resolved_types c) (<[p := mangled_name]> (method_calls c)) (indirect_calls c) c) ;;
          mret (Some mangled_name)
      end
  end.

Definition resolve_sizeof_argument (loc : location) (arguments : list ASTNode) : TM (option tid) :=
  match arguments with
  | [AST_IDENTIFIER l name] =>
      t ← get name;
      match t with
      | Some t => mret (Some t)
      | None => error_at l ("Unknown type '" +:+ name +:+ "' in sizeof")
      end
  | [AST_NO_DATA T_IDENTIFIER l] => error_at l "Unknown type '<invalid>' in sizeof"
  | [_] => error_at loc "sizeof expects a type name"
  | _ => error_at loc "sizeof expects exactly one type argument"
  end.

(** With a checker, names stand for constants and [sizeof] for a size. *)
Definition constant_identifier (name : string) : TM (option Z) :=
  s ← lookup_symbol name;
  mret match s with
       | Some x => if decide (skind x = SYMBOL_CONSTANT) then Some (constant_value x) else None
       | None => None
       end.
Definition constant_call (call : CallExpression ASTNode) : TM (option Z) :=
  if String.eqb (ce_function_name call) "sizeof" then
    match ce_arguments call with
    | [AST_IDENTIFIER _ name] =>
        t ← get name;
        match t with
        | Some t => ty ← deref t; mret (if (INT64_MAX <? size ty)%Z then None else Some (size ty))
        | None => mret None
        end
    | _ => mret None
    end
  else mret None.
Definition type_checker_eval_integer_constant_with_checker : ASTNode → TM (option Z) :=
  eval_integer_constant undefined constant_identifier constant_call.

Definition type_checker_validate_static_assert (loc : location) (arguments : list ASTNode) : TM (option tid) :=
  match arguments with
  | [condition] =>
      v ← type_checker_eval_integer_constant_with_checker condition;
      match v with
      | None => error_at (ast_location condition) "static_assert condition must be a compile-time integer expression"
      | Some v => if (v =? 0)%Z then error_at loc "static_assert failed" else void ← builtin builtin_void; mret (Some void)
      end
  | _ => error_at loc "static_assert expects exactly one condition"
  end.

(** The children of a call: the object at 0, the arguments from 1 on.  A call rewritten
    before has the object as its first argument and the name it was given. *)
Definition infer_call (p : path) (loc : location) (call : CallExpression ASTNode) : TM (option tid) :=
  rewritten ← gets (λ c, method_calls c !! p);
  let name := match rewritten with Some n => n | None => ce_function_name call end in
  let arguments := match rewritten, ce_object call with
                   | Some _, Some o => o :: ce_arguments call
                   | _, _ => ce_arguments call
                   end in
  let object := match rewritten with Some _ => None | None => ce_object call end in
  let first := match rewritten, ce_object call with Some _, Some _ => 0 | _, _ => 1 end in
  if String.eqb name "sizeof" then
    t ← resolve_sizeof_argument loc arguments;
    int64 ← builtin builtin_int64;
    mret (match t with Some _ => Some int64 | None => None end)
  else if String.eqb name "static_assert" then type_checker_validate_static_assert loc arguments
  else
    match object with
    | None => call_symbol p loc name first arguments
    | Some o =>
        mangled ← type_checker_desugar_struct_method_call p loc name o;
        match mangled with
        | Some mangled => call_symbol p loc mangled 0 (o :: arguments)
        | None => mret None
        end
    end.

Definition infer_func_ptr_call (p : path) (loc : location) (callee : ASTNode) (arguments : list ASTNode)
    : TM (option tid) :=
  with_type (0 :: p) callee (λ t,
    ty ← deref t;
    ty ← (if is_kind TYPE_FUNCTION_POINTER ty then mret ty
          else
            f ← named_function callee;
            match f with
            | Some x => t ← function_pointer_to x; deref t
            | None => mret ty
            end);
    if negb (is_kind TYPE_FUNCTION_POINTER ty) then error_at loc "Cannot call non-function-pointer expression"
    else call_pointer p loc 1 arguments ty).

(** ** Members, elements and the rest *)

Definition infer_member (p : path) (loc : location) (object : ASTNode) (member : string) : TM (option tid) :=
  with_type (0 :: p) object (λ t,
    ty ← deref t;
    n ← (if has_fields ty && bool_decide (is_Some (type_get_field_type ty member)) then mret EmptyString
         else printed (tname ty));
    if has_fields ty then
      match type_get_field_type ty member with
      | Some f => mret (Some f)
      | None => error_at loc (snprintf 512 ("Field '" +:+ member +:+ "' not found in type '" +:+ n +:+ "'"))
      end
    else error_at loc (snprintf 512 ("Cannot access field on non-struct type '" +:+ n +:+ "'"))).

(** A constant index is checked against the size of an array. *)
Definition index_in_bounds (index : ASTNode) (array : Type_) : TM (option Z) :=
  v ← integer_constant index;
  mret match v with
       | Some v => if (v <? 0)%Z || (array_size array <=? v)%Z then Some v else None
       | None => None
       end.

Definition element_of (loc : location) (array index : ASTNode) (ty : Type_) : TM (option tid) :=
  match base_type ty with
  | None => error_at loc "Indexed type has no element type"
  | Some b =>
      null ← (if is_kind TYPE_POINTER ty then is_null_pointer_constant array else mret false);
      if null : bool then error_at (ast_location array) "Null pointer dereference"
      else
        outside ← (if is_kind TYPE_ARRAY ty then index_in_bounds index ty else mret None);
        match outside with
        | Some v =>
            error_at (ast_location index)
              ("Array index " +:+ lld v +:+ " is out of bounds for '" +:+ name_or "array" ty +:+ "' (size " +:+
               lld (array_size ty) +:+ ")")
        | None => mret (Some b)
        end
  end.

Definition infer_index (p : path) (loc : location) (array index : ASTNode) : TM (option tid) :=
  with_type (0 :: p) array (λ t, with_type (1 :: p) index (λ u,
    ty ← deref t;
    index_type ← deref u;
    if negb (type_checker_is_integer_type index_type) then
      mismatch (ast_location index) (Some "integer type"%string) (tname index_type)
    else
      match kind ty with
      | TYPE_ARRAY | TYPE_POINTER => element_of loc array index ty
      | _ => n ← printed (tname ty); error_at loc ("Cannot index non-array type '" +:+ n +:+ "'")
      end)).

Definition infer_new (loc : location) (type_name : string) : TM (option tid) :=
  s ← lookup_symbol type_name;
  match s with
  | Some x =>
      if decide (skind x = SYMBOL_STRUCT) then pointer_to_name loc type_name
      else error_at loc (snprintf 512 ("Struct type '" +:+ type_name +:+ "' not found for allocation"))
  | None => error_at loc (snprintf 512 ("Struct type '" +:+ type_name +:+ "' not found for allocation"))
  end.

Definition infer_cast (p : path) (loc : location) (type_name : string) (operand : ASTNode) : TM (option tid) :=
  target ← get type_name;
  match target with
  | None => error_at loc "Unknown target type for cast"
  | Some target_type =>
      with_type (0 :: p) operand (λ t,
        valid ← is_cast_valid t target_type;
        from ← deref t;
        to ← deref target_type;
        if negb valid then
          f ← printed (tname from);
          g ← printed (tname to);
          error_at loc (snprintf 512 ("Cannot cast from type '" +:+ f +:+ "' to type '" +:+ g +:+ "'"))
        else
          type_checker_warn_potential_misaligned_cast loc operand to ;;
          mret (Some target_type))
  end.

(** ** Match expressions *)

(** The place of a variant. *)
Fixpoint variant_index (names : list string) (name : string) : option nat :=
  match names with
  | [] => None
  | n :: names => if String.eqb n name then Some 0 else S <$> variant_index names name
  end.

(** The payload an arm binds, after its checks, and the variants covered then. *)
Definition match_arm_variant (loc : location) (subject : Type_) (covered : list nat) (arm : MatchArm ASTNode)
    : TM (option (option tid * list nat)) :=
  if ma_is_default arm then mret (Some (None, covered))
  else
    match variant_index (tagged_variant_names subject) (ma_variant_name arm) with
    | None =>
        n ← printed (tname subject);
        error_at loc ("Unknown variant '" +:+ ma_variant_name arm +:+ "' for type '" +:+ n +:+ "' in match")
    | Some v =>
        if bool_decide (v ∈ covered) then
          error_at loc ("Duplicate match arm for variant '" +:+ ma_variant_name arm +:+ "'")
        else
          match ma_binding_name arm with
          | None => mret (Some (None, v :: covered))
          | Some binding =>
              payload ← reads (λ _, tagged_variant_payloads subject !! v);
              match payload with
              | Some payload => mret (Some (Some payload, v :: covered))
              | None =>
                  error_at loc ("Variant '" +:+ ma_variant_name arm +:+ "' carries no payload but binding '" +:+ binding +:+
                                "' was given")
              end
          end
    end.

Definition enter_binding (name : string) (payload : tid) : TM () :=
  modify (λ c, set_table (symbol_table_enter_scope (symbol_table c) SCOPE_BLOCK) (next_symbol c) c) ;;
  s ← new_symbol (set_initialized true (symbol_create name SYMBOL_VARIABLE (Some payload)));
  r ← reads (λ c, symbol_table_declare (Pos.to_nat (next_type c)) (types c) alloc_succeeds (symbol_table c) s);
  modify (λ c, set_table r.2 (next_symbol c) c).

Definition exit_binding : TM () :=
  modify (λ c, set_table (symbol_table_exit_scope (symbol_table c)) (next_symbol c) c).

(** The arms in order, the [i]-th being the child [S i]: the result type and the variants
    covered, and whether a default was seen. *)
Fixpoint match_arms (p : path) (loc : location) (subject : Type_) (i : nat) (arms : list (MatchArm ASTNode))
    (result : option tid) (covered : list nat) (default : bool) : TM (option (option tid * list nat * bool)) :=
  match arms with
  | [] => mret (Some (result, covered, default))
  | arm :: arms =>
      checked ← match_arm_variant loc subject covered arm;
      match checked with
      | None => mret None
      | Some (payload, covered) =>
          let default := default || ma_is_default arm in
          t ← match payload, ma_binding_name arm with
              | Some payload, Some binding =>
                  enter_binding binding payload ;;
                  t ← infer (S i :: p) (ma_body arm);
                  exit_binding ;;
                  mret t
              | _, _ => infer (S i :: p) (ma_body arm)
              end;
          match t, result with
          | None, _ => mret None
          | Some arm_type, None => match_arms p loc subject (S i) arms (Some arm_type) covered default
          | Some arm_type, Some result_type =>
              same ← are_compatible result_type arm_type;
              if same : bool then match_arms p loc subject (S i) arms (Some result_type) covered default
              else
                r ← deref result_type;
                a ← deref arm_type;
                error_at (ast_location (ma_body arm))
                  ("match arms have incompatible types: '" +:+ name_or "?" r +:+ "' vs '" +:+ name_or "?" a +:+ "'")
          end
      end
  end.

(** The first variant without an arm. *)
Definition uncovered (subject : Type_) (covered : list nat) : option string :=
  v ← List.find (λ v, negb (bool_decide (v ∈ covered))) (seq 0 (length (tagged_variant_names subject)));
  tagged_variant_names subject !! v.

Definition type_checker_check_match_expression (p : path) (loc : location) (expression : ASTNode)
    (arms : list (MatchArm ASTNode)) : TM (option tid) :=
  with_type (0 :: p) expression (λ t,
    subject ← deref t;
    if negb (is_kind TYPE_TAGGED_ENUM subject) then
      n ← printed (tname subject);
      error_at (ast_location expression) ("match expression must be a tagged enum type, got '" +:+ n +:+ "'")
    else
      r ← match_arms p loc subject 0 arms None [] false;
      match r with
      | None => mret None
      | Some (result, covered, default) =>
          match (if default : bool then None else uncovered subject covered), result with
          | Some variant, _ =>
              n ← printed (tname subject);
              error_at loc
                ("Non-exhaustive match expression on '" +:+ n +:+ "': variant '" +:+ variant +:+
                 "' not covered; add a 'case " +:+ variant +:+ ":' arm or a 'default:' arm")
          | None, Some result_type => mret (Some result_type)
          | None, None => error_at loc "match expression has no arms to determine a result type"
          end
      end).

(** ** The switch *)

(** A node without data: some cases test for it, the others read it. *)
Definition infer_no_data (t : ASTNodeType) (loc : location) : TM (option tid) :=
  match t with
  | T_STRING_LITERAL => s ← builtin builtin_string; mret (Some s)
  | T_UNARY_EXPRESSION => error_at loc "Invalid unary expression"
  | T_FUNC_PTR_CALL => error_at loc "Invalid function pointer call"
  | T_INDEX_EXPRESSION => error_at loc "Invalid array indexing expression"
  | T_NEW_EXPRESSION => error_at loc "Invalid 'new' expression"
  | T_CAST_EXPRESSION => error_at loc "Invalid cast expression"
  | T_MATCH_STATEMENT =>
      error_at loc "statement-form 'match' does not yield a value; use 'match (x) { case A: v, default: w }' expression form"
  | T_NUMBER_LITERAL | T_IDENTIFIER | T_FUNCTION_CALL | T_MEMBER_ACCESS => undefined
  | _ => mret None
  end.

Definition type_checker_infer_type_internal (p : path) (expression : ASTNode) : TM (option tid) :=
  match expression with
  | AST_NUMBER_LITERAL _ (FloatLiteral _) => t ← builtin builtin_float64; mret (Some t)
  | AST_NUMBER_LITERAL _ (IntLiteral v radix) =>
      t ← builtin (λ b, type_checker_default_integer_literal_type b v radix); mret (Some t)
  | AST_STRING_LITERAL _ _ => t ← builtin builtin_string; mret (Some t)
  | AST_IDENTIFIER loc name => infer_identifier loc name
  | AST_BINARY_EXPRESSION loc o l r => type_checker_check_binary_expression p loc o l r
  | AST_UNARY_EXPRESSION loc o operand => infer_unary p loc o operand
  | AST_FUNCTION_CALL loc call => infer_call p loc call
  | AST_FUNC_PTR_CALL loc callee arguments => infer_func_ptr_call p loc callee arguments
  | AST_MEMBER_ACCESS loc object member => infer_member p loc object member
  | AST_INDEX_EXPRESSION loc array index => infer_index p loc array index
  | AST_ASSIGNMENT _ _ _ value => infer (0 :: p) value
  | AST_NEW_EXPRESSION loc type_name => infer_new loc type_name
  | AST_CAST_EXPRESSION loc type_name operand => infer_cast p loc type_name operand
  | AST_MATCH_STATEMENT loc e arms is_expression =>
      if is_expression : bool then type_checker_check_match_expression p loc e arms
      else
        error_at loc "statement-form 'match' does not yield a value; use 'match (x) { case A: v, default: w }' expression form"
  | AST_NO_DATA t loc => infer_no_data t loc
  | _ => mret None
  end.

(** The type found before, or the type found now, which the node keeps. *)
Definition infer_type_step (p : path) (expression : ASTNode) : TM (option tid) :=
  known ← gets (λ c, resolved_types c !! p);
  match known with
  | Some t => mret (Some t)
  | None =>
      t ← type_checker_infer_type_internal p expression;
      match t with
      | Some t => modify (λ c, set_nodes (<[p := t]> (resolved_types c)) (method_calls c) (indirect_calls c) c)
      | None => mret ()
      end ;;
      mret t
  end.
End expressions.

(** [fuel]: the height of the tree; [names]: what a name needs for its type. *)
Fixpoint type_checker_infer_type (fuel : nat) (names : string → nat) (p : path) (expression : ASTNode) : TM (option tid) :=
  match fuel with
  | O => out_of_fuel
  | S fuel =>
      infer_type_step (λ name, type_checker_get_type_by_name (names name) name) (type_checker_infer_type fuel names)
        p expression
  end.

(** ** Creation *)

Definition sized (k : TypeKind) (name : string) (sz al : Z) (base : option tid) : Type_ :=
  mkType k (Some name) sz al base 0 [] None [] [] [] [] [] [] 0 0.

Definition truth_symbol (name : string) (t : tid) (v : Z) : Symbol :=
  mkSymbol name SYMBOL_CONSTANT (Some t) None true false false None no_function no_variable v no_constructor.

Definition set_builtins (b : Builtins) (c : TypeChecker) : TypeChecker :=
  mkChecker (symbol_table c) (next_symbol c) (types c) (next_type c) (tc_has_error c) (tc_error_message c)
    (tc_error_reporter c) b (generic_enum_templates c) (current_function c) (tracked_vars c) (tracked_buffer_extents c)
    (resolved_types c) (method_calls c) (indirect_calls c).

Definition type_checker_init_builtin_types : TM () :=
  i8 ← new_type (type_create TYPE_INT8 (Some "int8"%string));
  i16 ← new_type (type_create TYPE_INT16 (Some "int16"%string));
  i32 ← new_type (type_create TYPE_INT32 (Some "int32"%string));
  i64 ← new_type (type_create TYPE_INT64 (Some "int64"%string));
  u8 ← new_type (type_create TYPE_UINT8 (Some "uint8"%string));
  u16 ← new_type (type_create TYPE_UINT16 (Some "uint16"%string));
  u32 ← new_type (type_create TYPE_UINT32 (Some "uint32"%string));
  u64 ← new_type (type_create TYPE_UINT64 (Some "uint64"%string));
  boolean ← new_type (sized TYPE_BOOL "bool" 1 1 None);
  f32 ← new_type (type_create TYPE_FLOAT32 (Some "float32"%string));
  f64 ← new_type (type_create TYPE_FLOAT64 (Some "float64"%string));
  cstring ← new_type (sized TYPE_POINTER "cstring" 8 8 (Some u8));
  characters ← new_type (sized TYPE_POINTER "uint8*" 8 8 (Some u8));
  text ← new_type (mkType TYPE_STRING (Some "string"%string) 16 8 None 0 [] None ["chars"; "length"]%string
                     [characters; u64] [0; 8]%Z [] [] [] 0 0);
  void ← new_type (sized TYPE_VOID "void" 0 1 None);
  modify (set_builtins (mkBuiltins i8 i16 i32 i64 u8 u16 u32 u64 boolean f32 f64 text cstring void)) ;;
  insert_symbol (truth_symbol "true" boolean 1) ;;
  insert_symbol (truth_symbol "false" boolean 0).

(** Before the built-in types exist their fields are NULL; no other field is read then. *)
Definition empty_checker (t : SymbolTable) (next : sid) (r : option ErrorReporter) : TypeChecker :=
  mkChecker t next ∅ 1 false None r (mkBuiltins 1 1 1 1 1 1 1 1 1 1 1 1 1 1) [] None [] [] ∅ ∅ ∅.

Definition type_checker_create_with_error_reporter (t : SymbolTable) (next : sid) (r : option ErrorReporter)
    : checked exhausted TypeChecker :=
  '(_, c) ← type_checker_init_builtin_types (empty_checker t next r);
  Done c.
