(* ===== verification/TypeExprFacts.v ===== *)
(** * Typing rules

    The relations between types that the checker tests, and that its tests decide them; then
    the typing rules: a judgement over the names in scope and the store of types, without
    the checker's state, errors, fuel, cached types or order of tests. *)

From stdpp Require Import gmap.
From S2P Require Import Prelude.
From S2P Require Import Outcome.
From S2P Require Import Ast.
From S2P Require Import ErrorReporter.
From S2P Require Import Types.
From S2P Require Import TypesFacts.
From S2P Require Import SymbolTable.
From S2P Require Import SymbolTableFacts.
From S2P Require Import TypeRules.
From S2P Require Import TypeNames.
From S2P Require Import TypeNamesFacts.
From S2P Require Import TypeExpr.

(** ** Relations between types *)

Section relations.
Context (ts : type_store).

Definition has_kind (k : TypeKind) (t : tid) : Prop := ∃ ty, ts !! t = Some ty ∧ kind ty = k.
Definition such (test : Type_ → bool) (t : tid) : Prop := ∃ ty, ts !! t = Some ty ∧ test ty = true.
Abbreviation integer := (such type_checker_is_integer_type).
Abbreviation floating := (such type_checker_is_floating_type).
Abbreviation numeric := (such type_checker_is_numeric_type).
Definition points_to (t u : tid) : Prop := ∃ ty, ts !! t = Some ty ∧ kind ty = TYPE_POINTER ∧ base_type ty = Some u.
Definition same (t u : tid) : Prop := compatible ts (Some t) (Some u).

(** Numbers convert to numbers, but not floats to integers. *)
Definition converts (from to : tid) : Prop := numeric to ∧ (integer from ∨ floating from ∧ floating to).

Definition comparable (t u : tid) : Prop := same t u ∨ converts t u ∨ converts u t.

Inductive assignable : tid → tid → Prop :=
  | assignable_same d s : same d s → assignable d s
  | assignable_text d s : such type_checker_is_cstring_type d → has_kind TYPE_STRING s → assignable d s
  | assignable_bytes d s b :
      such type_checker_is_cstring_type d → points_to s b → such (is_named "int8") b → assignable d s
  | assignable_decay d s t u ty :
      points_to d t → ts !! s = Some ty → kind ty = TYPE_ARRAY → base_type ty = Some u → same t u → assignable d s
  | assignable_number d s : converts s d → assignable d s.

(** Integers and pointers of both sorts convert to each other, and numbers do. *)
Definition word (t : tid) : Prop := integer t ∨ such is_pointer_like t.
Definition castable_to (from to : tid) : Prop := same from to ∨ (numeric from ∧ numeric to) ∨ (word from ∧ word to).
End relations.

Abbreviation integer ts := (such ts type_checker_is_integer_type).
Abbreviation numeric ts := (such ts type_checker_is_numeric_type).

Section decisions.
Context (b : Builtins) (ts : type_store) (next : tid) (Hok : store_ok b ts next).
Abbreviation fuel := (Pos.to_nat next).

Definition older (t : tid) : nat := Nat.pred (Pos.to_nat t).

Lemma store_ranked : ranked ts older.
Proof.
  intros i ty c Hi Hc. pose proof (yk_shape _ _ _ (sk_types _ _ _ Hok i ty Hi)) as Hs.
  rewrite Forall_forall in Hs. destruct (Hs _ Hc) as (j & [= ->] & Hj & Hlt). split; [done|]. unfold older. lia.
Qed.

Lemma equal_spec t u : is_Some (ts !! t) → is_Some (ts !! u) →
  ∃ r, type_checker_types_equal fuel ts (Some t) (Some u) = Some r ∧ (r = true ↔ same ts t u).
Proof.
  intros Ht Hu. apply (types_compatible_decides ts older store_ranked); [done..|]. cbn. unfold older.
  destruct Ht as [ty Ht]. apply (sk_below _ _ _ Hok) in Ht. lia.
Qed.

Lemma such_spec test t ty : ts !! t = Some ty → such ts test t ↔ test ty = true.
Proof. intros Ht. split; [intros (ty' & Ht' & H); congruence|by exists ty]. Qed.

Lemma kind_spec k t ty : ts !! t = Some ty → has_kind ts k t ↔ kind ty = k.
Proof. intros Ht. split; [intros (ty' & Ht' & H); congruence|by exists ty]. Qed.

Lemma points_spec t u ty : ts !! t = Some ty → points_to ts t u ↔ kind ty = TYPE_POINTER ∧ base_type ty = Some u.
Proof. intros Ht. split; [intros (ty' & Ht' & H); congruence|intros []; by exists ty]. Qed.

Lemma converts_spec t u ty uy : ts !! t = Some ty → ts !! u = Some uy →
  converts ts t u ↔ type_checker_is_numeric_type uy = true ∧
    (type_checker_is_integer_type ty = true ∨ type_checker_is_floating_type ty = true ∧ type_checker_is_floating_type uy = true).
Proof.
  intros Ht Hu. unfold converts.
  pose proof (such_spec type_checker_is_integer_type t ty Ht). pose proof (such_spec type_checker_is_floating_type t ty Ht).
  pose proof (such_spec type_checker_is_numeric_type u uy Hu). pose proof (such_spec type_checker_is_floating_type u uy Hu). tauto.
Qed.

(** Numeric types of one kind are the same. *)
Lemma numeric_same t u ty uy : ts !! t = Some ty → ts !! u = Some uy → kind ty = kind uy →
  type_checker_is_numeric_type ty = true → same ts t u.
Proof.
  intros Ht Hu Hk Hn. apply (compat_scalar ts t u ty uy Ht Hu Hk).
  unfold type_checker_is_numeric_type, type_checker_is_integer_type, type_checker_is_floating_type in Hn. by destruct (kind ty).
Qed.

Lemma convertible_spec t u : is_Some (ts !! t) → is_Some (ts !! u) → ¬ same ts t u →
  ∃ r, type_checker_is_implicitly_convertible fuel ts t u = Some r ∧ (r = true ↔ converts ts t u).
Proof.
  intros Ht Hu Hns. destruct (equal_spec t u Ht Hu) as (r & Hr & Hiff). destruct Ht as [ty Ht], Hu as [uy Hu].
  unfold type_checker_is_implicitly_convertible. rewrite Ht, Hu. cbn. pose proof (converts_spec t u ty uy Ht Hu) as Hcs.
  destruct (decide (kind ty = kind uy)) as [Hk|Hk].
  - exists r. split; [done|]. rewrite Hcs, Hiff. split; [done|]. intros [Hn _]. exfalso. apply Hns.
    apply (numeric_same t u ty uy Ht Hu Hk). unfold type_checker_is_numeric_type, type_checker_is_integer_type, type_checker_is_floating_type in *.
    by rewrite Hk.
  - eexists. split; [done|]. by rewrite Hcs, andb_true_iff, orb_true_iff, andb_true_iff.
Qed.

Lemma compatible_numeric_kinds ty : is_pointer_array_struct ty = true → type_checker_is_numeric_type ty = false.
Proof. unfold is_pointer_array_struct, type_checker_is_numeric_type, type_checker_is_integer_type, type_checker_is_floating_type. by destruct (kind ty). Qed.

Lemma integer_numeric ty : type_checker_is_integer_type ty = true → type_checker_is_numeric_type ty = true.
Proof. unfold type_checker_is_numeric_type. by intros ->. Qed.
Lemma floating_numeric ty : type_checker_is_floating_type ty = true → type_checker_is_numeric_type ty = true.
Proof. unfold type_checker_is_numeric_type. intros ->. apply orb_true_r. Qed.

Lemma converts_numeric t u ty uy : ts !! t = Some ty → ts !! u = Some uy → converts ts t u →
  type_checker_is_numeric_type ty = true ∧ type_checker_is_numeric_type uy = true.
Proof.
  intros Ht Hu [Hn Ho]%(converts_spec t u ty uy Ht Hu). split; [|done].
  destruct Ho as [Hi|[Hf _]]; [by apply integer_numeric|by apply floating_numeric].
Qed.

Lemma comparable_spec t u : is_Some (ts !! t) → is_Some (ts !! u) →
  ∃ r, type_checker_are_compatible fuel ts t u = Some r ∧ (r = true ↔ comparable ts t u).
Proof.
  intros Ht Hu. destruct (equal_spec t u Ht Hu) as (r & Hr & Hiff). unfold type_checker_are_compatible. rewrite Hr. cbn.
  unfold comparable. destruct r; [exists true; split; [done|]; split; [intros _; left; by apply Hiff|done]|].
  assert (¬ same ts t u) as Hns by by rewrite <- Hiff.
  assert (¬ same ts u t) as Hns' by (intros H; apply Hns; unfold same in *; by symmetry).
  destruct (convertible_spec t u Ht Hu Hns) as (r1 & H1 & Hi1). destruct (convertible_spec u t Hu Ht Hns') as (r2 & H2 & Hi2).
  destruct Ht as [ty Ht], Hu as [uy Hu]. rewrite Ht, Hu. cbn.
  destruct (is_pointer_array_struct ty || is_pointer_array_struct uy) eqn:Hp.
  - exists false. split; [done|]. split; [done|]. intros [?|Hc]; [done|]. exfalso.
    assert (type_checker_is_numeric_type ty = true ∧ type_checker_is_numeric_type uy = true) as [? ?].
    { destruct Hc as [Hc|Hc]; [by apply (converts_numeric t u ty uy)|by apply and_comm, (converts_numeric u t uy ty)]. }
    apply orb_true_iff in Hp as [Hp|Hp]; apply compatible_numeric_kinds in Hp; congruence.
  - rewrite H1. cbn. destruct r1.
    + exists true. split; [done|]. split; [|done]. intros _. right; left. by apply Hi1.
    + exists r2. split; [done|]. rewrite Hi2. split; [intros; by right; right|]. intros [?|[Hc|?]]; [done| |done]. by apply Hi1 in Hc.
Qed.

(** Every integer is assigned to every floating type, and none the other way. *)
Lemma integer_to_floating d s : such ts type_checker_is_floating_type d → integer ts s → assignable ts d s.
Proof.
  intros (dy & Hd & Hf) Hs. apply assignable_number. split; [|by left]. exists dy. split; [done|].
  unfold type_checker_is_numeric_type. by rewrite Hf, orb_true_r.
Qed.

Lemma floating_to_integer d s : integer ts d → such ts type_checker_is_floating_type s → ¬ assignable ts d s.
Proof.
  intros (dy & Hd & Hi) (sy & Hs & Hf) Ha. unfold type_checker_is_integer_type in Hi. unfold type_checker_is_floating_type in Hf.
  destruct Ha as [d s Hsame|d s (dy' & Hd' & Hc) _|d s b' (dy' & Hd' & Hc) _ _|d s t u ty (dy' & Hd' & Hk & _)|d s [_ [(sy' & Hs' & Hi')|[_ (dy' & Hd' & Hf')]]]].
  - assert (kind dy ≠ kind sy) by (by destruct (kind dy), (kind sy)). inversion Hsame; simplify_eq; congruence.
  - unfold type_checker_is_cstring_type, is_kind in Hc. apply andb_true_iff in Hc as [Hc%bool_decide_eq_true _].
    simplify_eq. by rewrite Hc in Hi.
  - unfold type_checker_is_cstring_type, is_kind in Hc. apply andb_true_iff in Hc as [Hc%bool_decide_eq_true _].
    simplify_eq. by rewrite Hc in Hi.
  - simplify_eq. by rewrite Hk in Hi.
  - simplify_eq. unfold type_checker_is_integer_type in Hi'. by destruct (kind sy).
  - simplify_eq. unfold type_checker_is_floating_type in Hf'. by destruct (kind dy).
Qed.

(** What [assignable] says once the two types are not the same. *)
Lemma assignable_cases d s dy sy : ts !! d = Some dy → ts !! s = Some sy → ¬ same ts d s →
  assignable ts d s ↔
    (type_checker_is_cstring_type dy = true ∧ kind sy = TYPE_STRING) ∨
    (type_checker_is_cstring_type dy = true ∧ ∃ b, kind sy = TYPE_POINTER ∧ base_type sy = Some b ∧ such ts (is_named "int8") b) ∨
    (∃ t u, kind dy = TYPE_POINTER ∧ base_type dy = Some t ∧ kind sy = TYPE_ARRAY ∧ base_type sy = Some u ∧ same ts t u) ∨
    converts ts s d.
Proof.
  intros Hd Hs Hns. pose proof (such_spec type_checker_is_cstring_type d dy Hd) as Hc.
  pose proof (kind_spec TYPE_STRING s sy Hs) as Hk. split.
  - destruct 1 as [|d s|d s b' ? Hp|d s t u ty Hp|]; [done|left; tauto|right; left|right; right; left|by do 3 right].
    + split; [tauto|]. exists b'. by apply (points_spec s b' sy Hs) in Hp as [].
    + exists t, u. apply (points_spec d t dy Hd) in Hp as []. by simplify_eq.
  - intros [[]|[(? & b' & ? & ? & ?)|[(t & u & ? & ? & ? & ? & ?)|?]]].
    + apply assignable_text; tauto.
    + apply (assignable_bytes ts d s b'); [tauto|by exists sy|done].
    + apply (assignable_decay ts d s t u sy); [by exists dy|done..].
    + by apply assignable_number.
Qed.

Lemma base_live t ty : ts !! t = Some ty → kind ty = TYPE_POINTER ∨ kind ty = TYPE_ARRAY →
  ∃ u, base_type ty = Some u ∧ is_Some (ts !! u).
Proof.
  intros Ht Hk. pose proof (yk_shape _ _ _ (sk_types _ _ _ Hok t ty Ht)) as Hs.
  rewrite Forall_forall in Hs. destruct (Hs (base_type ty)) as (j & ? & ? & _); [|by exists j].
  unfold components. destruct Hk as [-> | ->]; apply list_elem_of_here.
Qed.

Lemma cstring_pointer ty : type_checker_is_cstring_type ty = true → kind ty = TYPE_POINTER.
Proof. unfold type_checker_is_cstring_type, is_kind. by intros [Hk%bool_decide_eq_true _]%andb_true_iff. Qed.

(** The three tests before numbers. *)
Lemma bytes_spec dy sy s : ts !! s = Some sy →
  ∃ r, int8_pointer_as_cstring ts dy sy = Some r ∧ (r = true ↔ type_checker_is_cstring_type dy = true ∧
    ∃ b, kind sy = TYPE_POINTER ∧ base_type sy = Some b ∧ such ts (is_named "int8") b).
Proof.
  intros Hs. unfold int8_pointer_as_cstring, type_checker_is_cstring_type, is_kind.
  destruct (bool_decide_reflect (kind dy = TYPE_POINTER)) as [Hd|Hd]; cbn [andb];
    [|exists false; split; [done|]; split; [done|by intros [? _]]].
  destruct (bool_decide_reflect (kind sy = TYPE_POINTER)) as [Hp|Hp]; cbn [andb];
    [|exists false; split; [done|]; split; [done|intros (_ & ? & ? & _); congruence]].
  destruct (is_named "cstring" dy); [|exists false; split; [done|]; split; [done|intros [? _]; congruence]].
  destruct (base_live s sy Hs) as (u & Hu & uy & Huy); [by left|]. rewrite Hu, Huy. exists (is_named "int8" uy).
  split; [done|]. rewrite <- (such_spec (is_named "int8") u uy Huy). split; [intros ?; split; [done|by exists u]|].
  intros (_ & b' & _ & [= <-] & ?). done.
Qed.

Lemma decays_spec dy sy d s : ts !! d = Some dy → ts !! s = Some sy →
  ∃ r, array_decays fuel ts dy sy = Some r ∧ (r = true ↔ ∃ t u, kind dy = TYPE_POINTER ∧ base_type dy = Some t ∧
    kind sy = TYPE_ARRAY ∧ base_type sy = Some u ∧ same ts t u).
Proof.
  intros Hd Hs. unfold array_decays, is_kind.
  destruct (bool_decide_reflect (kind dy = TYPE_POINTER)) as [Hp|Hp]; cbn [andb];
    [|exists false; split; [done|]; split; [done|intros (? & ? & ? & _); congruence]].
  destruct (bool_decide_reflect (kind sy = TYPE_ARRAY)) as [Ha|Ha]; cbn [andb];
    [|exists false; split; [done|]; split; [done|intros (? & ? & _ & _ & ? & _); congruence]].
  destruct (base_live d dy Hd) as (t & Ht & Hlt); [by left|]. destruct (base_live s sy Hs) as (u & Hu & Hlu); [by right|].
  rewrite Ht, Hu. destruct (equal_spec t u Hlt Hlu) as (r & Hr & Hiff). exists r. split; [exact Hr|]. rewrite Hiff. split.
  - intros ?. by exists t, u.
  - by intros (? & ? & _ & [= <-] & _ & [= <-] & ?).
Qed.

Lemma assignable_spec d s : is_Some (ts !! d) → is_Some (ts !! s) →
  ∃ r, type_checker_is_assignable fuel ts (Some d) (Some s) = Some r ∧ (r = true ↔ assignable ts d s).
Proof.
  intros Hd Hs. destruct (equal_spec d s Hd Hs) as (r & Hr & Hiff). unfold type_checker_is_assignable. rewrite Hr.
  cbn [mbind option_bind]. destruct r.
  { exists true. split; [done|]. split; [|done]. intros _. apply assignable_same. by apply Hiff. }
  assert (¬ same ts d s) as Hns by by rewrite <- Hiff.
  assert (¬ same ts s d) as Hns' by (intros H; apply Hns; unfold same in *; by symmetry).
  destruct (convertible_spec s d Hs Hd Hns') as (rc & Hrc & Hic).
  destruct Hd as [dy Hd], Hs as [sy Hs]. rewrite Hd, Hs. cbn [mbind option_bind].
  pose proof (assignable_cases d s dy sy Hd Hs Hns) as Hcases. rewrite <- Hic in Hcases.
  destruct (type_checker_is_cstring_type dy && is_kind TYPE_STRING sy) eqn:H1.
  { exists true. split; [done|]. split; [|done]. intros _. apply Hcases. left. apply andb_true_iff in H1 as [? Hk]. by apply bool_decide_eq_true in Hk. }
  destruct (bytes_spec dy sy s Hs) as (rb & Hrb & Hib). rewrite Hrb. cbn [mbind option_bind]. rewrite <- Hib in Hcases.
  destruct rb; [exists true; tauto|].
  destruct (decays_spec dy sy d s Hd Hs) as (rd & Hrd & Hid). rewrite Hrd. cbn [mbind option_bind]. rewrite <- Hid in Hcases.
  destruct rd; [exists true; tauto|].
  assert (¬ (type_checker_is_cstring_type dy = true ∧ kind sy = TYPE_STRING)) as Hn1.
  { intros [Hc Hk]. rewrite Hc in H1. unfold is_kind in H1. by rewrite bool_decide_true in H1. }
  destruct (is_pointer_array_struct dy || is_pointer_array_struct sy) eqn:Hp; [|exists rc; tauto].
  exists false. split; [done|]. split; [done|]. intros [?|[?|[?|Hc]]]%Hcases; [done..|]. exfalso.
  apply Hic, (converts_numeric s d sy dy Hs Hd) in Hc as [? ?].
  apply orb_true_iff in Hp as [Hp|Hp]; apply compatible_numeric_kinds in Hp; congruence.
Qed.

Lemma castable_spec f t : is_Some (ts !! f) → is_Some (ts !! t) →
  ∃ r, type_checker_is_cast_valid fuel ts f t = Some r ∧ (r = true ↔ castable_to ts f t).
Proof.
  intros Hf Ht. destruct (equal_spec f t Hf Ht) as (r & Hr & Hiff). unfold type_checker_is_cast_valid. rewrite Hr.
  cbn [mbind option_bind]. unfold castable_to, word. destruct r; [exists true; tauto|].
  destruct Hf as [fy Hf], Ht as [ty Ht]. rewrite Hf, Ht. cbn [mbind option_bind]. eexists. split; [done|]. unfold castable.
  rewrite !orb_true_iff, !andb_true_iff.
  pose proof (such_spec type_checker_is_numeric_type f fy Hf). pose proof (such_spec type_checker_is_numeric_type t ty Ht).
  pose proof (such_spec type_checker_is_integer_type f fy Hf). pose proof (such_spec type_checker_is_integer_type t ty Ht).
  pose proof (such_spec is_pointer_like f fy Hf). pose proof (such_spec is_pointer_like t ty Ht).
  pose proof (integer_numeric fy). pose proof (integer_numeric ty). intuition congruence.
Qed.
End decisions.

(** ** Larger stores *)

Section weaken.
Context (ts ts' : type_store) (Hsub : ts ⊆ ts').

Lemma such_weaken test t : such ts test t → such ts' test t.
Proof. intros (ty & Ht & ?). exists ty. split; [by eapply lookup_weaken|done]. Qed.

Lemma kind_weaken k t : has_kind ts k t → has_kind ts' k t.
Proof. intros (ty & Ht & ?). exists ty. split; [by eapply lookup_weaken|done]. Qed.

Lemma points_weaken t u : points_to ts t u → points_to ts' t u.
Proof. intros (ty & Ht & ?). exists ty. split; [by eapply lookup_weaken|done]. Qed.

Lemma compatible_weaken : (∀ t u, compatible ts t u → compatible ts' t u) ∧
  (∀ l r, compatible_list ts l r → compatible_list ts' l r).
Proof.
  apply (compatible_mutind ts (λ t u _, compatible ts' t u) (λ l r _, compatible_list ts' l r)).
  - intros. apply compat_same.
  - intros. eapply compat_function; [by eapply lookup_weaken..|done|done|done|done].
  - intros. eapply compat_array; [by eapply lookup_weaken..|done|done|done|done].
  - intros. eapply compat_pointer; [by eapply lookup_weaken..|done|done|done].
  - intros. eapply compat_struct; [by eapply lookup_weaken..|done|done|done].
  - intros. eapply compat_scalar; [by eapply lookup_weaken..|done|done].
  - constructor.
  - intros. by constructor.
Qed.

Lemma same_weaken t u : same ts t u → same ts' t u.
Proof. apply compatible_weaken. Qed.

Lemma converts_weaken t u : converts ts t u → converts ts' t u.
Proof. unfold converts. intros [H1 H2]. split; [by apply such_weaken|]. destruct H2 as [?|[]]; [left|right; split]; by apply such_weaken. Qed.

Lemma comparable_weaken t u : comparable ts t u → comparable ts' t u.
Proof. intros [?|[?|?]]; [left; by apply same_weaken|right; left|right; right]; by apply converts_weaken. Qed.

Lemma assignable_weaken d s : assignable ts d s → assignable ts' d s.
Proof.
  destruct 1 as [|d s|d s b' ? ?|d s t u ty ? Hs|d s].
  - by apply assignable_same, same_weaken.
  - apply assignable_text; [by apply such_weaken|by apply kind_weaken].
  - apply (assignable_bytes ts' d s b'); [by apply such_weaken|by apply points_weaken|by apply such_weaken].
  - apply (assignable_decay ts' d s t u ty); [by apply points_weaken|by eapply lookup_weaken|done|done|by apply same_weaken].
  - by apply assignable_number, converts_weaken.
Qed.

Lemma word_weaken t : word ts t → word ts' t.
Proof. intros [?|?]; [left|right]; by apply such_weaken. Qed.

Lemma castable_weaken f t : castable_to ts f t → castable_to ts' f t.
Proof.
  intros [?|[[]|[]]]; [left; by apply same_weaken|right; left; split; by apply such_weaken|].
  right; right. split; by apply word_weaken.
Qed.

Lemma larger_weaken t u v : type_checker_get_larger_type ts t u = Some v → type_checker_get_larger_type ts' t u = Some v.
Proof.
  unfold type_checker_get_larger_type. intros (ty & Ht & (uy & Hu & Hv)%bind_Some)%bind_Some.
  eapply lookup_weaken in Ht, Hu; [|done..]. by rewrite Ht, Hu.
Qed.
End weaken.

(** ** The typing rules *)

Abbreviation environment := (string → option Symbol).

(** In [env'] the name is a variable of the type, and every other name what it is in [env]. *)
Definition binds (env : environment) (n : string) (t : tid) (env' : environment) : Prop :=
  (∃ x, env' n = Some x ∧ skind x = SYMBOL_VARIABLE ∧ stype x = Some t) ∧ ∀ m, m ≠ n → env' m = env m.

Definition constant (e : ASTNode) (v : Z) : Prop := type_checker_eval_integer_constant e = Some (Some v).

(** What an arm matches. *)
Definition arm_variant (subject : Type_) (a : MatchArm ASTNode) : option nat :=
  if ma_is_default a then None else variant_index (tagged_variant_names subject) (ma_variant_name a).

(** Every variant has an arm, unless one arm takes all. *)
Definition exhaustive (subject : Type_) (arms : list (MatchArm ASTNode)) : Prop :=
  (∃ a, a ∈ arms ∧ ma_is_default a = true) ∨
  ∀ v, v < length (tagged_variant_names subject) → v ∈ omap (arm_variant subject) arms.

Section rules.
Context (b : Builtins) (ts : type_store).

Definition function_type (x : Symbol) : Type_ :=
  type_create_function_pointer (map (parameter_type x) (seq 0 (parameter_count (function x)))) (return_type (function x)).

Definition names_function (env : environment) (e : ASTNode) (x : Symbol) : Prop :=
  ∃ loc name, e = AST_IDENTIFIER loc name ∧ env name = Some x ∧ skind x = SYMBOL_FUNCTION.

(** A struct, or a pointer to one. *)
Definition receiver (t : tid) (ty : Type_) : Prop :=
  kind ty = TYPE_STRUCT ∧ (ts !! t = Some ty ∨ ∃ u, points_to ts t u ∧ ts !! u = Some ty).

(** The operands [l] and [r] of types [lt] and [rt]. *)
Inductive operation (o : string) (l r : ASTNode) (lt rt : tid) : tid → Prop :=
  | operation_text : o = "+"%string → lt = builtin_string b → rt = builtin_string b → operation o l r lt rt (builtin_string b)
  | operation_offset : is_one_of ["+"; "-"]%string o = true → has_kind ts TYPE_POINTER lt → integer ts rt → operation o l r lt rt lt
  | operation_offset_left : o = "+"%string → integer ts lt → has_kind ts TYPE_POINTER rt → operation o l r lt rt rt
  | operation_distance :
      o = "-"%string → has_kind ts TYPE_POINTER lt → has_kind ts TYPE_POINTER rt → same ts lt rt →
      operation o l r lt rt (builtin_int64 b)
  | operation_arithmetic t :
      is_arithmetic o = true → numeric ts lt → numeric ts rt → (o = "%"%string → integer ts lt ∧ integer ts rt) →
      type_checker_get_larger_type ts lt rt = Some t → operation o l r lt rt t
  | operation_bits : is_bitwise o = true → integer ts lt → integer ts rt → operation o l r lt rt lt
  | operation_pointers :
      is_one_of ["=="; "!="]%string o = true →
      (has_kind ts TYPE_POINTER lt ∧ has_kind ts TYPE_POINTER rt ∧ same ts lt rt) ∨
      (has_kind ts TYPE_POINTER lt ∧ constant r 0) ∨ (has_kind ts TYPE_POINTER rt ∧ constant l 0) →
      operation o l r lt rt (builtin_bool b)
  | operation_comparison : is_comparison o = true → comparable ts lt rt → operation o l r lt rt (builtin_bool b)
  | operation_logical : is_logical o = true → numeric ts lt → numeric ts rt → operation o l r lt rt (builtin_bool b).

(** [has_type env e t]: the expression has the type.  [applies]: calling what a name stands
    for; [passes]: arguments for parameters; [arm_type] and [arms_type]: the arms of a match
    on a type, of the result type of the first. *)
Inductive has_type : environment → ASTNode → tid → Prop :=
  | type_float env loc text : has_type env (AST_NUMBER_LITERAL loc (FloatLiteral text)) (builtin_float64 b)
  | type_integer env loc v radix :
      has_type env (AST_NUMBER_LITERAL loc (IntLiteral v radix)) (type_checker_default_integer_literal_type b v radix)
  | type_text env loc v : has_type env (AST_STRING_LITERAL loc v) (builtin_string b)
  | type_name env loc name x t : env name = Some x → stype x = Some t → has_type env (AST_IDENTIFIER loc name) t
  | type_function_address env loc e x t :
      names_function env e x → ts !! t = Some (function_type x) → has_type env (AST_UNARY_EXPRESSION loc "&" e) t
  | type_address env loc e u ty t :
      type_checker_is_lvalue_expression e = true → has_type env e u → ts !! u = Some ty →
      denotes b env ts (list_ascii_of_string (name_or "unknown" ty +:+ "*")) t → has_type env (AST_UNARY_EXPRESSION loc "&" e) t
  | type_dereference env loc e u t :
      has_type env e u → points_to ts u t → ¬ constant e 0 → has_type env (AST_UNARY_EXPRESSION loc "*" e) t
  | type_sign env loc o e t :
      is_one_of ["+"; "-"]%string o = true → has_type env e t → numeric ts t → has_type env (AST_UNARY_EXPRESSION loc o e) t
  | type_complement env loc e t : has_type env e t → integer ts t → has_type env (AST_UNARY_EXPRESSION loc "~" e) t
  | type_not env loc e t :
      has_type env e t → numeric ts t ∨ has_kind ts TYPE_POINTER t →
      has_type env (AST_UNARY_EXPRESSION loc "!" e) (builtin_int32 b)
  | type_binary env loc o l r lt rt t :
      has_type env l lt → has_type env r rt → operation o l r lt rt t → has_type env (AST_BINARY_EXPRESSION loc o l r) t
  | type_sizeof env loc d l name t :
      ce_function_name d = "sizeof"%string → ce_arguments d = [AST_IDENTIFIER l name] →
      denotes b env ts (list_ascii_of_string name) t → has_type env (AST_FUNCTION_CALL loc d) (builtin_int64 b)
  | type_call env loc d t :
      ce_object d = None → ce_function_name d ≠ "sizeof"%string → applies env (ce_function_name d) (ce_arguments d) t →
      has_type env (AST_FUNCTION_CALL loc d) t
  | type_method env loc d e u ty struct_name t :
      ce_object d = Some e → ce_function_name d ≠ "sizeof"%string → has_type env e u → receiver u ty →
      tname ty = Some struct_name → applies env (struct_name +:+ "_" +:+ ce_function_name d) (e :: ce_arguments d) t →
      has_type env (AST_FUNCTION_CALL loc d) t
  | type_pointer_call env loc callee arguments u ty t :
      has_type env callee u →
      (ts !! u = Some ty ∧ kind ty = TYPE_FUNCTION_POINTER) ∨ (∃ x, names_function env callee x ∧ ty = function_type x) →
      passes env arguments (fn_param_types ty) → fn_return_type ty = Some t →
      has_type env (AST_FUNC_PTR_CALL loc callee arguments) t
  | type_member env loc e member u ty t :
      has_type env e u → ts !! u = Some ty → type_get_field_type ty member = Some t →
      has_type env (AST_MEMBER_ACCESS loc e member) t
  | type_element env loc a i u v ty t :
      has_type env a u → has_type env i v → integer ts v → ts !! u = Some ty → base_type ty = Some t →
      (kind ty = TYPE_ARRAY ∧ ∀ n, constant i n → (0 ≤ n < array_size ty)%Z) ∨ (kind ty = TYPE_POINTER ∧ ¬ constant a 0) →
      has_type env (AST_INDEX_EXPRESSION loc a i) t
  | type_assignment env loc name target value t : has_type env value t → has_type env (AST_ASSIGNMENT loc name target value) t
  | type_new env loc name x t :
      env name = Some x → skind x = SYMBOL_STRUCT → denotes b env ts (list_ascii_of_string (name +:+ "*")) t →
      has_type env (AST_NEW_EXPRESSION loc name) t
  | type_cast env loc name e u t :
      denotes b env ts (list_ascii_of_string name) t → has_type env e u → castable_to ts u t →
      has_type env (AST_CAST_EXPRESSION loc name e) t
  | type_match env loc e u subject a arms t :
      has_type env e u → ts !! u = Some subject → kind subject = TYPE_TAGGED_ENUM → arm_type env subject a t →
      arms_type env subject t arms → NoDup (omap (arm_variant subject) (a :: arms)) → exhaustive subject (a :: arms) →
      has_type env (AST_MATCH_STATEMENT loc e (a :: arms) true) t
with applies : environment → string → list ASTNode → tid → Prop :=
  | applies_variable env name arguments x u ty t :
      env name = Some x → skind x = SYMBOL_VARIABLE → stype x = Some u → ts !! u = Some ty →
      kind ty = TYPE_FUNCTION_POINTER → passes env arguments (fn_param_types ty) → fn_return_type ty = Some t →
      applies env name arguments t
  | applies_function env name arguments x params t :
      env name = Some x → skind x = SYMBOL_FUNCTION → parameter_types (function x) = Some params →
      passes env arguments params → return_type (function x) = Some t → applies env name arguments t
  | applies_tag env name x t :
      env name = Some x → skind x = SYMBOL_TAGGED_ENUM_CONSTRUCTOR → payload_type (constructor x) = None →
      enum_type (constructor x) = Some t → applies env name [] t
  | applies_constructor env name a x u payload t :
      env name = Some x → skind x = SYMBOL_TAGGED_ENUM_CONSTRUCTOR → payload_type (constructor x) = Some payload →
      has_type env a u → assignable ts payload u → enum_type (constructor x) = Some t → applies env name [a] t
with passes : environment → list ASTNode → list (option tid) → Prop :=
  | passes_none env : passes env [] []
  | passes_argument env a arguments u t params :
      has_type env a u → (has_kind ts TYPE_POINTER t ∧ constant a 0) ∨ assignable ts t u → passes env arguments params →
      passes env (a :: arguments) (Some t :: params)
with arm_type : environment → Type_ → MatchArm ASTNode → tid → Prop :=
  | arm_plain env subject a t :
      ma_is_default a = true ∨ (is_Some (arm_variant subject a) ∧ ma_binding_name a = None) →
      has_type env (ma_body a) t → arm_type env subject a t
  | arm_binding env subject a v name payload env' t :
      arm_variant subject a = Some v → ma_binding_name a = Some name →
      tagged_variant_payloads subject !! v = Some (Some payload) → binds env name payload env' →
      has_type env' (ma_body a) t → arm_type env subject a t
with arms_type : environment → Type_ → tid → list (MatchArm ASTNode) → Prop :=
  | arms_none env subject t : arms_type env subject t []
  | arms_more env subject t a u arms :
      arm_type env subject a u → comparable ts t u → arms_type env subject t arms → arms_type env subject t (a :: arms).
End rules.

Scheme has_type_ind2 := Minimality for has_type Sort Prop
  with applies_ind2 := Minimality for applies Sort Prop
  with passes_ind2 := Minimality for passes Sort Prop
  with arm_type_ind2 := Minimality for arm_type Sort Prop
  with arms_type_ind2 := Minimality for arms_type Sort Prop.
Combined Scheme has_type_mutind from has_type_ind2, applies_ind2, passes_ind2, arm_type_ind2, arms_type_ind2.

Section rules_weaken.
Context (b : Builtins) (ts ts' : type_store) (Hsub : ts ⊆ ts').

Lemma operation_weaken o l r lt rt t : operation b ts o l r lt rt t → operation b ts' o l r lt rt t.
Proof.
  destruct 1 as [| | | |t ? ? ? Hm|? ? ?|? Hp| |].
  - by apply operation_text.
  - apply operation_offset; [done|by eapply kind_weaken|by eapply such_weaken].
  - apply operation_offset_left; [done|by eapply such_weaken|by eapply kind_weaken].
  - apply operation_distance; [done|by eapply kind_weaken..|by eapply same_weaken].
  - apply operation_arithmetic; [done|by eapply such_weaken..| |by eapply larger_weaken].
    intros Ho. destruct (Hm Ho). split; by eapply such_weaken.
  - apply operation_bits; [done|by eapply such_weaken..].
  - apply operation_pointers; [done|]. destruct Hp as [(? & ? & ?)|[[]|[]]]; [left; split_and!|right; left; split|right; right; split];
      try done; try (by eapply kind_weaken). by eapply same_weaken.
  - apply operation_comparison; [done|by eapply comparable_weaken].
  - apply operation_logical; [done|by eapply such_weaken..].
Qed.

Lemma receiver_weaken t ty : receiver ts t ty → receiver ts' t ty.
Proof.
  intros [Hk [?|(u & ? & ?)]]; (split; [done|]); [left; by eapply lookup_weaken|].
  right. exists u. split; [by eapply points_weaken|by eapply lookup_weaken].
Qed.

Lemma has_type_weaken_mut :
  (∀ env e t, has_type b ts env e t → has_type b ts' env e t) ∧
  (∀ env n args t, applies b ts env n args t → applies b ts' env n args t) ∧
  (∀ env args params, passes b ts env args params → passes b ts' env args params) ∧
  (∀ env s a t, arm_type b ts env s a t → arm_type b ts' env s a t) ∧
  (∀ env s t arms, arms_type b ts env s t arms → arms_type b ts' env s t arms).
Proof.
  apply (has_type_mutind b ts (has_type b ts') (applies b ts') (passes b ts') (arm_type b ts') (arms_type b ts')).
  - constructor.
  - constructor.
  - constructor.
  - intros. by eapply type_name.
  - intros. eapply type_function_address; [done|by eapply lookup_weaken].
  - intros. eapply type_address; [done|done|by eapply lookup_weaken|by eapply denotes_weaken].
  - intros. eapply type_dereference; [done|by eapply points_weaken|done].
  - intros. apply type_sign; [done|done|by eapply such_weaken].
  - intros. apply type_complement; [done|by eapply such_weaken].
  - intros ? ? ? ? ? ? Ht. eapply type_not; [done|]. destruct Ht; [left; by eapply such_weaken|right; by eapply kind_weaken].
  - intros. eapply type_binary; [done..|by apply operation_weaken].
  - intros. eapply type_sizeof; [done..|by eapply denotes_weaken].
  - intros. by apply type_call.
  - intros. eapply type_method; [done..|by apply receiver_weaken|done|done].
  - intros ? ? ? ? ? ? ? ? ? Hc ? ? ?. eapply type_pointer_call; [done| |done|done].
    destruct Hc as [[]|]; [left; split; [by eapply lookup_weaken|done]|by right].
  - intros. eapply type_member; [done|by eapply lookup_weaken|done].
  - intros. eapply type_element; [done|done|by eapply such_weaken|by eapply lookup_weaken|done|done].
  - intros. by apply type_assignment.
  - intros. eapply type_new; [done|done|by eapply denotes_weaken].
  - intros. eapply type_cast; [by eapply denotes_weaken|done|by eapply castable_weaken].
  - intros. eapply type_match; [done|by eapply lookup_weaken|done..].
  - intros. eapply applies_variable; [done..|by eapply lookup_weaken|done|done|done].
  - intros. by eapply applies_function.
  - intros. by eapply applies_tag.
  - intros. eapply applies_constructor; [done..|by eapply assignable_weaken|done].
  - constructor.
  - intros ? ? ? ? ? ? ? ? Ho ? ?. eapply passes_argument; [done| |done].
    destruct Ho as [[]|]; [left; split; [by eapply kind_weaken|done]|right; by eapply assignable_weaken].
  - intros. by apply arm_plain.
  - intros. by eapply arm_binding.
  - constructor.
  - intros. eapply arms_more; [done|by eapply comparable_weaken|done].
Qed.
End rules_weaken.
