(* ===== verification/TypeSoundness.v ===== *)
(** * Inference is sound

    [type_checker_infer_type] ends on every expression: with a type the rules give the
    expression, or with an error reported and no type.  Scopes, symbols and what is known of
    other nodes are as before, and the state is consistent. *)

From stdpp Require Import gmap.
From S2P Require Import Prelude.
From S2P Require Import Outcome.
From S2P Require Import Ast.
From S2P Require Import ErrorReporter.
From S2P Require Import Types.
From S2P Require Import TypesFacts.
From S2P Require Import SymbolTable.
From S2P Require Import SymbolTableFacts.
From S2P Require Import TypeRules.
From S2P Require Import TypeNames.
From S2P Require Import TypeNamesFacts.
From S2P Require Import TypeExpr.
From S2P Require Import TypeExprFacts.

(** ** Expressions *)

(** An expression of height at most [n] whose constants do not overflow; [static_assert]
    and binders without a name are left out. *)
Fixpoint expression (n : nat) (e : ASTNode) : Prop :=
  match n with
  | O => False
  | S n =>
      type_checker_eval_integer_constant e ≠ None ∧
      match e with
      | AST_NUMBER_LITERAL _ _ | AST_STRING_LITERAL _ _ | AST_IDENTIFIER _ _ | AST_NEW_EXPRESSION _ _
      | AST_MATCH_STATEMENT _ _ _ false => True
      | AST_UNARY_EXPRESSION _ _ e | AST_MEMBER_ACCESS _ e _ | AST_CAST_EXPRESSION _ _ e | AST_ASSIGNMENT _ _ _ e => expression n e
      | AST_BINARY_EXPRESSION _ _ l r | AST_INDEX_EXPRESSION _ l r => expression n l ∧ expression n r
      | AST_FUNCTION_CALL _ d =>
          ce_function_name d ≠ "static_assert"%string ∧ Forall (expression n) (ce_arguments d) ∧
          (∀ o, ce_object d = Some o → expression n o)
      | AST_FUNC_PTR_CALL _ callee arguments => expression n callee ∧ Forall (expression n) arguments
      | AST_MATCH_STATEMENT _ e arms true =>
          expression n e ∧ Forall (λ a, expression n (ma_body a) ∧ ma_binding_name a ≠ Some EmptyString) arms
      | _ => False
      end
  end.

Lemma expression_constant n e : expression n e → is_Some (type_checker_eval_integer_constant e).
Proof. destruct n; [done|]. intros [H _]. by apply not_eq_None_Some. Qed.

Lemma expression_null n e : expression n e → ∃ r, type_checker_is_null_pointer_constant e = Some r ∧ (r = true ↔ constant e 0).
Proof.
  intros [v Hv]%expression_constant. unfold type_checker_is_null_pointer_constant, constant. rewrite Hv. cbn.
  eexists. split; [done|]. rewrite bool_decide_eq_true. split; [by intros -> |by intros [=]].
Qed.

(** The sizes of buffers are constants too. *)
Lemma allocation_defined n d : Forall (expression n) (ce_arguments d) →
  is_Some (type_checker_extract_allocation_call_extent d).
Proof.
  intros Hargs. unfold type_checker_extract_allocation_call_extent.
  destruct (ce_arguments d) as [|a [|a' [|]]]; repeat apply Forall_cons in Hargs as [?%expression_constant Hargs].
  all: repeat match goal with H : is_Some _ |- _ => destruct H as [? ->] end.
  all: cbn [mbind option_bind]; repeat case_match; cbn [mbind option_bind]; eauto.
Qed.

Lemma extent_defined extents n : ∀ e, expression n e → is_Some (type_checker_extract_known_buffer_extent extents e).
Proof.
  induction n as [|n IH]; intros e He; [done|]. destruct He as [_ He].
  destruct e; cbn; try by eexists; try done.
  - by eapply allocation_defined, He.
  - destruct He as [Hl Hr]. destruct (expression_constant _ _ Hl) as [vl Hvl], (expression_constant _ _ Hr) as [vr Hvr].
    rewrite Hvl, Hvr. cbn. destruct (IH _ Hl) as [xl Hxl], (IH _ Hr) as [xr Hxr]. rewrite Hxl, Hxr. cbn.
    repeat case_match; eauto.
  - by apply IH.
Qed.

Lemma alignment_defined extents n : ∀ e, expression n e → is_Some (type_checker_extract_known_pointer_alignment extents e).
Proof.
  induction n as [|n IH]; intros e He; [done|]. destruct He as [_ He].
  destruct e; cbn; try by eexists; try done.
  - destruct He as [Hl Hr]. destruct (expression_constant _ _ Hl) as [vl Hvl], (expression_constant _ _ Hr) as [vr Hvr].
    rewrite Hvl, Hvr. cbn. destruct (IH _ Hl) as [xl Hxl], (IH _ Hr) as [xr Hxr]. rewrite Hxl, Hxr. cbn.
    repeat case_match; eauto.
  - by apply IH.
Qed.

(** ** Operators *)

(** [H] says that a string is one of a list: each in turn. *)
Ltac each_of H :=
  apply existsb_exists in H as (?x & H & ?He%String.eqb_eq); subst; cbn [List.In] in H;
  repeat (destruct H as [<-|H]; [try done|]); [try done..|done].

(** The type of arithmetic on numbers. *)
Lemma promoted_larger b ts lt rt tl tr o : ts !! lt = Some tl → ts !! rt = Some tr → is_arithmetic o = true →
  type_checker_is_numeric_type tl = true → type_checker_is_numeric_type tr = true →
  type_checker_promote_types ts b lt rt o = type_checker_get_larger_type ts lt rt.
Proof.
  intros Hlt Hrt Ho Hnl Hnr. unfold type_checker_promote_types. rewrite Hlt, Hrt. cbn [mbind option_bind].
  assert (is_comparison o = false) as ->.
  { by each_of Ho. }
  rewrite Ho. cbn [andb]. unfold type_checker_is_numeric_type in Hnl, Hnr.
  apply orb_true_iff in Hnl as [-> | ->], Hnr as [-> | ->]; rewrite ?orb_true_r; done.
Qed.

(** ** What inference leaves alone *)

(** Nothing but types, errors and what is known of the nodes below [p] is changed. *)
Record keeps (p : path) (c c' : TypeChecker) : Prop := {
  kp_types : types c ⊆ types c';
  kp_table : symbol_table c' = symbol_table c;
  kp_next : (next_symbol c ≤ next_symbol c')%positive;
  kp_builtins : builtins c' = builtins c;
  kp_flow : current_function c' = current_function c ∧ tracked_vars c' = tracked_vars c ∧
    tracked_buffer_extents c' = tracked_buffer_extents c;
  kp_resolved : ∀ q, ¬ p `suffix_of` q → resolved_types c' !! q = resolved_types c !! q;
  kp_methods : ∀ q, ¬ p `suffix_of` q → method_calls c' !! q = method_calls c !! q }.

#[export] Instance keeps_preorder p : PreOrder (keeps p).
Proof.
  split.
  - intros c. by split.
  - intros c1 c2 c3 [H1 H2 Hn H3 (H4 & H5 & H6) H7 H8] [K1 K2 Kn K3 (K4 & K5 & K6) K7 K8].
    split; [by etrans|congruence|by etrans|congruence| | |].
    + split_and!; congruence.
    + intros q Hq. by rewrite K7, H7.
    + intros q Hq. by rewrite K8, H8.
Qed.

Lemma keeps_child i p c c' : keeps (i :: p) c c' → keeps p c c'.
Proof.
  intros [H1 H2 Hn H3 H4 H7 H8]. split; [done..| |]; intros q Hq.
  - apply H7. intros Hs. apply Hq. etrans; [|exact Hs]. by apply suffix_cons_r.
  - apply H8. intros Hs. apply Hq. etrans; [|exact Hs]. by apply suffix_cons_r.
Qed.

Lemma keeps_grows p c c' : grows c c' → keeps p c c'.
Proof. intros [H1 _ H2]. rewrite H2. by split. Qed.

(** The built-in types and the names in scope. *)
Record here (b : Builtins) (env : environment) (c : TypeChecker) : Prop := {
  hr_ok : checker_ok c;
  hr_builtins : builtins c = b;
  hr_env : visible c = env }.

(** Nothing is known of the node at [p] or below; or its type is. *)
Definition fresh (c : TypeChecker) (p : path) : Prop :=
  ∀ q, p `suffix_of` q → resolved_types c !! q = None ∧ method_calls c !! q = None.
Definition ready (b : Builtins) (env : environment) (c : TypeChecker) (p : path) (e : ASTNode) : Prop :=
  fresh c p ∨
  ∃ t, resolved_types c !! p = Some t ∧ is_Some (types c !! t) ∧ has_type b (types c) env e t.

Lemma suffix_sibling i j (p q : path) : (i :: p) `suffix_of` q → (j :: p) `suffix_of` q → i = j.
Proof.
  intros [k ->] [k' H].
  assert (k ++ [i] = k' ++ [j]) as He. { apply (app_inv_tail p). by rewrite <- !app_assoc. }
  by apply app_inj_tail in He as [_ ?].
Qed.

Lemma ready_keeps b env i j p c c' e : keeps (i :: p) c c' → i ≠ j → ready b env c (j :: p) e → ready b env c' (j :: p) e.
Proof.
  intros [Ht _ _ _ _ Hr Hm] Hne [Hfresh|(t & Hp & Hl & Hty)].
  - left. intros q Hq. rewrite Hr, Hm by (intros Hs; by apply Hne, (suffix_sibling i j p q)). by apply Hfresh.
  - right. exists t. split_and!; [|by eapply is_Some_weaken|by eapply has_type_weaken_mut].
    rewrite Hr; [done|]. intros Hs. apply Hne, (suffix_sibling i j p (j :: p)); done.
Qed.

Lemma ready_child b env p c i e : fresh c p → ready b env c (i :: p) e.
Proof. intros Hf. left. intros q Hq. apply Hf. etrans; [|exact Hq]. by apply suffix_cons_r. Qed.

Lemma ready_grows b env p c c' e : grows c c' → ready b env c p e → ready b env c' p e.
Proof.
  intros [Hs _ Hr] Hready. destruct Hready as [Hf|(t & ? & ? & ?)]; rewrite Hr; [by left|right; exists t].
  split; [done|]. split; [by eapply is_Some_weaken|by eapply has_type_weaken_mut].
Qed.

(** ** Outcomes *)

(** A value as it should be and no error, or an error. *)
Definition outcome {A} (b : Builtins) (env : environment) (p : path) (c : TypeChecker) (P : TypeChecker → A → Prop)
    (r : option A) (c' : TypeChecker) : Prop :=
  here b env c' ∧ keeps p c c' ∧
  match r with
  | Some a => tc_has_error c' = tc_has_error c ∧ P c' a
  | None => tc_has_error c' = true
  end.

Definition typed (b : Builtins) (env : environment) (e : ASTNode) (c : TypeChecker) (t : tid) : Prop :=
  is_Some (types c !! t) ∧ has_type b (types c) env e t.

(** A built-in type is in the table. *)
Ltac listed := unfold builtin_table; repeat first [apply list_elem_of_here|apply list_elem_of_further].

Section outcomes.
Context (b : Builtins) (env : environment) (p : path).
Abbreviation here := (here b env).
Abbreviation outcome := (outcome b env p).

Lemma outcome_trans {A} c c1 c' (P : TypeChecker → A → Prop) r :
  keeps p c c1 → tc_has_error c1 = tc_has_error c → outcome c1 P r c' → outcome c P r c'.
Proof. intros Hk He (H1 & H2 & H3). split; [done|]. split; [by etrans|]. destruct r; [|done]. by rewrite <- He. Qed.

Lemma outcome_mono {A B} c c' (P : TypeChecker → A → Prop) (Q : TypeChecker → B → Prop) r r' :
  outcome c P r c' → (∀ a, r = Some a → P c' a → ∃ a', r' = Some a' ∧ Q c' a') → (r = None → r' = None) → outcome c Q r' c'.
Proof.
  intros (H1 & H2 & H3) Hs Hn. split; [done|]. split; [done|]. destruct r as [a|].
  - destruct H3 as [He Ha]. by destruct (Hs a eq_refl Ha) as (a' & -> & ?).
  - by rewrite (Hn eq_refl).
Qed.

Lemma runs_some {A} c a (P : TypeChecker → A → Prop) : here c → P c a → runs (mret (Some a)) c (outcome c P).
Proof. intros Hh Ha. by apply runs_ret. Qed.

Lemma set_errors_here c m r : here c → here (set_errors m r c).
Proof. by intros [[H1 H2 H3 H4] H5 H6]. Qed.
Lemma set_reporter_here c r : here c → here (set_reporter r c).
Proof. by intros [[H1 H2 H3 H4] H5 H6]. Qed.

Lemma error_spec {A} c loc m (P : TypeChecker → A → Prop) : here c → runs (error_at loc m) c (outcome c P).
Proof. intros Hh. split; [by apply set_errors_here|]. by split; [split|]. Qed.

(** An error that ends what began in [c]. *)
Lemma failed_spec {A} c c1 loc m (P : TypeChecker → A → Prop) : here c1 → keeps p c c1 →
  runs (error_at loc m) c1 (outcome c P).
Proof. intros Hh Hk. split; [by apply set_errors_here|]. split; [|done]. etrans; [exact Hk|by split]. Qed.

Lemma mismatch_spec {A} c loc e a (P : TypeChecker → A → Prop) : here c → is_Some e → is_Some a →
  runs (mismatch loc e a) c (outcome c P).
Proof. intros Hh [? ->] [? ->]. split; [by apply set_errors_here|]. by split; [split|]. Qed.

Lemma undefined_symbol_spec {A} c loc n k (P : TypeChecker → A → Prop) : here c →
  runs (type_checker_report_undefined_symbol loc n k ;; mret None) c (outcome c P).
Proof. intros Hh. split; [by apply set_errors_here|]. by split; [split|]. Qed.

Lemma runs_lookup {A} n c (f : option Symbol → TM A) Q : here c →
  (∀ x, env n = Some x → symbol_ok (types c) x → runs (f (Some x)) c Q) → (env n = None → runs (f None) c Q) →
  runs (lookup_symbol n ≫= f) c Q.
Proof.
  intros [Hok Hb He] Hs Hn. apply runs_bind, runs_lookup_symbol; [done|]. rewrite He. destruct (env n) as [x|] eqn:Hx; [|by apply Hn].
  apply Hs; [done|]. eapply visible_ok; [done|]. by rewrite He.
Qed.

Lemma runs_builtin {A} f (k : tid → TM A) c Q : here c → runs (k (f b)) c Q → runs (builtin f ≫= k) c Q.
Proof. intros [_ Hb _] Hk. apply runs_bind, runs_gets. by rewrite Hb. Qed.

Lemma runs_deref_ok {A} t (k : Type_ → TM A) c Q : here c → is_Some (types c !! t) →
  (∀ ty, types c !! t = Some ty → type_ok (types c) t ty → runs (k ty) c Q) → runs (deref t ≫= k) c Q.
Proof.
  intros [Hok _ _] [ty Ht] Hk. apply runs_bind. eapply runs_deref; [exact Ht|]. apply Hk; [done|].
  by apply (sk_types _ _ _ (ck_store c Hok)).
Qed.

Lemma runs_printed {A} n (k : string → TM A) c Q : is_Some n → (∀ s, n = Some s → runs (k s) c Q) → runs (printed n ≫= k) c Q.
Proof. intros [s ->] Hk. apply runs_bind. eapply runs_reads; [done|]. by apply Hk. Qed.

Lemma builtin_live c e : here c → e ∈ builtin_table b → is_Some (types c !! e.1).
Proof.
  intros [Hok Hb _] He. pose proof (sk_builtins _ _ _ (ck_store c Hok)) as H. rewrite Hb, Forall_forall in H.
  apply H, fmap_Some in He as (ty & Ht & _). by exists ty.
Qed.

(** What reads the types decides its relation. *)
Lemma runs_decide {A} (f : nat → type_store → option bool) (R : Prop) (k : bool → TM A) c Q : here c →
  (∃ r, f (Pos.to_nat (next_type c)) (types c) = Some r ∧ (r = true ↔ R)) →
  (∀ r, (r = true ↔ R) → runs (k r) c Q) → runs (on_types f ≫= k) c Q.
Proof. intros _ (r & Hr & Hiff) Hk. apply runs_bind. eapply runs_reads; [exact Hr|]. by apply Hk. Qed.

Lemma runs_equal {A} l r (k : bool → TM A) c Q : here c → is_Some (types c !! l) → is_Some (types c !! r) →
  (∀ x, (x = true ↔ same (types c) l r) → runs (k x) c Q) → runs (types_equal l r ≫= k) c Q.
Proof. intros Hh Hl Hr. apply runs_decide; [done|]. by eapply equal_spec; [apply Hh|..]. Qed.

Lemma runs_compatible {A} l r (k : bool → TM A) c Q : here c → is_Some (types c !! l) → is_Some (types c !! r) →
  (∀ x, (x = true ↔ comparable (types c) l r) → runs (k x) c Q) → runs (are_compatible l r ≫= k) c Q.
Proof. intros Hh Hl Hr. apply runs_decide; [done|]. by eapply comparable_spec; [apply Hh|..]. Qed.

Lemma runs_assignable {A} l r (k : bool → TM A) c Q : here c → is_Some (types c !! l) → is_Some (types c !! r) →
  (∀ x, (x = true ↔ assignable (types c) l r) → runs (k x) c Q) → runs (is_assignable (Some l) (Some r) ≫= k) c Q.
Proof. intros Hh Hl Hr. apply runs_decide; [done|]. by eapply assignable_spec; [apply Hh|..]. Qed.

Lemma runs_castable {A} l r (k : bool → TM A) c Q : here c → is_Some (types c !! l) → is_Some (types c !! r) →
  (∀ x, (x = true ↔ castable_to (types c) l r) → runs (k x) c Q) → runs (is_cast_valid l r ≫= k) c Q.
Proof. intros Hh Hl Hr. apply runs_decide; [done|]. by eapply castable_spec; [apply Hh|..]. Qed.

Lemma runs_null {A} n e (k : bool → TM A) c Q : expression n e → (∀ x, (x = true ↔ constant e 0) → runs (k x) c Q) →
  runs (is_null_pointer_constant e ≫= k) c Q.
Proof. intros (r & Hr & Hiff)%expression_null Hk. apply runs_bind. eapply runs_reads; [exact Hr|]. by apply Hk. Qed.
End outcomes.

Lemma typed_keeps b env p e c c' t : keeps p c c' → typed b env e c t → typed b env e c' t.
Proof. intros Hk [Hl Ht]. split; [by eapply is_Some_weaken; [apply Hk|]|by eapply has_type_weaken_mut; [apply Hk|]]. Qed.

(** ** A scope of one variable *)

Lemma fresh_symbol t s : table_ok t → store t !! s = None → s ∉ symbols_of (scopes t).
Proof.
  intros [_ Hall _] Hs (l & Hl & Hin)%list_elem_of_In%in_concat. apply in_map_iff in Hl as (sc & <- & Hsc).
  rewrite Forall_forall in Hall. apply list_elem_of_In in Hin, Hsc. destruct (Hall sc Hsc) as [Hlive _]. rewrite Forall_forall in Hlive.
  destruct (Hlive s Hin). congruence.
Qed.

Lemma insert_names_agree st s x syms : s ∉ syms → names_agree st (<[s:=x]> st) syms.
Proof. intros Hs a Ha. unfold symbol_name. rewrite lookup_insert_ne; [done|]. by intros ->. Qed.

Lemma new_symbol_ok t s x : table_ok t → store t !! s = None → table_ok (mkTable (<[s:=x]> (store t)) (scopes t)).
Proof.
  intros Hok Hs. pose proof (fresh_symbol t s Hok Hs). destruct Hok as [Hne Hall Hnd]. split; [done| |done].
  eapply scopes_ok_agree; [|exact Hall]. by apply insert_names_agree.
Qed.

Lemma bind_variable t s x ty fuel ts : table_ok t → store t !! s = None → name x ≠ EmptyString → is_Some (stype x) →
  skind x = SYMBOL_VARIABLE →
  ∃ t1, symbol_table_declare fuel ts alloc_succeeds (mkTable (<[s:=x]> (store t)) (new_scope ty :: scopes t)) s = Some (true, t1) ∧
    table_ok t1 ∧ store t1 = <[s:=set_scope (length (scopes t)) x]> (store t) ∧ length (scopes t1) = S (length (scopes t)) ∧
    (∀ m, abs_lookup (abs_table t1) m = if String.eqb (name x) m then Some s else abs_lookup (abs_table t) m) ∧
    symbol_table_exit_scope t1 = t.
Proof.
  intros Hok Hs Hn Ht Hk. set (t0 := mkTable _ _).
  destruct (enter_spec t ty Hok) as [Hok1 _].
  assert (table_ok t0) as Hok0 by by apply (new_symbol_ok (symbol_table_enter_scope t ty)).
  pose proof (fresh_symbol t s Hok Hs) as Hf.
  destruct (append_symbol_spec t0 s Hok0) as (sc & rest & cap & bs & Hsc & Happ & Hok'); [cbn; rewrite lookup_insert_eq; by eexists|done|].
  injection Hsc as <- <-. cbn [store t0] in Happ, Hok'.
  assert (alter (set_scope (length (scopes t))) s (<[s:=x]> (store t)) = <[s:=set_scope (length (scopes t)) x]> (store t)) as Halter.
  { apply map_eq. intros a. destruct (decide (s = a)) as [->|Hne].
    - by rewrite lookup_alter_eq, !lookup_insert_eq.
    - by rewrite lookup_alter_ne, !lookup_insert_ne. }
  rewrite Halter in Happ, Hok'. cbn [symbols new_scope scope_type app] in Happ, Hok'. eexists. split.
  { unfold symbol_table_declare, symbol_table_validate_declaration, symbol_table_lookup_current_scope.
    cbn [t0 store scopes]. rewrite lookup_insert_eq. cbn [new_scope scope_lookup_symbol name_index length symbols Nat.ltb Nat.leb scan_symbols].
    apply String.eqb_neq in Hn. rewrite Hn, Hk, bool_decide_true by done. cbn. exact Happ. }
  split; [exact Hok'|]. split; [done|]. split; [done|]. split.
  - intros m. unfold abs_table. cbn [scopes store map abs_lookup symbols].
    rewrite (abs_chain_agree (store t)) by by apply insert_names_agree.
    unfold abs_scope at 1. cbn [foldr]. unfold symbol_name. rewrite lookup_insert_eq. cbn.
    destruct (String.eqb_spec (name x) m) as [->|Hne]; [by rewrite lookup_insert_eq|by rewrite lookup_insert_ne].
  - unfold symbol_table_exit_scope. cbn [scopes store]. pose proof (to_scopes _ Hok) as Hne. destruct t as [st [|sc scs]]; [done|].
    cbn. unfold scope_destroy. cbn. f_equal. apply delete_insert_id. done.
Qed.

(** ** The cases *)

Section cases.
Context (get : string → TM (option tid)) (infer : path → ASTNode → TM (option tid)) (n : nat).
Context (Hget : ∀ c name, checker_ok c → runs (get name) c (type_result (list_ascii_of_string name) c)).
Context (Hinfer : ∀ b env c p e, here b env c → expression n e → ready b env c p e →
  runs (infer p e) c (outcome b env p c (λ c' t, typed b env e c' t ∧ resolved_types c' !! p = Some t))).

Section node.
Context (b : Builtins) (env : environment) (p : path).
Abbreviation here := (here b env).
Abbreviation outcome := (outcome b env p).
Abbreviation typed := (typed b env).

(** A child's type, then the rest. *)
Lemma with_type_spec i e k c (P : TypeChecker → tid → Prop) : here c → expression n e → ready b env c (i :: p) e →
  (∀ t c1, here c1 → keeps (i :: p) c c1 → typed e c1 t → runs (k t) c1 (outcome c1 P)) →
  runs (with_type infer (i :: p) e k) c (outcome c P).
Proof.
  intros Hh He Hr Hk. unfold with_type. apply runs_bind. eapply runs_mono; [by apply Hinfer|]. intros r c1 (Hh1 & Hk1 & Ho).
  apply keeps_child in Hk1 as Hkp. destruct r as [t|].
  - destruct Ho as [Herr [Ht _]]. eapply runs_mono; [by apply Hk|]. intros r c'. by apply outcome_trans.
  - by apply runs_ret.
Qed.

Lemma grows_here c c' : here c → checker_ok c' → grows c c' → here c' ∧ keeps p c c' ∧ tc_has_error c' = tc_has_error c.
Proof.
  intros [Hok Hb He] Hok' Hg. split; [|split; [by apply keeps_grows|by rewrite (gr_rest _ _ Hg)]].
  split; [done| |]; [by rewrite (grows_builtins _ _ Hg)|by rewrite (grows_visible _ _ Hg)].
Qed.

Lemma get_outcome name c : here c →
  runs (get name) c (λ r c', here c' ∧ keeps p c c' ∧ tc_has_error c' = tc_has_error c ∧
    ∀ t, r = Some t → is_Some (types c' !! t) ∧ denotes b env (types c') (list_ascii_of_string name) t).
Proof.
  intros Hh. eapply runs_mono; [by apply Hget, Hh|]. intros r c' (Hok' & Hg & Hr).
  destruct (grows_here _ _ Hh Hok' Hg) as (Hh' & ? & ?). by rewrite (hr_builtins _ _ _ Hh'), (hr_env _ _ _ Hh') in Hr.
Qed.

Lemma pointer_to_name_spec loc name c : here c →
  runs (pointer_to_name get loc name) c (outcome c (λ c' t, is_Some (types c' !! t) ∧
    denotes b env (types c') (list_ascii_of_string (name +:+ "*")) t)).
Proof.
  intros Hh. unfold pointer_to_name. apply runs_bind. eapply runs_mono; [by apply get_outcome|].
  intros r c1 (Hh1 & Hk & He & Hr). destruct r as [t|].
  - apply runs_ret. split; [done|]. split; [done|]. split; [done|]. by apply Hr.
  - by apply failed_spec.
Qed.

(** *** Names *)

Lemma in_local_scope_spec name x c : here c → env name = Some x → runs (in_local_scope x) c (λ _ c', c' = c).
Proof.
  intros [Hok _ He] Hx. unfold in_local_scope. rewrite <- He in Hx. apply bind_Some in Hx as (s & _ & Hs).
  destruct (sscope x) as [d|] eqn:Hd; [|by apply runs_ret].
  destruct (ck_symbols c Hok s x Hs) as (_ & _ & Hlt). apply Hlt in Hd.
  destruct (lookup_lt_is_Some_2 (reverse (scopes (symbol_table c))) d) as [sc Hsc]; [by rewrite length_reverse|].
  apply runs_bind. eapply runs_reads; [exact Hsc|]. by apply runs_ret.
Qed.

Lemma infer_identifier_spec loc name c : here c →
  runs (infer_identifier loc name) c (outcome c (typed (AST_IDENTIFIER loc name))).
Proof.
  intros Hh. unfold infer_identifier. apply (runs_lookup b env); [done| |by intros _; apply undefined_symbol_spec].
  intros x Hx Hxok. destruct (xk_type _ _ Hxok) as (t & Ht & Hl). apply runs_bind, runs_gets, runs_bind.
  assert (runs (mret (stype x)) c (outcome c (typed (AST_IDENTIFIER loc name)))) as Hresult.
  { rewrite Ht. apply runs_some; [done|]. split; [done|]. by eapply type_name. }
  eapply (runs_mono _ _ (λ _ c', c' = c)); [case_match; [by eapply in_local_scope_spec|by apply runs_ret]|].
  intros local c1 ->. destruct local; [|exact Hresult]. rewrite Ht. apply runs_bind, (runs_deref_ok b env); [done..|].
  intros ty Hty _. apply runs_ret. apply runs_bind, runs_gets. rewrite <- Ht.
  repeat case_match; try exact Hresult; by apply error_spec.
Qed.
(** *** Operators of one operand *)

Lemma function_pointer_spec x c : here c → skind x = SYMBOL_FUNCTION → symbol_ok (types c) x →
  runs (function_pointer_to x) c (λ t c', here c' ∧ keeps p c c' ∧ tc_has_error c' = tc_has_error c ∧
    types c' !! t = Some (function_type x) ∧ grows c c').
Proof.
  intros Hh Hk Hx. destruct (xk_function _ _ Hx Hk) as ((r & Hr & Hlr) & ps & Hps & Hlen & Hlive).
  unfold function_pointer_to. apply (runs_builtin b env); [done|]. rewrite Hr.
  eapply runs_mono; [apply new_type_spec; [apply Hh|done| |done..]|].
  - cbn. constructor; [by exists r|]. apply Forall_map, Forall_forall. intros i [_ Hi]%elem_of_seq.
    unfold parameter_type. rewrite Hps. destruct (lookup_lt_is_Some_2 ps i) as [q Hq]; [lia|]. rewrite Hq.
    eapply Forall_lookup_1 in Hlive; [|exact Hq]. destruct Hlive as (j & -> & Hj). by exists j.
  - intros t c' (Hok' & Hg & Ht). destruct (grows_here _ _ Hh Hok' Hg) as (? & ? & ?). split; [done|]. split; [done|]. split; [done|].
    split; [|done]. unfold function_type. by rewrite Hr.
Qed.

Lemma named_function_spec e c : here c →
  runs (named_function e) c (λ r c', c' = c ∧ ∀ x, r = Some x → names_function env e x ∧ symbol_ok (types c) x).
Proof.
  intros Hh. destruct e; try (by apply runs_ret). cbn. apply (runs_lookup b env); [done| |by intros _; apply runs_ret].
  intros x Hx Hok. apply runs_ret. split; [done|]. intros y. case_decide; [|done]. intros [= <-]. split; [|done]. by eexists _, _.
Qed.

Lemma infer_address_spec loc e c : here c → expression n e → fresh c p →
  runs (infer_address_of get infer p loc e) c (outcome c (typed (AST_UNARY_EXPRESSION loc "&" e))).
Proof.
  intros Hh He Hf. unfold infer_address_of. apply runs_bind. eapply runs_mono; [by apply named_function_spec|].
  intros r c1 [-> Hr]. destruct r as [x|].
  - destruct (Hr x eq_refl) as [Hx Hok]. apply runs_bind. eapply runs_mono; [apply function_pointer_spec; [done| |done]|].
    { by destruct Hx as (? & ? & _ & _ & ?). }
    intros t c' (Hh' & Hk & Herr & Ht & _). apply runs_ret. split; [done|]. split; [done|]. split; [done|]. split; [by eexists|].
    by eapply type_function_address.
  - destruct (type_checker_is_lvalue_expression e) eqn:Hlv; [|by apply error_spec].
    apply with_type_spec; [done|done|by apply ready_child|]. intros t c1 Hh1 Hk1 [Hl Ht].
    apply (runs_deref_ok b env); [done..|]. intros ty Hty _. eapply runs_mono; [by apply pointer_to_name_spec|].
    intros r c' Ho. eapply outcome_mono; [exact Ho| |done]. intros t' -> [Hl' Hd]. exists t'. split; [done|].
    split; [done|]. destruct Ho as (_ & Hk' & _). eapply type_address; [done|by eapply has_type_weaken_mut; [apply Hk'|]| |exact Hd].
    eapply lookup_weaken; [exact Hty|apply Hk'].
Qed.

Lemma infer_dereference_spec loc e c : here c → expression n e → fresh c p →
  runs (infer_dereference infer p loc e) c (outcome c (typed (AST_UNARY_EXPRESSION loc "*" e))).
Proof.
  intros Hh He Hf. apply with_type_spec; [done|done|by apply ready_child|]. intros t c1 Hh1 Hk1 [Hl Ht].
  apply (runs_null n); [done|]. intros null Hnull. destruct null; [by apply error_spec|].
  apply (runs_deref_ok b env); [done..|]. intros ty Hty Hok.
  destruct (kind ty) eqn:Hk; try by apply error_spec.
  destruct (base_live b (types c1) (next_type c1)) with t ty as (u & Hu & Hlu); [|done|by left|].
  { destruct Hh1 as [Hok1 <- _]. apply Hok1. }
  rewrite Hu. apply runs_some; [done|]. split; [done|]. eapply type_dereference; [done|by exists ty|]. by rewrite <- Hnull.
Qed.

(** A test on the operand's type. *)
Lemma expects_spec (ok : bool) loc what ty t c (P : TypeChecker → tid → Prop) : here c → is_Some (tname ty) → (ok = true → P c t) →
  runs (if ok then mret (Some t) else mismatch loc (Some what) (tname ty)) c (outcome c P).
Proof. intros Hh Hn Hok. destruct ok; [by apply runs_some; [|apply Hok]|by apply mismatch_spec]. Qed.

Lemma infer_unary_spec loc o e c : here c → expression n e → fresh c p →
  runs (infer_unary get infer p loc o e) c (outcome c (typed (AST_UNARY_EXPRESSION loc o e))).
Proof.
  intros Hh He Hf. unfold infer_unary.
  destruct (String.eqb_spec o "&") as [->|_]; [by apply infer_address_spec|].
  destruct (String.eqb_spec o "*") as [->|_]; [by apply infer_dereference_spec|].
  apply with_type_spec; [done|done|by apply ready_child|]. intros t c1 Hh1 Hk1 [Hl Ht].
  apply (runs_deref_ok b env); [done..|]. intros ty Hty Hok. pose proof (yk_name _ _ _ Hok) as Hn. cbv zeta.
  pose proof (such_spec (types c1) type_checker_is_numeric_type t ty Hty) as Hnum.
  destruct (is_one_of ["+"; "-"]%string o) eqn:Ho.
  { apply expects_spec; [done..|]. intros H. split; [done|]. apply type_sign; [done|done|by apply Hnum]. }
  destruct (String.eqb_spec o "~") as [->|_].
  { apply expects_spec; [done..|]. intros H. split; [done|]. apply type_complement; [done|by exists ty]. }
  destruct (String.eqb_spec o "!") as [->|_]; [|by apply error_spec].
  apply (runs_builtin b env); [done|]. apply expects_spec; [done..|]. intros [H|H]%orb_true_iff; split.
  - apply (builtin_live b env c1 (_, TYPE_INT32)); [done|listed].
  - eapply type_not; [done|]. left. by apply Hnum.
  - apply (builtin_live b env c1 (_, TYPE_INT32)); [done|listed].
  - eapply type_not; [done|]. right. exists ty. split; [done|]. by apply bool_decide_eq_true in H.
Qed.
(** *** Operators of two operands *)

Section operators.
Context (c : TypeChecker) (Hh : here c) (loc : location) (o : string) (l r : ASTNode) (lt rt : tid) (tl tr : Type_).
Context (Hl : expression n l) (Hr : expression n r) (Hlt : types c !! lt = Some tl) (Hrt : types c !! rt = Some tr).
Abbreviation ops := (mkOperands l r lt rt tl tr).

Definition operates (c' : TypeChecker) (t : tid) : Prop := is_Some (types c' !! t) ∧ operation b (types c') o l r lt rt t.

Lemma operand_names : is_Some (tname tl) ∧ is_Some (tname tr).
Proof.
  destruct Hh as [Hok _ _]. pose proof (sk_types _ _ _ (ck_store c Hok)) as Ht. split; [eapply yk_name, Ht, Hlt|eapply yk_name, Ht, Hrt].
Qed.

Lemma both_spec test what k : (test tl = true → test tr = true → runs k c (outcome c operates)) →
  runs (both test what ops k) c (outcome c operates).
Proof.
  intros Hk. destruct operand_names. unfold both. cbn [bo_l bo_r bo_left bo_right].
  destruct (test tl) eqn:H1; cbn [negb]; [|by apply mismatch_spec].
  destruct (test tr) eqn:H2; cbn [negb]; [by apply Hk|by apply mismatch_spec].
Qed.

Lemma promoted_left : is_bitwise o = true → type_checker_promote_types (types c) b lt rt o = Some lt.
Proof.
  intros Ho. unfold type_checker_promote_types. rewrite Hlt, Hrt. cbn [mbind option_bind].
  by each_of Ho.
Qed.

Lemma promoted_spec t : type_checker_promote_types (types c) b lt rt o = Some t → operates c t →
  runs (promoted o ops) c (outcome c operates).
Proof.
  intros Ht Hop. unfold promoted. apply runs_bind. eapply runs_reads; [by rewrite (hr_builtins _ _ _ Hh)|]. by apply runs_some.
Qed.

Lemma larger_operand t : type_checker_get_larger_type (types c) lt rt = Some t → t = lt ∨ t = rt.
Proof. unfold type_checker_get_larger_type. rewrite Hlt, Hrt. cbn. intros [= <-]. case_match; auto. Qed.

Lemma arithmetic_operation_spec : is_arithmetic o = true → runs (arithmetic_operation o ops) c (outcome c operates).
Proof.
  intros Ho. unfold arithmetic_operation. apply both_spec. intros Hnl Hnr.
  assert ((o = "%"%string → type_checker_is_integer_type tl = true ∧ type_checker_is_integer_type tr = true) →
    runs (promoted o ops) c (outcome c operates)) as Hp.
  { intros Hm. destruct (type_checker_get_larger_type (types c) lt rt) as [t|] eqn:Ht.
    - eapply promoted_spec; [by erewrite promoted_larger|]. split; [destruct (larger_operand t Ht) as [-> | ->]; by eexists|].
      apply operation_arithmetic; [done|by exists tl|by exists tr| |done].
      intros H. destruct (Hm H). split; [by exists tl|by exists tr].
    - unfold type_checker_get_larger_type in Ht. by rewrite Hlt, Hrt in Ht. }
  destruct (String.eqb_spec o "%") as [->|]; [apply both_spec; intros; by apply Hp|by apply Hp].
Qed.

Lemma is_kind_spec k t ty : types c !! t = Some ty → is_kind k ty = true ↔ has_kind (types c) k t.
Proof. intros Ht. unfold is_kind. rewrite bool_decide_eq_true. symmetry. by apply kind_spec. Qed.

Lemma pointer_arithmetic_spec : is_one_of ["+"; "-"]%string o = true → runs (pointer_arithmetic loc o ops) c (outcome c operates).
Proof.
  intros Ho. unfold pointer_arithmetic. cbn [bo_l bo_r bo_lt bo_rt]. cbv zeta.
  pose proof (is_kind_spec TYPE_POINTER lt tl Hlt) as Hkl. pose proof (is_kind_spec TYPE_POINTER rt tr Hrt) as Hkr.
  destruct (is_kind TYPE_POINTER tl && type_checker_is_integer_type tr) eqn:H1.
  { apply andb_true_iff in H1 as [? ?]. apply runs_some; [done|]. split; [by eexists|].
    apply operation_offset; [done|by apply Hkl|by exists tr]. }
  destruct (String.eqb_spec o "+") as [->|Hne].
  { destruct (is_kind TYPE_POINTER tr && type_checker_is_integer_type tl) eqn:H2; [|by apply error_spec].
    apply andb_true_iff in H2 as [? ?]. apply runs_some; [done|]. split; [by eexists|].
    apply operation_offset_left; [done|by exists tl|by apply Hkr]. }
  destruct (is_kind TYPE_POINTER tl && is_kind TYPE_POINTER tr) eqn:H3; [|by apply error_spec].
  apply andb_true_iff in H3 as [? ?]. apply (runs_equal b env); [done|by eexists..|]. intros x Hx.
  destruct x; [|by apply error_spec]. apply (runs_builtin b env); [done|]. apply runs_some; [done|]. split.
  - apply (builtin_live b env c (_, TYPE_INT64)); [done|listed].
  - apply operation_distance; [|by apply Hkl|by apply Hkr|by apply Hx].
    by each_of Ho.
Qed.

Lemma cannot_compare_spec : runs (cannot_compare loc ops) c (outcome c operates).
Proof.
  destruct operand_names. unfold cannot_compare. apply runs_printed; [done|]. intros ? _. apply runs_printed; [done|]. intros ? _.
  by apply error_spec.
Qed.

Lemma bool_live : is_Some (types c !! builtin_bool b).
Proof. apply (builtin_live b env c (_, TYPE_BOOL)); [done|listed]. Qed.

Lemma pointer_comparison_spec : runs (pointer_comparison loc o ops) c (outcome c operates).
Proof.
  unfold pointer_comparison. cbn [bo_l bo_r bo_lt bo_rt bo_left bo_right]. cbv zeta.
  destruct (is_one_of ["=="; "!="]%string o) eqn:Ho; [|by apply error_spec]. cbn [negb].
  pose proof (is_kind_spec TYPE_POINTER lt tl Hlt) as Hkl. pose proof (is_kind_spec TYPE_POINTER rt tr Hrt) as Hkr.
  apply (runs_null n); [done|]. intros nl Hnl. apply (runs_null n); [done|]. intros nr Hnr. apply runs_bind.
  eapply (runs_mono _ _ (λ x c', c' = c ∧ (x = true → has_kind (types c) TYPE_POINTER lt ∧ has_kind (types c) TYPE_POINTER rt ∧ same (types c) lt rt))).
  { destruct (is_kind TYPE_POINTER tl && is_kind TYPE_POINTER tr) eqn:H; [|by apply runs_ret].
    apply andb_true_iff in H as [? ?]. destruct (equal_spec b (types c) (next_type c)) with lt rt as (x & Hx & Hiff).
    { rewrite <- (hr_builtins _ _ _ Hh). apply Hh. } { by eexists. } { by eexists. }
    eapply runs_reads; [exact Hx|]. split; [done|]. intros ->. split; [by apply Hkl|]. split; [by apply Hkr|by apply Hiff]. }
  intros x c' [-> Hx]. destruct (_ || _) eqn:Hcond; [|apply cannot_compare_spec].
  apply (runs_builtin b env); [done|]. apply runs_some; [done|]. split; [apply bool_live|]. apply operation_pointers; [done|].
  rewrite !orb_true_iff, !andb_true_iff in Hcond. tauto.
Qed.

Lemma comparison_spec : is_comparison o = true → runs (comparison loc o ops) c (outcome c operates).
Proof.
  intros Ho. unfold comparison. cbn [bo_l bo_r bo_lt bo_rt]. destruct (_ || _); [apply pointer_comparison_spec|].
  apply (runs_compatible b env); [done|by eexists..|]. intros x Hx. destruct x; [|apply cannot_compare_spec].
  apply (runs_builtin b env); [done|]. apply runs_some; [done|]. split; [apply bool_live|].
  apply operation_comparison; [done|by apply Hx].
Qed.

Lemma binary_operation_spec : runs (binary_operation loc o ops) c (outcome c operates).
Proof.
  unfold binary_operation. apply runs_bind, runs_gets. rewrite (hr_builtins _ _ _ Hh). cbn [bo_l bo_r bo_lt bo_rt].
  destruct (_ && _ && _) eqn:Htext.
  { rewrite !andb_true_iff, !Pos.eqb_eq, String.eqb_eq in Htext. destruct Htext as [[-> ->] ->].
    apply runs_some; [done|]. split; [by eexists|by apply operation_text]. }
  destruct (is_one_of ["+"; "-"]%string o && _) eqn:Hp; [apply andb_prop in Hp as [? _]; by apply pointer_arithmetic_spec|].
  destruct (is_arithmetic o) eqn:Ha; [by apply arithmetic_operation_spec|].
  destruct (is_bitwise o) eqn:Hb.
  { apply both_spec. intros. eapply promoted_spec; [by apply promoted_left|]. split; [by eexists|].
    apply operation_bits; [done|by exists tl|by exists tr]. }
  destruct (is_comparison o) eqn:Hc; [by apply comparison_spec|].
  destruct (is_logical o) eqn:Hlog; [|by apply error_spec]. apply both_spec. intros H1 H2. apply runs_some; [done|].
  split; [apply bool_live|].
  assert (∀ ty, type_checker_is_numeric_type ty || is_kind TYPE_BOOL ty = true → type_checker_is_numeric_type ty = true) as Hnum.
  { intros ty [?|Hk]%orb_true_iff; [done|]. apply bool_decide_eq_true in Hk.
    unfold type_checker_is_numeric_type, type_checker_is_integer_type. by rewrite Hk. }
  apply operation_logical; [done|exists tl|exists tr]; by auto.
Qed.
End operators.
Lemma check_binary_spec loc o l r c : here c → expression n l → expression n r → fresh c p →
  runs (type_checker_check_binary_expression infer p loc o l r) c (outcome c (typed (AST_BINARY_EXPRESSION loc o l r))).
Proof.
  intros Hh Hl Hr Hf. unfold type_checker_check_binary_expression. apply runs_bind.
  eapply runs_mono; [apply Hinfer; [exact Hh|done|by apply ready_child]|]. intros rl c1 (Hh1 & Hk1 & Ho1). apply runs_bind.
  eapply runs_mono; [apply Hinfer; [exact Hh1|exact Hr|by eapply ready_keeps; [exact Hk1|done|by apply ready_child]]|].
  intros rr c2 (Hh2 & Hk2 & Ho2). apply keeps_child in Hk1, Hk2. assert (keeps p c c2) as Hk by by etrans.
  destruct rl as [lt|]; [|apply runs_ret; split; [done|]; split; [done|]; destruct rr; [by destruct Ho2 as [-> _]|done]].
  destruct rr as [rt|]; [|by apply runs_ret]. destruct Ho1 as [He1 [Htl _]], Ho2 as [He2 [Htr _]].
  apply (typed_keeps _ _ _ _ _ _ _ Hk2) in Htl. apply (runs_deref_ok b env); [done|apply Htl|]. intros tl Hlt _.
  apply (runs_deref_ok b env); [done|apply Htr|]. intros tr Hrt _.
  eapply runs_mono; [by apply binary_operation_spec|]. intros t c' Ho.
  eapply outcome_trans; [exact Hk|by rewrite He2|]. eapply outcome_mono; [exact Ho| |done]. intros t' -> [Hl' Hop]. exists t'.
  split; [done|]. split; [done|]. destruct Ho as (_ & Hk' & _).
  eapply type_binary; [eapply typed_keeps; [exact Hk'|exact Htl]|eapply typed_keeps; [exact Hk'|exact Htr]|exact Hop].
Qed.

(** *** Calls *)

(** A step that reports nothing. *)
Definition quiet (c c' : TypeChecker) : Prop := here c' ∧ keeps p c c' ∧ tc_has_error c' = tc_has_error c.

Lemma warn_quiet loc m c : here c → runs (warn loc m) c (λ _, quiet c).
Proof. intros Hh. split; [by apply set_reporter_here|]. by split; [split|]. Qed.

Lemma ret_quiet c : here c → runs (mret ()) c (λ _, quiet c).
Proof. intros Hh. by apply runs_ret. Qed.

Lemma reporting_quiet m c : here c → runs m c (λ _, quiet c) → runs (reporting m) c (λ _, quiet c).
Proof. intros Hh Hm. unfold reporting. apply runs_bind, runs_gets. destruct (tc_error_reporter c); [done|by apply ret_quiet]. Qed.

Lemma runs_constant {A} e (k : option Z → TM A) c Q : expression n e →
  (∀ v, type_checker_eval_integer_constant e = Some v → runs (k v) c Q) → runs (integer_constant e ≫= k) c Q.
Proof. intros [v Hv]%expression_constant Hk. apply runs_bind. eapply runs_reads; [exact Hv|]. by apply Hk. Qed.

Lemma recv_quiet name args c : here c → Forall (expression n) args →
  runs (type_checker_warn_recv_buffer_bounds name args) c (λ _, quiet c).
Proof.
  intros Hh Hargs. apply reporting_quiet; [done|]. destruct (String.eqb name "recv"); [|by apply ret_quiet].
  destruct args as [|? [|buffer [|len ?]]]; try by apply ret_quiet.
  apply runs_bind, runs_gets. repeat first [case_match; [|by apply ret_quiet]|case_match; [by apply ret_quiet|]].
  apply runs_constant; [by do 3 apply Forall_cons in Hargs as [? Hargs]|]. intros v _.
  destruct v; [|by apply ret_quiet]. case_match; [by apply warn_quiet|by apply ret_quiet].
Qed.

Lemma quiet_bind {A} m (k : A → TM ()) c : runs m c (λ _, quiet c) → (∀ a c1, here c1 → runs (k a) c1 (λ _, quiet c1)) →
  runs (m ≫= k) c (λ _, quiet c).
Proof.
  intros Hm Hk. apply runs_bind. eapply runs_mono; [exact Hm|]. intros a c1 (Hh1 & Hk1 & He1).
  eapply runs_mono; [by apply Hk|]. intros [] c2 (Hh2 & Hk2 & He2). split; [done|]. split; [by etrans|congruence].
Qed.

Lemma memcpy_quiet name args c : here c → Forall (expression n) args →
  runs (type_checker_warn_memcpy_buffer_bounds name args) c (λ _, quiet c).
Proof.
  intros Hh Hargs. apply reporting_quiet; [done|]. destruct (is_one_of _ name); [|by apply ret_quiet].
  destruct args as [|dst [|src [|len ?]]]; try by apply ret_quiet.
  apply Forall_cons in Hargs as [Hd Hargs]. apply Forall_cons in Hargs as [Hs Hargs]. apply Forall_cons in Hargs as [Hn _].
  apply runs_constant; [done|]. intros v _. destruct v as [v|]; [|by apply ret_quiet]. case_match; [by apply ret_quiet|].
  destruct (extent_defined (tracked_buffer_extents c) n dst Hd) as [xd Hxd], (extent_defined (tracked_buffer_extents c) n src Hs) as [xs Hxs].
  apply runs_bind. eapply runs_reads; [exact Hxd|]. apply runs_bind. eapply runs_reads; [exact Hxs|]. cbv zeta.
  apply quiet_bind; [|intros _ c1 Hh1]; case_match; first [by apply warn_quiet|by apply ret_quiet].
Qed.
(** The arguments of a call, the first the child [first]. *)
Definition arguments_ready (c : TypeChecker) (first : nat) (arguments : list ASTNode) : Prop :=
  Forall (expression n) arguments ∧ ∀ j a, arguments !! j = Some a → ready b env c (first + j :: p) a.

Lemma check_arguments_spec first arguments : ∀ i params param c, here c →
  Forall (expression n) arguments → (∀ j a, arguments !! j = Some a → ready b env c (first + (i + j) :: p) a) →
  length params = length arguments → Forall (live (types c)) params → (∀ j, j < length params → param (i + j) = params !! j) →
  runs (check_arguments infer p first i arguments param) c
    (λ ok, outcome c (λ c' _, passes b (types c') env arguments params) (if ok then Some () else None)).
Proof.
  induction arguments as [|a arguments IH]; intros i params param c Hh Hexp Hready Hlen Hlive Hparam; cbn [check_arguments].
  - apply runs_ret. destruct params; [|done]. split; [done|]. split; [done|]. split; [done|constructor].
  - destruct params as [|q params]; [done|]. apply Forall_cons in Hexp as [Ha Hexp]. apply Forall_cons in Hlive as [(t & -> & Hlt) Hlive].
    pose proof (Hready 0 a eq_refl) as Hra. rewrite Nat.add_0_r in Hra. apply runs_bind.
    eapply runs_mono; [by apply Hinfer|]. intros r c1 (Hh1 & Hk1 & Ho1). apply keeps_child in Hk1 as Hkp.
    destruct r as [u|]; [|by apply runs_ret]. destruct Ho1 as [He1 [Htu _]].
    assert (is_Some (types c1 !! t)) as Hlt1 by by eapply is_Some_weaken; [apply Hkp|].
    assert (param i = Some (Some t)) as Hpi. { pose proof (Hparam 0) as H. rewrite Nat.add_0_r in H. apply H. cbn. lia. }
    apply runs_bind. eapply runs_reads; [exact Hpi|]. cbn match. apply runs_bind, (runs_deref_ok b env); [done..|]. intros ty Hty Hok. apply runs_ret.
    pose proof (is_kind_spec c1 TYPE_POINTER t ty Hty) as Hk. apply runs_bind.
    eapply (runs_mono _ _ (λ x c', c' = c1 ∧ (x = true → has_kind (types c1) TYPE_POINTER t ∧ constant a 0))).
    { destruct (is_kind TYPE_POINTER ty); [|by apply runs_ret]. destruct (expression_null n a Ha) as (x & Hx & Hiff).
      eapply runs_reads; [exact Hx|]. split; [done|]. intros ->. split; [by apply Hk|by apply Hiff]. }
    intros null c1' [-> Hnull]. apply runs_bind.
    eapply (runs_mono _ _ (λ x c', c' = c1 ∧ (x = true → (has_kind (types c1) TYPE_POINTER t ∧ constant a 0) ∨ assignable (types c1) t u))).
    { destruct null; [apply runs_ret; split; [done|]; intros _; left; by apply Hnull|].
      destruct (assignable_spec b (types c1) (next_type c1)) with t u as (x & Hx & Hiff); [|done|apply Htu|].
      { rewrite <- (hr_builtins _ _ _ Hh1). apply Hh1. }
      eapply runs_reads; [exact Hx|]. split; [done|]. intros ->. right. by apply Hiff. }
    intros ok c1' [-> Hpass]. destruct ok.
    + eapply runs_mono; [apply (IH (S i) params param c1); [done|done| |by injection Hlen| |]|].
      * intros j a' Hj. replace (S i + j) with (i + S j) by lia. eapply ready_keeps; [exact Hk1|lia|]. by apply Hready.
      * eapply Forall_impl; [exact Hlive|]. intros x. eapply live_weaken, Hkp.
      * intros j Hj. replace (S i + j) with (i + S j) by lia. apply (Hparam (S j)). cbn. lia.
      * intros ok c' Ho. eapply outcome_trans; [exact Hkp|done|]. eapply outcome_mono; [exact Ho| |by destruct ok].
        intros [] Hok' Hps. exists (). split; [done|]. destruct Ho as (_ & Hk' & _).
        eapply passes_argument; [eapply has_type_weaken_mut; [apply Hk'|apply Htu]| |exact Hps].
        destruct Hpass as [[]|]; [done|left; split; [by eapply kind_weaken; [apply Hk'|]|done]|].
        right. by eapply assignable_weaken; [apply Hk'|].
    + apply runs_bind. eapply runs_reads; [done|]. apply runs_bind. eapply runs_deref; [exact Hty|].
      destruct Htu as [[uy Huy] _]. apply (runs_deref_ok b env); [done|by exists uy|]. intros uy' Huy' Huok. apply runs_bind.
      destruct (yk_name _ _ _ Hok) as [s1 ->], (yk_name _ _ _ Huok) as [s2 ->].
      apply runs_modify, runs_ret. split; [by apply set_errors_here|]. split; [|done]. etrans; [exact Hkp|by split].
Qed.
(** The same, with as many arguments as parameters. *)
Lemma call_arguments_spec {A} first arguments params (param : nat → option (option tid)) (P : TypeChecker → A → Prop) (k : bool → TM (option A)) c :
  here c → arguments_ready c first arguments → length params = length arguments → Forall (live (types c)) params →
  (∀ j, j < length params → param j = params !! j) →
  (∀ c1, here c1 → keeps p c c1 → tc_has_error c1 = tc_has_error c → passes b (types c1) env arguments params →
    runs (k true) c1 (outcome c1 P)) →
  (∀ c1, here c1 → keeps p c c1 → tc_has_error c1 = true → runs (k false) c1 (outcome c P)) →
  runs (check_arguments infer p first 0 arguments param ≫= k) c (outcome c P).
Proof.
  intros Hh [Hexp Hready] Hlen Hlive Hparam Ht Hf. apply runs_bind. eapply runs_mono; [by apply (check_arguments_spec _ _ 0 params)|].
  intros ok c1 (Hh1 & Hk1 & Ho). destruct ok; [|by apply Hf]. destruct Ho as [He Hps].
  eapply runs_mono; [by apply Ht|]. intros r c'. by apply outcome_trans.
Qed.

Definition applied (name : string) (arguments : list ASTNode) (c : TypeChecker) (t : tid) : Prop :=
  is_Some (types c !! t) ∧ applies b (types c) env name arguments t.

Lemma function_pointer_live c t ty : here c → types c !! t = Some ty → kind ty = TYPE_FUNCTION_POINTER →
  Forall (live (types c)) (fn_return_type ty :: fn_param_types ty).
Proof.
  intros Hh Ht Hk. pose proof (yk_shape _ _ _ (sk_types _ _ _ (ck_store c (hr_ok _ _ _ Hh)) t ty Ht)) as Hs.
  unfold components in Hs. rewrite Hk in Hs. eapply Forall_impl; [exact Hs|]. cbv beta. intros x (j & ? & ? & _). by exists j.
Qed.

Lemma call_pointer_spec loc first arguments ty (P : TypeChecker → tid → Prop) c : here c → arguments_ready c first arguments →
  Forall (live (types c)) (fn_return_type ty :: fn_param_types ty) →
  (∀ c1 t, keeps p c c1 → is_Some (types c1 !! t) → fn_return_type ty = Some t → passes b (types c1) env arguments (fn_param_types ty) → P c1 t) →
  runs (call_pointer infer p loc first arguments ty) c (outcome c P).
Proof.
  intros Hh Hready [(t & Ht & Hlt) Hlive]%Forall_cons HP. unfold call_pointer.
  destruct (Nat.eqb_spec (length arguments) (length (fn_param_types ty))) as [Hlen|]; [|by apply error_spec]. cbn [negb].
  eapply call_arguments_spec; [done|done|by symmetry in Hlen|done|done| |].
  - intros c1 Hh1 Hk1 He1 Hps. rewrite Ht. apply runs_some; [done|]. apply HP; [done|by eapply is_Some_weaken; [apply Hk1|]|done|done].
  - intros c1 Hh1 Hk1 He1. by apply runs_ret.
Qed.

Lemma call_constructor_spec loc name first arguments x c : here c → env name = Some x → symbol_ok (types c) x →
  skind x = SYMBOL_TAGGED_ENUM_CONSTRUCTOR → arguments_ready c first arguments →
  runs (call_constructor infer p loc name first arguments (constructor x)) c (outcome c (applied name arguments)).
Proof.
  intros Hh Hx Hok Hk [Hexp Hready]. destruct (xk_constructor _ _ Hok Hk) as [(t & Ht & Hlt) Hpay]. unfold call_constructor.
  destruct (payload_type (constructor x)) as [payload|] eqn:Hp.
  - destruct (Nat.eqb_spec (length arguments) 1) as [Hlen|]; [|by apply error_spec]. cbn [negb].
    destruct arguments as [|a [|]]; [done| |done]. apply Forall_cons in Hexp as [Ha _].
    pose proof (Hready 0 a eq_refl) as Hra. rewrite Nat.add_0_r in Hra.
    apply with_type_spec; [done..|]. intros u c1 Hh1 Hk1 [Hlu Hu]. apply keeps_child in Hk1.
    assert (is_Some (types c1 !! payload)) as Hlp by (eapply is_Some_weaken; [apply Hk1|by apply Hpay]).
    apply (runs_assignable b env); [done..|]. intros ok Hokk. destruct ok.
    + rewrite Ht. apply runs_some; [done|]. split; [by eapply is_Some_weaken; [apply Hk1|]|].
      eapply applies_constructor; [done..|by apply Hokk|done].
    + apply (runs_deref_ok b env); [done..|]. intros pt _ Hpt. apply (runs_deref_ok b env); [done..|]. intros ut _ Hut.
      apply mismatch_spec; [done|by eapply yk_name|by eapply yk_name].
  - destruct (Nat.eqb_spec (length arguments) 0) as [Hlen|]; [|by apply error_spec]. cbn [negb].
    destruct arguments; [|done]. rewrite Ht. apply runs_some; [done|]. split; [done|]. by eapply applies_tag.
Qed.

Lemma call_function_spec loc name first arguments x c : here c → env name = Some x → symbol_ok (types c) x →
  skind x = SYMBOL_FUNCTION → arguments_ready c first arguments →
  runs (call_function infer p loc name first arguments x) c (outcome c (applied name arguments)).
Proof.
  intros Hh Hx Hok Hk Hready. destruct (xk_function _ _ Hok Hk) as [(t & Ht & Hlt) (ps & Hps & Hlen & Hlive)]. unfold call_function.
  destruct (Nat.eqb_spec (length arguments) (parameter_count (function x))) as [Hn|]; [|by apply error_spec]. cbn [negb].
  eapply (call_arguments_spec _ _ ps); [done|done|congruence|done|by rewrite Hps| |].
  - intros c1 Hh1 Hk1 He1 Hpass. apply runs_bind. eapply runs_mono; [apply recv_quiet; [done|apply Hready]|]. intros _ c2 (Hh2 & Hk2 & He2).
    apply runs_bind. eapply runs_mono; [apply memcpy_quiet; [done|apply Hready]|]. intros _ c3 (Hh3 & Hk3 & He3).
    assert (keeps p c1 c3) as Hk13 by by etrans. apply runs_ret. rewrite Ht. split; [done|]. split; [done|]. split; [congruence|].
    split; [eapply is_Some_weaken; [apply Hk13|]; eapply is_Some_weaken; [apply Hk1|done]|].
    eapply applies_function; [done..| |done]. by eapply has_type_weaken_mut; [apply Hk13|].
  - intros c1 Hh1 Hk1 He1. by apply runs_ret.
Qed.

Lemma callable_spec x c : here c → symbol_ok (types c) x →
  runs (is_callable_variable x) c (λ r c', c' = c ∧ ∀ ty, r = Some ty → skind x = SYMBOL_VARIABLE ∧ ∃ t, stype x = Some t ∧
    types c !! t = Some ty ∧ kind ty = TYPE_FUNCTION_POINTER).
Proof.
  intros Hh Hok. destruct (xk_type _ _ Hok) as (t & Ht & Hl). unfold is_callable_variable. rewrite Ht.
  destruct (skind x); try by apply runs_ret. apply (runs_deref_ok b env); [done..|]. intros ty Hty _. apply runs_ret. split; [done|].
  intros ty'. unfold is_kind. case_bool_decide; [|done]. intros [= <-]. split; [done|]. by exists t.
Qed.

Lemma call_symbol_spec loc name first arguments c : here c → arguments_ready c first arguments →
  runs (call_symbol infer p loc name first arguments) c (outcome c (applied name arguments)).
Proof.
  intros Hh Hready. unfold call_symbol. apply (runs_lookup b env); [done| |by intros _; apply undefined_symbol_spec].
  intros x Hx Hok. apply runs_bind. eapply runs_mono; [by apply callable_spec|]. intros r c' [-> Hr]. destruct r as [ty|].
  - destruct (Hr ty eq_refl) as (Hk & t & Ht & Hty & Hfk). apply runs_bind, runs_modify.
    set (c1 := set_nodes _ _ _ c). assert (here c1) as Hh1 by by destruct Hh as [[]]. assert (keeps p c c1) as Hk1 by by split.
    eapply runs_mono; [apply (call_pointer_spec _ _ _ _ (applied name arguments)); [exact Hh1| | |]|].
    + destruct Hready as [Hexp Hr']. split; [done|]. exact Hr'.
    + by eapply (function_pointer_live c1 t).
    + intros c2 u Hk2 Hlu Hu Hps. split; [done|]. eapply applies_variable; [done..| |done|exact Hps|done].
      eapply lookup_weaken; [exact Hty|apply Hk2].
    + intros r' c'. by apply outcome_trans.
  - destruct (skind x) eqn:Hk; cbv zeta;
      first [by eapply call_function_spec|by eapply call_constructor_spec|by apply error_spec].
Qed.
Lemma sizeof_spec loc arguments c : here c →
  runs (resolve_sizeof_argument get loc arguments) c (outcome c (λ c' t, ∃ l name, arguments = [AST_IDENTIFIER l name] ∧
    denotes b env (types c') (list_ascii_of_string name) t)).
Proof.
  intros Hh. unfold resolve_sizeof_argument. destruct arguments as [|a [|]]; [by apply error_spec| |destruct a; cbn match; by first [apply error_spec|case_match; apply error_spec]].
  destruct a; cbn match; try (by apply error_spec); try (by case_match; apply error_spec).
  apply runs_bind. eapply runs_mono; [by apply get_outcome|]. intros r c1 (Hh1 & Hk1 & He1 & Hr). destruct r as [t|].
  - apply runs_ret. split; [done|]. split; [done|]. split; [done|]. eexists _, _. split; [done|]. by apply Hr.
  - by apply failed_spec.
Qed.

Lemma receiver_spec t c : here c → is_Some (types c !! t) →
  runs (type_checker_method_receiver_struct_type (Some t)) c (λ r c', c' = c ∧ ∀ ty, r = Some ty → receiver (types c) t ty).
Proof.
  intros Hh Ht. unfold type_checker_method_receiver_struct_type. apply (runs_deref_ok b env); [done..|]. intros ty Hty _.
  destruct (kind ty) eqn:Hk; try by apply runs_ret.
  - destruct (base_live b (types c) (next_type c)) with t ty as (u & Hu & Hlu);
      [rewrite <- (hr_builtins _ _ _ Hh); apply Hh|done|by left|].
    rewrite Hu. apply (runs_deref_ok b env); [done..|]. intros base Hbase _. apply runs_ret. split; [done|]. intros ty'.
    unfold is_kind. case_bool_decide; [|done]. intros [= <-]. split; [done|]. right. exists u. split; [by exists ty|done].
  - apply runs_ret. split; [done|]. intros ty' [= <-]. split; [done|]. by left.
Qed.

Lemma runs_lookup_name {A} name (k : option sid → TM A) c Q : here c → (∀ s, runs (k s) c Q) → runs (lookup_name name ≫= k) c Q.
Proof.
  intros [Hok _ _] Hk. apply runs_bind. eapply runs_reads; [|apply Hk]. apply lookup_chain_abs, (ck_table c Hok).
Qed.

(** The method's function, and the object inferred. *)
Record desugared (fname : string) (o : ASTNode) (c c' : TypeChecker) (mangled : string) : Prop := {
  ds_name : ∃ u ty struct_name, resolved_types c' !! (0 :: p) = Some u ∧ typed o c' u ∧ receiver (types c') u ty ∧
    tname ty = Some struct_name ∧ mangled = (struct_name +:+ "_" +:+ fname)%string;
  ds_ready : ∀ j e, ready b env c (S j :: p) e → ready b env c' (S j :: p) e }.

Lemma path_above i (q : path) : ¬ (i :: q) `suffix_of` q.
Proof. intros [k Hk]. apply (f_equal length) in Hk. rewrite length_app in Hk. cbn in Hk. lia. Qed.

Lemma method_name_ready i c methods e : ready b env c (i :: p) e →
  (∀ q, q ≠ p → methods !! q = method_calls c !! q) →
  ready b env (set_nodes (resolved_types c) methods (indirect_calls c) c) (i :: p) e.
Proof.
  intros [Hf|(t & ? & ? & ?)] Hm; [left|right; by exists t]. intros q Hq. cbn. rewrite Hm; [by apply Hf|].
  intros ->. by apply path_above in Hq.
Qed.

Lemma desugar_spec loc fname o c : here c → expression n o → fresh c p →
  runs (type_checker_desugar_struct_method_call infer p loc fname o) c (outcome c (desugared fname o c)).
Proof.
  intros Hh Ho Hf. unfold type_checker_desugar_struct_method_call. apply runs_bind.
  eapply runs_mono; [apply Hinfer; [exact Hh|done|by apply ready_child]|]. intros r c1 (Hh1 & Hk1 & Hr).
  apply keeps_child in Hk1 as Hkp. destruct r as [u|].
  2: { apply runs_bind, runs_ret, runs_bind, runs_ret. by apply failed_spec. }
  destruct Hr as [He1 [Hu Hres]]. apply runs_bind. eapply runs_mono; [apply receiver_spec; [done|apply Hu]|]. intros st c1' [-> Hst].
  destruct (st ≫= tname) as [sn|] eqn:Hsn.
  - apply bind_Some in Hsn as (ty & -> & Hn). specialize (Hst ty eq_refl). apply runs_lookup_name; [done|]. intros s.
    destruct s as [s|].
    + apply runs_bind, runs_modify, runs_ret. split; [by destruct Hh1 as [[]]|]. split.
      * etrans; [exact Hkp|]. split; try done. intros q Hq. apply lookup_insert_ne. by intros ->.
      * split; [done|]. split; [exists u, ty, sn; by split_and!|]. intros j e Hready.
        apply method_name_ready; [by eapply ready_keeps; [exact Hk1|done|]|]. intros q Hq. by apply lookup_insert_ne.
    + by apply failed_spec.
  - apply runs_bind, (runs_deref_ok b env); [done|apply Hu|]. intros ty _ _. apply runs_ret.
    by apply failed_spec.
Qed.
Lemma infer_call_spec loc d c : here c → fresh c p → ce_function_name d ≠ "static_assert"%string →
  Forall (expression n) (ce_arguments d) → (∀ o, ce_object d = Some o → expression n o) →
  runs (infer_call get infer p loc d) c (outcome c (typed (AST_FUNCTION_CALL loc d))).
Proof.
  intros Hh Hf Hsa Hargs Hobj. unfold infer_call. apply runs_bind, runs_gets. destruct (Hf p) as [_ ->]; [done|]. cbv beta iota zeta.
  destruct (String.eqb_spec (ce_function_name d) "sizeof") as [Hs|Hs].
  - apply runs_bind. eapply runs_mono; [by apply sizeof_spec|]. intros r c1 Ho. apply (runs_builtin b env); [apply Ho|]. apply runs_ret.
    eapply outcome_mono; [exact Ho| |by intros ->]. intros t -> (l & name & Ha & Hd). exists (builtin_int64 b). split; [done|]. split.
    + apply (builtin_live b env c1 (_, TYPE_INT64)); [apply Ho|listed].
    + by eapply type_sizeof.
  - apply String.eqb_neq in Hsa. rewrite Hsa. destruct (ce_object d) as [o|] eqn:Hod.
    + apply runs_bind. eapply runs_mono; [by apply desugar_spec; [|apply Hobj|]|]. intros r c1 (Hh1 & Hk1 & Ho).
      destruct r as [mangled|]; [|by apply runs_ret]. destruct Ho as [He1 [(u & ty & sn & Hres & Hu & Hrec & Hn & ->) Hready]].
      eapply runs_mono; [apply (call_symbol_spec loc _ 0 (o :: ce_arguments d)); [done|]|].
      * split; [constructor; [by apply Hobj|done]|]. intros [|j] a Hj; [injection Hj as <-; right; exists u; by destruct Hu|].
        apply Hready. by apply ready_child.
      * intros r c' Ho. eapply outcome_trans; [exact Hk1|done|]. eapply outcome_mono; [exact Ho| |done].
        intros t -> [Hl Happ]. exists t. split; [done|]. split; [done|]. destruct Ho as (_ & Hk' & _).
        eapply type_method; [done|done| | |exact Hn|exact Happ].
        -- by eapply typed_keeps.
        -- eapply receiver_weaken; [apply Hk'|exact Hrec].
    + eapply runs_mono; [apply (call_symbol_spec loc _ 1); [done|]|].
      * split; [done|]. intros j a Hj. by apply ready_child.
      * intros r c' Ho. eapply outcome_mono; [exact Ho| |done]. intros t -> [Hl Happ]. exists t. split; [done|]. split; [done|].
        by apply type_call.
Qed.

Lemma infer_func_ptr_call_spec loc callee arguments c : here c → fresh c p → expression n callee → Forall (expression n) arguments →
  runs (infer_func_ptr_call infer p loc callee arguments) c (outcome c (typed (AST_FUNC_PTR_CALL loc callee arguments))).
Proof.
  intros Hh Hf Hcal Hargs. apply with_type_spec; [done|done|by apply ready_child|]. intros u c1 Hh1 Hk1 Hu.
  apply (runs_deref_ok b env); [done|apply Hu|]. intros ty Hty _. apply runs_bind.
  eapply (runs_mono _ _ (λ ty' c2, here c2 ∧ keeps p c1 c2 ∧ tc_has_error c2 = tc_has_error c1 ∧
    (∀ j a, ready b env c1 (j :: p) a → ready b env c2 (j :: p) a) ∧
    (kind ty' = TYPE_FUNCTION_POINTER → Forall (live (types c2)) (fn_return_type ty' :: fn_param_types ty') ∧
      ((types c1 !! u = Some ty' ∧ kind ty' = TYPE_FUNCTION_POINTER) ∨ ∃ x, names_function env callee x ∧ ty' = function_type x)))).
  { destruct (is_kind TYPE_FUNCTION_POINTER ty) eqn:Hk.
    - apply runs_ret. split; [done|]. split; [done|]. split; [done|]. split; [done|]. apply bool_decide_eq_true in Hk. intros _.
      split; [by eapply function_pointer_live|by left].
    - apply runs_bind. eapply runs_mono; [by apply named_function_spec|]. intros r c' [-> Hr]. destruct r as [x|].
      + destruct (Hr x eq_refl) as [Hx Hok]. apply runs_bind. eapply runs_mono; [apply function_pointer_spec; [done| |done]|].
        { by destruct Hx as (? & ? & _ & _ & ?). }
        intros t c2 (Hh2 & Hk2 & He2 & Ht & Hg). eapply runs_deref; [exact Ht|]. split; [done|]. split; [done|]. split; [done|].
        split; [intros j a; by apply ready_grows|]. intros Hfk.
        split; [by eapply function_pointer_live|right; by exists x].
      + apply runs_ret. split; [done|]. split; [done|]. split; [done|]. split; [done|]. intros Hk'. apply bool_decide_eq_false in Hk. done. }
  intros ty' c2 (Hh2 & Hk2 & He2 & Hready & Hf2). unfold is_kind. case_bool_decide as Hfk; cbn [negb]; [|by apply failed_spec].
  destruct (Hf2 Hfk) as [Hlive Hcase]. eapply runs_mono; [apply (call_pointer_spec loc 1 arguments ty' (typed (AST_FUNC_PTR_CALL loc callee arguments)) c2); [done| |done|]|].
  - split; [done|]. intros j a Hj. apply Hready. eapply ready_keeps; [exact Hk1|done|by apply ready_child].
  - intros c3 t Hk3 Hl Ht Hps. split; [done|]. assert (types c1 ⊆ types c3) as Hsub by (etrans; [apply Hk2|apply Hk3]).
    eapply type_pointer_call; [eapply has_type_weaken_mut; [exact Hsub|apply Hu]| |exact Hps|exact Ht].
    destruct Hcase as [[]|]; [left; split; [by eapply lookup_weaken|done]|by right].
  - intros r c'. by apply outcome_trans.
Qed.
(** *** Members, elements, allocations and casts *)

Lemma field_live c u ty member t : here c → types c !! u = Some ty → type_get_field_type ty member = Some t → is_Some (types c !! t).
Proof.
  intros Hh Hty Hf. pose proof (yk_fields _ _ _ (sk_types _ _ _ (ck_store c (hr_ok _ _ _ Hh)) u ty Hty)) as Hl.
  unfold type_get_field_type in Hf. destruct (has_fields ty); [|done]. revert Hf Hl.
  generalize (field_names ty) as ns. generalize (field_types ty) as ts.
  induction ts as [|t' ts IH]; intros [|m ns]; cbn; try done. destruct (String.eqb m member); [by intros [= ->] [? _]%Forall_cons|].
  intros Hs [_ Hl]%Forall_cons. by eapply IH.
Qed.

Lemma infer_member_spec loc o member c : here c → fresh c p → expression n o →
  runs (infer_member infer p loc o member) c (outcome c (typed (AST_MEMBER_ACCESS loc o member))).
Proof.
  intros Hh Hf Ho. apply with_type_spec; [done|done|by apply ready_child|]. intros u c1 Hh1 Hk1 [Hl Hu].
  apply (runs_deref_ok b env); [done..|]. intros ty Hty Hok. apply runs_bind.
  eapply (runs_mono _ _ (λ _ c', c' = c1)); [case_match; [by apply runs_ret|]; destruct (yk_name _ _ _ Hok) as [s Hs]; by eapply runs_reads|].
  intros s c' ->. destruct (has_fields ty) eqn:Hhas; [|by apply error_spec].
  destruct (type_get_field_type ty member) as [t|] eqn:Ht; [|by apply error_spec]. apply runs_some; [done|].
  split; [by eapply field_live|by eapply type_member].
Qed.

Lemma infer_index_spec loc a i c : here c → fresh c p → expression n a → expression n i →
  runs (infer_index infer p loc a i) c (outcome c (typed (AST_INDEX_EXPRESSION loc a i))).
Proof.
  intros Hh Hf Ha Hi. apply with_type_spec; [done|done|by apply ready_child|]. intros u c1 Hh1 Hk1 Hu.
  apply with_type_spec; [done|done|by eapply ready_keeps; [exact Hk1|done|by apply ready_child]|]. intros v c2 Hh2 Hk2 Hv.
  apply (typed_keeps _ _ _ _ _ _ _ Hk2) in Hu. destruct Hu as [Hlu Hu], Hv as [Hlv Hv].
  apply (runs_deref_ok b env); [done..|]. intros ty Hty Hok. apply (runs_deref_ok b env); [done..|]. intros vy Hvy Hvok.
  destruct (type_checker_is_integer_type vy) eqn:Hint; cbn [negb]; [|apply mismatch_spec; [done|done|by eapply yk_name]].
  assert (∀ t, base_type ty = Some t → is_Some (types c2 !! t) →
    (kind ty = TYPE_ARRAY ∧ (∀ k, constant i k → (0 ≤ k < array_size ty)%Z)) ∨ (kind ty = TYPE_POINTER ∧ ¬ constant a 0) →
    typed (AST_INDEX_EXPRESSION loc a i) c2 t) as Hresult.
  { intros t Ht Hlt Hcase. split; [done|]. eapply type_element; [exact Hu|exact Hv|by exists vy|done..]. }
  destruct (kind ty) eqn:Hk; try (destruct (yk_name _ _ _ Hok) as [s Hs]; apply runs_printed; [done|]; intros ? _; by apply error_spec).
  - destruct (base_live b (types c2) (next_type c2)) with u ty as (t & Ht & Hlt);
      [rewrite <- (hr_builtins _ _ _ Hh2); apply Hh2|done|by left|].
    unfold element_of, is_kind. rewrite Ht, Hk. cbn [bool_decide decide decide_rel]. apply (runs_null n); [done|]. intros null Hnull.
    destruct null; [by apply error_spec|]. apply runs_bind, runs_ret. apply runs_some; [done|]. apply Hresult; [done..|]. right. split; [done|]. by rewrite <- Hnull.
  - destruct (base_live b (types c2) (next_type c2)) with u ty as (t & Ht & Hlt);
      [rewrite <- (hr_builtins _ _ _ Hh2); apply Hh2|done|by right|].
    unfold element_of, is_kind. rewrite Ht, Hk. apply runs_bind, runs_ret, runs_bind. unfold index_in_bounds.
    apply (runs_constant i); [done|]. intros k Hki. apply runs_ret.
    destruct k as [k|].
    + destruct (_ || _) eqn:Hb; [by apply error_spec|]. apply runs_some; [done|]. apply Hresult; [done..|]. left. split; [done|].
      intros k' Hk'. unfold constant in Hk'. rewrite Hki in Hk'. injection Hk' as <-.
      apply orb_false_iff in Hb as [?%Z.ltb_ge ?%Z.leb_gt]. lia.
    + apply runs_some; [done|]. apply Hresult; [done..|]. left. split; [done|]. intros k' Hk'. unfold constant in Hk'. congruence.
Qed.

Lemma infer_new_spec loc name c : here c → runs (infer_new get loc name) c (outcome c (typed (AST_NEW_EXPRESSION loc name))).
Proof.
  intros Hh. unfold infer_new. apply (runs_lookup b env); [done| |by intros _; apply error_spec]. intros x Hx _.
  case_decide; [|by apply error_spec]. eapply runs_mono; [by apply pointer_to_name_spec|]. intros r c' Ho.
  eapply outcome_mono; [exact Ho| |done]. intros t -> [Hl Hd]. exists t. split; [done|]. split; [done|]. by eapply type_new.
Qed.

Lemma misaligned_quiet loc e ty t c : here c → expression n e → types c !! t = Some ty →
  runs (type_checker_warn_potential_misaligned_cast loc e ty) c (λ _, quiet c).
Proof.
  intros Hh He Ht. apply reporting_quiet; [done|]. destruct (kind ty) eqn:Hk; try by apply ret_quiet.
  destruct (base_live b (types c) (next_type c)) with t ty as (u & Hu & Hlu); [rewrite <- (hr_builtins _ _ _ Hh); apply Hh|done|by left|].
  rewrite Hu. apply (runs_deref_ok b env); [done..|]. intros base _ _. cbv zeta. case_match; [by apply ret_quiet|].
  destruct (alignment_defined (tracked_buffer_extents c) n e He) as [x Hx].
  apply runs_bind. eapply runs_reads; [exact Hx|]. repeat case_match; first [by apply warn_quiet|by apply ret_quiet].
Qed.

Lemma infer_cast_spec loc name e c : here c → fresh c p → expression n e →
  runs (infer_cast get infer p loc name e) c (outcome c (typed (AST_CAST_EXPRESSION loc name e))).
Proof.
  intros Hh Hf He. unfold infer_cast. apply runs_bind. eapply runs_mono; [by apply Hget, Hh|]. intros r c1 (Hok1 & Hg & Hr).
  destruct (grows_here _ _ Hh Hok1 Hg) as (Hh1 & Hk1 & He1). rewrite (hr_builtins _ _ _ Hh1), (hr_env _ _ _ Hh1) in Hr.
  destruct r as [t|]; [|by apply failed_spec]. destruct (Hr t eq_refl) as [Hlt Hd].
  eapply runs_mono; [|intros r c'; by apply outcome_trans].
  apply with_type_spec; [done|done|by eapply ready_grows; [|apply ready_child]|]. intros u c2 Hh2 Hk2 [Hlu Hu]. apply keeps_child in Hk2.
  assert (is_Some (types c2 !! t)) as Hlt2 by (eapply is_Some_weaken; [apply Hk2|done]).
  apply (runs_castable b env); [done..|]. intros valid Hvalid. apply (runs_deref_ok b env); [done..|]. intros fy Hfy Hfok.
  apply (runs_deref_ok b env); [done..|]. intros ty Hty Htok. destruct valid; cbn [negb].
  - apply runs_bind. eapply runs_mono; [by eapply misaligned_quiet|]. intros [] c3 (Hh3 & Hk3 & He3). apply runs_ret.
    split; [done|]. split; [done|]. split; [done|]. split; [by eapply is_Some_weaken; [apply Hk3|]|].
    eapply has_type_weaken_mut; [apply Hk3|]. eapply type_cast; [eapply denotes_weaken; [apply Hk2|done|exact Hd]|exact Hu|by apply Hvalid].
  - apply runs_printed; [by eapply yk_name|]. intros ? _. apply runs_printed; [by eapply yk_name|]. intros ? _. by apply error_spec.
Qed.
(** *** Match expressions *)

Lemma binding_ok c t1 x (s := next_symbol c) : here c → skind x = SYMBOL_VARIABLE → live (types c) (stype x) →
  sscope x = Some (length (scopes (symbol_table c))) → table_ok t1 → store t1 = <[s:=x]> (store (symbol_table c)) →
  length (scopes t1) = S (length (scopes (symbol_table c))) → checker_ok (set_table t1 (Pos.succ s) c).
Proof.
  intros [[Hst _ Hsym Htpl] _ _] Hk Hl Hd Hok Hstore Hlen. split; [done|done| |done]. cbn. rewrite Hstore, Hlen.
  intros a y [[<- <-]|[Hne Ha]]%lookup_insert_Some.
  - split_and!; [split; [done|by rewrite Hk..]|lia|]. intros d. rewrite Hd. intros [= <-]. lia.
  - destruct (Hsym a y Ha) as (? & ? & Hscope). split_and!; [done|lia|]. intros d Hd'. apply Hscope in Hd'. lia.
Qed.

Lemma enter_binding_spec name pt c : here c → name ≠ EmptyString → is_Some (types c !! pt) →
  runs (enter_binding name pt) c (λ _ c1, ∃ env' t1, c1 = set_table t1 (Pos.succ (next_symbol c)) c ∧
    TypeSoundness.here b env' c1 ∧ binds env name pt env' ∧ symbol_table_exit_scope t1 = symbol_table c).
Proof.
  intros Hh Hn Hpt. pose proof Hh as [Hok Hb He]. set (x := set_initialized true (symbol_create name SYMBOL_VARIABLE (Some pt))).
  assert (store (symbol_table c) !! next_symbol c = None) as Hfresh.
  { destruct (store (symbol_table c) !! next_symbol c) as [y|] eqn:Hy; [|done]. destruct (ck_symbols c Hok _ y Hy) as (_ & Hlt & _). lia. }
  destruct (bind_variable (symbol_table c) (next_symbol c) x SCOPE_BLOCK (Pos.to_nat (next_type c)) (types c))
    as (t1 & Hdecl & Hok1 & Hst & Hlen & Habs & Hexit); [apply Hok|done|done|by eexists|done|].
  assert (enter_binding name pt c = Done ((), set_table t1 (Pos.succ (next_symbol c)) c)) as Hrun.
  { unfold enter_binding, modify, new_symbol, reads. cbv beta iota zeta delta [mbind TM_bind outcome_bind].
    cbn [symbol_table next_symbol set_table store scopes symbol_table_enter_scope types next_type].
    unfold x in Hdecl. rewrite Hdecl. reflexivity. }
  unfold runs. rewrite Hrun. set (c1 := set_table _ _ c). exists (visible c1), t1. split; [done|]. split; [|split; [|done]].
  - split; [|done|done]. eapply binding_ok; [done| | | |exact Hok1|exact Hst|exact Hlen]; [done|by exists pt|done].
  - rewrite <- He. unfold visible, c1. cbn [symbol_table set_table]. rewrite Hst. split.
    + eexists. rewrite Habs. cbn [x set_initialized symbol_create SymbolTable.name]. rewrite String.eqb_refl. cbn [mbind option_bind].
      by rewrite lookup_insert_eq.
    + intros m Hm. rewrite Habs. cbn [x set_initialized symbol_create SymbolTable.name].
      destruct (String.eqb_spec name m) as [->|_]; [done|].
      destruct (abs_lookup _ m) as [a|] eqn:Ha; [|done]. cbn [mbind option_bind]. apply lookup_insert_ne. intros <-.
      destruct (lookup_live _ _ _ (ck_table c Hok) Ha). congruence.
Qed.

Lemma exit_binding_spec env' t1 i c c2 : here c → TypeSoundness.here b env' c2 → symbol_table_exit_scope t1 = symbol_table c →
  keeps (i :: p) (set_table t1 (Pos.succ (next_symbol c)) c) c2 →
  runs exit_binding c2 (λ _ c3, here c3 ∧ keeps (i :: p) c c3 ∧ tc_has_error c3 = tc_has_error c2 ∧ types c3 = types c2).
Proof.
  intros [Hok Hb He] [Hok2 Hb2 _] Hexit [H1 H2 H3 H4 H5 H6 H7]. unfold exit_binding. apply runs_modify. rewrite H2. cbn [symbol_table set_table].
  rewrite Hexit. cbn in H1, H3, H4, H5, H6, H7. split; [split; [|by cbn; rewrite H4|done]|split; [split|]]; try done; try (cbn; lia).
  destruct Hok as [_ Htab Hsym _], Hok2 as [Hst _ _ Htpl]. split; [exact Hst|exact Htab| |exact Htpl].
  intros s x Hx. destruct (Hsym s x Hx) as (? & ? & ?). split_and!; [by eapply symbol_ok_weaken|cbn; lia|done].
Qed.
Lemma variant_index_lt names m v : variant_index names m = Some v → v < length names.
Proof.
  revert v. induction names as [|x names IH]; intros v; cbn; [done|]. destruct (String.eqb x m); [intros [= <-]; lia|].
  intros (w & Hw & ->)%fmap_Some. apply IH in Hw. lia.
Qed.

(** The variants of the type matched on. *)
Record subject_ok (c : TypeChecker) (subject : Type_) : Prop := {
  sj_name : is_Some (tname subject);
  sj_length : length (tagged_variant_payloads subject) = length (tagged_variant_names subject);
  sj_live : ∀ v payload, tagged_variant_payloads subject !! v = Some (Some payload) → is_Some (types c !! payload) }.

Lemma subject_keeps c c' subject : keeps p c c' → subject_ok c subject → subject_ok c' subject.
Proof. intros Hk [H1 H2 H3]. split; [done|done|]. intros v x Hx. eapply is_Some_weaken; [apply Hk|by eapply H3]. Qed.

Lemma type_subject c t subject : here c → types c !! t = Some subject → subject_ok c subject.
Proof.
  intros Hh Ht. destruct (sk_types _ _ _ (ck_store c (hr_ok _ _ _ Hh)) t subject Ht) as [Hn _ _ [Hl Hp]]. split; [done|done|].
  intros v x Hx. eapply Forall_lookup_1 in Hp; [|exact Hx]. by apply Hp.
Qed.

(** An arm that passed its checks: what it binds, and the variants covered then. *)
Record arm_checked (subject : Type_) (covered : list nat) (a : MatchArm ASTNode) (payload : option tid) (covered' : list nat) : Prop := {
  ac_covered : covered' = option_list (arm_variant subject a) ++ covered;
  ac_new : NoDup covered → NoDup covered';
  ac_payload : match payload with
               | None => ma_is_default a = true ∨ (is_Some (arm_variant subject a) ∧ ma_binding_name a = None)
               | Some t => ∃ v name, arm_variant subject a = Some v ∧ ma_binding_name a = Some name ∧
                   tagged_variant_payloads subject !! v = Some (Some t)
               end }.

Lemma match_arm_variant_spec loc subject covered a c : here c → subject_ok c subject →
  runs (match_arm_variant loc subject covered a) c (outcome c (λ c' r, c' = c ∧ arm_checked subject covered a r.1 r.2)).
Proof.
  intros Hh [Hn Hlen Hlive]. unfold match_arm_variant. destruct (ma_is_default a) eqn:Hd.
  { apply runs_some; [done|]. split; [done|]. split; [by unfold arm_variant; rewrite Hd|done|by left]. }
  destruct (variant_index (tagged_variant_names subject) (ma_variant_name a)) as [v|] eqn:Hv;
    [|apply runs_printed; [done|]; intros; by apply error_spec].
  assert (arm_variant subject a = Some v) as Hav by by unfold arm_variant; rewrite Hd.
  case_bool_decide as Hin; [by apply error_spec|].
  destruct (ma_binding_name a) as [name|] eqn:Hb.
  - apply variant_index_lt in Hv. rewrite <- Hlen in Hv. apply lookup_lt_is_Some_2 in Hv as [payload Hpay].
    apply runs_bind. eapply runs_reads; [exact Hpay|]. destruct payload as [t|]; [|by apply error_spec].
    apply runs_some; [done|]. split; [done|]. split; [by rewrite Hav|by intros; apply NoDup_cons|by exists v, name].
  - apply runs_some; [done|]. split; [done|]. split; [by rewrite Hav|by intros; apply NoDup_cons|].
    right. split; [by exists v|done].
Qed.

Lemma arm_body_spec subject covered covered' a i payload c : here c → subject_ok c subject → fresh c (S i :: p) →
  expression n (ma_body a) → ma_binding_name a ≠ Some EmptyString → arm_checked subject covered a payload covered' →
  runs match payload, ma_binding_name a with
     | Some payload, Some binding =>
         enter_binding binding payload ;; t ← infer (S i :: p) (ma_body a); exit_binding ;; mret t
     | _, _ => infer (S i :: p) (ma_body a)
     end c (TypeSoundness.outcome b env (S i :: p) c (λ c' t, is_Some (types c' !! t) ∧ arm_type b (types c') env subject a t)).
Proof.
  intros Hh Hsub Hf Hbody Hne [_ _ Hpay]. destruct payload as [pt|].
  - destruct Hpay as (v & name & Hv & Hb & Hpay). rewrite Hb in *. apply runs_bind.
    eapply runs_mono; [apply enter_binding_spec; [done|by intros ->|by eapply sj_live]|]. intros [] c1 (env' & t1 & -> & Hh1 & Hbinds & Hexit).
    apply runs_bind. eapply runs_mono; [apply Hinfer; [exact Hh1|done|by left]|]. intros r c2 (Hh2 & Hk2 & Hr).
    apply runs_bind. eapply runs_mono; [by eapply exit_binding_spec|]. intros [] c3 (Hh3 & Hk3 & He3 & Ht3). apply runs_ret.
    split; [done|]. split; [done|]. rewrite He3, Ht3. destruct r as [t|]; [|done]. destruct Hr as [He [[Hl Ht] _]].
    split; [done|]. split; [done|]. by eapply arm_binding.
  - assert (runs (infer (S i :: p) (ma_body a)) c (TypeSoundness.outcome b env (S i :: p) c (λ c' t,
      is_Some (types c' !! t) ∧ arm_type b (types c') env subject a t))) as H.
    { eapply runs_mono; [apply Hinfer; [exact Hh|done|by left]|]. intros r c' (Hh' & Hk' & Hr). split; [done|]. split; [done|].
      destruct r as [t|]; [|done]. destruct Hr as [He [[Hl Ht] _]]. split; [done|]. split; [done|]. by apply arm_plain. }
    by destruct (ma_binding_name a).
Qed.

Lemma fresh_keeps i j c c' : keeps (i :: p) c c' → i ≠ j → fresh c (j :: p) → fresh c' (j :: p).
Proof.
  intros Hk Hne Hf q Hq. rewrite (kp_resolved _ _ _ Hk), (kp_methods _ _ _ Hk) by (intros Hs; by apply Hne, (suffix_sibling i j p q)).
  by apply Hf.
Qed.

(** What [match_arms] returns when it starts with a result type, or without. *)
Definition arms_result (subject : Type_) (arms : list (MatchArm ASTNode)) (result : option tid) (c : TypeChecker) (result' : option tid) : Prop :=
  match result, arms with
  | Some t, _ => result' = Some t ∧ arms_type b (types c) env subject t arms
  | None, [] => result' = None
  | None, a :: arms =>
      ∃ t, result' = Some t ∧ is_Some (types c !! t) ∧ arm_type b (types c) env subject a t ∧ arms_type b (types c) env subject t arms
  end.

Lemma match_arms_spec loc subject arms : ∀ i result covered default c, here c → subject_ok c subject →
  Forall (λ a, expression n (ma_body a) ∧ ma_binding_name a ≠ Some EmptyString) arms →
  (∀ j, i ≤ j → fresh c (S j :: p)) → (∀ t, result = Some t → is_Some (types c !! t)) → NoDup covered →
  runs (match_arms infer p loc subject i arms result covered default) c (outcome c (λ c' r,
    arms_result subject arms result c' r.1.1 ∧ r.1.2 = reverse (omap (arm_variant subject) arms) ++ covered ∧ NoDup r.1.2 ∧
    r.2 = default || existsb ma_is_default arms)).
Proof.
  induction arms as [|a arms IH]; intros i result covered default c Hh Hsub Hexp Hf Hres Hnd; cbn [match_arms].
  { apply runs_some; [done|]. cbn. rewrite orb_false_r. split_and!; [destruct result; [split; [done|constructor]|done]|done..]. }
  apply Forall_cons in Hexp as [[Hbody Hne] Hexp]. apply runs_bind. eapply runs_mono; [by apply match_arm_variant_spec|].
  intros r c' Ho. destruct r as [[payload covered']|]; [|by apply runs_ret]. destruct Ho as (_ & _ & _ & -> & Hac).
  apply runs_bind. eapply runs_mono; [by apply (arm_body_spec subject covered covered'); [| |apply Hf| | |]|].
  intros r c1 (Hh1 & Hk1 & Hr). apply keeps_child in Hk1 as Hkp. destruct r as [u|]; [|by apply runs_ret].
  destruct Hr as (He1 & Hlu & Harm). pose proof Hac as [Hcov Hnew _]. specialize (Hnew Hnd).
  assert (∀ j, S i ≤ j → fresh c1 (S j :: p)) as Hf1.
  { intros j Hj. eapply fresh_keeps; [exact Hk1|lia|apply Hf; lia]. }
  assert (∀ res, (∀ t, res = Some t → is_Some (types c1 !! t)) →
    (∀ c2 res', keeps p c1 c2 → arms_result subject arms res c2 res' → arms_result subject (a :: arms) result c2 res') →
    runs (match_arms infer p loc subject (S i) arms res covered' (default || ma_is_default a)) c1 (outcome c (λ c' r,
      arms_result subject (a :: arms) result c' r.1.1 ∧ r.1.2 = reverse (omap (arm_variant subject) (a :: arms)) ++ covered ∧ NoDup r.1.2 ∧
      r.2 = default || existsb ma_is_default (a :: arms)))) as Hgo.
  { intros res Hres' Hstep. eapply runs_mono; [apply IH; [done|by eapply subject_keeps|done..]|].
    intros r c2 Ho. eapply outcome_trans; [exact Hkp|done|]. eapply outcome_mono; [exact Ho| |done].
    intros [[res' cov] def] -> (H1 & H2 & H3 & H4). eexists. split; [done|]. cbn [fst snd existsb] in *. split; [apply Hstep; [apply Ho|done]|].
    split; [|split; [done|by rewrite H4, orb_assoc]]. rewrite H2, Hcov. cbn [omap list_omap]. destruct (arm_variant subject a); cbn [option_list app]; [|done].
    by rewrite reverse_cons, <- app_assoc. }
  destruct result as [t|].
  - specialize (Hres t eq_refl). assert (is_Some (types c1 !! t)) as Hlt by (eapply is_Some_weaken; [apply Hkp|done]).
    apply (runs_compatible b env); [done..|]. intros ok Hokk. destruct ok.
    + apply Hgo; [by intros ? [= <-]|]. intros c2 res' Hk2 [-> Harms]. split; [done|].
      eapply arms_more; [by eapply has_type_weaken_mut; [apply Hk2|]|eapply comparable_weaken; [apply Hk2|by apply Hokk]|done].
    + apply (runs_deref_ok b env); [done..|]. intros ty _ _. apply (runs_deref_ok b env); [done..|]. intros uy _ _. by apply failed_spec.
  - apply Hgo; [by intros ? [= <-]|]. intros c2 res' Hk2 [-> Harms]. exists u. split; [done|].
    split; [by eapply is_Some_weaken; [apply Hk2|]|]. split; [by eapply has_type_weaken_mut; [apply Hk2|]|done].
Qed.
Lemma uncovered_none subject covered v : uncovered subject covered = None → v < length (tagged_variant_names subject) → v ∈ covered.
Proof.
  unfold uncovered. intros Hu Hv. destruct (List.find _ _) as [w|] eqn:Hf.
  - apply find_some in Hf as [Hin _]. apply in_seq in Hin. cbn in Hu.
    destruct (lookup_lt_is_Some_2 (tagged_variant_names subject) w) as [x Hx]; [lia|]. congruence.
  - pose proof (find_none _ _ Hf v) as H. cbn in H. destruct (bool_decide_reflect (v ∈ covered)); [done|].
    discriminate H. apply in_seq. lia.
Qed.

Lemma check_match_spec loc e arms c : here c → fresh c p → expression n e →
  Forall (λ a, expression n (ma_body a) ∧ ma_binding_name a ≠ Some EmptyString) arms →
  runs (type_checker_check_match_expression infer p loc e arms) c (outcome c (typed (AST_MATCH_STATEMENT loc e arms true))).
Proof.
  intros Hh Hf He Harms. apply with_type_spec; [done|done|by apply ready_child|]. intros u c1 Hh1 Hk1 [Hl Hu].
  apply (runs_deref_ok b env); [done..|]. intros subject Hs Hok. pose proof (yk_name _ _ _ Hok) as Hn.
  unfold is_kind. case_bool_decide as Hk; cbn [negb]; [|apply runs_printed; [done|]; intros ? _; by apply error_spec].
  apply runs_bind. eapply runs_mono; [apply (match_arms_spec loc subject arms 0 None [] false); [done|by eapply type_subject|done| |done|constructor]|].
  { intros j _. eapply fresh_keeps; [exact Hk1|done|]. intros q Hq. apply Hf. etrans; [|exact Hq]. by apply suffix_cons_r. }
  intros r c2 (Hh2 & Hk2 & Hr). destruct r as [[[res covered] default]|]; [|by apply runs_ret].
  destruct Hr as (He2 & Hres & Hcov & Hnd & Hdef). cbn [fst snd orb] in *. rewrite app_nil_r in Hcov.
  destruct (if default then None else uncovered subject covered) as [variant|] eqn:Hunc.
  { apply runs_printed; [done|]. intros ? _. by apply failed_spec. }
  destruct arms as [|a arms]; [cbn in Hres; subst res; by apply failed_spec|]. destruct Hres as (t & -> & Hlt & Harm & Hrest).
  apply runs_ret. split; [done|]. split; [done|]. split; [done|]. split; [done|].
  eapply type_match; [by eapply has_type_weaken_mut; [apply Hk2|]|by eapply lookup_weaken; [exact Hs|apply Hk2]|done|done|done| |].
  - rewrite Hcov in Hnd. by rewrite reverse_Permutation in Hnd.
  - destruct default.
    + left. symmetry in Hdef. apply existsb_exists in Hdef as (a' & Hin & Ha'). exists a'. split; [by apply list_elem_of_In|done].
    + right. intros v Hv. eapply uncovered_none in Hunc; [|exact Hv]. rewrite Hcov in Hunc. by rewrite reverse_Permutation in Hunc.
Qed.

(** *** All cases *)

Lemma infer_internal_spec e c : here c → fresh c p → expression (S n) e →
  runs (type_checker_infer_type_internal get infer p e) c (outcome c (typed e)).
Proof.
  intros Hh Hf [_ He]. destruct e; try done; cbn [type_checker_infer_type_internal].
  - eapply runs_mono; [apply Hinfer; [exact Hh|done|by apply ready_child]|]. intros r c' (Hh' & Hk' & Hr).
    split; [done|]. split; [by eapply keeps_child|]. destruct r; [|done]. destruct Hr as [? [[] _]]. split; [done|]. split; [done|].
    by apply type_assignment.
  - destruct He as (? & ? & ?). by apply infer_call_spec.
  - destruct He. by apply infer_func_ptr_call_spec.
  - destruct is_expression; [|by apply error_spec]. destruct He. by apply check_match_spec.
  - by apply infer_identifier_spec.
  - destruct n0 as [v radix|text]; (apply (runs_builtin b env); [done|]); (apply runs_some; [done|]).
    + split; [|constructor]. unfold type_checker_default_integer_literal_type.
      repeat case_match.
      all: first [solve [apply (builtin_live b env c (_, TYPE_INT32)); [done|listed]]
        |solve [apply (builtin_live b env c (_, TYPE_INT64)); [done|listed]]
        |solve [apply (builtin_live b env c (_, TYPE_UINT32)); [done|listed]]
        |solve [apply (builtin_live b env c (_, TYPE_UINT64)); [done|listed]]].
    + split; [|constructor]. apply (builtin_live b env c (_, TYPE_FLOAT64)); [done|listed].
  - apply (runs_builtin b env); [done|]. apply runs_some; [done|]. split; [|constructor].
    apply (builtin_live b env c (_, TYPE_STRING)); [done|listed].
  - destruct He. by apply check_binary_spec.
  - by apply infer_unary_spec.
  - by apply infer_member_spec.
  - destruct He. by apply infer_index_spec.
  - by apply infer_new_spec.
  - by apply infer_cast_spec.
Qed.

(** The node keeps its type. *)
Lemma infer_step_spec e c : here c → ready b env c p e → expression (S n) e →
  runs (infer_type_step get infer p e) c (outcome c (λ c' t, typed e c' t ∧ resolved_types c' !! p = Some t)).
Proof.
  intros Hh Hready He. unfold infer_type_step. apply runs_bind, runs_gets. destruct Hready as [Hf|(t & Hp & Hl & Ht)].
  - destruct (Hf p) as [-> _]; [done|]. apply runs_bind. eapply runs_mono; [by apply infer_internal_spec|].
    intros r c1 (Hh1 & Hk1 & Hr). destruct r as [t|]; [|by apply runs_bind, runs_ret, runs_ret].
    destruct Hr as [He1 [Hl Ht]]. apply runs_bind, runs_modify, runs_ret. split; [by destruct Hh1 as [[]]|]. split.
    + etrans; [exact Hk1|]. split; try done. intros q Hq. apply lookup_insert_ne. by intros ->.
    + split; [done|]. split; [done|]. apply lookup_insert_eq.
  - rewrite Hp. by apply runs_some.
Qed.
End node.
End cases.

Lemma infer_type_spec names (Hnames : ∀ s, measure (list_ascii_of_string s) < names s) n : ∀ b env c p e,
  here b env c → expression n e → ready b env c p e →
  runs (type_checker_infer_type n names p e) c (outcome b env p c (λ c' t, typed b env e c' t ∧ resolved_types c' !! p = Some t)).
Proof.
  induction n as [|n IH]; intros b env c p e Hh He Hr; [done|]. cbn [type_checker_infer_type].
  apply (infer_step_spec _ _ n); [|exact IH|done..]. intros c' name Hok. by apply get_type_by_name_spec.
Qed.

(** ** Creation *)

(** A checker over the empty table. *)
Definition created (r : option ErrorReporter) : TypeChecker :=
  match type_checker_create_with_error_reporter symbol_table_create 1%positive r with
  | Done c => c
  | _ => empty_checker symbol_table_create 1%positive r
  end.

(** Every element of a concrete list in turn, every entry of a concrete map. *)
Ltac elements :=
  match goal with |- Forall _ ?l => let v := eval vm_compute in l in change l with v end;
  repeat (apply List.Forall_cons; [cbn [uncurry]|]); [..|apply List.Forall_nil].
Ltac entries := apply map_Forall_to_list; elements.

Lemma created_store r : store_ok (builtins (created r)) (types (created r)) (next_type (created r)).
Proof.
  split.
  - entries; done.
  - entries; (split; [by eexists| | |split; [done|constructor]]); elements.
    all: first [vm_compute; by eexists|eexists; split; [reflexivity|]; by split; [vm_compute; eexists|]].
  - elements; by vm_compute.
Qed.

Lemma created_ok r : checker_ok (created r).
Proof.
  split; [apply created_store| | |done].
  - split; [by vm_compute| |].
    + elements. split; [elements; vm_compute; by eexists|]. left. split; [|done].
      cbn. unfold SYMBOL_NAME_INDEX_MIN_SYMBOLS. lia.
    + apply (bool_decide_unpack _). by vm_compute.
  - entries; (split; [split; [eexists; split; [reflexivity|vm_compute; by eexists]|done|done]|split; [done|by intros d [= <-]; vm_compute; lia]]).
Qed.

(** ** The properties *)

(** C5. Type inference is total and sound on the expressions of the language other than
    [static_assert], when no constant in them overflows, no generic enum is declared (with
    one inference need not end: C38) and nothing is known yet of the nodes of the tree.  From
    a consistent checker, with fuel for the height of the tree and for the names in it, it
    ends: with a type that exists, that the rules give the expression and that the node
    keeps, no error being reported; or with an error reported and no type.  Scopes, symbols,
    built-in types, the facts about variables and the other nodes are as before, and the
    checker is consistent. *)
Theorem infer_type_sound fuel names p c e :
  checker_ok c → fresh c p → expression fuel e → (∀ s, measure (list_ascii_of_string s) < names s) →
  ∃ r c', type_checker_infer_type fuel names p e c = Done (r, c') ∧ checker_ok c' ∧ keeps p c c' ∧
    match r with
    | Some t =>
        tc_has_error c' = tc_has_error c ∧ is_Some (types c' !! t) ∧
        has_type (builtins c) (types c') (visible c) e t ∧ resolved_types c' !! p = Some t
    | None => tc_has_error c' = true
    end.
Proof.
  intros Hok Hf He Hnames. destruct (runs_run _ _ _ (infer_type_spec names Hnames fuel (builtins c) (visible c) c p e ltac:(by split) He ltac:(by left)))
    as (r & c' & Hrun & Hh & Hk & Hr). exists r, c'. split; [done|]. split; [apply Hh|]. split; [done|].
  destruct r as [t|]; [|done]. by destruct Hr as (? & [] & ?).
Qed.

Definition at_start : location := mkLocation 1 1 None.
Definition example_names (s : string) : nat := S (measure (list_ascii_of_string s)).

(** [(uint8 pointer) 4096 == 0 || !true]. *)
Definition example_expression : ASTNode :=
  AST_BINARY_EXPRESSION at_start "||"
    (AST_BINARY_EXPRESSION at_start "==" (AST_CAST_EXPRESSION at_start "uint8*" (AST_NUMBER_LITERAL at_start (IntLiteral 4096 10)))
       (AST_NUMBER_LITERAL at_start (IntLiteral 0 10)))
    (AST_UNARY_EXPRESSION at_start "!" (AST_IDENTIFIER at_start "true")).

Lemma created_fresh r p : fresh (created r) p.
Proof.
  intros q _. assert (resolved_types (created r) = ∅ ∧ method_calls (created r) = ∅) as [-> ->] by by vm_compute.
  by rewrite !lookup_empty.
Qed.

Lemma infer_type_sound_witness : ∃ t c',
  type_checker_infer_type 4 example_names [] example_expression (created None) = Done (Some t, c') ∧
  has_type (builtins (created None)) (types c') (visible (created None)) example_expression t.
Proof.
  destruct (infer_type_sound 4 example_names [] (created None) example_expression) as (r & c' & Hrun & _ & _ & Hr).
  - apply created_ok.
  - apply created_fresh.
  - by vm_compute.
  - intros s. unfold example_names. lia.
  - destruct r as [t|]; [|by vm_compute in Hrun]. exists t, c'. split; [done|]. apply Hr.
Defined.

(** C17. What names stand for, when no generic enum is declared (with one a lookup need not
    end: C38): from a consistent checker, looking up a type by its name ends whatever the
    name, with fuel beyond its length and its opening angle brackets, in a type that exists
    and that the name denotes, or in none; types are added, and nothing else is changed. *)
Theorem type_names_correct fuel name c :
  checker_ok c → measure (list_ascii_of_string name) < fuel →
  ∃ r c', type_checker_get_type_by_name fuel name c = Done (r, c') ∧ checker_ok c' ∧ grows c c' ∧
    ∀ t, r = Some t → is_Some (types c' !! t) ∧ denotes (builtins c) (visible c) (types c') (list_ascii_of_string name) t.
Proof.
  intros Hok Hm. destruct (runs_run _ _ _ (get_type_by_name_spec fuel c name Hok Hm)) as (r & c' & Hrun & Hok' & Hg & Hr).
  exists r, c'. split; [done|]. split; [done|]. split; [done|]. by rewrite <- (grows_builtins _ _ Hg), <- (grows_visible _ _ Hg).
Qed.

Lemma type_names_correct_witness : ∃ t c',
  type_checker_get_type_by_name 30 "fn(int32[4],uint8*)->bool" (created None) = Done (Some t, c') ∧
  denotes (builtins (created None)) (visible (created None)) (types c') (list_ascii_of_string "fn(int32[4],uint8*)->bool") t.
Proof.
  destruct (type_names_correct 30 "fn(int32[4],uint8*)->bool" (created None)) as (r & c' & Hrun & _ & _ & Hr).
  - apply created_ok.
  - vm_compute. lia.
  - destruct r as [t|]; [|by vm_compute in Hrun]. exists t, c'. split; [done|]. by apply Hr.
Defined.

(** C37. The type of arithmetic on numbers is a floating type exactly when an operand is a
    [float64], or one is a [float32] and neither is a 64-bit integer: an [int64] plus a
    [float32] is an [int64], although a comment of the code has every operation with a
    floating operand be floating. *)
Theorem arithmetic_type_floating b ts o l r t lty rty ty :
  ts !! l = Some lty → ts !! r = Some rty → is_arithmetic o = true →
  type_checker_is_numeric_type lty = true → type_checker_is_numeric_type rty = true →
  type_checker_promote_types ts b l r o = Some t → ts !! t = Some ty →
  let wide k := k = TYPE_INT64 ∨ k = TYPE_UINT64 in
  type_checker_is_floating_type ty = true ↔
    kind lty = TYPE_FLOAT64 ∨ kind rty = TYPE_FLOAT64 ∨
    ((kind lty = TYPE_FLOAT32 ∨ kind rty = TYPE_FLOAT32) ∧ ¬ wide (kind lty) ∧ ¬ wide (kind rty)).
Proof.
  intros Hl Hr Ho Hnl Hnr Ht Hty wide. rewrite (promoted_larger b ts l r lty rty) in Ht by done.
  unfold type_checker_get_larger_type in Ht. rewrite Hl, Hr in Ht. cbn in Ht. injection Ht as <-.
  assert (ty = if (type_checker_get_type_rank rty <=? type_checker_get_type_rank lty)%Z then lty else rty) as ->.
  { destruct (_ <=? _)%Z; congruence. }
  unfold wide, type_checker_is_floating_type, type_checker_get_type_rank, type_checker_is_numeric_type,
    type_checker_is_integer_type, type_checker_is_floating_type in *.
  destruct (kind lty) eqn:Hkl; try done; destruct (kind rty) eqn:Hkr; try done; cbn; rewrite ?Hkl, ?Hkr; intuition congruence.
Qed.

Lemma arithmetic_type_floating_witness :
  let c := created None in
  type_checker_promote_types (types c) (builtins c) (builtin_int64 (builtins c)) (builtin_float32 (builtins c)) "+" =
    Some (builtin_int64 (builtins c)) ∧
  ∃ ty, types c !! builtin_int64 (builtins c) = Some ty ∧ type_checker_is_floating_type ty ≠ true.
Proof.
  split; [by vm_compute|]. eexists. split; [by vm_compute|].
  rewrite (arithmetic_type_floating (builtins (created None)) (types (created None)) "+"
    (builtin_int64 (builtins (created None))) (builtin_float32 (builtins (created None))) (builtin_int64 (builtins (created None))));
    try by vm_compute. cbn. intuition congruence.
Defined.

(** C18. The tests of the checker decide its relations on types: sameness, conversion in
    comparisons, assignment and casts each end with the answer of a relation stated without
    fuel or order of tests.  Between numbers assignment only refuses floating values to
    integers: every integer is assigned to every floating type, although the documentation
    (docs/types.md) says that integers and floats do not convert implicitly. *)
Theorem type_relations_decided c t u :
  checker_ok c → is_Some (types c !! t) → is_Some (types c !! u) →
  let fuel := Pos.to_nat (next_type c) in
  (∃ r, type_checker_types_equal fuel (types c) (Some t) (Some u) = Some r ∧ (r = true ↔ same (types c) t u)) ∧
  (∃ r, type_checker_are_compatible fuel (types c) t u = Some r ∧ (r = true ↔ comparable (types c) t u)) ∧
  (∃ r, type_checker_is_assignable fuel (types c) (Some t) (Some u) = Some r ∧ (r = true ↔ assignable (types c) t u)) ∧
  (∃ r, type_checker_is_cast_valid fuel (types c) t u = Some r ∧ (r = true ↔ castable_to (types c) t u)) ∧
  (such (types c) type_checker_is_floating_type t → such (types c) type_checker_is_integer_type u →
     type_checker_is_assignable fuel (types c) (Some t) (Some u) = Some true) ∧
  (such (types c) type_checker_is_integer_type t → such (types c) type_checker_is_floating_type u →
     type_checker_is_assignable fuel (types c) (Some t) (Some u) = Some false).
Proof.
  intros Hok Ht Hu fuel. pose proof (ck_store c Hok) as Hst.
  destruct (assignable_spec (builtins c) (types c) (next_type c) Hst t u Ht Hu) as (r & Hr & Hiff). fold fuel in Hr. split_and!.
  - by eapply equal_spec.
  - by eapply comparable_spec.
  - eauto.
  - by eapply castable_spec.
  - intros Hf Hi. rewrite Hr. f_equal. apply Hiff. by apply integer_to_floating.
  - intros Hi Hf. rewrite Hr. f_equal. apply not_true_is_false. rewrite Hiff. by apply floating_to_integer.
Qed.

(** An integer is assigned to a [float64], not the other way around. *)
Lemma type_relations_decided_witness :
  let c := created None in
  assignable (types c) (builtin_float64 (builtins c)) (builtin_int32 (builtins c)) ∧
  ¬ assignable (types c) (builtin_int32 (builtins c)) (builtin_float64 (builtins c)).
Proof.
  split.
  - destruct (type_relations_decided (created None) (builtin_float64 (builtins (created None))) (builtin_int32 (builtins (created None))))
      as (_ & _ & (r & Hr & Hiff) & _); [apply created_ok|by vm_compute; eexists..|].
    apply Hiff. vm_compute in Hr. congruence.
  - destruct (type_relations_decided (created None) (builtin_int32 (builtins (created None))) (builtin_float64 (builtins (created None))))
      as (_ & _ & (r & Hr & Hiff) & _); [apply created_ok|by vm_compute; eexists..|].
    rewrite <- Hiff. vm_compute in Hr. congruence.
Defined.
