(* ===== verification/TokenKind.v ===== *)
(** * Token kinds as the enumeration of src/src/lexer/lexer.h

    The values of the enumerators, with which token kinds are compared, and the
    kinds the parser groups together. *)

From S2P Require Import Prelude.
From S2P Require Import Lexer.

Definition token_types : list TokenType :=
  [ TOKEN_EOF; TOKEN_IDENTIFIER; TOKEN_NUMBER; TOKEN_STRING; TOKEN_IMPORT;
    TOKEN_IMPORT_STR; TOKEN_EXTERN; TOKEN_EXPORT; TOKEN_VAR; TOKEN_FUNCTION;
    TOKEN_STRUCT; TOKEN_ENUM; TOKEN_METHOD; TOKEN_RETURN; TOKEN_IF; TOKEN_ELSE;
    TOKEN_WHILE; TOKEN_FOR; TOKEN_SWITCH; TOKEN_CASE; TOKEN_DEFAULT; TOKEN_BREAK;
    TOKEN_CONTINUE; TOKEN_DEFER; TOKEN_ERRDEFER; TOKEN_ASM; TOKEN_THIS; TOKEN_NEW;
    TOKEN_TRAIT; TOKEN_IMPL; TOKEN_WHERE; TOKEN_FN; TOKEN_MATCH; TOKEN_INT8;
    TOKEN_INT16; TOKEN_INT32; TOKEN_INT64; TOKEN_UINT8; TOKEN_UINT16; TOKEN_UINT32;
    TOKEN_UINT64; TOKEN_FLOAT32; TOKEN_FLOAT64; TOKEN_STRING_TYPE; TOKEN_COLON;
    TOKEN_SEMICOLON; TOKEN_COMMA; TOKEN_EQUALS; TOKEN_PLUS_EQUALS; TOKEN_MINUS_EQUALS;
    TOKEN_STAR_EQUALS; TOKEN_SLASH_EQUALS; TOKEN_PERCENT_EQUALS; TOKEN_AMP_EQUALS;
    TOKEN_PIPE_EQUALS; TOKEN_CARET_EQUALS; TOKEN_LSHIFT_EQUALS; TOKEN_RSHIFT_EQUALS;
    TOKEN_EQUALS_EQUALS; TOKEN_NOT_EQUALS; TOKEN_LESS_THAN; TOKEN_GREATER_THAN;
    TOKEN_LESS_EQUALS; TOKEN_GREATER_EQUALS; TOKEN_ARROW; TOKEN_LPAREN; TOKEN_RPAREN;
    TOKEN_LBRACE; TOKEN_RBRACE; TOKEN_LBRACKET; TOKEN_RBRACKET; TOKEN_PLUS;
    TOKEN_MINUS; TOKEN_MULTIPLY; TOKEN_AMPERSAND; TOKEN_PIPE; TOKEN_CARET;
    TOKEN_LSHIFT; TOKEN_RSHIFT; TOKEN_TILDE; TOKEN_AND_AND; TOKEN_OR_OR; TOKEN_DIVIDE;
    TOKEN_PERCENT; TOKEN_NOT; TOKEN_DOT; TOKEN_NEWLINE; TOKEN_MOV; TOKEN_ADD;
    TOKEN_SUB; TOKEN_MUL; TOKEN_DIV; TOKEN_IMUL; TOKEN_IDIV; TOKEN_INC; TOKEN_DEC;
    TOKEN_CMP; TOKEN_JMP; TOKEN_JE; TOKEN_JNE; TOKEN_JL; TOKEN_JLE; TOKEN_JG;
    TOKEN_JGE; TOKEN_CALL; TOKEN_RET; TOKEN_PUSH; TOKEN_POP; TOKEN_LEA; TOKEN_NOP;
    TOKEN_INT; TOKEN_SYSCALL; TOKEN_EAX; TOKEN_EBX; TOKEN_ECX; TOKEN_EDX; TOKEN_ESI;
    TOKEN_EDI; TOKEN_ESP; TOKEN_EBP; TOKEN_RAX; TOKEN_RBX; TOKEN_RCX; TOKEN_RDX;
    TOKEN_RSI; TOKEN_RDI; TOKEN_RSP; TOKEN_RBP; TOKEN_R8; TOKEN_R9; TOKEN_R10;
    TOKEN_R11; TOKEN_R12; TOKEN_R13; TOKEN_R14; TOKEN_R15; TOKEN_ERROR ].

(** The value of an enumerator. *)
Definition token_code (ty : TokenType) : nat :=
  match ty with
  | TOKEN_EOF => 0 | TOKEN_IDENTIFIER => 1 | TOKEN_NUMBER => 2 | TOKEN_STRING => 3
  | TOKEN_IMPORT => 4 | TOKEN_IMPORT_STR => 5 | TOKEN_EXTERN => 6 | TOKEN_EXPORT => 7
  | TOKEN_VAR => 8 | TOKEN_FUNCTION => 9 | TOKEN_STRUCT => 10 | TOKEN_ENUM => 11
  | TOKEN_METHOD => 12 | TOKEN_RETURN => 13 | TOKEN_IF => 14 | TOKEN_ELSE => 15
  | TOKEN_WHILE => 16 | TOKEN_FOR => 17 | TOKEN_SWITCH => 18 | TOKEN_CASE => 19
  | TOKEN_DEFAULT => 20 | TOKEN_BREAK => 21 | TOKEN_CONTINUE => 22 | TOKEN_DEFER => 23
  | TOKEN_ERRDEFER => 24 | TOKEN_ASM => 25 | TOKEN_THIS => 26 | TOKEN_NEW => 27
  | TOKEN_TRAIT => 28 | TOKEN_IMPL => 29 | TOKEN_WHERE => 30 | TOKEN_FN => 31
  | TOKEN_MATCH => 32 | TOKEN_INT8 => 33 | TOKEN_INT16 => 34 | TOKEN_INT32 => 35
  | TOKEN_INT64 => 36 | TOKEN_UINT8 => 37 | TOKEN_UINT16 => 38 | TOKEN_UINT32 => 39
  | TOKEN_UINT64 => 40 | TOKEN_FLOAT32 => 41 | TOKEN_FLOAT64 => 42
  | TOKEN_STRING_TYPE => 43 | TOKEN_COLON => 44 | TOKEN_SEMICOLON => 45 | TOKEN_COMMA => 46
  | TOKEN_EQUALS => 47 | TOKEN_PLUS_EQUALS => 48 | TOKEN_MINUS_EQUALS => 49
  | TOKEN_STAR_EQUALS => 50 | TOKEN_SLASH_EQUALS => 51 | TOKEN_PERCENT_EQUALS => 52
  | TOKEN_AMP_EQUALS => 53 | TOKEN_PIPE_EQUALS => 54 | TOKEN_CARET_EQUALS => 55
  | TOKEN_LSHIFT_EQUALS => 56 | TOKEN_RSHIFT_EQUALS => 57 | TOKEN_EQUALS_EQUALS => 58
  | TOKEN_NOT_EQUALS => 59 | TOKEN_LESS_THAN => 60 | TOKEN_GREATER_THAN => 61
  | TOKEN_LESS_EQUALS => 62 | TOKEN_GREATER_EQUALS => 63 | TOKEN_ARROW => 64
  | TOKEN_LPAREN => 65 | TOKEN_RPAREN => 66 | TOKEN_LBRACE => 67 | TOKEN_RBRACE => 68
  | TOKEN_LBRACKET => 69 | TOKEN_RBRACKET => 70 | TOKEN_PLUS => 71 | TOKEN_MINUS => 72
  | TOKEN_MULTIPLY => 73 | TOKEN_AMPERSAND => 74 | TOKEN_PIPE => 75 | TOKEN_CARET => 76
  | TOKEN_LSHIFT => 77 | TOKEN_RSHIFT => 78 | TOKEN_TILDE => 79 | TOKEN_AND_AND => 80
  | TOKEN_OR_OR => 81 | TOKEN_DIVIDE => 82 | TOKEN_PERCENT => 83 | TOKEN_NOT => 84
  | TOKEN_DOT => 85 | TOKEN_NEWLINE => 86 | TOKEN_MOV => 87 | TOKEN_ADD => 88
  | TOKEN_SUB => 89 | TOKEN_MUL => 90 | TOKEN_DIV => 91 | TOKEN_IMUL => 92
  | TOKEN_IDIV => 93 | TOKEN_INC => 94 | TOKEN_DEC => 95 | TOKEN_CMP => 96
  | TOKEN_JMP => 97 | TOKEN_JE => 98 | TOKEN_JNE => 99 | TOKEN_JL => 100 | TOKEN_JLE => 101
  | TOKEN_JG => 102 | TOKEN_JGE => 103 | TOKEN_CALL => 104 | TOKEN_RET => 105
  | TOKEN_PUSH => 106 | TOKEN_POP => 107 | TOKEN_LEA => 108 | TOKEN_NOP => 109
  | TOKEN_INT => 110 | TOKEN_SYSCALL => 111 | TOKEN_EAX => 112 | TOKEN_EBX => 113
  | TOKEN_ECX => 114 | TOKEN_EDX => 115 | TOKEN_ESI => 116 | TOKEN_EDI => 117
  | TOKEN_ESP => 118 | TOKEN_EBP => 119 | TOKEN_RAX => 120 | TOKEN_RBX => 121
  | TOKEN_RCX => 122 | TOKEN_RDX => 123 | TOKEN_RSI => 124 | TOKEN_RDI => 125
  | TOKEN_RSP => 126 | TOKEN_RBP => 127 | TOKEN_R8 => 128 | TOKEN_R9 => 129
  | TOKEN_R10 => 130 | TOKEN_R11 => 131 | TOKEN_R12 => 132 | TOKEN_R13 => 133
  | TOKEN_R14 => 134 | TOKEN_R15 => 135 | TOKEN_ERROR => 136
  end.

Definition tok_eqb (a b : TokenType) : bool := token_code a =? token_code b.
Notation "a =t b" := (tok_eqb a b) (at level 70, no associativity) : mettle_scope.

Lemma token_types_code ty : token_types !! token_code ty = Some ty.
Proof. by destruct ty. Qed.

Lemma tok_eqb_spec a b : reflect (a = b) (a =t b).
Proof.
  unfold tok_eqb. destruct (Nat.eqb_spec (token_code a) (token_code b)) as [H|H]; constructor.
  - pose proof (token_types_code a) as Ha. rewrite H, token_types_code in Ha. congruence.
  - by intros ->.
Qed.

Lemma tok_eqb_true a b : (a =t b) = true ↔ a = b.
Proof. destruct (tok_eqb_spec a b); split; congruence. Qed.

Lemma tok_eqb_refl a : (a =t a) = true.
Proof. by apply tok_eqb_true. Qed.

Lemma tok_eqb_false a b : (a =t b) = false ↔ a ≠ b.
Proof. destruct (tok_eqb_spec a b); split; congruence. Qed.

#[export] Instance TokenType_eq_dec : EqDecision TokenType.
Proof. intros a b. destruct (tok_eqb_spec a b); [by left|by right]. Defined.

(** [lo <= type && type <= hi] on the enumeration. *)
Definition token_between (lo hi ty : TokenType) : bool :=
  (token_code lo <=? token_code ty) && (token_code ty <=? token_code hi).
