(* ===== verification/ParserState.v ===== *)
(** * The parser's state and primitives: src/src/parser/parser.c

    The parser reads a source of tokens through an interface; the lexer
    implements it.  [Parser] is the C structure, [PM] the monad of the functions
    that change it, with the two ways a C function may fail to return: undefined
    behaviour, and (as this development shows never to happen) too little fuel. *)

From S2P Require Import Prelude.
From S2P Require Import Lexer.
From S2P Require Import TokenKind.
From S2P Require Import Ast.
From S2P Require Import ErrorReporter.

(** ** Token sources *)

(** What the parser uses of a lexer.  [source_restore saved lx] is [lx] with the
    position, line, column and bracket depth of [saved]; [source_left] bounds the
    number of tokens to come and is used as fuel only. *)
Class TokenSource (L : Type) : Type := {
  source_next_token : L → option (Token * L);
  source_peek_token : L → option (Token * L);
  source_position : L → nat;
  source_restore : L → L → L;
  source_left : L → nat }.

Definition lexer_restore (saved lx : Lexer) : Lexer :=
  mkLexer (source lx) (position saved) (line saved) (column saved) (src_length lx)
    (error_message lx) (has_error lx) (continuation_depth saved).

#[export] Instance lexer_source : TokenSource Lexer := {
  source_next_token := lexer_next_token;
  source_peek_token := lexer_peek_token;
  source_position := position;
  source_restore := lexer_restore;
  source_left := remaining }.

(** ** The parser structure and its monad *)

Section state.
Context {L : Type}.

(** [error_reporter] says whether the pointer is set; [reporter] is the reporter
    it points to, which keeps its reports when the pointer is cleared and put
    back. *)
Record Parser : Type := mkParser {
  lexer : L;
  current_token : Token;
  peek_token : Token;
  p_has_error : bool;
  had_error : bool;
  error_count : nat;
  p_error_message : option string;
  error_reporter : bool;
  reporter : ErrorReporter;
  error_recovery_mode : bool;
  source_filename : option string }.

Inductive presult (A : Type) : Type :=
  | Returned (a : A) (p : Parser)
  | Undefined_behaviour
  | Out_of_fuel.
Arguments Returned {A} a p.
Arguments Undefined_behaviour {A}.
Arguments Out_of_fuel {A}.

Definition PM (A : Type) : Type := Parser → presult A.

#[export] Instance PM_ret : MRet PM := λ A a p, Returned a p.
#[export] Instance PM_bind : MBind PM := λ A B f m p,
  match m p with
  | Returned a p' => f a p'
  | Undefined_behaviour => Undefined_behaviour
  | Out_of_fuel => Out_of_fuel
  end.

Definition undefined {A} : PM A := λ p, Undefined_behaviour.
Definition out_of_fuel {A} : PM A := λ p, Out_of_fuel.
Definition get {A} (f : Parser → A) : PM A := λ p, Returned (f p) p.
Definition modify (f : Parser → Parser) : PM () := λ p, Returned () (f p).

Definition current_type : PM TokenType := get (fun p => type (current_token p)).
Definition peek_type : PM TokenType := get (fun p => type (peek_token p)).
Definition parser_has_error : PM bool := get p_has_error.

(** The C string of [parser->current_token.value], dereferenced. *)
Definition current_text : PM string := λ p,
  match value (current_token p) with
  | Some s => Returned (c_string s) p
  | None => Undefined_behaviour
  end.

Definition parser_current_location : PM SourceLocation :=
  get (fun p => mkLocation (token_line (current_token p)) (token_column (current_token p))
                  (source_filename p)).

Definition parser_match (ty : TokenType) : PM bool :=
  get (fun p => type (current_token p) =t ty).

(** ** Errors *)

Definition lexeme_length (v : StringView) : nat :=
  match v with SV_null => 0 | SV_source _ len => len | SV_value len => len end.

(** [snprintf] into a buffer of [size] bytes. *)
Definition snprintf (size : nat) (s : string) : string := String.substring 0 (size - 1) s.

Definition PARSER_ERROR_BUF_SIZE : nat := 512.

Definition set_errors (p : Parser) (has_err had_err : bool) (count : nat)
    (message : option string) : Parser :=
  mkParser (lexer p) (current_token p) (peek_token p) has_err had_err count message
    (error_reporter p) (reporter p) (error_recovery_mode p) (source_filename p).

(** [if (parser->error_reporter) add (parser->error_reporter, ...);] *)
Definition report (p : Parser) (add : ErrorReporter → ErrorReporter) : Parser :=
  mkParser (lexer p) (current_token p) (peek_token p) (p_has_error p) (had_error p)
    (error_count p) (p_error_message p) (error_reporter p)
    (if error_reporter p then add (reporter p) else reporter p)
    (error_recovery_mode p) (source_filename p).

Definition parser_report_lexer_token_error (t : Token) : PM () :=
  modify (fun p =>
    if type t =t TOKEN_ERROR then
      let message := match value t with
                     | Some v => if String.eqb (c_string v) EmptyString then "Invalid token"%string
                                 else c_string v
                     | None => "Invalid token"%string
                     end in
      let error_msg := snprintf PARSER_ERROR_BUF_SIZE ("Lexical error: " +:+ message) in
      report (set_errors p true true (S (error_count p)) (Some error_msg))
        (fun r => error_reporter_add_error r ERROR_LEXICAL
           (mkLocation (token_line t) (token_column t) (source_filename p)) error_msg)
    else p).

Definition parser_set_error_with_suggestion (message : string) (suggestion : option string)
    : PM () :=
  modify (fun p =>
    let t := current_token p in
    let text := option_map c_string (value t) in
    let span_len :=
      if 0 <? lexeme_length (lexeme t) then lexeme_length (lexeme t)
      else match text with
           | Some v => if String.eqb v EmptyString then 1 else String.length v
           | None => 1
           end in
    let span := source_span_from_location
                  (mkLocation (token_line t) (token_column t) (source_filename p)) span_len in
    let suggestion := match suggestion with
                      | Some s => Some s
                      | None => error_reporter_suggest_for_token text
                      end in
    report (set_errors p true true (S (error_count p)) (Some message))
      (fun r => error_reporter_add_error_with_span_and_suggestion r ERROR_SYNTAX
         span message suggestion)).

Definition parser_set_error (message : string) : PM () :=
  parser_set_error_with_suggestion message None.

(** [parser_set_error (...); return NULL;] *)
Definition fail_with {A} (message : string) : PM (option A) :=
  parser_set_error message ;; mret None.

(** [if (!parser->has_error) parser_set_error (...);] *)
Definition parser_set_error_if_none (message : string) : PM () :=
  e ← parser_has_error; if e : bool then mret () else parser_set_error message.

Definition parser_clear_error : PM () :=
  modify (fun p => set_errors p false (had_error p) (error_count p) None).

(** ** Tokens *)

Context `{TokenSource L}.

Definition set_tokens (p : Parser) (lx : L) (cur peek : Token) : Parser :=
  mkParser lx cur peek (p_has_error p) (had_error p) (error_count p) (p_error_message p)
    (error_reporter p) (reporter p) (error_recovery_mode p) (source_filename p).

Definition parser_advance : PM () := λ p,
  if type (current_token p) =t TOKEN_EOF then Returned () p
  else
    match source_next_token (lexer p) with
    | None => Out_of_fuel
    | Some (t, lx) =>
        parser_report_lexer_token_error (peek_token p) (set_tokens p lx (peek_token p) t)
    end.

(** The tokens the parser may still consume. *)
Definition parser_left (p : Parser) : nat :=
  (if type (current_token p) =t TOKEN_EOF then 0 else 1) +
  (if type (peek_token p) =t TOKEN_EOF then 0 else 1) + source_left (lexer p).

(** A C loop whose body ends with [continue] ([inl]) or leaves the loop ([inr]);
    each round consumes a token, so the tokens left bound the rounds. *)
Fixpoint loop_fuel {St R} (fuel : nat) (body : St → PM (St + R)) (s : St) : PM R :=
  match fuel with
  | 0 => out_of_fuel
  | S f => r ← body s; match r with inl s' => loop_fuel f body s' | inr a => mret a end
  end.

Definition loop {St R} (body : St → PM (St + R)) (s : St) : PM R := λ p,
  loop_fuel (S (parser_left p)) body s p.

(** [while (current_token.type satisfies c) parser_advance (parser);] *)
Definition skip_while (c : TokenType → bool) : PM () :=
  loop (fun _ => t ← current_type;
                 if c t then parser_advance ;; mret (inl ()) else mret (inr ())) ().

Definition parser_create_with_error_reporter (lx : L) (r : option ErrorReporter)
    : presult () :=
  match source_next_token lx with
  | None => Out_of_fuel
  | Some (cur, lx) =>
      match source_next_token lx with
      | None => Out_of_fuel
      | Some (peek, lx) =>
          let p := mkParser lx cur peek false false 0 None
                     (match r with Some _ => true | None => false end)
                     (match r with Some r => r | None => error_reporter_create None None end)
                     false (error_reporter_current_filename r) in
          parser_report_lexer_token_error
            (if type cur =t TOKEN_ERROR then cur else peek) p
      end
  end.

(** [token_type_to_string]. *)
Definition token_names : list (TokenType * string) :=
  [ (TOKEN_EOF, "end of file"); (TOKEN_IDENTIFIER, "identifier"); (TOKEN_NUMBER, "number");
    (TOKEN_STRING, "string"); (TOKEN_IMPORT, "'import'"); (TOKEN_IMPORT_STR, "'import_str'");
    (TOKEN_EXTERN, "'extern'"); (TOKEN_EXPORT, "'export'"); (TOKEN_VAR, "'var'");
    (TOKEN_FUNCTION, "'function'"); (TOKEN_STRUCT, "'struct'"); (TOKEN_METHOD, "'method'");
    (TOKEN_RETURN, "'return'"); (TOKEN_IF, "'if'"); (TOKEN_ELSE, "'else'");
    (TOKEN_WHILE, "'while'"); (TOKEN_FOR, "'for'"); (TOKEN_SWITCH, "'switch'");
    (TOKEN_CASE, "'case'"); (TOKEN_DEFAULT, "'default'"); (TOKEN_BREAK, "'break'");
    (TOKEN_CONTINUE, "'continue'"); (TOKEN_DEFER, "'defer'"); (TOKEN_ERRDEFER, "'errdefer'");
    (TOKEN_ASM, "'asm'"); (TOKEN_THIS, "'this'"); (TOKEN_NEW, "'new'"); (TOKEN_COLON, "':'");
    (TOKEN_SEMICOLON, "';'"); (TOKEN_COMMA, "','"); (TOKEN_EQUALS, "'='");
    (TOKEN_ARROW, "'->'"); (TOKEN_LPAREN, "'('"); (TOKEN_RPAREN, "')'"); (TOKEN_LBRACE, "'{'");
    (TOKEN_RBRACE, "'}'"); (TOKEN_LBRACKET, "'['"); (TOKEN_RBRACKET, "']'"); (TOKEN_PLUS, "'+'");
    (TOKEN_MINUS, "'-'"); (TOKEN_MULTIPLY, "'*'"); (TOKEN_AMPERSAND, "'&'"); (TOKEN_PIPE, "'|'");
    (TOKEN_CARET, "'^'"); (TOKEN_LSHIFT, "'<<'"); (TOKEN_RSHIFT, "'>>'"); (TOKEN_TILDE, "'~'");
    (TOKEN_AND_AND, "'&&'"); (TOKEN_OR_OR, "'||'"); (TOKEN_DIVIDE, "'/'");
    (TOKEN_PERCENT, "'%'"); (TOKEN_DOT, "'.'"); (TOKEN_NEWLINE, "newline");
    (TOKEN_ERROR, "lexical error") ]%string.

Definition token_type_to_string (ty : TokenType) : string :=
  match List.find (fun '(k, _) => k =t ty) token_names with
  | Some (_, s) => s
  | None => "unknown token"
  end.

Definition expect_suggestion (expected actual : TokenType) : option string :=
  if expected =t TOKEN_SEMICOLON then
    Some "add a semicolon ';' to end the statement"%string
  else if (expected =t TOKEN_RPAREN) && (actual =t TOKEN_COMMA) then
    Some "check if you have an extra comma in the parameter list"%string
  else if (expected =t TOKEN_RBRACE) && (actual =t TOKEN_EOF) then
    Some "add a closing brace '}' to match the opening brace"%string
  else if (expected =t TOKEN_COLON) && (actual =t TOKEN_EQUALS) then
    Some "use ':' for type annotations, '=' for assignments"%string
  else None.

Definition parser_expect (ty : TokenType) : PM bool :=
  actual ← current_type;
  if actual =t ty then parser_advance ;; mret true
  else
    parser_set_error_with_suggestion
      (snprintf PARSER_ERROR_BUF_SIZE
         ("Expected " +:+ token_type_to_string ty +:+ ", found " +:+ token_type_to_string actual))
      (expect_suggestion ty actual) ;;
    mret false.

Definition is_separator (ty : TokenType) : bool := (ty =t TOKEN_SEMICOLON) || (ty =t TOKEN_NEWLINE).

Definition parser_expect_statement_end : PM bool :=
  t ← current_type;
  if is_separator t then parser_advance ;; mret true
  else
    skip_while (fun t => t =t TOKEN_NEWLINE) ;;
    t ← current_type;
    if t =t TOKEN_SEMICOLON then parser_advance ;; mret true
    else
      parser_set_error "Expected ';' or newline at the end of the statement" ;;
      mret false.

(** ** Recovery *)

Definition is_sync_token (ty : TokenType) : bool :=
  existsb (fun k => k =t ty)
    [TOKEN_FUNCTION; TOKEN_VAR; TOKEN_STRUCT; TOKEN_RETURN; TOKEN_IF; TOKEN_WHILE; TOKEN_FOR;
     TOKEN_SWITCH; TOKEN_MATCH; TOKEN_BREAK; TOKEN_CONTINUE; TOKEN_RBRACE].

Definition parser_synchronize : PM () :=
  loop (fun _ =>
    t ← current_type;
    if t =t TOKEN_EOF then mret (inr ())
    else if is_separator t then parser_advance ;; mret (inr ())
    else if is_sync_token t then mret (inr ())
    else parser_advance ;; mret (inl ())) ().

Definition set_recovery (b : bool) : PM () :=
  modify (fun p => mkParser (lexer p) (current_token p) (peek_token p) (p_has_error p)
    (had_error p) (error_count p) (p_error_message p) (error_reporter p) (reporter p) b
    (source_filename p)).

Definition parser_recover_from_error : PM () :=
  set_recovery true ;; parser_synchronize ;; parser_clear_error ;; set_recovery false.

(** ** Backtracking *)

(** [ParserSavedState] holds copies of the tokens and of the error state, and the
    lexer's place; the whole parser stands for it, of which only these fields are
    read back. *)
Definition parser_save_state : PM Parser := get (fun p => p).

Definition parser_restore_state (saved : Parser) : PM () :=
  modify (fun p =>
    mkParser (source_restore (lexer saved) (lexer p)) (current_token saved) (peek_token saved)
      (p_has_error saved) (had_error saved) (error_count saved) (p_error_message saved)
      (error_reporter saved) (reporter p) (error_recovery_mode p) (source_filename p)).

(** [parser->error_reporter = ...;] *)
Definition set_reporter (b : bool) : PM () :=
  modify (fun p => mkParser (lexer p) (current_token p) (peek_token p) (p_has_error p)
    (had_error p) (error_count p) (p_error_message p) b (reporter p) (error_recovery_mode p)
    (source_filename p)).
(** [parser->error_message = NULL;] *)
Definition clear_error_message : PM () :=
  modify (fun p => set_errors p (p_has_error p) (had_error p) (error_count p) None).

(** ** Token classes *)

Definition parser_is_identifier_like (ty : TokenType) : bool :=
  (ty =t TOKEN_IDENTIFIER) || token_between TOKEN_MOV TOKEN_SYSCALL ty ||
  token_between TOKEN_EAX TOKEN_R15 ty.

Definition parser_is_type_keyword (ty : TokenType) : bool :=
  token_between TOKEN_INT8 TOKEN_STRING_TYPE ty.

Definition is_name (ty : TokenType) : bool :=
  parser_is_identifier_like ty || parser_is_type_keyword ty.

Definition operator_precedences : list (TokenType * nat) :=
  [ (TOKEN_DOT, 13); (TOKEN_MULTIPLY, 11); (TOKEN_DIVIDE, 11); (TOKEN_PERCENT, 11);
    (TOKEN_PLUS, 10); (TOKEN_MINUS, 10); (TOKEN_LSHIFT, 9); (TOKEN_RSHIFT, 9);
    (TOKEN_LESS_THAN, 8); (TOKEN_LESS_EQUALS, 8); (TOKEN_GREATER_THAN, 8);
    (TOKEN_GREATER_EQUALS, 8); (TOKEN_EQUALS_EQUALS, 7); (TOKEN_NOT_EQUALS, 7);
    (TOKEN_AMPERSAND, 6); (TOKEN_CARET, 5); (TOKEN_PIPE, 4); (TOKEN_AND_AND, 3);
    (TOKEN_OR_OR, 2) ].

Definition parser_get_operator_precedence (ty : TokenType) : nat :=
  match List.find (fun '(k, _) => k =t ty) operator_precedences with
  | Some (_, n) => n
  | None => 0
  end.

Definition parser_is_binary_operator (ty : TokenType) : bool :=
  existsb (fun k => k =t ty)
    [TOKEN_PLUS; TOKEN_MINUS; TOKEN_MULTIPLY; TOKEN_DIVIDE; TOKEN_PERCENT; TOKEN_EQUALS_EQUALS;
     TOKEN_NOT_EQUALS; TOKEN_LESS_THAN; TOKEN_LESS_EQUALS; TOKEN_GREATER_THAN;
     TOKEN_GREATER_EQUALS; TOKEN_AND_AND; TOKEN_OR_OR; TOKEN_AMPERSAND; TOKEN_PIPE; TOKEN_CARET;
     TOKEN_LSHIFT; TOKEN_RSHIFT; TOKEN_DOT].

Definition parser_is_unary_operator (ty : TokenType) : bool :=
  existsb (fun k => k =t ty)
    [TOKEN_MINUS; TOKEN_PLUS; TOKEN_MULTIPLY; TOKEN_AMPERSAND; TOKEN_TILDE; TOKEN_NOT].

Definition parser_compound_assign_op (ty : TokenType) : option string :=
  option_map snd (List.find (fun '(k, _) => k =t ty)
    [ (TOKEN_PLUS_EQUALS, "+"); (TOKEN_MINUS_EQUALS, "-"); (TOKEN_STAR_EQUALS, "*");
      (TOKEN_SLASH_EQUALS, "/"); (TOKEN_PERCENT_EQUALS, "%"); (TOKEN_AMP_EQUALS, "&");
      (TOKEN_PIPE_EQUALS, "|"); (TOKEN_CARET_EQUALS, "^"); (TOKEN_LSHIFT_EQUALS, "<<");
      (TOKEN_RSHIFT_EQUALS, ">>") ]%string).

Definition parser_is_assignment_token (ty : TokenType) : bool :=
  (ty =t TOKEN_EQUALS) ||
  match parser_compound_assign_op ty with Some _ => true | None => false end.
End state.

Arguments Parser L : clear implicits.
Arguments presult L A : clear implicits.
Arguments PM L A : clear implicits.
Arguments Returned {L A} a p.
Arguments Undefined_behaviour {L A}.
Arguments Out_of_fuel {L A}.

(** [x ?← m ; k]: [if (!(x = m)) return NULL;] *)
Notation "x '?←' m ; k" := (m ≫= λ o, match o with Some x => k | None => mret None end)
  (at level 20, m at level 100, k at level 200, right associativity) : mettle_scope.
(** [expecting ty else e; k]: [if (!parser_expect (parser, ty)) { e; return NULL; }] *)
Notation "'expecting' ty 'otherwise' e ; k" := (parser_expect ty ≫= λ b, if b : bool then k else e)
  (at level 20, ty at level 100, e at level 100, k at level 200, right associativity) : mettle_scope.
Notation "'expecting' ty ; k" := (parser_expect ty ≫= λ b, if b : bool then k else mret None)
  (at level 20, ty at level 100, k at level 200, right associativity) : mettle_scope.
