(* ===== verification/ParserTypes.v ===== *)
(** * Types and type parameters: src/src/parser/parser.c

    [parser_parse_type_annotation] returns the text of a type; the clauses that
    declare and constrain the type parameters of functions and structs. *)

From S2P Require Import Prelude.
From S2P Require Import Lexer.
From S2P Require Import TokenKind.
From S2P Require Import Ast.
From S2P Require Import ErrorReporter.
From S2P Require Import ParserState.

Section types.
Context {L : Type} `{TokenSource L}.
Abbreviation PM := (PM L).

(** ** Qualified names *)

(** The [while (current_token.type == TOKEN_DOT)] loops: [.name] appended to
    [name], [message] being the error of a dot that no name follows. *)
Definition parse_dotted (message name : string) : PM (option string) :=
  loop (fun name =>
    t ← current_type;
    if t =t TOKEN_DOT then
      parser_advance ;;
      t ← current_type;
      if is_name t then
        v ← current_text; parser_advance ;; mret (inl (name +:+ "." +:+ v)%string)
      else parser_set_error message ;; mret (inr None)
    else mret (inr (Some name))) name.

Definition parser_parse_qualified_name (expected : string) : PM (option string) :=
  t ← current_type;
  if is_name t then name ← current_text; parser_advance ;; parse_dotted expected name
  else fail_with expected.

(** ** Type annotations *)

(** The two comma-separated lists of types, up to [close]; the text of the
    elements joined by commas. *)
Definition parse_type_list (rec : PM (option string)) (close : TokenType)
    (separator_error type_error : string) : PM (option string) :=
  loop (fun '(first, buf) =>
    t ← current_type; e ← parser_has_error;
    if (t =t close) || (t =t TOKEN_EOF) || e then mret (inr (Some buf))
    else
      sep ← (if first : bool then mret (Some buf)
             else if t =t TOKEN_COMMA then parser_advance ;; mret (Some (buf +:+ ",")%string)
             else fail_with separator_error);
      match sep with
      | None => mret (inr None)
      | Some buf =>
          ty ← rec;
          match ty with
          | None => parser_set_error_if_none type_error ;; mret (inr None)
          | Some ty => mret (inl (false, (buf +:+ ty)%string))
          end
      end) (true, EmptyString).

(** [fn(param_types) -> return_type], at the token [fn]. *)
Definition parse_function_pointer (rec : PM (option string)) : PM (option string) :=
  parser_advance ;;
  expecting TOKEN_LPAREN otherwise fail_with "Expected '(' after 'fn' in function pointer type";
  params ?← parse_type_list rec TOKEN_RPAREN
             "Expected ',' or ')' in function pointer parameter list"
             "Expected type in function pointer parameter list";
  expecting TOKEN_RPAREN;
  expecting TOKEN_ARROW otherwise fail_with "Expected '->' after ')' in function pointer type";
  ret ← rec;
  match ret with
  | None =>
      parser_set_error_if_none "Expected return type after '->' in function pointer type" ;;
      mret None
  | Some ret => mret (Some ("fn(" +:+ params +:+ ")->" +:+ ret)%string)
  end.

(** [<type, ...>] after a type name. *)
Definition parse_type_arguments (rec : PM (option string)) (type_name : string)
    : PM (option string) :=
  t ← current_type;
  if t =t TOKEN_LESS_THAN then
    parser_advance ;;
    args ?← parse_type_list rec TOKEN_GREATER_THAN
             "Expected ',' or '>' in type argument list" "Expected type in type argument list";
    expecting TOKEN_GREATER_THAN;
    mret (Some (type_name +:+ "<" +:+ args +:+ ">")%string)
  else mret (Some type_name).

Definition parse_pointer_suffix (type_name : string) : PM string :=
  loop (fun type_name =>
    t ← current_type;
    if t =t TOKEN_MULTIPLY then parser_advance ;; mret (inl (type_name +:+ "*")%string)
    else mret (inr type_name)) type_name.

Definition parse_array_suffix (type_name : string) : PM (option string) :=
  t ← current_type;
  if t =t TOKEN_LBRACKET then
    parser_advance ;;
    t ← current_type;
    if t =t TOKEN_NUMBER then
      size_text ← current_text;
      parser_advance ;;
      expecting TOKEN_RBRACKET;
      mret (Some (type_name +:+ "[" +:+ size_text +:+ "]")%string)
    else fail_with "Expected array size after '['"
  else mret (Some type_name).

Definition parse_type_base (rec : PM (option string)) : PM (option string) :=
  t ← current_type;
  if t =t TOKEN_FN then parse_function_pointer rec
  else if is_name t then v ← current_text; parser_advance ;; mret (Some v)
  else mret None.

Definition parse_type_annotation_body (rec : PM (option string)) : PM (option string) :=
  type_name ?← parse_type_base rec;
  type_name ?← parse_dotted "Expected type name after '.'" type_name;
  type_name ?← parse_type_arguments rec type_name;
  type_name ← parse_pointer_suffix type_name;
  parse_array_suffix type_name.

Fixpoint parse_type_annotation_fuel (fuel : nat) : PM (option string) :=
  match fuel with
  | 0 => out_of_fuel
  | S f => parse_type_annotation_body (parse_type_annotation_fuel f)
  end.

(** Each level of nesting consumes a token. *)
Definition parser_parse_type_annotation : PM (option string) := λ p,
  parse_type_annotation_fuel (S (parser_left p)) p.

(** ** Type parameters *)

Definition parser_append_type_param_bound (bounds : option string) (trait_name : string)
    : option string :=
  match bounds with
  | None => Some trait_name
  | Some b => Some (b +:+ "+" +:+ trait_name)%string
  end.

Definition parser_parse_bound_list (bounds : option string) : PM (option (option string)) :=
  loop (fun bounds =>
    o ← parser_parse_qualified_name "Expected trait name in bound";
    match o with
    | None => mret (inr None)
    | Some trait_name =>
        let bounds := parser_append_type_param_bound bounds trait_name in
        t ← current_type;
        if t =t TOKEN_PLUS then parser_advance ;; mret (inl bounds)
        else mret (inr (Some bounds))
    end) bounds.

Fixpoint parser_find_type_param_index (params : list (string * option string)) (name : string)
    : option nat :=
  match params with
  | [] => None
  | (p, _) :: rest =>
      if String.eqb p name then Some 0
      else option_map S (parser_find_type_param_index rest name)
  end.

(** The parameters with their bounds; [None] is the return value 0. *)
Definition parser_parse_where_clause (params : list (string * option string))
    : PM (option (list (string * option string))) :=
  t ← current_type;
  if t =t TOKEN_WHERE then
    parser_advance ;;
    loop (fun params =>
      t ← current_type;
      if parser_is_identifier_like t then
        param_name ← current_text;
        parser_advance ;;
        match parser_find_type_param_index params param_name with
        | None =>
            parser_set_error "Where clause references unknown type parameter" ;; mret (inr None)
        | Some i =>
            colon ← parser_expect TOKEN_COLON;
            if colon : bool then
              b ← parser_parse_bound_list (params !! i ≫= snd);
              match b with
              | None => mret (inr None)
              | Some b =>
                  let params := alter (fun q => (q.1, b)) i params in
                  t ← current_type;
                  if t =t TOKEN_COMMA then parser_advance ;; mret (inl params)
                  else mret (inr (Some params))
              end
            else mret (inr None)
        end
      else
        parser_set_error "Expected type parameter name in where clause" ;; mret (inr None)) params
  else mret (Some params).

(** At the token [<].  A failure, like an empty list, returns no parameters; only
    the error state tells them apart. *)
Definition parser_parse_type_param_list : PM (list (string * option string)) :=
  parser_advance ;;
  r ← loop (fun params =>
    t ← current_type;
    if (t =t TOKEN_GREATER_THAN) || (t =t TOKEN_EOF) then mret (inr (Some params))
    else if parser_is_identifier_like t then
      name ← current_text;
      parser_advance ;;
      t ← current_type;
      bound ← (if t =t TOKEN_COLON then parser_advance ;; parser_parse_bound_list None
               else mret (Some None));
      match bound with
      | None => mret (inr None)
      | Some bound =>
          let params := params ++ [(name, bound)] in
          t ← current_type;
          if t =t TOKEN_COMMA then parser_advance ;; mret (inl params)
          else if t =t TOKEN_GREATER_THAN then mret (inl params)
          else
            parser_set_error "Expected ',' or '>' in type parameter list" ;; mret (inr None)
      end
    else parser_set_error "Expected type parameter name" ;; mret (inr None)) [];
  match r with
  | None => mret []
  | Some params =>
      close ← parser_expect TOKEN_GREATER_THAN;
      mret (if close : bool then params else [])
  end.
End types.
