(* ===== verification/ParserExpr.v ===== *)
(** * Expressions: src/src/parser/parser.c

    Integer literals, primary and postfix expressions, casts, unary and binary
    expressions and the match expression.  The functions call each other through
    [rec], one activation of [parser_parse_expression]'s family with less fuel:
    every such call is made after a token was consumed. *)

From S2P Require Import Prelude.
From S2P Require Import Lexer.
From S2P Require Import TokenKind.
From S2P Require Import Ast.
From S2P Require Import ErrorReporter.
From S2P Require Import ParserState.
From S2P Require Import ParserTypes.

(** ** Integer literals *)

Definition digit_value (base : Z) (c : ascii) : option Z :=
  let v := if isdigit c then Some (char_code c - 48)%Z
           else if isalpha c then Some (char_code (tolower c) - 87)%Z
           else None in
  v ≫= fun d => if (d <? base)%Z then Some d else None.

(** The longest run of digits: its value after [acc], and what follows it. *)
Fixpoint scan_digits (base acc : Z) (s : list ascii) : Z * list ascii :=
  match s with
  | [] => (acc, [])
  | c :: s' =>
      match digit_value base c with
      | Some d => scan_digits base (acc * base + d)%Z s'
      | None => (acc, s)
      end
  end.

(** [strtoull (value, &end, 16)] of a string that starts with [0x]: without a
    digit after the prefix only the zero is read. *)
Definition strtoull_hex (s : list ascii) : Z * list ascii :=
  match s with
  | c0 :: x :: c :: s' =>
      match digit_value 16 c with
      | Some _ => scan_digits 16 0 (c :: s')
      | None => (0%Z, x :: c :: s')
      end
  | c0 :: s' => (0%Z, s')
  | [] => (0%Z, [])
  end.

Fixpoint skip_spaces (s : list ascii) : list ascii :=
  match s with
  | c :: s' => if isspace c then skip_spaces s' else s
  | [] => []
  end.

(** [strtoll (value, &end, 10)] before it is clamped; [None] when no digit was
    read. *)
Definition strtoll_dec (s : list ascii) : option (Z * list ascii) :=
  let s := skip_spaces s in
  let '(sign, s) := match s with
                    | c :: s' => if c =c "-" then ((-1)%Z, s')
                                 else if c =c "+" then (1%Z, s') else (1%Z, s)
                    | [] => (1%Z, s)
                    end in
  match s with
  | c :: _ =>
      match digit_value 10 c with
      | Some _ => let '(v, rest) := scan_digits 10 0 s in Some ((sign * v)%Z, rest)
      | None => None
      end
  | [] => None
  end.

Definition parser_literal_radix_hint (v : string) : Z :=
  match v with
  | String c0 (String c1 _) =>
      if negb (c0 =c "0") then 10
      else if (c1 =c "x") || (c1 =c "X") then 16
      else if (c1 =c "b") || (c1 =c "B") then 2
      else 10
  | _ => 10
  end.

Definition ULLONG_MAX : Z := 2 ^ 64 - 1.

(** The binary digits after [0b]. *)
Fixpoint binary_digits (u : Z) (s : list ascii) : Z + string :=
  match s with
  | [] => inl u
  | c :: s' =>
      if negb (c =c "0") && negb (c =c "1") then inr "Invalid binary literal"%string
      else if (ULLONG_MAX / 2 <? u)%Z then inr "Binary literal is out of range"%string
      else binary_digits (u * 2 + (char_code c - 48))%Z s'
  end.

(** The value and the radix of a literal, or the error message. *)
Definition integer_literal (v : string) : (Z * Z) + string :=
  let s := list_ascii_of_string v in
  let hint := parser_literal_radix_hint v in
  if (hint =? 16)%Z then
    let '(u, rest) := strtoull_hex s in
    match rest with
    | _ :: _ => inr "Invalid hexadecimal literal"%string
    | [] => if (ULLONG_MAX <? u)%Z then inr "Hexadecimal literal is out of range"%string
            else inl (s64 u, 16%Z)
    end
  else if (hint =? 2)%Z then
    match drop 2 s with
    | [] => inr "Invalid binary literal"%string
    | digits =>
        match binary_digits 0 digits with
        | inl u => inl (s64 u, 2%Z)
        | inr m => inr m
        end
    end
  else
    match strtoll_dec s with
    | Some (v, []) =>
        if (- 2 ^ 63 <=? v)%Z && (v <? 2 ^ 63)%Z then inl (v, 10%Z)
        else inr "Decimal integer literal is out of range"%string
    | _ => inr "Invalid integer literal"%string
    end.

Section expressions.
Context {L : Type} `{TokenSource L}.
Abbreviation PM := (PM L).

Definition parser_parse_integer_literal_string (v : string) : PM (option (Z * Z)) :=
  match integer_literal v with
  | inl r => mret (Some r)
  | inr message => fail_with message
  end.

Definition parser_identifier_name_is (expr : ASTNode) (name : string) : bool :=
  match expr with
  | AST_IDENTIFIER _ n => String.eqb n name
  | _ => false
  end.

(** ** Match *)

(** One arm up to its colon: the variant, the binding and whether it is the
    default. *)
Definition parse_match_arm_head (seen_default : bool) : PM (option (string * option string * bool)) :=
  t ← current_type;
  if t =t TOKEN_DEFAULT then
    if seen_default then fail_with "Only one default arm is allowed in match"
    else parser_advance ;; mret (Some ("default"%string, None, true))
  else if t =t TOKEN_CASE then
    parser_advance ;;
    t ← current_type;
    if parser_is_identifier_like t then
      variant_name ← current_text;
      parser_advance ;;
      t ← current_type;
      if t =t TOKEN_LPAREN then
        parser_advance ;;
        t ← current_type;
        if parser_is_identifier_like t then
          binding_name ← current_text;
          parser_advance ;;
          expecting TOKEN_RPAREN;
          mret (Some (variant_name, Some binding_name, false))
        else fail_with "Expected binding name in match arm"
      else mret (Some (variant_name, None, false))
    else fail_with "Expected variant name after 'case' in match"
  else fail_with "Expected 'case' or 'default' in match".

(** The loop over the arms; it always leaves with the arms read so far. *)
Definition parse_match_arms (parse_body : PM (option ASTNode)) (is_expression : bool)
    : PM (list (MatchArm ASTNode)) :=
  loop (fun '(arms, seen_default) =>
    t ← current_type; e ← parser_has_error;
    if (t =t TOKEN_RBRACE) || (t =t TOKEN_EOF) || e then mret (inr arms)
    else
      skip_while is_separator ;;
      t ← current_type;
      if t =t TOKEN_RBRACE then mret (inr arms)
      else
        head ← parse_match_arm_head seen_default;
        match head with
        | None => mret (inr arms)
        | Some (variant_name, binding_name, is_default) =>
            colon ← parser_expect TOKEN_COLON;
            if colon : bool then
              body ← parse_body;
              match body with
              | None =>
                  parser_set_error_if_none
                    (if is_expression then "Expected value expression in match arm"
                     else "Expected '{' block body in match arm") ;;
                  mret (inr arms)
              | Some body =>
                  t ← current_type;
                  (if is_expression && (t =t TOKEN_COMMA) then parser_advance else mret ()) ;;
                  skip_while is_separator ;;
                  mret (inl (arms ++ [mkArm variant_name binding_name body is_default],
                             seen_default || is_default))
              end
            else mret (inr arms)
        end) ([], false).

Definition parser_parse_match_core (parse_expression parse_body : PM (option ASTNode))
    (is_expression : bool) : PM (option ASTNode) :=
  loc ← parser_current_location;
  expecting TOKEN_MATCH;
  expecting TOKEN_LPAREN otherwise fail_with "Expected '(' after 'match'";
  expr ?← parse_expression;
  expecting TOKEN_RPAREN;
  expecting TOKEN_LBRACE;
  arms ← parse_match_arms parse_body is_expression;
  e ← parser_has_error;
  if e : bool then mret None
  else
    expecting TOKEN_RBRACE;
    mret (Some (ast_create_match_node expr arms is_expression loc)).

(** ** The expression functions *)

(** The two functions called recursively. *)
Inductive expression_call : Type :=
  | Call_binary (min_precedence : nat)
  | Call_unary.

Section calls.
Context (rec : expression_call → PM (option ASTNode)).

(** [parser_parse_expression]. *)
Definition call_expression : PM (option ASTNode) := rec (Call_binary 0).

Definition parse_number : PM (option ASTNode) :=
  loc ← parser_current_location;
  v ← current_text;
  if existsb (fun c => c =c ".") (list_ascii_of_string v) then
    parser_advance ;; mret (Some (ast_create_float_literal v loc))
  else
    r ?← parser_parse_integer_literal_string v;
    parser_advance ;; mret (Some (ast_create_number_literal r.1 loc r.2)).

Definition parse_import_str : PM (option ASTNode) :=
  loc ← parser_current_location;
  parser_advance ;;
  t ← current_type;
  if t =t TOKEN_STRING then
    file_path ← current_text;
    parser_advance ;;
    mret (Some (ast_create_import_str file_path loc))
  else fail_with "Expected string literal after 'import_str'".

Definition parse_new : PM (option ASTNode) :=
  loc ← parser_current_location;
  parser_advance ;;
  t ← current_type;
  if is_name t || (t =t TOKEN_FN) then
    type_name ?← parser_parse_type_annotation;
    mret (Some (ast_create_new_expression type_name loc))
  else fail_with "Expected type name after 'new'".

Definition parser_parse_primary_expression : PM (option ASTNode) :=
  loc ← parser_current_location;
  t ← current_type;
  if parser_is_identifier_like t then
    name ← current_text; parser_advance ;; mret (Some (ast_create_identifier name loc))
  else if t =t TOKEN_NUMBER then parse_number
  else if t =t TOKEN_STRING then
    v ← current_text; parser_advance ;; mret (Some (ast_create_string_literal v loc))
  else if t =t TOKEN_IMPORT_STR then parse_import_str
  else if t =t TOKEN_LPAREN then
    parser_advance ;;
    expr ← call_expression;
    expecting TOKEN_RPAREN;
    mret expr
  else if t =t TOKEN_MATCH then parser_parse_match_core call_expression call_expression true
  else if t =t TOKEN_THIS then
    parser_advance ;; mret (Some (ast_create_identifier "this" loc))
  else if t =t TOKEN_NEW then parse_new
  else fail_with "Expected primary expression".

Definition parser_parse_cast_expression : PM (option ASTNode) :=
  t ← current_type; next ← peek_type;
  if negb (t =t TOKEN_LPAREN) then mret None
  else if negb (is_name next || (next =t TOKEN_FN)) then mret None
  else
    saved ← parser_save_state;
    (clear_error_message ;; set_reporter false) ;;
    loc ← parser_current_location;
    parser_advance ;;
    type_name ← parser_parse_type_annotation;
    e ← parser_has_error; t ← current_type;
    match type_name with
    | Some type_name =>
        if e || negb (t =t TOKEN_RPAREN) then parser_restore_state saved ;; mret None
        else
          set_reporter (error_reporter saved) ;;
          parser_advance ;;
          t ← current_type;
          if (t =t TOKEN_RPAREN) || (t =t TOKEN_COMMA) || (t =t TOKEN_SEMICOLON) ||
             (t =t TOKEN_EOF) ||
             (parser_is_binary_operator t && negb (parser_is_unary_operator t))
          then parser_restore_state saved ;; mret None
          else
            parser_clear_error ;;
            operand ?← rec Call_unary;
            mret (Some (ast_create_cast_expression type_name operand loc))
    | None => parser_restore_state saved ;; mret None
    end.

(** ** Postfix operators *)

(** [< type, ... > (] after an identifier; anything else is undone. *)
Definition parser_try_parse_generic_call_type_args : PM (option (list string)) :=
  saved ← parser_save_state;
  clear_error_message ;;
  parser_advance ;;
  args ← loop (fun type_args =>
    t ← current_type;
    if (t =t TOKEN_GREATER_THAN) || (t =t TOKEN_EOF) then mret (inr (Some type_args))
    else
      sep ← (if length type_args =? 0 then mret true
             else if t =t TOKEN_COMMA then parser_advance ;; mret true else mret false);
      if sep : bool then
        arg ← parser_parse_type_annotation; e ← parser_has_error;
        match arg with
        | Some arg => if e : bool then mret (inr None) else mret (inl (type_args ++ [arg]))
        | None => mret (inr None)
        end
      else mret (inr None)) [];
  t ← current_type;
  match args with
  | Some type_args =>
      if t =t TOKEN_GREATER_THAN then
        parser_advance ;;
        t ← current_type;
        if t =t TOKEN_LPAREN then parser_clear_error ;; mret (Some type_args)
        else parser_restore_state saved ;; mret None
      else parser_restore_state saved ;; mret None
  | None => parser_restore_state saved ;; mret None
  end.

(** The arguments after the open parenthesis; an argument that fails ends them. *)
Definition parse_arguments : PM (list ASTNode) :=
  t ← current_type;
  if t =t TOKEN_RPAREN then mret []
  else
    loop (fun arguments =>
      arg ← call_expression;
      match arg with
      | None => mret (inr arguments)
      | Some arg =>
          let arguments := arguments ++ [arg] in
          t ← current_type;
          if t =t TOKEN_COMMA then parser_advance ;; mret (inl arguments)
          else if t =t TOKEN_RPAREN then mret (inr arguments)
          else
            parser_set_error "Expected ',' or ')' in argument list" ;; mret (inr arguments)
      end) [].

(** The type argument of [sizeof]. *)
Definition parse_sizeof_argument : PM (option (list ASTNode)) :=
  type_location ← parser_current_location;
  t ← current_type;
  if t =t TOKEN_RPAREN then fail_with "Expected type name in sizeof"
  else
    type_name ← parser_parse_type_annotation;
    match type_name with
    | None => parser_set_error_if_none "Expected type name in sizeof" ;; mret None
    | Some type_name =>
        t ← current_type;
        if t =t TOKEN_COMMA then fail_with "sizeof expects exactly one type argument"
        else mret (Some [ast_create_identifier type_name type_location])
    end.

Definition parse_call (expr : ASTNode) (loc : SourceLocation) : PM (option ASTNode) :=
  parser_advance ;;
  arguments ?← (if parser_identifier_name_is expr "sizeof" then parse_sizeof_argument
                else args ← parse_arguments; mret (Some args));
  expecting TOKEN_RPAREN;
  match expr with
  | AST_MEMBER_ACCESS _ object member =>
      mret (Some (ast_create_method_call object member arguments loc))
  | AST_IDENTIFIER _ name => mret (Some (ast_create_call_expression name arguments loc))
  | _ =>
      (* The new node and then its arguments, which it owns, are destroyed. *)
      if length arguments =? 0 then mret None else undefined
  end.

(** [if (!type_args) ...]: the call [name<types>(arguments)]. *)
Definition parse_generic_call (name : string) (type_args : list string) (loc : SourceLocation)
    : PM (option ASTNode) :=
  parser_advance ;;
  arguments ← parse_arguments;
  expecting TOKEN_RPAREN;
  mret (Some (AST_FUNCTION_CALL loc (mkCall name arguments None type_args false))).

Definition parse_member (expr : ASTNode) (message : string) (loc : SourceLocation)
    : PM (option ASTNode) :=
  parser_advance ;;
  t ← current_type;
  if t =t TOKEN_IDENTIFIER then
    member ← current_text;
    parser_advance ;;
    mret (Some (ast_create_member_access expr member loc))
  else fail_with message.

Definition parse_index (expr : ASTNode) (loc : SourceLocation) : PM (option ASTNode) :=
  parser_advance ;;
  index_expr ?← call_expression;
  expecting TOKEN_RBRACKET;
  mret (Some (ast_create_array_index_expression expr index_expr loc)).

(** A round of the postfix loop after the attempt at a generic call. *)
Definition parse_postfix_operator (expr : ASTNode) (loc : SourceLocation)
    : PM (ASTNode + option ASTNode) :=
  let continue o := match o with Some e => inl e | None => inr None end in
  t ← current_type;
  if t =t TOKEN_LPAREN then o ← parse_call expr loc; mret (continue o)
  else if t =t TOKEN_DOT then
    o ← parse_member expr "Expected member name after '.'" loc; mret (continue o)
  else if t =t TOKEN_ARROW then
    o ← parse_member (ast_create_unary_expression "*" expr loc)
          "Expected member name after '->'" loc; mret (continue o)
  else if t =t TOKEN_LBRACKET then o ← parse_index expr loc; mret (continue o)
  else mret (inr (Some expr)).

Definition parser_parse_postfix_expression : PM (option ASTNode) :=
  expr ?← parser_parse_primary_expression;
  loop (fun expr =>
    loc ← parser_current_location;
    t ← current_type;
    match expr with
    | AST_IDENTIFIER _ name =>
        if t =t TOKEN_LESS_THAN then
          g ← parser_try_parse_generic_call_type_args;
          match g with
          | Some type_args =>
              o ← parse_generic_call name type_args loc;
              mret (match o with Some e => inl e | None => inr None end)
          | None => parse_postfix_operator expr loc
          end
        else parse_postfix_operator expr loc
    | _ => parse_postfix_operator expr loc
    end) expr.

Definition parser_parse_unary_expression : PM (option ASTNode) :=
  loc ← parser_current_location;
  t ← current_type;
  cast ← (if t =t TOKEN_LPAREN then parser_parse_cast_expression else mret None);
  match cast with
  | Some cast => mret (Some cast)
  | None =>
      t ← current_type;
      if parser_is_unary_operator t then
        operator ← current_text;
        parser_advance ;;
        operand ?← rec Call_unary;
        mret (Some (ast_create_unary_expression operator operand loc))
      else parser_parse_postfix_expression
  end.

Definition parser_parse_binary_expression (min_precedence : nat) : PM (option ASTNode) :=
  left ?← parser_parse_unary_expression;
  loop (fun left =>
    loc ← parser_current_location;
    t ← current_type;
    if negb (parser_is_binary_operator t) then mret (inr (Some left))
    else
      let precedence := parser_get_operator_precedence t in
      if precedence <? min_precedence then mret (inr (Some left))
      else
        operator ← current_text;
        parser_advance ;;
        rhs ← rec (Call_binary (precedence + 1));
        match rhs with
        | None => mret (inr None)
        | Some rhs => mret (inl (ast_create_binary_expression left operator rhs loc))
        end) left.

Definition expression_step (c : expression_call) : PM (option ASTNode) :=
  match c with
  | Call_binary min_precedence => parser_parse_binary_expression min_precedence
  | Call_unary => parser_parse_unary_expression
  end.
End calls.

Fixpoint expression_fuel (fuel : nat) (c : expression_call) : PM (option ASTNode) :=
  match fuel with
  | 0 => out_of_fuel
  | S f => expression_step (expression_fuel f) c
  end.

(** Every recursive call is made with fewer tokens left. *)
Definition parse_expression_call (c : expression_call) : PM (option ASTNode) := λ p,
  expression_fuel (S (parser_left p)) c p.

Definition parser_parse_expression : PM (option ASTNode) := parse_expression_call (Call_binary 0).
End expressions.
