(* ===== verification/ParserStmt.v ===== *)
(** * Statements: src/src/parser/parser.c

    Assignments, blocks, control flow, inline assembly and variable declarations.
    A nested statement is parsed by [rec], one activation of
    [parser_parse_statement] with less fuel, always after a token was consumed. *)

From S2P Require Import Prelude.
From S2P Require Import Lexer.
From S2P Require Import TokenKind.
From S2P Require Import Ast.
From S2P Require Import AstClone.
From S2P Require Import ErrorReporter.
From S2P Require Import ParserState.
From S2P Require Import ParserTypes.
From S2P Require Import ParserExpr.

Section statements.
Context {L : Type} `{TokenSource L}.
Abbreviation PM := (PM L).

(** ** Assignments and variables *)

Definition parser_is_assignment_target (target : ASTNode) : bool :=
  match target with
  | AST_IDENTIFIER _ _ | AST_MEMBER_ACCESS _ _ _ | AST_INDEX_EXPRESSION _ _ _ => true
  | AST_UNARY_EXPRESSION _ operator _ => String.eqb operator "*"
  | _ => false
  end.

(** [target OP= value] becomes [target = target OP value]; [None] where the copy of
    the target is undefined. *)
Definition desugar_compound (compound_op : option string) (target v : ASTNode) : option ASTNode :=
  match compound_op with
  | Some op =>
      target_clone ← ast_clone_node target;
      Some (ast_create_binary_expression target_clone op v (ast_location target))
  | None => Some v
  end.

Definition parser_parse_assignment_from_target (target : ASTNode) : PM (option ASTNode) :=
  if negb (parser_is_assignment_target target) then fail_with "Invalid assignment target"
  else
    assign_token ← current_type;
    let compound_op := parser_compound_assign_op assign_token in
    parser_advance ;;
    v ?← parser_parse_expression;
    match desugar_compound compound_op target v with
    | Some v =>
        mret (Some (match target with
                    | AST_IDENTIFIER loc name => ast_create_assignment name v loc
                    | _ => ast_create_field_assignment target v (ast_location target)
                    end))
    | None => undefined
    end.

(** An expression, and the assignment it is the target of if one follows. *)
Definition parse_expression_or_assignment : PM (option ASTNode) :=
  expr ?← parser_parse_expression;
  t ← current_type;
  if parser_is_assignment_token t then parser_parse_assignment_from_target expr
  else mret (Some expr).

Definition parser_parse_var_declaration : PM (option ASTNode) :=
  loc ← parser_current_location;
  expecting TOKEN_VAR;
  t ← current_type;
  if negb (parser_is_identifier_like t) then fail_with "Expected identifier after 'var'"
  else
    var_name ← current_text;
    parser_advance ;;
    t ← current_type;
    ty ← (if t =t TOKEN_COLON then
            parser_advance ;;
            ty ← parser_parse_type_annotation;
            match ty with
            | None => parser_set_error_if_none "Expected type after ':'" ;; mret None
            | Some ty => mret (Some (Some ty))
            end
          else mret (Some None));
    match ty with
    | None => mret None
    | Some type_name =>
        t ← current_type;
        init ← (if t =t TOKEN_EQUALS then
                  parser_advance ;; e ?← parser_parse_expression; mret (Some (Some e))
                else mret (Some None));
        match init with
        | None => mret None
        | Some initializer =>
            match type_name, initializer with
            | None, None =>
                fail_with "Variable declaration must have either a type annotation or an initializer"
            | _, _ =>
                parser_expect_statement_end ;;
                mret (Some (ast_create_var_declaration var_name type_name initializer loc))
            end
        end
    end.

Definition parser_parse_for_initializer : PM (option ASTNode) :=
  t ← current_type;
  if t =t TOKEN_SEMICOLON then mret None
  else if t =t TOKEN_VAR then parser_parse_var_declaration
  else parse_expression_or_assignment.

(** ** Leaf statements *)

(** What [asm] appends to its buffer for one token: the buffer is doubled once
    when it is short, and the copy is undefined when that was not enough. *)
Definition asm_append (code : string) (buffer_size : nat) (newline : bool) (text : string)
    : option (string * nat) :=
  let token_len := String.length text in
  let buffer_size :=
    if buffer_size <=? String.length code + token_len + 2 then 2 * buffer_size else buffer_size in
  let code :=
    if 0 <? String.length code then
      (code +:+ (if newline then String "010" EmptyString else " "))%string
    else code in
  if buffer_size <? String.length code + token_len + 1 then None
  else Some ((code +:+ text)%string, buffer_size).

Definition parse_asm_text : PM string :=
  loop (fun '(code, buffer_size, last_token_line) =>
    t ← current_type; e ← parser_has_error;
    if (t =t TOKEN_RBRACE) || (t =t TOKEN_EOF) || e then mret (inr code)
    else
      tok ← get current_token;
      let newline := negb (last_token_line =? 0) && (last_token_line <? token_line tok) in
      match (match value tok with
             | Some v => asm_append code buffer_size newline (c_string v)
             | None => Some (code, buffer_size)
             end) with
      | None => undefined
      | Some (code, buffer_size) =>
          parser_advance ;; mret (inl (code, buffer_size, token_line tok))
      end) (EmptyString, 1024, 0).

Definition parser_parse_inline_asm : PM (option ASTNode) :=
  loc ← parser_current_location;
  expecting TOKEN_ASM;
  expecting TOKEN_LBRACE;
  code ← parse_asm_text;
  expecting TOKEN_RBRACE;
  mret (Some (ast_create_inline_asm code loc)).

Definition parser_parse_return_statement : PM (option ASTNode) :=
  loc ← parser_current_location;
  parser_advance ;;
  t ← current_type;
  v ← (if is_separator t then mret None else parser_parse_expression);
  mret (Some (AST_RETURN_STATEMENT loc v)).

Definition parser_parse_break_or_continue (token_type : TokenType) : PM (option ASTNode) :=
  loc ← parser_current_location;
  expecting token_type;
  t ← current_type;
  target_label ← (if t =t TOKEN_IDENTIFIER then l ← current_text; parser_advance ;; mret (Some l)
                  else mret None);
  parser_expect_statement_end ;;
  mret (Some (if token_type =t TOKEN_BREAK then ast_create_labeled_break_statement target_label loc
              else ast_create_labeled_continue_statement target_label loc)).

(** ** Compound statements *)

Section nested.
Context (rec : PM (option ASTNode)).

Definition parser_parse_block : PM (option ASTNode) :=
  expecting TOKEN_LBRACE;
  statements ← loop (fun statements =>
    t ← current_type; e ← parser_has_error;
    if (t =t TOKEN_RBRACE) || (t =t TOKEN_EOF) then mret (inr statements)
    else if e : bool then mret (inr statements)
    else if is_separator t then parser_advance ;; mret (inl statements)
    else
      stmt ← rec;
      match stmt with
      | Some stmt =>
          t ← current_type;
          (if negb (bool_decide (ast_type stmt = T_DEFER_STATEMENT)) && is_separator t
           then parser_expect_statement_end ;; mret () else mret ()) ;;
          mret (inl (statements ++ [stmt]))
      | None =>
          parser_set_error_if_none "Failed to parse statement in block" ;; mret (inr statements)
      end) [];
  expecting TOKEN_RBRACE;
  mret (Some (ast_create_program statements)).

(** A block or a single statement. *)
Definition parse_branch : PM (option ASTNode) :=
  t ← current_type;
  if t =t TOKEN_LBRACE then parser_parse_block else rec.

Definition skip_newlines : PM () := skip_while (fun t => t =t TOKEN_NEWLINE).

(** The [else if] clauses and the [else] branch; [None] is [goto cleanup]. *)
Definition parse_else_clauses : PM (option (list (ASTNode * ASTNode) * option ASTNode)) :=
  loop (fun else_ifs =>
    t ← current_type;
    if negb (t =t TOKEN_ELSE) then mret (inr (Some (else_ifs, None)))
    else
      next ← peek_type;
      if next =t TOKEN_IF then
        parser_advance ;; parser_advance ;;
        clause ← (expecting TOKEN_LPAREN otherwise fail_with "Expected '(' after 'else if'";
                  cond ?← parser_parse_expression;
                  expecting TOKEN_RPAREN
                    otherwise fail_with "Expected ')' after else if condition";
                  body ?← parse_branch;
                  mret (Some (cond, body)));
        match clause with
        | None => mret (inr None)
        | Some clause => skip_newlines ;; mret (inl (else_ifs ++ [clause]))
        end
      else
        parser_advance ;;
        branch ← parse_branch;
        match branch with
        | None => mret (inr None)
        | Some branch => mret (inr (Some (else_ifs, Some branch)))
        end) [].

Definition parser_parse_if_statement : PM (option ASTNode) :=
  loc ← parser_current_location;
  expecting TOKEN_IF;
  expecting TOKEN_LPAREN otherwise fail_with "Expected '(' after 'if'";
  condition ?← parser_parse_expression;
  expecting TOKEN_RPAREN otherwise fail_with "Expected ')' after if condition";
  then_branch ?← parse_branch;
  skip_newlines ;;
  clauses ?← parse_else_clauses;
  mret (Some (AST_IF_STATEMENT loc condition then_branch clauses.1 clauses.2)).

Definition parser_parse_while_statement : PM (option ASTNode) :=
  loc ← parser_current_location;
  expecting TOKEN_WHILE;
  expecting TOKEN_LPAREN otherwise fail_with "Expected '(' after 'while'";
  condition ?← parser_parse_expression;
  expecting TOKEN_RPAREN otherwise fail_with "Expected ')' after while condition";
  body ?← parse_branch;
  mret (Some (AST_WHILE_STATEMENT loc condition body None)).

Definition is_var_declaration (o : option ASTNode) : bool :=
  match o with Some (AST_VAR_DECLARATION _ _) => true | _ => false end.

(** The [;] after the initializer, which a variable declaration has consumed. *)
Definition parse_for_separator (initializer : option ASTNode) : PM (option ()) :=
  t ← current_type;
  if t =t TOKEN_SEMICOLON then parser_advance ;; mret (Some ())
  else if is_var_declaration initializer then mret (Some ())
  else fail_with "Expected ';' after for-loop initializer".

(** The part of the header that may be left out before [stop]; [None] is an
    error. *)
Definition parse_optional (stop : TokenType) (m : PM (option ASTNode))
    : PM (option (option ASTNode)) :=
  t ← current_type;
  if t =t stop then mret (Some None) else e ?← m; mret (Some (Some e)).

Definition parser_parse_for_statement : PM (option ASTNode) :=
  loc ← parser_current_location;
  expecting TOKEN_FOR;
  expecting TOKEN_LPAREN otherwise fail_with "Expected '(' after 'for'";
  initializer ← parser_parse_for_initializer;
  e ← parser_has_error;
  if e : bool then mret None
  else
    sep ?← parse_for_separator initializer;
    condition ?← parse_optional TOKEN_SEMICOLON parser_parse_expression;
    expecting TOKEN_SEMICOLON;
    increment ?← parse_optional TOKEN_RPAREN parse_expression_or_assignment;
    expecting TOKEN_RPAREN;
    body ?← parse_branch;
    mret (Some (ast_create_for_statement initializer condition increment body loc)).

Definition is_case_end (ty : TokenType) : bool :=
  (ty =t TOKEN_EOF) || (ty =t TOKEN_CASE) || (ty =t TOKEN_DEFAULT) || (ty =t TOKEN_RBRACE).

(** The statements of a case; [None] is [return NULL]. *)
Definition parse_case_body : PM (option (list ASTNode)) :=
  loop (fun statements =>
    t ← current_type;
    if is_case_end t then mret (inr (Some statements))
    else if is_separator t then parser_advance ;; mret (inl statements)
    else
      stmt ← rec;
      match stmt with
      | None => mret (inr None)
      | Some stmt => mret (inl (statements ++ [stmt]))
      end) [].

(** [case value] or [default]. *)
Definition parse_case_head (seen_default : bool) : PM (option (option ASTNode * bool)) :=
  t ← current_type;
  if t =t TOKEN_CASE then
    parser_advance ;;
    case_value ← parser_parse_expression;
    match case_value with
    | None => fail_with "Expected constant expression after 'case'"
    | Some v => mret (Some (Some v, false))
    end
  else if t =t TOKEN_DEFAULT then
    if seen_default then fail_with "Only one default case is allowed"
    else parser_advance ;; mret (Some (None, true))
  else fail_with "Expected 'case' or 'default' in switch".

Definition parse_switch_cases : PM (option (list ASTNode)) :=
  loop (fun '(cases, seen_default) =>
    t ← current_type;
    if (t =t TOKEN_RBRACE) || (t =t TOKEN_EOF) then mret (inr (Some cases))
    else
      skip_while is_separator ;;
      t ← current_type;
      if t =t TOKEN_RBRACE then mret (inr (Some cases))
      else
        case_loc ← parser_current_location;
        head ← parse_case_head seen_default;
        match head with
        | None => mret (inr (Some cases))
        | Some (case_value, is_default) =>
            colon ← parser_expect TOKEN_COLON;
            if colon : bool then
              statements ← parse_case_body;
              match statements with
              | None => mret (inr None)
              | Some statements =>
                  let clause := ast_create_case_clause case_value
                                  (ast_create_program statements) is_default case_loc in
                  mret (inl (cases ++ [clause], seen_default || is_default))
              end
            else mret (inr (Some cases))
        end) ([], false).

Definition parser_parse_switch_statement : PM (option ASTNode) :=
  loc ← parser_current_location;
  expecting TOKEN_SWITCH;
  expecting TOKEN_LPAREN otherwise fail_with "Expected '(' after 'switch'";
  expression ?← parser_parse_expression;
  expecting TOKEN_RPAREN;
  expecting TOKEN_LBRACE;
  cases ?← parse_switch_cases;
  expecting TOKEN_RBRACE;
  mret (Some (ast_create_switch_statement expression cases loc)).

Definition parser_parse_defer_or_errdefer (token_type : TokenType) : PM (option ASTNode) :=
  loc ← parser_current_location;
  let message := if token_type =t TOKEN_DEFER then "Expected statement after 'defer'"%string
                 else "Expected statement after 'errdefer'"%string in
  expecting token_type;
  t ← current_type;
  if is_separator t then fail_with message
  else
    stmt ← rec;
    match stmt with
    | None => parser_set_error_if_none message ;; mret None
    | Some stmt =>
        parser_expect_statement_end ;;
        mret (Some (if token_type =t TOKEN_DEFER then ast_create_defer_statement stmt loc
                    else ast_create_errdefer_statement stmt loc))
    end.
End nested.
End statements.
