(* ===== verification/ParserDecl.v ===== *)
(** * Declarations and programs: src/src/parser/parser.c

    The declarations over a nested-statement parser [rec], the statement and the
    declaration dispatchers, and [parser_parse_program]. *)

From S2P Require Import Prelude.
From S2P Require Import Lexer.
From S2P Require Import TokenKind.
From S2P Require Import Ast.
From S2P Require Import ErrorReporter.
From S2P Require Import ParserState.
From S2P Require Import ParserTypes.
From S2P Require Import ParserExpr.
From S2P Require Import ParserStmt.

Section declarations.
Context {L : Type} `{TokenSource L}.
Abbreviation PM := (PM L).

(** ** Imports and variables *)

(** The current token is the word [word], as an identifier. *)
Definition at_word (word : string) : PM bool :=
  t ← current_type;
  v ← get (fun p => value (current_token p));
  mret (parser_is_identifier_like t &&
        match v with Some v => String.eqb (c_string v) word | None => false end).

Definition parse_import_list : PM (option (list string)) :=
  loop (fun selected =>
    t ← current_type;
    if (t =t TOKEN_RBRACE) || (t =t TOKEN_EOF) then mret (inr (Some selected))
    else if parser_is_identifier_like t then
      name ← current_text;
      parser_advance ;;
      t ← current_type;
      if t =t TOKEN_COMMA then parser_advance ;; mret (inl (selected ++ [name]))
      else mret (inr (Some (selected ++ [name])))
    else parser_set_error "Expected identifier in import list" ;; mret (inr None)) [].

(** [import { a, b } from "mod"], after [import]. *)
Definition parse_selective_import (loc : SourceLocation) : PM (option ASTNode) :=
  parser_advance ;;
  selected ?← parse_import_list;
  t ← current_type;
  if negb (t =t TOKEN_RBRACE) then fail_with "Expected '}' after import list"
  else
    parser_advance ;;
    from ← at_word "from";
    if negb from then fail_with "Expected 'from' after import list"
    else
      parser_advance ;;
      t ← current_type;
      if negb (t =t TOKEN_STRING) then fail_with "Expected string literal after 'from'"
      else
        module_name ← current_text;
        parser_advance ;;
        stop ← parser_expect_statement_end;
        if negb stop then mret None
        else mret (Some (ast_create_import_declaration module_name None selected loc)).

Definition parse_plain_import (loc : SourceLocation) : PM (option ASTNode) :=
  t ← current_type;
  if negb (t =t TOKEN_STRING) then fail_with "Expected string literal after 'import'"
  else
    module_name ← current_text;
    parser_advance ;;
    alias ← at_word "as";
    o ← (if alias : bool then
           parser_advance ;;
           t ← current_type;
           if negb (parser_is_identifier_like t) then
             fail_with "Expected namespace alias after 'as'"
           else a ← current_text; parser_advance ;; mret (Some (Some a))
         else mret (Some None));
    match o with
    | None => mret None
    | Some namespace_alias =>
        stop ← parser_expect_statement_end;
        if negb stop then mret None
        else mret (Some (ast_create_import_declaration module_name namespace_alias [] loc))
    end.

Definition parser_parse_import_declaration : PM (option ASTNode) :=
  loc ← parser_current_location;
  parser_advance ;;
  t ← current_type;
  if t =t TOKEN_LBRACE then parse_selective_import loc else parse_plain_import loc.

(** [= "name"]; [None] is an error, [Some None] no link name. *)
Definition parse_link_name (message : string) : PM (option (option string)) :=
  t ← current_type;
  if t =t TOKEN_EQUALS then
    parser_advance ;;
    t ← current_type;
    if t =t TOKEN_STRING then l ← current_text; parser_advance ;; mret (Some (Some l))
    else fail_with message
  else mret (Some None).

Definition parser_parse_extern_var_declaration : PM (option ASTNode) :=
  loc ← parser_current_location;
  expecting TOKEN_VAR;
  t ← current_type;
  if negb (parser_is_identifier_like t) then
    fail_with "Expected variable name after 'extern var'"
  else
    var_name ← current_text;
    parser_advance ;;
    t ← current_type;
    if negb (t =t TOKEN_COLON) then
      fail_with "Extern variable declarations require an explicit type"
    else
      parser_advance ;;
      ty ← parser_parse_type_annotation;
      match ty with
      | None => fail_with "Extern variable declarations require a type"
      | Some type_name =>
          link_name ?← parse_link_name
            "Extern variable declarations cannot have an initializer; expected string literal link name after '='";
          stop ← parser_expect_statement_end;
          if negb stop then mret None
          else
            mret (Some (AST_VAR_DECLARATION loc
              (mkVar var_name (Some type_name) None true false link_name)))
      end.

(** ** Functions *)

(** [name: type, ...] up to the closing parenthesis. *)
Definition parser_parse_parameter_list : PM (option (list (string * string))) :=
  t ← current_type;
  if t =t TOKEN_RPAREN then mret (Some [])
  else
    loop (fun params =>
      t ← current_type;
      if negb (parser_is_identifier_like t) then
        parser_set_error "Expected parameter name" ;; mret (inr None)
      else
        name ← current_text;
        parser_advance ;;
        colon ← parser_expect TOKEN_COLON;
        if negb colon then mret (inr None)
        else
          ty ← parser_parse_type_annotation;
          match ty with
          | None => parser_set_error_if_none "Expected parameter type" ;; mret (inr None)
          | Some ty =>
              let params := params ++ [(name, ty)] in
              t ← current_type;
              if t =t TOKEN_COMMA then parser_advance ;; mret (inl params)
              else if t =t TOKEN_RPAREN then mret (inr (Some params))
              else
                parser_set_error "Expected ',' or ')' in parameter list" ;; mret (inr None)
          end) [].

(** [-> type] or [: type]. *)
Definition parse_return_type : PM (option (option string)) :=
  t ← current_type;
  if (t =t TOKEN_ARROW) || (t =t TOKEN_COLON) then
    parser_advance ;;
    ty ← parser_parse_type_annotation;
    match ty with
    | None =>
        parser_set_error_if_none "Expected return type after return separator" ;; mret None
    | Some ty => mret (Some (Some ty))
    end
  else mret (Some None).

(** The optional [<...>] of a function or a struct. *)
Definition parse_type_params : PM (option (list (string * option string))) :=
  t ← current_type;
  if t =t TOKEN_LESS_THAN then
    params ← parser_parse_type_param_list;
    e ← parser_has_error;
    if (length params =? 0) && e then mret None else mret (Some params)
  else mret (Some []).

Section nested.
Context (rec : PM (option ASTNode)).

(** The block, or the terminator of a forward declaration; [None] is an error. *)
Definition parse_function_body : PM (option (option ASTNode)) :=
  t ← current_type;
  if t =t TOKEN_LBRACE then
    body ← parser_parse_block rec;
    e ← parser_has_error;
    match body with
    | None => if e : bool then mret None else mret (Some None)
    | Some body => mret (Some (Some body))
    end
  else if is_separator t then parser_expect_statement_end ;; mret (Some None)
  else fail_with "Expected function body ('{') or declaration terminator".

Definition parser_parse_function_declaration : PM (option ASTNode) :=
  loc ← parser_current_location;
  t ← current_type;
  if negb ((t =t TOKEN_FUNCTION) || (t =t TOKEN_FN)) then
    fail_with "Expected 'function' or 'fn'"
  else
    parser_advance ;;
    t ← current_type;
    if negb (parser_is_identifier_like t) then
      fail_with "Expected function name after 'function'"
    else
      func_name ← current_text;
      parser_advance ;;
      type_params ?← parse_type_params;
      expecting TOKEN_LPAREN;
      params ?← parser_parse_parameter_list;
      expecting TOKEN_RPAREN;
      return_type ?← parse_return_type;
      type_params ?← parser_parse_where_clause type_params;
      link_name ?← parse_link_name "Expected string literal link name after '='";
      body ?← parse_function_body;
      mret (Some (AST_FUNCTION_DECLARATION loc
        (mkFunction func_name params return_type body false false link_name type_params))).

Definition parser_parse_method_declaration : PM (option ASTNode) :=
  loc ← parser_current_location;
  expecting TOKEN_METHOD;
  t ← current_type;
  if negb (parser_is_identifier_like t) then fail_with "Expected method name after 'method'"
  else
    method_name ← current_text;
    parser_advance ;;
    expecting TOKEN_LPAREN;
    params ?← parser_parse_parameter_list;
    expecting TOKEN_RPAREN;
    return_type ?← parse_return_type;
    t ← current_type;
    if t =t TOKEN_LBRACE then
      body ← parser_parse_block rec;
      e ← parser_has_error;
      match body with
      | None =>
          if e : bool then mret None
          else mret (Some (AST_METHOD_DECLARATION loc
                 (mkFunction method_name params return_type None false false None [])))
      | Some body =>
          mret (Some (AST_METHOD_DECLARATION loc
            (mkFunction method_name params return_type (Some body) false false None [])))
      end
    else fail_with "Expected method body ('{')".

(** ** Traits, implementations, structs and enums *)

Definition function_body (n : ASTNode) : option ASTNode :=
  match n with AST_FUNCTION_DECLARATION _ d => fd_body d | _ => None end.

(** The methods of a trait ([with_body] false) or of an [impl] ([with_body] true):
    [None] is [goto cleanup]. *)
Definition parse_method_block (with_body : bool) (expected body_error : string)
    : PM (option (list ASTNode)) :=
  parser_advance ;;
  methods ?← loop (fun methods =>
    t ← current_type; e ← parser_has_error;
    if (t =t TOKEN_RBRACE) || (t =t TOKEN_EOF) || e then mret (inr (Some methods))
    else if is_separator t then parser_advance ;; mret (inl methods)
    else if negb ((t =t TOKEN_FUNCTION) || (t =t TOKEN_FN)) then
      parser_set_error expected ;; mret (inr None)
    else
      m ← parser_parse_function_declaration;
      match m with
      | None => mret (inr None)
      | Some m =>
          if Bool.eqb (match function_body m with Some _ => true | None => false end) with_body
          then mret (inl (methods ++ [m]))
          else parser_set_error body_error ;; mret (inr None)
      end) [];
  expecting TOKEN_RBRACE;
  mret (Some methods).

(** The block of methods, or the end of the statement. *)
Definition parse_methods (with_body : bool) (expected body_error : string)
    : PM (option (list ASTNode)) :=
  t ← current_type;
  if t =t TOKEN_LBRACE then parse_method_block with_body expected body_error
  else
    stop ← parser_expect_statement_end;
    if negb stop then mret None else mret (Some []).

Definition parser_parse_trait_declaration : PM (option ASTNode) :=
  loc ← parser_current_location;
  expecting TOKEN_TRAIT;
  t ← current_type;
  if negb (parser_is_identifier_like t) then fail_with "Expected trait name after 'trait'"
  else
    trait_name ← current_text;
    parser_advance ;;
    methods ?← parse_methods false "Expected function signature in trait declaration"
                "Trait method declarations must not have a body";
    mret (Some (AST_TRAIT_DECLARATION loc trait_name false methods)).

Definition parser_parse_impl_declaration : PM (option ASTNode) :=
  loc ← parser_current_location;
  expecting TOKEN_IMPL;
  trait_name ?← parser_parse_qualified_name "Expected trait name after 'impl'";
  expecting TOKEN_FOR otherwise fail_with "Expected 'for' after trait name in impl";
  ty ← parser_parse_type_annotation;
  match ty with
  | None => parser_set_error_if_none "Expected type name after 'for' in impl" ;; mret None
  | Some for_type_name =>
      methods ?← parse_methods true "Expected function declaration in impl block"
                  "Impl method declarations must have a body";
      mret (Some (AST_IMPL_DECLARATION loc trait_name for_type_name methods))
  end.

(** The generic parameters of an enum: an error ends them. *)
Definition parse_enum_type_params : PM (list string) :=
  parser_advance ;;
  loop (fun params =>
    t ← current_type; e ← parser_has_error;
    if (t =t TOKEN_GREATER_THAN) || (t =t TOKEN_EOF) || e then mret (inr params)
    else if (t =t TOKEN_COMMA) || (t =t TOKEN_NEWLINE) then parser_advance ;; mret (inl params)
    else if is_name t then
      v ← current_text; parser_advance ;; mret (inl (params ++ [v]))
    else parser_set_error "Expected type parameter name" ;; mret (inr params)) [].

(** The payload type in parentheses; [None] is an error. *)
Definition parse_variant_payload : PM (option (option string)) :=
  t ← current_type;
  if t =t TOKEN_LPAREN then
    parser_advance ;;
    t ← current_type;
    if negb (is_name t) then fail_with "Expected payload type in variant"
    else
      ty ← parser_parse_type_annotation;
      match ty with
      | None => fail_with "Expected payload type in variant"
      | Some ty => expecting TOKEN_RPAREN; mret (Some (Some ty))
      end
  else mret (Some None).

Definition parse_variant_value : PM (option (option ASTNode)) :=
  t ← current_type;
  if t =t TOKEN_EQUALS then
    parser_advance ;;
    v ← parser_parse_expression;
    match v with
    | None => parser_set_error_if_none "Expected expression after '='" ;; mret None
    | Some v => mret (Some (Some v))
    end
  else mret (Some None).

Definition parse_enum_variants : PM (list (EnumVariant ASTNode)) :=
  loop (fun variants =>
    t ← current_type; e ← parser_has_error;
    if (t =t TOKEN_RBRACE) || (t =t TOKEN_EOF) || e then mret (inr variants)
    else if (t =t TOKEN_NEWLINE) || (t =t TOKEN_COMMA) then parser_advance ;; mret (inl variants)
    else if negb (parser_is_identifier_like t) then
      parser_set_error "Expected enum variant name" ;; mret (inr variants)
    else
      variant_name ← current_text;
      parser_advance ;;
      payload ← parse_variant_payload;
      match payload with
      | None => mret (inr variants)
      | Some payload_type =>
          v ← parse_variant_value;
          match v with
          | None => mret (inr variants)
          | Some v =>
              t ← current_type;
              (if (t =t TOKEN_COMMA) || (t =t TOKEN_NEWLINE) then parser_advance else mret ()) ;;
              mret (inl (variants ++ [mkVariant variant_name v payload_type]))
          end
      end) [].

(** The type parameters are handed to the node, their pointer is cleared, and the
    loop that frees them then reads through it: undefined when there are any. *)
Definition finish_enum (name : string) (type_params : list string)
    (variants : list (EnumVariant ASTNode)) (loc : SourceLocation) : PM (option ASTNode) :=
  if length type_params =? 0 then mret (Some (ast_create_enum_declaration name variants loc))
  else undefined.

Definition parser_parse_enum_declaration : PM (option ASTNode) :=
  loc ← parser_current_location;
  expecting TOKEN_ENUM;
  t ← current_type;
  if negb (parser_is_identifier_like t) then fail_with "Expected enum name after 'enum'"
  else
    enum_name ← current_text;
    parser_advance ;;
    t ← current_type;
    tps ← (if t =t TOKEN_LESS_THAN then
             params ← parse_enum_type_params;
             e ← parser_has_error;
             if e : bool then mret (Some params)
             else expecting TOKEN_GREATER_THAN; mret (Some params)
           else mret (Some []));
    match tps with
    | None => mret None
    | Some type_params =>
        expecting TOKEN_LBRACE;
        variants ← parse_enum_variants;
        e ← parser_has_error;
        if e : bool then mret None
        else
          expecting TOKEN_RBRACE;
          finish_enum enum_name type_params variants loc
    end.

(** The members of a struct: fields and methods, or [None] for [return NULL]. *)
Definition parse_struct_members : PM (option (list (string * string) * list ASTNode)) :=
  loop (fun '(fields, methods) =>
    t ← current_type; e ← parser_has_error;
    if (t =t TOKEN_RBRACE) || (t =t TOKEN_EOF) || e then mret (inr (Some (fields, methods)))
    else if is_separator t then parser_advance ;; mret (inl (fields, methods))
    else if t =t TOKEN_METHOD then
      m ← parser_parse_method_declaration;
      e ← parser_has_error;
      match m with
      | Some m => mret (inl (fields, methods ++ [m]))
      | None => if e : bool then mret (inr None) else mret (inl (fields, methods))
      end
    else if negb (parser_is_identifier_like t) then
      parser_set_error "Expected field name or method declaration" ;; mret (inr None)
    else
      name ← current_text;
      parser_advance ;;
      colon ← parser_expect TOKEN_COLON;
      if negb colon then mret (inr None)
      else
        ty ← parser_parse_type_annotation;
        match ty with
        | None => parser_set_error_if_none "Expected field type" ;; mret (inr None)
        | Some ty =>
            parser_expect_statement_end ;; mret (inl (fields ++ [(name, ty)], methods))
        end) ([], []).

Definition parser_parse_struct_declaration : PM (option ASTNode) :=
  loc ← parser_current_location;
  expecting TOKEN_STRUCT;
  t ← current_type;
  if negb (parser_is_identifier_like t) then fail_with "Expected struct name after 'struct'"
  else
    struct_name ← current_text;
    parser_advance ;;
    type_params ?← parse_type_params;
    type_params ?← parser_parse_where_clause type_params;
    expecting TOKEN_LBRACE;
    members ?← parse_struct_members;
    expecting TOKEN_RBRACE;
    mret (Some (AST_STRUCT_DECLARATION loc
      (mkStruct struct_name members.1 members.2 false type_params))).

(** ** Dispatch *)

(** [is_extern] and [is_exported] set on a declaration. *)
Definition mark_extern (n : ASTNode) : ASTNode :=
  match n with
  | AST_FUNCTION_DECLARATION l d =>
      AST_FUNCTION_DECLARATION l (mkFunction (fd_name d) (fd_parameters d) (fd_return_type d)
        (fd_body d) (fd_is_exported d) true (fd_link_name d) (fd_type_params d))
  | _ => n
  end.

Definition mark_exported (n : ASTNode) : ASTNode :=
  match n with
  | AST_FUNCTION_DECLARATION l d =>
      AST_FUNCTION_DECLARATION l (mkFunction (fd_name d) (fd_parameters d) (fd_return_type d)
        (fd_body d) true (fd_is_extern d) (fd_link_name d) (fd_type_params d))
  | AST_STRUCT_DECLARATION l d =>
      AST_STRUCT_DECLARATION l (mkStruct (sd_name d) (sd_fields d) (sd_methods d) true
        (sd_type_params d))
  | AST_ENUM_DECLARATION l d =>
      AST_ENUM_DECLARATION l (mkEnum (ed_name d) (ed_variants d) true (ed_type_params d))
  | AST_TRAIT_DECLARATION l name _ methods => AST_TRAIT_DECLARATION l name true methods
  | AST_VAR_DECLARATION l d =>
      AST_VAR_DECLARATION l (mkVar (vd_name d) (vd_type_name d) (vd_initializer d)
        (vd_is_extern d) true (vd_link_name d))
  | _ => n
  end.

Definition exported (m : PM (option ASTNode)) : PM (option ASTNode) :=
  d ?← m; mret (Some (mark_exported d)).

(** [extern] consumed: a function without a body, or a variable. *)
Definition parse_extern (message : string) : PM (option ASTNode) :=
  t ← current_type;
  if t =t TOKEN_FUNCTION then
    decl ?← parser_parse_function_declaration;
    match function_body decl with
    | Some _ => fail_with "Extern functions must not have a body"
    | None => mret (Some (mark_extern decl))
    end
  else if t =t TOKEN_VAR then parser_parse_extern_var_declaration
  else fail_with message.

(** The cases of [parser_parse_declaration], over what [default:] calls. *)
Definition parse_declaration_or (default : PM (option ASTNode)) : PM (option ASTNode) :=
  t ← current_type;
  if t =t TOKEN_IMPORT then parser_parse_import_declaration
  else if t =t TOKEN_EXTERN then
    parser_advance ;; parse_extern "Expected 'function' or 'var' after 'extern'"
  else if t =t TOKEN_EXPORT then
    parser_advance ;;
    t ← current_type;
    if t =t TOKEN_FUNCTION then exported parser_parse_function_declaration
    else if t =t TOKEN_STRUCT then exported parser_parse_struct_declaration
    else if t =t TOKEN_ENUM then exported parser_parse_enum_declaration
    else if t =t TOKEN_TRAIT then exported parser_parse_trait_declaration
    else if t =t TOKEN_VAR then exported parser_parse_var_declaration
    else if t =t TOKEN_EXTERN then
      parser_advance ;;
      exported (parse_extern "Expected 'function' or 'var' after 'export extern'")
    else
      fail_with "Expected 'function', 'var', 'struct', 'enum', 'trait', or 'extern' after 'export'"
  else if t =t TOKEN_VAR then parser_parse_var_declaration
  else if t =t TOKEN_DEFER then parser_parse_defer_or_errdefer rec TOKEN_DEFER
  else if t =t TOKEN_ERRDEFER then parser_parse_defer_or_errdefer rec TOKEN_ERRDEFER
  else if t =t TOKEN_FUNCTION then parser_parse_function_declaration
  else if t =t TOKEN_STRUCT then parser_parse_struct_declaration
  else if t =t TOKEN_ENUM then parser_parse_enum_declaration
  else if t =t TOKEN_TRAIT then parser_parse_trait_declaration
  else if t =t TOKEN_IMPL then parser_parse_impl_declaration
  else default.

(** [lexer_peek_token (parser->lexer)]. *)
Definition parser_peek_after : PM TokenType := λ p,
  match source_peek_token (ParserState.lexer p) with
  | None => Out_of_fuel
  | Some (t, lx) => Returned (type t) (set_tokens p lx (current_token p) (peek_token p))
  end.

Definition set_label (label : string) (n : ASTNode) : ASTNode :=
  match n with
  | AST_WHILE_STATEMENT l c b _ => AST_WHILE_STATEMENT l c b (Some label)
  | AST_FOR_STATEMENT l i c inc b _ => AST_FOR_STATEMENT l i c inc b (Some label)
  | _ => n
  end.

(** [label: while ...] or [label: for ...], at the label. *)
Definition parse_labeled_loop : PM (option ASTNode) :=
  label ← current_text;
  parser_advance ;; parser_advance ;;
  t ← current_type;
  loop ?← (if t =t TOKEN_WHILE then parser_parse_while_statement rec
           else if t =t TOKEN_FOR then parser_parse_for_statement rec
           else mret None);
  mret (Some (set_label label loop)).

(** The statement after the attempt at a labelled loop. *)
Definition parse_plain_statement : PM (option ASTNode) :=
  t ← current_type;
  if t =t TOKEN_EXTERN then parse_declaration_or rec
  else if t =t TOKEN_VAR then parser_parse_var_declaration
  else if t =t TOKEN_RETURN then parser_parse_return_statement
  else if t =t TOKEN_IF then parser_parse_if_statement rec
  else if t =t TOKEN_WHILE then parser_parse_while_statement rec
  else if t =t TOKEN_FOR then parser_parse_for_statement rec
  else if t =t TOKEN_SWITCH then parser_parse_switch_statement rec
  else if t =t TOKEN_MATCH then
    parser_parse_match_core parser_parse_expression (parser_parse_block rec) false
  else if t =t TOKEN_BREAK then parser_parse_break_or_continue TOKEN_BREAK
  else if t =t TOKEN_CONTINUE then parser_parse_break_or_continue TOKEN_CONTINUE
  else if t =t TOKEN_DEFER then parser_parse_defer_or_errdefer rec TOKEN_DEFER
  else if t =t TOKEN_ERRDEFER then parser_parse_defer_or_errdefer rec TOKEN_ERRDEFER
  else if t =t TOKEN_ASM then parser_parse_inline_asm
  else if t =t TOKEN_LBRACE then parser_parse_block rec
  else parse_expression_or_assignment.

Definition parse_statement_step : PM (option ASTNode) :=
  t ← current_type; next ← peek_type;
  if (t =t TOKEN_IDENTIFIER) && (next =t TOKEN_COLON) then
    after_colon ← parser_peek_after;
    if (after_colon =t TOKEN_WHILE) || (after_colon =t TOKEN_FOR) then parse_labeled_loop
    else parse_plain_statement
  else parse_plain_statement.
End nested.

Fixpoint parse_statement_fuel (fuel : nat) : PM (option ASTNode) :=
  match fuel with
  | 0 => out_of_fuel
  | S f => parse_statement_step (parse_statement_fuel f)
  end.

(** A nested statement is parsed with fewer tokens left. *)
Definition parser_parse_statement : PM (option ASTNode) := λ p,
  parse_statement_fuel (S (parser_left p)) p.

Definition parse_declaration_fuel (fuel : nat) : PM (option ASTNode) :=
  parse_declaration_or (parse_statement_fuel fuel) parser_parse_statement.

Definition parser_parse_declaration : PM (option ASTNode) := λ p,
  parse_declaration_fuel (parser_left p) p.

(** ** Programs *)

(** One round of the top-level loop. *)
Definition parse_top_level (declarations : list ASTNode) : PM (list ASTNode + list ASTNode) :=
  t ← current_type;
  if t =t TOKEN_EOF then mret (inr declarations)
  else
    pos_before ← get (fun p => source_position (ParserState.lexer p));
    if is_separator t then parser_advance ;; mret (inl declarations)
    else
      declaration ← parser_parse_declaration;
      e ← parser_has_error;
      (match declaration with
       | None =>
           if e : bool then mret ()
           else parser_set_error "Failed to parse declaration" ;; parser_advance
       | Some _ => mret ()
       end) ;;
      let declarations := match declaration with
                          | Some d => declarations ++ [d]
                          | None => declarations
                          end in
      e ← parser_has_error;
      if e : bool then
        parser_recover_from_error ;;
        t ← current_type; pos ← get (fun p => source_position (ParserState.lexer p));
        (if negb (t =t TOKEN_EOF) && (pos =? pos_before) then parser_advance else mret ()) ;;
        mret (inl declarations)
      else mret (inl declarations).

Definition parser_parse_program : PM ASTNode :=
  declarations ← loop parse_top_level [];
  mret (ast_create_program declarations).
End declarations.

(** The parser over a text, with a reporter: [parser_create_with_error_reporter]
    and [parser_parse_program]. *)
Definition parse_source (source : list ascii) (r : option ErrorReporter)
    : presult Lexer ASTNode :=
  match parser_create_with_error_reporter (lexer_create source) r with
  | Returned _ p => parser_parse_program p
  | Undefined_behaviour => Undefined_behaviour
  | Out_of_fuel => Out_of_fuel
  end.
