(* ===== verification/ParserLogic.v ===== *)
(** * A program logic for the parser

    [wp m p Q]: run on [p], [m] does not run out of fuel and, unless it meets
    undefined behaviour that [U] admits, ends in a result that satisfies [Q].
    [good] is the contract of the parsing functions: the state stays consistent,
    tokens are only consumed, errors are only added.  The laws of the token
    source are stated here and discharged for the lexer at the end. *)

From S2P Require Import Prelude.
From S2P Require Import Lexer.
From S2P Require Import LexerFacts.
From S2P Require Import TokenKind.
From S2P Require Import Ast.
From S2P Require Import ErrorReporter.
From S2P Require Import ErrorReporterFacts.
From S2P Require Import ParserState.

(** ** The promises of a token source *)

(** Only the end of the input and a newline have no text. *)
Definition valued (t : Token) : Prop :=
  type t ≠ TOKEN_EOF → type t ≠ TOKEN_NEWLINE → value t ≠ None.

Class TokenSourceLaws (L : Type) `{TokenSource L} : Type := {
  source_ok : L → Prop;
  source_same : L → L → Prop;
  source_same_preorder :: PreOrder source_same;
  source_next_spec lx : source_ok lx → ∃ t lx', source_next_token lx = Some (t, lx') ∧
    source_ok lx' ∧ source_same lx lx' ∧ valued t ∧
    source_left lx' + (if type t =t TOKEN_EOF then 0 else 1) ≤ source_left lx;
  source_peek_spec lx : source_ok lx → ∃ t lx', source_peek_token lx = Some (t, lx') ∧
    source_ok lx' ∧ source_same lx lx' ∧ source_left lx' = source_left lx ∧
    source_position lx' = source_position lx;
  source_restore_spec saved lx : source_ok saved → source_ok lx → source_same saved lx →
    source_ok (source_restore saved lx) ∧ source_same saved (source_restore saved lx) ∧
    source_left (source_restore saved lx) = source_left saved ∧
    source_position (source_restore saved lx) = source_position saved }.

Section logic.
Context {L : Type} `{TokenSourceLaws L} (U : Prop).
Abbreviation PM := (PM L).
Abbreviation Parser := (Parser L).
Implicit Types p : Parser.

Definition wp {A} (m : PM A) (p : Parser) (Q : A → Parser → Prop) : Prop :=
  match m p with
  | Returned a p' => Q a p'
  | Undefined_behaviour => U
  | Out_of_fuel => False
  end.

Lemma wp_mono {A} (m : PM A) p (Q Q' : A → Parser → Prop) :
  wp m p Q → (∀ a p', Q a p' → Q' a p') → wp m p Q'.
Proof. unfold wp. destruct (m p); auto. Qed.

Lemma wp_ret {A} (a : A) p (Q : A → Parser → Prop) : Q a p → wp (mret a) p Q.
Proof. done. Qed.

Lemma wp_bind {A B} (m : PM A) (f : A → PM B) p (Q : B → Parser → Prop) :
  wp m p (fun a p' => wp (f a) p' Q) → wp (m ≫= f) p Q.
Proof. unfold wp, mbind, PM_bind. destruct (m p); auto. Qed.

Lemma wp_get {A} (f : Parser → A) p (Q : A → Parser → Prop) : Q (f p) p → wp (get f) p Q.
Proof. done. Qed.

Lemma wp_undefined {A} p (Q : A → Parser → Prop) : U → wp undefined p Q.
Proof. done. Qed.

(** ** Consistent states *)

(** The [k] errors counted are in the reporter, unless it is full. *)
Definition reported (r : ErrorReporter) (k : nat) : Prop :=
  k ≤ error_reporter_get_error_count r ∨ er_max_errors r ≤ length (er_errors r).

Record parser_ok (p : Parser) : Prop := {
  ok_source : source_ok (lexer p);
  ok_current : valued (current_token p);
  ok_peek : valued (peek_token p);
  ok_had_error : had_error p = (0 <? error_count p);
  ok_has_error : p_has_error p = true → had_error p = true;
  ok_reported : error_reporter p = true → reported (reporter p) (error_count p) }.

(** The reporter of the later state has more reports, all of them errors. *)
Definition reporter_grows (r r' : ErrorReporter) : Prop :=
  er_max_errors r' = er_max_errors r ∧
  ∃ new, er_errors r' = er_errors r ++ new ∧ Forall (fun e => is_error e = true) new.

(** Either a token was consumed or the place is the same. *)
Definition moved (p p' : Parser) : Prop :=
  parser_left p' < parser_left p ∨
  parser_left p' = parser_left p ∧ current_token p' = current_token p ∧
  source_position (lexer p') = source_position (lexer p).

(** A [quiet] run also has no error cleared behind its back. *)
Record steps (quiet : bool) (p p' : Parser) : Prop := {
  st_same : source_same (lexer p) (lexer p');
  st_moved : moved p p';
  st_reporter : error_reporter p' = error_reporter p;
  st_grows : reporter_grows (reporter p) (reporter p');
  st_count : error_count p ≤ error_count p';
  st_quiet : quiet = true → p_has_error p' = false →
    p_has_error p = false ∧ error_count p' = error_count p }.

#[export] Instance reporter_grows_preorder : PreOrder reporter_grows.
Proof.
  split.
  - intros r. split; [done|]. exists []. by rewrite app_nil_r.
  - intros r1 r2 r3 (Hm1 & n1 & Hn1 & Hf1) (Hm2 & n2 & Hn2 & Hf2). split; [congruence|].
    exists (n1 ++ n2). rewrite Hn2, Hn1, app_assoc. split; [done|by apply Forall_app].
Qed.

#[export] Instance moved_preorder : PreOrder moved.
Proof.
  split.
  - intros p. by right.
  - intros p1 p2 p3 [?|(? & ? & ?)] [?|(? & ? & ?)]; [left; lia..|right]. split_and!; congruence.
Qed.

Lemma moved_left p p' : moved p p' → parser_left p' ≤ parser_left p.
Proof. intros [?|[? _]]; lia. Qed.

#[export] Instance steps_preorder q : PreOrder (steps q).
Proof.
  split.
  - intros p. by split.
  - intros p1 p2 p3 [] []. split; [by etrans..|congruence|by etrans|lia|].
    intros Hq He. destruct (st_quiet1 Hq He) as [He2 ->]. auto.
Qed.

Lemma steps_weaken q p p' : steps true p p' → steps q p p'.
Proof. intros []. split; auto. Qed.

Lemma reporter_grows_reported r r' k : reporter_grows r r' → reported r k → reported r' k.
Proof.
  intros (Hm & new & Hnew & Hf). unfold reported, error_reporter_get_error_count.
  rewrite Hm, Hnew, filter_app, !length_app. lia.
Qed.

(** The state reached from [p0], consistent. *)
Definition track (q : bool) (p0 p : Parser) : Prop := parser_ok p ∧ steps q p0 p.

Lemma track_refl q p : parser_ok p → track q p p.
Proof. by intros. Qed.

Lemma track_trans q p0 p p' : track q p0 p → track q p p' → track q p0 p'.
Proof. intros [_ ?] [? ?]. split; [done|by etrans]. Qed.

Lemma track_weaken q p0 p : track true p0 p → track q p0 p.
Proof. intros [? ?]. split; [done|by apply steps_weaken]. Qed.

Lemma track_left q p0 p : track q p0 p → parser_left p ≤ parser_left p0.
Proof. intros [_ []]. by apply moved_left. Qed.

(** ** Contracts *)

(** [good q n pre m C]: from a consistent state with fewer than [n] tokens left
    whose current token satisfies [pre], [m] ends in a state it reaches, having
    consumed a token when [C] holds of its result. *)
Definition good (q : bool) (n : nat) (pre : TokenType → bool) {A} (m : PM A) (C : A → bool)
    : Prop :=
  ∀ p, parser_ok p → parser_left p < n → pre (type (current_token p)) = true →
    wp m p (fun a p' => track q p p' ∧ (C a = true → parser_left p' < parser_left p)).

Definition always (t : TokenType) : bool := true.
Definition not_end (t : TokenType) : bool := negb (t =t TOKEN_EOF).
Definition never {A} (a : A) : bool := false.
Definition is_continue {A B} (r : A + B) : bool := match r with inl _ => true | inr _ => false end.
Definition is_some {A} (o : option A) : bool := match o with Some _ => true | None => false end.

Lemma wp_good q n pre {A} (m : PM A) C p0 p (Q : A → Parser → Prop) :
  good q n pre m C → track q p0 p → parser_left p < n → pre (type (current_token p)) = true →
  (∀ a p', track q p0 p' → parser_left p' ≤ parser_left p →
     (C a = true → parser_left p' < parser_left p) → Q a p') →
  wp m p Q.
Proof.
  intros Hm Hp Hn Hpre HQ. eapply wp_mono; [by apply Hm; [apply Hp|..]|].
  intros a p' [Hp' HC]. apply HQ; [by eapply track_trans|by eapply track_left|done].
Qed.

Lemma good_weaken q n pre {A} (m : PM A) C : good true n pre m C → good q n pre m C.
Proof.
  intros Hm p Hp Hn Hpre. eapply wp_mono; [by apply Hm|].
  intros a p' [? ?]. split; [by apply track_weaken|done].
Qed.

(** ** The primitives *)

Lemma track_errors q p0 p p' :
  track q p0 p → lexer p' = lexer p → current_token p' = current_token p →
  peek_token p' = peek_token p → error_reporter p' = error_reporter p →
  reporter_grows (reporter p) (reporter p') → error_count p ≤ error_count p' →
  had_error p' = (0 <? error_count p') → (p_has_error p' = true → had_error p' = true) →
  (error_reporter p' = true → reported (reporter p') (error_count p')) →
  (q = true → p_has_error p' = false → p_has_error p = false ∧ error_count p' = error_count p) →
  track q p0 p'.
Proof.
  intros [[Hsrc Hcur Hpeek Hhad Hhas Hrep] Hst] Hlx Hc Hpk Her Hgr Hcnt Hhad' Hhas' Hrep' Hq.
  split; [split; rewrite ?Hlx, ?Hc, ?Hpk; done|]. etrans; [exact Hst|].
  split; [by rewrite Hlx| |done..].
  right. unfold parser_left. by rewrite Hlx, Hc, Hpk.
Qed.

Lemma report_counted r k ty span m s :
  reported r k →
  reported (error_reporter_add_error_with_span_and_suggestion r ty span m s) (S k).
Proof.
  unfold reported, error_reporter_get_error_count, error_reporter_add_error_with_span_and_suggestion,
    error_reporter_add_report.
  destruct (Nat.leb_spec (er_max_errors r) (length (er_errors r))); [by right|].
  cbn [er_errors er_max_errors]. rewrite filter_app, !length_app.
  rewrite filter_cons_True by done. simpl. lia.
Qed.

Lemma report_grows r ty span m s :
  reporter_grows r (error_reporter_add_error_with_span_and_suggestion r ty span m s).
Proof.
  destruct (add_report_errors r DIAG_SEVERITY_ERROR span ty m s) as (Hm & new & Hn & Hf & _).
  split; [done|]. exists new. split; [done|].
  eapply Forall_impl; [exact Hf|]. intros e He. unfold is_error. by rewrite He.
Qed.

(** One error set: the counters and the reporter move together. *)
Lemma track_set_error q p0 p message add :
  track q p0 p →
  (∀ r k, reported r k → reported (add r) (S k)) → (∀ r, reporter_grows r (add r)) →
  track q p0 (report (set_errors p true true (S (error_count p)) (Some message)) add).
Proof.
  intros Hp Hadd Hgr. pose proof Hp as [[] _].
  apply (track_errors _ _ p); simpl; try done; try lia.
  - destruct (error_reporter p); [apply Hgr|done].
  - intros Her. rewrite Her. by apply Hadd, ok_reported0.
Qed.

Lemma wp_set_error q p0 p message suggestion (Q : () → Parser → Prop) :
  track q p0 p →
  (∀ p', track q p0 p' → parser_left p' = parser_left p →
     current_token p' = current_token p → p_has_error p' = true → Q () p') →
  wp (parser_set_error_with_suggestion message suggestion) p Q.
Proof.
  intros Hp HQ. apply HQ; try done.
  apply (track_set_error _ _ _ _ _ Hp); intros; [by apply report_counted|apply report_grows].
Qed.

Lemma wp_report_token q p0 p t (Q : () → Parser → Prop) :
  track q p0 p →
  (∀ p', track q p0 p' → parser_left p' = parser_left p →
     current_token p' = current_token p → Q () p') →
  wp (parser_report_lexer_token_error t) p Q.
Proof.
  intros Hp HQ. unfold wp, parser_report_lexer_token_error, modify.
  destruct (type t =t TOKEN_ERROR); apply HQ; try done.
  apply (track_set_error _ _ _ _ _ Hp); intros; [by apply report_counted|apply report_grows].
Qed.

Lemma good_advance q n : good q n not_end parser_advance (fun _ => true).
Proof.
  intros p Hp _ Hend. unfold not_end in Hend. unfold wp, parser_advance.
  destruct (type (current_token p) =t TOKEN_EOF) eqn:Hc; [done|].
  destruct Hp as [Hsrc Hcur Hpeek Hhad Hhas Hrep].
  destruct (source_next_spec (lexer p) Hsrc) as (t & lx & -> & Hok & Hsame & Hv & Hleft).
  set (p1 := set_tokens p lx (peek_token p) t).
  assert (parser_left p1 < parser_left p) as Hlt
    by (unfold parser_left, p1; simpl; rewrite Hc; destruct (type (peek_token p) =t TOKEN_EOF),
          (type t =t TOKEN_EOF); lia).
  assert (track q p p1) as Hp1.
  { split; [by split|]. split; try done. by left. }
  apply (wp_report_token q p p1 (peek_token p)); [done|]. intros p' Hp' Hl' _.
  split; [done|lia].
Qed.

Lemma wp_advance q p0 p (Q : () → Parser → Prop) :
  track q p0 p → not_end (type (current_token p)) = true →
  (∀ p', track q p0 p' → parser_left p' < parser_left p → Q () p') →
  wp parser_advance p Q.
Proof.
  intros Hp Hend HQ. eapply (wp_good q (S (parser_left p))); [apply good_advance|done|lia|done|].
  intros [] p' Hp' _ Hlt. auto.
Qed.

(** At the end of the input nothing is consumed. *)
Lemma wp_advance_any q p0 p (Q : () → Parser → Prop) :
  track q p0 p →
  (∀ p', track q p0 p' → parser_left p' ≤ parser_left p → Q () p') →
  wp parser_advance p Q.
Proof.
  intros Hp HQ. destruct (not_end (type (current_token p))) eqn:Hend.
  - eapply wp_advance; [done..|]. intros p' ? ?. apply HQ; [done|lia].
  - unfold wp, parser_advance. apply negb_false_iff in Hend. rewrite Hend. by apply HQ.
Qed.

Lemma wp_current_text q p0 p (Q : string → Parser → Prop) :
  track q p0 p → type (current_token p) ≠ TOKEN_EOF → type (current_token p) ≠ TOKEN_NEWLINE →
  (∀ s, Q s p) → wp current_text p Q.
Proof.
  intros [[_ Hv _ _ _ _] _] H1 H2 HQ. unfold wp, current_text.
  specialize (Hv H1 H2). destruct (value (current_token p)); [apply HQ|done].
Qed.

Lemma wp_expect q p0 p ty (Q : bool → Parser → Prop) :
  track q p0 p → ty ≠ TOKEN_EOF →
  (∀ p', track q p0 p' → parser_left p' < parser_left p → Q true p') →
  (∀ p', track q p0 p' → parser_left p' = parser_left p → p_has_error p' = true → Q false p') →
  wp (parser_expect ty) p Q.
Proof.
  intros Hp Hty HQ1 HQ2. unfold parser_expect. apply wp_bind, wp_get.
  destruct (tok_eqb_spec (type (current_token p)) ty) as [Heq|Hne]; apply wp_bind.
  - eapply wp_advance; [done| |].
    + unfold not_end. apply negb_true_iff, tok_eqb_false. congruence.
    + intros p' Hp' Hl. by apply wp_ret, HQ1.
  - eapply wp_set_error; [done|]. intros p' Hp' Hl _ He. by apply wp_ret, HQ2.
Qed.

(** A loop: every round that continues consumes a token. *)
Lemma wp_loop {St R} (body : St → PM (St + R)) (J : St → Parser → Prop) s p
    (Q : R → Parser → Prop) :
  (∀ s p, J s p → wp (body s) p (fun r p' =>
     match r with inl s' => J s' p' ∧ parser_left p' < parser_left p | inr a => Q a p' end)) →
  J s p → wp (loop body s) p Q.
Proof.
  intros Hbody Hs. unfold loop.
  assert (∀ fuel s p, J s p → parser_left p < fuel → wp (loop_fuel fuel body s) p Q) as Hfuel;
    [|by apply Hfuel; [|lia]].
  clear s p Hs. induction fuel as [|f IH]; intros s p Hs Hlt; [lia|]. simpl.
  apply wp_bind. eapply wp_mono; [by apply Hbody|]. intros [s'|a] p'; [|done].
  intros [? ?]. apply IH; [done|lia].
Qed.

Lemma good_skip_while q n c :
  c TOKEN_EOF = false → good q n always (skip_while c) never.
Proof.
  intros Hc p Hp Hn _. unfold skip_while.
  eapply (wp_loop _ (fun _ p' => track q p p')); [|by apply track_refl].
  intros [] p1 Hp1. apply wp_bind, wp_get.
  destruct (c (type (current_token p1))) eqn:He.
  - apply wp_bind. eapply wp_advance; [done| |].
    + unfold not_end. apply negb_true_iff, tok_eqb_false. congruence.
    + intros p2 Hp2 ?. by apply wp_ret.
  - by apply wp_ret.
Qed.

(** ** Clearing errors and going back *)

Lemma wp_clear_error p0 p (Q : () → Parser → Prop) :
  track false p0 p →
  (∀ p', track false p0 p' → parser_left p' = parser_left p →
     current_token p' = current_token p → Q () p') →
  wp parser_clear_error p Q.
Proof.
  intros Hp HQ. pose proof Hp as [[] _]. apply HQ; try done.
  by apply (track_errors _ _ p); simpl.
Qed.

Lemma wp_modify_quietly q p0 p (f : Parser → Parser) (Q : () → Parser → Prop) :
  track q p0 p →
  (∀ p, lexer (f p) = lexer p ∧ current_token (f p) = current_token p ∧
     peek_token (f p) = peek_token p ∧ p_has_error (f p) = p_has_error p ∧
     had_error (f p) = had_error p ∧ error_count (f p) = error_count p ∧
     error_reporter (f p) = error_reporter p ∧ reporter (f p) = reporter p) →
  (∀ p', track q p0 p' → parser_left p' = parser_left p →
     current_token p' = current_token p → Q () p') →
  wp (modify f) p Q.
Proof.
  intros Hp Hf HQ. destruct (Hf p) as (Hlx & Hc & Hpk & He & Hh & Hn & Hr & Hrep).
  pose proof Hp as [[] _]. apply HQ; [|by unfold parser_left; rewrite Hlx, Hc, Hpk|done].
  apply (track_errors _ _ p); rewrite ?Hlx, ?Hc, ?Hpk, ?He, ?Hh, ?Hn, ?Hr, ?Hrep; done.
Qed.

Lemma wp_clear_message q p0 p (Q : () → Parser → Prop) :
  track q p0 p →
  (∀ p', track q p0 p' → parser_left p' = parser_left p →
     current_token p' = current_token p → Q () p') →
  wp clear_error_message p Q.
Proof. intros Hp. by apply wp_modify_quietly. Qed.

(** Going back to [saved] keeps the reports made since. *)
Lemma wp_restore q p0 saved p (Q : () → Parser → Prop) :
  track q p0 saved → source_ok (lexer p) → source_same (lexer saved) (lexer p) →
  reporter_grows (reporter saved) (reporter p) →
  (∀ p', track q p0 p' → parser_left p' = parser_left saved →
     current_token p' = current_token saved → Q () p') →
  wp (parser_restore_state saved) p Q.
Proof.
  intros Hp Hok Hsame Hgr HQ. pose proof Hp as [[Hs Hc Hpk Hh Hhas Hrep] Hst].
  destruct (source_restore_spec (lexer saved) (lexer p)) as (Hok' & Hsame' & Hleft & Hpos);
    try done.
  apply HQ; [|by unfold parser_left; simpl; rewrite Hleft|done].
  split; [split; try done|].
  - intros Her. simpl. eapply reporter_grows_reported; [exact Hgr|by apply Hrep].
  - etrans; [exact Hst|]. split; try done. right. unfold parser_left. simpl. by rewrite Hleft.
Qed.

Lemma wp_restore_track q p0 saved p (Q : () → Parser → Prop) :
  track q p0 saved → track q saved p →
  (∀ p', track q p0 p' → parser_left p' = parser_left saved →
     current_token p' = current_token saved → Q () p') →
  wp (parser_restore_state saved) p Q.
Proof. intros Hs [[] []] HQ. by eapply wp_restore. Qed.

(** The state in which a cast is attempted: the message cleared, the reporter
    detached. *)
Definition detached p : Parser :=
  mkParser (lexer p) (current_token p) (peek_token p) (p_has_error p) (had_error p)
    (error_count p) None false (reporter p) (error_recovery_mode p) (source_filename p).

Definition attach (b : bool) p : Parser :=
  mkParser (lexer p) (current_token p) (peek_token p) (p_has_error p) (had_error p)
    (error_count p) (p_error_message p) b (reporter p) (error_recovery_mode p)
    (source_filename p).

Lemma wp_detach p (Q : () → Parser → Prop) :
  (track true (detached p) (detached p) → Q () (detached p)) → parser_ok p →
  wp (clear_error_message ;; set_reporter false) p Q.
Proof. intros HQ []. apply HQ, track_refl. by split. Qed.

Lemma wp_attach b p (Q : () → Parser → Prop) : Q () (attach b p) → wp (set_reporter b) p Q.
Proof. done. Qed.

(** A quiet attempt without an error counted none: the reporter can be put back. *)
Lemma track_attach saved p :
  parser_ok saved → track true (detached saved) p → p_has_error p = false →
  track false saved (attach (error_reporter saved) p).
Proof.
  intros [] [[] [Hsame Hmoved _ Hgr Hcnt Hq]] He. destruct (Hq eq_refl He) as [_ Hc]; simpl in *.
  split; split; simpl; try done.
  - intros Her. rewrite Hc. eapply reporter_grows_reported; [exact Hgr|by apply ok_reported0].
Qed.

Lemma wp_restore_detached saved p (Q : () → Parser → Prop) :
  parser_ok saved → track true (detached saved) p →
  (∀ p', track false saved p' → parser_left p' = parser_left saved →
     current_token p' = current_token saved → Q () p') →
  wp (parser_restore_state saved) p Q.
Proof.
  intros Hs [[] []] HQ. by eapply (wp_restore false saved saved); [apply track_refl|..].
Qed.
End logic.

Create HintDb parser.
#[export] Hint Resolve good_advance track_refl : parser.
#[export] Hint Extern 1 (_ ≠ _) => discriminate : parser.

(** ** Automation *)

Section loops.
Context {L : Type} `{TokenSourceLaws L} (U : Prop).

(** The loop rule for the states tracked from [p0], entered at [p1]. *)
Lemma wp_loop_track {St R} q p0 p1 (body : St → PM L (St + R)) s (Q : R → Parser L → Prop) :
  track q p0 p1 →
  (∀ s p, track q p0 p → parser_left p ≤ parser_left p1 →
     wp U (body s) p (fun r p' => match r with
       | inl s' => track q p0 p' ∧ parser_left p' < parser_left p
       | inr a => Q a p' end)) →
  wp U (loop body s) p1 Q.
Proof.
  intros Hp Hbody.
  eapply (wp_loop _ _ (fun _ p => track q p0 p ∧ parser_left p ≤ parser_left p1)); [|done].
  intros s' p [Ht Hl]. eapply wp_mono; [by apply Hbody|]. intros [s2|a] p2; [|done].
  intros [? ?]. split_and!; [done|lia|done].
Qed.

Lemma good_if q n pre {A} b (m1 m2 : PM L A) C :
  good U q n pre m1 C → good U q n pre m2 C → good U q n pre (if b : bool then m1 else m2) C.
Proof. by destruct b. Qed.
End loops.

(** The current token is not the given one: a test on it among the hypotheses
    would have gone the other way. *)
Ltac token_differs :=
  let Heq := fresh "Heq" in
  intros Heq;
  repeat match goal with H : _ && _ = true |- _ => apply andb_true_iff in H as [? ?] end;
  match goal with
  | H : @eq bool _ _ |- _ => rewrite Heq in H; vm_compute in H; discriminate H
  end.

(** The side condition on the current token. *)
Ltac token_condition :=
  first
    [ reflexivity
    | assumption
    | unfold not_end; apply negb_true_iff, tok_eqb_false; token_differs
    | match goal with H : (?t =t _) = true |- _ = true =>
        apply tok_eqb_true in H; rewrite H; reflexivity end ].

(** What the results of the calls say about the tokens consumed. *)
Ltac consumed :=
  repeat match goal with
    | H : is_some (Some _) = true → _ |- _ => specialize (H eq_refl)
    | H : is_some None = true → _ |- _ => clear H
    | H : never _ = true → _ |- _ => clear H
    | H : true = true → _ |- _ => specialize (H eq_refl)
    | H : (fun _ => true) _ = true → _ |- _ => specialize (H eq_refl)
    | H : is_continue (inl _) = true → _ |- _ => specialize (H eq_refl)
    | H : is_continue (inr _) = true → _ |- _ => clear H
    end.

Ltac parse_post := intros; cbn beta iota in *; consumed.

Ltac parse_step :=
  match goal with
  | |- wp _ (mret _) _ _ => apply wp_ret
  | |- wp _ (_ ≫= _) _ _ => apply wp_bind
  | |- wp _ (if ?b then _ else _) _ _ => let E := fresh "Htest" in destruct b eqn:E
  | |- wp _ (match ?o with _ => _ end) _ _ => destruct o; consumed
  | |- wp _ (let _ := _ in _) _ _ => cbv zeta
  | |- wp _ current_type _ _ => apply wp_get
  | |- wp _ peek_type _ _ => apply wp_get
  | |- wp _ parser_has_error _ _ => apply wp_get
  | |- wp _ parser_current_location _ _ => apply wp_get
  | |- wp _ parser_save_state _ _ => apply wp_get
  | |- wp _ (get _) _ _ => apply wp_get
  | |- wp _ current_text _ _ => eapply wp_current_text; [eassumption|token_differs|token_differs|intros]
  | |- wp _ parser_advance _ _ =>
      first [eapply wp_advance; [eassumption|token_condition|parse_post]
            |eapply wp_advance_any; [eassumption|parse_post]]
  | |- wp _ (parser_expect _) _ _ =>
      eapply wp_expect; [eassumption|try first [discriminate|assumption]|parse_post|parse_post]
  | |- wp _ (parser_set_error_with_suggestion _ _) _ _ => eapply wp_set_error; [eassumption|parse_post]
  | |- wp _ (parser_set_error _) _ _ => eapply wp_set_error; [eassumption|parse_post]
  | |- wp _ (fail_with _) _ _ => apply wp_bind
  | |- wp _ (parser_set_error_if_none _) _ _ => apply wp_bind
  | |- wp _ parser_clear_error _ _ => eapply wp_clear_error; [eassumption|parse_post]
  | |- wp _ (loop _ _) _ _ => eapply wp_loop_track; [eassumption|parse_post]
  | |- wp _ ?m ?p _ =>
      first
        [ eapply (wp_good _ _ (S (parser_left p)) _ m);
          [solve [eauto 3 with parser nocore]|eassumption|lia|token_condition|parse_post]
        | eapply (wp_good _ _ _ _ m);
          [solve [eauto 3 with parser nocore]|eassumption|lia|token_condition|parse_post] ]
  end.

Ltac parse_end :=
  match goal with
  | |- match ?r with inl _ => _ | inr _ => _ end => destruct r; cbn beta iota; consumed; parse_end
  | |- _ ∧ _ => split; parse_end
  | |- track _ _ _ => assumption
  | |- _ = true → _ =>
      let Hs := fresh "Hs" in
      intros Hs; try discriminate Hs;
      repeat match goal with H : ?P → _, H' : ?P |- _ => specialize (H H') end; parse_end
  | |- _ < _ => lia
  | |- _ ≤ _ => lia
  end.

(** Starts the proof of the contract of [f]. *)
Tactic Notation "contract" reference(f) :=
  match goal with
  | |- good _ ?q _ _ _ _ =>
      intros p Hp Hbound Hpre; pose proof (track_refl q p Hp) as Ht; unfold f
  end.

(** Runs a parsing function symbolically and closes the states it ends in. *)
Ltac parse_steps := repeat (parse_step; cbn beta iota in *).
Ltac parse := parse_steps; try solve [cbn beta iota; parse_end].
