(* ===== verification/ParserTypesFacts.v ===== *)
(** * The contracts of the parsers of types, expressions and statements *)

From S2P Require Import Prelude.
From S2P Require Import Lexer.
From S2P Require Import TokenKind.
From S2P Require Import Ast.
From S2P Require Import ErrorReporter.
From S2P Require Import ParserState.
From S2P Require Import ParserTypes.
From S2P Require Import ParserLogic.
From S2P Require Import ParserExpr.
From S2P Require Import ParserStmt.

Section types.
Context {L : Type} `{TokenSourceLaws L} (U : Prop).
Abbreviation good := (good U).

Lemma good_skip_newlines q n : good q n always (skip_while (fun t => t =t TOKEN_NEWLINE)) never.
Proof. by apply good_skip_while. Qed.

Lemma good_skip_separators q n : good q n always (skip_while is_separator) never.
Proof. by apply good_skip_while. Qed.

Hint Resolve good_skip_newlines good_skip_separators : parser.

Lemma good_statement_end q n : good q n always parser_expect_statement_end never.
Proof. contract parser_expect_statement_end. parse. Qed.

Lemma good_parse_dotted q n message name : good q n always (parse_dotted message name) never.
Proof. contract parse_dotted. parse. Qed.

Hint Resolve good_parse_dotted : parser.

Lemma good_qualified_name q n expected :
  good q n always (parser_parse_qualified_name expected) is_some.
Proof. contract parser_parse_qualified_name. parse. Qed.

Hint Resolve good_qualified_name : parser.

(** ** Type annotations *)

Section annotation.
Context (q : bool) (n : nat) (rec : PM L (option string)) (Hrec : good q n always rec is_some).
Hint Resolve Hrec : parser.

Lemma good_type_list close m1 m2 :
  close ≠ TOKEN_EOF → good q n always (parse_type_list rec close m1 m2) never.
Proof. intros Hc. contract parse_type_list. parse. Qed.

Hint Resolve good_type_list : parser.

Lemma good_function_pointer : good q (S n) not_end (parse_function_pointer rec) is_some.
Proof. contract parse_function_pointer. parse. Qed.

Lemma good_type_arguments name : good q (S n) always (parse_type_arguments rec name) never.
Proof. contract parse_type_arguments. parse. Qed.

Lemma good_pointer_suffix m name : good q m always (parse_pointer_suffix name) never.
Proof. contract parse_pointer_suffix. parse. Qed.

Lemma good_array_suffix m name : good q m always (parse_array_suffix name) never.
Proof. contract parse_array_suffix. parse. Qed.

Hint Resolve good_function_pointer good_type_arguments good_pointer_suffix good_array_suffix : parser.

Lemma good_type_base : good q (S n) always (parse_type_base rec) is_some.
Proof. contract parse_type_base. parse. Qed.

Hint Resolve good_type_base : parser.

Lemma good_type_annotation_body : good q (S n) always (parse_type_annotation_body rec) is_some.
Proof. contract parse_type_annotation_body. parse. Qed.
End annotation.

Lemma good_type_annotation_fuel q n : good q n always (parse_type_annotation_fuel n) is_some.
Proof.
  induction n as [|n IH]; [intros p _ Hn; lia|]. by apply good_type_annotation_body.
Qed.

Lemma good_left q n pre {A} (m : nat → PM L A) C :
  (∀ k, good q (S k) pre (m k) C) → good q n pre (fun p => m (parser_left p) p) C.
Proof. intros Hm p Hp _ Hpre. apply (Hm (parser_left p)); [done|lia|done]. Qed.

(** A run bounded by the tokens left has enough fuel everywhere. *)
Lemma good_fuelled q n pre {A} (m : nat → PM L A) C :
  (∀ k, good q k pre (m k) C) → good q n pre (fun p => m (S (parser_left p)) p) C.
Proof. intros Hm p Hp _ Hpre. apply (Hm (S (parser_left p))); [done|lia|done]. Qed.

Lemma good_type_annotation q n : good q n always parser_parse_type_annotation is_some.
Proof. apply (good_fuelled q n always), good_type_annotation_fuel. Qed.

Hint Resolve good_type_annotation : parser.

(** ** Type parameters *)

Lemma good_bound_list q n bounds : good q n always (parser_parse_bound_list bounds) is_some.
Proof. contract parser_parse_bound_list. parse. Qed.

Hint Resolve good_bound_list : parser.

Lemma good_where_clause q n params : good q n always (parser_parse_where_clause params) never.
Proof. contract parser_parse_where_clause. parse. Qed.

Lemma good_type_param_list q n : good q n not_end parser_parse_type_param_list (fun _ => true).
Proof. contract parser_parse_type_param_list. parse. Qed.
End types.

#[export] Hint Resolve good_skip_newlines good_skip_separators good_statement_end
  good_qualified_name good_type_annotation good_bound_list good_where_clause
  good_type_param_list : parser.

(** ** The contracts of the expression parsers *)

Section expressions.
Context {L : Type} `{TokenSourceLaws L} (U : Prop) (HU : U).
Abbreviation good := (good U false).

(** ** Match *)

Lemma good_match_arm_head n seen : good n always (parse_match_arm_head (L := L) seen) is_some.
Proof. contract parse_match_arm_head. parse. Qed.

Hint Resolve good_match_arm_head : parser.

Section match_core.
Context (n : nat) (parse_expression parse_body : PM L (option ASTNode)).
Context (Hexpr : good n always parse_expression is_some).
Context (Hbody : good n always parse_body is_some).
Hint Resolve Hexpr Hbody : parser.

Lemma good_match_arms is_expression :
  good n always (parse_match_arms parse_body is_expression) never.
Proof. contract parse_match_arms. parse. Qed.

Hint Resolve good_match_arms : parser.

Lemma good_match_core is_expression :
  good (S n) always (parser_parse_match_core parse_expression parse_body is_expression) is_some.
Proof. contract parser_parse_match_core. parse. Qed.
End match_core.

(** ** Expressions over the recursive calls *)

Section calls.
Context (n : nat) (rec : expression_call → PM L (option ASTNode)).
Context (Hrec : ∀ c, good n always (rec c) is_some).
Hint Resolve Hrec : parser.

Lemma good_call_expression : good n always (call_expression rec) is_some.
Proof. apply Hrec. Qed.

Hint Resolve good_call_expression : parser.

Definition is_number (t : TokenType) : bool := t =t TOKEN_NUMBER.

Lemma good_number m : good m is_number (parse_number (L := L)) is_some.
Proof. contract parse_number. unfold is_number, parser_parse_integer_literal_string in *. parse. Qed.

Lemma good_import_str m : good m not_end (parse_import_str (L := L)) is_some.
Proof. contract parse_import_str. parse. Qed.

Lemma good_new m : good m not_end (parse_new (L := L)) is_some.
Proof. contract parse_new. parse. Qed.

Hint Resolve good_number good_import_str good_new good_match_core : parser.

Lemma good_primary : good (S n) always (parser_parse_primary_expression rec) is_some.
Proof. contract parser_parse_primary_expression. parse. Qed.

(** ** Backtracking *)

Lemma good_cast : good (S n) always (parser_parse_cast_expression rec) is_some.
Proof.
  contract parser_parse_cast_expression. do 4 parse_step. do 2 (parse_step; [parse|]).
  do 2 parse_step. apply wp_bind, wp_detach; [|done]. intros Hd.
  assert ((type (current_token (detached p)) =t TOKEN_LPAREN) = true) as Hparen
    by by apply negb_false_iff.
  assert (parser_left (detached p) = parser_left p) as Hleft by done.
  parse_steps; try (eapply wp_restore_detached; [done..|]; parse_post; by parse).
  match goal with H : _ || negb _ = false |- _ => apply orb_false_iff in H as [He Hclose] end.
  match goal with |- wp _ _ ?p1 _ => pose proof (track_attach _ p1 Hp ltac:(done) He) as Ha end.
  apply wp_attach.
  match type of Ha with track _ _ ?p1 =>
    assert ((type (current_token p1) =t TOKEN_RPAREN) = true) as Hrparen by (by apply negb_false_iff);
    assert (parser_left p1 < parser_left p) by (change (parser_left p1) with (parser_left p'0); lia)
  end.
  parse_steps; [eapply wp_restore_track; [done..|]; parse_post; by parse|parse_end..].
Qed.

Lemma good_try_generic m :
  good m not_end (parser_try_parse_generic_call_type_args (L := L)) is_some.
Proof.
  contract parser_try_parse_generic_call_type_args. do 3 parse_step.
  eapply (wp_clear_message _ false p p); [done|]. intros p1 Hp1 Hl1 Hc1. rewrite <- Hc1 in Hpre.
  parse_steps; try (eapply (wp_restore_track _ false p p); [done..|]; parse_post; by parse); parse.
Qed.

(** ** Calls and postfix operators *)

Hint Resolve good_primary good_cast good_try_generic : parser.

Lemma good_arguments : good n always (parse_arguments rec) never.
Proof. contract parse_arguments. parse. Qed.

Lemma good_sizeof_argument m : good m always (parse_sizeof_argument (L := L)) is_some.
Proof. contract parse_sizeof_argument. parse. Qed.

Hint Resolve good_arguments good_sizeof_argument : parser.

Lemma good_call expr loc : good (S n) not_end (parse_call rec expr loc) (fun _ => true).
Proof.
  contract parse_call. parse. all: by apply wp_undefined.
Qed.

Lemma good_generic_call name type_args loc :
  good n always (parse_generic_call rec name type_args loc) never.
Proof.
  contract parse_generic_call. parse.
Qed.

Lemma good_member m expr message loc :
  good m not_end (parse_member (L := L) expr message loc) (fun _ => true).
Proof. contract parse_member. parse. Qed.

Lemma good_index expr loc : good (S n) not_end (parse_index rec expr loc) (fun _ => true).
Proof. contract parse_index. parse. Qed.

Hint Resolve good_call good_generic_call good_member good_index : parser.

Lemma good_postfix_operator expr loc :
  good (S n) always (parse_postfix_operator rec expr loc) is_continue.
Proof. contract parse_postfix_operator. parse. Qed.

Hint Resolve good_postfix_operator : parser.

Lemma good_postfix : good (S n) always (parser_parse_postfix_expression rec) is_some.
Proof. contract parser_parse_postfix_expression. parse. Qed.

Hint Resolve good_postfix : parser.

Lemma good_unary : good (S n) always (parser_parse_unary_expression rec) is_some.
Proof. contract parser_parse_unary_expression. parse. Qed.

Hint Resolve good_unary : parser.

Lemma good_binary k : good (S n) always (parser_parse_binary_expression rec k) is_some.
Proof. contract parser_parse_binary_expression. parse. Qed.

Lemma good_expression_step c : good (S n) always (expression_step rec c) is_some.
Proof. destruct c; [apply good_binary|apply good_unary]. Qed.
End calls.

(** ** Expressions *)

Lemma good_expression_fuel n c : good n always (expression_fuel n c) is_some.
Proof.
  revert c. induction n as [|n IH]; intros c; [intros p _ Hn; lia|]. by apply good_expression_step.
Qed.

Lemma good_expression n : good n always parser_parse_expression is_some.
Proof.
  apply (good_fuelled U false n always (fun f => expression_fuel f (Call_binary 0))).
  intros k. apply good_expression_fuel.
Qed.
End expressions.

#[export] Hint Resolve good_match_core good_expression : parser.

(** ** The contracts of the statement parsers *)

Section statements.
Context {L : Type} `{TokenSourceLaws L} (U : Prop) (HU : U).
Hint Resolve HU : parser.
Abbreviation good := (good U false).

Lemma good_assignment n target :
  good n not_end (parser_parse_assignment_from_target (L := L) target) is_some.
Proof. contract parser_parse_assignment_from_target. parse. all: by apply wp_undefined. Qed.

Hint Resolve good_assignment : parser.

Lemma good_expression_or_assignment n :
  good n always (parse_expression_or_assignment (L := L)) is_some.
Proof. contract parse_expression_or_assignment. parse. Qed.

Lemma good_var_declaration n : good n always (parser_parse_var_declaration (L := L)) is_some.
Proof. contract parser_parse_var_declaration. parse. Qed.

Hint Resolve good_expression_or_assignment good_var_declaration : parser.

Lemma good_for_initializer n : good n always (parser_parse_for_initializer (L := L)) is_some.
Proof. contract parser_parse_for_initializer. parse. Qed.

Lemma good_asm_text n : good n always (parse_asm_text (L := L)) never.
Proof. contract parse_asm_text. parse. all: by apply wp_undefined. Qed.

Hint Resolve good_for_initializer good_asm_text : parser.

Lemma good_inline_asm n : good n always (parser_parse_inline_asm (L := L)) is_some.
Proof. contract parser_parse_inline_asm. parse. Qed.

Lemma good_return n : good n not_end (parser_parse_return_statement (L := L)) is_some.
Proof. contract parser_parse_return_statement. parse. Qed.

Lemma good_break_or_continue n ty :
  ty ≠ TOKEN_EOF → good n always (parser_parse_break_or_continue (L := L) ty) is_some.
Proof. intros Hty. contract parser_parse_break_or_continue. parse. Qed.

(** ** Over nested statements *)

Section nested.
Context (n : nat) (rec : PM L (option ASTNode)) (Hrec : good n always rec is_some).
Hint Resolve Hrec : parser.

Lemma good_block : good (S n) always (parser_parse_block rec) is_some.
Proof. contract parser_parse_block. parse. Qed.

Hint Resolve good_block : parser.

Lemma good_branch : good n always (parse_branch rec) is_some.
Proof. contract parse_branch. parse. Qed.

Hint Resolve good_branch : parser.

Lemma good_else_clauses : good (S n) always (parse_else_clauses rec) never.
Proof. contract parse_else_clauses. unfold skip_newlines. parse. Qed.

Hint Resolve good_else_clauses : parser.

Lemma good_if_statement : good (S n) always (parser_parse_if_statement rec) is_some.
Proof. contract parser_parse_if_statement. unfold skip_newlines. parse. Qed.

Lemma good_while : good (S n) always (parser_parse_while_statement rec) is_some.
Proof. contract parser_parse_while_statement. parse. Qed.

Lemma good_for_separator m o : good m always (parse_for_separator (L := L) o) never.
Proof. contract parse_for_separator. parse. Qed.

Lemma good_optional m stop (e : PM L (option ASTNode)) :
  good m always e is_some → good m always (parse_optional stop e) never.
Proof. intros He. contract parse_optional. parse. Qed.

Hint Resolve good_for_separator good_optional : parser.

Lemma good_for : good (S n) always (parser_parse_for_statement rec) is_some.
Proof. contract parser_parse_for_statement. parse. Qed.

Lemma good_case_body : good n always (parse_case_body rec) never.
Proof. contract parse_case_body. parse. Qed.

Lemma good_case_head m seen : good m always (parse_case_head (L := L) seen) is_some.
Proof. contract parse_case_head. parse. Qed.

Hint Resolve good_case_body good_case_head : parser.

Lemma good_switch_cases : good n always (parse_switch_cases rec) never.
Proof. contract parse_switch_cases. parse. Qed.

Hint Resolve good_switch_cases : parser.

Lemma good_switch : good (S n) always (parser_parse_switch_statement rec) is_some.
Proof. contract parser_parse_switch_statement. parse. Qed.

Lemma good_defer ty :
  ty ≠ TOKEN_EOF → good (S n) always (parser_parse_defer_or_errdefer rec ty) is_some.
Proof. intros Hty. contract parser_parse_defer_or_errdefer. parse. Qed.
End nested.
End statements.

#[export] Hint Resolve good_assignment good_expression_or_assignment good_var_declaration
  good_inline_asm good_return good_break_or_continue good_block good_if_statement good_while good_for
  good_switch good_defer : parser.
