(* ===== verification/ParserDeclFacts.v ===== *)
(** * The contracts of the declaration parsers *)

From S2P Require Import Prelude.
From S2P Require Import Lexer.
From S2P Require Import TokenKind.
From S2P Require Import Ast.
From S2P Require Import ErrorReporter.
From S2P Require Import ParserState.
From S2P Require Import ParserTypes.
From S2P Require Import ParserExpr.
From S2P Require Import ParserStmt.
From S2P Require Import ParserDecl.
From S2P Require Import ParserLogic.
From S2P Require Import ParserTypesFacts.

Section declarations.
Context {L : Type} `{TokenSourceLaws L} (U : Prop) (HU : U).
Hint Resolve HU : parser.
Abbreviation good := (good U false).

(** ** Imports and the parts of declarations *)

Lemma good_import_list n : good n always (parse_import_list (L := L)) never.
Proof. contract parse_import_list. parse. Qed.

Lemma good_plain_import n loc : good n always (parse_plain_import (L := L) loc) is_some.
Proof. contract parse_plain_import. unfold at_word. parse. Qed.

Hint Resolve good_import_list good_plain_import : parser.

Lemma good_selective_import n loc : good n not_end (parse_selective_import (L := L) loc) is_some.
Proof. contract parse_selective_import. unfold at_word. parse. Qed.

Hint Resolve good_selective_import : parser.

Lemma good_import n : good n not_end (parser_parse_import_declaration (L := L)) is_some.
Proof. contract parser_parse_import_declaration. parse. Qed.

Lemma good_link_name n message : good n always (parse_link_name (L := L) message) never.
Proof. contract parse_link_name. parse. Qed.

Hint Resolve good_link_name : parser.

Lemma good_extern_var n : good n always (parser_parse_extern_var_declaration (L := L)) is_some.
Proof. contract parser_parse_extern_var_declaration. parse. Qed.

Lemma good_parameter_list n : good n always (parser_parse_parameter_list (L := L)) never.
Proof. contract parser_parse_parameter_list. parse. Qed.

Lemma good_return_type n : good n always (parse_return_type (L := L)) never.
Proof. contract parse_return_type. parse. Qed.

Lemma good_type_params n : good n always (parse_type_params (L := L)) never.
Proof. contract parse_type_params. parse. Qed.

Lemma good_enum_type_params n : good n not_end (parse_enum_type_params (L := L)) (fun _ => true).
Proof. contract parse_enum_type_params. parse. Qed.

Lemma good_variant_payload n : good n always (parse_variant_payload (L := L)) never.
Proof. contract parse_variant_payload. parse. Qed.

Lemma good_variant_value n : good n always (parse_variant_value (L := L)) never.
Proof. contract parse_variant_value. parse. Qed.

Hint Resolve good_extern_var good_parameter_list good_return_type good_type_params
  good_enum_type_params good_variant_payload good_variant_value good_import : parser.

Lemma good_enum_variants n : good n always (parse_enum_variants (L := L)) never.
Proof. contract parse_enum_variants. parse. Qed.

Lemma good_finish_enum n name tps variants loc :
  good n always (finish_enum (L := L) name tps variants loc) never.
Proof. contract finish_enum. parse. by apply wp_undefined. Qed.

Hint Resolve good_enum_variants good_finish_enum : parser.

Lemma good_enum n : good n always (parser_parse_enum_declaration (L := L)) is_some.
Proof. contract parser_parse_enum_declaration. parse. Qed.

(** ** Over nested statements *)

Section nested.
Context (n : nat) (rec : PM L (option ASTNode)) (Hrec : good n always rec is_some).
Hint Resolve Hrec : parser.

Lemma good_function_body : good (S n) always (parse_function_body rec) never.
Proof. contract parse_function_body. parse. Qed.

Hint Resolve good_function_body : parser.

Lemma good_function : good (S n) always (parser_parse_function_declaration rec) is_some.
Proof. contract parser_parse_function_declaration. parse. Qed.

Lemma good_method : good (S n) always (parser_parse_method_declaration rec) is_some.
Proof. contract parser_parse_method_declaration. parse. Qed.

(** At the keyword a token is consumed even if the declaration fails. *)
Lemma good_method_keyword :
  good (S n) (fun t => t =t TOKEN_METHOD) (parser_parse_method_declaration rec) (fun _ => true).
Proof.
  contract parser_parse_method_declaration. do 2 parse_step. apply wp_bind. unfold parser_expect.
  do 2 parse_step. cbn beta in *. rewrite Hpre. parse.
Qed.

Hint Resolve good_function good_method_keyword : parser.

Lemma good_method_block b m1 m2 : good (S n) not_end (parse_method_block rec b m1 m2) never.
Proof. contract parse_method_block. parse. Qed.

Hint Resolve good_method_block : parser.

Lemma good_methods b m1 m2 : good (S n) always (parse_methods rec b m1 m2) never.
Proof. contract parse_methods. parse. Qed.

Hint Resolve good_methods : parser.

Lemma good_trait : good (S n) always (parser_parse_trait_declaration rec) is_some.
Proof. contract parser_parse_trait_declaration. parse. Qed.

Lemma good_impl : good (S n) always (parser_parse_impl_declaration rec) is_some.
Proof. contract parser_parse_impl_declaration. parse. Qed.

Lemma good_struct_members : good (S n) always (parse_struct_members rec) never.
Proof. contract parse_struct_members. parse. Qed.

Hint Resolve good_struct_members : parser.

Lemma good_struct : good (S n) always (parser_parse_struct_declaration rec) is_some.
Proof. contract parser_parse_struct_declaration. parse. Qed.

Lemma good_extern message : good (S n) always (parse_extern rec message) is_some.
Proof. contract parse_extern. parse. Qed.

Hint Resolve good_enum good_trait good_impl good_struct good_extern : parser.

Lemma good_exported m (d : PM L (option ASTNode)) :
  good m always d is_some → good m always (exported d) is_some.
Proof. intros Hd. contract exported. parse. Qed.

Hint Resolve good_exported : parser.

(** ** Dispatch *)

(** The default case is not reached at [extern]. *)
Lemma good_declaration_or default pre :
  good (S n) always default is_some ∨ pre TOKEN_EOF = false ∧ (∀ t, pre t = true → t = TOKEN_EXTERN) →
  good (S n) pre (parse_declaration_or rec default) is_some.
Proof.
  intros Hdefault. contract parse_declaration_or.
  destruct Hdefault as [Hdefault|[_ Hextern]]; [parse|].
  pose proof (Hextern _ Hpre) as He. parse_steps; try solve [cbn beta iota; parse_end].
  all: exfalso; rewrite He in *; discriminate.
Qed.

Lemma good_labeled_loop : good (S n) (fun t => t =t TOKEN_IDENTIFIER) (parse_labeled_loop rec) is_some.
Proof. contract parse_labeled_loop. parse. Qed.

Lemma good_plain_statement : good (S n) always (parse_plain_statement rec) is_some.
Proof.
  contract parse_plain_statement.
  assert (good (S n) (fun t => t =t TOKEN_EXTERN) (parse_declaration_or rec rec) is_some)
    by (apply good_declaration_or; right; split; [done|intros t; apply tok_eqb_true]).
  assert (good (S (S n)) always
            (parser_parse_match_core parser_parse_expression (parser_parse_block rec) false) is_some)
    by auto with parser.
  parse.
Qed.

Hint Resolve good_labeled_loop good_plain_statement : parser.

(** Peeking past the current tokens leaves the parser where it is. *)
Lemma wp_peek_after q p0 p (Q : TokenType → Parser L → Prop) :
  track q p0 p →
  (∀ t p', track q p0 p' → parser_left p' = parser_left p →
     current_token p' = current_token p → Q t p') →
  wp U parser_peek_after p Q.
Proof.
  intros [[Hs] Hst] HQ. unfold wp, parser_peek_after.
  destruct (source_peek_spec _ Hs) as (t & lx & -> & Hok & Hsame & Hl & Hpos).
  apply HQ; [|by unfold parser_left; simpl; rewrite Hl|done].
  split; [by split|]. etrans; [exact Hst|]. split; try done.
  right. unfold parser_left. simpl. by rewrite Hl.
Qed.

Lemma good_statement_step : good (S n) always (parse_statement_step rec) is_some.
Proof.
  contract parse_statement_step. do 5 parse_step; [parse_step|parse].
  eapply wp_peek_after; [done|]. intros t p' Hp' Hl Hc.
  apply andb_true_iff in Htest as [Hid _]. rewrite <- Hc in Hid. parse.
Qed.
End nested.

(** ** Statements and declarations *)

Lemma good_statement_fuel n : good n always (parse_statement_fuel (L := L) n) is_some.
Proof. induction n as [|n IH]; [intros p _ Hn; lia|]. by apply good_statement_step. Qed.

Lemma good_statement n : good n always (parser_parse_statement (L := L)) is_some.
Proof. apply (good_fuelled U false n always), good_statement_fuel. Qed.

Lemma good_declaration_fuel n : good (S n) always (parse_declaration_fuel (L := L) n) is_some.
Proof.
  apply good_declaration_or; [apply good_statement_fuel|]. left. apply good_statement.
Qed.

Lemma good_declaration n : good n always (parser_parse_declaration (L := L)) is_some.
Proof. apply (good_left U false n always parse_declaration_fuel), good_declaration_fuel. Qed.

Hint Resolve good_declaration : parser.

(** ** Programs *)

Lemma good_synchronize n : good n always (parser_synchronize (L := L)) never.
Proof. contract parser_synchronize. parse. Qed.

Hint Resolve good_synchronize : parser.

Lemma good_set_recovery n b : good n always (set_recovery (L := L) b) never.
Proof. contract set_recovery. by eapply wp_modify_quietly; [done|done|]. Qed.

Hint Resolve good_set_recovery : parser.

Lemma good_recover n : good n always (parser_recover_from_error (L := L)) never.
Proof. contract parser_recover_from_error. parse. Qed.

Hint Resolve good_recover : parser.

(** A state reached from one that is not at the end of the input, and at another
    place or at the end, has consumed a token. *)
Lemma track_elsewhere q p p' :
  track q p p' → not_end (type (current_token p)) = true →
  negb (type (current_token p') =t TOKEN_EOF) &&
    (source_position (ParserState.lexer p') =? source_position (ParserState.lexer p)) = false →
  parser_left p' < parser_left p.
Proof.
  intros [_ [_ [Hlt|(_ & Hc & Hpos)] _ _ _ _]] Hend Htest; [done|].
  rewrite Hc, Hpos, Nat.eqb_refl in Htest. unfold not_end in Hend. by rewrite Hend in Htest.
Qed.

(** From there an advance makes progress over the state it started from. *)
Lemma wp_advance_progress q p p' (Q : () → Parser L → Prop) :
  track q p p' → not_end (type (current_token p)) = true →
  (∀ p'', track q p p'' → parser_left p'' < parser_left p → Q () p'') →
  wp U parser_advance p' Q.
Proof.
  intros Hp Hend HQ. pose proof (track_left _ _ _ Hp).
  destruct (not_end (type (current_token p'))) eqn:Hend'.
  - eapply wp_advance; [done..|]. intros p'' ? ?. apply HQ; [done|lia].
  - unfold wp, parser_advance. apply negb_false_iff in Hend'. rewrite Hend'. apply HQ; [done|].
    eapply track_elsewhere; [done..|]. by rewrite Hend'.
Qed.

(** A round consumes a token, or ends the loop at the end of the input. *)
Lemma wp_top_level ds p :
  parser_ok p →
  wp U (parse_top_level (L := L) ds) p (fun r p' =>
    track false p p' ∧
    match r with
    | inl _ => parser_left p' < parser_left p
    | inr _ => type (current_token p') = TOKEN_EOF
    end).
Proof.
  intros Hp. pose proof (track_refl false p Hp) as Ht. unfold parse_top_level.
  do 2 parse_step. parse_step; [apply wp_ret; split; [done|by apply tok_eqb_true]|].
  do 2 parse_step.
  assert (not_end (type (current_token p)) = true) as Hend by token_condition.
  parse_step; [parse|]. do 5 parse_step. destruct a as [d|]; consumed; [by parse|].
  destruct (p_has_error p') eqn:He.
  - parse. all: split; [done|]; by eapply track_elsewhere.
  - parse_step. parse_step. eapply wp_advance_progress; [done..|].
    intros p1 Hp1 Hl1. by parse.
Qed.

(** A program is parsed to the end of the input. *)
Lemma wp_program p :
  parser_ok p →
  wp U parser_parse_program p (fun _ p' =>
    track false p p' ∧ type (current_token p') = TOKEN_EOF).
Proof.
  intros Hp. unfold parser_parse_program. apply wp_bind.
  eapply (wp_loop_track _ _ p); [by apply track_refl|]. intros ds p1 Hp1 _.
  eapply wp_mono; [by apply wp_top_level, Hp1|].
  intros [ds'|ds'] p2 [Hp2 Hr]; (split; [by eapply track_trans|done]).
Qed.
End declarations.
