(* ===== verification/ParserFacts.v ===== *)
(** * Correctness of the parser over the lexer

    The lexer keeps the promises of a token source; the theorems on
    [parse_source]: it terminates at the end of the text, and what went wrong is
    in the reporter.  The inputs on which it does not behave as meant follow. *)

From S2P Require Import Prelude.
From S2P Require Import Lexer.
From S2P Require Import LexerFacts.
From S2P Require Import TokenKind.
From S2P Require Import Ast.
From S2P Require Import ErrorReporter.
From S2P Require Import ErrorReporterFacts.
From S2P Require Import ParserState.
From S2P Require Import ParserTypes.
From S2P Require Import ParserExpr.
From S2P Require Import ParserStmt.
From S2P Require Import ParserDecl.
From S2P Require Import ParserLogic.
From S2P Require Import ParserDeclFacts.

(** ** The lexer as a token source *)

Lemma emit_punctuation_valued t c pn lx t' lx' :
  emit_punctuation t c pn lx = Some (t', lx') → value t' ≠ None.
Proof.
  destruct pn; cbn [emit_punctuation]; intros Heq; [..|discriminate];
    apply Some_inj in Heq; apply (f_equal fst) in Heq; simpl in Heq; subst t'; discriminate.
Qed.

Lemma fail_token_valued t lx m : value (fail_token t lx m).1 ≠ None.
Proof. done. Qed.

Lemma char_literal_close_valued t s v lx : value (char_literal_close t s v lx).1 ≠ None.
Proof. unfold char_literal_close. by case_match. Qed.

Lemma lexer_lex_char_literal_valued lx : value (lexer_lex_char_literal lx).1 ≠ None.
Proof.
  unfold lexer_lex_char_literal.
  repeat (case_match || apply fail_token_valued || apply char_literal_close_valued); done.
Qed.

Lemma lexer_lex_number_valued lx : value (lexer_lex_number lx).1 ≠ None.
Proof. unfold lexer_lex_number. by destruct (lexer_scan_number lx) as [? []]. Qed.

Lemma lexer_lex_string_literal_valued lx : value (lexer_lex_string_literal lx).1 ≠ None.
Proof.
  unfold lexer_lex_string_literal. destruct (string_loop _ _ _) as [b lx1]. by case_match.
Qed.

Lemma lexer_dispatch_valued t c lx t' lx' : lexer_dispatch t c lx = Yield t' lx' → value t' ≠ None.
Proof.
  unfold lexer_dispatch. case_match; [done|]. case_match.
  { unfold lexer_skip_block_comment. destruct (skip_block_loop _ _ _). case_match; [done|].
    simpl. intros [= <- _]. done. }
  destruct (emit_punctuation t c (lexer_switch lx c) lx) as [[t1 lx1]|] eqn:He.
  { intros [= <- <-]. by eapply emit_punctuation_valued. }
  destruct (emit_punctuation t c (lexer_minus lx c) lx) as [[t1 lx1]|] eqn:Hm.
  { intros [= <- <-]. by eapply emit_punctuation_valued. }
  intros Heq.
  match type of Heq with (let '(_, _) := ?r in _) = _ => assert (value r.1 ≠ None) as Hv end.
  { destruct (c =c "'"); [apply lexer_lex_char_literal_valued|].
    destruct (isdigit c); [apply lexer_lex_number_valued|].
    destruct (isalpha c || _); [done|].
    destruct (c =c "034"); [apply lexer_lex_string_literal_valued|done]. }
  match type of Heq with (let '(_, _) := ?r in _) = _ => destruct r as [t1 lx1] end.
  by injection Heq as <- <-.
Qed.

Lemma skip_space_token fuel t lx t' lx' :
  skip_space fuel t lx = inl (t', lx') → type t' = TOKEN_NEWLINE.
Proof.
  revert lx. induction fuel as [|f IH]; intros lx; simpl; [done|].
  repeat case_match; try done; eauto. by intros [= <- _].
Qed.

Lemma lexer_next_token_fuel_valued fuel lx t lx' :
  lexer_next_token_fuel fuel lx = Some (t, lx') → valued t.
Proof.
  revert lx. induction fuel as [|f IH]; intros lx; simpl; [done|].
  destruct (lexer_next_token_body lx) as [t1 lx1|lx1] eqn:Hb; [|apply IH].
  intros [= <- <-]. unfold lexer_next_token_body in Hb.
  destruct (skip_space _ _ _) as [[t2 lx2]|lx2] eqn:Hs.
  - injection Hb as <- <-. apply skip_space_token in Hs. by intros _ ?.
  - destruct (char_at lx2 0) as [c|].
    + intros _ _. by eapply lexer_dispatch_valued.
    + injection Hb as <- <-. by intros ?.
Qed.

Definition same_source (lx lx' : Lexer) : Prop :=
  source lx' = source lx ∧ src_length lx' = src_length lx.

#[export] Instance same_source_preorder : PreOrder same_source.
Proof. split; [by intros lx|]. intros ? ? ? [] []. split; congruence. Qed.

#[export, refine] Instance lexer_source_laws : TokenSourceLaws Lexer := {
  source_ok := lexer_wf;
  source_same := same_source }.
Proof.
  - intros lx Hwf. destruct (next_token_total lx Hwf) as (t & lx' & Heq & Hwf' & Hsrc & Hlen & Hpos).
    exists t, lx'. split_and!; try done; [by eapply lexer_next_token_fuel_valued|].
    cbn [source_left lexer_source]. unfold remaining. rewrite Hlen. destruct Hwf as [Hp _], Hwf' as [Hp' _].
    destruct Hpos as [[Ht Hpos]|[Ht Hpos]].
    + rewrite Ht. simpl. lia.
    + destruct (tok_eqb_spec (type t) TOKEN_EOF); lia.
  - intros lx Hwf. destruct (next_token_total lx Hwf) as (t & lx' & Heq & Hwf' & Hsrc & Hlen & _).
    cbn [source_peek_token lexer_source]. unfold lexer_peek_token. rewrite Heq.
    eexists t, _. split; [done|]. destruct Hwf as [Hp Hl]. unfold same_source; cbn.
    unfold remaining. cbn. rewrite Hlen, Hsrc. split_and!; try done.
  - intros saved lx [Hp Hl] [Hp' Hl'] [Hsrc Hlen]. cbn. unfold same_source, remaining. cbn.
    rewrite Hlen, Hsrc. split_and!; try done. split; cbn; by rewrite ?Hsrc, ?Hlen.
Defined.

(** ** The whole parser *)

(** The parser at the start of a text is consistent. *)
Lemma parser_created_ok (text : list ascii) r :
  ∃ p, parser_create_with_error_reporter (lexer_create text) r = Returned () p ∧ parser_ok p ∧
    error_reporter p = is_some r ∧
    reporter_grows (default (error_reporter_create None None) r) (reporter p).
Proof.
  pose proof (lexer_create_wf text) as Hwf. unfold parser_create_with_error_reporter.
  destruct (@source_next_spec Lexer _ lexer_source_laws (lexer_create text) Hwf) as (cur & lx1 & -> & Hok1 & _ & Hv1 & _).
  destruct (@source_next_spec Lexer _ lexer_source_laws lx1 Hok1) as (peek & lx2 & -> & Hok2 & _ & Hv2 & _).
  set (p := mkParser lx2 cur peek false false 0 None _ _ false _).
  assert (parser_ok p) as Hp by (split; try done; intros _; left; simpl; lia).
  pose proof (wp_report_token False false p p (if type cur =t TOKEN_ERROR then cur else peek)
    (fun _ p' => track false p p') (track_refl false p Hp)) as Hw.
  specialize (Hw ltac:(done)). unfold wp in Hw.
  destruct (parser_report_lexer_token_error _ p) as [[] p'| |]; [|done..].
  exists p'. destruct Hw as [Hok' [_ _ Hr Hg _ _]]. by split_and!.
Qed.

(** What a run of the parser over a text ends in. *)
Lemma parse_source_spec text r :
  match parse_source text r with
  | Returned a p =>
      (∃ ds, a = ast_create_program ds) ∧ parser_ok p ∧ type (current_token p) = TOKEN_EOF ∧
      error_reporter p = is_some r ∧
      reporter_grows (default (error_reporter_create None None) r) (reporter p)
  | Undefined_behaviour => True
  | Out_of_fuel => False
  end.
Proof.
  unfold parse_source. destruct (parser_created_ok text r) as (p & -> & Hp & Her & Hg).
  pose proof (wp_program True I p Hp) as Hw. unfold wp in Hw.
  destruct (parser_parse_program p) as [a p'| |] eqn:Hrun; [|done..].
  destruct Hw as [[Hok [_ _ Hr Hg' _ _]] Hend]. split_and!; try done; [|congruence|by etrans].
  unfold parser_parse_program, mbind, PM_bind in Hrun.
  destruct (loop parse_top_level [] p) as [ds p1| |]; [|done..].
  injection Hrun as <- _. by exists ds.
Qed.

(** C19. The parser terminates on every text, with or without a reporter: the tokens
    left bound the nesting and the rounds of every loop, so the fuel never runs
    out; and when it returns (it may meet the undefined behaviour shown below) it
    returns a program and has consumed the text up to its end. *)
Theorem parser_terminates (text : list ascii) (r : option ErrorReporter) :
  match parse_source text r with
  | Returned a p => (∃ ds, a = ast_create_program ds) ∧ type (current_token p) = TOKEN_EOF
  | Undefined_behaviour => True
  | Out_of_fuel => False
  end.
Proof.
  pose proof (parse_source_spec text r) as H. destruct (parse_source text r); [|done..].
  by destruct H as (? & _ & ? & _).
Qed.

(** A new reporter is empty and takes a hundred reports. *)
Lemma new_reporter filename code :
  let r := error_reporter_create filename code in er_errors r = [] ∧ er_max_errors r = MAX_ERRORS_DEFAULT.
Proof. unfold error_reporter_create. by destruct filename, code. Qed.

(** Where every report is an error, the errors are counted by the reports. *)
Lemma error_count_all r :
  Forall (fun e => is_error e = true) (er_errors r) → error_reporter_get_error_count r = length (er_errors r).
Proof.
  unfold error_reporter_get_error_count. induction 1 as [|e l He _ IH]; [done|].
  rewrite filter_cons_True by (by rewrite He). simpl. by rewrite IH.
Qed.

(** C20. With a new reporter, every error the parser counts has a report of its own in the
    reporter until a hundred reports are stored, and nothing but errors is reported; so
    [had_error], which is set exactly when errors were counted, implies that the reporter
    has errors.  A pending error has always been counted. *)
Theorem parser_errors_reported (text : list ascii) (filename code : option string) a p :
  parse_source text (Some (error_reporter_create filename code)) = Returned a p →
  had_error p = (0 <? error_count p) ∧
  (p_has_error p = true → had_error p = true) ∧
  error_count p `min` MAX_ERRORS_DEFAULT ≤ error_reporter_get_error_count (reporter p) ∧
  error_reporter_get_error_count (reporter p) = length (er_errors (reporter p)) ∧
  (had_error p = true → error_reporter_has_errors (reporter p) = true).
Proof.
  intros Heq. pose proof (parse_source_spec text (Some (error_reporter_create filename code))) as H.
  rewrite Heq in H. destruct H as (_ & [_ _ _ Hhad Hhas Hrep] & _ & Her & (Hmax & new & Hnew & Hf)).
  destruct (new_reporter filename code) as [Hnil Hfull]. simpl default in *. rewrite Hnil in Hnew. simpl in Hnew.
  assert (error_reporter_get_error_count (reporter p) = length (er_errors (reporter p))) as Hcount
    by (apply error_count_all; by rewrite Hnew).
  assert (error_count p `min` MAX_ERRORS_DEFAULT ≤ error_reporter_get_error_count (reporter p)) as Hmin
    by (destruct (Hrep Her); lia).
  split_and!; try done. intros Hh. rewrite Hh in Hhad. symmetry in Hhad. apply Nat.ltb_lt in Hhad.
  unfold error_reporter_has_errors, MAX_ERRORS_DEFAULT in *. rewrite Hnew in *. destruct new as [|e new]; [simpl in *; lia|].
  simpl. apply Forall_cons in Hf as [-> _]. done.
Qed.

(** ** Inputs on which the parser does not do what it means to *)

Definition parse_text (text : string) : presult Lexer ASTNode :=
  parse_source (list_ascii_of_string text) (Some (error_reporter_create None None)).

Definition outcome_of {A B} (f : A → Parser Lexer → B) (r : presult Lexer A) : option B :=
  match r with Returned a p => Some (f a p) | _ => None end.

Definition error_messages (p : Parser Lexer) : list string := map er_message (er_errors (reporter p)).

(** A comparison with an indexed array is parsed right, but the attempt to read it
    as a generic call leaves its error in the reporter, whose errors the driver
    takes for a failed parse. *)
Lemma generic_attempt_leaves_error :
  outcome_of (fun _ p => (had_error p, error_messages p, error_reporter_has_errors (reporter p)))
    (parse_text "function f() { while (i < a[j]) { i += 1; } }")
  = Some (false, ["Expected array size after '['"%string], true).
Proof. vm_compute. reflexivity. Qed.

(** A call through an expression destroys its arguments twice. *)
Lemma indirect_call_undefined : parse_text "(*fp)(1);" = Undefined_behaviour.
Proof. vm_compute. reflexivity. Qed.

(** Without arguments it is only lost, and refused without a reason. *)
Lemma indirect_call_refused :
  outcome_of (fun _ p => error_messages p) (parse_text "(*fp)();")
  = Some ["Failed to parse declaration"%string].
Proof. vm_compute. reflexivity. Qed.

(** Every generic enum frees its parameters through a null pointer. *)
Lemma generic_enum_undefined : parse_text "enum Option<T> { Some(T), None }" = Undefined_behaviour.
Proof. vm_compute. reflexivity. Qed.

(** A token longer than the doubled buffer overflows it. *)
Lemma asm_buffer_overflow :
  parse_source (list_ascii_of_string "asm { " ++ repeat "a"%char 3000 ++ list_ascii_of_string " }")
    None = Undefined_behaviour.
Proof. vm_compute. reflexivity. Qed.

(** A name in parentheses is a cast unless what follows rules it out: a
    subtraction becomes the cast of a negation, and a parenthesised name before a
    newline or a closing bracket is refused. *)
Lemma parenthesised_name_is_cast :
  outcome_of (fun a _ => a) (parse_text "(x) - 1;")
  = Some (ast_create_program [AST_CAST_EXPRESSION (mkLocation 1 1 None) "x"
      (AST_UNARY_EXPRESSION (mkLocation 1 5 None) "-"
         (AST_NUMBER_LITERAL (mkLocation 1 7 None) (IntLiteral 1 10)))]).
Proof. vm_compute. reflexivity. Qed.

Lemma parenthesised_name_refused :
  outcome_of (fun _ p => had_error p) (parse_text "return a[(i)];") = Some true ∧
  outcome_of (fun _ p => had_error p) (parse_text "return (x) }") = Some true.
Proof. split; vm_compute; reflexivity. Qed.

Lemma parser_errors_reported_witness :
  match parse_text "var = 1; => x" with
  | Returned _ p => 2 ≤ error_reporter_get_error_count (reporter p)
  | _ => False
  end.
Proof.
  assert (match parse_text "var = 1; => x" with Returned _ p => 2 <=? error_count p | _ => false end = true)
    as Hh by (vm_compute; reflexivity).
  pose proof (parser_errors_reported (list_ascii_of_string "var = 1; => x") None None) as H.
  unfold parse_text in *. destruct (parse_source _ _) as [a p| |]; [|discriminate..].
  destruct (H a p eq_refl) as (_ & _ & Hmin & _). apply Nat.leb_le in Hh. unfold MAX_ERRORS_DEFAULT in Hmin. lia.
Defined.
