(* ===== verification/Encoders.v ===== *)
(** * Encoders of machine instructions: src/src/codegen/binary/encoders.c

    The functions that append x86-64 instructions to a code buffer, with the buffer
    of src/src/codegen/binary/support.c and the registers of
    src/src/codegen/binary/internal.h.  A function that returns 0 keeps what it had
    already appended; the buffer grows as needed. *)

From S2P Require Import Prelude.

Inductive BinaryGpRegister : Type :=
  | BINARY_GP_RAX | BINARY_GP_RCX | BINARY_GP_RDX | BINARY_GP_RBX
  | BINARY_GP_RSP | BINARY_GP_RBP | BINARY_GP_RSI | BINARY_GP_RDI
  | BINARY_GP_R8 | BINARY_GP_R9 | BINARY_GP_R10 | BINARY_GP_R11
  | BINARY_GP_R12 | BINARY_GP_R13 | BINARY_GP_R14 | BINARY_GP_R15.

Inductive BinaryXmmRegister : Type :=
  | BINARY_XMM0 | BINARY_XMM1 | BINARY_XMM2 | BINARY_XMM3
  | BINARY_XMM4 | BINARY_XMM5 | BINARY_XMM6 | BINARY_XMM7.

#[export] Instance BinaryGpRegister_eq_dec : EqDecision BinaryGpRegister.
Proof. solve_decision. Defined.

#[export] Instance BinaryXmmRegister_eq_dec : EqDecision BinaryXmmRegister.
Proof. solve_decision. Defined.

(** The values of the enumerators. *)
Definition gp_code (r : BinaryGpRegister) : Z :=
  match r with
  | BINARY_GP_RAX => 0 | BINARY_GP_RCX => 1 | BINARY_GP_RDX => 2 | BINARY_GP_RBX => 3
  | BINARY_GP_RSP => 4 | BINARY_GP_RBP => 5 | BINARY_GP_RSI => 6 | BINARY_GP_RDI => 7
  | BINARY_GP_R8 => 8 | BINARY_GP_R9 => 9 | BINARY_GP_R10 => 10 | BINARY_GP_R11 => 11
  | BINARY_GP_R12 => 12 | BINARY_GP_R13 => 13 | BINARY_GP_R14 => 14 | BINARY_GP_R15 => 15
  end%Z.

Definition xmm_code (r : BinaryXmmRegister) : Z :=
  match r with
  | BINARY_XMM0 => 0 | BINARY_XMM1 => 1 | BINARY_XMM2 => 2 | BINARY_XMM3 => 3
  | BINARY_XMM4 => 4 | BINARY_XMM5 => 5 | BINARY_XMM6 => 6 | BINARY_XMM7 => 7
  end%Z.

Coercion gp_code : BinaryGpRegister >-> Z.
Coercion xmm_code : BinaryXmmRegister >-> Z.

(** ** The code buffer *)

Definition BinaryCodeBuffer : Type := list byte.

(** A function of the code generator: its result, or [None] when it returns 0. *)
Definition Emit (A : Type) : Type := BinaryCodeBuffer → option A * BinaryCodeBuffer.

#[export] Instance Emit_ret : MRet Emit := λ A a buffer, (Some a, buffer).
#[export] Instance Emit_bind : MBind Emit := λ A B f m buffer,
  match m buffer with
  | (Some a, buffer') => f a buffer'
  | (None, buffer') => (None, buffer')
  end.

Definition refuse {A} : Emit A := λ buffer, (None, buffer).

(** [a || b]: the second is tried when the first returns 0. *)
Definition emit_or {A} (a b : Emit A) : Emit A := λ buffer,
  match a buffer with
  | (Some x, buffer') => (Some x, buffer')
  | (None, buffer') => b buffer'
  end.

Definition buffer_size : Emit nat := λ buffer, (Some (length buffer), buffer).

Definition binary_code_buffer_append_bytes (data : list byte) : Emit () := λ buffer,
  (Some (), buffer ++ data).
Definition binary_code_buffer_append_u8 (v : Z) : Emit () :=
  binary_code_buffer_append_bytes [byte.of_Z v].
Definition binary_code_buffer_append_u32 (v : Z) : Emit () :=
  binary_code_buffer_append_bytes (le_split 4 v).
Definition binary_code_buffer_append_u64 (v : Z) : Emit () :=
  binary_code_buffer_append_bytes (le_split 8 v).

Local Abbreviation u8_ := binary_code_buffer_append_u8.
Local Abbreviation u32_ := binary_code_buffer_append_u32.

(** ** Fields of an instruction *)

Definition lo (r : Z) : Z := Z.land r 7.
Definition hi (r : Z) : Z := Z.shiftr r 3.

Definition rex_byte (w r x b : Z) : Z :=
  Z.lor 0x40 (Z.lor (if (w =? 0)%Z then 0 else 8)
    (Z.lor (if (r =? 0)%Z then 0 else 4)
      (Z.lor (if (x =? 0)%Z then 0 else 2) (if (b =? 0)%Z then 0 else 1)))).

Definition binary_emit_rex_maybe_forced (w r x b : Z) (force : bool) : Emit () :=
  if (rex_byte w r x b =? 0x40)%Z && negb force then mret ()
  else u8_ (rex_byte w r x b).

Definition binary_emit_rex (w r x b : Z) : Emit () :=
  binary_emit_rex_maybe_forced w r x b false.

(** [0xC0 | ((reg & 7) << 3) | (rm & 7)]. *)
Definition modrm_reg (reg rm : Z) : Z := Z.lor (Z.lor 0xC0 (Z.shiftl (lo reg) 3)) (lo rm).

(** [(int8_t)]-sized immediates and displacements. *)
Definition fits_int8 (v : Z) : bool := (-128 <=? v)%Z && (v <=? 127)%Z.

(** ** General-purpose registers *)

Definition binary_emit_syscall : Emit () := u8_ 0x0F ;; u8_ 0x05.

Definition binary_emit_push_reg (reg : BinaryGpRegister) : Emit () :=
  (if (8 <=? reg)%Z then binary_emit_rex 0 0 0 1 else mret ()) ;; u8_ (0x50 + lo reg).

Definition binary_emit_pop_reg (reg : BinaryGpRegister) : Emit () :=
  (if (8 <=? reg)%Z then binary_emit_rex 0 0 0 1 else mret ()) ;; u8_ (0x58 + lo reg).

Definition binary_emit_mov_reg_reg (destination source : BinaryGpRegister) : Emit () :=
  if (destination =? source)%Z then mret ()
  else binary_emit_rex 1 (hi destination) 0 (hi source) ;; u8_ 0x8B ;;
       u8_ (modrm_reg destination source).

Definition binary_emit_mov_reg_reg32 (destination source : BinaryGpRegister) : Emit () :=
  if (destination =? source)%Z then mret ()
  else binary_emit_rex 0 (hi source) 0 (hi destination) ;; u8_ 0x89 ;;
       u8_ (modrm_reg source destination).

Definition binary_emit_mov_reg_imm32_zero_extend (destination : BinaryGpRegister)
    (immediate : Z) : Emit () :=
  binary_emit_rex 0 0 0 (hi destination) ;; u8_ (0xB8 + lo destination) ;; u32_ immediate.

Definition binary_emit_xor_reg_reg32 (reg : BinaryGpRegister) : Emit () :=
  binary_emit_rex 0 (hi reg) 0 (hi reg) ;; u8_ 0x31 ;; u8_ (modrm_reg reg reg).

(** The common end of the two functions that operate on an immediate. *)
Definition emit_alu_imm (subopcode : Z) (reg : BinaryGpRegister) (immediate : Z) : Emit () :=
  let signed_immediate := s32 immediate in
  if fits_int8 signed_immediate then
    binary_emit_rex 1 0 0 (hi reg) ;; u8_ 0x83 ;; u8_ (modrm_reg subopcode reg) ;;
    u8_ signed_immediate
  else
    binary_emit_rex 1 0 0 (hi reg) ;; u8_ 0x81 ;; u8_ (modrm_reg subopcode reg) ;;
    u32_ immediate.

Definition binary_emit_alu_rsp_imm32 (subopcode immediate : Z) : Emit () :=
  if (immediate =? 0)%Z then mret () else emit_alu_imm subopcode BINARY_GP_RSP immediate.

Definition binary_emit_sub_rsp_imm32 (immediate : Z) : Emit () :=
  binary_emit_alu_rsp_imm32 5 immediate.
Definition binary_emit_add_rsp_imm32 (immediate : Z) : Emit () :=
  binary_emit_alu_rsp_imm32 0 immediate.

Definition UINT32_MAX : Z := 0xFFFFFFFF.

Definition binary_emit_alu_reg_imm32 (subopcode : Z) (reg : BinaryGpRegister) (immediate : Z)
    : Emit () :=
  if ((subopcode =? 0) || (subopcode =? 1) || (subopcode =? 5) || (subopcode =? 6))%Z
     && (immediate =? 0)%Z then mret ()
  else if (subopcode =? 4)%Z && (immediate =? UINT32_MAX)%Z then mret ()
  else emit_alu_imm subopcode reg immediate.

Definition binary_emit_add_reg_imm32 := binary_emit_alu_reg_imm32 0.
Definition binary_emit_sub_reg_imm32 := binary_emit_alu_reg_imm32 5.
Definition binary_emit_and_reg_imm32 := binary_emit_alu_reg_imm32 4.
Definition binary_emit_or_reg_imm32 := binary_emit_alu_reg_imm32 1.
Definition binary_emit_xor_reg_imm32 := binary_emit_alu_reg_imm32 6.

Definition binary_emit_test_reg_reg (reg : BinaryGpRegister) : Emit () :=
  binary_emit_rex 1 (hi reg) 0 (hi reg) ;; u8_ 0x85 ;; u8_ (modrm_reg reg reg).

Definition binary_emit_cmp_reg_imm32 (reg : BinaryGpRegister) (immediate : Z) : Emit () :=
  if (immediate =? 0)%Z then binary_emit_test_reg_reg reg
  else binary_emit_alu_reg_imm32 7 reg immediate.

Definition binary_emit_mov_reg_imm64 (destination : BinaryGpRegister) (immediate : Z) : Emit () :=
  if (immediate =? 0)%Z then binary_emit_mov_reg_imm32_zero_extend destination 0
  else if (immediate <=? UINT32_MAX)%Z then
    binary_emit_mov_reg_imm32_zero_extend destination (u32 immediate)
  else if (0xffffffff80000000 <=? immediate)%Z then
    binary_emit_rex 1 0 0 (hi destination) ;; u8_ 0xC7 ;;
    u8_ (Z.lor 0xC0 (lo destination)) ;; u32_ (u32 (s32 immediate))
  else
    binary_emit_rex 1 0 0 (hi destination) ;; u8_ (0xB8 + lo destination) ;;
    binary_code_buffer_append_u64 immediate.

(** ** Memory operands *)

Definition binary_emit_memory_access_ex_internal (operand_size_prefix : bool) (rex_w : Z)
    (opcode1 : Z) (opcode2 : option Z) (reg base : BinaryGpRegister) (displacement : Z)
    (force_rex : bool) : Emit () :=
  let use_disp8 := fits_int8 displacement in
  let md := if use_disp8 then 1%Z else 2%Z in
  let rm := lo base in
  let modrm := Z.lor (Z.lor (Z.shiftl md 6) (Z.shiftl (lo reg) 3))
                 (if (rm =? lo BINARY_GP_RSP)%Z then 4 else rm) in
  (if operand_size_prefix then u8_ 0x66 else mret ()) ;;
  binary_emit_rex_maybe_forced rex_w (hi reg) 0 (hi base) force_rex ;;
  u8_ opcode1 ;;
  match opcode2 with Some o => u8_ o | None => mret () end ;;
  u8_ modrm ;;
  (if (rm =? lo BINARY_GP_RSP)%Z then u8_ (Z.lor (Z.shiftl 4 3) (lo base)) else mret ()) ;;
  if use_disp8 then u8_ displacement else u32_ displacement.

Definition binary_emit_memory_access_ex (operand_size_prefix : bool) (rex_w opcode1 : Z)
    (opcode2 : option Z) (reg base : BinaryGpRegister) (displacement : Z) : Emit () :=
  binary_emit_memory_access_ex_internal operand_size_prefix rex_w opcode1 opcode2 reg base
    displacement false.

Definition binary_emit_memory_access (opcode : Z) (reg base : BinaryGpRegister)
    (displacement : Z) : Emit () :=
  binary_emit_memory_access_ex false 1 opcode None reg base displacement.

Definition binary_emit_mov_reg_mem (destination base : BinaryGpRegister) (displacement : Z)
    : Emit () := binary_emit_memory_access 0x8B destination base displacement.
Definition binary_emit_mov_mem_reg (base : BinaryGpRegister) (displacement : Z)
    (source : BinaryGpRegister) : Emit () :=
  binary_emit_memory_access 0x89 source base displacement.
Definition binary_emit_movzx_reg_mem8 (destination base : BinaryGpRegister) (displacement : Z)
    : Emit () :=
  binary_emit_memory_access_ex false 0 0x0F (Some 0xB6%Z) destination base displacement.
Definition binary_emit_movzx_reg_mem16 (destination base : BinaryGpRegister) (displacement : Z)
    : Emit () :=
  binary_emit_memory_access_ex false 0 0x0F (Some 0xB7%Z) destination base displacement.
Definition binary_emit_mov_reg_mem32 (destination base : BinaryGpRegister) (displacement : Z)
    : Emit () := binary_emit_memory_access_ex false 0 0x8B None destination base displacement.

(** [source >= BINARY_GP_RSP && source <= BINARY_GP_RDI]. *)
Definition needs_byte_rex (source : BinaryGpRegister) : bool := (4 <=? source)%Z && (source <=? 7)%Z.

Definition binary_emit_mov_mem_reg8 (base : BinaryGpRegister) (displacement : Z)
    (source : BinaryGpRegister) : Emit () :=
  binary_emit_memory_access_ex_internal false 0 0x88 None source base displacement
    (needs_byte_rex source).
Definition binary_emit_mov_mem_reg16 (base : BinaryGpRegister) (displacement : Z)
    (source : BinaryGpRegister) : Emit () :=
  binary_emit_memory_access_ex true 0 0x89 None source base displacement.
Definition binary_emit_mov_mem_reg32 (base : BinaryGpRegister) (displacement : Z)
    (source : BinaryGpRegister) : Emit () :=
  binary_emit_memory_access_ex false 0 0x89 None source base displacement.
Definition binary_emit_lea_reg_mem (destination base : BinaryGpRegister) (displacement : Z)
    : Emit () := binary_emit_memory_access 0x8D destination base displacement.

Definition scale_bits (scale : Z) : option Z :=
  if (scale =? 1)%Z then Some 0%Z else if (scale =? 2)%Z then Some 1%Z
  else if (scale =? 4)%Z then Some 2%Z else if (scale =? 8)%Z then Some 3%Z else None.

Definition binary_emit_lea_reg_base_index_scale_disp
    (destination base index : BinaryGpRegister) (scale displacement : Z) : Emit () :=
  if (index =? BINARY_GP_RSP)%Z then refuse
  else match scale_bits scale with
  | None => refuse
  | Some ss =>
      let md := if (displacement =? 0)%Z && negb (lo base =? lo BINARY_GP_RBP)%Z then 0%Z
                else if fits_int8 displacement then 1%Z else 2%Z in
      binary_emit_rex 1 (hi destination) (hi index) (hi base) ;;
      u8_ 0x8D ;;
      u8_ (Z.lor (Z.lor (Z.shiftl md 6) (Z.shiftl (lo destination) 3)) 4) ;;
      u8_ (Z.lor (Z.lor (Z.shiftl ss 6) (Z.shiftl (lo index) 3)) (lo base)) ;;
      if (md =? 1)%Z then u8_ displacement
      else if (md =? 2)%Z then u32_ displacement
      else mret ()
  end.

Definition binary_emit_lea_reg_reg (destination lhs rhs : BinaryGpRegister) : Emit () :=
  if negb (rhs =? BINARY_GP_RSP)%Z then
    binary_emit_lea_reg_base_index_scale_disp destination lhs rhs 1 0
  else if negb (lhs =? BINARY_GP_RSP)%Z then
    binary_emit_lea_reg_base_index_scale_disp destination rhs lhs 1 0
  else refuse.

(** The offset of the displacement, for a later patch or relocation. *)
Definition emit_placeholder : Emit nat :=
  displacement_offset ← buffer_size; u32_ 0 ;; mret displacement_offset.

Definition binary_emit_lea_reg_rip_placeholder (destination : BinaryGpRegister) : Emit nat :=
  binary_emit_rex 1 (hi destination) 0 0 ;; u8_ 0x8D ;;
  u8_ (Z.lor 0x05 (Z.shiftl (lo destination) 3)) ;; emit_placeholder.

Definition binary_emit_rip_relative_access_ex_internal (operand_size_prefix : bool) (rex_w : Z)
    (opcode1 : Z) (opcode2 : option Z) (reg : BinaryGpRegister) (force_rex : bool) : Emit nat :=
  (if operand_size_prefix then u8_ 0x66 else mret ()) ;;
  binary_emit_rex_maybe_forced rex_w (hi reg) 0 0 force_rex ;;
  u8_ opcode1 ;;
  match opcode2 with Some o => u8_ o | None => mret () end ;;
  u8_ (Z.lor 0x05 (Z.shiftl (lo reg) 3)) ;; emit_placeholder.

Definition binary_emit_rip_relative_access_ex (operand_size_prefix : bool) (rex_w opcode1 : Z)
    (opcode2 : option Z) (reg : BinaryGpRegister) : Emit nat :=
  binary_emit_rip_relative_access_ex_internal operand_size_prefix rex_w opcode1 opcode2 reg false.

Definition binary_emit_mov_reg_rip_mem (destination : BinaryGpRegister) : Emit nat :=
  binary_emit_rip_relative_access_ex false 1 0x8B None destination.
Definition binary_emit_mov_reg32_rip_mem (destination : BinaryGpRegister) : Emit nat :=
  binary_emit_rip_relative_access_ex false 0 0x8B None destination.
Definition binary_emit_mov_mem_rip_reg8 (source : BinaryGpRegister) : Emit nat :=
  binary_emit_rip_relative_access_ex_internal false 0 0x88 None source (needs_byte_rex source).
Definition binary_emit_mov_mem_rip_reg16 (source : BinaryGpRegister) : Emit nat :=
  binary_emit_rip_relative_access_ex true 0 0x89 None source.
Definition binary_emit_mov_mem_rip_reg32 (source : BinaryGpRegister) : Emit nat :=
  binary_emit_rip_relative_access_ex false 0 0x89 None source.
Definition binary_emit_mov_mem_rip_reg (source : BinaryGpRegister) : Emit nat :=
  binary_emit_rip_relative_access_ex false 1 0x89 None source.
Definition binary_emit_movzx_reg_rip_mem8 (destination : BinaryGpRegister) : Emit nat :=
  binary_emit_rip_relative_access_ex false 0 0x0F (Some 0xB6%Z) destination.
Definition binary_emit_movzx_reg_rip_mem16 (destination : BinaryGpRegister) : Emit nat :=
  binary_emit_rip_relative_access_ex false 0 0x0F (Some 0xB7%Z) destination.

(** ** Arithmetic *)

Definition binary_emit_test_reg_imm32 (reg : BinaryGpRegister) (immediate : Z) : Emit () :=
  binary_emit_rex 1 0 0 (hi reg) ;; u8_ 0xF7 ;; u8_ (Z.lor 0xC0 (lo reg)) ;; u32_ immediate.

Definition binary_emit_cmp_reg_reg (lhs rhs : BinaryGpRegister) : Emit () :=
  binary_emit_rex 1 (hi rhs) 0 (hi lhs) ;; u8_ 0x39 ;; u8_ (modrm_reg rhs lhs).
Definition binary_emit_cmp_reg_reg32 (lhs rhs : BinaryGpRegister) : Emit () :=
  binary_emit_rex 0 (hi rhs) 0 (hi lhs) ;; u8_ 0x39 ;; u8_ (modrm_reg rhs lhs).

Definition binary_emit_cmovcc_reg_reg (opcode : Z) (destination source : BinaryGpRegister)
    : Emit () :=
  if (opcode <? 0x40)%Z || (0x4F <? opcode)%Z then refuse
  else binary_emit_rex 1 (hi destination) 0 (hi source) ;; u8_ 0x0F ;; u8_ opcode ;;
       u8_ (modrm_reg destination source).

Definition binary_emit_alu_reg_reg (opcode : Z) (destination source : BinaryGpRegister)
    : Emit () :=
  binary_emit_rex 1 (hi source) 0 (hi destination) ;; u8_ opcode ;;
  u8_ (modrm_reg source destination).

Definition binary_emit_imul_reg_reg (destination source : BinaryGpRegister) : Emit () :=
  binary_emit_rex 1 (hi destination) 0 (hi source) ;; u8_ 0x0F ;; u8_ 0xAF ;;
  u8_ (modrm_reg destination source).

Definition binary_emit_unary_reg (subopcode : Z) (reg : BinaryGpRegister) : Emit () :=
  binary_emit_rex 1 0 0 (hi reg) ;; u8_ 0xF7 ;; u8_ (modrm_reg subopcode reg).
Definition binary_emit_neg_reg := binary_emit_unary_reg 3.
Definition binary_emit_not_reg := binary_emit_unary_reg 2.
Definition binary_emit_idiv_reg := binary_emit_unary_reg 7.

Definition binary_emit_shift_reg_cl (subopcode : Z) (reg : BinaryGpRegister) : Emit () :=
  binary_emit_rex 1 0 0 (hi reg) ;; u8_ 0xD3 ;; u8_ (modrm_reg subopcode reg).

Definition binary_emit_shift_reg_imm8 (subopcode : Z) (reg : BinaryGpRegister) (immediate : Z)
    : Emit () :=
  if (immediate =? 0)%Z then mret ()
  else if (immediate =? 1)%Z then
    binary_emit_rex 1 0 0 (hi reg) ;; u8_ 0xD1 ;; u8_ (modrm_reg subopcode reg)
  else
    binary_emit_rex 1 0 0 (hi reg) ;; u8_ 0xC1 ;; u8_ (modrm_reg subopcode reg) ;; u8_ immediate.

Definition binary_immediate_positive_power_of_two_i32 (v : Z) : option Z :=
  if (v <=? 0)%Z || negb (Z.land v (v - 1) =? 0)%Z then None
  else Some (shift_amount 32 v 0).

Definition INT32_MIN : Z := -2147483648.

Definition binary_emit_imul_reg_reg_small_imm (destination source : BinaryGpRegister)
    (immediate : Z) : Emit () :=
  if (immediate <? 0)%Z && (immediate =? INT32_MIN)%Z then refuse
  else
    let negate := (immediate <? 0)%Z in
    let immediate := if negate then (- immediate)%Z else immediate in
    let scale := if (immediate =? 3)%Z then Some 2%Z
                 else if (immediate =? 5)%Z then Some 4%Z
                 else if (immediate =? 9)%Z then Some 8%Z else None in
    match scale with
    | None => refuse
    | Some scale =>
        binary_emit_lea_reg_base_index_scale_disp destination source source scale 0 ;;
        if negate then binary_emit_neg_reg destination else mret ()
    end.

Definition emit_imul_imm (destination source : BinaryGpRegister) (immediate : Z) : Emit () :=
  let signed_immediate := s32 immediate in
  let short := fits_int8 signed_immediate in
  binary_emit_rex 1 (hi destination) 0 (hi source) ;;
  u8_ (if short then 0x6B else 0x69) ;;
  u8_ (modrm_reg destination source) ;;
  if short then u8_ signed_immediate else u32_ immediate.

Definition binary_emit_imul_reg_reg_imm32 (destination source : BinaryGpRegister)
    (immediate : Z) : Emit () :=
  let v := s32 immediate in
  if (v =? 0)%Z then binary_emit_xor_reg_reg32 destination
  else if (v =? 1)%Z then binary_emit_mov_reg_reg destination source
  else if (v =? -1)%Z then
    binary_emit_mov_reg_reg destination source ;; binary_emit_neg_reg destination
  else match binary_immediate_positive_power_of_two_i32 v with
  | Some shift =>
      binary_emit_mov_reg_reg destination source ;;
      binary_emit_shift_reg_imm8 4 destination shift
  | None =>
      match (if (v =? INT32_MIN)%Z then None
             else binary_immediate_positive_power_of_two_i32 (- v)) with
      | Some shift =>
          binary_emit_mov_reg_reg destination source ;;
          binary_emit_shift_reg_imm8 4 destination shift ;;
          binary_emit_neg_reg destination
      | None =>
          emit_or (binary_emit_imul_reg_reg_small_imm destination source v)
            (emit_imul_imm destination source immediate)
      end
  end.

Definition binary_emit_cqo : Emit () := binary_emit_rex 1 0 0 0 ;; u8_ 0x99.

(** ** Bytes, words and conditions *)

Definition binary_emit_setcc_al (condition_opcode : Z) : Emit () :=
  u8_ 0x0F ;; u8_ condition_opcode ;; u8_ 0xC0.
Definition binary_emit_movzx_eax_al : Emit () := u8_ 0x0F ;; u8_ 0xB6 ;; u8_ 0xC0.
Definition binary_emit_movzx_eax_ax : Emit () := u8_ 0x0F ;; u8_ 0xB7 ;; u8_ 0xC0.
Definition binary_emit_movsx_rax_al : Emit () :=
  binary_emit_rex 1 0 0 0 ;; u8_ 0x0F ;; u8_ 0xBE ;; u8_ 0xC0.
Definition binary_emit_movsx_rax_ax : Emit () :=
  binary_emit_rex 1 0 0 0 ;; u8_ 0x0F ;; u8_ 0xBF ;; u8_ 0xC0.
Definition binary_emit_movsx_reg_reg8 (destination source : BinaryGpRegister) : Emit () :=
  binary_emit_rex 1 (hi destination) 0 (hi source) ;; u8_ 0x0F ;; u8_ 0xBE ;;
  u8_ (modrm_reg destination source).
Definition binary_emit_movsx_reg_reg16 (destination source : BinaryGpRegister) : Emit () :=
  binary_emit_rex 1 (hi destination) 0 (hi source) ;; u8_ 0x0F ;; u8_ 0xBF ;;
  u8_ (modrm_reg destination source).
Definition binary_emit_movsxd_rax_eax : Emit () :=
  binary_emit_rex 1 0 0 0 ;; u8_ 0x63 ;; u8_ 0xC0.
Definition binary_emit_movsxd_reg_reg32 (destination source : BinaryGpRegister) : Emit () :=
  binary_emit_rex 1 (hi destination) 0 (hi source) ;; u8_ 0x63 ;;
  u8_ (modrm_reg destination source).
Definition binary_emit_mov_eax_eax : Emit () := u8_ 0x89 ;; u8_ 0xC0.

Definition binary_emit_setcc_reg8 (condition_opcode : Z) (reg : BinaryGpRegister) : Emit () :=
  if (4 <=? reg)%Z then refuse
  else u8_ 0x0F ;; u8_ condition_opcode ;; u8_ (Z.lor 0xC0 (lo reg)).

Definition binary_emit_alu_reg8_reg8 (opcode : Z) (destination source : BinaryGpRegister)
    : Emit () :=
  if (4 <=? destination)%Z || (4 <=? source)%Z then refuse
  else u8_ opcode ;; u8_ (modrm_reg source destination).

(** ** Floating point *)

Definition binary_emit_sse_reg_reg (mandatory_prefix rex_w opcode1 opcode2 : Z)
    (destination source : BinaryXmmRegister) : Emit () :=
  u8_ mandatory_prefix ;; binary_emit_rex rex_w (hi destination) 0 (hi source) ;;
  u8_ opcode1 ;; u8_ opcode2 ;; u8_ (modrm_reg destination source).

(** A move or a conversion between the two classes of registers: the register that
    [reg] names in the ModRM byte and the one [rm] names. *)
Definition emit_cross (prefix rex_w opcode reg rm : Z) : Emit () :=
  u8_ prefix ;; binary_emit_rex rex_w (hi reg) 0 (hi rm) ;; u8_ 0x0F ;; u8_ opcode ;;
  u8_ (modrm_reg reg rm).

Definition binary_emit_movq_xmm_reg (destination : BinaryXmmRegister) (source : BinaryGpRegister)
    : Emit () := emit_cross 0x66 1 0x6E destination source.
Definition binary_emit_movq_reg_xmm (destination : BinaryGpRegister) (source : BinaryXmmRegister)
    : Emit () := emit_cross 0x66 1 0x7E source destination.
Definition binary_emit_pxor_xmm_xmm := binary_emit_sse_reg_reg 0x66 0 0x0F 0xEF.
Definition binary_emit_addsd_xmm_xmm := binary_emit_sse_reg_reg 0xF2 0 0x0F 0x58.
Definition binary_emit_subsd_xmm_xmm := binary_emit_sse_reg_reg 0xF2 0 0x0F 0x5C.
Definition binary_emit_mulsd_xmm_xmm := binary_emit_sse_reg_reg 0xF2 0 0x0F 0x59.
Definition binary_emit_divsd_xmm_xmm := binary_emit_sse_reg_reg 0xF2 0 0x0F 0x5E.
Definition binary_emit_ucomisd_xmm_xmm := binary_emit_sse_reg_reg 0x66 0 0x0F 0x2E.
Definition binary_emit_cvttsd2si_reg_xmm (destination : BinaryGpRegister)
    (source : BinaryXmmRegister) : Emit () := emit_cross 0xF2 1 0x2C destination source.
Definition binary_emit_cvtsi2sd_xmm_reg (destination : BinaryXmmRegister)
    (source : BinaryGpRegister) : Emit () := emit_cross 0xF2 1 0x2A destination source.
Definition binary_emit_movd_xmm_reg (destination : BinaryXmmRegister) (source : BinaryGpRegister)
    : Emit () := emit_cross 0x66 0 0x6E destination source.
Definition binary_emit_movd_reg_xmm (destination : BinaryGpRegister) (source : BinaryXmmRegister)
    : Emit () := emit_cross 0x66 0 0x7E source destination.
Definition binary_emit_addss_xmm_xmm := binary_emit_sse_reg_reg 0xF3 0 0x0F 0x58.
Definition binary_emit_subss_xmm_xmm := binary_emit_sse_reg_reg 0xF3 0 0x0F 0x5C.
Definition binary_emit_mulss_xmm_xmm := binary_emit_sse_reg_reg 0xF3 0 0x0F 0x59.
Definition binary_emit_divss_xmm_xmm := binary_emit_sse_reg_reg 0xF3 0 0x0F 0x5E.
Definition binary_emit_ucomiss_xmm_xmm (lhs rhs : BinaryXmmRegister) : Emit () :=
  binary_emit_rex 0 (hi lhs) 0 (hi rhs) ;; u8_ 0x0F ;; u8_ 0x2E ;; u8_ (modrm_reg lhs rhs).
Definition binary_emit_cvttss2si_reg_xmm (destination : BinaryGpRegister)
    (source : BinaryXmmRegister) : Emit () := emit_cross 0xF3 1 0x2C destination source.
Definition binary_emit_cvtsi2ss_xmm_reg (destination : BinaryXmmRegister)
    (source : BinaryGpRegister) : Emit () := emit_cross 0xF3 1 0x2A destination source.
Definition binary_emit_cvtss2sd_xmm_xmm := binary_emit_sse_reg_reg 0xF3 0 0x0F 0x5A.
Definition binary_emit_cvtsd2ss_xmm_xmm := binary_emit_sse_reg_reg 0xF2 0 0x0F 0x5A.

(** ** Control flow *)

Definition binary_emit_call_placeholder : Emit nat := u8_ 0xE8 ;; emit_placeholder.
Definition binary_emit_call_reg (reg : BinaryGpRegister) : Emit () :=
  (if (8 <=? reg)%Z then binary_emit_rex 0 0 0 1 else mret ()) ;;
  u8_ 0xFF ;; u8_ (Z.lor 0xD0 (lo reg)).
Definition binary_emit_jmp_placeholder : Emit nat := u8_ 0xE9 ;; emit_placeholder.
Definition binary_emit_jcc_placeholder (condition_opcode : Z) : Emit nat :=
  u8_ 0x0F ;; u8_ condition_opcode ;; emit_placeholder.
Definition binary_emit_je_placeholder : Emit nat := binary_emit_jcc_placeholder 0x84.
Definition binary_emit_ret : Emit () := u8_ 0xC3.

(** [memcpy (data + offset, bytes, length bytes)] inside the buffer. *)
Definition overwrite (offset : nat) (bytes : list byte) (data : list byte) : list byte :=
  take offset data ++ bytes ++ drop (offset + length bytes) data.

Definition INT32_MAX : Z := 2147483647.

Definition binary_function_context_patch_rel32 (displacement_offset target_offset : nat)
    : Emit () := λ code,
  if length code <? displacement_offset + 4 then (None, code)
  else
    let delta := (Z.of_nat target_offset - Z.of_nat (displacement_offset + 4))%Z in
    if (delta <? INT32_MIN)%Z || (INT32_MAX <? delta)%Z then (None, code)
    else (Some (), overwrite displacement_offset (le_split 4 delta) code).
