(* ===== verification/X86.v ===== *)
(** * The x86-64 instructions the compiler emits

    The reference against which the encoders are proved: the instruction format of
    the processor's manual (prefixes, REX, opcode, ModRM, SIB, displacement,
    immediate) as a decoder, and what the integer instructions do to the registers,
    the flags and the memory. *)

From S2P Require Import Prelude.

(** ** Instructions *)

Inductive width : Type := W8 | W16 | W32 | W64.

(** A register is its number; [High r] is AH, CH, DH or BH. *)
Inductive operand : Type :=
  | Reg (r : Z)
  | High (r : Z)
  | Mem (base : option Z) (index : option (Z * Z)) (displacement : Z)
  | Rip (displacement : Z).

Inductive alu : Type := ADD | OR | ADC | SBB | AND | SUB | XOR | CMP.
Inductive unary : Type := NOT | NEG | MUL | IMUL1 | DIV | IDIV.
Inductive shift : Type := SHL | SHR | SAR.
Inductive count : Type := By_cl | By (n : Z).
Inductive precision : Type := Single | Double.
Inductive farith : Type := FADD | FMUL | FSUB | FDIV.

(** Condition codes: the low four bits of the opcodes of jcc, setcc and cmovcc. *)
Inductive instr : Type :=
  | PUSH (r : Z) | POP (r : Z)
  | MOV (w : width) (dst src : operand)
  | MOVI (w : width) (r : Z) (imm : Z)
  | MOVIS (w : width) (dst : operand) (imm : Z)
  | MOVZX (from : width) (w : width) (r : Z) (src : operand)
  | MOVSX (from : width) (w : width) (r : Z) (src : operand)
  | LEA (w : width) (r : Z) (src : operand)
  | ALU (op : alu) (w : width) (dst src : operand)
  | ALUI (op : alu) (w : width) (dst : operand) (imm : Z)
  | TEST (w : width) (a b : operand)
  | TESTI (w : width) (a : operand) (imm : Z)
  | UNARY (op : unary) (w : width) (dst : operand)
  | IMUL (w : width) (r : Z) (src : operand)
  | IMULI (w : width) (r : Z) (src : operand) (imm : Z)
  | SHIFT (op : shift) (w : width) (dst : operand) (c : count)
  | CQO
  | SETCC (cc : Z) (dst : operand)
  | CMOV (cc : Z) (w : width) (r : Z) (src : operand)
  | CALL (rel : Z) | CALLR (target : operand) | JMP (rel : Z) | JCC (cc rel : Z)
  | RET | SYSCALL
  | PXOR (x : Z) (src : operand)
  | FARITH (op : farith) (p : precision) (x : Z) (src : operand)
  | UCOMI (p : precision) (x : Z) (src : operand)
  | MOV_TO_X (w : width) (x : Z) (src : operand)
  | MOV_FROM_X (w : width) (dst : operand) (x : Z)
  | CVT_TO_INT (p : precision) (w : width) (r : Z) (src : operand)
  | CVT_OF_INT (p : precision) (w : width) (x : Z) (src : operand)
  | CVT_TO_DOUBLE (x : Z) (src : operand)
  | CVT_TO_SINGLE (x : Z) (src : operand).

(** ** Decoding *)

Record Rex : Type := mkRex { rex_present : bool; rex_w : bool; rex_r : bool; rex_x : bool; rex_b : bool }.

Definition no_rex : Rex := mkRex false false false false false.

Definition parse_rex (b : Z) : Rex :=
  mkRex true (Z.testbit b 3) (Z.testbit b 2) (Z.testbit b 1) (Z.testbit b 0).

(** A register field extended by its bit of the REX prefix. *)
Definition extend (high : bool) (field : Z) : Z := if high then (8 + field)%Z else field.

(** An integer register of a given width: without REX, the byte registers 4 to 7
    are the second bytes of the first four. *)
Definition gp (rex : Rex) (w : width) (r : Z) : operand :=
  match w with
  | W8 => if negb (rex_present rex) && (4 <=? r)%Z then High (r - 4) else Reg r
  | _ => Reg r
  end.

Section parsing.
Context {A : Type}.

Definition signed_field (n : nat) (k : Z → list byte → option A) (code : list byte) : option A :=
  if n <=? length code
  then k (wrap_s (8 * Z.of_nat n) (le_combine (take n code))) (drop n code) else None.

Definition byte_field (k : Z → list byte → option A) (code : list byte) : option A :=
  match code with b :: code => k (byte.unsigned b) code | [] => None end.

(** The displacement that a ModRM byte with mode [md] announces. *)
Definition displacement (md : Z) (k : Z → list byte → option A) (code : list byte) : option A :=
  if (md =? 1)%Z then signed_field 1 k code
  else if (md =? 2)%Z then signed_field 4 k code
  else k 0%Z code.

(** The register field and the other operand of a ModRM byte; [w] is the width of
    a register in its place. *)
Definition modrm (rex : Rex) (w : width) (k : Z → operand → list byte → option A)
    (code : list byte) : option A :=
  byte_field (fun m =>
    let md := Z.shiftr m 6 in
    let reg := extend (rex_r rex) (Z.land (Z.shiftr m 3) 7) in
    let rm := Z.land m 7 in
    if (md =? 3)%Z then k reg (gp rex w (extend (rex_b rex) rm))
    else if (rm =? 4)%Z then
      byte_field (fun s =>
        let index := extend (rex_x rex) (Z.land (Z.shiftr s 3) 7) in
        let index := if (index =? 4)%Z then None else Some (index, 2 ^ Z.shiftr s 6)%Z in
        if (Z.land s 7 =? 5)%Z && (md =? 0)%Z
        then signed_field 4 (fun d => k reg (Mem None index d))
        else displacement md (fun d => k reg (Mem (Some (extend (rex_b rex) (Z.land s 7))) index d)))
    else if (rm =? 5)%Z && (md =? 0)%Z then signed_field 4 (fun d => k reg (Rip d))
    else displacement md (fun d => k reg (Mem (Some (extend (rex_b rex) rm)) None d))) code.

End parsing.

Definition alu_of (n : Z) : alu :=
  match n with 0 => ADD | 1 => OR | 2 => ADC | 3 => SBB | 4 => AND | 5 => SUB | 6 => XOR | _ => CMP end%Z.

Definition unary_of (n : Z) : option unary :=
  match n with
  | 2 => Some NOT | 3 => Some NEG | 4 => Some MUL | 5 => Some IMUL1 | 6 => Some DIV | 7 => Some IDIV
  | _ => None
  end%Z.

Definition shift_of (n : Z) : option shift :=
  match n with 4 => Some SHL | 5 => Some SHR | 7 => Some SAR | _ => None end%Z.

Definition farith_of (n : Z) : option farith :=
  match n with 0x58 => Some FADD | 0x59 => Some FMUL | 0x5C => Some FSUB | 0x5E => Some FDIV | _ => None end%Z.

Definition done {A} (i : A) (code : list byte) : option (A * list byte) := Some (i, code).

(** The width of an integer operation: REX.W, or the prefix 0x66. *)
Definition operand_width (prefix : Z) (rex : Rex) : width :=
  if rex_w rex then W64 else if (prefix =? 0x66)%Z then W16 else W32.

(** Opcodes after 0x0F. *)
Definition decode_0f (prefix : Z) (rex : Rex) (op : Z) : list byte → option (instr * list byte) :=
  let w := operand_width prefix rex in
  let wx := if rex_w rex then W64 else W32 in
  let xmm k := modrm rex W64 k in
  if (op =? 0x05)%Z then done SYSCALL
  else if (0x40 <=? op)%Z && (op <=? 0x4F)%Z then
    modrm rex w (fun r m => done (CMOV (op - 0x40) w r m))
  else if (0x80 <=? op)%Z && (op <=? 0x8F)%Z then signed_field 4 (fun d => done (JCC (op - 0x80) d))
  else if (0x90 <=? op)%Z && (op <=? 0x9F)%Z then
    modrm rex W8 (fun _ m => done (SETCC (op - 0x90) m))
  else if (op =? 0xAF)%Z then modrm rex w (fun r m => done (IMUL w r m))
  else if (op =? 0xB6)%Z then modrm rex W8 (fun r m => done (MOVZX W8 w r m))
  else if (op =? 0xB7)%Z then modrm rex W16 (fun r m => done (MOVZX W16 w r m))
  else if (op =? 0xBE)%Z then modrm rex W8 (fun r m => done (MOVSX W8 w r m))
  else if (op =? 0xBF)%Z then modrm rex W16 (fun r m => done (MOVSX W16 w r m))
  else if (prefix =? 0x66)%Z && (op =? 0xEF)%Z then xmm (fun x m => done (PXOR x m))
  else if (prefix =? 0x66)%Z && (op =? 0x6E)%Z then xmm (fun x m => done (MOV_TO_X wx x m))
  else if (prefix =? 0x66)%Z && (op =? 0x7E)%Z then xmm (fun x m => done (MOV_FROM_X wx m x))
  else if (prefix =? 0x66)%Z && (op =? 0x2E)%Z then xmm (fun x m => done (UCOMI Double x m))
  else if (prefix =? 0)%Z && (op =? 0x2E)%Z then xmm (fun x m => done (UCOMI Single x m))
  else if (prefix =? 0xF2)%Z || (prefix =? 0xF3)%Z then
    let p := if (prefix =? 0xF2)%Z then Double else Single in
    match farith_of op with
    | Some f => xmm (fun x m => done (FARITH f p x m))
    | None =>
        if (op =? 0x2C)%Z then xmm (fun r m => done (CVT_TO_INT p wx r m))
        else if (op =? 0x2A)%Z then xmm (fun x m => done (CVT_OF_INT p wx x m))
        else if (op =? 0x5A)%Z then
          xmm (fun x m => done (match p with Single => CVT_TO_DOUBLE x m | Double => CVT_TO_SINGLE x m end))
        else fun _ => None
    end
  else fun _ => None.

Definition decode_op (prefix : Z) (rex : Rex) (op : Z) : list byte → option (instr * list byte) :=
  let w := operand_width prefix rex in
  let low r := extend (rex_b rex) (r - Z.land op 0xF8)%Z in
  if (op =? 0x0F)%Z then byte_field (decode_0f prefix rex)
  else if (op <? 0x40)%Z && (Z.land op 6 =? 0)%Z then
    let w := if Z.testbit op 0 then w else W8 in
    modrm rex w (fun r m => done (ALU (alu_of (Z.shiftr op 3)) w m (gp rex w r)))
  else if (0x50 <=? op)%Z && (op <=? 0x57)%Z then done (PUSH (low op))
  else if (0x58 <=? op)%Z && (op <=? 0x5F)%Z then done (POP (low op))
  else if (op =? 0x63)%Z then modrm rex W32 (fun r m => done (MOVSX W32 w r m))
  else if (op =? 0x69)%Z then modrm rex w (fun r m => signed_field 4 (fun i => done (IMULI w r m i)))
  else if (op =? 0x6B)%Z then modrm rex w (fun r m => signed_field 1 (fun i => done (IMULI w r m i)))
  else if (op =? 0x81)%Z then
    modrm rex w (fun r m => signed_field 4 (fun i => done (ALUI (alu_of (Z.land r 7)) w m i)))
  else if (op =? 0x83)%Z then
    modrm rex w (fun r m => signed_field 1 (fun i => done (ALUI (alu_of (Z.land r 7)) w m i)))
  else if (op =? 0x85)%Z then modrm rex w (fun r m => done (TEST w m (gp rex w r)))
  else if (op =? 0x88)%Z then modrm rex W8 (fun r m => done (MOV W8 m (gp rex W8 r)))
  else if (op =? 0x89)%Z then modrm rex w (fun r m => done (MOV w m (gp rex w r)))
  else if (op =? 0x8B)%Z then modrm rex w (fun r m => done (MOV w (gp rex w r) m))
  else if (op =? 0x8D)%Z then modrm rex w (fun r m => done (LEA w r m))
  else if (op =? 0x99)%Z then (if rex_w rex then done CQO else fun _ => None)
  else if (0xB8 <=? op)%Z && (op <=? 0xBF)%Z then
    (if rex_w rex then signed_field 8 (fun i => done (MOVI W64 (low op) i))
     else signed_field 4 (fun i => done (MOVI W32 (low op) i)))
  else if (op =? 0xC1)%Z then
    modrm rex w (fun r m => match shift_of (Z.land r 7) with
                          | Some s => byte_field (fun n => done (SHIFT s w m (By n)))
                          | None => fun _ => None end)
  else if (op =? 0xC3)%Z then done RET
  else if (op =? 0xC7)%Z then
    modrm rex w (fun r m => if (Z.land r 7 =? 0)%Z then signed_field 4 (fun i => done (MOVIS w m i))
                          else fun _ => None)
  else if (op =? 0xD1)%Z || (op =? 0xD3)%Z then
    modrm rex w (fun r m => match shift_of (Z.land r 7) with
                          | Some s => done (SHIFT s w m (if (op =? 0xD1)%Z then By 1 else By_cl))
                          | None => fun _ => None end)
  else if (op =? 0xE8)%Z then signed_field 4 (fun d => done (CALL d))
  else if (op =? 0xE9)%Z then signed_field 4 (fun d => done (JMP d))
  else if (op =? 0xF6)%Z then
    modrm rex W8 (fun r m => if (Z.land r 7 =? 0)%Z then signed_field 1 (fun i => done (TESTI W8 m i))
                           else fun _ => None)
  else if (op =? 0xF7)%Z then
    modrm rex w (fun r m =>
      if (Z.land r 7 =? 0)%Z then signed_field 4 (fun i => done (TESTI w m i))
      else match unary_of (Z.land r 7) with
           | Some u => done (UNARY u w m)
           | None => fun _ => None end)
  else if (op =? 0xFF)%Z then
    modrm rex W64 (fun r m => if (Z.land r 7 =? 2)%Z then done (CALLR m) else fun _ => None)
  else fun _ => None.

(** REX, then the opcode, then its operands. *)
Definition decode_rex_op (prefix : Z) : list byte → option (instr * list byte) :=
  byte_field (fun b =>
    if (0x40 <=? b)%Z && (b <=? 0x4F)%Z then byte_field (decode_op prefix (parse_rex b))
    else decode_op prefix no_rex b).

Definition is_prefix (b : Z) : bool := ((b =? 0x66) || (b =? 0xF2) || (b =? 0xF3))%Z.

(** At most one of the prefixes 0x66, 0xF2 and 0xF3. *)
Definition decode (code : list byte) : option (instr * list byte) :=
  match code with
  | [] => None
  | b :: rest =>
      if is_prefix (byte.unsigned b) then decode_rex_op (byte.unsigned b) rest
      else decode_rex_op 0 code
  end.

(** A sequence of at most [fuel] instructions that fills the code. *)
Fixpoint decode_all (fuel : nat) (code : list byte) : option (list instr) :=
  match code, fuel with
  | [], _ => Some []
  | _, O => None
  | _, S f => match decode code with
              | Some (i, rest) => cons i <$> decode_all f rest
              | None => None
              end
  end.

(** ** Execution *)

Record flags : Type := mkFlags { zero : bool; sign : bool; carry : bool; overflow : bool }.

(** Registers hold unsigned 64-bit values; [status] is [None] where the manual
    leaves a flag undefined. *)
Record machine : Type := mkMachine { regs : Z → Z; status : option flags; memory : Z → byte }.

Inductive result : Type := Next (m : machine) | Trap | Unmodelled.

Definition bits (w : width) : Z := match w with W8 => 8 | W16 => 16 | W32 => 32 | W64 => 64 end.
Definition size (w : width) : nat := match w with W8 => 1 | W16 => 2 | W32 => 4 | W64 => 8 end.

Definition set_regs (m : machine) (f : Z → Z) : machine := mkMachine f (status m) (memory m).
Definition set_status (m : machine) (s : option flags) : machine := mkMachine (regs m) s (memory m).
Definition set_memory (m : machine) (f : Z → byte) : machine := mkMachine (regs m) (status m) f.

Definition update (f : Z → Z) (r v : Z) : Z → Z := fun r' => if (r' =? r)%Z then v else f r'.

(** Writing 32 bits clears the upper half; writing fewer keeps the rest. *)
Definition set_reg (m : machine) (w : width) (r v : Z) : machine :=
  let v := wrap_u (bits w) v in
  set_regs m (update (regs m) r
    (match w with
     | W64 | W32 => v
     | W16 | W8 => regs m r - wrap_u (bits w) (regs m r) + v
     end)%Z).

Definition load (m : machine) (n : nat) (a : Z) : Z :=
  le_combine (map (fun i => memory m (u64 (a + Z.of_nat i))) (seq 0 n)).

Definition store (m : machine) (n : nat) (a v : Z) : machine :=
  set_memory m (fun a' =>
    let i := Z.to_nat (u64 (a' - a)) in
    default (memory m a') (le_split n v !! i)).

Definition effective (m : machine) (o : operand) : option Z :=
  match o with
  | Mem base index d =>
      Some (u64 (match base with Some b => regs m b | None => 0 end +
                 match index with Some (i, s) => regs m i * s | None => 0 end + d))
  | _ => None
  end%Z.

Definition get (m : machine) (w : width) (o : operand) : option Z :=
  match o with
  | Reg r => Some (wrap_u (bits w) (regs m r))
  | High r => Some (wrap_u 8 (Z.shiftr (regs m r) 8))
  | Mem _ _ _ => a ← effective m o; Some (load m (size w) a)
  | Rip _ => None
  end.

Definition put (m : machine) (w : width) (o : operand) (v : Z) : option machine :=
  match o with
  | Reg r => Some (set_reg m w r v)
  | Mem _ _ _ => a ← effective m o; Some (store m (size w) a v)
  | High _ | Rip _ => None
  end.

Definition logic_flags (w : width) (v : Z) : flags :=
  mkFlags (wrap_u (bits w) v =? 0)%Z (Z.testbit v (bits w - 1)) false false.

(** The value and the flags of an operation on unsigned values of width [w]. *)
Definition alu_value (op : alu) (w : width) (a b : Z) : option (Z * flags) :=
  let sum v unsigned :=
    (wrap_u (bits w) v,
     mkFlags (wrap_u (bits w) v =? 0)%Z (Z.testbit v (bits w - 1)) unsigned
       (negb (wrap_s (bits w) v =? match op with
                                   | ADD => wrap_s (bits w) a + wrap_s (bits w) b
                                   | _ => wrap_s (bits w) a - wrap_s (bits w) b
                                   end))%Z) in
  match op with
  | ADD => Some (sum (a + b) (2 ^ bits w <=? a + b))%Z
  | SUB | CMP => Some (sum (a - b) (a <? b))%Z
  | AND => Some (Z.land a b, logic_flags w (Z.land a b))
  | OR => Some (Z.lor a b, logic_flags w (Z.lor a b))
  | XOR => Some (Z.lxor a b, logic_flags w (Z.lxor a b))
  | ADC | SBB => None
  end.

Definition exec_alu (m : machine) (op : alu) (w : width) (dst : operand) (b : Z) : option machine :=
  a ← get m w dst; '(v, fl) ← alu_value op w a b;
  m' ← (match op with CMP => Some m | _ => put m w dst v end);
  Some (set_status m' (Some fl)).

(** The condition of a condition code; parity is not modelled. *)
Definition condition (cc : Z) (f : flags) : option bool :=
  match cc with
  | 0 => Some (overflow f) | 1 => Some (negb (overflow f)) | 2 => Some (carry f) | 3 => Some (negb (carry f))
  | 4 => Some (zero f) | 5 => Some (negb (zero f))
  | 6 => Some (carry f || zero f) | 7 => Some (negb (carry f || zero f))
  | 8 => Some (sign f) | 9 => Some (negb (sign f))
  | 12 => Some (xorb (sign f) (overflow f)) | 13 => Some (negb (xorb (sign f) (overflow f)))
  | 14 => Some (zero f || xorb (sign f) (overflow f)) | 15 => Some (negb (zero f || xorb (sign f) (overflow f)))
  | _ => None
  end%Z.

Definition shift_value (op : shift) (w : width) (a c : Z) : Z :=
  match op with
  | SHL => Z.shiftl a c
  | SHR => Z.shiftr a c
  | SAR => Z.shiftr (wrap_s (bits w) a) c
  end.

Definition RAX : Z := 0.
Definition RCX : Z := 1.
Definition RDX : Z := 2.
Definition RSP : Z := 4.

Definition exec_shift (m : machine) (op : shift) (w : width) (dst : operand) (c : count)
    : option machine :=
  a ← get m w dst;
  let n := Z.land (match c with By n => n | By_cl => regs m RCX end)
             (match w with W64 => 63 | _ => 31 end) in
  if (n =? 0)%Z then put m w dst a
  else m' ← put m w dst (shift_value op w a n); Some (set_status m' None).

(** [idiv] of the signed 128-bit value in RDX:RAX. *)
Definition exec_idiv (m : machine) (dst : operand) : result :=
  match get m W64 dst with
  | None => Unmodelled
  | Some b =>
      let n := (s64 (regs m RDX) * 2 ^ 64 + regs m RAX)%Z in
      let q := Z.quot n (s64 b) in
      if (s64 b =? 0)%Z || negb (s64 q =? q)%Z then Trap
      else Next (set_status (set_reg (set_reg m W64 RAX q) W64 RDX (Z.rem n (s64 b))) None)
  end.

Definition next (o : option machine) : result :=
  match o with Some m => Next m | None => Unmodelled end.

Definition exec (i : instr) (m : machine) : result :=
  match i with
  | PUSH r =>
      let sp := u64 (regs m RSP - 8) in
      Next (set_reg (store m 8 sp (regs m r)) W64 RSP sp)
  | POP r =>
      let v := load m 8 (regs m RSP) in
      Next (set_reg (set_reg m W64 RSP (regs m RSP + 8)) W64 r v)
  | MOV w dst src => next (v ← get m w src; put m w dst v)
  | MOVI w r imm => Next (set_reg m w r imm)
  | MOVIS w dst imm => next (put m w dst imm)
  | MOVZX from w r src => next (v ← get m from src; Some (set_reg m w r v))
  | MOVSX from w r src => next (v ← get m from src; Some (set_reg m w r (wrap_s (bits from) v)))
  | LEA w r src => next (a ← effective m src; Some (set_reg m w r a))
  | ALU op w dst src => next (b ← get m w src; exec_alu m op w dst b)
  | ALUI op w dst imm => next (exec_alu m op w dst (wrap_u (bits w) imm))
  | TEST w a b => next (x ← get m w a; y ← get m w b; Some (set_status m (Some (logic_flags w (Z.land x y)))))
  | TESTI w a imm =>
      next (x ← get m w a; Some (set_status m (Some (logic_flags w (Z.land x (wrap_u (bits w) imm))))))
  | UNARY NOT w dst => next (a ← get m w dst; put m w dst (-1 - a))
  | UNARY NEG w dst => next (a ← get m w dst; vf ← alu_value SUB w 0 a;
                             m' ← put m w dst (fst vf); Some (set_status m' (Some (snd vf))))
  | UNARY IDIV W64 dst => exec_idiv m dst
  | IMUL w r src => next (a ← get m w (Reg r); b ← get m w src; Some (set_status (set_reg m w r (a * b)) None))
  | IMULI w r src imm => next (a ← get m w src; Some (set_status (set_reg m w r (a * imm)) None))
  | SHIFT op w dst c => next (exec_shift m op w dst c)
  | CQO => Next (set_reg m W64 RDX (if (s64 (regs m RAX) <? 0)%Z then -1 else 0))
  | SETCC cc dst => next (f ← status m; b ← condition cc f; put m W8 dst (if b : bool then 1 else 0))
  | CMOV cc w r src =>
      next (f ← status m; b ← condition cc f; v ← get m w src;
            Some (if b : bool then set_reg m w r v else set_reg m w r (regs m r)))
  | _ => Unmodelled
  end%Z.

Fixpoint run (program : list instr) (m : machine) : result :=
  match program with
  | [] => Next m
  | i :: rest => match exec i m with Next m' => run rest m' | r => r end
  end.

Lemma run_app p1 p2 m :
  run (p1 ++ p2) m = match run p1 m with Next m' => run p2 m' | r => r end.
Proof. revert m. induction p1 as [|i p1 IH]; intros m; simpl; [done|]. by destruct (exec i m). Qed.
