(* ===== verification/EncoderFacts.v ===== *)
(** * What the encoders emit

    [asm e f is]: the function [e] appends bytes that decode to the instructions
    [is] and returns [f] of the size of the buffer.  One lemma per encoder, and the
    table of them all. *)

From S2P Require Import Prelude.
From S2P Require Import Encoders.
From S2P Require Import X86.

(** ** Emission *)

Definition emits {A} (e : Emit A) (f : nat → A) (bytes : list byte) : Prop :=
  ∀ buffer, e buffer = (Some (f (length buffer)), buffer ++ bytes).

Definition unit_result : nat → () := fun _ => ().

Lemma emits_ret {A} (a : A) : emits (mret a) (fun _ => a) [].
Proof. intros buffer. by rewrite app_nil_r. Qed.

Lemma emits_bytes bs : emits (binary_code_buffer_append_bytes bs) unit_result bs.
Proof. done. Qed.

Lemma emits_seq {A} (e1 : Emit ()) (e2 : Emit A) bs1 bs2 f :
  emits e1 unit_result bs1 → emits e2 f bs2 →
  emits (e1 ;; e2) (fun n => f (n + length bs1)) (bs1 ++ bs2).
Proof.
  intros H1 H2 buffer. unfold mbind, Emit_bind. rewrite H1, H2, length_app. by rewrite app_assoc.
Qed.

Lemma emits_seq_unit (e1 e2 : Emit ()) bs1 bs2 :
  emits e1 unit_result bs1 → emits e2 unit_result bs2 →
  emits (e1 ;; e2) unit_result (bs1 ++ bs2).
Proof. apply emits_seq. Qed.

Lemma emits_if (b : bool) v :
  emits (if b then binary_code_buffer_append_u8 v else mret ()) unit_result
    (if b then [byte.of_Z v] else []).
Proof. destruct b; [apply emits_bytes|apply emits_ret]. Qed.

Lemma emits_option (o : option Z) :
  emits (match o with Some v => binary_code_buffer_append_u8 v | None => mret () end) unit_result
    (match o with Some v => [byte.of_Z v] | None => [] end).
Proof. destruct o; [apply emits_bytes|apply emits_ret]. Qed.

Lemma emits_placeholder : emits emit_placeholder (fun n => n) (le_split 4 0).
Proof. done. Qed.

(** The bytes of a REX prefix. *)
Definition rex_code (w r x b : Z) (force : bool) : list byte :=
  if (rex_byte w r x b =? 0x40)%Z && negb force then [] else [byte.of_Z (rex_byte w r x b)].

Lemma emits_rex w r x b force :
  emits (binary_emit_rex_maybe_forced w r x b force) unit_result (rex_code w r x b force).
Proof. unfold binary_emit_rex_maybe_forced, rex_code. case_match; [apply emits_ret|done]. Qed.

(** The prefix as the decoder sees it. *)
Definition set (z : Z) : bool := negb (z =? 0)%Z.
Definition rex_of (w r x b : Z) (force : bool) : Rex :=
  mkRex (negb ((rex_byte w r x b =? 0x40)%Z && negb force)) (set w) (set r) (set x) (set b).

(** An opcode that is neither a prefix nor a REX byte. *)
Definition plain_opcode (op : Z) : bool :=
  (0 <=? op)%Z && (op <=? 255)%Z && negb (is_prefix op) && negb ((0x40 <=? op)%Z && (op <=? 0x4F)%Z).

Lemma unsigned_of_Z op : (0 <= op < 256)%Z → byte.unsigned (byte.of_Z op) = op.
Proof. intros H. rewrite byte.unsigned_of_Z. unfold byte.wrap. apply Z.mod_small. done. Qed.

Lemma plain_opcode_range op : plain_opcode op = true → (0 <= op < 256)%Z.
Proof. unfold plain_opcode. intros H. apply andb_true_iff in H as [H _]. apply andb_true_iff in H as [H _]. lia. Qed.

Lemma rex_byte_parse w r x b :
  let v := rex_byte w r x b in
  (0x40 <= v <= 0x4F)%Z ∧ parse_rex v = mkRex true (set w) (set r) (set x) (set b).
Proof.
  unfold rex_byte, set.
  destruct (w =? 0)%Z, (r =? 0)%Z, (x =? 0)%Z, (b =? 0)%Z; (split; [split; by vm_compute|done]).
Qed.

Lemma rex_byte_none w r x b :
  rex_byte w r x b = 0x40%Z → set w = false ∧ set r = false ∧ set x = false ∧ set b = false.
Proof.
  unfold rex_byte, set. by destruct (w =? 0)%Z, (r =? 0)%Z, (x =? 0)%Z, (b =? 0)%Z; cbn.
Qed.

Lemma decode_rex_op_code prefix w r x b force op rest :
  plain_opcode op = true →
  decode_rex_op prefix (rex_code w r x b force ++ byte.of_Z op :: rest)
  = decode_op prefix (rex_of w r x b force) op rest.
Proof.
  intros Hop. pose proof (plain_opcode_range op Hop) as Hr. unfold decode_rex_op, rex_code, rex_of.
  destruct ((rex_byte w r x b =? 64)%Z && negb force) eqn:Hn; cbn [app byte_field negb].
  - rewrite unsigned_of_Z by done. unfold plain_opcode in Hop. apply andb_true_iff in Hop as [_ Hop].
    apply negb_true_iff in Hop. rewrite Hop.
    apply andb_true_iff in Hn as [Hn _]. apply Z.eqb_eq in Hn.
    by destruct (rex_byte_none w r x b Hn) as (-> & -> & -> & ->).
  - destruct (rex_byte_parse w r x b) as [Hb Hp]. rewrite unsigned_of_Z by lia.
    replace ((64 <=? rex_byte w r x b)%Z && (rex_byte w r x b <=? 79)%Z) with true by lia.
    cbn [byte_field]. by rewrite Hp, unsigned_of_Z.
Qed.

Lemma decode_code w r x b force op rest :
  plain_opcode op = true →
  decode (rex_code w r x b force ++ byte.of_Z op :: rest) = decode_op 0 (rex_of w r x b force) op rest.
Proof.
  intros Hop. rewrite <- decode_rex_op_code by done. unfold decode, rex_code.
  pose proof (plain_opcode_range op Hop). destruct (_ && _); cbn [app].
  - rewrite unsigned_of_Z by done. unfold plain_opcode in Hop.
    by destruct (is_prefix op); rewrite ?andb_false_r in Hop.
  - destruct (rex_byte_parse w r x b) as [Hb _]. rewrite unsigned_of_Z by lia.
    replace (is_prefix (rex_byte w r x b)) with false by (unfold is_prefix; lia). done.
Qed.

Lemma decode_prefixed prefix w r x b force op rest :
  is_prefix prefix = true → plain_opcode op = true →
  decode (byte.of_Z prefix :: rex_code w r x b force ++ byte.of_Z op :: rest)
  = decode_op prefix (rex_of w r x b force) op rest.
Proof.
  intros Hp Hop. rewrite <- decode_rex_op_code by done. unfold decode.
  rewrite unsigned_of_Z; [by rewrite Hp|]. unfold is_prefix in Hp. lia.
Qed.

(** ** Operands *)

Lemma lo_range z : (0 <= lo z < 8)%Z.
Proof. unfold lo. replace 7%Z with (Z.ones 3) by done. rewrite Z.land_ones by lia. apply Z.mod_pos_bound. lia. Qed.

Lemma small_cases (P : Z → Prop) z :
  (0 <= z < 8)%Z → P 0%Z → P 1%Z → P 2%Z → P 3%Z → P 4%Z → P 5%Z → P 6%Z → P 7%Z → P z.
Proof.
  intros Hz H0 H1 H2 H3 H4 H5 H6 H7.
  assert (z = 0 ∨ z = 1 ∨ z = 2 ∨ z = 3 ∨ z = 4 ∨ z = 5 ∨ z = 6 ∨ z = 7)%Z as Hc by lia.
  by destruct Hc as [->|[->|[->|[->|[->|[->|[->| ->]]]]]]].
Qed.

(** The fields of a ModRM byte of mode [md], or of a SIB byte. *)
Definition modrm_byte (md reg rm : Z) : Z := Z.lor (Z.lor (Z.shiftl md 6) (Z.shiftl reg 3)) rm.

Lemma modrm_fields md reg rm :
  (0 <= md < 4)%Z → (0 <= reg < 8)%Z → (0 <= rm < 8)%Z →
  let m := byte.unsigned (byte.of_Z (modrm_byte md reg rm)) in
  Z.shiftr m 6 = md ∧ Z.land (Z.shiftr m 3) 7 = reg ∧ Z.land m 7 = rm.
Proof.
  intros Hmd Hreg Hrm. assert (md = 0 ∨ md = 1 ∨ md = 2 ∨ md = 3)%Z as Hc by lia.
  pattern reg. apply small_cases; [done|..]; pattern rm; (apply small_cases; [done|..]);
    destruct Hc as [->|[->|[->| ->]]]; vm_compute; done.
Qed.

Lemma extend_code (r : BinaryGpRegister) : extend (set (hi r)) (lo r) = r.
Proof. by destruct r. Qed.

Lemma extend_xmm (r : BinaryXmmRegister) : extend (set (hi r)) (lo r) = r.
Proof. by destruct r. Qed.

Lemma extend_low z : extend false z = z.
Proof. done. Qed.

Section fields.
Context {A : Type}.
Implicit Types k : Z → operand → list byte → option A.

Lemma signed_field_le n v rest (k : Z → list byte → option A) :
  signed_field n k (le_split n v ++ rest) = k (wrap_s (8 * Z.of_nat n) v) rest.
Proof.
  unfold signed_field. rewrite length_app, length_le_split.
  rewrite (proj2 (Nat.leb_le n _)) by lia.
  rewrite take_app_length', drop_app_length' by (by rewrite length_le_split).
  rewrite le_combine_split. f_equal. destruct n as [|n].
  - cbn. unfold wrap_s. by rewrite !Z.mod_1_r.
  - rewrite <- (wrap_s_wrap_u _ v) by lia. unfold wrap_u.
    by replace (Z.of_nat (S n) * 8)%Z with (8 * Z.of_nat (S n))%Z by lia.
Qed.

Lemma signed_field_byte v rest (k : Z → list byte → option A) :
  fits_int8 v = true → signed_field 1 k (byte.of_Z v :: rest) = k v rest.
Proof.
  intros Hv. change (byte.of_Z v :: rest) with (le_split 1 v ++ rest).
  rewrite signed_field_le. unfold fits_int8 in Hv. rewrite wrap_s_id; [done|lia|]. cbn. lia.
Qed.

Lemma signed_field_32 v rest (k : Z → list byte → option A) :
  signed_field 4 k (le_split 4 v ++ rest) = k (s32 v) rest.
Proof. apply signed_field_le. Qed.

Lemma modrm_registers rex w k reg rm rest :
  modrm rex w k (byte.of_Z (modrm_reg reg rm) :: rest)
  = k (extend (rex_r rex) (lo reg)) (gp rex w (extend (rex_b rex) (lo rm))) rest.
Proof.
  unfold modrm, byte_field. change (modrm_reg reg rm) with (modrm_byte 3 (lo reg) (lo rm)).
  pose proof (lo_range reg). pose proof (lo_range rm).
  destruct (modrm_fields 3 (lo reg) (lo rm)) as (-> & -> & ->); [lia..|]. done.
Qed.

Lemma displacement_bytes d rest (k : Z → list byte → option A) :
  (- 2 ^ 31 <= d < 2 ^ 31)%Z →
  displacement (if fits_int8 d then 1 else 2) k
    ((if fits_int8 d then [byte.of_Z d] else le_split 4 d) ++ rest) = k d rest.
Proof.
  intros Hd. unfold displacement. destruct (fits_int8 d) eqn:Hf; cbn [Z.eqb Pos.eqb].
  - by apply signed_field_byte.
  - rewrite signed_field_32, wrap_s_id; [done|lia|]. cbn. lia.
Qed.

(** The operand bytes of [binary_emit_memory_access_ex_internal]. *)
Definition memory_bytes (reg base d : Z) : list byte :=
  byte.of_Z (modrm_byte (if fits_int8 d then 1 else 2) (lo reg)
               (if (lo base =? 4)%Z then 4 else lo base)) ::
  (if (lo base =? 4)%Z then [byte.of_Z (Z.lor (Z.shiftl 4 3) (lo base))] else []) ++
  (if fits_int8 d then [byte.of_Z d] else le_split 4 d).

Lemma modrm_memory rex w k reg base d rest :
  rex_x rex = false → (- 2 ^ 31 <= d < 2 ^ 31)%Z →
  modrm rex w k (memory_bytes reg base d ++ rest)
  = k (extend (rex_r rex) (lo reg)) (Mem (Some (extend (rex_b rex) (lo base))) None d) rest.
Proof.
  intros Hx Hd. unfold memory_bytes, modrm. cbn [app byte_field].
  pose proof (lo_range reg). pose proof (lo_range base).
  set (md := if fits_int8 d then 1%Z else 2%Z).
  assert (md = 1 ∨ md = 2)%Z as Hmd by (unfold md; destruct (fits_int8 d); lia).
  destruct (modrm_fields md (lo reg) (if (lo base =? 4)%Z then 4 else lo base)%Z)
    as (-> & -> & ->); [lia..|case_match; lia|].
  replace (md =? 3)%Z with false by lia. rewrite <- app_assoc.
  destruct (lo base =? 4)%Z eqn:Hb.
  - apply Z.eqb_eq in Hb. rewrite Hb, Hx. cbn [Z.eqb Pos.eqb app byte_field].
    change (byte.unsigned (byte.of_Z (Z.lor (Z.shiftl 4 3) 4))) with 36%Z.
    change (extend false (Z.land (Z.shiftr 36 3) 7) =? 4)%Z with true.
    change (Z.land 36 7 =? 5)%Z with false. cbn [andb].
    by apply (displacement_bytes d rest (fun d => k _ (Mem (Some (extend (rex_b rex) 4)) None d))).
  - rewrite Hb. replace (md =? 0)%Z with false by lia. rewrite andb_false_r. cbn [app].
    by apply (displacement_bytes d rest (fun d => k _ (Mem (Some (extend (rex_b rex) (lo base))) None d))).
Qed.

(** The operand bytes of [binary_emit_lea_reg_base_index_scale_disp]. *)
Definition sib_mode (base d : Z) : Z :=
  if (d =? 0)%Z && negb (lo base =? 5)%Z then 0 else if fits_int8 d then 1 else 2.

Definition sib_bytes (reg base index ss d : Z) : list byte :=
  let md := sib_mode base d in
  [byte.of_Z (modrm_byte md (lo reg) 4); byte.of_Z (modrm_byte ss (lo index) (lo base))] ++
  (if (md =? 1)%Z then [byte.of_Z d] else if (md =? 2)%Z then le_split 4 d else []).

Lemma modrm_sib rex w k reg base index ss d rest :
  (0 <= ss < 4)%Z → extend (rex_x rex) (lo index) ≠ 4%Z → (- 2 ^ 31 <= d < 2 ^ 31)%Z →
  modrm rex w k (sib_bytes reg base index ss d ++ rest)
  = k (extend (rex_r rex) (lo reg))
      (Mem (Some (extend (rex_b rex) (lo base))) (Some (extend (rex_x rex) (lo index), 2 ^ ss)%Z) d) rest.
Proof.
  intros Hss Hi Hd. unfold sib_bytes, modrm. cbn [app byte_field].
  pose proof (lo_range reg). pose proof (lo_range base). pose proof (lo_range index).
  assert (0 <= sib_mode base d < 3)%Z as Hmd by (unfold sib_mode; repeat case_match; lia).
  destruct (modrm_fields (sib_mode base d) (lo reg) 4) as (-> & -> & ->); [lia..|].
  replace (sib_mode base d =? 3)%Z with false by lia. cbn [Z.eqb Pos.eqb byte_field].
  destruct (modrm_fields ss (lo index) (lo base)) as (-> & -> & ->); [lia..|].
  apply Z.eqb_neq in Hi. rewrite Hi. unfold sib_mode.
  assert (∀ k' : Z → list byte → option A,
    displacement (if fits_int8 d then 1 else 2) k'
      ((if ((if fits_int8 d then 1 else 2) =? 1)%Z then [byte.of_Z d]
        else if ((if fits_int8 d then 1 else 2) =? 2)%Z then le_split 4 d else []) ++ rest) = k' d rest)
    as Hdisp.
  { intros k'. rewrite <- (displacement_bytes d rest k' Hd). by destruct (fits_int8 d). }
  destruct (Z.eqb_spec d 0) as [->|]; destruct (lo base =? 5)%Z; cbn [negb andb]; try done.
  by replace ((if fits_int8 d then 1 else 2) =? 0)%Z with false by (by destruct (fits_int8 d)).
Qed.

Lemma modrm_rip rex w k reg d rest :
  modrm rex w k (byte.of_Z (modrm_byte 0 (lo reg) 5) :: le_split 4 d ++ rest)
  = k (extend (rex_r rex) (lo reg)) (Rip (s32 d)) rest.
Proof.
  unfold modrm. cbn [app byte_field]. pose proof (lo_range reg).
  destruct (modrm_fields 0 (lo reg) 5) as (-> & -> & ->); [lia..|]. cbn [Z.eqb Pos.eqb andb].
  apply (signed_field_32 d rest (fun d => k _ (Rip d))).
Qed.

End fields.

(** ** Sequences of instructions *)

(** Bytes that are the instructions of a program, one after the other. *)
Inductive codes : list byte → list instr → Prop :=
  | codes_nil : codes [] []
  | codes_cons b i bytes program :
      (∀ rest, decode (b ++ rest) = Some (i, rest)) → codes bytes program →
      codes (b ++ bytes) (i :: program).

Lemma codes_app b1 b2 p1 p2 : codes b1 p1 → codes b2 p2 → codes (b1 ++ b2) (p1 ++ p2).
Proof.
  intros H1 H2. induction H1 as [|b i bytes p Hd _ IH]; [done|]. rewrite <- app_assoc. by constructor.
Qed.

Lemma codes_one b i : (∀ rest, decode (b ++ rest) = Some (i, rest)) → codes b [i].
Proof. intros Hd. rewrite <- (app_nil_r b). constructor; [done|constructor]. Qed.

Lemma codes_decode_all bytes program rest n :
  codes bytes program →
  decode_all (length program + n) (bytes ++ rest) = app program <$> decode_all n rest.
Proof.
  induction 1 as [|b i bytes p Hd _ IH]; [simpl; by destruct (decode_all n rest)|].
  rewrite <- app_assoc. specialize (Hd (bytes ++ rest)).
  destruct (b ++ bytes ++ rest) as [|x code]; [discriminate|]. cbn [length Nat.add decode_all].
  rewrite Hd, IH. by destruct (decode_all n rest).
Qed.

Definition asm {A} (e : Emit A) (f : nat → A) (program : list instr) : Prop :=
  ∃ bytes, emits e f bytes ∧ codes bytes program.

Lemma asm_ret : asm (mret ()) unit_result [].
Proof. exists []. split; [apply emits_ret|constructor]. Qed.

Lemma asm_one {A} (e : Emit A) f bytes i :
  emits e f bytes → (∀ rest, decode (bytes ++ rest) = Some (i, rest)) → asm e f [i].
Proof. intros He Hd. exists bytes. split; [done|by apply codes_one]. Qed.

Lemma asm_seq (e1 e2 : Emit ()) p1 p2 :
  asm e1 unit_result p1 → asm e2 unit_result p2 → asm (e1 ;; e2) unit_result (p1 ++ p2).
Proof.
  intros (b1 & H1 & D1) (b2 & H2 & D2). exists (b1 ++ b2).
  split; [by apply emits_seq_unit|by apply codes_app].
Qed.

(** What a successful run of [asm] means. *)
Lemma asm_decode {A} (e : Emit A) f program buffer :
  asm e f program →
  ∃ bytes, e buffer = (Some (f (length buffer)), buffer ++ bytes) ∧
    decode_all (length program) bytes = Some program.
Proof.
  intros (bytes & He & Hd). exists bytes. split; [apply He|].
  pose proof (codes_decode_all bytes program [] 0 Hd) as H. rewrite app_nil_r, Nat.add_0_r in H.
  rewrite H. simpl. by rewrite app_nil_r.
Qed.

Lemma asm_or_left {A} (e1 e2 : Emit A) f program : asm e1 f program → asm (emit_or e1 e2) f program.
Proof.
  intros (bytes & He & Hd). exists bytes. split; [|done]. intros buffer. unfold emit_or. by rewrite He.
Qed.

Lemma asm_or_right {A} (e1 e2 : Emit A) f program :
  (∀ buffer, e1 buffer = (None, buffer)) → asm e2 f program → asm (emit_or e1 e2) f program.
Proof.
  intros Hn (bytes & He & Hd). exists bytes. split; [|done]. intros buffer. unfold emit_or. by rewrite Hn.
Qed.

(** ** One instruction *)

Lemma decode_plain op rest :
  plain_opcode op = true → decode (byte.of_Z op :: rest) = decode_op 0 no_rex op rest.
Proof. exact (decode_code 0 0 0 0 false op rest). Qed.

#[global] Arguments modrm : simpl never.
#[global] Arguments signed_field : simpl never.
#[global] Arguments operand_width : simpl never.
#[global] Arguments extend : simpl never.
#[global] Arguments gp : simpl never.
#[global] Arguments lo : simpl never.
#[global] Arguments hi : simpl never.
#[global] Arguments rex_of : simpl never.
#[global] Arguments le_split : simpl never.
#[global] Arguments gp_code : simpl never.
#[global] Arguments xmm_code : simpl never.
#[global] Arguments needs_byte_rex : simpl never.
#[global] Arguments rex_byte : simpl never.
#[global] Arguments fits_int8 : simpl never.
#[global] Arguments modrm_reg : simpl never.

Ltac solve_emits :=
  repeat first [ apply emits_rex | apply emits_bytes | apply emits_ret | apply emits_placeholder
               | eapply emits_seq_unit | eapply emits_seq ].

Ltac split_opcode :=
  intros rest; rewrite <- ?app_assoc; cbn [app];
  first [ rewrite decode_code by done | rewrite decode_prefixed by done | rewrite decode_plain by done ].

(** Bit operations on numerals, which [cbn] does not compute. *)
Ltac compute_bits :=
  repeat match goal with
  | |- context [Z.land ?a ?b] =>
      is_ground a; is_ground b; let v := eval vm_compute in (Z.land a b) in change (Z.land a b) with v
  | |- context [Z.shiftr ?a ?b] =>
      is_ground a; is_ground b; let v := eval vm_compute in (Z.shiftr a b) in change (Z.shiftr a b) with v
  end.

(** After the ModRM byte is read: the fields of REX, the registers, the width. *)
Ltac finish_registers :=
  unfold gp, operand_width, rex_of, no_rex; cbn [rex_w rex_r rex_b rex_x rex_present];
  change (set 1) with true; change (set 0) with false;
  rewrite ?extend_code, ?extend_xmm, ?extend_low;
  compute_bits;
  try reflexivity.

Ltac encode :=
  eapply asm_one; [solve_emits|]; split_opcode; cbn; compute_bits; cbn;
  rewrite ?unsigned_of_Z by lia; unfold decode_0f; cbn;
  rewrite ?modrm_registers, ?modrm_memory by done; cbn; finish_registers;
  cbn; rewrite ?signed_field_32; try reflexivity.

(** Moves and operations the encoders leave out. *)
Definition mov_program (w : width) (d s : BinaryGpRegister) : list instr :=
  if (d =? s)%Z then [] else [MOV w (Reg d) (Reg s)].

Definition alu_imm_program (op : alu) (r : BinaryGpRegister) (imm : Z) : list instr :=
  match op with
  | ADD | OR | SUB | XOR => if (imm =? 0)%Z then [] else [ALUI op W64 (Reg r) (s32 imm)]
  | AND => if (imm =? UINT32_MAX)%Z then [] else [ALUI op W64 (Reg r) (s32 imm)]
  | _ => [ALUI op W64 (Reg r) (s32 imm)]
  end.

Definition shift_program (op : shift) (r : BinaryGpRegister) (n : Z) : list instr :=
  if (n =? 0)%Z then [] else [SHIFT op W64 (Reg r) (By n)].

Definition mov_imm64_program (r : BinaryGpRegister) (imm : Z) : list instr :=
  if (imm <=? UINT32_MAX)%Z then [MOVI W32 r (s32 imm)]
  else if (0xffffffff80000000 <=? imm)%Z then [MOVIS W64 (Reg r) (s32 imm)]
  else [MOVI W64 r (s64 imm)].

Lemma asm_mov d s : asm (binary_emit_mov_reg_reg d s) unit_result (mov_program W64 d s).
Proof. unfold binary_emit_mov_reg_reg, mov_program. case_match; [apply asm_ret|encode]. Qed.

Lemma asm_mov32 d s : asm (binary_emit_mov_reg_reg32 d s) unit_result (mov_program W32 d s).
Proof. unfold binary_emit_mov_reg_reg32, mov_program. case_match; [apply asm_ret|encode]. Qed.

(** The opcodes that hold a register in their low three bits. *)
Lemma asm_low_opcode base prefixed (reg : BinaryGpRegister) i :
  (base = 0x50 ∨ base = 0x58)%Z →
  prefixed = (if (8 <=? reg)%Z then binary_emit_rex 0 0 0 1 else mret ()) →
  i = (if (base =? 0x50)%Z then PUSH reg else POP reg) →
  asm (prefixed ;; binary_code_buffer_append_u8 (base + lo reg)) unit_result [i].
Proof.
  intros Hb -> ->. eapply (asm_one _ _ ((if (8 <=? reg)%Z then [byte.of_Z 0x41] else []) ++ [byte.of_Z (base + lo reg)])).
  - apply emits_seq_unit; [|apply emits_bytes].
    case_match; [apply (emits_rex 0 0 0 1 false)|apply emits_ret].
  - intros rest. by destruct Hb as [-> | ->]; destruct reg.
Qed.

Lemma asm_push r : asm (binary_emit_push_reg r) unit_result [PUSH r].
Proof. by apply asm_low_opcode; [left|..]. Qed.

Lemma asm_pop r : asm (binary_emit_pop_reg r) unit_result [POP r].
Proof. by apply asm_low_opcode; [right|..]. Qed.

(** The bytes of [binary_emit_mov_reg_imm64]: REX, and the opcode with its register. *)
Lemma decode_mov_imm w (reg : BinaryGpRegister) rest :
  decode (rex_code w 0 0 (hi reg) false ++ byte.of_Z (0xB8 + lo reg) :: rest)
  = if set w then signed_field 8 (fun i => done (MOVI W64 reg i)) rest
    else signed_field 4 (fun i => done (MOVI W32 reg i)) rest.
Proof.
  rewrite decode_code by (by destruct reg).
  unfold rex_of, set. by destruct (w =? 0)%Z, reg.
Qed.

Lemma asm_mov_imm32 (r : BinaryGpRegister) imm :
  asm (binary_emit_mov_reg_imm32_zero_extend r imm) unit_result [MOVI W32 r (s32 imm)].
Proof.
  eapply asm_one; [solve_emits|]. intros rest. rewrite <- ?app_assoc. cbn [app].
  by rewrite decode_mov_imm, signed_field_32.
Qed.

Lemma s32_u32 v : s32 (u32 v) = s32 v.
Proof. by apply wrap_s_wrap_u. Qed.

Lemma asm_mov_imm64 (r : BinaryGpRegister) imm :
  (0 <= imm)%Z → asm (binary_emit_mov_reg_imm64 r imm) unit_result (mov_imm64_program r imm).
Proof.
  intros Himm. unfold binary_emit_mov_reg_imm64, mov_imm64_program.
  destruct (Z.eqb_spec imm 0) as [->|]; [apply asm_mov_imm32|].
  destruct (imm <=? UINT32_MAX)%Z.
  { rewrite <- (s32_u32 imm). apply asm_mov_imm32. }
  destruct (0xffffffff80000000 <=? imm)%Z.
  - change (Z.lor 192 (lo r)) with (modrm_reg 0 r).
    encode.
    rewrite s32_u32, wrap_s_id; [done|lia|]. pose proof (wrap_s_range 32 imm). lia.
  - eapply asm_one; [solve_emits|]. intros rest. rewrite <- ?app_assoc. cbn [app].
    by rewrite decode_mov_imm, signed_field_le.
Qed.

(** The operations on an immediate, by subopcode. *)
Definition sub_of (op : alu) : Z :=
  match op with ADD => 0 | OR => 1 | ADC => 2 | SBB => 3 | AND => 4 | SUB => 5 | XOR => 6 | CMP => 7 end.

Lemma asm_emit_alu_imm op (r : BinaryGpRegister) imm :
  asm (emit_alu_imm (sub_of op) r imm) unit_result [ALUI op W64 (Reg r) (s32 imm)].
Proof.
  unfold emit_alu_imm. destruct (fits_int8 (s32 imm)) eqn:Hf.
  - encode. rewrite signed_field_byte by done. by destruct op.
  - encode. by destruct op.
Qed.

Lemma asm_alu_imm op (r : BinaryGpRegister) imm :
  asm (binary_emit_alu_reg_imm32 (sub_of op) r imm) unit_result (alu_imm_program op r imm).
Proof.
  unfold binary_emit_alu_reg_imm32, alu_imm_program.
  pose proof (asm_emit_alu_imm op r imm) as H.
  destruct op; cbn [sub_of Z.eqb Pos.eqb orb andb] in *; try exact H;
    (case_match; [apply asm_ret|exact H]).
Qed.

Lemma asm_test r : asm (binary_emit_test_reg_reg r) unit_result [TEST W64 (Reg r) (Reg r)].
Proof. encode. Qed.

Definition cmp_imm_program (r : BinaryGpRegister) (imm : Z) : list instr :=
  if (imm =? 0)%Z then [TEST W64 (Reg r) (Reg r)] else [ALUI CMP W64 (Reg r) (s32 imm)].

Lemma asm_cmp_imm r imm : asm (binary_emit_cmp_reg_imm32 r imm) unit_result (cmp_imm_program r imm).
Proof.
  unfold binary_emit_cmp_reg_imm32, cmp_imm_program.
  case_match; [apply asm_test|apply (asm_alu_imm CMP)].
Qed.

(** Memory operands. *)
Definition in_int32 (d : Z) : Prop := (- 2 ^ 31 <= d < 2 ^ 31)%Z.

Lemma emits_memory prefix rex_w op1 op2 (reg base : BinaryGpRegister) d force :
  emits (binary_emit_memory_access_ex_internal prefix rex_w op1 op2 reg base d force) unit_result
    ((if prefix : bool then [byte.of_Z 0x66] else []) ++ rex_code rex_w (hi reg) 0 (hi base) force ++
     [byte.of_Z op1] ++ (match op2 with Some o => [byte.of_Z o] | None => [] end) ++
     memory_bytes reg base d).
Proof.
  unfold binary_emit_memory_access_ex_internal.
  change (lo BINARY_GP_RSP) with 4%Z.
  repeat apply emits_seq_unit; [apply emits_if|apply emits_rex|apply emits_bytes|apply emits_option|].
  - unfold memory_bytes. eapply (emits_seq_unit _ _ [_]); [apply emits_bytes|].
    apply emits_seq_unit; case_match; first [apply emits_bytes|apply emits_ret].
Qed.

#[global] Arguments memory_bytes : simpl never.
#[global] Arguments sib_bytes : simpl never.

Ltac memory_step :=
  cbn [app]; split_opcode; cbn; compute_bits; cbn; rewrite ?unsigned_of_Z by lia; unfold decode_0f; cbn;
  rewrite ?modrm_memory, ?modrm_rip by done; finish_registers.

Ltac encode_memory :=
  unfold binary_emit_memory_access, binary_emit_memory_access_ex;
  eapply asm_one; [apply emits_memory|]; memory_step.

Section memory.
Variables (r base : BinaryGpRegister) (d : Z) (Hd : in_int32 d).
Local Abbreviation at_base := (Mem (Some (gp_code base)) None d).

Lemma asm_mov_reg_mem :
  asm (binary_emit_mov_reg_mem r base d) unit_result [MOV W64 (Reg r) at_base].
Proof. unfold binary_emit_mov_reg_mem. encode_memory. Qed.

Lemma asm_mov_mem_reg :
  asm (binary_emit_mov_mem_reg base d r) unit_result [MOV W64 at_base (Reg r)].
Proof. unfold binary_emit_mov_mem_reg. encode_memory. Qed.

Lemma asm_movzx_reg_mem8 :
  asm (binary_emit_movzx_reg_mem8 r base d) unit_result [MOVZX W8 W32 r at_base].
Proof. unfold binary_emit_movzx_reg_mem8. encode_memory. Qed.

Lemma asm_movzx_reg_mem16 :
  asm (binary_emit_movzx_reg_mem16 r base d) unit_result [MOVZX W16 W32 r at_base].
Proof. unfold binary_emit_movzx_reg_mem16. encode_memory. Qed.

Lemma asm_mov_reg_mem32 :
  asm (binary_emit_mov_reg_mem32 r base d) unit_result [MOV W32 (Reg r) at_base].
Proof. unfold binary_emit_mov_reg_mem32. encode_memory. Qed.

Lemma asm_mov_mem_reg16 :
  asm (binary_emit_mov_mem_reg16 base d r) unit_result [MOV W16 at_base (Reg r)].
Proof. unfold binary_emit_mov_mem_reg16. encode_memory. Qed.

Lemma asm_mov_mem_reg32 :
  asm (binary_emit_mov_mem_reg32 base d r) unit_result [MOV W32 at_base (Reg r)].
Proof. unfold binary_emit_mov_mem_reg32. encode_memory. Qed.

Lemma asm_lea_reg_mem :
  asm (binary_emit_lea_reg_mem r base d) unit_result [LEA W64 r at_base].
Proof. unfold binary_emit_lea_reg_mem. encode_memory. Qed.

(** With the REX prefix forced for SPL to DIL, no byte register is a high one. *)
Lemma byte_register (b : Z) :
  (if negb (negb ((rex_byte 0 (hi r) 0 b =? 0x40)%Z && negb (needs_byte_rex r))) && (4 <=? r)%Z
   then High (r - 4) else Reg r) = Reg r.
Proof. unfold rex_byte. by destruct r, (b =? 0)%Z. Qed.

Lemma asm_mov_mem_reg8 :
  asm (binary_emit_mov_mem_reg8 base d r) unit_result [MOV W8 at_base (Reg r)].
Proof. unfold binary_emit_mov_mem_reg8. encode_memory. by rewrite byte_register. Qed.

(** [lea] with a base, an index and a scale. *)
Lemma asm_lea_sib (index : BinaryGpRegister) ss scale :
  index ≠ BINARY_GP_RSP → scale_bits scale = Some ss →
  asm (binary_emit_lea_reg_base_index_scale_disp r base index scale d) unit_result
    [LEA W64 r (Mem (Some (gp_code base)) (Some (gp_code index, scale)) d)].
Proof.
  intros Hi Hs. unfold binary_emit_lea_reg_base_index_scale_disp. rewrite Hs.
  destruct (Z.eqb_spec index BINARY_GP_RSP); [by destruct index|].
  assert ((0 <= ss < 4)%Z ∧ scale = 2 ^ ss)%Z as [Hss ->].
  { unfold scale_bits in Hs. repeat case_match; simplify_eq; by split; lia. }
  eapply (asm_one _ _ (rex_code 1 (hi r) (hi index) (hi base) false ++
                       [byte.of_Z 0x8D] ++ sib_bytes r base index ss d)).
  - change (lo BINARY_GP_RBP) with 5%Z. unfold sib_bytes, sib_mode.
    do 2 (apply emits_seq_unit; [first [apply emits_rex|apply emits_bytes]|]).
    eapply (emits_seq_unit _ _ [_]); [apply emits_bytes|].
    eapply (emits_seq_unit _ _ [_]); [apply emits_bytes|].
    repeat case_match; first [apply emits_bytes|apply emits_ret].
  - split_opcode. cbn. rewrite modrm_sib; [|lia| |done].
    + finish_registers.
    + unfold rex_of; cbn [rex_x]. rewrite extend_code. by destruct index.
Qed.

End memory.

Lemma asm_lea_reg_reg (d l r : BinaryGpRegister) :
  ¬ (l = BINARY_GP_RSP ∧ r = BINARY_GP_RSP) →
  asm (binary_emit_lea_reg_reg d l r) unit_result
    [LEA W64 d (if bool_decide (r = BINARY_GP_RSP) then Mem (Some (gp_code r)) (Some (gp_code l, 1%Z)) 0
                else Mem (Some (gp_code l)) (Some (gp_code r, 1%Z)) 0)].
Proof.
  intros Hn. unfold binary_emit_lea_reg_reg. case_bool_decide as Hr.
  - subst r. assert (l ≠ BINARY_GP_RSP) as Hl by (intros ->; by apply Hn).
    replace (l =? BINARY_GP_RSP)%Z with false by (by destruct l). cbn [negb].
    change (negb (BINARY_GP_RSP =? BINARY_GP_RSP)%Z) with false.
    eapply (asm_lea_sib _ _ 0); done.
  - replace (r =? BINARY_GP_RSP)%Z with false by (by destruct r). cbn [negb].
    eapply (asm_lea_sib _ _ 0); done.
Qed.

Lemma asm_test_imm (r : BinaryGpRegister) imm :
  asm (binary_emit_test_reg_imm32 r imm) unit_result [TESTI W64 (Reg r) (s32 imm)].
Proof.
  unfold binary_emit_test_reg_imm32. change (Z.lor 0xC0 (lo r)) with (modrm_reg 0 r). encode.
Qed.

Lemma asm_cmp w (l r : BinaryGpRegister) :
  asm (if w : bool then binary_emit_cmp_reg_reg l r else binary_emit_cmp_reg_reg32 l r) unit_result
    [ALU CMP (if w then W64 else W32) (Reg l) (Reg r)].
Proof. destruct w; encode.
Qed.

(** The opcodes of the forms on 64-bit registers and on byte registers. *)
Definition alu_opcode (op : alu) : Z :=
  match op with
  | ADD => 0x01 | OR => 0x09 | ADC => 0x11 | SBB => 0x19
  | AND => 0x21 | SUB => 0x29 | XOR => 0x31 | CMP => 0x39
  end.
Definition alu_opcode8 (op : alu) : Z :=
  match op with
  | ADD => 0x00 | OR => 0x08 | ADC => 0x10 | SBB => 0x18
  | AND => 0x20 | SUB => 0x28 | XOR => 0x30 | CMP => 0x38
  end.

Lemma asm_alu op (d s : BinaryGpRegister) :
  asm (binary_emit_alu_reg_reg (alu_opcode op) d s) unit_result [ALU op W64 (Reg d) (Reg s)].
Proof. unfold binary_emit_alu_reg_reg. destruct op; cbn [alu_opcode]; encode. Qed.

Lemma lo_low (r : BinaryGpRegister) : (r < 4)%Z → lo r = r.
Proof. by destruct r. Qed.

Lemma asm_alu8 op (d s : BinaryGpRegister) :
  (d < 4)%Z → (s < 4)%Z →
  asm (binary_emit_alu_reg8_reg8 (alu_opcode8 op) d s) unit_result [ALU op W8 (Reg d) (Reg s)].
Proof.
  intros Hd Hs. unfold binary_emit_alu_reg8_reg8.
  replace ((4 <=? d)%Z || (4 <=? s)%Z) with false by lia.
  destruct op; cbn [alu_opcode8]; encode;
    rewrite (lo_low d Hd), (lo_low s Hs), !(proj2 (Z.leb_gt 4 _)) by assumption; reflexivity.
Qed.

Lemma asm_imul (d s : BinaryGpRegister) : asm (binary_emit_imul_reg_reg d s) unit_result [IMUL W64 d (Reg s)].
Proof. encode. Qed.

Lemma asm_imul_imm (d s : BinaryGpRegister) imm :
  asm (emit_imul_imm d s imm) unit_result [IMULI W64 d (Reg s) (s32 imm)].
Proof.
  unfold emit_imul_imm. destruct (fits_int8 (s32 imm)) eqn:Hf; encode.
  by rewrite signed_field_byte.
Qed.

Lemma asm_unary u (r : BinaryGpRegister) :
  asm (binary_emit_unary_reg (match u with NOT => 2 | NEG => 3 | MUL => 4 | IMUL1 => 5 | DIV => 6 | IDIV => 7 end) r)
    unit_result [UNARY u W64 (Reg r)].
Proof. unfold binary_emit_unary_reg. destruct u; encode. Qed.

Definition shift_sub (s : shift) : Z := match s with SHL => 4 | SHR => 5 | SAR => 7 end.

Lemma asm_shift_cl s (r : BinaryGpRegister) :
  asm (binary_emit_shift_reg_cl (shift_sub s) r) unit_result [SHIFT s W64 (Reg r) By_cl].
Proof. unfold binary_emit_shift_reg_cl. destruct s; encode. Qed.

Lemma asm_shift_imm s (r : BinaryGpRegister) n :
  (0 <= n < 256)%Z →
  asm (binary_emit_shift_reg_imm8 (shift_sub s) r n) unit_result (shift_program s r n).
Proof.
  intros Hn. unfold binary_emit_shift_reg_imm8, shift_program.
  destruct (n =? 0)%Z; [apply asm_ret|]. destruct (Z.eqb_spec n 1) as [->|].
  - destruct s; encode.
  - destruct s; encode; by rewrite unsigned_of_Z.
Qed.

(** Conditions. *)
Lemma nibble_cases (P : Z → Prop) :
  (∀ n, n < 16 → P (Z.of_nat n)) → ∀ z, (0 <= z < 16)%Z → P z.
Proof. intros H z Hz. rewrite <- (Z2Nat.id z) by lia. apply H. lia. Qed.

Section conditions.
Variables (prefix : Z) (rex : Rex) (cc : Z) (Hcc : (0 <= cc < 16)%Z).

Ltac sixteen :=
  pattern cc; (apply nibble_cases; [|exact Hcc]); intros n Hn;
  do 16 (destruct n as [|n]; [reflexivity|]); lia.

Lemma decode_cmov :
  decode_0f prefix rex (0x40 + cc) = modrm rex (operand_width prefix rex)
    (fun r m => done (CMOV cc (operand_width prefix rex) r m)).
Proof using Hcc. sixteen. Qed.

Lemma decode_jcc : decode_0f prefix rex (0x80 + cc) = signed_field 4 (fun d => done (JCC cc d)).
Proof using Hcc. sixteen. Qed.

Lemma decode_setcc : decode_0f prefix rex (0x90 + cc) = modrm rex W8 (fun _ m => done (SETCC cc m)).
Proof using Hcc. sixteen. Qed.

End conditions.

(** The second opcode byte, once it is the next one. *)
Ltac second_opcode := intros rest; rewrite <- ?app_assoc; cbn [app];
  first [ rewrite decode_code by done | rewrite decode_plain by done ]; cbn;
  rewrite unsigned_of_Z by lia.

Lemma asm_setcc cc (r : BinaryGpRegister) :
  (0 <= cc < 16)%Z → (r < 4)%Z →
  asm (binary_emit_setcc_reg8 (0x90 + cc) r) unit_result [SETCC cc (Reg r)].
Proof.
  intros Hcc Hr. unfold binary_emit_setcc_reg8. replace (4 <=? r)%Z with false by lia.
  change (Z.lor 0xC0 (lo r)) with (modrm_reg 0 r).
  eapply asm_one; [solve_emits|]. second_opcode. rewrite decode_setcc, modrm_registers by done.
  finish_registers. cbn. by rewrite (lo_low r Hr), (proj2 (Z.leb_gt 4 _)).
Qed.

Lemma asm_setcc_al cc :
  (0 <= cc < 16)%Z → asm (binary_emit_setcc_al (0x90 + cc)) unit_result [SETCC cc (Reg RAX)].
Proof. intros Hcc. by apply (asm_setcc cc BINARY_GP_RAX). Qed.

Lemma asm_cmov cc (d s : BinaryGpRegister) :
  (0 <= cc < 16)%Z →
  asm (binary_emit_cmovcc_reg_reg (0x40 + cc) d s) unit_result [CMOV cc W64 d (Reg s)].
Proof.
  intros Hcc. unfold binary_emit_cmovcc_reg_reg.
  replace ((0x40 + cc <? 0x40)%Z || (0x4F <? 0x40 + cc)%Z) with false by lia.
  eapply asm_one; [solve_emits|]. second_opcode. rewrite decode_cmov, modrm_registers by done.
  finish_registers.
Qed.

Lemma asm_call_reg (r : BinaryGpRegister) : asm (binary_emit_call_reg r) unit_result [CALLR (Reg r)].
Proof.
  eapply (asm_one _ _ ((if (8 <=? r)%Z then [byte.of_Z 0x41] else []) ++ [byte.of_Z 0xFF; byte.of_Z (Z.lor 0xD0 (lo r))])).
  - unfold binary_emit_call_reg. apply emits_seq_unit; [|by apply (emits_seq_unit _ _ [_] [_])].
    case_match; [apply (emits_rex 0 0 0 1 false)|apply emits_ret].
  - intros rest. by destruct r.
Qed.

(** ** Instructions with a field filled in later *)

(** [e] appends [header] and four zero bytes and returns the offset of the latter;
    whatever number replaces them, the instruction is [make] of it. *)
Definition patchable (e : Emit nat) (make : Z → instr) : Prop :=
  ∃ header, emits e (fun n => n + length header) (header ++ le_split 4 0) ∧
    ∀ v rest, decode (header ++ le_split 4 v ++ rest) = Some (make (s32 v), rest).

Lemma patchable_intro e (make : Z → instr) header bytes f :
  emits e f bytes → bytes = header ++ le_split 4 0 → (∀ n, f n = n + length header) →
  (∀ v rest, decode (header ++ le_split 4 v ++ rest) = Some (make (s32 v), rest)) →
  patchable e make.
Proof.
  intros He -> Hf Hd. exists header. split; [|done]. intros buffer. by rewrite He, Hf.
Qed.

Ltac lengths := unfold unit_result; cbn; rewrite ?length_app; cbn; rewrite ?length_app; cbn; lia.

Section rip.
Variables (r : BinaryGpRegister).

Lemma rip_byte : Z.lor 0x05 (Z.shiftl (lo r) 3) = modrm_byte 0 (lo r) 5.
Proof. by destruct r. Qed.

Lemma patchable_rip prefix rex_w op1 op2 force make :
  (∀ v rest, decode (((if prefix : bool then [byte.of_Z 0x66] else []) ++
       rex_code rex_w (hi r) 0 0 force ++ [byte.of_Z op1] ++
       (match op2 with Some o => [byte.of_Z o] | None => [] end)) ++
       (byte.of_Z (modrm_byte 0 (lo r) 5) :: le_split 4 v) ++ rest) = Some (make (s32 v), rest)) →
  patchable (binary_emit_rip_relative_access_ex_internal prefix rex_w op1 op2 r force) make.
Proof.
  intros Hd. unfold binary_emit_rip_relative_access_ex_internal. rewrite rip_byte.
  eapply (patchable_intro _ _ (((if prefix : bool then [byte.of_Z 0x66] else []) ++
       rex_code rex_w (hi r) 0 0 force ++ [byte.of_Z op1] ++
       (match op2 with Some o => [byte.of_Z o] | None => [] end)) ++ [byte.of_Z (modrm_byte 0 (lo r) 5)])).
  - apply emits_seq; [apply emits_if|].
    apply emits_seq; [apply emits_rex|]. apply emits_seq; [apply emits_bytes|].
    apply emits_seq; [apply emits_option|].
    apply emits_seq; [apply emits_bytes|apply emits_placeholder].
  - by rewrite <- !app_assoc.
  - intros n. rewrite !length_app. lia.
  - intros v rest. rewrite <- Hd, <- !app_assoc. done.
Qed.

Ltac encode_rip :=
  unfold binary_emit_rip_relative_access_ex; apply patchable_rip;
  intros v; memory_step.

Lemma patchable_mov_reg_rip_mem : patchable (binary_emit_mov_reg_rip_mem r) (fun d => MOV W64 (Reg r) (Rip d)).
Proof. unfold binary_emit_mov_reg_rip_mem. encode_rip. Qed.

Lemma patchable_mov_reg32_rip_mem : patchable (binary_emit_mov_reg32_rip_mem r) (fun d => MOV W32 (Reg r) (Rip d)).
Proof. unfold binary_emit_mov_reg32_rip_mem. encode_rip. Qed.

Lemma patchable_mov_mem_rip_reg8 : patchable (binary_emit_mov_mem_rip_reg8 r) (fun d => MOV W8 (Rip d) (Reg r)).
Proof. unfold binary_emit_mov_mem_rip_reg8. encode_rip. by rewrite byte_register. Qed.

Lemma patchable_mov_mem_rip_reg16 : patchable (binary_emit_mov_mem_rip_reg16 r) (fun d => MOV W16 (Rip d) (Reg r)).
Proof. unfold binary_emit_mov_mem_rip_reg16. encode_rip. Qed.

Lemma patchable_mov_mem_rip_reg32 : patchable (binary_emit_mov_mem_rip_reg32 r) (fun d => MOV W32 (Rip d) (Reg r)).
Proof. unfold binary_emit_mov_mem_rip_reg32. encode_rip. Qed.

Lemma patchable_mov_mem_rip_reg : patchable (binary_emit_mov_mem_rip_reg r) (fun d => MOV W64 (Rip d) (Reg r)).
Proof. unfold binary_emit_mov_mem_rip_reg. encode_rip. Qed.

Lemma patchable_movzx_reg_rip_mem8 : patchable (binary_emit_movzx_reg_rip_mem8 r) (fun d => MOVZX W8 W32 r (Rip d)).
Proof. unfold binary_emit_movzx_reg_rip_mem8. encode_rip. Qed.

Lemma patchable_movzx_reg_rip_mem16 : patchable (binary_emit_movzx_reg_rip_mem16 r) (fun d => MOVZX W16 W32 r (Rip d)).
Proof. unfold binary_emit_movzx_reg_rip_mem16. encode_rip. Qed.

Lemma patchable_lea_reg_rip : patchable (binary_emit_lea_reg_rip_placeholder r) (fun d => LEA W64 r (Rip d)).
Proof.
  change (binary_emit_lea_reg_rip_placeholder r)
    with (binary_emit_rip_relative_access_ex_internal false 1 0x8D None r false). encode_rip. Qed.

End rip.

Lemma patchable_call : patchable binary_emit_call_placeholder CALL.
Proof.
  exists [byte.of_Z 0xE8]. split; [exact (emits_seq _ _ [_] _ _ (emits_bytes _) emits_placeholder)|].
  intros v rest. cbn [app]. rewrite decode_plain by done. cbn. by rewrite signed_field_32.
Qed.

Lemma patchable_jmp : patchable binary_emit_jmp_placeholder JMP.
Proof.
  exists [byte.of_Z 0xE9]. split; [exact (emits_seq _ _ [_] _ _ (emits_bytes _) emits_placeholder)|].
  intros v rest. cbn [app]. rewrite decode_plain by done. cbn. by rewrite signed_field_32.
Qed.

Lemma patchable_jcc cc :
  (0 <= cc < 16)%Z → patchable (binary_emit_jcc_placeholder (0x80 + cc)) (JCC cc).
Proof.
  intros Hcc. eapply (patchable_intro _ _ [byte.of_Z 0x0F; byte.of_Z (0x80 + cc)]).
  - apply emits_seq; [apply emits_bytes|]. apply emits_seq; [apply emits_bytes|apply emits_placeholder].
  - done.
  - intros n. cbn. lia.
  - intros v. second_opcode. by rewrite decode_jcc, signed_field_32.
Qed.

(** ** The specification of the encoders *)

Create HintDb asm discriminated.
#[export] Hint Constants Opaque : asm.

(** What each encoder stands for: the instructions it is to append. *)
Inductive encodes : Emit () → list instr → Prop :=
  | enc_syscall : encodes binary_emit_syscall [SYSCALL]
  | enc_push r : encodes (binary_emit_push_reg r) [PUSH r]
  | enc_pop r : encodes (binary_emit_pop_reg r) [POP r]
  | enc_mov d s : encodes (binary_emit_mov_reg_reg d s) (mov_program W64 d s)
  | enc_mov32 d s : encodes (binary_emit_mov_reg_reg32 d s) (mov_program W32 d s)
  | enc_mov_imm32 r imm : encodes (binary_emit_mov_reg_imm32_zero_extend r imm) [MOVI W32 r (s32 imm)]
  | enc_mov_imm64 r imm : (0 <= imm)%Z → encodes (binary_emit_mov_reg_imm64 r imm) (mov_imm64_program r imm)
  | enc_xor32 r : encodes (binary_emit_xor_reg_reg32 r) [ALU XOR W32 (Reg r) (Reg r)]
  | enc_alu_imm op r imm : encodes (binary_emit_alu_reg_imm32 (sub_of op) r imm) (alu_imm_program op r imm)
  | enc_alu_rsp op imm : encodes (binary_emit_alu_rsp_imm32 (sub_of op) imm)
      (if (imm =? 0)%Z then [] else [ALUI op W64 (Reg BINARY_GP_RSP) (s32 imm)])
  | enc_cmp_imm r imm : encodes (binary_emit_cmp_reg_imm32 r imm) (cmp_imm_program r imm)
  | enc_test r : encodes (binary_emit_test_reg_reg r) [TEST W64 (Reg r) (Reg r)]
  | enc_test_imm r imm : encodes (binary_emit_test_reg_imm32 r imm) [TESTI W64 (Reg r) (s32 imm)]
  | enc_cmp a b : encodes (binary_emit_cmp_reg_reg a b) [ALU CMP W64 (Reg a) (Reg b)]
  | enc_cmp32 a b : encodes (binary_emit_cmp_reg_reg32 a b) [ALU CMP W32 (Reg a) (Reg b)]
  | enc_mov_load r b d : in_int32 d →
      encodes (binary_emit_mov_reg_mem r b d) [MOV W64 (Reg r) (Mem (Some (gp_code b)) None d)]
  | enc_mov_store r b d : in_int32 d →
      encodes (binary_emit_mov_mem_reg b d r) [MOV W64 (Mem (Some (gp_code b)) None d) (Reg r)]
  | enc_movzx_load8 r b d : in_int32 d →
      encodes (binary_emit_movzx_reg_mem8 r b d) [MOVZX W8 W32 r (Mem (Some (gp_code b)) None d)]
  | enc_movzx_load16 r b d : in_int32 d →
      encodes (binary_emit_movzx_reg_mem16 r b d) [MOVZX W16 W32 r (Mem (Some (gp_code b)) None d)]
  | enc_mov_load32 r b d : in_int32 d →
      encodes (binary_emit_mov_reg_mem32 r b d) [MOV W32 (Reg r) (Mem (Some (gp_code b)) None d)]
  | enc_mov_store8 r b d : in_int32 d →
      encodes (binary_emit_mov_mem_reg8 b d r) [MOV W8 (Mem (Some (gp_code b)) None d) (Reg r)]
  | enc_mov_store16 r b d : in_int32 d →
      encodes (binary_emit_mov_mem_reg16 b d r) [MOV W16 (Mem (Some (gp_code b)) None d) (Reg r)]
  | enc_mov_store32 r b d : in_int32 d →
      encodes (binary_emit_mov_mem_reg32 b d r) [MOV W32 (Mem (Some (gp_code b)) None d) (Reg r)]
  | enc_lea r b d : in_int32 d →
      encodes (binary_emit_lea_reg_mem r b d) [LEA W64 r (Mem (Some (gp_code b)) None d)]
  | enc_lea_sib r b i s d : in_int32 d → i ≠ BINARY_GP_RSP → s ∈ [1; 2; 4; 8]%Z →
      encodes (binary_emit_lea_reg_base_index_scale_disp r b i s d)
        [LEA W64 r (Mem (Some (gp_code b)) (Some (gp_code i, s)) d)]
  | enc_cmov cc d s : (0 <= cc < 16)%Z →
      encodes (binary_emit_cmovcc_reg_reg (0x40 + cc) d s) [CMOV cc W64 d (Reg s)]
  | enc_alu op d s : encodes (binary_emit_alu_reg_reg (alu_opcode op) d s) [ALU op W64 (Reg d) (Reg s)]
  | enc_alu8 op (d s : BinaryGpRegister) : (d < 4)%Z → (s < 4)%Z →
      encodes (binary_emit_alu_reg8_reg8 (alu_opcode8 op) d s) [ALU op W8 (Reg d) (Reg s)]
  | enc_imul d s : encodes (binary_emit_imul_reg_reg d s) [IMUL W64 d (Reg s)]
  | enc_neg r : encodes (binary_emit_neg_reg r) [UNARY NEG W64 (Reg r)]
  | enc_not r : encodes (binary_emit_not_reg r) [UNARY NOT W64 (Reg r)]
  | enc_idiv r : encodes (binary_emit_idiv_reg r) [UNARY IDIV W64 (Reg r)]
  | enc_shift_cl s r : encodes (binary_emit_shift_reg_cl (shift_sub s) r) [SHIFT s W64 (Reg r) By_cl]
  | enc_shift_imm s r n : (0 <= n < 256)%Z →
      encodes (binary_emit_shift_reg_imm8 (shift_sub s) r n) (shift_program s r n)
  | enc_cqo : encodes binary_emit_cqo [CQO]
  | enc_setcc_al cc : (0 <= cc < 16)%Z → encodes (binary_emit_setcc_al (0x90 + cc)) [SETCC cc (Reg RAX)]
  | enc_setcc cc (r : BinaryGpRegister) : (0 <= cc < 16)%Z → (r < 4)%Z →
      encodes (binary_emit_setcc_reg8 (0x90 + cc) r) [SETCC cc (Reg r)]
  | enc_movzx_eax_al : encodes binary_emit_movzx_eax_al [MOVZX W8 W32 RAX (Reg RAX)]
  | enc_movzx_eax_ax : encodes binary_emit_movzx_eax_ax [MOVZX W16 W32 RAX (Reg RAX)]
  | enc_movsx_rax_al : encodes binary_emit_movsx_rax_al [MOVSX W8 W64 RAX (Reg RAX)]
  | enc_movsx_rax_ax : encodes binary_emit_movsx_rax_ax [MOVSX W16 W64 RAX (Reg RAX)]
  | enc_movsx8 d s : encodes (binary_emit_movsx_reg_reg8 d s) [MOVSX W8 W64 d (Reg s)]
  | enc_movsx16 d s : encodes (binary_emit_movsx_reg_reg16 d s) [MOVSX W16 W64 d (Reg s)]
  | enc_movsxd_rax : encodes binary_emit_movsxd_rax_eax [MOVSX W32 W64 RAX (Reg RAX)]
  | enc_movsxd d s : encodes (binary_emit_movsxd_reg_reg32 d s) [MOVSX W32 W64 d (Reg s)]
  | enc_mov_eax_eax : encodes binary_emit_mov_eax_eax [MOV W32 (Reg RAX) (Reg RAX)]
  | enc_movq_to x s : encodes (binary_emit_movq_xmm_reg x s) [MOV_TO_X W64 x (Reg s)]
  | enc_movq_from d x : encodes (binary_emit_movq_reg_xmm d x) [MOV_FROM_X W64 (Reg d) x]
  | enc_movd_to x s : encodes (binary_emit_movd_xmm_reg x s) [MOV_TO_X W32 x (Reg s)]
  | enc_movd_from d x : encodes (binary_emit_movd_reg_xmm d x) [MOV_FROM_X W32 (Reg d) x]
  | enc_pxor x y : encodes (binary_emit_pxor_xmm_xmm x y) [PXOR x (Reg y)]
  | enc_addsd x y : encodes (binary_emit_addsd_xmm_xmm x y) [FARITH FADD Double x (Reg y)]
  | enc_subsd x y : encodes (binary_emit_subsd_xmm_xmm x y) [FARITH FSUB Double x (Reg y)]
  | enc_mulsd x y : encodes (binary_emit_mulsd_xmm_xmm x y) [FARITH FMUL Double x (Reg y)]
  | enc_divsd x y : encodes (binary_emit_divsd_xmm_xmm x y) [FARITH FDIV Double x (Reg y)]
  | enc_addss x y : encodes (binary_emit_addss_xmm_xmm x y) [FARITH FADD Single x (Reg y)]
  | enc_subss x y : encodes (binary_emit_subss_xmm_xmm x y) [FARITH FSUB Single x (Reg y)]
  | enc_mulss x y : encodes (binary_emit_mulss_xmm_xmm x y) [FARITH FMUL Single x (Reg y)]
  | enc_divss x y : encodes (binary_emit_divss_xmm_xmm x y) [FARITH FDIV Single x (Reg y)]
  | enc_ucomisd x y : encodes (binary_emit_ucomisd_xmm_xmm x y) [UCOMI Double x (Reg y)]
  | enc_ucomiss x y : encodes (binary_emit_ucomiss_xmm_xmm x y) [UCOMI Single x (Reg y)]
  | enc_cvttsd2si r x : encodes (binary_emit_cvttsd2si_reg_xmm r x) [CVT_TO_INT Double W64 r (Reg x)]
  | enc_cvttss2si r x : encodes (binary_emit_cvttss2si_reg_xmm r x) [CVT_TO_INT Single W64 r (Reg x)]
  | enc_cvtsi2sd x r : encodes (binary_emit_cvtsi2sd_xmm_reg x r) [CVT_OF_INT Double W64 x (Reg r)]
  | enc_cvtsi2ss x r : encodes (binary_emit_cvtsi2ss_xmm_reg x r) [CVT_OF_INT Single W64 x (Reg r)]
  | enc_cvtss2sd x y : encodes (binary_emit_cvtss2sd_xmm_xmm x y) [CVT_TO_DOUBLE x (Reg y)]
  | enc_cvtsd2ss x y : encodes (binary_emit_cvtsd2ss_xmm_xmm x y) [CVT_TO_SINGLE x (Reg y)]
  | enc_call_reg r : encodes (binary_emit_call_reg r) [CALLR (Reg r)]
  | enc_ret : encodes binary_emit_ret [RET].

Lemma asm_alu_rsp op imm :
  asm (binary_emit_alu_rsp_imm32 (sub_of op) imm) unit_result
    (if (imm =? 0)%Z then [] else [ALUI op W64 (Reg BINARY_GP_RSP) (s32 imm)]).
Proof. unfold binary_emit_alu_rsp_imm32. case_match; [apply asm_ret|apply asm_emit_alu_imm]. Qed.

Lemma asm_lea_scale r b i s d :
  in_int32 d → i ≠ BINARY_GP_RSP → s ∈ [1; 2; 4; 8]%Z →
  asm (binary_emit_lea_reg_base_index_scale_disp r b i s d) unit_result
    [LEA W64 r (Mem (Some (gp_code b)) (Some (gp_code i, s)) d)].
Proof.
  intros Hd Hi Hs. assert (is_Some (scale_bits s)) as [ss Hss].
  { rewrite !elem_of_cons, elem_of_nil in Hs. destruct Hs as [->|[->|[->|[->|[]]]]]; by eexists. }
  by eapply asm_lea_sib.
Qed.

Lemma asm_cmp64 a b : asm (binary_emit_cmp_reg_reg a b) unit_result [ALU CMP W64 (Reg a) (Reg b)].
Proof. exact (asm_cmp true a b). Qed.
Lemma asm_cmp32 a b : asm (binary_emit_cmp_reg_reg32 a b) unit_result [ALU CMP W32 (Reg a) (Reg b)].
Proof. exact (asm_cmp false a b). Qed.
Lemma asm_neg r : asm (binary_emit_neg_reg r) unit_result [UNARY NEG W64 (Reg r)].
Proof. exact (asm_unary NEG r). Qed.
Lemma asm_not r : asm (binary_emit_not_reg r) unit_result [UNARY NOT W64 (Reg r)].
Proof. exact (asm_unary NOT r). Qed.
Lemma asm_idiv r : asm (binary_emit_idiv_reg r) unit_result [UNARY IDIV W64 (Reg r)].
Proof. exact (asm_unary IDIV r). Qed.
Lemma asm_xor32 r : asm (binary_emit_xor_reg_reg32 r) unit_result [ALU XOR W32 (Reg r) (Reg r)].
Proof. encode. Qed.
Lemma asm_cqo : asm binary_emit_cqo unit_result [CQO].
Proof. encode. Qed.

Lemma rex_byte_wide r x b : (rex_byte 1 r x b =? 0x40)%Z = false.
Proof. unfold rex_byte. by destruct (r =? 0)%Z, (x =? 0)%Z, (b =? 0)%Z. Qed.

Lemma asm_movsx8 (d s : BinaryGpRegister) :
  asm (binary_emit_movsx_reg_reg8 d s) unit_result [MOVSX W8 W64 d (Reg s)].
Proof. unfold binary_emit_movsx_reg_reg8. encode. by rewrite rex_byte_wide. Qed.

#[export] Hint Resolve asm_push asm_pop asm_mov asm_mov32 asm_mov_imm32 asm_mov_imm64 asm_alu_imm
  asm_alu_rsp asm_cmp_imm asm_test asm_test_imm asm_mov_reg_mem asm_mov_mem_reg asm_movzx_reg_mem8
  asm_movzx_reg_mem16 asm_mov_reg_mem32 asm_mov_mem_reg8 asm_mov_mem_reg16 asm_mov_mem_reg32
  asm_lea_reg_mem asm_lea_scale asm_cmov asm_alu asm_alu8 asm_imul asm_shift_cl asm_shift_imm
  asm_setcc_al asm_setcc asm_call_reg asm_cmp64 asm_cmp32 asm_neg asm_not asm_idiv asm_xor32
  asm_cqo asm_movsx8 : asm.

(** A definition of Encoders.v by its head constant. *)
Ltac encode_by_name :=
  lazymatch goal with
  | |- asm ?e _ _ => let h := match e with ?h _ _ => h | ?h _ => h | ?h => h end in unfold h
  end;
  try unfold binary_emit_sse_reg_reg, emit_cross; encode.

Lemma encodes_asm e program : encodes e program → asm e unit_result program.
Proof. intros []; auto with asm; encode_by_name. Qed.

(** C21. Every encoder appends to the code buffer bytes that decode, by the instruction
    format of the processor, to the instruction it is named after: the REX bits, the
    ModRM and SIB bytes, the forced prefix of the byte registers, the short and long
    immediates and displacements agree with the decoder for all registers and
    operands. *)
Theorem encoders_decode e program buffer :
  encodes e program →
  ∃ bytes, e buffer = (Some (), buffer ++ bytes) ∧ decode_all (length program) bytes = Some program.
Proof. intros H. exact (asm_decode e unit_result program buffer (encodes_asm e program H)). Qed.

Lemma encoders_decode_witness :
  ∃ bytes, binary_emit_mov_mem_reg8 BINARY_GP_R12 (-8) BINARY_GP_RSI [] = (Some (), bytes) ∧
    decode_all 1 bytes = Some [MOV W8 (Mem (Some 12%Z) None (-8)) (Reg 6)].
Proof.
  assert (in_int32 (-8)) as Hd by (unfold in_int32; lia).
  exact (encoders_decode _ _ [] (enc_mov_store8 BINARY_GP_RSI BINARY_GP_R12 (-8) Hd)).
Defined.

(** ** Branches *)

(** The encoders that leave a 32-bit field for later, and their instructions. *)
Inductive leaves_field : Emit nat → (Z → instr) → Prop :=
  | lf_call : leaves_field binary_emit_call_placeholder CALL
  | lf_jmp : leaves_field binary_emit_jmp_placeholder JMP
  | lf_je : leaves_field binary_emit_je_placeholder (JCC 4)
  | lf_jcc cc : (0 <= cc < 16)%Z → leaves_field (binary_emit_jcc_placeholder (0x80 + cc)) (JCC cc)
  | lf_lea r : leaves_field (binary_emit_lea_reg_rip_placeholder r) (fun d => LEA W64 r (Rip d))
  | lf_load r : leaves_field (binary_emit_mov_reg_rip_mem r) (fun d => MOV W64 (Reg r) (Rip d))
  | lf_load32 r : leaves_field (binary_emit_mov_reg32_rip_mem r) (fun d => MOV W32 (Reg r) (Rip d))
  | lf_load8 r : leaves_field (binary_emit_movzx_reg_rip_mem8 r) (fun d => MOVZX W8 W32 r (Rip d))
  | lf_load16 r : leaves_field (binary_emit_movzx_reg_rip_mem16 r) (fun d => MOVZX W16 W32 r (Rip d))
  | lf_store r : leaves_field (binary_emit_mov_mem_rip_reg r) (fun d => MOV W64 (Rip d) (Reg r))
  | lf_store8 r : leaves_field (binary_emit_mov_mem_rip_reg8 r) (fun d => MOV W8 (Rip d) (Reg r))
  | lf_store16 r : leaves_field (binary_emit_mov_mem_rip_reg16 r) (fun d => MOV W16 (Rip d) (Reg r))
  | lf_store32 r : leaves_field (binary_emit_mov_mem_rip_reg32 r) (fun d => MOV W32 (Rip d) (Reg r)).

Lemma leaves_field_patchable e make : leaves_field e make → patchable e make.
Proof.
  intros []; [apply patchable_call|apply patchable_jmp|by apply (patchable_jcc 4)|by apply patchable_jcc
    |apply patchable_lea_reg_rip|apply patchable_mov_reg_rip_mem|apply patchable_mov_reg32_rip_mem
    |apply patchable_movzx_reg_rip_mem8|apply patchable_movzx_reg_rip_mem16|apply patchable_mov_mem_rip_reg
    |apply patchable_mov_mem_rip_reg8|apply patchable_mov_mem_rip_reg16|apply patchable_mov_mem_rip_reg32].
Qed.

Lemma overwrite_middle a b c (d : list byte) :
  length b = length d → overwrite (length a) d (a ++ b ++ c) = a ++ d ++ c.
Proof.
  intros Hl. unfold overwrite. rewrite take_app_length. do 2 f_equal.
  by rewrite <- Hl, <- length_app, app_assoc, drop_app_length.
Qed.

(** C22. An instruction emitted with its displacement left out, followed by any code and
    patched with the offset of a target, decodes to an instruction whose displacement
    leads from its end exactly to the target; the rest of the code is as it was.  The
    patch fails, and changes nothing, when the distance does not fit 32 bits. *)
Theorem branch_patched e make buffer after target :
  leaves_field e make →
  ∃ offset code, e buffer = (Some offset, buffer ++ code) ∧
    let finish := length buffer + length code in
    let distance := (Z.of_nat target - Z.of_nat finish)%Z in
    let patched := binary_function_context_patch_rel32 offset target (buffer ++ code ++ after) in
    if (INT32_MIN <=? distance)%Z && (distance <=? INT32_MAX)%Z then
      ∃ code', patched = (Some (), buffer ++ code' ++ after) ∧ length code' = length code ∧
        decode (code' ++ after) = Some (make distance, after)
    else patched = (None, buffer ++ code ++ after).
Proof.
  intros He. destruct (leaves_field_patchable e make He) as (header & Hem & Hd).
  exists (length buffer + length header), (header ++ le_split 4 0). split; [apply Hem|]. cbn zeta.
  unfold binary_function_context_patch_rel32. rewrite !length_app, length_le_split.
  rewrite (proj2 (Nat.ltb_ge _ _)) by lia.
  replace (length buffer + length header + 4) with (length buffer + (length header + 4)) by lia.
  set (dist := (Z.of_nat target - _)%Z).
  destruct ((INT32_MIN <=? dist)%Z && (dist <=? INT32_MAX)%Z) eqn:Hin.
  - replace ((dist <? INT32_MIN)%Z || (INT32_MAX <? dist)%Z) with false by lia.
    exists (header ++ le_split 4 dist). rewrite <- !app_assoc. split_and!.
    + do 2 f_equal. rewrite !app_assoc, <- length_app, <- app_assoc.
      by rewrite overwrite_middle, !app_assoc by (by rewrite !length_le_split).
    + by rewrite !length_app, !length_le_split.
    + rewrite Hd. unfold INT32_MIN, INT32_MAX in Hin. rewrite wrap_s_id; [done|lia|].
      cbn. lia.
  - by replace ((dist <? INT32_MIN)%Z || (INT32_MAX <? dist)%Z) with true by lia.
Qed.

Lemma branch_patched_witness :
  ∃ offset code, binary_emit_je_placeholder [] = (Some offset, code) ∧
    ∃ code', binary_function_context_patch_rel32 offset 100 (code ++ [byte.of_Z 0xC3])
             = (Some (), code' ++ [byte.of_Z 0xC3]) ∧
      decode (code' ++ [byte.of_Z 0xC3]) = Some (JCC 4 94, [byte.of_Z 0xC3]).
Proof.
  destruct (branch_patched binary_emit_je_placeholder (JCC 4) [] [byte.of_Z 0xC3] 100)
    as (offset & code & He & Hp); [constructor|].
  exists offset, code. split; [exact He|]. vm_compute in He. injection He as <- <-.
  destruct Hp as (code' & Hp & _ & Hd). by exists code'.
Defined.
