(* ===== verification/X86Facts.v ===== *)
(** * Executing the instructions of the compiler

    Symbolic execution of straight-line register code: which registers a sequence
    changes ([changes]), what it leaves in one of them, and the arithmetic modulo
    2^64 of the instructions. *)

From S2P Require Import Prelude.
From S2P Require Import X86.
From S2P Require Import Encoders.
From S2P Require Import EncoderFacts.

(** ** Arithmetic on 64-bit patterns *)

Lemma u64_range v : (0 <= u64 v < 2 ^ 64)%Z.
Proof. by apply wrap_u_range. Qed.

Lemma u64_eq a b : (a mod 2 ^ 64 = b mod 2 ^ 64)%Z → u64 a = u64 b.
Proof. done. Qed.

Lemma u64_idem v : u64 (u64 v) = u64 v.
Proof. apply Z.mod_mod. lia. Qed.

Lemma u64_id v : (0 <= v < 2 ^ 64)%Z → u64 v = v.
Proof. apply wrap_u_id. Qed.

Lemma u64_add_l a b : u64 (u64 a + b) = u64 (a + b).
Proof. apply Zplus_mod_idemp_l. Qed.
Lemma u64_add_r a b : u64 (a + u64 b) = u64 (a + b).
Proof. apply Zplus_mod_idemp_r. Qed.
Lemma u64_sub_l a b : u64 (u64 a - b) = u64 (a - b).
Proof. apply Zminus_mod_idemp_l. Qed.
Lemma u64_sub_r a b : u64 (a - u64 b) = u64 (a - b).
Proof. apply Zminus_mod_idemp_r. Qed.
Lemma u64_mul_l a b : u64 (u64 a * b) = u64 (a * b).
Proof. apply Zmult_mod_idemp_l. Qed.
Lemma u64_mul_r a b : u64 (a * u64 b) = u64 (a * b).
Proof. apply Zmult_mod_idemp_r. Qed.

Lemma u64_s64 v : u64 (s64 v) = u64 v.
Proof. by apply wrap_s_mod. Qed.
Lemma s64_idem v : s64 (s64 v) = s64 v.
Proof. apply s64_in, s64_range. Qed.

Lemma u64_shiftl_l a n : (0 <= n)%Z → u64 (Z.shiftl (u64 a) n) = u64 (a * 2 ^ n).
Proof. intros Hn. by rewrite Z.shiftl_mul_pow2, u64_mul_l. Qed.

(** Bits of a pattern. *)
Lemma u64_bits v i : (0 <= i)%Z → Z.testbit (u64 v) i = (i <? 64)%Z && Z.testbit v i.
Proof.
  intros Hi. unfold wrap_u. destruct (Z.ltb_spec i 64).
  - by rewrite Z.mod_pow2_bits_low.
  - by rewrite Z.mod_pow2_bits_high by lia.
Qed.

Lemma u64_bitwise (op : Z → Z → Z) (f : bool → bool → bool) a b :
  (∀ x y i, (0 <= i)%Z → Z.testbit (op x y) i = f (Z.testbit x i) (Z.testbit y i)) →
  f false false = false →
  op (u64 a) (u64 b) = u64 (op a b).
Proof.
  intros Hop Hf. apply Z.bits_inj'. intros i Hi.
  rewrite Hop, !u64_bits, Hop by done. by destruct (i <? 64)%Z; simpl.
Qed.

Lemma u64_land a b : Z.land (u64 a) (u64 b) = u64 (Z.land a b).
Proof. apply (u64_bitwise Z.land andb); [|done]. intros. apply Z.land_spec. Qed.
Lemma u64_lor a b : Z.lor (u64 a) (u64 b) = u64 (Z.lor a b).
Proof. apply (u64_bitwise Z.lor orb); [|done]. intros. apply Z.lor_spec. Qed.
Lemma u64_lxor a b : Z.lxor (u64 a) (u64 b) = u64 (Z.lxor a b).
Proof. apply (u64_bitwise Z.lxor xorb); [|done]. intros. apply Z.lxor_spec. Qed.

Create Rewrite HintDb pattern.
#[export] Hint Rewrite u64_idem u64_add_l u64_add_r u64_sub_l u64_sub_r u64_mul_l u64_mul_r
  s64_u64 u64_s64 u64_land u64_lor u64_lxor s64_idem : pattern.

(** ** What a sequence changes *)

Definition machine_ok (m : machine) : Prop := ∀ r, (0 <= regs m r < 2 ^ 64)%Z.

Definition changes (rs : list Z) (m m' : machine) : Prop :=
  memory m' = memory m ∧ (∀ r, r ∉ rs → regs m' r = regs m r) ∧ (machine_ok m → machine_ok m').

Lemma changes_refl rs m : changes rs m m.
Proof. done. Qed.

Lemma changes_trans rs m1 m2 m3 : changes rs m1 m2 → changes rs m2 m3 → changes rs m1 m3.
Proof.
  intros (Hm1 & Hr1 & Hk1) (Hm2 & Hr2 & Hk2). split_and!; [congruence| |auto].
  intros r Hr. by rewrite Hr2, Hr1.
Qed.

Lemma changes_weaken rs rs' m m' : rs ⊆ rs' → changes rs m m' → changes rs' m m'.
Proof. intros Hs (Hm & Hr & Hk). split_and!; [done| |done]. intros r Hn. apply Hr. set_solver. Qed.

Lemma changes_set_reg rs m r v : r ∈ rs → changes rs m (set_reg m W64 r v).
Proof.
  intros Hr. split_and!; [done| |].
  - intros r' Hr'. simpl. unfold update. destruct (Z.eqb_spec r' r) as [->|]; [done|done].
  - intros Hok r'. simpl. unfold update. destruct (r' =? r)%Z; [by apply wrap_u_range|apply Hok].
Qed.

Lemma changes_set_reg32 rs m r v : r ∈ rs → changes rs m (set_reg m W32 r v).
Proof.
  intros Hr. split_and!; [done| |].
  - intros r' Hr'. simpl. unfold update. destruct (Z.eqb_spec r' r) as [->|]; [done|done].
  - intros Hok r'. simpl. unfold update. destruct (r' =? r)%Z; [|apply Hok].
    pose proof (wrap_u_range 32 v). lia.
Qed.

Lemma changes_set_status rs m s : changes rs m (set_status m s).
Proof. done. Qed.

(** [p] stops with [v] in [r], changing no more than [rs]. *)
Definition leaves (p : list instr) (rs : list Z) (m : machine) (r v : Z) : Prop :=
  ∃ m', run p m = Next m' ∧ changes rs m m' ∧ regs m' r = v.

Lemma leaves_nil rs m r : leaves [] rs m r (regs m r).
Proof. by exists m. Qed.

Lemma leaves_eq p rs m r v v' : leaves p rs m r v → v = v' → leaves p rs m r v'.
Proof. by intros H <-. Qed.

Lemma leaves_weaken p rs rs' m r v : rs ⊆ rs' → leaves p rs m r v → leaves p rs' m r v.
Proof. intros Hs (m' & Hr & Hc & Hv). exists m'. split_and!; [done|by eapply changes_weaken|done]. Qed.

Lemma leaves_app p1 p2 rs m r1 v1 r v :
  leaves p1 rs m r1 v1 →
  (∀ m1, changes rs m m1 → regs m1 r1 = v1 → leaves p2 rs m1 r v) →
  leaves (p1 ++ p2) rs m r v.
Proof.
  intros (m1 & H1 & C1 & V1) H2. destruct (H2 m1 C1 V1) as (m2 & R2 & C2 & V2).
  exists m2. rewrite run_app, H1. split_and!; [done|by eapply changes_trans|done].
Qed.

Lemma update_same f r v : update f r v r = v.
Proof. unfold update. by rewrite Z.eqb_refl. Qed.

Lemma update_other f r r' v : r' ≠ r → update f r v r' = f r'.
Proof. intros H. unfold update. by rewrite (proj2 (Z.eqb_neq r' r)). Qed.

(** One instruction that writes a 64-bit register. *)
Lemma leaves_set i m r v s :
  exec i m = Next (set_status (set_reg m W64 r v) s) → leaves [i] [r] m r (u64 v).
Proof.
  intros He. exists (set_status (set_reg m W64 r v) s). simpl. rewrite He. split_and!; [done| |].
  - apply (changes_trans _ _ (set_reg m W64 r v)); [apply changes_set_reg; left|apply changes_set_status].
  - simpl. apply update_same.
Qed.

(** ** Operations with an immediate

    What the encoders that choose between several instructions compute: constants,
    arithmetic with an immediate, shifts, products by a constant and comparisons. *)

Lemma regs_ok m (r : BinaryGpRegister) : machine_ok m → u64 (regs m r) = regs m r.
Proof. intros Hok. apply u64_id, Hok. Qed.

Lemma gp_code_inj (a b : BinaryGpRegister) : gp_code a = gp_code b → a = b.
Proof. by destruct a, b. Qed.

(** ** Moves *)

Lemma leaves_mov m (d s : BinaryGpRegister) :
  machine_ok m → leaves (mov_program W64 d s) [gp_code d] m d (regs m s).
Proof.
  intros Hok. unfold mov_program. destruct (Z.eqb_spec d s) as [->|].
  - apply leaves_nil.
  - eapply leaves_eq; [by apply (leaves_set _ m d (regs m s) (status m)); simpl; rewrite regs_ok|].
    by apply regs_ok.
Qed.

(** Constants leave the flags as they are. *)
Lemma mov_imm64_run m (r : BinaryGpRegister) imm :
  (0 <= imm < 2 ^ 64)%Z →
  ∃ m', run (mov_imm64_program r imm) m = Next m' ∧ changes [gp_code r] m m' ∧
    regs m' r = imm ∧ status m' = status m.
Proof.
  intros Himm. unfold mov_imm64_program, UINT32_MAX.
  destruct (Z.leb_spec imm 0xFFFFFFFF); [|destruct (Z.leb_spec 0xffffffff80000000 imm)].
  - exists (set_reg m W32 r (s32 imm)). split_and!; [done|apply changes_set_reg32; left| |done].
    simpl. rewrite update_same. unfold wrap_u. rewrite wrap_s_mod by done. apply Z.mod_small. lia.
  - exists (set_reg m W64 r (s32 imm)). split_and!; [done|apply changes_set_reg; left| |done].
    simpl. rewrite update_same.
    replace (s32 imm) with (imm - 2 ^ 64)%Z.
    + change (u64 (imm - 2 ^ 64) = imm). replace (imm - 2 ^ 64)%Z with (imm + (-1) * 2 ^ 64)%Z by lia.
      unfold wrap_u. rewrite Z.mod_add by lia. apply Z.mod_small. lia.
    + symmetry. rewrite (wrap_s_eq 32 imm (imm - 2 ^ 64)); [apply wrap_s_id; lia|lia|].
      replace (imm - 2 ^ 64)%Z with (imm + (- 2 ^ 32) * 2 ^ 32)%Z by lia. by rewrite Z.mod_add by lia.
  - exists (set_reg m W64 r (s64 imm)). split_and!; [done|apply changes_set_reg; left| |done].
    simpl. rewrite update_same. change (u64 (s64 imm) = imm). rewrite u64_s64. by apply u64_id.
Qed.

Lemma leaves_mov_imm64 m (r : BinaryGpRegister) imm :
  (0 <= imm < 2 ^ 64)%Z → leaves (mov_imm64_program r imm) [gp_code r] m r imm.
Proof. intros Hi. destruct (mov_imm64_run m r imm Hi) as (m' & ? & ? & ? & _). by exists m'. Qed.

(** ** Arithmetic *)

Definition alu_function (op : alu) : option (Z → Z → Z) :=
  match op with
  | ADD => Some Z.add | SUB => Some Z.sub | AND => Some Z.land | OR => Some Z.lor | XOR => Some Z.lxor
  | _ => None
  end.

Lemma alu_value_function op f a b :
  alu_function op = Some f → op ≠ CMP ∧ ∃ v fl, alu_value op W64 a b = Some (v, fl) ∧ u64 v = u64 (f a b).
Proof.
  intros Hf. destruct op; simplify_option_eq; (split; [done|]); eexists _, _; (split; [reflexivity|]);
    try done; apply u64_idem.
Qed.

Lemma exec_alu_set op f m r b :
  alu_function op = Some f →
  ∃ s, exec_alu m op W64 (Reg r) b = Some (set_status (set_reg m W64 r (f (u64 (regs m r)) b)) s).
Proof.
  intros Hf. destruct (alu_value_function op f (u64 (regs m r)) b Hf) as (Hc & v & fl & Hv & Heq).
  exists (Some fl). unfold exec_alu, get. change (bits W64) with 64%Z. cbn [mbind option_bind].
  rewrite Hv. cbn [mbind option_bind].
  assert (set_reg m W64 r v = set_reg m W64 r (f (u64 (regs m r)) b)) as Hset.
  { unfold set_reg. change (bits W64) with 64%Z. by rewrite Heq. }
  by destruct op; try done; cbn [put mbind option_bind]; rewrite Hset.
Qed.

Lemma leaves_alui op f m (r : BinaryGpRegister) imm :
  machine_ok m → alu_function op = Some f →
  leaves [ALUI op W64 (Reg r) imm] [gp_code r] m r (u64 (f (regs m r) (u64 imm))).
Proof.
  intros Hok Hf. destruct (exec_alu_set op f m r (u64 imm) Hf) as [s Hs]. rewrite regs_ok in Hs by done.
  eapply leaves_set. unfold exec. change (bits W64) with 64%Z. by rewrite Hs.
Qed.

Lemma leaves_alu op f m (d s : BinaryGpRegister) :
  machine_ok m → alu_function op = Some f →
  leaves [ALU op W64 (Reg d) (Reg s)] [gp_code d] m d (u64 (f (regs m d) (regs m s))).
Proof.
  intros Hok Hf. destruct (exec_alu_set op f m d (regs m s) Hf) as [st Hs]. rewrite regs_ok in Hs by done.
  eapply leaves_set. unfold exec, get. change (bits W64) with 64%Z. cbn [mbind option_bind].
  rewrite regs_ok by done. by rewrite Hs.
Qed.

(** The operators of the immediate forms on the operands' values. *)
Lemma alu_function_pattern op f a b :
  alu_function op = Some f → u64 (f (u64 a) (u64 b)) = u64 (f a b).
Proof.
  intros Hf. destruct op; simplify_option_eq; autorewrite with pattern; try done.
Qed.

Lemma leaves_alu_imm op f m (r : BinaryGpRegister) imm a :
  machine_ok m → alu_function op = Some f → (0 <= imm < 2 ^ 32)%Z → regs m r = u64 a →
  leaves (alu_imm_program op r imm) [gp_code r] m r (u64 (f a (s32 imm))).
Proof.
  intros Hok Hf Hi Ha.
  assert (leaves [ALUI op W64 (Reg r) (s32 imm)] [gp_code r] m r (u64 (f a (s32 imm)))) as Hgen.
  { eapply leaves_eq; [by apply (leaves_alui op f)|]. rewrite Ha. by exact (alu_function_pattern op f a (s32 imm) Hf). }
  assert (∀ g : Z → Z, g a = a → leaves [] [gp_code r] m r (u64 (g a))) as Hnil.
  { intros g ->. rewrite <- Ha. apply leaves_nil. }
  destruct op; simplify_option_eq; unfold alu_imm_program; try exact Hgen.
  1,2,4,5: destruct (Z.eqb_spec imm 0) as [->|]; [|exact Hgen].
  - apply (Hnil (fun a => a + 0)%Z). lia.
  - apply (Hnil (fun a => Z.lor a 0)). apply Z.lor_0_r.
  - apply (Hnil (fun a => a - 0)%Z). lia.
  - apply (Hnil (fun a => Z.lxor a 0)). apply Z.lxor_0_r.
  - destruct (Z.eqb_spec imm UINT32_MAX) as [->|]; [|exact Hgen].
    apply (Hnil (fun a => Z.land a (-1))). apply Z.land_m1_r.
Qed.

(** ** Code that leaves a value in a register *)

(** The code [e] appends stops with [f m] in [r], where [m] is the machine it starts
    on, and changes no register but [rs]. *)
Definition yields (e : Emit ()) (rs : list Z) (r : Z) (f : machine → Z) : Prop :=
  ∃ p, asm e unit_result p ∧ ∀ m, machine_ok m → leaves p rs m r (f m).

Lemma yields_asm e p rs r f :
  asm e unit_result p → (∀ m, machine_ok m → leaves p rs m r (f m)) → yields e rs r f.
Proof. intros Ha Hl. by exists p. Qed.

Lemma yields_eq e rs r f g : yields e rs r f → (∀ m, machine_ok m → f m = g m) → yields e rs r g.
Proof. intros (p & Ha & Hl) Hfg. exists p. split; [done|]. intros m Hm. rewrite <- Hfg by done. auto. Qed.

Lemma yields_weaken e rs rs' r f : rs ⊆ rs' → yields e rs r f → yields e rs' r f.
Proof.
  intros Hs (p & Ha & Hl). exists p. split; [done|]. intros m Hm. by eapply leaves_weaken, Hl.
Qed.

Lemma changes_ok rs m m' : changes rs m m' → machine_ok m → machine_ok m'.
Proof. by intros (_ & _ & H). Qed.

(** The second piece of code works on what the first one leaves. *)
Lemma yields_then e1 e2 rs r g f :
  yields e1 rs r f → yields e2 rs r (fun m => g (regs m r)) →
  yields (e1 ;; e2) rs r (fun m => g (f m)).
Proof.
  intros (p1 & A1 & L1) (p2 & A2 & L2). exists (p1 ++ p2). split; [by apply asm_seq|].
  intros m Hm. eapply leaves_app; [by apply L1|]. intros m1 Hc Hv. rewrite <- Hv.
  eapply L2, changes_ok; done.
Qed.

(** Composition, with what the second piece computes in terms of the first machine. *)
Lemma yields_bind e1 e2 rs1 rs2 r1 f1 r f h :
  yields e1 rs1 r1 f1 → yields e2 rs2 r f →
  (∀ m m1, machine_ok m → machine_ok m1 → changes rs1 m m1 → regs m1 r1 = f1 m → f m1 = h m) →
  yields (e1 ;; e2) (rs1 ++ rs2) r h.
Proof.
  intros (p1 & A1 & L1) (p2 & A2 & L2) Hf. exists (p1 ++ p2). split; [by apply asm_seq|].
  intros m Hm. destruct (L1 m Hm) as (m1 & R1 & C1 & V1). pose proof (changes_ok _ _ _ C1 Hm) as Hm1.
  destruct (L2 m1 Hm1) as (m2 & R2 & C2 & V2). exists m2. rewrite run_app, R1. split_and!; [done| |].
  - apply (changes_trans _ _ m1); eapply changes_weaken; [|exact C1| |exact C2];
      intros x Hx; apply elem_of_app; auto.
  - rewrite V2. by apply Hf.
Qed.

Lemma yields_ext e e' rs r f : (∀ buffer, e buffer = e' buffer) → yields e rs r f → yields e' rs r f.
Proof.
  intros He (p & (bytes & Hb & Hd) & Hl). exists p. split; [|done]. exists bytes. split; [|done].
  intros buffer. by rewrite <- He.
Qed.

Lemma yields_assoc (e1 e2 e3 : Emit ()) rs r f :
  yields ((e1 ;; e2) ;; e3) rs r f → yields (e1 ;; e2 ;; e3) rs r f.
Proof.
  intros (p & (bytes & He & Hd) & Hl). exists p. split; [|done]. exists bytes. split; [|done].
  intros buffer. rewrite <- He. unfold mbind, Emit_bind. by destruct (e1 buffer) as [[[]|] b].
Qed.

Lemma yields_or_left e1 e2 rs r f : yields e1 rs r f → yields (emit_or e1 e2) rs r f.
Proof. intros (p & Ha & Hl). exists p. split; [by apply asm_or_left|done]. Qed.

Lemma yields_or_right e1 e2 rs r f :
  (∀ buffer, e1 buffer = (None, buffer)) → yields e2 rs r f → yields (emit_or e1 e2) rs r f.
Proof. intros Hn (p & Ha & Hl). exists p. split; [by apply asm_or_right|done]. Qed.

Lemma singleton_subset (r : Z) rs : r ∈ rs → [r] ⊆ rs.
Proof. by intros ? x ->%list_elem_of_singleton. Qed.

Lemma yields_mov (d s : BinaryGpRegister) :
  yields (binary_emit_mov_reg_reg d s) [gp_code d] d (fun m => regs m s).
Proof. eapply yields_asm; [apply asm_mov|]. intros m Hm. by apply leaves_mov. Qed.

Lemma yields_mov_imm64 (r : BinaryGpRegister) imm :
  (0 <= imm < 2 ^ 64)%Z → yields (binary_emit_mov_reg_imm64 r imm) [gp_code r] r (fun _ => imm).
Proof.
  intros Hi. eapply yields_asm; [apply asm_mov_imm64; lia|]. intros m Hm. by apply leaves_mov_imm64.
Qed.

(** ** Shifts, negation and products *)

Lemma land_63 n : (0 <= n < 64)%Z → Z.land n 63 = n.
Proof. intros Hn. change 63%Z with (Z.ones 6). rewrite Z.land_ones by lia. by apply Z.mod_small. Qed.

Lemma leaves_shift op m (r : BinaryGpRegister) n :
  machine_ok m → (0 <= n < 64)%Z →
  leaves (shift_program op r n) [gp_code r] m r (u64 (shift_value op W64 (regs m r) n)).
Proof.
  intros Hok Hn. unfold shift_program. destruct (Z.eqb_spec n 0) as [->|Hne].
  - eapply leaves_eq; [apply leaves_nil|]. unfold shift_value.
    destruct op; cbn [Z.shiftl Z.shiftr Z.opp]; change (wrap_s (bits W64)) with s64;
      rewrite ?Z.shiftl_0_r, ?Z.shiftr_0_r, ?u64_s64; by rewrite regs_ok.
  - eapply leaves_set. unfold exec, exec_shift, get. change (bits W64) with 64%Z.
    cbn [mbind option_bind]. rewrite land_63 by done. rewrite (proj2 (Z.eqb_neq n 0)) by done.
    rewrite regs_ok by done. reflexivity.
Qed.

Lemma yields_shift op (r : BinaryGpRegister) n :
  (0 <= n < 64)%Z →
  yields (binary_emit_shift_reg_imm8 (shift_sub op) r n) [gp_code r] r
    (fun m => u64 (shift_value op W64 (regs m r) n)).
Proof.
  intros Hn. eapply yields_asm; [apply asm_shift_imm; lia|]. intros m Hm. by apply leaves_shift.
Qed.

Lemma yields_shl (r : BinaryGpRegister) n :
  (0 <= n < 64)%Z →
  yields (binary_emit_shift_reg_imm8 4 r n) [gp_code r] r (fun m => u64 (regs m r * 2 ^ n)).
Proof.
  intros Hn. eapply yields_eq; [by apply (yields_shift SHL)|]. intros m Hm.
  unfold shift_value. by rewrite Z.shiftl_mul_pow2 by lia.
Qed.

Lemma yields_sar (r : BinaryGpRegister) n :
  (0 <= n < 64)%Z →
  yields (binary_emit_shift_reg_imm8 7 r n) [gp_code r] r (fun m => u64 (s64 (regs m r) / 2 ^ n)).
Proof.
  intros Hn. eapply yields_eq; [by apply (yields_shift SAR)|]. intros m Hm.
  unfold shift_value. by rewrite Z.shiftr_div_pow2 by lia.
Qed.

Lemma yields_neg (r : BinaryGpRegister) :
  yields (binary_emit_neg_reg r) [gp_code r] r (fun m => u64 (- regs m r)).
Proof.
  eapply yields_asm; [apply asm_neg|]. intros m Hm. eapply leaves_eq.
  - eapply leaves_set. unfold exec, get. change (bits W64) with 64%Z. cbn [mbind option_bind alu_value fst snd put].
    rewrite regs_ok by done. reflexivity.
  - change (bits W64) with 64%Z. rewrite u64_idem. done.
Qed.

Lemma yields_not (r : BinaryGpRegister) :
  yields (binary_emit_not_reg r) [gp_code r] r (fun m => u64 (-1 - regs m r)).
Proof.
  eapply yields_asm; [apply asm_not|]. intros m Hm. eapply leaves_eq.
  - apply (leaves_set _ m r (-1 - regs m r) (status m)).
    unfold exec, get. change (bits W64) with 64%Z. cbn [mbind option_bind put]. rewrite regs_ok by done. done.
  - done.
Qed.

Lemma yields_xor32 (r : BinaryGpRegister) :
  yields (binary_emit_xor_reg_reg32 r) [gp_code r] r (fun _ => 0%Z).
Proof.
  eapply yields_asm; [apply asm_xor32|]. intros m Hm.
  eexists (set_status (set_reg m W32 r 0) _). split_and!.
  - unfold run, exec, get, exec_alu, get. cbn [mbind option_bind alu_value]. rewrite Z.lxor_nilpotent. reflexivity.
  - apply (changes_trans _ _ (set_reg m W32 r 0)); [apply changes_set_reg32; left|done].
  - simpl. apply update_same.
Qed.

Lemma yields_imul (d s : BinaryGpRegister) :
  yields (binary_emit_imul_reg_reg d s) [gp_code d] d (fun m => u64 (regs m d * regs m s)).
Proof.
  eapply yields_asm; [apply asm_imul|]. intros m Hm.
  apply (leaves_set _ m d (regs m d * regs m s) None). unfold exec, get.
  change (bits W64) with 64%Z. cbn [mbind option_bind]. by rewrite !regs_ok.
Qed.

Lemma yields_alu op f (d s : BinaryGpRegister) :
  alu_function op = Some f →
  yields (binary_emit_alu_reg_reg (alu_opcode op) d s) [gp_code d] d
    (fun m => u64 (f (regs m d) (regs m s))).
Proof. intros Hf. eapply yields_asm; [apply asm_alu|]. intros m Hm. by apply leaves_alu. Qed.

Lemma yields_alu_imm op f (r : BinaryGpRegister) imm :
  alu_function op = Some f → (0 <= imm < 2 ^ 32)%Z →
  yields (binary_emit_alu_reg_imm32 (sub_of op) r imm) [gp_code r] r
    (fun m => u64 (f (regs m r) (s32 imm))).
Proof.
  intros Hf Hi. eapply yields_asm; [apply asm_alu_imm|]. intros m Hm.
  apply leaves_alu_imm; [done..|]. by rewrite regs_ok.
Qed.

(** ** Addresses *)

Lemma yields_lea_scale (d b i : BinaryGpRegister) s :
  i ≠ BINARY_GP_RSP → s ∈ [1; 2; 4; 8]%Z →
  yields (binary_emit_lea_reg_base_index_scale_disp d b i s 0) [gp_code d] d
    (fun m => u64 (regs m b + regs m i * s)).
Proof.
  intros Hi Hs. eapply yields_asm; [apply asm_lea_scale; [unfold in_int32; lia|done..]|].
  intros m Hm. eapply leaves_eq; [by eapply (leaves_set _ m d _ (status m))|].
  rewrite u64_idem. f_equal. lia.
Qed.

Lemma yields_lea_reg_reg (d l r : BinaryGpRegister) :
  r ≠ BINARY_GP_RSP →
  yields (binary_emit_lea_reg_reg d l r) [gp_code d] d (fun m => u64 (regs m l + regs m r)).
Proof.
  intros Hr. eapply yields_asm; [by apply asm_lea_reg_reg; intros []|].
  rewrite bool_decide_false by done. intros m Hm.
  eapply leaves_eq; [by eapply (leaves_set _ m d _ (status m))|].
  rewrite u64_idem. f_equal. lia.
Qed.

(** ** Products by a constant *)

Lemma power_of_two_i32_spec v k :
  (v < 2 ^ 31)%Z → binary_immediate_positive_power_of_two_i32 v = Some k →
  (0 <= k < 64)%Z ∧ v = (2 ^ k)%Z.
Proof.
  unfold binary_immediate_positive_power_of_two_i32. intros Hv Hk.
  destruct (Z.leb_spec v 0); cbn [orb] in Hk; [done|].
  destruct (Z.eqb_spec (Z.land v (v - 1)) 0) as [Hz|]; cbn [negb] in Hk; [|done].
  pose proof (shift_amount_spec 32 v ltac:(lia) Hz) as Hs. revert Hk Hs.
  generalize (shift_amount 32 v 0). intros n [= ->] [? ?]. split; [lia|done].
Qed.

Lemma yields_neg_then e rs (r : BinaryGpRegister) f :
  gp_code r ∈ rs → yields e rs r f → yields (e ;; binary_emit_neg_reg r) rs r (fun m => u64 (- f m)).
Proof.
  intros Hr He. apply (yields_then _ _ _ _ (fun v => u64 (- v))); [done|].
  eapply yields_weaken, yields_neg. by apply singleton_subset.
Qed.

Lemma yields_shl_then e rs (r : BinaryGpRegister) n f :
  (0 <= n < 64)%Z → gp_code r ∈ rs → yields e rs r f →
  yields (e ;; binary_emit_shift_reg_imm8 4 r n) rs r (fun m => u64 (f m * 2 ^ n)).
Proof.
  intros Hn Hr He. apply (yields_then _ _ _ _ (fun v => u64 (v * 2 ^ n))); [done|].
  eapply yields_weaken, yields_shl; [by apply singleton_subset|done].
Qed.

Lemma yields_imul_imm (d s : BinaryGpRegister) imm :
  yields (emit_imul_imm d s imm) [gp_code d] d (fun m => u64 (regs m s * s32 imm)).
Proof.
  eapply yields_asm; [apply asm_imul_imm|]. intros m Hm.
  apply (leaves_set _ m d (regs m s * s32 imm) None). unfold exec, get.
  change (bits W64) with 64%Z. cbn [mbind option_bind]. by rewrite regs_ok.
Qed.

(** The two instructions that scale by 3, 5 and 9 refuse every other factor, and the
    stack pointer, before they append anything. *)
Lemma small_imm_cases (d s : BinaryGpRegister) v :
  (∀ b, binary_emit_imul_reg_reg_small_imm d s v b = (None, b)) ∨
  yields (binary_emit_imul_reg_reg_small_imm d s v) [gp_code d] d (fun m => u64 (regs m s * v)).
Proof.
  unfold binary_emit_imul_reg_reg_small_imm.
  destruct ((v <? 0)%Z && (v =? INT32_MIN)%Z); [by left|].
  set (w := if (v <? 0)%Z then (- v)%Z else v).
  destruct (if (w =? 3)%Z then Some 2%Z else _) as [scale|] eqn:Hscale; [|by left].
  assert (w = scale + 1 ∧ scale ∈ [1; 2; 4; 8])%Z as [Hw Hs].
  { destruct (Z.eqb_spec w 3), (Z.eqb_spec w 5), (Z.eqb_spec w 9); simplify_eq;
      (split; [lia|set_solver]). }
  destruct (decide (s = BINARY_GP_RSP)) as [->|Hr]; [by left|right].
  pose proof (yields_lea_scale d s s scale Hr Hs) as Hlea.
  subst w. destruct (Z.ltb_spec v 0).
  - eapply yields_eq; [by apply yields_neg_then; [left|]|]. intros m Hm. cbv beta.
    replace (- u64 (regs m s + regs m s * scale))%Z
      with (0 - u64 (regs m s + regs m s * scale))%Z by lia.
    rewrite u64_sub_r. f_equal. lia.
  - destruct Hlea as (p & Ha & Hl). exists (p ++ []).
    split; [by apply asm_seq, asm_ret|]. rewrite app_nil_r. intros m Hm.
    eapply leaves_eq; [by apply Hl|]. f_equal. lia.
Qed.

Lemma yields_imul_constant (d s : BinaryGpRegister) imm :
  yields (binary_emit_imul_reg_reg_imm32 d s imm) [gp_code d] d (fun m => u64 (regs m s * s32 imm)).
Proof.
  unfold binary_emit_imul_reg_reg_imm32. pose proof (wrap_s_range 32 imm ltac:(lia)) as Hr.
  change (2 ^ (32 - 1))%Z with (2 ^ 31)%Z in Hr.
  destruct (Z.eqb_spec (s32 imm) 0) as [->|].
  { eapply yields_eq; [apply yields_xor32|]. intros m _. by rewrite Z.mul_0_r. }
  destruct (Z.eqb_spec (s32 imm) 1) as [->|].
  { eapply yields_eq; [apply yields_mov|]. intros m Hm. by rewrite Z.mul_1_r, regs_ok. }
  destruct (Z.eqb_spec (s32 imm) (-1)) as [->|].
  { eapply yields_eq; [by apply yields_neg_then, yields_mov; left|]. intros m _. cbv beta. f_equal. lia. }
  destruct (binary_immediate_positive_power_of_two_i32 (s32 imm)) as [k|] eqn:Hk.
  { apply power_of_two_i32_spec in Hk as [Hk He]; [|lia]. rewrite He.
    apply yields_shl_then; [done|left|apply yields_mov]. }
  destruct (if (s32 imm =? INT32_MIN)%Z then None else _) as [k|] eqn:Hn.
  - destruct (Z.eqb_spec (s32 imm) INT32_MIN); [done|]. unfold INT32_MIN in *.
    apply power_of_two_i32_spec in Hn as [Hn He]; [|lia].
    eapply yields_eq; [apply yields_assoc, yields_neg_then, yields_shl_then, yields_mov; [left|done|left]|].
    intros m _. cbv beta.
    replace (- u64 (regs m s * 2 ^ k))%Z with (0 - u64 (regs m s * 2 ^ k))%Z by lia.
    rewrite u64_sub_r. f_equal. nia.
  - destruct (small_imm_cases d s (s32 imm)) as [Hno|Hyes].
    + by apply yields_or_right, yields_imul_imm.
    + by apply yields_or_left.
Qed.
