(* ===== verification/CompareFacts.v ===== *)
(** * Comparisons of the emitted code

    What the flags say after a comparison of signed numbers, in registers or with an
    immediate, and the sequences that turn them into 0 or 1. *)

From S2P Require Import Prelude.
From S2P Require Import Encoders.
From S2P Require Import X86.
From S2P Require Import X86Facts.
From S2P Require Import EncoderFacts.

(** ** Flags *)

(** The flags of a comparison of the signed numbers [a] and [b]. *)
Definition compared (f : flags) (a b : Z) : Prop :=
  zero f = (a =? b)%Z ∧ xorb (sign f) (overflow f) = (a <? b)%Z.

Lemma wrap_down (y m : Z) : ((y - m) mod m = y mod m)%Z.
Proof.
  destruct (decide (m = 0%Z)) as [->|Hm]; [by rewrite !Z.sub_0_r|].
  replace (y - m)%Z with (y + (-1) * m)%Z by lia. by apply Z.mod_add.
Qed.

Lemma testbit_sign w x : (0 < w)%Z → Z.testbit x (w - 1) = (wrap_s w x <? 0)%Z.
Proof.
  intros Hw. pose proof (pow2_half w Hw) as H2. pose proof (wrap_u_range w x ltac:(lia)) as Hr.
  rewrite <- (wrap_s_wrap_u w x Hw). unfold wrap_u in *.
  rewrite <- (Z.mod_pow2_bits_low x w (w - 1)) by lia.
  set (y := (x mod 2 ^ w)%Z) in *.
  assert (Z.testbit y (w - 1) = (2 ^ (w - 1) <=? y)%Z) as ->.
  { destruct (Z.leb_spec (2 ^ (w - 1)) y) as [Hle|Hlt].
    - apply Z.testbit_true; [lia|]. by rewrite <- (Z.div_unique y (2 ^ (w - 1)) 1 (y - 2 ^ (w - 1))) by lia.
    - apply Z.testbit_false; [lia|]. by rewrite Z.div_small by lia. }
  destruct (Z.leb_spec (2 ^ (w - 1)) y) as [Hle|Hlt].
  - rewrite (wrap_s_eq w y (y - 2 ^ w)) by (rewrite ?wrap_down; lia).
    rewrite wrap_s_id by lia. symmetry. apply Z.ltb_lt. lia.
  - rewrite wrap_s_id by lia. symmetry. apply Z.ltb_ge. lia.
Qed.

Lemma wrap_u_zero w a b : (0 < w)%Z → (wrap_u w (a - b) =? 0)%Z = (wrap_s w a =? wrap_s w b)%Z.
Proof.
  intros Hw. apply eq_true_iff_eq. rewrite !Z.eqb_eq. unfold wrap_u. rewrite <- Z.cong_iff_0. split.
  - intros H. by apply wrap_s_eq.
  - intros H. by rewrite <- (wrap_s_mod w a), <- (wrap_s_mod w b), H.
Qed.

(** Whether a difference overflows, from what is left of it. *)
Lemma compare_overflow w a b :
  (0 < w)%Z →
  let x := wrap_s w a in let y := wrap_s w b in
  xorb (wrap_s w (a - b) <? 0)%Z (negb (wrap_s w (a - b) =? x - y)%Z) = (x <? y)%Z.
Proof.
  intros Hw x y. pose proof (pow2_half w Hw).
  assert (- 2 ^ (w - 1) <= x < 2 ^ (w - 1))%Z as Hx by by apply wrap_s_range.
  assert (- 2 ^ (w - 1) <= y < 2 ^ (w - 1))%Z as Hy by by apply wrap_s_range.
  assert (wrap_s w (a - b) = wrap_s w (x - y)) as ->.
  { apply wrap_s_eq; [done|]. subst x y. rewrite <- (Zminus_mod_idemp_l a), <- (Zminus_mod_idemp_r _ b).
    rewrite <- (wrap_s_mod w a), <- (wrap_s_mod w b) by done.
    by rewrite Zminus_mod_idemp_l, Zminus_mod_idemp_r. }
  clearbody x y.
  assert (wrap_s w (x - y) = x - y ∨ wrap_s w (x - y) = x - y - 2 ^ w ∧ 2 ^ (w - 1) <= x - y ∨
    wrap_s w (x - y) = x - y + 2 ^ w ∧ x - y < - 2 ^ (w - 1))%Z as Hc.
  { unfold wrap_s. set (h := (2 ^ (w - 1))%Z) in *.
    destruct (Z_lt_le_dec (x - y) (- h)); [|destruct (Z_lt_le_dec (x - y) h)].
    - right; right. split; [|lia]. rewrite (Z.mod_eq (x - y + h) (2 ^ w)) by lia.
      rewrite <- (Z.div_unique (x - y + h) (2 ^ w) (-1) (x - y + h + 2 ^ w)) by lia. lia.
    - left. rewrite Z.mod_small by lia. lia.
    - right; left. split; [|lia]. rewrite (Z.mod_eq (x - y + h) (2 ^ w)) by lia.
      rewrite <- (Z.div_unique (x - y + h) (2 ^ w) 1 (x - y + h - 2 ^ w)) by lia. lia. }
  destruct Hc as [->|[[-> ?]|[-> ?]]].
  - rewrite Z.eqb_refl. simpl. rewrite xorb_false_r. destruct (Z.ltb_spec (x - y) 0), (Z.ltb_spec x y); first [done|lia].
  - rewrite (proj2 (Z.eqb_neq _ _)) by lia. destruct (Z.ltb_spec (x - y - 2 ^ w) 0), (Z.ltb_spec x y); first [done|lia].
  - rewrite (proj2 (Z.eqb_neq _ _)) by lia. destruct (Z.ltb_spec (x - y + 2 ^ w) 0), (Z.ltb_spec x y); first [done|lia].
Qed.

Lemma bits_pos w : (0 < bits w)%Z.
Proof. by destruct w. Qed.

Lemma compare_flags w a b :
  ∃ v fl, alu_value CMP w a b = Some (v, fl) ∧ compared fl (wrap_s (bits w) a) (wrap_s (bits w) b).
Proof.
  eexists _, _. split; [reflexivity|]. pose proof (bits_pos w). split; cbn [zero sign overflow].
  - by apply wrap_u_zero.
  - rewrite testbit_sign by done. replace (wrap_s (bits w) (wrap_u (bits w) (a - b))) with (wrap_s (bits w) (a - b))
      by (by rewrite wrap_s_wrap_u). by apply compare_overflow.
Qed.

(** [cc] is the condition code of [test]. *)
Inductive tests : Z → (Z → Z → bool) → Prop :=
  | tests_eq : tests 4 Z.eqb
  | tests_ne : tests 5 (fun a b => negb (Z.eqb a b))
  | tests_lt : tests 12 Z.ltb
  | tests_ge : tests 13 Z.geb
  | tests_le : tests 14 Z.leb
  | tests_gt : tests 15 Z.gtb.

Lemma tests_range cc test : tests cc test → (0 <= cc < 16)%Z.
Proof. by destruct 1. Qed.

Lemma condition_compared cc test f a b :
  tests cc test → compared f a b → condition cc f = Some (test a b).
Proof.
  intros Ht [Hz Hl]. destruct Ht; cbn [condition]; rewrite ?Hz, ?Hl; try done; f_equal.
  - rewrite Z.geb_leb. by destruct (Z.ltb_spec a b), (Z.leb_spec b a); try lia.
  - destruct (Z.eqb_spec a b), (Z.ltb_spec a b), (Z.leb_spec a b); simpl; try lia; done.
  - rewrite Z.gtb_ltb. destruct (Z.eqb_spec a b), (Z.ltb_spec a b), (Z.ltb_spec b a); simpl; try lia; done.
Qed.

(** ** Comparisons *)

(** The code [e] appends compares [a m] and [b m] and changes the flags only. *)
Definition compares (e : Emit ()) (a b : machine → Z) : Prop :=
  ∃ p, asm e unit_result p ∧
    ∀ m, machine_ok m → ∃ fl, run p m = Next (set_status m (Some fl)) ∧ compared fl (a m) (b m).

Lemma compares_intro e p (a b : machine → Z) :
  asm e unit_result p →
  (∀ m, machine_ok m → ∃ fl, run p m = Next (set_status m (Some fl)) ∧ compared fl (a m) (b m)) →
  compares e a b.
Proof. intros Ha Hr. by exists p. Qed.

Lemma compares_eq e a b a' b' :
  compares e a b → (∀ m, machine_ok m → a m = a' m ∧ b m = b' m) → compares e a' b'.
Proof.
  intros (p & Ha & Hr) He. exists p. split; [done|]. intros m Hm.
  destruct (He m Hm) as [<- <-]. auto.
Qed.

Lemma run_cmp w x y m a b :
  get m w x = Some a → get m w y = Some b →
  ∃ fl, run [ALU CMP w x y] m = Next (set_status m (Some fl)) ∧
    compared fl (wrap_s (bits w) a) (wrap_s (bits w) b).
Proof.
  intros Hx Hy. destruct (compare_flags w a b) as (v & fl & Hv & Hc). exists fl. split; [|done].
  unfold run, exec, exec_alu. rewrite Hy. cbn [mbind option_bind]. rewrite Hx.
  cbn [mbind option_bind]. by rewrite Hv.
Qed.

Lemma compares_registers (l r : BinaryGpRegister) :
  compares (binary_emit_cmp_reg_reg l r) (fun m => s64 (regs m l)) (fun m => s64 (regs m r)).
Proof.
  apply (compares_intro _ _ _ _ (asm_cmp64 l r)). intros m Hm.
  destruct (run_cmp W64 (Reg l) (Reg r) m _ _ eq_refl eq_refl) as (fl & Hr & Hc).
  exists fl. split; [done|]. cbn [bits] in Hc. by autorewrite with pattern in Hc.
Qed.

Lemma compares_registers32 (l r : BinaryGpRegister) :
  compares (binary_emit_cmp_reg_reg32 l r) (fun m => s32 (regs m l)) (fun m => s32 (regs m r)).
Proof.
  apply (compares_intro _ _ _ _ (asm_cmp32 l r)). intros m Hm.
  destruct (run_cmp W32 (Reg l) (Reg r) m _ _ eq_refl eq_refl) as (fl & Hr & Hc).
  exists fl. split; [done|]. cbn [bits] in Hc. by rewrite !s32_u32 in Hc.
Qed.

(** A test of a register with itself compares it with 0. *)
Lemma compares_zero (r : BinaryGpRegister) :
  compares (binary_emit_test_reg_reg r) (fun m => s64 (regs m r)) (fun _ => 0%Z).
Proof.
  apply (compares_intro _ _ _ _ (asm_test r)). intros m Hm. eexists. split; [reflexivity|].
  unfold logic_flags. change (bits W64) with 64%Z. rewrite Z.land_diag. split; cbn [zero sign overflow].
  - rewrite u64_idem. pose proof (wrap_u_zero 64 (regs m r) 0 ltac:(lia)) as H.
    rewrite Z.sub_0_r in H. by rewrite H.
  - rewrite (testbit_sign 64), s64_u64 by lia. by rewrite xorb_false_r.
Qed.

Lemma compares_immediate (r : BinaryGpRegister) imm :
  (0 <= imm < 2 ^ 32)%Z →
  compares (binary_emit_cmp_reg_imm32 r imm) (fun m => s64 (regs m r)) (fun _ => s32 imm).
Proof.
  intros Hi. unfold binary_emit_cmp_reg_imm32. destruct (Z.eqb_spec imm 0) as [->|Hne].
  - apply compares_zero.
  - apply (compares_intro _ _ _ _ (asm_alu_imm CMP r imm)). intros m Hm.
    destruct (compare_flags W64 (u64 (regs m r)) (u64 (s32 imm))) as (v & fl & Hv & Hc).
    exists fl. split.
    + unfold alu_imm_program, run, exec, exec_alu, get. change (bits W64) with 64%Z.
      cbn [mbind option_bind]. by rewrite Hv.
    + change (bits W64) with 64%Z in Hc. rewrite !s64_u64 in Hc.
      rewrite (s64_in (s32 imm)) in Hc; [done|]. pose proof (wrap_s_range 32 imm ltac:(lia)).
      unfold in_s64. simpl in *. lia.
Qed.

(** ** The value of a comparison *)

Lemma asm_movzx_eax_al : asm binary_emit_movzx_eax_al unit_result [MOVZX W8 W32 RAX (Reg RAX)].
Proof. encode. Qed.

Lemma set_low_byte m v :
  (0 <= v < 256)%Z → wrap_u 8 (regs (set_reg m W8 RAX v) RAX) = v.
Proof.
  intros Hv. unfold set_reg. cbn [regs set_regs bits]. rewrite update_same. unfold wrap_u.
  change (2 ^ 8)%Z with 256%Z. rewrite (Z.mod_small v) by lia.
  set (x := regs m RAX). replace (x - x mod 256 + v)%Z with (v + x / 256 * 256)%Z
    by (rewrite (Z.mod_eq x 256) by lia; lia).
  rewrite Z.mod_add by lia. by apply Z.mod_small.
Qed.

Lemma yields_compare cc test (e : Emit ()) a b :
  tests cc test → compares e a b →
  yields (e ;; binary_emit_setcc_al (0x90 + cc) ;; binary_emit_movzx_eax_al) [RAX] RAX
    (fun m => if test (a m) (b m) then 1%Z else 0%Z).
Proof.
  intros Ht (p & Ha & Hr). pose proof (tests_range _ _ Ht) as Hcc.
  exists (p ++ [SETCC cc (Reg RAX)] ++ [MOVZX W8 W32 RAX (Reg RAX)]). split.
  { apply asm_seq; [done|]. apply asm_seq; [by apply asm_setcc_al|apply asm_movzx_eax_al]. }
  intros m Hm. destruct (Hr m Hm) as (fl & Hrun & Hc).
  set (v := if test (a m) (b m) then 1%Z else 0%Z).
  set (m1 := set_status m (Some fl)). set (m2 := set_reg m1 W8 RAX v).
  assert (0 <= v < 256)%Z as Hv by (subst v; case_match; lia).
  assert (run [SETCC cc (Reg RAX)] m1 = Next m2) as H1.
  { unfold run, exec. cbn [status m1 set_status mbind option_bind].
    rewrite (condition_compared cc test fl (a m) (b m)) by done. reflexivity. }
  exists (set_reg m2 W32 RAX v). rewrite run_app, Hrun. fold m1. rewrite run_app, H1. split_and!.
  - unfold run, exec, get. change (bits W8) with 8%Z. cbn [mbind option_bind next].
    subst m2. by rewrite set_low_byte.
  - split_and!; [done| |].
    + intros r Hn. cbn [regs set_reg set_regs m2 m1 set_status]. by rewrite !update_other by set_solver.
    + intros _ r. cbn [regs set_reg set_regs m2 m1 set_status bits]. unfold update.
      destruct (r =? RAX)%Z; [|apply Hm]. rewrite wrap_u_id; lia.
  - cbn [regs set_reg set_regs bits]. rewrite update_same. rewrite wrap_u_id; lia.
Qed.
