(* ===== verification/MemoryFacts.v ===== *)
(** * Memory of the reference machine

    Loads of what stores left, and the accesses the code generator makes relative to
    the frame pointer. *)

From S2P Require Import Prelude.
From S2P Require Import Encoders.
From S2P Require Import X86.
From S2P Require Import X86Facts.
From S2P Require Import EncoderFacts.

(** ** Loads and stores *)

(** [n] bytes at [a] lie in the address space. *)
Definition in_memory (a : Z) (n : nat) : Prop := (0 <= a ∧ a + Z.of_nat n <= 2 ^ 64)%Z.

Lemma load_ext m m' n a :
  (∀ i, i < n → memory m' (u64 (a + Z.of_nat i)) = memory m (u64 (a + Z.of_nat i))) →
  load m' n a = load m n a.
Proof.
  intros H. unfold load. f_equal. apply map_ext_in. intros i Hi%in_seq. apply H. lia.
Qed.

Lemma le_split_lookup_length n v i : i < n → is_Some (le_split n v !! i).
Proof. intros Hi. apply lookup_lt_is_Some. by rewrite length_le_split. Qed.

Lemma load_store_same m n a v :
  in_memory a n → load (store m n a v) n a = (v mod 2 ^ (Z.of_nat n * 8))%Z.
Proof.
  intros [Ha Hn]. rewrite <- (le_combine_split n v). unfold load. f_equal.
  apply (list_eq_same_length _ _ n); [by rewrite length_le_split|by rewrite length_map, length_seq|].
  intros i x y Hi Hx Hy. rewrite list_lookup_fmap, lookup_seq_lt in Hx by lia.
  injection Hx as <-. cbn [memory store set_memory Nat.add].
  rewrite u64_id by lia. replace (a + Z.of_nat i - a)%Z with (Z.of_nat i) by lia.
  rewrite u64_id by lia. by rewrite Nat2Z.id, Hy.
Qed.

Lemma load_store_other m n a v k b :
  in_memory a n → in_memory b k → (a + Z.of_nat n <= b ∨ b + Z.of_nat k <= a)%Z →
  load (store m n a v) k b = load m k b.
Proof.
  intros [Ha Hn] [Hb Hk] Hd. apply load_ext. intros i Hi. cbn [memory store set_memory].
  rewrite (u64_id (b + Z.of_nat i)) by lia.
  rewrite lookup_ge_None_2; [done|]. rewrite length_le_split. destruct Hd.
  - rewrite u64_id by lia. lia.
  - unfold wrap_u. rewrite <- (Z.mod_unique_pos _ _ (-1) (b + Z.of_nat i - a + 2 ^ 64)) by lia. lia.
Qed.

(** Bytes outside of the field keep their value. *)
Lemma store_elsewhere m n a v a' :
  (0 <= a' < 2 ^ 64)%Z → in_memory a n → ¬ (a <= a' < a + Z.of_nat n)%Z → memory (store m n a v) a' = memory m a'.
Proof.
  intros Ha' [H0 H1] Hne. unfold store. cbn [memory set_memory].
  rewrite (proj2 (lookup_ge_None _ _)); [done|]. rewrite length_le_split.
  unfold wrap_u. destruct (Z.le_gt_cases a a').
  - rewrite Z.mod_small; lia.
  - rewrite <- (Z.mod_unique_pos (a' - a) (2 ^ 64) (-1) (a' - a + 2 ^ 64)); lia.
Qed.

Lemma load_range m n a : (0 <= load m n a < 2 ^ (Z.of_nat n * 8))%Z.
Proof.
  unfold load. pose proof (le_combine_bound (map (fun i => memory m (u64 (a + Z.of_nat i))) (seq 0 n))) as H.
  rewrite length_map, length_seq in H. rewrite Z.mul_comm. exact H.
Qed.

(** The low bytes of a wider access. *)
Lemma load_prefix m n k a : load m n a = wrap_u (Z.of_nat n * 8) (load m (n + k) a).
Proof.
  rewrite <- (wrap_u_id (Z.of_nat n * 8) (load m n a)) at 1 by (apply load_range || lia).
  unfold load. rewrite seq_app, map_app, le_combine_app, length_map, length_seq. unfold wrap_u.
  apply Z.bits_inj'. intros i Hi. rewrite !Z.testbit_mod_pow2 by lia. destruct (Z.ltb_spec i (Z.of_nat n * 8)); [|done].
  by rewrite Z.lor_spec, Z.shiftl_spec_low, orb_false_r by lia.
Qed.

(** ** Accesses at a register *)

Definition at_register (m : machine) (b : BinaryGpRegister) (d : Z) : Z := u64 (regs m b + d).

Lemma effective_base m (b : BinaryGpRegister) d :
  effective m (Mem (Some (gp_code b)) None d) = Some (at_register m b d).
Proof. unfold effective, at_register. by rewrite Z.add_0_r. Qed.

Lemma get_base m w (b : BinaryGpRegister) d :
  get m w (Mem (Some (gp_code b)) None d) = Some (load m (size w) (at_register m b d)).
Proof. unfold get. by rewrite effective_base. Qed.

Lemma in_int32_u64 v : in_int32 v → u64 (s64 v) = u64 v.
Proof. intros. apply u64_s64. Qed.

Section loads.
Variables (d b : BinaryGpRegister) (disp : Z) (Hd : in_int32 disp).

Lemma load_64 m n a : (n ≤ 8) → u64 (load m n a) = load m n a.
Proof.
  intros Hn. apply u64_id. pose proof (load_range m n a) as H.
  assert (2 ^ (Z.of_nat n * 8) <= 2 ^ 64)%Z by (apply Z.pow_le_mono_r; lia). lia.
Qed.

Lemma yields_load64 :
  yields (binary_emit_mov_reg_mem d b disp) [gp_code d] d (fun m => load m 8 (at_register m b disp)).
Proof using Hd.
  eapply yields_asm; [by apply asm_mov_reg_mem|]. intros m Hm.
  eapply leaves_eq; [apply (leaves_set _ m d (load m 8 (at_register m b disp)) (status m))|].
  - unfold exec. by rewrite get_base.
  - by apply load_64.
Qed.

(** An instruction that writes the low 32 bits. *)
Lemma leaves_set32 i m r v :
  exec i m = Next (set_reg m W32 r v) → leaves [i] [r] m r (u32 v).
Proof.
  intros He. exists (set_reg m W32 r v). simpl. rewrite He. split_and!; [done| |].
  - apply changes_set_reg32. left.
  - simpl. apply update_same.
Qed.

Lemma load_32 m n a : (n ≤ 4) → u32 (load m n a) = load m n a.
Proof.
  intros Hn. apply wrap_u_id. pose proof (load_range m n a) as H.
  assert (2 ^ (Z.of_nat n * 8) <= 2 ^ 32)%Z by (apply Z.pow_le_mono_r; lia). lia.
Qed.

Lemma yields_load32 :
  yields (binary_emit_mov_reg_mem32 d b disp) [gp_code d] d (fun m => load m 4 (at_register m b disp)).
Proof using Hd.
  eapply yields_asm; [by apply asm_mov_reg_mem32|]. intros m Hm.
  eapply leaves_eq; [apply (leaves_set32 _ m d (load m 4 (at_register m b disp)))|].
  - unfold exec. by rewrite get_base.
  - by apply load_32.
Qed.

Lemma yields_load16 :
  yields (binary_emit_movzx_reg_mem16 d b disp) [gp_code d] d (fun m => load m 2 (at_register m b disp)).
Proof using Hd.
  eapply yields_asm; [by apply asm_movzx_reg_mem16|]. intros m Hm.
  eapply leaves_eq; [apply (leaves_set32 _ m d (load m 2 (at_register m b disp)))|].
  - unfold exec. by rewrite get_base.
  - apply load_32. lia.
Qed.

Lemma yields_load8 :
  yields (binary_emit_movzx_reg_mem8 d b disp) [gp_code d] d (fun m => load m 1 (at_register m b disp)).
Proof using Hd.
  eapply yields_asm; [by apply asm_movzx_reg_mem8|]. intros m Hm.
  eapply leaves_eq; [apply (leaves_set32 _ m d (load m 1 (at_register m b disp)))|].
  - unfold exec. by rewrite get_base.
  - apply load_32. lia.
Qed.

Lemma yields_lea : 
  yields (binary_emit_lea_reg_mem d b disp) [gp_code d] d (fun m => at_register m b disp).
Proof using Hd.
  eapply yields_asm; [by apply asm_lea_reg_mem|]. intros m Hm.
  eapply leaves_eq; [apply (leaves_set _ m d (at_register m b disp) (status m))|].
  - unfold exec. by rewrite effective_base.
  - unfold at_register. apply u64_idem.
Qed.

End loads.

(** ** Extension *)

Section extension.
Variables d s : BinaryGpRegister.

Lemma yields_movsx8 :
  yields (binary_emit_movsx_reg_reg8 d s) [gp_code d] d (fun m => u64 (wrap_s 8 (regs m s))).
Proof.
  eapply yields_asm; [apply asm_movsx8|]. intros m Hm.
  eapply leaves_eq; [eapply (leaves_set _ m d _ (status m)); reflexivity|].
  change (bits W8) with 8%Z. by rewrite wrap_s_wrap_u by lia.
Qed.

Lemma asm_movsx16 : asm (binary_emit_movsx_reg_reg16 d s) unit_result [MOVSX W16 W64 d (Reg s)].
Proof. unfold binary_emit_movsx_reg_reg16. encode. Qed.

Lemma asm_movsxd : asm (binary_emit_movsxd_reg_reg32 d s) unit_result [MOVSX W32 W64 d (Reg s)].
Proof. unfold binary_emit_movsxd_reg_reg32. encode. Qed.

Lemma yields_movsx16 :
  yields (binary_emit_movsx_reg_reg16 d s) [gp_code d] d (fun m => u64 (wrap_s 16 (regs m s))).
Proof.
  eapply yields_asm; [apply asm_movsx16|]. intros m Hm.
  eapply leaves_eq; [eapply (leaves_set _ m d _ (status m)); reflexivity|].
  change (bits W16) with 16%Z. by rewrite wrap_s_wrap_u by lia.
Qed.

Lemma yields_movsxd :
  yields (binary_emit_movsxd_reg_reg32 d s) [gp_code d] d (fun m => u64 (s32 (regs m s))).
Proof.
  eapply yields_asm; [apply asm_movsxd|]. intros m Hm.
  eapply leaves_eq; [eapply (leaves_set _ m d _ (status m)); reflexivity|].
  change (bits W32) with 32%Z. by rewrite wrap_s_wrap_u by lia.
Qed.

(** Between different registers; the encoder leaves out a move to the same one, upper
    half included. *)
Lemma yields_mov32 :
  d ≠ s → yields (binary_emit_mov_reg_reg32 d s) [gp_code d] d (fun m => u32 (regs m s)).
Proof.
  intros Hne. eapply yields_asm; [apply asm_mov32|]. intros m Hm. unfold mov_program.
  destruct (Z.eqb_spec d s) as [He|]; [by apply gp_code_inj in He|].
  eapply leaves_eq; [by apply (leaves_set32 _ m d (u32 (regs m s)))|].
  unfold wrap_u. apply Z.mod_mod. lia.
Qed.

End extension.

(** ** Stores *)

(** The code [e] appends writes the low bytes of [v m] at [a m] and nothing else. *)
Definition writes (e : Emit ()) (n : nat) (a v : machine → Z) : Prop :=
  ∃ p, asm e unit_result p ∧ ∀ m, machine_ok m → run p m = Next (store m n (a m) (v m)).

Section stores.
Variables (b s : BinaryGpRegister) (disp : Z) (Hd : in_int32 disp).

Lemma le_split_mod n v : le_split n (v mod 2 ^ (Z.of_nat n * 8))%Z = le_split n v.
Proof. rewrite <- le_combine_split. rewrite split_le_combine'; [done|apply length_le_split]. Qed.

Lemma store_mod m n a v : store m n a (v mod 2 ^ (Z.of_nat n * 8)) = store m n a v.
Proof. unfold store. by rewrite le_split_mod. Qed.

Lemma exec_store w m :
  exec (MOV w (Mem (Some (gp_code b)) None disp) (Reg s)) m = Next (store m (size w) (at_register m b disp) (regs m s)).
Proof.
  unfold exec, get, put. rewrite effective_base. cbn [mbind option_bind next]. f_equal.
  replace (wrap_u (bits w) (regs m s)) with (regs m s mod 2 ^ (Z.of_nat (size w) * 8))%Z by by destruct w.
  apply store_mod.
Qed.

Lemma writes_64 : writes (binary_emit_mov_mem_reg b disp s) 8 (fun m => at_register m b disp) (fun m => regs m s).
Proof using Hd.
  eexists. split; [by apply asm_mov_mem_reg|]. intros m _. unfold run. by rewrite exec_store.
Qed.

Lemma writes_32 : writes (binary_emit_mov_mem_reg32 b disp s) 4 (fun m => at_register m b disp) (fun m => regs m s).
Proof using Hd.
  eexists. split; [by apply asm_mov_mem_reg32|]. intros m _. unfold run. by rewrite exec_store.
Qed.

Lemma writes_16 : writes (binary_emit_mov_mem_reg16 b disp s) 2 (fun m => at_register m b disp) (fun m => regs m s).
Proof using Hd.
  eexists. split; [by apply asm_mov_mem_reg16|]. intros m _. unfold run. by rewrite exec_store.
Qed.

Lemma writes_8 : writes (binary_emit_mov_mem_reg8 b disp s) 1 (fun m => at_register m b disp) (fun m => regs m s).
Proof using Hd.
  eexists. split; [by apply asm_mov_mem_reg8|]. intros m _. unfold run. by rewrite exec_store.
Qed.

End stores.
