(* ===== verification/FunctionContext.v ===== *)
(** * Code generation: the state of one function (src/src/codegen/binary/support.c, abi.c)

    The tables that place a function's parameters, locals and temporaries (stack
    slots, promoted registers, aliases), what the code generator asks about a type or
    a symbol, the aliases it finds, and the output it builds: code, labels, the fields
    to patch and the object file's sections.

    A function of the C code that returns 0, with or without an error message, is
    [fail]; the message is not kept. *)

From stdpp Require Import gmap.
From S2P Require Import Prelude.
From S2P Require Import Types.
From S2P Require Import SymbolTable.
From S2P Require Import Ast.
From S2P Require Import IR.
From S2P Require Import BinaryEmitter.
From S2P Require Import Encoders.

(** ** Tables *)

Abbreviation BinaryNamedSlotTable := (list (string * Z)).

Fixpoint binary_named_slot_table_get_offset (table : BinaryNamedSlotTable) (name : string) : Z :=
  match table with
  | [] => -1
  | (n, offset) :: rest =>
      if String.eqb n name then offset else binary_named_slot_table_get_offset rest name
  end%Z.

(** [None]: refused. *)
Definition binary_named_slot_table_add (table : BinaryNamedSlotTable) (name : string) (offset : Z)
    : option BinaryNamedSlotTable :=
  if (offset <=? 0)%Z then None
  else
    let existing := binary_named_slot_table_get_offset table name in
    if (0 <=? existing)%Z then (if (existing =? offset)%Z then Some table else None)
    else Some (table ++ [(name, offset)]).

Abbreviation BinarySymbolAliasTable := (list (string * string)).

Fixpoint binary_symbol_alias_table_get (table : BinarySymbolAliasTable) (name : string)
    : option string :=
  match table with
  | [] => None
  | (n, target) :: rest =>
      if String.eqb n name then Some target else binary_symbol_alias_table_get rest name
  end.

Definition binary_symbol_alias_table_add (table : BinarySymbolAliasTable) (name target : string)
    : option BinarySymbolAliasTable :=
  if String.eqb name EmptyString || String.eqb target EmptyString then None
  else match binary_symbol_alias_table_get table name with
  | Some existing => if String.eqb existing target then Some table else None
  | None => Some (table ++ [(name, target)])
  end.

Abbreviation BinaryLabelTable := (list (string * nat)).

Fixpoint binary_label_table_get (table : BinaryLabelTable) (name : string) : option nat :=
  match table with
  | [] => None
  | (n, offset) :: rest =>
      if String.eqb n name then Some offset else binary_label_table_get rest name
  end.

Definition binary_label_table_define (table : BinaryLabelTable) (name : string) (offset : nat)
    : option BinaryLabelTable :=
  match binary_label_table_get table name with
  | Some _ => None
  | None => Some (table ++ [(name, offset)])
  end.

(** ** The function and the generator *)

(** What is settled before the first instruction of a function is emitted. *)
Record BinaryFunctionContext : Type := mkContext {
  parameter_slots : BinaryNamedSlotTable;
  local_slots : BinaryNamedSlotTable;
  temp_slots : BinaryNamedSlotTable;
  string_symbols : BinaryNamedSlotTable;
  cstring_symbols : BinaryNamedSlotTable;
  float64_symbols : BinaryNamedSlotTable;
  address_taken_symbols : BinaryNamedSlotTable;
  register_symbols : BinaryNamedSlotTable;
  symbol_aliases : BinarySymbolAliasTable;
  saved_registers : list BinaryGpRegister;
  saved_register_offsets : list Z;
  raw_frame_size : Z;
  frame_size : Z;
  return_float_bits : Z;
  returns_indirect : bool;
  indirect_return_size : Z;
  indirect_return_slot_offsets : list Z;
  function_data : FunctionDeclaration ASTNode;
  function_body : option code }.        (* the IR function of this name *)

(** The context with one member assigned. *)
Definition set_parameter_slots (v : BinaryNamedSlotTable) (c : BinaryFunctionContext) : BinaryFunctionContext :=
  mkContext v (local_slots c) (temp_slots c) (string_symbols c) (cstring_symbols c)
    (float64_symbols c) (address_taken_symbols c) (register_symbols c) (symbol_aliases c)
    (saved_registers c) (saved_register_offsets c) (raw_frame_size c) (frame_size c)
    (return_float_bits c) (returns_indirect c) (indirect_return_size c)
    (indirect_return_slot_offsets c) (function_data c) (function_body c).
Definition set_local_slots (v : BinaryNamedSlotTable) (c : BinaryFunctionContext) : BinaryFunctionContext :=
  mkContext (parameter_slots c) v (temp_slots c) (string_symbols c) (cstring_symbols c)
    (float64_symbols c) (address_taken_symbols c) (register_symbols c) (symbol_aliases c)
    (saved_registers c) (saved_register_offsets c) (raw_frame_size c) (frame_size c)
    (return_float_bits c) (returns_indirect c) (indirect_return_size c)
    (indirect_return_slot_offsets c) (function_data c) (function_body c).
Definition set_temp_slots (v : BinaryNamedSlotTable) (c : BinaryFunctionContext) : BinaryFunctionContext :=
  mkContext (parameter_slots c) (local_slots c) v (string_symbols c) (cstring_symbols c)
    (float64_symbols c) (address_taken_symbols c) (register_symbols c) (symbol_aliases c)
    (saved_registers c) (saved_register_offsets c) (raw_frame_size c) (frame_size c)
    (return_float_bits c) (returns_indirect c) (indirect_return_size c)
    (indirect_return_slot_offsets c) (function_data c) (function_body c).
Definition set_string_symbols (v : BinaryNamedSlotTable) (c : BinaryFunctionContext) : BinaryFunctionContext :=
  mkContext (parameter_slots c) (local_slots c) (temp_slots c) v (cstring_symbols c)
    (float64_symbols c) (address_taken_symbols c) (register_symbols c) (symbol_aliases c)
    (saved_registers c) (saved_register_offsets c) (raw_frame_size c) (frame_size c)
    (return_float_bits c) (returns_indirect c) (indirect_return_size c)
    (indirect_return_slot_offsets c) (function_data c) (function_body c).
Definition set_cstring_symbols (v : BinaryNamedSlotTable) (c : BinaryFunctionContext) : BinaryFunctionContext :=
  mkContext (parameter_slots c) (local_slots c) (temp_slots c) (string_symbols c) v
    (float64_symbols c) (address_taken_symbols c) (register_symbols c) (symbol_aliases c)
    (saved_registers c) (saved_register_offsets c) (raw_frame_size c) (frame_size c)
    (return_float_bits c) (returns_indirect c) (indirect_return_size c)
    (indirect_return_slot_offsets c) (function_data c) (function_body c).
Definition set_float64_symbols (v : BinaryNamedSlotTable) (c : BinaryFunctionContext) : BinaryFunctionContext :=
  mkContext (parameter_slots c) (local_slots c) (temp_slots c) (string_symbols c)
    (cstring_symbols c) v (address_taken_symbols c) (register_symbols c) (symbol_aliases c)
    (saved_registers c) (saved_register_offsets c) (raw_frame_size c) (frame_size c)
    (return_float_bits c) (returns_indirect c) (indirect_return_size c)
    (indirect_return_slot_offsets c) (function_data c) (function_body c).
Definition set_address_taken_symbols (v : BinaryNamedSlotTable) (c : BinaryFunctionContext) : BinaryFunctionContext :=
  mkContext (parameter_slots c) (local_slots c) (temp_slots c) (string_symbols c)
    (cstring_symbols c) (float64_symbols c) v (register_symbols c) (symbol_aliases c)
    (saved_registers c) (saved_register_offsets c) (raw_frame_size c) (frame_size c)
    (return_float_bits c) (returns_indirect c) (indirect_return_size c)
    (indirect_return_slot_offsets c) (function_data c) (function_body c).
Definition set_register_symbols (v : BinaryNamedSlotTable) (c : BinaryFunctionContext) : BinaryFunctionContext :=
  mkContext (parameter_slots c) (local_slots c) (temp_slots c) (string_symbols c)
    (cstring_symbols c) (float64_symbols c) (address_taken_symbols c) v (symbol_aliases c)
    (saved_registers c) (saved_register_offsets c) (raw_frame_size c) (frame_size c)
    (return_float_bits c) (returns_indirect c) (indirect_return_size c)
    (indirect_return_slot_offsets c) (function_data c) (function_body c).
Definition set_symbol_aliases (v : BinarySymbolAliasTable) (c : BinaryFunctionContext) : BinaryFunctionContext :=
  mkContext (parameter_slots c) (local_slots c) (temp_slots c) (string_symbols c)
    (cstring_symbols c) (float64_symbols c) (address_taken_symbols c) (register_symbols c) v
    (saved_registers c) (saved_register_offsets c) (raw_frame_size c) (frame_size c)
    (return_float_bits c) (returns_indirect c) (indirect_return_size c)
    (indirect_return_slot_offsets c) (function_data c) (function_body c).
Definition set_saved_registers (v : list BinaryGpRegister) (c : BinaryFunctionContext) : BinaryFunctionContext :=
  mkContext (parameter_slots c) (local_slots c) (temp_slots c) (string_symbols c)
    (cstring_symbols c) (float64_symbols c) (address_taken_symbols c) (register_symbols c)
    (symbol_aliases c) v (saved_register_offsets c) (raw_frame_size c) (frame_size c)
    (return_float_bits c) (returns_indirect c) (indirect_return_size c)
    (indirect_return_slot_offsets c) (function_data c) (function_body c).
Definition set_saved_register_offsets (v : list Z) (c : BinaryFunctionContext) : BinaryFunctionContext :=
  mkContext (parameter_slots c) (local_slots c) (temp_slots c) (string_symbols c)
    (cstring_symbols c) (float64_symbols c) (address_taken_symbols c) (register_symbols c)
    (symbol_aliases c) (saved_registers c) v (raw_frame_size c) (frame_size c)
    (return_float_bits c) (returns_indirect c) (indirect_return_size c)
    (indirect_return_slot_offsets c) (function_data c) (function_body c).
Definition set_raw_frame_size (v : Z) (c : BinaryFunctionContext) : BinaryFunctionContext :=
  mkContext (parameter_slots c) (local_slots c) (temp_slots c) (string_symbols c)
    (cstring_symbols c) (float64_symbols c) (address_taken_symbols c) (register_symbols c)
    (symbol_aliases c) (saved_registers c) (saved_register_offsets c) v (frame_size c)
    (return_float_bits c) (returns_indirect c) (indirect_return_size c)
    (indirect_return_slot_offsets c) (function_data c) (function_body c).
Definition set_frame_size (v : Z) (c : BinaryFunctionContext) : BinaryFunctionContext :=
  mkContext (parameter_slots c) (local_slots c) (temp_slots c) (string_symbols c)
    (cstring_symbols c) (float64_symbols c) (address_taken_symbols c) (register_symbols c)
    (symbol_aliases c) (saved_registers c) (saved_register_offsets c) (raw_frame_size c) v
    (return_float_bits c) (returns_indirect c) (indirect_return_size c)
    (indirect_return_slot_offsets c) (function_data c) (function_body c).
Definition set_indirect_return_slot_offsets (v : list Z) (c : BinaryFunctionContext) : BinaryFunctionContext :=
  mkContext (parameter_slots c) (local_slots c) (temp_slots c) (string_symbols c)
    (cstring_symbols c) (float64_symbols c) (address_taken_symbols c) (register_symbols c)
    (symbol_aliases c) (saved_registers c) (saved_register_offsets c) (raw_frame_size c)
    (frame_size c) (return_float_bits c) (returns_indirect c) (indirect_return_size c) v
    (function_data c) (function_body c).

(** What the other parts of the compiler answer: the symbol table with its types, a
    type's name (type checker), the type of an expression, and the constants that
    replace loads of globals. *)
Record CodeGenerator : Type := mkGenerator {
  symbol_table : SymbolTable;
  types : type_store;
  type_by_name : string → option tid;
  builtin_string : option tid;
  builtin_cstring : option tid;
  expression_type : positive → option tid;
  global_const : string → option Z;
  ir_function : string → bool }.        (* the program has an IR function of the name *)

(** What emission appends to, and the temporaries that hold the address of a struct. *)
Record Output : Type := mkOutput {
  out_code : BinaryCodeBuffer;
  labels : BinaryLabelTable;
  label_fixups : list (string * nat);
  call_relocations : list (string * nat);
  return_fixups : list nat;
  indirect_temps : list (string * Z);
  emitter : BinaryEmitter;
  current_label_id : Z }.

Definition set_code (c : BinaryCodeBuffer) (o : Output) : Output :=
  mkOutput c (labels o) (label_fixups o) (call_relocations o) (return_fixups o) (indirect_temps o)
    (emitter o) (current_label_id o).
Definition set_labels (l : BinaryLabelTable) (o : Output) : Output :=
  mkOutput (out_code o) l (label_fixups o) (call_relocations o) (return_fixups o) (indirect_temps o)
    (emitter o) (current_label_id o).
Definition set_label_fixups (l : list (string * nat)) (o : Output) : Output :=
  mkOutput (out_code o) (labels o) l (call_relocations o) (return_fixups o) (indirect_temps o)
    (emitter o) (current_label_id o).
Definition set_call_relocations (l : list (string * nat)) (o : Output) : Output :=
  mkOutput (out_code o) (labels o) (label_fixups o) l (return_fixups o) (indirect_temps o)
    (emitter o) (current_label_id o).
Definition set_return_fixups (l : list nat) (o : Output) : Output :=
  mkOutput (out_code o) (labels o) (label_fixups o) (call_relocations o) l (indirect_temps o)
    (emitter o) (current_label_id o).
Definition set_emitter (e : BinaryEmitter) (o : Output) : Output :=
  mkOutput (out_code o) (labels o) (label_fixups o) (call_relocations o) (return_fixups o)
    (indirect_temps o) e (current_label_id o).
Definition set_label_id (n : Z) (o : Output) : Output :=
  mkOutput (out_code o) (labels o) (label_fixups o) (call_relocations o) (return_fixups o)
    (indirect_temps o) (emitter o) n.

(** ** Emission *)

Definition Gen (A : Type) : Type := Output → option A * Output.

#[export] Instance Gen_ret : MRet Gen := λ A a o, (Some a, o).
#[export] Instance Gen_bind : MBind Gen := λ A B f m o,
  match m o with
  | (Some a, o') => f a o'
  | (None, o') => (None, o')
  end.

Definition fail {A} : Gen A := λ o, (None, o).
Definition get_output : Gen Output := λ o, (Some o, o).
Definition put_output (o : Output) : Gen () := λ _, (Some (), o).

(** An encoder works on the code of the output. *)
Definition emit {A} (e : Emit A) : Gen A := λ o,
  let '(r, c) := e (out_code o) in (r, set_code c o).

Definition binary_label_fixup_table_add (name : string) (displacement_offset : nat) : Gen () :=
  o ← get_output; put_output (set_label_fixups (label_fixups o ++ [(name, displacement_offset)]) o).
Definition binary_call_relocation_table_add (name : string) (displacement_offset : nat) : Gen () :=
  o ← get_output;
  put_output (set_call_relocations (call_relocations o ++ [(name, displacement_offset)]) o).
Definition binary_offset_table_add (offset : nat) : Gen () :=
  o ← get_output; put_output (set_return_fixups (return_fixups o ++ [offset]) o).

(** ** Types *)

Section generator.
Context (g : CodeGenerator).

(** The object a [Type *] points to. *)
Definition type_at (t : option tid) : option Type_ := i ← t; types g !! i.

Definition lookup_symbol (name : string) : option Symbol :=
  s ← mjoin (symbol_table_lookup (symbol_table g) name); store (symbol_table g) !! s.

Definition symbol_type (s : option Symbol) : option Type_ := s ← s; type_at (stype s).

(** [symbol->scope->type == SCOPE_GLOBAL]. *)
Definition in_global_scope (s : Symbol) : bool :=
  match sscope s with
  | Some d =>
      match scopes (symbol_table g) !! (length (scopes (symbol_table g)) - 1 - d) with
      | Some sc => match scope_type sc with SCOPE_GLOBAL => true | _ => false end
      | None => false
      end
  | None => false
  end.

End generator.

Definition is_kind (k : TypeKind) (t : option Type_) : bool :=
  match t with Some t => bool_decide (kind t = k) | None => false end.

Definition code_generator_type_is_aggregate (t : option Type_) : bool :=
  is_kind TYPE_STRUCT t || is_kind TYPE_ARRAY t.

Definition code_generator_abi_type_size (t : option Type_) : Z :=
  match t with None => 0 | Some t => if (0 <? size t)%Z then size t else 8 end.

Inductive AbiPassKind : Type := ABI_PASS_DIRECT | ABI_PASS_INDIRECT.

#[export] Instance AbiPassKind_eq_dec : EqDecision AbiPassKind.
Proof. solve_decision. Defined.

Definition code_generator_abi_classify (t : option Type_) : AbiPassKind :=
  match t with
  | None => ABI_PASS_DIRECT
  | Some _ =>
      if negb (code_generator_type_is_aggregate t) then ABI_PASS_DIRECT
      else
        let s := code_generator_abi_type_size t in
        if (s =? 0)%Z then ABI_PASS_INDIRECT
        else if (8 <? s)%Z then ABI_PASS_INDIRECT
        else if (s =? 1)%Z || (s =? 2)%Z || (s =? 4)%Z || (s =? 8)%Z then ABI_PASS_DIRECT
        else ABI_PASS_INDIRECT
  end.

Definition code_generator_binary_resolved_type_is_supported (t : option Type_) (allow_void : bool)
    : bool :=
  match t with
  | None => false
  | Some t =>
      match kind t with
      | TYPE_INT8 | TYPE_INT16 | TYPE_INT32 | TYPE_INT64
      | TYPE_UINT8 | TYPE_UINT16 | TYPE_UINT32 | TYPE_UINT64
      | TYPE_FLOAT32 | TYPE_FLOAT64 | TYPE_POINTER | TYPE_ENUM | TYPE_FUNCTION_POINTER =>
          (size t <=? 8)%Z
      | TYPE_VOID => allow_void
      | _ => false
      end
  end.

Definition code_generator_binary_resolved_type_is_float64 (t : option Type_) : bool :=
  match t with
  | Some t => bool_decide (kind t = TYPE_FLOAT64) && (size t =? 8)%Z
  | None => false
  end.

Definition code_generator_binary_resolved_type_float_bits (t : option Type_) : Z :=
  match t with
  | None => 0
  | Some t =>
      if bool_decide (kind t = TYPE_FLOAT32) && (size t =? 4)%Z then 32
      else if bool_decide (kind t = TYPE_FLOAT64) && (size t =? 8)%Z then 64
      else 0
  end.

Definition code_generator_binary_resolved_type_is_abi_supported (t : option Type_)
    (allow_void : bool) : bool :=
  match t with
  | None => false
  | Some _ =>
      is_kind TYPE_STRING t || code_generator_type_is_aggregate t ||
      code_generator_binary_resolved_type_is_supported t allow_void
  end.

Definition code_generator_binary_resolved_type_is_stack_scalar (t : option Type_) : bool :=
  match t with
  | None => false
  | Some u =>
      if is_kind TYPE_STRING t then false
      else if code_generator_binary_resolved_type_is_supported t false then true
      else bool_decide (kind u = TYPE_FLOAT64) && (size u =? 8)%Z
  end.

Definition code_generator_binary_type_is_direct_aggregate (t : option Type_) : bool :=
  match t with
  | None => false
  | Some u =>
      code_generator_type_is_aggregate t &&
      bool_decide (code_generator_abi_classify t = ABI_PASS_DIRECT) &&
      (0 <? size u)%Z && (size u <=? 8)%Z
  end.

Definition code_generator_binary_type_is_gp_promotable (t : option Type_) : bool :=
  match t with
  | None => false
  | Some u =>
      code_generator_binary_resolved_type_is_supported t false &&
      (code_generator_binary_resolved_type_float_bits t =? 0)%Z &&
      negb (is_kind TYPE_STRING t) && negb (is_kind TYPE_VOID t) &&
      (0 <? size u)%Z && (size u <=? 8)%Z
  end.

Definition code_generator_binary_resolved_type_is_signed_integer (t : option Type_) : bool :=
  is_kind TYPE_INT8 t || is_kind TYPE_INT16 t || is_kind TYPE_INT32 t || is_kind TYPE_INT64 t.

Definition code_generator_binary_resolved_type_scalar_size (t : option Type_) : Z :=
  match t with
  | None => 8
  | Some u =>
      if is_kind TYPE_POINTER t || is_kind TYPE_FUNCTION_POINTER t then 8
      else if (0 <? size u)%Z && (size u <=? 8)%Z then size u else 8
  end.

Definition code_generator_binary_type_scalar_width (t : option Type_) : Z :=
  match t with None => 8 | _ => code_generator_binary_resolved_type_scalar_size t end.

Definition code_generator_binary_type_is_string (t : option Type_) : bool := is_kind TYPE_STRING t.

Section generator.
Context (g : CodeGenerator) (context : BinaryFunctionContext).

Definition code_generator_binary_type_is_cstring (t : option Type_) : bool :=
  match t with
  | None => false
  | Some u =>
      is_kind TYPE_POINTER t &&
      (bool_decide (tname u = Some "cstring"%string) ||
       match type_at g (base_type u) with
       | Some b => bool_decide (tname b = Some "uint8"%string)
       | None => false
       end)
  end.

Definition code_generator_binary_get_resolved_type (type_name : option string) (allow_void : bool)
    : option Type_ :=
  let resolved_name :=
    match type_name with
    | None | Some EmptyString => if allow_void then "void" else "int64"
    | Some n => n
    end in
  type_at g (type_by_name g resolved_name).

(** ** Slots and registers of names *)

Definition code_generator_binary_get_parameter_offset (name : string) : Z :=
  binary_named_slot_table_get_offset (parameter_slots context) name.
Definition code_generator_binary_get_local_offset (name : string) : Z :=
  binary_named_slot_table_get_offset (local_slots context) name.
Definition code_generator_binary_get_temp_offset (name : string) : Z :=
  binary_named_slot_table_get_offset (temp_slots context) name.

Definition code_generator_binary_get_symbol_offset (name : string) : Z :=
  let offset := code_generator_binary_get_parameter_offset name in
  if (0 <? offset)%Z then offset else code_generator_binary_get_local_offset name.

(** [offset >= 0]: the name is in the table. *)
Definition in_table (table : BinaryNamedSlotTable) (name : string) : bool :=
  (0 <=? binary_named_slot_table_get_offset table name)%Z.

Definition code_generator_binary_marked_symbol_float_bits (name : string) : Z :=
  let width := binary_named_slot_table_get_offset (float64_symbols context) name in
  if (width =? 32)%Z || (width =? 64)%Z then width else 0.

Definition code_generator_binary_symbol_is_scalar_accessible (name : string) : bool :=
  match lookup_symbol g name with
  | None => true
  | Some s =>
      match type_at g (stype s) with
      | None => true
      | Some t =>
          if bool_decide (skind s = SYMBOL_PARAMETER) && is_indirect_param (variable s) then true
          else if code_generator_binary_type_is_direct_aggregate (Some t) then true
          else code_generator_binary_resolved_type_is_stack_scalar (Some t)
      end
  end.

(** [x86Register] in its order; the generator's own numbering of the registers. *)
Definition code_generator_binary_x86_to_gp_register (source : Z) : option BinaryGpRegister :=
  match source with
  | 0 => Some BINARY_GP_RAX | 1 => Some BINARY_GP_RBX | 2 => Some BINARY_GP_RCX
  | 3 => Some BINARY_GP_RDX | 4 => Some BINARY_GP_RSI | 5 => Some BINARY_GP_RDI
  | 8 => Some BINARY_GP_R8 | 9 => Some BINARY_GP_R9 | 10 => Some BINARY_GP_R10
  | 11 => Some BINARY_GP_R11 | 12 => Some BINARY_GP_R12 | 13 => Some BINARY_GP_R13
  | 14 => Some BINARY_GP_R14 | 15 => Some BINARY_GP_R15
  | _ => None
  end%Z.

Definition code_generator_binary_gp_register_is_win64_nonvolatile (reg : BinaryGpRegister) : bool :=
  match reg with
  | BINARY_GP_RBX | BINARY_GP_RSI | BINARY_GP_RDI | BINARY_GP_R12 | BINARY_GP_R13
  | BINARY_GP_R14 | BINARY_GP_R15 => true
  | _ => false
  end.

(** The cast of a table's number to a register. *)
Definition register_of (z : Z) : option BinaryGpRegister :=
  find (fun r => (gp_code r =? z)%Z)
    [BINARY_GP_RAX; BINARY_GP_RCX; BINARY_GP_RDX; BINARY_GP_RBX; BINARY_GP_RSP; BINARY_GP_RBP;
     BINARY_GP_RSI; BINARY_GP_RDI; BINARY_GP_R8; BINARY_GP_R9; BINARY_GP_R10; BINARY_GP_R11;
     BINARY_GP_R12; BINARY_GP_R13; BINARY_GP_R14; BINARY_GP_R15].

Definition code_generator_binary_symbol_assigned_register (name : string) : option BinaryGpRegister :=
  if in_table (address_taken_symbols context) name then None
  else if (code_generator_binary_get_symbol_offset name <=? 0)%Z then None
  else
    let symbol := lookup_symbol g name in
    let type := symbol_type g symbol in
    if match type with
       | Some _ =>
           negb (code_generator_binary_resolved_type_is_supported type false) ||
           negb (code_generator_binary_resolved_type_float_bits type =? 0)%Z ||
           is_kind TYPE_STRING type
       | None => false
       end then None
    else
      let promoted_register := binary_named_slot_table_get_offset (register_symbols context) name in
      let mapped := if (0 <=? promoted_register)%Z then register_of promoted_register else None in
      match r ← mapped; guard (code_generator_binary_gp_register_is_win64_nonvolatile r);; Some r with
      | Some r => Some r
      | None =>
          s ← symbol; _ ← type; guard (is_in_register (variable s));;
          r ← code_generator_binary_x86_to_gp_register (register_id (variable s));
          guard (code_generator_binary_gp_register_is_win64_nonvolatile r);; Some r
      end.

End generator.
