(* ===== verification/Frame.v ===== *)
(** * Code generation: the frame of a function (src/src/codegen/binary/abi.c)

    What is settled before a function's code is emitted: which locals are aliases of
    others, which live in registers, and where the slots of parameters, locals,
    temporaries and saved registers are below the frame pointer. *)

From stdpp Require Import gmap.
From S2P Require Import Prelude.
From S2P Require Import Types.
From S2P Require Import SymbolTable.
From S2P Require Import Ast.
From S2P Require Import IR.
From S2P Require Import Encoders.
From S2P Require Import FunctionContext.

Definition INT_MAX : Z := 2147483647.
Definition BINARY_FUNCTION_STACK_SLOT_SIZE : Z := 8.
Definition BINARY_LOOP_WEIGHT_CAP : Z := 262144.

Definition binary_align_up_int (value alignment : Z) : option Z :=
  if (value <? 0)%Z || (alignment <=? 0)%Z then None
  else
    let remainder := Z.rem value alignment in
    if (remainder =? 0)%Z then Some value
    else if (INT_MAX - (alignment - remainder) <? value)%Z then None
    else Some (value + (alignment - remainder))%Z.

(** ** Names in instructions *)

Definition symbol_name (x : IROperand) : option string :=
  match x with IR_OPERAND_SYMBOL n _ => Some n | _ => None end.
Definition temp_name (x : IROperand) : option string :=
  match x with IR_OPERAND_TEMP n _ => Some n | _ => None end.

Definition is_name (n : string) (x : option string) : bool :=
  match x with Some n' => String.eqb n' n | None => false end.

Definition code_generator_binary_instruction_writes_dest (op : IROpcode) : bool :=
  match op with
  | IR_OP_NOP | IR_OP_LABEL | IR_OP_JUMP | IR_OP_BRANCH_ZERO | IR_OP_BRANCH_EQ
  | IR_OP_DECLARE_LOCAL => false
  | _ => true
  end.

Definition code_generator_binary_symbol_write_count (body : code) (name : string) : nat :=
  length (filter (fun i => Is_true (code_generator_binary_instruction_writes_dest (op i) &&
                                    is_name name (symbol_name (dest i)))) body).

(** ** Aliases *)

Section aliases.
Context (g : CodeGenerator) (body : code).

Definition promotable_symbol (name : string) : bool :=
  match symbol_type g (lookup_symbol g name) with
  | Some t => code_generator_binary_type_is_gp_promotable (Some t)
  | None => true
  end.

(** Whether the copy [name = target] makes [name] share the storage of [target]. *)
Definition alias_candidate (context : BinaryFunctionContext) (name target : string) : bool :=
  negb (String.eqb name target) &&
  (0 <? code_generator_binary_get_local_offset context name)%Z &&
  (0 <? code_generator_binary_get_symbol_offset context target)%Z &&
  (code_generator_binary_symbol_write_count body name =? 1) &&
  (code_generator_binary_symbol_write_count body target =? 1) &&
  negb (in_table (address_taken_symbols context) name) &&
  negb (in_table (address_taken_symbols context) target) &&
  match binary_symbol_alias_table_get (symbol_aliases context) target with
  | None => true | Some _ => false end &&
  promotable_symbol name && promotable_symbol target &&
  (code_generator_binary_marked_symbol_float_bits context name =? 0)%Z &&
  (code_generator_binary_marked_symbol_float_bits context target =? 0)%Z &&
  code_generator_binary_symbol_is_scalar_accessible g name &&
  code_generator_binary_symbol_is_scalar_accessible g target.

Fixpoint collect_aliases (rest : code) (context : BinaryFunctionContext) : option BinaryFunctionContext :=
  match rest with
  | [] => Some context
  | i :: rest =>
      match op i, symbol_name (dest i), symbol_name (lhs i) with
      | IR_OP_ASSIGN, Some name, Some target =>
          if alias_candidate context name target then
            t ← binary_symbol_alias_table_add (symbol_aliases context) name target;
            collect_aliases rest (set_symbol_aliases t context)
          else collect_aliases rest context
      | _, _, _ => collect_aliases rest context
      end
  end.

Definition code_generator_binary_collect_symbol_aliases : BinaryFunctionContext → option BinaryFunctionContext :=
  collect_aliases body.

End aliases.

(** ** The weight of an instruction and the score of a variable *)

Definition code_generator_binary_operand_mentions_symbol (operand : IROperand) (name : string) : bool :=
  is_name name (symbol_name operand).

Definition code_generator_binary_operand_mentions_symbol_or_alias (context : BinaryFunctionContext)
    (operand : IROperand) (name : string) : bool :=
  code_generator_binary_operand_mentions_symbol operand name ||
  match symbol_name operand with
  | Some n => is_name name (binary_symbol_alias_table_get (symbol_aliases context) n)
  | None => false
  end.

(** The index of the first label [l] before the index [bound]. *)
Definition label_before (body : code) (bound : nat) (l : string) : option nat :=
  fst <$> list_find (fun i => Is_true (bool_decide (op i = IR_OP_LABEL) && is_name l (text i)))
            (take bound body).

Definition bump_weight (first last : nat) (i : nat) (w : Z) : Z :=
  if (first <=? i) && (i <=? last) && (w <=? BINARY_LOOP_WEIGHT_CAP)%Z then (w * 4)%Z else w.

(** Each jump back to a label multiplies the weights of the instructions between them. *)
Fixpoint loop_weights (body : code) (jumps : nat) (weights : list Z) (fuel : nat) : list Z :=
  match fuel with
  | O => weights
  | S fuel =>
      let weights := match i ← body !! jumps; guard (op i = IR_OP_JUMP);; text i with
                     | Some l =>
                         match label_before body jumps l with
                         | Some first => imap (bump_weight first jumps) weights
                         | None => weights
                         end
                     | None => weights
                     end in
      loop_weights body (S jumps) weights fuel
  end.

Definition code_generator_binary_build_loop_weights (body : code) : list Z :=
  loop_weights body 0 (replicate (length body) 1%Z) (length body).

Definition count_mentions (context : BinaryFunctionContext) (name : string) (i : IRInstruction) : nat :=
  length (filter (fun x => Is_true (code_generator_binary_operand_mentions_symbol_or_alias context x name))
            (dest i :: lhs i :: rhs i :: arguments i)).

Definition code_generator_binary_function_symbol_score (context : BinaryFunctionContext) (body : code)
    (name : string) (weights : list Z) : Z :=
  let score := foldl (fun s '(i, w) => u64 (s + Z.of_nat (count_mentions context name i) * w)) 0%Z
                 (zip body weights) in
  if strstr name "__ptr_" then u64 (score * 2) else score.

(** ** Promotion to registers *)

Definition code_generator_binary_symbol_already_promoted (context : BinaryFunctionContext) (name : string)
    : bool := in_table (register_symbols context) name.

Definition code_generator_binary_context_add_saved_register (context : BinaryFunctionContext)
    (reg : BinaryGpRegister) : option BinaryFunctionContext :=
  if existsb (fun r => (gp_code r =? gp_code reg)%Z) (saved_registers context) then Some context
  else if 7 <=? length (saved_registers context) then None
  else Some (set_saved_registers (saved_registers context ++ [reg]) context).

Definition promotion_registers : list BinaryGpRegister :=
  [BINARY_GP_R12; BINARY_GP_R13; BINARY_GP_R14; BINARY_GP_R15; BINARY_GP_RBX; BINARY_GP_RSI;
   BINARY_GP_RDI].

Definition code_generator_binary_function_has_calls (body : code) : bool :=
  existsb (fun i => bool_decide (op i = IR_OP_CALL) || bool_decide (op i = IR_OP_CALL_INDIRECT)) body.

Section promotion.
Context (g : CodeGenerator) (body : code).

(** The type a call of the function named [callee] returns. *)
Definition callee_return_type (callee : option Symbol) : option Type_ :=
  match callee with
  | Some s =>
      if bool_decide (skind s = SYMBOL_FUNCTION) then
        match SymbolTable.return_type (SymbolTable.function s) with
        | Some t => type_at g (Some t)
        | None => type_at g (stype s)
        end
      else None
  | None => None
  end.

Definition passes_indirect (callee : option Symbol) (i : IRInstruction) : bool :=
  match callee with
  | Some s =>
      bool_decide (skind s = SYMBOL_FUNCTION) &&
      match SymbolTable.parameter_types (SymbolTable.function s) with
      | Some types =>
          existsb (fun t => bool_decide (code_generator_abi_classify (type_at g t) = ABI_PASS_INDIRECT))
            (take (length (arguments i) `min` SymbolTable.parameter_count (SymbolTable.function s)) types)
      | None => false
      end
  | None => false
  end.

Definition code_generator_binary_function_can_promote_rsi_rdi (return_type : option Type_) : bool :=
  bool_decide (code_generator_abi_classify return_type ≠ ABI_PASS_INDIRECT) &&
  forallb (fun i =>
    negb (match ast_ref i with Some _ => true | None => false end ||
          bool_decide (op i = IR_OP_CALL_INDIRECT) || bool_decide (op i = IR_OP_INLINE_ASM) ||
          bool_decide (op i = IR_OP_NEW)) &&
    match op i, text i with
    | IR_OP_CALL, Some callee =>
        let s := lookup_symbol g callee in
        bool_decide (code_generator_abi_classify (callee_return_type s) ≠ ABI_PASS_INDIRECT) &&
        negb (passes_indirect s i)
    | _, _ => true
    end) body.

(** A name that may still be promoted. *)
Definition unplaced (context : BinaryFunctionContext) (name : string) : bool :=
  negb (code_generator_binary_symbol_already_promoted context name) &&
  match binary_symbol_alias_table_get (symbol_aliases context) name with
  | None => true | Some _ => false end &&
  negb (in_table (address_taken_symbols context) name).

Definition promote (context : BinaryFunctionContext) (name : string) (reg : BinaryGpRegister)
    : option BinaryFunctionContext :=
  t ← binary_named_slot_table_add (register_symbols context) name (gp_code reg);
  code_generator_binary_context_add_saved_register (set_register_symbols t context) reg.

Definition is_pointer_step (i : IRInstruction) : bool :=
  bool_decide (op i = IR_OP_BINARY) && bool_decide (text i = Some "+"%string) && negb (is_float i) &&
  match dest i, lhs i, rhs i with
  | IR_OPERAND_SYMBOL d _, IR_OPERAND_SYMBOL l _, IR_OPERAND_INT v =>
      String.eqb d l && ((v =? 4)%Z || (v =? -4)%Z || (v =? 1)%Z || (v =? -1)%Z)
  | _, _, _ => false
  end.

(** The operands of pointer steps and of [IR_OP_ROTATE_ADD] come first. *)
Definition promote_operand (i : IRInstruction) (registers : list BinaryGpRegister)
    (state : option (BinaryFunctionContext * nat)) (operand : nat * IROperand)
    : option (BinaryFunctionContext * nat) :=
  '(context, count) ← state;
  match registers !! count, symbol_name (snd operand) with
  | Some reg, Some name =>
      let type := code_generator_binary_get_resolved_type g
                    (Some (if is_pointer_step i then "int32*" else "int64")%string) false in
      if unplaced context name && negb (is_pointer_step i && (fst operand =? 2)) &&
         (code_generator_binary_type_is_gp_promotable type || (is_pointer_step i && strstr name "__ptr_"))
      then c ← promote context name reg; Some (c, S count)
      else Some (context, count)
  | _, _ => Some (context, count)
  end.

Definition promote_steps (registers : list BinaryGpRegister) (context : BinaryFunctionContext)
    : option (BinaryFunctionContext * nat) :=
  foldl (fun state i =>
    if bool_decide (op i = IR_OP_ROTATE_ADD) || is_pointer_step i
    then foldl (promote_operand i registers) state [(0, dest i); (1, lhs i); (2, rhs i)]
    else state) (Some (context, 0)) body.

(** The candidate of the highest score, the first of equals, kept only above [best]. *)
Definition better (context : BinaryFunctionContext) (weights : list Z)
    (best : option string * Z) (candidate : string * option string) : option string * Z :=
  let '(name, type) := candidate in
  if unplaced context name &&
     code_generator_binary_type_is_gp_promotable (code_generator_binary_get_resolved_type g type false)
  then
    let score := code_generator_binary_function_symbol_score context body name weights in
    if (snd best <? score)%Z then (Some name, score) else best
  else best.

(** The declared locals with their types. *)
Definition declared_locals : list (string * option string) :=
  omap (fun i =>
    match op i, symbol_name (dest i) with
    | IR_OP_DECLARE_LOCAL, Some n =>
        Some (n, Some (match text i with
                       | None | Some EmptyString => "int64" | Some t => t end)%string)
    | _, _ => None
    end) body.

Definition insufficient (best : option string * Z) : bool :=
  match fst best with None => true | Some _ => (snd best <? 2)%Z end.

Fixpoint promote_best (parameters : list (string * option string)) (registers : list BinaryGpRegister)
    (weights : list Z) (context : BinaryFunctionContext) : option BinaryFunctionContext :=
  match registers with
  | [] => Some context
  | reg :: registers =>
      let best := foldl (better context weights) (None, 0%Z) parameters in
      let best := if insufficient best
                  then foldl (better context weights) best declared_locals else best in
      match fst best with
      | Some name =>
          if (snd best <? 2)%Z then Some context
          else c ← promote context name reg; promote_best parameters registers weights c
      | None => Some context
      end
  end.

Definition code_generator_binary_promote_hot_symbols (context : BinaryFunctionContext)
    : option BinaryFunctionContext :=
  let data := function_data context in
  let return_type := code_generator_binary_get_resolved_type g (fd_return_type data) true in
  let registers := if code_generator_binary_function_can_promote_rsi_rdi return_type
                   then promotion_registers else take 5 promotion_registers in
  '(context, count) ← (if code_generator_binary_function_has_calls body then Some (context, 0)
                       else promote_steps registers context);
  promote_best (map (fun p => (fst p, Some (snd p))) (fd_parameters data)) (drop count registers)
    (code_generator_binary_build_loop_weights body) context.

End promotion.

(** ** Floating-point widths *)

Section widths.
Context (g : CodeGenerator).

Definition named_type (n : option string) : option Type_ := n ← n; type_at g (type_by_name g n).

Definition code_generator_binary_named_type_float_bits (type_name : option string) : Z :=
  match type_name with
  | None | Some EmptyString => 0
  | _ => code_generator_binary_resolved_type_float_bits
           (code_generator_binary_get_resolved_type g type_name false)
  end.

Definition code_generator_binary_mark_float_symbol (name : string) (bits : Z)
    (context : BinaryFunctionContext) : option BinaryFunctionContext :=
  if String.eqb name EmptyString then None
  else if in_table (float64_symbols context) name then Some context
  else t ← binary_named_slot_table_add (float64_symbols context) name (if (bits =? 32)%Z then 32 else 64);
       Some (set_float64_symbols t context).

Context (context : BinaryFunctionContext).

Definition code_generator_binary_operand_is_known_float64 (operand : IROperand) : bool :=
  match operand with
  | IR_OPERAND_FLOAT _ _ => true
  | IR_OPERAND_TEMP n _ => in_table (float64_symbols context) n
  | IR_OPERAND_SYMBOL n _ =>
      in_table (float64_symbols context) n ||
      code_generator_binary_resolved_type_is_float64 (symbol_type g (lookup_symbol g n))
  | _ => false
  end.

(** What the operand carries, else what is recorded for its name, else its type. *)
Definition code_generator_binary_operand_float_bits (operand : IROperand) : Z :=
  match operand with
  | IR_OPERAND_FLOAT _ bits => if (bits =? 32)%Z then 32 else 64
  | IR_OPERAND_TEMP n bits =>
      if (bits =? 32)%Z || (bits =? 64)%Z then bits
      else code_generator_binary_marked_symbol_float_bits context n
  | IR_OPERAND_SYMBOL n bits =>
      if (bits =? 32)%Z || (bits =? 64)%Z then bits
      else
        let marked := code_generator_binary_marked_symbol_float_bits context n in
        if negb (marked =? 0)%Z then marked
        else code_generator_binary_resolved_type_float_bits (symbol_type g (lookup_symbol g n))
  | _ => 0
  end%Z.

(** The type a call returns: of a function symbol, or of a variable that holds a
    function's address. *)
Definition called_function_return (i : IRInstruction) : option (option Type_) :=
  s ← (n ← text i; lookup_symbol g n);
  guard (skind s = SYMBOL_FUNCTION);;
  Some (type_at g (SymbolTable.return_type (SymbolTable.function s))).
Definition called_pointer_return (i : IRInstruction) : option (option Type_) :=
  t ← (n ← symbol_name (lhs i); symbol_type g (lookup_symbol g n));
  guard (kind t = TYPE_FUNCTION_POINTER);;
  Some (type_at g (fn_return_type t)).

Definition code_generator_binary_instruction_result_is_float64 (i : IRInstruction) : bool :=
  let returns (t : option (option Type_)) :=
    code_generator_binary_resolved_type_is_float64 (mjoin t) in
  let operator ops := match text i with Some o => existsb (String.eqb o) ops | None => false end in
  match op i with
  | IR_OP_ASSIGN => code_generator_binary_operand_is_known_float64 (lhs i)
  | IR_OP_BINARY => is_float i && operator ["+"; "-"; "*"; "/"]%string
  | IR_OP_UNARY => is_float i && operator ["+"; "-"]%string
  | IR_OP_CALL => returns (called_function_return i)
  | IR_OP_CALL_INDIRECT => returns (called_pointer_return i)
  | IR_OP_CAST =>
      code_generator_binary_resolved_type_is_float64 (code_generator_binary_get_resolved_type g (text i) false)
  | IR_OP_LOAD => is_float i
  | _ => false
  end.

Definition code_generator_binary_instruction_result_float_bits (i : IRInstruction) : Z :=
  let bits (t : option (option Type_)) :=
    match t with Some t => code_generator_binary_resolved_type_float_bits t | None => 64%Z end in
  if negb (code_generator_binary_instruction_result_is_float64 i) then 0%Z
  else match op i with
  | IR_OP_ASSIGN => code_generator_binary_operand_float_bits (lhs i)
  | IR_OP_BINARY | IR_OP_UNARY | IR_OP_LOAD => if (float_bits i =? 32)%Z then 32%Z else 64%Z
  | IR_OP_CALL => bits (called_function_return i)
  | IR_OP_CALL_INDIRECT => bits (called_pointer_return i)
  | IR_OP_CAST => code_generator_binary_resolved_type_float_bits (named_type (text i))
  | _ => 64%Z
  end.

End widths.

(** ** The frame *)

(** A sum of [int]s; [None] where it overflows. *)
Definition int (v : Z) : option Z := guard (v <= INT_MAX)%Z;; Some v.

Definition set_indirect_param (s : Symbol) : Symbol :=
  mkSymbol (name s) (skind s) (stype s) (sscope s) (is_initialized s) (is_forward_declaration s)
    (is_extern s) (link_name s) (function s)
    (mkVariable (register_id (variable s)) (memory_offset (variable s)) (is_in_register (variable s)) true)
    (constant_value s) (constructor s).

(** The symbol of a parameter passed by address is marked. *)
Definition mark_indirect_parameter (g : CodeGenerator) (name : string) : CodeGenerator :=
  match mjoin (symbol_table_lookup (symbol_table g) name) with
  | Some i =>
      match store (symbol_table g) !! i with
      | Some s =>
          if bool_decide (skind s = SYMBOL_PARAMETER) then
            mkGenerator (mkTable (<[i:=set_indirect_param s]> (store (symbol_table g))) (scopes (symbol_table g)))
              (types g) (type_by_name g) (builtin_string g) (builtin_cstring g) (expression_type g)
              (global_const g) (ir_function g)
          else g
      | None => g
      end
  | None => g
  end.

Section layout.

(** The state of the loops of [prepare_function_context]. *)
Abbreviation prepared := (CodeGenerator * BinaryFunctionContext)%type.

Definition mark_address_taken (c : BinaryFunctionContext) (i : IRInstruction)
    : option BinaryFunctionContext :=
  match op i, symbol_name (lhs i) with
  | IR_OP_ADDRESS_OF, Some n =>
      t ← binary_named_slot_table_add (address_taken_symbols c) n 1; Some (set_address_taken_symbols t c)
  | _, _ => Some c
  end.

(** One slot for each parameter, after the hidden pointer's. *)
Definition place_parameter (hidden : nat) (p : prepared) (parameter : nat * (string * string))
    : option prepared :=
  let '(g, c) := p in
  let '(i, (name, type_name)) := parameter in
  let offset := (Z.of_nat (i + 1 + hidden) * BINARY_FUNCTION_STACK_SLOT_SIZE)%Z in
  t ← binary_named_slot_table_add (parameter_slots c) name offset;
  let c := set_parameter_slots t c in
  let type := code_generator_binary_get_resolved_type g (Some type_name) false in
  c ← (if code_generator_binary_type_is_cstring g type
       then t ← binary_named_slot_table_add (cstring_symbols c) name offset; Some (set_cstring_symbols t c)
       else Some c);
  let g := if bool_decide (code_generator_abi_classify type = ABI_PASS_INDIRECT)
           then mark_indirect_parameter g name else g in
  let bits := code_generator_binary_named_type_float_bits g (Some type_name) in
  c ← (if (bits =? 0)%Z then Some c else code_generator_binary_mark_float_symbol name bits c);
  Some (g, c).

(** The alignment and the size of the storage of a local. *)
Definition local_storage (t : Type_) : option (Z * Z) :=
  let scalar := code_generator_binary_resolved_type_is_stack_scalar (Some t) ||
                code_generator_binary_type_is_direct_aggregate (Some t) in
  let alignment := if scalar then BINARY_FUNCTION_STACK_SLOT_SIZE else s32 (Types.alignment t) in
  let storage := if scalar then BINARY_FUNCTION_STACK_SLOT_SIZE else s32 (size t) in
  if (storage <=? 0)%Z then None
  else Some (if (alignment <=? 0)%Z then 1%Z else alignment, storage).

Record locals : Type := mkLocals {
  placed_in : BinaryFunctionContext;
  storage_size_total : Z;
  slot_count : nat }.

Definition mark_local_float (t : Type_) (name : string) (c : BinaryFunctionContext)
    : option BinaryFunctionContext :=
  let bits := code_generator_binary_resolved_type_float_bits (Some t) in
  if (bits =? 0)%Z then Some c else code_generator_binary_mark_float_symbol name bits c.

(** A name declared again keeps its slot. *)
Definition place_local (g : CodeGenerator) (parameter_home_size : Z) (s : locals) (i : IRInstruction)
    : option locals :=
  match op i with
  | IR_OP_DECLARE_LOCAL =>
      name ← symbol_name (dest i);
      guard (name ≠ EmptyString);;
      type ← named_type g (text i);
      guard (kind type ≠ TYPE_VOID);; guard (size type ≠ 0%Z);;
      '(alignment, storage) ← local_storage type;
      let c := placed_in s in
      if (0 <? binary_named_slot_table_get_offset (local_slots c) name)%Z then
        c ← mark_local_float type name c; Some (mkLocals c (storage_size_total s) (slot_count s))
      else
        aligned ← binary_align_up_int (storage_size_total s) alignment;
        guard (aligned <= INT_MAX - storage)%Z;;
        let total := (aligned + storage)%Z in
        let count := S (slot_count s) in
        guard (Z.of_nat count <= INT_MAX / BINARY_FUNCTION_STACK_SLOT_SIZE)%Z;;
        let offset := (parameter_home_size + total)%Z in
        t ← binary_named_slot_table_add (local_slots c) name offset;
        let c := set_local_slots t c in
        c ← (if code_generator_binary_type_is_cstring g (Some type)
             then t ← binary_named_slot_table_add (cstring_symbols c) name offset; Some (set_cstring_symbols t c)
             else Some c);
        c ← (if bool_decide (kind type = TYPE_STRING)
             then t ← binary_named_slot_table_add (string_symbols c) name offset; Some (set_string_symbols t c)
             else Some c);
        c ← mark_local_float type name c;
        Some (mkLocals c total count)
  | _ => Some s
  end.

Definition place_temp (base : Z) (s : BinaryFunctionContext * nat) (i : IRInstruction)
    : option (BinaryFunctionContext * nat) :=
  let '(c, count) := s in
  match temp_name (dest i) with
  | Some n =>
      if in_table (temp_slots c) n then Some s
      else
        let count := S count in
        guard (Z.of_nat count <= INT_MAX / BINARY_FUNCTION_STACK_SLOT_SIZE)%Z;;
        t ← binary_named_slot_table_add (temp_slots c) n
              (base + Z.of_nat count * BINARY_FUNCTION_STACK_SLOT_SIZE);
        Some (set_temp_slots t c, count)
  | None => Some s
  end.

Definition mark_result (g : CodeGenerator) (c : BinaryFunctionContext) (i : IRInstruction)
    : option BinaryFunctionContext :=
  match (match symbol_name (dest i) with Some n => Some n | None => temp_name (dest i) end) with
  | Some n =>
      let bits := code_generator_binary_instruction_result_float_bits g c i in
      if (bits =? 0)%Z then Some c else code_generator_binary_mark_float_symbol n bits c
  | None => Some c
  end.

Definition save_register_of (g : CodeGenerator) (c : BinaryFunctionContext) (name : string)
    : option BinaryFunctionContext :=
  match code_generator_binary_symbol_assigned_register g c name with
  | Some r => code_generator_binary_context_add_saved_register c r
  | None => Some c
  end.

(** A slot for what each call that returns a struct by address returns. *)
Definition return_slot (g : CodeGenerator) (base : Z) (s : list Z * Z) (i : IRInstruction) : option (list Z * Z) :=
  let '(offsets, total) := s in
  match op i, text i with
  | IR_OP_CALL, Some callee =>
      let type := callee_return_type g (lookup_symbol g callee) in
      if bool_decide (code_generator_abi_classify type = ABI_PASS_INDIRECT) then
        let bytes := s32 (Z.land (u64 (code_generator_abi_type_size type + 15)) (u64 (Z.lnot 15))) in
        offset ← int (base + total + bytes);
        Some (offsets ++ [offset], (total + bytes)%Z)
      else Some s
  | _, _ => Some s
  end.

Definition empty_context (data : FunctionDeclaration ASTNode) (body : code) (float_bits : Z)
    (indirect : bool) (indirect_size : Z) : BinaryFunctionContext :=
  mkContext [] [] [] [] [] [] [] [] [] [] [] 0 0 float_bits indirect indirect_size [] data (Some body).

Definition code_generator_binary_prepare_function_context (g : CodeGenerator)
    (data : FunctionDeclaration ASTNode) (body : code) : option prepared :=
  let parameters := fd_parameters data in
  let float_bits := code_generator_binary_resolved_type_float_bits
                      (code_generator_binary_get_resolved_type g (fd_return_type data) true) in
  guard (Z.of_nat (length parameters) <= INT_MAX / BINARY_FUNCTION_STACK_SLOT_SIZE)%Z;;
  let return_type := match fd_return_type data with
                     | Some t => code_generator_binary_get_resolved_type g (Some t) true
                     | None => None
                     end in
  let indirect := bool_decide (code_generator_abi_classify return_type = ABI_PASS_INDIRECT) in
  let hidden := if indirect then 1 else 0 in
  let context := empty_context data body float_bits indirect
                   (if indirect then code_generator_abi_type_size return_type else 0%Z) in
  context ← fold_option mark_address_taken body context;
  guard (Z.of_nat (length parameters + hidden) <= INT_MAX / BINARY_FUNCTION_STACK_SLOT_SIZE)%Z;;
  let parameter_home_size := (Z.of_nat (length parameters + hidden) * BINARY_FUNCTION_STACK_SLOT_SIZE)%Z in
  '(g, context) ← fold_option (place_parameter hidden) (zip (seq 0 (length parameters)) parameters) (g, context);
  s ← fold_option (place_local g parameter_home_size) body (mkLocals context 0 0);
  let local_total := storage_size_total s in
  '(context, temp_count) ← fold_option (place_temp (parameter_home_size + local_total)) body (placed_in s, 0);
  context ← fold_option (mark_result g) body context;
  context ← code_generator_binary_collect_symbol_aliases g body context;
  context ← code_generator_binary_promote_hot_symbols g body context;
  context ← fold_option (save_register_of g) (map fst parameters) context;
  context ← fold_option (save_register_of g) (map fst (declared_locals body)) context;
  local_home_size ← binary_align_up_int local_total BINARY_FUNCTION_STACK_SLOT_SIZE;
  let temp_home_size := (Z.of_nat temp_count * BINARY_FUNCTION_STACK_SLOT_SIZE)%Z in
  guard (parameter_home_size <= INT_MAX - local_home_size)%Z;;
  guard (parameter_home_size + local_home_size <= INT_MAX - temp_home_size)%Z;;
  let base := (parameter_home_size + local_home_size + temp_home_size)%Z in
  '(return_slots, return_total) ← fold_option (return_slot g base) body ([], 0%Z);
  let count := length (saved_registers context) in
  raw ← int (base + return_total + Z.of_nat count * BINARY_FUNCTION_STACK_SLOT_SIZE);
  frame ← binary_align_up_int raw 16;
  let offsets := map (fun i => base + return_total + Z.of_nat (i + 1) * BINARY_FUNCTION_STACK_SLOT_SIZE)%Z
                   (seq 0 count) in
  Some (g, set_indirect_return_slot_offsets return_slots (set_saved_register_offsets offsets
             (set_raw_frame_size raw (set_frame_size frame context)))).

End layout.
