(* ===== verification/Operands.v ===== *)
(** * Code generation: operands (src/src/codegen/binary/emit.c, abi.c)

    Loading the value of an IR operand into a register and storing a register to the
    destination of an instruction: immediates, literals of the read-only section,
    stack slots, promoted registers, aliases, globals and small aggregates. *)

From stdpp Require Import gmap.
From S2P Require Import Prelude.
From S2P Require Import Types.
From S2P Require Import SymbolTable.
From S2P Require Import IR.
From S2P Require Import Outcome.
From S2P Require Import BinaryEmitter.
From S2P Require Import Encoders.
From S2P Require Import FunctionContext.

(** ** Floating-point patterns *)

(** The bits of a value of a binary format of precision [prec] and [emax]. *)
Definition ieee_pattern (prec emax : Z) (v : spec_float) : Z :=
  let fraction := (prec - 1)%Z in
  let bias := (emax - 1)%Z in
  let sign (s : bool) := if s then (emax * 2 * 2 ^ fraction)%Z else 0%Z in
  match v with
  | S754_zero s => sign s
  | S754_infinity s => (sign s + (2 * emax - 1) * 2 ^ fraction)%Z
  | S754_nan => ((2 * emax - 1) * 2 ^ fraction + 2 ^ (fraction - 1))%Z
  | S754_finite s m e =>
      if (Z.pos (digits2_pos m) <? prec)%Z then (sign s + Z.pos m)%Z
      else (sign s + (e + fraction + bias) * 2 ^ fraction + (Z.pos m - 2 ^ fraction))%Z
  end.

Definition double_bits (v : spec_float) : Z := ieee_pattern 53 1024 v.

(** [(float)value] in a union with its bits. *)
Definition float_bits32 (v : spec_float) : Z :=
  ieee_pattern 24 128
    (match v with
     | S754_finite s m e => binary_round 24 128 s m e
     | v => v
     end).

(** ** The object file's sections *)

Definition with_emitter {A} (f : BinaryEmitter → option (BinaryEmitter * A)) : Gen A :=
  o ← get_output;
  match f (emitter o) with
  | Some (e, a) => put_output (set_emitter e o) ;; mret a
  | None => fail
  end.

Definition with_emitter_only (f : BinaryEmitter → option BinaryEmitter) : Gen () :=
  with_emitter (fun e => e' ← f e; Some (e', ())).

Definition done_only {E A} (r : checked E A) : option A := match r with Done a => Some a | _ => None end.

Definition code_generator_binary_declare_external_symbol (symbol_name : string) : Gen () :=
  if String.eqb symbol_name EmptyString then fail
  else with_emitter_only (fun e => done_only (binary_emitter_declare_external true e symbol_name)).

Definition code_generator_generate_label (prefix : string) : Gen string :=
  o ← get_output;
  put_output (set_label_id (current_label_id o + 1) o) ;;
  mret ("L" +:+ prefix +:+ decimal (Z.to_N (current_label_id o)))%string.

Definition code_generator_binary_emit_symbol_address (symbol_name : string) (declare_external : bool)
    (target_register : BinaryGpRegister) : Gen () :=
  if String.eqb symbol_name EmptyString then fail
  else
    (if declare_external then code_generator_binary_declare_external_symbol symbol_name else mret ()) ;;
    displacement_offset ← emit (binary_emit_lea_reg_rip_placeholder target_register);
    binary_call_relocation_table_add symbol_name displacement_offset.

(** The bytes of a C string, which ends at its first NUL. *)
Definition c_bytes (s : string) : list byte := map byte_of_ascii (list_ascii_of_string (c_string s)).
Definition c_length (s : string) : Z := Z.of_nat (String.length (c_string s)).
Definition terminator : list byte := [byte.of_Z 0].

Definition define_local (e : BinaryEmitter) (label : string) (section : nat) (offset size : Z)
    : option BinaryEmitter :=
  done_only (binary_emitter_define_symbol true e label BINARY_SYMBOL_LOCAL (Some section) offset size).

Definition code_generator_binary_emit_cstring_literal_address (value : string)
    (target_register : BinaryGpRegister) : Gen () :=
  label ← code_generator_generate_label "str_chars";
  rdata_section ← with_emitter (fun e =>
    binary_emitter_get_or_create_section e ".rdata" BINARY_SECTION_RDATA 0 1);
  literal_offset ← with_emitter (fun e => binary_emitter_append_bytes e rdata_section (c_bytes value));
  _ ← with_emitter (fun e => binary_emitter_append_bytes e rdata_section terminator);
  with_emitter_only (fun e =>
    define_local e label rdata_section literal_offset (c_length value + 1)) ;;
  code_generator_binary_emit_symbol_address label false target_register.

(** [memcpy] into the data of a section. *)
Definition write_section (e : BinaryEmitter) (i : nat) (offset : Z) (bytes : list byte)
    : option BinaryEmitter :=
  s ← binary_emitter_get_section e i;
  if (bsec_size s <? offset + 8)%Z then None
  else Some (update_section e i
    (mkBinarySection (bsec_name s) (bsec_kind s) (bsec_characteristics s) (bsec_alignment s)
       (overwrite (Z.to_nat offset) bytes (bsec_data s)) (bsec_virtual_size s))).

(** A [string] value is the address of its characters and its length. *)
Definition code_generator_binary_emit_string_literal_value_address (value : string)
    (target_register : BinaryGpRegister) : Gen () :=
  chars_label ← code_generator_generate_label "str_chars";
  struct_label ← code_generator_generate_label "str_struct";
  rdata_section ← with_emitter (fun e =>
    binary_emitter_get_or_create_section e ".rdata" BINARY_SECTION_RDATA 0 8);
  chars_offset ← with_emitter (fun e => binary_emitter_append_bytes e rdata_section (c_bytes value));
  _ ← with_emitter (fun e => binary_emitter_append_bytes e rdata_section terminator);
  with_emitter_only (fun e =>
    define_local e chars_label rdata_section chars_offset (c_length value + 1)) ;;
  with_emitter_only (fun e => binary_emitter_align_section e rdata_section 8 (byte.of_Z 0)) ;;
  struct_offset ← with_emitter (fun e => binary_emitter_append_zeros e rdata_section 16);
  with_emitter_only (fun e =>
    write_section e rdata_section (struct_offset + 8) (le_split 8 (c_length value))) ;;
  with_emitter_only (fun e => define_local e struct_label rdata_section struct_offset 16) ;;
  with_emitter_only (fun e =>
    done_only (binary_emitter_add_relocation e rdata_section struct_offset BINARY_RELOCATION_ADDR64
                 chars_label 0)) ;;
  code_generator_binary_emit_symbol_address struct_label false target_register.

(** ** Memory at an address in a register *)

Definition code_generator_binary_emit_load_from_address (address_register : BinaryGpRegister)
    (size : Z) (target_register : BinaryGpRegister) : Gen () :=
  if (size =? 1)%Z then emit (binary_emit_movzx_reg_mem8 target_register address_register 0)
  else if (size =? 2)%Z then emit (binary_emit_movzx_reg_mem16 target_register address_register 0)
  else if (size =? 4)%Z then emit (binary_emit_mov_reg_mem32 target_register address_register 0)
  else if (size =? 8)%Z then emit (binary_emit_mov_reg_mem target_register address_register 0)
  else fail.

Definition code_generator_binary_emit_store_to_address (address_register : BinaryGpRegister)
    (size : Z) (source_register : BinaryGpRegister) : Gen () :=
  if (size =? 1)%Z then emit (binary_emit_mov_mem_reg8 address_register 0 source_register)
  else if (size =? 2)%Z then emit (binary_emit_mov_mem_reg16 address_register 0 source_register)
  else if (size =? 4)%Z then emit (binary_emit_mov_mem_reg32 address_register 0 source_register)
  else if (size =? 8)%Z then emit (binary_emit_mov_mem_reg address_register 0 source_register)
  else if (u64 size =? 0)%Z then fail
  else emit (
    binary_emit_push_reg BINARY_GP_RSI ;;
    binary_emit_push_reg BINARY_GP_RDI ;;
    binary_emit_mov_reg_reg BINARY_GP_RSI source_register ;;
    binary_emit_mov_reg_reg BINARY_GP_RDI address_register ;;
    binary_emit_mov_reg_imm64 BINARY_GP_RCX (u64 size) ;;
    binary_code_buffer_append_u8 0xF3 ;;
    binary_code_buffer_append_u8 0xA4 ;;
    binary_emit_pop_reg BINARY_GP_RDI ;;
    binary_emit_pop_reg BINARY_GP_RSI).

(** ** Globals *)

Definition code_generator_binary_emit_global_symbol_load (symbol_name : string) (type : option Type_)
    (declare_external : bool) (target_register : BinaryGpRegister) : Gen () :=
  let size := code_generator_binary_resolved_type_scalar_size type in
  let is_signed := code_generator_binary_resolved_type_is_signed_integer type in
  let extend (e : Emit ()) : Emit () := if is_signed then e else mret () in
  if String.eqb symbol_name EmptyString then fail
  else
    (if declare_external then code_generator_binary_declare_external_symbol symbol_name else mret ()) ;;
    displacement_offset ←
      (if (size =? 1)%Z then
         emit (d ← binary_emit_movzx_reg_rip_mem8 target_register;
               extend (binary_emit_movsx_reg_reg8 target_register target_register) ;; mret d)
       else if (size =? 2)%Z then
         emit (d ← binary_emit_movzx_reg_rip_mem16 target_register;
               extend (binary_emit_movsx_reg_reg16 target_register target_register) ;; mret d)
       else if (size =? 4)%Z then
         emit (d ← binary_emit_mov_reg32_rip_mem target_register;
               extend (binary_emit_movsxd_reg_reg32 target_register target_register) ;; mret d)
       else if (size =? 8)%Z then emit (binary_emit_mov_reg_rip_mem target_register)
       else fail);
    binary_call_relocation_table_add symbol_name displacement_offset.

Definition code_generator_binary_emit_global_symbol_store (symbol_name : string) (type : option Type_)
    (declare_external : bool) (source_register : BinaryGpRegister) : Gen () :=
  let size := code_generator_binary_resolved_type_scalar_size type in
  if String.eqb symbol_name EmptyString then fail
  else
    (if declare_external then code_generator_binary_declare_external_symbol symbol_name else mret ()) ;;
    displacement_offset ←
      (if (size =? 1)%Z then emit (binary_emit_mov_mem_rip_reg8 source_register)
       else if (size =? 2)%Z then emit (binary_emit_mov_mem_rip_reg16 source_register)
       else if (size =? 4)%Z then emit (binary_emit_mov_mem_rip_reg32 source_register)
       else if (size =? 8)%Z then emit (binary_emit_mov_mem_rip_reg source_register)
       else fail);
    binary_call_relocation_table_add symbol_name displacement_offset.

(** ** Registers and stack slots *)

Definition code_generator_binary_emit_reg_reg_compare (lhs rhs : BinaryGpRegister) (width : Z) : Emit () :=
  if (width =? 4)%Z then binary_emit_cmp_reg_reg32 lhs rhs else binary_emit_cmp_reg_reg lhs rhs.

Definition code_generator_binary_emit_reg_reg_move (destination source : BinaryGpRegister)
    (type : option Type_) : Emit () :=
  if (destination =? source)%Z then mret ()
  else
    let width := match type with None => 8 | _ => code_generator_binary_resolved_type_scalar_size type end%Z in
    let is_signed := match type with
                     | None => false
                     | _ => code_generator_binary_resolved_type_is_signed_integer type
                     end in
    if (width =? 4)%Z then
      (if is_signed then binary_emit_movsxd_reg_reg32 destination source
       else binary_emit_mov_reg_reg32 destination source)
    else binary_emit_mov_reg_reg destination source.

Definition code_generator_binary_emit_temp_stack_load (stack_offset : Z)
    (target_register : BinaryGpRegister) (type : option Type_) : Emit () :=
  let width := code_generator_binary_type_scalar_width type in
  let is_signed := match type with
                   | None => false
                   | _ => code_generator_binary_resolved_type_is_signed_integer type
                   end in
  if (stack_offset <=? 0)%Z then refuse
  else if (width =? 4)%Z then
    binary_emit_mov_reg_mem32 target_register BINARY_GP_RBP (- stack_offset) ;;
    (if is_signed then binary_emit_movsxd_reg_reg32 target_register target_register else mret ())
  else binary_emit_mov_reg_mem target_register BINARY_GP_RBP (- stack_offset).

Definition code_generator_binary_emit_temp_stack_store (stack_offset : Z)
    (source_register : BinaryGpRegister) (type : option Type_) : Emit () :=
  if (stack_offset <=? 0)%Z then refuse
  else if (code_generator_binary_type_scalar_width type =? 4)%Z then
    binary_emit_mov_mem_reg32 BINARY_GP_RBP (- stack_offset) source_register
  else binary_emit_mov_mem_reg BINARY_GP_RBP (- stack_offset) source_register.

(** The width and the signedness of a slot of a symbol of type [type]. *)
Definition slot_size (type : option Type_) : Z :=
  match type with None => 8 | _ => code_generator_binary_resolved_type_scalar_size type end.
Definition slot_signed (type : option Type_) : bool :=
  match type with None => false | _ => code_generator_binary_resolved_type_is_signed_integer type end.

Definition code_generator_binary_emit_symbol_stack_load (type : option Type_) (stack_offset : Z)
    (target_register : BinaryGpRegister) : Emit () :=
  let size := slot_size type in
  let extend (e : Emit ()) : Emit () := if slot_signed type then e else mret () in
  if (stack_offset <=? 0)%Z then refuse
  else if (size =? 1)%Z then
    binary_emit_movzx_reg_mem8 target_register BINARY_GP_RBP (- stack_offset) ;;
    extend (binary_emit_movsx_reg_reg8 target_register target_register)
  else if (size =? 2)%Z then
    binary_emit_movzx_reg_mem16 target_register BINARY_GP_RBP (- stack_offset) ;;
    extend (binary_emit_movsx_reg_reg16 target_register target_register)
  else if (size =? 4)%Z then
    binary_emit_mov_reg_mem32 target_register BINARY_GP_RBP (- stack_offset) ;;
    extend (binary_emit_movsxd_reg_reg32 target_register target_register)
  else binary_emit_mov_reg_mem target_register BINARY_GP_RBP (- stack_offset).

Definition code_generator_binary_emit_symbol_stack_store (type : option Type_) (stack_offset : Z)
    (source_register : BinaryGpRegister) : Emit () :=
  let size := slot_size type in
  if (stack_offset <=? 0)%Z then refuse
  else if (size =? 1)%Z then binary_emit_mov_mem_reg8 BINARY_GP_RBP (- stack_offset) source_register
  else if (size =? 2)%Z then binary_emit_mov_mem_reg16 BINARY_GP_RBP (- stack_offset) source_register
  else if (size =? 4)%Z then binary_emit_mov_mem_reg32 BINARY_GP_RBP (- stack_offset) source_register
  else binary_emit_mov_mem_reg BINARY_GP_RBP (- stack_offset) source_register.

Definition code_generator_binary_emit_local_string_store (offset : Z) (source_register : BinaryGpRegister)
    : Emit () :=
  let scratch := if (source_register =? BINARY_GP_R10)%Z then BINARY_GP_RAX else BINARY_GP_R10 in
  if (offset <=? 8)%Z then refuse
  else
    binary_emit_mov_reg_mem scratch source_register 0 ;;
    binary_emit_mov_mem_reg BINARY_GP_RBP (- offset) scratch ;;
    binary_emit_mov_reg_mem scratch source_register 8 ;;
    binary_emit_mov_mem_reg BINARY_GP_RBP (8 - offset) scratch.

(** ** Operands *)

Section operands.
Context (g : CodeGenerator) (context : BinaryFunctionContext).

(** The name a global has in the object file. *)
Definition code_generator_get_link_symbol_name (symbol_name : string) : option string :=
  if String.eqb symbol_name EmptyString then None
  else match lookup_symbol g symbol_name with
  | Some s =>
      match link_name s with
      | Some l => if is_extern s && negb (String.eqb l EmptyString) then Some l else Some symbol_name
      | None => Some symbol_name
      end
  | None => Some symbol_name
  end.

Definition code_generator_binary_emit_string_symbol_load (symbol_name : string) (symbol : option Symbol)
    (target_register : BinaryGpRegister) : Gen () :=
  if String.eqb symbol_name EmptyString then fail
  else
    let offset := code_generator_binary_get_symbol_offset context symbol_name in
    if (0 <? offset)%Z then
      match symbol with
      | Some s =>
          if bool_decide (skind s = SYMBOL_PARAMETER)
          then emit (binary_emit_mov_reg_mem target_register BINARY_GP_RBP (- offset))
          else emit (binary_emit_lea_reg_mem target_register BINARY_GP_RBP (- offset))
      | None => emit (binary_emit_lea_reg_mem target_register BINARY_GP_RBP (- offset))
      end
    else match symbol with
    | Some s =>
        if in_global_scope g s then
          match code_generator_get_link_symbol_name symbol_name with
          | Some link => code_generator_binary_emit_symbol_address link (is_extern s) target_register
          | None => fail
          end
        else fail
    | None => fail
    end.

(** A global read by its name. *)
Definition load_global (name : string) (s : Symbol) (target_register : BinaryGpRegister) : Gen () :=
  match code_generator_get_link_symbol_name name with
  | None => fail
  | Some link =>
      if String.eqb link EmptyString then fail
      else if negb (code_generator_binary_symbol_is_scalar_accessible g name) then fail
      else match global_const g name with
      | Some const_value => emit (binary_emit_mov_reg_imm64 target_register const_value)
      | None => code_generator_binary_emit_global_symbol_load link (type_at g (stype s)) (is_extern s)
                  target_register
      end
  end.

(** A symbol that is not an alias. *)
Definition load_symbol (name : string) (target_register : BinaryGpRegister) : Gen () :=
  let symbol := lookup_symbol g name in
  let type := symbol_type g symbol in
  let offset := code_generator_binary_get_symbol_offset context name in
  if (0 <? offset)%Z && in_table (string_symbols context) name then
    emit (binary_emit_lea_reg_mem target_register BINARY_GP_RBP (- offset))
  else if is_kind TYPE_STRING type then
    code_generator_binary_emit_string_symbol_load name symbol target_register
  else match code_generator_binary_symbol_assigned_register g context name with
  | Some assigned_register =>
      if (target_register =? assigned_register)%Z then mret ()
      else emit (code_generator_binary_emit_reg_reg_move target_register assigned_register type)
  | None =>
      if (0 <? offset)%Z && code_generator_binary_type_is_direct_aggregate type then
        emit (binary_emit_lea_reg_mem target_register BINARY_GP_RBP (- offset)) ;;
        code_generator_binary_emit_load_from_address target_register
          (match type with Some t => size t | None => 0%Z end) target_register
      else if (offset <=? 0)%Z then
        match symbol with
        | Some s => if in_global_scope g s then load_global name s target_register else fail
        | None => fail
        end
      else if negb (code_generator_binary_symbol_is_scalar_accessible g name) then fail
      else emit (code_generator_binary_emit_symbol_stack_load type offset target_register)
  end.

(** [fuel] bounds the chain of aliases. *)
Fixpoint operand_load (fuel : nat) (operand : IROperand) (target_register : BinaryGpRegister) : Gen () :=
  match operand with
  | IR_OPERAND_NONE => emit (binary_emit_mov_reg_imm64 target_register 0)
  | IR_OPERAND_INT v => emit (binary_emit_mov_reg_imm64 target_register (u64 v))
  | IR_OPERAND_FLOAT v bits =>
      emit (binary_emit_mov_reg_imm64 target_register
              (if (bits =? 32)%Z then float_bits32 v else double_bits v))
  | IR_OPERAND_STRING s => code_generator_binary_emit_string_literal_value_address s target_register
  | IR_OPERAND_TEMP name _ =>
      let offset := code_generator_binary_get_temp_offset context name in
      if (offset <=? 0)%Z then fail
      else emit (code_generator_binary_emit_temp_stack_load offset target_register None)
  | IR_OPERAND_SYMBOL name bits =>
      match binary_symbol_alias_table_get (symbol_aliases context) name with
      | Some alias_target =>
          match fuel with
          | S f => operand_load f (IR_OPERAND_SYMBOL alias_target bits) target_register
          | O => fail
          end
      | None => load_symbol name target_register
      end
  | IR_OPERAND_LABEL _ => fail
  end.

Definition code_generator_binary_emit_operand_load : IROperand → BinaryGpRegister → Gen () :=
  operand_load (length (symbol_aliases context)).

Definition code_generator_binary_emit_destination_store (destination : IROperand)
    (source_register : BinaryGpRegister) : Gen () :=
  match destination with
  | IR_OPERAND_NONE => mret ()
  | IR_OPERAND_TEMP name _ =>
      let offset := code_generator_binary_get_temp_offset context name in
      if (offset <=? 0)%Z then fail
      else emit (binary_emit_mov_mem_reg BINARY_GP_RBP (- offset) source_register)
  | IR_OPERAND_SYMBOL name _ =>
      let symbol := lookup_symbol g name in
      let type := symbol_type g symbol in
      let offset := code_generator_binary_get_symbol_offset context name in
      if (0 <? offset)%Z && in_table (string_symbols context) name then
        emit (code_generator_binary_emit_local_string_store offset source_register)
      else if is_kind TYPE_STRING type then
        if (offset <=? 0)%Z then fail
        else if match symbol with Some s => bool_decide (skind s = SYMBOL_PARAMETER) | None => false end
        then emit (binary_emit_mov_mem_reg BINARY_GP_RBP (- offset) source_register)
        else emit (code_generator_binary_emit_local_string_store offset source_register)
      else match code_generator_binary_symbol_assigned_register g context name with
      | Some assigned_register =>
          if (assigned_register =? source_register)%Z then mret ()
          else emit (code_generator_binary_emit_reg_reg_move assigned_register source_register type)
      | None =>
          if (0 <? offset)%Z && code_generator_binary_type_is_direct_aggregate type then
            let address_register :=
              if (source_register =? BINARY_GP_R10)%Z then BINARY_GP_RAX else BINARY_GP_R10 in
            emit (binary_emit_lea_reg_mem address_register BINARY_GP_RBP (- offset)) ;;
            code_generator_binary_emit_store_to_address address_register
              (match type with Some t => size t | None => 0%Z end) source_register
          else if (offset <=? 0)%Z then
            match symbol with
            | Some s =>
                if in_global_scope g s then
                  match code_generator_get_link_symbol_name name with
                  | None => fail
                  | Some link =>
                      if String.eqb link EmptyString then fail
                      else if negb (code_generator_binary_symbol_is_scalar_accessible g name) then fail
                      else code_generator_binary_emit_global_symbol_store link (type_at g (stype s))
                             (is_extern s) source_register
                  end
                else fail
            | None => fail
            end
          else if negb (code_generator_binary_symbol_is_scalar_accessible g name) then fail
          else emit (code_generator_binary_emit_symbol_stack_store type offset source_register)
      end
  | _ => fail
  end.

(** ** Types of operands *)

Definition code_generator_binary_get_operand_type (operand : IROperand) : option Type_ :=
  match operand with
  | IR_OPERAND_STRING _ => type_at g (builtin_string g)
  | IR_OPERAND_SYMBOL name _ => symbol_type g (lookup_symbol g name)
  | _ => None
  end.

(** The first declaration of the local in the function. *)
Fixpoint declared_type (name : string) (body : code) : option Type_ :=
  match body with
  | [] => None
  | i :: rest =>
      match op i, dest i, text i with
      | IR_OP_DECLARE_LOCAL, (IR_OPERAND_TEMP n _ | IR_OPERAND_SYMBOL n _), Some ty =>
          if String.eqb n name then code_generator_binary_get_resolved_type g (Some ty) false
          else declared_type name rest
      | _, _, _ => declared_type name rest
      end
  end.

Definition code_generator_binary_get_operand_type_in_context (operand : IROperand) : option Type_ :=
  match code_generator_binary_get_operand_type operand, operand with
  | None, IR_OPERAND_SYMBOL name _ => declared_type name (default [] (function_body context))
  | type, _ => type
  end.

Definition code_generator_binary_instruction_compare_width (instruction : IRInstruction) : Z :=
  let type := match ast_ref instruction with
              | Some e => type_at g (expression_type g e)
              | None => None
              end in
  let size := code_generator_binary_resolved_type_scalar_size in
  match type with
  | Some _ => if negb (is_float instruction) && (size type =? 4)%Z then 4 else 8
  | None =>
      match code_generator_binary_get_operand_type_in_context (lhs instruction),
            code_generator_binary_get_operand_type_in_context (rhs instruction) with
      | (Some _) as l, ((Some _) as r) => if (size l =? size r)%Z && (size l =? 4)%Z then 4 else 8
      | _, _ => 8
      end
  end.

End operands.

(** ** Immediates *)

Definition code_generator_binary_immediate_fits_signed_32 (value : Z) : bool :=
  (INT32_MIN <=? value)%Z && (value <=? INT32_MAX)%Z.

(** The shift and the mask of a power of two. *)
Definition code_generator_binary_extract_positive_power_of_two (value : Z) : option (Z * Z) :=
  if (value <=? 0)%Z then None
  else
    let uvalue := u64 value in
    if negb (Z.land uvalue (u64 (uvalue - 1)) =? 0)%Z then None
    else Some (shift_amount 64 uvalue 0, u64 (uvalue - 1)).

Definition code_generator_binary_emit_and_mask (target_register : BinaryGpRegister) (mask : Z) : Emit () :=
  if (mask <=? 0x7fffffff)%Z then binary_emit_and_reg_imm32 target_register mask
  else
    binary_emit_mov_reg_imm64 BINARY_GP_R10 mask ;;
    binary_emit_alu_reg_reg 0x21 target_register BINARY_GP_R10.
