(* ===== verification/Selection.v ===== *)
(** * Code generation: integer instructions (src/src/codegen/binary/emit.c, peephole.c)

    Selecting the machine instructions of the integer operators: immediate forms,
    updates of a promoted register in place, division by powers of two, comparisons
    that set a value and comparisons that branch. *)

From stdpp Require Import gmap.
From S2P Require Import Prelude.
From S2P Require Import Types.
From S2P Require Import IR.
From S2P Require Import Encoders.
From S2P Require Import FunctionContext.
From S2P Require Import Operands.

(** ** Operators *)

Definition is_op (o : string) (ops : list string) : bool := existsb (String.eqb o) ops.

Definition code_generator_binary_is_compare_operator (o : string) : bool :=
  is_op o ["=="; "!="; "<"; "<="; ">"; ">="]%string.

(** The jump taken when the comparison is false. *)
Definition code_generator_binary_compare_false_jcc (o : string) : option Z :=
  if String.eqb o "==" then Some 0x85%Z
  else if String.eqb o "!=" then Some 0x84%Z
  else if String.eqb o "<" then Some 0x8D%Z
  else if String.eqb o "<=" then Some 0x8F%Z
  else if String.eqb o ">" then Some 0x8E%Z
  else if String.eqb o ">=" then Some 0x8C%Z
  else None.

(** The conditional move made when the comparison is true. *)
Definition code_generator_binary_compare_true_cmov (o : string) : option Z :=
  if String.eqb o "==" then Some 0x44%Z
  else if String.eqb o "!=" then Some 0x45%Z
  else if String.eqb o "<" then Some 0x4C%Z
  else if String.eqb o "<=" then Some 0x4E%Z
  else if String.eqb o ">" then Some 0x4F%Z
  else if String.eqb o ">=" then Some 0x4D%Z
  else None.

(** The [setcc] of a comparison that leaves its value. *)
Definition condition_opcode (o : string) : option Z :=
  if String.eqb o "==" then Some 0x94%Z
  else if String.eqb o "!=" then Some 0x95%Z
  else if String.eqb o "<" then Some 0x9C%Z
  else if String.eqb o "<=" then Some 0x9E%Z
  else if String.eqb o ">" then Some 0x9F%Z
  else if String.eqb o ">=" then Some 0x9D%Z
  else None.

Definition commutative (o : string) : bool := is_op o ["+"; "*"; "&"; "|"; "^"; "=="; "!="]%string.
Definition rhs_immediate_supported (o : string) : bool :=
  commutative o || is_op o ["-"; "<<"; ">>"; "<"; "<="; ">"; ">="]%string.

(** [(uint32_t)(int32_t)immediate]. *)
Definition imm32 (v : Z) : Z := u32 (s32 v).

Definition shift_subopcode (o : string) : Z := if String.eqb o "<<" then 4 else 7.

(** ** Division by a power of two *)

(** Rounds towards zero: a negative dividend is first increased by the divisor less one. *)
Definition emit_divide_power_of_two (shift mask : Z) : Emit () :=
  if (shift =? 0)%Z then mret ()
  else
    binary_emit_mov_reg_reg BINARY_GP_RCX BINARY_GP_RAX ;;
    binary_emit_shift_reg_imm8 7 BINARY_GP_RCX 63 ;;
    code_generator_binary_emit_and_mask BINARY_GP_RCX mask ;;
    binary_emit_alu_reg_reg 0x01 BINARY_GP_RAX BINARY_GP_RCX ;;
    binary_emit_shift_reg_imm8 7 BINARY_GP_RAX shift.

Definition emit_modulo_power_of_two (shift mask : Z) : Emit () :=
  if (shift =? 0)%Z then binary_emit_mov_reg_imm64 BINARY_GP_RAX 0
  else
    binary_emit_mov_reg_reg BINARY_GP_R11 BINARY_GP_RAX ;;
    binary_emit_mov_reg_reg BINARY_GP_RCX BINARY_GP_RAX ;;
    binary_emit_shift_reg_imm8 7 BINARY_GP_RCX 63 ;;
    code_generator_binary_emit_and_mask BINARY_GP_RCX mask ;;
    binary_emit_alu_reg_reg 0x01 BINARY_GP_RAX BINARY_GP_RCX ;;
    binary_emit_shift_reg_imm8 7 BINARY_GP_RAX shift ;;
    binary_emit_shift_reg_imm8 4 BINARY_GP_RAX shift ;;
    binary_emit_alu_reg_reg 0x29 BINARY_GP_R11 BINARY_GP_RAX ;;
    binary_emit_mov_reg_reg BINARY_GP_RAX BINARY_GP_R11.

(** ** Immediate operands *)

(** The arithmetic of the immediate forms, on the register [r]. *)
Definition emit_immediate_arithmetic (o : string) (r : BinaryGpRegister) (immediate : Z) : option (Emit ()) :=
  if String.eqb o "+" then Some (binary_emit_add_reg_imm32 r (imm32 immediate))
  else if String.eqb o "-" then Some (binary_emit_sub_reg_imm32 r (imm32 immediate))
  else if String.eqb o "*" then Some (binary_emit_imul_reg_reg_imm32 r r (imm32 immediate))
  else if String.eqb o "&" then Some (binary_emit_and_reg_imm32 r (imm32 immediate))
  else if String.eqb o "|" then Some (binary_emit_or_reg_imm32 r (imm32 immediate))
  else if String.eqb o "^" then Some (binary_emit_xor_reg_imm32 r (imm32 immediate))
  else None.

Definition is_shift (o : string) : bool := is_op o ["<<"; ">>"]%string.

Definition inplace_op (o : string) (immediate_on_rhs : bool) (immediate : Z) : bool :=
  is_op o ["+"; "*"; "&"; "|"; "^"]%string || (String.eqb o "-" && immediate_on_rhs) ||
  (is_shift o && immediate_on_rhs && (0 <=? immediate)%Z && (immediate <? 64)%Z).

Definition emit_inplace (o : string) (r : BinaryGpRegister) (immediate : Z) : Emit () :=
  match emit_immediate_arithmetic o r immediate with
  | Some e => e
  | None => binary_emit_shift_reg_imm8 (shift_subopcode o) r (u8 immediate)
  end.

(** [None]: not handled with an immediate. *)
Definition emit_immediate (o : string) (immediate_on_rhs : bool) (immediate : Z) : option (Emit ()) :=
  if String.eqb o "-" && negb immediate_on_rhs then None
  else match emit_immediate_arithmetic o BINARY_GP_RAX immediate with
  | Some e => Some e
  | None =>
      if is_shift o && immediate_on_rhs && (0 <=? immediate)%Z && (immediate <? 64)%Z then
        Some (binary_emit_shift_reg_imm8 (shift_subopcode o) BINARY_GP_RAX (u8 immediate))
      else if String.eqb o "/" && immediate_on_rhs && (immediate =? 2)%Z then
        Some (binary_emit_mov_reg_reg BINARY_GP_R11 BINARY_GP_RAX ;;
              binary_emit_shift_reg_imm8 7 BINARY_GP_R11 63 ;;
              binary_emit_and_reg_imm32 BINARY_GP_R11 1 ;;
              binary_emit_alu_reg_reg 0x01 BINARY_GP_RAX BINARY_GP_R11 ;;
              binary_emit_shift_reg_imm8 7 BINARY_GP_RAX 1)
      else if is_op o ["=="; "!="]%string ||
              (immediate_on_rhs && is_op o ["<"; "<="; ">"; ">="]%string) then
        c ← condition_opcode o;
        Some (binary_emit_cmp_reg_imm32 BINARY_GP_RAX (imm32 immediate) ;;
              binary_emit_setcc_al c ;;
              binary_emit_movzx_eax_al)
      else None
  end.

(** ** Two registers *)

(** The operand on the left is in RAX, the one on the right in R10. *)
Definition emit_register_operation (o : string) (compare_width : Z) : option (Emit ()) :=
  let truth_of := binary_emit_test_reg_reg BINARY_GP_RAX ;; binary_emit_setcc_al 0x95 ;;
                  binary_emit_movzx_eax_al in
  let division := binary_emit_cqo ;; binary_emit_idiv_reg BINARY_GP_R10 in
  let shift sub := binary_emit_mov_reg_reg BINARY_GP_RCX BINARY_GP_R10 ;;
                   binary_emit_shift_reg_cl sub BINARY_GP_RAX in
  let alu opcode := binary_emit_alu_reg_reg opcode BINARY_GP_RAX BINARY_GP_R10 in
  if String.eqb o "+" then
    Some (emit_or (binary_emit_lea_reg_reg BINARY_GP_RAX BINARY_GP_RAX BINARY_GP_R10) (alu 0x01%Z))
  else if String.eqb o "-" then Some (alu 0x29%Z)
  else if String.eqb o "*" then Some (binary_emit_imul_reg_reg BINARY_GP_RAX BINARY_GP_R10)
  else if String.eqb o "/" then Some division
  else if String.eqb o "%" then Some (division ;; binary_emit_mov_reg_reg BINARY_GP_RAX BINARY_GP_RDX)
  else if String.eqb o "&" then Some (alu 0x21%Z)
  else if String.eqb o "|" then Some (alu 0x09%Z)
  else if String.eqb o "^" then Some (alu 0x31%Z)
  else if String.eqb o "<<" then Some (shift 4%Z)
  else if String.eqb o ">>" then Some (shift 7%Z)
  else if String.eqb o "&&" then Some (alu 0x21%Z ;; truth_of)
  else if String.eqb o "||" then Some (alu 0x09%Z ;; truth_of)
  else
    c ← condition_opcode o;
    Some (code_generator_binary_emit_reg_reg_compare BINARY_GP_RAX BINARY_GP_R10 compare_width ;;
          binary_emit_setcc_al c ;;
          binary_emit_movzx_eax_al).

(** ** Instructions *)

Section instructions.
Context (g : CodeGenerator) (context : BinaryFunctionContext).

Abbreviation operand_load := (code_generator_binary_emit_operand_load g context).
Abbreviation destination_store := (code_generator_binary_emit_destination_store g context).

(** The operand that is loaded, the immediate, and whether it is the one on the right. *)
Definition immediate_operand (i : IRInstruction) (o : string) : option (IROperand * Z * bool) :=
  match lhs i, rhs i with
  | l, IR_OPERAND_INT v =>
      if rhs_immediate_supported o && code_generator_binary_immediate_fits_signed_32 v
      then Some (l, v, true)
      else match l with
      | IR_OPERAND_INT w =>
          if commutative o && code_generator_binary_immediate_fits_signed_32 w
          then Some (rhs i, w, false) else None
      | _ => None
      end
  | IR_OPERAND_INT w, r =>
      if commutative o && code_generator_binary_immediate_fits_signed_32 w
      then Some (r, w, false) else None
  | _, _ => None
  end.

Definition emit_general (i : IRInstruction) (o : string) : Gen () :=
  operand_load (rhs i) BINARY_GP_R10 ;;
  operand_load (lhs i) BINARY_GP_RAX ;;
  match emit_register_operation o (code_generator_binary_instruction_compare_width g context i) with
  | Some e => emit e ;; destination_store (dest i) BINARY_GP_RAX
  | None => fail
  end.

(** The register of a promoted destination. *)
Definition destination_register (i : IRInstruction) : option BinaryGpRegister :=
  match dest i with
  | IR_OPERAND_SYMBOL name _ => code_generator_binary_symbol_assigned_register g context name
  | _ => None
  end.

Definition binary_emit_binary_integer (i : IRInstruction) (o : string) : Gen () :=
  match (match rhs i with
         | IR_OPERAND_INT v =>
             if is_op o ["/"; "%"]%string
             then code_generator_binary_extract_positive_power_of_two v else None
         | _ => None
         end) with
  | Some (shift, mask) =>
      operand_load (lhs i) BINARY_GP_RAX ;;
      emit (if String.eqb o "/" then emit_divide_power_of_two shift mask
            else emit_modulo_power_of_two shift mask) ;;
      destination_store (dest i) BINARY_GP_RAX
  | None =>
      match immediate_operand i o with
      | None => emit_general i o
      | Some (value_operand, immediate, immediate_on_rhs) =>
          match (if inplace_op o immediate_on_rhs immediate then destination_register i else None) with
          | Some dest_reg =>
              operand_load value_operand dest_reg ;;
              emit (emit_inplace o dest_reg immediate)
          | None =>
              operand_load value_operand BINARY_GP_RAX ;;
              match emit_immediate o immediate_on_rhs immediate with
              | Some e => emit e ;; destination_store (dest i) BINARY_GP_RAX
              | None => emit_general i o
              end
          end
      end
  end.

(** Integer operators of one operand. *)
Definition emit_unary_integer (i : IRInstruction) (o : string) : Gen () :=
  operand_load (lhs i) BINARY_GP_RAX ;;
  match (if String.eqb o "-" then Some (binary_emit_neg_reg BINARY_GP_RAX)
         else if String.eqb o "!" then
           Some (binary_emit_test_reg_reg BINARY_GP_RAX ;; binary_emit_setcc_al 0x94 ;;
                 binary_emit_movzx_eax_al)
         else if String.eqb o "~" then Some (binary_emit_not_reg BINARY_GP_RAX)
         else if String.eqb o "+" then Some (mret ())
         else None) with
  | Some e => emit e ;; destination_store (dest i) BINARY_GP_RAX
  | None => fail
  end.

End instructions.
