(* ===== verification/Instructions.v ===== *)
(** * Code generation: the instructions (src/src/codegen/binary/emit.c)

    One definition for each [emit] function of an opcode, and the switch that chooses
    among them.  Calls and the fused kernels are left to [emit_other]. *)

From stdpp Require Import gmap.
From S2P Require Import Prelude.
From S2P Require Import Types.
From S2P Require Import SymbolTable.
From S2P Require Import Ast.
From S2P Require Import IR.
From S2P Require Import Encoders.
From S2P Require Import FunctionContext.
From S2P Require Import Frame.
From S2P Require Import Operands.
From S2P Require Import Selection.

Definition BINARY_WIN64_SHADOW_SPACE_SIZE : Z := 32.
Definition BINARY_GP_STORE_VALUE : BinaryGpRegister := BINARY_GP_RCX.

(** Bytes of an instruction that has no encoder of its own. *)
Definition raw_bytes (l : list Z) : Emit () :=
  foldr (fun b rest => binary_code_buffer_append_u8 b ;; rest) (mret ()) l.

Definition wcs_popcnt (dst src : BinaryGpRegister) : Emit () :=
  binary_code_buffer_append_u8 0xF3 ;;
  binary_emit_rex 0 (hi dst) 0 (hi src) ;;
  binary_code_buffer_append_u8 0x0F ;;
  binary_code_buffer_append_u8 0xB8 ;;
  binary_code_buffer_append_u8 (Z.lor (Z.lor 0xC0 (Z.shiftl (lo dst) 3)) (lo src)).

(** ** Copies of memory *)

Definition code_generator_binary_emit_rep_movsb (src dst : BinaryGpRegister) (size : Z) : Gen () :=
  if (size =? 0)%Z then fail
  else emit (
    binary_emit_mov_reg_reg BINARY_GP_RSI src ;;
    binary_emit_mov_reg_reg BINARY_GP_RDI dst ;;
    binary_emit_mov_reg_imm64 BINARY_GP_RCX size ;;
    raw_bytes [0xFC; 0xF3; 0xA4]%Z).

Definition code_generator_binary_emit_rep_movsq (src dst : BinaryGpRegister) (qword_count : Z) : Gen () :=
  if (qword_count =? 0)%Z then fail
  else emit (
    binary_emit_push_reg BINARY_GP_RSI ;;
    binary_emit_push_reg BINARY_GP_RDI ;;
    binary_emit_mov_reg_reg BINARY_GP_RSI src ;;
    binary_emit_mov_reg_reg BINARY_GP_RDI dst ;;
    binary_emit_mov_reg_imm64 BINARY_GP_RCX qword_count ;;
    raw_bytes [0xFC; 0xF3]%Z ;;
    binary_emit_rex 1 0 0 0 ;;
    binary_code_buffer_append_u8 0xA5 ;;
    binary_emit_pop_reg BINARY_GP_RDI ;;
    binary_emit_pop_reg BINARY_GP_RSI).

(** ** Structs passed and returned by address *)

Definition binary_indirect_temp_get (name : string) : Gen Z :=
  o ← get_output;
  mret (match find (fun e => String.eqb (fst e) name) (indirect_temps o) with
        | Some (_, size) => size | None => 0 end)%Z.

Section instructions.
Context (g : CodeGenerator) (context : BinaryFunctionContext).

Abbreviation operand_load := (code_generator_binary_emit_operand_load g context).
Abbreviation destination_store := (code_generator_binary_emit_destination_store g context).
Abbreviation assigned_register := (code_generator_binary_symbol_assigned_register g context).

Definition code_generator_binary_parameter_is_indirect (name : string) : bool :=
  match lookup_symbol g name with
  | Some s => bool_decide (skind s = SYMBOL_PARAMETER) && is_indirect_param (variable s)
  | None => false
  end ||
  match find (fun p => String.eqb (fst p) name) (fd_parameters (function_data context)) with
  | Some (_, type) =>
      bool_decide (code_generator_abi_classify
                     (code_generator_binary_get_resolved_type g (Some type) false) = ABI_PASS_INDIRECT)
  | None => false
  end.

(** The address of the slot of a parameter or a local, or of a global. *)
Definition emit_slot_address (name : string) (target_register : BinaryGpRegister) : Gen () :=
  let parameter := code_generator_binary_get_parameter_offset context name in
  let local := code_generator_binary_get_local_offset context name in
  if (0 <? parameter)%Z then
    if code_generator_binary_parameter_is_indirect name
    then emit (binary_emit_mov_reg_mem target_register BINARY_GP_RBP (- parameter))
    else emit (binary_emit_lea_reg_mem target_register BINARY_GP_RBP (- parameter))
  else if (0 <? local)%Z then emit (binary_emit_lea_reg_mem target_register BINARY_GP_RBP (- local))
  else match lookup_symbol g name with
  | Some s =>
      if in_global_scope g s then
        match code_generator_get_link_symbol_name g name with
        | Some link => code_generator_binary_emit_symbol_address link (is_extern s) target_register
        | None => fail
        end
      else fail
  | None => fail
  end.

Definition code_generator_binary_emit_struct_destination_address (name : string)
    (target_register : BinaryGpRegister) : Gen () :=
  if String.eqb name EmptyString then fail else emit_slot_address name target_register.

Definition code_generator_binary_emit_indirect_source_address (operand : IROperand)
    (target_register : BinaryGpRegister) : Gen () :=
  match operand with
  | IR_OPERAND_SYMBOL name _ => emit_slot_address name target_register
  | IR_OPERAND_TEMP name _ =>
      let offset := code_generator_binary_get_temp_offset context name in
      if (offset <=? 0)%Z then fail
      else
        size ← binary_indirect_temp_get name;
        if (0 <? size)%Z then emit (binary_emit_mov_reg_mem target_register BINARY_GP_RBP (- offset))
        else emit (binary_emit_lea_reg_mem target_register BINARY_GP_RBP (- offset))
  | _ => fail
  end.

(** ** Arguments *)

Definition code_generator_binary_emit_call_argument_load (operand : IROperand)
    (parameter_type : option Type_) (target_register : BinaryGpRegister) : Gen () :=
  let cstring := code_generator_binary_type_is_cstring g parameter_type in
  match operand with
  | IR_OPERAND_STRING s =>
      if cstring then code_generator_binary_emit_cstring_literal_address s target_register
      else operand_load operand target_register
  | _ =>
      operand_load operand target_register ;;
      if cstring && code_generator_binary_type_is_string (code_generator_binary_get_operand_type g operand)
      then emit (binary_emit_mov_reg_mem target_register target_register 0)
      else mret ()
  end.

(** ** Floating point *)

Definition code_generator_binary_emit_float_operand_to_xmm_bits (operand : IROperand)
    (target_register : BinaryXmmRegister) (want_bits : Z) : Gen () :=
  let want := if (want_bits =? 32)%Z then 32%Z else 64%Z in
  operand_load operand BINARY_GP_RAX ;;
  let bits := code_generator_binary_operand_float_bits g context operand in
  emit (
    if (bits =? 32)%Z then
      binary_emit_movd_xmm_reg target_register BINARY_GP_RAX ;;
      (if (want =? 64)%Z then binary_emit_cvtss2sd_xmm_xmm target_register target_register else mret ())
    else if (bits =? 64)%Z then
      binary_emit_movq_xmm_reg target_register BINARY_GP_RAX ;;
      (if (want =? 32)%Z then binary_emit_cvtsd2ss_xmm_xmm target_register target_register else mret ())
    else if (want =? 32)%Z then binary_emit_cvtsi2ss_xmm_reg target_register BINARY_GP_RAX
    else binary_emit_cvtsi2sd_xmm_reg target_register BINARY_GP_RAX).

Definition code_generator_binary_emit_float_reg_convert (gp_register : BinaryGpRegister)
    (src_bits dst_bits : Z) : Emit () :=
  if (src_bits =? 0)%Z || (dst_bits =? 0)%Z || (src_bits =? dst_bits)%Z then mret ()
  else if (src_bits =? 64)%Z && (dst_bits =? 32)%Z then
    binary_emit_movq_xmm_reg BINARY_XMM0 gp_register ;;
    binary_emit_cvtsd2ss_xmm_xmm BINARY_XMM0 BINARY_XMM0 ;;
    binary_emit_movd_reg_xmm gp_register BINARY_XMM0
  else if (src_bits =? 32)%Z && (dst_bits =? 64)%Z then
    binary_emit_movd_xmm_reg BINARY_XMM0 gp_register ;;
    binary_emit_cvtss2sd_xmm_xmm BINARY_XMM0 BINARY_XMM0 ;;
    binary_emit_movq_reg_xmm gp_register BINARY_XMM0
  else mret ().

Definition result_to_rax (bits : Z) (x : BinaryXmmRegister) : Emit () :=
  if (bits =? 32)%Z then binary_emit_movd_reg_xmm BINARY_GP_RAX x
  else binary_emit_movq_reg_xmm BINARY_GP_RAX x.

(** Operands in XMM0 and XMM1, the result in RAX. *)
Definition float_operation (o : string) (bits : Z) : option (Emit ()) :=
  let by_width {A} (single double : A) := if (bits =? 32)%Z then single else double in
  let arithmetic f := Some (f BINARY_XMM0 BINARY_XMM1 ;; result_to_rax bits BINARY_XMM0) in
  let compare := by_width binary_emit_ucomiss_xmm_xmm binary_emit_ucomisd_xmm_xmm BINARY_XMM0 BINARY_XMM1 in
  (* the parity flag tells the unordered case apart *)
  let equality c p combine :=
    Some (compare ;; binary_emit_setcc_reg8 c BINARY_GP_RAX ;; binary_emit_setcc_reg8 p BINARY_GP_RCX ;;
          binary_emit_alu_reg8_reg8 combine BINARY_GP_RAX BINARY_GP_RCX ;; binary_emit_movzx_eax_al) in
  let order c := Some (compare ;; binary_emit_setcc_reg8 c BINARY_GP_RAX ;; binary_emit_movzx_eax_al) in
  if String.eqb o "+" then arithmetic (by_width binary_emit_addss_xmm_xmm binary_emit_addsd_xmm_xmm)
  else if String.eqb o "-" then arithmetic (by_width binary_emit_subss_xmm_xmm binary_emit_subsd_xmm_xmm)
  else if String.eqb o "*" then arithmetic (by_width binary_emit_mulss_xmm_xmm binary_emit_mulsd_xmm_xmm)
  else if String.eqb o "/" then arithmetic (by_width binary_emit_divss_xmm_xmm binary_emit_divsd_xmm_xmm)
  else if String.eqb o "==" then equality 0x94%Z 0x9B%Z 0x20%Z
  else if String.eqb o "!=" then equality 0x95%Z 0x9A%Z 0x08%Z
  else if String.eqb o "<" then order 0x92%Z
  else if String.eqb o "<=" then order 0x96%Z
  else if String.eqb o ">" then order 0x97%Z
  else if String.eqb o ">=" then order 0x93%Z
  else None.

Definition instruction_width (i : IRInstruction) : Z := if (float_bits i =? 32)%Z then 32 else 64.

Definition binary_emit_binary_float (i : IRInstruction) (o : string) : Gen () :=
  let bits := instruction_width i in
  code_generator_binary_emit_float_operand_to_xmm_bits (rhs i) BINARY_XMM1 bits ;;
  code_generator_binary_emit_float_operand_to_xmm_bits (lhs i) BINARY_XMM0 bits ;;
  match float_operation o bits with
  | Some e => emit e ;; destination_store (dest i) BINARY_GP_RAX
  | None => fail
  end.

Definition emit_unary_float (i : IRInstruction) (o : string) : Gen () :=
  let bits := instruction_width i in
  code_generator_binary_emit_float_operand_to_xmm_bits (lhs i) BINARY_XMM0 bits ;;
  match (if String.eqb o "-" then
           Some (binary_emit_pxor_xmm_xmm BINARY_XMM1 BINARY_XMM1 ;;
                 (if (bits =? 32)%Z then binary_emit_subss_xmm_xmm BINARY_XMM1 BINARY_XMM0
                  else binary_emit_subsd_xmm_xmm BINARY_XMM1 BINARY_XMM0) ;;
                 result_to_rax bits BINARY_XMM1)
         else if String.eqb o "+" then Some (result_to_rax bits BINARY_XMM0) else None) with
  | Some e => emit e ;; destination_store (dest i) BINARY_GP_RAX
  | None => fail
  end.

Definition code_generator_binary_emit_unary (i : IRInstruction) : Gen () :=
  match text i with
  | None => fail
  | Some o =>
      if is_float i then emit_unary_float i o
      else if String.eqb o "popcnt" then
        operand_load (lhs i) BINARY_GP_RAX ;;
        emit (wcs_popcnt BINARY_GP_RAX BINARY_GP_RAX) ;;
        destination_store (dest i) BINARY_GP_RAX
      else emit_unary_integer g context i o
  end.

(** ** Concatenation of strings *)

(** Copies R9 bytes from R11 to R8, which it moves forward. *)
Definition emit_copy_loop (loop_label done_label : string) : Gen () :=
  let branch (e : Emit nat) (label : string) :=
    fixup ← emit e; binary_label_fixup_table_add label fixup in
  let define (label : string) :=
    o ← get_output;
    match binary_label_table_define (labels o) label (length (out_code o)) with
    | Some t => put_output (set_labels t o)
    | None => fail
    end in
  emit (binary_emit_test_reg_reg BINARY_GP_R9) ;;
  branch binary_emit_je_placeholder done_label ;;
  define loop_label ;;
  emit (binary_emit_movzx_reg_mem8 BINARY_GP_RCX BINARY_GP_R11 0 ;;
        binary_emit_mov_mem_reg8 BINARY_GP_R8 0 BINARY_GP_RCX ;;
        binary_emit_add_reg_imm32 BINARY_GP_R11 1 ;;
        binary_emit_add_reg_imm32 BINARY_GP_R8 1 ;;
        binary_emit_sub_reg_imm32 BINARY_GP_R9 1 ;;
        binary_emit_test_reg_reg BINARY_GP_R9) ;;
  branch binary_emit_je_placeholder done_label ;;
  branch binary_emit_jmp_placeholder loop_label ;;
  define done_label.

(** A call of the runtime with [space] bytes below the return address. *)
Definition emit_runtime_call (callee : string) (space : Z) : Gen () :=
  emit (binary_emit_sub_rsp_imm32 space) ;;
  displacement ← emit binary_emit_call_placeholder;
  binary_call_relocation_table_add callee displacement ;;
  emit (binary_emit_add_rsp_imm32 space).

Definition binary_emit_string_concat (i : IRInstruction) : Gen () :=
  code_generator_binary_declare_external_symbol "calloc" ;;
  left_done ← code_generator_generate_label "concat_left_done";
  left_loop ← code_generator_generate_label "concat_left_loop";
  right_done ← code_generator_generate_label "concat_right_done";
  right_loop ← code_generator_generate_label "concat_right_loop";
  operand_load (lhs i) BINARY_GP_RAX ;;
  emit (binary_emit_push_reg BINARY_GP_RAX) ;;
  operand_load (rhs i) BINARY_GP_R10 ;;
  emit (binary_emit_pop_reg BINARY_GP_RAX ;;
        binary_emit_mov_reg_mem BINARY_GP_RCX BINARY_GP_RAX 8 ;;
        binary_emit_mov_reg_mem BINARY_GP_RDX BINARY_GP_R10 8 ;;
        binary_emit_alu_reg_reg 0x01 BINARY_GP_RCX BINARY_GP_RDX ;;
        binary_emit_sub_rsp_imm32 24 ;;
        binary_emit_mov_mem_reg BINARY_GP_RSP 0 BINARY_GP_R10 ;;
        binary_emit_mov_mem_reg BINARY_GP_RSP 8 BINARY_GP_RAX ;;
        binary_emit_mov_mem_reg BINARY_GP_RSP 16 BINARY_GP_RCX ;;
        binary_emit_add_reg_imm32 BINARY_GP_RCX 17 ;;
        binary_emit_mov_reg_reg BINARY_GP_RDX BINARY_GP_RCX ;;
        binary_emit_mov_reg_imm64 BINARY_GP_RCX 1) ;;
  emit_runtime_call "calloc" (BINARY_WIN64_SHADOW_SPACE_SIZE + 8) ;;
  emit (binary_emit_mov_reg_mem BINARY_GP_RCX BINARY_GP_RSP 16 ;;
        binary_emit_mov_reg_mem BINARY_GP_RDX BINARY_GP_RSP 8 ;;
        binary_emit_mov_reg_mem BINARY_GP_R10 BINARY_GP_RSP 0 ;;
        binary_emit_add_rsp_imm32 24 ;;
        binary_emit_lea_reg_mem BINARY_GP_R8 BINARY_GP_RAX 16 ;;
        binary_emit_mov_mem_reg BINARY_GP_RAX 0 BINARY_GP_R8 ;;
        binary_emit_mov_mem_reg BINARY_GP_RAX 8 BINARY_GP_RCX ;;
        binary_emit_mov_reg_mem BINARY_GP_R9 BINARY_GP_RDX 8 ;;
        binary_emit_mov_reg_mem BINARY_GP_R11 BINARY_GP_RDX 0) ;;
  emit_copy_loop left_loop left_done ;;
  emit (binary_emit_mov_reg_mem BINARY_GP_R9 BINARY_GP_R10 8 ;;
        binary_emit_mov_reg_mem BINARY_GP_R11 BINARY_GP_R10 0) ;;
  emit_copy_loop right_loop right_done ;;
  emit (binary_emit_mov_reg_imm64 BINARY_GP_RCX 0 ;;
        binary_emit_mov_mem_reg8 BINARY_GP_R8 0 BINARY_GP_RCX) ;;
  destination_store (dest i) BINARY_GP_RAX.

Definition code_generator_binary_emit_binary (i : IRInstruction) : Gen () :=
  match text i with
  | None => fail
  | Some o =>
      let result_type := e ← ast_ref i; type_at g (expression_type g e) in
      if is_kind TYPE_STRING result_type && String.eqb o "+" then binary_emit_string_concat i
      else if is_float i then binary_emit_binary_float i o
      else binary_emit_binary_integer g context i o
  end.

(** ** Casts *)

Definition code_generator_is_floating_point_type (t : Type_) : bool :=
  match tname t with
  | Some n => existsb (String.eqb n) ["float32"; "float64"; "double"; "float"]%string
  | None => false
  end.

(** Narrows RAX to an integer type of [size] bytes. *)
Definition emit_narrow (size : Z) (is_unsigned : bool) : Emit () :=
  if (size =? 1)%Z then if is_unsigned then binary_emit_movzx_eax_al else binary_emit_movsx_rax_al
  else if (size =? 2)%Z then if is_unsigned then binary_emit_movzx_eax_ax else binary_emit_movsx_rax_ax
  else if (size =? 4)%Z then if is_unsigned then binary_emit_mov_eax_eax else binary_emit_movsxd_rax_eax
  else mret ().

Definition cast_operation (i : IRInstruction) (target : option Type_) : Emit () :=
  let target_is_float := match target with
                         | Some t => code_generator_is_floating_point_type t | None => false end in
  let is_unsigned := is_kind TYPE_UINT8 target || is_kind TYPE_UINT16 target ||
                     is_kind TYPE_UINT32 target || is_kind TYPE_UINT64 target in
  let size := match target with
              | Some t => if is_kind TYPE_POINTER target || is_kind TYPE_FUNCTION_POINTER target
                          then 8%Z else s32 (size t)
              | None => 8%Z
              end in
  let size := if (size <=? 0)%Z then 8%Z else size in
  let src := instruction_width i in
  let dst := code_generator_binary_resolved_type_float_bits target in
  if is_float i && negb target_is_float then
    if (src =? 32)%Z
    then binary_emit_movd_xmm_reg BINARY_XMM0 BINARY_GP_RAX ;; binary_emit_cvttss2si_reg_xmm BINARY_GP_RAX BINARY_XMM0
    else binary_emit_movq_xmm_reg BINARY_XMM0 BINARY_GP_RAX ;; binary_emit_cvttsd2si_reg_xmm BINARY_GP_RAX BINARY_XMM0
  else if negb (is_float i) && target_is_float then
    if (dst =? 32)%Z
    then binary_emit_cvtsi2ss_xmm_reg BINARY_XMM0 BINARY_GP_RAX ;; binary_emit_movd_reg_xmm BINARY_GP_RAX BINARY_XMM0
    else binary_emit_cvtsi2sd_xmm_reg BINARY_XMM0 BINARY_GP_RAX ;; binary_emit_movq_reg_xmm BINARY_GP_RAX BINARY_XMM0
  else if is_float i && target_is_float then
    if ((src =? 32) && (dst =? 64))%Z || ((src =? 64) && (dst =? 32))%Z
    then code_generator_binary_emit_float_reg_convert BINARY_GP_RAX src dst
    else mret ()
  else emit_narrow size is_unsigned.

Definition code_generator_binary_emit_cast (i : IRInstruction) : Gen () :=
  match text i with
  | None => fail
  | Some _ =>
      operand_load (lhs i) BINARY_GP_RAX ;;
      emit (cast_operation i (named_type g (text i))) ;;
      destination_store (dest i) BINARY_GP_RAX
  end.

(** ** Memory *)

Definition code_generator_binary_emit_address_of (i : IRInstruction) : Gen () :=
  match lhs i with
  | IR_OPERAND_SYMBOL name _ =>
      let symbol := lookup_symbol g name in
      let global (s : option Symbol) :=
        match code_generator_get_link_symbol_name g name with
        | None | Some EmptyString => fail
        | Some link => code_generator_binary_emit_symbol_address link
                         (match s with Some s => is_extern s | None => false end) BINARY_GP_RAX
        end in
      let offset := code_generator_binary_get_symbol_offset context name in
      (if match symbol with Some s => bool_decide (skind s = SYMBOL_FUNCTION) | None => false end ||
          ir_function g name then global symbol
       else if is_kind TYPE_STRING (symbol_type g symbol) then
         code_generator_binary_emit_string_symbol_load g context name symbol BINARY_GP_RAX
       else if (0 <? offset)%Z then
         if code_generator_binary_parameter_is_indirect name
         then emit (binary_emit_mov_reg_mem BINARY_GP_RAX BINARY_GP_RBP (- offset))
         else emit (binary_emit_lea_reg_mem BINARY_GP_RAX BINARY_GP_RBP (- offset))
       else match symbol with
       | Some s => if in_global_scope g s then global symbol else fail
       | None => fail
       end) ;;
      destination_store (dest i) BINARY_GP_RAX
  | _ => fail
  end.

Definition code_generator_binary_get_access_size (size_operand : IROperand) : option Z :=
  match size_operand with
  | IR_OPERAND_INT v => if (v <=? 0)%Z then None else Some (s32 v)
  | _ => None
  end.

Definition code_generator_binary_load_needs_sign_extend (destination : IROperand) (load_size : Z) : bool :=
  if negb (load_size =? 4)%Z then false
  else match destination with
  | IR_OPERAND_SYMBOL n _ =>
      match symbol_type g (lookup_symbol g n) with
      | Some t =>
          if (code_generator_binary_resolved_type_scalar_size (Some t) =? 4)%Z
          then code_generator_binary_resolved_type_is_signed_integer (Some t) else true
      | None => true
      end
  | _ => true
  end.

(** The register of an operand that is a promoted symbol. *)
Definition operand_register (x : IROperand) : option BinaryGpRegister :=
  n ← symbol_name x; assigned_register n.

Definition code_generator_binary_emit_load (i : IRInstruction) : Gen () :=
  match code_generator_binary_get_access_size (rhs i) with
  | None => fail
  | Some size =>
      if (size <=? 0)%Z then fail
      else
        let in_dest := if is_float i then None else operand_register (dest i) in
        let value_register := default BINARY_GP_RAX in_dest in
        let address := operand_register (lhs i) in
        (match address with Some _ => mret () | None => operand_load (lhs i) BINARY_GP_RAX end) ;;
        code_generator_binary_emit_load_from_address (default BINARY_GP_RAX address) size value_register ;;
        (if (size =? 4)%Z && negb (is_float i) && code_generator_binary_load_needs_sign_extend (dest i) size
         then emit (binary_emit_movsxd_reg_reg32 value_register value_register) else mret ()) ;;
        match in_dest with
        | Some _ => mret ()
        | None => destination_store (dest i) BINARY_GP_RAX
        end
  end.

Definition code_generator_binary_emit_store (i : IRInstruction) : Gen () :=
  match code_generator_binary_get_access_size (rhs i) with
  | None => fail
  | Some size =>
      if (size <=? 0)%Z then fail
      else
        let value := if is_float i then None else operand_register (lhs i) in
        let value_register := default BINARY_GP_STORE_VALUE value in
        (match value with Some _ => mret () | None => operand_load (lhs i) BINARY_GP_STORE_VALUE end) ;;
        (if is_float i && negb (float_bits i =? 0)%Z
         then emit (code_generator_binary_emit_float_reg_convert value_register
                      (code_generator_binary_operand_float_bits g context (lhs i)) (float_bits i))
         else mret ()) ;;
        let address := operand_register (dest i) in
        (match address with Some _ => mret () | None => operand_load (dest i) BINARY_GP_RAX end) ;;
        code_generator_binary_emit_store_to_address (default BINARY_GP_RAX address) size value_register
  end.

Definition code_generator_binary_emit_new (i : IRInstruction) : Gen () :=
  code_generator_binary_declare_external_symbol "calloc" ;;
  (match rhs i with
   | IR_OPERAND_INT v => emit (binary_emit_mov_reg_imm64 BINARY_GP_RDX (if (0 <? v)%Z then u64 v else 8))
   | IR_OPERAND_NONE => emit (binary_emit_mov_reg_imm64 BINARY_GP_RDX 8)
   | x => operand_load x BINARY_GP_RDX
   end) ;;
  emit (binary_emit_mov_reg_imm64 BINARY_GP_RCX 1) ;;
  emit_runtime_call "calloc" BINARY_WIN64_SHADOW_SPACE_SIZE ;;
  destination_store (dest i) BINARY_GP_RAX.

Definition code_generator_binary_emit_memcpy_inline (i : IRInstruction) : Gen () :=
  match rhs i with
  | IR_OPERAND_INT byte_count =>
      if (byte_count <=? 0)%Z then mret ()
      else
        operand_load (dest i) BINARY_GP_RDI ;;
        operand_load (lhs i) BINARY_GP_RSI ;;
        if (64 <=? byte_count)%Z && (Z.rem byte_count 8 =? 0)%Z
        then code_generator_binary_emit_rep_movsq BINARY_GP_RSI BINARY_GP_RDI (byte_count / 8)
        else code_generator_binary_emit_rep_movsb BINARY_GP_RSI BINARY_GP_RDI byte_count
  | _ => fail
  end.

(** ** Rotation: next = a + b; a = b; b = next *)

(** Adds the register to RAX. *)
Definition emit_sum (b : BinaryGpRegister) : Emit () :=
  emit_or (binary_emit_lea_reg_reg BINARY_GP_RAX BINARY_GP_RAX b) (binary_emit_alu_reg_reg 0x01 BINARY_GP_RAX b).

Definition code_generator_binary_emit_rotate_add (i : IRInstruction) : Gen () :=
  match dest i, lhs i, rhs i with
  | IR_OPERAND_SYMBOL next _, IR_OPERAND_SYMBOL a _, IR_OPERAND_SYMBOL b _ =>
      match assigned_register next, assigned_register a, assigned_register b with
      | Some reg_next, Some reg_a, Some reg_b =>
          emit (emit_or (binary_emit_lea_reg_reg reg_next reg_a reg_b)
                  (binary_emit_mov_reg_reg reg_next reg_a ;; binary_emit_alu_reg_reg 0x01 reg_next reg_b) ;;
                binary_emit_mov_reg_reg reg_a reg_b ;;
                binary_emit_mov_reg_reg reg_b reg_next)
      | _, in_a, in_b =>
          operand_load (lhs i) BINARY_GP_RAX ;;
          (match in_b with
           | Some reg_b => emit (emit_sum reg_b)
           | None => operand_load (rhs i) BINARY_GP_R10 ;;
                     emit (emit_sum BINARY_GP_R10)
           end) ;;
          emit (binary_emit_mov_reg_reg BINARY_GP_R11 BINARY_GP_RAX) ;;
          destination_store (dest i) BINARY_GP_R11 ;;
          (match in_a, in_b with
           | Some reg_a, Some reg_b => emit (binary_emit_mov_reg_reg reg_a reg_b)
           | Some reg_a, None => operand_load (rhs i) BINARY_GP_R10 ;;
                                 emit (binary_emit_mov_reg_reg reg_a BINARY_GP_R10)
           | None, _ => operand_load (rhs i) BINARY_GP_R10 ;; destination_store (lhs i) BINARY_GP_R10
           end) ;;
          match in_b with
          | Some reg_b => emit (binary_emit_mov_reg_reg reg_b BINARY_GP_R11)
          | None => destination_store (rhs i) BINARY_GP_R11
          end
      end
  | _, _, _ => fail
  end.

(** ** Control *)

(** A jump to a label that is patched later. *)
Definition emit_branch (e : Emit nat) (label : string) : Gen () :=
  fixup ← emit e; binary_label_fixup_table_add label fixup.

(** A jump to the epilogue. *)
Definition emit_return_jump : Gen () :=
  fixup ← emit binary_emit_jmp_placeholder; binary_offset_table_add fixup.

Definition define_label (label : string) : Gen () :=
  o ← get_output;
  match binary_label_table_define (labels o) label (length (out_code o)) with
  | Some t => put_output (set_labels t o)
  | None => fail
  end.

Definition label_text (i : IRInstruction) : option string :=
  match text i with None | Some EmptyString => None | Some l => Some l end.

Definition dest_is_cstring (type : option Type_) (name : option string) : bool :=
  code_generator_binary_type_is_cstring g type ||
  match name with Some n => in_table (cstring_symbols context) n | None => false end.

(** A missing type of a string's destination is that of [cstring]. *)
Definition effective_type (type : option Type_) : option Type_ :=
  match type with Some t => Some t | None => type_at g (builtin_cstring g) end.

(** A copy to a promoted variable goes straight to its register. *)
Definition emit_assign_register (i : IRInstruction) (name : string) (register : BinaryGpRegister) : Gen () :=
  let type := code_generator_binary_get_operand_type_in_context g context (dest i) in
  let general :=
    if dest_is_cstring type (Some name)
    then code_generator_binary_emit_call_argument_load (lhs i) (effective_type type) register
    else operand_load (lhs i) register in
  match lhs i with
  | IR_OPERAND_TEMP n _ =>
      if (code_generator_binary_type_scalar_width type =? 4)%Z then
        let offset := code_generator_binary_get_temp_offset context n in
        if (0 <? offset)%Z then emit (code_generator_binary_emit_temp_stack_load offset register type) else fail
      else general
  | _ => general
  end.

Definition emit_assign_general (i : IRInstruction) : Gen () :=
  let type := code_generator_binary_get_operand_type g (dest i) in
  (if dest_is_cstring type (symbol_name (dest i))
   then code_generator_binary_emit_call_argument_load (lhs i) (effective_type type) BINARY_GP_RAX
   else operand_load (lhs i) BINARY_GP_RAX) ;;
  (if is_float i && negb (float_bits i =? 0)%Z
   then emit (code_generator_binary_emit_float_reg_convert BINARY_GP_RAX
                (code_generator_binary_operand_float_bits g context (lhs i)) (float_bits i))
   else mret ()) ;;
  destination_store (dest i) BINARY_GP_RAX.

(** A struct returned by address, whose address is in the slot of the temporary [n]. *)
Definition emit_assign_struct (n name : string) (bytes : Z) : Gen () :=
  let offset := code_generator_binary_get_temp_offset context n in
  if (offset <=? 0)%Z then fail
  else
    emit (binary_emit_mov_reg_mem BINARY_GP_RAX BINARY_GP_RBP (- offset)) ;;
    code_generator_binary_emit_struct_destination_address name BINARY_GP_RDX ;;
    code_generator_binary_emit_rep_movsb BINARY_GP_RAX BINARY_GP_RDX bytes.

Definition emit_assign (i : IRInstruction) : Gen () :=
  match symbol_name (dest i) with
  | None => emit_assign_general i
  | Some name =>
      if match binary_symbol_alias_table_get (symbol_aliases context) name, symbol_name (lhs i) with
         | Some target, Some l => String.eqb target l
         | _, _ => false
         end then mret ()
      else
        bytes ← match temp_name (lhs i) with Some n => binary_indirect_temp_get n | None => mret 0%Z end;
        if (0 <? bytes)%Z &&
           match symbol_type g (lookup_symbol g name) with
           | None => true | t => code_generator_type_is_aggregate t end
        then emit_assign_struct (default EmptyString (temp_name (lhs i))) name bytes
        else match (if is_float i then None else assigned_register name) with
        | Some register => emit_assign_register i name register
        | None => emit_assign_general i
        end
  end.

Definition emit_return (i : IRInstruction) : Gen () :=
  match lhs i with
  | IR_OPERAND_NONE => emit_return_jump
  | x =>
      (if returns_indirect context then
         code_generator_binary_emit_indirect_source_address x BINARY_GP_RAX ;;
         emit (binary_emit_mov_reg_mem BINARY_GP_RDX BINARY_GP_RBP (-8)) ;;
         code_generator_binary_emit_rep_movsb BINARY_GP_RAX BINARY_GP_RDX (indirect_return_size context) ;;
         emit (binary_emit_mov_reg_mem BINARY_GP_RAX BINARY_GP_RBP (-8))
       else
         operand_load x BINARY_GP_RAX ;;
         (if is_float i && negb (float_bits i =? 0)%Z
          then emit (code_generator_binary_emit_float_reg_convert BINARY_GP_RAX
                       (code_generator_binary_operand_float_bits g context x) (float_bits i))
          else mret ())) ;;
      emit_return_jump
  end.

Definition emit_branch_zero (i : IRInstruction) (label : string) : Gen () :=
  operand_load (lhs i) BINARY_GP_RAX ;;
  emit (binary_emit_test_reg_reg BINARY_GP_RAX) ;;
  emit_branch binary_emit_je_placeholder label.

Definition emit_branch_eq (i : IRInstruction) (label : string) : Gen () :=
  operand_load (rhs i) BINARY_GP_R10 ;;
  operand_load (lhs i) BINARY_GP_RAX ;;
  emit (code_generator_binary_emit_reg_reg_compare BINARY_GP_RAX BINARY_GP_R10
          (code_generator_binary_instruction_compare_width g context i)) ;;
  emit_branch binary_emit_je_placeholder label.

(** Calls and the fused kernels. *)
Context (emit_other : IRInstruction → Gen ()).

Definition with_label (i : IRInstruction) (k : string → Gen ()) : Gen () :=
  match label_text i with Some l => k l | None => fail end.

Definition code_generator_binary_emit_instruction (i : IRInstruction) : Gen () :=
  match op i with
  | IR_OP_NOP => mret ()
  | IR_OP_LABEL => with_label i define_label
  | IR_OP_JUMP => with_label i (emit_branch binary_emit_jmp_placeholder)
  | IR_OP_BRANCH_ZERO => with_label i (emit_branch_zero i)
  | IR_OP_BRANCH_EQ => with_label i (emit_branch_eq i)
  | IR_OP_ASSIGN => emit_assign i
  | IR_OP_ADDRESS_OF => code_generator_binary_emit_address_of i
  | IR_OP_LOAD => code_generator_binary_emit_load i
  | IR_OP_STORE => code_generator_binary_emit_store i
  | IR_OP_BINARY => code_generator_binary_emit_binary i
  | IR_OP_ROTATE_ADD => code_generator_binary_emit_rotate_add i
  | IR_OP_UNARY => code_generator_binary_emit_unary i
  | IR_OP_NEW => code_generator_binary_emit_new i
  | IR_OP_CAST => code_generator_binary_emit_cast i
  | IR_OP_RETURN => emit_return i
  | IR_OP_DECLARE_LOCAL =>
      match symbol_name (dest i) with
      | Some EmptyString | None => fail
      | Some n => if (code_generator_binary_get_local_offset context n <=? 0)%Z then fail else mret ()
      end
  | IR_OP_MEMCPY_INLINE => code_generator_binary_emit_memcpy_inline i
  | _ => emit_other i
  end.

End instructions.
