(* ===== verification/Peephole.v ===== *)
(** * Code generation: fused instructions (src/src/codegen/binary/peephole.c)

    Sequences of instructions that are emitted together.  An attempt that returns 0 in
    the C code is [fail] here; whatever it appended before stays in the output. *)

From stdpp Require Import gmap.
From S2P Require Import Prelude.
From S2P Require Import Types.
From S2P Require Import SymbolTable.
From S2P Require Import IR.
From S2P Require Import Encoders.
From S2P Require Import FunctionContext.
From S2P Require Import Frame.
From S2P Require Import Operands.
From S2P Require Import Selection.
From S2P Require Import Instructions.

(** ** Uses of temporaries and labels *)

Definition code_generator_binary_operand_uses_temp (operand : IROperand) (name : string) : bool :=
  is_name name (temp_name operand).

Definition count_if {A} (f : A → bool) (l : list A) : nat := length (filter (λ x, Is_true (f x)) l).

Definition code_generator_binary_instruction_temp_use_count (i : IRInstruction) (name : string) : nat :=
  let uses x := code_generator_binary_operand_uses_temp x name in
  (if uses (lhs i) then 1 else 0) + (if uses (rhs i) then 1 else 0) +
  (if bool_decide (op i = IR_OP_STORE) && uses (dest i) then 1 else 0) + count_if uses (arguments i).

Definition code_generator_binary_function_temp_use_count (body : code) (name : string) : nat :=
  foldr (fun i n => code_generator_binary_instruction_temp_use_count i name + n) 0 body.

Definition is_branch (i : IRInstruction) : bool :=
  bool_decide (op i = IR_OP_JUMP) || bool_decide (op i = IR_OP_BRANCH_ZERO) ||
  bool_decide (op i = IR_OP_BRANCH_EQ).

Definition code_generator_binary_label_reference_count (body : code) (label : string) : nat :=
  count_if (fun i => is_branch i && is_name label (text i)) body.

(** The last instruction before the index that writes the temporary. *)
Definition code_generator_binary_find_temp_producer_before (body : code) (before : nat) (name : string)
    : option IRInstruction :=
  find (fun i => is_name name (temp_name (dest i))) (reverse (take before body)).

Definition is_integer_binary (i : IRInstruction) : bool := bool_decide (op i = IR_OP_BINARY) && negb (is_float i).
Definition has_text (i : IRInstruction) (o : string) : bool := is_name o (text i).
Definition operator (i : IRInstruction) : string := default EmptyString (text i).

Definition is_int (x : IROperand) : bool := match x with IR_OPERAND_INT _ => true | _ => false end.
Definition is_symbol (x : IROperand) : bool := match x with IR_OPERAND_SYMBOL _ _ => true | _ => false end.

(** The scale of an index shifted left by at most 3. *)
Definition code_generator_binary_shift_scale (i : IRInstruction) : option Z :=
  if is_integer_binary i && has_text i "<<" then
    match rhs i with
    | IR_OPERAND_INT v => if (v <? 0)%Z || (3 <? v)%Z then None else Some (Z.shiftl 1 v)
    | _ => None
    end
  else None.

Definition code_generator_binary_chain_producer_supported (o : string) : bool :=
  is_op o ["+"; "-"; "*"; "/"; "%"; "&"; "|"; "^"; "<<"; ">>"]%string.
Definition code_generator_binary_operator_is_commutative (o : string) : bool :=
  is_op o ["+"; "*"; "&"; "|"; "^"]%string.

Definition code_generator_binary_compare_false_cmov (o : string) : option Z :=
  if String.eqb o "==" then Some 0x45%Z
  else if String.eqb o "!=" then Some 0x44%Z
  else if String.eqb o "<" then Some 0x4D%Z
  else if String.eqb o "<=" then Some 0x4F%Z
  else if String.eqb o ">" then Some 0x4E%Z
  else if String.eqb o ">=" then Some 0x4C%Z
  else None.

Section peephole.
Context (g : CodeGenerator) (context : BinaryFunctionContext) (body : code).

Abbreviation operand_load := (code_generator_binary_emit_operand_load g context).
Abbreviation destination_store := (code_generator_binary_emit_destination_store g context).
Abbreviation compare_width := (code_generator_binary_instruction_compare_width g context).

Definition uses_once (name : string) : bool :=
  code_generator_binary_function_temp_use_count body name =? 1.

(** ** Comparisons *)

Definition immediate_of (x : IROperand) : option Z :=
  match x with
  | IR_OPERAND_INT v => if code_generator_binary_immediate_fits_signed_32 v then Some v else None
  | _ => None
  end.

(** A promoted operand is used in its register, any other loaded. *)
Definition operand_in (x : IROperand) (scratch : BinaryGpRegister) : Gen BinaryGpRegister :=
  match operand_register g context x with
  | Some r => mret r
  | None => operand_load x scratch ;; mret scratch
  end.

Definition code_generator_binary_emit_compare_flags (compare : IRInstruction) : Gen () :=
  let o := operator compare in
  if negb (code_generator_binary_is_compare_operator o) then fail
  else match immediate_of (rhs compare) with
  | Some v => r ← operand_in (lhs compare) BINARY_GP_RAX; emit (binary_emit_cmp_reg_imm32 r (imm32 v))
  | None =>
      match (if is_op o ["=="; "!="]%string then immediate_of (lhs compare) else None) with
      | Some v => r ← operand_in (rhs compare) BINARY_GP_RAX; emit (binary_emit_cmp_reg_imm32 r (imm32 v))
      | None =>
          rhs_register ← operand_in (rhs compare) BINARY_GP_R10;
          lhs_register ← operand_in (lhs compare) BINARY_GP_RAX;
          emit (code_generator_binary_emit_reg_reg_compare lhs_register rhs_register (compare_width compare))
      end
  end.

Definition false_jump (o label : string) : Gen () :=
  match code_generator_binary_compare_false_jcc o with
  | Some opcode => emit_branch (binary_emit_jcc_placeholder opcode) label
  | None => fail
  end.

Definition code_generator_binary_emit_compare_false_branch (compare : IRInstruction) (label : string) : Gen () :=
  let o := operator compare in
  if String.eqb label EmptyString then fail
  else match code_generator_binary_compare_false_jcc o with
  | None => fail
  | Some _ => code_generator_binary_emit_compare_flags compare ;; false_jump o label
  end.

(** ** Integer expressions in RAX *)

(** The operations of [to_rax] with an immediate on one side. *)
Definition immediate_form (o : string) (v : Z) : option (Emit ()) :=
  match emit_immediate_arithmetic o BINARY_GP_RAX v with
  | Some e => Some e
  | None =>
      if is_shift o && (0 <=? v)%Z && (v <? 64)%Z
      then Some (binary_emit_shift_reg_imm8 (shift_subopcode o) BINARY_GP_RAX (u8 v)) else None
  end.

Definition annihilates (o : string) (v : Z) : bool := (v =? 0)%Z && is_op o ["*"; "&"]%string.

(** Of the operators of two registers, those that are arithmetic. *)
Definition register_form (o : string) : option (Emit ()) :=
  if code_generator_binary_chain_producer_supported o then emit_register_operation o 8 else None.

Definition with_immediate (x : IROperand) (o : string) (v : Z) (e : Emit ()) : Gen () :=
  if annihilates o v then emit (binary_emit_mov_reg_imm64 BINARY_GP_RAX 0)
  else operand_load x BINARY_GP_RAX ;; emit e.

Definition code_generator_binary_emit_integer_binary_to_rax (i : IRInstruction) : Gen () :=
  match text i with
  | None => fail
  | Some o =>
      if is_float i then fail
      else match (match rhs i with
         | IR_OPERAND_INT v =>
             if is_op o ["/"; "%"]%string
             then code_generator_binary_extract_positive_power_of_two v else None
         | _ => None
         end) with
      | Some (shift, mask) =>
          operand_load (lhs i) BINARY_GP_RAX ;;
          emit (if String.eqb o "/" then emit_divide_power_of_two shift mask
                else emit_modulo_power_of_two shift mask)
      | None =>
          match (v ← immediate_of (rhs i); e ← immediate_form o v; Some (v, e)) with
          | Some (v, e) => with_immediate (lhs i) o v e
          | None =>
              match (v ← immediate_of (lhs i);
                     guard (Is_true (code_generator_binary_operator_is_commutative o));;
                     e ← immediate_form o v; Some (v, e)) with
              | Some (v, e) => with_immediate (rhs i) o v e
              | None =>
                  operand_load (rhs i) BINARY_GP_R10 ;;
                  operand_load (lhs i) BINARY_GP_RAX ;;
                  match register_form o with Some e => emit e | None => fail end
              end
          end
      end
  end.

(** RAX combined with an operand. *)
Definition code_generator_binary_emit_rax_binary_rhs (o : string) (x : IROperand) : Gen () :=
  match (v ← immediate_of x; e ← (if annihilates o v then Some (binary_emit_mov_reg_imm64 BINARY_GP_RAX 0)
                                  else immediate_form o v); Some e) with
  | Some e => emit e
  | None =>
      operand_load x BINARY_GP_R10 ;;
      match register_form o with Some e => emit e | None => fail end
  end.

Definition code_generator_binary_emit_compare_false_branch_from_rax (compare : IRInstruction) (x : IROperand)
    (label : string) : Gen () :=
  match code_generator_binary_compare_false_jcc (operator compare) with
  | None => fail
  | Some _ =>
      (match immediate_of x with
       | Some v => emit (binary_emit_cmp_reg_imm32 BINARY_GP_RAX (imm32 v))
       | None => operand_load x BINARY_GP_R10 ;;
                 emit (code_generator_binary_emit_reg_reg_compare BINARY_GP_RAX BINARY_GP_R10
                         (compare_width compare))
       end) ;;
      false_jump (operator compare) label
  end.

(** ** Comparison and branch *)

(** [t = a < b; branch_zero t, label], [t] used nowhere else. *)
Definition is_compare_to_temp (i : IRInstruction) : option string :=
  if is_integer_binary i && code_generator_binary_is_compare_operator (operator i) then temp_name (dest i)
  else None.

Definition branches_on (i : IRInstruction) (name : string) : bool :=
  bool_decide (op i = IR_OP_BRANCH_ZERO) && code_generator_binary_operand_uses_temp (lhs i) name.

Definition code_generator_binary_try_emit_compare_branch_zero (index : nat) : Gen nat :=
  match body !! index, body !! S index with
  | Some compare, Some branch =>
      match is_compare_to_temp compare with
      | Some t =>
          if branches_on branch t && uses_once t then
            match text branch with
            | Some label => code_generator_binary_emit_compare_false_branch compare label ;; mret 2
            | None => fail
            end
          else fail
      | None => fail
      end
  | _, _ => fail
  end.

(** [t = a & mask] compared with 0 becomes a test. *)
Definition try_emit_and_mask_compare_false_branch (producer compare : IRInstruction) (other : IROperand)
    (label : string) : Gen () :=
  if negb (has_text producer "&") || negb (is_op (operator compare) ["=="; "!="]%string) ||
     negb (match other with IR_OPERAND_INT v => (v =? 0)%Z | _ => false end) then fail
  else match (match immediate_of (rhs producer) with
              | Some v => Some (lhs producer, v)
              | None => v ← immediate_of (lhs producer); Some (rhs producer, v)
              end) with
  | None => fail
  | Some (value, mask) =>
      r ← operand_in value BINARY_GP_RAX;
      emit (binary_emit_test_reg_imm32 r (imm32 mask)) ;;
      false_jump (operator compare) label
  end.

Definition is_chain_producer (i : IRInstruction) : option string :=
  if is_integer_binary i && code_generator_binary_chain_producer_supported (operator i)
  then temp_name (dest i) else None.

(** The operand of the comparison that is not the temporary. *)
Definition other_operand (compare : IRInstruction) (name : string) : option IROperand :=
  if code_generator_binary_operand_uses_temp (lhs compare) name then Some (rhs compare)
  else if is_op (operator compare) ["=="; "!="]%string &&
          code_generator_binary_operand_uses_temp (rhs compare) name then Some (lhs compare)
  else None.

Definition or_else {A} (a b : Gen A) : Gen A := λ o,
  match a o with
  | (Some x, o') => (Some x, o')
  | (None, o') => b o'
  end.

Definition code_generator_binary_try_emit_binary_compare_branch_chain (index : nat) : Gen nat :=
  match body !! index, body !! S index, body !! S (S index) with
  | Some producer, Some compare, Some branch =>
      match is_chain_producer producer, is_compare_to_temp compare with
      | Some p, Some t =>
          if branches_on branch t && uses_once p && uses_once t then
            match other_operand compare p, text branch with
            | Some other, Some label =>
                if is_symbol (lhs compare) && is_int other &&
                   is_op (operator compare) ["<="; ">="; "<"; ">"]%string then fail
                else
                  or_else (try_emit_and_mask_compare_false_branch producer compare other label)
                    (code_generator_binary_emit_integer_binary_to_rax producer ;;
                     code_generator_binary_emit_compare_false_branch_from_rax compare other label) ;;
                  mret 3
            | Some _, None => code_generator_binary_emit_integer_binary_to_rax producer ;; fail
            | None, _ => fail
            end
          else fail
      | _, _ => fail
      end
  | _, _, _ => fail
  end.

(** ** Conditional assignment *)

(** One of the eight instructions before that copies the temporary to the symbol. *)
Definition copied_before (index : nat) (symbol temp : string) : bool :=
  existsb (fun i => bool_decide (op i = IR_OP_ASSIGN) && is_name symbol (symbol_name (dest i)) &&
                    is_name temp (temp_name (lhs i)))
    (match index with
     | O => []
     | _ => if 8 <=? index then take 8 (drop (index - 8) body) else []
     end).

(** [if (a < b) x = v]: both values are loaded and the comparison moves one. *)
Definition code_generator_binary_try_emit_compare_assign_diamond (index : nat) : Gen nat :=
  match drop index body with
  | compare :: branch :: assign :: jump :: false_label :: end_label :: _ =>
      match code_generator_binary_compare_true_cmov (operator compare), temp_name (dest compare),
            text branch, text jump, text false_label, text end_label with
      | Some cmov, Some t, Some branch_text, Some jump_text, Some false_text, Some end_text =>
          if is_integer_binary compare && branches_on branch t && uses_once t &&
             bool_decide (op assign = IR_OP_ASSIGN) &&
             match dest assign with IR_OPERAND_NONE | IR_OPERAND_INT _ => false | _ => true end &&
             bool_decide (op jump = IR_OP_JUMP) && bool_decide (op false_label = IR_OP_LABEL) &&
             bool_decide (op end_label = IR_OP_LABEL) && String.eqb branch_text false_text &&
             String.eqb jump_text end_text &&
             (code_generator_binary_label_reference_count body false_text =? 1) &&
             (code_generator_binary_label_reference_count body end_text =? 1)
          then
            let stale := match symbol_name (lhs compare), temp_name (lhs assign) with
                         | Some s, Some v => copied_before index s v && is_symbol (rhs compare)
                         | _, _ => false
                         end in
            code_generator_binary_emit_compare_flags
              (if stale then set_lhs (lhs assign) compare else compare) ;;
            operand_load (dest assign) BINARY_GP_RAX ;;
            operand_load (lhs assign) BINARY_GP_R10 ;;
            emit (binary_emit_cmovcc_reg_reg cmov BINARY_GP_RAX BINARY_GP_R10) ;;
            destination_store (dest assign) BINARY_GP_RAX ;;
            mret 6
          else fail
      | _, _, _, _, _, _ => fail
      end
  | _ => fail
  end.

Definition emit_value_to_r10 (i : IRInstruction) : Gen () :=
  match op i with
  | IR_OP_ASSIGN => operand_load (lhs i) BINARY_GP_R10
  | IR_OP_BINARY =>
      code_generator_binary_emit_integer_binary_to_rax i ;;
      emit (binary_emit_mov_reg_reg BINARY_GP_R10 BINARY_GP_RAX)
  | _ => fail
  end.

(** The instructions that are not [IR_OP_NOP], with their indices. *)
Definition next_non_nop_index (start : nat) : list (nat * IRInstruction) :=
  filter (fun p => op (snd p) ≠ IR_OP_NOP) (imap (fun k i => (start + k, i)) (drop start body)).

(** Both branches assign, and the second one jumps on. *)
Definition code_generator_binary_try_emit_compare_update_pair_diamond
    (emit_instruction : IRInstruction → Gen ()) (index : nat) : Gen nat :=
  match next_non_nop_index index with
  | (i_compare, compare) :: (_, branch) :: (_, true_assign) :: (_, true_jump) :: (_, false_label) ::
    (_, false_assign) :: (i_false_jump, false_jump) :: _ =>
      match code_generator_binary_compare_true_cmov (operator compare),
            code_generator_binary_compare_false_cmov (operator compare), temp_name (dest compare),
            symbol_name (dest true_assign), symbol_name (dest false_assign) with
      | Some true_cmov, Some false_cmov, Some t, Some true_name, Some false_name =>
          match text branch, text true_jump, text false_label, text false_jump with
          | Some branch_text, Some true_text, Some label_text, Some false_text =>
              if (i_compare =? index) && is_integer_binary compare && branches_on branch t && uses_once t &&
                 (bool_decide (op true_assign = IR_OP_ASSIGN) || is_integer_binary true_assign) &&
                 bool_decide (op true_jump = IR_OP_JUMP) && bool_decide (op false_label = IR_OP_LABEL) &&
                 String.eqb branch_text label_text && bool_decide (op false_assign = IR_OP_ASSIGN) &&
                 bool_decide (op false_jump = IR_OP_JUMP) && String.eqb true_text false_text &&
                 (code_generator_binary_label_reference_count body label_text =? 1) &&
                 negb (String.eqb true_name false_name)
              then
                let update assign cmov :=
                  code_generator_binary_emit_compare_flags compare ;;
                  operand_load (dest assign) BINARY_GP_RAX ;;
                  emit_value_to_r10 assign ;;
                  emit (binary_emit_cmovcc_reg_reg cmov BINARY_GP_RAX BINARY_GP_R10) ;;
                  destination_store (dest assign) BINARY_GP_RAX in
                update true_assign true_cmov ;;
                update false_assign false_cmov ;;
                emit_instruction false_jump ;;
                mret (i_false_jump - index + 1)
              else fail
          | _, _, _, _ => fail
          end
      | _, _, _, _, _ => fail
      end
  | _ => fail
  end.

(** ** Addresses *)

Definition code_generator_binary_emit_address_add_to_rax (address : IRInstruction) : Gen () :=
  if negb (is_integer_binary address && has_text address "+") then fail
  else match immediate_of (rhs address), immediate_of (lhs address) with
  | Some v, _ => operand_load (lhs address) BINARY_GP_RAX ;; emit (binary_emit_add_reg_imm32 BINARY_GP_RAX (imm32 v))
  | None, Some v => operand_load (rhs address) BINARY_GP_RAX ;; emit (binary_emit_add_reg_imm32 BINARY_GP_RAX (imm32 v))
  | None, None =>
      operand_load (rhs address) BINARY_GP_R10 ;;
      operand_load (lhs address) BINARY_GP_RAX ;;
      emit (emit_sum BINARY_GP_R10)
  end.

(** [t = a + b], a candidate for the address of a memory access. *)
Definition is_address (i : IRInstruction) : option string :=
  if is_integer_binary i && has_text i "+" then temp_name (dest i) else None.

(** The base, the index and the scale of [shift; address]. *)
Definition code_generator_binary_try_match_scaled_address (index : nat)
    : option (string * IROperand * IROperand * Z) :=
  shift ← body !! index;
  address ← body !! S index;
  t ← temp_name (dest shift);
  scale ← code_generator_binary_shift_scale shift;
  guard (Is_true (negb (is_int (lhs shift)) && uses_once t));;
  name ← is_address address;
  if code_generator_binary_operand_uses_temp (lhs address) t then
    guard (Is_true (negb (is_int (rhs address))));; Some (name, rhs address, lhs shift, scale)
  else if code_generator_binary_operand_uses_temp (rhs address) t then
    guard (Is_true (negb (is_int (lhs address))));; Some (name, lhs address, lhs shift, scale)
  else None.

(** The same for a scaled index computed anywhere before. *)
Definition code_generator_binary_try_match_scaled_temp_address (index : nat) (address : IRInstruction)
    : option (IROperand * IROperand * Z) :=
  let candidate (x other : IROperand) :=
    n ← temp_name x;
    guard (Is_true (negb (is_int other)));;
    producer ← code_generator_binary_find_temp_producer_before body index n;
    guard (Is_true (negb (is_int (lhs producer))));;
    scale ← code_generator_binary_shift_scale producer;
    Some (other, lhs producer, scale) in
  _ ← is_address address;
  '(base, i, scale) ← match candidate (lhs address) (rhs address) with
                      | Some r => Some r
                      | None => candidate (rhs address) (lhs address)
                      end;
  guard (Is_true (is_symbol i));; Some (base, i, scale).

Definition code_generator_binary_address_consumed_by_adjacent_memory (index : nat) : bool :=
  match body !! index, body !! S index with
  | Some address, Some consumer =>
      match temp_name (dest address) with
      | Some n =>
          bool_decide (op address = IR_OP_BINARY) && uses_once n &&
          match op consumer with
          | IR_OP_LOAD => code_generator_binary_operand_uses_temp (lhs consumer) n
          | IR_OP_STORE => code_generator_binary_operand_uses_temp (dest consumer) n
          | _ => false
          end
      | None => false
      end
  | _, _ => false
  end.

(** Whether the use of [name] by the instruction is the index of a folded address. *)
Definition feeds_scaled_address (name : string) (index : nat) (i : IRInstruction) : bool :=
  match is_address i with
  | Some _ =>
      code_generator_binary_address_consumed_by_adjacent_memory index &&
      (if code_generator_binary_operand_uses_temp (lhs i) name then negb (is_int (rhs i))
       else code_generator_binary_operand_uses_temp (rhs i) name && negb (is_int (lhs i)))
  | None => false
  end.

Definition code_generator_binary_shift_only_feeds_scaled_addresses (index : nat) : bool :=
  match body !! index with
  | Some shift =>
      match temp_name (dest shift), code_generator_binary_shift_scale shift with
      | Some n, Some _ =>
          let uses i := code_generator_binary_instruction_temp_use_count i n in
          is_symbol (lhs shift) &&
          forallb (fun p => (uses (snd p) =? 0) || feeds_scaled_address n (fst p) (snd p))
            (imap pair body) &&
          negb (code_generator_binary_function_temp_use_count body n =? 0)
      | _, _ => false
      end
  | None => false
  end.

Definition code_generator_binary_try_skip_scaled_address_shift (index : nat) : Gen nat :=
  if code_generator_binary_shift_only_feeds_scaled_addresses index then mret 1 else fail.

Definition code_generator_binary_emit_scaled_address_to_rax (base i : IROperand) (scale : Z) : Gen () :=
  operand_load i BINARY_GP_R10 ;;
  operand_load base BINARY_GP_RAX ;;
  emit (binary_emit_lea_reg_base_index_scale_disp BINARY_GP_RAX BINARY_GP_RAX BINARY_GP_R10 scale 0).

(** The address of [address], whose index may be scaled. *)
Definition emit_address (index : nat) (address : IRInstruction) : Gen () :=
  match code_generator_binary_try_match_scaled_temp_address index address with
  | Some (base, i, scale) => code_generator_binary_emit_scaled_address_to_rax base i scale
  | None => code_generator_binary_emit_address_add_to_rax address
  end.

Definition access_width (size_operand : IROperand) : option Z :=
  size ← code_generator_binary_get_access_size size_operand; guard (0 < size)%Z;; Some size.

(** A load through RAX. *)
Definition emit_fused_load (load : IRInstruction) (size : Z) : Gen () :=
  code_generator_binary_emit_load_from_address BINARY_GP_RAX size BINARY_GP_RAX ;;
  (if (size =? 4)%Z && negb (is_float load) && code_generator_binary_load_needs_sign_extend g (dest load) size
   then emit binary_emit_movsxd_rax_eax else mret ()) ;;
  destination_store (dest load) BINARY_GP_RAX.

(** The value of a store, at its width. *)
Definition emit_store_value (store : IRInstruction) : Gen () :=
  operand_load (lhs store) BINARY_GP_STORE_VALUE ;;
  if is_float store && negb (float_bits store =? 0)%Z
  then emit (code_generator_binary_emit_float_reg_convert BINARY_GP_STORE_VALUE
               (code_generator_binary_operand_float_bits g context (lhs store)) (float_bits store))
  else mret ().

Definition code_generator_binary_try_emit_address_add_load (index : nat) : Gen nat :=
  match body !! index, body !! S index with
  | Some address, Some load =>
      match is_address address with
      | Some t =>
          if bool_decide (op load = IR_OP_LOAD) && code_generator_binary_operand_uses_temp (lhs load) t &&
             uses_once t
          then match access_width (rhs load) with
               | Some size => emit_address index address ;; emit_fused_load load size ;; mret 2
               | None => fail
               end
          else fail
      | None => fail
      end
  | _, _ => fail
  end.

Definition code_generator_binary_try_emit_address_add_store (index : nat) : Gen nat :=
  match body !! index, body !! S index with
  | Some address, Some store =>
      match is_address address with
      | Some t =>
          if bool_decide (op store = IR_OP_STORE) && code_generator_binary_operand_uses_temp (dest store) t &&
             uses_once t
          then match access_width (rhs store) with
               | Some size =>
                   emit_store_value store ;; emit_address index address ;;
                   code_generator_binary_emit_store_to_address BINARY_GP_RAX size BINARY_GP_STORE_VALUE ;; mret 2
               | None => fail
               end
          else fail
      | None => fail
      end
  | _, _ => fail
  end.

Definition code_generator_binary_try_emit_scaled_address_load (index : nat) : Gen nat :=
  match code_generator_binary_try_match_scaled_address index, body !! S (S index) with
  | Some (t, base, i, scale), Some load =>
      if bool_decide (op load = IR_OP_LOAD) && code_generator_binary_operand_uses_temp (lhs load) t &&
         uses_once t
      then match access_width (rhs load) with
           | Some size =>
               code_generator_binary_emit_scaled_address_to_rax base i scale ;; emit_fused_load load size ;; mret 3
           | None => fail
           end
      else fail
  | _, _ => fail
  end.

Definition code_generator_binary_try_emit_scaled_address_store (index : nat) : Gen nat :=
  match code_generator_binary_try_match_scaled_address index, body !! S (S index) with
  | Some (t, base, i, scale), Some store =>
      if bool_decide (op store = IR_OP_STORE) && code_generator_binary_operand_uses_temp (dest store) t &&
         uses_once t
      then match access_width (rhs store) with
           | Some size =>
               emit_store_value store ;; code_generator_binary_emit_scaled_address_to_rax base i scale ;;
               code_generator_binary_emit_store_to_address BINARY_GP_RAX size BINARY_GP_STORE_VALUE ;; mret 3
           | None => fail
           end
      else fail
  | _, _ => fail
  end.

(** ** Chains of expressions *)

(** A cast that keeps 64 bits. *)
Definition keeps_width (target : option Type_) : bool :=
  match target with
  | None => true
  | Some t =>
      negb (code_generator_is_floating_point_type t) &&
      (is_kind TYPE_POINTER target || is_kind TYPE_FUNCTION_POINTER target || (size t =? 8)%Z)
  end.

Definition code_generator_binary_try_emit_binary_cast_chain (index : nat) : Gen nat :=
  match body !! index, body !! S index with
  | Some producer, Some cast =>
      match is_chain_producer producer, text cast with
      | Some t, Some _ =>
          if bool_decide (op cast = IR_OP_CAST) && negb (is_float cast) &&
             code_generator_binary_operand_uses_temp (lhs cast) t && uses_once t &&
             keeps_width (named_type g (text cast))
          then code_generator_binary_emit_integer_binary_to_rax producer ;;
               destination_store (dest cast) BINARY_GP_RAX ;; mret 2
          else fail
      | _, _ => fail
      end
  | _, _ => fail
  end.

Definition code_generator_binary_try_emit_binary_expression_chain (index : nat) : Gen nat :=
  match body !! index, body !! S index with
  | Some producer, Some consumer =>
      match is_chain_producer producer with
      | Some t =>
          if is_integer_binary consumer && code_generator_binary_chain_producer_supported (operator consumer) &&
             uses_once t
          then
            match (if code_generator_binary_operand_uses_temp (lhs consumer) t then Some (rhs consumer)
                   else if code_generator_binary_operator_is_commutative (operator consumer) &&
                           code_generator_binary_operand_uses_temp (rhs consumer) t then Some (lhs consumer)
                   else None) with
            | Some x =>
                code_generator_binary_emit_integer_binary_to_rax producer ;;
                code_generator_binary_emit_rax_binary_rhs (operator consumer) x ;;
                destination_store (dest consumer) BINARY_GP_RAX ;;
                mret 2
            | None => fail
            end
          else fail
      | None => fail
      end
  | _, _ => fail
  end.

End peephole.
