(* ===== verification/FunctionDriver.v ===== *)
(** * Code generation: a whole function (src/src/codegen/binary/abi_spec.c, emit.c, driver.c)

    The two calling conventions and where they put arguments, the prologue that moves
    arguments to their homes, the loop over the body that tries the fused sequences
    before single instructions, the epilogue, the displacements of the jumps, and the
    symbol and relocations of the function in the object file.  Stack-trace support,
    which adds markers and an end label, is off. *)

From stdpp Require Import gmap.
From S2P Require Import Prelude.
From S2P Require Import Types.
From S2P Require Import SymbolTable.
From S2P Require Import Ast.
From S2P Require Import IR.
From S2P Require Import Outcome.
From S2P Require Import BinaryEmitter.
From S2P Require Import Encoders.
From S2P Require Import FunctionContext.
From S2P Require Import Frame.
From S2P Require Import Operands.
From S2P Require Import Instructions.
From S2P Require Import Peephole.

(** ** Calling conventions *)

(** The counts of registers are the lengths of the lists. *)
Record BinaryAbi : Type := mkAbi {
  int_param_registers : list BinaryGpRegister;
  float_param_registers : list BinaryXmmRegister;
  shadow_space_size : Z;
  indirect_return_register : BinaryGpRegister;
  counts_classes_separately : bool }.

Definition MS_X64_ABI : BinaryAbi :=
  mkAbi [BINARY_GP_RCX; BINARY_GP_RDX; BINARY_GP_R8; BINARY_GP_R9]
    [BINARY_XMM0; BINARY_XMM1; BINARY_XMM2; BINARY_XMM3] 32 BINARY_GP_RCX false.

Definition SYSV_ABI : BinaryAbi :=
  mkAbi [BINARY_GP_RDI; BINARY_GP_RSI; BINARY_GP_RDX; BINARY_GP_RCX; BINARY_GP_R8; BINARY_GP_R9]
    [BINARY_XMM0; BINARY_XMM1; BINARY_XMM2; BINARY_XMM3;
     BINARY_XMM4; BINARY_XMM5; BINARY_XMM6; BINARY_XMM7] 0 BINARY_GP_RDI true.

Inductive BinaryTargetFormat : Type := BINARY_TARGET_FORMAT_COFF_WIN64 | BINARY_TARGET_FORMAT_ELF_X64.

Definition code_generator_binary_select_abi (format : BinaryTargetFormat) : BinaryAbi :=
  match format with
  | BINARY_TARGET_FORMAT_ELF_X64 => SYSV_ABI
  | BINARY_TARGET_FORMAT_COFF_WIN64 => MS_X64_ABI
  end.

Inductive BinaryArgLocation : Type :=
  | BINARY_ARG_IN_GP_REGISTER (gp_register : BinaryGpRegister)
  | BINARY_ARG_IN_XMM_REGISTER (xmm_register : BinaryXmmRegister)
  | BINARY_ARG_ON_STACK (stack_offset : Z).

#[export] Instance BinaryArgLocation_eq_dec : EqDecision BinaryArgLocation.
Proof. solve_decision. Defined.

(** The registers used so far, the arguments seen and the stack taken. *)
Record ArgCursor : Type := mkCursor {
  int_used : nat;
  float_used : nat;
  positional : nat;
  stack_cursor : Z }.

Definition on_stack (s : ArgCursor) : option (BinaryArgLocation * ArgCursor) :=
  cursor ← int (stack_cursor s + BINARY_FUNCTION_STACK_SLOT_SIZE);
  Some (BINARY_ARG_ON_STACK (stack_cursor s),
        mkCursor (int_used s) (float_used s) (positional s) cursor).

Definition place_argument (abi : BinaryAbi) (s : ArgCursor) (wants_float : bool)
    : option (BinaryArgLocation * ArgCursor) :=
  if counts_classes_separately abi then
    if wants_float then
      match float_param_registers abi !! float_used s with
      | Some x => Some (BINARY_ARG_IN_XMM_REGISTER x,
                        mkCursor (int_used s) (S (float_used s)) (positional s) (stack_cursor s))
      | None => on_stack s
      end
    else
      match int_param_registers abi !! int_used s with
      | Some r => Some (BINARY_ARG_IN_GP_REGISTER r,
                        mkCursor (S (int_used s)) (float_used s) (positional s) (stack_cursor s))
      | None => on_stack s
      end
  else
    let next := mkCursor (int_used s) (float_used s) (S (positional s)) (stack_cursor s) in
    if positional s <? length (int_param_registers abi) then
      if wants_float then
        x ← float_param_registers abi !! positional s; Some (BINARY_ARG_IN_XMM_REGISTER x, next)
      else
        r ← int_param_registers abi !! positional s; Some (BINARY_ARG_IN_GP_REGISTER r, next)
    else
      let offset := s32 (Z.of_nat (positional s - length (int_param_registers abi)) *
                         BINARY_FUNCTION_STACK_SLOT_SIZE) in
      last ← int (offset + BINARY_FUNCTION_STACK_SLOT_SIZE);
      Some (BINARY_ARG_ON_STACK offset,
            mkCursor (int_used s) (float_used s) (S (positional s)) (Z.max (stack_cursor s) last)).

Fixpoint place_arguments (abi : BinaryAbi) (s : ArgCursor) (is_float : list bool)
    : option (list BinaryArgLocation * Z) :=
  match is_float with
  | [] => Some ([], stack_cursor s)
  | f :: rest =>
      '(l, s) ← place_argument abi s f;
      '(ls, bytes) ← place_arguments abi s rest;
      Some (l :: ls, bytes)
  end.

(** The places of the arguments and the bytes of stack they need. *)
Definition code_generator_binary_compute_arg_layout (abi : BinaryAbi) (is_float : list bool)
    : option (list BinaryArgLocation * Z) :=
  place_arguments abi (mkCursor 0 0 0 0) is_float.

(** ** The stack frame *)

Definition BINARY_STACK_PAGE_SIZE : Z := 4096.

Definition binary_emit_stack_probe_touch : Emit () := raw_bytes [0xF6; 0x04; 0x24; 0x00]%Z.

(** Pages while more than one remains. *)
Fixpoint probe_pages (fuel : nat) (remaining : Z) : Emit () :=
  match fuel with
  | S fuel =>
      if (BINARY_STACK_PAGE_SIZE <? remaining)%Z then
        binary_emit_sub_rsp_imm32 BINARY_STACK_PAGE_SIZE ;;
        binary_emit_stack_probe_touch ;;
        probe_pages fuel (remaining - BINARY_STACK_PAGE_SIZE)
      else
        binary_emit_sub_rsp_imm32 remaining ;;
        binary_emit_stack_probe_touch
  | O => refuse
  end.

Definition binary_emit_frame_allocation (frame_size : Z) : Emit () :=
  if (frame_size <=? 0)%Z then mret ()
  else if (frame_size <=? BINARY_STACK_PAGE_SIZE)%Z then binary_emit_sub_rsp_imm32 frame_size
  else probe_pages (S (Z.to_nat (frame_size / BINARY_STACK_PAGE_SIZE))) frame_size.

(** Runs an operation on each element, in order. *)
Fixpoint for_each {A} (f : A → Gen ()) (l : list A) : Gen () :=
  match l with
  | [] => mret ()
  | a :: l => f a ;; for_each f l
  end.

Definition of_option_gen {A} (x : option A) : Gen A := match x with Some a => mret a | None => fail end.

(** ** The function *)

Section function.
Context (g : CodeGenerator) (context : BinaryFunctionContext) (abi : BinaryAbi).

Definition save_register (p : BinaryGpRegister * Z) : Emit () :=
  binary_emit_mov_mem_reg BINARY_GP_RBP (- p.2) p.1.

(** One parameter: from where it arrives to its register or its slot. *)
Definition home_parameter (p : (string * string) * BinaryArgLocation) : Gen () :=
  let '((name, type_name), location) := p in
  let bits := code_generator_binary_named_type_float_bits g (Some type_name) in
  let home := code_generator_binary_get_parameter_offset context name in
  let to_gp (r : BinaryGpRegister) (x : BinaryXmmRegister) :=
    if (bits =? 32)%Z then binary_emit_movd_reg_xmm r x else binary_emit_movq_reg_xmm r x in
  if (home <=? 0)%Z then fail
  else
    let incoming offset := (16 + shadow_space_size abi + offset)%Z in
    emit
      match code_generator_binary_symbol_assigned_register g context name with
      | Some register =>
          match location with
          | BINARY_ARG_IN_GP_REGISTER r => binary_emit_mov_reg_reg register r
          | BINARY_ARG_IN_XMM_REGISTER x => to_gp register x
          | BINARY_ARG_ON_STACK offset => binary_emit_mov_reg_mem register BINARY_GP_RBP (incoming offset)
          end
      | None =>
          match location with
          | BINARY_ARG_IN_XMM_REGISTER x =>
              to_gp BINARY_GP_RAX x ;; binary_emit_mov_mem_reg BINARY_GP_RBP (- home) BINARY_GP_RAX
          | BINARY_ARG_IN_GP_REGISTER r => binary_emit_mov_mem_reg BINARY_GP_RBP (- home) r
          | BINARY_ARG_ON_STACK offset =>
              binary_emit_mov_reg_mem BINARY_GP_RAX BINARY_GP_RBP (incoming offset) ;;
              binary_emit_mov_mem_reg BINARY_GP_RBP (- home) BINARY_GP_RAX
          end
      end.

Definition code_generator_binary_emit_prologue (data : FunctionDeclaration ASTNode) : Gen () :=
  emit (binary_emit_push_reg BINARY_GP_RBP ;; binary_emit_mov_reg_reg BINARY_GP_RBP BINARY_GP_RSP) ;;
  emit (binary_emit_frame_allocation (frame_size context)) ;;
  for_each (fun p => emit (save_register p)) (zip (saved_registers context) (saved_register_offsets context)) ;;
  (if returns_indirect context
   then emit (binary_emit_mov_mem_reg BINARY_GP_RBP (-8) (indirect_return_register abi))
   else mret ()) ;;
  let hidden := if returns_indirect context then 1 else 0 in
  let floats := map (fun p => negb (code_generator_binary_named_type_float_bits g (Some p.2) =? 0)%Z)
                  (fd_parameters data) in
  '(locations, _) ← of_option_gen (code_generator_binary_compute_arg_layout abi (replicate hidden false ++ floats));
  for_each home_parameter (zip (fd_parameters data) (drop hidden locations)).

(** *** The body *)

Context (emit_other : IRInstruction → Gen ()) (body : code).

(** The fused sequences, in the order they are tried. *)
Definition attempts : list (nat → Gen nat) :=
  [ code_generator_binary_try_skip_scaled_address_shift body;
    code_generator_binary_try_emit_binary_compare_branch_chain g context body;
    code_generator_binary_try_emit_compare_assign_diamond g context body;
    code_generator_binary_try_emit_address_add_load g context body;
    code_generator_binary_try_emit_address_add_store g context body;
    code_generator_binary_try_emit_scaled_address_load g context body;
    code_generator_binary_try_emit_scaled_address_store g context body;
    code_generator_binary_try_emit_binary_cast_chain g context body;
    code_generator_binary_try_emit_binary_expression_chain g context body;
    code_generator_binary_try_emit_compare_branch_zero g context body ].

Definition emit_single (i : nat) : Gen nat :=
  match body !! i with
  | Some instruction => code_generator_binary_emit_instruction g context emit_other instruction ;; mret 1
  | None => fail
  end.

(** One round of the loop: the instructions consumed. *)
Definition emit_next (i : nat) : Gen nat :=
  foldr (fun attempt rest => or_else (attempt i) rest) (emit_single i) attempts.

(** [fuel] bounds the instructions left. *)
Fixpoint emit_body (fuel i : nat) : Gen () :=
  if length body <=? i then mret ()
  else match fuel with
  | O => fail
  | S fuel => consumed ← emit_next i; emit_body fuel (i + consumed)
  end.

(** *** The end of the function *)

Definition restore_register (p : BinaryGpRegister * Z) : Emit () :=
  binary_emit_mov_reg_mem p.1 BINARY_GP_RBP (- p.2).

Definition emit_epilogue : Gen () :=
  for_each (fun p => emit (restore_register p))
    (reverse (zip (saved_registers context) (saved_register_offsets context))) ;;
  emit
    ((if (return_float_bits context =? 32)%Z then binary_emit_movd_xmm_reg BINARY_XMM0 BINARY_GP_RAX
      else mret ()) ;;
     (if (return_float_bits context =? 64)%Z then binary_emit_movq_xmm_reg BINARY_XMM0 BINARY_GP_RAX
      else mret ()) ;;
     binary_emit_mov_reg_reg BINARY_GP_RSP BINARY_GP_RBP ;;
     binary_emit_pop_reg BINARY_GP_RBP ;;
     binary_emit_ret).

Definition patch_label (fixup : string * nat) : Gen () :=
  o ← get_output;
  match binary_label_table_get (labels o) fixup.1 with
  | Some target => emit (binary_function_context_patch_rel32 fixup.2 target)
  | None => fail
  end.

Definition code_generator_binary_resolve_fixups (return_offset : nat) : Gen () :=
  o ← get_output;
  for_each patch_label (label_fixups o) ;;
  for_each (fun fixup => emit (binary_function_context_patch_rel32 fixup return_offset)) (return_fixups o).

(** The code of the function, its jumps patched. *)
Definition emit_function_code (data : FunctionDeclaration ASTNode) : Gen () :=
  code_generator_binary_emit_prologue data ;;
  emit_body (length body) 0 ;;
  o ← get_output;
  emit_epilogue ;;
  code_generator_binary_resolve_fixups (length (out_code o)).

End function.

(** ** Into the object file *)

Definition BINARY_TEXT_SECTION_ALIGNMENT : Z := 16.

Definition add_call_relocation (section : nat) (function_offset : Z) (r : string * nat) : Gen () :=
  with_emitter_only (fun e => done_only
    (binary_emitter_add_relocation e section (function_offset + Z.of_nat r.2) BINARY_RELOCATION_REL32 r.1 0)).

Definition emit_function_section (name : string) : Gen () :=
  text ← with_emitter (fun e =>
    binary_emitter_get_or_create_section e ".text" BINARY_SECTION_TEXT 0 BINARY_TEXT_SECTION_ALIGNMENT);
  with_emitter_only (fun e => binary_emitter_align_section e text BINARY_TEXT_SECTION_ALIGNMENT (byte.of_Z 0x90)) ;;
  o ← get_output;
  s ← of_option_gen (binary_emitter_get_section (emitter o) text);
  with_emitter_only (fun e => done_only
    (binary_emitter_define_symbol true e name BINARY_SYMBOL_GLOBAL (Some text) (bsec_size s)
       (Z.of_nat (length (out_code o))))) ;;
  _ ← with_emitter (fun e => binary_emitter_append_bytes e text (out_code o));
  for_each (add_call_relocation text (bsec_size s)) (call_relocations o).

Definition code_generator_binary_type_is_abi_supported (g : CodeGenerator) (type_name : option string)
    (allow_void : bool) : bool :=
  match code_generator_binary_get_resolved_type g type_name allow_void with
  | None => false
  | t => code_generator_binary_resolved_type_is_abi_supported t allow_void
  end.

Definition code_generator_binary_validate_signature (g : CodeGenerator) (data : FunctionDeclaration ASTNode)
    (ir_parameter_count : nat) : bool :=
  (length (fd_parameters data) =? ir_parameter_count) &&
  code_generator_binary_type_is_abi_supported g (fd_return_type data) true &&
  forallb (fun p => code_generator_binary_type_is_abi_supported g (Some p.2) false) (fd_parameters data).

(** The generator and the object file after the function; [None] is the return value 0. *)
Definition code_generator_emit_binary_function (g : CodeGenerator) (abi : BinaryAbi)
    (emit_other : CodeGenerator → BinaryFunctionContext → IRInstruction → Gen ())
    (data : FunctionDeclaration ASTNode) (ir_parameter_count : nat) (body : code)
    (e : BinaryEmitter) (label_id : Z) : option (CodeGenerator * BinaryEmitter * Z) :=
  if negb (code_generator_binary_validate_signature g data ir_parameter_count) then None
  else
    '(g, context) ← code_generator_binary_prepare_function_context g data body;
    let start := mkOutput [] [] [] [] [] [] e label_id in
    match (emit_function_code g context abi (emit_other g context) body data ;;
           emit_function_section (fd_name data)) start with
    | (Some _, o) => Some (g, emitter o, current_label_id o)
    | (None, _) => None
    end.
