(* ===== verification/FrameFacts.v ===== *)
(** * Code generation: where values live

    The correspondence between a state of the intermediate representation and a state
    of the processor: every temporary and every scalar local has a cell, a slot below
    the frame pointer or a promoted register.  Loading an operand and storing to a
    destination respect it. *)

From stdpp Require Import gmap.
From S2P Require Import Prelude.
From S2P Require Import Types.
From S2P Require Import SymbolTable.
From S2P Require Import IR.
From S2P Require Import IRSemantics.
From S2P Require Import Encoders.
From S2P Require Import X86.
From S2P Require Import X86Facts.
From S2P Require Import EncoderFacts.
From S2P Require Import MemoryFacts.
From S2P Require Import FunctionContext.
From S2P Require Import Operands.

(** ** Emission with the generator's state *)

(** [e] appends code for [p], whatever the output, and changes nothing else. *)
Definition gasm (e : Gen ()) (p : list instr) : Prop :=
  ∃ bytes, (∀ o, e o = (Some (), set_code (out_code o ++ bytes) o)) ∧ codes bytes p.

Lemma gasm_ret : gasm (mret ()) [].
Proof. exists []. split; [intros []; by rewrite app_nil_r|constructor]. Qed.

Lemma gasm_emit e p : asm e unit_result p → gasm (emit e) p.
Proof. intros (bytes & He & Hd). exists bytes. split; [|done]. intros o. unfold emit. by rewrite He. Qed.

Lemma gasm_seq (e1 e2 : Gen ()) p1 p2 : gasm e1 p1 → gasm e2 p2 → gasm (e1 ;; e2) (p1 ++ p2).
Proof.
  intros (b1 & H1 & D1) (b2 & H2 & D2). exists (b1 ++ b2). split; [|by apply codes_app].
  intros o. unfold mbind, Gen_bind. rewrite H1, H2. cbn [out_code set_code]. by rewrite app_assoc.
Qed.

(** From a machine satisfying [P], the code of [e] stops in one satisfying [Q]. *)
Definition triple (P : machine → Prop) (e : Gen ()) (Q : machine → Prop) : Prop :=
  ∃ p, gasm e p ∧ ∀ m, P m → ∃ m', X86.run p m = X86.Next m' ∧ Q m'.

Lemma triple_seq (P Q R : machine → Prop) e1 e2 : triple P e1 Q → triple Q e2 R → triple P (e1 ;; e2) R.
Proof.
  intros (p1 & G1 & H1) (p2 & G2 & H2). exists (p1 ++ p2). split; [by apply gasm_seq|].
  intros m Hm. destruct (H1 m Hm) as (m1 & R1 & Q1). destruct (H2 m1 Q1) as (m2 & R2 & Q2).
  exists m2. by rewrite run_app, R1.
Qed.

Lemma triple_weaken (P P' Q Q' : machine → Prop) e :
  (∀ m, P' m → P m) → (∀ m, Q m → Q' m) → triple P e Q → triple P' e Q'.
Proof.
  intros HP HQ (p & Hg & H). exists p. split; [done|]. intros m Hm.
  destruct (H m (HP m Hm)) as (m' & ? & ?). eauto.
Qed.

Lemma triple_ret P : triple P (mret ()) P.
Proof. exists []. split; [apply gasm_ret|]. intros m Hm. by exists m. Qed.

(** ** Cells *)

Inductive variable : Type := Temp (n : string) | Local (n : string).

#[export] Instance variable_eq_dec : EqDecision variable.
Proof. solve_decision. Defined.

Inductive cell : Type :=
  | In_register (r : BinaryGpRegister)
  | On_stack (offset : Z) (bytes : nat) (signed : bool).

(** The width of the accesses to a slot. *)
Definition access_size (s : Z) : nat :=
  if (s =? 1)%Z then 1 else if (s =? 2)%Z then 2 else if (s =? 4)%Z then 4 else 8.

(** What a variable of the type holds of a value. *)
Definition typed (t : option Type_) (v : Z) : Z :=
  let bits := (Z.of_nat (access_size (slot_size t)) * 8)%Z in
  if (bits =? 64)%Z then v else if slot_signed t then wrap_s bits v else wrap_u bits v.

Definition slot_address (m : machine) (offset : Z) : Z := at_register m BINARY_GP_RBP (- offset).

Definition read_cell (m : machine) (c : cell) : Z :=
  match c with
  | In_register r => regs m r
  | On_stack o n sg =>
      let v := load m n (slot_address m o) in
      if sg then u64 (wrap_s (Z.of_nat n * 8) v) else v
  end.

(** Different registers, or slots that do not overlap. *)
Definition apart (c c' : cell) : Prop :=
  match c, c' with
  | In_register r, In_register r' => r ≠ r'
  | On_stack o n _, On_stack o' n' _ => (o' <= o - Z.of_nat n ∨ o <= o' - Z.of_nat n')%Z
  | _, _ => True
  end.

(** The registers an instruction's code may change besides the promoted ones. *)
Definition scratch : list Z := [0; 1; 2; 10; 11]%Z.

Section frame.
Context {M : Machine} (g : CodeGenerator) (context : BinaryFunctionContext).

Definition local_type (n : string) : option Type_ := symbol_type g (lookup_symbol g n).

(** The cell of a scalar local or parameter; [None] for strings, aggregates, globals. *)
Definition local_cell (name : string) : option cell :=
  let type := local_type name in
  let offset := code_generator_binary_get_symbol_offset context name in
  if (0 <? offset)%Z && in_table (string_symbols context) name then None
  else if is_kind TYPE_STRING type then None
  else match code_generator_binary_symbol_assigned_register g context name with
  | Some r => Some (In_register r)
  | None =>
      if code_generator_binary_type_is_direct_aggregate type then None
      else if (offset <=? 0)%Z then None
      else if negb (code_generator_binary_symbol_is_scalar_accessible g name) then None
      else Some (On_stack offset (access_size (slot_size type)) (slot_signed type))
  end.

Definition cell_of (x : variable) : option cell :=
  match x with
  | Temp n =>
      let offset := code_generator_binary_get_temp_offset context n in
      if (offset <=? 0)%Z then None else Some (On_stack offset 8 false)
  | Local n => local_cell n
  end.

(** The name at the end of a chain of aliases. *)
Fixpoint follow (fuel : nat) (name : string) : option string :=
  match binary_symbol_alias_table_get (symbol_aliases context) name with
  | Some target => match fuel with S f => follow f target | O => None end
  | None => Some name
  end.
Definition resolve (name : string) : option string := follow (length (symbol_aliases context)) name.

(** The cells are apart and lie in the 2^31 bytes below the frame pointer. *)
Record frame_ok : Prop := {
  cells_apart : ∀ x y c c', x ≠ y → cell_of x = Some c → cell_of y = Some c' → apart c c';
  cells_below : ∀ x o n sg, cell_of x = Some (On_stack o n sg) → (Z.of_nat n <= o <= 2 ^ 31)%Z }.

(** Temporaries whose cells may hold anything: those of fused instructions, which are
    computed and never stored. *)
Context (dead : string → Prop).

(** The machine when the frame was set up. *)
Context (before : machine).

(** The address is in the slot of a cell. *)
Definition in_slot (a : Z) : Prop :=
  ∃ x o n sg, cell_of x = Some (On_stack o n sg) ∧
    (slot_address before o <= a < slot_address before o + Z.of_nat n)%Z.

(** A register with another use than the function's values. *)
Definition foreign (r : Z) : Prop :=
  r ∉ scratch ∧ ∀ x q, cell_of x = Some (In_register q) → r ≠ gp_code q.

(** All cells but that of [hole] hold the values of [st]; registers and memory that
    are no cells are as they were. *)
Record represents_but (hole : option variable) (st : mstate world) (m : machine) : Prop := {
  rep_ok : machine_ok m;
  rep_frame : (2 ^ 31 <= regs m BINARY_GP_RBP)%Z;
  rep_foreign : ∀ r, foreign r → regs m r = regs before r;
  rep_outside : ∀ a, (0 <= a < 2 ^ 64)%Z → ¬ in_slot a → X86.memory m a = X86.memory before a;
  rep_temps : ∀ n v c, Some (Temp n) ≠ hole → ¬ dead n →
    temps st !! n = Some v → cell_of (Temp n) = Some c → read_cell m c = u64 v;
  rep_locals : ∀ n n' v c, Some (Local n') ≠ hole →
    syms st !! n = Some v → resolve n = Some n' → cell_of (Local n') = Some c →
    read_cell m c = u64 v ∧ typed (local_type n') v = v }.

Definition represents : mstate world → machine → Prop := represents_but None.

(** ** Registers of cells *)

Lemma assigned_nonvolatile name r :
  code_generator_binary_symbol_assigned_register g context name = Some r →
  code_generator_binary_gp_register_is_win64_nonvolatile r = true.
Proof.
  unfold code_generator_binary_symbol_assigned_register.
  destruct (in_table _ _); [done|]. destruct (_ <=? 0)%Z; [done|].
  destruct (match symbol_type g (lookup_symbol g name) with Some _ => _ | None => _ end); [done|].
  match goal with |- match ?x with _ => _ end = _ → _ => destruct x as [r'|] eqn:Hr end.
  - intros [= ->]. apply bind_Some in Hr as (r1 & _ & Hr). simplify_option_eq. by apply Is_true_true.
  - intros H. clear Hr. do 4 (apply bind_Some in H as (? & _ & H)). simplify_option_eq. by apply Is_true_true.
Qed.

Lemma nonvolatile_kept r rs :
  code_generator_binary_gp_register_is_win64_nonvolatile r = true → rs ⊆ scratch → gp_code r ∉ rs.
Proof.
  intros Hr Hs Hin%Hs%(bool_decide_eq_true_2 _). by destruct r; vm_compute in Hin, Hr.
Qed.

Lemma local_cell_register name r :
  local_cell name = Some (In_register r) →
  code_generator_binary_symbol_assigned_register g context name = Some r.
Proof. unfold local_cell. intros H. repeat case_match; by simplify_eq. Qed.

Lemma read_cell_changes rs m m' c :
  changes rs m m' → gp_code BINARY_GP_RBP ∉ rs →
  (∀ r, c = In_register r → gp_code r ∉ rs) → read_cell m' c = read_cell m c.
Proof.
  intros (Hm & Hr & _) Hbp Hc. destruct c as [r|o n sg]; simpl.
  - apply Hr, (Hc r eq_refl).
  - assert (slot_address m' o = slot_address m o) as ->.
    { unfold slot_address, at_register. by rewrite Hr. }
    unfold load. by rewrite Hm.
Qed.

Lemma rbp_not_scratch rs : rs ⊆ scratch → gp_code BINARY_GP_RBP ∉ rs.
Proof. intros Hs Hin%Hs%(bool_decide_eq_true_2 _). by vm_compute in Hin. Qed.

Lemma rbp_foreign : foreign BINARY_GP_RBP.
Proof.
  split; [intros Hin%(bool_decide_eq_true_2 _); by vm_compute in Hin|].
  intros [n|n] q Hq He%gp_code_inj; cbn [cell_of] in Hq; [by case_match|].
  subst q. by apply local_cell_register, assigned_nonvolatile in Hq.
Qed.

(** The frame stays where it is. *)
Lemma rep_base hole st m o : represents_but hole st m → slot_address m o = slot_address before o.
Proof. intros Hm. unfold slot_address, at_register. by rewrite (rep_foreign _ _ _ Hm _ rbp_foreign). Qed.

(** Code that changes scratch registers only keeps the correspondence. *)
Lemma represents_changes hole rs st m m' :
  rs ⊆ scratch → changes rs m m' → represents_but hole st m → represents_but hole st m'.
Proof.
  intros Hs Hc [Hok Hf Hreg Hmem Ht Hl]. pose proof (rbp_not_scratch rs Hs) as Hbp.
  assert (∀ x c, cell_of x = Some c → read_cell m' c = read_cell m c) as Hread.
  { intros x c Hx. apply (read_cell_changes rs); [done..|]. intros r ->.
    destruct x as [n|n]; simpl in Hx; [by case_match|].
    eapply nonvolatile_kept, Hs. by eapply assigned_nonvolatile, local_cell_register. }
  pose proof Hc as (Hm & Hr & Hk). split.
  - auto.
  - by rewrite Hr.
  - intros r Hf'. rewrite Hr; [auto|]. intros Hin. by apply (proj1 Hf'), Hs.
  - rewrite Hm. done.
  - intros n v c Hh Hd Hv Hx. rewrite (Hread _ _ Hx). eauto.
  - intros n n' v c Hh Hv Hres Hx. rewrite (Hread _ _ Hx). eauto.
Qed.

(** ** Loading operands *)

(** Code that leaves [v] in [r] from every machine that satisfies [P], changing no
    other register. *)
Definition leaves_from (P : machine → Prop) (e : Gen ()) (r v : Z) : Prop :=
  ∃ p, gasm e p ∧ ∀ m, P m → leaves p [r] m r v.

Lemma leaves_from_yields P e r f v :
  yields e [r] r f → (∀ m, P m → machine_ok m ∧ f m = v) → leaves_from P (emit e) r v.
Proof.
  intros (p & Ha & Hl) Hf. exists p. split; [by apply gasm_emit|]. intros m Hm.
  destruct (Hf m Hm) as [Hok <-]. by apply Hl.
Qed.

(** What an operand needs to be loaded: a cell. *)
Definition readable (x : IROperand) : Prop :=
  match x with
  | IR_OPERAND_INT k => in_s64 k
  | IR_OPERAND_TEMP n _ => ¬ dead n ∧ is_Some (cell_of (Temp n))
  | IR_OPERAND_SYMBOL n _ => ∃ n', resolve n = Some n' ∧ is_Some (cell_of (Local n'))
  | _ => False
  end.

Section loads.
Context (Hframe : frame_ok).

Lemma slot_in_int32 x o n sg : cell_of x = Some (On_stack o n sg) → in_int32 (- o).
Proof using Hframe. intros Hc. pose proof (cells_below Hframe _ _ _ _ Hc). unfold in_int32. lia. Qed.

Lemma access_size_cases s :
  access_size s = 1 ∧ s = 1%Z ∨ access_size s = 2 ∧ s = 2%Z ∨ access_size s = 4 ∧ s = 4%Z ∨
  access_size s = 8 ∧ s ≠ 1%Z ∧ s ≠ 2%Z ∧ s ≠ 4%Z.
Proof.
  unfold access_size. destruct (Z.eqb_spec s 1), (Z.eqb_spec s 2), (Z.eqb_spec s 4); auto 10.
Qed.

Lemma wrap_s_u64 w v : (0 < w <= 64)%Z → wrap_s w (u64 v) = wrap_s w v.
Proof.
  intros Hw. apply wrap_s_eq; [lia|]. unfold wrap_u. symmetry.
  symmetry. apply Z.mod_mod_divide. exists (2 ^ (64 - w))%Z.
  rewrite <- Z.pow_add_r by lia. f_equal. lia.
Qed.

(** The extension of what a slot load leaves is what the cell holds. *)
Lemma yields_extend (e x : Emit ()) (r : BinaryGpRegister) (sg : bool) f (h : Z → Z) :
  yields e [gp_code r] r f → yields x [gp_code r] r (fun m => h (regs m r)) →
  yields (e ;; (if sg then x else mret ())) [gp_code r] r (fun m => if sg : bool then h (f m) else f m).
Proof.
  intros He Hx. destruct sg.
  - by apply (yields_then _ _ _ _ h).
  - destruct He as (p & Ha & Hl). exists (p ++ []). split; [by apply asm_seq, asm_ret|].
    by rewrite app_nil_r.
Qed.

Lemma yields_stack_load type o (r : BinaryGpRegister) :
  in_int32 (- o) → (0 < o)%Z →
  yields (code_generator_binary_emit_symbol_stack_load type o r) [gp_code r] r
    (fun m => read_cell m (On_stack o (access_size (slot_size type)) (slot_signed type))).
Proof.
  intros Hd Ho. unfold code_generator_binary_emit_symbol_stack_load.
  rewrite (proj2 (Z.leb_gt o 0)) by done.
  destruct (access_size_cases (slot_size type)) as [[-> ->]|[[-> ->]|[[-> ->]|(-> & H1 & H2 & H4)]]].
  - apply (yields_extend _ _ r _ _ (fun v => u64 (wrap_s 8 v))); [by apply yields_load8|apply yields_movsx8].
  - apply (yields_extend _ _ r _ _ (fun v => u64 (wrap_s 16 v))); [by apply yields_load16|apply yields_movsx16].
  - apply (yields_extend _ _ r _ _ (fun v => u64 (s32 v))); [by apply yields_load32|apply yields_movsxd].
  - rewrite !(proj2 (Z.eqb_neq _ _)) by done.
    eapply yields_eq; [by apply yields_load64|]. intros m Hm. simpl. destruct (slot_signed type); [|done].
    change (wrap_s (Z.of_nat 8 * 8)) with s64. by rewrite u64_s64, load_64.
Qed.

(** What a move between registers keeps of a value of the type. *)
Definition moved (t : option Type_) (v : Z) : Z :=
  if (slot_size t =? 4)%Z then (if slot_signed t then u64 (s32 v) else u32 v) else v.

Lemma yields_move t (d s : BinaryGpRegister) :
  d ≠ s → yields (code_generator_binary_emit_reg_reg_move d s t) [gp_code d] d (fun m => moved t (regs m s)).
Proof.
  intros Hne. unfold code_generator_binary_emit_reg_reg_move, moved.
  rewrite (proj2 (Z.eqb_neq d s)) by (intros He; by apply gp_code_inj in He).
  fold (slot_size t). fold (slot_signed t).
  destruct (slot_size t =? 4)%Z; [|apply yields_mov].
  destruct (slot_signed t); [apply yields_movsxd|by apply yields_mov32].
Qed.

Lemma moved_typed t v : typed t v = v → moved t (u64 v) = u64 v.
Proof.
  unfold typed, moved. destruct (Z.eqb_spec (slot_size t) 4) as [->|]; [|done].
  change (Z.of_nat (access_size 4) * 8)%Z with 32%Z. cbn [Z.eqb Pos.eqb].
  destruct (slot_signed t); intros Hv.
  - by rewrite (wrap_s_u64 32), Hv.
  - rewrite <- Hv. rewrite (u64_id (u32 v)); [unfold wrap_u; by apply Z.mod_mod|].
    pose proof (wrap_u_range 32 v). lia.
Qed.

Lemma operand_load_follow fuel n n' bits r :
  follow fuel n = Some n' →
  operand_load g context fuel (IR_OPERAND_SYMBOL n bits) r = load_symbol g context n' r.
Proof.
  revert n. induction fuel as [|f IH]; intros n; simpl; destruct (binary_symbol_alias_table_get _ n);
    intros H; simplify_eq; auto.
Qed.

Lemma assigned_offset name r :
  code_generator_binary_symbol_assigned_register g context name = Some r →
  (0 < code_generator_binary_get_symbol_offset context name)%Z.
Proof.
  unfold code_generator_binary_symbol_assigned_register.
  destruct (in_table _ _); [done|]. by destruct (Z.leb_spec (code_generator_binary_get_symbol_offset context name) 0).
Qed.

Lemma load_symbol_leaves (P : machine → Prop) n c (r : BinaryGpRegister) v :
  local_cell n = Some c →
  (∀ m, P m → machine_ok m ∧ read_cell m c = u64 v ∧ typed (local_type n) v = v) →
  leaves_from P (load_symbol g context n r) r (u64 v).
Proof using Hframe.
  intros Hc HP. pose proof (slot_in_int32 (Local n)) as Hslot. simpl in Hslot. rewrite Hc in Hslot.
  unfold local_cell in Hc. unfold load_symbol. fold (local_type n).
  set (offset := code_generator_binary_get_symbol_offset context n) in *.
  destruct ((0 <? offset)%Z && _); [done|]. destruct (is_kind TYPE_STRING (local_type n)); [done|].
  destruct (code_generator_binary_symbol_assigned_register g context n) as [a|].
  - injection Hc as <-. destruct (Z.eqb_spec r a) as [He|Hne].
    + apply gp_code_inj in He as ->. exists []. split; [apply gasm_ret|]. intros m Hm.
      destruct (HP m Hm) as (_ & <- & _). apply leaves_nil.
    + eapply leaves_from_yields; [apply yields_move; by intros ->|].
      intros m Hm. destruct (HP m Hm) as (Hok & Hv & Ht). split; [done|]. simpl in Hv. rewrite Hv.
      by apply moved_typed.
  - destruct (code_generator_binary_type_is_direct_aggregate (local_type n)); [done|].
    rewrite andb_false_r. destruct (Z.leb_spec offset 0); [done|].
    destruct (negb _); [done|]. injection Hc as <-.
    eapply leaves_from_yields; [apply yields_stack_load; [by eapply Hslot|done]|].
    intros m Hm. destruct (HP m Hm) as (? & ? & _). done.
Qed.

(** A readable operand's value is loaded. *)
Lemma load_leaves st x v (r : BinaryGpRegister) :
  readable x → eval st x = Some v →
  leaves_from (represents st) (code_generator_binary_emit_operand_load g context x r) r (u64 v).
Proof using Hframe.
  intros Hx Hv. destruct x as [|n b|n b|k| | |]; try done; cbn [readable eval] in Hx, Hv.
  - apply fmap_Some in Hv as (w & Hw & ->). destruct Hx as [Hdead [c Hc]]. cbn [cell_of] in Hc.
    unfold code_generator_binary_emit_operand_load.
    assert (∀ f, operand_load g context f (IR_OPERAND_TEMP n b) r =
      if (code_generator_binary_get_temp_offset context n <=? 0)%Z then fail
      else emit (code_generator_binary_emit_temp_stack_load (code_generator_binary_get_temp_offset context n) r None)) as ->
      by by intros [].
    pose proof (slot_in_int32 (Temp n)) as Hslot. cbn [cell_of] in Hslot.
    destruct (Z.leb_spec (code_generator_binary_get_temp_offset context n) 0) as [|Ho]; [done|].
    unfold code_generator_binary_emit_temp_stack_load. rewrite (proj2 (Z.leb_gt _ 0)) by done.
    eapply leaves_from_yields; [apply yields_load64; by eapply Hslot|]. intros m Hm.
    split; [apply Hm|]. rewrite u64_s64. apply (rep_temps _ _ _ Hm n w (On_stack _ 8 false)); [done|done|done|].
    cbn [cell_of]. by rewrite (proj2 (Z.leb_gt _ 0)).
  - apply fmap_Some in Hv as (w & Hw & ->). destruct Hx as (n' & Hn' & [c Hc]).
    unfold code_generator_binary_emit_operand_load. rewrite (operand_load_follow _ _ n') by done.
    rewrite u64_s64. eapply load_symbol_leaves; [exact Hc|]. intros m Hm.
    split; [apply Hm|]. by apply (rep_locals _ _ _ Hm n n' w c).
  - injection Hv as <-. unfold code_generator_binary_emit_operand_load.
    assert (∀ f, operand_load g context f (IR_OPERAND_INT k) r = emit (binary_emit_mov_reg_imm64 r (u64 k))) as ->
      by by intros [].
    eapply leaves_from_yields; [apply yields_mov_imm64, u64_range|]. intros m Hm. split; [apply Hm|]. by rewrite u64_s64.
Qed.

(** ** Storing to destinations *)

Lemma represents_hole st h m : represents st m → represents_but h st m.
Proof. intros [Hok Hf Hreg Hmem Ht Hl]. split; eauto. Qed.

(** Everything a change keeps, but for the cell of [x]. *)
Lemma represents_frame x st m m' :
  machine_ok m' → regs m' BINARY_GP_RBP = regs m BINARY_GP_RBP →
  (∀ r, foreign r → regs m' r = regs m r) →
  (∀ a, (0 <= a < 2 ^ 64)%Z → ¬ in_slot a → X86.memory m' a = X86.memory m a) →
  (∀ y c, y ≠ x → cell_of y = Some c → read_cell m' c = read_cell m c) →
  represents st m → represents_but (Some x) st m'.
Proof.
  intros Hok' Hbp Hr' Hm' Hread [Hok Hf Hreg Hmem Ht Hl].
  split; [done|by rewrite Hbp|by intros r Hr; rewrite Hr', Hreg|by intros a Ha Hs; rewrite Hm', Hmem| |].
  - intros n v c Hh Hd Hv Hc. rewrite (Hread (Temp n)) by congruence. eauto.
  - intros n n' v c Hh Hv Hr Hc. rewrite (Hread (Local n')) by congruence. eauto.
Qed.

Lemma represents_register x r rs st m m' :
  cell_of x = Some (In_register r) → changes rs m m' → (∀ q, q ∈ rs → q = gp_code r ∨ q ∈ scratch) →
  represents st m → represents_but (Some x) st m'.
Proof using Hframe.
  intros Hx Hc Hrs Hrep. pose proof Hc as (Hm & Hr & Hk).
  assert (∀ y q, cell_of y = Some (In_register q) → code_generator_binary_gp_register_is_win64_nonvolatile q = true) as Hnv.
  { intros [n|n] q Hq; simpl in Hq; [by case_match|]. by eapply assigned_nonvolatile, local_cell_register. }
  assert (gp_code BINARY_GP_RBP ∉ rs) as Hbp.
  { intros [He|He%(bool_decide_eq_true_2 _)]%Hrs; [|by vm_compute in He].
    apply gp_code_inj in He as <-. by apply Hnv in Hx. }
  apply (represents_frame x st m m'); [apply Hk, Hrep|by apply Hr| |by rewrite Hm| |done].
  { intros q [Hq Hfor]. apply Hr. intros [->|Hin]%Hrs; [|done]. by apply (Hfor x r). }
  intros y c Hy Hcy. eapply read_cell_changes; [done|done|]. intros q ->.
  intros [He|He]%Hrs.
  - apply gp_code_inj in He as ->. by apply (cells_apart Hframe x y _ _ (not_eq_sym Hy) Hx Hcy).
  - by apply (nonvolatile_kept q scratch (Hnv _ _ Hcy)) in He.
Qed.

Lemma slot_in_memory x o n sg st m h :
  cell_of x = Some (On_stack o n sg) → represents_but h st m →
  in_memory (slot_address m o) n ∧ slot_address m o = (regs m BINARY_GP_RBP - o)%Z.
Proof using Hframe.
  intros Hx Hrep. pose proof (cells_below Hframe _ _ _ _ Hx). pose proof (rep_frame _ _ _ Hrep).
  pose proof (rep_ok _ _ _ Hrep BINARY_GP_RBP).
  assert (slot_address m o = (regs m BINARY_GP_RBP - o)%Z) as Ha.
  { unfold slot_address, at_register. rewrite u64_id by lia. lia. }
  split; [|done]. unfold in_memory. lia.
Qed.

Lemma represents_store x o n sg st m v :
  cell_of x = Some (On_stack o n sg) → represents st m →
  represents_but (Some x) st (store m n (slot_address m o) v).
Proof using Hframe.
  intros Hx Hrep. apply (represents_frame x st m _); [apply Hrep|done|done| | |done].
  { intros a Ha Hs. apply store_elsewhere; [done|by eapply slot_in_memory|].
    intros Hin. apply Hs. exists x, o, n, sg. split; [done|]. by rewrite <- (rep_base _ _ _ _ Hrep). }
  intros y c Hy Hcy. destruct c as [r|o' n' sg']; [done|]. simpl.
  change (slot_address (store m n (slot_address m o) v) o') with (slot_address m o').
  destruct (slot_in_memory _ _ _ _ _ _ _ Hx Hrep) as [Hm Ha].
  destruct (slot_in_memory _ _ _ _ _ _ _ Hcy Hrep) as [Hm' Ha'].
  rewrite load_store_other; [done..|].
  pose proof (cells_apart Hframe x y _ _ (not_eq_sym Hy) Hx Hcy) as Hap. simpl in Hap. rewrite Ha, Ha'. lia.
Qed.

Lemma wrap_u_u64 w v : (0 <= w <= 64)%Z → wrap_u w (u64 v) = wrap_u w v.
Proof.
  intros Hw. unfold wrap_u. apply Z.mod_mod_divide. exists (2 ^ (64 - w))%Z.
  rewrite <- Z.pow_add_r by lia. f_equal. lia.
Qed.

Lemma u64_wrap_u w v : (0 <= w <= 64)%Z → u64 (wrap_u w v) = wrap_u w v.
Proof.
  intros Hw. apply u64_id. pose proof (wrap_u_range w v ltac:(lia)).
  assert (2 ^ w <= 2 ^ 64)%Z by (apply Z.pow_le_mono_r; lia). lia.
Qed.

(** A narrow field of a pattern, extended, is the value narrowed. *)
Lemma narrowed_pattern n (sg : bool) v :
  0 < n ≤ 8 →
  let w := (Z.of_nat n * 8)%Z in
  (if sg then u64 (wrap_s w (wrap_u w (u64 v))) else wrap_u w (u64 v)) =
  u64 (if (w =? 64)%Z then s64 v else if sg then wrap_s w (s64 v) else wrap_u w (s64 v)).
Proof.
  intros Hn w. assert (0 < w <= 64)%Z as Hw by lia.
  rewrite wrap_s_wrap_u, wrap_s_u64, wrap_u_u64 by lia.
  rewrite <- (wrap_s_u64 w (s64 v)), <- (wrap_u_u64 w (s64 v)), u64_s64, wrap_s_u64, wrap_u_u64 by lia.
  destruct (Z.eqb_spec w 64) as [->|]; destruct sg; rewrite ?u64_s64, ?u64_wrap_u by lia; done.
Qed.

(** What a slot holds after a store. *)
Lemma read_stored x o st m h t v :
  cell_of x = Some (On_stack o (access_size (slot_size t)) (slot_signed t)) → represents_but h st m →
  read_cell (store m (access_size (slot_size t)) (slot_address m o) (u64 v))
    (On_stack o (access_size (slot_size t)) (slot_signed t)) = u64 (typed t (s64 v)).
Proof using Hframe.
  intros Hx Hrep. destruct (slot_in_memory _ _ _ _ _ _ _ Hx Hrep) as [Hm _]. simpl.
  set (n := access_size (slot_size t)) in *.
  change (slot_address (store m n (slot_address m o) (u64 v)) o) with (slot_address m o).
  rewrite load_store_same by done. change ((u64 v) mod ?k)%Z with (wrap_u (Z.of_nat n * 8) (u64 v)).
  unfold typed. fold n. apply narrowed_pattern.
  destruct (access_size_cases (slot_size t)) as [[]|[[]|[[]|[]]]]; subst n; lia.
Qed.

(** No other variable of the state shares the cell of [n] as an alias. *)
Definition unshared (n : string) (st : mstate world) : Prop :=
  resolve n = Some n ∧ ∀ n' v, n' ≠ n → syms st !! n' = Some v → resolve n' ≠ Some n.

Lemma fill_temp n v st m :
  represents_but (Some (Temp n)) st m →
  (∀ c, cell_of (Temp n) = Some c → read_cell m c = u64 v) → represents (write_temp n v st) m.
Proof.
  intros [Hok Hf Hreg Hmem Ht Hl] Hc. split; [done|done|done|done| |].
  - intros n' v' c _ Hd Hv Hx. cbn [temps write_temp] in Hv. destruct (decide (n' = n)) as [->|Hne].
    + rewrite lookup_insert_eq in Hv. injection Hv as <-. rewrite u64_s64. auto.
    + rewrite lookup_insert_ne in Hv by done. apply (Ht n'); congruence.
  - intros n' n'' v' c _ Hv Hr Hx. by apply (Hl n' n'').
Qed.

Lemma fill_local n v st m :
  unshared n st → represents_but (Some (Local n)) st m →
  (∀ c, cell_of (Local n) = Some c →
     read_cell m c = u64 (narrow n (s64 v)) ∧ typed (local_type n) (narrow n (s64 v)) = narrow n (s64 v)) →
  represents (write_sym n v st) m.
Proof.
  intros [Hres Hun] [Hok Hf Hreg Hmem Ht Hl] Hc. split; [done|done|done|done| |].
  - intros n' v' c _ Hd Hv Hx. by apply (Ht n').
  - intros n' n'' v' c _ Hv Hr Hx. cbn [syms write_sym] in Hv. destruct (decide (n' = n)) as [->|Hne].
    + rewrite lookup_insert_eq in Hv. injection Hv as <-. rewrite Hres in Hr. injection Hr as <-. auto.
    + rewrite lookup_insert_ne in Hv by done. apply (Hl n' n''); [|done..].
      intros [= ->]. by eapply Hun.
Qed.

(** The stores of the intermediate representation keep what a variable of its type
    holds. *)
Definition narrows_as_typed : Prop :=
  ∀ n v, is_Some (cell_of (Local n)) → in_s64 v → narrow n v = typed (local_type n) v.

(** A destination with a cell; a value stored to a promoted variable has to fit it. *)
Definition writable (d : IROperand) (v : Z) (st : mstate world) : Prop :=
  match d with
  | IR_OPERAND_TEMP n _ => is_Some (cell_of (Temp n))
  | IR_OPERAND_SYMBOL n _ =>
      unshared n st ∧ is_Some (cell_of (Local n)) ∧
      ∀ r, cell_of (Local n) = Some (In_register r) → narrow n (s64 v) = s64 v
  | _ => False
  end.

Lemma typed_idem t v : typed t (typed t v) = typed t v.
Proof.
  unfold typed. assert (0 < Z.of_nat (access_size (slot_size t)) * 8)%Z.
  { destruct (access_size_cases (slot_size t)) as [[]|[[]|[[]|[]]]]; lia. }
  destruct (_ =? 64)%Z; [done|]. destruct (slot_signed t).
  - apply wrap_s_id; [done|]. by apply wrap_s_range.
  - unfold wrap_u. apply Z.mod_mod. lia.
Qed.

Lemma leaves_in_register x a rs st m p v :
  cell_of x = Some (In_register a) → rs ⊆ [gp_code a] → represents st m → leaves p rs m a v →
  ∃ m', X86.run p m = X86.Next m' ∧ represents_but (Some x) st m' ∧ regs m' a = v.
Proof using Hframe.
  intros Hx Hs Hm (m' & Hr & Hc & Hv). exists m'. split_and!; [done| |done].
  apply (represents_register x a rs st m); [done|done| |done].
  intros q Hq%Hs%list_elem_of_singleton. by left.
Qed.

Section stores.
Context (Hnarrow : narrows_as_typed).

(** A promoted variable that was given [v]. *)
Lemma fill_promoted n a v st m :
  cell_of (Local n) = Some (In_register a) → unshared n st → narrow n (s64 v) = s64 v →
  represents_but (Some (Local n)) st m → regs m a = u64 v → represents (write_sym n v st) m.
Proof using Hnarrow.
  intros Ha Hun Hfit Hm Hv. apply fill_local; [done|done|]. intros c Hc. rewrite Ha in Hc. injection Hc as <-.
  rewrite Hfit, u64_s64. split; [done|]. rewrite <- Hnarrow; [done|by eexists|apply s64_range].
Qed.

Lemma store_correct d (r : BinaryGpRegister) v st st' :
  gp_code r ∈ scratch → writable d v st → write d v st = Some st' →
  triple (fun m => represents st m ∧ regs m r = u64 v)
    (code_generator_binary_emit_destination_store g context d r) (represents st').
Proof using Hframe Hnarrow.
  intros Hr Hd Hw. destruct d as [|n b|n b| | | |]; try done; cbn [write writable] in Hw, Hd; injection Hw as <-;
    cbn [code_generator_binary_emit_destination_store].
  - destruct Hd as [c Hc]. pose proof Hc as Hc'. cbn [cell_of] in Hc.
    destruct (Z.leb_spec (code_generator_binary_get_temp_offset context n) 0) as [|Ho]; [done|]. injection Hc as <-.
    destruct (writes_64 BINARY_GP_RBP r _ (slot_in_int32 _ _ _ _ Hc')) as (p & Ha & Hrun).
    exists p. split; [by apply gasm_emit|]. intros m [Hm Hv]. eexists. split; [apply Hrun, Hm|].
    apply fill_temp; [by eapply (represents_store (Temp n))|]. intros c Hc. rewrite Hc' in Hc. injection Hc as <-.
    destruct (slot_in_memory _ _ _ _ _ _ _ Hc' Hm) as [Hin _]. simpl.
    change (slot_address (store m 8 ?a ?w) ?o) with (slot_address m o).
    rewrite load_store_same by done. change (regs m r mod ?k)%Z with (u64 (regs m r)). by rewrite Hv, u64_idem.
  - destruct Hd as (Hun & [c Hc] & Hfit). pose proof Hc as Hc'. pose proof (slot_in_int32 (Local n)) as Hslot.
    cbn [cell_of] in Hc, Hslot. unfold local_cell in Hc, Hslot. fold (local_type n).
    set (offset := code_generator_binary_get_symbol_offset context n) in *.
    destruct ((0 <? offset)%Z && _); [done|]. destruct (is_kind TYPE_STRING (local_type n)); [done|].
    destruct (code_generator_binary_symbol_assigned_register g context n) as [a|] eqn:Hassigned.
    + injection Hc as <-. pose proof (assigned_nonvolatile _ _ Hassigned) as Hnv.
      assert (a ≠ r) as Hne by (intros ->; by apply (nonvolatile_kept r scratch Hnv) in Hr).
      rewrite (proj2 (Z.eqb_neq a r)) by (intros He; by apply gp_code_inj in He).
      destruct (yields_move (local_type n) a r Hne) as (p & Ha & Hl). exists p. split; [by apply gasm_emit|].
      intros m [Hm Hv]. specialize (Hfit a Hc').
      destruct (leaves_in_register (Local n) a [gp_code a] st m p _ Hc' (reflexivity _) Hm (Hl m (rep_ok _ _ _ Hm)))
        as (m' & Hrun & Hm' & Hv'). exists m'. split; [done|].
      apply (fill_promoted n a); [done..|]. rewrite Hv', Hv, <- (u64_s64 v). apply moved_typed.
      rewrite <- Hnarrow; [done|by eexists|apply s64_range].
    + destruct (code_generator_binary_type_is_direct_aggregate (local_type n)); [done|].
      rewrite andb_false_r. destruct (Z.leb_spec offset 0); [done|]. destruct (negb _); [done|]. injection Hc as <-.
      assert (in_int32 (- offset)) as Hi by by eapply Hslot.
      assert (∃ p, asm (code_generator_binary_emit_symbol_stack_store (local_type n) offset r) unit_result p ∧
        ∀ m, machine_ok m → X86.run p m =
          X86.Next (store m (access_size (slot_size (local_type n))) (slot_address m offset) (regs m r))) as (p & Ha & Hrun).
      { unfold code_generator_binary_emit_symbol_stack_store. rewrite (proj2 (Z.leb_gt offset 0)) by done.
        destruct (access_size_cases (slot_size (local_type n))) as [[-> ->]|[[-> ->]|[[-> ->]|(-> & ? & ? & ?)]]];
          [by apply (writes_8 BINARY_GP_RBP)|by apply (writes_16 BINARY_GP_RBP)|by apply (writes_32 BINARY_GP_RBP)|].
        rewrite !(proj2 (Z.eqb_neq _ _)) by done. by apply (writes_64 BINARY_GP_RBP). }
      exists p. split; [by apply gasm_emit|]. intros m [Hm Hv]. eexists. split; [apply Hrun, Hm|].
      apply fill_local; [done|by eapply (represents_store (Local n))|].
      intros c Hc. rewrite Hc' in Hc. injection Hc as <-. rewrite Hv, (read_stored (Local n) offset st m None) by done.
      rewrite Hnarrow; [|by eexists|apply s64_range]. split; [done|apply typed_idem].
Qed.

End stores.
End loads.
End frame.

(** ** Checking a frame *)

Section check.
Context {M : Machine} (g : CodeGenerator) (context : BinaryFunctionContext).

(** The variables with a slot: no other has a cell. *)
Definition placed : list variable :=
  map (Temp ∘ fst) (temp_slots context) ++
  map (Local ∘ fst) (parameter_slots context) ++ map (Local ∘ fst) (local_slots context).

Lemma slot_placed (make : string → variable) table name :
  (0 < binary_named_slot_table_get_offset table name)%Z → make name ∈ map (make ∘ fst) table.
Proof.
  induction table as [|[n o] t IH]; simpl; [done|]. destruct (String.eqb_spec n name) as [->|].
  - left.
  - right. auto.
Qed.

Lemma symbol_placed name :
  (0 < code_generator_binary_get_symbol_offset context name)%Z → Local name ∈ placed.
Proof.
  unfold code_generator_binary_get_symbol_offset, code_generator_binary_get_parameter_offset,
    code_generator_binary_get_local_offset, placed. intros H. rewrite !elem_of_app. right.
  destruct (0 <? _)%Z eqn:Hp; [left|right]; apply slot_placed; lia.
Qed.

Lemma cell_placed x c : cell_of g context x = Some c → x ∈ placed.
Proof.
  destruct x as [n|n]; cbn [cell_of].
  - intros Hc. unfold placed. rewrite elem_of_app. left.
    apply slot_placed. unfold code_generator_binary_get_temp_offset in Hc.
    by destruct (Z.leb_spec (binary_named_slot_table_get_offset (temp_slots context) n) 0).
  - intros Hc. apply symbol_placed. unfold local_cell in Hc.
    destruct ((0 <? _)%Z && _); [done|]. destruct (is_kind _ _); [done|].
    destruct (code_generator_binary_symbol_assigned_register g context n) eqn:Ha; [by eapply assigned_offset|].
    destruct (code_generator_binary_type_is_direct_aggregate _); [done|]. by case_match; [|lia].
Qed.

#[export] Instance apart_dec c c' : Decision (apart c c').
Proof. destruct c, c'; simpl; apply _. Defined.

Definition below (c : cell) : bool :=
  match c with
  | In_register _ => true
  | On_stack o n _ => (Z.of_nat n <=? o)%Z && (o <=? 2 ^ 31)%Z
  end.

Definition frame_check : bool :=
  forallb (fun x => match cell_of g context x with
    | None => true
    | Some c => below c && forallb (fun y => bool_decide (x = y) ||
        match cell_of g context y with None => true | Some c' => bool_decide (apart c c') end) placed
    end) placed.

Lemma frame_check_ok : frame_check = true → frame_ok g context.
Proof.
  intros Hc. unfold frame_check in Hc. rewrite forallb_forall in Hc.
  assert (∀ x c, cell_of g context x = Some c → below c = true ∧ ∀ y, y ∈ placed → bool_decide (x = y) ||
        match cell_of g context y with None => true | Some c' => bool_decide (apart c c') end = true) as H.
  { intros x c Hx. pose proof (cell_placed x c Hx) as Hp. rewrite list_elem_of_In in Hp. specialize (Hc x Hp).
    rewrite Hx in Hc. apply andb_true_iff in Hc as [Hb Hf]. rewrite forallb_forall in Hf. split; [done|].
    intros y Hy%list_elem_of_In. auto. }
  split.
  - intros x y c c' Hne Hx Hy. destruct (H x c Hx) as [_ Hx']. specialize (Hx' y (cell_placed _ _ Hy)).
    rewrite Hy, bool_decide_eq_false_2 in Hx' by done. by apply bool_decide_eq_true_1 in Hx'.
  - intros x o n sg Hx. destruct (H x _ Hx) as [Hb _]. simpl in Hb. lia.
Qed.

End check.
