(* ===== verification/SelectionFacts.v ===== *)
(** * Code generation: correctness of the integer instructions

    The code selected for an integer operator computes what the intermediate
    representation says, wherever its operands and its destination live. *)

From stdpp Require Import gmap.
From S2P Require Import Prelude.
From S2P Require Import SymbolTable.
From S2P Require Import Ast.
From S2P Require Import IR.
From S2P Require Import IRSemantics.
From S2P Require Import Encoders.
From S2P Require Import X86.
From S2P Require Import X86Facts.
From S2P Require Import EncoderFacts.
From S2P Require Import CompareFacts.
From S2P Require Import MemoryFacts.
From S2P Require Import FunctionContext.
From S2P Require Import Operands.
From S2P Require Import Selection.
From S2P Require Import FrameFacts.

(** ** Division *)

Lemma quot_pow2 a k :
  (0 <= k)%Z → Z.quot a (2 ^ k) = ((a + (if a <? 0 then 2 ^ k - 1 else 0)) / 2 ^ k)%Z.
Proof.
  intros Hk. pose proof (Z.pow_pos_nonneg 2 k ltac:(lia) Hk). destruct (Z.ltb_spec a 0) as [Ha|Ha].
  - rewrite <- (Z.opp_involutive a) at 1. rewrite Z.quot_opp_l, Z.quot_div_nonneg by lia.
    apply (Z.div_unique _ _ _ (2 ^ k - 1 - (- a) mod 2 ^ k)).
    + left. pose proof (Z.mod_pos_bound (- a) (2 ^ k)). lia.
    + pose proof (Z.div_mod (- a) (2 ^ k) ltac:(lia)). lia.
  - rewrite Z.add_0_r. apply Z.quot_div_nonneg; lia.
Qed.

(** The mask of the sign. *)
Lemma sign_mask a k :
  (0 <= k < 63)%Z → in_s64 a →
  u64 (Z.land (u64 (s64 (u64 a) / 2 ^ 63)) (2 ^ k - 1)) = (if a <? 0 then 2 ^ k - 1 else 0)%Z.
Proof.
  intros Hk Ha. rewrite s64_u64, s64_in by done. unfold in_s64 in Ha.
  assert (2 ^ k < 2 ^ 63)%Z by (apply Z.pow_lt_mono_r; lia). pose proof (Z.pow_pos_nonneg 2 k).
  destruct (Z.ltb_spec a 0).
  - rewrite <- (Z.div_unique a (2 ^ 63) (-1) (a + 2 ^ 63)) by lia. change (u64 (-1)) with (Z.ones 64).
    rewrite Z.land_comm, Z.land_ones by lia. rewrite Z.mod_small by lia. apply u64_id. lia.
  - rewrite Z.div_small by lia. done.
Qed.

Section divide.
Variables a b : Z.
Context (Ha : in_s64 a) (Hb : in_s64 b) (Hz : b ≠ 0%Z) (Hm : (a = - 2 ^ 63 → b ≠ -1)%Z).

(** The sign of RAX in RDX makes the 128-bit dividend. *)
Lemma run_divide m :
  machine_ok m → regs m 0 = u64 a → regs m 10 = u64 b →
  ∃ m', X86.run [CQO; UNARY IDIV W64 (Reg 10)] m = X86.Next m' ∧ changes [0%Z; 2%Z] m m' ∧
    regs m' 0 = u64 (Z.quot a b) ∧ regs m' 2 = u64 (Z.rem a b).
Proof using All.
  intros Hok Hra Hrb. assert (in_s64 (Z.quot a b)) as Hq by (apply in_s64_quot; [done|done|intros [? ?]; by apply Hm]).
  set (d := if (a <? 0)%Z then (-1)%Z else 0%Z).
  set (m1 := set_reg m W64 RDX d).
  assert (X86.exec CQO m = X86.Next m1) as H1.
  { unfold X86.exec. subst m1 d. change (regs m RAX) with (regs m 0). by rewrite Hra, s64_u64, s64_in. }
  assert (regs m1 RDX = u64 d) as Hd by apply update_same.
  assert (regs m1 0 = u64 a) as Ha1 by (rewrite <- Hra; by apply update_other).
  assert (regs m1 10 = u64 b) as Hb1 by (rewrite <- Hrb; by apply update_other).
  assert (s64 (regs m1 RDX) * 2 ^ 64 + regs m1 RAX = a)%Z as Hn.
  { rewrite Hd. change (regs m1 RAX) with (regs m1 0). rewrite Ha1, s64_u64. unfold in_s64 in Ha.
    subst d. destruct (Z.ltb_spec a 0).
    - rewrite s64_in by done. unfold wrap_u. rewrite <- (Z.mod_unique_pos a (2 ^ 64) (-1) (a + 2 ^ 64)) by lia. lia.
    - rewrite s64_in, u64_id by (unfold in_s64; lia). lia. }
  eexists. split.
  { unfold X86.run. rewrite H1. unfold X86.exec, exec_idiv, get. change (bits W64) with 64%Z.
    rewrite Hn, Hb1, u64_idem, s64_u64, (s64_in b), (proj2 (Z.eqb_neq b 0)) by done.
    rewrite (s64_in (Z.quot a b)), Z.eqb_refl by done. reflexivity. }
  split_and!.
  - apply (changes_trans _ _ m1); [apply changes_set_reg; right; left|].
    apply (changes_trans _ _ (set_reg m1 W64 RAX (Z.quot a b))); [apply changes_set_reg; left|].
    apply (changes_trans _ _ (set_reg (set_reg m1 W64 RAX (Z.quot a b)) W64 RDX (Z.rem a b)));
      [apply changes_set_reg; right; left|apply changes_set_status].
  - cbn [regs set_status set_reg set_regs]. rewrite update_other by done. apply update_same.
  - apply update_same.
Qed.

End divide.

(** ** Immediate operands *)

Lemma imm32_range v : (0 <= imm32 v < 2 ^ 32)%Z.
Proof. by apply (wrap_u_range 32). Qed.

Lemma s32_imm32 v : in_int32 v → s32 (imm32 v) = v.
Proof.
  intros Hv. unfold imm32. rewrite s32_u32, (wrap_s_id 32 v) by (unfold in_int32 in Hv; lia).
  apply wrap_s_id; unfold in_int32 in Hv; lia.
Qed.

Lemma fits_in_int32 v : code_generator_binary_immediate_fits_signed_32 v = true → in_int32 v.
Proof. unfold code_generator_binary_immediate_fits_signed_32, INT32_MIN, INT32_MAX, in_int32. lia. Qed.

Lemma int_binary_comm o a b : commutative o = true → int_binary o a b = int_binary o b a.
Proof.
  unfold commutative, is_op. cbn [existsb].
  repeat match goal with
    | |- context [String.eqb o ?k] => destruct (String.eqb_spec o k) as [->|_]; cbn [orb];
        [intros _; cbn|]
    end; [..|done].
  - by rewrite Z.add_comm.
  - by rewrite Z.mul_comm.
  - by rewrite Z.land_comm.
  - by rewrite Z.lor_comm.
  - by rewrite Z.lxor_comm.
  - by rewrite Z.eqb_sym.
  - by rewrite Z.eqb_sym.
Qed.

(** An operation with an immediate, on any register. *)
Lemma immediate_arithmetic_yields o (r : BinaryGpRegister) k e a c :
  emit_immediate_arithmetic o r k = Some e → in_int32 k → int_binary o a k = Some c →
  ∃ f, yields e [gp_code r] r f ∧ ∀ m, regs m r = u64 a → f m = u64 c.
Proof.
  unfold emit_immediate_arithmetic. intros He Hk Hc. pose proof (imm32_range k) as Hr.
  repeat match type of He with
    | (if String.eqb o ?k then _ else _) = _ =>
        destruct (String.eqb_spec o k) as [Ho|_];
        [subst o; cbn in Hc; injection He as <-; injection Hc as <-|]
    end; [..|done].
  3: { eexists. split; [apply yields_imul_constant|]. intros m Hm. cbv beta. rewrite Hm, s32_imm32 by done.
       by autorewrite with pattern. }
  1: eexists; split; [by apply (yields_alu_imm ADD Z.add)|].
  2: eexists; split; [by apply (yields_alu_imm SUB Z.sub)|].
  3: eexists; split; [by apply (yields_alu_imm AND Z.land)|].
  4: eexists; split; [by apply (yields_alu_imm OR Z.lor)|].
  5: eexists; split; [by apply (yields_alu_imm XOR Z.lxor)|].
  all: intros m Hm; cbv beta; rewrite Hm, s32_imm32, u64_s64 by done.
  - apply u64_add_l.
  - apply u64_sub_l.
  - rewrite <- (u64_land (u64 a) k), u64_idem. by rewrite u64_land.
  - rewrite <- (u64_lor (u64 a) k), u64_idem. by rewrite u64_lor.
  - rewrite <- (u64_lxor (u64 a) k), u64_idem. by rewrite u64_lxor.
Qed.

Lemma shift_immediate_yields o (r : BinaryGpRegister) k a c :
  is_shift o = true → (0 <= k < 64)%Z → in_s64 a → int_binary o a k = Some c →
  ∃ f, yields (binary_emit_shift_reg_imm8 (shift_subopcode o) r (u8 k)) [gp_code r] r f ∧
    ∀ m, regs m r = u64 a → f m = u64 c.
Proof.
  intros Ho Hk Ha Hc. rewrite (wrap_u_id 8 k) by lia.
  unfold is_shift, is_op in Ho. cbn [existsb] in Ho.
  destruct (String.eqb_spec o "<<") as [->|_]; [|destruct (String.eqb_spec o ">>") as [->|_]; [|done]];
    unfold int_binary, binary_table in Hc; cbn in Hc;
    rewrite (proj2 (Z.ltb_ge k 0)), (proj2 (Z.leb_gt 64 k)) in Hc by lia; injection Hc as <-.
  - eexists. split; [by apply yields_shl|]. intros m Hm. cbv beta. by rewrite Hm, u64_mul_l, u64_s64.
  - eexists. split; [by apply yields_sar|]. intros m Hm. cbv beta. by rewrite Hm, s64_u64, s64_in, u64_s64 by done.
Qed.

(** ** Division by a power of two *)

Lemma power_of_two_spec v k mask :
  in_s64 v → code_generator_binary_extract_positive_power_of_two v = Some (k, mask) →
  (0 <= k < 63)%Z ∧ v = (2 ^ k)%Z ∧ mask = (2 ^ k - 1)%Z.
Proof.
  unfold code_generator_binary_extract_positive_power_of_two, in_s64. intros Hv Hk.
  destruct (Z.leb_spec v 0); [done|]. rewrite (u64_id v), (u64_id (v - 1)) in Hk by lia.
  destruct (Z.eqb_spec (Z.land v (v - 1)) 0) as [Hz|]; cbn [negb] in Hk; [|done].
  pose proof (shift_amount_spec 64 v ltac:(lia) Hz) as Hs. revert Hk Hs.
  generalize (shift_amount 64 v 0). intros n [= -> <-] [? ->]. split_and!; [lia| |done|done].
  destruct (Z_lt_le_dec k 63); [done|]. assert (2 ^ 63 <= 2 ^ k)%Z by (apply Z.pow_le_mono_r; lia). lia.
Qed.

Lemma yields_and_mask (r : BinaryGpRegister) mask :
  r ≠ BINARY_GP_R10 → (0 <= mask < 2 ^ 63)%Z →
  yields (code_generator_binary_emit_and_mask r mask) [10; gp_code r]%Z r (fun m => u64 (Z.land (regs m r) mask)).
Proof.
  intros Hr Hm. unfold code_generator_binary_emit_and_mask. destruct (Z.leb_spec mask 0x7fffffff).
  - eapply yields_weaken; [|eapply yields_eq; [apply (yields_alu_imm AND Z.land); [done|lia]|]].
    + apply singleton_subset. right. left.
    + intros m Hok. cbv beta. rewrite (wrap_s_id 32) by lia. done.
  - eapply (yields_bind _ _ [10%Z] [gp_code r]);
      [apply (yields_mov_imm64 BINARY_GP_R10); lia|by apply (yields_alu AND Z.land)|].
    intros m m1 Hok Hok1 (_ & Hc & _) Hv. cbv beta. rewrite Hv. f_equal. f_equal. apply Hc.
    rewrite list_elem_of_singleton. by destruct r.
Qed.

(** The numbers of the registers the operands are in. *)
Ltac codes :=
  cbv beta; change (gp_code BINARY_GP_RAX) with 0%Z in *; change (gp_code BINARY_GP_RCX) with 1%Z in *;
  change (gp_code BINARY_GP_RDX) with 2%Z in *; change (gp_code BINARY_GP_R10) with 10%Z in *;
  change (gp_code BINARY_GP_R11) with 11%Z in *.

(** A finite fact about their numbers. *)
Ltac registers := apply (bool_decide_unpack _); vm_compute; exact I.

(** RAX divided by 2^k, rounded towards zero. *)
Lemma yields_divide k :
  (0 < k < 63)%Z →
  yields (emit_divide_power_of_two k (2 ^ k - 1)) [0; 1; 10]%Z BINARY_GP_RAX
    (fun m => u64 (Z.quot (s64 (regs m 0)) (2 ^ k))).
Proof.
  intros Hk. unfold emit_divide_power_of_two. rewrite (proj2 (Z.eqb_neq k 0)) by lia.
  assert (2 ^ k < 2 ^ 63)%Z by (apply Z.pow_lt_mono_r; lia). pose proof (Z.pow_pos_nonneg 2 k ltac:(lia) ltac:(lia)).
  eapply yields_weaken; [|apply yields_assoc, yields_assoc, yields_assoc;
    eapply (yields_bind _ _ (([1] ++ [10; 1]) ++ [0])%Z [0%Z]
      0%Z (fun m => u64 (regs m 0 + (if s64 (regs m 0) <? 0 then 2 ^ k - 1 else 0))%Z));
    [eapply (yields_bind _ _ ([1] ++ [10; 1])%Z [0%Z] 1%Z (fun m => if s64 (regs m 0) <? 0 then 2 ^ k - 1 else 0)%Z);
      [eapply (yields_bind _ _ [1%Z] [10; 1]%Z 1%Z (fun m => u64 (s64 (regs m 0) / 2 ^ 63)%Z));
        [eapply (yields_then _ _ _ _ (fun v => u64 (s64 v / 2 ^ 63))); [apply yields_mov|by apply (yields_sar BINARY_GP_RCX)]
        |by apply (yields_and_mask BINARY_GP_RCX); [|lia]|]
      |by apply (yields_alu ADD Z.add)|]
    |by apply (yields_sar BINARY_GP_RAX); lia|]].
  - registers.
  - intros m m1 Hok Hok1 _ Hv. codes. rewrite Hv. rewrite <- (sign_mask (s64 (regs m 0)) k) by (lia || apply s64_range).
    by rewrite u64_s64, (u64_id (regs m 0)) by apply Hok.
  - intros m m1 Hok Hok1 (_ & Hc & _) Hv. codes. rewrite Hv, Hc; [done|].
    intros Hin%(bool_decide_eq_true_2 _). by vm_compute in Hin.
  - intros m m1 Hok Hok1 _ Hv. codes. rewrite Hv, s64_u64, quot_pow2 by lia.
    pose proof (s64_range (regs m 0)) as Hr. unfold in_s64 in Hr.
    replace (s64 (regs m 0 + _)) with (s64 (regs m 0) + (if s64 (regs m 0) <? 0 then 2 ^ k - 1 else 0))%Z; [done|].
    set (d := (if s64 (regs m 0) <? 0 then 2 ^ k - 1 else 0)%Z).
    rewrite <- (s64_in (s64 (regs m 0) + d)).
    + apply wrap_s_eq; [lia|]. rewrite Zplus_mod, wrap_s_mod, <- Zplus_mod by lia. done.
    + subst d. unfold in_s64. destruct (Z.ltb_spec (s64 (regs m 0)) 0); lia.
Qed.

Lemma regroup (d1 d2 d3 d4 d5 rest : Emit ()) buffer :
  ((d1 ;; d2 ;; d3 ;; d4 ;; d5) ;; rest) buffer = (d1 ;; d2 ;; d3 ;; d4 ;; d5 ;; rest) buffer.
Proof.
  unfold mbind, Emit_bind. destruct (d1 buffer) as [[[]|] b1]; [|done]. destruct (d2 b1) as [[[]|] b2]; [|done].
  destruct (d3 b2) as [[[]|] b3]; [|done]. by destruct (d4 b3) as [[[]|] b4].
Qed.

(** The remainder is what the quotient times the divisor leaves of the dividend. *)
Lemma yields_modulo k :
  (0 < k < 63)%Z →
  yields (emit_modulo_power_of_two k (2 ^ k - 1)) ([11] ++ (([0; 1; 10] ++ [0]) ++ [11]) ++ [0])%Z BINARY_GP_RAX
    (fun m => u64 (Z.rem (s64 (regs m 0)) (2 ^ k))).
Proof.
  intros Hk. pose proof (yields_divide k Hk) as Hdiv.
  unfold emit_modulo_power_of_two, emit_divide_power_of_two in *.
  rewrite (proj2 (Z.eqb_neq k 0)) in * by lia.
  eapply (yields_bind _ _ [11%Z] _ 11%Z (fun m => regs m 0) _
    (fun m => u64 (regs m 11 - u64 (Z.quot (s64 (regs m 0)) (2 ^ k)) * 2 ^ k))); [apply yields_mov| |].
  - eapply yields_ext; [intros buffer; apply regroup|]. apply yields_assoc, yields_assoc.
    eapply (yields_bind _ _ _ [0%Z] 11%Z (fun m => u64 (regs m 11 - u64 (Z.quot (s64 (regs m 0)) (2 ^ k)) * 2 ^ k)));
      [|apply yields_mov|by intros m m1 _ _ _ <-].
    eapply (yields_bind _ _ _ [11%Z] 0%Z (fun m => u64 (u64 (Z.quot (s64 (regs m 0)) (2 ^ k)) * 2 ^ k)));
      [|by apply (yields_alu SUB Z.sub)|].
    + eapply (yields_bind _ _ [0; 1; 10]%Z [0%Z]); [exact Hdiv|apply (yields_shl BINARY_GP_RAX); lia|].
      intros m m1 _ _ _ Hv. codes. by rewrite Hv.
    + intros m m1 _ _ (_ & Hc & _) Hv. codes. rewrite Hv, Hc; [by rewrite u64_sub_r|].
      intros Hin%(bool_decide_eq_true_2 _). by vm_compute in Hin.
  - intros m m1 Hok _ (_ & Hc & _) Hv. cbv beta. rewrite Hv, Hc.
    + rewrite <- u64_sub_r, u64_mul_l, u64_sub_r.
      rewrite <- (u64_id (regs m 0)) at 1 by apply Hok. rewrite <- (u64_s64 (regs m 0)) at 1.
      rewrite u64_sub_l. f_equal. pose proof (Z.quot_rem' (s64 (regs m 0)) (2 ^ k)). lia.
    + intros Hin%(bool_decide_eq_true_2 _). by vm_compute in Hin.
Qed.

(** ** Code on registers *)

Section selection.
Context {M : Machine} (g : CodeGenerator) (context : BinaryFunctionContext).
Context (Hframe : frame_ok g context) (dead : string → Prop) (before : machine).

Abbreviation represents := (represents g context dead before).

(** The state, and what some registers hold. *)
Definition holds (st : mstate world) (l : list (BinaryGpRegister * Z)) (m : machine) : Prop :=
  represents st m ∧ Forall (fun rv : BinaryGpRegister * Z => regs m (gp_code (fst rv)) = snd rv) l.

Lemma holds_in st l m r v : holds st l m → (r, v) ∈ l → regs m (gp_code r) = v.
Proof. intros [_ Hl] Hin. rewrite Forall_forall in Hl. by apply (Hl (r, v)). Qed.

Lemma holds_subset st l l' m : l' ⊆ l → holds st l m → holds st l' m.
Proof.
  intros Hs [Hm Hl]. split; [done|]. rewrite Forall_forall in *. intros x Hx. by apply Hl, Hs.
Qed.

(** Code that changes the registers [rs], from machines that hold [l]. *)
Lemma triple_leaves st l l' e p rs (r : BinaryGpRegister) v :
  gasm e p → rs ⊆ scratch → l' ⊆ l → (∀ x, x ∈ l' → gp_code (fst x) ∉ rs) →
  (∀ m, holds st l m → leaves p rs m r v) →
  triple (holds st l) e (holds st ((r, v) :: l')).
Proof.
  intros Hg Hs Hl' Hrs Hl. exists p. split; [done|]. intros m Hm.
  destruct (Hl m Hm) as (m' & Hrun & Hc & Hv). exists m'. split; [done|]. split.
  - destruct Hm as [Hm _]. by eapply represents_changes.
  - apply Forall_cons. split; [done|]. rewrite Forall_forall. intros [r' v'] Hx. simpl.
    destruct Hc as (_ & Hr & _). rewrite Hr by by apply (Hrs (r', v')).
    eapply holds_in; [exact Hm|]. by apply Hl'.
Qed.

Lemma triple_code st l e rs (r : BinaryGpRegister) f v :
  yields e rs r f → rs ⊆ scratch → (∀ m, machine_ok m → holds st l m → f m = v) →
  triple (holds st l) (emit e) (holds st [(r, v)]).
Proof.
  intros (p & Ha & Hl) Hs Hf. apply (triple_leaves st l [] _ p rs); [by apply gasm_emit|done|apply list_subseteq_nil|by intros ? ?%elem_of_nil|].
  intros m Hm. pose proof (rep_ok _ _ _ _ _ _ _ (proj1 Hm)) as Hok. rewrite <- (Hf m Hok Hm). by apply Hl.
Qed.

Lemma triple_load st l l' x v (r : BinaryGpRegister) :
  readable g context dead x → eval st x = Some v → gp_code r ∈ scratch → l' ⊆ l →
  (∀ y, y ∈ l' → gp_code (fst y) ≠ gp_code r) →
  triple (holds st l) (code_generator_binary_emit_operand_load g context x r) (holds st ((r, u64 v) :: l')).
Proof using Hframe.
  intros Hx Hv Hr Hl Hne. destruct (load_leaves g context dead before Hframe st x v r Hx Hv) as (p & Hg & Hlv).
  apply (triple_leaves st l l' _ p [gp_code r]); [done|by apply singleton_subset|done| |].
  - intros y Hy Heq%list_elem_of_singleton. by apply (Hne y Hy).
  - intros m [Hm _]. by apply Hlv.
Qed.

(** ** The operators *)

(** What the selection relies on besides the values' ranges: the operands of [&&] are
    truth values, and a 32-bit comparison compares 32-bit numbers. *)
Definition selectable (o : string) (compare_width a b : Z) : Prop :=
  (o = "&&"%string → (a = 0 ∨ a = 1) ∧ (b = 0 ∨ b = 1))%Z ∧
  (compare_width = 4%Z → code_generator_binary_is_compare_operator o = true → in_int32 a ∧ in_int32 b).

Section operands.
Variables (a b : Z).
Context (Ha : in_s64 a) (Hb : in_s64 b).

Definition both : list (BinaryGpRegister * Z) := [(BINARY_GP_RAX, u64 a); (BINARY_GP_R10, u64 b)].

Lemma both_values st m : holds st both m → regs m 0 = u64 a ∧ regs m 10 = u64 b.
Proof.
  intros Hm. split.
  - apply (holds_in st both m BINARY_GP_RAX); [done|left].
  - apply (holds_in st both m BINARY_GP_R10); [done|right; left].
Qed.

(** A piece of code whose value is a function of the two registers. *)
Lemma triple_both st e rs f v :
  yields e rs BINARY_GP_RAX f → rs ⊆ scratch →
  (∀ m, machine_ok m → regs m 0 = u64 a → regs m 10 = u64 b → f m = u64 v) →
  triple (holds st both) (emit e) (holds st [(BINARY_GP_RAX, u64 v)]).
Proof.
  intros He Hs Hf. eapply triple_code; [exact He|done|].
  intros m Hok Hm. apply both_values in Hm as [H0 H1]. auto.
Qed.

Lemma rax_scratch : [gp_code BINARY_GP_RAX] ⊆ scratch.
Proof. apply singleton_subset. left. Qed.

Lemma arithmetic_correct st op f :
  alu_function op = Some f →
  triple (holds st both) (emit (binary_emit_alu_reg_reg (alu_opcode op) BINARY_GP_RAX BINARY_GP_R10))
    (holds st [(BINARY_GP_RAX, u64 (s64 (f a b)))]).
Proof.
  intros Hf. eapply triple_both; [by apply yields_alu|apply rax_scratch|].
  intros m Hok H0 H1. codes. rewrite H0, H1, u64_s64. by apply (alu_function_pattern op).
Qed.

Lemma triple_compare st e x y cc test :
  tests cc test → compares e x y →
  (∀ m, machine_ok m → regs m 0 = u64 a → regs m 10 = u64 b → x m = a ∧ y m = b) →
  triple (holds st both)
    (emit (e ;; binary_emit_setcc_al (0x90 + cc) ;; binary_emit_movzx_eax_al))
    (holds st [(BINARY_GP_RAX, u64 (truth (test a b)))]).
Proof.
  intros Ht He Hv. eapply triple_both; [by apply yields_compare|apply rax_scratch|].
  intros m Hok H0 H1. destruct (Hv m Hok H0 H1) as [-> ->]. by destruct (test a b).
Qed.

Lemma register_comparison st cc test w :
  tests cc test → (w = 4%Z → in_int32 a ∧ in_int32 b) →
  triple (holds st both)
    (emit (code_generator_binary_emit_reg_reg_compare BINARY_GP_RAX BINARY_GP_R10 w ;;
           binary_emit_setcc_al (0x90 + cc) ;; binary_emit_movzx_eax_al))
    (holds st [(BINARY_GP_RAX, u64 (truth (test a b)))]).
Proof using Ha Hb.
  intros Ht Hw. unfold code_generator_binary_emit_reg_reg_compare. destruct (Z.eqb_spec w 4) as [->|].
  - destruct (Hw eq_refl) as [Ha4 Hb4]. eapply triple_compare; [done|apply compares_registers32|].
    intros m Hok H0 H1. codes. rewrite H0, H1. unfold in_int32 in *.
    rewrite !(wrap_s_u64 32), !wrap_s_id by lia. done.
  - eapply triple_compare; [done|apply compares_registers|].
    intros m Hok H0 H1. codes. rewrite H0, H1, !s64_u64, !s64_in; done.
Qed.

(** [land] and [lor] of truth values, tested against 0. *)
Lemma logic_correct st op f c :
  alu_function op = Some f → c = truth (negb (f a b =? 0)%Z) → in_s64 (f a b) →
  triple (holds st both)
    (emit (binary_emit_alu_reg_reg (alu_opcode op) BINARY_GP_RAX BINARY_GP_R10 ;;
           binary_emit_test_reg_reg BINARY_GP_RAX ;; binary_emit_setcc_al 0x95 ;;
           binary_emit_movzx_eax_al))
    (holds st [(BINARY_GP_RAX, u64 c)]).
Proof.
  intros Hf -> Hr. eapply triple_both; [|apply rax_scratch|].
  - apply (yields_then _ _ _ _ (fun v => if negb (s64 v =? 0)%Z then 1%Z else 0%Z)); [by apply yields_alu|].
    apply (yields_compare 5 (fun a b => negb (Z.eqb a b)) _ _ _ tests_ne). apply compares_zero.
  - intros m Hok H0 H1. codes. rewrite H0, H1, (alu_function_pattern op), s64_u64, s64_in by done.
    by destruct (f a b =? 0)%Z.
Qed.

Lemma addition_correct st :
  triple (holds st both)
    (emit (emit_or (binary_emit_lea_reg_reg BINARY_GP_RAX BINARY_GP_RAX BINARY_GP_R10)
             (binary_emit_alu_reg_reg 0x01 BINARY_GP_RAX BINARY_GP_R10)))
    (holds st [(BINARY_GP_RAX, u64 (s64 (a + b)))]).
Proof.
  eapply triple_both; [by apply yields_or_left, yields_lea_reg_reg|apply rax_scratch|].
  intros m Hok H0 H1. codes. rewrite H0, H1. by autorewrite with pattern.
Qed.

Lemma product_correct st :
  triple (holds st both) (emit (binary_emit_imul_reg_reg BINARY_GP_RAX BINARY_GP_R10))
    (holds st [(BINARY_GP_RAX, u64 (s64 (a * b)))]).
Proof.
  eapply triple_both; [by apply yields_imul|apply rax_scratch|].
  intros m Hok H0 H1. codes. rewrite H0, H1. by autorewrite with pattern.
Qed.

(** Shifts by CL. *)
Lemma shift_correct st op c :
  op = SHL ∧ c = s64 (a * 2 ^ b) ∨ op = SAR ∧ c = s64 (a / 2 ^ b) → (0 <= b < 64)%Z →
  triple (holds st both)
    (emit (binary_emit_mov_reg_reg BINARY_GP_RCX BINARY_GP_R10 ;;
           binary_emit_shift_reg_cl (shift_sub op) BINARY_GP_RAX))
    (holds st [(BINARY_GP_RAX, u64 c)]).
Proof using Ha Hb.
  intros Hop Hr.
  apply (triple_leaves st both [] _ (mov_program W64 BINARY_GP_RCX BINARY_GP_R10 ++ [SHIFT op W64 (Reg 0) By_cl])
    [0%Z; 1%Z]);
    [by apply gasm_emit, asm_seq; [apply asm_mov|apply asm_shift_cl]|registers|apply list_subseteq_nil|by intros ? ?%elem_of_nil|].
  intros m Hm. pose proof (rep_ok _ _ _ _ _ _ _ (proj1 Hm)) as Hok. apply both_values in Hm as [H0 H1].
  set (m1 := set_reg m W64 1 (regs m 10)).
  assert (regs m1 1 = b) as Hc.
  { subst m1. cbn [regs set_reg set_regs bits]. rewrite update_same, H1, u64_idem. apply u64_id. lia. }
  assert (regs m1 0 = u64 a) as Hx by (subst m1; cbn [regs set_reg set_regs]; by rewrite update_other).
  assert (X86.run (mov_program W64 BINARY_GP_RCX BINARY_GP_R10) m = X86.Next m1) as Hrun.
  { change (mov_program W64 BINARY_GP_RCX BINARY_GP_R10) with [MOV W64 (Reg 1) (Reg 10)].
    change (X86.Next (set_reg m W64 1 (u64 (regs m 10))) = X86.Next m1). by rewrite u64_id by apply Hok. }
  assert (∃ s, X86.exec (SHIFT op W64 (Reg 0) By_cl) m1 =
    X86.Next (set_status (set_reg m1 W64 0 (u64 c)) s)) as [s Hs].
  { unfold X86.exec, exec_shift, get, put. change (bits W64) with 64%Z. cbn [mbind option_bind].
    change RCX with 1%Z. rewrite Hc, Hx, land_63, u64_idem by done.
    assert (∀ v, u64 v = u64 c → set_reg m1 W64 0 v = set_reg m1 W64 0 (u64 c)) as Hset.
    { intros v Hv. unfold set_reg. change (bits W64) with 64%Z. by rewrite Hv, u64_idem. }
    destruct (Z.eqb_spec b 0) as [->|].
    - eexists (status m1). cbn [next]. rewrite (Hset (u64 a)); [done|]. rewrite u64_idem.
      destruct Hop as [[_ ->]|[_ ->]]; cbn [Z.pow]; rewrite ?Z.mul_1_r, ?Z.div_1_r; by rewrite u64_s64.
    - eexists None. cbn [next mbind option_bind]. rewrite Hset; [done|].
      unfold shift_value. change (bits W64) with 64%Z. destruct Hop as [[-> ->]|[-> ->]]; rewrite u64_s64.
      + rewrite Z.shiftl_mul_pow2, u64_mul_l by lia. done.
      + by rewrite Z.shiftr_div_pow2, s64_u64, s64_in by (done || lia). }
  exists (set_status (set_reg m1 W64 0 (u64 c)) s). rewrite run_app, Hrun. split_and!.
  - unfold X86.run. by rewrite Hs.
  - apply (changes_trans _ _ m1); [apply changes_set_reg; right; left|].
    apply (changes_trans _ _ (set_reg m1 W64 0 (u64 c))); [apply changes_set_reg; left|apply changes_set_status].
  - cbn [regs set_status set_reg set_regs bits]. change (bits W64) with 64%Z.
    by rewrite update_same, u64_idem.
Qed.

(** Signed division; the remainder is moved from RDX. *)
Lemma division_correct st :
  b ≠ 0%Z → (a = - 2 ^ 63 → b ≠ -1)%Z →
  triple (holds st both) (emit (binary_emit_cqo ;; binary_emit_idiv_reg BINARY_GP_R10))
    (holds st [(BINARY_GP_RAX, u64 (Z.quot a b))]).
Proof using Ha Hb.
  intros Hz Hm. apply (triple_leaves st both [] _ [CQO; UNARY IDIV W64 (Reg 10)] [0%Z; 2%Z]);
    [by apply gasm_emit, (asm_seq _ _ [CQO]); [apply asm_cqo|apply asm_idiv]|registers|apply list_subseteq_nil|by intros ? ?%elem_of_nil|].
  intros m Hh. pose proof (rep_ok _ _ _ _ _ _ _ (proj1 Hh)) as Hok. apply both_values in Hh as [H0 H1].
  destruct (run_divide a b Ha Hb Hz Hm m Hok H0 H1) as (m' & Hr & Hc & Hq & _). by exists m'.
Qed.

Lemma remainder_correct st :
  b ≠ 0%Z → (a = - 2 ^ 63 → b ≠ -1)%Z →
  triple (holds st both)
    (emit ((binary_emit_cqo ;; binary_emit_idiv_reg BINARY_GP_R10) ;;
           binary_emit_mov_reg_reg BINARY_GP_RAX BINARY_GP_RDX))
    (holds st [(BINARY_GP_RAX, u64 (Z.rem a b))]).
Proof using Ha Hb.
  intros Hz Hm.
  apply (triple_leaves st both [] _ ([CQO; UNARY IDIV W64 (Reg 10)] ++ mov_program W64 BINARY_GP_RAX BINARY_GP_RDX) [0%Z; 2%Z]);
    [|registers|apply list_subseteq_nil|by intros ? ?%elem_of_nil|].
  { apply gasm_emit, asm_seq; [|apply asm_mov]. by apply (asm_seq _ _ [CQO]); [apply asm_cqo|apply asm_idiv]. }
  intros m Hh. pose proof (rep_ok _ _ _ _ _ _ _ (proj1 Hh)) as Hok. apply both_values in Hh as [H0 H1].
  destruct (run_divide a b Ha Hb Hz Hm m Hok H0 H1) as (m1 & Hr & Hc & _ & Hv).
  destruct (leaves_mov m1 BINARY_GP_RAX BINARY_GP_RDX (changes_ok _ _ _ Hc Hok)) as (m2 & Hr2 & Hc2 & Hv2).
  exists m2. rewrite run_app, Hr. split_and!; [done| |by rewrite Hv2].
  eapply changes_trans; [exact Hc|]. eapply changes_weaken; [|exact Hc2]. registers.
Qed.

Lemma truth_land x y : (x = 0 ∨ x = 1)%Z → (y = 0 ∨ y = 1)%Z →
  truth (negb (x =? 0)%Z && negb (y =? 0)%Z) = truth (negb (Z.land x y =? 0)%Z) ∧ in_s64 (Z.land x y).
Proof. by intros [->| ->] [->| ->]. Qed.

Lemma truth_lor x y :
  truth (negb (x =? 0)%Z || negb (y =? 0)%Z) = truth (negb (Z.lor x y =? 0)%Z).
Proof.
  destruct (Z.eqb_spec x 0) as [->|Hx]; [by rewrite Z.lor_0_l|]. cbn [negb orb].
  destruct (Z.eqb_spec (Z.lor x y) 0) as [H|]; [|done]. by apply Z.lor_eq_0_iff in H as [].
Qed.

(** The operators of two registers. *)
Lemma register_operation_correct st o w e c :
  emit_register_operation o w = Some e → int_binary o a b = Some c → selectable o w a b →
  triple (holds st both) (emit e) (holds st [(BINARY_GP_RAX, u64 c)]).
Proof using Ha Hb.
  unfold emit_register_operation. cbv zeta. intros He Hc [Hand Hw].
  assert (∀ k cc test, o = k → condition_opcode k = Some (0x90 + cc)%Z → tests cc test →
    code_generator_binary_is_compare_operator k = true → int_binary k a b = Some (truth (test a b)) →
    (c ← condition_opcode o;
     Some (code_generator_binary_emit_reg_reg_compare BINARY_GP_RAX BINARY_GP_R10 w ;;
           binary_emit_setcc_al c ;; binary_emit_movzx_eax_al)) = Some e →
    triple (holds st both) (emit e) (holds st [(BINARY_GP_RAX, u64 c)])) as Hcompare.
  { intros k cc test -> Hk Ht Hcmp Hv Hs. rewrite Hk in Hs. injection Hs as <-. rewrite Hc in Hv. injection Hv as ->.
    apply register_comparison; auto. }
  repeat match type of He with
    | (if String.eqb o ?k then _ else _) = _ =>
        destruct (String.eqb_spec o k) as [Ho|_];
        [subst o; cbn in Hc; try (injection He as <-)|]
    end.
  - injection Hc as <-. apply addition_correct.
  - injection Hc as <-. by apply (arithmetic_correct st SUB).
  - injection Hc as <-. apply product_correct.
  - destruct (Z.eqb_spec b 0); [done|]. destruct ((a =? _)%Z && _) eqn:Hov; [done|]. injection Hc as <-.
    apply division_correct; [done|]. intros -> ->. done.
  - destruct (Z.eqb_spec b 0); [done|]. destruct ((a =? _)%Z && _) eqn:Hov; [done|]. injection Hc as <-.
    apply remainder_correct; [done|]. intros -> ->. done.
  - injection Hc as <-. by apply (arithmetic_correct st AND).
  - injection Hc as <-. by apply (arithmetic_correct st OR).
  - injection Hc as <-. by apply (arithmetic_correct st XOR).
  - destruct ((b <? 0)%Z || (64 <=? b)%Z) eqn:Hr; [done|]. injection Hc as <-.
    apply (shift_correct st SHL); [by left|lia].
  - destruct ((b <? 0)%Z || (64 <=? b)%Z) eqn:Hr; [done|]. injection Hc as <-.
    apply (shift_correct st SAR); [by right|lia].
  - injection Hc as <-. destruct (Hand eq_refl) as [Ha1 Hb1].
    destruct (truth_land a b Ha1 Hb1) as [Ht Hr]. by apply (logic_correct st AND Z.land).
  - injection Hc as <-. apply (logic_correct st OR Z.lor); [done|apply truth_lor|by apply in_s64_lor].
  - unfold condition_opcode in He.
    repeat match type of He with
      | (_ ← (if String.eqb o ?k then _ else _); _) = _ =>
          destruct (String.eqb_spec o k) as [Ho|_]
      end; [..|done].
    + by apply (Hcompare "=="%string 4%Z Z.eqb); [| |constructor| | |rewrite Ho].
    + by apply (Hcompare "!="%string 5%Z (fun a b => negb (Z.eqb a b))); [| |constructor| | |rewrite Ho].
    + by apply (Hcompare "<"%string 12%Z Z.ltb); [| |constructor| | |rewrite Ho].
    + by apply (Hcompare "<="%string 14%Z Z.leb); [| |constructor| | |rewrite Ho].
    + by apply (Hcompare ">"%string 15%Z Z.gtb); [| |constructor| | |rewrite Ho].
    + by apply (Hcompare ">="%string 13%Z Z.geb); [| |constructor| | |rewrite Ho].
Qed.

End operands.

(** ** Instructions *)

Lemma triple_rax st a e rs f v :
  yields e rs BINARY_GP_RAX f → rs ⊆ scratch →
  (∀ m, machine_ok m → regs m 0 = u64 a → f m = u64 v) →
  triple (holds st [(BINARY_GP_RAX, u64 a)]) (emit e) (holds st [(BINARY_GP_RAX, u64 v)]).
Proof.
  intros He Hs Hf. eapply triple_code; [exact He|done|]. intros m Hok Hm. apply Hf; [done|].
  apply (holds_in st [(BINARY_GP_RAX, u64 a)] m BINARY_GP_RAX); [done|left].
Qed.

Lemma power_of_two_correct st o a k c :
  is_op o ["/"; "%"]%string = true → in_s64 a → (0 <= k < 63)%Z → int_binary o a (2 ^ k) = Some c →
  triple (holds st [(BINARY_GP_RAX, u64 a)])
    (emit (if String.eqb o "/" then emit_divide_power_of_two k (2 ^ k - 1)
           else emit_modulo_power_of_two k (2 ^ k - 1)))
    (holds st [(BINARY_GP_RAX, u64 c)]).
Proof.
  intros Ho Ha Hk Hc. pose proof (Z.pow_pos_nonneg 2 k ltac:(lia) ltac:(lia)) as Hp.
  assert (c = if String.eqb o "/" then Z.quot a (2 ^ k) else Z.rem a (2 ^ k)) as ->.
  { unfold is_op in Ho. cbn [existsb] in Ho. unfold int_binary, binary_table in Hc.
    destruct (String.eqb_spec o "/") as [->|_]; [|destruct (String.eqb_spec o "%") as [->|_]; [|done]]; cbn in Hc;
      rewrite (proj2 (Z.eqb_neq (2 ^ k) 0)), (proj2 (Z.eqb_neq (2 ^ k) (-1))), andb_false_r in Hc by lia;
      by injection Hc. }
  destruct (Z.eq_dec k 0) as [->|Hk0].
  - unfold emit_divide_power_of_two, emit_modulo_power_of_two. cbn [Z.eqb Z.pow]. destruct (String.eqb o "/").
    + rewrite Z.quot_1_r. exists []. split; [apply gasm_emit, asm_ret|]. intros m Hm. by exists m.
    + rewrite Z.rem_1_r. eapply triple_rax; [by apply (yields_mov_imm64 BINARY_GP_RAX)|apply rax_scratch|done].
  - destruct (String.eqb o "/").
    + eapply triple_rax; [apply yields_divide; lia|registers|].
      intros m Hok H0. cbv beta. by rewrite H0, s64_u64, s64_in.
    + eapply triple_rax; [apply yields_modulo; lia|registers|].
      intros m Hok H0. cbv beta. by rewrite H0, s64_u64, s64_in.
Qed.

Lemma immediate_correct st o on_rhs a k e c :
  emit_immediate o on_rhs k = Some e → o ≠ "/"%string → in_int32 k → in_s64 a →
  int_binary o a k = Some c →
  triple (holds st [(BINARY_GP_RAX, u64 a)]) (emit e) (holds st [(BINARY_GP_RAX, u64 c)]).
Proof.
  unfold emit_immediate. intros He Hdiv Hk Ha Hc. destruct (String.eqb o "-" && negb on_rhs); [done|].
  destruct (emit_immediate_arithmetic o BINARY_GP_RAX k) as [e'|] eqn:Harith.
  { injection He as <-. destruct (immediate_arithmetic_yields o _ k e' a c Harith Hk Hc) as (f & Hy & Hf).
    eapply triple_rax; [exact Hy|apply rax_scratch|]. intros m _ Hm. by apply Hf. }
  destruct (is_shift o && on_rhs && (0 <=? k)%Z && (k <? 64)%Z) eqn:Hsh.
  { injection He as <-. apply andb_true_iff in Hsh as [[[Hs _]%andb_true_iff Hlo]%andb_true_iff Hhi].
    destruct (shift_immediate_yields o BINARY_GP_RAX k a c Hs ltac:(lia) Ha Hc) as (f & Hy & Hf).
    eapply triple_rax; [exact Hy|apply rax_scratch|]. intros m _ Hm. by apply Hf. }
  destruct (String.eqb_spec o "/") as [|_]; [done|]. cbn [andb] in He. destruct (_ || _); [|done].
  apply bind_Some in He as (cc & Hcc & [= <-]).
  assert (∀ test, tests (cc - 0x90) test → c = truth (test a k) →
    triple (holds st [(BINARY_GP_RAX, u64 a)])
      (emit (binary_emit_cmp_reg_imm32 BINARY_GP_RAX (imm32 k) ;; binary_emit_setcc_al cc ;; binary_emit_movzx_eax_al))
      (holds st [(BINARY_GP_RAX, u64 c)])) as Hcmp.
  { intros test Ht ->. rewrite <- (Zplus_minus 0x90 cc). eapply triple_rax; [by apply yields_compare, compares_immediate, imm32_range|apply rax_scratch|].
    intros m Hok Hm. codes. rewrite Hm, s64_u64, s64_in, s32_imm32 by done. by destruct (test a k). }
  unfold condition_opcode in Hcc. unfold int_binary, binary_table in Hc.
  repeat match type of Hcc with
    | (if String.eqb o ?k then _ else _) = _ =>
        destruct (String.eqb_spec o k) as [Ho|_];
        [subst o; injection Hcc as <-; cbn in Hc; injection Hc as <-; eapply Hcmp; [constructor|done]|]
    end.
  done.
Qed.

(** An update of a promoted variable in its register. *)
Lemma inplace_yields o on_rhs (r : BinaryGpRegister) a k c :
  inplace_op o on_rhs k = true → in_int32 k → in_s64 a → int_binary o a k = Some c →
  ∃ f, yields (emit_inplace o r k) [gp_code r] r f ∧ ∀ m, regs m r = u64 a → f m = u64 c.
Proof.
  unfold inplace_op, emit_inplace. intros Ho Hk Ha Hc.
  destruct (emit_immediate_arithmetic o r k) as [e|] eqn:Harith; [by eapply immediate_arithmetic_yields|].
  assert (is_shift o = true ∧ 0 <= k < 64)%Z as [Hs Hr]; [|by apply shift_immediate_yields].
  unfold emit_immediate_arithmetic in Harith. unfold is_op in Ho. cbn [existsb] in Ho.
  repeat match type of Harith with
    | (if ?b then _ else _) = None => destruct b; [done|]
    end.
  cbn [orb andb] in Ho. destruct (is_shift o); [|done]. split; [done|]. destruct on_rhs; simpl in Ho; lia.
Qed.

Lemma assigned_cell n r :
  is_Some (cell_of g context (Local n)) →
  code_generator_binary_symbol_assigned_register g context n = Some r →
  cell_of g context (Local n) = Some (In_register r).
Proof.
  cbn [cell_of]. unfold local_cell. intros [c Hc] Ha. rewrite Ha in *.
  destruct ((0 <? _)%Z && _); [done|]. by destruct (is_kind _ _).
Qed.

Context (Hnarrow : narrows_as_typed g context).

Lemma inplace_correct st n b x a on_rhs o k c (r : BinaryGpRegister) :
  code_generator_binary_symbol_assigned_register g context n = Some r →
  writable g context (IR_OPERAND_SYMBOL n b) c st → readable g context dead x → eval st x = Some a →
  inplace_op o on_rhs k = true → in_int32 k → in_s64 a → int_binary o a k = Some c →
  triple (represents st)
    (code_generator_binary_emit_operand_load g context x r ;; emit (emit_inplace o r k))
    (represents (write_sym n c st)).
Proof using Hframe Hnarrow.
  intros Hr (Hun & Hcell & Hfit) Hx Hv Ho Hk Ha Hc. pose proof (assigned_cell n r Hcell Hr) as Hreg.
  destruct (load_leaves g context dead before Hframe st x a r Hx Hv) as (p1 & G1 & L1).
  destruct (inplace_yields o on_rhs r a k c Ho Hk Ha Hc) as (f & (p2 & A2 & L2) & Hf).
  exists (p1 ++ p2). split; [by apply gasm_seq, gasm_emit|]. intros m Hm.
  assert (leaves (p1 ++ p2) [gp_code r] m r (u64 c)) as Hl.
  { eapply leaves_app; [by apply L1|]. intros m1 Hch Hv1. rewrite <- (Hf m1 Hv1).
    apply L2. eapply changes_ok; [exact Hch|apply Hm]. }
  destruct (leaves_in_register g context dead before Hframe (Local n) r [gp_code r] st m (p1 ++ p2) (u64 c) Hreg (reflexivity _) Hm Hl)
    as (m' & Hrun & Hm' & Hv'). exists m'. split; [done|].
  by apply (fill_promoted g context dead before Hnarrow n r); [| |apply (Hfit r)| |].
Qed.


(** ** Whole instructions *)

Lemma eval_fits st x v : eval st x = Some v → in_s64 v.
Proof.
  destruct x; cbn [eval]; try done; intros H; try (apply fmap_Some in H as (w & _ & ->)); try injection H as <-;
    apply s64_range.
Qed.

Lemma eval_immediate st k v : readable g context dead (IR_OPERAND_INT k) → eval st (IR_OPERAND_INT k) = Some v → v = k.
Proof. intros Hk [= <-]. by apply s64_in. Qed.

Lemma triple_store st st' d v :
  writable g context d v st → write d v st = Some st' →
  triple (holds st [(BINARY_GP_RAX, u64 v)])
    (code_generator_binary_emit_destination_store g context d BINARY_GP_RAX) (represents st').
Proof using Hframe Hnarrow.
  intros Hd Hw. eapply triple_weaken; [| |by apply (store_correct g context dead before Hframe Hnarrow d BINARY_GP_RAX v st st'); [left|..]].
  - intros m Hm. split; [apply Hm|]. by apply (holds_in st _ m BINARY_GP_RAX _ Hm); left.
  - done.
Qed.

Lemma triple_load_rax st x v :
  readable g context dead x → eval st x = Some v →
  triple (represents st) (code_generator_binary_emit_operand_load g context x BINARY_GP_RAX)
    (holds st [(BINARY_GP_RAX, u64 v)]).
Proof using Hframe.
  intros Hx Hv. apply (triple_weaken (holds st []) _ (holds st [(BINARY_GP_RAX, u64 v)])); [|done|].
  - intros m Hm. split; [exact Hm|constructor].
  - apply (triple_load st [] []); [done..|left|done|by intros ? ?%elem_of_nil].
Qed.

(** Every operator with a value is selected. *)
Lemma register_operation_total o w a b c :
  int_binary o a b = Some c → is_Some (emit_register_operation o w).
Proof.
  unfold int_binary, binary_table, emit_register_operation, condition_opcode. cbn [assoc]. cbv zeta. intros Hc.
  repeat match type of Hc with
    | (_ ← (if String.eqb o ?k then _ else _); _) = _ =>
        destruct (String.eqb_spec o k) as [->|_]; [by eexists|]
    end.
  done.
Qed.

Lemma immediate_total o on_rhs a k c :
  rhs_immediate_supported o = true → (on_rhs = false → commutative o = true) →
  int_binary o a k = Some c → is_Some (emit_immediate o on_rhs k).
Proof.
  unfold rhs_immediate_supported, commutative, is_op, emit_immediate, emit_immediate_arithmetic, is_shift.
  cbn [existsb]. unfold is_op. cbn [existsb]. intros Ho Hl Hc.
  repeat match type of Ho with
    | context [String.eqb o ?k] => destruct (String.eqb_spec o k) as [->|_];
        [cbn in Hc, Hl |- *; destruct on_rhs; try (by eexists); try (by specialize (Hl eq_refl))|cbn [orb] in Ho, Hl]
    end; [..|done].
  all: destruct (Z.ltb_spec k 0), (Z.leb_spec 64 k); try done;
    rewrite (proj2 (Z.leb_le 0 k)), (proj2 (Z.ltb_lt k 64)) by lia; by eexists.
Qed.

Section instruction.
Variables (i : IRInstruction) (o : string) (st st' : mstate world) (a b c : Z).
Context (Hl : readable g context dead (lhs i)) (Hr : readable g context dead (rhs i)).
Context (Hla : eval st (lhs i) = Some a) (Hrb : eval st (rhs i) = Some b).
Context (Hc : int_binary o a b = Some c).
Context (Hsel : selectable o (code_generator_binary_instruction_compare_width g context i) a b).
Context (Hd : writable g context (dest i) c st) (Hw : write (dest i) c st = Some st').

Lemma general_correct : triple (represents st) (emit_general g context i o) (represents st').
Proof using All.
  unfold emit_general.
  destruct (register_operation_total o (code_generator_binary_instruction_compare_width g context i) a b c Hc) as [e He].
  rewrite He. apply (triple_seq _ (holds st [(BINARY_GP_R10, u64 b)])).
  { apply (triple_weaken (holds st []) _ (holds st [(BINARY_GP_R10, u64 b)])); [|done|].
    - intros m Hm. split; [exact Hm|constructor].
    - apply (triple_load st [] []); [done..|registers|done|by intros ? ?%elem_of_nil]. }
  apply (triple_seq _ (holds st (both a b))).
  { apply (triple_load st [(BINARY_GP_R10, u64 b)]); [done..|left|done|].
    by intros y ->%list_elem_of_singleton. }
  apply (triple_seq _ (holds st [(BINARY_GP_RAX, u64 c)])); [|by apply triple_store].
  eapply register_operation_correct; [by eapply eval_fits..|exact He|done|done].
Qed.

(** What the search for an immediate finds. *)
Lemma immediate_operand_spec x k on_rhs :
  immediate_operand i o = Some (x, k, on_rhs) →
  ∃ v, readable g context dead x ∧ eval st x = Some v ∧ in_int32 k ∧ int_binary o v k = Some c ∧
    rhs_immediate_supported o = true ∧ (on_rhs = false → commutative o = true).
Proof using All.
  assert (∀ k, rhs i = IR_OPERAND_INT k → b = k) as Hrk.
  { intros k' Hk. rewrite Hk in Hr, Hrb. by eapply eval_immediate. }
  assert (∀ k, lhs i = IR_OPERAND_INT k → a = k) as Hlk.
  { intros k' Hk. rewrite Hk in Hl, Hla. by eapply eval_immediate. }
  assert (∀ k, commutative o && code_generator_binary_immediate_fits_signed_32 k = true → lhs i = IR_OPERAND_INT k →
    ∃ v, readable g context dead (rhs i) ∧ eval st (rhs i) = Some v ∧ in_int32 k ∧ int_binary o v k = Some c ∧
      rhs_immediate_supported o = true ∧ (false = false → commutative o = true)) as Hleft.
  { intros k' [Hcom Hk]%andb_true_iff Hli. exists b. rewrite (int_binary_comm o b k'), <- (Hlk _ Hli) by done.
    split_and!; [done..|rewrite (Hlk _ Hli); by apply fits_in_int32|done| |done].
    unfold rhs_immediate_supported. by rewrite Hcom. }
  unfold immediate_operand.
  destruct (rhs i) as [| | |v| | |] eqn:Hri; destruct (lhs i) as [| | |w| | |] eqn:Hli; try done;
    repeat case_match; try done; intros [= <- <- <-];
    match goal with
    | H : rhs_immediate_supported o && _ = true |- _ =>
        apply andb_true_iff in H as [Hs Hv]; exists a; rewrite <- (Hrk v eq_refl) in *;
        split_and!; [done..|by apply fits_in_int32|done|done|done]
    | |- _ => by apply Hleft
    end.
Qed.

Lemma binary_integer_correct :
  triple (represents st) (binary_emit_binary_integer g context i o) (represents st').
Proof using All.
  unfold binary_emit_binary_integer.
  match goal with |- triple _ (match ?x with _ => _ end) _ => destruct x as [[k mask]|] eqn:Hpow end.
  { destruct (rhs i) as [| | |v| | |] eqn:Hri; try done. destruct (is_op o ["/"; "%"]%string) eqn:Ho; [|done].
    pose proof (eval_immediate _ _ _ Hr Hrb) as ->.
    destruct (power_of_two_spec v k mask Hr Hpow) as (Hk & -> & ->).
    eapply triple_seq; [by apply triple_load_rax|]. eapply triple_seq; [|by apply triple_store].
    eapply power_of_two_correct; [done|by eapply eval_fits|done|done]. }
  clear Hpow. destruct (immediate_operand i o) as [[[x k] on_rhs]|] eqn:Himm; [|apply general_correct].
  destruct (immediate_operand_spec _ _ _ Himm) as (v & Hx & Hv & Hk & Hcv & Hs & Hcom).
  destruct (if inplace_op o on_rhs k then destination_register g context i else None) as [r|] eqn:Hin.
  - destruct (inplace_op o on_rhs k) eqn:Hop; [|done]. unfold destination_register in Hin.
    destruct (dest i) as [| |n bits| | | |] eqn:Hdi; try done. injection Hw as <-.
    by eapply inplace_correct; [..|by eapply eval_fits|].
  - destruct (immediate_total o on_rhs v k c Hs Hcom Hcv) as [e He]. rewrite He.
    eapply triple_seq; [by apply triple_load_rax|]. eapply triple_seq; [|by apply triple_store].
    eapply immediate_correct; [exact He| |done|by eapply eval_fits|done].
    intros ->. by vm_compute in Hs.
Qed.

End instruction.

(** The operators of one operand, on RAX. *)
Lemma unary_integer_correct i o st st' a c :
  readable g context dead (lhs i) → eval st (lhs i) = Some a → int_unary o a = Some c →
  writable g context (dest i) c st → write (dest i) c st = Some st' →
  triple (represents st) (emit_unary_integer g context i o) (represents st').
Proof using Hframe Hnarrow.
  intros Hl Hla Hc Hd Hw. pose proof (eval_fits _ _ _ Hla) as Ha.
  unfold emit_unary_integer, int_unary in *. cbn [assoc] in Hc.
  apply (triple_seq _ (holds st [(BINARY_GP_RAX, u64 a)])); [by apply triple_load_rax|].
  destruct (String.eqb_spec o "+") as [->|]; [|destruct (String.eqb_spec o "-") as [->|];
    [|destruct (String.eqb_spec o "!") as [->|]; [|destruct (String.eqb_spec o "~") as [->|]; [|done]]]];
    cbn in Hc; injection Hc as <-; cbn [String.eqb Ascii.eqb Bool.eqb];
    (eapply triple_seq; [|by apply triple_store]).
  - exists []. split; [apply gasm_emit, asm_ret|]. intros m Hm. by exists m.
  - eapply triple_rax; [apply yields_neg|apply rax_scratch|]. intros m _ Hm. codes.
    by rewrite Hm, u64_s64, <- (Z.sub_0_l (u64 a)), u64_sub_r.
  - eapply triple_rax; [apply (yields_compare 4 _ _ _ _ tests_eq (compares_zero _))|apply rax_scratch|].
    intros m _ Hm. codes. rewrite Hm, s64_u64, s64_in by done. by destruct (a =? 0)%Z.
  - eapply triple_rax; [apply yields_not|apply rax_scratch|]. intros m _ Hm. codes.
    rewrite Hm, u64_sub_r. f_equal. unfold Z.lnot. lia.
Qed.

End selection.

(** ** The instructions of the intermediate representation *)

(** What an instruction needs of the frame and of the state it runs in. *)
Definition operands_placed {M : Machine} (g : CodeGenerator) (context : BinaryFunctionContext)
    (dead : string → Prop) (i : IRInstruction) (st : mstate world) : Prop :=
  readable g context dead (lhs i) ∧
  (op i = IR_OP_BINARY → readable g context dead (rhs i) ∧
     ∀ o a b, text i = Some o → eval st (lhs i) = Some a → eval st (rhs i) = Some b →
       selectable o (code_generator_binary_instruction_compare_width g context i) a b) ∧
  ∀ v, rhs_value i st = Some v → writable g context (dest i) v st.

(** The two kinds of integer instructions. *)
Lemma integer_binary_step {M : Machine} g context dead before i o st st' :
  frame_ok g context → narrows_as_typed g context →
  op i = IR_OP_BINARY → is_float i = false → text i = Some o →
  operands_placed g context dead i st → IRSemantics.exec i st = Some st' →
  triple (represents g context dead before st) (binary_emit_binary_integer g context i o)
    (represents g context dead before st').
Proof.
  intros Hf Hn Hop Hfl Ht (Hl & Hb & Hd) He. destruct (Hb Hop) as [Hr Hsel]. clear Hb.
  unfold IRSemantics.exec, computes in He. rewrite Hop in He. apply bind_Some in He as (c & Hc & Hw).
  specialize (Hd c Hc). unfold rhs_value, binary in Hc. rewrite Hop, Ht, Hfl in Hc.
  apply bind_Some in Hc as (a & Ha & Hc). apply bind_Some in Hc as (b & Hb & Hc).
  apply (binary_integer_correct g context Hf dead before Hn i o st st' a b c); auto.
Qed.

Lemma integer_unary_step {M : Machine} g context dead before i o st st' :
  frame_ok g context → narrows_as_typed g context →
  op i = IR_OP_UNARY → is_float i = false → text i = Some o →
  is_op o ["+"; "-"; "!"; "~"]%string = true →
  operands_placed g context dead i st → IRSemantics.exec i st = Some st' →
  triple (represents g context dead before st) (emit_unary_integer g context i o) (represents g context dead before st').
Proof.
  intros Hf Hn Hop Hfl Ht Ho (Hl & _ & Hd) He.
  assert (o ≠ "*"%string ∧ o ≠ "&"%string) as [Hs Ha] by (split; by intros ->).
  unfold IRSemantics.exec, computes in He. rewrite Hop, Ht in He.
  rewrite (proj2 (String.eqb_neq _ _) Hs), (proj2 (String.eqb_neq _ _) Ha) in He.
  apply bind_Some in He as (c & Hc & Hw). specialize (Hd c Hc).
  unfold rhs_value, IRSemantics.unary in Hc. rewrite Hop, Ht, Hfl in Hc. apply bind_Some in Hc as (a & Hav & Hc).
  apply (unary_integer_correct g context Hf dead before Hn i o st st' a c); try done.
  destruct (int_unary o a) eqn:Hi; [done|]. exfalso. unfold int_unary, is_op in *. cbn [assoc existsb] in *.
  by repeat match type of Hi with
    | (_ ← (if String.eqb o ?k then _ else _); _) = _ => destruct (String.eqb o k); [done|]
    end.
Qed.

(** C3. The machine code selected for an integer operator of two operands takes every
    machine state that represents a state of the intermediate representation to one that
    represents the state the instruction leads to, when the instruction is placed
    ([operands_placed]): its operands are immediates or variables with a cell, a promoted
    register or a stack slot of any width, its destination is a variable with a cell of
    its own, not shared with an alias, and the value fits the destination's type if that
    is a promoted register (in a slot of its own width it need not); the operands of [&&]
    are truth values and those of a comparison of width 4 signed 32-bit numbers.  It holds
    for whichever of the immediate, in-place, power-of-two and register forms is chosen. *)
Theorem integer_binary_correct {M : Machine} g context dead before i o st st' :
  frame_ok g context → narrows_as_typed g context →
  op i = IR_OP_BINARY → is_float i = false → text i = Some o →
  operands_placed g context dead i st → IRSemantics.exec i st = Some st' →
  triple (represents g context dead before st) (binary_emit_binary_integer g context i o)
    (represents g context dead before st').
Proof. intros. by apply (integer_binary_step g context dead before i o). Qed.

(** C4. The same for the operators [+], [-], [!] and [~] of one operand, under the same
    conditions on the operand and the destination ([popcnt], whose code counts 32 bits only,
    is another function's). *)
Theorem integer_unary_correct {M : Machine} g context dead before i o st st' :
  frame_ok g context → narrows_as_typed g context →
  op i = IR_OP_UNARY → is_float i = false → text i = Some o →
  is_op o ["+"; "-"; "!"; "~"]%string = true →
  operands_placed g context dead i st → IRSemantics.exec i st = Some st' →
  triple (represents g context dead before st) (emit_unary_integer g context i o) (represents g context dead before st').
Proof. intros. by apply (integer_unary_step g context dead before i o). Qed.

(** ** A small frame *)

(** [x] at [rbp - 8], [i] promoted to RBX, [t] at [rbp - 24]. *)
Definition example_context : BinaryFunctionContext :=
  mkContext [] [("x", 8); ("i", 16)]%Z%string [("t", 24%Z)]%string [] [] [] []
    [("i", gp_code BINARY_GP_RBX)]%string [] [BINARY_GP_RBX] [32%Z] 32 32 0 false 0 []
    (Ast.mkFunction "f" [] None None false false None []) None.
Definition example_generator : CodeGenerator :=
  mkGenerator symbol_table_create ∅ (λ _, None) None None (λ _, None) (λ _, None) (λ _, false).

Example example_cells :
  map (cell_of example_generator example_context) [Temp "t"; Local "x"; Local "i"; Local "y"]%string =
    [Some (On_stack 24 8 false); Some (On_stack 8 8 false); Some (In_register BINARY_GP_RBX); None].
Proof. vm_compute. reflexivity. Qed.

Lemma example_frame_ok : frame_ok example_generator example_context.
Proof. apply frame_check_ok. vm_compute. reflexivity. Qed.

Lemma example_narrows : narrows_as_typed (M := toy_machine) example_generator example_context.
Proof.
  intros n v [c Hc] Hv. apply cell_placed in Hc.
  assert (n = "x"%string ∨ n = "i"%string) as [-> | ->].
  { apply list_elem_of_In in Hc. simpl in Hc. intuition congruence. }
  all: cbn; rewrite s64_in; done.
Qed.

(** Every temporary is in its cell. *)
Definition no_dead (_ : string) : Prop := False.

Definition example_machine : machine := mkMachine (λ _, 0%Z) None (λ _, byte.of_Z 0).

Definition example_state : mstate (@world toy_machine) :=
  mkState ∅ {["x"%string := 5%Z; "i"%string := (-7)%Z]} [].

Lemma integer_binary_correct_witness :
  let i := i_binary (temp "t") (sym "i") "-" (sym "x") in
  triple (represents (M := toy_machine) example_generator example_context no_dead example_machine example_state)
    (binary_emit_binary_integer example_generator example_context i "-")
    (represents example_generator example_context no_dead example_machine (write_temp "t" (-12) example_state)).
Proof.
  apply integer_binary_correct; try reflexivity; [apply example_frame_ok|apply example_narrows|].
  split_and!.
  - by exists "i"%string; split; [|eexists].
  - intros _. split; [by exists "x"%string; split; [|eexists]|].
    intros o a b [= <-] _ _. by split.
  - intros v _. by eexists.
Defined.

(** [i = -i], in its register. *)
Lemma integer_unary_correct_witness :
  let i := IRSemantics.instr IR_OP_UNARY (sym "i") (sym "i") IR_OPERAND_NONE (Some "-"%string) in
  triple (represents (M := toy_machine) example_generator example_context no_dead example_machine example_state)
    (emit_unary_integer example_generator example_context i "-")
    (represents example_generator example_context no_dead example_machine (write_sym "i" 7 example_state)).
Proof.
  apply integer_unary_correct; try reflexivity; [apply example_frame_ok|apply example_narrows|].
  split_and!.
  - by exists "i"%string; split; [|eexists].
  - done.
  - intros v [= <-]. split; [|by split; [eexists|]]. split; [done|].
    intros n' w Hne _. by vm_compute in *; injection 1.
Defined.
