(* ===== verification/Execution.v ===== *)
(** * Running and assembling the bytes of a function

    The processor fetches the instruction at an offset of the code, executes it and
    goes on after it; jumps add their displacement to the offset after them, and a
    return leaves the code. *)

From S2P Require Import Prelude.
From S2P Require Import X86.
From S2P Require Import Encoders.
From S2P Require Import EncoderFacts.
From S2P Require Import FunctionContext.
From S2P Require Import FrameFacts.
From S2P Require Import FunctionDriver.

(** Where control is: at an offset of the code, or at the address a return popped. *)
Inductive code_status : Type :=
  | Running (pc : Z) (m : machine)
  | Returned (address : Z) (m : machine).

Section code.
Context (code : list byte).

(** The instruction at an offset and the offset after it. *)
Definition fetch (pc : Z) : option (instr * Z) :=
  if (pc <? 0)%Z then None
  else '(i, rest) ← decode (drop (Z.to_nat pc) code);
       Some (i, Z.of_nat (length code - length rest)).

Definition code_step (s : code_status) : option code_status :=
  match s with
  | Returned _ _ => None
  | Running pc m =>
      '(i, next) ← fetch pc;
      match i with
      | JMP d => Some (Running (next + d) m)
      | JCC cc d =>
          f ← X86.status m; b ← condition cc f;
          Some (Running (if b : bool then next + d else next) m)
      | RET => Some (Returned (load m 8 (regs m RSP)) (set_reg m W64 RSP (regs m RSP + 8)))
      | i => match exec i m with Next m' => Some (Running next m') | _ => None end
      end
  end%Z.

Fixpoint code_run (n : nat) (s : code_status) : option code_status :=
  match n with
  | O => Some s
  | S n => s' ← code_step s; code_run n s'
  end.

(** Some number of steps. *)
Definition leads (s s' : code_status) : Prop := ∃ n, code_run n s = Some s'.

Lemma code_run_add n k s : code_run (n + k) s = s' ← code_run n s; code_run k s'.
Proof.
  revert s. induction n as [|n IH]; intros s; [done|]. cbn [Nat.add code_run].
  destruct (code_step s); [apply IH|done].
Qed.

Lemma leads_refl s : leads s s.
Proof. by exists 0. Qed.

Lemma leads_trans s1 s2 s3 : leads s1 s2 → leads s2 s3 → leads s1 s3.
Proof. intros [n Hn] [k Hk]. exists (n + k). by rewrite code_run_add, Hn. Qed.

Lemma leads_step s1 s2 : code_step s1 = Some s2 → leads s1 s2.
Proof. intros Hs. exists 1. cbn. by rewrite Hs. Qed.

(** Fetching at a known place. *)
Lemma fetch_at before b i after :
  code = before ++ b ++ after → (∀ rest, decode (b ++ rest) = Some (i, rest)) →
  fetch (Z.of_nat (length before)) = Some (i, Z.of_nat (length before + length b)).
Proof.
  intros Hc Hd. unfold fetch. rewrite (proj2 (Z.ltb_ge _ _)) by lia.
  rewrite Nat2Z.id, Hc, drop_app_length, Hd. cbn [mbind option_bind]. do 2 f_equal.
  rewrite !length_app. lia.
Qed.

(** Straight code. *)
Lemma leads_next before b i after m m' :
  code = before ++ b ++ after → (∀ rest, decode (b ++ rest) = Some (i, rest)) → exec i m = Next m' →
  leads (Running (Z.of_nat (length before)) m) (Running (Z.of_nat (length before + length b)) m').
Proof.
  intros Hc Hd Hx. apply leads_step. unfold code_step. rewrite (fetch_at before b i after) by done.
  cbn [mbind option_bind]. destruct i; try done; by rewrite Hx.
Qed.

Lemma leads_jump before b d after m :
  code = before ++ b ++ after → (∀ rest, decode (b ++ rest) = Some (JMP d, rest)) →
  leads (Running (Z.of_nat (length before)) m) (Running (Z.of_nat (length before + length b) + d) m).
Proof.
  intros Hc Hd. apply leads_step. unfold code_step. by rewrite (fetch_at before b (JMP d) after).
Qed.

Lemma leads_branch before b cc d after m f (c : bool) :
  code = before ++ b ++ after → (∀ rest, decode (b ++ rest) = Some (JCC cc d, rest)) →
  X86.status m = Some f → condition cc f = Some c →
  leads (Running (Z.of_nat (length before)) m)
    (Running (if c then Z.of_nat (length before + length b) + d else Z.of_nat (length before + length b)) m).
Proof.
  intros Hc Hd Hf Hb. apply leads_step. unfold code_step. rewrite (fetch_at before b (JCC cc d) after) by done.
  cbn [mbind option_bind]. rewrite Hf. cbn [mbind option_bind]. rewrite Hb. done.
Qed.

Lemma leads_return before b after m :
  code = before ++ b ++ after → (∀ rest, decode (b ++ rest) = Some (RET, rest)) →
  leads (Running (Z.of_nat (length before)) m)
    (Returned (load m 8 (regs m RSP)) (set_reg m W64 RSP (regs m RSP + 8))).
Proof.
  intros Hc Hd. apply leads_step. unfold code_step. by rewrite (fetch_at before b RET after).
Qed.

End code.

(** ** Assembling a function

    Emission as a list of pieces: instructions, jumps whose field is filled in later
    and the places of labels.  What the pieces mean when they run, and that patching
    every recorded field gives the bytes in which each jump reaches its target. *)

(** ** Pieces *)

Inductive target : Type := To_label (l : string) | To_end.

(** The condition code of a jump; [None] for one that is always taken. *)
Inductive piece : Type :=
  | Plain (i : instr) (bytes : list byte)
  | Jump (cc : option Z) (header : list byte) (t : target)
  | Mark (l : string).

Definition jump_instr (cc : option Z) (d : Z) : instr := match cc with Some c => JCC c d | None => JMP d end.

Definition piece_ok (p : piece) : Prop :=
  match p with
  | Plain i b => ∀ rest, decode (b ++ rest) = Some (i, rest)
  | Jump cc h _ => ∀ v rest, decode (h ++ le_split 4 v ++ rest) = Some (jump_instr cc (s32 v), rest)
  | Mark _ => True
  end.

(** What a piece adds to the output. *)
Definition play_one (o : Output) (p : piece) : Output :=
  match p with
  | Plain _ b => set_code (out_code o ++ b) o
  | Jump _ h t =>
      let o' := set_code (out_code o ++ h ++ le_split 4 0) o in
      let field := length (out_code o) + length h in
      match t with
      | To_label l => set_label_fixups (label_fixups o ++ [(l, field)]) o'
      | To_end => set_return_fixups (return_fixups o ++ [field]) o'
      end
  | Mark l => set_labels (labels o ++ [(l, length (out_code o))]) o
  end.

Definition play (ps : list piece) (o : Output) : Output := foldl play_one o ps.

Definition is_mark (p : piece) : bool := match p with Mark _ => true | _ => false end.
Definition marks (ps : list piece) : bool := existsb is_mark ps.

(** Where pieces may be emitted: no temporary holds the address of a struct. *)
Definition clean (o : Output) : Prop := indirect_temps o = [].

(** [e] emits the pieces and returns [a]; it may refuse if it defines labels. *)
Definition plays {A} (e : Gen A) (a : A) (ps : list piece) : Prop :=
  Forall piece_ok ps ∧
  ∀ o, clean o → e o = (Some a, play ps o) ∨ marks ps = true ∧ fst (e o) = None.

Lemma play_app ps qs o : play (ps ++ qs) o = play qs (play ps o).
Proof. apply foldl_app. Qed.

Lemma play_clean ps o : clean o → clean (play ps o).
Proof.
  revert o. induction ps as [|p ps IH]; intros o Ho; [done|]. apply IH. destruct p as [| ? ? []|]; exact Ho.
Qed.

Lemma plays_ret {A} (a : A) : plays (mret a) a [].
Proof. split; [constructor|]. intros o _. by left. Qed.

Lemma plays_bind {A B} (e : Gen A) (f : A → Gen B) a b ps qs :
  plays e a ps → plays (f a) b qs → plays (e ≫= f) b (ps ++ qs).
Proof.
  intros [Hp He] [Hq Hf]. split; [by apply Forall_app|]. intros o Ho.
  unfold mbind, Gen_bind, marks. rewrite existsb_app, orb_true_iff.
  destruct (He o Ho) as [->|[Hm Hn]].
  - rewrite play_app. destruct (Hf (play ps o) (play_clean ps o Ho)) as [->|[Hm Hn]]; eauto.
  - right. split; [by left|]. by destruct (e o) as [[] ?].
Qed.

Lemma plays_jump (e : Emit nat) cc t (l : string) :
  patchable e (jump_instr cc) → t = To_label l →
  ∃ h, plays (fixup ← emit e; binary_label_fixup_table_add l fixup) () [Jump cc h t].
Proof.
  intros (h & He & Hd) ->. exists h. split; [by repeat constructor|]. intros o _. left.
  unfold mbind, Gen_bind, emit. by rewrite He.
Qed.

Lemma plays_return (e : Emit nat) cc :
  patchable e (jump_instr cc) →
  ∃ h, plays (fixup ← emit e; binary_offset_table_add fixup) () [Jump cc h To_end].
Proof.
  intros (h & He & Hd). exists h. split; [by repeat constructor|]. intros o _. left.
  unfold mbind, Gen_bind, emit. by rewrite He.
Qed.

(** ** Running pieces *)

Inductive exit : Type := Fall | To (t : target).

Fixpoint run_pieces (ps : list piece) (m : machine) : option (exit * machine) :=
  match ps with
  | [] => Some (Fall, m)
  | Plain i _ :: ps => match exec i m with Next m' => run_pieces ps m' | _ => None end
  | Jump None _ t :: _ => Some (To t, m)
  | Jump (Some cc) _ t :: ps =>
      f ← status m; b ← condition cc f; if b : bool then Some (To t, m) else run_pieces ps m
  | Mark _ :: ps => run_pieces ps m
  end.

Lemma run_pieces_app ps qs m m' :
  run_pieces ps m = Some (Fall, m') → run_pieces (ps ++ qs) m = run_pieces qs m'.
Proof.
  revert m. induction ps as [|p ps IH]; intros m; cbn; [by intros [= ->]|].
  destruct p as [i b|[cc|] h t|l]; [|..|apply IH].
  - destruct (exec i m); [apply IH|done..].
  - destruct (status m) as [f|]; [|done]. cbn. destruct (condition cc f) as [[]|]; cbn; [done|apply IH|done].
  - done.
Qed.

Lemma run_pieces_exit ps qs m t m' :
  run_pieces ps m = Some (To t, m') → run_pieces (ps ++ qs) m = Some (To t, m').
Proof.
  revert m. induction ps as [|p ps IH]; intros m; cbn; [done|].
  destruct p as [i b|[cc|] h t'|l]; [|..|apply IH].
  - destruct (exec i m); [apply IH|done..].
  - destruct (status m) as [f|]; [|done]. cbn. destruct (condition cc f) as [[]|]; cbn; [done|apply IH|done].
  - done.
Qed.

(** *** Straight code *)

Definition plain_pieces (p : list instr) (bs : list (list byte)) : list piece := zip_with Plain p bs.

Lemma codes_pieces bytes p :
  codes bytes p → ∃ ps, Forall piece_ok ps ∧ marks ps = false ∧
    (∀ o, play ps o = set_code (out_code o ++ bytes) o) ∧
    ∀ m, run_pieces ps m = match X86.run p m with Next m' => Some (Fall, m') | _ => None end.
Proof.
  induction 1 as [|b i bytes p Hd _ (ps & Hok & Hm & Hp & Hr)].
  - exists []. split_and!; [constructor|done|intros []; by rewrite app_nil_r|done].
  - exists (Plain i b :: ps). split_and!; [by constructor|done| |].
    + intros o. cbn. fold (play ps (set_code (out_code o ++ b) o)). rewrite Hp. cbn. by rewrite app_assoc.
    + intros m. cbn. destruct (exec i m); [apply Hr|done..].
Qed.

Lemma gasm_plays e p :
  gasm e p → ∃ ps, plays e () ps ∧ marks ps = false ∧
    ∀ m, run_pieces ps m = match X86.run p m with Next m' => Some (Fall, m') | _ => None end.
Proof.
  intros (bytes & He & Hc). destruct (codes_pieces _ _ Hc) as (ps & Hok & Hm & Hp & Hr).
  exists ps. split_and!; [|done|done]. split; [done|]. intros o _. left. by rewrite He, Hp.
Qed.

(** ** The bytes *)

(** The pieces' bytes from the offset [base] on, with the fields given by their
    offsets. *)
Fixpoint assemble (field : nat → list byte) (base : nat) (ps : list piece) : list byte :=
  match ps with
  | [] => []
  | Plain _ b :: ps => b ++ assemble field (base + length b) ps
  | Jump _ h _ :: ps => h ++ field (base + length h) ++ assemble field (base + length h + 4) ps
  | Mark _ :: ps => assemble field base ps
  end.

Definition piece_size (p : piece) : nat :=
  match p with Plain _ b => length b | Jump _ h _ => length h + 4 | Mark _ => 0 end.
Fixpoint pieces_size (ps : list piece) : nat :=
  match ps with [] => 0 | p :: ps => piece_size p + pieces_size ps end.

Lemma pieces_size_app ps qs : pieces_size (ps ++ qs) = pieces_size ps + pieces_size qs.
Proof. induction ps as [|p ps IH]; cbn; [done|]. by rewrite IH, Nat.add_assoc. Qed.

(** The fields and the targets of the jumps, and the places of the labels. *)
Fixpoint jump_fields (base : nat) (ps : list piece) : list (target * nat) :=
  match ps with
  | [] => []
  | p :: ps =>
      match p with Jump _ h t => [(t, base + length h)] | _ => [] end ++
      jump_fields (base + piece_size p) ps
  end.
Fixpoint label_places (base : nat) (ps : list piece) : list (string * nat) :=
  match ps with
  | [] => []
  | p :: ps => match p with Mark l => [(l, base)] | _ => [] end ++ label_places (base + piece_size p) ps
  end.

Definition four (field : nat → list byte) : Prop := ∀ k, length (field k) = 4.
Definition zeros (_ : nat) : list byte := le_split 4 0.

Lemma four_zeros : four zeros.
Proof. done. Qed.

Lemma length_assemble field base ps : four field → length (assemble field base ps) = pieces_size ps.
Proof.
  intros Hf. revert base. induction ps as [|[i b|cc h t|l] ps IH]; intros base; cbn; rewrite ?length_app, ?IH, ?Hf; lia.
Qed.

Lemma assemble_app field base ps qs :
  assemble field base (ps ++ qs) = assemble field base ps ++ assemble field (base + pieces_size ps) qs.
Proof.
  revert base. induction ps as [|[i b|cc h t|l] ps IH]; intros base; cbn.
  - by rewrite Nat.add_0_r.
  - by rewrite IH, <- app_assoc, Nat.add_assoc.
  - rewrite IH, <- !app_assoc.
    by replace (base + length h + 4 + pieces_size ps) with (base + (length h + 4 + pieces_size ps)) by lia.
  - by rewrite IH.
Qed.

Lemma jump_fields_app base ps qs :
  jump_fields base (ps ++ qs) = jump_fields base ps ++ jump_fields (base + pieces_size ps) qs.
Proof.
  revert base. induction ps as [|p ps IH]; intros base; cbn; [by rewrite Nat.add_0_r|].
  by rewrite IH, <- app_assoc, Nat.add_assoc.
Qed.

Lemma label_places_app base ps qs :
  label_places base (ps ++ qs) = label_places base ps ++ label_places (base + pieces_size ps) qs.
Proof.
  revert base. induction ps as [|p ps IH]; intros base; cbn; [by rewrite Nat.add_0_r|].
  by rewrite IH, <- app_assoc, Nat.add_assoc.
Qed.

Lemma jump_fields_range base ps t k :
  (t, k) ∈ jump_fields base ps → base <= k ∧ k + 4 <= base + pieces_size ps.
Proof.
  revert base. induction ps as [|p ps IH]; intros base; cbn; [by intros ?%elem_of_nil|].
  rewrite elem_of_app. intros [H|H%IH]; [|lia].
  destruct p; cbn in *; [by apply elem_of_nil in H|apply list_elem_of_singleton in H; simplify_eq; lia|by apply elem_of_nil in H].
Qed.

Lemma jump_fields_nodup base ps : NoDup (map snd (jump_fields base ps)).
Proof.
  revert base. induction ps as [|p ps IH]; intros base; cbn; [constructor|].
  destruct p as [i b|cc h t|l]; cbn; [apply IH| |apply IH]. constructor; [|apply IH].
  intros ([t' k'] & Hk & Hin)%list_elem_of_fmap. cbn in Hk. subst k'. apply jump_fields_range in Hin. lia.
Qed.

(** What playing pieces leaves in the output. *)
Definition label_fields (fs : list (target * nat)) : list (string * nat) :=
  omap (λ p, match p.1 with To_label l => Some (l, p.2) | To_end => None end) fs.
Definition end_fields (fs : list (target * nat)) : list nat :=
  omap (λ p, match p.1 with To_end => Some p.2 | To_label _ => None end) fs.

Lemma play_spec ps o :
  let base := length (out_code o) in
  let fs := jump_fields base ps in
  out_code (play ps o) = out_code o ++ assemble zeros base ps ∧
  label_fixups (play ps o) = label_fixups o ++ label_fields fs ∧
  return_fixups (play ps o) = return_fixups o ++ end_fields fs ∧
  labels (play ps o) = labels o ++ label_places base ps ∧
  call_relocations (play ps o) = call_relocations o ∧ emitter (play ps o) = emitter o ∧
  current_label_id (play ps o) = current_label_id o.
Proof.
  revert o. induction ps as [|p ps IH]; intros o; cbn [play foldl assemble jump_fields label_places].
  { cbn. by rewrite !app_nil_r. }
  fold (play ps (play_one o p)). destruct (IH (play_one o p)) as (H1 & H2 & H3 & H4 & H5 & H6 & H7).
  rewrite H1, H2, H3, H4, H5, H6, H7. unfold label_fields, end_fields. rewrite !omap_app.
  destruct p as [i b|cc h [l|]|l]; cbn; rewrite ?length_app, ?Nat.add_0_r, <- ?app_assoc; try done.
  all: change (length (le_split 4 0)) with 4; by rewrite ?Nat.add_assoc.
Qed.

(** ** Patching *)

Definition patched (field : nat → list byte) (k : nat) (v : list byte) : nat → list byte :=
  λ k', if k' =? k then v else field k'.

Lemma assemble_ext f1 f2 base ps :
  (∀ t k, (t, k) ∈ jump_fields base ps → f1 k = f2 k) → assemble f1 base ps = assemble f2 base ps.
Proof.
  revert base. induction ps as [|[i b|cc h t|l] ps IH]; intros base H; cbn; [done|..].
  - f_equal. by apply IH.
  - rewrite (H t (base + length h)) by left. do 2 f_equal. apply IH. intros t' k Hk. apply (H t'). right.
    cbn. by rewrite Nat.add_assoc.
  - apply IH. intros t k Hk. apply (H t). cbn. by rewrite Nat.add_0_r.
Qed.

Lemma overwrite_assemble field before ps after t k v :
  four field → length v = 4 → (t, k) ∈ jump_fields (length before) ps →
  overwrite k v (before ++ assemble field (length before) ps ++ after) =
  before ++ assemble (patched field k v) (length before) ps ++ after.
Proof.
  intros Hf Hv. revert before. induction ps as [|p ps IH]; intros before; cbn [jump_fields]; [by intros ?%elem_of_nil|].
  rewrite elem_of_app. intros Hin. destruct p as [i b|cc h t'|l]; cbn in Hin |- *.
  - destruct Hin as [H|Hin]; [by apply elem_of_nil in H|].
    specialize (IH (before ++ b)). rewrite length_app, <- !app_assoc in IH. rewrite <- !app_assoc. by apply IH.
  - destruct Hin as [H|Hin].
    + apply list_elem_of_singleton in H. injection H as -> ->.
      rewrite <- !app_assoc, !(app_assoc before h). rewrite <- length_app, overwrite_middle by by rewrite Hf.
      unfold patched at 1. rewrite Nat.eqb_refl. do 3 f_equal. apply assemble_ext. intros t'' k' Hk'.
      unfold patched. rewrite (proj2 (Nat.eqb_neq _ _)); [done|].
      apply jump_fields_range in Hk'. rewrite length_app in *. lia.
    + pose proof (jump_fields_range _ _ _ _ Hin) as Hr.
      specialize (IH (before ++ h ++ field (length before + length h))).
      rewrite !length_app, Hf, <- !app_assoc in IH. unfold patched at 1. rewrite (proj2 (Nat.eqb_neq _ _)) by lia.
      rewrite <- !app_assoc. rewrite Nat.add_assoc in Hin, IH. by apply IH.
  - destruct Hin as [H|Hin]; [by apply elem_of_nil in H|]. rewrite Nat.add_0_r in Hin. by apply IH.
Qed.

(** The field of a jump to the offset [n]. *)
Definition aims (field : nat → list byte) (k n : nat) : Prop :=
  let d := (Z.of_nat n - Z.of_nat (k + 4))%Z in field k = le_split 4 d ∧ in_int32 d.

Section patch.
Variables (before after : list byte) (ps : list piece).

Abbreviation code_with field := (before ++ assemble field (length before) ps ++ after).

Lemma patch_one field t k n c :
  four field → (t, k) ∈ jump_fields (length before) ps →
  binary_function_context_patch_rel32 k n (code_with field) = (Some (), c) →
  ∃ v, c = code_with (patched field k v) ∧ four (patched field k v) ∧ aims (patched field k v) k n.
Proof.
  intros Hf Hk Hp. unfold binary_function_context_patch_rel32 in Hp.
  destruct (length (code_with field) <? k + 4); [done|]. case_match; [done|]. injection Hp as <-.
  exists (le_split 4 (Z.of_nat n - Z.of_nat (k + 4))). rewrite (overwrite_assemble _ _ _ _ t) by done. split_and!.
  - done.
  - intros k'. unfold patched. by destruct (k' =? k).
  - unfold aims, patched. rewrite Nat.eqb_refl. split; [done|].
    unfold in_int32, INT32_MIN, INT32_MAX in *.
    match goal with H : _ = false |- _ => apply orb_false_iff in H as [H1%Z.ltb_ge H2%Z.ltb_ge] end. lia.
Qed.

(** A loop that patches the fields of [fs] one after the other. *)
Lemma patch_loop {A} (f : A → Gen ()) (key : A → nat) (good : A → nat → Prop) table fs :
  (∀ a o o', labels o = table → f a o = (Some (), o') →
     ∃ n, good a n ∧ (λ r, (fst r, set_code (snd r) o)) (binary_function_context_patch_rel32 (key a) n (out_code o)) = (Some (), o')) →
  ∀ field o o', labels o = table → four field → NoDup (map key fs) →
    (∀ a, a ∈ fs → ∃ t, (t, key a) ∈ jump_fields (length before) ps) →
    out_code o = code_with field → for_each f fs o = (Some (), o') →
    ∃ field', four field' ∧ o' = set_code (code_with field') o ∧
      (∀ a, a ∈ fs → ∃ n, good a n ∧ aims field' (key a) n) ∧
      (∀ k, k ∉ map key fs → field' k = field k).
Proof.
  intros Hstep. induction fs as [|a fs IH]; intros field o o' Ht Hf Hnd Hin Hc Hr; cbn in Hr.
  - injection Hr as <-. exists field. split_and!; [done|by rewrite <- Hc; destruct o|by intros ? ?%elem_of_nil|done].
  - unfold mbind, Gen_bind in Hr. destruct (f a o) as [[[]|] o1] eqn:H1; [|done].
    destruct (Hstep _ _ _ Ht H1) as (n & Hg & Hp).
    destruct (binary_function_context_patch_rel32 (key a) n (out_code o)) as [r c] eqn:Hp'. injection Hp as -> <-.
    destruct (Hin a) as [t Hta]; [by left|]. rewrite Hc in Hp'.
    destruct (patch_one _ _ _ _ _ Hf Hta Hp') as (v & -> & Hf1 & Ha1).
    cbn [map] in Hnd. apply NoDup_cons in Hnd as [Hna Hnd].
    destruct (IH _ (set_code (code_with (patched field (key a) v)) o) o' Ht Hf1 Hnd) as (f2 & Hf2 & -> & Hgood & Hother); [by intros ? ?; apply Hin; right|done|done|].
    exists f2. split_and!; [done|done| |].
    + intros a' [->|Ha']%elem_of_cons; [|by apply Hgood]. exists n. split; [done|].
      unfold aims. rewrite Hother by done. apply Ha1.
    + intros k [Hk Hk']%not_elem_of_cons. rewrite Hother by done. unfold patched. by rewrite (proj2 (Nat.eqb_neq _ _)).
Qed.

End patch.

(** Where a target is. *)
Definition target_offset (table : BinaryLabelTable) (return_offset : nat) (t : target) : option nat :=
  match t with To_label l => binary_label_table_get table l | To_end => Some return_offset end.

(** Every field aims at its target. *)
Definition resolved (table : BinaryLabelTable) (return_offset : nat) (field : nat → list byte)
    (fs : list (target * nat)) : Prop :=
  ∀ t k, (t, k) ∈ fs → ∃ n, target_offset table return_offset t = Some n ∧ aims field k n.

Lemma elem_of_label_fields l k fs : (l, k) ∈ label_fields fs ↔ (To_label l, k) ∈ fs.
Proof.
  unfold label_fields. rewrite list_elem_of_omap. split.
  - intros ([t k'] & Hin & Hx). destruct t; [|done]. by injection Hx as -> ->.
  - intros Hin. by exists (To_label l, k).
Qed.

Lemma elem_of_end_fields k fs : k ∈ end_fields fs ↔ (To_end, k) ∈ fs.
Proof.
  unfold end_fields. rewrite list_elem_of_omap. split.
  - intros ([t k'] & Hin & Hx). destruct t; [done|]. by injection Hx as ->.
  - intros Hin. by exists (To_end, k).
Qed.

Lemma fields_nodup fs :
  NoDup (map snd fs) → NoDup (map snd (label_fields fs)) ∧ NoDup (map id (end_fields fs)) ∧
  ∀ k, k ∈ map snd (label_fields fs) → k ∉ end_fields fs.
Proof.
  rewrite list_fmap_id. induction fs as [|[t k] fs IH]; intros Hnd; cbn.
  { split_and!; [constructor|constructor|by intros ? ?%elem_of_nil]. }
  cbn in Hnd. apply NoDup_cons in Hnd as [Hk Hnd]. destruct (IH Hnd) as (H1 & H2 & H3).
  assert (k ∉ map snd (label_fields fs)) as Hkl.
  { intros ([l k'] & -> & Hin%elem_of_label_fields)%list_elem_of_fmap. apply Hk.
    apply list_elem_of_fmap. by exists (To_label l, k'). }
  assert (k ∉ end_fields fs) as Hke.
  { intros Hin%elem_of_end_fields. apply Hk. apply list_elem_of_fmap. by exists (To_end, k). }
  destruct t; cbn.
  - split_and!; [by constructor|done|]. intros k' [->|?]%elem_of_cons; auto.
  - split_and!; [done|by constructor|]. intros k' Hk' [->|?]%elem_of_cons; [done|by eapply H3].
Qed.

(** Patching every field of the pieces between [before] and [after]. *)
Lemma resolve_fixups_spec return_offset before ps after o o' :
  let fs := jump_fields (length before) ps in
  out_code o = before ++ assemble zeros (length before) ps ++ after →
  label_fixups o = label_fields fs → return_fixups o = end_fields fs →
  code_generator_binary_resolve_fixups return_offset o = (Some (), o') →
  ∃ field, four field ∧ o' = set_code (before ++ assemble field (length before) ps ++ after) o ∧
    resolved (labels o) return_offset field fs.
Proof.
  intros fs Hc Hl Hr He. unfold code_generator_binary_resolve_fixups in He.
  unfold mbind, Gen_bind, get_output in He. rewrite Hl, Hr in He.
  destruct (fields_nodup fs (jump_fields_nodup _ _)) as (Hn1 & Hn2 & Hn3).
  destruct (for_each patch_label (label_fields fs) o) as [[[]|] o1] eqn:H1; [|done].
  destruct (patch_loop before after ps patch_label snd (λ a n, binary_label_table_get (labels o) a.1 = Some n)
    (labels o) (label_fields fs)) with (field := zeros) (o := o) (o' := o1) as (f1 & Hf1 & -> & Hg1 & Ho1); try done.
  { intros a p p' Ht Hp. unfold patch_label, mbind, Gen_bind, get_output in Hp. rewrite Ht in Hp.
    destruct (binary_label_table_get (labels o) a.1) as [n|]; [|done]. exists n. split; [done|].
    unfold emit in Hp. by destruct (binary_function_context_patch_rel32 a.2 n (out_code p)). }
  { intros [l k] Hin%elem_of_label_fields. by exists (To_label l). }
  destruct (patch_loop before after ps (λ fixup, emit (binary_function_context_patch_rel32 fixup return_offset))
    id (λ _ n, n = return_offset) (labels o) (end_fields fs)) with (field := f1) (7 := He) as (f2 & Hf2 & -> & Hg2 & Ho2); try done.
  { intros a p p' _ Hp. exists return_offset. split; [done|]. unfold emit in Hp. unfold id.
    by destruct (binary_function_context_patch_rel32 a return_offset (out_code p)). }
  { intros k Hin%elem_of_end_fields. by exists To_end. }
  exists f2. split_and!; [done|by destruct o|]. intros [l|] k Hin.
  - apply elem_of_label_fields in Hin. destruct (Hg1 _ Hin) as (n & Hn & Ha). exists n. split; [done|].
    unfold aims in *. cbn in Ha. rewrite Ho2; [done|]. rewrite list_fmap_id. apply Hn3.
    apply list_elem_of_fmap. by exists (l, k).
  - apply elem_of_end_fields in Hin. destruct (Hg2 _ Hin) as (n & -> & Ha). by exists return_offset.
Qed.

(** ** Running the bytes *)

Section run.
Variables (field : nat → list byte) (table : BinaryLabelTable) (return_offset : nat).

(** Where an exit of the pieces from [base] on leads. *)
Definition exit_offset (base : nat) (ps : list piece) (x : exit) : option nat :=
  match x with Fall => Some (base + pieces_size ps) | To t => target_offset table return_offset t end.

Lemma pieces_run code before ps after m x m' :
  code = before ++ assemble field (length before) ps ++ after → four field → Forall piece_ok ps →
  resolved table return_offset field (jump_fields (length before) ps) → run_pieces ps m = Some (x, m') →
  ∃ n, exit_offset (length before) ps x = Some n ∧
    leads code (Running (Z.of_nat (length before)) m) (Running (Z.of_nat n) m').
Proof.
  intros Hc Hf. revert before m Hc. induction ps as [|p ps IH]; intros before m Hc Hok Hres Hr; cbn in Hr.
  { injection Hr as <- <-. eexists. split; [done|]. cbn. rewrite Nat.add_0_r. apply leads_refl. }
  apply Forall_cons in Hok as [Hp Hok]. cbn [jump_fields] in Hres.
  assert (∀ b, length b = piece_size p → code = (before ++ b) ++ assemble field (length (before ++ b)) ps ++ after →
    ∀ m1, run_pieces ps m1 = Some (x, m') →
    ∃ n, exit_offset (length before) (p :: ps) x = Some n ∧
      leads code (Running (Z.of_nat (length before + length b)) m1) (Running (Z.of_nat n) m')) as Hrest.
  { intros b Hb Hcb m1 Hr1. destruct (IH (before ++ b) m1) as (n & Hn & Hl); [done..| |done|].
    - rewrite length_app, Hb. intros t k Hin. apply Hres. rewrite elem_of_app. by right.
    - exists n. rewrite length_app in Hn, Hl. split; [|done]. destruct x; [|done]. cbn in *.
      rewrite <- Hn. f_equal. rewrite Hb. lia. }
  destruct p as [i b|cc h t|l]; cbn [assemble piece_size] in *.
  - destruct (exec i m) as [m1| |] eqn:Hx; [|done..].
    destruct (Hrest b eq_refl) with (m1 := m1) as (n & Hn & Hl); [|done|].
    { by rewrite length_app, Hc, <- !app_assoc. }
    exists n. split; [done|]. eapply leads_trans; [|exact Hl].
    eapply (leads_next code before b i); [by rewrite Hc, <- app_assoc|done|done].
  - destruct (Hres t (length before + length h)) as (n & Hn & Hd & Hrange); [rewrite elem_of_app; left; by left|].
    set (d := (Z.of_nat n - Z.of_nat (length before + length h + 4))%Z) in *.
    assert (∀ rest, decode ((h ++ le_split 4 d) ++ rest) = Some (jump_instr cc d, rest)) as Hdec.
    { intros rest. rewrite <- app_assoc, Hp. unfold in_int32 in Hrange. by rewrite wrap_s_id by lia. }
    assert (code = before ++ (h ++ le_split 4 d) ++ assemble field (length before + length h + 4) ps ++ after) as Hc'.
    { rewrite Hc, <- Hd, <- !app_assoc. done. }
    assert (Z.of_nat (length before + length (h ++ le_split 4 d)) + d = Z.of_nat n)%Z as Hto.
    { rewrite length_app. change (length (le_split 4 d)) with 4. lia. }
    destruct cc as [cc|].
    + destruct (status m) as [f|] eqn:Hs; [|done]. cbn in Hr. destruct (condition cc f) as [c|] eqn:Hcc; [|done]. cbn in Hr.
      pose proof (leads_branch _ _ _ _ _ _ _ _ _ Hc' Hdec Hs Hcc) as Hl. destruct c.
      * injection Hr as <- <-. exists n. split; [done|]. by rewrite Hto in Hl.
      * destruct (Hrest (h ++ le_split 4 d)) with (m1 := m) as (n' & Hn' & Hl'); [| |done|].
        { by rewrite length_app. }
        { rewrite Hc', !length_app, <- !app_assoc. change (length (le_split 4 d)) with 4. by rewrite Nat.add_assoc. }
        exists n'. split; [done|]. eapply leads_trans; [exact Hl|exact Hl'].
    + injection Hr as <- <-. exists n. split; [done|]. pose proof (leads_jump _ _ _ _ _ m Hc' Hdec) as Hl. by rewrite Hto in Hl.
  - destruct (Hrest [] eq_refl) with (m1 := m) as (n & Hn & Hl); [|done|].
    { by rewrite app_nil_r. }
    exists n. by rewrite Nat.add_0_r in Hl.
Qed.

End run.
