(* ===== verification/BranchFacts.v ===== *)
(** * Code generation: comparisons that branch and expressions in RAX

    Straight code whose instructions do not depend on the state, the flags a
    comparison leaves, and the values the fused sequences compute in RAX. *)

From stdpp Require Import gmap.
From S2P Require Import Prelude.
From S2P Require Import IR.
From S2P Require Import IRSemantics.
From S2P Require Import BinaryEmitter.
From S2P Require Import Encoders.
From S2P Require Import X86.
From S2P Require Import X86Facts.
From S2P Require Import EncoderFacts.
From S2P Require Import CompareFacts.
From S2P Require Import FunctionContext.
From S2P Require Import Operands.
From S2P Require Import Selection.
From S2P Require Import Instructions.
From S2P Require Import Peephole.
From S2P Require Import FrameFacts.
From S2P Require Import SelectionFacts.

(** ** Straight code *)

Definition straight (e : Gen ()) : Prop := ∃ p, gasm e p.

Lemma codes_unique bytes p q : codes bytes p → codes bytes q → p = q.
Proof.
  intros Hp Hq.
  pose proof (codes_decode_all bytes p [] (length q) Hp) as H1.
  pose proof (codes_decode_all bytes q [] (length p) Hq) as H2.
  rewrite Nat.add_comm, H1 in H2. assert (∀ n, decode_all n [] = Some []) as Hn by by intros [].
  rewrite !Hn in H2. cbn in H2. rewrite !app_nil_r in H2. by injection H2.
Qed.

Definition empty_output : Output := mkOutput [] [] [] [] [] [] binary_emitter_create 0.

Lemma gasm_unique e p q : gasm e p → gasm e q → p = q.
Proof.
  intros (b1 & H1 & C1) (b2 & H2 & C2). specialize (H1 empty_output). rewrite H2 in H1.
  injection H1 as ->. by eapply codes_unique.
Qed.

(** What holds of the code of [e] from some states holds of the one program it is. *)
Lemma triple_run P e Q p m :
  gasm e p → triple P e Q → P m → ∃ m', X86.run p m = X86.Next m' ∧ Q m'.
Proof. intros Hp (q & Hq & H) Hm. rewrite (gasm_unique e p q) by done. auto. Qed.

Lemma triple_straight P e Q : triple P e Q → straight e.
Proof. intros (p & Hg & _). by exists p. Qed.

Lemma straight_seq e1 e2 : straight e1 → straight e2 → straight (e1 ;; e2).
Proof. intros [p Hp] [q Hq]. exists (p ++ q). by apply gasm_seq. Qed.

Lemma straight_ret : straight (mret ()).
Proof. exists []. apply gasm_ret. Qed.

Lemma straight_emit e p : asm e unit_result p → straight (emit e).
Proof. intros He. exists p. by apply gasm_emit. Qed.

Lemma gasm_ext e e' p : (∀ o, e o = e' o) → gasm e' p → gasm e p.
Proof. intros He (b & Hb & Hc). exists b. split; [|done]. intros o. by rewrite He. Qed.

Lemma straight_ext e e' : (∀ o, e o = e' o) → straight e' → straight e.
Proof. intros He [p Hp]. exists p. by eapply gasm_ext. Qed.

Lemma triple_ext P e e' Q : (∀ o, e o = e' o) → triple P e' Q → triple P e Q.
Proof. intros He (p & Hp & H). exists p. split; [by eapply gasm_ext|done]. Qed.

(** ** Operators *)

Lemma is_op_elem o l : is_op o l = true ↔ o ∈ l.
Proof.
  unfold is_op. rewrite existsb_exists. setoid_rewrite String.eqb_eq. rewrite list_elem_of_In. split.
  - by intros (x & Hx & ->).
  - intros Ho. by exists o.
Qed.

Lemma is_op_subset o l l' : l ⊆ l' → is_op o l = true → is_op o l' = true.
Proof. rewrite !is_op_elem. auto. Qed.

(** ** Flags *)

(** After comparing the operands of [o], whose value is [c], the jump taken when the
    comparison is false and the move made when it is true are decided by [c]. *)
Definition flags_say (o : string) (c : Z) (f : flags) : Prop :=
  (∀ cc, code_generator_binary_compare_false_jcc o = Some (0x80 + cc)%Z → condition cc f = Some (c =? 0)%Z) ∧
  (∀ cc, code_generator_binary_compare_true_cmov o = Some (0x40 + cc)%Z → condition cc f = Some (negb (c =? 0)%Z)).

(** The tests of an operator and of its negation. *)
Definition operator_tests (o : string) (cc ncc : Z) (test : Z → Z → bool) : Prop :=
  code_generator_binary_compare_false_jcc o = Some (0x80 + ncc)%Z ∧
  code_generator_binary_compare_true_cmov o = Some (0x40 + cc)%Z ∧
  (∀ a b, int_binary o a b = Some (truth (test a b))) ∧ tests cc test ∧
  ∃ ntest, tests ncc ntest ∧ ∀ a b, ntest a b = negb (test a b).

Lemma compare_operator_tests o :
  code_generator_binary_is_compare_operator o = true → ∃ cc ncc test, operator_tests o cc ncc test.
Proof.
  unfold code_generator_binary_is_compare_operator, is_op. cbn [existsb]. intros Ho.
  repeat match type of Ho with
    | context [String.eqb o ?k] => destruct (String.eqb_spec o k) as [Hk|_]; [clear Ho; subst o|cbn [orb] in Ho]
    end; [..|done].
  - exists 4%Z, 5%Z, Z.eqb. split_and!; [done..|constructor|eexists; split; [constructor|done]].
  - exists 5%Z, 4%Z, (fun a b => negb (a =? b))%Z.
    split_and!; [done..|constructor|eexists; split; [constructor|]]. intros a b. by rewrite negb_involutive.
  - exists 12%Z, 13%Z, Z.ltb. split_and!; [done..|constructor|eexists; split; [constructor|]].
    intros a b. rewrite Z.geb_leb. apply Z.leb_antisym.
  - exists 14%Z, 15%Z, Z.leb. split_and!; [done..|constructor|eexists; split; [constructor|]].
    intros a b. rewrite Z.gtb_ltb. apply Z.ltb_antisym.
  - exists 15%Z, 14%Z, Z.gtb. split_and!; [done..|constructor|eexists; split; [constructor|]].
    intros a b. rewrite Z.gtb_ltb. apply Z.leb_antisym.
  - exists 13%Z, 12%Z, Z.geb. split_and!; [done..|constructor|eexists; split; [constructor|]].
    intros a b. rewrite Z.geb_leb. apply Z.ltb_antisym.
Qed.

Lemma compared_says o a b c f :
  code_generator_binary_is_compare_operator o = true → int_binary o a b = Some c → compared f a b →
  flags_say o c f.
Proof.
  intros Ho Hc Hf. destruct (compare_operator_tests o Ho) as (cc & ncc & test & Hj & Hm & Hv & Ht & nt & Hn & Hneg).
  rewrite Hv in Hc. injection Hc as <-. split; intros k Hk.
  - rewrite Hj in Hk. injection Hk as Hk. assert (k = ncc) as -> by lia.
    rewrite (condition_compared _ _ _ _ _ Hn Hf), Hneg. by destruct (test a b).
  - rewrite Hm in Hk. injection Hk as Hk. assert (k = cc) as -> by lia.
    rewrite (condition_compared _ _ _ _ _ Ht Hf). by destruct (test a b).
Qed.

Lemma compare_false_jcc_range o j :
  code_generator_binary_compare_false_jcc o = Some j → ∃ cc, j = (0x80 + cc)%Z ∧ (0 <= cc < 16)%Z.
Proof.
  intros Hj. exists (j - 0x80)%Z. split; [lia|]. unfold code_generator_binary_compare_false_jcc in Hj.
  repeat case_match; simplify_eq; lia.
Qed.

Lemma compare_operator_jcc o :
  code_generator_binary_is_compare_operator o = true → is_Some (code_generator_binary_compare_false_jcc o).
Proof. intros Ho. destruct (compare_operator_tests o Ho) as (? & ? & ? & -> & _). by eexists. Qed.

(** ** Code on registers *)

Section branches.
Context {M : Machine} (g : CodeGenerator) (context : BinaryFunctionContext).
Context (Hframe : frame_ok g context) (dead : string → Prop) (before : machine).
Context (Haliases : symbol_aliases context = []).

Abbreviation represents := (represents g context dead before).
Abbreviation holds := (holds g context dead before).
Abbreviation readable := (readable g context dead).
Abbreviation operand_load := (code_generator_binary_emit_operand_load g context).
Abbreviation compare_width := (code_generator_binary_instruction_compare_width g context).

Lemma resolve_self n : resolve context n = Some n.
Proof using Haliases. unfold resolve. rewrite Haliases. cbn. by rewrite Haliases. Qed.

Lemma unshared_always n (st : mstate world) : unshared context n st.
Proof using Haliases.
  split; [apply resolve_self|]. intros n' v Hne _. rewrite resolve_self. by intros [= ->].
Qed.

Lemma triple_represents st e Q : triple (represents st) e Q ↔ triple (holds st []) e Q.
Proof.
  assert (∀ m, represents st m ↔ holds st [] m) as H by (intros m; split; [intros Hm; split; [exact Hm|constructor]|by intros []]).
  split; apply triple_weaken; try done; intros m; apply H.
Qed.

(** Code that compares and leaves the rest as it is. *)
Lemma triple_compares st l e x y a b o c :
  compares e x y → (∀ m, machine_ok m → holds st l m → x m = a ∧ y m = b) →
  code_generator_binary_is_compare_operator o = true → int_binary o a b = Some c →
  triple (holds st l) (emit e) (λ m, represents st m ∧ ∃ f, X86.status m = Some f ∧ flags_say o c f).
Proof.
  intros (p & Ha & Hp) Hv Ho Hc. exists p. split; [by apply gasm_emit|]. intros m Hm.
  pose proof (rep_ok _ _ _ _ _ _ _ (proj1 Hm)) as Hok. destruct (Hp m Hok) as (f & Hr & Hf).
  destruct (Hv m Hok Hm) as [Hx Hy]. rewrite Hx, Hy in Hf. eexists. split; [exact Hr|]. split.
  - by apply (represents_changes g context dead before None [] st m);
      [apply list_subseteq_nil|apply changes_set_status|apply Hm].
  - exists f. split; [done|]. by eapply compared_says.
Qed.

(** *** Operands in registers *)

Definition operand_emit (x : IROperand) (s : BinaryGpRegister) : Gen () :=
  match operand_register g context x with Some _ => mret () | None => operand_load x s end.
Definition operand_place (x : IROperand) (s : BinaryGpRegister) : BinaryGpRegister :=
  default s (operand_register g context x).

Lemma operand_in_bind {A} x s (f : BinaryGpRegister → Gen A) o :
  (r ← operand_in g context x s; f r) o = (operand_emit x s ;; f (operand_place x s)) o.
Proof.
  unfold operand_in, operand_emit, operand_place. destruct (operand_register g context x); [done|].
  unfold mbind, Gen_bind. by destruct (operand_load x s o) as [[[]|] ?].
Qed.

(** A promoted operand's register is its cell. *)
Lemma operand_register_cell x r :
  readable x → operand_register g context x = Some r →
  ∃ n b, x = IR_OPERAND_SYMBOL n b ∧ cell_of g context (Local n) = Some (In_register r).
Proof using Haliases.
  unfold operand_register. intros Hx (n & Hn & Hr)%bind_Some. destruct x as [|?|n' b| | | |]; simplify_eq/=; try done.
  destruct Hx as (n' & Hn' & Hc). rewrite resolve_self in Hn'. injection Hn' as <-.
  exists n, b. split; [done|]. by apply assigned_cell.
Qed.

Lemma operand_place_apart x s r :
  readable x → gp_code s ≠ gp_code r → gp_code r ∈ scratch → gp_code (operand_place x s) ≠ gp_code r.
Proof using Haliases.
  intros Hx Hs Hr. unfold operand_place. destruct (operand_register g context x) as [q|] eqn:Hq; [|done]. cbn.
  destruct (operand_register_cell x q Hx Hq) as (n & b & -> & Hc). intros He. rewrite <- He in Hr. revert Hr.
  apply (nonvolatile_kept q scratch); [|done]. by eapply assigned_nonvolatile, local_cell_register.
Qed.

Lemma triple_operand st l l' x v s :
  readable x → eval st x = Some v → gp_code s ∈ scratch → l' ⊆ l →
  (∀ y, y ∈ l' → gp_code (fst y) ≠ gp_code s) →
  triple (holds st l) (operand_emit x s) (holds st ((operand_place x s, u64 v) :: l')).
Proof using Hframe Haliases.
  intros Hx Hv Hs Hl Hne. unfold operand_emit, operand_place.
  destruct (operand_register g context x) as [q|] eqn:Hq; [|by apply (triple_load g context Hframe dead before st l)].
  destruct (operand_register_cell x q Hx Hq) as (n & b & -> & Hc). cbn.
  apply (triple_weaken (holds st l) _ (holds st l)); [done| |apply triple_ret].
  intros m Hm. split; [apply Hm|]. apply Forall_cons. split.
  - cbn [eval] in Hv. apply fmap_Some in Hv as (w & Hw & ->). rewrite u64_s64.
    destruct (rep_locals _ _ _ _ _ _ _ (proj1 Hm) n n w _ ltac:(done) Hw (resolve_self n) Hc) as [Hr _]. exact Hr.
  - apply (holds_subset g context dead before st l l' m Hl Hm).
Qed.

Lemma immediate_of_spec x v : immediate_of x = Some v → x = IR_OPERAND_INT v ∧ in_int32 v.
Proof.
  unfold immediate_of. destruct x as [| | |k| | |]; try done.
  destruct (code_generator_binary_immediate_fits_signed_32 k) eqn:Hv; [|done].
  intros [= <-]. split; [done|by apply fits_in_int32].
Qed.

Lemma int32_in_s64 v : in_int32 v → in_s64 v.
Proof. unfold in_int32, in_s64. lia. Qed.

Lemma eval_immediate_of st x k v : immediate_of x = Some k → eval st x = Some v → v = k ∧ in_int32 k.
Proof.
  intros [-> Hk]%immediate_of_spec [= <-]. split; [|done]. by apply s64_in, int32_in_s64.
Qed.

(** ** Comparisons *)

(** The machine after a comparison: the state is as it was and the flags say [c]. *)
Definition compared_to (st : mstate world) (o : string) (c : Z) (m : machine) : Prop :=
  represents st m ∧ ∃ f, X86.status m = Some f ∧ flags_say o c f.

Section compare.
Variables (o : string) (st : mstate world) (a b c : Z).
Context (Ho : code_generator_binary_is_compare_operator o = true) (Hc : int_binary o a b = Some c).
Context (Ha : in_s64 a) (Hb : in_s64 b).

(** One operand in a register, the other an immediate. *)
Lemma compare_immediate x r v k :
  (r, u64 v) ∈ x → in_s64 v → in_int32 k → int_binary o v k = Some c →
  triple (holds st x) (emit (binary_emit_cmp_reg_imm32 r (imm32 k))) (compared_to st o c).
Proof using Ho.
  intros Hr Hv Hk Hck. eapply triple_compares; [apply compares_immediate, imm32_range| |exact Ho|exact Hck].
  intros m _ Hm. cbv beta. rewrite (holds_in _ _ _ _ _ _ _ _ _ Hm Hr), s64_u64, s64_in by done. by rewrite s32_imm32.
Qed.

Lemma compare_registers x l r w :
  (l, u64 a) ∈ x → (r, u64 b) ∈ x → selectable o w a b →
  triple (holds st x) (emit (code_generator_binary_emit_reg_reg_compare l r w)) (compared_to st o c).
Proof using Ho Hc Ha Hb.
  intros Hl Hr [_ Hw]. unfold code_generator_binary_emit_reg_reg_compare. destruct (Z.eqb_spec w 4) as [->|].
  - destruct (Hw eq_refl Ho) as [Ha4 Hb4].
    eapply triple_compares; [apply compares_registers32| |exact Ho|exact Hc]. intros m _ Hm. cbv beta.
    rewrite (holds_in _ _ _ _ _ _ _ _ _ Hm Hl), (holds_in _ _ _ _ _ _ _ _ _ Hm Hr). unfold in_int32 in *.
    rewrite !(wrap_s_u64 32), !wrap_s_id by lia. done.
  - eapply triple_compares; [apply compares_registers| |exact Ho|exact Hc]. intros m _ Hm. cbv beta.
    rewrite (holds_in _ _ _ _ _ _ _ _ _ Hm Hl), (holds_in _ _ _ _ _ _ _ _ _ Hm Hr), !s64_u64, !s64_in by done. done.
Qed.

Lemma compare_flags_correct i :
  operator i = o → readable (lhs i) → readable (rhs i) → eval st (lhs i) = Some a → eval st (rhs i) = Some b →
  selectable o (compare_width i) a b →
  triple (represents st) (code_generator_binary_emit_compare_flags g context i) (compared_to st o c).
Proof using All.
  intros Hi Hrl Hrr Hea Heb Hs. unfold code_generator_binary_emit_compare_flags. rewrite Hi, Ho. cbn [negb].
  apply triple_represents.
  destruct (immediate_of (rhs i)) as [k|] eqn:Hkr.
  { destruct (eval_immediate_of st _ _ _ Hkr Heb) as [-> Hk].
    eapply triple_ext; [intros out; apply operand_in_bind|]. eapply triple_seq.
    - apply (triple_operand st [] [] (lhs i) a BINARY_GP_RAX); [done|done|registers|done|by intros ? ?%elem_of_nil].
    - by eapply compare_immediate; [left|..]. }
  destruct (if is_op o _ then immediate_of (lhs i) else None) as [k|] eqn:Hkl.
  { destruct (is_op o ["=="; "!="]%string) eqn:Heq; [|done].
    destruct (eval_immediate_of st _ _ _ Hkl Hea) as [-> Hk].
    eapply triple_ext; [intros out; apply operand_in_bind|]. eapply triple_seq.
    - apply (triple_operand st [] [] (rhs i) b BINARY_GP_RAX); [done|done|registers|done|by intros ? ?%elem_of_nil].
    - eapply compare_immediate; [by left|done|done|]. rewrite int_binary_comm; [done|].
      revert Heq. apply is_op_subset. registers. }
  eapply triple_ext; [intros out; apply operand_in_bind|]. eapply triple_seq.
  { apply (triple_operand st [] [] (rhs i) b BINARY_GP_R10); [done|done|registers|done|by intros ? ?%elem_of_nil]. }
  eapply triple_ext; [intros out; apply operand_in_bind|]. eapply triple_seq.
  { eapply (triple_operand st _ [_] (lhs i) a BINARY_GP_RAX); [done|done|registers|done|].
    intros y ->%list_elem_of_singleton. cbn [fst]. apply operand_place_apart; [done|done|registers]. }
  by apply compare_registers; [left|right; left|].
Qed.

End compare.

(** ** Expressions in RAX *)

Lemma immediate_form_emit o v e : immediate_form o v = Some e → emit_immediate o true v = Some e.
Proof.
  unfold immediate_form, emit_immediate. rewrite andb_false_r. destruct (emit_immediate_arithmetic _ _ _); [done|].
  rewrite andb_true_r. by destruct (is_shift o && _ && _).
Qed.

Lemma immediate_form_not_division o v e : immediate_form o v = Some e → o ≠ "/"%string.
Proof. intros H ->. by vm_compute in H. Qed.

Lemma immediate_form_correct st o a k e c :
  immediate_form o k = Some e → in_int32 k → in_s64 a → int_binary o a k = Some c →
  triple (holds st [(BINARY_GP_RAX, u64 a)]) (emit e) (holds st [(BINARY_GP_RAX, u64 c)]).
Proof.
  intros He Hk Ha Hc. apply (immediate_correct g context dead before st o true a k e c); try done.
  - by apply immediate_form_emit.
  - by eapply immediate_form_not_division.
Qed.

Lemma annihilates_spec o a v c : annihilates o v = true → int_binary o a v = Some c → c = 0%Z.
Proof.
  unfold annihilates, is_op. cbn [existsb]. intros [->%Z.eqb_eq Ho]%andb_true_iff Hc.
  destruct (String.eqb_spec o "*") as [->|_]; [|destruct (String.eqb_spec o "&") as [->|_]; [|done]].
  - cbn in Hc. injection Hc as <-. by rewrite Z.mul_0_r.
  - cbn in Hc. injection Hc as <-. by rewrite Z.land_0_r.
Qed.

Lemma triple_zero st l : triple (holds st l) (emit (binary_emit_mov_reg_imm64 BINARY_GP_RAX 0)) (holds st [(BINARY_GP_RAX, u64 0)]).
Proof. by eapply triple_code; [apply (yields_mov_imm64 BINARY_GP_RAX)|apply rax_scratch|]. Qed.

Lemma with_immediate_correct st x o a k e c :
  readable x → eval st x = Some a → immediate_form o k = Some e → in_int32 k → int_binary o a k = Some c →
  triple (represents st) (with_immediate g context x o k e) (holds st [(BINARY_GP_RAX, u64 c)]).
Proof using Hframe.
  intros Hx Ha He Hk Hc. unfold with_immediate. destruct (annihilates o k) eqn:Hz.
  - rewrite (annihilates_spec o a k c Hz Hc). apply triple_represents, triple_zero.
  - eapply triple_seq; [by apply (triple_load_rax g context Hframe)|].
    by eapply immediate_form_correct; [..|eapply eval_fits|].
Qed.

Lemma register_form_correct st o e a b c :
  register_form o = Some e → in_s64 a → in_s64 b → int_binary o a b = Some c →
  triple (holds st (both a b)) (emit e) (holds st [(BINARY_GP_RAX, u64 c)]).
Proof.
  unfold register_form. destruct (code_generator_binary_chain_producer_supported o) eqn:Ho; [|done].
  intros He Ha Hb Hc. eapply (register_operation_correct g context dead before a b Ha Hb st o 8); [done..|].
  split; [|done]. intros ->. by vm_compute in Ho.
Qed.

Lemma register_form_total o : code_generator_binary_chain_producer_supported o = true → is_Some (register_form o).
Proof.
  unfold register_form. intros Ho. rewrite Ho. apply is_op_elem in Ho.
  repeat (apply elem_of_cons in Ho as [Hk|Ho]; [subst o; by eexists|]). by apply elem_of_nil in Ho.
Qed.

Lemma triple_load_both st x y a b :
  readable x → readable y → eval st x = Some a → eval st y = Some b →
  triple (represents st) (operand_load y BINARY_GP_R10 ;; operand_load x BINARY_GP_RAX) (holds st (both a b)).
Proof using Hframe.
  intros Hx Hy Ha Hb. apply triple_represents. apply (triple_seq _ (holds st [(BINARY_GP_R10, u64 b)])).
  - by apply (triple_load g context Hframe dead before st [] []); [..|registers|done|intros ? ?%elem_of_nil].
  - apply (triple_load g context Hframe dead before st [_] [_]); [done..|registers|done|].
    by intros z ->%list_elem_of_singleton.
Qed.

Lemma triple_assoc P (e1 e2 e3 : Gen ()) Q : triple P ((e1 ;; e2) ;; e3) Q → triple P (e1 ;; e2 ;; e3) Q.
Proof.
  apply triple_ext. intros o. unfold mbind, Gen_bind. by destruct (e1 o) as [[[]|] ?].
Qed.

Lemma binary_to_rax_correct st i o a b c :
  is_float i = false → text i = Some o → code_generator_binary_chain_producer_supported o = true →
  readable (lhs i) → readable (rhs i) → eval st (lhs i) = Some a → eval st (rhs i) = Some b →
  int_binary o a b = Some c →
  triple (represents st) (code_generator_binary_emit_integer_binary_to_rax g context i)
    (holds st [(BINARY_GP_RAX, u64 c)]).
Proof using Hframe.
  intros Hf Ht Ho Hl Hr Ha Hb Hc. unfold code_generator_binary_emit_integer_binary_to_rax. rewrite Ht, Hf.
  match goal with |- triple _ (match ?x with _ => _ end) _ => destruct x as [[k mask]|] eqn:Hpow end.
  { destruct (rhs i) as [| | |v| | |] eqn:Hri; try done. destruct (is_op o ["/"; "%"]%string) eqn:Hdiv; [|done].
    assert (b = v) as -> by by eapply eval_immediate.
    destruct (power_of_two_spec v k mask Hr Hpow) as (Hk & -> & ->).
    eapply triple_seq; [by apply (triple_load_rax g context Hframe)|].
    eapply power_of_two_correct; [done|by eapply eval_fits|done|done]. }
  clear Hpow.
  match goal with |- triple _ (match ?x with _ => _ end) _ => destruct x as [[k e]|] eqn:Himm end.
  { apply bind_Some in Himm as (k' & Hk & Himm). apply bind_Some in Himm as (e' & He & [= -> ->]).
    destruct (eval_immediate_of st _ _ _ Hk Hb) as [-> Hin]. by eapply with_immediate_correct. }
  clear Himm.
  match goal with |- triple _ (match ?x with _ => _ end) _ => destruct x as [[k e]|] eqn:Himm end.
  { apply bind_Some in Himm as (k' & Hk & Himm). apply bind_Some in Himm as (Hcom & _ & Himm).
    apply bind_Some in Himm as (e' & He & [= -> ->]). apply Is_true_true in Hcom.
    destruct (eval_immediate_of st _ _ _ Hk Ha) as [-> Hin]. eapply with_immediate_correct; [done..|].
    rewrite int_binary_comm; [done|]. revert Hcom. apply is_op_subset. registers. }
  destruct (register_form_total o Ho) as [e He]. rewrite He. apply triple_assoc.
  eapply triple_seq; [by apply triple_load_both|]. by eapply register_form_correct; [|by eapply eval_fits..|].
Qed.

(** RAX combined with a second operand. *)
Lemma rax_rhs_correct st o x a b c :
  code_generator_binary_chain_producer_supported o = true →
  readable x → in_s64 a → eval st x = Some b → int_binary o a b = Some c →
  triple (holds st [(BINARY_GP_RAX, u64 a)]) (code_generator_binary_emit_rax_binary_rhs g context o x)
    (holds st [(BINARY_GP_RAX, u64 c)]).
Proof using Hframe.
  intros Ho Hx Ha Hb Hc. unfold code_generator_binary_emit_rax_binary_rhs.
  match goal with |- triple _ (match ?x with _ => _ end) _ => destruct x as [e|] eqn:Himm end.
  { apply bind_Some in Himm as (k & Hk & Himm). apply bind_Some in Himm as (e' & He & [= ->]).
    destruct (eval_immediate_of st _ _ _ Hk Hb) as [-> Hin]. destruct (annihilates o k) eqn:Hz.
    - injection He as <-. rewrite (annihilates_spec o a k c Hz Hc). apply triple_zero.
    - by eapply immediate_form_correct. }
  destruct (register_form_total o Ho) as [e He]. rewrite He. apply (triple_seq _ (holds st (both a b))).
  - eapply triple_weaken; [| |apply (triple_load g context Hframe dead before st [(BINARY_GP_RAX, u64 a)] [(BINARY_GP_RAX, u64 a)] x b BINARY_GP_R10)].
    + done.
    + intros m Hm. eapply (holds_subset g context dead before st _ (both a b) m); [|exact Hm].
      intros y [->|[->|Hy%elem_of_nil]%elem_of_cons]%elem_of_cons; [right; left|left|done].
    + done.
    + done.
    + registers.
    + done.
    + by intros y ->%list_elem_of_singleton.
  - by eapply register_form_correct; [|done|by eapply eval_fits|].
Qed.

(** A comparison of RAX with an operand. *)
Lemma rax_compare_correct st o x w a b c :
  code_generator_binary_is_compare_operator o = true → int_binary o a b = Some c → in_s64 a →
  readable x → eval st x = Some b → selectable o w a b →
  triple (holds st [(BINARY_GP_RAX, u64 a)])
    (match immediate_of x with
     | Some v => emit (binary_emit_cmp_reg_imm32 BINARY_GP_RAX (imm32 v))
     | None => operand_load x BINARY_GP_R10 ;;
               emit (code_generator_binary_emit_reg_reg_compare BINARY_GP_RAX BINARY_GP_R10 w)
     end) (compared_to st o c).
Proof using Hframe.
  intros Ho Hc Ha Hx Hb Hs. destruct (immediate_of x) as [k|] eqn:Hk.
  - destruct (eval_immediate_of st _ _ _ Hk Hb) as [-> Hin]. by eapply compare_immediate; [..|left| | |].
  - eapply triple_seq; [|eapply (compare_registers o st a b c Ho Hc Ha); [by eapply eval_fits|..|exact Hs]].
    + apply (triple_load g context Hframe dead before st [(BINARY_GP_RAX, u64 a)] [(BINARY_GP_RAX, u64 a)]);
        [done..|registers|done|by intros y ->%list_elem_of_singleton].
    + right. left.
    + left.
Qed.

(** A test of a register with a mask. *)
Lemma compares_mask (r : BinaryGpRegister) k :
  compares (binary_emit_test_reg_imm32 r (imm32 k)) (λ m, s64 (Z.land (regs m r) (u64 (s32 (imm32 k))))) (λ _, 0%Z).
Proof.
  apply (compares_intro _ _ _ _ (asm_test_imm r (imm32 k))). intros m Hm. eexists. split; [reflexivity|].
  unfold logic_flags. change (bits W64) with 64%Z. split; cbn [zero sign overflow].
  - rewrite (u64_id (regs m r)) by apply Hm.
    pose proof (wrap_u_zero 64 (Z.land (regs m r) (u64 (s32 (imm32 k)))) 0 ltac:(lia)) as H.
    rewrite Z.sub_0_r in H. by rewrite H.
  - rewrite (u64_id (regs m r)) by apply Hm. rewrite (testbit_sign 64) by lia. by rewrite xorb_false_r.
Qed.

Lemma mask_compare_correct st o x k a c d :
  is_op o ["=="; "!="]%string = true → readable x → eval st x = Some a → in_int32 k →
  int_binary "&" a k = Some c → int_binary o c 0 = Some d →
  triple (represents st)
    (r ← operand_in g context x BINARY_GP_RAX; emit (binary_emit_test_reg_imm32 r (imm32 k)))
    (compared_to st o d).
Proof using Hframe Haliases.
  intros Ho Hx Ha Hk Hc Hd. apply triple_represents. eapply triple_ext; [intros out; apply operand_in_bind|].
  eapply triple_seq.
  - apply (triple_operand st [] [] x a BINARY_GP_RAX); [done|done|registers|done|by intros ? ?%elem_of_nil].
  - eapply triple_compares; [apply compares_mask| |revert Ho; apply is_op_subset; registers|exact Hd].
    intros m Hok Hm. cbv beta. split; [|done]. rewrite (holds_in _ _ _ _ _ _ _ _ _ Hm ltac:(left)), s32_imm32 by done.
    cbn in Hc. injection Hc as <-. by rewrite u64_land, s64_u64.
Qed.

End branches.

(** ** Code generation: what is straight code

    The selected code is straight whatever the values of the operands, also where it is
    never reached: only the names of the operands and the operators matter. *)

(** The operators of the reference semantics. *)
Definition integer_operator (o : string) : Prop := is_Some (assoc o binary_table).

Lemma straight_compares e a b : compares e a b → straight (emit e).
Proof. intros (p & Ha & _). by eapply straight_emit. Qed.

Lemma straight_yields e rs r f : yields e rs r f → straight (emit e).
Proof. intros (p & Ha & _). by eapply straight_emit. Qed.

Section straight.
Context {M : Machine} (g : CodeGenerator) (context : BinaryFunctionContext).
Context (Hframe : frame_ok g context) (dead : string → Prop).
Context (Haliases : symbol_aliases context = []) (Hnarrow : narrows_as_typed g context).

(** Some state: the code is the same in all. *)
Context (some : mstate world).

Abbreviation readable := (readable g context dead).
Abbreviation operand_load := (code_generator_binary_emit_operand_load g context).
Abbreviation destination_store := (code_generator_binary_emit_destination_store g context).

(** A destination with a cell. *)
Definition storable (d : IROperand) : Prop :=
  match d with
  | IR_OPERAND_TEMP n _ => is_Some (cell_of g context (Temp n))
  | IR_OPERAND_SYMBOL n _ => is_Some (cell_of g context (Local n))
  | _ => False
  end.

Lemma straight_load x r : readable x → straight (operand_load x r).
Proof using Hframe some.
  intros Hx. assert (∃ (st : mstate world) v, eval st x = Some v) as (st & v & Hv).
  { destruct x as [|n b|n b|k| | |]; try done.
    - exists (write_temp n 1 some). eexists. cbn. by rewrite lookup_insert_eq.
    - exists (write_sym n 1 some). eexists. cbn. by rewrite lookup_insert_eq.
    - by exists some, (s64 k). }
  destruct (load_leaves g context dead example_machine Hframe st x v r Hx Hv) as (p & Hp & _). by exists p.
Qed.

Lemma straight_operand x s : readable x → straight (operand_emit g context x s).
Proof using Hframe some.
  intros Hx. unfold operand_emit. destruct (operand_register g context x); [apply straight_ret|by apply straight_load].
Qed.

Lemma storable_write d v : storable d → is_Some (write d v some).
Proof. destruct d; try done; by eexists. Qed.

Lemma typed_zero t : typed t 0 = 0%Z.
Proof.
  unfold typed. destruct (access_size_cases (slot_size t)) as [[-> _]|[[-> _]|[[-> _]|[-> _]]]]; by destruct (slot_signed t).
Qed.

Lemma straight_store d r : gp_code r ∈ scratch → storable d → straight (destination_store d r).
Proof using Hframe Haliases Hnarrow some.
  intros Hr Hd. destruct (storable_write d 0 Hd) as [st' Hw].
  assert (writable g context d 0 some) as Hwr.
  { destruct d as [|n b|n b| | | |]; try done. cbn in *. split; [by apply unshared_always|]. split; [done|].
    intros r' Hr'. rewrite Hnarrow; [apply typed_zero|done|done]. }
  eapply triple_straight. by apply (store_correct g context (λ _, False) example_machine Hframe Hnarrow d r 0 some st').
Qed.

(** ** Operations on registers *)

Lemma straight_register_operation o w e : emit_register_operation o w = Some e → straight (emit e).
Proof using g context some M Hframe.
  intros He. assert (is_Some (int_binary o 1 1)) as [c Hc].
  { unfold emit_register_operation, condition_opcode in He.
    repeat match type of He with
      | (if String.eqb o ?k then _ else _) = _ => destruct (String.eqb_spec o k) as [Hk|_]; [subst o; by eexists|]
      | (_ ← (if String.eqb o ?k then _ else _); _) = _ => destruct (String.eqb_spec o k) as [Hk|_]; [subst o; by eexists|]
      end. done. }
  eapply triple_straight.
  eapply (register_operation_correct g context (λ _, False) example_machine 1 1 ltac:(done) ltac:(done) some o w e c); [done..|].
  split; intros; [split; by right|by unfold in_int32].
Qed.

Lemma straight_register_form o e : register_form o = Some e → straight (emit e).
Proof using g context some M Hframe. unfold register_form. case_match; [apply straight_register_operation|done]. Qed.

Lemma emit_immediate_defined o on_rhs k e :
  emit_immediate o on_rhs k = Some e → o ≠ "/"%string → is_Some (int_binary o 1 k).
Proof.
  unfold emit_immediate, emit_immediate_arithmetic, is_shift, is_op, condition_opcode. intros He Ho. cbn [existsb] in He.
  repeat match type of He with
    | context [String.eqb o ?k] => destruct (String.eqb_spec o k) as [Hk|_]; [subst o; cbn in He |- *; try done; try by eexists|]
    end.
  3: { cbn in He. by rewrite andb_false_r in He. }
  all: destruct on_rhs; [|done]; destruct (Z.leb_spec 0 k), (Z.ltb_spec k 64); try done;
    rewrite (proj2 (Z.ltb_ge k 0)), (proj2 (Z.leb_gt 64 k)) by lia; by eexists.
Qed.

Lemma straight_immediate o on_rhs k e :
  emit_immediate o on_rhs k = Some e → o ≠ "/"%string → in_int32 k → straight (emit e).
Proof using g context some M Hframe.
  intros He Ho Hk. destruct (emit_immediate_defined _ _ _ _ He Ho) as [c Hc].
  eapply triple_straight. by eapply (immediate_correct g context (λ _, False) example_machine some o on_rhs 1 k e c).
Qed.

Lemma straight_immediate_form o k e : immediate_form o k = Some e → in_int32 k → straight (emit e).
Proof using g context some M Hframe.
  intros He Hk. eapply straight_immediate; [by apply immediate_form_emit|by eapply immediate_form_not_division|done].
Qed.

Lemma straight_power_of_two o k :
  is_op o ["/"; "%"]%string = true → (0 <= k < 63)%Z →
  straight (emit (if String.eqb o "/" then emit_divide_power_of_two k (2 ^ k - 1)
                  else emit_modulo_power_of_two k (2 ^ k - 1))).
Proof using g context some M Hframe.
  intros Ho Hk. assert (is_Some (int_binary o 1 (2 ^ k))) as [c Hc].
  { pose proof (Z.pow_pos_nonneg 2 k ltac:(lia) ltac:(lia)). apply is_op_elem in Ho.
    repeat (apply elem_of_cons in Ho as [Hk'|Ho]; [subst o; cbn; rewrite (proj2 (Z.eqb_neq _ _)) by lia; by eexists|]).
    by apply elem_of_nil in Ho. }
  eapply triple_straight. by apply (power_of_two_correct g context (λ _, False) example_machine some o 1 k c).
Qed.

Lemma straight_inplace o on_rhs r k : inplace_op o on_rhs k = true → in_int32 k → straight (emit (emit_inplace o r k)).
Proof using g context some M Hframe.
  intros Ho Hk. assert (is_Some (int_binary o 1 k)) as [c Hc].
  { unfold inplace_op, is_shift, is_op in Ho. cbn [existsb] in Ho.
    repeat match type of Ho with
      | context [String.eqb o ?k] => destruct (String.eqb_spec o k) as [Hk'|_]; [subst o; cbn in Ho |- *; try by eexists|]
      end; try done.
    all: destruct on_rhs; [|done]; destruct (Z.leb_spec 0 k), (Z.ltb_spec k 64); try done;
      rewrite (proj2 (Z.ltb_ge k 0)), (proj2 (Z.leb_gt 64 k)) by lia; by eexists. }
  destruct (inplace_yields o on_rhs r 1 k c Ho Hk ltac:(done) Hc) as (f & Hy & _). by eapply straight_yields.
Qed.

Lemma straight_compare l r w : straight (emit (code_generator_binary_emit_reg_reg_compare l r w)).
Proof.
  unfold code_generator_binary_emit_reg_reg_compare. destruct (w =? 4)%Z;
    [eapply straight_compares, compares_registers32|eapply straight_compares, compares_registers].
Qed.

Lemma straight_compare_immediate r k : straight (emit (binary_emit_cmp_reg_imm32 r (imm32 k))).
Proof. eapply straight_compares, compares_immediate, imm32_range. Qed.

(** ** Instructions *)

Lemma register_operation_total_for o w : integer_operator o → is_Some (emit_register_operation o w).
Proof.
  unfold integer_operator, binary_table, emit_register_operation, condition_opcode. cbn [assoc]. cbv zeta.
  intros [f Hf]. repeat match type of Hf with
    | (if String.eqb o ?k then _ else _) = _ => destruct (String.eqb_spec o k) as [Hk|_]; [subst o; by eexists|]
    end. done.
Qed.

Lemma immediate_total_for o on_rhs k :
  rhs_immediate_supported o = true → (on_rhs = false → commutative o = true) →
  is_Some (emit_immediate o on_rhs k) ∨ is_shift o = true.
Proof.
  unfold rhs_immediate_supported, commutative, emit_immediate, emit_immediate_arithmetic, is_shift, is_op.
  cbn [existsb]. intros Ho Hl.
  repeat match type of Ho with
    | context [String.eqb o ?k] => destruct (String.eqb_spec o k) as [Hk|_];
        [subst o; cbn in Hl |- *; destruct on_rhs; try (left; by eexists); try (by right); by specialize (Hl eq_refl)|]
    end. done.
Qed.

Section instruction.
Variables (i : IRInstruction) (o : string).
Context (Hl : readable (lhs i)) (Hr : readable (rhs i)) (Ho : integer_operator o) (Hd : storable (dest i)).

Lemma straight_general : straight (emit_general g context i o).
Proof using All.
  unfold emit_general.
  destruct (register_operation_total_for o (code_generator_binary_instruction_compare_width g context i) Ho) as [e He].
  rewrite He. apply straight_seq; [by apply straight_load|]. apply straight_seq; [by apply straight_load|].
  apply straight_seq; [by eapply straight_register_operation|]. apply straight_store; [left|done].
Qed.

Lemma immediate_operand_static x k on_rhs :
  immediate_operand i o = Some (x, k, on_rhs) →
  readable x ∧ in_int32 k ∧ rhs_immediate_supported o = true ∧ (on_rhs = false → commutative o = true).
Proof using Hl Hr.
  assert (∀ k, commutative o && code_generator_binary_immediate_fits_signed_32 k = true →
    readable (rhs i) ∧ in_int32 k ∧ rhs_immediate_supported o = true ∧ (false = false → commutative o = true)) as Hleft.
  { intros k' [Hc Hk]%andb_true_iff. split_and!; [done|by apply fits_in_int32| |done].
    unfold rhs_immediate_supported. by rewrite Hc. }
  unfold immediate_operand.
  destruct (rhs i) as [| | |v| | |] eqn:Hri; destruct (lhs i) as [| | |w| | |] eqn:Hli; try done;
    repeat case_match; try done; intros [= <- <- <-];
    match goal with
    | H : rhs_immediate_supported o && _ = true |- _ =>
        apply andb_true_iff in H as [Hs Hv]; split_and!; [done|by apply fits_in_int32|done|done]
    | |- _ => by apply Hleft
    end.
Qed.

Lemma straight_binary : straight (binary_emit_binary_integer g context i o).
Proof using All.
  unfold binary_emit_binary_integer.
  match goal with |- straight (match ?x with _ => _ end) => destruct x as [[k mask]|] eqn:Hpow end.
  { destruct (rhs i) as [| | |v| | |] eqn:Hri; try done. destruct (is_op o ["/"; "%"]%string) eqn:Hop; [|done].
    destruct (power_of_two_spec v k mask Hr Hpow) as (Hk & -> & ->).
    apply straight_seq; [by apply straight_load|]. apply straight_seq; [by apply straight_power_of_two|].
    apply straight_store; [left|done]. }
  destruct (immediate_operand i o) as [[[x k] on_rhs]|] eqn:Himm; [|apply straight_general].
  destruct (immediate_operand_static _ _ _ Himm) as (Hx & Hk & Hs & Hcom).
  destruct (if inplace_op o on_rhs k then destination_register g context i else None) as [r|] eqn:Hin.
  - destruct (inplace_op o on_rhs k) eqn:Hop; [|done].
    apply straight_seq; [by apply straight_load|by eapply straight_inplace].
  - destruct (emit_immediate o on_rhs k) as [e|] eqn:He.
    + apply straight_seq; [by apply straight_load|].
      apply straight_seq; [|apply straight_store; [left|done]]. eapply straight_immediate; [exact He| |done].
      intros Hdiv. rewrite Hdiv in Hs. by vm_compute in Hs.
    + apply straight_seq; [by apply straight_load|apply straight_general].
Qed.

Lemma straight_unary : is_op o ["+"; "-"; "!"; "~"]%string = true → straight (emit_unary_integer g context i o).
Proof using Hframe Haliases Hnarrow some Hl Hd.
  clear Hr Ho. intros Hop. unfold emit_unary_integer. apply straight_seq; [by apply straight_load|].
  apply is_op_elem in Hop.
  repeat (apply elem_of_cons in Hop as [Hk|Hop]; [subst o; cbn [String.eqb Ascii.eqb Bool.eqb];
    apply straight_seq; [|by apply straight_store; [left|]]|]); [..|by apply elem_of_nil in Hop].
  - eapply straight_emit, asm_ret.
  - eapply straight_yields, yields_neg.
  - eapply straight_yields, (yields_compare 4 _ _ _ _ tests_eq (compares_zero _)).
  - eapply straight_yields, yields_not.
Qed.

End instruction.

(** ** Fused sequences *)

Lemma straight_operand_in x s (f : BinaryGpRegister → Gen ()) :
  readable x → (∀ r, straight (f r)) → straight (r ← operand_in g context x s; f r).
Proof using Hframe some.
  intros Hx Hf. eapply straight_ext; [intros o; apply operand_in_bind|].
  apply straight_seq; [by apply straight_operand|apply Hf].
Qed.

Lemma straight_compare_flags i :
  code_generator_binary_is_compare_operator (operator i) = true → readable (lhs i) → readable (rhs i) →
  straight (code_generator_binary_emit_compare_flags g context i).
Proof using Hframe some.
  intros Ho Hl Hr. unfold code_generator_binary_emit_compare_flags. rewrite Ho. cbn [negb].
  destruct (immediate_of (rhs i)); [apply straight_operand_in; [done|]; intros r; apply straight_compare_immediate|].
  destruct (if is_op _ _ then _ else None);
    [apply straight_operand_in; [done|]; intros r; apply straight_compare_immediate|].
  apply straight_operand_in; [done|]. intros r. apply straight_operand_in; [done|]. intros l. apply straight_compare.
Qed.

Lemma straight_zero r : straight (emit (binary_emit_mov_reg_imm64 r 0)).
Proof. by eapply straight_yields, (yields_mov_imm64 r). Qed.

Lemma straight_with_immediate x o k e :
  readable x → immediate_form o k = Some e → in_int32 k → straight (with_immediate g context x o k e).
Proof using Hframe some.
  intros Hx He Hk. unfold with_immediate. destruct (annihilates o k); [apply straight_zero|].
  apply straight_seq; [by apply straight_load|by eapply straight_immediate_form].
Qed.

Lemma straight_to_rax i o :
  is_float i = false → text i = Some o → code_generator_binary_chain_producer_supported o = true →
  readable (lhs i) → readable (rhs i) → straight (code_generator_binary_emit_integer_binary_to_rax g context i).
Proof using Hframe some.
  intros Hf Ht Ho Hl Hr. unfold code_generator_binary_emit_integer_binary_to_rax. rewrite Ht, Hf.
  match goal with |- straight (match ?x with _ => _ end) => destruct x as [[k mask]|] eqn:Hpow end.
  { destruct (rhs i) as [| | |v| | |] eqn:Hri; try done. destruct (is_op o ["/"; "%"]%string) eqn:Hdiv; [|done].
    destruct (power_of_two_spec v k mask Hr Hpow) as (Hk & -> & ->).
    apply straight_seq; [by apply straight_load|by apply straight_power_of_two]. }
  clear Hpow.
  match goal with |- straight (match ?x with _ => _ end) => destruct x as [[k e]|] eqn:Himm end.
  { apply bind_Some in Himm as (k' & Hk & Himm). apply bind_Some in Himm as (e' & He & [= -> ->]).
    apply immediate_of_spec in Hk as [_ Hk]. by apply straight_with_immediate. }
  clear Himm.
  match goal with |- straight (match ?x with _ => _ end) => destruct x as [[k e]|] eqn:Himm end.
  { apply bind_Some in Himm as (k' & Hk & Himm). apply bind_Some in Himm as (Hcom & _ & Himm).
    apply bind_Some in Himm as (e' & He & [= -> ->]). apply immediate_of_spec in Hk as [_ Hk].
    by apply straight_with_immediate. }
  destruct (register_form_total o Ho) as [e He]. rewrite He.
  apply straight_seq; [by apply straight_load|]. apply straight_seq; [by apply straight_load|].
  by eapply straight_register_form.
Qed.

Lemma straight_rax_rhs o x :
  code_generator_binary_chain_producer_supported o = true → readable x →
  straight (code_generator_binary_emit_rax_binary_rhs g context o x).
Proof using Hframe some.
  intros Ho Hx. unfold code_generator_binary_emit_rax_binary_rhs.
  match goal with |- straight (match ?x with _ => _ end) => destruct x as [e|] eqn:Himm end.
  { apply bind_Some in Himm as (k & Hk & Himm). apply bind_Some in Himm as (e' & He & [= ->]).
    apply immediate_of_spec in Hk as [_ Hk]. destruct (annihilates o k); [|by eapply straight_immediate_form].
    injection He as <-. apply straight_zero. }
  destruct (register_form_total o Ho) as [e He]. rewrite He.
  apply straight_seq; [by apply straight_load|by eapply straight_register_form].
Qed.

Lemma straight_rax_compare x w :
  readable x →
  straight (match immediate_of x with
     | Some v => emit (binary_emit_cmp_reg_imm32 BINARY_GP_RAX (imm32 v))
     | None => operand_load x BINARY_GP_R10 ;;
               emit (code_generator_binary_emit_reg_reg_compare BINARY_GP_RAX BINARY_GP_R10 w)
     end).
Proof using Hframe some.
  intros Hx. destruct (immediate_of x); [apply straight_compare_immediate|].
  apply straight_seq; [by apply straight_load|apply straight_compare].
Qed.

Lemma straight_mask x k :
  readable x → straight (r ← operand_in g context x BINARY_GP_RAX; emit (binary_emit_test_reg_imm32 r (imm32 k))).
Proof using Hframe some.
  intros Hx. apply straight_operand_in; [done|]. intros r. eapply straight_compares, (compares_mask r k).
Qed.

End straight.
