(* ===== verification/UnitFacts.v ===== *)
(** * Code generation: the units of a body

    The loop over a body emits one instruction or one fused sequence at a time.  Which
    sequences are fused is decided by the names of temporaries alone; here are the
    decisions, the temporaries the fused sequences never store, and when the code of a
    unit does what its instructions do. *)

From stdpp Require Import gmap.
From S2P Require Import Prelude.
From S2P Require Import Types.
From S2P Require Import IR.
From S2P Require Import IRSemantics.
From S2P Require Import Encoders.
From S2P Require Import X86.
From S2P Require Import FunctionContext.
From S2P Require Import Frame.
From S2P Require Import Operands.
From S2P Require Import Selection.
From S2P Require Import Instructions.
From S2P Require Import Peephole.
From S2P Require Import FunctionDriver.
From S2P Require Import EncoderFacts.
From S2P Require Import X86Facts.
From S2P Require Import FrameFacts.
From S2P Require Import SelectionFacts.
From S2P Require Import Execution.
From S2P Require Import BranchFacts.

(** ** Playing straight code *)

Lemma marks_places base ps : marks ps = false → label_places base ps = [].
Proof.
  revert base. induction ps as [|p ps IH]; intros base; cbn; [done|].
  intros [Hp Hm]%orb_false_iff. rewrite IH by done. by destruct p.
Qed.

Lemma marks_app ps qs : marks (ps ++ qs) = marks ps || marks qs.
Proof. apply existsb_app. Qed.

Lemma straight_plays e :
  straight e → ∃ ps, plays e () ps ∧ marks ps = false ∧
    ∀ P Q m, triple P e Q → P m → ∃ m', run_pieces ps m = Some (Fall, m') ∧ Q m'.
Proof.
  intros [p Hp]. destruct (gasm_plays e p Hp) as (ps & Hplay & Hm & Hr). exists ps. split_and!; [done|done|].
  intros P Q m Ht HP. destruct (triple_run P e Q p m Hp Ht HP) as (m' & Hrun & HQ).
  exists m'. split; [|done]. by rewrite Hr, Hrun.
Qed.

Lemma plays_ext {A} (e e' : Gen A) a ps : (∀ o, clean o → e o = e' o) → plays e' a ps → plays e a ps.
Proof. intros He [Hok Hp]. split; [done|]. intros o Ho. rewrite He by done. auto. Qed.

Lemma plays_or_left {A} (e1 e2 : Gen A) a ps : plays e1 a ps → marks ps = false → plays (or_else e1 e2) a ps.
Proof.
  intros [Hok Hp] Hm. split; [done|]. intros o Ho. left. unfold or_else.
  destruct (Hp o Ho) as [->|[Hm' _]]; [done|congruence].
Qed.

(** An attempt that does nothing. *)
Definition declines {A} (e : Gen A) : Prop := ∀ o, e o = (None, o).

Lemma plays_or_right {A} (e1 e2 : Gen A) a ps : declines e1 → plays e2 a ps → plays (or_else e1 e2) a ps.
Proof. intros Hd [Hok Hp]. split; [done|]. intros o Ho. unfold or_else. rewrite Hd. auto. Qed.

Lemma plays_then {A} (e : Gen ()) (a : A) ps : plays e () ps → plays (e ;; mret a) a ps.
Proof. intros Hp. rewrite <- (app_nil_r ps). eapply plays_bind; [exact Hp|apply plays_ret]. Qed.

Lemma plays_branch (e : Emit nat) cc label :
  patchable e (jump_instr cc) → ∃ h, plays (emit_branch e label) () [Jump cc h (To_label label)].
Proof. intros He. by apply plays_jump. Qed.

Lemma plays_false_jump o label :
  code_generator_binary_is_compare_operator o = true →
  ∃ cc h, code_generator_binary_compare_false_jcc o = Some (0x80 + cc)%Z ∧
    plays (false_jump o label) () [Jump (Some cc) h (To_label label)].
Proof.
  intros Ho. destruct (compare_operator_jcc o Ho) as [j Hj]. destruct (compare_false_jcc_range o j Hj) as (cc & -> & Hcc).
  destruct (plays_branch (binary_emit_jcc_placeholder (0x80 + cc)) (Some cc) label (patchable_jcc cc Hcc)) as [h Hh].
  exists cc, h. split; [done|]. unfold false_jump. by rewrite Hj.
Qed.

(** A conditional jump after straight code. *)
Lemma run_jump ps cc h t m m' f c :
  run_pieces ps m = Some (Fall, m') → X86.status m' = Some f → condition cc f = Some c →
  run_pieces (ps ++ [Jump (Some cc) h t]) m = Some (if c then To t else Fall, m').
Proof.
  intros Hr Hf Hc. rewrite (run_pieces_app _ _ _ _ Hr). cbn. rewrite Hf. cbn. rewrite Hc. cbn. by destruct c.
Qed.

(** ** The decisions *)

Section plan.
Context (body : code).

Abbreviation uses_once := (uses_once body).

(** [t = a < b; branch_zero t, label]. *)
Definition match_compare_branch (i : nat) : option (IRInstruction * string * string) :=
  c ← body !! i; b ← body !! S i; t ← is_compare_to_temp c;
  if branches_on b t && uses_once t then l ← text b; Some (c, t, l) else None.

(** [p = a + b; t = p < c; branch_zero t, label]. *)
Definition match_chain_branch (i : nat)
    : option (IRInstruction * IRInstruction * string * string * IROperand * string) :=
  a ← body !! i; c ← body !! S i; b ← body !! S (S i);
  p ← is_chain_producer a; t ← is_compare_to_temp c;
  if branches_on b t && uses_once p && uses_once t then
    x ← other_operand c p; l ← text b;
    if is_symbol (lhs c) && is_int x && is_op (operator c) ["<="; ">="; "<"; ">"]%string then None
    else Some (a, c, p, t, x, l)
  else None.

(** [t = a + b; d = t + c]. *)
Definition match_expression (i : nat) : option (IRInstruction * IRInstruction * string * IROperand) :=
  a ← body !! i; b ← body !! S i; t ← is_chain_producer a;
  if is_integer_binary b && code_generator_binary_chain_producer_supported (operator b) && uses_once t then
    x ← (if code_generator_binary_operand_uses_temp (lhs b) t then Some (rhs b)
         else if code_generator_binary_operator_is_commutative (operator b) &&
                 code_generator_binary_operand_uses_temp (rhs b) t then Some (lhs b)
         else None);
    Some (a, b, t, x)
  else None.

(** The instructions of the unit at an index and the temporaries it does not store. *)
Definition plan (i : nat) : nat * list string :=
  match match_chain_branch i with
  | Some (_, _, p, t, _, _) => (3, [p; t])
  | None =>
      match match_expression i with
      | Some (_, _, t, _) => (2, [t])
      | None => match match_compare_branch i with Some (_, t, _) => (2, [t]) | None => (1, []) end
      end
  end.

Definition unit_size (i : nat) : nat := fst (plan i).
Definition killed (i : nat) : list string := snd (plan i).

(** Where the units start. *)
Fixpoint unit_start (k : nat) : nat :=
  match k with O => 0 | S k => unit_start k + unit_size (unit_start k) end.

Definition dead (n : string) : Prop := ∃ k, n ∈ killed (unit_start k).

(** ** Uses *)

Definition uses (n : string) (i : IRInstruction) : nat := code_generator_binary_instruction_temp_use_count i n.
Abbreviation total n := (code_generator_binary_function_temp_use_count body n).

Lemma uses_temp_true x n : code_generator_binary_operand_uses_temp x n = true ↔ ∃ b, x = IR_OPERAND_TEMP n b.
Proof.
  unfold code_generator_binary_operand_uses_temp, is_name. split.
  - destruct x as [|n' b| | | | |]; cbn; try done. destruct (String.eqb_spec n' n) as [->|]; [eauto|done].
  - intros [b ->]. cbn. apply String.eqb_refl.
Qed.

Definition one_if (b : bool) : nat := if b then 1 else 0.

Lemma uses_operands n i :
  one_if (code_generator_binary_operand_uses_temp (lhs i) n) +
  one_if (code_generator_binary_operand_uses_temp (rhs i) n) <= uses n i.
Proof. unfold uses, code_generator_binary_instruction_temp_use_count, one_if. lia. Qed.

Lemma total_cons n i c :
  code_generator_binary_function_temp_use_count (i :: c) n =
  uses n i + code_generator_binary_function_temp_use_count c n.
Proof. done. Qed.

Lemma uses_in n (c : code) j i : c !! j = Some i → uses n i <= code_generator_binary_function_temp_use_count c n.
Proof.
  revert c. induction j as [|j IH]; intros [|i' c] Hi; try done; rewrite total_cons.
  - injection Hi as ->. lia.
  - specialize (IH _ Hi). lia.
Qed.

Lemma uses_in_two n (c : code) j k i i' :
  j ≠ k → c !! j = Some i → c !! k = Some i' →
  uses n i + uses n i' <= code_generator_binary_function_temp_use_count c n.
Proof.
  revert c k. induction j as [|j IH]; intros [|i1 c] [|k] Hne Hi Hk; try done; rewrite total_cons.
  - injection Hi as ->. pose proof (uses_in n c k i' Hk). lia.
  - injection Hk as ->. pose proof (uses_in n c j i Hi). lia.
  - specialize (IH _ _ (λ H, Hne (f_equal S H)) Hi Hk). lia.
Qed.

Lemma uses_once_total n : uses_once n = true → total n = 1.
Proof. apply Nat.eqb_eq. Qed.

(** A temporary used once is used by one operand of one instruction. *)
Lemma used_elsewhere n j k i i' x :
  uses_once n = true → body !! j = Some i → body !! k = Some i' → 1 <= uses n i →
  x = lhs i' ∨ x = rhs i' → (∃ b, x = IR_OPERAND_TEMP n b) → j = k.
Proof.
  intros H1%uses_once_total Hj Hk Hu Hx Hn. destruct (decide (j = k)) as [|Hne]; [done|].
  pose proof (uses_in_two n body j k i i' Hne Hj Hk). pose proof (uses_operands n i') as Ho.
  apply uses_temp_true in Hn. unfold one_if in Ho. destruct Hx as [->| ->]; rewrite Hn in Ho; lia.
Qed.

Lemma used_by_lhs n j i :
  uses_once n = true → body !! j = Some i → code_generator_binary_operand_uses_temp (lhs i) n = true →
  code_generator_binary_operand_uses_temp (rhs i) n = false.
Proof.
  intros H1%uses_once_total Hj Hl. pose proof (uses_in n body j i Hj). pose proof (uses_operands n i) as Ho.
  unfold one_if in Ho. rewrite Hl in Ho. by destruct (code_generator_binary_operand_uses_temp (rhs i) n); [lia|].
Qed.

(** *** Matches *)

Lemma match_compare_branch_spec i c t l :
  match_compare_branch i = Some (c, t, l) →
  ∃ b, body !! i = Some c ∧ body !! S i = Some b ∧ is_compare_to_temp c = Some t ∧ op b = IR_OP_BRANCH_ZERO ∧
    (∃ k, lhs b = IR_OPERAND_TEMP t k) ∧ text b = Some l ∧ uses_once t = true.
Proof.
  unfold match_compare_branch. intros H. repeat (apply bind_Some in H as (? & ? & H)).
  destruct (branches_on _ _ && _) eqn:Hb; [|done]. apply bind_Some in H as (? & ? & [= -> -> ->]).
  apply andb_true_iff in Hb as [[Hop%bool_decide_eq_true_1 Hl%uses_temp_true]%andb_true_iff Hu]. eauto 10.
Qed.

Lemma match_chain_branch_spec i a c p t x l :
  match_chain_branch i = Some (a, c, p, t, x, l) →
  ∃ b, body !! i = Some a ∧ body !! S i = Some c ∧ body !! S (S i) = Some b ∧
    is_chain_producer a = Some p ∧ is_compare_to_temp c = Some t ∧ op b = IR_OP_BRANCH_ZERO ∧
    (∃ k, lhs b = IR_OPERAND_TEMP t k) ∧ text b = Some l ∧ uses_once p = true ∧ uses_once t = true ∧
    other_operand c p = Some x ∧
    is_symbol (lhs c) && is_int x && is_op (operator c) ["<="; ">="; "<"; ">"]%string = false.
Proof.
  unfold match_chain_branch. intros H. do 5 (apply bind_Some in H as (? & ? & H)).
  destruct (branches_on _ _ && _ && _) eqn:Hb; [|done]. do 2 (apply bind_Some in H as (? & ? & H)).
  destruct (is_symbol _ && _ && _) eqn:Hs; [done|]. injection H as -> -> -> -> -> ->.
  apply andb_true_iff in Hb as [[[Hop%bool_decide_eq_true_1 Hl%uses_temp_true]%andb_true_iff Hu]%andb_true_iff Hu'].
  eauto 20.
Qed.

Lemma match_expression_spec i a b t x :
  match_expression i = Some (a, b, t, x) →
  body !! i = Some a ∧ body !! S i = Some b ∧ is_chain_producer a = Some t ∧ is_integer_binary b = true ∧
  code_generator_binary_chain_producer_supported (operator b) = true ∧ uses_once t = true ∧
  (code_generator_binary_operand_uses_temp (lhs b) t = true ∧ x = rhs b ∨
   code_generator_binary_operator_is_commutative (operator b) = true ∧
   code_generator_binary_operand_uses_temp (lhs b) t = false ∧
   code_generator_binary_operand_uses_temp (rhs b) t = true ∧ x = lhs b).
Proof.
  unfold match_expression. intros H. do 3 (apply bind_Some in H as (? & ? & H)).
  destruct (is_integer_binary _ && _ && _) eqn:Hb; [|done]. apply bind_Some in H as (? & Hx & [= -> -> -> ->]).
  apply andb_true_iff in Hb as [[? ?]%andb_true_iff ?]. split_and!; try done.
  destruct (code_generator_binary_operand_uses_temp (lhs b) t); [left; by simplify_eq|].
  destruct (_ && _) eqn:Hc; [|done]. apply andb_true_iff in Hc as []. right. by simplify_eq.
Qed.

(** *** Liveness *)

Lemma plan_cases i :
  (∃ a c p t x l, match_chain_branch i = Some (a, c, p, t, x, l) ∧ plan i = (3, [p; t])) ∨
  match_chain_branch i = None ∧
  ((∃ a b t x, match_expression i = Some (a, b, t, x) ∧ plan i = (2, [t])) ∨
   match_expression i = None ∧
   ((∃ c t l, match_compare_branch i = Some (c, t, l) ∧ plan i = (2, [t])) ∨
    match_compare_branch i = None ∧ plan i = (1, []))).
Proof.
  unfold plan. destruct (match_chain_branch i) as [[[[[[a c] p] t] x] l]|]; [left; by eauto 10|right; split; [done|]].
  destruct (match_expression i) as [[[[a b] t] x]|]; [left; by eauto 10|right; split; [done|]].
  destruct (match_compare_branch i) as [[[c t] l]|]; [left; by eauto 10|by right].
Qed.

Lemma unit_size_pos i : 1 <= unit_size i.
Proof.
  unfold unit_size. destruct (plan_cases i) as [(?&?&?&?&?&?&?&->)|(?&[(?&?&?&?&?&->)|(?&[(?&?&?&?&->)|(?&->)])])]; cbn; lia.
Qed.

Definition in_unit (k j : nat) : Prop := unit_start k <= j < unit_start k + unit_size (unit_start k).

Lemma unit_start_le k k' : k < k' → unit_start k + unit_size (unit_start k) <= unit_start k'.
Proof.
  induction k' as [|k' IH]; [lia|]. intros Hk. cbn. pose proof (unit_size_pos (unit_start k')).
  destruct (decide (k = k')) as [->|]; [lia|]. specialize (IH ltac:(lia)). lia.
Qed.

Lemma units_disjoint k k' j : in_unit k j → in_unit k' j → k = k'.
Proof.
  unfold in_unit. intros H H'. destruct (Nat.lt_trichotomy k k') as [Hk|[Hk|Hk]]; [|done|];
    apply unit_start_le in Hk; lia.
Qed.

Lemma uses_of_temp n b x i : x = lhs i ∨ x = rhs i → x = IR_OPERAND_TEMP n b → 1 <= uses n i.
Proof.
  intros Hx Hn. assert (code_generator_binary_operand_uses_temp x n = true) as Hu by (apply uses_temp_true; eauto).
  pose proof (uses_operands n i) as Ho. unfold one_if in Ho.
  destruct Hx as [Hx|Hx]; rewrite Hx in Hu; rewrite Hu in Ho; lia.
Qed.

Lemma other_operand_spec c p x :
  other_operand c p = Some x →
  (code_generator_binary_operand_uses_temp (lhs c) p = true ∧ x = rhs c) ∨
  (is_op (operator c) ["=="; "!="]%string = true ∧ code_generator_binary_operand_uses_temp (lhs c) p = false ∧
   code_generator_binary_operand_uses_temp (rhs c) p = true ∧ x = lhs c).
Proof.
  unfold other_operand. destruct (code_generator_binary_operand_uses_temp (lhs c) p); [left; by simplify_eq|].
  destruct (_ && _) eqn:Hc; [|done]. apply andb_true_iff in Hc as []. right. by simplify_eq.
Qed.

(** The use of a temporary that is not stored is in its unit. *)
Lemma killed_use i n :
  n ∈ killed i → uses_once n = true ∧
    ∃ j ins, i <= j < i + unit_size i ∧ body !! j = Some ins ∧ 1 <= uses n ins.
Proof.
  unfold killed, unit_size.
  destruct (plan_cases i) as [(a&c&p&t&x&l&Hm&->)|(?&[(a&b&t&x&Hm&->)|(?&[(c&t&l&Hm&->)|(?&->)])])]; cbn [fst snd].
  - destruct (match_chain_branch_spec _ _ _ _ _ _ _ Hm) as (b & Ha & Hc & Hb & _ & _ & _ & (k & Hk) & _ & Hp & Ht & Ho & _).
    intros [->|[->|Hin%elem_of_nil]%elem_of_cons]%elem_of_cons; [..|done].
    + split; [done|]. exists (S i), c. split_and!; [lia..|done|].
      destruct (other_operand_spec _ _ _ Ho) as [[Hu _]|(_ & _ & Hu & _)]; apply uses_temp_true in Hu as [b' Hu];
        eapply uses_of_temp; [by left|done|by right|done].
    + split; [done|]. exists (S (S i)), b. split_and!; [lia..|done|]. eapply uses_of_temp; [by left|done].
  - destruct (match_expression_spec _ _ _ _ _ Hm) as (Ha & Hb & _ & _ & _ & Ht & Hx).
    intros ->%list_elem_of_singleton. split; [done|]. exists (S i), b. split_and!; [lia..|done|].
    destruct Hx as [[Hu _]|(_ & _ & Hu & _)]; apply uses_temp_true in Hu as [b' Hu];
      eapply uses_of_temp; [by left|done|by right|done].
  - destruct (match_compare_branch_spec _ _ _ _ Hm) as (b & Hc & Hb & _ & _ & (k & Hk) & _ & Ht).
    intros ->%list_elem_of_singleton. split; [done|]. exists (S i), b. split_and!; [lia..|done|].
    eapply uses_of_temp; [by left|done].
  - by intros ?%elem_of_nil.
Qed.

(** What a unit reads and does not itself compute is in its cell. *)
Lemma live k j ins n b x :
  in_unit k j → body !! j = Some ins → x = lhs ins ∨ x = rhs ins → x = IR_OPERAND_TEMP n b →
  n ∉ killed (unit_start k) → ¬ dead n.
Proof.
  intros Hj Hins Hx Hn Hk (k' & Hk'). destruct (killed_use _ _ Hk') as (Hu & j' & ins' & Hj' & Hins' & Huse).
  pose proof (used_elsewhere n j' j ins' ins x Hu Hins' Hins Huse Hx ltac:(eauto)) as ->.
  by rewrite (units_disjoint k k' j Hj Hj') in Hk.
Qed.

(** No other instruction reads a temporary used once. *)
Lemma no_other_use n j ins x b j' ins' :
  uses_once n = true → body !! j' = Some ins' → 1 <= uses n ins' → j' ≠ j →
  body !! j = Some ins → x = lhs ins ∨ x = rhs ins → x ≠ IR_OPERAND_TEMP n b.
Proof. intros Hu Hj' Hn' Hne Hj Hx Hn. apply Hne. by eapply (used_elsewhere n j' j ins' ins x); eauto. Qed.
End plan.
