(* ===== verification/BodyFacts.v ===== *)
(** * Code generation: correctness of units and bodies

    The code of a unit, run in a machine that represents a state of the intermediate
    representation, goes where the instructions of the unit go and leaves a machine that
    represents the state they lead to. *)

From stdpp Require Import gmap.
From S2P Require Import Prelude.
From S2P Require Import Types.
From S2P Require Import SymbolTable.
From S2P Require Import IR.
From S2P Require Import IRSemantics.
From S2P Require Import FoldFacts.
From S2P Require Import ControlFlowFacts.
From S2P Require Import Encoders.
From S2P Require Import X86.
From S2P Require Import FunctionContext.
From S2P Require Import Frame.
From S2P Require Import Operands.
From S2P Require Import Selection.
From S2P Require Import Instructions.
From S2P Require Import Peephole.
From S2P Require Import FunctionDriver.
From S2P Require Import EncoderFacts.
From S2P Require Import X86Facts.
From S2P Require Import CompareFacts.
From S2P Require Import MemoryFacts.
From S2P Require Import FrameFacts.
From S2P Require Import SelectionFacts.
From S2P Require Import Execution.
From S2P Require Import BranchFacts.
From S2P Require Import UnitFacts.

Section body.
Context {M : Machine} (g : CodeGenerator) (context : BinaryFunctionContext).
Context (emit_other : IRInstruction → Gen ()) (body : code) (before : machine).

Abbreviation dead := (dead body).
Abbreviation represents := (represents g context dead before).
Abbreviation holds := (holds g context dead before).
Abbreviation compare_width := (code_generator_binary_instruction_compare_width g context).
Abbreviation emit_next := (emit_next g context emit_other body).

(** ** The instructions *)

Definition has_cell (x : variable) : bool := match cell_of g context x with Some _ => true | None => false end.

(** Immediates, temporaries and scalar locals. *)
Definition loadable (x : IROperand) : bool :=
  match x with
  | IR_OPERAND_TEMP n _ => has_cell (Temp n)
  | IR_OPERAND_SYMBOL n _ => has_cell (Local n)
  | IR_OPERAND_INT k => (- 2 ^ 63 <=? k)%Z && (k <? 2 ^ 63)%Z
  | _ => false
  end.
Definition assignable (x : IROperand) : bool :=
  match x with IR_OPERAND_TEMP n _ => has_cell (Temp n) | IR_OPERAND_SYMBOL n _ => has_cell (Local n) | _ => false end.

Definition labelled (i : IRInstruction) : bool := match label_text i with Some _ => true | None => false end.

(** The instructions on integers that stay within the function. *)
Definition supported (i : IRInstruction) : bool :=
  negb (is_float i) &&
  match op i with
  | IR_OP_NOP => true
  | IR_OP_LABEL | IR_OP_JUMP => labelled i
  | IR_OP_BRANCH_ZERO => labelled i && loadable (lhs i)
  | IR_OP_BRANCH_EQ => labelled i && loadable (lhs i) && loadable (rhs i)
  | IR_OP_ASSIGN =>
      loadable (lhs i) && assignable (dest i) &&
      match dest i with IR_OPERAND_SYMBOL n _ => bool_decide (is_Some (local_type g n)) | _ => true end
  | IR_OP_BINARY =>
      match text i with
      | Some o =>
          match assoc o binary_table with Some _ => true | None => false end &&
          negb (is_kind TYPE_STRING (e ← ast_ref i; type_at g (expression_type g e)) && String.eqb o "+")
      | None => false
      end && loadable (lhs i) && loadable (rhs i) && assignable (dest i)
  | IR_OP_UNARY =>
      match text i with Some o => is_op o ["+"; "-"; "!"; "~"]%string | None => false end &&
      loadable (lhs i) && assignable (dest i)
  | IR_OP_RETURN => match lhs i with IR_OPERAND_NONE => true | x => loadable x end
  | IR_OP_DECLARE_LOCAL =>
      match symbol_name (dest i) with
      | Some n => negb (String.eqb n EmptyString) && (0 <? code_generator_binary_get_local_offset context n)%Z
      | None => false
      end
  | _ => false
  end.

(** What an instruction needs of the state it runs in: the operands of [&&] are truth
    values, those of a 32-bit comparison 32-bit numbers, and a value stored to a promoted
    variable fits it. *)
Definition fits (i : IRInstruction) (st : mstate world) : Prop :=
  (op i = IR_OP_BINARY → ∀ o a b, text i = Some o → eval st (lhs i) = Some a → eval st (rhs i) = Some b →
     selectable o (compare_width i) a b) ∧
  (op i = IR_OP_BRANCH_EQ → ∀ a b, eval st (lhs i) = Some a → eval st (rhs i) = Some b →
     compare_width i = 4%Z → in_int32 a ∧ in_int32 b) ∧
  ∀ v n b r, rhs_value i st = Some v → dest i = IR_OPERAND_SYMBOL n b →
    cell_of g context (Local n) = Some (In_register r) → narrow n (s64 v) = s64 v.

(** ** Runs *)

(** The run from [k] goes on and fits wherever it gets. *)
Definition good (k : config) : Prop :=
  (∀ n, IRSemantics.run n body k ≠ None) ∧
  ∀ n pc st i, IRSemantics.run n body k = Some (At pc st) → body !! pc = Some i → fits i st.

Lemma good_step k : good k → ∃ k', step body k = Some k' ∧ good k'.
Proof.
  intros [Hr Hf]. destruct (step body k) as [k'|] eqn:Hs.
  - exists k'. split; [done|]. split.
    + intros n Hn. apply (Hr (S n)). cbn. by rewrite Hs.
    + intros n pc st i Hn. apply (Hf (S n) pc st i). cbn. by rewrite Hs.
  - exfalso. apply (Hr 1). cbn. by rewrite Hs.
Qed.

Lemma good_fits pc st i : good (At pc st) → body !! pc = Some i → fits i st.
Proof. intros [_ Hf] Hi. by apply (Hf 0 pc st i). Qed.

Lemma good_control pc st i :
  good (At pc st) → body !! pc = Some i →
  ∃ f, control i st = Some f ∧
    match f with
    | IRSemantics.Next st' => step body (At pc st) = Some (At (S pc) st') ∧ good (At (S pc) st')
    | Goto l => ∃ pc', ir_find_label_index body l = Some pc' ∧ step body (At pc st) = Some (At pc' st)
    | Leave v => step body (At pc st) = Some (Halted v st)
    end.
Proof.
  intros Hg Hi. destruct (good_step _ Hg) as (k' & Hs & Hg'). pose proof Hs as Hs'. cbn [step] in Hs'. rewrite Hi in Hs'.
  apply bind_Some in Hs' as (f & Hf & Hk). exists f. split; [done|]. destruct f as [st'|l|v].
  - injection Hk as <-. done.
  - apply bind_Some in Hk as (pc' & Hl & [= <-]). eauto.
  - by injection Hk as <-.
Qed.

(** Where the code of a unit is when the run is at [k]. *)
Definition arrives (next : nat) (k : config) (x : exit) (m : machine) : Prop :=
  match k, x with
  | At pc st, Fall => pc = next ∧ represents st m
  | At pc st, To (To_label l) => ir_find_label_index body l = Some pc ∧ represents st m
  | Halted v st, To To_end => represents st m ∧ ∀ a, v = Some a → regs m BINARY_GP_RAX = u64 a
  | _, _ => False
  end.

(** The pieces do what the [n] instructions from [i] on do. *)
Definition simulates (i n : nat) (ps : list piece) : Prop :=
  ∀ st m, good (At i st) → represents st m →
    ∃ j k x m', IRSemantics.run (S j) body (At i st) = Some k ∧
      run_pieces ps m = Some (x, m') ∧ arrives (i + n) k x m'.

(** The labels a unit defines: that of an instruction that is a label. *)
Definition places (i : nat) (ps : list piece) : Prop :=
  ∀ base, label_places base ps =
    match body !! i with
    | Some ins => if bool_decide (op ins = IR_OP_LABEL) then
                    match text ins with Some l => [(l, base)] | None => [] end else []
    | None => []
    end.

Definition unit_correct (i : nat) (e : Gen nat) : Prop :=
  ∃ ps, plays e (unit_size body i) ps ∧ places i ps ∧ simulates i (unit_size body i) ps.

(** ** Units *)

Context (Hframe : frame_ok g context) (Haliases : symbol_aliases context = []).
Context (Hnarrow : narrows_as_typed g context) (Hdirect : returns_indirect context = false).
Context (Hdeclare : ∀ i st, op i = IR_OP_DECLARE_LOCAL → external i st = Some st).
Context (Hbody : ∀ i ins, body !! i = Some ins → supported ins = true).
Context (some : mstate world).

Abbreviation readable := (readable g context dead).
Abbreviation storable := (storable g context).
Abbreviation emit_instruction := (code_generator_binary_emit_instruction g context emit_other).

Lemma has_cell_spec x : has_cell x = true ↔ is_Some (cell_of g context x).
Proof. unfold has_cell. destruct (cell_of g context x); by split. Qed.

Lemma loadable_readable x :
  loadable x = true → (∀ n b, x = IR_OPERAND_TEMP n b → ¬ dead n) → readable x.
Proof using Haliases.
  intros Hx Hd. destruct x as [|n b|n b|k| | |]; try done; cbn [loadable FrameFacts.readable] in *.
  - split; [by eapply Hd|by apply has_cell_spec].
  - exists n. split; [by apply resolve_self|by apply has_cell_spec].
  - unfold in_s64. lia.
Qed.

Lemma assignable_storable x : assignable x = true → storable x.
Proof. destruct x; try done; cbn [assignable BranchFacts.storable]; by rewrite has_cell_spec. Qed.

Lemma fits_writable ins v st :
  storable (dest ins) → fits ins st → rhs_value ins st = Some v → writable g context (dest ins) v st.
Proof using Haliases.
  intros Hs (_ & _ & Hf) Hv. destruct (dest ins) as [|n b|n b| | | |] eqn:Hd; try done.
  split; [by apply unshared_always|]. split; [done|]. intros r. by apply (Hf v n b r).
Qed.

Lemma unit_of i ins : body !! i = Some ins → plan body i = (1, []) → unit_size body i = 1.
Proof. intros _ Hp. unfold unit_size. by rewrite Hp. Qed.

(** A unit of one instruction. *)
Lemma step_unit i ins ps :
  body !! i = Some ins → plan body i = (1, []) → plays (emit_instruction ins) () ps → places i ps →
  (∀ st m f, control ins st = Some f → fits ins st → represents st m →
     ∃ x m', run_pieces ps m = Some (x, m') ∧
       match f with
       | IRSemantics.Next st' => x = Fall ∧ represents st' m'
       | Goto l => x = To (To_label l) ∧ represents st m'
       | Leave v => x = To To_end ∧ represents st m' ∧ ∀ a, v = Some a → regs m' BINARY_GP_RAX = u64 a
       end) →
  unit_correct i (emit_single g context emit_other body i).
Proof.
  intros Hi Hplan Hp Hpl Hrun. exists ps. rewrite (unit_of i ins Hi Hplan). split_and!; [|done|].
  - unfold emit_single. rewrite Hi. by apply plays_then.
  - intros st m Hg Hm. destruct (good_control _ _ _ Hg Hi) as (f & Hf & Hk).
    destruct (Hrun st m f Hf (good_fits _ _ _ Hg Hi) Hm) as (x & m' & Hr & Hx). exists 0.
    destruct f as [st'|l|v]; cbn [IRSemantics.run].
    + destruct Hk as [-> _], Hx as [-> Hx]. exists (At (S i) st'), Fall, m'. split_and!; [done|done|].
      split; [lia|done].
    + destruct Hk as (pc' & Hl & ->), Hx as [-> Hx]. by exists (At pc' st), (To (To_label l)), m'.
    + destruct Hx as (-> & Hx & Ha). rewrite Hk. by exists (Halted v st), (To To_end), m'.
Qed.

Lemma places_none i ins ps :
  body !! i = Some ins → op ins ≠ IR_OP_LABEL → marks ps = false → places i ps.
Proof.
  intros Hi Ho Hm base. rewrite marks_places, Hi by done. by rewrite bool_decide_eq_false_2.
Qed.

(** One whose code is straight. *)
Lemma straight_unit i ins (e : Gen ()) :
  body !! i = Some ins → plan body i = (1, []) → op ins ≠ IR_OP_LABEL →
  (∀ o, clean o → emit_instruction ins o = e o) → straight e →
  (∀ st f, control ins st = Some f → ∃ st', f = IRSemantics.Next st') →
  (∀ st st', IRSemantics.exec ins st = Some st' → fits ins st → triple (represents st) e (represents st')) →
  (∀ st st', control ins st = Some (IRSemantics.Next st') → IRSemantics.exec ins st = Some st') →
  unit_correct i (emit_single g context emit_other body i).
Proof.
  intros Hi Hplan Ho He Hs Hnext Ht Hx. destruct (straight_plays e Hs) as (ps & Hp & Hm & Hr).
  apply (step_unit i ins ps); [done..|by eapply plays_ext|by eapply places_none|].
  - intros st m f Hf Hfit HR. destruct (Hnext st f Hf) as [st' ->].
    destruct (Hr _ _ m (Ht st st' (Hx st st' Hf) Hfit) HR) as (m' & Hrun & HQ). by exists Fall, m'.
Qed.

(** One that jumps to a label if two values are equal. *)
Definition says_equal (st : mstate world) (b : bool) (m : machine) : Prop :=
  represents st m ∧ ∃ f, X86.status m = Some f ∧ condition 4 f = Some b.

Lemma compared_equal st b m : compared_to g context dead before st "==" (truth b) m → says_equal st b m.
Proof.
  intros [Hm (f & Hf & _ & Hs)]. split; [done|]. exists f. split; [done|].
  rewrite (Hs 4%Z) by done. by destruct b.
Qed.

Lemma equal_unit i ins e label :
  body !! i = Some ins → plan body i = (1, []) → op ins ≠ IR_OP_LABEL →
  (∀ o, emit_instruction ins o = (e ;; emit_branch binary_emit_je_placeholder label) o) → straight e →
  (∀ st f, control ins st = Some f → fits ins st →
     ∃ b, f = (if b : bool then Goto label else IRSemantics.Next st) ∧ triple (represents st) e (says_equal st b)) →
  unit_correct i (emit_single g context emit_other body i).
Proof.
  intros Hi Hplan Ho He Hs Ht. destruct (straight_plays e Hs) as (ps & Hp & Hm & Hr).
  destruct (plays_branch binary_emit_je_placeholder (Some 4%Z) label (patchable_jcc 4 ltac:(lia))) as [h Hh].
  apply (step_unit i ins (ps ++ [Jump (Some 4%Z) h (To_label label)])); [done..| |eapply places_none; [done..|]|].
  - eapply plays_ext; [intros o _; apply He|]. eapply plays_bind; [exact Hp|exact Hh].
  - by rewrite marks_app, Hm.
  - intros st m f Hf Hfit HR. destruct (Ht st f Hf Hfit) as (b & -> & Htr).
    destruct (Hr _ _ m Htr HR) as (m' & Hrun & Hm' & fl & Hfl & Hcc).
    exists (if b then To (To_label label) else Fall), m'. split; [by eapply run_jump|]. by destruct b.
Qed.

Section single.
Variables (i : nat) (ins : IRInstruction).
Context (Hi : body !! i = Some ins) (Hplan : plan body i = (1, [])).
Context (Hlive : ∀ x n b, x = lhs ins ∨ x = rhs ins → x = IR_OPERAND_TEMP n b → ¬ dead n).

Lemma read_lhs : loadable (lhs ins) = true → readable (lhs ins).
Proof using Haliases Hlive. intros Hl. apply loadable_readable; [done|]. intros n b. by apply Hlive; left. Qed.
Lemma read_rhs : loadable (rhs ins) = true → readable (rhs ins).
Proof using Haliases Hlive. intros Hl. apply loadable_readable; [done|]. intros n b. by apply Hlive; right. Qed.

Lemma labelled_text : labelled ins = true → ∃ l, label_text ins = Some l ∧ text ins = Some l.
Proof.
  unfold labelled, label_text. destruct (text ins) as [[|c s]|]; try done. eauto.
Qed.

Abbreviation correct := (unit_correct i (emit_single g context emit_other body i)).

Lemma nop_unit : op ins = IR_OP_NOP → correct.
Proof using Hi Hplan Haliases.
  intros Ho. apply (straight_unit i ins (mret ())); [done|done|by rewrite Ho| |apply straight_ret|..].
  - intros o _. unfold code_generator_binary_emit_instruction. by rewrite Ho.
  - unfold control. rewrite Ho. intros st f Hf. apply fmap_Some in Hf as (st' & _ & ->). eauto.
  - unfold IRSemantics.exec. rewrite Ho. intros st st' [= <-] _. apply triple_ret.
  - unfold control. rewrite Ho. intros st st' Hf. apply fmap_Some in Hf as (st1 & -> & [= ->]). done.
Qed.

Lemma label_unit : op ins = IR_OP_LABEL → labelled ins = true → correct.
Proof using Hi Hplan Haliases.
  intros Ho (l & Hl & Ht)%labelled_text. apply (step_unit i ins [Mark l]); [done|done|..].
  - unfold code_generator_binary_emit_instruction, with_label. rewrite Ho, Hl. split; [by repeat constructor|].
    intros o _. unfold define_label, mbind, Gen_bind, get_output, binary_label_table_define.
    destruct (binary_label_table_get (labels o) l); [by right|by left].
  - intros base. rewrite Hi, Ho, Ht. done.
  - unfold control, IRSemantics.exec. rewrite Ho. intros st m f [= <-] _ Hm. by exists Fall, m.
Qed.

Lemma jump_unit : op ins = IR_OP_JUMP → labelled ins = true → correct.
Proof using Hi Hplan Haliases.
  intros Ho (l & Hl & Ht)%labelled_text. destruct (plays_branch _ None l patchable_jmp) as [h Hh].
  apply (step_unit i ins [Jump None h (To_label l)]); [done|done|..].
  - unfold code_generator_binary_emit_instruction, with_label. by rewrite Ho, Hl.
  - by eapply places_none; [|rewrite Ho|].
  - unfold control. rewrite Ho, Ht. intros st m f [= <-] _ Hm. by exists (To (To_label l)), m.
Qed.

Lemma declare_unit : op ins = IR_OP_DECLARE_LOCAL → supported ins = true → correct.
Proof using Hi Hplan Haliases Hdeclare.
  intros Ho [_ Hs]%andb_true_iff. rewrite Ho in Hs.
  apply (straight_unit i ins (mret ())); [done|done|by rewrite Ho| |apply straight_ret|..].
  - intros o _. unfold code_generator_binary_emit_instruction. rewrite Ho.
    destruct (symbol_name (dest ins)) as [[|c s]|]; try done. cbn in Hs.
    destruct (Z.leb_spec (code_generator_binary_get_local_offset context (String c s)) 0); [lia|done].
  - unfold control, IRSemantics.exec, computes. rewrite Ho. intros st f Hf.
    apply fmap_Some in Hf as (st' & _ & ->). eauto.
  - unfold IRSemantics.exec, computes. rewrite Ho. intros st st' He _. rewrite Hdeclare in He by done.
    injection He as <-. apply triple_ret.
  - unfold control. rewrite Ho. intros st st' Hf. apply fmap_Some in Hf as (st1 & -> & [= ->]). done.
Qed.

Lemma gen_assoc {A} (e1 e2 : Gen ()) (e3 : Gen A) o : (e1 ;; e2 ;; e3) o = ((e1 ;; e2) ;; e3) o.
Proof. unfold mbind, Gen_bind. by destruct (e1 o) as [[[]|] ?]. Qed.

Lemma gen_regroup {A} (e1 e2 e3 : Gen ()) (e4 : Gen A) o :
  (e1 ;; e2 ;; e3 ;; e4) o = ((e1 ;; e2 ;; e3) ;; e4) o.
Proof.
  unfold mbind, Gen_bind. destruct (e1 o) as [[[]|] o1]; [|done]. by destruct (e2 o1) as [[[]|] o2].
Qed.

Lemma int_binary_equal a b : int_binary "==" a b = Some (truth (a =? b)%Z).
Proof. done. Qed.

Lemma branch_zero_unit : op ins = IR_OP_BRANCH_ZERO → supported ins = true → correct.
Proof using Hi Hplan Haliases Hframe Hlive some.
  intros Ho Hs. unfold supported in Hs. rewrite Ho in Hs.
  apply andb_true_iff in Hs as [_ [(l & Hl & Ht)%labelled_text Hx]%andb_true_iff]. apply read_lhs in Hx.
  apply (equal_unit i ins (code_generator_binary_emit_operand_load g context (lhs ins) BINARY_GP_RAX ;;
    emit (binary_emit_test_reg_reg BINARY_GP_RAX)) l); [done|done|by rewrite Ho|..].
  - intros o. unfold code_generator_binary_emit_instruction, with_label. rewrite Ho, Hl. apply gen_assoc.
  - apply straight_seq; [by apply (straight_load g context Hframe dead some)|eapply straight_compares, compares_zero].
  - intros st f Hf _. unfold control in Hf. rewrite Ho, Ht in Hf. apply bind_Some in Hf as (v & Hv & Hf).
    exists (v =? 0)%Z. split; [by destruct (v =? 0)%Z; injection Hf as <-|].
    eapply triple_seq; [by apply (triple_load_rax g context Hframe)|].
    eapply triple_weaken; [intros m Hm; exact Hm|apply (compared_equal st)|].
    eapply triple_compares; [apply compares_zero| |done|apply int_binary_equal].
    intros m _ Hm. cbv beta. rewrite (holds_in _ _ _ _ _ _ _ _ _ Hm ltac:(left)), s64_u64, s64_in; [done|].
    by eapply eval_fits.
Qed.

Lemma branch_eq_unit : op ins = IR_OP_BRANCH_EQ → supported ins = true → correct.
Proof using Hi Hplan Haliases Hframe Hlive some.
  intros Ho Hs. unfold supported in Hs. rewrite Ho in Hs.
  apply andb_true_iff in Hs as [_ [[(l & Hl & Ht)%labelled_text Hx]%andb_true_iff Hy]%andb_true_iff].
  apply read_lhs in Hx. apply read_rhs in Hy.
  apply (equal_unit i ins ((code_generator_binary_emit_operand_load g context (rhs ins) BINARY_GP_R10 ;;
    code_generator_binary_emit_operand_load g context (lhs ins) BINARY_GP_RAX) ;;
    emit (code_generator_binary_emit_reg_reg_compare BINARY_GP_RAX BINARY_GP_R10 (compare_width ins))) l);
    [done|done|by rewrite Ho|..].
  - intros o. unfold code_generator_binary_emit_instruction, with_label. rewrite Ho, Hl.
    unfold emit_branch_eq. by rewrite <- !gen_assoc.
  - apply straight_seq; [|apply straight_compare].
    apply straight_seq; by apply (straight_load g context Hframe dead some).
  - intros st f Hf (_ & Hfit & _). unfold control in Hf. rewrite Ho, Ht in Hf.
    apply bind_Some in Hf as (a & Ha & Hf). apply bind_Some in Hf as (b & Hb & Hf).
    exists (a =? b)%Z. split; [by destruct (a =? b)%Z; injection Hf as <-|].
    eapply triple_seq; [by apply (triple_load_both g context Hframe)|].
    eapply triple_weaken; [intros m Hm; exact Hm|apply (compared_equal st)|].
    eapply (compare_registers g context dead before "==" st a b); [done|done|by eapply eval_fits..|left|right; left|].
    split; [done|]. intros Hw _. by apply Hfit.
Qed.

Lemma binary_unit : op ins = IR_OP_BINARY → supported ins = true → correct.
Proof using Hi Hplan Haliases Hframe Hlive Hnarrow some.
  intros Ho Hs. unfold supported in Hs. rewrite Ho in Hs.
  apply andb_true_iff in Hs as [Hfl%negb_true_iff [[[Hop Hx]%andb_true_iff Hy]%andb_true_iff Hd]%andb_true_iff].
  apply read_lhs in Hx. apply read_rhs in Hy. apply assignable_storable in Hd.
  destruct (text ins) as [o|] eqn:Ht; [|done]. apply andb_true_iff in Hop as [Hop Hstr%negb_true_iff].
  apply (straight_unit i ins (binary_emit_binary_integer g context ins o)); [done|done|by rewrite Ho|..].
  - intros out _. unfold code_generator_binary_emit_instruction, code_generator_binary_emit_binary.
    by rewrite Ho, Ht, Hstr, Hfl.
  - apply (straight_binary g context Hframe dead Haliases Hnarrow some); [done|done| |done].
    unfold integer_operator. destruct (assoc o binary_table); [by eexists|done].
  - intros st f Hf. unfold control in Hf. rewrite Ho in Hf. apply fmap_Some in Hf as (st' & _ & ->). eauto.
  - intros st st' He Hfit. apply (integer_binary_step g context dead before ins o st st'); try done. split_and!; [done| |].
    + intros _. split; [done|]. by apply Hfit.
    + intros v Hv. by apply fits_writable.
  - unfold control. rewrite Ho. intros st st' Hf. apply fmap_Some in Hf as (st1 & -> & [= ->]). done.
Qed.

Lemma unary_unit : op ins = IR_OP_UNARY → supported ins = true → correct.
Proof using Hi Hplan Haliases Hframe Hlive Hnarrow some.
  intros Ho Hs. unfold supported in Hs. rewrite Ho in Hs.
  apply andb_true_iff in Hs as [Hfl%negb_true_iff [[Hop Hx]%andb_true_iff Hd]%andb_true_iff].
  apply read_lhs in Hx. apply assignable_storable in Hd.
  destruct (text ins) as [o|] eqn:Ht; [|done].
  apply (straight_unit i ins (emit_unary_integer g context ins o)); [done|done|by rewrite Ho|..].
  - intros out _. unfold code_generator_binary_emit_instruction, code_generator_binary_emit_unary.
    rewrite Ho, Ht, Hfl. destruct (String.eqb_spec o "popcnt"); [by subst o|done].
  - by apply (straight_unary g context Hframe dead Haliases Hnarrow some).
  - intros st f Hf. unfold control in Hf. rewrite Ho in Hf. apply fmap_Some in Hf as (st' & _ & ->). eauto.
  - intros st st' He Hfit. apply (integer_unary_step g context dead before ins o st st'); try done. split_and!; [done| |].
    + by rewrite Ho.
    + intros v Hv. by apply fits_writable.
  - unfold control. rewrite Ho. intros st st' Hf. apply fmap_Some in Hf as (st1 & -> & [= ->]). done.
Qed.

Lemma return_unit : op ins = IR_OP_RETURN → supported ins = true → correct.
Proof using Hi Hplan Haliases Hframe Hlive Hdirect some.
  intros Ho Hs. unfold supported in Hs. rewrite Ho in Hs. apply andb_true_iff in Hs as [Hfl%negb_true_iff Hs].
  destruct (plays_return _ None patchable_jmp) as [h Hh].
  destruct (decide (lhs ins = IR_OPERAND_NONE)) as [Hn|Hn].
  - apply (step_unit i ins [Jump None h To_end]); [done|done|..].
    + unfold code_generator_binary_emit_instruction, emit_return. by rewrite Ho, Hn.
    + by eapply places_none; [|rewrite Ho|].
    + unfold control. rewrite Ho, Hn. intros st m f [= <-] _ Hm. by exists (To To_end), m.
  - assert (readable (lhs ins)) as Hx by (apply read_lhs; by destruct (lhs ins)).
    destruct (straight_plays (code_generator_binary_emit_operand_load g context (lhs ins) BINARY_GP_RAX)
      (straight_load g context Hframe dead some _ _ Hx)) as (ps & Hp & Hm & Hr).
    apply (step_unit i ins (ps ++ [Jump None h To_end])); [done|done|..].
    + assert (emit_instruction ins = ((code_generator_binary_emit_operand_load g context (lhs ins) BINARY_GP_RAX ;; mret ()) ;; emit_return_jump)) as ->.
      { unfold code_generator_binary_emit_instruction, emit_return. rewrite Ho, Hdirect, Hfl. by destruct (lhs ins). }
      eapply plays_bind; [by apply plays_then|exact Hh].
    + eapply places_none; [done|by rewrite Ho|]. by rewrite marks_app, Hm.
    + intros st m f Hf _ HR. unfold control in Hf. rewrite Ho in Hf.
      assert (∃ v, eval st (lhs ins) = Some v ∧ f = Leave (Some v)) as (v & Hv & ->).
      { destruct (lhs ins); try done; apply bind_Some in Hf as (v & Hv & [= <-]); eauto. }
      destruct (Hr _ _ m (triple_load_rax g context Hframe dead before st _ v Hx Hv) HR) as (m' & Hrun & Hm').
      exists (To To_end), m'. split_and!; [by rewrite (run_pieces_app _ _ _ _ Hrun)|done|apply Hm'|].
      intros a [= <-]. by rewrite (holds_in _ _ _ _ _ _ _ _ _ Hm' ltac:(left)).
Qed.

(** *** Assignments *)

Lemma gen_unit (e : Gen ()) o : (e ;; mret ()) o = e o.
Proof. unfold mbind, Gen_bind. by destruct (e o) as [[[]|] ?]. Qed.

(** A promoted variable given a value in its register. *)
Lemma promoted_correct st n a v e :
  cell_of g context (Local n) = Some (In_register a) → narrow n (s64 v) = s64 v →
  leaves_from (represents st) e a (u64 v) → triple (represents st) e (represents (write_sym n v st)).
Proof using Hframe Haliases Hnarrow.
  intros Ha Hfit (p & Hp & Hl). exists p. split; [done|]. intros m Hm.
  destruct (leaves_in_register g context dead before Hframe (Local n) a [gp_code a] st m p _ Ha ltac:(done) Hm (Hl m Hm))
    as (m' & Hr & Hm' & Hv). exists m'. split; [done|].
  by apply (fill_promoted g context dead before Hnarrow n a); [|apply unshared_always|..].
Qed.

Lemma narrow_temp_load t off r :
  slot_size t = 4%Z →
  code_generator_binary_emit_temp_stack_load off r t = code_generator_binary_emit_symbol_stack_load t off r.
Proof.
  intros Ht. unfold code_generator_binary_emit_temp_stack_load, code_generator_binary_emit_symbol_stack_load.
  change (code_generator_binary_type_scalar_width t) with (slot_size t). by rewrite Ht.
Qed.

(** A temporary's slot read at the width of a promoted variable. *)
Lemma narrow_temp_leaves st n t v (r : BinaryGpRegister) :
  ¬ dead n → is_Some (cell_of g context (Temp n)) → temps st !! n = Some v → slot_size t = 4%Z →
  typed t (s64 v) = s64 v →
  leaves_from (represents st)
    (emit (code_generator_binary_emit_temp_stack_load (code_generator_binary_get_temp_offset context n) r t)) r (u64 (s64 v)).
Proof using Hframe.
  intros Hd [c Hc] Hv Ht Hfit. pose proof Hc as Hc'. cbn [cell_of] in Hc.
  set (off := code_generator_binary_get_temp_offset context n) in *.
  destruct (Z.leb_spec off 0) as [|Ho]; [done|]. injection Hc as <-.
  rewrite narrow_temp_load by done.
  eapply leaves_from_yields; [apply yields_stack_load; [by eapply (slot_in_int32 g context Hframe (Temp n))|done]|].
  intros m Hm. split; [apply Hm|].
  pose proof (rep_temps _ _ _ _ _ _ _ Hm n v _ ltac:(done) Hd Hv Hc') as Hread. cbn [read_cell] in *.
  rewrite Ht. change (access_size 4) with 4%nat. rewrite (load_prefix m 4 4). change (4 + 4)%nat with 8%nat. rewrite Hread. change (Z.of_nat 4 * 8)%Z with 32%Z.
  unfold typed in Hfit. rewrite Ht in Hfit. change (Z.of_nat (access_size 4) * 8)%Z with 32%Z in Hfit.
  cbn [Z.eqb Pos.eqb] in Hfit. rewrite <- Hfit. destruct (slot_signed t).
  - rewrite wrap_s_wrap_u, <- (wrap_s_u64 32 (s64 v)), u64_s64 by lia. done.
  - rewrite <- (wrap_u_u64 32 (s64 v)), u64_s64, u64_wrap_u by lia. done.
Qed.

Lemma argument_load x t r o :
  readable x → code_generator_binary_emit_call_argument_load g context x t r o =
    code_generator_binary_emit_operand_load g context x r o.
Proof using Haliases.
  intros Hx. unfold code_generator_binary_emit_call_argument_load.
  assert (code_generator_binary_type_is_string (code_generator_binary_get_operand_type g x) = false) as Hs.
  { destruct x as [|n b|n b| | | |]; try done. destruct Hx as (n' & Hn & [c Hc]).
    rewrite (resolve_self context Haliases) in Hn. injection Hn as <-. cbn [cell_of] in Hc. unfold local_cell in Hc.
    cbn [code_generator_binary_get_operand_type]. unfold code_generator_binary_type_is_string. fold (local_type g n).
    destruct ((0 <? _)%Z && _); [done|]. by destruct (is_kind TYPE_STRING (local_type g n)). }
  rewrite Hs, andb_false_r. destruct x; try done; apply gen_unit.
Qed.

(** The code of a copy. *)
Definition assign_code : Gen () :=
  match operand_register g context (dest ins) with
  | Some r =>
      match lhs ins with
      | IR_OPERAND_TEMP n _ =>
          let type := code_generator_binary_get_operand_type g (dest ins) in
          if (slot_size type =? 4)%Z
          then emit (code_generator_binary_emit_temp_stack_load (code_generator_binary_get_temp_offset context n) r type)
          else code_generator_binary_emit_operand_load g context (lhs ins) r
      | x => code_generator_binary_emit_operand_load g context x r
      end
  | None =>
      code_generator_binary_emit_operand_load g context (lhs ins) BINARY_GP_RAX ;;
      code_generator_binary_emit_destination_store g context (dest ins) BINARY_GP_RAX
  end.

Lemma assign_general_emits o :
  readable (lhs ins) → is_float ins = false →
  emit_assign_general g context ins o =
    (code_generator_binary_emit_operand_load g context (lhs ins) BINARY_GP_RAX ;;
     code_generator_binary_emit_destination_store g context (dest ins) BINARY_GP_RAX) o.
Proof using Haliases.
  intros Hx Hf. unfold emit_assign_general. rewrite Hf. cbn [andb]. unfold mbind, Gen_bind.
  destruct (dest_is_cstring _ _ _ _); [rewrite argument_load by done|];
    by destruct (code_generator_binary_emit_operand_load g context (lhs ins) BINARY_GP_RAX o) as [[[]|] ?].
Qed.

Lemma assign_emits o :
  clean o → op ins = IR_OP_ASSIGN → is_float ins = false → readable (lhs ins) → assignable (dest ins) = true →
  match dest ins with IR_OPERAND_SYMBOL n _ => is_Some (local_type g n) | _ => True end →
  emit_instruction ins o = assign_code o.
Proof using Haliases Hlive.
  intros Ho Hop Hf Hx Hd Ht. unfold code_generator_binary_emit_instruction, assign_code. rewrite Hop.
  unfold emit_assign. destruct (dest ins) as [|n b|n b| | | |] eqn:Hdi; try done; cbn [symbol_name].
  { rewrite assign_general_emits by done. by rewrite Hdi. }
  rewrite Haliases. cbn [binary_symbol_alias_table_get].
  assert (∀ x, (match x with Some n => binary_indirect_temp_get n | None => mret 0%Z end) o = (Some 0%Z, o)) as Hb.
  { intros [t|]; [|done]. unfold binary_indirect_temp_get, mbind, Gen_bind, get_output. by rewrite Ho. }
  unfold mbind at 1, Gen_bind at 1. rewrite Hb. cbn [Z.ltb Z.compare andb]. rewrite Hf.
  unfold operand_register. cbn [symbol_name mbind option_bind].
  destruct (code_generator_binary_symbol_assigned_register g context n) as [r|].
  2: { rewrite assign_general_emits by done. by rewrite Hdi. }
  unfold emit_assign_register. rewrite Hdi. destruct Ht as [t Ht]. unfold local_type in Ht.
  unfold code_generator_binary_get_operand_type_in_context. cbn [code_generator_binary_get_operand_type]. rewrite Ht.
  change (code_generator_binary_type_scalar_width (Some t)) with (slot_size (Some t)).
  assert (∀ c e, (if c : bool then code_generator_binary_emit_call_argument_load g context (lhs ins) e r
                  else code_generator_binary_emit_operand_load g context (lhs ins) r) o =
    code_generator_binary_emit_operand_load g context (lhs ins) r o) as Hl.
  { intros [] e; [by apply argument_load|done]. }
  destruct (lhs ins) as [|m b'|m b'|k| | |] eqn:Hli; try done; try apply Hl.
  destruct (slot_size (Some t) =? 4)%Z; [|apply Hl].
  destruct Hx as [_ [c Hc]]. cbn [cell_of] in Hc.
  by destruct (Z.leb_spec (code_generator_binary_get_temp_offset context m) 0), (Z.ltb_spec 0 (code_generator_binary_get_temp_offset context m)); try lia.
Qed.

(** What a copy does, from its code. *)
Lemma assign_correct st st' :
  op ins = IR_OP_ASSIGN → readable (lhs ins) → storable (dest ins) → fits ins st →
  match dest ins with IR_OPERAND_SYMBOL n _ => is_Some (local_type g n) | _ => True end →
  IRSemantics.exec ins st = Some st' → triple (represents st) assign_code (represents st').
Proof using Hframe Haliases Hlive Hnarrow.
  intros Ho Hx Hd Hfit Ht He. unfold IRSemantics.exec, computes in He. rewrite Ho in He.
  apply bind_Some in He as (v & Hv & Hw). pose proof (fits_writable ins v st Hd Hfit Hv) as Hwr.
  pose proof Hv as Hev. unfold rhs_value in Hev. rewrite Ho in Hev.
  unfold assign_code. destruct (operand_register g context (dest ins)) as [r|] eqn:Hreg.
  2: { eapply triple_seq; [by apply (triple_load_rax g context Hframe)|].
       by apply (triple_store g context Hframe dead before Hnarrow). }
  unfold operand_register in Hreg. destruct (dest ins) as [|n b|n b| | | |]; try done. cbn [symbol_name mbind option_bind] in Hreg.
  pose proof (assigned_cell g context n r Hd Hreg) as Hcell. cbn [write] in Hw. injection Hw as <-.
  assert (narrow n (s64 v) = s64 v) as Hn by (destruct Hwr as (_ & _ & Hwr); by apply (Hwr r)).
  apply (promoted_correct st n r v); [done|done|].
  destruct (lhs ins) as [|t b'|t b'|k| | |]; try (by apply load_leaves). cbn [code_generator_binary_get_operand_type].
  fold (local_type g n). destruct (Z.eqb_spec (slot_size (local_type g n)) 4) as [H4|]; [|by apply load_leaves].
  cbn [eval] in Hev. apply fmap_Some in Hev as (w & Hw & ->). rewrite s64_idem in Hn.
  destruct Hx as [Hdead Hc]. apply narrow_temp_leaves; [done..|].
  rewrite <- Hnarrow; [done|done|apply s64_range].
Qed.

Lemma assign_unit : op ins = IR_OP_ASSIGN → supported ins = true → correct.
Proof using Hi Hplan Haliases Hframe Hlive Hnarrow some.
  intros Ho Hs. unfold supported in Hs. rewrite Ho in Hs.
  apply andb_true_iff in Hs as [Hfl%negb_true_iff [[Hx Hd]%andb_true_iff Ht]%andb_true_iff].
  apply read_lhs in Hx. pose proof (assignable_storable _ Hd) as Hst.
  assert (match dest ins with IR_OPERAND_SYMBOL n _ => is_Some (local_type g n) | _ => True end) as Ht'.
  { destruct (dest ins); try done. by apply bool_decide_eq_true_1 in Ht. }
  apply (straight_unit i ins assign_code); [done|done|by rewrite Ho|..].
  - intros o Hc. by apply assign_emits.
  - unfold assign_code. destruct (operand_register g context (dest ins)).
    2: { apply straight_seq; [by apply (straight_load g context Hframe dead some)|].
         apply (straight_store g context Hframe Haliases Hnarrow some); [left|done]. }
    assert (∀ r, straight (code_generator_binary_emit_operand_load g context (lhs ins) r)) as Hl.
    { intros r'. by apply (straight_load g context Hframe dead some). }
    destruct (lhs ins) as [|t b'|t b'|k| | |] eqn:Hli; try apply Hl.
    destruct (slot_size _ =? 4)%Z eqn:H4; [|apply Hl]. destruct Hx as [_ [c Hc]]. pose proof Hc as Hc'. cbn [cell_of] in Hc.
    destruct (Z.leb_spec (code_generator_binary_get_temp_offset context t) 0) as [|Hpos]; [done|]. injection Hc as <-.
    rewrite narrow_temp_load by by apply Z.eqb_eq.
    eapply straight_yields, yields_stack_load; [by eapply (slot_in_int32 g context Hframe (Temp t))|done].
  - intros st f Hf. unfold control in Hf. rewrite Ho in Hf. apply fmap_Some in Hf as (st' & _ & ->). eauto.
  - intros st st' He Hfit. by apply assign_correct.
  - unfold control. rewrite Ho. intros st st' Hf. apply fmap_Some in Hf as (st1 & -> & [= ->]). done.
Qed.
End single.

Lemma single_correct i ins :
  body !! i = Some ins → plan body i = (1, []) →
  (∀ x n b, x = lhs ins ∨ x = rhs ins → x = IR_OPERAND_TEMP n b → ¬ dead n) →
  unit_correct i (emit_single g context emit_other body i).
Proof using Haliases Hframe Hnarrow Hdirect Hdeclare Hbody some.
  intros Hi Hplan Hlive. pose proof (Hbody i ins Hi) as Hs. pose proof Hs as [_ Hs']%andb_true_iff.
  destruct (op ins) eqn:Ho; try done.
  - by apply (nop_unit i ins).
  - by apply (label_unit i ins).
  - by apply (jump_unit i ins).
  - by apply (branch_zero_unit i ins).
  - by apply (branch_eq_unit i ins).
  - by apply (declare_unit i ins).
  - by apply (assign_unit i ins).
  - by apply (binary_unit i ins).
  - by apply (unary_unit i ins).
  - by apply (return_unit i ins).
Qed.

(** ** Fused units *)

Lemma eval_written n b v (st : mstate world) : eval (write_temp n v st) (IR_OPERAND_TEMP n b) = Some (s64 v).
Proof. cbn. rewrite lookup_insert_eq. cbn. by rewrite s64_idem. Qed.

Lemma eval_unwritten n v x (st : mstate world) :
  (∀ b, x ≠ IR_OPERAND_TEMP n b) → eval (write_temp n v st) x = eval st x.
Proof.
  intros Hx. destruct x as [|n' b| | | | |]; try done. cbn. rewrite lookup_insert_ne; [done|].
  intros <-. by eapply Hx.
Qed.

(** Temporaries that are not stored do not matter. *)
Lemma represents_dead n v st m : dead n → represents st m → represents (write_temp n v st) m.
Proof.
  intros Hn [Hok Hf Hreg Hmem Ht Hl]. split; [done|done|done|done| |done].
  intros n' v' c Hh Hd Hv Hc. cbn [temps write_temp] in Hv.
  rewrite lookup_insert_ne in Hv by (by intros <-). by apply (Ht n').
Qed.

Lemma int_binary_in_range o a b v : in_s64 a → in_s64 b → int_binary o a b = Some v → s64 v = v.
Proof. intros Ha Hb Hv. apply s64_in. by apply (int_binary_range o a b). Qed.

(** An operator whose value goes to a temporary. *)
Definition defines (ins : IRInstruction) (o t : string) : Prop :=
  op ins = IR_OP_BINARY ∧ is_float ins = false ∧ text ins = Some o ∧ operator ins = o ∧
  ∃ k, dest ins = IR_OPERAND_TEMP t k.

Lemma temp_name_spec x t : temp_name x = Some t → ∃ k, x = IR_OPERAND_TEMP t k.
Proof. destruct x; try done. intros [= <-]. eauto. Qed.

Lemma integer_binary_spec ins : is_integer_binary ins = true → op ins = IR_OP_BINARY ∧ is_float ins = false.
Proof. by intros [Ho%bool_decide_eq_true_1 Hf%negb_true_iff]%andb_true_iff. Qed.

Lemma operator_spec ins l : is_op (operator ins) l = true → EmptyString ∉ l → ∃ o, text ins = Some o ∧ operator ins = o.
Proof. unfold operator. destruct (text ins) as [o|]; [by exists o|]. by intros Ho%is_op_elem Hn. Qed.

Lemma compare_defines ins t :
  is_compare_to_temp ins = Some t →
  ∃ o, defines ins o t ∧ code_generator_binary_is_compare_operator o = true.
Proof.
  unfold is_compare_to_temp. destruct (_ && _) eqn:Hc; [|done].
  apply andb_true_iff in Hc as [[Hop Hf]%integer_binary_spec Ho]. intros Ht%temp_name_spec.
  destruct (operator_spec ins _ Ho ltac:(registers)) as (o & Htext & Hoper). exists o. rewrite Hoper in Ho. by split_and!.
Qed.

Lemma producer_defines ins t :
  is_chain_producer ins = Some t →
  ∃ o, defines ins o t ∧ code_generator_binary_chain_producer_supported o = true.
Proof.
  unfold is_chain_producer. destruct (_ && _) eqn:Hc; [|done].
  apply andb_true_iff in Hc as [[Hop Hf]%integer_binary_spec Ho]. intros Ht%temp_name_spec.
  destruct (operator_spec ins _ Ho ltac:(registers)) as (o & Htext & Hoper). exists o. rewrite Hoper in Ho. by split_and!.
Qed.

(** What such an instruction does. *)
Lemma defines_control ins o t st f :
  defines ins o t → control ins st = Some f →
  ∃ a b v, eval st (lhs ins) = Some a ∧ eval st (rhs ins) = Some b ∧ int_binary o a b = Some v ∧
    f = IRSemantics.Next (write_temp t v st) ∧ s64 v = v.
Proof.
  intros (Hop & Hf & Ht & _ & k & Hd) Hc. unfold control in Hc. rewrite Hop in Hc.
  apply fmap_Some in Hc as (st' & He & ->). unfold IRSemantics.exec, computes in He. rewrite Hop in He.
  apply bind_Some in He as (v & Hv & Hw). unfold rhs_value, binary in Hv. rewrite Hop, Ht, Hf in Hv.
  apply bind_Some in Hv as (a & Ha & Hv). apply bind_Some in Hv as (b & Hb & Hv).
  rewrite Hd in Hw. injection Hw as <-. exists a, b, v. split_and!; try done.
  apply (int_binary_in_range o a b); [by eapply eval_fits..|done].
Qed.

Lemma branch_control ins t k l st v f :
  op ins = IR_OP_BRANCH_ZERO → lhs ins = IR_OPERAND_TEMP t k → text ins = Some l → s64 v = v →
  control ins (write_temp t v st) = Some f →
  f = if (v =? 0)%Z then Goto l else IRSemantics.Next (write_temp t v st).
Proof.
  intros Ho Hl Ht Hv Hc. unfold control in Hc. rewrite Ho, Hl, Ht, eval_written, Hv in Hc. cbn in Hc.
  by destruct (v =? 0)%Z; injection Hc as <-.
Qed.

Lemma run_two k k1 k2 : step body k = Some k1 → step body k1 = Some k2 → IRSemantics.run 2 body k = Some k2.
Proof. intros H1 H2. cbn. rewrite H1. cbn. by rewrite H2. Qed.

Lemma run_three k k1 k2 k3 :
  step body k = Some k1 → step body k1 = Some k2 → step body k2 = Some k3 → IRSemantics.run 3 body k = Some k3.
Proof. intros H1 H2 H3. cbn. rewrite H1. cbn. rewrite H2. cbn. by rewrite H3. Qed.

Lemma branch_label i b l :
  body !! i = Some b → op b = IR_OP_BRANCH_ZERO → text b = Some l → l ≠ EmptyString.
Proof using Hbody.
  intros Hb Ho Ht ->. pose proof (Hbody i b Hb) as [_ Hs]%andb_true_iff. rewrite Ho in Hs.
  apply andb_true_iff in Hs as [Hs _]. unfold labelled, label_text in Hs. by rewrite Ht in Hs.
Qed.

(** The operands of an instruction of a fused unit. *)
Lemma supported_operands i ins o t :
  body !! i = Some ins → defines ins o t → loadable (lhs ins) = true ∧ loadable (rhs ins) = true.
Proof using Hbody.
  intros Hi (Hop & _). pose proof (Hbody i ins Hi) as [_ Hs]%andb_true_iff. rewrite Hop in Hs.
  by apply andb_true_iff in Hs as [[[_ ?]%andb_true_iff ?]%andb_true_iff _].
Qed.

Lemma defines_selectable ins o t st a b :
  defines ins o t → fits ins st → eval st (lhs ins) = Some a → eval st (rhs ins) = Some b →
  selectable o (compare_width ins) a b.
Proof. intros (Hop & _ & Ht & _) [Hf _] Ha Hb. by apply Hf. Qed.

Lemma places_fused i ins ps :
  body !! i = Some ins → op ins = IR_OP_BINARY → marks ps = false → places i ps.
Proof. intros Hi Ho. apply places_none with ins; [done|by rewrite Ho]. Qed.

(** A conditional jump after code that compared. *)
Lemma jump_arrives j b t kb o l cc h st v ps m m' :
  body !! j = Some b → op b = IR_OP_BRANCH_ZERO → lhs b = IR_OPERAND_TEMP t kb → text b = Some l → dead t →
  code_generator_binary_compare_false_jcc o = Some (0x80 + cc)%Z → s64 v = v → good (At j (write_temp t v st)) →
  run_pieces ps m = Some (Fall, m') → compared_to g context dead before st o v m' →
  ∃ k x, step body (At j (write_temp t v st)) = Some k ∧
    run_pieces (ps ++ [Jump (Some cc) h (To_label l)]) m = Some (x, m') ∧ arrives (S j) k x m'.
Proof.
  intros Hb Hop Hl Htext Hdead Hcc Hsv Hg Hrun (Hm' & fl & Hfl & Hsay & _).
  destruct (good_control _ _ _ Hg Hb) as (f & Hf & Hk). rewrite (branch_control _ _ _ _ _ _ _ Hop Hl Htext Hsv Hf) in Hk.
  pose proof (run_jump _ _ h (To_label l) _ _ _ _ Hrun Hfl (Hsay cc Hcc)) as Hjr. destruct (v =? 0)%Z.
  - destruct Hk as (pc' & Hlab & Hs). exists (At pc' (write_temp t v st)), (To (To_label l)).
    split_and!; [done|done|]. split; [done|by apply represents_dead].
  - destruct Hk as [Hs _]. exists (At (S j) (write_temp t v st)), Fall.
    split_and!; [done|done|]. split; [done|by apply represents_dead].
Qed.

Section fused.
Variables (k : nat).
Abbreviation i := (unit_start body k).

(** An operand read at [j] that is not one of the unit's own temporaries. *)
Lemma fused_read j ins x :
  in_unit body k j → body !! j = Some ins → x = lhs ins ∨ x = rhs ins → loadable x = true →
  (∀ n b, x = IR_OPERAND_TEMP n b → n ∉ killed body i) → readable x.
Proof using Haliases.
  intros Hj Hins Hx Hl Hn. apply loadable_readable; [done|]. intros n b Heq.
  by apply (live body k j ins n b x); [..|apply (Hn n b)].
Qed.

Lemma compare_branch_attempt :
  code_generator_binary_try_emit_compare_branch_zero g context body i =
  match match_compare_branch body i with
  | Some (c, _, l) => code_generator_binary_emit_compare_false_branch g context c l ;; mret 2
  | None => fail
  end.
Proof.
  unfold code_generator_binary_try_emit_compare_branch_zero, match_compare_branch.
  destruct (body !! i) as [c|]; [|done]. cbn [mbind option_bind]. destruct (body !! S i) as [b|]; [|done].
  cbn [mbind option_bind]. destruct (is_compare_to_temp c) as [t|]; [|done]. cbn [mbind option_bind].
  destruct (branches_on b t && uses_once body t); [|done]. by destruct (text b).
Qed.

Lemma compare_branch_correct c t l :
  match_compare_branch body i = Some (c, t, l) → plan body i = (2, [t]) →
  unit_correct i (code_generator_binary_try_emit_compare_branch_zero g context body i).
Proof using Haliases Hframe Hbody some.
  intros Hm Hplan. rewrite compare_branch_attempt, Hm.
  destruct (match_compare_branch_spec _ _ _ _ _ Hm) as (b & Hc & Hb & Hcmp & Hop & (kb & Hl) & Htext & Hu).
  destruct (compare_defines c t Hcmp) as (o & Hdef & Ho). pose proof Hdef as (Hcop & _ & _ & Hoper & _).
  destruct (supported_operands _ _ _ _ Hc Hdef) as [Hll Hlr].
  assert (unit_size body i = 2 ∧ killed body i = [t]) as [Hsize Hkill] by (unfold unit_size, killed; by rewrite Hplan).
  assert (in_unit body k i) as Hin by (unfold in_unit; lia).
  assert (dead t) as Hdead by (exists k; rewrite Hkill; left).
  assert (∀ x, x = lhs c ∨ x = rhs c → loadable x = true → readable x) as Hread.
  { intros x Hx Hlx. apply (fused_read i c x Hin Hc Hx Hlx). intros n b' Hn. rewrite Hkill.
    intros ->%list_elem_of_singleton. revert Hn.
    apply (no_other_use body t i c x b' (S i) b); [done|done|by eapply uses_of_temp; [left|]|lia|done|done]. }
  pose proof (Hread _ (or_introl eq_refl) Hll) as Hx. pose proof (Hread _ (or_intror eq_refl) Hlr) as Hy.
  destruct (straight_plays _ (straight_compare_flags g context Hframe dead some c ltac:(by rewrite Hoper) Hx Hy))
    as (ps & Hp & Hmk & Hr).
  destruct (plays_false_jump o l Ho) as (cc & h & Hcc & Hj).
  exists (ps ++ [Jump (Some cc) h (To_label l)]). rewrite Hsize. split_and!.
  - apply plays_then. unfold code_generator_binary_emit_compare_false_branch. rewrite Hoper, Hcc.
    rewrite (proj2 (String.eqb_neq l EmptyString)) by by eapply branch_label. by eapply plays_bind.
  - eapply places_fused; [done|done|]. by rewrite marks_app, Hmk.
  - intros st m Hg HR. destruct (good_control _ _ _ Hg Hc) as (f & Hf & Hk).
    destruct (defines_control _ _ _ _ _ Hdef Hf) as (a & b0 & v & Ha & Hb0 & Hv & -> & Hsv). destruct Hk as [Hs1 Hg1].
    destruct (Hr _ _ m (compare_flags_correct g context Hframe dead before Haliases o st a b0 v Ho Hv
      ltac:(by eapply eval_fits) ltac:(by eapply eval_fits) c Hoper Hx Hy Ha Hb0
      (defines_selectable _ _ _ _ _ _ Hdef (good_fits _ _ _ Hg Hc) Ha Hb0)) HR) as (m' & Hrun & Hm').
    destruct (jump_arrives (S i) b t kb o l cc h st v ps m m' Hb Hop Hl Htext Hdead Hcc Hsv Hg1 Hrun Hm') as (k' & x & Hs2 & Hj2 & Harr).
    exists 1, k', x, m'. split_and!; [by eapply run_two|done|]. by rewrite Nat.add_comm.
Qed.

Lemma expression_attempt :
  code_generator_binary_try_emit_binary_expression_chain g context body i =
  match match_expression body i with
  | Some (a, b, _, x) =>
      code_generator_binary_emit_integer_binary_to_rax g context a ;;
      code_generator_binary_emit_rax_binary_rhs g context (operator b) x ;;
      code_generator_binary_emit_destination_store g context (dest b) BINARY_GP_RAX ;; mret 2
  | None => fail
  end.
Proof.
  unfold code_generator_binary_try_emit_binary_expression_chain, match_expression.
  destruct (body !! i) as [a|]; [|done]. cbn [mbind option_bind]. destruct (body !! S i) as [b|]; [|done].
  cbn [mbind option_bind]. destruct (is_chain_producer a) as [t|]; [|done]. cbn [mbind option_bind].
  destruct (is_integer_binary b && _ && _); [|done].
  by destruct (if code_generator_binary_operand_uses_temp (lhs b) t then _ else _).
Qed.

(** The temporary of the producer is one operand of the consumer, [x] the other. *)
Lemma consumer_value ob b t x v w st :
  code_generator_binary_operand_uses_temp (lhs b) t = true ∧ x = rhs b ∨
  commutative ob = true ∧ code_generator_binary_operand_uses_temp (rhs b) t = true ∧ x = lhs b →
  (∀ n, x ≠ IR_OPERAND_TEMP t n) → s64 v = v →
  ∀ a c, eval (write_temp t v st) (lhs b) = Some a → eval (write_temp t v st) (rhs b) = Some c →
  int_binary ob a c = Some w → ∃ y, eval st x = Some y ∧ int_binary ob v y = Some w ∧ (a = v ∧ c = y ∨ a = y ∧ c = v).
Proof.
  intros Hx Hne Hv a c Ha Hc Hw. destruct Hx as [[Hu ->]|(Hcom & Hu & ->)]; apply uses_temp_true in Hu as [n Hu];
    rewrite Hu, eval_written, Hv in *; rewrite eval_unwritten in * by done; simplify_eq.
  - exists c. auto.
  - exists a. rewrite int_binary_comm by done. auto.
Qed.

Lemma operator_commutative ob : code_generator_binary_operator_is_commutative ob = true → commutative ob = true.
Proof. apply is_op_subset. registers. Qed.

(** What a match of an expression chain settles. *)
Record expression_unit (a b : IRInstruction) (t o ob : string) (x : IROperand) : Prop := {
  eu_producer : defines a o t ∧ code_generator_binary_chain_producer_supported o = true;
  eu_consumer : op b = IR_OP_BINARY ∧ is_float b = false ∧ text b = Some ob ∧ operator b = ob ∧
    code_generator_binary_chain_producer_supported ob = true ∧ storable (dest b);
  eu_temp : (∀ n, x ≠ IR_OPERAND_TEMP t n) ∧ dead t;
  eu_reads : readable (lhs a) ∧ readable (rhs a) ∧ readable x;
  eu_other : code_generator_binary_operand_uses_temp (lhs b) t = true ∧ x = rhs b ∨
    commutative ob = true ∧ code_generator_binary_operand_uses_temp (rhs b) t = true ∧ x = lhs b }.

Lemma expression_unit_intro a b t x :
  match_expression body i = Some (a, b, t, x) → plan body i = (2, [t]) → ∃ o ob, expression_unit a b t o ob x.
Proof using Haliases Hbody.
  intros Hm Hplan.
  destruct (match_expression_spec _ _ _ _ _ _ Hm) as (Ha & Hb & Hprod & Hint & Hsup & Hu & Hx).
  destruct (producer_defines a t Hprod) as (o & Hdef & Ho).
  destruct (operator_spec b _ Hsup ltac:(registers)) as (ob & Hbt & Hob). rewrite Hob in *.
  destruct (integer_binary_spec b Hint) as [Hbop Hbfl]. destruct (supported_operands _ _ _ _ Ha Hdef) as [Hll Hlr].
  pose proof (Hbody _ _ Hb) as [_ Hbs]%andb_true_iff. rewrite Hbop in Hbs.
  apply andb_true_iff in Hbs as [[[_ Hbl]%andb_true_iff Hbr]%andb_true_iff Hbd%assignable_storable].
  assert (unit_size body i = 2 ∧ killed body i = [t]) as [Hsize Hkill] by (unfold unit_size, killed; by rewrite Hplan).
  assert (1 <= uses t b) as Huses.
  { destruct Hx as [[Hl _]|(_ & _ & Hl & _)]; apply uses_temp_true in Hl as [n Hl];
      [by apply (uses_of_temp t n (lhs b)); [left|]|by apply (uses_of_temp t n (rhs b)); [right|]]. }
  assert (∀ n, x ≠ IR_OPERAND_TEMP t n) as Hne.
  { intros n Hn. assert (code_generator_binary_operand_uses_temp x t = true) as Hux by (apply uses_temp_true; eauto).
    destruct Hx as [[Hl ->]|(_ & Hl & _ & ->)]; [|congruence].
    by rewrite (used_by_lhs body t (S i) b Hu Hb Hl) in Hux. }
  assert (∀ y, y = lhs a ∨ y = rhs a → loadable y = true → readable y) as Hread.
  { intros y Hy Hly. apply (fused_read i a y); [unfold in_unit; lia|done..|]. intros n b' Hn. rewrite Hkill.
    intros ->%list_elem_of_singleton. revert Hn. by apply (no_other_use body t i a y b' (S i) b); [..|lia|done|]. }
  exists o, ob. split; [done|done| | |].
  - split; [done|]. exists k. rewrite Hkill. left.
  - split_and!; [by apply Hread; [left|]|by apply Hread; [right|]|].
    apply (fused_read (S i) b x); [unfold in_unit; lia|done|..].
    + destruct Hx as [[_ ->]|(_ & _ & _ & ->)]; auto.
    + by destruct Hx as [[_ ->]|(_ & _ & _ & ->)].
    + intros n b' Hn. rewrite Hkill. intros ->%list_elem_of_singleton. by apply (Hne b').
  - destruct Hx as [?|(Hcom & _ & ? & ?)]; [by left|right]. by split; [apply operator_commutative|].
Qed.

Definition expression_code (a b : IRInstruction) (ob : string) (x : IROperand) : Gen () :=
  code_generator_binary_emit_integer_binary_to_rax g context a ;;
  code_generator_binary_emit_rax_binary_rhs g context ob x ;;
  code_generator_binary_emit_destination_store g context (dest b) BINARY_GP_RAX.

Lemma expression_straight a b t o ob x : expression_unit a b t o ob x → straight (expression_code a b ob x).
Proof using Haliases Hframe Hnarrow some.
  intros [[(_ & Hfl & Ht & _) Ho] (_ & _ & _ & _ & Hob & Hd) _ (Hra & Hrb & Hrx) _].
  apply straight_seq; [by apply (straight_to_rax g context Hframe dead some a o)|].
  apply straight_seq; [by apply (straight_rax_rhs g context Hframe dead some)|].
  apply (straight_store g context Hframe Haliases Hnarrow some); [left|done].
Qed.

Lemma expression_triple a b t o ob x st va vb v f :
  expression_unit a b t o ob x → eval st (lhs a) = Some va → eval st (rhs a) = Some vb →
  int_binary o va vb = Some v → s64 v = v → fits b (write_temp t v st) → control b (write_temp t v st) = Some f →
  ∃ st', f = IRSemantics.Next st' ∧ triple (represents st) (expression_code a b ob x) (represents st').
Proof using Haliases Hframe Hnarrow.
  intros [[(_ & Hfl & Ht & _) Ho] (Hbop & Hbfl & Hbt & _ & Hob & Hd) [Hne Hdead] (Hra & Hrb & Hrx) Hx] Hva Hvb Hv Hsv Hfit Hc.
  unfold control in Hc. rewrite Hbop in Hc. apply fmap_Some in Hc as (st' & He & ->). exists st'. split; [done|].
  unfold IRSemantics.exec, computes in He. rewrite Hbop in He. apply bind_Some in He as (w & Hw & Hst').
  pose proof (fits_writable b w _ Hd Hfit Hw) as Hwr. unfold rhs_value, binary in Hw. rewrite Hbop, Hbt, Hbfl in Hw.
  apply bind_Some in Hw as (a1 & Ha1 & Hw). apply bind_Some in Hw as (b1 & Hb1 & Hw).
  destruct (consumer_value ob b t x v w st Hx Hne Hsv a1 b1 Ha1 Hb1 Hw) as (y & Hy & Hvy & _).
  eapply triple_seq; [by apply (binary_to_rax_correct g context Hframe dead before st a o va vb v)|].
  eapply triple_seq; [eapply (rax_rhs_correct g context Hframe dead before st ob x v y w); try done|].
  { apply (int_binary_range o va vb); [by eapply eval_fits..|done]. }
  eapply triple_weaken; [| |by apply (triple_store g context Hframe dead before Hnarrow (write_temp t v st) st' (dest b) w)]; [|done].
  intros m [Hm Hl]. split; [by apply represents_dead|done].
Qed.

Lemma expression_correct a b t x :
  match_expression body i = Some (a, b, t, x) → plan body i = (2, [t]) →
  unit_correct i (code_generator_binary_try_emit_binary_expression_chain g context body i).
Proof using Haliases Hframe Hbody Hnarrow some.
  intros Hm Hplan. destruct (expression_unit_intro a b t x Hm Hplan) as (o & ob & Hunit).
  rewrite expression_attempt, Hm. destruct (match_expression_spec _ _ _ _ _ _ Hm) as (Ha & Hb & _).
  pose proof (eu_producer _ _ _ _ _ _ Hunit) as [Hdef _].
  pose proof (eu_consumer _ _ _ _ _ _ Hunit) as (_ & _ & _ & -> & _).
  destruct (straight_plays _ (expression_straight _ _ _ _ _ _ Hunit)) as (ps & Hp & Hmk & Hr).
  exists ps. unfold unit_size. rewrite Hplan. cbn [fst]. split_and!.
  - apply (plays_ext _ (expression_code a b ob x ;; mret 2)); [|by apply plays_then].
    intros out _. apply gen_regroup.
  - eapply places_fused; [done|apply Hdef|done].
  - intros st m Hg HR. destruct (good_control _ _ _ Hg Ha) as (f & Hf & Hk).
    destruct (defines_control _ _ _ _ _ Hdef Hf) as (va & vb & v & Hva & Hvb & Hv & -> & Hsv). destruct Hk as [Hs1 Hg1].
    destruct (good_control _ _ _ Hg1 Hb) as (f1 & Hf1 & Hk1).
    destruct (expression_triple _ _ _ _ _ _ st va vb v f1 Hunit Hva Hvb Hv Hsv (good_fits _ _ _ Hg1 Hb) Hf1) as (st' & -> & Ht).
    destruct Hk1 as [Hs2 _]. destruct (Hr _ _ m Ht HR) as (m' & Hrun & HQ).
    exists 1, (At (S (S i)) st'), Fall, m'. split_and!; [by eapply run_two|done|]. split; [lia|done].
Qed.

(** *** An expression compared *)

(** The value and the mask of [t = a & mask] compared with 0. *)
Definition mask_match (a c : IRInstruction) (x : IROperand) : option (IROperand * Z) :=
  if negb (has_text a "&") || negb (is_op (operator c) ["=="; "!="]%string) ||
     negb (match x with IR_OPERAND_INT v => (v =? 0)%Z | _ => false end) then None
  else match immediate_of (rhs a) with
       | Some v => Some (lhs a, v)
       | None => v ← immediate_of (lhs a); Some (rhs a, v)
       end.

Definition chain_code (a c : IRInstruction) (x : IROperand) : Gen () :=
  match mask_match a c x with
  | Some (value, mask) =>
      r ← operand_in g context value BINARY_GP_RAX; emit (binary_emit_test_reg_imm32 r (imm32 mask))
  | None =>
      code_generator_binary_emit_integer_binary_to_rax g context a ;;
      match immediate_of x with
      | Some v => emit (binary_emit_cmp_reg_imm32 BINARY_GP_RAX (imm32 v))
      | None => code_generator_binary_emit_operand_load g context x BINARY_GP_R10 ;;
                emit (code_generator_binary_emit_reg_reg_compare BINARY_GP_RAX BINARY_GP_R10 (compare_width c))
      end
  end.

Lemma plays_mask_or a c x l ps cc h :
  plays (chain_code a c x) () ps → marks ps = false →
  code_generator_binary_is_compare_operator (operator c) = true →
  code_generator_binary_compare_false_jcc (operator c) = Some (0x80 + cc)%Z →
  plays (false_jump (operator c) l) () [Jump (Some cc) h (To_label l)] →
  plays (or_else (try_emit_and_mask_compare_false_branch g context a c x l)
           (code_generator_binary_emit_integer_binary_to_rax g context a ;;
            code_generator_binary_emit_compare_false_branch_from_rax g context c x l)) ()
    (ps ++ [Jump (Some cc) h (To_label l)]).
Proof.
  intros Hp Hm Ho Hcc Hj. unfold chain_code in Hp.
  assert (try_emit_and_mask_compare_false_branch g context a c x l =
    match mask_match a c x with
    | Some (value, mask) =>
        r ← operand_in g context value BINARY_GP_RAX;
        emit (binary_emit_test_reg_imm32 r (imm32 mask)) ;; false_jump (operator c) l
    | None => fail
    end) as ->.
  { unfold try_emit_and_mask_compare_false_branch, mask_match. destruct (_ || _ || _); [done|].
    destruct (immediate_of (rhs a)); [done|]. by destruct (immediate_of (lhs a)). }
  destruct (mask_match a c x) as [[value mask]|].
  - apply plays_or_left; [|by rewrite marks_app, Hm].
    apply (plays_ext _ ((r ← operand_in g context value BINARY_GP_RAX; emit (binary_emit_test_reg_imm32 r (imm32 mask))) ;;
      false_jump (operator c) l)); [|by eapply plays_bind].
    intros out _. unfold mbind, Gen_bind. by destruct (operand_in g context value BINARY_GP_RAX out) as [[r|] ?].
  - apply plays_or_right; [done|]. unfold code_generator_binary_emit_compare_false_branch_from_rax. rewrite Hcc.
    eapply plays_ext; [intros out _; apply gen_assoc|]. by eapply plays_bind.
Qed.

Lemma chain_branch_attempt a c p t x l :
  match_chain_branch body i = Some (a, c, p, t, x, l) →
  code_generator_binary_try_emit_binary_compare_branch_chain g context body i =
  (or_else (try_emit_and_mask_compare_false_branch g context a c x l)
     (code_generator_binary_emit_integer_binary_to_rax g context a ;;
      code_generator_binary_emit_compare_false_branch_from_rax g context c x l) ;; mret 3).
Proof.
  intros Hm. destruct (match_chain_branch_spec _ _ _ _ _ _ _ _ Hm)
    as (b & Ha & Hc & Hb & Hp & Ht & Hop & (kb & Hl) & Htext & Hup & Hut & Hx & Hs).
  unfold code_generator_binary_try_emit_binary_compare_branch_chain. rewrite Ha, Hc, Hb, Hp, Ht.
  assert (branches_on b t = true) as ->.
  { unfold branches_on. rewrite Hop, Hl. cbn. by rewrite String.eqb_refl. }
  by rewrite Hup, Hut, Hx, Htext, Hs.
Qed.

Lemma chain_branch_declines :
  match_chain_branch body i = None → declines (code_generator_binary_try_emit_binary_compare_branch_chain g context body i).
Proof using Hbody.
  unfold code_generator_binary_try_emit_binary_compare_branch_chain, match_chain_branch.
  destruct (body !! i) as [a|]; [|done]. cbn [mbind option_bind]. destruct (body !! S i) as [c|]; [|done].
  cbn [mbind option_bind]. destruct (body !! S (S i)) as [b|] eqn:Hb; [|done].
  cbn [mbind option_bind]. destruct (is_chain_producer a) as [p|]; [|done]. cbn [mbind option_bind].
  destruct (is_compare_to_temp c) as [t|]; [|done]. cbn [mbind option_bind].
  destruct (branches_on b t && _ && _) eqn:Hg; [|done]. destruct (other_operand c p) as [x|]; [|done].
  cbn [mbind option_bind]. destruct (text b) as [l|] eqn:Ht; cbn [mbind option_bind].
  - by destruct (is_symbol (lhs c) && is_int x && _).
  - apply andb_true_iff in Hg as [[[Ho%bool_decide_eq_true_1 _]%andb_true_iff _]%andb_true_iff _].
    pose proof (Hbody _ b Hb) as [_ Hs]%andb_true_iff. rewrite Ho in Hs. apply andb_true_iff in Hs as [Hs _].
    unfold labelled, label_text in Hs. by rewrite Ht in Hs.
Qed.

(** What a match settles. *)
Record chain_unit (a c b : IRInstruction) (p t o oc l : string) (x : IROperand) : Prop := {
  cu_at : body !! i = Some a ∧ body !! S i = Some c ∧ body !! S (S i) = Some b;
  cu_producer : defines a o p ∧ code_generator_binary_chain_producer_supported o = true;
  cu_compare : defines c oc t ∧ code_generator_binary_is_compare_operator oc = true;
  cu_branch : op b = IR_OP_BRANCH_ZERO ∧ (∃ kb, lhs b = IR_OPERAND_TEMP t kb) ∧ text b = Some l;
  cu_temps : (∀ n, x ≠ IR_OPERAND_TEMP p n) ∧ dead p ∧ dead t;
  cu_reads : readable (lhs a) ∧ readable (rhs a) ∧ readable x;
  cu_other : code_generator_binary_operand_uses_temp (lhs c) p = true ∧ x = rhs c ∨
    commutative oc = true ∧ code_generator_binary_operand_uses_temp (rhs c) p = true ∧ x = lhs c }.

Lemma chain_unit_intro a c p t x l :
  match_chain_branch body i = Some (a, c, p, t, x, l) → ∃ b o oc, chain_unit a c b p t o oc l x.
Proof using Haliases Hbody.
  intros Hm. assert (plan body i = (3, [p; t])) as Hplan by (unfold plan; by rewrite Hm).
  destruct (match_chain_branch_spec _ _ _ _ _ _ _ _ Hm)
    as (b & Ha & Hc & Hb & Hp & Ht & Hop & (kb & Hl) & Htext & Hup & Hut & Hx%other_operand_spec & _).
  destruct (producer_defines a p Hp) as (o & Hda & Ho). destruct (compare_defines c t Ht) as (oc & Hdc & Hoc).
  destruct (supported_operands _ _ _ _ Ha Hda) as [Hll Hlr]. destruct (supported_operands _ _ _ _ Hc Hdc) as [Hcl Hcr].
  assert (unit_size body i = 3 ∧ killed body i = [p; t]) as [Hsize Hkill] by (unfold unit_size, killed; by rewrite Hplan).
  assert (1 <= uses p c) as Huses.
  { destruct Hx as [[Hl' _]|(_ & _ & Hl' & _)]; apply uses_temp_true in Hl' as [n Hn];
      [by apply (uses_of_temp p n (lhs c)); [left|]|by apply (uses_of_temp p n (rhs c)); [right|]]. }
  assert (1 <= uses t b) as Huset by (by apply (uses_of_temp t kb (lhs b)); [left|]).
  assert (∀ n, x ≠ IR_OPERAND_TEMP p n) as Hne.
  { intros n Hn. assert (code_generator_binary_operand_uses_temp x p = true) as Hux by (apply uses_temp_true; eauto).
    destruct Hx as [[Hl' ->]|(_ & Hl' & _ & ->)]; [|congruence].
    by rewrite (used_by_lhs body p (S i) c Hup Hc Hl') in Hux. }
  assert (x = lhs c ∨ x = rhs c) as Hxc by (destruct Hx as [[_ ->]|(_ & _ & _ & ->)]; auto).
  assert (∀ j ins y, in_unit body k j → body !! j = Some ins → y = lhs ins ∨ y = rhs ins → loadable y = true →
    (∀ n, y ≠ IR_OPERAND_TEMP p n) → j ≠ S (S i) → readable y) as Hread.
  { intros j ins y Hj Hins Hy Hly Hyp Hjt. apply (fused_read j ins y Hj Hins Hy Hly). intros n b' Hn. rewrite Hkill.
    intros [->|[->|Hin%elem_of_nil]%elem_of_cons]%elem_of_cons; [by apply (Hyp b')| |done].
    revert Hn. by apply (no_other_use body t j ins y b' (S (S i)) b). }
  assert (∀ y, y = lhs a ∨ y = rhs a → loadable y = true → readable y) as Hra.
  { intros y Hy Hly. apply (Hread i a y); [unfold in_unit; lia|done..| |lia].
    intros n. by apply (no_other_use body p i a y n (S i) c); [..|lia|done|]. }
  exists b, o, oc. split; [done|done|done|eauto|..].
  - split_and!; [done|exists k; rewrite Hkill; left|exists k; rewrite Hkill; right; left].
  - split_and!; [by apply Hra; [left|]|by apply Hra; [right|]|].
    apply (Hread (S i) c x); [unfold in_unit; lia|done|done|by destruct Hxc as [->| ->]|done|lia].
  - destruct Hx as [?|(Hcom & _ & ? & ?)]; [by left|right]. split; [|done].
    destruct Hdc as (_ & _ & _ & <- & _). revert Hcom. apply is_op_subset. registers.
Qed.

Lemma mask_match_spec a c b p t o oc l x value mask :
  chain_unit a c b p t o oc l x → mask_match a c x = Some (value, mask) →
  o = "&"%string ∧ is_op oc ["=="; "!="]%string = true ∧ x = IR_OPERAND_INT 0 ∧ readable value ∧ in_int32 mask ∧
  ∀ (st : mstate world) va vb, eval st (lhs a) = Some va → eval st (rhs a) = Some vb →
    ∃ v, eval st value = Some v ∧ int_binary "&" v mask = int_binary "&" va vb.
Proof.
  intros [_ [(_ & _ & Ht & _) _] [(_ & _ & _ & Hoc & _) _] _ _ (Hra & Hrb & _) _] Hm. unfold mask_match in Hm.
  destruct (_ || _ || _) eqn:Hg; [done|].
  apply orb_false_iff in Hg as [[H1%negb_false_iff H2%negb_false_iff]%orb_false_iff H3%negb_false_iff].
  unfold has_text in H1. rewrite Ht in H1. apply String.eqb_eq in H1 as ->. rewrite Hoc in H2.
  destruct x as [| | |v| | |]; try done. apply Z.eqb_eq in H3 as ->. split_and!; [done..| | |].
  1-3: destruct (immediate_of (rhs a)) as [kr|] eqn:Hkr; [injection Hm as <- <-|].
  1, 3, 5: try done; try (by apply immediate_of_spec in Hkr as []).
  1: intros st va vb Ha Hb; exists va; split; [done|]; by destruct (eval_immediate_of st _ _ _ Hkr Hb) as [-> _].
  all: apply bind_Some in Hm as (kl & Hkl & [= <- <-]).
  - done.
  - by apply immediate_of_spec in Hkl as [].
  - intros st va vb Ha Hb. exists vb. split; [done|]. destruct (eval_immediate_of st _ _ _ Hkl Ha) as [-> _].
    by rewrite int_binary_comm.
Qed.

Lemma chain_straight a c b p t o oc l x : chain_unit a c b p t o oc l x → straight (chain_code a c x).
Proof using Haliases Hframe some.
  intros Hunit. pose proof Hunit as [_ [(_ & Hfl & Ht & _) Ho] _ _ _ (Hra & Hrb & Hrx) _]. unfold chain_code.
  destruct (mask_match a c x) as [[value mask]|] eqn:Hm.
  - destruct (mask_match_spec _ _ _ _ _ _ _ _ _ _ _ Hunit Hm) as (_ & _ & _ & Hv & _).
    by apply (straight_mask g context Hframe dead some).
  - apply straight_seq; [by apply (straight_to_rax g context Hframe dead some a o)|].
    by apply (straight_rax_compare g context Hframe dead some).
Qed.

Lemma chain_triple a c b p t o oc l x st va vb v a1 b1 w :
  chain_unit a c b p t o oc l x → eval st (lhs a) = Some va → eval st (rhs a) = Some vb →
  int_binary o va vb = Some v → s64 v = v →
  eval (write_temp p v st) (lhs c) = Some a1 → eval (write_temp p v st) (rhs c) = Some b1 →
  int_binary oc a1 b1 = Some w → selectable oc (compare_width c) a1 b1 →
  triple (represents st) (chain_code a c x) (compared_to g context dead before st oc w).
Proof using Haliases Hframe.
  intros Hunit Hva Hvb Hv Hsv Ha1 Hb1 Hw Hsel.
  pose proof Hunit as [_ [(_ & Hfl & Ht & _) Ho] [_ Hoc] _ (Hne & _) (Hra & Hrb & Hrx) Hx].
  destruct (consumer_value oc c p x v w st Hx Hne Hsv a1 b1 Ha1 Hb1 Hw) as (y & Hy & Hvy & Hcase).
  assert (in_s64 v) as Hin by (apply (int_binary_range o va vb); [by eapply eval_fits..|done]).
  unfold chain_code. destruct (mask_match a c x) as [[value mask]|] eqn:Hm.
  - destruct (mask_match_spec _ _ _ _ _ _ _ _ _ _ _ Hunit Hm) as (-> & Heq & -> & Hval & Hk & Hvalue).
    destruct (Hvalue st va vb Hva Hvb) as (u & Hu & Hand). injection Hy as <-.
    by apply (mask_compare_correct g context Hframe dead before Haliases st oc value mask u v w); [..|by rewrite Hand|].
  - eapply triple_seq; [by apply (binary_to_rax_correct g context Hframe dead before st a o va vb v)|].
    apply (rax_compare_correct g context Hframe dead before st oc x (compare_width c) v y w); try done.
    destruct Hsel as [_ Hsel]. split; [by intros ->|]. intros Hw4 Hcmp.
    destruct (Hsel Hw4 Hcmp) as [H1 H2], Hcase as [[-> ->]|[-> ->]]; done.
Qed.

Lemma chain_branch_correct a c p t x l :
  match_chain_branch body i = Some (a, c, p, t, x, l) →
  unit_correct i (code_generator_binary_try_emit_binary_compare_branch_chain g context body i).
Proof using Haliases Hframe Hbody some.
  intros Hm. destruct (chain_unit_intro _ _ _ _ _ _ Hm) as (b & o & oc & Hunit).
  pose proof Hunit as [(Ha & Hc & Hb) [Hda Ho] [Hdc Hoc] (Hop & (kb & Hl) & Htext) (_ & Hdp & Hdt) _ _].
  rewrite (chain_branch_attempt _ _ _ _ _ _ Hm).
  destruct (straight_plays _ (chain_straight _ _ _ _ _ _ _ _ _ Hunit)) as (ps & Hp & Hmk & Hr).
  destruct (plays_false_jump oc l Hoc) as (cc & h & Hcc & Hj).
  exists (ps ++ [Jump (Some cc) h (To_label l)]). unfold unit_size, plan. rewrite Hm. cbn [fst]. split_and!.
  - pose proof Hdc as (_ & _ & _ & Hoper & _). apply plays_then. by apply plays_mask_or; rewrite ?Hoper.
  - eapply places_fused; [done|apply Hda|]. by rewrite marks_app, Hmk.
  - intros st m Hg HR. destruct (good_control _ _ _ Hg Ha) as (f & Hf & Hk).
    destruct (defines_control _ _ _ _ _ Hda Hf) as (va & vb & v & Hva & Hvb & Hv & -> & Hsv). destruct Hk as [Hs1 Hg1].
    destruct (good_control _ _ _ Hg1 Hc) as (f1 & Hf1 & Hk1).
    destruct (defines_control _ _ _ _ _ Hdc Hf1) as (a1 & b1 & w & Ha1 & Hb1 & Hw & -> & Hsw). destruct Hk1 as [Hs2 Hg2].
    destruct (Hr _ _ m (chain_triple _ _ _ _ _ _ _ _ _ st va vb v a1 b1 w Hunit Hva Hvb Hv Hsv Ha1 Hb1 Hw
      (defines_selectable _ _ _ _ _ _ Hdc (good_fits _ _ _ Hg1 Hc) Ha1 Hb1)) HR) as (m' & Hrun & Hm' & Hfl).
    destruct (jump_arrives (S (S i)) b t kb oc l cc h (write_temp p v st) w ps m m' Hb Hop Hl Htext Hdt Hcc Hsw Hg2 Hrun)
      as (k' & y & Hs3 & Hj3 & Harr); [split; [by apply represents_dead|done]|].
    exists 2, k', y, m'. split_and!; [by eapply run_three|done|]. by rewrite Nat.add_comm.
Qed.
End fused.

(** ** The choice *)

(** Where a conditional assignment could be fused: left to the hypothesis that there is
    none. *)
Definition diamond_at (i : nat) : bool :=
  match drop i body with
  | compare :: _ :: assign :: jump :: false_label :: end_label :: _ =>
      is_integer_binary compare && bool_decide (op assign = IR_OP_ASSIGN) && bool_decide (op jump = IR_OP_JUMP) &&
      bool_decide (op false_label = IR_OP_LABEL) && bool_decide (op end_label = IR_OP_LABEL)
  | _ => false
  end.

Context (Hdiamond : ∀ i, diamond_at i = false).

Lemma diamond_declines i : declines (code_generator_binary_try_emit_compare_assign_diamond g context body i).
Proof using Hdiamond.
  pose proof (Hdiamond i) as Hd. unfold diamond_at in Hd. unfold code_generator_binary_try_emit_compare_assign_diamond.
  destruct (drop i body) as [|compare [|branch [|assign [|jump [|fl [|el rest]]]]]]; try done.
  destruct (code_generator_binary_compare_true_cmov (operator compare)), (temp_name (dest compare)), (text branch), (text jump), (text fl), (text el); try done.
  match goal with |- declines (if ?b then _ else _) => destruct b eqn:Hg; [|done] end.
  rewrite !andb_true_iff in Hg. destruct_and? Hg.
  by repeat match goal with H : _ = true |- _ => rewrite H in Hd; clear H end.
Qed.

Lemma no_memory j ins :
  body !! j = Some ins → op ins ≠ IR_OP_LOAD ∧ op ins ≠ IR_OP_STORE ∧ op ins ≠ IR_OP_CAST.
Proof using Hbody.
  intros Hj. pose proof (Hbody j ins Hj) as [_ Hs]%andb_true_iff. by split_and!; intros Ho; rewrite Ho in Hs.
Qed.

Lemma total_zero n (c : code) :
  (∀ j ins, c !! j = Some ins → uses n ins = 0) → code_generator_binary_function_temp_use_count c n = 0.
Proof.
  induction c as [|ins c IH]; intros H; [done|]. rewrite total_cons, IH; [|intros j; apply (H (S j))].
  by rewrite (H 0 ins).
Qed.

Lemma skip_declines i : declines (code_generator_binary_try_skip_scaled_address_shift body i).
Proof using Hbody.
  intros o. unfold code_generator_binary_try_skip_scaled_address_shift.
  destruct (code_generator_binary_shift_only_feeds_scaled_addresses body i) eqn:Hs; [|done]. exfalso.
  unfold code_generator_binary_shift_only_feeds_scaled_addresses in Hs. destruct (body !! i) as [shift|]; [|done].
  destruct (temp_name (dest shift)) as [n|]; [|done]. destruct (code_generator_binary_shift_scale shift); [|done].
  apply andb_true_iff in Hs as [[_ Hall]%andb_true_iff Hz%negb_true_iff]. apply Nat.eqb_neq in Hz. apply Hz.
  apply total_zero. intros j ins Hj. rewrite forallb_forall in Hall.
  assert (In (j, ins) (imap pair body)) as Hin.
  { apply list_elem_of_In, elem_of_lookup_imap. eauto. }
  apply Hall in Hin. cbn [fst snd] in Hin. apply orb_true_iff in Hin as [Hu%Nat.eqb_eq|Hf]; [done|]. exfalso.
  unfold feeds_scaled_address in Hf. destruct (is_address ins); [|done]. apply andb_true_iff in Hf as [Hf _].
  unfold code_generator_binary_address_consumed_by_adjacent_memory in Hf. rewrite Hj in Hf.
  destruct (body !! S j) as [consumer|] eqn:Hc; [|done]. destruct (temp_name (dest ins)); [|done].
  apply andb_true_iff in Hf as [_ Hf]. destruct (no_memory _ _ Hc) as (? & ? & _). by destruct (op consumer).
Qed.

Ltac decline_memory j :=
  let c := fresh "c" in let Hc := fresh "Hc" in
  destruct (body !! j) as [c|] eqn:Hc; [|by repeat case_match];
  destruct (no_memory j c Hc) as (? & ? & ?).

Lemma address_declines i :
  declines (code_generator_binary_try_emit_address_add_load g context body i) ∧
  declines (code_generator_binary_try_emit_address_add_store g context body i) ∧
  declines (code_generator_binary_try_emit_scaled_address_load g context body i) ∧
  declines (code_generator_binary_try_emit_scaled_address_store g context body i) ∧
  declines (code_generator_binary_try_emit_binary_cast_chain g context body i).
Proof using Hbody.
  unfold code_generator_binary_try_emit_address_add_load, code_generator_binary_try_emit_address_add_store,
    code_generator_binary_try_emit_scaled_address_load, code_generator_binary_try_emit_scaled_address_store,
    code_generator_binary_try_emit_binary_cast_chain. split_and!; intros o.
  - decline_memory (S i). destruct (body !! i) as [a|]; [|done]. destruct (is_address a); [|done].
    by rewrite bool_decide_eq_false_2.
  - decline_memory (S i). destruct (body !! i) as [a|]; [|done]. destruct (is_address a); [|done].
    by rewrite bool_decide_eq_false_2.
  - decline_memory (S (S i)).
    destruct (code_generator_binary_try_match_scaled_address body i) as [[[[t b] x] sc]|]; [|done].
    by rewrite bool_decide_eq_false_2.
  - decline_memory (S (S i)).
    destruct (code_generator_binary_try_match_scaled_address body i) as [[[[t b] x] sc]|]; [|done].
    by rewrite bool_decide_eq_false_2.
  - decline_memory (S i). destruct (body !! i) as [a|]; [|done]. destruct (is_chain_producer a); [|done].
    destruct (text c); [|done]. by rewrite bool_decide_eq_false_2.
Qed.

Lemma places_marks base ps : label_places base ps = [] → marks ps = false.
Proof.
  revert base. induction ps as [|p ps IH]; intros base; cbn; [done|]. destruct p; cbn; try done; apply IH.
Qed.

Lemma unit_or_left i ins e1 e2 :
  body !! i = Some ins → op ins = IR_OP_BINARY → unit_correct i e1 → unit_correct i (or_else e1 e2).
Proof.
  intros Hi Ho (ps & Hp & Hpl & Hs). exists ps. split_and!; [|done|done]. apply plays_or_left; [done|].
  apply (places_marks 0). rewrite (Hpl 0), Hi. by rewrite Ho.
Qed.

Lemma unit_or_right i e1 e2 : declines e1 → unit_correct i e2 → unit_correct i (or_else e1 e2).
Proof. intros Hd (ps & Hp & Hpl & Hs). exists ps. split_and!; [by apply plays_or_right|done|done]. Qed.

Lemma expression_declines k :
  match_expression body (unit_start body k) = None →
  declines (code_generator_binary_try_emit_binary_expression_chain g context body (unit_start body k)).
Proof. intros Hm. by rewrite expression_attempt, Hm. Qed.

Lemma compare_branch_declines k :
  match_compare_branch body (unit_start body k) = None →
  declines (code_generator_binary_try_emit_compare_branch_zero g context body (unit_start body k)).
Proof. intros Hm. by rewrite compare_branch_attempt, Hm. Qed.

(** Every unit is correct. *)
Lemma emit_next_correct k :
  unit_start body k < length body → unit_correct (unit_start body k) (emit_next (unit_start body k)).
Proof using Haliases Hframe Hnarrow Hdirect Hdeclare Hbody Hdiamond some.
  intros Hlt. set (i := unit_start body k) in *. destruct (lookup_lt_is_Some_2 body i Hlt) as [ins Hi].
  destruct (address_declines i) as (Hd1 & Hd2 & Hd3 & Hd4 & Hd5).
  unfold FunctionDriver.emit_next, attempts. cbn [foldr].
  apply unit_or_right; [apply skip_declines|].
  destruct (plan_cases body i) as [(a&c&p&t&x&l&Hm&Hplan)|(Hm1&Hcase)].
  { destruct (chain_unit_intro k _ _ _ _ _ _ Hm) as (b & o & oc & [(Ha & _) [(Hop & _) _] _ _ _ _ _]).
    eapply unit_or_left; [exact Ha|done|]. by eapply chain_branch_correct. }
  apply unit_or_right; [by apply chain_branch_declines|]. apply unit_or_right; [apply diamond_declines|].
  do 5 (apply unit_or_right; [done|]). destruct Hcase as [(a&b&t&x&Hm&Hplan)|(Hm2&Hcase)].
  { destruct (match_expression_spec _ _ _ _ _ _ Hm) as (Ha & _ & Hprod & _).
    destruct (producer_defines a t Hprod) as (o & (Hop & _) & _).
    eapply unit_or_left; [exact Ha|done|]. by eapply expression_correct. }
  apply unit_or_right; [by apply expression_declines|]. destruct Hcase as [(c&t&l&Hm&Hplan)|(Hm3&Hplan)].
  { destruct (match_compare_branch_spec _ _ _ _ _ Hm) as (b & Hc & _ & Hcmp & _).
    destruct (compare_defines c t Hcmp) as (o & (Hop & _) & _).
    eapply unit_or_left; [exact Hc|done|]. by eapply compare_branch_correct. }
  apply unit_or_right; [by apply compare_branch_declines|].
  apply (single_correct i ins Hi Hplan). intros x n b Hx Hn.
  apply (live body k i ins n b x); [|done|done|done|].
  - pose proof (unit_size_pos body i). unfold in_unit. fold i. lia.
  - unfold killed. fold i. rewrite Hplan. by intros ?%elem_of_nil.
Qed.
End body.

(** ** Code generation: correctness of a body

    The pieces of a whole body, one unit after the other, and the simulation: from where
    a unit starts, the processor reaches the epilogue when the run of the intermediate
    representation halts. *)

Section loop.
Context {M : Machine} (g : CodeGenerator) (context : BinaryFunctionContext).
Context (emit_other : IRInstruction → Gen ()) (body : code) (before : machine).

Abbreviation represents := (represents g context (dead body) before).
Abbreviation good := (good g context body).
Abbreviation simulates := (simulates g context body before).

(** The pieces from the unit at an index to the end of the body. *)
Inductive emitted : nat → list piece → Prop :=
  | emitted_end i : length body <= i → emitted i []
  | emitted_unit i ps rest :
      i < length body → Forall piece_ok ps → places body i ps → simulates i (unit_size body i) ps →
      emitted (i + unit_size body i) rest → emitted i (ps ++ rest).

Lemma emitted_ok i ps : emitted i ps → Forall piece_ok ps.
Proof. induction 1; [constructor|by apply Forall_app]. Qed.

(** What emission appends. *)
Lemma emit_body_emitted fuel k o o' :
  (∀ k, unit_start body k < length body →
     unit_correct g context body before (unit_start body k) (emit_next g context emit_other body (unit_start body k))) →
  clean o → emit_body g context emit_other body fuel (unit_start body k) o = (Some (), o') →
  ∃ ps, emitted (unit_start body k) ps ∧ o' = play ps o.
Proof.
  intros Hunits. revert k o. induction fuel as [|fuel IH]; intros k o Ho He; cbn [emit_body] in He;
    destruct (Nat.leb_spec (length body) (unit_start body k)) as [Hle|Hlt]; try done;
    try (injection He as <-; exists []; split; [by constructor|done]).
  destruct (Hunits k Hlt) as (ps & [Hok Hp] & Hpl & Hs). unfold mbind, Gen_bind in He.
  destruct (Hp o Ho) as [Hn|[_ Hn]].
  - rewrite Hn in He. destruct (IH (S k) (play ps o) (play_clean ps o Ho) He) as (rest & Hr & ->).
    exists (ps ++ rest). split; [by constructor|]. by rewrite play_app.
  - destruct (emit_next g context emit_other body (unit_start body k) o) as [[n|] o1]; [done|discriminate He].
Qed.

(** ** Labels *)

Lemma interior_no_label i j ins :
  i < j < i + unit_size body i → body !! j = Some ins → op ins ≠ IR_OP_LABEL.
Proof.
  unfold unit_size.
  destruct (plan_cases body i) as [(a&c&p&t&x&l&Hm&->)|(_&[(a&b&t&x&Hm&->)|(_&[(c&t&l&Hm&->)|(_&->)])])];
    cbn [fst]; intros Hj Hins Ho.
  - destruct (match_chain_branch_spec _ _ _ _ _ _ _ _ Hm) as (b & _ & Hc & Hb & _ & Ht & Hop & _).
    destruct (compare_defines c t Ht) as (o & (Hcop & _) & _).
    assert (j = S i ∨ j = S (S i)) as [-> | ->] by lia; simplify_eq; congruence.
  - destruct (match_expression_spec _ _ _ _ _ _ Hm) as (_ & Hb & _ & [Hop _]%integer_binary_spec & _).
    assert (j = S i) as -> by lia. simplify_eq. congruence.
  - destruct (match_compare_branch_spec _ _ _ _ _ Hm) as (b & _ & Hb & _ & Hop & _).
    assert (j = S i) as -> by lia. simplify_eq. congruence.
  - lia.
Qed.

Lemma is_label_spec l ins : is_label l ins = true ↔ op ins = IR_OP_LABEL ∧ text ins = Some l.
Proof.
  unfold is_label. destruct (op ins), (text ins) as [t|]; try (by split; [|intros [? ?]]).
  rewrite String.eqb_eq. split; [by intros ->|by intros [_ [= ->]]].
Qed.

Lemma emitted_label i ps l j ins base :
  emitted i ps → i <= j → body !! j = Some ins → is_label l ins = true →
  (∀ j' ins', i <= j' < j → body !! j' = Some ins' → is_label l ins' = false) →
  ∃ ps1 ps2, ps = ps1 ++ ps2 ∧ emitted j ps2 ∧
    binary_label_table_get (label_places base ps) l = Some (base + pieces_size ps1).
Proof.
  intros He. revert base. induction He as [i Hle|i ps rest Hlt Hok Hpl Hs Hr IH]; intros base Hij Hj Hl Hfirst.
  { apply lookup_lt_Some in Hj. lia. }
  rewrite label_places_app, (Hpl base). apply is_label_spec in Hl as [Hop Ht]. destruct (decide (j = i)) as [->|Hne].
  - exists [], (ps ++ rest). split_and!; [done|by constructor|]. rewrite Hj, Ht, bool_decide_eq_true_2 by done.
    cbn. by rewrite String.eqb_refl, Nat.add_0_r.
  - assert (i + unit_size body i <= j) as Hle.
    { destruct (decide (i + unit_size body i <= j)); [done|]. exfalso.
      by apply (interior_no_label i j ins); [lia|..]. }
    destruct (IH (base + pieces_size ps)) as (ps1 & ps2 & -> & Hps2 & Hget);
      [lia|done|by apply is_label_spec|intros j' ins' Hj'; apply Hfirst; lia|].
    exists (ps ++ ps1), ps2. split_and!; [by rewrite app_assoc|done|].
    destruct (lookup_lt_is_Some_2 body i Hlt) as [ins0 Hi]. rewrite Hi.
    pose proof (Hfirst i ins0 ltac:(lia) Hi) as Hno. rewrite pieces_size_app, Nat.add_assoc, <- Hget.
    destruct (bool_decide (op ins0 = IR_OP_LABEL)) eqn:Hop0; [|done]. apply bool_decide_eq_true_1 in Hop0.
    destruct (text ins0) as [t|] eqn:Ht0; [|done]. cbn. destruct (String.eqb_spec t l) as [->|]; [|done].
    exfalso. by rewrite (proj2 (is_label_spec l ins0)) in Hno.
Qed.

(** ** The run of a body *)

Lemma good_run n k k' : good k → IRSemantics.run n body k = Some k' → good k'.
Proof.
  intros [Hr Hf] Hk. split.
  - intros m Hm. apply (Hr (n + m)). by rewrite run_add, Hk.
  - intros m pc st i Hm. apply (Hf (n + m)). by rewrite run_add, Hk.
Qed.

Section run.
Variables (field : nat → list byte) (front back : list byte) (all : list piece) (table : BinaryLabelTable).
Context (Hfield : four field) (Hall : emitted 0 all).

Abbreviation base := (length front).
Abbreviation bytes := (front ++ assemble field base all ++ back).
Abbreviation finish := (base + pieces_size all).

Context (Htable : table = label_places base all).
Context (Hresolved : resolved table finish field (jump_fields base all)).

(** The unit at [i] starts at the offset [n]. *)
Definition starts (i n : nat) : Prop :=
  ∃ ps1 ps2, all = ps1 ++ ps2 ∧ n = base + pieces_size ps1 ∧ emitted i ps2.

Lemma starts_label l i : ir_find_label_index body l = Some i → ∃ n, binary_label_table_get table l = Some n ∧ starts i n.
Proof using Hall Htable.
  intros Hi. unfold ir_find_label_index in Hi. apply find_index_Some in Hi as [(ins & Hins & Hl) Hfirst].
  destruct (emitted_label 0 all l i ins base Hall) as (ps1 & ps2 & Heq & He & Hget); [lia|done|done|..].
  { intros j' ins' Hj' Hi'. apply (Hfirst j' ins'); [lia|done]. }
  exists (base + pieces_size ps1). rewrite Htable. split; [done|]. by exists ps1, ps2.
Qed.

(** Running the pieces of a unit where they are. *)
Lemma unit_run ps1 ps ps2 m x m' :
  all = ps1 ++ ps ++ ps2 → run_pieces ps m = Some (x, m') →
  ∃ n, exit_offset table finish (base + pieces_size ps1) ps x = Some n ∧
    leads bytes (Running (Z.of_nat (base + pieces_size ps1)) m) (Running (Z.of_nat n) m').
Proof using Hfield Hall Hresolved.
  intros Heq Hr. pose proof (emitted_ok _ _ Hall) as Hok. rewrite Heq in Hok.
  apply Forall_app in Hok as [_ [Hok _]%Forall_app].
  pose proof (pieces_run field table finish bytes (front ++ assemble field base ps1) ps
    (assemble field (base + pieces_size ps1 + pieces_size ps) ps2 ++ back) m x m') as Hrun.
  rewrite length_app, length_assemble in Hrun by done. apply Hrun; [|done|done| |done].
  - by rewrite Heq, !assemble_app, <- !app_assoc.
  - intros t k Hin. apply Hresolved. rewrite Heq, !jump_fields_app. rewrite !elem_of_app. auto.
Qed.

Lemma body_run fuel : ∀ i n st m v st',
  starts i n → good (At i st) → represents st m → IRSemantics.run fuel body (At i st) = Some (Halted v st') →
  ∃ m', leads bytes (Running (Z.of_nat n) m) (Running (Z.of_nat finish) m') ∧ represents st' m' ∧
    ∀ a, v = Some a → regs m' BINARY_GP_RAX = u64 a.
Proof using Hfield Hall Hresolved Htable.
  induction fuel as [fuel IH] using lt_wf_ind. intros i n st m v st' (ps1 & ps2 & Heq & -> & He) Hg HR Hrun.
  destruct He as [i Hle|i ps rest Hlt Hok Hpl Hs Hr].
  { destruct fuel as [|fuel]; [done|]. cbn in Hrun. rewrite (proj2 (lookup_ge_None _ _)) in Hrun by done. cbn in Hrun.
    rewrite run_halted in Hrun. injection Hrun as <- <-. exists m.
    rewrite app_nil_r in Heq. rewrite Heq. split_and!; [apply leads_refl|done|done]. }
  destruct (Hs st m Hg HR) as (j & k & x & m1 & Hj & Hx & Harr).
  destruct (unit_run ps1 ps rest m x m1 Heq Hx) as (n' & Hn' & Hl).
  assert (∀ pc st1, k = At pc st1 → represents st1 m1 → starts pc n' →
    ∃ m', leads bytes (Running (Z.of_nat (base + pieces_size ps1)) m) (Running (Z.of_nat finish) m') ∧
      represents st' m' ∧ ∀ a, v = Some a → regs m' BINARY_GP_RAX = u64 a) as Hnext.
  { intros pc st1 -> HR1 Hst. destruct (Nat.le_gt_cases (S j) fuel) as [Hle|Hgt].
    - replace fuel with (S j + (fuel - S j)) in Hrun by lia. rewrite run_add, Hj in Hrun. cbn [mbind option_bind] in Hrun.
      destruct (IH (fuel - S j) ltac:(lia) pc n' st1 m1 v st' Hst (good_run _ _ _ Hg Hj) HR1 Hrun) as (m' & Hl' & Hm').
      exists m'. split; [by eapply leads_trans|done].
    - replace (S j) with (fuel + (S j - fuel)) in Hj by lia. rewrite run_add, Hrun in Hj. cbn [mbind option_bind] in Hj.
      by rewrite run_halted in Hj. }
  destruct k as [pc st1|v1 st1]; destruct x as [|[l|]]; cbn [arrives] in Harr; try done.
  - destruct Harr as [-> HR1]. cbn [exit_offset] in Hn'. injection Hn' as <-. apply (Hnext _ _ eq_refl HR1).
    exists (ps1 ++ ps), rest. by rewrite <- app_assoc, pieces_size_app, Nat.add_assoc.
  - destruct Harr as [Hlab HR1]. cbn [exit_offset target_offset] in Hn'.
    destruct (starts_label l pc Hlab) as (n'' & Hget & Hst). rewrite Hget in Hn'. injection Hn' as ->.
    by apply (Hnext _ _ eq_refl HR1).
  - destruct Harr as [HR1 Ha]. cbn [exit_offset target_offset] in Hn'. injection Hn' as <-.
    pose proof (halts_steps _ _ _ _ v st' Hj) as Hh. assert (halts body (Halted v1 st1) v st') as [-> ->]%halts_halted by (apply Hh; by exists fuel).
    by exists m1.
Qed.
End run.
End loop.
