(* ===== verification/PrologueFacts.v ===== *)
(** * Code generation: prologue and epilogue

    From the call of a function to the first unit of its body: the frame is set up, the
    registers that hold variables are saved and the arguments are where the variables
    live.  From the end of the body to the caller: every register the caller relies on is
    as it was. *)

From stdpp Require Import gmap.
From S2P Require Import Prelude.
From S2P Require Import Ast.
From S2P Require Import IR.
From S2P Require Import IRSemantics.
From S2P Require Import Encoders.
From S2P Require Import X86.
From S2P Require Import X86Facts.
From S2P Require Import EncoderFacts.
From S2P Require Import MemoryFacts.
From S2P Require Import FunctionContext.
From S2P Require Import Frame.
From S2P Require Import Operands.
From S2P Require Import Instructions.
From S2P Require Import FunctionDriver.
From S2P Require Import FrameFacts.
From S2P Require Import SelectionFacts.
From S2P Require Import BranchFacts.
From S2P Require Import Execution.

(** A slot of eight bytes below the frame pointer. *)
Definition wide (offset : Z) : cell := On_stack offset 8 false.

Section entry.
Context {M : Machine} (g : CodeGenerator) (context : BinaryFunctionContext) (abi : BinaryAbi).

(** The machine at the call; the stack pointer is [s]. *)
Context (m0 : machine) (s : Z).
Context (Hok : machine_ok m0) (Hsp : regs m0 BINARY_GP_RSP = s) (Hlow : (2 ^ 31 + 8 <= s)%Z).

Definition frame_registers : list Z := [0; 4; 5]%Z.

(** The frame of [f] bytes is there and only the registers [rs] have changed. *)
Record entered (f : Z) (rs : list Z) (m : machine) : Prop := {
  en_ok : machine_ok m;
  en_rbp : regs m BINARY_GP_RBP = (s - 8)%Z;
  en_rsp : regs m BINARY_GP_RSP = u64 (s - 8 - f);
  en_regs : ∀ r, r ∉ frame_registers → r ∉ rs → regs m r = regs m0 r;
  en_above : ∀ a, (s <= a < 2 ^ 64)%Z → X86.memory m a = X86.memory m0 a;
  en_old : load m 8 (s - 8) = regs m0 BINARY_GP_RBP }.

Lemma low_range : (0 <= s < 2 ^ 64)%Z.
Proof using Hok Hsp. rewrite <- Hsp. apply Hok. Qed.

Lemma entered_slot f rs m o : (0 <= o <= 2 ^ 31)%Z → entered f rs m → slot_address m o = (s - 8 - o)%Z.
Proof using Hok Hsp Hlow.
  intros Ho Hm. unfold slot_address, at_register. rewrite (en_rbp _ _ _ Hm). pose proof low_range. apply u64_id. lia.
Qed.

(** *** Setting up *)

Lemma push_frame :
  triple (λ m, m = m0) (emit (binary_emit_push_reg BINARY_GP_RBP ;; binary_emit_mov_reg_reg BINARY_GP_RBP BINARY_GP_RSP))
    (entered 0 []).
Proof using Hok Hsp Hlow.
  pose proof low_range as Hs. exists ([PUSH BINARY_GP_RBP] ++ mov_program W64 BINARY_GP_RBP BINARY_GP_RSP).
  split; [apply gasm_emit, asm_seq; [apply asm_push|apply asm_mov]|]. intros m ->.
  set (m1 := set_reg (store m0 8 (u64 (regs m0 RSP - 8)) (regs m0 BINARY_GP_RBP)) W64 RSP (u64 (regs m0 RSP - 8))).
  assert (regs m0 RSP = s) as Hrsp by done. assert (u64 (s - 8) = (s - 8)%Z) as Hu by (apply u64_id; lia).
  assert (machine_ok m1) as Hok1.
  { intros r. unfold m1. cbn [regs set_reg set_regs store set_memory]. unfold update.
    destruct (r =? RSP)%Z; [apply u64_range|apply Hok]. }
  destruct (leaves_mov m1 BINARY_GP_RBP BINARY_GP_RSP Hok1) as (m2 & Hr2 & Hc2 & Hv2).
  exists m2. split.
  { rewrite run_app. change (X86.run [PUSH BINARY_GP_RBP] m0) with (X86.Next m1). exact Hr2. }
  destruct Hc2 as (Hm2 & Hregs2 & Hk2).
  assert (regs m1 BINARY_GP_RSP = (s - 8)%Z) as H1.
  { unfold m1. cbn [regs set_reg set_regs bits]. change (gp_code BINARY_GP_RSP) with RSP.
    rewrite update_same, Hrsp, Hu. apply Hu. }
  assert (X86.memory m1 = X86.memory (store m0 8 (s - 8) (regs m0 BINARY_GP_RBP))) as Hmem1.
  { unfold m1. cbn [X86.memory set_reg set_regs]. by rewrite Hrsp, Hu. }
  split.
  - by apply Hk2.
  - by rewrite Hv2, H1.
  - rewrite Hregs2, H1, Z.sub_0_r, Hu; [done|]. by intros Hin%(bool_decide_eq_true_2 _).
  - intros r Hr _. rewrite Hregs2.
    + unfold m1. cbn [regs set_reg set_regs store set_memory]. rewrite update_other; [done|].
      intros ->. apply Hr. right. left.
    + intros ->%list_elem_of_singleton. apply Hr. right. right. left.
  - intros a Ha. rewrite Hm2, Hmem1. apply store_elsewhere; [lia|unfold in_memory; lia|lia].
  - rewrite (load_ext (store m0 8 (s - 8) (regs m0 BINARY_GP_RBP))) by (intros; by rewrite Hm2, Hmem1).
    rewrite load_store_same by (unfold in_memory; lia). change (_ mod _)%Z with (u64 (regs m0 BINARY_GP_RBP)).
    apply u64_id, Hok.
Qed.

Lemma entered_status f rs m st : entered f rs m → entered f rs (set_status m st).
Proof. intros []. by split. Qed.

Lemma sub_rsp f k :
  (0 <= k < 2 ^ 31)%Z → triple (entered f []) (emit (binary_emit_sub_rsp_imm32 k)) (entered (f + k) []).
Proof.
  intros Hk. exists (if (k =? 0)%Z then [] else [ALUI SUB W64 (Reg BINARY_GP_RSP) (s32 k)]).
  split; [apply gasm_emit, (asm_alu_rsp SUB)|]. intros m Hm. destruct (Z.eqb_spec k 0) as [->|].
  - exists m. split; [done|]. by rewrite Z.add_0_r.
  - destruct (leaves_alui SUB Z.sub m BINARY_GP_RSP (s32 k) (en_ok _ _ _ Hm) eq_refl) as (m' & Hr & (Hmem & Hregs & Hk') & Hv).
    exists m'. split; [done|]. destruct Hm as [H1 H2 H3 H4 H5 H6]. split.
    + auto.
    + rewrite Hregs; [done|]. by intros Hin%(bool_decide_eq_true_2 _).
    + rewrite Hv, H3, (wrap_s_id 32 k), u64_sub_r, u64_sub_l by lia. f_equal. lia.
    + intros r Hr' Hrs. rewrite Hregs; [auto|]. intros ->%list_elem_of_singleton. apply Hr'. right. left.
    + by rewrite Hmem.
    + rewrite <- H6. apply load_ext. intros. by rewrite Hmem.
Qed.

Lemma asm_touch : asm binary_emit_stack_probe_touch unit_result [TESTI W8 (Mem (Some RSP) None 0) 0].
Proof.
  exists (map byte.of_Z [0xF6; 0x04; 0x24; 0x00]%Z). split.
  - unfold binary_emit_stack_probe_touch, raw_bytes. cbn [foldr map].
    do 4 (apply (emits_seq_unit _ _ [_]); [apply emits_bytes|]). apply emits_ret.
  - apply codes_one. intros rest. reflexivity.
Qed.

Lemma touch f : triple (entered f []) (emit binary_emit_stack_probe_touch) (entered f []).
Proof.
  exists [TESTI W8 (Mem (Some RSP) None 0) 0]. split; [apply gasm_emit, asm_touch|].
  intros m Hm. eexists. split; [reflexivity|]. by apply entered_status.
Qed.

Lemma emit_bind (e1 e2 : Emit ()) o : emit (e1 ;; e2) o = (emit e1 ;; emit e2) o.
Proof.
  unfold emit, mbind, Gen_bind, Emit_bind. destruct o as [c l lf cr rf it em id]. cbn [out_code].
  destruct (e1 c) as [[[]|] c1]; [|done]. cbn [out_code set_code]. by destruct (e2 c1) as [[[]|] c2].
Qed.

Lemma triple_emit_seq P Q R e1 e2 : triple P (emit e1) Q → triple Q (emit e2) R → triple P (emit (e1 ;; e2)) R.
Proof. intros H1 H2. eapply triple_ext; [apply emit_bind|]. by eapply triple_seq. Qed.

Lemma probe_frame fuel f k :
  (0 < k < 2 ^ 31)%Z → (k <= (Z.of_nat fuel) * BINARY_STACK_PAGE_SIZE)%Z →
  triple (entered f []) (emit (probe_pages fuel k)) (entered (f + k) []).
Proof.
  unfold BINARY_STACK_PAGE_SIZE. revert f k. induction fuel as [|fuel IH]; intros f k Hk Hf; [lia|]. cbn [probe_pages].
  unfold BINARY_STACK_PAGE_SIZE. destruct (Z.ltb_spec 4096 k).
  - eapply triple_emit_seq; [apply (sub_rsp f 4096); lia|]. eapply triple_emit_seq; [apply touch|].
    replace (f + k)%Z with (f + 4096 + (k - 4096))%Z by lia. apply IH; lia.
  - eapply triple_emit_seq; [by apply (sub_rsp f k); lia|apply touch].
Qed.

Lemma allocate_frame F :
  (0 <= F < 2 ^ 31)%Z → triple (entered 0 []) (emit (binary_emit_frame_allocation F)) (entered F []).
Proof.
  intros HF. unfold binary_emit_frame_allocation, BINARY_STACK_PAGE_SIZE. destruct (Z.leb_spec F 0).
  - replace F with 0%Z by lia. exists []. split; [apply gasm_emit, asm_ret|]. intros m Hm. by exists m.
  - destruct (Z.leb_spec F 4096); [by apply (sub_rsp 0 F); lia|].
    apply (probe_frame _ 0 F); [lia|]. unfold BINARY_STACK_PAGE_SIZE.
    pose proof (Z.div_mod F 4096 ltac:(lia)). pose proof (Z.mod_pos_bound F 4096 ltac:(lia)). lia.
Qed.

(** *** Slots and registers *)

Lemma slot_range f rs m o :
  (8 <= o <= 2 ^ 31)%Z → entered f rs m → in_memory (s - 8 - o) 8 ∧ slot_address m o = (s - 8 - o)%Z.
Proof using Hok Hsp Hlow.
  intros Ho Hm. pose proof low_range. split; [unfold in_memory; lia|]. by apply (entered_slot f rs); [lia|].
Qed.

Lemma store_entered f rs m o v :
  (8 <= o <= 2 ^ 31)%Z → entered f rs m →
  let m' := store m 8 (slot_address m o) v in
  entered f rs m' ∧ load m' 8 (s - 8 - o) = u64 v ∧
  ∀ o' n, (Z.of_nat n <= o' <= 2 ^ 31)%Z → (o' <= o - 8 ∨ o <= o' - Z.of_nat n)%Z →
    load m' n (s - 8 - o') = load m n (s - 8 - o').
Proof using Hok Hsp Hlow.
  intros Ho Hm m'. pose proof low_range as Hs. destruct (slot_range f rs m o Ho Hm) as [Hin Ha]. subst m'. rewrite Ha.
  split_and!.
  - destruct Hm as [H1 H2 H3 H4 H5 H6]. split; [done..| |].
    + intros a Hr. rewrite store_elsewhere; [auto|lia|done|lia].
    + rewrite load_store_other; [done|done|unfold in_memory; lia|lia].
  - by rewrite load_store_same.
  - intros o' n Hn Hd. apply load_store_other; [done|unfold in_memory; lia|lia].
Qed.

Lemma change_entered f rs m m' q :
  q ∉ [4; 5]%Z → changes [q] m m' → entered f rs m → entered f (q :: rs) m'.
Proof.
  intros Hq (Hmem & Hregs & Hk) [H1 H2 H3 H4 H5 H6]. split.
  - auto.
  - rewrite Hregs; [done|]. intros <-%list_elem_of_singleton. apply Hq. right. left.
  - rewrite Hregs; [done|]. intros <-%list_elem_of_singleton. apply Hq. left.
  - intros r Hr [Hne Hrs]%not_elem_of_cons. rewrite Hregs; [auto|]. by intros ->%list_elem_of_singleton.
  - by rewrite Hmem.
  - rewrite <- H6. apply load_ext. intros. by rewrite Hmem.
Qed.

(** RAX is free. *)
Lemma entered_rax f rs m : entered f (0%Z :: rs) m → entered f rs m.
Proof.
  intros [H1 H2 H3 H4 H5 H6]. split; [done..| |done|done]. intros r Hr Hrs. apply H4; [done|].
  intros [->|?]%elem_of_cons; [|done]. apply Hr. left.
Qed.

Lemma for_each_triple {A} (I : list A → machine → Prop) (f : A → Gen ()) l :
  (∀ done x todo, l = done ++ x :: todo → triple (I done) (f x) (I (done ++ [x]))) →
  triple (I []) (for_each f l) (I l).
Proof.
  intros Hf. assert (∀ todo done, l = done ++ todo → triple (I done) (for_each f todo) (I l)) as H; [|by apply H].
  induction todo as [|x todo IH]; intros done Hl; cbn [for_each].
  - rewrite app_nil_r in Hl. subst l. apply triple_ret.
  - eapply triple_seq; [by eapply Hf|]. apply IH. by rewrite <- app_assoc.
Qed.

(** ** Saved registers *)

(** The pairs are in their slots. *)
Definition saved_at (l : list (BinaryGpRegister * Z)) (m : machine) : Prop :=
  ∀ (r : BinaryGpRegister) o, (r, o) ∈ l → load m 8 (s - 8 - o) = regs m0 r.

Definition saved_slots : list (BinaryGpRegister * Z) := zip (saved_registers context) (saved_register_offsets context).

(** Saved registers are none of the frame's, each has a slot, and the slots are apart. *)
Record saves_ok : Prop := {
  sv_register : ∀ (r : BinaryGpRegister) o, (r, o) ∈ saved_slots → gp_code r ∉ frame_registers;
  sv_range : ∀ (r : BinaryGpRegister) o, (r, o) ∈ saved_slots → (8 <= o <= 2 ^ 31)%Z;
  sv_registers : NoDup (map fst saved_slots);
  sv_apart : ∀ i j p q, i ≠ j → saved_slots !! i = Some p → saved_slots !! j = Some q → apart (wide (snd p)) (wide (snd q)) }.

Lemma write_slot (r : BinaryGpRegister) o :
  (8 <= o <= 2 ^ 31)%Z →
  ∃ p, gasm (emit (binary_emit_mov_mem_reg BINARY_GP_RBP (- o) r)) p ∧
    ∀ m, machine_ok m → X86.run p m = X86.Next (store m 8 (slot_address m o) (regs m r)).
Proof.
  intros Ho. destruct (writes_64 BINARY_GP_RBP r (- o) ltac:(unfold in_int32; lia)) as (p & Ha & Hr).
  exists p. split; [by apply gasm_emit|done].
Qed.

Lemma saves_correct F :
  saves_ok → triple (entered F []) (for_each (λ p, emit (save_register p)) saved_slots)
    (λ m, entered F [] m ∧ saved_at saved_slots m).
Proof using Hok Hsp Hlow.
  intros [Hreg Hrange _ Hapart].
  apply (triple_weaken (λ m, entered F [] m ∧ saved_at [] m) _ (λ m, entered F [] m ∧ saved_at saved_slots m)); [|done|apply (for_each_triple (λ l m, entered F [] m ∧ saved_at l m))].
  { intros m Hm. split; [done|]. by intros r o ?%elem_of_nil. }
  intros l [r o] todo Hl. assert ((r, o) ∈ saved_slots) as Hin by (rewrite Hl; apply elem_of_app; right; left).
  destruct (write_slot r o (Hrange r o Hin)) as (p & Hg & Hr). exists p. split; [done|]. intros m [Hm Hs].
  eexists. split; [apply Hr, Hm|]. destruct (store_entered F [] m o (regs m r) (Hrange _ _ Hin) Hm) as (He & Hown & Hother).
  split; [done|]. intros r' o' [Hin'|[= -> ->]%list_elem_of_singleton]%elem_of_app.
  - rewrite <- (Hs r' o' Hin'). apply Hother; [apply (Hrange r' o'); rewrite Hl; apply elem_of_app; by left|].
    apply list_elem_of_lookup in Hin' as [k Hk]. pose proof (lookup_lt_Some _ _ _ Hk).
    apply (Hapart (length l) k (r, o) (r', o')); [lia|by rewrite Hl, list_lookup_middle|].
    rewrite Hl. by apply lookup_app_l_Some.
  - rewrite Hown, (en_regs _ _ _ Hm); [apply u64_id, Hok|by apply (Hreg r o)|by intros ?%elem_of_nil].
Qed.

(** ** Homes of the parameters *)

Abbreviation home name := (code_generator_binary_get_parameter_offset context name).
Abbreviation promoted name := (code_generator_binary_symbol_assigned_register g context name).
Abbreviation parameter := ((string * string) * BinaryArgLocation)%type.

(** The arguments by name. *)
Context (value : string → Z).

Definition argument_offset (offset : Z) : Z := (16 + shadow_space_size abi + offset)%Z.

(** The argument is where the convention puts it. *)
Definition arrived (name : string) (location : BinaryArgLocation) : Prop :=
  match location with
  | BINARY_ARG_IN_GP_REGISTER r => regs m0 r = u64 (value name)
  | BINARY_ARG_ON_STACK offset => load m0 8 (s - 8 + argument_offset offset) = u64 (value name)
  | BINARY_ARG_IN_XMM_REGISTER _ => False
  end.

(** Where it can be read during the prologue. *)
Definition location_ok (location : BinaryArgLocation) : Prop :=
  match location with
  | BINARY_ARG_IN_GP_REGISTER r => gp_code r ∉ frame_registers
  | BINARY_ARG_ON_STACK offset =>
      (8 <= argument_offset offset < 2 ^ 31)%Z ∧ (s - 8 + argument_offset offset + 8 <= 2 ^ 64)%Z
  | BINARY_ARG_IN_XMM_REGISTER _ => False
  end.

Record homes_ok (params : list parameter) : Prop := {
  ho_home : ∀ p, p ∈ params → (8 <= home p.1.1 <= 2 ^ 31)%Z ∧ is_Some (cell_of g context (Local p.1.1));
  ho_location : ∀ p, p ∈ params → location_ok p.2;
  ho_value : ∀ p, p ∈ params → arrived p.1.1 p.2 ∧ typed (local_type g p.1.1) (value p.1.1) = value p.1.1 ∧ in_s64 (value p.1.1);
  ho_distinct : ∀ i j p q, i < j → params !! i = Some p → params !! j = Some q →
    p.1.1 ≠ q.1.1 ∧ apart (wide (home p.1.1)) (wide (home q.1.1)) ∧
    ∀ r, promoted p.1.1 = Some r → q.2 ≠ BINARY_ARG_IN_GP_REGISTER r;
  ho_saved : ∀ p r, p ∈ params → r ∈ saved_slots → apart (wide (home p.1.1)) (wide (snd r)) }.

(** The registers given to parameters so far. *)
Definition moved (params : list parameter) : list Z := omap (λ p, gp_code <$> promoted p.1.1) params.

Definition homed (params : list parameter) (m : machine) : Prop :=
  ∀ p c, p ∈ params → cell_of g context (Local p.1.1) = Some c → read_cell m c = u64 (value p.1.1).

Definition entering (F : Z) (params : list parameter) (m : machine) : Prop :=
  entered F (moved params) m ∧ saved_at saved_slots m ∧ homed params m.

Lemma local_cell_shape name c :
  (0 < home name)%Z → cell_of g context (Local name) = Some c →
  match promoted name with
  | Some r => c = In_register r
  | None => c = On_stack (home name) (access_size (slot_size (local_type g name))) (slot_signed (local_type g name))
  end.
Proof.
  cbn [cell_of]. unfold local_cell, code_generator_binary_get_symbol_offset. intros Hh.
  rewrite !(proj2 (Z.ltb_lt 0 (home name))), (proj2 (Z.leb_gt (home name) 0)) by done. intros Hc.
  destruct (_ && _); [done|]. destruct (is_kind _ _); [done|]. destruct (promoted name); [by injection Hc as <-|].
  destruct (code_generator_binary_type_is_direct_aggregate _); [done|]. destruct (negb _); [done|]. by injection Hc as <-.
Qed.

Lemma access_size_bounds t : 0 < access_size t ≤ 8.
Proof. destruct (access_size_cases t) as [[-> _]|[[-> _]|[[-> _]|[-> _]]]]; lia. Qed.

(** A slot of eight bytes read at the width of the variable. *)
Lemma read_home m o t v :
  load m 8 (slot_address m o) = u64 v → typed t v = v → in_s64 v →
  read_cell m (On_stack o (access_size (slot_size t)) (slot_signed t)) = u64 v.
Proof.
  intros Hl Ht Hv. cbn [read_cell]. pose proof (access_size_bounds (slot_size t)) as Hn. set (n := access_size (slot_size t)) in *.
  rewrite (load_prefix m n (8 - n)). replace (n + (8 - n))%nat with 8%nat by lia. rewrite Hl.
  rewrite (narrowed_pattern n (slot_signed t) v Hn), s64_in by done. f_equal. exact Ht.
Qed.

(** What a change of one register keeps. *)
Lemma entering_change F done_ m m' q :
  q ∉ [4; 5]%Z → changes [q] m m' → entering F done_ m →
  (∀ p r, p ∈ done_ → cell_of g context (Local p.1.1) = Some (In_register r) → gp_code r ≠ q) →
  entered F (q :: moved done_) m' ∧ saved_at saved_slots m' ∧ homed done_ m'.
Proof.
  intros Hq Hc (He & Hs & Hh) Hne. pose proof Hc as (Hmem & Hregs & _). split_and!.
  - by apply (change_entered F _ m).
  - intros r o Hin. rewrite <- (Hs r o Hin). apply load_ext. intros. by rewrite Hmem.
  - intros p c Hp Hcell. rewrite <- (Hh p c Hp Hcell). apply (read_cell_changes [q]); [done| |].
    + intros <-%list_elem_of_singleton. apply Hq. right. left.
    + intros r ->. intros Heq%list_elem_of_singleton. by apply (Hne p r).
Qed.

(** What a store to a home keeps. *)
Lemma entering_store F done_ m o v :
  (8 <= o <= 2 ^ 31)%Z → entering F done_ m → saves_ok →
  (∀ r, r ∈ saved_slots → apart (wide o) (wide (snd r))) →
  (∀ p, p ∈ done_ → (8 <= home p.1.1 <= 2 ^ 31)%Z ∧ apart (wide o) (wide (home p.1.1))) →
  let m' := store m 8 (slot_address m o) v in
  entered F (moved done_) m' ∧ saved_at saved_slots m' ∧ homed done_ m' ∧ load m' 8 (slot_address m' o) = u64 v.
Proof using Hok Hsp Hlow.
  intros Ho (He & Hs & Hh) Hsv Hsaved Hhomes m'. destruct (store_entered F _ m o v Ho He) as (He' & Hown & Hother). split_and!.
  - done.
  - intros r o' Hin. rewrite <- (Hs r o' Hin). apply Hother; [by eapply sv_range|]. apply (Hsaved (r, o') Hin).
  - intros p c Hp Hcell. rewrite <- (Hh p c Hp Hcell). destruct (Hhomes p Hp) as [Hr Hap].
    assert (0 < home p.1.1)%Z as Hpos by lia. pose proof (local_cell_shape _ _ Hpos Hcell) as Hshape.
    destruct (promoted p.1.1) as [r|]; subst c; [done|].
    pose proof (access_size_bounds (slot_size (local_type g p.1.1))) as Hn. cbn [apart wide] in Hap.
    assert (slot_address m (home p.1.1) = s - 8 - home p.1.1)%Z as Ha by (apply (entered_slot F (moved done_)); [lia|done]).
    cbn [read_cell]. change (slot_address m' (home p.1.1)) with (slot_address m (home p.1.1)).
    rewrite Ha. subst m'. rewrite Hother; [done|lia|lia].
  - change (slot_address m' o) with (slot_address m o). by destruct (slot_range F _ m o Ho He) as [_ ->].
Qed.

(** The argument's value when its turn comes. *)
Lemma load_argument F rs m offset :
  location_ok (BINARY_ARG_ON_STACK offset) → entered F rs m →
  load m 8 (at_register m BINARY_GP_RBP (argument_offset offset)) = load m0 8 (s - 8 + argument_offset offset).
Proof using Hok Hsp Hlow.
  intros [Hr Hm] He. unfold at_register. rewrite (en_rbp _ _ _ He). pose proof low_range as Hs.
  rewrite u64_id by lia. apply load_ext. intros i Hi. rewrite u64_id by lia. apply (en_above _ _ _ He). lia.
Qed.
(** *** One parameter *)

Section home.
Context (Hframe : frame_ok g context) (Hsaves : saves_ok).

Lemma entered_incl f rs rs' m : rs ⊆ rs' → entered f rs m → entered f rs' m.
Proof. intros Hs [H1 H2 H3 H4 H5 H6]. split; auto. Qed.

Lemma moved_snoc l p :
  moved (l ++ [p]) = moved l ++ match promoted p.1.1 with Some r => [gp_code r] | None => [] end.
Proof. unfold moved. rewrite omap_app. cbn. by destruct (promoted p.1.1). Qed.

Lemma assigned_outside name r : promoted name = Some r → gp_code r ∉ [4; 5]%Z.
Proof.
  intros Hr%assigned_nonvolatile Hin%(bool_decide_eq_true_2 _). by destruct r; vm_compute in Hin, Hr.
Qed.

Lemma homed_snoc l p m :
  homed l m → (∀ c, cell_of g context (Local p.1.1) = Some c → read_cell m c = u64 (value p.1.1)) →
  homed (l ++ [p]) m.
Proof. intros Hl Hp p' c [Hin| ->%list_elem_of_singleton]%elem_of_app; [by apply Hl|apply Hp]. Qed.

Context (l : list parameter) (p : parameter) (todo : list parameter) (Hhomes : homes_ok (l ++ p :: todo)).

Lemma this_in : p ∈ l ++ p :: todo.
Proof. apply elem_of_app. right. left. Qed.

Lemma earlier p' : p' ∈ l →
  p' ∈ l ++ p :: todo ∧ p'.1.1 ≠ p.1.1 ∧ apart (wide (home p'.1.1)) (wide (home p.1.1)) ∧
  ∀ r, promoted p'.1.1 = Some r → p.2 ≠ BINARY_ARG_IN_GP_REGISTER r.
Proof using Hhomes.
  intros Hin. split; [apply elem_of_app; by left|]. apply list_elem_of_lookup in Hin as [k Hk].
  pose proof (lookup_lt_Some _ _ _ Hk). apply (ho_distinct _ Hhomes k (length l)); [done| |].
  - by apply lookup_app_l_Some.
  - by apply list_lookup_middle.
Qed.

Lemma entering_promote F r m m' :
  promoted p.1.1 = Some r → changes [gp_code r] m m' → regs m' r = u64 (value p.1.1) → entering F l m →
  entering F (l ++ [p]) m'.
Proof using Hhomes Hframe.
  intros Hr Hc Hv Hm. destruct (ho_home _ Hhomes p this_in) as [Hrange [c Hcell]].
  assert (0 < home p.1.1)%Z as Hpos by lia. pose proof (local_cell_shape _ _ Hpos Hcell) as Hshape.
  rewrite Hr in Hshape. subst c.
  destruct (entering_change F l m m' (gp_code r) (assigned_outside _ _ Hr) Hc Hm) as (H1 & H2 & H3).
  { intros p' r' Hin Hc' Heq%gp_code_inj. destruct (earlier p' Hin) as (_ & Hne & _).
    refine (cells_apart _ _ Hframe (Local p'.1.1) (Local p.1.1) _ _ _ Hc' Hcell Heq). by intros [= ?]. }
  split_and!; [|done|].
  - rewrite moved_snoc, Hr. eapply entered_incl, H1. intros x [->|Hx]%elem_of_cons; apply elem_of_app; [right; left|by left].
  - apply homed_snoc; [done|]. intros c Hc'. rewrite Hcell in Hc'. by injection Hc' as <-.
Qed.

Lemma entering_spill F m v :
  promoted p.1.1 = None → u64 v = u64 (value p.1.1) → entering F l m →
  entering F (l ++ [p]) (store m 8 (slot_address m (home p.1.1)) v).
Proof using Hhomes Hok Hsp Hlow Hsaves.
  intros Hr Hv Hm. destruct (ho_home _ Hhomes p this_in) as [Hrange [c Hcell]].
  destruct (ho_value _ Hhomes p this_in) as (_ & Ht & Hs64).
  assert (0 < home p.1.1)%Z as Hpos by lia. pose proof (local_cell_shape _ _ Hpos Hcell) as Hshape.
  rewrite Hr in Hshape. subst c.
  destruct (entering_store F l m (home p.1.1) v Hrange Hm Hsaves) as (H1 & H2 & H3 & H4).
  { intros r Hin. by apply (ho_saved _ Hhomes p r this_in). }
  { intros p' Hin. destruct (earlier p' Hin) as (Hin' & _ & Hap & _). split; [apply (ho_home _ Hhomes p' Hin')|].
    cbn [apart wide] in *. lia. }
  split_and!; [|done|].
  - rewrite moved_snoc, Hr, app_nil_r. done.
  - apply homed_snoc; [done|]. intros c Hc'. rewrite Hcell in Hc'. injection Hc' as <-. apply read_home; [|done|done].
    by rewrite H4.
Qed.

(** What the argument's place holds when its turn comes. *)
Lemma argument_register F m r :
  p.2 = BINARY_ARG_IN_GP_REGISTER r → entering F l m → regs m r = u64 (value p.1.1).
Proof using Hhomes.
  intros Hr (He & _ & _). destruct (ho_value _ Hhomes p this_in) as [Ha _].
  pose proof (ho_location _ Hhomes p this_in) as Hl. rewrite Hr in Ha, Hl. rewrite <- Ha.
  apply (en_regs _ _ _ He); [done|]. unfold moved. intros (p' & Hin & Hp')%list_elem_of_omap.
  apply fmap_Some in Hp' as (r' & Hr' & Heq%gp_code_inj). subst r'.
  by apply (proj2 (proj2 (proj2 (earlier p' Hin))) r).
Qed.

Lemma argument_slot F m o :
  p.2 = BINARY_ARG_ON_STACK o → entering F l m →
  load m 8 (at_register m BINARY_GP_RBP (argument_offset o)) = u64 (value p.1.1) ∧ in_int32 (argument_offset o).
Proof using Hhomes Hok Hsp Hlow.
  intros Hr (He & _ & _). destruct (ho_value _ Hhomes p this_in) as [Ha _].
  pose proof (ho_location _ Hhomes p this_in) as Hl. rewrite Hr in Ha, Hl. split.
  - rewrite <- Ha. by apply (load_argument F (moved l)).
  - destruct Hl as [[H1 H2] _]. unfold in_int32. lia.
Qed.

End home.

(** The code of one parameter. *)
Lemma home_parameter_correct F l name type location todo :
  frame_ok g context → saves_ok → homes_ok (l ++ (name, type, location) :: todo) →
  triple (entering F l) (home_parameter g context abi (name, type, location)) (entering F (l ++ [(name, type, location)])).
Proof using Hok Hsp Hlow.
  intros Hframe Hsaves Hhomes. set (p := (name, type, location)) in *.
  destruct (ho_home _ Hhomes p (this_in l p todo)) as [Hrange _]. pose proof (ho_location _ Hhomes p (this_in l p todo)) as Hloc.
  assert (∀ m, entering F l m → machine_ok m) as Hokm by (intros m [He _]; apply He).
  pose proof (entering_promote Hframe l p todo Hhomes F) as Hpromote.
  pose proof (entering_spill Hsaves l p todo Hhomes F) as Hspill.
  pose proof (argument_register l p todo Hhomes F) as Hregister.
  pose proof (argument_slot l p todo Hhomes F) as Hslot.
  subst p. cbn [fst snd] in *. unfold home_parameter. rewrite (proj2 (Z.leb_gt (home name) 0)) by lia.
  destruct location as [r|x|o]; [|done|]; destruct (promoted name) as [q|] eqn:Hq.
  - destruct (yields_mov q r) as (pr & Ha & Hl). exists pr. split; [by apply gasm_emit|]. intros m Hm.
    destruct (Hl m (Hokm m Hm)) as (m' & Hrun & Hc & Hv). exists m'. split; [done|].
    apply (Hpromote q m m'); [done|done| |done]. rewrite Hv. by apply Hregister.
  - destruct (write_slot r (home name) Hrange) as (pr & Hg & Hrun). exists pr. split; [done|]. intros m Hm.
    eexists. split; [apply Hrun, Hokm, Hm|]. apply Hspill; [done| |done].
    rewrite (Hregister m r eq_refl Hm). apply u64_idem.
  - assert (in_int32 (argument_offset o)) as Ho.
    { destruct Hloc as [[H1 H2] _]. unfold in_int32. lia. }
    destruct (yields_load64 q BINARY_GP_RBP (argument_offset o) Ho) as (pr & Ha & Hl). exists pr.
    split; [by apply gasm_emit|]. intros m Hm. destruct (Hl m (Hokm m Hm)) as (m' & Hrun & Hc & Hv). exists m'. split; [done|].
    apply (Hpromote q m m'); [done|done| |done]. rewrite Hv. by apply Hslot.
  - assert (in_int32 (argument_offset o)) as Ho.
    { destruct Hloc as [[H1 H2] _]. unfold in_int32. lia. }
    apply (triple_emit_seq _ (λ m, entering F l m ∧ regs m BINARY_GP_RAX = u64 (value name))).
    + destruct (yields_load64 BINARY_GP_RAX BINARY_GP_RBP (argument_offset o) Ho) as (pr & Ha & Hl). exists pr.
      split; [by apply gasm_emit|]. intros m Hm. destruct (Hl m (Hokm m Hm)) as (m' & Hrun & Hc & Hv). exists m'. split; [done|].
      split; [|rewrite Hv; by apply Hslot].
      destruct (entering_change F l m m' (gp_code BINARY_GP_RAX)) as (H1 & H2 & H3); [|done|done| |].
      { intros Hin%(bool_decide_eq_true_2 _). by vm_compute in Hin. }
      { intros p' r' _ Hc' Heq%gp_code_inj. subst r'.
        by apply local_cell_register, assigned_nonvolatile in Hc'. }
      split_and!; [by apply entered_rax|done..].
    + destruct (write_slot BINARY_GP_RAX (home name) Hrange) as (pr & Hg & Hrun). exists pr. split; [done|]. intros m [Hm Hv].
      eexists. split; [apply Hrun, Hokm, Hm|]. apply Hspill; [done| |done]. rewrite Hv. apply u64_idem.
Qed.

(** All of them. *)
Lemma home_parameters_correct F params :
  frame_ok g context → saves_ok → homes_ok params →
  triple (entering F []) (for_each (home_parameter g context abi) params) (entering F params).
Proof using Hok Hsp Hlow.
  intros Hframe Hsaves Hhomes. apply (for_each_triple (entering F)). intros l [[name type] location] todo ->.
  by apply (home_parameter_correct F l name type location todo).
Qed.

End entry.

(** ** Code generation: end of a function

    The variables where the body starts, and the way back to the caller: the saved
    registers from their slots, the frame released, the return. *)

(** Straight code runs where it is. *)
Lemma codes_leads front bytes back p m m' :
  codes bytes p → X86.run p m = X86.Next m' →
  leads (front ++ bytes ++ back) (Running (Z.of_nat (length front)) m)
    (Running (Z.of_nat (length front + length bytes)) m').
Proof.
  intros Hc. revert front m. induction Hc as [|b i bytes p Hd _ IH]; intros front m Hr; cbn in Hr.
  - injection Hr as ->. cbn. rewrite Nat.add_0_r. apply leads_refl.
  - destruct (exec i m) as [m1| |] eqn:Hx; [|done..]. eapply leads_trans.
    + eapply (leads_next _ front b i); [by rewrite <- app_assoc|done|done].
    + specialize (IH (front ++ b) m1 Hr). rewrite !length_app, <- !app_assoc in IH. rewrite <- !app_assoc, length_app.
      by rewrite Nat.add_assoc.
Qed.

Lemma codes_snoc bytes p i :
  codes bytes (p ++ [i]) →
  ∃ b1 b2, bytes = b1 ++ b2 ∧ codes b1 p ∧ ∀ rest, decode (b2 ++ rest) = Some (i, rest).
Proof.
  revert bytes. induction p as [|j p IH]; intros bytes H; inversion_clear H.
  - inversion_clear H1. exists [], b. split_and!; [by rewrite app_nil_r|constructor|done].
  - destruct (IH _ H1) as (b1 & b2 & -> & Hc & Hd). exists (b ++ b1), b2.
    split_and!; [by rewrite app_assoc|by constructor|done].
Qed.

Section leaving.
Context {M : Machine} (g : CodeGenerator) (context : BinaryFunctionContext) (abi : BinaryAbi).
Context (m0 : machine) (s : Z).
Context (Hok : machine_ok m0) (Hsp : regs m0 BINARY_GP_RSP = s) (Hlow : (2 ^ 31 + 8 <= s)%Z).
Context (value : string → Z) (dead : string → Prop).

Abbreviation entering := (entering g context m0 s value).
Abbreviation slots := (saved_slots context).

(** ** Where the body starts *)

Section arriving.
Context (Hframe : frame_ok g context) (Haliases : symbol_aliases context = []).
Context (F : Z) (params : list ((string * string) * BinaryArgLocation)).
Context (Hhomes : homes_ok g context abi m0 s value params).

(** The arguments, and no temporary. *)
Definition start_state (w : world) : mstate world :=
  mkState ∅ (list_to_map (map (λ p, (p.1.1, value p.1.1)) params)) w.

Lemma entering_represents w m : entering F params m → represents g context dead m (start_state w) m.
Proof using Hlow Hhomes Haliases.
  intros (He & _ & Hh). split.
  - apply He.
  - rewrite (en_rbp _ _ _ _ _ He). lia.
  - done.
  - done.
  - intros n v c _ _ Hv. cbn in Hv. by rewrite lookup_empty in Hv.
  - intros n n' v c _ Hv Hr Hc. rewrite (resolve_self context Haliases) in Hr. injection Hr as <-.
    cbn in Hv. apply elem_of_list_to_map_2, list_elem_of_fmap in Hv as (p & [= -> ->] & Hp). split; [by apply Hh|].
    by apply (ho_value _ _ _ _ _ _ _ Hhomes p Hp).
Qed.
End arriving.

(** ** The way back *)

(** What the rest of the epilogue relies on; the registers [rs] hold the caller's values
    again, and RAX holds [v]. *)
Record leaving (v : Z) (rs : list BinaryGpRegister) (m : machine) : Prop := {
  le_ok : machine_ok m;
  le_rbp : regs m BINARY_GP_RBP = (s - 8)%Z;
  le_rax : regs m BINARY_GP_RAX = v;
  le_slots : saved_at m0 s slots m;
  le_frame : load m 8 (s - 8) = regs m0 BINARY_GP_RBP;
  le_above : ∀ a, (s <= a < 2 ^ 64)%Z → X86.memory m a = X86.memory m0 a;
  le_kept : ∀ r : BinaryGpRegister, code_generator_binary_gp_register_is_win64_nonvolatile r = true →
    r ∈ rs ∨ r ∉ map fst slots → regs m r = regs m0 r }.

Section body_end.
Context (Hframe : frame_ok g context) (Hsaves : saves_ok context).
Context (F : Z) (params : list ((string * string) * BinaryArgLocation)).
Context (Hhomes : homes_ok g context abi m0 s value params).
(** Registers that hold variables are saved, and the slots are outside the cells. *)
Context (Hpromoted : ∀ x q, cell_of g context x = Some (In_register q) → q ∈ map fst slots).
Context (Hslots : ∀ x o n sg r, cell_of g context x = Some (On_stack o n sg) → r ∈ slots →
  apart (On_stack o n sg) (wide (snd r))).

Lemma outside_slot m1 a :
  entering F params m1 → (∀ x o n sg, cell_of g context x = Some (On_stack o n sg) →
    ¬ (s - 8 - o <= a < s - 8 - o + Z.of_nat n)%Z) → ¬ in_slot g context m1 a.
Proof using Hok Hsp Hlow Hframe.
  intros (He & _ & _) Ha (x & o & n & sg & Hc & Hr). apply (Ha x o n sg Hc).
  pose proof (cells_below _ _ Hframe _ _ _ _ Hc).
  by rewrite (entered_slot m0 s Hok Hsp Hlow F (moved g context params) m1 o) in Hr by (done || lia).
Qed.

Lemma body_end m1 st m v :
  entering F params m1 → represents g context dead m1 st m → regs m BINARY_GP_RAX = v → leaving v [] m.
Proof using All.
  intros Hen Hm Hv. pose proof Hen as (He & Hs & _). pose proof (low_range m0 s Hok Hsp) as Hrange.
  assert (∀ a, (s - 8 <= a < 2 ^ 64)%Z → X86.memory m a = X86.memory m1 a) as Htop.
  { intros a Ha. apply (rep_outside _ _ _ _ _ _ _ Hm); [lia|]. apply (outside_slot m1 a Hen).
    intros x o n sg Hc. pose proof (cells_below _ _ Hframe _ _ _ _ Hc). lia. }
  split.
  - apply Hm.
  - rewrite (rep_foreign _ _ _ _ _ _ _ Hm); [apply He|apply rbp_foreign].
  - done.
  - intros r o Hin. rewrite <- (Hs r o Hin). apply load_ext. intros i Hi. apply (rep_outside _ _ _ _ _ _ _ Hm); [apply u64_range|].
    apply (outside_slot m1 _ Hen). intros x o' n sg Hc. pose proof (cells_below _ _ Hframe _ _ _ _ Hc).
    pose proof (sv_range _ Hsaves r o Hin). pose proof (Hslots x o' n sg (r, o) Hc Hin) as Ha. cbn [apart wide snd] in Ha.
    rewrite u64_id by lia. lia.
  - rewrite <- (en_old _ _ _ _ _ He). apply load_ext. intros i Hi. rewrite u64_id by lia. apply Htop. lia.
  - intros a Ha. rewrite Htop by lia. by apply (en_above _ _ _ _ _ He).
  - intros r Hr [?%elem_of_nil|Hns]; [done|].
    assert (foreign g context (gp_code r)) as Hfor.
    { split; [by apply nonvolatile_kept|]. intros x q Hq Heq%gp_code_inj. subst q. by apply Hns, (Hpromoted x). }
    rewrite (rep_foreign _ _ _ _ _ _ _ Hm _ Hfor). apply (en_regs _ _ _ _ _ He).
    + intros Hin%(bool_decide_eq_true_2 _). by destruct r; vm_compute in Hin, Hr.
    + unfold moved. intros (p & Hin & (q & Hq & Heq%gp_code_inj)%fmap_Some)%list_elem_of_omap. subst q.
      destruct (ho_home _ _ _ _ _ _ _ Hhomes p Hin) as [Hh [c Hc]].
      assert (0 < code_generator_binary_get_parameter_offset context p.1.1)%Z as Hpos by lia.
      pose proof (local_cell_shape g context _ _ Hpos Hc) as Hshape. rewrite Hq in Hshape. subst c.
      by apply Hns, (Hpromoted (Local p.1.1)).
Qed.
End body_end.

(** A change of registers other than RAX and the frame's. *)
Lemma leaving_restored v rs m m' (r : BinaryGpRegister) :
  gp_code r ∉ frame_registers → changes [gp_code r] m m' → regs m' r = regs m0 r →
  leaving v rs m → leaving v (rs ++ [r]) m'.
Proof.
  intros Hr (Hmem & Hregs & Hk) Hv [H1 H2 H3 H4 H5 H6 H7]. split.
  - auto.
  - rewrite Hregs; [done|]. intros Heq%list_elem_of_singleton. apply Hr. rewrite <- Heq. right. right. left.
  - rewrite Hregs; [done|]. intros Heq%list_elem_of_singleton. apply Hr. rewrite <- Heq. left.
  - intros q o Hin. rewrite <- (H4 q o Hin). apply load_ext. intros. by rewrite Hmem.
  - rewrite <- H5. apply load_ext. intros. by rewrite Hmem.
  - by rewrite Hmem.
  - intros q Hq Hd. destruct (decide (q = r)) as [->|Hne]; [done|].
    rewrite Hregs by (intros Heq%list_elem_of_singleton%gp_code_inj; done). apply H7; [done|].
    rewrite elem_of_app, list_elem_of_singleton in Hd. tauto.
Qed.

Lemma restores_correct v :
  saves_ok context →
  triple (leaving v []) (for_each (λ p, emit (restore_register p)) (reverse slots))
    (leaving v (map fst (reverse slots))).
Proof using Hok Hsp Hlow.
  intros Hsaves. apply (for_each_triple (λ l, leaving v (map fst l))). intros l [r o] todo Hl.
  assert ((r, o) ∈ slots) as Hin by (rewrite <- elem_of_reverse, Hl; apply elem_of_app; right; left).
  pose proof (sv_range _ Hsaves r o Hin) as Ho. pose proof (low_range m0 s Hok Hsp) as Hrange.
  destruct (yields_load64 r BINARY_GP_RBP (- o)) as (p & Ha & Hp); [unfold in_int32; lia|].
  exists p. split; [by apply gasm_emit|]. intros m Hm. destruct (Hp m (le_ok _ _ _ Hm)) as (m' & Hr & Hc & Hv).
  exists m'. split; [done|]. rewrite map_app. apply (leaving_restored v _ m m' r); [by apply (sv_register _ Hsaves r o)|done| |done].
  rewrite Hv, <- (le_slots _ _ _ Hm r o Hin). f_equal. unfold at_register. rewrite (le_rbp _ _ _ Hm). apply u64_id. lia.
Qed.

(** The machine at the return. *)
Record returning (v : Z) (m : machine) : Prop := {
  re_rax : regs m BINARY_GP_RAX = v;
  re_rsp : regs m BINARY_GP_RSP = s;
  re_rbp : regs m BINARY_GP_RBP = regs m0 BINARY_GP_RBP;
  re_kept : ∀ r : BinaryGpRegister, code_generator_binary_gp_register_is_win64_nonvolatile r = true → regs m r = regs m0 r;
  re_above : ∀ a, (s <= a < 2 ^ 64)%Z → X86.memory m a = X86.memory m0 a }.

Lemma release_frame :
  ∃ p, asm (binary_emit_mov_reg_reg BINARY_GP_RSP BINARY_GP_RBP ;; binary_emit_pop_reg BINARY_GP_RBP ;; binary_emit_ret)
    unit_result (p ++ [RET]) ∧
  ∀ v m, leaving v (map fst (reverse slots)) m → ∃ m', X86.run p m = X86.Next m' ∧ returning v m'.
Proof using Hok Hsp Hlow.
  pose proof (low_range m0 s Hok Hsp) as Hrange.
  exists (mov_program W64 BINARY_GP_RSP BINARY_GP_RBP ++ [POP BINARY_GP_RBP]). split.
  { rewrite <- app_assoc. apply asm_seq; [apply asm_mov|]. apply (asm_seq _ _ [_] [_]); [apply asm_pop|].
    apply encodes_asm, enc_ret. }
  intros v m Hm. destruct (leaves_mov m BINARY_GP_RSP BINARY_GP_RBP (le_ok _ _ _ Hm)) as (m1 & Hr1 & (Hmem1 & Hregs1 & Hk1) & Hv1).
  rewrite (le_rbp _ _ _ Hm) in Hv1. eexists. split; [rewrite run_app, Hr1; reflexivity|].
  change RSP with (gp_code BINARY_GP_RSP). rewrite Hv1. replace (s - 8 + 8)%Z with s by lia.
  assert (load m1 8 (s - 8) = regs m0 BINARY_GP_RBP) as ->.
  { rewrite <- (le_frame _ _ _ Hm). apply load_ext. intros. by rewrite Hmem1. }
  assert (∀ r, r ∉ [4; 5]%Z → regs (set_reg (set_reg m1 W64 (gp_code BINARY_GP_RSP) s) W64 (gp_code BINARY_GP_RBP) (regs m0 BINARY_GP_RBP)) r = regs m r) as Hother.
  { intros r Hr. cbn [regs set_reg set_regs bits]. rewrite !update_other.
    - apply Hregs1. intros ->%list_elem_of_singleton. apply Hr. left.
    - intros ->. apply Hr. left.
    - intros ->. apply Hr. right. left. }
  split.
  - rewrite Hother; [apply Hm|]. intros Hin%(bool_decide_eq_true_2 _). by vm_compute in Hin.
  - cbn [regs set_reg set_regs bits]. rewrite update_other by (intros Heq%gp_code_inj; done). rewrite update_same. apply u64_id. lia.
  - cbn [regs set_reg set_regs bits]. rewrite update_same. apply u64_id, Hok.
  - intros r Hr. rewrite Hother.
    + apply (le_kept _ _ _ Hm r Hr). destruct (decide (r ∈ map fst slots)); [left|by right].
      by rewrite fmap_reverse, elem_of_reverse.
    + intros Hin%(bool_decide_eq_true_2 _). by destruct r; vm_compute in Hin, Hr.
  - intros a Ha. cbn [X86.memory set_reg set_regs]. rewrite Hmem1. by apply (le_above _ _ _ Hm).
Qed.

Lemma epilogue_correct :
  saves_ok context → return_float_bits context = 0%Z →
  ∃ p, gasm (emit_epilogue context) (p ++ [RET]) ∧
    ∀ v m, leaving v [] m → ∃ m', X86.run p m = X86.Next m' ∧ returning v m'.
Proof using Hok Hsp Hlow.
  intros Hsaves Hfloat. destruct release_frame as (p2 & Ha & H2).
  destruct (restores_correct 0 Hsaves) as (p1 & Hg & _). exists (p1 ++ p2). split.
  - rewrite <- app_assoc. apply gasm_seq; [done|]. apply gasm_emit. rewrite Hfloat. cbn [Z.eqb].
    apply (asm_seq _ _ [] (p2 ++ [RET])); [apply asm_ret|]. by apply (asm_seq _ _ [] (p2 ++ [RET])); [apply asm_ret|].
  - intros v m Hm. destruct (restores_correct v Hsaves) as (p1' & Hg' & H1).
    rewrite (gasm_unique _ _ _ Hg Hg'). destruct (H1 m Hm) as (m1 & Hr1 & Hm1).
    destruct (H2 v m1 Hm1) as (m2 & Hr2 & Hm2). exists m2. by rewrite run_app, Hr1.
Qed.

End leaving.
