(* ===== verification/LayoutFacts.v ===== *)
(** * Code generation: the layout of the frame

    What [code_generator_binary_prepare_function_context] promises the emitter: the
    slots of parameters, locals, temporaries and saved registers do not overlap and lie
    inside the frame, no two variables share a register, and every register that holds a
    variable is saved. *)

From stdpp Require Import gmap.
From S2P Require Import Prelude.
From S2P Require Import Types.
From S2P Require Import SymbolTable.
From S2P Require Import Ast.
From S2P Require Import IR.
From S2P Require Import IRSemantics.
From S2P Require Import Encoders.
From S2P Require Import X86.
From S2P Require Import X86Facts.
From S2P Require Import FunctionContext.
From S2P Require Import Frame.
From S2P Require Import FunctionDriver.
From S2P Require Import FrameFacts.
From S2P Require Import PrologueFacts.

Abbreviation offset_of := binary_named_slot_table_get_offset.

(** ** Slot tables *)

(** Each slot is at least eight bytes below the one before it; all are above [lo] and
    not below [hi]. *)
Fixpoint spaced (lo : Z) (t : BinaryNamedSlotTable) (hi : Z) : Prop :=
  match t with
  | [] => (lo <= hi)%Z
  | (n, o) :: t => (lo + 8 <= o)%Z ∧ spaced o t hi
  end.

Lemma spaced_bounds lo t hi : spaced lo t hi → (lo <= hi)%Z.
Proof. revert lo. induction t as [|[n o] t IH]; intros lo; cbn; [done|]. intros [Ho Ht]. specialize (IH o Ht). lia. Qed.

Lemma spaced_weaken lo t hi hi' : (hi <= hi')%Z → spaced lo t hi → spaced lo t hi'.
Proof. intros Hh. revert lo. induction t as [|[n o] t IH]; intros lo; cbn; [lia|]. intros [Ho Ht]. auto. Qed.

Lemma spaced_range lo t hi n : spaced lo t hi → offset_of t n = (-1)%Z ∨ (lo + 8 <= offset_of t n <= hi)%Z.
Proof.
  revert lo. induction t as [|[n' o] t IH]; intros lo; cbn; [by left|]. intros [Ho Ht].
  destruct (String.eqb_spec n' n); [pose proof (spaced_bounds _ _ _ Ht); right; lia|].
  destruct (IH o Ht); [by left|right; lia].
Qed.

Lemma spaced_apart lo t hi n n' :
  (0 <= lo)%Z → spaced lo t hi → n ≠ n' → (0 < offset_of t n)%Z → (0 < offset_of t n')%Z →
  (offset_of t n + 8 <= offset_of t n' ∨ offset_of t n' + 8 <= offset_of t n)%Z.
Proof.
  revert lo. induction t as [|[k o] t IH]; intros lo Hlo; cbn; [lia|]. intros [Ho Ht] Hne.
  destruct (String.eqb_spec k n) as [Hk|], (String.eqb_spec k n') as [Hk'|]; [congruence|..|by apply (IH o); [lia|..]].
  - destruct (spaced_range o t hi n' Ht); lia.
  - destruct (spaced_range o t hi n Ht); lia.
Qed.

Lemma offset_of_snoc t n o n' :
  offset_of (t ++ [(n, o)]) n' = if (0 <=? offset_of t n')%Z then offset_of t n' else
    if existsb (λ p, String.eqb p.1 n') t then offset_of t n' else if String.eqb n n' then o else (-1)%Z.
Proof.
  induction t as [|[k p] t IH]; cbn; [done|]. destruct (String.eqb_spec k n'); cbn; [by destruct (0 <=? p)%Z|apply IH].
Qed.

Lemma spaced_absent lo t hi n : (0 <= lo)%Z → spaced lo t hi → offset_of t n = (-1)%Z → existsb (λ p, String.eqb p.1 n) t = false.
Proof.
  revert lo. induction t as [|[k o] t IH]; intros lo Hlo; cbn; [done|]. intros [Ho Ht].
  destruct (String.eqb_spec k n); cbn; [lia|]. apply (IH o); [lia|done].
Qed.

(** A slot below the others. *)
Lemma spaced_snoc lo t hi n o : spaced lo t hi → (hi + 8 <= o)%Z → spaced lo (t ++ [(n, o)]) o.
Proof.
  revert lo. induction t as [|[k p] t IH]; intros lo; cbn; [intros ? ?; split; lia|]. intros [Hp Ht] Ho. auto.
Qed.

Lemma spaced_add lo t hi n o t' :
  (0 <= lo)%Z → spaced lo t hi → (hi + 8 <= o)%Z → binary_named_slot_table_add t n o = Some t' →
  spaced lo t' o ∧ offset_of t' n = o ∧ ∀ n', (0 <= offset_of t n')%Z → offset_of t' n' = offset_of t n'.
Proof.
  intros Hlo Ht Ho. unfold binary_named_slot_table_add. destruct (Z.leb_spec o 0); [done|].
  destruct (spaced_range lo t hi n Ht) as [Hn|Hn].
  - rewrite Hn. cbn. intros [= <-]. split_and!.
    + by eapply spaced_snoc.
    + rewrite offset_of_snoc, Hn. cbn. by rewrite (spaced_absent lo t hi), String.eqb_refl.
    + intros n' Hn'. rewrite offset_of_snoc. by rewrite (proj2 (Z.leb_le _ _) Hn').
  - rewrite (proj2 (Z.leb_le _ _)) by lia. destruct (Z.eqb_spec (offset_of t n) o); [lia|done].
Qed.

(** ** The passes *)

Definition slots (c : BinaryFunctionContext) := (parameter_slots c, local_slots c, temp_slots c).
Definition held (c : BinaryFunctionContext) := (register_symbols c, saved_registers c).

Lemma mark_float_kept name bits c c' :
  code_generator_binary_mark_float_symbol name bits c = Some c' → slots c' = slots c ∧ held c' = held c.
Proof.
  unfold code_generator_binary_mark_float_symbol. repeat case_match; try done; intros H'; simplify_option_eq; done.
Qed.

Lemma mark_address_kept c i c' : mark_address_taken c i = Some c' → slots c' = slots c ∧ held c' = held c.
Proof. unfold mark_address_taken. intros H. repeat case_match; simplify_option_eq; done. Qed.

Lemma mark_result_kept g c i c' : mark_result g c i = Some c' → slots c' = slots c ∧ held c' = held c.
Proof.
  unfold mark_result. intros H. repeat case_match; simplify_option_eq; try done; by eapply mark_float_kept.
Qed.

Lemma collect_aliases_kept g body rest c c' :
  collect_aliases g body rest c = Some c' → slots c' = slots c ∧ held c' = held c.
Proof.
  revert c. induction rest as [|i rest IH]; intros c; cbn [collect_aliases]; [by intros [= ->]|].
  intros H. repeat case_match; eauto. apply bind_Some in H as (t & _ & H). by destruct (IH _ H).
Qed.

Lemma fold_kept {A} (f : BinaryFunctionContext → A → option BinaryFunctionContext) l c c' :
  (∀ c a c', f c a = Some c' → slots c' = slots c ∧ held c' = held c) →
  fold_option f l c = Some c' → slots c' = slots c ∧ held c' = held c.
Proof.
  intros Hf. apply (fold_option_inv (λ c', slots c' = slots c ∧ held c' = held c)); [done|].
  intros a s s' _ [H1 H2] Hs. destruct (Hf _ _ _ Hs) as [-> ->]. done.
Qed.

(** A table other than the slots may gain an entry. *)
Lemma marked_kept (b : bool) t n o (set : BinaryNamedSlotTable → BinaryFunctionContext → BinaryFunctionContext) c c' :
  (∀ t, slots (set t c) = slots c ∧ held (set t c) = held c) →
  (if b then t' ← binary_named_slot_table_add t n o; Some (set t' c) else Some c) = Some c' →
  slots c' = slots c ∧ held c' = held c.
Proof. intros Hs. destruct b; [intros (t' & _ & [= <-])%bind_Some; apply Hs|by intros [= ->]]. Qed.

Lemma float_kept bits name c c' :
  (if (bits =? 0)%Z then Some c else code_generator_binary_mark_float_symbol name bits c) = Some c' →
  slots c' = slots c ∧ held c' = held c.
Proof. destruct (bits =? 0)%Z; [by intros [= ->]|apply mark_float_kept]. Qed.

(** *** Parameters *)

Lemma place_parameters hidden k ps g c g' c' :
  fold_option (place_parameter hidden) (zip (seq k (length ps)) ps) (g, c) = Some (g', c') →
  spaced 0 (parameter_slots c) (Z.of_nat (k + hidden) * 8) →
  spaced 0 (parameter_slots c') (Z.of_nat (k + length ps + hidden) * 8) ∧
  local_slots c' = local_slots c ∧ temp_slots c' = temp_slots c ∧ held c' = held c ∧
  (∀ n, (0 <= offset_of (parameter_slots c) n)%Z → offset_of (parameter_slots c') n = offset_of (parameter_slots c) n) ∧
  ∀ i p, ps !! i = Some p → offset_of (parameter_slots c') p.1 = (Z.of_nat (k + i + 1 + hidden) * 8)%Z.
Proof.
  revert k g c. induction ps as [|[name type] ps IH]; intros k g c; cbn [length seq zip zip_with fold_option].
  { intros [= <- <-] Hs. rewrite Nat.add_0_r. by split_and!. }
  intros ([g1 c1] & H1 & H2)%bind_Some Hs. unfold place_parameter in H1.
  apply bind_Some in H1 as (t & Ht & H1). apply bind_Some in H1 as (c2 & Hc2 & H1). apply bind_Some in H1 as (c3 & Hc3 & [= <- <-]).
  assert (Z.of_nat (k + hidden) * 8 + 8 <= Z.of_nat (k + 1 + hidden) * BINARY_FUNCTION_STACK_SLOT_SIZE)%Z as Hnext
    by (unfold BINARY_FUNCTION_STACK_SLOT_SIZE; lia).
  destruct (spaced_add _ _ _ _ _ _ (Z.le_refl 0) Hs Hnext Ht) as (Hs' & Hname & Hkeep).
  assert (slots c3 = slots (set_parameter_slots t c) ∧ held c3 = held (set_parameter_slots t c)) as [Hsl Hh].
  { apply float_kept in Hc3 as [-> ->]. by eapply marked_kept, Hc2. }
  unfold slots, held in Hsl, Hh. cbn in Hsl, Hh. injection Hsl as Hp Hl Htm. injection Hh as Hr Hsv.
  destruct (IH (S k) _ c3 H2) as (I1 & I2 & I3 & I4 & I5 & I6).
  { rewrite Hp. eapply spaced_weaken, Hs'. unfold BINARY_FUNCTION_STACK_SLOT_SIZE. lia. }
  rewrite I2, I3, I4. split_and!; [|done|done|by unfold held; rewrite Hr, Hsv| |].
  - by replace (k + S (length ps) + hidden) with (S k + length ps + hidden) by lia.
  - intros n Hn. rewrite I5; rewrite Hp, Hkeep; done.
  - intros [|i] p Hi; cbn in Hi.
    + injection Hi as <-. cbn. rewrite I5; rewrite Hp, Hname; unfold BINARY_FUNCTION_STACK_SLOT_SIZE; lia.
    + rewrite (I6 i p Hi). lia.
Qed.

(** *** Locals and temporaries *)

(** A declaration takes at least the eight bytes of a scalar. *)
Definition declares_scalar (g : CodeGenerator) (i : IRInstruction) : bool :=
  if bool_decide (op i = IR_OP_DECLARE_LOCAL) then
    match t ← named_type g (text i); local_storage t with
    | Some (_, storage) => (8 <=? storage)%Z
    | None => true
    end
  else true.

Lemma align_up_ge v a v' : binary_align_up_int v a = Some v' → (v <= v')%Z ∧ (0 <= v)%Z ∧ (v' <= INT_MAX ∨ v' = v)%Z.
Proof.
  unfold binary_align_up_int, INT_MAX. destruct (Z.ltb_spec v 0), (Z.leb_spec a 0); try done; cbn [orb].
  pose proof (Z.rem_bound_pos v a ltac:(lia) ltac:(lia)). destruct (Z.eqb_spec (Z.rem v a) 0); [intros [= <-]; lia|].
  destruct (Z.ltb_spec (2147483647 - (a - Z.rem v a)) v); [done|]. intros [= <-]. lia.
Qed.

Lemma align_up_mod v a v' : binary_align_up_int v a = Some v' → (v' mod a = 0)%Z.
Proof.
  unfold binary_align_up_int. destruct (Z.ltb_spec v 0), (Z.leb_spec a 0); try done; cbn [orb].
  rewrite Z.rem_mod_nonneg by lia. destruct (Z.eqb_spec (v mod a) 0); [by intros [= <-]|].
  destruct (_ <? v)%Z; [done|]. intros [= <-]. pose proof (Z.div_mod v a ltac:(lia)) as Hd.
  replace (v + (a - v mod a))%Z with ((v / a + 1) * a)%Z by lia. by apply Z_mod_mult.
Qed.

(** The locals placed so far; their slots are spaced where each takes a whole one. *)
Definition locals_ok (c0 : BinaryFunctionContext) (scalars : bool) (P : Z) (s : locals) : Prop :=
  (0 <= storage_size_total s)%Z ∧
  (scalars = true → spaced P (local_slots (placed_in s)) (P + storage_size_total s)) ∧
  parameter_slots (placed_in s) = parameter_slots c0 ∧ temp_slots (placed_in s) = temp_slots c0 ∧
  held (placed_in s) = held c0.

Lemma locals_ok_slots c0 scalars P c c' total n n' :
  slots c' = slots c → held c' = held c →
  locals_ok c0 scalars P (mkLocals c total n) → locals_ok c0 scalars P (mkLocals c' total n').
Proof. intros [= Hp Hl Ht] Hh. unfold locals_ok. cbn. by rewrite Hp, Hl, Ht, Hh. Qed.

Lemma local_storage_positive t al storage : local_storage t = Some (al, storage) → (0 < storage)%Z.
Proof. unfold local_storage. match goal with |- context [(?s <=? 0)%Z] => destruct (Z.leb_spec s 0) end; [done|]. by intros [= _ <-]. Qed.

Lemma place_local_ok g c0 scalars P s i s' :
  (0 <= P)%Z → (scalars = true → declares_scalar g i = true) → locals_ok c0 scalars P s →
  place_local g P s i = Some s' → locals_ok c0 scalars P s'.
Proof.
  intros HP Hsc Hs Hpl. unfold place_local in Hpl. unfold declares_scalar in Hsc. destruct s as [c total count]. cbn in Hpl.
  destruct (decide (op i = IR_OP_DECLARE_LOCAL)) as [Hop|Hop]; [rewrite Hop in Hpl|by destruct (op i) in Hop, Hpl; simplify_eq].
  rewrite bool_decide_true in Hsc by done.
  apply bind_Some in Hpl as (name & Hn & Hpl). apply bind_Some in Hpl as (Hne & _ & Hpl).
  apply bind_Some in Hpl as (type & Ht & Hpl). apply bind_Some in Hpl as (_ & _ & Hpl). apply bind_Some in Hpl as (_ & _ & Hpl).
  apply bind_Some in Hpl as ([al storage] & Hst & Hpl). rewrite Ht in Hsc. cbn in Hsc. rewrite Hst in Hsc.
  pose proof (local_storage_positive _ _ _ Hst).
  destruct (0 <? offset_of (local_slots c) name)%Z.
  { apply bind_Some in Hpl as (c' & Hc' & [= <-]). apply float_kept in Hc' as [H1 H2]. by eapply locals_ok_slots. }
  apply bind_Some in Hpl as (aligned & Hal & Hpl). apply bind_Some in Hpl as (_ & _ & Hpl). apply bind_Some in Hpl as (_ & _ & Hpl).
  apply bind_Some in Hpl as (t & Hadd & Hpl). apply bind_Some in Hpl as (c1 & Hc1 & Hpl).
  apply bind_Some in Hpl as (c2 & Hc2 & Hpl). apply bind_Some in Hpl as (c3 & Hc3 & [= <-]).
  destruct Hs as (Htot & Hsp & Hp & Htm & Hh). cbn in Htot, Hsp, Hp, Htm, Hh. apply align_up_ge in Hal as (Hal & _ & _).
  apply float_kept in Hc3 as [H3 K3]. apply marked_kept in Hc2 as [H2 K2]; [|done]. apply marked_kept in Hc1 as [H1 K1]; [|done].
  apply (locals_ok_slots _ _ _ (set_local_slots t c) c3 _ (S count)); [by rewrite H3, H2, H1|by rewrite K3, K2, K1|].
  split_and!; cbn; [lia| |done..]. intros Hall. specialize (Hsp Hall). specialize (Hsc Hall). apply Z.leb_le in Hsc.
  eapply (spaced_add P (local_slots c)); [done|exact Hsp| |exact Hadd]. lia.
Qed.

(** The temporaries placed so far, after the slots that end at [base]. *)
Definition temps_ok (c0 : BinaryFunctionContext) (base : Z) (s : BinaryFunctionContext * nat) : Prop :=
  spaced base (temp_slots s.1) (base + Z.of_nat s.2 * 8) ∧
  parameter_slots s.1 = parameter_slots c0 ∧ local_slots s.1 = local_slots c0 ∧ held s.1 = held c0.

Lemma place_temp_ok c0 base s i s' : (0 <= base)%Z → temps_ok c0 base s → place_temp base s i = Some s' → temps_ok c0 base s'.
Proof.
  intros Hb Hs. unfold place_temp. destruct s as [c count]. destruct (temp_name (dest i)) as [n|]; [|by intros [= <-]].
  destruct (in_table (temp_slots c) n); [by intros [= <-]|].
  intros (_ & _ & (t & Hadd & [= <-])%bind_Some)%bind_Some. destruct Hs as (Hsp & Hp & Hl & Hh). cbn in *.
  assert (base + Z.of_nat count * 8 + 8 <= base + Z.of_nat (S count) * BINARY_FUNCTION_STACK_SLOT_SIZE)%Z as Hnext
    by (unfold BINARY_FUNCTION_STACK_SLOT_SIZE; lia).
  destruct (spaced_add _ _ _ _ _ _ Hb Hsp Hnext Hadd) as (Hsp' & _ & _). by split_and!.
Qed.

(** *** Blocks *)

(** The bytes kept for something: a block [(o, n)] covers the [n] bytes from [o] bytes
    below the frame pointer upwards. *)
Abbreviation block := (Z * Z)%type.

Definition disjoint_blocks (b b' : block) : Prop := (b.1 <= b'.1 - b'.2 ∨ b'.1 <= b.1 - b.2)%Z.

(** The first declaration of a name: a name declared again keeps its slot. *)
Definition declares (n : string) (i : IRInstruction) : bool :=
  bool_decide (op i = IR_OP_DECLARE_LOCAL) && is_name n (symbol_name (dest i)).
Definition first_declaration (body : code) (n : string) : option IRInstruction := find (declares n) body.

(** The bytes a local of type [t] needs: those of its type, or a whole slot for what the
    emitter moves in a register. *)
Definition room (t : Type_) : Z :=
  if code_generator_binary_resolved_type_is_stack_scalar (Some t) ||
     code_generator_binary_type_is_direct_aggregate (Some t) then 8 else Types.size t.

(** The sizes of what the calls of a body return by address, in order. *)
Definition returned_size (g : CodeGenerator) (i : IRInstruction) : option Z :=
  match op i, text i with
  | IR_OP_CALL, Some callee =>
      let type := callee_return_type g (lookup_symbol g callee) in
      if bool_decide (code_generator_abi_classify type = ABI_PASS_INDIRECT)
      then Some (code_generator_abi_type_size type) else None
  | _, _ => None
  end.
Definition returned_sizes (g : CodeGenerator) (body : code) : list Z := omap (returned_size g) body.

(** Sizes below 2^31: a larger one does not survive the conversion to [int]. *)
Definition sizes_fit (g : CodeGenerator) (i : IRInstruction) : bool :=
  (if bool_decide (op i = IR_OP_DECLARE_LOCAL) then
     match named_type g (text i) with Some t => (0 <=? Types.size t)%Z && (Types.size t <? 2 ^ 31)%Z | None => true end
   else true) &&
  match returned_size g i with Some n => (0 <=? n)%Z && (n <=? 2 ^ 31 - 16)%Z | None => true end.

Lemma find_snoc {A} (f : A → bool) l x :
  find f (l ++ [x]) = match find f l with Some y => Some y | None => if f x then Some x else None end.
Proof. induction l as [|y l IH]; simpl; [done|]. by destruct (f y). Qed.

Lemma local_storage_room t al storage :
  (0 <= Types.size t < 2 ^ 31)%Z → local_storage t = Some (al, storage) → storage = room t ∧ (0 < storage)%Z.
Proof.
  intros Hs. unfold local_storage, room. destruct (_ || _).
  - intros [= _ <-]. unfold BINARY_FUNCTION_STACK_SLOT_SIZE. lia.
  - rewrite (wrap_s_id 32 (Types.size t)) by lia. destruct (Z.leb_spec (Types.size t) 0); [done|]. intros [= _ <-]. lia.
Qed.

(** The locals declared in [body], between [P] and [T]. *)
Record locals_placed (g : CodeGenerator) (body : code) (t : BinaryNamedSlotTable) (P T : Z) : Prop := {
  lp_order : (P <= T)%Z;
  lp_positive : Forall (λ p, 0 < snd p)%Z t;
  lp_absent : ∀ n, first_declaration body n = None → offset_of t n = (-1)%Z;
  lp_typed : ∀ n i, first_declaration body n = Some i → is_Some (named_type g (text i));
  lp_range : ∀ n i type, first_declaration body n = Some i → named_type g (text i) = Some type →
    (0 < room type ∧ P <= offset_of t n - room type ∧ offset_of t n <= T)%Z;
  lp_apart : ∀ n n' i i' type type', n ≠ n' →
    first_declaration body n = Some i → named_type g (text i) = Some type →
    first_declaration body n' = Some i' → named_type g (text i') = Some type' →
    disjoint_blocks (offset_of t n, room type) (offset_of t n', room type') }.
Arguments lp_order {_ _ _ _ _} _.
Arguments lp_positive {_ _ _ _ _} _.
Arguments lp_absent {_ _ _ _ _} _.
Arguments lp_typed {_ _ _ _ _} _.
Arguments lp_range {_ _ _ _ _} _.
Arguments lp_apart {_ _ _ _ _} _.

Lemma declares_here n i name : op i = IR_OP_DECLARE_LOCAL → symbol_name (dest i) = Some name → declares n i = String.eqb name n.
Proof. intros Hop Hn. unfold declares. by rewrite Hop, Hn. Qed.

(** A table of positive offsets. *)
Lemma positive_offset t n : Forall (λ p, 0 < snd p)%Z t → offset_of t n = (-1)%Z ∨ (0 < offset_of t n)%Z.
Proof. induction 1 as [|[k o] t Ho _ IH]; cbn; [by left|]. destruct (String.eqb k n); [by right|done]. Qed.

Lemma positive_absent t n : Forall (λ p, 0 < snd p)%Z t → offset_of t n = (-1)%Z → existsb (λ p, String.eqb p.1 n) t = false.
Proof. induction 1 as [|[k o] t Ho _ IH]; cbn in *; [done|]. destruct (String.eqb k n); cbn; [lia|done]. Qed.

Lemma positive_add t name o t' :
  Forall (λ p, 0 < snd p)%Z t → offset_of t name = (-1)%Z → binary_named_slot_table_add t name o = Some t' →
  Forall (λ p, 0 < snd p)%Z t' ∧ offset_of t' name = o ∧ ∀ n, n ≠ name → offset_of t' n = offset_of t n.
Proof.
  intros Ht Habs. unfold binary_named_slot_table_add. destruct (Z.leb_spec o 0); [done|]. rewrite Habs. cbn. intros [= <-].
  split_and!.
  - apply Forall_app. split; [done|]. by repeat constructor.
  - by rewrite offset_of_snoc, Habs, (positive_absent t name), String.eqb_refl.
  - intros n Hn. rewrite offset_of_snoc. destruct (Z.leb_spec 0 (offset_of t n)); [done|].
    destruct (positive_offset t n Ht) as [Hn1|]; [|lia]. rewrite (positive_absent t n), Hn1 by done.
    by rewrite (proj2 (String.eqb_neq name n)).
Qed.

Lemma first_declaration_snoc body i n :
  first_declaration (body ++ [i]) n =
    match first_declaration body n with Some j => Some j | None => if declares n i then Some i else None end.
Proof. apply find_snoc. Qed.

(** The state is about the first declarations only. *)
Lemma locals_placed_ext g body body' t P T :
  (∀ n, first_declaration body' n = first_declaration body n) → locals_placed g body t P T → locals_placed g body' t P T.
Proof.
  intros Hf [L1 L2 L3 L4 L5 L6]. split; [done|done|..]; intros n; rewrite Hf; [apply L3|apply L4|apply L5|].
  intros n'. rewrite Hf. apply L6.
Qed.

Lemma local_placed g body t P T i name type o t' :
  (0 <= P)%Z → locals_placed g body t P T → op i = IR_OP_DECLARE_LOCAL → symbol_name (dest i) = Some name →
  named_type g (text i) = Some type → (0 < room type)%Z → (T + room type <= o)%Z → offset_of t name = (-1)%Z →
  binary_named_slot_table_add t name o = Some t' → locals_placed g (body ++ [i]) t' P o.
Proof.
  intros HP [L1 L2 L3 L4 L5 L6] Hop Hn Ht Hpos Ho Habs Hadd. destruct (positive_add _ _ _ _ L2 Habs Hadd) as (Hp & Ho1 & Ho2).
  assert (first_declaration body name = None) as Hnone.
  { destruct (first_declaration body name) as [j|] eqn:Hf; [|done]. destruct (L4 name j Hf) as [u Hu].
    pose proof (L5 name j u Hf Hu). lia. }
  assert (∀ n j, first_declaration (body ++ [i]) n = Some j →
    (n = name ∧ j = i ∧ offset_of t' n = o) ∨ (n ≠ name ∧ first_declaration body n = Some j ∧ offset_of t' n = offset_of t n)) as Hcase.
  { intros n j. rewrite first_declaration_snoc, (declares_here n i name) by done. destruct (String.eqb_spec name n) as [->|Hne].
    - rewrite Hnone. intros [= <-]. by left.
    - destruct (first_declaration body n) eqn:Hf; [|done]. intros [= <-]. right. split_and!; [congruence|done|]. apply Ho2. congruence. }
  split; [lia|done|..].
  - intros n. rewrite first_declaration_snoc, (declares_here n i name) by done. destruct (first_declaration body n) eqn:Hf; [done|].
    destruct (String.eqb_spec name n); [done|]. intros _. rewrite Ho2 by congruence. by apply L3.
  - intros n j [(-> & -> & _)|(_ & Hf & _)]%Hcase; [by rewrite Ht|by eapply L4].
  - intros n j u [(-> & -> & ->)|(_ & Hf & ->)]%Hcase Hu.
    + rewrite Ht in Hu. injection Hu as <-. lia.
    + pose proof (L5 n j u Hf Hu). lia.
  - intros n n' j j' u u' Hne Hj Hu Hj' Hu'. unfold disjoint_blocks. cbn.
    destruct (Hcase n j Hj) as [(-> & -> & ->)|(_ & Hf & ->)], (Hcase n' j' Hj') as [(-> & -> & ->)|(_ & Hf' & ->)].
    + done.
    + pose proof (L5 n' j' u' Hf' Hu'). rewrite Ht in Hu. injection Hu as <-. lia.
    + pose proof (L5 n j u Hf Hu). rewrite Ht in Hu'. injection Hu' as <-. lia.
    + by apply (L6 n n' j j').
Qed.

Lemma place_local_placed g P body s i s' :
  (0 <= P)%Z → sizes_fit g i = true →
  locals_placed g body (local_slots (placed_in s)) P (P + storage_size_total s) → place_local g P s i = Some s' →
  locals_placed g (body ++ [i]) (local_slots (placed_in s')) P (P + storage_size_total s').
Proof.
  intros HP Hfit Hs Hpl. unfold place_local in Hpl. destruct s as [c total count]. cbn in Hpl, Hs.
  destruct (decide (op i = IR_OP_DECLARE_LOCAL)) as [Hop|Hop].
  2: { assert (mkLocals c total count = s') as <- by (by destruct (op i) in Hop, Hpl; simplify_eq). cbn.
       eapply locals_placed_ext, Hs. intros n. rewrite first_declaration_snoc. unfold declares. rewrite bool_decide_false by done.
       by destruct (first_declaration body n). }
  rewrite Hop in Hpl.
  apply bind_Some in Hpl as (name & Hn & Hpl). apply bind_Some in Hpl as (_ & _ & Hpl).
  apply bind_Some in Hpl as (type & Ht & Hpl). apply bind_Some in Hpl as (_ & _ & Hpl). apply bind_Some in Hpl as (_ & _ & Hpl).
  apply bind_Some in Hpl as ([al storage] & Hst & Hpl).
  unfold sizes_fit in Hfit. rewrite bool_decide_true, Ht in Hfit by done.
  apply andb_true_iff in Hfit as [[H0%Z.leb_le H31%Z.ltb_lt]%andb_true_iff _].
  apply local_storage_room in Hst as [-> Hroom]; [|lia].
  destruct (Z.ltb_spec 0 (offset_of (local_slots c) name)) as [Hpos|Hneg].
  - apply bind_Some in Hpl as (c' & Hc' & [= <-]). apply float_kept in Hc' as [[= _ Hl _] _]. cbn. rewrite Hl.
    eapply locals_placed_ext, Hs. intros n. rewrite first_declaration_snoc, (declares_here n i name) by done.
    destruct (first_declaration body n) eqn:Hf; [done|]. apply (lp_absent Hs) in Hf.
    destruct (String.eqb_spec name n); [subst; lia|done].
  - apply bind_Some in Hpl as (aligned & Hal & Hpl). apply bind_Some in Hpl as (_ & _ & Hpl). apply bind_Some in Hpl as (_ & _ & Hpl).
    apply bind_Some in Hpl as (t & Hadd & Hpl). apply bind_Some in Hpl as (c1 & Hc1 & Hpl).
    apply bind_Some in Hpl as (c2 & Hc2 & Hpl). apply bind_Some in Hpl as (c3 & Hc3 & [= <-]).
    apply align_up_ge in Hal as (Hal & _ & _). apply float_kept in Hc3 as [H3 _].
    apply marked_kept in Hc2 as [H2 _]; [|done]. apply marked_kept in Hc1 as [H1 _]; [|done].
    rewrite H2, H1 in H3. injection H3 as _ Hl _. cbn. rewrite Hl.
    destruct (positive_offset _ name (lp_positive Hs)) as [Habs|]; [|lia].
    eapply local_placed; [done|exact Hs|done..| |done|done]. lia.
Qed.

(** Every temporary written is in the table. *)
Lemma place_temp_placed base body s i s' :
  (0 <= base)%Z → spaced base (temp_slots s.1) (base + Z.of_nat s.2 * 8) →
  (∀ j n, j ∈ body → temp_name (dest j) = Some n → (0 <= offset_of (temp_slots s.1) n)%Z) →
  place_temp base s i = Some s' →
  ∀ j n, j ∈ body ++ [i] → temp_name (dest j) = Some n → (0 <= offset_of (temp_slots s'.1) n)%Z.
Proof.
  intros Hb Hsp Hold Hpl. destruct s as [c count]. unfold place_temp in Hpl. cbn in *.
  destruct (temp_name (dest i)) as [name|] eqn:Hname; [destruct (in_table (temp_slots c) name) eqn:Hin|].
  - injection Hpl as <-. intros j n [Hj| ->%list_elem_of_singleton]%elem_of_app Hn; [by apply (Hold j)|].
    unfold in_table in Hin. apply Z.leb_le in Hin. cbn. congruence.
  - apply bind_Some in Hpl as (_ & _ & (t & Hadd & [= <-])%bind_Some).
    assert (base + Z.of_nat count * 8 + 8 <= base + Z.of_nat (S count) * BINARY_FUNCTION_STACK_SLOT_SIZE)%Z as Hnext
      by (unfold BINARY_FUNCTION_STACK_SLOT_SIZE; lia).
    destruct (spaced_add _ _ _ _ _ _ Hb Hsp Hnext Hadd) as (_ & Hnew & Hkeep). cbn.
    intros j n [Hj| ->%list_elem_of_singleton]%elem_of_app Hn.
    + specialize (Hold j n Hj Hn). by rewrite Hkeep.
    + rewrite Hname in Hn. injection Hn as ->. rewrite Hnew. unfold BINARY_FUNCTION_STACK_SLOT_SIZE. lia.
  - injection Hpl as <-. intros j n [Hj| ->%list_elem_of_singleton]%elem_of_app Hn; [by apply (Hold j)|congruence].
Qed.

(** *** What calls return by address *)

Lemma round_up_16 n :
  (0 <= n <= 2 ^ 31 - 16)%Z →
  (n <= s32 (Z.land (u64 (n + 15)) (u64 (Z.lnot 15))))%Z.
Proof.
  intros Hn. rewrite (wrap_u_id 64) by lia. change (u64 (Z.lnot 15)) with (Z.ldiff (Z.ones 64) (Z.ones 4)).
  assert (Z.land (n + 15) (Z.ldiff (Z.ones 64) (Z.ones 4)) = Z.ldiff (n + 15) (Z.ones 4)) as ->.
  { rewrite !Z.ldiff_land, Z.land_assoc, (Z.land_ones (n + 15)), (Z.mod_small (n + 15)) by lia. done. }
  rewrite Z.ldiff_ones_r, Z.shiftr_div_pow2, Z.shiftl_mul_pow2 by lia. change (2 ^ 4)%Z with 16%Z.
  pose proof (Z.div_mod (n + 15) 16 ltac:(lia)) as Hd. pose proof (Z.mod_pos_bound (n + 15) 16 ltac:(lia)).
  rewrite (wrap_s_id 32) by lia. lia.
Qed.

(** The slots of the calls of [body], above [base] and up to [total] below it, in the order
    of the calls. *)
Record returns_placed (g : CodeGenerator) (body : code) (offsets : list Z) (base total : Z) : Prop := {
  rp_order : (0 <= total)%Z;
  rp_count : length offsets = length (returned_sizes g body);
  rp_range : ∀ k o n, offsets !! k = Some o → returned_sizes g body !! k = Some n →
    (base <= o - n ∧ o <= base + total)%Z;
  rp_apart : ∀ k k' o o' n n', k ≠ k' → offsets !! k = Some o → offsets !! k' = Some o' →
    returned_sizes g body !! k = Some n → returned_sizes g body !! k' = Some n' →
    disjoint_blocks (o, n) (o', n') }.
Arguments rp_order {_ _ _ _ _} _.
Arguments rp_count {_ _ _ _ _} _.
Arguments rp_range {_ _ _ _ _} _.
Arguments rp_apart {_ _ _ _ _} _.

Lemma return_slot_placed g base body s i s' :
  sizes_fit g i = true → returns_placed g body s.1 base s.2 → return_slot g base s i = Some s' →
  returns_placed g (body ++ [i]) s'.1 base s'.2.
Proof.
  intros Hfit Hs Hpl. destruct s as [offsets total]. cbn in Hs.
  assert (returned_sizes g (body ++ [i]) = returned_sizes g body ++ (if returned_size g i is Some n then [n] else [])) as Happ
    by (unfold returned_sizes; rewrite omap_app; simpl; by destruct (returned_size g i)).
  unfold sizes_fit in Hfit. apply andb_true_iff in Hfit as [_ Hfit]. unfold return_slot in Hpl.
  assert (returned_size g i = None → Some (offsets, total) = Some s' → returns_placed g (body ++ [i]) s'.1 base s'.2) as Hnone.
  { intros Hn [= <-]. rewrite Hn, app_nil_r in Happ. destruct Hs. split; rewrite ?Happ; done. }
  unfold returned_size in Hfit, Happ, Hnone. destruct (op i); try (by apply Hnone). destruct (text i) as [callee|]; [|by apply Hnone].
  case_bool_decide; [|by apply Hnone]. clear Hnone.
  set (n := code_generator_abi_type_size _) in *. apply andb_true_iff in Hfit as [Hn1%Z.leb_le Hn2%Z.leb_le].
  pose proof (round_up_16 n ltac:(lia)) as Hup. set (bytes := s32 _) in *.
  apply bind_Some in Hpl as (o & Ho & [= <-]). unfold int in Ho. apply bind_Some in Ho as (_ & _ & [= <-]). cbn.
  destruct Hs as [R1 R2 R3 R4].
  assert (∀ k o m, (offsets ++ [base + total + bytes])%Z !! k = Some o → returned_sizes g (body ++ [i]) !! k = Some m →
    (k < length offsets ∧ offsets !! k = Some o ∧ returned_sizes g body !! k = Some m) ∨
    (k = length offsets ∧ o = base + total + bytes ∧ m = n)%Z) as Hcase.
  { intros k o m Hk Hm. rewrite Happ in Hm. apply lookup_app_Some in Hk as [Hk|[Hk1 Hk]].
    - left. pose proof (lookup_lt_Some _ _ _ Hk). rewrite lookup_app_l in Hm by lia. done.
    - right. apply list_lookup_singleton_Some in Hk as [Hk <-]. rewrite lookup_app_r in Hm by lia.
      rewrite <- R2, Hk in Hm. injection Hm as <-. split_and!; [lia|done|done]. }
  split.
  - lia.
  - rewrite Happ, !length_app. cbn. lia.
  - intros k o m Hk Hm. destruct (Hcase k o m Hk Hm) as [(_ & Hk' & Hm')|(_ & -> & ->)]; [|lia].
    pose proof (R3 k o m Hk' Hm'). lia.
  - intros k k' o o' m m' Hne Hk Hk' Hm Hm'. unfold disjoint_blocks. cbn.
    destruct (Hcase k o m Hk Hm) as [(Hlt & Hl & Hr)|(-> & -> & ->)], (Hcase k' o' m' Hk' Hm') as [(Hlt' & Hl' & Hr')|(Heq & -> & ->)].
    + by apply (R4 k k').
    + pose proof (R3 k o m Hl Hr). lia.
    + pose proof (R3 k' o' m' Hl' Hr'). lia.
    + congruence.
Qed.

(** *** The loops *)

Lemma locals_folded g c P body s :
  (0 <= P)%Z → local_slots c = [] → temp_slots c = [] → fold_option (place_local g P) body (mkLocals c 0 0) = Some s →
  locals_ok c (forallb (declares_scalar g) body) P s ∧
  (forallb (sizes_fit g) body = true → locals_placed g body (local_slots (placed_in s)) P (P + storage_size_total s)).
Proof.
  intros HP Hl Ht Hf. split.
  - revert Hf. apply fold_option_inv.
    + split_and!; cbn; [done| |done..]. intros _. rewrite Hl. cbn. lia.
    + intros i s1 s2 Hi Hs Hs'. eapply place_local_ok, Hs'; [done| |done].
      intros Hsc. rewrite forallb_forall in Hsc. by apply Hsc, list_elem_of_In.
  - intros Hfit. revert Hf. apply (fold_option_ind (λ done s,
      locals_placed g done (local_slots (placed_in s)) P (P + storage_size_total s))).
    + cbn. rewrite Hl. split; try done. lia.
    + intros done_ i s1 s2 Hi Hs. apply place_local_placed; [done| |done].
      rewrite forallb_forall in Hfit. by apply Hfit, list_elem_of_In.
Qed.

Lemma temps_folded base body c c' count :
  (0 <= base)%Z → temp_slots c = [] → fold_option (place_temp base) body (c, 0) = Some (c', count) →
  temps_ok c base (c', count) ∧
  ∀ i n, i ∈ body → temp_name (dest i) = Some n → (0 <= offset_of (temp_slots c') n)%Z.
Proof.
  intros Hb Ht. apply (fold_option_ind (λ done s, temps_ok c base s ∧
    ∀ i n, i ∈ done → temp_name (dest i) = Some n → (0 <= offset_of (temp_slots s.1) n)%Z)).
  - split; [|by intros i n ?%elem_of_nil]. split_and!; cbn; [|done..]. rewrite Ht. cbn. lia.
  - intros done_ i s1 s2 Hi [Hs Hold] Hpl. split; [by eapply place_temp_ok|].
    eapply place_temp_placed; [done|apply Hs|done..].
Qed.

Lemma returns_folded g base body s :
  forallb (sizes_fit g) body = true → fold_option (return_slot g base) body ([], 0%Z) = Some s →
  returns_placed g body s.1 base s.2.
Proof.
  intros Hfit. apply (fold_option_ind (λ done s, returns_placed g done s.1 base s.2)).
  - split; cbn; done.
  - intros done_ i s1 s2 Hi. apply return_slot_placed. rewrite forallb_forall in Hfit. by apply Hfit, list_elem_of_In.
Qed.

(** *** Registers *)

Abbreviation nonvolatile := code_generator_binary_gp_register_is_win64_nonvolatile.

(** The names' registers are among [used], no two the same, and saved. *)
Record registers_ok (used : list BinaryGpRegister) (c : BinaryFunctionContext) : Prop := {
  rg_used : ∀ z, z ∈ map snd (register_symbols c) → ∃ r : BinaryGpRegister, r ∈ used ∧ r ∈ saved_registers c ∧ z = gp_code r;
  rg_distinct : NoDup (map snd (register_symbols c));
  rg_nodup : NoDup (saved_registers c);
  rg_nonvolatile : ∀ r, r ∈ saved_registers c → nonvolatile r = true }.

Lemma add_saved_spec c r c' :
  code_generator_binary_context_add_saved_register c r = Some c' →
  slots c' = slots c ∧ register_symbols c' = register_symbols c ∧
  (saved_registers c' = saved_registers c ∧ r ∈ saved_registers c ∨
   saved_registers c' = saved_registers c ++ [r] ∧ r ∉ saved_registers c).
Proof.
  unfold code_generator_binary_context_add_saved_register. destruct (existsb _ _) eqn:He.
  - intros [= <-]. split_and!; [done|done|]. left. split; [done|].
    apply existsb_exists in He as (q & Hq%list_elem_of_In & Heq%Z.eqb_eq%gp_code_inj). by subst q.
  - destruct (7 <=? _); [done|]. intros [= <-]. split_and!; [done|done|]. right. split; [done|].
    intros Hin. assert (existsb (λ q : BinaryGpRegister, (gp_code q =? gp_code r)%Z) (saved_registers c) = true) as Hex.
    { apply existsb_exists. exists r. split; [by apply list_elem_of_In|apply Z.eqb_refl]. }
    by rewrite Hex in He.
Qed.

Lemma add_saved_ok used c r c' :
  nonvolatile r = true → registers_ok used c → code_generator_binary_context_add_saved_register c r = Some c' →
  registers_ok used c' ∧ slots c' = slots c ∧ r ∈ saved_registers c' ∧ ∀ q, q ∈ saved_registers c → q ∈ saved_registers c'.
Proof.
  intros Hr [H1 H2 H3 H4] Ha. apply add_saved_spec in Ha as (Hs & Hreg & [[Hsv Hin]|[Hsv Hin]]).
  - split_and!; [|done|by rewrite Hsv|by rewrite Hsv]. split; rewrite ?Hreg, ?Hsv; done.
  - split_and!; [|done|rewrite Hsv; apply elem_of_app; right; left|intros q Hq; rewrite Hsv; apply elem_of_app; by left].
    split; rewrite ?Hreg, ?Hsv; [|done| |].
    + intros z Hz. destruct (H1 z Hz) as (q & Hq & Hs' & ->). exists q. split_and!; [done|apply elem_of_app; by left|done].
    + apply NoDup_app. split_and!; [done| |apply NoDup_singleton]. intros q Hq ->%list_elem_of_singleton. done.
    + intros q [Hq| ->%list_elem_of_singleton]%elem_of_app; auto.
Qed.

Lemma promote_ok used c name r c' :
  nonvolatile r = true → r ∉ used → code_generator_binary_symbol_already_promoted c name = false →
  registers_ok used c → promote c name r = Some c' → registers_ok (r :: used) c' ∧ slots c' = slots c.
Proof.
  intros Hr Hu Hn [H1 H2 H3 H4] (t & Ht & Ha)%bind_Some.
  unfold code_generator_binary_symbol_already_promoted, in_table in Hn. apply Z.leb_gt in Hn.
  unfold binary_named_slot_table_add in Ht. destruct (Z.leb_spec (gp_code r) 0); [done|].
  rewrite (proj2 (Z.leb_gt 0 _)) in Ht by done. injection Ht as <-.
  apply add_saved_spec in Ha as (Hs & Hreg & Hsv). cbn in Hreg, Hsv. split; [|by rewrite Hs].
  assert (r ∈ saved_registers c' ∧ (∀ q, q ∈ saved_registers c → q ∈ saved_registers c') ∧ NoDup (saved_registers c') ∧
          ∀ q, q ∈ saved_registers c' → nonvolatile q = true) as (S1 & S2 & S3 & S4).
  { destruct Hsv as [[-> Hin]|[-> Hin]]; [done|]. split_and!.
    - apply elem_of_app. right. left.
    - intros q Hq. apply elem_of_app. by left.
    - apply NoDup_app. split_and!; [done| |apply NoDup_singleton]. by intros q Hq ->%list_elem_of_singleton.
    - intros q [Hq| ->%list_elem_of_singleton]%elem_of_app; auto. }
  split; [| |done|done]; rewrite Hreg, map_app; cbn.
  - intros z [Hz| ->%list_elem_of_singleton]%elem_of_app.
    + destruct (H1 z Hz) as (q & Hq & Hs' & ->). exists q. split_and!; [by right|auto|done].
    + exists r. split_and!; [left|done|done].
  - apply NoDup_app. split_and!; [done| |apply NoDup_singleton]. intros z Hz ->%list_elem_of_singleton.
    destruct (H1 _ Hz) as (q & Hq & _ & Heq%gp_code_inj). by subst q.
Qed.

Lemma foldl_inv {A B} (P : B → Prop) (f : B → A → B) l b : P b → (∀ b a, P b → P (f b a)) → P (foldl f b l).
Proof. intros Hb Hf. revert b Hb. induction l as [|a l IH]; intros b Hb; cbn; [done|]. auto. Qed.

Section promotion.
Context (g : CodeGenerator) (body : code).

Lemma unplaced_spec c name : unplaced c name = true → code_generator_binary_symbol_already_promoted c name = false.
Proof. unfold unplaced. by destruct (code_generator_binary_symbol_already_promoted c name). Qed.

(** The state while the operands of pointer steps are promoted. *)
Definition steps_ok (registers : list BinaryGpRegister) (c0 : BinaryFunctionContext)
    (s : option (BinaryFunctionContext * nat)) : Prop :=
  ∀ c n, s = Some (c, n) → registers_ok (take n registers) c ∧ slots c = slots c0.

Lemma promote_operand_ok registers c0 i s x :
  NoDup registers → (∀ r, r ∈ registers → nonvolatile r = true) →
  steps_ok registers c0 s → steps_ok registers c0 (promote_operand g i registers s x).
Proof.
  intros Hnd Hnv Hs c' n' H. unfold promote_operand in H. apply bind_Some in H as ([c n] & -> & H).
  destruct (Hs c n eq_refl) as [Hr Hsl]. destruct (registers !! n) as [r|] eqn:Hn; [|by injection H as <- <-].
  destruct (symbol_name x.2) as [name|]; [|by injection H as <- <-].
  match type of H with (if ?b then _ else _) = _ => destruct b eqn:Hb end; [|by injection H as <- <-].
  apply bind_Some in H as (c1 & Hp & [= <- <-]). apply andb_true_iff in Hb as [[Hu _]%andb_true_iff _].
  destruct (promote_ok (take n registers) c name r c1) as [Hr1 Hs1]; [|..|done|exact Hp|].
  - apply Hnv. by eapply list_elem_of_lookup_2.
  - intros Hin. apply elem_of_take in Hin as (k & Hk & Hlt). pose proof (NoDup_lookup _ _ _ _ Hnd Hk Hn). lia.
  - by apply unplaced_spec.
  - split; [|by rewrite Hs1]. destruct Hr1 as [U1 U2 U3 U4]. split; [|done..]. intros z Hz.
    destruct (U1 z Hz) as (q & Hq & ? & ?). exists q. split; [|done]. rewrite (take_S_r _ _ _ Hn).
    apply elem_of_app. apply elem_of_cons in Hq as [->|?]; [right; left|by left].
Qed.

Lemma promote_steps_ok registers c c' n :
  NoDup registers → (∀ r, r ∈ registers → nonvolatile r = true) → registers_ok [] c →
  promote_steps g body registers c = Some (c', n) → registers_ok (take n registers) c' ∧ slots c' = slots c.
Proof.
  intros Hnd Hnv Hc H. assert (steps_ok registers c (promote_steps g body registers c)) as Hs; [|by apply Hs].
  unfold promote_steps. apply foldl_inv; [by intros c1 n1 [= <- <-]|]. intros s i Hs. case_match; [|done].
  apply foldl_inv; [done|]. intros. by apply promote_operand_ok.
Qed.

Lemma better_unplaced c weights best l :
  (∀ name, fst best = Some name → unplaced c name = true) →
  ∀ name, fst (foldl (better g body c weights) best l) = Some name → unplaced c name = true.
Proof.
  intros Hb. apply (foldl_inv (λ best, ∀ name, fst best = Some name → unplaced c name = true)); [done|].
  intros b [name type] IH name'. unfold better. match goal with |- context [if ?b then _ else _] => destruct b eqn:Hu end; [|apply IH].
  case_match; [|apply IH]. cbn. intros [= <-]. by apply andb_true_iff in Hu as [? _].
Qed.

Lemma promote_best_ok parameters registers weights used c c' :
  NoDup registers → (∀ r, r ∈ registers → nonvolatile r = true ∧ r ∉ used) → registers_ok used c →
  promote_best g body parameters registers weights c = Some c' → (∃ used', registers_ok used' c') ∧ slots c' = slots c.
Proof.
  revert used c. induction registers as [|r registers IH]; intros used c Hnd Hin Hc; cbn [promote_best].
  { intros [= <-]. eauto. }
  match goal with |- context [fst ?b] => pose (best := b) end. intros H. fold best in H.
  destruct (fst best) as [name|] eqn:Hbest; [|injection H as <-; eauto]. destruct (snd best <? 2)%Z; [injection H as <-; eauto|].
  assert (unplaced c name = true) as Hu.
  { assert (∀ name, fst (None : option string, 0%Z) = Some name → unplaced c name = true) as Hnone by done.
    revert Hbest. unfold best. case_match; [|by apply better_unplaced].
    apply better_unplaced. by apply better_unplaced. }
  apply bind_Some in H as (c1 & Hp & H). apply NoDup_cons in Hnd as [Hr Hnd].
  destruct (Hin r) as [Hnv Hnu]; [left|]. destruct (promote_ok used c name r c1) as [Hc1 Hs1]; [done|done|by apply unplaced_spec|done|done|].
  destruct (IH (r :: used) c1 Hnd) as [He Hs]; [|done|exact H|by rewrite Hs].
  intros q Hq. destruct (Hin q) as [? ?]; [by right|]. split; [done|]. intros [->|?]%elem_of_cons; done.
Qed.

Lemma promotion_registers_ok r : r ∈ promotion_registers → nonvolatile r = true.
Proof. intros Hin%(bool_decide_eq_true_2 _). by destruct r; vm_compute in Hin. Qed.

Lemma promote_hot_ok c c' :
  registers_ok [] c → code_generator_binary_promote_hot_symbols g body c = Some c' →
  (∃ used, registers_ok used c') ∧ slots c' = slots c.
Proof.
  intros Hc H. unfold code_generator_binary_promote_hot_symbols in H.
  match type of H with context [if ?b then promotion_registers else take 5 promotion_registers] =>
    set (registers := if b then promotion_registers else take 5 promotion_registers) in H end.
  assert (NoDup registers ∧ ∀ r, r ∈ registers → nonvolatile r = true) as [Hnd Hnv].
  { unfold registers. destruct (code_generator_binary_function_can_promote_rsi_rdi _ _ _).
    - split; [apply (bool_decide_unpack _); vm_compute; exact I|apply promotion_registers_ok].
    - split; [apply (bool_decide_unpack _); vm_compute; exact I|].
      intros r Hr. apply promotion_registers_ok. by eapply subseteq_take. }
  apply bind_Some in H as ([c1 n] & H1 & H).
  assert (registers_ok (take n registers) c1 ∧ slots c1 = slots c) as [Hr1 Hs1].
  { destruct (code_generator_binary_function_has_calls body); [injection H1 as <- <-; split; [exact Hc|done]|by eapply promote_steps_ok]. }
  rewrite <- Hs1. eapply promote_best_ok; [..|exact Hr1|exact H].
  - rewrite <- (take_drop n registers) in Hnd. by apply NoDup_app in Hnd as (_ & _ & Hd).
  - intros r Hr. split; [apply Hnv; by eapply subseteq_drop|].
    rewrite <- (take_drop n registers) in Hnd. apply NoDup_app in Hnd as (_ & Hd & _). intros Hin. by apply (Hd r).
Qed.

Lemma save_registers_ok names used c c' :
  registers_ok used c → fold_option (save_register_of g) names c = Some c' → registers_ok used c' ∧ slots c' = slots c.
Proof.
  intros Hc. apply (fold_option_inv (λ c', registers_ok used c' ∧ slots c' = slots c)); [done|].
  intros name s s' _ [Hs Hsl]. unfold save_register_of.
  destruct (code_generator_binary_symbol_assigned_register g s name) as [r|] eqn:Hr; [|by intros [= <-]].
  intros Ha. destruct (add_saved_ok used s r s') as (H1 & H2 & _); [by eapply assigned_nonvolatile|done|done|].
  by rewrite H2.
Qed.

End promotion.

(** ** The frame *)

Section layout.
Context {M : Machine}.

(** No symbol was given a register by an earlier pass. *)
Definition no_register_symbols (g : CodeGenerator) : Prop :=
  ∀ n s, lookup_symbol g n = Some s → is_in_register (SymbolTable.variable s) = false.

Definition slot_of (c : BinaryFunctionContext) (x : variable) : Z :=
  match x with Temp n => offset_of (temp_slots c) n | Local n => code_generator_binary_get_symbol_offset c n end.

(** The zones of the frame, from the frame pointer down. *)
Record zones (c : BinaryFunctionContext) (P T U : Z) : Prop := {
  zn_parameters : spaced 0 (parameter_slots c) P;
  zn_locals : spaced P (local_slots c) T;
  zn_temps : spaced T (temp_slots c) U }.

Lemma zones_slot c P T U x : zones c P T U → (0 < slot_of c x)%Z → (8 <= slot_of c x <= U)%Z.
Proof.
  intros [H1 H2 H3]. pose proof (spaced_bounds _ _ _ H1). pose proof (spaced_bounds _ _ _ H2). pose proof (spaced_bounds _ _ _ H3).
  destruct x as [n|n]; cbn; [destruct (spaced_range _ _ _ n H3); lia|].
  unfold code_generator_binary_get_symbol_offset, code_generator_binary_get_parameter_offset, code_generator_binary_get_local_offset.
  destruct (spaced_range _ _ _ n H1), (spaced_range _ _ _ n H2), (0 <? offset_of (parameter_slots c) n)%Z eqn:?; lia.
Qed.

Lemma zones_apart c P T U x y :
  zones c P T U → x ≠ y → (0 < slot_of c x)%Z → (0 < slot_of c y)%Z →
  (slot_of c x + 8 <= slot_of c y ∨ slot_of c y + 8 <= slot_of c x)%Z.
Proof.
  intros [H1 H2 H3]. pose proof (spaced_bounds _ _ _ H1). pose proof (spaced_bounds _ _ _ H2). pose proof (spaced_bounds _ _ _ H3).
  destruct x as [n|n], y as [n'|n']; cbn; intros Hne.
  - apply (spaced_apart T _ U); [lia|done|congruence].
  - unfold code_generator_binary_get_symbol_offset, code_generator_binary_get_parameter_offset, code_generator_binary_get_local_offset.
    destruct (spaced_range _ _ _ n H3), (spaced_range _ _ _ n' H1), (spaced_range _ _ _ n' H2), (0 <? offset_of (parameter_slots c) n')%Z eqn:?; lia.
  - unfold code_generator_binary_get_symbol_offset, code_generator_binary_get_parameter_offset, code_generator_binary_get_local_offset.
    destruct (spaced_range _ _ _ n' H3), (spaced_range _ _ _ n H1), (spaced_range _ _ _ n H2), (0 <? offset_of (parameter_slots c) n)%Z eqn:?; lia.
  - assert (n ≠ n') as Hn by congruence.
    unfold code_generator_binary_get_symbol_offset, code_generator_binary_get_parameter_offset, code_generator_binary_get_local_offset.
    destruct (spaced_range _ _ _ n H1), (spaced_range _ _ _ n H2), (spaced_range _ _ _ n' H1), (spaced_range _ _ _ n' H2),
      (Z.ltb_spec 0 (offset_of (parameter_slots c) n)), (Z.ltb_spec 0 (offset_of (parameter_slots c) n')); try lia.
    all: intros; first [by apply (spaced_apart 0 _ P)|apply (spaced_apart P _ T); done || lia].
Qed.

Lemma cell_slot g c x o n sg :
  cell_of g c x = Some (On_stack o n sg) → o = slot_of c x ∧ (0 < slot_of c x)%Z ∧ n ≤ 8.
Proof.
  destruct x as [k|k]; cbn.
  - unfold code_generator_binary_get_temp_offset. destruct (Z.leb_spec (offset_of (temp_slots c) k) 0); [done|].
    intros [= <- <- <-]. done.
  - unfold local_cell. intros H. repeat case_match; simplify_eq.
    split_and!; [done| |apply access_size_bounds].
    match goal with H : (_ <=? 0)%Z = false |- _ => apply Z.leb_gt in H; exact H end.
Qed.

Lemma register_of_code z r : register_of z = Some r → gp_code r = z.
Proof. unfold register_of. intros [_ H]%find_some. by apply Z.eqb_eq in H. Qed.

Lemma assigned_table g c name r :
  no_register_symbols g → code_generator_binary_symbol_assigned_register g c name = Some r →
  offset_of (register_symbols c) name = gp_code r ∧ (0 <= gp_code r)%Z.
Proof.
  intros Hno. unfold code_generator_binary_symbol_assigned_register.
  destruct (in_table _ _); [done|]. destruct (_ <=? 0)%Z; [done|].
  match goal with |- (if ?b then _ else _) = _ → _ => destruct b end; [done|].
  match goal with |- match ?x with _ => _ end = _ → _ => destruct x as [q|] eqn:Hq end.
  - intros [= ->]. apply bind_Some in Hq as (q & Hq & Hg). apply bind_Some in Hg as (_ & _ & [= ->]).
    destruct (Z.leb_spec 0 (offset_of (register_symbols c) name)); [|done].
    pose proof (register_of_code _ _ Hq) as Hc. split; lia.
  - intros (s & Hs & (t & _ & (Hr & _ & _)%bind_Some)%bind_Some)%bind_Some.
    rewrite (Hno _ _ Hs) in Hr. by apply Is_true_true in Hr.
Qed.

Lemma offset_in t n : (0 <= offset_of t n)%Z → offset_of t n ∈ map snd t.
Proof.
  induction t as [|[k o] t IH]; cbn; [lia|]. destruct (String.eqb k n); [left|]. intros H. right. auto.
Qed.

Lemma offset_distinct t n n' :
  NoDup (map snd t) → n ≠ n' → (0 <= offset_of t n)%Z → offset_of t n ≠ offset_of t n'.
Proof.
  induction t as [|[k o] t IH]; cbn; [lia|]. intros [Ho Hnd]%NoDup_cons Hne.
  destruct (String.eqb_spec k n) as [Hk|], (String.eqb_spec k n') as [Hk'|]; [congruence|..|by apply IH].
  - intros Hpos He. apply Ho. rewrite He. apply offset_in. by rewrite <- He.
  - intros Hpos He. apply Ho. rewrite <- He. by apply offset_in.
Qed.

(** What the emitter relies on. *)
Record layout_ok (g : CodeGenerator) (c : BinaryFunctionContext) (parameters : list (string * string)) : Prop := {
  ly_frame : frame_ok g c;
  ly_size : (0 <= frame_size c < 2 ^ 31)%Z ∧ (frame_size c mod 16 = 0)%Z;
  ly_inside : ∀ x o n sg, cell_of g c x = Some (On_stack o n sg) → (o <= frame_size c)%Z;
  ly_saves : saves_ok c;
  ly_saved_inside : ∀ r, r ∈ saved_slots c → (snd r <= frame_size c)%Z;
  ly_saved : ∀ x q, cell_of g c x = Some (In_register q) → q ∈ map fst (saved_slots c);
  ly_slots : ∀ x o n sg r, cell_of g c x = Some (On_stack o n sg) → r ∈ saved_slots c →
    apart (On_stack o n sg) (wide (snd r));
  ly_homes : ∃ hidden : nat, ∀ i p, parameters !! i = Some p →
    code_generator_binary_get_parameter_offset c p.1 = (Z.of_nat (i + 1 + hidden) * 8)%Z;
  ly_homes_inside : ∀ p, p ∈ parameters → (code_generator_binary_get_parameter_offset c p.1 <= frame_size c)%Z;
  ly_homes_saved : ∀ p r, p ∈ parameters → r ∈ saved_slots c →
    apart (wide (code_generator_binary_get_parameter_offset c p.1)) (wide (snd r)) }.

(** Zones, registers and the slots of the saved registers below the zones make a layout. *)
Lemma layout_of_zones g c parameters P T U used k F (hidden : nat) :
  no_register_symbols g → zones c P T U → registers_ok used c → (U <= k)%Z →
  saved_register_offsets c = map (λ i, k + Z.of_nat (i + 1) * 8)%Z (seq 0 (length (saved_registers c))) →
  (k + Z.of_nat (length (saved_registers c)) * 8 <= F < 2 ^ 31)%Z → frame_size c = F → (F mod 16 = 0)%Z →
  (∀ i p, parameters !! i = Some p →
     code_generator_binary_get_parameter_offset c p.1 = (Z.of_nat (i + 1 + hidden) * 8)%Z) →
  layout_ok g c parameters.
Proof.
  intros Hno Hz Hr Hk Hoff HF Hsize Hmod Hhomes.
  assert (∀ r o, (r, o) ∈ saved_slots c → ∃ i, saved_slots c !! i = Some (r, o) ∧ r ∈ saved_registers c ∧
    o = (k + Z.of_nat (i + 1) * 8)%Z ∧ (i < length (saved_registers c))) as Hslot.
  { intros r o (i & Hi)%list_elem_of_lookup. exists i. split; [done|]. unfold saved_slots in Hi.
    apply lookup_zip_Some in Hi as [Hi1 Hi2]. rewrite Hoff, list_lookup_fmap in Hi2.
    pose proof (lookup_lt_Some _ _ _ Hi1). rewrite lookup_seq_lt in Hi2 by done. injection Hi2 as <-.
    split_and!; [by eapply list_elem_of_lookup_2|done|done]. }
  assert (map fst (saved_slots c) = saved_registers c) as Hfst.
  { unfold saved_slots. apply fst_zip. rewrite Hoff, length_map, length_seq. done. }
  pose proof (spaced_bounds _ _ _ (zn_parameters _ _ _ _ Hz)). pose proof (spaced_bounds _ _ _ (zn_locals _ _ _ _ Hz)).
  pose proof (spaced_bounds _ _ _ (zn_temps _ _ _ _ Hz)).
  assert (∀ x o n sg, cell_of g c x = Some (On_stack o n sg) → (8 <= o <= U ∧ Z.of_nat n <= 8)%Z) as Hcell.
  { intros x o n sg (-> & Hpos & Hn)%cell_slot. pose proof (zones_slot _ _ _ _ _ Hz Hpos). lia. }
  assert (∀ x q, cell_of g c x = Some (In_register q) → ∃ n, x = Local n ∧ offset_of (register_symbols c) n = gp_code q ∧ (0 <= gp_code q)%Z) as Hreg.
  { intros [n|n] q Hc; [cbn in Hc; by case_match|]. exists n. split; [done|].
    apply (assigned_table g); [done|]. by apply local_cell_register. }
  split.
  - split.
    + intros x y [q|o n sg] [q'|o' n' sg'] Hne Hx Hy; [|done|done|].
      * destruct (Hreg x q Hx) as (nx & -> & Ha1 & Ha2), (Hreg y q' Hy) as (ny & -> & Ha3 & Ha4). intros ->.
        apply (offset_distinct (register_symbols c) nx ny); [apply Hr|congruence|lia|lia].
      * apply (cell_slot g c) in Hx as (-> & Hpx & Hnx). apply (cell_slot g c) in Hy as (-> & Hpy & Hny).
        destruct (zones_apart _ _ _ _ x y Hz Hne Hpx Hpy); cbn; lia.
    + intros x o n sg Hx. destruct (Hcell x o n sg Hx). lia.
  - rewrite Hsize. split; [lia|done].
  - intros x o n sg Hx. destruct (Hcell x o n sg Hx). lia.
  - split.
    + intros r o Hin. destruct (Hslot r o Hin) as (i & _ & Hs & _). pose proof (rg_nonvolatile _ _ Hr r Hs) as Hnv.
      intros Hf%(bool_decide_eq_true_2 _). by destruct r; vm_compute in Hf, Hnv.
    + intros r o Hin. destruct (Hslot r o Hin) as (i & _ & _ & -> & Hi). lia.
    + rewrite Hfst. apply Hr.
    + intros i j [r o] [r' o'] Hne Hi Hj. unfold saved_slots in Hi, Hj.
      apply lookup_zip_Some in Hi as [Hi1 Hi2]. apply lookup_zip_Some in Hj as [Hj1 Hj2].
      pose proof (lookup_lt_Some _ _ _ Hi1). pose proof (lookup_lt_Some _ _ _ Hj1).
      rewrite Hoff, list_lookup_fmap, lookup_seq_lt in Hi2 by done. rewrite Hoff, list_lookup_fmap, lookup_seq_lt in Hj2 by done.
      injection Hi2 as <-. injection Hj2 as <-. cbn. lia.
  - intros [r o] Hin. destruct (Hslot r o Hin) as (i & _ & _ & -> & Hi). cbn. lia.
  - intros x q Hq. rewrite Hfst. destruct (Hreg x q Hq) as (n & -> & Ha1 & Ha2).
    destruct (rg_used _ _ Hr (gp_code q)) as (q' & _ & Hs & Heq%gp_code_inj); [rewrite <- Ha1; apply offset_in; lia|by subst q'].
  - intros x o n sg [r o'] Hx Hin. destruct (Hslot r o' Hin) as (i & _ & _ & -> & Hi). destruct (Hcell x o n sg Hx). cbn. lia.
  - by exists hidden.
  - intros p Hin. pose proof (spaced_range _ _ _ p.1 (zn_parameters _ _ _ _ Hz)) as Hrange.
    unfold code_generator_binary_get_parameter_offset. lia.
  - intros p [r o'] (i & Hp)%list_elem_of_lookup Hin. destruct (Hslot r o' Hin) as (j & _ & _ & -> & Hj).
    pose proof (spaced_range _ _ _ p.1 (zn_parameters _ _ _ _ Hz)) as Hrange. pose proof (Hhomes i p Hp) as Hh.
    unfold code_generator_binary_get_parameter_offset in *. cbn. lia.
Qed.

(** *** The whole frame *)

Definition returns_by_address (g : CodeGenerator) (data : FunctionDeclaration ASTNode) : bool :=
  bool_decide (code_generator_abi_classify
    (match fd_return_type data with
     | Some t => code_generator_binary_get_resolved_type g (Some t) true
     | None => None
     end) = ABI_PASS_INDIRECT).

(** The zones from the frame pointer down: parameters to [P], locals to [T], temporaries to
    [U], what calls return by address from [base] on, and the saved registers. *)
Record frame_shape (g g' : CodeGenerator) (data : FunctionDeclaration ASTNode) (body : code)
    (c : BinaryFunctionContext) (hidden : nat) (P T U base total : Z) (used : list BinaryGpRegister) : Prop := {
  sh_hidden : hidden = if returns_by_address g data then 1 else 0;
  sh_home : P = (Z.of_nat (length (fd_parameters data) + hidden) * 8)%Z;
  sh_parameters : spaced 0 (parameter_slots c) P;
  sh_homes : ∀ i p, fd_parameters data !! i = Some p →
    code_generator_binary_get_parameter_offset c p.1 = (Z.of_nat (i + 1 + hidden) * 8)%Z;
  sh_order : (P <= T)%Z;
  sh_locals : forallb (sizes_fit g') body = true → locals_placed g' body (local_slots c) P T;
  sh_scalars : forallb (declares_scalar g') body = true → spaced P (local_slots c) T;
  sh_temps : spaced T (temp_slots c) U;
  sh_written : ∀ i n, i ∈ body → temp_name (dest i) = Some n → (0 <= offset_of (temp_slots c) n)%Z;
  sh_below : (U <= base)%Z;
  sh_returns : forallb (sizes_fit g') body = true →
    returns_placed g' body (indirect_return_slot_offsets c) base total;
  sh_registers : registers_ok used c;
  sh_saved : saved_register_offsets c =
    map (λ i, base + total + Z.of_nat (i + 1) * 8)%Z (seq 0 (length (saved_registers c)));
  sh_size : (base + total + Z.of_nat (length (saved_registers c)) * 8 <= frame_size c < 2 ^ 31)%Z;
  sh_aligned : (frame_size c mod 16 = 0)%Z }.
Arguments sh_hidden {_ _ _ _ _ _ _ _ _ _ _ _} _.
Arguments sh_home {_ _ _ _ _ _ _ _ _ _ _ _} _.
Arguments sh_parameters {_ _ _ _ _ _ _ _ _ _ _ _} _.
Arguments sh_homes {_ _ _ _ _ _ _ _ _ _ _ _} _.
Arguments sh_order {_ _ _ _ _ _ _ _ _ _ _ _} _.
Arguments sh_locals {_ _ _ _ _ _ _ _ _ _ _ _} _.
Arguments sh_scalars {_ _ _ _ _ _ _ _ _ _ _ _} _.
Arguments sh_temps {_ _ _ _ _ _ _ _ _ _ _ _} _.
Arguments sh_written {_ _ _ _ _ _ _ _ _ _ _ _} _.
Arguments sh_below {_ _ _ _ _ _ _ _ _ _ _ _} _.
Arguments sh_returns {_ _ _ _ _ _ _ _ _ _ _ _} _.
Arguments sh_registers {_ _ _ _ _ _ _ _ _ _ _ _} _.
Arguments sh_saved {_ _ _ _ _ _ _ _ _ _ _ _} _.
Arguments sh_size {_ _ _ _ _ _ _ _ _ _ _ _} _.
Arguments sh_aligned {_ _ _ _ _ _ _ _ _ _ _ _} _.

Lemma prepare_shape g data body g' c :
  code_generator_binary_prepare_function_context g data body = Some (g', c) →
  ∃ hidden P T U base total used, frame_shape g g' data body c hidden P T U base total used.
Proof.
  intros Hp. unfold code_generator_binary_prepare_function_context in Hp.
  set (hidden := if bool_decide _ then 1 else 0) in Hp. set (c0 := empty_context _ _ _ _ _) in Hp.
  apply bind_Some in Hp as (_ & _ & Hp). apply bind_Some in Hp as (c1 & H1 & Hp). apply bind_Some in Hp as (_ & _ & Hp).
  apply bind_Some in Hp as ([g2 c2] & H2 & Hp). apply bind_Some in Hp as (s & H3 & Hp).
  apply bind_Some in Hp as ([c4 count] & H4 & Hp). apply bind_Some in Hp as (c5 & H5 & Hp).
  apply bind_Some in Hp as (c6 & H6 & Hp). apply bind_Some in Hp as (c7 & H7 & Hp). apply bind_Some in Hp as (c8 & H8 & Hp).
  apply bind_Some in Hp as (c9 & H9 & Hp). apply bind_Some in Hp as (home & H10 & Hp).
  apply bind_Some in Hp as (_ & _ & Hp). apply bind_Some in Hp as (_ & _ & Hp).
  apply bind_Some in Hp as ([slots_ total] & H11 & Hp). apply bind_Some in Hp as (raw & H12 & Hp).
  apply bind_Some in Hp as (F & H13 & [= <- <-]).
  set (P := (Z.of_nat (length (fd_parameters data) + hidden) * BINARY_FUNCTION_STACK_SLOT_SIZE)%Z) in *.
  assert (0 <= P)%Z as HP by (unfold P, BINARY_FUNCTION_STACK_SLOT_SIZE; lia).
  assert (slots c1 = slots c0 ∧ held c1 = held c0) as [S1 K1] by (eapply fold_kept, H1; apply mark_address_kept).
  injection S1 as S1p S1l S1t. apply place_parameters in H2 as (Z2 & S2l & S2t & K2 & _ & Hhomes); [|rewrite S1p; cbn; lia].
  rewrite S1l in S2l. rewrite S1t in S2t.
  destruct (locals_folded g2 c2 P body s HP S2l S2t H3) as ((Htotal & Z3 & S3p & S3t & K3) & Hplaced).
  set (T := (P + storage_size_total s)%Z) in *.
  destruct (temps_folded T body (placed_in s) c4 count ltac:(unfold T; lia) (eq_trans S3t S2t) H4) as ((Z4 & S4p & S4l & K4) & Hwritten).
  cbn in Z4, S4p, S4l, K4, Hwritten.
  assert (slots c5 = slots c4 ∧ held c5 = held c4) as [S5 K5] by (eapply fold_kept, H5; apply mark_result_kept).
  apply collect_aliases_kept in H6 as [S6 K6].
  assert (registers_ok [] c6) as Hr6.
  { rewrite K5, K4, K3, K2, K1 in K6. injection K6 as K6r K6s. split; rewrite ?K6r, ?K6s; cbn; try constructor; by intros ? ?%elem_of_nil. }
  apply (promote_hot_ok g2 body c6 c7 Hr6) in H7 as [[used Hr7] S7]. apply (save_registers_ok g2 _ used) in H8 as [Hr8 S8]; [|done].
  apply (save_registers_ok g2 _ used) in H9 as [Hr9 S9]; [|done]. rewrite S8, S7, S6, S5 in S9. injection S9 as S9p S9l S9t.
  apply align_up_ge in H10 as (Hhome & _).
  unfold int in H12. apply bind_Some in H12 as (Hraw & _ & [= <-]). pose proof (align_up_mod _ _ _ H13) as Hmod.
  apply align_up_ge in H13 as (Hraw1 & Hraw2 & Hraw3). unfold INT_MAX, BINARY_FUNCTION_STACK_SLOT_SIZE in *.
  exists hidden, P, T, (T + Z.of_nat count * 8)%Z, (P + home + Z.of_nat count * 8)%Z, total, used. split; cbn; try done.
  - by rewrite S9p, S4p, S3p.
  - intros i p Hi. unfold code_generator_binary_get_parameter_offset. cbn. rewrite S9p, S4p, S3p. by apply Hhomes.
  - unfold T. lia.
  - rewrite S9l, S4l. exact Hplaced.
  - by rewrite S9l, S4l.
  - by rewrite S9t.
  - by rewrite S9t.
  - unfold T. lia.
  - intros Hfit. by apply (returns_folded g2 _ body (slots_, total)).
  - by destruct Hr9.
  - lia.
Qed.

(** What has bytes of its own in the frame. *)
Inductive resident : Type :=
  | Hidden_pointer | Home (n : string) | Declared (n : string) | Temporary (n : string)
  | Call_result (call : nat) | Saved (r : BinaryGpRegister).

Inductive occupies (g g' : CodeGenerator) (data : FunctionDeclaration ASTNode) (body : code)
    (c : BinaryFunctionContext) : resident → block → Prop :=
  | occupies_hidden : returns_by_address g data = true → occupies g g' data body c Hidden_pointer (8, 8)%Z
  | occupies_parameter p : p ∈ fd_parameters data →
      occupies g g' data body c (Home p.1) (code_generator_binary_get_parameter_offset c p.1, 8)%Z
  | occupies_local n i t : first_declaration body n = Some i → named_type g' (text i) = Some t →
      occupies g g' data body c (Declared n) (code_generator_binary_get_local_offset c n, room t)
  | occupies_temp n i : i ∈ body → temp_name (dest i) = Some n →
      occupies g g' data body c (Temporary n) (code_generator_binary_get_temp_offset c n, 8)%Z
  | occupies_returned k o n : indirect_return_slot_offsets c !! k = Some o → returned_sizes g' body !! k = Some n →
      occupies g g' data body c (Call_result k) (o, n)
  | occupies_saved r o : (r, o) ∈ saved_slots c → occupies g g' data body c (Saved r) (o, 8)%Z.

(** The frame as what lives in it sees it. *)
Record frame_blocks_ok (g g' : CodeGenerator) (data : FunctionDeclaration ASTNode) (body : code)
    (c : BinaryFunctionContext) : Prop := {
  fb_apart : ∀ x y b b', occupies g g' data body c x b → occupies g g' data body c y b' → x ≠ y → disjoint_blocks b b';
  fb_inside : ∀ x b, occupies g g' data body c x b → (0 <= b.1 - b.2 ∧ b.1 <= frame_size c)%Z;
  fb_declared : ∀ n i, first_declaration body n = Some i → is_Some (named_type g' (text i));
  fb_returned : length (indirect_return_slot_offsets c) = length (returned_sizes g' body);
  fb_size : (0 <= frame_size c < 2 ^ 31 ∧ frame_size c mod 16 = 0)%Z }.

Lemma saved_slot_of g g' data body c hidden P T U base total used r o :
  frame_shape g g' data body c hidden P T U base total used → (r, o) ∈ saved_slots c →
  ∃ i, saved_registers c !! i = Some r ∧ o = (base + total + Z.of_nat (i + 1) * 8)%Z ∧ i < length (saved_registers c).
Proof.
  intros Hs (i & Hi)%list_elem_of_lookup. exists i. unfold saved_slots in Hi. apply lookup_zip_Some in Hi as [Hi1 Hi2].
  rewrite (sh_saved Hs), list_lookup_fmap in Hi2.
  pose proof (lookup_lt_Some _ _ _ Hi1). rewrite lookup_seq_lt in Hi2 by done. injection Hi2 as <-. done.
Qed.

(** The zone a resident is in. *)
Definition zone (hidden : nat) (P T U base total F : Z) (x : resident) : Z * Z :=
  match x with
  | Hidden_pointer => (0, Z.of_nat hidden * 8) | Home _ => (Z.of_nat hidden * 8, P) | Declared _ => (P, T)
  | Temporary _ => (T, U) | Call_result _ => (base, base + total) | Saved _ => (base + total, F)
  end%Z.

Section blocks.
Context g g' data body c hidden P T U base total used
  (Hs : frame_shape g g' data body c hidden P T U base total used) (Hfit : forallb (sizes_fit g') body = true).

Lemma occupies_zone x b :
  occupies g g' data body c x b →
  ((zone hidden P T U base total (frame_size c) x).1 <= b.1 - b.2 ∧ b.1 <= (zone hidden P T U base total (frame_size c) x).2)%Z.
Proof.
  pose proof (spaced_bounds _ _ _ (sh_temps Hs)).
  intros [Hr|p (i & Hp)%list_elem_of_lookup|n i t Hi Ht|n i Hi Hn|k o n Ho Hn|r o Hin]; cbn.
  - pose proof (sh_hidden Hs) as Hh. rewrite Hr in Hh. lia.
  - rewrite (sh_homes Hs i p Hp). pose proof (sh_home Hs).
    pose proof (lookup_lt_Some _ _ _ Hp). lia.
  - pose proof (lp_range (sh_locals Hs Hfit) n i t Hi Ht). unfold code_generator_binary_get_local_offset. lia.
  - pose proof (sh_written Hs i n Hi Hn).
    pose proof (spaced_range _ _ _ n (sh_temps Hs)). unfold code_generator_binary_get_temp_offset. lia.
  - apply (rp_range (sh_returns Hs Hfit) k o n Ho Hn).
  - destruct (saved_slot_of _ _ _ _ _ _ _ _ _ _ _ _ r o Hs Hin) as (i & _ & -> & Hi).
    pose proof (sh_size Hs). lia.
Qed.

Lemma occupies_apart x y b b' :
  occupies g g' data body c x b → occupies g g' data body c y b' → x ≠ y → disjoint_blocks b b'.
Proof.
  intros Hx Hy Hne. pose proof (occupies_zone x b Hx) as Zx. pose proof (occupies_zone y b' Hy) as Zy.
  pose proof (spaced_bounds _ _ _ (sh_temps Hs)) as B1.
  pose proof (sh_home Hs) as B2. pose proof (sh_order Hs) as B3.
  pose proof (sh_below Hs) as B4. pose proof (rp_order (sh_returns Hs Hfit)) as B5.
  destruct Hx as [Hr|p Hp|n i t Hi Ht|n i Hi Hn|k o n Ho Hn|r o Hin], Hy as [Hr'|p' Hp'|n' i' t' Hi' Ht'|n' i' Hi' Hn'|k' o' n' Ho' Hn'|r' o' Hin'];
    cbn in Zx, Zy; try (unfold disjoint_blocks; cbn; lia).
  - done.
  - apply list_elem_of_lookup in Hp as (i & Hi), Hp' as (i' & Hi'). unfold disjoint_blocks. cbn.
    rewrite (sh_homes Hs i p Hi), (sh_homes Hs i' p' Hi').
    assert (i ≠ i') by (intros ->; congruence). lia.
  - eapply (lp_apart (sh_locals Hs Hfit) n n' i i'); [congruence|done..].
  - unfold disjoint_blocks. cbn. unfold code_generator_binary_get_temp_offset in *.
    pose proof (sh_parameters Hs) as Hb%spaced_bounds.
    assert (offset_of (temp_slots c) n + 8 <= offset_of (temp_slots c) n' ∨
      offset_of (temp_slots c) n' + 8 <= offset_of (temp_slots c) n)%Z; [|lia].
    apply (spaced_apart T _ U); [lia|apply Hs|congruence|lia|lia].
  - apply (rp_apart (sh_returns Hs Hfit) k k'); [congruence|done..].
  - destruct (saved_slot_of _ _ _ _ _ _ _ _ _ _ _ _ r o Hs Hin) as (i & Hi & -> & _).
    destruct (saved_slot_of _ _ _ _ _ _ _ _ _ _ _ _ r' o' Hs Hin') as (i' & Hi' & -> & _).
    unfold disjoint_blocks. cbn. assert (i ≠ i') by (intros ->; congruence). lia.
Qed.

Lemma blocks_ok : frame_blocks_ok g g' data body c.
Proof.
  pose proof (spaced_bounds _ _ _ (sh_temps Hs)). pose proof (sh_home Hs).
  pose proof (sh_order Hs). pose proof (sh_below Hs).
  pose proof (rp_order (sh_returns Hs Hfit)). pose proof (sh_size Hs).
  split.
  - exact occupies_apart.
  - intros x b Hx. pose proof (occupies_zone x b Hx) as Zx. destruct x; cbn in Zx; lia.
  - apply (lp_typed (sh_locals Hs Hfit)).
  - apply (rp_count (sh_returns Hs Hfit)).
  - split; [lia|]. apply (sh_aligned Hs).
Qed.

(** Where locals take whole slots, the emitter's view of the variables follows. *)
Lemma blocks_layout_ok :
  no_register_symbols g' → forallb (declares_scalar g') body = true → layout_ok g' c (fd_parameters data).
Proof.
  intros Hno Hsc. pose proof (rp_order (sh_returns Hs Hfit)).
  pose proof (sh_below Hs).
  eapply (layout_of_zones g' c _ P T U used (base + total) (frame_size c) hidden); try done; try apply Hs; [|lia].
  split; [apply Hs|by apply Hs|apply Hs].
Qed.

End blocks.

Lemma prepare_layout_ok g data body g' c :
  code_generator_binary_prepare_function_context g data body = Some (g', c) →
  no_register_symbols g' → forallb (declares_scalar g') body = true → forallb (sizes_fit g') body = true →
  layout_ok g' c (fd_parameters data).
Proof. intros (hidden & P & T & U & base & total & used & Hs)%prepare_shape Hno Hsc Hfit. by eapply blocks_layout_ok. Qed.

End layout.

