(* ===== verification/FunctionFacts.v ===== *)
(** * Code generation: correctness of a function

    The bytes emitted for a function, called by the convention with its arguments,
    return to the caller with the value the function returns in the intermediate
    representation; the stack pointer and the registers of the caller are as the
    convention wants them and the memory above the frame is untouched. *)

From stdpp Require Import gmap.
From S2P Require Import Prelude.
From S2P Require Import Outcome.
From S2P Require Import Types.
From S2P Require Import SymbolTable.
From S2P Require Import Selection.
From S2P Require Import Ast.
From S2P Require Import IR.
From S2P Require Import IRSemantics.
From S2P Require Import ControlFlowFacts.
From S2P Require Import BinaryEmitter.
From S2P Require Import EmitterFacts.
From S2P Require Import Encoders.
From S2P Require Import X86.
From S2P Require Import X86Facts.
From S2P Require Import EncoderFacts.
From S2P Require Import MemoryFacts.

From S2P Require Import FunctionContext.
From S2P Require Import Frame.
From S2P Require Import Operands.
From S2P Require Import Instructions.
From S2P Require Import Peephole.
From S2P Require Import FunctionDriver.
From S2P Require Import FrameFacts.
From S2P Require Import SelectionFacts.
From S2P Require Import Execution.
From S2P Require Import BranchFacts.
From S2P Require Import UnitFacts.
From S2P Require Import BodyFacts.
From S2P Require Import PrologueFacts.
From S2P Require Import LayoutFacts.

Section function.
Context {M : Machine} (g : CodeGenerator) (context : BinaryFunctionContext) (abi : BinaryAbi).
Context (body : code) (data : FunctionDeclaration ASTNode).

(** ** What the function is *)

(** Its frame, its registers and its instructions are those the theorems below cover. *)
Record function_ok : Prop := {
  fk_frame : frame_ok g context;
  fk_size : (0 <= frame_size context < 2 ^ 31)%Z;
  fk_saves : saves_ok context;
  fk_saved : ∀ x q, cell_of g context x = Some (In_register q) → q ∈ map fst (saved_slots context);
  fk_slots : ∀ x o n sg r, cell_of g context x = Some (On_stack o n sg) → r ∈ saved_slots context →
    apart (On_stack o n sg) (wide (snd r));
  fk_aliases : symbol_aliases context = [];
  fk_direct : returns_indirect context = false;
  fk_float : return_float_bits context = 0%Z;
  fk_body : ∀ i ins, body !! i = Some ins → supported g context ins = true;
  fk_diamond : ∀ i, diamond_at body i = false }.

(** The parameters with where the convention puts their arguments. *)
Definition parameter_places : option (list ((string * string) * BinaryArgLocation)) :=
  '(locations, _) ← code_generator_binary_compute_arg_layout abi
     (map (λ p, negb (code_generator_binary_named_type_float_bits g (Some p.2) =? 0)%Z) (fd_parameters data));
  Some (zip (fd_parameters data) locations).

(** ** The call *)

(** The machine [m0] calls the function: the stack has room, the return address is on
    its top and the arguments are where the convention puts them. *)
Record called (m0 : machine) (value : string → Z) (params : list ((string * string) * BinaryArgLocation)) : Prop := {
  ca_ok : machine_ok m0;
  ca_room : (2 ^ 31 + 8 <= regs m0 BINARY_GP_RSP)%Z;
  ca_top : (regs m0 BINARY_GP_RSP + 8 <= 2 ^ 64)%Z;
  ca_homes : homes_ok g context abi m0 (regs m0 BINARY_GP_RSP) value params }.

(** What can be checked before the call. *)
Definition place_check (p : (string * string) * BinaryArgLocation) : bool :=
  has_cell g context (Local p.1.1) &&
  match p.2 with
  | BINARY_ARG_IN_GP_REGISTER r => bool_decide (gp_code r ∉ frame_registers)
  | BINARY_ARG_ON_STACK o => (- 8 <=? shadow_space_size abi + o)%Z && (shadow_space_size abi + o <? 2 ^ 31 - 16)%Z
  | BINARY_ARG_IN_XMM_REGISTER _ => false
  end.

(** No argument still to be read is in a register that a parameter before it is moved to. *)
Fixpoint no_clobber (params : list ((string * string) * BinaryArgLocation)) : bool :=
  match params with
  | [] => true
  | p :: params =>
      forallb (λ q : (string * string) * BinaryArgLocation,
        match code_generator_binary_symbol_assigned_register g context p.1.1 with
        | Some r => negb (bool_decide (q.2 = BINARY_ARG_IN_GP_REGISTER r))
        | None => true
        end) params && no_clobber params
  end.

Definition function_check : bool :=
  forallb (supported g context) body && forallb (declares_scalar g) body && forallb (sizes_fit g) body &&
  forallb (λ i, negb (diamond_at body i)) (seq 0 (length body)) &&
  bool_decide (symbol_aliases context = []) && negb (returns_indirect context) && (return_float_bits context =? 0)%Z &&
  match parameter_places with Some params => forallb place_check params && no_clobber params | None => false end.

Lemma no_clobber_spec params i j p q r :
  no_clobber params = true → i < j → params !! i = Some p → params !! j = Some q →
  code_generator_binary_symbol_assigned_register g context p.1.1 = Some r → q.2 ≠ BINARY_ARG_IN_GP_REGISTER r.
Proof.
  revert i j. induction params as [|a params IH]; intros i j; cbn; [done|]. intros [Ha Hn]%andb_true_iff Hij Hi Hj Hr.
  destruct i as [|i], j as [|j]; cbn in Hi, Hj; try lia.
  - injection Hi as ->. rewrite forallb_forall in Ha. specialize (Ha q).
    rewrite Hr in Ha. intros Heq. rewrite bool_decide_eq_true_2 in Ha by done.
    by discriminate Ha; apply list_elem_of_In, list_elem_of_lookup_2 with j.
  - by apply (IH i j); [|lia|..].
Qed.

(** The call: arguments in their places, each of its parameter's type. *)
Record passed (m0 : machine) (value : string → Z) (params : list ((string * string) * BinaryArgLocation)) : Prop := {
  pa_ok : machine_ok m0;
  pa_room : (2 ^ 31 + 8 <= regs m0 BINARY_GP_RSP)%Z;
  pa_top : (regs m0 BINARY_GP_RSP + 8 <= 2 ^ 64)%Z;
  pa_arrived : ∀ p, p ∈ params → arrived abi m0 (regs m0 BINARY_GP_RSP) value p.1.1 p.2;
  pa_value : ∀ p, p ∈ params → typed (local_type g p.1.1) (value p.1.1) = value p.1.1 ∧ in_s64 (value p.1.1);
  pa_stack : ∀ p o, p ∈ params → p.2 = BINARY_ARG_ON_STACK o →
    (regs m0 BINARY_GP_RSP + argument_offset abi o <= 2 ^ 64)%Z }.

Section checked.
Context (params : list ((string * string) * BinaryArgLocation)).
Context (Hplaces : parameter_places = Some params) (Hcheck : function_check = true).
Context (Hlayout : layout_ok g context (fd_parameters data)).

(** The conditions that do not depend on the call. *)
Lemma checked_function_ok : function_ok.
Proof using Hcheck Hlayout.
  unfold function_check in Hcheck.
  apply andb_true_iff in Hcheck as [((((((H1 & _)%andb_true_iff & _)%andb_true_iff & H4)%andb_true_iff & H5)%andb_true_iff & H6)%andb_true_iff & H7)%andb_true_iff _].
  destruct Hlayout as [L1 [L2 _] _ L3 _ L4 L5 _ _ _]. split; try done.
  - by apply bool_decide_eq_true_1 in H5.
  - by apply negb_true_iff in H6.
  - by apply Z.eqb_eq in H7.
  - intros i ins Hi. rewrite forallb_forall in H1. apply H1. apply list_elem_of_In. by eapply list_elem_of_lookup_2.
  - intros i. destruct (Nat.lt_ge_cases i (length body)) as [Hlt|Hge].
    + rewrite forallb_forall in H4. apply negb_true_iff, H4. apply in_seq. lia.
    + unfold diamond_at. by rewrite drop_ge.
Qed.

Lemma place_lookup i p : params !! i = Some p → fd_parameters data !! i = Some p.1.
Proof using Hplaces.
  unfold parameter_places in Hplaces. apply bind_Some in Hplaces as ([locations k] & _ & [= <-]).
  intros Hi. destruct p as [p l]. by apply lookup_zip_Some in Hi as [? _].
Qed.

Lemma checked_homes_ok m0 value : passed m0 value params → homes_ok g context abi m0 (regs m0 BINARY_GP_RSP) value params.
Proof using All.
  intros [P1 P2 P3 P4 P5 P6]. destruct Hlayout as [_ [L2 _] _ _ _ _ _ [hidden L6] L7 L8].
  unfold function_check in Hcheck. rewrite Hplaces in Hcheck. apply andb_true_iff in Hcheck as [_ [Hp Hc]%andb_true_iff].
  rewrite forallb_forall in Hp.
  assert (∀ p, p ∈ params → place_check p = true ∧ p.1 ∈ fd_parameters data) as Hin.
  { intros p Hin. split; [by apply Hp, list_elem_of_In|]. apply list_elem_of_lookup in Hin as [i Hi].
    eapply list_elem_of_lookup_2. by apply place_lookup. }
  split.
  - intros p Hpin. destruct (Hin p Hpin) as [[Hcell _]%andb_true_iff Hd]. split; [|by apply has_cell_spec].
    specialize (L7 _ Hd). apply list_elem_of_lookup in Hd as [i Hi]. specialize (L6 i _ Hi). lia.
  - intros p Hpin. destruct (Hin p Hpin) as [[_ Hl]%andb_true_iff _]. specialize (P6 p). unfold location_ok.
    destruct (p.2) as [r|x|o]; [by apply bool_decide_eq_true_1 in Hl|done|]. specialize (P6 o Hpin eq_refl).
    apply andb_true_iff in Hl as [H1%Z.leb_le H2%Z.ltb_lt]. unfold argument_offset in *. lia.
  - intros p Hpin. split; [by apply P4|by apply P5].
  - intros i j p q Hij Hi Hj. pose proof (L6 i _ (place_lookup i p Hi)) as Hoi. pose proof (L6 j _ (place_lookup j q Hj)) as Hoj.
    split_and!.
    + intros Heq. rewrite Heq in Hoi. lia.
    + cbn. rewrite Hoi, Hoj. lia.
    + intros r Hr. by apply (no_clobber_spec params i j p q).
  - intros p r Hpin Hr. apply L8; [|done]. by destruct (Hin p Hpin).
Qed.

Lemma checked_called m0 value : passed m0 value params → called m0 value params.
Proof using All. intros Hp. pose proof (checked_homes_ok m0 value Hp). by destruct Hp. Qed.
End checked.

(** The machine is back in the caller. *)
Record returned (m0 : machine) (v : option Z) (m : machine) : Prop := {
  rd_rax : ∀ a, v = Some a → regs m BINARY_GP_RAX = u64 a;
  rd_rsp : regs m BINARY_GP_RSP = u64 (regs m0 BINARY_GP_RSP + 8);
  rd_rbp : regs m BINARY_GP_RBP = regs m0 BINARY_GP_RBP;
  rd_kept : ∀ r : BinaryGpRegister, code_generator_binary_gp_register_is_win64_nonvolatile r = true → regs m r = regs m0 r;
  rd_above : ∀ a, (regs m0 BINARY_GP_RSP <= a < 2 ^ 64)%Z → X86.memory m a = X86.memory m0 a }.

(** ** The prologue *)

Lemma prologue_correct m0 value params :
  function_ok → parameter_places = Some params → called m0 value params →
  triple (λ m, m = m0) (code_generator_binary_emit_prologue g context abi data)
    (entering g context m0 (regs m0 BINARY_GP_RSP) value (frame_size context) params).
Proof.
  intros [Hframe Hsize Hsaves _ _ _ Hdirect _ _ _] Hplaces [Hok Hroom _ Hhomes].
  unfold parameter_places in Hplaces. apply bind_Some in Hplaces as ([locations k] & Hl & [= Hp]).
  unfold code_generator_binary_emit_prologue. rewrite Hdirect. cbn [replicate app]. rewrite Hl.
  eapply triple_seq; [by apply push_frame|]. eapply triple_seq; [by apply allocate_frame|].
  eapply triple_seq; [by apply saves_correct|]. eapply triple_seq; [apply triple_ret|].
  eapply (triple_ext _ _ (for_each (home_parameter g context abi) params)).
  { intros o. rewrite <- Hp. reflexivity. }
  eapply triple_weaken; [| |by apply home_parameters_correct].
  - intros m [He Hs]. split_and!; [exact He|done|]. by intros p c ?%elem_of_nil.
  - done.
Qed.

(** ** The whole function *)

Context (emit_other : IRInstruction → Gen ()).

Lemma function_run m0 value params e id o w fuel v st' :
  function_ok → narrows_as_typed g context →
  (∀ i st, op i = IR_OP_DECLARE_LOCAL → external i st = Some st) →
  parameter_places = Some params → called m0 value params →
  emit_function_code g context abi emit_other body data (mkOutput [] [] [] [] [] [] e id) = (Some (), o) →
  good g context body (At 0 (start_state value params w)) →
  IRSemantics.run fuel body (At 0 (start_state value params w)) = Some (Halted v st') →
  emitter o = e ∧
  ∃ m, leads (out_code o) (Running 0 m0) (Returned (load m0 8 (regs m0 BINARY_GP_RSP)) m) ∧ returned m0 v m.
Proof.
  intros Hfn Hnarrow Hdeclare Hplaces Hcalled Hemit Hgood Hrun.
  destruct (prologue_correct m0 value params Hfn Hplaces Hcalled) as (p1 & (b1 & Hb1 & Hc1) & Hp1).
  destruct (Hp1 m0 eq_refl) as (m1 & Hrun1 & Hen).
  destruct Hfn as [Hframe Hsize Hsaves Hsaved Hslots Haliases Hdirect Hfloat Hbody Hdiamond].
  destruct Hcalled as [Hok Hroom Htop Hhomes]. set (s := regs m0 BINARY_GP_RSP) in *.
  set (st0 := start_state value params w) in *.
  assert (represents g context (dead body) m1 st0 m1) as HR by (by eapply entering_represents).
  destruct (epilogue_correct context m0 s Hok eq_refl Hroom Hsaves Hfloat) as (p2 & (b2 & Hb2 & Hc2) & Hp2).
  unfold emit_function_code in Hemit. unfold mbind, Gen_bind in Hemit. rewrite Hb1 in Hemit.
  set (o1 := set_code (out_code (mkOutput [] [] [] [] [] [] e id) ++ b1) (mkOutput [] [] [] [] [] [] e id)) in *.
  destruct (emit_body g context emit_other body (length body) 0 o1) as [[[]|] o2] eqn:Hbo; [|done].
  destruct (emit_body_emitted g context emit_other body m1 (length body) 0 o1 o2) as (ps & Hps & ->); [|done|exact Hbo|].
  { intros k Hk. by apply emit_next_correct. }
  cbn [get_output] in Hemit. rewrite Hb2 in Hemit.
  destruct (play_spec ps o1) as (H1 & H2 & H3 & H4 & _ & H6 & _). cbn [out_code set_code o1 app] in H1.
  set (o2 := play ps o1) in *.
  destruct (resolve_fixups_spec (length (out_code o2)) b1 ps b2 (set_code (out_code o2 ++ b2) o2) o) as (field & Hfield & -> & Hres); [| | |exact Hemit|].
  { cbn [out_code set_code]. by rewrite H1, <- app_assoc. }
  { exact H2. }
  { exact H3. }
  cbn [out_code set_code labels] in *.
  assert (length (out_code o2) = length b1 + pieces_size ps) as Hfinish.
  { rewrite H1, length_app, length_assemble by done. done. }
  rewrite Hfinish in Hres.
  destruct (body_run g context body m1 field b1 b2 ps (labels o2) Hfield Hps) with (fuel := fuel) (i := 0) (n := length b1)
    (st := st0) (m := m1) (v := v) (st' := st') as (m2 & Hl2 & HR2 & Hv); [exact H4|exact Hres| |done|done|exact Hrun|].
  { exists [], ps. split_and!; [done|cbn; lia|done]. }
  assert (leaving context m0 s (regs m2 BINARY_GP_RAX) [] m2) as Hleave by (by eapply body_end).
  destruct (Hp2 _ _ Hleave) as (m3 & Hrun3 & Hret).
  destruct (codes_snoc _ _ _ Hc2) as (b3 & b4 & -> & Hc3 & Hd4).
  split; [exact H6|]. eexists. split.
  - eapply leads_trans; [apply (codes_leads [] b1 _ p1 m0 m1 Hc1 Hrun1)|].
    eapply leads_trans; [exact Hl2|]. set (middle := assemble field (length b1) ps) in *.
    assert (length b1 + pieces_size ps = length (b1 ++ middle)) as Hlen.
    { unfold middle. by rewrite length_app, length_assemble. }
    rewrite Hlen. replace (b1 ++ middle ++ b3 ++ b4) with ((b1 ++ middle) ++ b3 ++ b4) by by rewrite <- app_assoc.
    eapply leads_trans; [apply (codes_leads (b1 ++ middle) b3 b4 p2 m2 m3 Hc3 Hrun3)|].
    rewrite <- length_app. replace ((b1 ++ middle) ++ b3 ++ b4) with (((b1 ++ middle) ++ b3) ++ b4 ++ []) by by rewrite app_nil_r, <- app_assoc.
    replace (load m0 8 s) with (load m3 8 (regs m3 RSP)); [by eapply leads_return|].
    change RSP with (gp_code BINARY_GP_RSP). rewrite (re_rsp _ _ _ _ Hret). apply load_ext. intros i Hi.
    apply (re_above _ _ _ _ Hret). pose proof (Hok BINARY_GP_RSP). rewrite u64_id by (unfold s in *; lia). lia.
  - change RSP with (gp_code BINARY_GP_RSP). rewrite (re_rsp _ _ _ _ Hret).
    destruct Hret as [R1 R2 R3 R4 R5]. split; cbn [regs X86.memory set_reg set_regs bits]; fold s.
    + intros a Ha. rewrite update_other by (intros Heq%gp_code_inj; done). by rewrite R1, (Hv a Ha).
    + by rewrite update_same.
    + by rewrite update_other by (intros Heq%gp_code_inj; done).
    + intros r Hr. rewrite update_other; [by apply R4|]. intros Heq%gp_code_inj. by subst r.
    + done.
Qed.

End function.

(** ** In the object file *)

(** The function's code is in the section [.text] at its symbol, at a multiple of 16. *)
Definition function_placed (e : BinaryEmitter) (name : string) (bytes : list byte) : Prop :=
  ∃ i s front, em_sections e !! i = Some s ∧ bsec_name s = ".text"%string ∧ bsec_data s = front ++ bytes ∧
    (Z.of_nat (length front) mod 16 = 0)%Z ∧
    symbol_map (em_symbols e) !! name =
      Some (mkBinarySymbol name BINARY_SYMBOL_GLOBAL (Some i) (Z.of_nat (length front)) (Z.of_nat (length bytes))).

Lemma align_section_spec e i e' s fill :
  binary_emitter_align_section e i BINARY_TEXT_SECTION_ALIGNMENT fill = Some e' → em_sections e !! i = Some s →
  em_symbols e' = em_symbols e ∧
  ∃ s', em_sections e' !! i = Some s' ∧ bsec_name s' = bsec_name s ∧ (bsec_size s' mod 16 = 0)%Z.
Proof.
  unfold binary_emitter_align_section, binary_emitter_get_section. intros H Hs. rewrite Hs in H. cbn [mbind option_bind] in H.
  change (BINARY_TEXT_SECTION_ALIGNMENT =? 0)%Z with false in H. cbn iota in H.
  set (s1 := if (bsec_alignment s <? _)%Z then _ else s) in H.
  assert (bsec_name s1 = bsec_name s) as Hn by (unfold s1; by destruct (_ <? _)%Z).
  assert (i < length (em_sections e)) as Hlt by by eapply lookup_lt_Some.
  unfold BINARY_TEXT_SECTION_ALIGNMENT in H. destruct (Z.eqb_spec (bsec_size s1 mod 16) 0) as [Hz|Hz]; injection H as <-.
  - split; [done|]. exists s1. cbn. by rewrite list_lookup_insert_eq.
  - split; [done|]. eexists. cbn. rewrite list_lookup_insert_eq by done. split_and!; [done|done|].
    unfold extend_section, bsec_size in *. cbn [bsec_data]. rewrite length_app, length_replicate.
    pose proof (Z.mod_pos_bound (Z.of_nat (length (bsec_data s1))) 16 ltac:(lia)).
    rewrite Nat2Z.inj_add, Z2Nat.id by lia.
    pose proof (Z.div_mod (Z.of_nat (length (bsec_data s1))) 16 ltac:(lia)) as Hd.
    match goal with |- (?x mod 16 = 0)%Z => replace x with ((Z.of_nat (length (bsec_data s1)) / 16 + 1) * 16)%Z by lia end.
    apply Z_mod_mult.
Qed.

Lemma with_emitter_spec {A} (f : BinaryEmitter → option (BinaryEmitter * A)) o a o' :
  with_emitter f o = (Some a, o') → ∃ e, f (emitter o) = Some (e, a) ∧ o' = set_emitter e o.
Proof.
  unfold with_emitter, mbind, Gen_bind, get_output. destruct (f (emitter o)) as [[e a']|]; [|done].
  intros [= <- <-]. by exists e.
Qed.

Lemma with_emitter_only_spec f o o' :
  with_emitter_only f o = (Some (), o') → ∃ e, f (emitter o) = Some e ∧ o' = set_emitter e o.
Proof. intros (e & H & ->)%with_emitter_spec. apply bind_Some in H as (e' & H & [= ->]). by exists e. Qed.

Lemma gen_bind_spec {A B} (m : Gen A) (f : A → Gen B) o b o' :
  (m ≫= f) o = (Some b, o') → ∃ a o1, m o = (Some a, o1) ∧ f a o1 = (Some b, o').
Proof. unfold mbind, Gen_bind. destruct (m o) as [[a|] o1]; [eauto|done]. Qed.

Lemma call_relocations_spec text offset l o o' :
  for_each (add_call_relocation text offset) l o = (Some (), o') →
  em_sections (emitter o') = em_sections (emitter o) ∧ em_symbols (emitter o') = em_symbols (emitter o).
Proof.
  revert o. induction l as [|r l IH]; intros o; cbn [for_each]; [by intros [= <-]|].
  intros ([] & o1 & H1 & H2)%gen_bind_spec. destruct (IH o1 H2) as [-> ->].
  apply with_emitter_only_spec in H1 as (e & He & ->). unfold done_only in He. case_match; [injection He as ->|done..].
  by apply bind_Done in H as (u & _ & [= <-]).
Qed.

Lemma get_or_create_spec e name kind characteristics alignment e' i :
  binary_emitter_get_or_create_section e name kind characteristics alignment = Some (e', i) →
  em_symbols e' = em_symbols e ∧ ∃ s, em_sections e' !! i = Some s ∧ bsec_name s = name.
Proof.
  unfold binary_emitter_get_or_create_section. destruct (String.eqb name EmptyString); [done|].
  destruct (list_find _ _) as [[j s]|] eqn:Hf; intros [= <- <-]; cbn; split; try done.
  - apply list_find_Some in Hf as (Hj & Hn & _). unfold has_section_name in Hn. apply String.eqb_eq in Hn.
    exists (reuse_section characteristics alignment s). split; [|done]. apply list_lookup_insert_eq. by eapply lookup_lt_Some.
  - eexists. split; [by apply list_lookup_middle|done].
Qed.

Lemma emit_function_section_spec name o o' :
  emitter_ok (emitter o) → (Z.of_nat (length (em_symbols (emitter o))) < 2 ^ 31)%Z →
  emit_function_section name o = (Some (), o') → function_placed (emitter o') name (out_code o).
Proof.
  intros Hok Hlen H. unfold emit_function_section in H. apply gen_bind_spec in H as (text & o1 & H1 & H).
  apply with_emitter_spec in H1 as (e1 & He1 & ->). apply gen_bind_spec in H as ([] & o2 & H2 & H).
  apply with_emitter_only_spec in H2 as (e2 & He2 & ->). cbn [emitter set_emitter] in *.
  assert (emitter_ok e2) as Hok2.
  { eapply emitter_step_ok; [|eapply step_align, He2]. eapply emitter_step_ok; [exact Hok|by eapply step_section]. }
  apply get_or_create_spec in He1 as (Hy1 & s1 & Hs1 & Hn1).
  destruct (align_section_spec _ _ _ _ _ He2 Hs1) as (Hy2 & s2 & Hs2 & Hn2 & Hm2).
  apply gen_bind_spec in H as (o3 & o3' & [= <- <-] & H). cbn [emitter set_emitter out_code] in H.
  unfold binary_emitter_get_section in H. rewrite Hs2 in H. apply gen_bind_spec in H as (s3 & o3 & [= <- <-] & H).
  apply gen_bind_spec in H as ([] & o4 & H4 & H). apply with_emitter_only_spec in H4 as (e4 & He4 & ->).
  cbn [emitter set_emitter out_code] in *. apply gen_bind_spec in H as (offset & o5 & H5 & H).
  apply with_emitter_spec in H5 as (e5 & He5 & ->). cbn [emitter set_emitter] in *.
  apply call_relocations_spec in H as [Hsec Hsym]. cbn [emitter set_emitter] in Hsec, Hsym.
  unfold done_only in He4. destruct (binary_emitter_define_symbol _ _ _ _ _ _ _) as [e|err|] eqn:Hd; [injection He4 as ->|done..].
  assert (name ≠ EmptyString) as Hname by (by intros ->).
  assert (length (em_symbols e2) = length (em_symbols (emitter o))) as Hl2 by by rewrite Hy2, Hy1.
  pose proof (define_symbol_spec true e2 name BINARY_SYMBOL_GLOBAL (Some text) (bsec_size s2) (Z.of_nat (length (out_code o)))
    Hok2 ltac:(lia) Hname) as Hspec.
  rewrite Hd in Hspec. destruct Hspec as (_ & Hsec4 & _ & Hmap). unfold binary_emitter_append_bytes, binary_emitter_get_section in He5.
  rewrite Hsec4, Hs2 in He5. cbn [mbind option_bind] in He5. injection He5 as <- <-.
  exists text, (extend_section s2 (out_code o)), (bsec_data s2). rewrite Hsec, Hsym. cbn [update_section em_sections em_symbols]. rewrite Hsec4.
  assert (text < length (em_sections e2)) as Hlt by by eapply lookup_lt_Some.
  split_and!; [by rewrite list_lookup_insert_eq|by cbn; rewrite Hn2|done|exact Hm2|by rewrite Hmap, lookup_insert_eq].
Qed.

(** C1. From the instructions of a function to its bytes in the object file, for the
    functions [function_check] accepts and the runs that are [good].  The function has only
    integer instructions on temporaries and scalar locals ([supported]: no loads, stores,
    calls, casts or floats), no variable aliased to another, no fused conditional assignment,
    and integer parameters that reach their homes without overwriting one another.  On the
    run every operation is defined, the operands of [&&] are truth values, those of a
    comparison of width 4 are 32-bit signed numbers, and every value stored in a promoted
    variable fits its type: outside these the findings show code that is not correct.  Then,
    when [code_generator_emit_binary_function] succeeds, the code is in the section [.text]
    where the function's symbol says, and calling it by the convention with arguments on
    which the function halts with a value in the intermediate representation comes back to
    the return address with the value in RAX, the stack pointer above the return address,
    the frame pointer and every register the convention preserves as they were, and the
    caller's memory untouched. *)
Theorem function_correct {M : Machine} g g' g'' abi emit_other data n body e e' id id' context params m0 value w fuel v st' :
  code_generator_binary_prepare_function_context g data body = Some (g', context) →
  function_check g' context abi body data = true → no_register_symbols g' → narrows_as_typed g' context →
  (∀ i st, op i = IR_OP_DECLARE_LOCAL → external i st = Some st) →
  emitter_ok e → (Z.of_nat (length (em_symbols e)) < 2 ^ 31)%Z →
  code_generator_emit_binary_function g abi emit_other data n body e id = Some (g'', e', id') →
  parameter_places g' abi data = Some params → passed g' abi m0 value params →
  good g' context body (At 0 (start_state value params w)) →
  IRSemantics.run fuel body (At 0 (start_state value params w)) = Some (Halted v st') →
  ∃ bytes m, function_placed e' (fd_name data) bytes ∧
    leads bytes (Running 0 m0) (Returned (load m0 8 (regs m0 BINARY_GP_RSP)) m) ∧ returned m0 v m.
Proof.
  intros Hprep Hcheck Hno Hnarrow Hdeclare He Hlen Hemit Hplaces Hpassed Hgood Hrun.
  unfold code_generator_emit_binary_function in Hemit. destruct (negb _); [done|]. rewrite Hprep in Hemit.
  cbn [mbind option_bind] in Hemit.
  match type of Hemit with match ?x with _ => _ end = _ => destruct x as [[u|] o'] eqn:Hgen; [|done] end.
  injection Hemit as <- <- <-. apply gen_bind_spec in Hgen as ([] & o & Hcode & Hsection). destruct u.
  assert (layout_ok g' context (fd_parameters data)) as Hlayout.
  { pose proof Hcheck as Hc. unfold function_check in Hc.
    apply andb_true_iff in Hc as [((((((_ & H2)%andb_true_iff & H3)%andb_true_iff & _)%andb_true_iff & _)%andb_true_iff & _)%andb_true_iff & _)%andb_true_iff _].
    by eapply prepare_layout_ok. }
  destruct (function_run g' context abi body data (emit_other g' context) m0 value params e id o w fuel v st') as (Hem & m & Hl & Hm);
    [by eapply checked_function_ok|done|done|done|by eapply checked_called|exact Hcode|done|exact Hrun|].
  exists (out_code o), m. split_and!; [|done|done]. rewrite <- Hem in He, Hlen. by apply emit_function_section_spec.
Qed.

(** ** A compiled function

    A loop that adds the numbers from [n] down to 1, compiled and called: the frame, the
    registers and the bytes are those the code generator computes. *)

(** Declarations do nothing; variables hold 64 bits. *)
Definition plain_machine : Machine := {|
  world := unit;
  float_pattern _ _ := 0%Z;
  string_address _ := 0%Z;
  label_address _ := 0%Z;
  symbol_address _ := 0%Z;
  narrow _ v := v;
  float_binary _ _ _ _ := None;
  other_unary _ _ _ _ := None;
  cast _ _ _ _ := None;
  external i st := if bool_decide (op i = IR_OP_DECLARE_LOCAL) then Some st else None |}.

(** Instructions that fit every state. *)
Lemma good_halting {M : Machine} g context body k fuel v st' :
  (∀ i ins st, body !! i = Some ins → fits g context ins st) →
  IRSemantics.run fuel body k = Some (Halted v st') → good g context body k.
Proof.
  intros Hfits Hrun. split; [|by eauto]. intros n Hn. destruct (Nat.le_gt_cases n fuel) as [Hle|Hgt].
  - replace fuel with (n + (fuel - n)) in Hrun by lia. by rewrite run_add, Hn in Hrun.
  - replace n with (fuel + (n - fuel)) in Hn by lia. rewrite run_add, Hrun in Hn. cbn in Hn. by rewrite run_halted in Hn.
Qed.

Definition sum_generator : CodeGenerator :=
  mkGenerator symbol_table_create {[1%positive := type_create TYPE_INT64 (Some "int64"%string)]}
    (λ n, if String.eqb n "int64" then Some 1%positive else None) None None (λ _, None) (λ _, None) (λ _, false).

Definition sum_data : FunctionDeclaration ASTNode :=
  mkFunction "sum" [("n", "int64")]%string (Some "int64"%string) None false false None [].

Definition sum_body : code :=
  [IRSemantics.instr IR_OP_DECLARE_LOCAL (sym "s") IR_OPERAND_NONE IR_OPERAND_NONE (Some "int64"%string);
   i_binary (sym "s") (sym "n") "-" (sym "n");
   i_label "loop";
   i_binary (temp "t") (sym "n") ">" (IRSemantics.int 0);
   i_branch_zero (temp "t") "done";
   i_binary (sym "s") (sym "s") "+" (sym "n");
   i_binary (sym "n") (sym "n") "-" (IRSemantics.int 1);
   i_jump "loop";
   i_label "done";
   i_return (sym "s")].


(** No instruction is left to the part of the emitter that is a parameter. *)
Definition no_other (_ : CodeGenerator) (_ : BinaryFunctionContext) (_ : IRInstruction) : Gen () := fail.

Definition sum_prepared : CodeGenerator * BinaryFunctionContext :=
  default (sum_generator, example_context) (code_generator_binary_prepare_function_context sum_generator sum_data sum_body).

Definition sum_emitted : option (CodeGenerator * BinaryEmitter * Z) :=
  code_generator_emit_binary_function sum_generator MS_X64_ABI no_other sum_data 1 sum_body binary_emitter_create 0.

Lemma sum_prepares :
  code_generator_binary_prepare_function_context sum_generator sum_data sum_body = Some (sum_prepared.1, sum_prepared.2).
Proof.
  unfold sum_prepared. destruct (code_generator_binary_prepare_function_context _ _ _) as [[g c]|] eqn:Hp; [done|].
  vm_compute in Hp. discriminate.
Qed.

(** [n] and [s] live in R12 and R13; the code is 83 bytes. *)
Example sum_registers : register_symbols sum_prepared.2 = [("n", 12); ("s", 13)]%Z%string ∧ frame_size sum_prepared.2 = 48%Z.
Proof. split; vm_compute; reflexivity. Qed.

Lemma sum_no_symbols n : lookup_symbol sum_prepared.1 n = None.
Proof.
  assert (symbol_table sum_prepared.1 = symbol_table_create) as Ht by (vm_compute; reflexivity).
  unfold lookup_symbol. by rewrite Ht.
Qed.

Lemma sum_narrows : narrows_as_typed (M := plain_machine) sum_prepared.1 sum_prepared.2.
Proof. intros n v _ _. unfold local_type. by rewrite sum_no_symbols. Qed.

Lemma sum_fits i ins st : sum_body !! i = Some ins → fits (M := plain_machine) sum_prepared.1 sum_prepared.2 ins st.
Proof.
  intros Hi. split_and!; [| |done].
  - intros Hop o a b Ho _ _. apply list_elem_of_lookup_2 in Hi.
    assert ((op ins = IR_OP_BINARY → text ins ≠ Some "&&"%string ∧
      code_generator_binary_instruction_compare_width sum_prepared.1 sum_prepared.2 ins ≠ 4%Z)) as Hb.
    { intros _. clear -Hi Hop. unfold sum_body in Hi. repeat (apply elem_of_cons in Hi as [->|Hi]; [try discriminate Hop; split; vm_compute; discriminate|]).
      by apply elem_of_nil in Hi. }
    destruct (Hb Hop) as [Ht Hw]. split; [by intros ->|by intros ?%Hw].
  - intros Hop. apply list_elem_of_lookup_2 in Hi. clear -Hi Hop. exfalso. unfold sum_body in Hi.
    repeat (apply elem_of_cons in Hi as [->|Hi]; [discriminate Hop|]). by apply elem_of_nil in Hi.
Qed.

Definition sum_arguments (n : string) : Z := 5%Z.

(** RCX holds 5; the stack is at 4 GiB. *)
Definition sum_call : machine :=
  mkMachine (λ r, if (r =? 1)%Z then 5%Z else if (r =? 4)%Z then (2 ^ 32)%Z else 0%Z) None (λ _, byte.of_Z 0).

Definition sum_places : list ((string * string) * BinaryArgLocation) :=
  [(("n", "int64"), BINARY_ARG_IN_GP_REGISTER BINARY_GP_RCX)]%string.

Lemma sum_passed : passed sum_prepared.1 MS_X64_ABI sum_call sum_arguments sum_places.
Proof.
  split.
  - intros r. cbn. repeat case_match; lia.
  - vm_compute. discriminate.
  - vm_compute. discriminate.
  - by intros p ->%list_elem_of_singleton.
  - intros p ->%list_elem_of_singleton. unfold local_type. rewrite sum_no_symbols. split; [done|]. by vm_compute.
  - by intros p o ->%list_elem_of_singleton.
Qed.

(** Calling the bytes of [sum] with 5 comes back with 15. *)
Lemma function_correct_witness :
  ∃ g e id bytes m, sum_emitted = Some (g, e, id) ∧ function_placed e "sum" bytes ∧
    leads bytes (Running 0 sum_call) (Returned 0 m) ∧ returned sum_call (Some 15%Z) m.
Proof.
  destruct sum_emitted as [[[g e] id]|] eqn:He; [|vm_compute in He; discriminate].
  set (st0 := start_state (M := plain_machine) sum_arguments sum_places tt).
  assert (∃ st, IRSemantics.run 60 sum_body (At 0 st0) = Some (Halted (Some 15%Z) st)) as [st Hrun].
  { eexists. vm_compute. reflexivity. }
  exists g, e, id.
  destruct (function_correct (M := plain_machine) sum_generator sum_prepared.1 g MS_X64_ABI no_other sum_data 1 sum_body
    binary_emitter_create e 0 id sum_prepared.2 sum_places sum_call sum_arguments tt 60 (Some 15%Z) st) as (bytes & m & Hp & Hl & Hr).
  - apply sum_prepares.
  - vm_compute. reflexivity.
  - intros n s Hs. by rewrite sum_no_symbols in Hs.
  - apply sum_narrows.
  - intros i st' Hop. cbn. by rewrite Hop.
  - apply emitter_steps_ok. constructor.
  - vm_compute. reflexivity.
  - exact He.
  - vm_compute. reflexivity.
  - apply sum_passed.
  - eapply good_halting; [apply sum_fits|exact Hrun].
  - exact Hrun.
  - exists bytes, m. split_and!; [done|exact Hp|exact Hl|exact Hr].
Defined.

